(* ===== verification/_CoqProject ===== *)
-Q . S2P
Prelude.v
JsString.v
Regex.v
Scope.v
Net.v
DurableMap.v
Async.v
Turn.v
ThreadRef.v
Json.v
Auth.v
HttpGate.v
Egress.v
Limits.v
TurnStream.v
Transcript.v
Sessions.v
SessionsSafety.v
Acl.v
Access.v
Idempotency.v
Signals.v
Triggers.v
Cron.v
SafeRegex.v
ShellScan.v
CommandPolicy.v
Runs.v
Lifecycle.v
RunsSafety.v
Personas.v
Panel.v
Tasks.v
Delivery.v
Reach.v
RunTrigger.v
Workers.v
Processes.v
Monitors.v
Tape.v
Compaction.v
Posture.v
Screener.v
Screening.v
Souls.v
Models.v
Config.v
Resolution.v
Approvals.v
People.v
Projects.v
Keychain.v
KeychainScript.v
KeychainSafety.v
KeychainLoad.v
SecretDrop.v
Skills.v
SkillFiles.v
Packs.v
Deploys.v
DeploysSafety.v
Gating.v
Runtime.v
Files.v
Memory.v
Consolidation.v
Bursts.v
Replay.v
SurfaceCache.v
SlackBots.v
Scheduler.v
