(* ===== verification/Prelude.v ===== *)
(** * Verification of the qm agent harness

    The program ([src/src/], TypeScript) runs agents for a team: people talk to an agent in
    sessions, each message becomes a run of a queue, workers claim runs and execute turns in
    a harness, results are delivered to where the person is, and triggers (crons, monitors)
    start turns on their own.  Around that sit the rules of who may see and do what: scopes
    and their membership, access grants, approvals, credentials, what a sandbox may reach, the
    screening of what comes in, and the policy a shell command is held to.  This library
    models the parts of that core whose behaviour is decided by the program itself, and
    proves what makes them correct.  Paths below are under [src/src/].

    ** The parts, and the files that model them

    Vocabulary and host language.
    - [Prelude] (this file): the source's boolean tests, results that may throw, record
      update, lists as the source filters, finds, sorts and updates them, insertion-ordered
      maps ([Map], whose [values()] are in insertion order), and the automation.
    - [JsString]: strings ([trim], [toLowerCase], [split], [slice], [startsWith], order by code
      units, decimal numerals).  [Regex]: the language's regular expressions with their
      backtracking semantics, for the expressions the source writes as literals.  [Json]:
      JSON values.
    - [Async]: asynchronous functions as [call]s cut at their awaits, the worlds in which they
      interleave, and a logic of weakest preconditions for them.

    The data the parts exchange.
    - [Scope] ([types.ts], [directory/person.ts], [resolution/context-filter.ts],
      [resolution/publish-audience.ts]): principals, scope identifiers, person identity,
      audiences.  [Turn] ([types.ts], [core/turn-origin.ts]): requests, results and the
      origin of a turn.  [Net] ([util/network.ts]): addresses and the networks that are
      always blocked.
    - [DurableMap] ([persistence/durable-map.ts]): the key-value interface with its laws, as
      a class; the in-memory map is an instance.  Stores over it are proved against the class
      and so hold of any map that keeps the laws.

    Running things.
    - [Runs] ([runs/memory-run-store.ts], [runs/run-store.ts]): the run queue, one definition
      for each method.  [Lifecycle] is its specification: an abstract machine over run
      records, as a step relation, with the safety properties proved by rule induction.
      [RunsSafety] proves that every sequence of calls on the queue is a sequence of steps
      of the machine, and reads the properties back on the queue.
    - [Workers] ([runs/worker.ts], [reaper.ts], [drain.ts], [task-protection.ts]): what claims
      and executes runs and takes back those of workers that died.  [Signals]
      ([run-signal-store.ts]): aborts and steers to a run.  [TurnStream] ([turn-stream.ts],
      [run-activity-store.ts], [session-state-bus.ts]): who is told of a turn as it runs.
    - [Idempotency] ([idempotency/idempotency-store.ts]): running something once, with calls
      that interleave at their awaits and a backing map other processes may change.
    - [Triggers] ([triggers/trigger-store.ts]), [Cron] ([cron/schedule.ts],
      [cron/cron-store.ts]), [Scheduler] ([cron/scheduler.ts]) and [RunTrigger]
      ([triggers/run-trigger.ts]): scheduled work, the claim of a slot, its firing, and the
      authority it acts with.
    - [Processes] ([processes/], [sandbox/process-poll.ts], [await-process-exit.ts]) and
      [Monitors] ([monitors/]): background processes and the watches on them.
    - [Delivery] ([delivery/delivery-store.ts], [delivery/run-result-delivery.ts]): the
      outbound queue and what a finished run delivers.  [Reach] ([reach/reach.ts],
      [directory/visibility.ts]): writing to somebody on another's behalf.  [Gating]
      ([slack/message-gating.ts]): which messages of a chat become turns.  [SurfaceCache]
      ([surface-cache/surface-cache.ts]): what was posted, edited and deleted there.  [SlackBots]
      ([surfaces/slack-bot-registry.ts], [slack-runtime.ts]): the bots of an organisation, and
      the plugins that run for them.
    - [Tasks] ([tasks/memory-task-store.ts]): tasks and their event log.  [Personas]
      ([agents/persona-store.ts]) and [Panel] ([agents/panel-driver.ts]): named voices, and
      how a room of them takes turns.
    - [Models] ([model/pi-models.ts]) and [Runtime] ([harness/harness-router.ts]): which harness
      and model a turn runs on.  [Limits] ([ratelimit/]): how often and for how much.

    What is remembered, and who sees it.
    - [ThreadRef] and [Transcript] ([sessions/session-store.ts] and its helpers): thread
      references, previews, the projection and window of a transcript.  [Sessions]
      ([sessions/memory-session-store.ts]): sessions, append-only logs, writer leases,
      memberships; [SessionsSafety]: sequences of its operations and the properties of
      every reachable state.
    - [Tape] ([harness/tape-fold.ts]), [Compaction] ([harness/context-compaction.ts],
      [core/orchestrator/compaction.ts]) and [Replay] ([harness/replay.ts],
      [util/message-tag.ts]): what of a session a model is given, how it is kept within its
      context, and how a log becomes messages again.
    - [Memory] ([memory/notebook.ts], [policy.ts], [memory-service.ts]), [Consolidation]
      ([memory/strategies/consolidation.ts]) and [Bursts] ([strategies/per-turn.ts]): the
      notebook of a scope, how it is kept in order, and when turns are looked through for
      facts.  [Files] ([files/file-artifact-store.ts]): file artifacts and their pages.
    - [Acl] ([acl/resource-ref.ts], [acl/acl-store.ts]): grants, over the interface
      [GrantPersistence].  [Access] ([resolution/scope-membership.ts]): who may read, write
      and manage a scope, over a directory, groups and identities that may be missing or
      fail.  [People] ([identity/identity-service.ts], [directory/directory-store.ts]) and
      [Projects] ([projects/project-store.ts]) stand behind those interfaces.
    - [Config] and [Souls] ([resolution/config-store.ts]): the settings and instructions of
      scopes.  [Resolution] ([resolution/resolution-service.ts]): what a turn resolves to.
    - [Skills] ([skills/skill-store.ts], [seed.ts], [api/app-skills.ts]) and [SkillFiles]
      ([skills/materialize.ts], [skill-collision.ts]): instructions a team keeps, and their
      files in a workspace.  [Deploys] and [DeploysSafety] ([deploy/deploy-store.ts],
      [deploy-fs.ts], [deploy-service.ts]): what a team publishes, and who reaches it.

    Who may do what.
    - [Auth] ([auth/]) and [HttpGate] ([api/server.ts], [api/http.ts],
      [api/user-scoped-routes.ts], [api/routes/route.ts]): tokens, signatures, and which
      requests reach a handler.
    - [SafeRegex] ([util/safe-regex.ts]), [ShellScan] and [CommandPolicy]
      ([policy/command-policy.ts]): the scanner of shell text, the text that rules are
      matched against, the parsing, composition and evaluation of policies.
    - [Approvals] ([core/orchestrator.ts], [tools/primitives.ts], [core/turn-outcome.ts],
      [api/app-turn.ts]): what a turn may run, and who let it.
    - [Egress] ([resolution/egress-policy.ts], [resolution/audience-floor.ts],
      [egress-authz-main.ts]): what a sandbox may connect to.
    - [Posture] ([security/security-posture.ts], [secret-masking.ts]), [Screener]
      ([security/security-screener.ts]) and [Screening] ([core/orchestrator/security-screen.ts]
      and its callers): what is screened before a model or a sandbox sees it.
    - [Keychain] ([credentials/keychain.ts]) with [KeychainScript], [KeychainSafety] and
      [KeychainLoad], and [SecretDrop] ([credentials/secret-drop.ts]): credentials, grants,
      asks, and secrets handed over by a link.

    ** How they interact

    A request passes [HttpGate.gate], or a message of a chat [Gating], and a surface resolves a
    session ([Sessions.getOrCreateByThread], keyed by the [ThreadRef]) and enqueues a run
    ([Runs.enqueue]) with the turn of [Turn].  A worker ([Workers]) claims the oldest
    pending run whose session is free ([Runs.claim]); the run's token and the session's lease
    fence a worker that lost either.  The turn resolves to layers, policies and instructions
    ([Resolution.resolve], over [Config], [Souls], [Acl] and [Access]); the policy of a command
    ([CommandPolicy]) and the posture decide what needs an approval ([Approvals]), the egress
    policy goes into the token the proxy checks ([Egress]), credentials are loaded for the
    conversation ([Keychain.materialize]), and results of tools are screened ([Screening]
    over [Screener]).  When a run settles, its result is written to the delivery queue under
    a key of the run ([Delivery.on_run_terminal] over [Delivery.enqueue]), which is why a
    second report of the same run is harmless; its turns join a burst ([Bursts]), whose facts
    are captured ([Memory.capture]) and consolidated ([Consolidation.maybeMaintain]).  A panel
    ([Panel.runPanel]) is a run whose turns are themselves turns of personas.  A cron claims
    its slot ([Cron.claimSlot]) before it fires ([Scheduler]), and a cron or a monitor
    ([Monitors]) fires a trigger ([RunTrigger]) through [Idempotency.once_begin].
    Components meet at interfaces: classes and records of operations with their laws
    ([DurableMap], [GrantPersistence], the directory and groups of [Access]), which clients
    are proved against and implementations discharge.

    ** What the theorems show

    - The queue ([RunsSafety], [Workers]): the store implements the lifecycle; at most one valid
      lease on a run and at most one running run in a session; an ended run stays as it ended
      and is announced once; a worker left alone drains it.
    - Once only ([Delivery], [Idempotency], [Scheduler], [Signals], [SecretDrop],
      [KeychainSafety], [Bursts]): one delivery for each key, work that runs once, a slot
      that fires once, signals and turns taken once and in order, links and one-time grants
      used once, under any interleaving.
    - Sessions, tape, replay, compaction: dense append-only logs, leases that exclude and
      fence, the span of a membership, confidentiality of the tape towards an audience, a
      compaction that loses and repeats nothing, messages that are well formed and complete.
    - The cache of a chat ([SurfaceCache]): the newest text wins, in whatever order events come.
      The bots of a chat ([SlackBots]): one plugin for each that runs, and what runs follows
      what is wanted.
    - Memory and files: what a capture and a consolidation change, exactly; pages that neither
      skip nor repeat.
    - Authority ([Access], [Projects], [Resolution], [Approvals], [RunTrigger], [Reach],
      [Skills], [Deploys], [KeychainSafety], [HttpGate], [Egress]): what is done was allowed to
      whoever did it; failures of the host deny.
    - Commands ([ShellScan], [CommandPolicy], [KeychainScript]): the scanner answers on every
      input; what a command would run through wrappers and payloads is what the rules see; a
      floor set by the organisation holds under every layer; a secret cannot become a
      command.
    - Screening ([Screener], [Screening]): the screen sees the whole text; a tool's output
      reaches the model clean, marked or not at all.
    - Stores ([Souls], [Deploys], [Config]): no write is lost, records stay well formed, a flush
      tells the truth.

    ** Conventions

    - Numbers are [Z]: the source's are doubles, and counters, times and sizes are taken to
      be safe integers.  [Infinity] as a limit is [None].
    - A string holds code units of the Latin-1 range.  A literal outside it stands as its
      UTF-8 bytes; a decoded shell escape outside it is [ShellScan.unrepresentable].
      [Screener] is about surrogates, and has lists of 16-bit units.
    - A method without an [await] is one atomic step; it reads the clock once.  The clock,
      fresh identifiers, digests and randomness are arguments; that identifiers are fresh is
      a hypothesis of the sequences that use them.
    - An [async] function is a [call] ([Async]) where its interleaving matters: between two
      awaits it runs alone, an await is one operation on the shared state.  A method of an
      in-memory store is atomic.
    - A value the source returns is a snapshot: no modelled function changes an object it
      has handed out, other than through the store; where the source shares an object (sets
      of listeners, bursts) it is one of a heap.  [Skills] and [Deploys] are over maps
      whose [get] returns a copy, as the map of production does.
    - [Map] is an insertion-ordered association list, [Set] a list without repetition.  A
      JSON object is its list of fields; a field named [__proto__] is not considered.
    - Exceptions are [Throw], or [Raise] in a call.  A promise that rejects is a throw at
      its await.
    - The host's collation ([localeCompare]), [new RegExp], the cron library, the list of time
      zones, cryptography, models and providers, sandboxes and content digests are
      parameters.  Where a theorem needs something of them it is a hypothesis by name, and
      its witness instantiates the parameter.
    - [DurableMap.update] is optional in the source's interface; both maps of the program
      have it, and the model takes it as present.

    ** Fuel

    Loops that are not structural have fuel.  [ShellScan] and [CommandPolicy]: one unit a turn,
    started at the length of what is left plus one, which suffices because every turn consumes
    input ([ShellScan.scanShell_total], [CommandPolicy.evaluateCommand_total] exclude
    [OutOfFuel]); the recursion of the policy into wrappers has the size of the words plus
    one, its recursion into payloads the source's own bound on depth, eight.
    [ThreadRef.walk]: the number of entries, which its theorem shows to be enough.
    [Screener.chunk_loop]: the length of the text, since the next chunk starts later
    ([Screener.chunk_loop_spec]); [Screener.classifyChunks]: the number of chunks, two of
    which a turn takes; [Screener.classify_attempts]: the source's number of attempts.
    [Panel.run_queue] and [Panel.run_rounds]: the source's own bounds on turns and rounds.
    [Posture.split_str]: the length of the text ([Posture.split_str_pieces]).
    [Processes.poll_loop]: any number above the one that [Processes.poll_loop_ends] names.
    [Workers.laps] counts the laps a worker makes, and [Workers.worker_drains_queue] shows how
    many are enough.  [Regex.replace_all] and [Regex.match_all] have the length of the text
    plus one, as every turn but the last consumes a character; the matching of [Regex] itself
    needs none: it is structural on the expression, and an iteration must consume.

    ** What is not modelled

    - Input and output and what is mostly that: the HTTP routes behind the gate, the events and
      cards of the Slack surface, sandboxes and their providers, the drivers of the
      harnesses, the orchestrator's assembly of prompts and machines, byte stores other than
      the one in memory, attachments, the web interface and plugins, the command line,
      scripts and wiring.
    - The Postgres stores: their behaviour is that of SQL statements run elsewhere; their
      contract is the interface of the store in memory, which is modelled.
    - Memory's scratch logs and their promotion; the layers, git store and providers of
      deployments; pack fetching; the texts of notices; audit, retention and administration,
      which are counters and listings.
    - Code whose decisions depend on files outside [src/src/], such as plugins and packages. *)

From Stdlib Require Export ZArith Lia Ascii String.
From stdpp Require Export strings base tactics list gmap sorting.
Export ListNotations.

#[global] Set Default Goal Selector "!".
#[global] Set Printing Projections.
#[global] Set Warnings "-clear-no-such-hyp".
#[global] Open Scope string_scope.
#[global] Open Scope list_scope.
#[global] Open Scope Z_scope.

(** ** Boolean tests written as the source writes them *)

Declare Scope js_scope.
Delimit Scope js_scope with js.
#[global] Open Scope js_scope.

(** [a === b] is the source's strict equality on a type with decidable equality. *)
Notation "a === b" := (bool_decide (a = b)) (at level 70, no associativity) : js_scope.
Notation "a !== b" := (negb (bool_decide (a = b))) (at level 70, no associativity) : js_scope.

(** A string is truthy when it is not empty; an optional string when it is present and
    not empty. *)
Definition truthy (s : string) : bool := s !== ""%string.
Definition truthy_opt (o : option string) : bool := from_option truthy false o.

(** [o ?? d]. *)
Notation "o ?? d" := (default d o) (at level 60, right associativity) : js_scope.

(** [o !== undefined]. *)
Definition is_some {A} (o : option A) : bool := match o with Some _ => true | None => false end.
Lemma is_some_true {A} (o : option A) : is_some o = true <-> is_Some o.
Proof. by destruct o; simpl; split. Qed.

(** [...(s ? { field: s } : {})] on a string that may be absent. *)
Definition if_truthy (o : option string) : option string := if truthy_opt o then o else None.
Lemma if_truthy_Some o s : if_truthy o = Some s <-> o = Some s /\ s <> "".
Proof.
  unfold if_truthy, truthy_opt, truthy. destruct o as [t|]; cbn; [|by split; [|intros [? _]]].
  case_bool_decide; cbn; naive_solver.
Qed.

(** ** Results of operations that may throw *)

Inductive result (E A : Type) : Type :=
| Ok (a : A)
| Throw (e : E).
Arguments Ok {E A} a.
Arguments Throw {E A} e.

#[export] Instance result_ret {E} : MRet (result E) := fun _ a => Ok a.
#[export] Instance result_bind {E} : MBind (result E) := fun _ _ k m =>
  match m with Ok a => k a | Throw e => Throw e end.

Lemma bind_Ok {E A B} (r : result E A) (f : A -> result E B) b :
  r ≫= f = Ok b -> exists a, r = Ok a /\ f a = Ok b.
Proof. destruct r as [a|]; [|done]. intros Hf. by exists a. Qed.

Definition is_ok {E A} (r : result E A) : bool :=
  match r with Ok _ => true | Throw _ => false end.

(** ** Record update: [r <| field := v |>] *)

(** One [Eta] instance per record lists its fields once; the update of any field is
    then derived by abstracting that field's projection in the eta-expansion. *)
Class Eta (R : Type) := eta : R -> R.
Class Update {R T : Type} (proj : R -> T) := upd : (T -> T) -> R -> R.
Arguments upd {R T} proj {Update} g r.

Ltac build_update :=
  lazymatch goal with
  | |- @Update ?R ?T ?proj =>
      let i := constr:(_ : Eta R) in
      let g := fresh "g" in let r := fresh "r" in
      intros g r;
      let t := eval hnf in (i r) in
      let t' := eval pattern (proj r) in t in
      match t' with
      | ?f _ => let b := eval cbv beta in (f (g (proj r))) in exact b
      end
  end.
#[export] Hint Extern 1 (Update _) => build_update : typeclass_instances.

Notation "r <| f := v |>" := (upd f (fun _ => v) r)
  (at level 1, left associativity, f at level 11, v at level 200, format "r  <| f  :=  v |>") : js_scope.
Notation "r <| f ::= g |>" := (upd f g r)
  (at level 1, left associativity, f at level 11, g at level 200, format "r  <| f  ::=  g |>") : js_scope.
#[global] Open Scope js_scope.

(** ** Tactics *)

(** Case analysis on the outermost [match]/[if] of the goal or of a hypothesis. *)
Ltac case_on t := let E := fresh "E" in destruct t eqn:E.
Ltac split_match :=
  match goal with
  | |- context [match ?t with _ => _ end] => case_on t
  | H : context [match ?t with _ => _ end] |- _ => case_on t
  end.
Ltac split_matches := repeat (split_match; simplify_eq/=; try done).

(** Turn boolean hypotheses into propositions. *)
Lemma eqb_true {A} `{EqDecision A} (x y : A) : (x === y) = true <-> x = y.
Proof. apply bool_decide_eq_true. Qed.
Lemma eqb_false {A} `{EqDecision A} (x y : A) : (x === y) = false <-> x <> y.
Proof. apply bool_decide_eq_false. Qed.
Lemma eqb_refl {A} `{EqDecision A} (x : A) : (x === x) = true.
Proof. by apply eqb_true. Qed.

Create HintDb js discriminated.

Ltac to_prop :=
  repeat match goal with
  | H : _ && _ = true |- _ => apply andb_true_iff in H as [? ?]
  | H : _ || _ = false |- _ => apply orb_false_iff in H as [? ?]
  | H : negb _ = true |- _ => apply negb_true_iff in H
  | H : negb _ = false |- _ => apply negb_false_iff in H
  | H : bool_decide _ = true |- _ => apply bool_decide_eq_true in H
  | H : bool_decide _ = false |- _ => apply bool_decide_eq_false in H
  | H : (_ <=? _)%Z = true |- _ => apply Z.leb_le in H
  | H : (_ <=? _)%Z = false |- _ => apply Z.leb_gt in H
  | H : (_ <? _)%Z = true |- _ => apply Z.ltb_lt in H
  | H : (_ <? _)%Z = false |- _ => apply Z.ltb_ge in H
  | H : (_ =? _)%Z = true |- _ => apply Z.eqb_eq in H
  | H : (_ =? _)%Z = false |- _ => apply Z.eqb_neq in H
  | H : (_ >=? _)%Z = _ |- _ => rewrite Z.geb_leb in H
  | H : (_ >? _)%Z = _ |- _ => rewrite Z.gtb_ltb in H
  end.

(** ** [Map]: insertion-ordered maps with unique keys *)

Section assoc.
Context {K V : Type} `{EqDecision K}.
Implicit Types (l : list (K * V)) (k : K) (v : V).

Fixpoint assoc_get k l : option V :=
  match l with
  | [] => None
  | (k', v) :: l => if decide (k = k') then Some v else assoc_get k l
  end.

(** [Map.prototype.set]: an existing key keeps its position. *)
Fixpoint assoc_set k v l : list (K * V) :=
  match l with
  | [] => [(k, v)]
  | (k', v') :: l => if decide (k = k') then (k, v) :: l else (k', v') :: assoc_set k v l
  end.

Definition assoc_delete k l : list (K * V) := filter (fun p => p.1 <> k) l.

Lemma assoc_get_set k k' v l :
  assoc_get k' (assoc_set k v l) = if decide (k = k') then Some v else assoc_get k' l.
Proof. induction l as [|[k0 v0] l IH]; simpl; repeat (case_decide; simpl); naive_solver. Qed.

Lemma assoc_get_delete k k' l :
  assoc_get k' (assoc_delete k l) = if decide (k = k') then None else assoc_get k' l.
Proof.
  unfold assoc_delete.
  induction l as [|[k0 v0] l IH]; simpl; [by case_decide|].
  rewrite filter_cons. repeat (case_decide; simpl in * ); naive_solver.
Qed.

Lemma assoc_set_keys k v l : (assoc_set k v l).*1 = if decide (k ∈ l.*1) then l.*1 else l.*1 ++ [k].
Proof.
  induction l as [|[k0 v0] l IH]; [done|]. cbn [assoc_set]. rewrite !fmap_cons. cbn [fst].
  destruct (decide (k = k0)) as [->|Hne].
  - rewrite fmap_cons, decide_True; [done|apply list_elem_of_here].
  - rewrite fmap_cons. cbn [fst]. rewrite IH.
    destruct (decide (k ∈ l.*1)) as [Hin|Hin].
    + rewrite decide_True; [done|by apply list_elem_of_further].
    + rewrite decide_False; [done|]. by rewrite elem_of_cons; intros [->|?].
Qed.

Lemma assoc_set_NoDup k v l : NoDup l.*1 -> NoDup (assoc_set k v l).*1.
Proof.
  intros Hl. rewrite assoc_set_keys. case_decide as Hin; [done|].
  apply NoDup_app; split; [done|]. split; [|apply NoDup_singleton].
  intros x Hx ->%list_elem_of_singleton. done.
Qed.

Lemma assoc_delete_keys k l : (assoc_delete k l).*1 = filter (fun k' => k' <> k) l.*1.
Proof.
  unfold assoc_delete. induction l as [|[k0 v0] l IH]; [done|].
  rewrite fmap_cons, !filter_cons. cbn [fst]. case_decide; [|done].
  by rewrite fmap_cons, IH.
Qed.

Lemma assoc_delete_NoDup k l : NoDup l.*1 -> NoDup (assoc_delete k l).*1.
Proof. rewrite assoc_delete_keys. apply NoDup_filter. Qed.

Lemma assoc_get_Some k v l : NoDup l.*1 -> assoc_get k l = Some v <-> (k, v) ∈ l.
Proof.
  induction l as [|[k0 v0] l IH]; simpl; intros Hnd.
  - split; [done|by intros ?%not_elem_of_nil].
  - apply NoDup_cons in Hnd as [Hk0 Hnd]. rewrite elem_of_cons.
    case_decide as Hk; subst; simpl in *.
    + split; [naive_solver|]. intros [[= ->]|Hin]; [done|].
      destruct Hk0. by apply (list_elem_of_fmap_2 fst) in Hin.
    + rewrite IH by done. naive_solver.
Qed.

Lemma assoc_get_None k l : assoc_get k l = None <-> k ∉ l.*1.
Proof.
  induction l as [|[k0 v0] l IH]; simpl; [by split; [intros _ ?%not_elem_of_nil|]|].
  rewrite elem_of_cons. case_decide; naive_solver.
Qed.
End assoc.

Lemma elem_of_reverse_rev {A} (x : A) (l : list A) : x ∈ rev l <-> x ∈ l.
Proof. rewrite !list_elem_of_In. symmetry. apply in_rev. Qed.
Lemma elem_of_reverse_rev_fst {A B} (x : A) (l : list (A * B)) : x ∈ l.*1 <-> x ∈ (rev l).*1.
Proof.
  rewrite !list_elem_of_fmap. by setoid_rewrite elem_of_reverse_rev.
Qed.
Lemma not_eq_None_Some_iff {A} (o : option A) : is_Some o <-> o <> None.
Proof. rewrite not_eq_None_Some. done. Qed.

(** The map itself carries the uniqueness of its keys, as a boolean so that it is proof
    irrelevant without axioms. *)
Record jsmap (K V : Type) `{EqDecision K} : Type := JsMap {
  entries : list (K * V);
  entries_ok : Is_true (bool_decide (NoDup entries.*1));
}.
Arguments JsMap {K V _} entries entries_ok.
Arguments entries {K V _} j.
Arguments entries_ok {K V _} j.

Section jsmap.
Context {K V : Type} `{EqDecision K}.
Implicit Types (m : jsmap K V) (k : K) (v : V).

Lemma entries_NoDup m : NoDup (entries m).*1.
Proof. destruct m as [l Hl]. exact (bool_decide_unpack _ Hl). Qed.

Lemma jsmap_eq m1 m2 : entries m1 = entries m2 -> m1 = m2.
Proof.
  destruct m1 as [l1 H1], m2 as [l2 H2]; simpl. intros <-. f_equal. apply Is_true_pi.
Qed.

Lemma set_ok k v m : Is_true (bool_decide (NoDup (assoc_set k v (entries m)).*1)).
Proof. apply bool_decide_pack, assoc_set_NoDup, entries_NoDup. Qed.
Lemma delete_ok k m : Is_true (bool_decide (NoDup (assoc_delete k (entries m)).*1)).
Proof. apply bool_decide_pack, assoc_delete_NoDup, entries_NoDup. Qed.

#[export] Instance jsmap_lookup : Lookup K V (jsmap K V) := fun k m => assoc_get k (entries m).
#[export] Instance jsmap_insert : Insert K V (jsmap K V) := fun k v m =>
  JsMap (assoc_set k v (entries m)) (set_ok k v m).
#[export] Instance jsmap_delete : Delete K (jsmap K V) := fun k m =>
  JsMap (assoc_delete k (entries m)) (delete_ok k m).
#[export] Instance jsmap_empty : Empty (jsmap K V) := JsMap [] I.

(** Mutation of the object stored under a key (no effect when the key is absent). *)
#[export] Instance jsmap_alter : Alter K V (jsmap K V) := fun f k m =>
  match m !! k with Some v => <[k := f v]> m | None => m end.

Definition keys m : list K := (entries m).*1.
Definition values m : list V := (entries m).*2.
Definition has k m : bool := bool_decide (is_Some (m !! k)).

Lemma lookup_set k k' v m : <[k := v]> m !! k' = if decide (k = k') then Some v else m !! k'.
Proof. apply assoc_get_set. Qed.
Lemma lookup_set_eq k v m : <[k := v]> m !! k = Some v.
Proof. by rewrite lookup_set, decide_True. Qed.
Lemma lookup_set_ne k k' v m : k <> k' -> <[k := v]> m !! k' = m !! k'.
Proof. intros. by rewrite lookup_set, decide_False. Qed.
Lemma set_set k v v' m : <[k := v]> (<[k := v']> m) = <[k := v]> m.
Proof.
  apply jsmap_eq. simpl. induction (entries m) as [|[k0 v0] l IH]; simpl; [by rewrite decide_True|].
  destruct (decide (k = k0)); simpl; [by rewrite decide_True|]. rewrite decide_False by done. by rewrite IH.
Qed.
Lemma lookup_del k k' m : delete k m !! k' = if decide (k = k') then None else m !! k'.
Proof. apply assoc_get_delete. Qed.
Lemma lookup_empty_jsmap k : (∅ : jsmap K V) !! k = None.
Proof. done. Qed.
Lemma lookup_alter_jsmap (f : V -> V) k k' m :
  alter f k m !! k' = if decide (k = k') then f <$> m !! k' else m !! k'.
Proof.
  unfold alter, jsmap_alter. destruct (m !! k) eqn:E.
  - rewrite lookup_set. case_decide; subst; by rewrite ?E.
  - case_decide; subst; by rewrite ?E.
Qed.

Lemma elem_of_entries k v m : (k, v) ∈ entries m <-> m !! k = Some v.
Proof. symmetry. apply assoc_get_Some, entries_NoDup. Qed.
Lemma elem_of_values v m : v ∈ values m <-> exists k, m !! k = Some v.
Proof.
  unfold values. rewrite list_elem_of_fmap. split.
  - intros ([k v'] & -> & Hin). exists k. by apply elem_of_entries.
  - intros [k Hk]. exists (k, v). by rewrite elem_of_entries.
Qed.
Lemma elem_of_keys k m : k ∈ keys m <-> is_Some (m !! k).
Proof.
  unfold keys. rewrite list_elem_of_fmap. split.
  - intros ([k' v] & -> & Hin). exists v. by apply elem_of_entries.
  - intros [v Hv]. exists (k, v). by rewrite elem_of_entries.
Qed.
Lemma keys_NoDup m : NoDup (keys m).
Proof. apply entries_NoDup. Qed.
Lemma has_true k m : has k m = true <-> is_Some (m !! k).
Proof. apply bool_decide_eq_true. Qed.
Lemma has_false k m : has k m = false <-> m !! k = None.
Proof. unfold has. rewrite bool_decide_eq_false. symmetry. apply eq_None_not_Some. Qed.

(** A fresh key goes to the end; an existing one keeps its place. *)
Lemma keys_set k v m :
  keys (<[k := v]> m) = if decide (is_Some (m !! k)) then keys m else keys m ++ [k].
Proof.
  unfold keys at 1. simpl. rewrite assoc_set_keys.
  destruct (decide (k ∈ (entries m).*1)) as [H|H]; case_decide as H'; try done.
  - destruct H'. by apply elem_of_keys.
  - destruct H. by apply elem_of_keys.
Qed.

Lemma entries_set_fresh k v m : m !! k = None -> entries (<[k := v]> m) = entries m ++ [(k, v)].
Proof.
  intros Hk. apply assoc_get_None in Hk. simpl.
  induction (entries m) as [|[k0 v0] l IH]; [done|].
  rewrite fmap_cons, not_elem_of_cons in Hk. destruct Hk as [Hk Hl]. simpl.
  rewrite decide_False by done. by rewrite IH.
Qed.
Lemma values_set_fresh k v m : m !! k = None -> values (<[k := v]> m) = values m ++ [v].
Proof. intros. unfold values. by rewrite entries_set_fresh, fmap_app. Qed.
End jsmap.

(** [new Map(entries)]: a later entry for a key overwrites an earlier one. *)
Definition new_map {K V} `{EqDecision K} (l : list (K * V)) : jsmap K V :=
  fold_left (fun m p => <[p.1 := p.2]> m) l ∅.

Section new_map.
Context {K V : Type} `{EqDecision K}.
Implicit Types (l : list (K * V)) (m : jsmap K V).

Lemma lookup_fold_set l m k :
  fold_left (fun m p => <[p.1 := p.2]> m) l m !! k =
    match assoc_get k (rev l) with Some v => Some v | None => m !! k end.
Proof.
  revert m. induction l as [|[k0 v0] l IH]; intros m; simpl; [done|].
  rewrite IH. clear IH. rewrite lookup_set.
  induction (rev l) as [|[k1 v1] l' IH]; simpl; repeat case_decide; naive_solver.
Qed.
Lemma lookup_new_map l k : new_map l !! k = assoc_get k (rev l).
Proof. unfold new_map. rewrite lookup_fold_set. by destruct (assoc_get _ _). Qed.
Lemma lookup_new_map_Some l k v : new_map l !! k = Some v -> (k, v) ∈ l.
Proof.
  rewrite lookup_new_map, <- (elem_of_reverse_rev _ l). generalize (rev l). clear l. intros l.
  induction l as [|[k1 v1] l IH]; simpl; [done|]. rewrite elem_of_cons.
  case_decide; [intros [= ->]; subst; auto|auto].
Qed.
Lemma lookup_new_map_is_Some l k : is_Some (new_map l !! k) <-> k ∈ l.*1.
Proof.
  rewrite lookup_new_map, not_eq_None_Some_iff, assoc_get_None.
  rewrite <- (rev_involutive l) at 2. generalize (rev l). clear l. intros l.
  rewrite <- elem_of_reverse_rev_fst. split; [by apply dec_stable|tauto].
Qed.

(** Without two entries for one key the values come back as they are. *)
Lemma entries_fold_fresh l m :
  NoDup l.*1 -> (forall k, k ∈ l.*1 -> m !! k = None) -> entries (fold_left (fun m p => <[p.1 := p.2]> m) l m) = entries m ++ l.
Proof.
  revert m. induction l as [|[k v] l IH]; intros m Hn Hm; simpl; [by rewrite app_nil_r|].
  inversion Hn as [|? ? Hk Hl]; subst. rewrite IH; [|done|].
  - rewrite entries_set_fresh by (apply Hm; simpl; by left). by rewrite <- app_assoc.
  - intros k' Hk'. rewrite lookup_set_ne; [apply Hm; simpl; by right|]. intros ->. done.
Qed.
Lemma values_new_map l : NoDup l.*1 -> values (new_map l) = l.*2.
Proof. intros Hn. unfold values, new_map. rewrite entries_fold_fresh; [done|done|]. intros. apply lookup_empty_jsmap. Qed.
End new_map.

Create Rewrite HintDb js_rw.
#[export] Hint Rewrite @lookup_set_eq @lookup_empty_jsmap : js_rw.

(** ** Arrays *)

(** [Array.prototype.slice(s, e)] with its relative indices: a negative index counts from
    the end, and both are clamped to the array. *)
Definition rel_index (len i : Z) : nat :=
  Z.to_nat (if i <? 0 then Z.max 0 (len + i) else Z.min i len).
Definition slice_from {A} (s : Z) (l : list A) : list A :=
  drop (rel_index (Z.of_nat (length l)) s) l.
Definition slice {A} (s e : Z) (l : list A) : list A :=
  let len := Z.of_nat (length l) in
  drop (rel_index len s) (take (rel_index len e) l).

(** [[...new Set(xs)]]: duplicates dropped, the first occurrence kept in place. *)
Fixpoint dedup_from {A} `{EqDecision A} (seen : list A) (l : list A) : list A :=
  match l with
  | [] => []
  | x :: l => if decide (x ∈ seen) then dedup_from seen l else x :: dedup_from (x :: seen) l
  end.
Definition dedup {A} `{EqDecision A} (l : list A) : list A := dedup_from [] l.

Section dedup.
Context {A : Type} `{EqDecision A}.
Implicit Types l seen : list A.

Lemma elem_of_dedup_from x seen l : x ∈ dedup_from seen l <-> x ∈ l /\ x ∉ seen.
Proof.
  revert seen. induction l as [|y l IH]; intros seen; simpl.
  - split; [by intros ?%not_elem_of_nil|by intros [?%not_elem_of_nil _]].
  - case_decide as Hy.
    + rewrite IH, elem_of_cons. split; [tauto|]. intros [[->|?] ?]; [done|tauto].
    + rewrite !elem_of_cons, IH, elem_of_cons.
      destruct (decide (x = y)) as [->|]; tauto.
Qed.
Lemma elem_of_dedup x l : x ∈ dedup l <-> x ∈ l.
Proof.
  unfold dedup. rewrite elem_of_dedup_from.
  split; [tauto|]. intros. split; [done|apply not_elem_of_nil].
Qed.
Lemma dedup_from_NoDup seen l : NoDup (dedup_from seen l).
Proof.
  revert seen. induction l as [|y l IH]; intros seen; simpl; [constructor|].
  case_decide; [done|]. constructor; [|done].
  rewrite elem_of_dedup_from. intros [_ Hn]. apply Hn, list_elem_of_here.
Qed.
Lemma dedup_NoDup l : NoDup (dedup l).
Proof. apply dedup_from_NoDup. Qed.
Lemma dedup_from_id seen l : NoDup l -> (forall x, x ∈ l -> x ∉ seen) -> dedup_from seen l = l.
Proof.
  revert seen. induction l as [|y l IH]; intros seen Hnd Hs; simpl; [done|].
  apply NoDup_cons in Hnd as [Hy Hnd].
  rewrite decide_False by (apply Hs, list_elem_of_here).
  rewrite IH; [done|done|]. intros x Hx. rewrite not_elem_of_cons. split.
  - by intros ->.
  - apply Hs. by apply list_elem_of_further.
Qed.
Lemma dedup_id l : NoDup l -> dedup l = l.
Proof. intros. apply dedup_from_id; [done|]. intros. apply not_elem_of_nil. Qed.
(** Appending one element to an array without duplicates. *)
Lemma dedup_from_snoc seen l x :
  dedup_from seen (l ++ [x]) =
    dedup_from seen l ++ (if decide (x ∈ seen \/ x ∈ l) then [] else [x]).
Proof.
  revert seen. induction l as [|y l IH]; intros seen; simpl.
  - repeat case_decide; try done; exfalso; set_solver.
  - destruct (decide (y ∈ seen)); rewrite IH; simpl;
      repeat case_decide; try done; exfalso; set_solver.
Qed.
End dedup.

(** [Array.prototype.sort] is stable.  A comparator is a function to [Z]; elements that
    compare equal keep their order. *)
Section sort.
Context {A : Type} (cmp : A -> A -> Z).

Fixpoint insert_sorted (x : A) (l : list A) : list A :=
  match l with
  | [] => [x]
  | y :: l => if cmp x y <=? 0 then x :: y :: l else y :: insert_sorted x l
  end.
Definition js_sort (l : list A) : list A := foldr insert_sorted [] l.

Lemma insert_sorted_perm x l : insert_sorted x l ≡ₚ x :: l.
Proof.
  induction l as [|y l IH]; simpl; [done|].
  destruct (cmp x y <=? 0); [done|]. by rewrite IH, Permutation_swap.
Qed.
Lemma js_sort_perm l : js_sort l ≡ₚ l.
Proof. induction l as [|x l IH]; simpl; [done|]. by rewrite insert_sorted_perm, IH. Qed.
Lemma elem_of_js_sort x l : x ∈ js_sort l <-> x ∈ l.
Proof. by rewrite js_sort_perm. Qed.
Lemma length_js_sort l : length (js_sort l) = length l.
Proof. by rewrite js_sort_perm. Qed.
End sort.

(** A sorted array stays as it is. *)
Lemma js_sort_id {A} (cmp : A -> A -> Z) l : StronglySorted (fun x y => cmp x y <= 0) l -> js_sort cmp l = l.
Proof.
  induction l as [|x l IH]; intros H; [done|]. inversion H as [|? ? Hs Hx]; subst. simpl. rewrite IH by done.
  destruct l as [|y l]; [done|]. simpl. inversion Hx; subst. by destruct (Z.leb_spec (cmp x y) 0); [|lia].
Qed.

(** What a comparator must satisfy for the result of the sort to be determined. *)
Class Comparator {A} (cmp : A -> A -> Z) : Prop := {
  cmp_total x y : cmp x y <= 0 \/ cmp y x <= 0;
  cmp_trans x y z : cmp x y <= 0 -> cmp y z <= 0 -> cmp x z <= 0;
}.

#[export] Instance comparator_asc {A} (key : A -> Z) : Comparator (fun a b => key a - key b).
Proof. split; intros; lia. Qed.
#[export] Instance comparator_desc {A} (key : A -> Z) : Comparator (fun a b => key b - key a).
Proof. split; intros; lia. Qed.

Section sorted.
Context {A : Type} (cmp : A -> A -> Z) `{!Comparator cmp}.
Local Abbreviation le x y := (cmp x y <= 0).

Lemma insert_sorted_sorted x l :
  StronglySorted (fun x y => le x y) l -> StronglySorted (fun x y => le x y) (insert_sorted cmp x l).
Proof.
  induction l as [|y l IH]; simpl; intros Hs; [by repeat constructor|].
  inversion Hs as [|? ? Hl Hy]; subst.
  destruct (cmp x y <=? 0) eqn:E; to_prop.
  - constructor; [done|]. constructor; [done|].
    eapply Forall_impl; [exact Hy|]. intros z Hz. by eapply cmp_trans.
  - constructor; [by apply IH|].
    rewrite insert_sorted_perm. constructor; [|done].
    destruct (cmp_total x y); lia.
Qed.
Lemma js_sort_sorted l : StronglySorted (fun x y => le x y) (js_sort cmp l).
Proof. induction l as [|x l IH]; simpl; [constructor|by apply insert_sorted_sorted]. Qed.

(** The first element of the sorted array is a minimum, and the earliest one. *)
Lemma js_sort_head_le x l r : js_sort cmp l = x :: r -> forall y, y ∈ l -> le x y.
Proof.
  intros E y Hy. pose proof (js_sort_sorted l) as Hs. rewrite E in Hs.
  inversion Hs as [|? ? _ Hall]; subst.
  rewrite <- (elem_of_js_sort cmp), E, elem_of_cons in Hy. destruct Hy as [->|Hy].
  - destruct (cmp_total x x); lia.
  - rewrite Forall_forall in Hall. auto.
Qed.
Lemma insert_sorted_head x l :
  exists y r, insert_sorted cmp x l = y :: r /\
    ((y = x /\ forall z, head l = Some z -> le x z) \/ (head l = Some y /\ ~ le x y)).
Proof.
  destruct l as [|z l]; simpl.
  - exists x, []. split; [done|]. left. split; [done|]. done.
  - destruct (cmp x z <=? 0) eqn:E; to_prop.
    + exists x, (z :: l). split; [done|]. left. split; [done|].
      intros z' Hz. by inversion Hz; subst.
    + eexists z, _. split; [done|]. right. split; [done|]. lia.
Qed.
Lemma js_sort_head_first l x r :
  js_sort cmp l = x :: r -> exists l1 l2, l = l1 ++ x :: l2 /\ forall y, y ∈ l1 -> ~ le y x.
Proof.
  revert x r. induction l as [|a l IH]; simpl; intros x r E; [done|].
  destruct (insert_sorted_head a (js_sort cmp l)) as (y & r' & E' & Hc).
  rewrite E in E'. injection E' as <- <-.
  destruct Hc as [[-> _]|[Hhd Hn]].
  - exists [], l. split; [done|]. intros y ?%not_elem_of_nil. done.
  - destruct (js_sort cmp l) as [|y l'] eqn:Es; [done|]. simpl in Hhd. injection Hhd as ->.
    destruct (IH x l' eq_refl) as (l1 & l2 & -> & Hl1).
    exists (a :: l1), l2. split; [done|]. intros z [->|Hz]%elem_of_cons; auto.
Qed.
Lemma js_sort_nil_inv l : js_sort cmp l = [] -> l = [].
Proof.
  intros E. pose proof (js_sort_perm cmp l) as Hp. rewrite E in Hp.
  by apply Permutation_nil in Hp.
Qed.
End sorted.

(** [Array.prototype.filter] with the source's boolean predicates. *)
Fixpoint js_filter {A} (p : A -> bool) (l : list A) : list A :=
  match l with
  | [] => []
  | x :: l => if p x then x :: js_filter p l else js_filter p l
  end.
Lemma elem_of_js_filter {A} (p : A -> bool) l x : x ∈ js_filter p l <-> p x = true /\ x ∈ l.
Proof.
  induction l as [|y l IH]; simpl; [split; [by intros ?%not_elem_of_nil|by intros [_ ?%not_elem_of_nil]]|].
  destruct (p y) eqn:E; rewrite ?elem_of_cons, IH, ?elem_of_cons; split.
  - by intros [->|[? ?]]; auto.
  - intros [? [->|?]]; auto.
  - by intros [? ?]; auto.
  - intros [? [->|?]]; [congruence|auto].
Qed.
Lemma js_filter_app {A} (p : A -> bool) l1 l2 :
  js_filter p (l1 ++ l2) = js_filter p l1 ++ js_filter p l2.
Proof. induction l1 as [|x l1 IH]; simpl; [done|]. destruct (p x); by rewrite ?IH. Qed.
Lemma js_filter_id {A} (p : A -> bool) l : (forall x, x ∈ l -> p x = true) -> js_filter p l = l.
Proof.
  induction l as [|x l IH]; simpl; intros Hp; [done|].
  rewrite (Hp x), IH; [done| |apply list_elem_of_here].
  intros y Hy. apply Hp. by apply list_elem_of_further.
Qed.
Lemma js_filter_sublist {A} (p : A -> bool) l : js_filter p l `sublist_of` l.
Proof. induction l as [|x l IH]; simpl; [done|]. destruct (p x); by constructor. Qed.
Lemma map_sublist {A B} (f : A -> B) l1 l2 : l1 `sublist_of` l2 -> map f l1 `sublist_of` map f l2.
Proof. induction 1; simpl; by constructor. Qed.
Lemma js_filter_nil {A} (p : A -> bool) l :
  js_filter p l = [] <-> forall x, x ∈ l -> p x = false.
Proof.
  induction l as [|y l IH]; simpl.
  - split; [by intros _ x ?%not_elem_of_nil|done].
  - destruct (p y) eqn:E.
    + split; [done|]. intros Hf. rewrite (Hf y) in E; [done|apply list_elem_of_here].
    + rewrite IH. setoid_rewrite elem_of_cons. split; [intros Hf x [->|?]; auto|auto].
Qed.

Lemma list_eq_nil_elem_of {A} (l : list A) : (forall x, x ∉ l) -> l = [].
Proof. destruct l as [|x l]; [done|]. intros Hn. destruct (Hn x). apply list_elem_of_here. Qed.

Lemma NoDup_filter_single {A} `{EqDecision A} (l : list A) x :
  NoDup l -> x ∈ l -> length (filter (fun y => y = x) l) = 1%nat.
Proof.
  induction 1 as [|y l Hy Hl IH]; rewrite ?elem_of_nil, ?elem_of_cons; [done|].
  assert (Hnil : filter (fun z => z = y) l = []).
  { apply list_eq_nil_elem_of. intros z [-> ?]%list_elem_of_filter. done. }
  rewrite filter_cons. intros [->|Hx]; case_decide; simplify_eq; simpl; [by rewrite Hnil|done|auto].
Qed.

(** [some], [every], [includes], [find], [findLast] and [findIndex]. *)
Definition some {A} (p : A -> bool) (l : list A) : bool := existsb p l.
Definition every {A} (p : A -> bool) (l : list A) : bool := forallb p l.
Definition includes {A} `{EqDecision A} (l : list A) (x : A) : bool := bool_decide (x ∈ l).
Lemma some_true {A} (p : A -> bool) l : some p l = true <-> exists x, x ∈ l /\ p x = true.
Proof. unfold some. rewrite existsb_exists. by setoid_rewrite list_elem_of_In. Qed.
Lemma some_false {A} (p : A -> bool) l : some p l = false <-> forall x, x ∈ l -> p x = false.
Proof.
  rewrite <- not_true_iff_false, some_true. split.
  - intros Hn x Hx. apply not_true_iff_false. intros Hp. apply Hn. eauto.
  - intros Hf (x & Hx & Hp). by rewrite Hf in Hp.
Qed.
Lemma every_true {A} (p : A -> bool) l : every p l = true <-> forall x, x ∈ l -> p x = true.
Proof. unfold every. rewrite forallb_forall. by setoid_rewrite list_elem_of_In. Qed.
Lemma includes_true {A} `{EqDecision A} (l : list A) x : includes l x = true <-> x ∈ l.
Proof. apply bool_decide_eq_true. Qed.
Lemma includes_false {A} `{EqDecision A} (l : list A) x : includes l x = false <-> x ∉ l.
Proof. apply bool_decide_eq_false. Qed.

Lemma existsb_mapped {A B} (f : A -> B) (p : B -> bool) l :
  existsb p (map f l) = existsb (fun x => p (f x)) l.
Proof. induction l as [|x l IH]; simpl; [done|]. by rewrite IH. Qed.
Lemma forallb_mapped {A B} (f : A -> B) (p : B -> bool) l :
  forallb p (map f l) = forallb (fun x => p (f x)) l.
Proof. induction l as [|x l IH]; simpl; [done|]. by rewrite IH. Qed.
Lemma existsb_same {A} (p q : A -> bool) l : (forall x, p x = q x) -> existsb p l = existsb q l.
Proof. intros H. induction l as [|x l IH]; simpl; [done|]. by rewrite H, IH. Qed.
Lemma forallb_same {A} (p q : A -> bool) l : (forall x, p x = q x) -> forallb p l = forallb q l.
Proof. intros H. induction l as [|x l IH]; simpl; [done|]. by rewrite H, IH. Qed.

Fixpoint find {A} (p : A -> bool) (l : list A) : option A :=
  match l with [] => None | x :: l => if p x then Some x else find p l end.
Definition find_last {A} (p : A -> bool) (l : list A) : option A := find p (rev l).
Fixpoint find_index {A} (p : A -> bool) (l : list A) : option nat :=
  match l with
  | [] => None
  | x :: l => if p x then Some 0%nat else S <$> find_index p l
  end.
Lemma find_Some {A} (p : A -> bool) l x : find p l = Some x -> x ∈ l /\ p x = true.
Proof.
  induction l as [|y l IH]; simpl; [done|]. rewrite elem_of_cons.
  destruct (p y) eqn:E; [by intros [= ->]; auto|]. intros [? ?]%IH; auto.
Qed.
Lemma find_None {A} (p : A -> bool) l : find p l = None <-> forall x, x ∈ l -> p x = false.
Proof.
  induction l as [|y l IH]; simpl.
  - split; [by intros _ x ?%not_elem_of_nil|done].
  - setoid_rewrite elem_of_cons. destruct (p y) eqn:E; [split; [done|]|].
    + intros Hf. rewrite (Hf y) in E; [done|by left].
    + rewrite IH. split; [intros Hf x [->|?]; auto|auto].
Qed.

(** ** Traces of operations *)

(** A component is run by a sequence of operations.  [reachable init step s] says that [s]
    is the state after some such sequence; invariants are proved by rule induction. *)
Section reach.
Context {St : Type} (init : St -> Prop) (step : St -> St -> Prop).

Definition reachable (s : St) : Prop := exists s0, init s0 /\ rtc step s0 s.

Lemma reachable_init s : init s -> reachable s.
Proof. intros. by exists s. Qed.
Lemma reachable_step s s' : reachable s -> step s s' -> reachable s'.
Proof. intros (s0 & ? & ?) ?. exists s0. split; [done|by eapply rtc_r]. Qed.
Lemma reachable_rtc s s' : reachable s -> rtc step s s' -> reachable s'.
Proof. intros Hs Hr. induction Hr; eauto using reachable_step. Qed.

Lemma rtc_invariant (I : St -> Prop) s s' :
  (forall s s', I s -> step s s' -> I s') -> rtc step s s' -> I s -> I s'.
Proof. intros Hstep Hr. induction Hr; eauto. Qed.
Lemma invariant_reachable (I : St -> Prop) s :
  (forall s, init s -> I s) -> (forall s s', I s -> step s s' -> I s') -> reachable s -> I s.
Proof. intros Hi Hs (s0 & H0 & Hr). eapply rtc_invariant; eauto. Qed.
(** An invariant whose preservation may use that the state is reachable. *)
Lemma invariant_reachable_strong (I : St -> Prop) s :
  (forall s, init s -> I s) ->
  (forall s s', reachable s -> I s -> step s s' -> I s') -> reachable s -> I s.
Proof.
  intros Hi Hs Hr.
  enough (reachable s /\ I s) as [_ ?] by done.
  apply (invariant_reachable (fun s => reachable s /\ I s)); [| |done].
  - eauto using reachable_init.
  - intros s1 s2 [? ?] ?. eauto using reachable_step.
Qed.
End reach.

(** A forward simulation between two step systems: every reachable concrete state is
    related to a reachable abstract state. *)
Section simulation.
Context {C A : Type} (cinit : C -> Prop) (cstep : C -> C -> Prop).
Context (ainit : A -> Prop) (astep : A -> A -> Prop) (R : C -> A -> Prop).

Lemma simulation_reachable :
  (forall c, cinit c -> exists a, ainit a /\ R c a) ->
  (forall c c' a, reachable cinit cstep c -> R c a -> cstep c c' ->
    exists a', rtc astep a a' /\ R c' a') ->
  forall c, reachable cinit cstep c -> exists a, reachable ainit astep a /\ R c a.
Proof.
  intros Hi Hs c Hc.
  eapply (invariant_reachable_strong cinit cstep
    (fun c => exists a, reachable ainit astep a /\ R c a)); [| |exact Hc].
  - intros c0 Hc0. destruct (Hi _ Hc0) as (a & Ha & HR). eauto using reachable_init.
  - intros c1 c2 Hr (a & Ha & HR) Hst.
    destruct (Hs _ _ _ Hr HR Hst) as (a' & Ha' & HR'). eauto using reachable_rtc.
Qed.
End simulation.
