(* ===== verification/JsString.v ===== *)
(** * Strings as the source uses them

    A string is a sequence of code units below 256 (the Latin-1 range), so that string
    literals are Rocq strings.  White space and lower-casing follow the language on that
    range; the order is by code units. *)

From S2P Require Import Prelude.

#[local] Open Scope string_scope.
#[global] Arguments String.append !s1 s2 /.

(** [String.prototype.startsWith], [endsWith], [includes]. *)
Fixpoint starts_with (s p : string) {struct p} : bool :=
  match p, s with
  | "", _ => true
  | String c p, String d s => (c === d) && starts_with s p
  | String _ _, "" => false
  end.
Fixpoint ends_with (s p : string) : bool :=
  (s === p) || match s with "" => false | String _ s' => ends_with s' p end.
Fixpoint str_includes (s p : string) : bool :=
  starts_with s p || match s with "" => false | String _ s' => str_includes s' p end.

(** [s.slice(n)] and [s.slice(0, n)] for a non-negative [n]. *)
Fixpoint str_drop (n : nat) (s : string) : string :=
  match n, s with O, _ => s | S n, String _ s => str_drop n s | S _, "" => "" end.
Fixpoint str_take (n : nat) (s : string) : string :=
  match n, s with O, _ => "" | S n, String c s => String c (str_take n s) | S _, "" => "" end.

#[global] Arguments str_drop !n !s /.
#[global] Arguments str_take !n !s /.

(** [s.indexOf(p)], [None] for -1. *)
Fixpoint index_of (s p : string) : option nat :=
  if starts_with s p then Some 0%nat
  else match s with "" => None | String _ s' => S <$> index_of s' p end.

(** White space: TAB, LF, VT, FF, CR, SP and NBSP. *)
Definition is_space (c : ascii) : bool :=
  let n := N_of_ascii c in
  (N.leb 9 n && N.leb n 13) || N.eqb n 32 || N.eqb n 160.

Definition lower_ascii (c : ascii) : ascii :=
  let n := N_of_ascii c in
  if (N.leb 65 n && N.leb n 90) || (N.leb 192 n && N.leb n 214) || (N.leb 216 n && N.leb n 222)
  then ascii_of_N (n + 32) else c.
Fixpoint to_lower (s : string) : string :=
  match s with "" => "" | String c s => String (lower_ascii c) (to_lower s) end.

Fixpoint str_rev_onto (acc s : string) : string :=
  match s with "" => acc | String c s => str_rev_onto (String c acc) s end.
Definition str_rev (s : string) : string := str_rev_onto "" s.

(** [trimStart], [trimEnd], [trim]. *)
Fixpoint trim_start (s : string) : string :=
  match s with "" => "" | String c s' => if is_space c then trim_start s' else s end.
Fixpoint trim_end (s : string) : string :=
  match s with
  | "" => ""
  | String c s =>
      match trim_end s with
      | "" => if is_space c then "" else String c ""
      | t => String c t
      end
  end.
Definition trim (s : string) : string := trim_end (trim_start s).

(** [s.split(c)] for a one-character separator. *)
Fixpoint split_on (c : ascii) (s : string) : list string :=
  match s with
  | "" => [""]
  | String a s =>
      if decide (a = c) then "" :: split_on c s
      else match split_on c s with
           | [] => [String a ""]
           | w :: ws => String a w :: ws
           end
  end.

(** The array method [join]. *)
Fixpoint join (sep : string) (l : list string) : string :=
  match l with
  | [] => ""
  | [x] => x
  | x :: l => x ++ sep ++ join sep l
  end.

(** [s.replace(/\s+/g, " ")]. *)
Fixpoint squeeze_from (in_space : bool) (s : string) : string :=
  match s with
  | "" => ""
  | String c s =>
      if is_space c
      then if in_space then squeeze_from true s else String " " (squeeze_from true s)
      else String c (squeeze_from false s)
  end.
Definition squeeze (s : string) : string := squeeze_from false s.

(** [a < b] on strings: lexicographic by code unit.  [str_cmp] is the three-way comparator
    the source spells out as [a < b ? -1 : a > b ? 1 : 0]. *)
Definition str_ltb (a b : string) : bool := String.ltb a b.
Definition str_cmp (a b : string) : Z :=
  if str_ltb a b then -1 else if str_ltb b a then 1 else 0.

(** The double quote. *)
Definition dq : string := String (ascii_of_N 34) "".

(** Character classes and a test of every character. *)
Definition in_range (lo hi : N) (c : ascii) : bool := N.leb lo (N_of_ascii c) && N.leb (N_of_ascii c) hi.
Definition is_digit (c : ascii) : bool := in_range 48 57 c.
Definition is_letter (c : ascii) : bool := in_range 65 90 c || in_range 97 122 c.
Definition is_hex (c : ascii) : bool := is_digit c || in_range 65 70 c || in_range 97 102 c.
(** [\w]. *)
Definition is_word (c : ascii) : bool := is_letter c || is_digit c || (c === "_"%char).
Fixpoint str_every (p : ascii -> bool) (s : string) : bool :=
  match s with "" => true | String c s => p c && str_every p s end.
Fixpoint str_some (p : ascii -> bool) (s : string) : bool :=
  match s with "" => false | String c s => p c || str_some p s end.
Definition str_len (s : string) : Z := Z.of_nat (String.length s).
(** The first character, and the last one. *)
Definition str_head (s : string) : option ascii := match s with "" => None | String c _ => Some c end.
Fixpoint str_last (s : string) : option ascii :=
  match s with "" => None | String c "" => Some c | String _ s => str_last s end.

(** ** Lemmas *)

Lemma starts_with_spec s p : starts_with s p = true <-> exists t, s = p ++ t.
Proof.
  revert s. induction p as [|c p IH]; intros s; simpl; [split; [by exists s|done]|].
  destruct s as [|d s]; [split; [done|by intros [? ?]]|].
  rewrite andb_true_iff, eqb_true, IH. split.
  - intros [-> [t ->]]. by exists t.
  - intros [t [= -> ->]]. eauto.
Qed.

Lemma str_drop_app p t : str_drop (String.length p) (p ++ t) = t.
Proof. by induction p. Qed.

Lemma str_append_nil_r (s : string) : s ++ "" = s.
Proof. by induction s as [|c s IH]; simpl; [|rewrite IH]. Qed.
(** Lengths of slices and of concatenations. *)
Lemma length_str_take n s : String.length (str_take n s) = Nat.min n (String.length s).
Proof. revert s. induction n as [|n IH]; intros [|c s]; simpl; auto. Qed.
Lemma length_str_drop n s : String.length (str_drop n s) = (String.length s - n)%nat.
Proof. revert s. induction n as [|n IH]; intros [|c s]; simpl; auto. Qed.
Lemma str_every_app p a b : str_every p (a ++ b) = str_every p a && str_every p b.
Proof. induction a as [|c a IH]; simpl; [done|]. by rewrite IH, andb_assoc. Qed.
Lemma str_every_take p n s : str_every p s = true -> str_every p (str_take n s) = true.
Proof.
  revert s. induction n as [|n IH]; intros [|c s]; cbn; try done. intros [H1 H2]%andb_true_iff. by rewrite H1, IH.
Qed.
Lemma str_every_trim_start p s : str_every p s = true -> str_every p (trim_start s) = true.
Proof. induction s as [|c s IH]; [done|]. cbn. intros [H1 H2]%andb_true_iff. destruct (is_space c); [by apply IH|]. cbn. by rewrite H1, H2. Qed.
Lemma str_every_trim_end p s : str_every p s = true -> str_every p (trim_end s) = true.
Proof.
  induction s as [|c s IH]; [done|]. cbn [trim_end str_every]. intros [H1 H2]%andb_true_iff. specialize (IH H2).
  destruct (trim_end s) as [|d t]; [destruct (is_space c); [done|]; cbn; by rewrite H1|]. change (p c && str_every p (String d t) = true). by rewrite H1, IH.
Qed.
Lemma length_append a b : String.length (a ++ b) = (String.length a + String.length b)%nat.
Proof. induction a as [|c a IH]; simpl; auto. Qed.
Lemma str_append_assoc (a b c : string) : (a ++ b) ++ c = a ++ (b ++ c).
Proof. by induction a as [|d a IH]; simpl; [|rewrite IH]. Qed.
Lemma str_append_inj_l (p a b : string) : p ++ a = p ++ b -> a = b.
Proof. induction p as [|c p IH]; simpl; [done|]. intros H. injection H. auto. Qed.

Lemma starts_with_app p t : starts_with (p ++ t) p = true.
Proof. apply starts_with_spec. by exists t. Qed.

Lemma starts_with_char (c d : ascii) s : starts_with (String d s) (String c "") = (c === d).
Proof. simpl. by rewrite andb_true_r. Qed.

Lemma index_of_char_cons (c d : ascii) s :
  index_of (String d s) (String c "") =
    if decide (c = d) then Some 0%nat else S <$> index_of s (String c "").
Proof.
  cbn [index_of]. rewrite starts_with_char.
  destruct (decide (c = d)); [by rewrite bool_decide_true|by rewrite bool_decide_false].
Qed.

(** The first occurrence of a separator splits the string uniquely. *)
Lemma index_of_char_app (c : ascii) (a b : string) :
  index_of a (String c "") = None ->
  index_of (a ++ String c b) (String c "") = Some (String.length a).
Proof.
  induction a as [|d a IH]; cbn [String.append]; rewrite index_of_char_cons.
  - by rewrite decide_True.
  - rewrite index_of_char_cons. case_decide; [done|].
    intros H1. destruct (index_of a (String c "")); [done|]. by rewrite IH.
Qed.

Lemma index_of_char_Some (c : ascii) (s : string) n :
  index_of s (String c "") = Some n ->
  s = str_take n s ++ String c (str_drop (S n) s) /\ index_of (str_take n s) (String c "") = None.
Proof.
  revert n. induction s as [|d s IH]; intros n; [done|].
  rewrite index_of_char_cons. case_decide as Hc.
  - intros [= <-]. by subst.
  - destruct (index_of s (String c "")) as [m|] eqn:E; simpl; [|done].
    intros [= <-]. destruct (IH m eq_refl) as [Hs Hn]. split; [by simpl; f_equal|].
    cbn [str_take]. rewrite index_of_char_cons, decide_False by done. by rewrite Hn.
Qed.

(** *** The string order *)

Lemma str_compare_refl s : String.compare s s = Eq.
Proof. induction s as [|c s IH]; simpl; [done|]. unfold Ascii.compare. by rewrite N.compare_refl. Qed.

Lemma str_cmp_eq a b : str_cmp a b = 0 <-> a = b.
Proof.
  unfold str_cmp, str_ltb, String.ltb. rewrite (String.compare_antisym b a). simpl.
  destruct (String.compare a b) eqn:E; simpl.
  - split; [|done]. intros _. by apply String.compare_eq_iff.
  - split; [done|]. intros ->. by rewrite str_compare_refl in E.
  - split; [done|]. intros ->. by rewrite str_compare_refl in E.
Qed.

Lemma ascii_compare_trans a b c r :
  Ascii.compare a b = r -> Ascii.compare b c = r -> Ascii.compare a c = r.
Proof.
  unfold Ascii.compare. destruct r; rewrite ?N.compare_eq_iff, ?N.compare_lt_iff, ?N.compare_gt_iff; lia.
Qed.
Lemma ascii_compare_eq a b : Ascii.compare a b = Eq <-> a = b.
Proof.
  unfold Ascii.compare. rewrite N.compare_eq_iff. split; [|by intros ->].
  intros H. by rewrite <- (ascii_N_embedding a), H, ascii_N_embedding.
Qed.

Lemma str_compare_trans a b c :
  String.compare a b = Lt -> String.compare b c = Lt -> String.compare a c = Lt.
Proof.
  revert b c. induction a as [|x a IH]; intros [|y b] [|z c]; simpl; try done.
  destruct (Ascii.compare x y) eqn:E1; [| |done]; destruct (Ascii.compare y z) eqn:E2; try done.
  - intros. rewrite (ascii_compare_trans _ _ _ Eq E1 E2). eauto.
  - intros _ _. apply ascii_compare_eq in E1 as ->. by rewrite E2.
  - intros _ _. apply ascii_compare_eq in E2 as ->. by rewrite E1.
  - intros _ _. by rewrite (ascii_compare_trans _ _ _ Lt E1 E2).
Qed.

Lemma str_cmp_le a b : str_cmp a b <= 0 <-> String.compare a b <> Gt.
Proof.
  unfold str_cmp, str_ltb, String.ltb. rewrite (String.compare_antisym b a).
  destruct (String.compare a b); simpl; split; intros; try done; lia.
Qed.

(** Sorting by a string key. *)
#[export] Instance comparator_str {A} (key : A -> string) :
  Comparator (fun a b => str_cmp (key a) (key b)).
Proof.
  split.
  - intros x y. rewrite !str_cmp_le, (String.compare_antisym (key y) (key x)).
    by destruct (String.compare (key x) (key y)); simpl; auto.
  - intros x y z. rewrite !str_cmp_le. intros Hxy Hyz.
    destruct (String.compare (key x) (key y)) eqn:E1; [| |done].
    + apply String.compare_eq_iff in E1 as ->. done.
    + destruct (String.compare (key y) (key z)) eqn:E2; [| |done].
      * apply String.compare_eq_iff in E2 as <-. by rewrite E1.
      * by rewrite (str_compare_trans _ _ _ E1 E2).
Qed.

(** ** Numbers *)

(** The number a string of digits denotes. *)
Fixpoint decimal (acc : Z) (s : string) : Z :=
  match s with "" => acc | String c s => decimal (acc * 10 + (Z.of_N (N_of_ascii c) - 48)) s end.
(** [Number(text)], for integers: another numeral is read as no number. *)
Definition js_integer (s : string) : option Z :=
  let t := trim s in
  let '(neg, d) := match t with String "-" d => (true, d) | String "+" d => (false, d) | _ => (false, t) end in
  if t === "" then Some 0
  else if truthy d && str_every is_digit d then Some ((if neg : bool then Z.opp else id) (decimal 0 d))
  else None.

(** A number that is printed is read back. *)
Lemma digit_char n : (n < 10)%N -> is_digit (pretty.pretty_N_char n) = true /\ Z.of_N (N_of_ascii (pretty.pretty_N_char n)) - 48 = Z.of_N n /\
  is_space (pretty.pretty_N_char n) = false.
Proof.
  intros Hn. assert (H : In n [0;1;2;3;4;5;6;7;8;9]%N) by (simpl; lia).
  simpl in H. destruct H as [<-|[<-|[<-|[<-|[<-|[<-|[<-|[<-|[<-|[<-|[]]]]]]]]]]]; vm_compute; done.
Qed.
Lemma decimal_go x s acc : exists k, decimal acc (pretty.pretty_N_go x s) = decimal (acc * 10 ^ k + Z.of_N x) s /\ 0 <= k.
Proof.
  revert s acc. induction (N.lt_wf_0 x) as [x _ IH]. intros s acc. destruct (decide (x = 0)%N) as [->|Hx].
  - exists 0. rewrite pretty.pretty_N_go_0. split; [|lia]. f_equal. lia.
  - rewrite pretty.pretty_N_go_step by lia. destruct (IH (x `div` 10)%N ltac:(apply N.div_lt; lia) (String (pretty.pretty_N_char (x `mod` 10)) s) acc) as (k & -> & Hk).
    exists (k + 1). split; [|lia]. cbn [decimal]. destruct (digit_char (x `mod` 10) ltac:(by apply N.mod_lt)) as (_ & -> & _). f_equal.
    rewrite Z.pow_add_r by lia. pose proof (N.div_mod x 10 ltac:(done)). lia.
Qed.
Lemma digits_go (p : ascii -> bool) x s : (forall n, (n < 10)%N -> p (pretty.pretty_N_char n) = true) -> str_every p s = true ->
  str_every p (pretty.pretty_N_go x s) = true.
Proof.
  intros Hp. revert s. induction (N.lt_wf_0 x) as [x _ IH]. intros s Hs. destruct (decide (x = 0)%N) as [->|Hx]; [by rewrite pretty.pretty_N_go_0|].
  rewrite pretty.pretty_N_go_step by lia. apply IH; [apply N.div_lt; lia|]. cbn [str_every]. rewrite Hs, Hp; [done|by apply N.mod_lt].
Qed.
(** What the digits and the sign have, a printed number has. *)
Lemma pretty_every (p : ascii -> bool) (n : Z) : (forall m, (m < 10)%N -> p (pretty.pretty_N_char m) = true) -> p "-"%char = true -> p "0"%char = true ->
  str_every p (pretty.pretty n) = true.
Proof.
  intros Hd Hm H0. destruct n as [|q|q]; unfold pretty.pretty, pretty.pretty_Z; cbn [str_every]; [by rewrite H0| |].
  - unfold pretty.pretty, pretty.pretty_positive, pretty.pretty, pretty.pretty_N. rewrite decide_False by lia. by apply digits_go.
  - cbn. rewrite Hm. unfold pretty.pretty, pretty.pretty_positive, pretty.pretty, pretty.pretty_N. rewrite decide_False by lia. by apply digits_go.
Qed.
Lemma trim_id s : str_every (fun c => negb (is_space c)) s = true -> trim s = s.
Proof.
  intros H. unfold trim. assert (Hs : trim_start s = s).
  { destruct s as [|c s]; [done|]. cbn in H |- *. apply andb_true_iff in H as [Hc _]. by destruct (is_space c). }
  rewrite Hs. clear Hs. induction s as [|c s IH]; [done|]. cbn in H |- *. apply andb_true_iff in H as [Hc H].
  rewrite IH by done. by destruct (is_space c), s.
Qed.
Lemma js_integer_pretty n : js_integer (pretty.pretty n) = Some n.
Proof.
  assert (Hp : forall p, (0 < p)%N -> exists c s, pretty.pretty p = String c s /\ is_digit c = true /\ str_every is_digit (String c s) = true /\
    str_every (fun c => negb (is_space c)) (String c s) = true /\ decimal 0 (String c s) = Z.of_N p).
  { intros p Hp. unfold pretty.pretty, pretty.pretty_N. rewrite decide_False by lia.
    assert (Hd : str_every is_digit (pretty.pretty_N_go p "") = true) by (apply digits_go; [intros; by apply digit_char|done]).
    assert (Hn : str_every (fun c => negb (is_space c)) (pretty.pretty_N_go p "") = true) by (apply digits_go; [intros m Hm; by destruct (digit_char m Hm) as (_ & _ & ->)|done]).
    destruct (decimal_go p "" 0) as (k & Hk & _). cbn [decimal] in Hk. destruct (pretty.pretty_N_go p "") as [|c s] eqn:E.
    - exfalso. cbn in Hk. lia.
    - exists c, s. split_and!; [done| |done|done|rewrite Hk; lia]. cbn in Hd. by apply andb_true_iff in Hd as [? _]. }
  assert (Hc : forall c, is_digit c = true -> c <> "-"%char /\ c <> "+"%char) by (intros c Hd; split; intros ->; vm_compute in Hd; done).
  destruct n as [|p|p]; [reflexivity|..]; destruct (Hp (N.pos p) ltac:(lia)) as (c & s & E & Hd & Hds & Hns & Hdec); destruct (Hc c Hd) as [H1 H2].
  - change (pretty.pretty (Z.pos p)) with (pretty.pretty (N.pos p)). rewrite E. unfold js_integer. rewrite trim_id by done.
    assert (Em : match String c s with String "-" d => (true, d) | String "+" d => (false, d) | _ => (false, String c s) end = (false, String c s)).
    { destruct c as [[] [] [] [] [] [] [] []]; done. }
    rewrite Em. cbv zeta. cbn [truthy]. rewrite Hds. cbn - [decimal]. by rewrite Hdec.
  - change (pretty.pretty (Z.neg p)) with ("-" +:+ pretty.pretty (N.pos p)). rewrite E. unfold js_integer.
    rewrite trim_id by exact Hns. cbn - [decimal str_every]. rewrite Hds. cbn - [decimal]. rewrite Hdec. done.
Qed.

(** ** Paths *)

Fixpoint drop_slashes (s : string) : string :=
  match s with String c t => if c === "/"%char then drop_slashes t else s | "" => "" end.
Fixpoint forward (s : string) : string :=
  match s with "" => "" | String c s => String (if c === "\"%char then "/"%char else c) (forward s) end.
Definition strip_here (s : string) : string :=
  match s with
  | String c (String d t) => if (c === "."%char) && (d === "/"%char) then drop_slashes t else s
  | _ => s
  end.
Fixpoint strip_last (p : ascii -> bool) (s : string) : string :=
  match s with
  | "" => ""
  | String c s => match strip_last p s with "" => if p c then "" else String c "" | t => String c t end
  end.
(** [safeSkillFilePath] src/src/skills/skill-store.ts:24-27
    The three replacements, with which [normalizeRelPath] begins too. *)
Definition tidy_path (path : string) : string := strip_last (fun c => c === "/"%char) (strip_here (forward path)).

(** ** Splitting at a character *)

Lemma split_on_nonempty c a : split_on c a <> [].
Proof. destruct a as [|d a]; simpl; [done|]. case_decide; [done|]. by destruct (split_on c a). Qed.
Lemma split_on_last c a b : split_on c (a +:+ String c b) = (split_on c a ++ split_on c b)%list.
Proof.
  induction a as [|d a IH]; simpl; [by rewrite decide_True|].
  case_decide; [by rewrite IH|]. rewrite IH.
  destruct (split_on c a) as [|x l] eqn:E; [|done]. by destruct (split_on_nonempty c a).
Qed.
Lemma split_on_none c s : str_every (fun d => d !== c) s = true -> split_on c s = [s].
Proof.
  induction s as [|d s IH]; simpl; [done|]. intros [Hd Hs]%andb_true_iff. to_prop.
  rewrite decide_False by done. by rewrite IH.
Qed.

(** No part contains the separator. *)
Lemma split_on_parts c s w : w ∈ split_on c s -> str_every (fun d => d !== c) w = true.
Proof.
  revert w. induction s as [|d s IH]; simpl; intros w.
  - by intros ->%list_elem_of_singleton.
  - case_decide as Hd.
    + intros [->|Hw]%elem_of_cons; [done|by apply IH].
    + destruct (split_on c s) as [|x l] eqn:E; [by destruct (split_on_nonempty c s)|].
      intros [->|Hw]%elem_of_cons; [|by apply IH, list_elem_of_further]. simpl.
      rewrite (IH x (list_elem_of_here _ _)). by replace (d !== c) with true by (symmetry; by apply negb_true_iff, eqb_false).
Qed.

(** Parts that were joined with the separator come back. *)
Lemma split_join c l :
  l <> [] -> (forall w, w ∈ l -> str_every (fun d => d !== c) w = true) -> split_on c (join (String c "") l) = l.
Proof.
  induction l as [|x l IH]; intros Hl Hw; [done|]. destruct l as [|y l]; cbn [join].
  - apply split_on_none, Hw, list_elem_of_here.
  - change (split_on c (x +:+ String c (join (String c "") (y :: l))) = x :: y :: l).
    rewrite split_on_last, (split_on_none c x), IH; [done|done| |apply Hw, list_elem_of_here].
    intros w Hin. by apply Hw, list_elem_of_further.
Qed.
