(* ===== verification/Regex.v ===== *)
(** * Regular expressions

    The regular expressions the source writes as literals, as syntax with the language's
    backtracking semantics: alternatives in order, greedy or lazy repetition, captures,
    back references, anchors and word boundaries.  [exec] is [RegExp.prototype.exec],
    [replace_all] is [replace] with the flag [g], [match_all] is [matchAll].

    The semantics needs no fuel: it is structural on the expression, and a repetition takes
    as many turns as characters are left, because an iteration that consumes nothing is
    refused once the minimum is reached. *)

From S2P Require Import Prelude JsString.

(** ** Syntax *)

Inductive re :=
| Eps
| Cls (p : ascii -> bool)
| Seq (a b : re)
| Alt (a b : re)
| Rep (greedy : bool) (lo : nat) (hi : option nat) (a : re)
| Grp (n : nat) (a : re)
| Bref (n : nat)
| Bol (multiline : bool)
| Eol (multiline : bool)
| Wb.

Declare Scope re_scope.
Delimit Scope re_scope with re.
Bind Scope re_scope with re.

Definition chr (c : ascii) : re := Cls (fun d => d === c).
Fixpoint lit (s : string) : re :=
  match s with "" => Eps | String c "" => chr c | String c s => Seq (chr c) (lit s) end%string.
Definition one_of (s : string) (c : ascii) : bool := str_some (fun d => d === c) s.
Definition none_of (s : string) (c : ascii) : bool := negb (one_of s c).
Definition any_char (c : ascii) : bool := true.
Definition dot (c : ascii) : bool := negb ((c === "010"%char) || (c === "013"%char)).
Definition non_space (c : ascii) : bool := negb (is_space c).

Infix "⋅" := Seq (at level 41, right associativity) : re_scope.
Infix "∥" := Alt (at level 45, right associativity) : re_scope.
Definition star : re -> re := Rep true 0 None.
Definition lazy_star : re -> re := Rep false 0 None.
Definition plus : re -> re := Rep true 1 None.
Definition opt : re -> re := Rep true 0 (Some 1%nat).
Definition times (lo hi : nat) : re -> re := Rep true lo (Some hi).

(** ** Matching *)

(** A position: the character before it, the text after it, and the captures so far. *)
Record pos := MkPos { before : option ascii; rest : string; caps : list (nat * string) }.

Definition start_pos (s : string) : pos := MkPos None s [].

Definition cap (n : nat) (p : pos) : option string := assoc_get n (caps p).

Definition step_pos (p : pos) : option (ascii * pos) :=
  match rest p with "" => None | String c s => Some (c, MkPos (Some c) s (caps p)) end%string.

Fixpoint skip_text (t : string) (p : pos) : option pos :=
  match t with
  | "" => Some p
  | String c t =>
      match step_pos p with
      | Some (d, p') => if d === c then skip_text t p' else None
      | None => None
      end
  end%string.

(** The text between two positions. *)
Definition between (p q : pos) : string :=
  str_take (String.length (rest p) - String.length (rest q)) (rest p).

Definition newline (c : ascii) : bool := (c === "010"%char) || (c === "013"%char).
Definition bol (multiline : bool) (p : pos) : bool :=
  match before p with None => true | Some c => multiline && newline c end.
Definition eol (multiline : bool) (p : pos) : bool :=
  match rest p with "" => true | String c _ => multiline && newline c end%string.
Definition word_before (p : pos) : bool := match before p with None => false | Some c => is_word c end.
Definition word_after (p : pos) : bool := match rest p with "" => false | String c _ => is_word c end%string.

(** The turns of a repetition of [body]. *)
Fixpoint loop (body : pos -> (pos -> option pos) -> option pos) (greedy : bool) (fuel lo : nat) (hi : option nat)
    (p : pos) (k : pos -> option pos) : option pos :=
  let more :=
    match fuel, hi with
    | O, _ | _, Some O => None
    | S fuel, _ =>
        body p (fun q =>
          if Nat.eqb lo 0 && Nat.eqb (String.length (rest q)) (String.length (rest p)) then None
          else loop body greedy fuel (pred lo) (pred <$> hi) q k)
    end in
  match lo with
  | S _ => more
  | O => if greedy then match more with Some q => Some q | None => k p end
         else match k p with Some q => Some q | None => more end
  end.

Fixpoint run (r : re) (p : pos) (k : pos -> option pos) : option pos :=
  match r with
  | Eps => k p
  | Cls f => match step_pos p with Some (c, q) => if f c then k q else None | None => None end
  | Seq a b => run a p (fun q => run b q k)
  | Alt a b => match run a p k with Some q => Some q | None => run b p k end
  | Rep greedy lo hi a => loop (run a) greedy (S (String.length (rest p) + lo)) lo hi p k
  | Grp n a => run a p (fun q => k (MkPos (before q) (rest q) ((n, between p q) :: caps q)))
  | Bref n => match cap n p with Some t => match skip_text t p with Some q => k q | None => None end | None => k p end
  | Bol m => if bol m p then k p else None
  | Eol m => if eol m p then k p else None
  | Wb => if xorb (word_before p) (word_after p) then k p else None
  end.

(** A match: the text before it, the text matched, where it ends. *)
Record hit := MkHit { h_skipped : string; h_text : string; h_end : pos }.
Definition group (n : nat) (h : hit) : option string := cap n (h_end h).

(** The first match at or after a position. *)
Fixpoint search_from (r : re) (prev : option ascii) (s : string) : option hit :=
  match run r (MkPos prev s []) Some with
  | Some q => Some (MkHit "" (between (MkPos prev s []) q) q)
  | None =>
      match s with
      | "" => None
      | String c s =>
          match search_from r (Some c) s with
          | Some h => Some (MkHit (String c (h_skipped h)) (h_text h) (h_end h))
          | None => None
          end
      end
  end%string.

Definition exec (r : re) (s : string) : option hit := search_from r None s.
Definition test (r : re) (s : string) : bool := is_some (exec r s).

(** All the matches, from left to right; an empty match moves on by one character. *)
Fixpoint hits_from (r : re) (fuel : nat) (prev : option ascii) (s : string) : list hit :=
  match fuel with
  | O => []
  | S fuel =>
      match search_from r prev s with
      | None => []
      | Some h =>
          let q := h_end h in
          if truthy (h_text h) then h :: hits_from r fuel (before q) (rest q)
          else match step_pos q with
               | None => [h]
               | Some (_, q') => h :: hits_from r fuel (before q') (rest q')
               end
      end
  end.
Definition match_all (r : re) (s : string) : list hit := hits_from r (S (String.length s)) None s.

(** Replacement of every match. *)
Fixpoint replace_from (r : re) (f : hit -> result string string) (fuel : nat) (prev : option ascii) (s : string)
  : result string string :=
  match fuel with
  | O => Ok s
  | S fuel =>
      match search_from r prev s with
      | None => Ok s
      | Some h =>
          t ← f h;
          let q := h_end h in
          if truthy (h_text h) then
            u ← replace_from r f fuel (before q) (rest q);
            mret (h_skipped h +:+ t +:+ u)
          else match step_pos q with
               | None => mret (h_skipped h +:+ t)
               | Some (c, q') =>
                   u ← replace_from r f fuel (before q') (rest q');
                   mret (h_skipped h +:+ t +:+ String c u)
               end
      end
  end.
Definition replace_all (r : re) (f : hit -> result string string) (s : string) : result string string :=
  replace_from r f (S (String.length s)) None s.

(** [replace] without the flag [g]: the first match only. *)
Definition replace_first (r : re) (f : hit -> string) (s : string) : string :=
  match exec r s with Some h => h_skipped h +:+ f h +:+ rest (h_end h) | None => s end.

(** ** Lemmas *)

Lemma search_from_None r prev s :
  (forall p, run r p Some = None) -> search_from r prev s = None.
Proof. intros Hn. revert prev. induction s as [|c s IH]; intros prev; simpl; rewrite Hn; [done|by rewrite IH]. Qed.

Example regex_demo :
  exec (Grp 1 (plus (Cls is_word)) ⋅ chr "=" ⋅ Bref 1)%re "x a=b ab=ab" ≫= group 1 = Some "ab".
Proof. vm_compute. reflexivity. Qed.

(** Matching only moves forward: what holds of every position the continuation may accept
    holds of the position answered. *)
Definition left (p : pos) : nat := String.length (rest p).

Lemma step_pos_left p c q : step_pos p = Some (c, q) -> left p = S (left q).
Proof. unfold step_pos, left. destruct (rest p); [done|]. by intros [= <- <-]. Qed.

Lemma skip_text_left t p q : skip_text t p = Some q -> (left q <= left p)%nat.
Proof.
  revert p. induction t as [|c t IH]; intros p; simpl; [by intros [= ->]|].
  destruct (step_pos p) as [[d p']|] eqn:Es; [|done]. apply step_pos_left in Es.
  destruct (d === c); [|done]. intros ?%IH. lia.
Qed.

Lemma loop_forward body greedy fuel lo hi p k q :
  (forall p k, body p k = Some q -> exists p', (left p' <= left p)%nat /\ k p' = Some q) ->
  loop body greedy fuel lo hi p k = Some q -> exists p', (left p' <= left p)%nat /\ k p' = Some q.
Proof.
  intros Hb. revert lo hi p. induction fuel as [|fuel IH]; intros lo hi p; simpl.
  - destruct lo; [|done]. destruct greedy; [|destruct (k p) eqn:Ek]; intros; simplify_eq; eauto.
  - set (more := match hi with Some O => None | _ => _ end).
    assert (Hm : more = Some q -> exists p', (left p' <= left p)%nat /\ k p' = Some q).
    { unfold more. destruct hi as [[|hi]|]; [done| |];
        intros (p1 & Hp1 & H1)%Hb; (destruct (_ && _) in H1; [done|]);
        apply IH in H1 as (p2 & ? & ?); exists p2; (split; [lia|done]). }
    destruct lo; [|done]. destruct greedy.
    + destruct more eqn:E; [intros [= ->]; by apply Hm|eauto].
    + destruct (k p) eqn:Ek; [intros [= ->]; eauto|apply Hm].
Qed.

Lemma run_forward r p k q : run r p k = Some q -> exists p', (left p' <= left p)%nat /\ k p' = Some q.
Proof.
  revert p k. induction r as [|f|a IHa b IHb|a IHa b IHb|greedy lo hi a IHa|n a IHa|n|m|m|]; intros p k; cbn [run].
  - eauto.
  - destruct (step_pos p) as [[c p']|] eqn:Es; [|done]. apply step_pos_left in Es.
    destruct (f c); [|done]. intros Hk. exists p'. split; [lia|done].
  - intros (p1 & H1 & (p2 & H2 & H3)%IHb)%IHa. exists p2. split; [lia|done].
  - destruct (run a p k) eqn:E; [intros [= ->]; eauto|eauto].
  - by apply loop_forward.
  - intros (p1 & H1 & H2)%IHa. eexists. split; [|exact H2]. exact H1.
  - destruct (cap n p); [|eauto]. destruct (skip_text s p) as [p'|] eqn:Es; [|done].
    apply skip_text_left in Es. eauto.
  - destruct (bol m p); [eauto|done].
  - destruct (eol m p); [eauto|done].
  - destruct (xorb _ _); [eauto|done].
Qed.

(** A hit splits the text, and what it matched is as long as the text it passed over. *)
Lemma search_from_hit r prev s h :
  search_from r prev s = Some h ->
  (String.length (h_skipped h) + String.length (h_text h) + left (h_end h) = String.length s)%nat.
Proof.
  revert prev h. induction s as [|c s IH]; intros prev h; cbn [search_from].
  - destruct (run r _ Some) as [q|] eqn:E; [|done]. intros [= <-].
    apply run_forward in E as (p' & Hp & [= ->]). unfold left in Hp. simpl in *. unfold between, left. simpl.
    destruct (rest q); simpl in *; lia.
  - destruct (run r _ Some) as [q|] eqn:E.
    + intros [= <-]. apply run_forward in E as (p' & Hp & [= ->]). unfold left in Hp.
      cbn [h_skipped h_text h_end String.length]. unfold between, left.
      rewrite length_str_take. cbn [rest] in *. cbn [String.length] in *. lia.
    + destruct (search_from r (Some c) s) as [h'|] eqn:Es; [|done]. intros [= <-].
      apply IH in Es. simpl. lia.
Qed.

Lemma truthy_length s : truthy s = true <-> (0 < String.length s)%nat.
Proof. destruct s; simpl; split; try done; lia. Qed.

(** A match is made of the characters of the text. *)
Section chars.
Context (f : ascii -> bool).
Definition all_chars (p : pos) : Prop := str_every f (rest p) = true /\ forall n t, (n, t) ∈ caps p -> str_every f t = true.

Lemma step_pos_chars p c q : all_chars p -> step_pos p = Some (c, q) -> all_chars q.
Proof.
  intros [Hr Hc]. unfold step_pos, all_chars. destruct (rest p) as [|d s]; [done|]. intros [= <- <-]. cbn [rest caps]. cbn in Hr.
  apply andb_true_iff in Hr as [_ ?]. by split.
Qed.
Lemma skip_text_chars t p q : all_chars p -> skip_text t p = Some q -> all_chars q.
Proof.
  revert p. induction t as [|c t IH]; intros p Hp; simpl; [by intros [= ->]|]. destruct (step_pos p) as [[d p']|] eqn:Es; [|done].
  destruct (d === c); [|done]. apply IH. by eapply step_pos_chars.
Qed.
Lemma loop_chars body greedy fuel lo hi p k q :
  (forall p k, all_chars p -> body p k = Some q -> exists p', all_chars p' /\ k p' = Some q) ->
  all_chars p -> loop body greedy fuel lo hi p k = Some q -> exists p', all_chars p' /\ k p' = Some q.
Proof.
  intros Hb. revert lo hi p. induction fuel as [|fuel IH]; intros lo hi p Hp; simpl.
  - destruct lo; [|done]. destruct greedy; [|destruct (k p) eqn:Ek]; intros; simplify_eq; eauto.
  - set (more := match hi with Some O => None | _ => _ end).
    assert (Hm : more = Some q -> exists p', all_chars p' /\ k p' = Some q).
    { unfold more. destruct hi as [[|hi]|]; [done| |];
        (intros H; apply Hb in H as (p1 & Hp1 & H1); [|done]); (destruct (_ && _) in H1; [done|]); by apply IH in H1. }
    destruct lo; [|done]. destruct greedy.
    + destruct more eqn:E; [intros [= ->]; by apply Hm|eauto].
    + destruct (k p) eqn:Ek; [intros [= ->]; eauto|apply Hm].
Qed.
Lemma run_chars r p k q : all_chars p -> run r p k = Some q -> exists p', all_chars p' /\ k p' = Some q.
Proof.
  revert p k. induction r as [|g|a IHa b IHb|a IHa b IHb|greedy lo hi a IHa|n a IHa|n|m|m|]; intros p k Hp; cbn [run].
  - eauto.
  - destruct (step_pos p) as [[c p']|] eqn:Es; [|done]. destruct (g c); [|done]. intros Hk. exists p'. split; [by eapply step_pos_chars|done].
  - intros H. apply IHa in H as (p1 & H1 & H2); [|done]. by apply IHb in H2.
  - destruct (run a p k) eqn:E; [intros [= ->]; by apply (IHa p k)|by apply IHb].
  - apply loop_chars; [|done]. intros p' k' Hp'. by apply IHa.
  - intros H. apply IHa in H as (p1 & [Hr1 Hc1] & H2); [|done]. eexists. split; [|exact H2]. split; [done|]. cbn [caps].
    intros n' t [[= -> ->]|Ht]%elem_of_cons; [|by apply (Hc1 n')]. unfold between. by apply str_every_take, Hp.
  - destruct (cap n p); [|eauto]. destruct (skip_text s p) as [p'|] eqn:Es; [|done]. intros H. exists p'. split; [by eapply skip_text_chars|done].
  - destruct (bol m p); [eauto|done].
  - destruct (eol m p); [eauto|done].
  - destruct (xorb _ _); [eauto|done].
Qed.
Lemma search_chars r prev s h : str_every f s = true -> search_from r prev s = Some h -> str_every f (h_skipped h) = true /\ all_chars (h_end h).
Proof.
  revert prev h. induction s as [|c s IH]; intros prev h Hs; cbn [search_from].
  - destruct (run r _ Some) as [q|] eqn:E; [|done]. intros [= <-]. split; [done|]. apply run_chars in E as (p' & Hp & [= ->]); [done|].
    split; [done|]. by intros n t ?%not_elem_of_nil.
  - destruct (run r _ Some) as [q|] eqn:E.
    + intros [= <-]. split; [done|]. apply run_chars in E as (p' & Hp & [= ->]); [done|]. split; [done|]. by intros n t ?%not_elem_of_nil.
    + destruct (search_from r (Some c) s) as [h'|] eqn:Es; [|done]. intros [= <-]. cbn in Hs. apply andb_true_iff in Hs as [Hc Hs].
      destruct (IH _ _ Hs Es) as [H1 H2]. cbn [h_skipped h_end]. split; [|done]. cbn. by rewrite Hc, H1.
Qed.
Lemma group_chars n h t : all_chars (h_end h) -> group n h = Some t -> str_every f t = true.
Proof. intros [_ H] Ht. unfold group, cap in Ht. apply (H n). clear H. induction (caps (h_end h)) as [|[m u] l IH]; simpl in Ht; [done|].
  case_decide; [injection Ht as <-; subst; apply list_elem_of_here|]. apply list_elem_of_further. by apply IH. Qed.
End chars.
