(* ===== verification/Scope.v ===== *)
(** * Principals, scopes and who a person is

    Scope identifiers ([src/src/types.ts]), person identity
    ([src/src/directory/person.ts]), audience entitlement
    ([src/src/resolution/context-filter.ts]) and the default audience of a published
    artifact ([src/src/resolution/publish-audience.ts]). *)

From S2P Require Import Prelude JsString.

#[local] Open Scope string_scope.

(** ** Principals and scope identifiers *)

(** [PrincipalType] src/src/types.ts:3-3 *)
Inductive PrincipalType := internal | guest.
#[export] Instance PrincipalType_eq_dec : EqDecision PrincipalType.
Proof. solve_decision. Defined.

(** [Principal] src/src/types.ts:5-10 *)
Record Principal := MkPrincipal {
  p_id : string;
  p_type : PrincipalType;
  teamIds : option (list string);
  displayName : option string;
}.

(** [ScopeKind] src/src/types.ts:12-13 *)
Inductive ScopeKind := personal | channel | team | org | group.
#[export] Instance ScopeKind_eq_dec : EqDecision ScopeKind.
Proof. solve_decision. Defined.

Definition ScopeId := string.

(** [SCOPE_KINDS] src/src/types.ts:12-12 *)
Definition kind_name (k : ScopeKind) : string :=
  match k with
  | personal => "personal" | channel => "channel" | team => "team"
  | org => "org" | group => "group"
  end.

(** [isScopeKind] src/src/types.ts:17-19 *)
Definition isScopeKind (s : string) : option ScopeKind :=
  find (fun k => kind_name k === s) [personal; channel; team; org; group].

(** [scopeId] src/src/types.ts:21-23 *)
Definition scopeId (kind : ScopeKind) (ref : string) : ScopeId := kind_name kind ++ ":" ++ ref.

(** [personalScope] src/src/types.ts:25-27 *)
Definition personalScope (principalId : string) : ScopeId := scopeId personal principalId.

(** [parseScopeId] src/src/types.ts:29-34 *)
Definition parseScopeId (id : ScopeId) : option ScopeKind * string :=
  match index_of id ":" with
  | None => (None, "")
  | Some sep => (isScopeKind (str_take sep id), str_drop (S sep) id)
  end.

(** [isManageableCreationScope] src/src/types.ts:36-40 *)
Definition isManageableCreationScope (id : option ScopeId) : bool :=
  match id with
  | Some id =>
      if truthy id then
        let kind := (parseScopeId id).1 in (kind === Some channel) || (kind === Some team)
      else false
  | None => false
  end.

(** [isSharedScope] src/src/types.ts:42-46 *)
Definition isSharedScope (id : option ScopeId) : bool :=
  match id with
  | Some id =>
      if truthy id then
        let kind := (parseScopeId id).1 in (kind === Some channel) || (kind === Some group)
      else false
  | None => false
  end.

(** ** Who is who *)

(** [personKey] src/src/directory/person.ts:1-4 *)
Definition personKey (id : option string) : string :=
  let s := trim (id ?? "") in
  if str_includes s "@" then to_lower s else s.

(** [samePerson] src/src/directory/person.ts:6-9 *)
Definition samePerson (a b : option string) : bool :=
  let key := personKey a in (key !== "") && (key === personKey b).

(** [RosterPerson] src/src/directory/person.ts:11-14 *)
Record RosterPerson := MkRosterPerson {
  rp_principalId : option string;
  rp_slackId : option string;
}.

(** [personKeys] src/src/directory/person.ts:16-23 *)
Definition personKeys (member : option RosterPerson) (rawId : string) : list string :=
  dedup (js_filter truthy (map personKey
    [Some rawId; member ≫= rp_principalId; member ≫= rp_slackId])).

Section directory.
(** The directory's [get]; [None] stands for a missing row and for a failed read (the
    source catches it as [null]). *)
Variable get : string -> option RosterPerson.

(** [samePersonInDirectory] src/src/directory/person.ts:25-37 *)
Definition samePersonInDirectory (a b : string) : bool :=
  if samePerson (Some a) (Some b) then true
  else if negb (truthy (personKey (Some a))) || negb (truthy (personKey (Some b))) then false
  else
    let ma := get a in
    let mb := get b in
    let bKeys := personKeys mb b in
    some (fun key => includes bKeys key) (personKeys ma a).

(** [samePersonMatcher] src/src/directory/person.ts:39-49 *)
Definition samePersonMatcher (actorId : string) : string -> bool :=
  let row := get actorId in
  let keys := personKeys row actorId in
  fun id =>
    if includes keys (personKey (Some id)) then true
    else match row with
         | Some _ => false
         | None => samePersonInDirectory id actorId
         end.
End directory.

(** ** Entitlement of an audience *)

(** [principalEntitledToScope] src/src/resolution/context-filter.ts:4-16 *)
Definition principalEntitledToScope (p : Principal) (label sessionScopeId orgScopeId : ScopeId) : bool :=
  if label === orgScopeId then true
  else if label === sessionScopeId then true
  else
    let '(kind, ref) := parseScopeId label in
    match kind with
    | Some personal => p.(p_id) === ref
    | Some team => includes (p.(teamIds) ?? []) ref
    | _ => false
    end.

(** ** The default audience of a published artifact *)

(** [ConversationKind] src/src/types.ts:48-48 *)
Inductive ConversationKind := ck_dm | ck_channel | ck_group.
#[export] Instance ConversationKind_eq_dec : EqDecision ConversationKind.
Proof. solve_decision. Defined.

(** [PublishAudienceKind] src/src/resolution/publish-audience.ts:4-4 *)
Inductive PublishAudienceKind := pa_org | pa_members | pa_owner.

(** [PublishAudience] src/src/resolution/publish-audience.ts:6-12
    The [reason] is a display text and is left out. *)
Record PublishAudience := MkPublishAudience {
  pa_kind : PublishAudienceKind;
  grantees : list ScopeId;
  memberCount : option Z;
  incomplete : bool;
}.

(** [DefaultPublishAudienceArgs] src/src/resolution/publish-audience.ts:14-21 *)
Record DefaultPublishAudienceArgs := MkPublishArgs {
  kind : ConversationKind;
  isPrivate : option bool;
  isMpim : option bool;
  members : option (list Principal);
  orgScopeId : ScopeId;
  ownerId : string;
}.

(** [defaultPublishAudience] src/src/resolution/publish-audience.ts:51-58 *)
Fixpoint member_grantees (owner : string) (seen : list string) (ms : list Principal) : list ScopeId :=
  match ms with
  | [] => []
  | m :: ms =>
      if negb (m.(p_type) === internal) then member_grantees owner seen ms
      else if m.(p_id) === owner then member_grantees owner seen ms
      else if includes seen m.(p_id) then member_grantees owner seen ms
      else scopeId personal m.(p_id) :: member_grantees owner (m.(p_id) :: seen) ms
  end.

(** [defaultPublishAudience] src/src/resolution/publish-audience.ts:23-68 *)
Definition defaultPublishAudience (a : DefaultPublishAudienceArgs) : PublishAudience :=
  let owner_only inc := MkPublishAudience pa_owner [] None inc in
  if a.(kind) === ck_dm then owner_only false
  else if (a.(kind) === ck_group) || (a.(isMpim) ?? false) then owner_only false
  else match a.(isPrivate) with
  | Some false => MkPublishAudience pa_org [a.(orgScopeId)] None false
  | None => owner_only true
  | Some true =>
      match a.(members) with
      | None => owner_only true
      | Some ms =>
          let gs := member_grantees a.(ownerId) [] ms in
          if bool_decide (length gs = 0%nat) then owner_only false
          else MkPublishAudience pa_members gs (Some (Z.of_nat (length gs))) false
      end
  end.

(** ** Theorems *)

Lemma isScopeKind_name k : isScopeKind (kind_name k) = Some k.
Proof. by destruct k. Qed.
Lemma isScopeKind_Some s k : isScopeKind s = Some k -> s = kind_name k.
Proof. unfold isScopeKind. intros [_ H]%find_Some. by apply bool_decide_eq_true in H as <-. Qed.

Lemma parse_scopeId k ref : parseScopeId (scopeId k ref) = (Some k, ref).
Proof.
  unfold parseScopeId, scopeId.
  change (":" ++ ref) with (String ":" ref).
  rewrite index_of_char_app by (by destruct k).
  assert (Ht : forall p t, str_take (String.length p) (p ++ t) = p)
    by (intros p t; induction p as [|c p IH]; simpl; [done|by rewrite IH]).
  assert (Hd : forall p c t, str_drop (S (String.length p)) (p ++ String c t) = t)
    by (intros p c t; induction p as [|d p IH]; [done|exact IH]).
  by rewrite Ht, Hd, isScopeKind_name.
Qed.

(** Scope identifiers round-trip: parsing what [scopeId] prints gives back the kind and
    the reference (whatever the reference holds, further colons included), and an
    identifier that parses to a kind is the print of that kind and reference. *)
Theorem scopeId_roundtrip (id : ScopeId) (k : ScopeKind) (ref : string) :
  parseScopeId id = (Some k, ref) <-> id = scopeId k ref.
Proof.
  split; [|intros ->; apply parse_scopeId].
  unfold parseScopeId, scopeId. destruct (index_of id ":") as [sep|] eqn:E; [|done].
  intros [= Hk Hr]. apply index_of_char_Some in E as [Hid _].
  apply isScopeKind_Some in Hk. rewrite Hid, Hk, Hr. done.
Qed.

Lemma scopeId_inj k1 k2 r1 r2 : scopeId k1 r1 = scopeId k2 r2 -> k1 = k2 /\ r1 = r2.
Proof.
  intros H. pose proof (parse_scopeId k1 r1) as H1. rewrite H, parse_scopeId in H1. by injection H1.
Qed.

Lemma samePerson_spec a b : samePerson a b = true <-> personKey a = personKey b /\ personKey a <> "".
Proof. unfold samePerson. rewrite andb_true_iff, negb_true_iff, eqb_false, eqb_true. tauto. Qed.
#[export] Instance samePerson_sym : Symmetric (fun a b => samePerson a b = true).
Proof. intros a b. rewrite !samePerson_spec. intros [-> ?]. done. Qed.
#[export] Instance samePerson_trans : Transitive (fun a b => samePerson a b = true).
Proof. intros a b c. rewrite !samePerson_spec. intros [-> ?] [-> ?]. done. Qed.

Lemma member_grantees_spec owner seen ms g :
  g ∈ member_grantees owner seen ms <->
  exists m, m ∈ ms /\ g = scopeId personal m.(p_id) /\ m.(p_type) = internal /\
    m.(p_id) <> owner /\ m.(p_id) ∉ seen.
Proof.
  revert seen. induction ms as [|m ms IH]; intros seen; simpl.
  { split; [by intros ?%not_elem_of_nil|by intros (? & ?%not_elem_of_nil & _)]. }
  setoid_rewrite elem_of_cons.
  destruct (m.(p_type) === internal) eqn:E1; simpl; to_prop.
  2: { rewrite IH. split; [naive_solver|]. intros (m' & [->|?] & ?); naive_solver. }
  destruct (m.(p_id) === owner) eqn:E2; to_prop.
  { rewrite IH. split; [naive_solver|]. intros (m' & [->|?] & ?); naive_solver. }
  destruct (includes seen m.(p_id)) eqn:E3.
  { apply includes_true in E3. rewrite IH. split; [naive_solver|].
    intros (m' & [->|?] & ?); naive_solver. }
  apply includes_false in E3. rewrite elem_of_cons, IH. setoid_rewrite not_elem_of_cons.
  split; [naive_solver|]. intros (m' & Hin & -> & ? & ? & ?).
  destruct (decide (m'.(p_id) = m.(p_id))) as [Heq|]; [rewrite Heq; by left|].
  right. exists m'. destruct Hin as [->|?]; [done|]. done.
Qed.

Lemma member_grantees_NoDup owner seen ms : NoDup (member_grantees owner seen ms).
Proof.
  revert seen. induction ms as [|m ms IH]; intros seen; simpl; [constructor|].
  repeat case_match; try done. constructor; [|done].
  rewrite member_grantees_spec. intros (m' & _ & [_ Heq]%scopeId_inj & _ & _ & Hn).
  rewrite not_elem_of_cons in Hn. naive_solver.
Qed.

(** Publishing never widens a conversation by accident: the default audience is the org
    only for a channel known to be public; it is a set of personal scopes only for a
    private channel whose members could be read, and then exactly the internal members
    other than the owner, each once; in every other case nobody but the owner. *)
Theorem defaultPublishAudience_sound (a : DefaultPublishAudienceArgs) (g : ScopeId) :
  NoDup (defaultPublishAudience a).(grantees) /\
  (g ∈ (defaultPublishAudience a).(grantees) <->
    a.(kind) = ck_channel /\ a.(isMpim) <> Some true /\
    ((a.(isPrivate) = Some false /\ g = a.(orgScopeId)) \/
     (a.(isPrivate) = Some true /\ exists ms m, a.(members) = Some ms /\ m ∈ ms /\
        m.(p_type) = internal /\ m.(p_id) <> a.(ownerId) /\ g = scopeId personal m.(p_id)))).
Proof.
  destruct a as [k priv mp ms os ow]; unfold defaultPublishAudience; simpl.
  assert (Hnil : forall P : Prop, ~ P -> NoDup ([] : list ScopeId) /\ (g ∈ [] <-> P)).
  { intros P HP. split; [constructor|]. split; [by intros ?%not_elem_of_nil|done]. }
  destruct k; simpl; [apply Hnil; naive_solver| |apply Hnil; naive_solver].
  destruct mp as [[]|]; simpl; [apply Hnil; naive_solver| |].
  all: destruct priv as [[]|]; simpl; [|split; [apply NoDup_singleton|];
    rewrite list_elem_of_singleton; naive_solver|apply Hnil; naive_solver].
  all: destruct ms as [ms|]; simpl; [|apply Hnil; naive_solver].
  all: pose proof (member_grantees_spec ow [] ms g) as Hs.
  all: case_bool_decide as Hlen; simpl.
  1, 3: apply nil_length_inv in Hlen; rewrite Hlen in Hs; apply Hnil;
    intros (_ & _ & [[? _]|(_ & ? & m & [= <-] & ? & ? & ? & ?)]); [done|];
    apply (not_elem_of_nil g), Hs; exists m; split_and!; try done; apply not_elem_of_nil.
  all: split; [apply member_grantees_NoDup|]; rewrite Hs; split;
    [intros (m & ? & ? & ? & ? & ?); naive_solver|];
    intros (_ & _ & [[? _]|(_ & ? & m & [= <-] & ? & ? & ? & ?)]); [done|];
    exists m; split_and!; try done; apply not_elem_of_nil.
Qed.
