(* ===== verification/Net.v ===== *)
(** * Network addresses

    [src/src/util/network.ts] and the address checks of [src/src/egress-authz-main.ts]: the
    private networks, the link-local and metadata addresses, and the names that are always
    blocked.  An address is the number it denotes, 32 bits wide or 128; [isIP] and
    [BlockList] are what the source uses of [node:net]. *)

From S2P Require Import Prelude JsString Regex.

(** ** Addresses: what the source uses of [node:net] *)

Inductive Ip := IPv4 (a : Z) | IPv6 (a : Z).
#[export] Instance Ip_eq_dec : EqDecision Ip.
Proof. solve_decision. Defined.

(** A number in the given base, of at most [width] digits. *)
Definition hex_value (c : ascii) : Z :=
  let n := Z.of_N (N_of_ascii c) in
  if is_digit c then n - 48 else if in_range 97 102 c then n - 87 else n - 55.
Fixpoint number (base acc : Z) (s : string) : Z :=
  match s with "" => acc | String c s => number base (acc * base + hex_value c) s end%string.

Definition octet (s : string) : option Z :=
  let n := number 10 0 s in
  if truthy s && str_every is_digit s && (str_len s <=? 3) && (n <=? 255)
     && negb ((str_head s === Some "0"%char) && (1 <? str_len s))
  then Some n else None.

Definition parse_v4 (s : string) : option Z :=
  match split_on "." s with
  | [a; b; c; d] =>
      a ← octet a; b ← octet b; c ← octet c; d ← octet d;
      Some (((a * 256 + b) * 256 + c) * 256 + d)
  | _ => None
  end.

Definition hextet (s : string) : option Z :=
  if truthy s && str_every is_hex s && (str_len s <=? 4) then Some (number 16 0 s) else None.

(** The groups of one side of an address; the last may be a dotted address, which counts for two. *)
Fixpoint hextets (dotted : bool) (l : list string) : option (list Z) :=
  match l with
  | [] => Some []
  | [g] =>
      match hextet g with
      | Some n => Some [n]
      | None => if dotted then n ← parse_v4 g; Some [Z.shiftr n 16; Z.land n 65535] else None
      end
  | g :: l => n ← hextet g; ns ← hextets dotted l; Some (n :: ns)
  end.
Definition side (dotted : bool) (s : string) : option (list Z) :=
  if truthy s then hextets dotted (split_on ":" s) else Some [].

Definition words (ns : list Z) : Z := fold_left (fun acc n => acc * 65536 + n) ns 0.

Definition parse_v6 (s : string) : option Z :=
  match index_of s "::" with
  | None => ns ← side true s; if Nat.eqb (length ns) 8 then Some (words ns) else None
  | Some i =>
      hs ← side false (str_take i s);
      ts ← side true (str_drop (i + 2) s);
      let n := (length hs + length ts)%nat in
      if Nat.leb n 7 then Some (words (hs ++ replicate (8 - n) 0 ++ ts)) else None
  end.

Definition parse_ip (s : string) : option Ip :=
  match parse_v4 s with
  | Some a => Some (IPv4 a)
  | None => IPv6 <$> parse_v6 s
  end.

(** A zone may follow an IPv6 address. *)
Definition zone : re :=
  (chr "%" ⋅ plus (Cls (fun c => is_digit c || is_letter c || one_of "-.:" c)) ⋅ Eol false)%re.
(** [isIP]: the family of an address, or 0. *)
Definition isIP (s : string) : Z :=
  match parse_ip s with
  | Some (IPv4 _) => 4
  | Some (IPv6 _) => 6
  | None => if is_some (parse_v6 (replace_first zone (fun _ => ""%string) s)) then 6 else 0
  end.

(** A rule of a [BlockList]: a network and the length of its prefix. *)
Record Subnet := MkSubnet { network : Ip; prefix : Z }.

Definition in_subnet (width net prefix a : Z) : bool :=
  Z.shiftr a (width - prefix) =? Z.shiftr net (width - prefix).

(** An IPv6 address that maps an IPv4 address is held to the IPv4 rules. *)
Definition mapped_v4 (a : Z) : option Z :=
  if Z.shiftr a 32 =? 65535 then Some (Z.land a 4294967295) else None.

Definition rule_matches (ip : Ip) (r : Subnet) : bool :=
  match r.(network), ip with
  | IPv4 n, IPv4 a => in_subnet 32 n r.(prefix) a
  | IPv4 n, IPv6 a => match mapped_v4 a with Some a => in_subnet 32 n r.(prefix) a | None => false end
  | IPv6 n, IPv6 a => in_subnet 128 n r.(prefix) a
  | IPv6 _, IPv4 _ => false
  end.

Definition check (rules : list Subnet) (ip : Ip) : bool := some (rule_matches ip) rules.

Definition addSubnet (rules : list Subnet) (net : string) (prefix : Z) : list Subnet :=
  match parse_ip net with Some n => rules ++ [MkSubnet n prefix] | None => rules end.
Definition addAddress (rules : list Subnet) (a : string) : list Subnet :=
  match parse_ip a with
  | Some (IPv4 _) => addSubnet rules a 32
  | _ => addSubnet rules a 128
  end.

(** ** The networks the source names *)

(** [PRIVATE_NETWORKS] src/src/util/network.ts:3-33 *)
Definition PRIVATE_NETWORKS : list Subnet :=
  fold_left (fun rules '(network, prefix) => addSubnet rules network prefix)
    [("0.0.0.0", 8); ("10.0.0.0", 8); ("100.64.0.0", 10); ("127.0.0.0", 8); ("169.254.0.0", 16);
     ("172.16.0.0", 12); ("192.0.0.0", 24); ("192.0.2.0", 24); ("192.168.0.0", 16); ("198.18.0.0", 15);
     ("198.51.100.0", 24); ("203.0.113.0", 24); ("224.0.0.0", 4); ("240.0.0.0", 4);
     ("::", 128); ("::1", 128); ("64:ff9b:1::", 48); ("fc00::", 7); ("fec0::", 10); ("fe80::", 10);
     ("ff00::", 8); ("2001:db8::", 32)]%string [].

(** [LINK_LOCAL] src/src/egress-authz-main.ts:21-24 *)
Definition LINK_LOCAL : list Subnet :=
  addAddress (addSubnet (addSubnet [] "169.254.0.0" 16) "fe80::" 10) "fd00:ec2::254".

(** [METADATA_HOSTS] src/src/egress-authz-main.ts:19-19 *)
Definition METADATA_HOSTS : list string := ["metadata.google.internal"; "metadata.goog"]%string.

(** The replacement of a text wholly in square brackets by what they hold. *)
Definition bracketed : re := (Bol false ⋅ chr "[" ⋅ Grp 1 (star (Cls dot)) ⋅ chr "]" ⋅ Eol false)%re.
Definition unbracket (s : string) : string := replace_first bracketed (fun h => group 1 h ?? ""%string) s.
(** The removal of a zone. *)
Definition zoned : re := (chr "%" ⋅ star (Cls dot) ⋅ Eol false)%re.
Definition unzone (s : string) : string := replace_first zoned (fun _ => ""%string) s.
(** The removal of one final dot. *)
Definition final_dot : re := (chr "." ⋅ Eol false)%re.
Definition undot (s : string) : string := replace_first final_dot (fun _ => ""%string) s.

(** [normalizedIp] src/src/util/network.ts:35-42 *)
Definition normalizedIp (raw : string) : option Ip := parse_ip (unzone (unbracket (to_lower (trim raw)))).

(** [isPrivateNetworkIp] src/src/util/network.ts:44-48 *)
Definition isPrivateNetworkIp (raw : string) : bool :=
  match normalizedIp raw with Some ip => check PRIVATE_NETWORKS ip | None => false end.

(** [isLinkLocalOrMetadataIp] src/src/egress-authz-main.ts:26-35 *)
Definition isLinkLocalOrMetadataIp (ip : string) : bool :=
  match normalizedIp ip with Some ip => check LINK_LOCAL ip | None => false end.

(** [isAlwaysBlockedHost] src/src/egress-authz-main.ts:37-45 *)
Definition isAlwaysBlockedHost (host : string) : bool :=
  let h := undot (unbracket (to_lower (trim host))) in
  if negb (isIP h =? 0) then isLinkLocalOrMetadataIp h
  else some (fun m => (h === m) || ends_with h ("." +:+ m)) METADATA_HOSTS.

(** ** Lemmas *)

Lemma in_subnet_range width net prefix a :
  0 <= prefix <= width ->
  in_subnet width net prefix a = true <->
  net / 2 ^ (width - prefix) * 2 ^ (width - prefix) <= a < (net / 2 ^ (width - prefix) + 1) * 2 ^ (width - prefix).
Proof.
  intros Hp. unfold in_subnet. rewrite Z.eqb_eq, !Z.shiftr_div_pow2 by lia.
  assert (0 < 2 ^ (width - prefix)) by (apply Z.pow_pos_nonneg; lia).
  set (m := 2 ^ (width - prefix)) in *. split.
  - intros <-. pose proof (Z.div_mod a m ltac:(lia)). pose proof (Z.mod_pos_bound a m ltac:(lia)). nia.
  - intros [Hl Hu]. pose proof (Z.div_mod a m ltac:(lia)). pose proof (Z.mod_pos_bound a m ltac:(lia)). nia.
Qed.

Lemma number_nonneg s acc : str_every is_digit s = true -> 0 <= acc -> 0 <= number 10 acc s.
Proof.
  revert acc. induction s as [|c s IH]; intros acc Hd Ha; cbn in *; [done|].
  apply andb_true_iff in Hd as [Hc Hs]. apply IH; [done|].
  unfold hex_value. rewrite Hc. unfold is_digit, in_range in Hc. apply andb_true_iff in Hc as [Hl _].
  apply N.leb_le in Hl. lia.
Qed.

Lemma octet_bound s n : octet s = Some n -> 0 <= n <= 255.
Proof.
  unfold octet. case_match eqn:E; [|done]. intros [= <-]. to_prop. split; [|done]. by apply number_nonneg.
Qed.

Lemma parse_v4_bound s a : parse_v4 s = Some a -> 0 <= a < 2 ^ 32.
Proof.
  unfold parse_v4. intros H. do 5 (case_match; try done).
  repeat (apply bind_Some in H as (? & ?%octet_bound & H)). injection H as <-. lia.
Qed.

(** An address written in IPv6 clothing is held to the rules for the address it maps. *)
Lemma mapped_checked rules a :
  0 <= a < 2 ^ 32 -> check rules (IPv4 a) = true -> check rules (IPv6 (65535 * 2 ^ 32 + a)) = true.
Proof.
  intros Ha. unfold check. rewrite !some_true. intros ([n p] & Hr & Hm). exists (MkSubnet n p). split; [done|].
  unfold rule_matches in *; cbn in *. destruct n as [n|n]; [|done].
  assert (mapped_v4 (65535 * 2 ^ 32 + a) = Some a) as ->; [|done].
  unfold mapped_v4. rewrite Z.shiftr_div_pow2 by lia. rewrite Z.div_add_l by lia.
  rewrite Z.div_small by done. replace 4294967295 with (Z.ones 32) by done.
  rewrite Z.land_ones, (Z.add_comm (65535 * _)), Z_mod_plus_full by lia. by rewrite Z.mod_small.
Qed.
