(* ===== verification/DurableMap.v ===== *)
(** * Durable maps

    The key-value interface most stores sit on ([src/src/persistence/durable-map.ts]).
    [DurableMap] is the interface with its laws; the stores are proved against it.  The
    in-memory map implements it; the Postgres map is not modelled, and its contract is this
    interface.  Each call is atomic.  Values are records: an update writes back the whole
    record. *)

From S2P Require Import Prelude JsString.

(** [DurableMap] src/src/persistence/durable-map.ts:3-15
    The calls that read or write a single key; the others are derived below. *)
Class DurableMap (M T : Type) := {
  dm_empty : M;
  dm_get : string -> M -> option T;
  dm_put : string -> T -> M -> M;
  dm_delete : string -> M -> M;
  dm_entries : M -> list (string * T);
}.

(** What a store relies on. *)
Class DurableMapLaws (M T : Type) {D : DurableMap M T} : Prop := {
  dm_get_empty k : dm_get k dm_empty = None;
  dm_get_put k k' v (m : M) : dm_get k' (dm_put k v m) = if decide (k = k') then Some v else dm_get k' m;
  dm_get_delete k k' (m : M) : dm_get k' (dm_delete k m) = if decide (k = k') then None else dm_get k' m;
  dm_entries_get k v (m : M) : (k, v) ∈ dm_entries m <-> dm_get k m = Some v;
  dm_entries_NoDup (m : M) : NoDup (dm_entries m).*1;
  dm_entries_sorted (m : M) : StronglySorted (fun a b => str_cmp a.1 b.1 <= 0) (dm_entries m);
}.

(** ** Derived operations *)

Section derived.
Context {M T : Type} {D : DurableMap M T}.
Implicit Types (m : M) (v : T).

(** [all] src/src/persistence/durable-map.ts:35-37 *)
Definition dm_all m : list T := (dm_entries m).*2.

(** [putIfAbsent] src/src/persistence/durable-map.ts:47-52 *)
Definition dm_putIfAbsent k v m : T * M :=
  match dm_get k m with Some existing => (existing, m) | None => (v, dm_put k v m) end.

(** [insertIfAbsent] src/src/persistence/durable-map.ts:53-57 *)
Definition dm_insertIfAbsent k v m : bool * M :=
  match dm_get k m with Some _ => (false, m) | None => (true, dm_put k v m) end.

(** [update] src/src/persistence/durable-map.ts:65-71 *)
Definition dm_update k (f : T -> T) m : option T * M :=
  match dm_get k m with Some v => (Some (f v), dm_put k (f v) m) | None => (None, m) end.

(** [merge] src/src/persistence/durable-map.ts:58-64
    The patch is the function it applies to the record ([applyPatch]). *)
Definition dm_merge k (patch : T -> T) m : option T * M :=
  match dm_get k m with Some v => (Some (patch v), dm_put k (patch v) m) | None => (None, m) end.

(** [deleteIf] src/src/persistence/durable-map.ts:72-77 *)
Definition dm_deleteIf k (p : T -> bool) m : bool * M :=
  match dm_get k m with
  | Some v => if negb (p v) then (false, m) else (true, dm_delete k m)
  | None => (false, m)
  end.

(** [take] src/src/persistence/durable-map.ts:81-85 *)
Definition dm_take k m : option T * M := (dm_get k m, dm_delete k m).

Context `{!DurableMapLaws M T}.

Lemma elem_of_dm_all v m : v ∈ dm_all m <-> exists k, dm_get k m = Some v.
Proof.
  unfold dm_all. rewrite list_elem_of_fmap. split.
  - intros ([k v'] & -> & Hin). exists k. by apply dm_entries_get.
  - intros [k Hk]. exists (k, v). by rewrite dm_entries_get.
Qed.
Lemma dm_get_put_eq k v m : dm_get k (dm_put k v m) = Some v.
Proof. by rewrite dm_get_put, decide_True. Qed.
Lemma dm_get_put_ne k k' v m : k <> k' -> dm_get k' (dm_put k v m) = dm_get k' m.
Proof. intros. by rewrite dm_get_put, decide_False. Qed.
Lemma dm_get_put_Some k k' v v' m :
  dm_get k' (dm_put k v m) = Some v' -> (k' = k /\ v' = v) \/ (k' <> k /\ dm_get k' m = Some v').
Proof. rewrite dm_get_put. case_decide; [intros [= <-]; auto|]. auto. Qed.
Lemma dm_get_delete_Some k k' v' m :
  dm_get k' (dm_delete k m) = Some v' -> k' <> k /\ dm_get k' m = Some v'.
Proof. rewrite dm_get_delete. case_decide; [done|]. auto. Qed.
End derived.

(** ** The in-memory map *)

(** [createMemoryMap] src/src/persistence/durable-map.ts:28-33 *)
Definition sortedEntries {T} (m : jsmap string T) : list (string * T) :=
  js_sort (fun a b => str_cmp a.1 b.1) (entries m).

(** [createMemoryMap] src/src/persistence/durable-map.ts:26-87 *)
Definition createMemoryMap {T} : DurableMap (jsmap string T) T := {|
  dm_empty := ∅;
  dm_get k m := m !! k;
  dm_put k v m := <[k := v]> m;
  dm_delete k m := delete k m;
  dm_entries := sortedEntries;
|}.
#[export] Existing Instance createMemoryMap.

#[export] Instance createMemoryMap_laws T : DurableMapLaws (jsmap string T) T.
Proof.
  split.
  - done.
  - intros. apply lookup_set.
  - intros. apply lookup_del.
  - intros. simpl. unfold sortedEntries. rewrite elem_of_js_sort. apply elem_of_entries.
  - intros. simpl. unfold sortedEntries. rewrite js_sort_perm. apply entries_NoDup.
  - intros. apply (js_sort_sorted _).
Qed.
