(* ===== verification/Async.v ===== *)
(** * Calls that interleave at their awaits

    An [async] function is a [call]: code that runs at once, cut at each [await].  Between two
    awaits it reads the clock ([Now]); an await is one atomic operation on the state the calls
    share, which may have to wait.  Calls of one or several processes interleave at their
    awaits in any order ([World], [act]).  A call alone is [run].  [wp] is the logic: what
    holds of a call however the others interleave with it, when all keep an invariant and a
    relation between states. *)

From S2P Require Import Prelude.

(** ** Calls *)

Inductive call (St E A : Type) : Type :=
| Ret (a : A)
| Raise (e : E)
| Now (k : Z -> call St E A)
| Await {X : Type} (op : St -> option (X * St)) (k : X -> call St E A).
Arguments Ret {St E A} a.
Arguments Raise {St E A} e.
Arguments Now {St E A} k.
Arguments Await {St E A X} op k.

Abbreviation Top_call := call.

Section call.
Context {St E : Type}.
Abbreviation call := (call St E).

#[export] Instance call_ret : MRet call := fun A a => Ret a.
#[export] Instance call_bind : MBind call := fun A B f =>
  fix bind (c : call A) : call B :=
    match c with
    | Ret a => f a
    | Raise e => Raise e
    | Now k => Now (fun t => bind (k t))
    | Await op k => Await op (fun x => bind (k x))
    end.

(** [await op], the clock, and [try … catch]. *)
Definition await {X} (op : St -> option (X * St)) : call X := Await op Ret.
Definition now : call Z := Now Ret.
Fixpoint catch {A} (c : call A) (h : E -> call A) : call A :=
  match c with
  | Ret a => Ret a
  | Raise e => h e
  | Now k => Now (fun t => catch (k t) h)
  | Await op k => Await op (fun x => catch (k x) h)
  end.
(** A pure step that may throw. *)
Definition lift {A} (r : result E A) : call A := match r with Ok a => Ret a | Throw e => Raise e end.

(** [for (const x of l) …], and the loop that fills an array. *)
Fixpoint for_each {A} (l : list A) (f : A -> call unit) : call unit :=
  match l with [] => Ret tt | x :: l => _ ← f x; for_each l f end.
Fixpoint collect {A B} (l : list A) (f : A -> call (list B)) : call (list B) :=
  match l with [] => Ret [] | x :: l => ys ← f x; zs ← collect l f; mret (ys ++ zs)%list end.

(** A call on a part of the state: [get] reads the part, [put] writes it back. *)
Fixpoint zoom {St' A} (get : St' -> St) (put : St -> St' -> St') (c : call A) : Top_call St' E A :=
  match c with
  | Ret a => Ret a
  | Raise e => Raise e
  | Now k => Now (fun t => zoom get put (k t))
  | Await op k => Await (fun s' => match op (get s') with Some (x, s) => Some (x, put s s') | None => None end) (fun x => zoom get put (k x))
  end.

(** The code up to the next await, at time [t]. *)
Fixpoint settle {A} (t : Z) (c : call A) : call A := match c with Now k => settle t (k t) | _ => c end.

(** What is said of every value a call can return. *)
Fixpoint yields {A} (P : A -> Prop) (c : call A) : Prop :=
  match c with
  | Ret a => P a
  | Raise _ => True
  | Now k => forall t, yields P (k t)
  | Await op k => forall x, yields P (k x)
  end.
Lemma yields_bind {A B} (P : B -> Prop) (c : call A) (f : A -> call B) :
  yields (fun a => yields P (f a)) c -> yields P (c ≫= f).
Proof. induction c as [a|e|k IH|X op k IH]; simpl; [done|done|..]; intros H x; apply IH, H. Qed.
Lemma yields_any {A} (c : call A) : yields (fun _ => True) c.
Proof. induction c; simpl; auto. Qed.
Lemma yields_mono {A} (P P' : A -> Prop) (c : call A) : (forall a, P a -> P' a) -> yields P c -> yields P' c.
Proof. intros HP. induction c as [a|e|k IH|X op k IH]; simpl; auto. Qed.
Lemma yields_catch {A} (P : A -> Prop) (c : call A) h : yields P c -> (forall e, yields P (h e)) -> yields P (catch c h).
Proof. intros Hc Hh. induction c as [a|e|k IH|X op k IH]; simpl in *; auto. Qed.
Lemma yields_lift {A} (P : A -> Prop) r : (forall a, r = Ok a -> P a) -> yields P (lift r).
Proof. destruct r; simpl; auto. Qed.
(** Any value may come back, and then the rest is as said. *)
Lemma yields_then {A B} (P : B -> Prop) (c : call A) (f : A -> call B) : (forall a, yields P (f a)) -> yields P (c ≫= f).
Proof. intros H. apply yields_bind. eapply yields_mono; [|apply yields_any]. intros a _. apply H. Qed.
Lemma yields_collect {A B} (P : B -> Prop) (l : list A) (f : A -> call (list B)) :
  (forall x, x ∈ l -> yields (Forall P) (f x)) -> yields (Forall P) (collect l f).
Proof.
  induction l as [|x l IH]; intros H; simpl; [constructor|]. apply yields_bind. eapply yields_mono; [|apply H, list_elem_of_here].
  intros ys Hys. apply yields_bind. eapply yields_mono; [|apply IH; intros; apply H; by apply list_elem_of_further].
  intros zs Hzs. by apply Forall_app.
Qed.

(** ** A call alone

    [None] when it waits for something that nobody else does. *)
Fixpoint run {A} (t : Z) (c : call A) (s : St) : option (result E A * St) :=
  match c with
  | Ret a => Some (Ok a, s)
  | Raise e => Some (Throw e, s)
  | Now k => run t (k t) s
  | Await op k => match op s with Some (x, s) => run t (k x) s | None => None end
  end.

Lemma run_bind {A B} t (c : call A) (f : A -> call B) s :
  run t (c ≫= f) s =
    match run t c s with
    | Some (Ok a, s) => run t (f a) s
    | Some (Throw e, s) => Some (Throw e, s)
    | None => None
    end.
Proof.
  revert s. induction c as [a|e|k IH|X op k IH]; intros s; simpl; [done|done|apply IH|].
  destruct (op s) as [[x s']|]; [apply IH|done].
Qed.
Lemma run_settle {A} t (c : call A) s : run t (settle t c) s = run t c s.
Proof. induction c as [a|e|k IH|X op k IH]; simpl; [done|done|apply IH|done]. Qed.
End call.

(** ** Interleaving *)

Section world.
Context {St E Req Resp : Type} (serve : Req -> call St E Resp).

(** The state, the calls with what they answer, and which call did what to the state. *)
Record World := MkWorld {
  st : St;
  pool : list (Req * call St E Resp);
  trace : list (nat * (St * St));
}.

(** A call begins, or one of those that began goes on to its next await, at some time. *)
Inductive Action := Begin (q : Req) (t : Z) | Move (i : nat) (t : Z).

Definition act (a : Action) (w : World) : World :=
  match a with
  | Begin q t => MkWorld w.(st) (w.(pool) ++ [(q, settle t (serve q))])%list w.(trace)
  | Move i t =>
      match w.(pool) !! i with
      | Some (q, Await op k) =>
          match op w.(st) with
          | Some (x, s) => MkWorld s (<[i := (q, settle t (k x))]> w.(pool)) (w.(trace) ++ [(i, (w.(st), s))])%list
          | None => w
          end
      | _ => w
      end
  end.
Definition acts (l : list Action) (w : World) : World := fold_left (fun w a => act a w) l w.
Definition begins (s : St) : World := MkWorld s [] [].

(** The steps that call [i] made. *)
Definition steps_of (i : nat) (l : list (nat * (St * St))) : list (St * St) := map snd (js_filter (fun p => Nat.eqb p.1 i) l).

Lemma steps_of_snoc i j ss l : steps_of i (l ++ [(j, ss)]) = (steps_of i l ++ (if Nat.eqb j i then [ss] else []))%list.
Proof. unfold steps_of. rewrite js_filter_app, map_app. simpl. by destruct (Nat.eqb j i). Qed.

(** The states follow on each other. *)
Fixpoint chain (s : St) (l : list (nat * (St * St))) (s' : St) : Prop :=
  match l with [] => s = s' | (_, (a, b)) :: l => s = a /\ chain b l s' end.
Lemma chain_extend s l i a b : chain s l a -> chain s (l ++ [(i, (a, b))]) b.
Proof. revert s. induction l as [|[j [c d]] l IH]; intros s; simpl; [by intros ->|]. intros [-> H]. auto. Qed.

Lemma chain_app s l1 x l2 s' : chain s (l1 ++ x :: l2) s' -> chain s l1 x.2.1.
Proof.
  revert s. induction l1 as [|[i [a b]] l1 IH]; intros s; destruct x as [j [c d]]; simpl; [by intros [-> _]|]. intros [-> H].
  split; [done|]. by apply (IH b).
Qed.
Lemma steps_of_trace i x (l : list (nat * (St * St))) : x ∈ steps_of i l -> (i, x) ∈ l.
Proof.
  unfold steps_of. rewrite list_elem_of_fmap. intros ([j y] & -> & H). apply elem_of_js_filter in H as [Hj H]. simpl in *.
  by apply Nat.eqb_eq in Hj as <-.
Qed.

(** Something that is on in a state, and the steps that turn it on or off: it is turned off no
    more often than it was turned on. *)
Definition turned_on (on : St -> bool) (p : nat * (St * St)) : bool := negb (on p.2.1) && on p.2.2.
Definition turned_off (on : St -> bool) (p : nat * (St * St)) : bool := on p.2.1 && negb (on p.2.2).
Definition count (p : nat * (St * St) -> bool) (l : list (nat * (St * St))) : nat := length (js_filter p l).

Lemma off_le_on on s0 l s : chain s0 l s ->
  (count (turned_off on) l + (if on s then 1 else 0) <= count (turned_on on) l + (if on s0 then 1 else 0))%nat.
Proof.
  revert s0. induction l as [|[i [a b]] l IH]; intros s0; simpl; [by intros ->|]. intros [-> H]. specialize (IH b H).
  unfold count in *. simpl. unfold turned_off at 1, turned_on at 1. cbn [fst snd]. destruct (on a), (on b); simpl; lia.
Qed.
Lemma distinct_count (P : nat * (St * St) -> bool) ids l :
  NoDup ids -> (forall i, i ∈ ids -> exists x, (i, x) ∈ l /\ P (i, x) = true) -> (length ids <= count P l)%nat.
Proof.
  intros Hn Hi0. unfold count. rewrite <- (length_fmap fst). apply submseteq_length, NoDup_submseteq; [done|]. intros i Hi.
  destruct (Hi0 i Hi) as (x & Hx & HP). apply list_elem_of_fmap. exists (i, x). split; [done|]. by apply elem_of_js_filter.
Qed.

(** A call alone does what [run] says. *)
Lemma run_acts t i q (c : call St E Resp) w r s :
  w.(pool) !! i = Some (q, settle t c) -> run t c w.(st) = Some (r, s) ->
  exists l, (forall a, a ∈ l -> a = Move i t) /\ (acts l w).(st) = s /\
    (acts l w).(pool) !! i = Some (q, match r with Ok a => Ret a | Throw e => Raise e end).
Proof.
  revert w. induction c as [a|e|k IH|X op k IH]; intros w Hp Hr; cbn [run settle] in *.
  - injection Hr as <- <-. exists []. split; [intros a' ?%not_elem_of_nil; done|]. done.
  - injection Hr as <- <-. exists []. split; [intros a' ?%not_elem_of_nil; done|]. done.
  - by apply (IH t).
  - destruct (op (st w)) as [[x s']|] eqn:Eo; [|discriminate Hr].
    destruct (IH x (act (Move i t) w)) as (l & Hl & Hs & Hp').
    + cbn [act]. rewrite Hp, Eo. cbn [pool]. rewrite list_lookup_insert_eq; [done|]. by eapply lookup_lt_Some.
    + cbn [act]. by rewrite Hp, Eo.
    + exists (Move i t :: l). split; [|done]. intros a. rewrite elem_of_cons. intros [->|Ha]; auto.
Qed.

End world.
Arguments World St E Req Resp : clear implicits.
Arguments Action Req : clear implicits.

(** What happens depends only on the calls that begin. *)
Lemma acts_ext {St E Req Resp} (serve serve' : Req -> call St E Resp) l w :
  (forall q t, Begin q t ∈ l -> serve q = serve' q) -> acts serve l w = acts serve' l w.
Proof.
  revert w. induction l as [|a l IH]; intros w H; [done|]. unfold acts in *. simpl. rewrite <- IH.
  - f_equal. destruct a as [q t|i t]; [|done]. cbn [act]. by rewrite (H q t (list_elem_of_here _ _)).
  - intros q t Hin. apply (H q t). by apply list_elem_of_further.
Qed.

(** Any step. *)
Definition any {St : Type} (a b : St) : Prop := True.
#[export] Instance any_preorder {St} : PreOrder (@any St).
Proof. split; red; done. Qed.

(** ** Calls that make few steps *)

Section few.
Context {St E Req Resp : Type} (serve : Req -> call St E Resp).

(** At most [n] awaits, whatever comes back. *)
Fixpoint at_most {A} (n : nat) (c : call St E A) : Prop :=
  match c with
  | Ret _ | Raise _ => True
  | Now k => forall t, at_most n (k t)
  | Await op k => match n with O => False | S n => forall x, at_most n (k x) end
  end.
Lemma at_most_settle {A} n t (c : call St E A) : at_most n c -> at_most n (settle t c).
Proof. induction c as [a|e|k IH|X op k IH]; cbn [at_most settle]; [done|done| |done]. intros H. apply IH, H. Qed.

Definition few_ok (few : Req -> option nat) (w : World St E Req Resp) : Prop :=
  (forall i x, (i, x) ∈ w.(trace) -> (i < length w.(pool))%nat) /\
  forall i q c n, w.(pool) !! i = Some (q, c) -> few q = Some n ->
    exists m, at_most m c /\ (length (steps_of i w.(trace)) + m <= n)%nat.
Lemma few_steps few l s :
  (forall q n, few q = Some n -> at_most n (serve q)) -> few_ok few (acts serve l (begins s)).
Proof.
  intros Hq. enough (H : forall w, few_ok few w -> few_ok few (acts serve l w)).
  { apply H. split; cbn; [by intros i x ?%not_elem_of_nil|done]. }
  induction l as [|a l IH]; intros w [Hi Hw]; [done|]. apply IH. destruct a as [q t|i t]; cbn [act].
  - split; cbn [pool trace].
    + intros i x Hin. rewrite length_app. specialize (Hi i x Hin). lia.
    + intros i q' c n [Hp|[Hl Hp]]%lookup_app_Some Hn; [by apply (Hw i q')|].
      destruct (i - length (pool w))%nat eqn:Ei; [|done]. injection Hp as <- <-. exists n. split; [by apply at_most_settle, Hq|].
      replace (steps_of i (trace w)) with (@nil (St * St)); [done|]. symmetry. unfold steps_of.
      replace (js_filter _ (trace w)) with (@nil (nat * (St * St))); [done|]. symmetry. apply js_filter_nil. intros [j x] Hin. apply Nat.eqb_neq. specialize (Hi j x Hin). simpl. lia.
  - destruct (pool w !! i) as [[q c]|] eqn:Hp; [|done]. destruct c as [| | |X op k]; [done..|].
    pose proof (lookup_lt_Some _ _ _ Hp) as Hlt. destruct (op (st w)) as [[x s']|]; [|done]. split; cbn [pool trace].
    + intros j y [Hin|Hin]%elem_of_app; rewrite length_insert; [by apply (Hi j y)|]. apply list_elem_of_singleton in Hin. by injection Hin as -> _.
    + intros j q' c n Hj Hn. rewrite steps_of_snoc. destruct (Nat.eqb_spec i j) as [<-|Hne].
      * rewrite list_lookup_insert_eq in Hj by done. injection Hj as <- <-. destruct (Hw i q _ n Hp Hn) as ([|m] & Hm & Hlen); [done|].
        exists m. split; [by apply at_most_settle, Hm|]. rewrite length_app. simpl. lia.
      * rewrite list_lookup_insert_ne in Hj by done. rewrite app_nil_r. by apply (Hw j q').
Qed.

(** Steps of a kind that only one call makes, and it makes at most one. *)
Lemma count_le_steps (P : nat * (St * St) -> bool) i l :
  (forall j x, (j, x) ∈ l -> P (j, x) = true -> j = i) -> (count P l <= length (steps_of i l))%nat.
Proof.
  induction l as [|[j x] l IH]; intros H; [done|]. unfold count, steps_of in *. simpl.
  assert (Hl : forall j y, (j, y) ∈ l -> P (j, y) = true -> j = i) by (intros j' y Hin; apply H; by apply list_elem_of_further).
  specialize (IH Hl). destruct (P (j, x)) eqn:Ep.
  - rewrite (H j x (list_elem_of_here _ _) Ep), Nat.eqb_refl. simpl. lia.
  - destruct (Nat.eqb j i); simpl; lia.
Qed.
End few.

(** ** What holds of a call however the others interleave *)

Section wp.
Context {St E : Type} (R : St -> St -> Prop) (I : St -> Prop) `{!PreOrder R}.
Abbreviation call := (call St E).

(** Each step keeps [I] and is one of [R] and of [G], which is the call's own promise.  [Q] is
    told the result, the steps the call made and the state, at the end and for as long as
    others go on. *)
Fixpoint wp {A} (G : St -> St -> Prop) (c : call A) (Q : result E A -> list (St * St) -> St -> Prop) (mine : list (St * St)) (s : St) : Prop :=
  match c with
  | Ret a => forall s', R s s' -> I s' -> Q (Ok a) mine s'
  | Raise e => forall s', R s s' -> I s' -> Q (Throw e) mine s'
  | Now k => forall t, wp G (k t) Q mine s
  | Await op k => forall s', R s s' -> I s' ->
      match op s' with
      | Some (x, s'') => I s'' /\ R s' s'' /\ G s' s'' /\ wp G (k x) Q (mine ++ [(s', s'')]) s''
      | None => True
      end
  end.

Lemma wp_later {A} G (c : call A) Q mine s s' : R s s' -> wp G c Q mine s -> wp G c Q mine s'.
Proof.
  intros HR. induction c as [a|e|k IH|X op k IH]; cbn [wp]; intros H.
  - intros s'' H'. apply H. by transitivity s'.
  - intros s'' H'. apply H. by transitivity s'.
  - intros t. by apply IH.
  - intros s'' H'. apply H. by transitivity s'.
Qed.
Lemma wp_mono {A} (G G' : St -> St -> Prop) (c : call A) (Q Q' : result E A -> list (St * St) -> St -> Prop) mine s :
  (forall a b, G a b -> G' a b) -> (forall r m s, I s -> Q r m s -> Q' r m s) -> wp G c Q mine s -> wp G' c Q' mine s.
Proof.
  intros HG HQ. revert mine s. induction c as [a|e|k IH|X op k IH]; intros mine s; cbn [wp]; intros H; [auto..| |].
  - intros t. by apply IH.
  - intros s' HR HI. specialize (H s' HR HI). destruct (op s') as [[x s'']|]; [|done]. destruct H as (?&?&?&?). auto 7.
Qed.
Lemma wp_bind {A B} G (c : call A) (f : A -> call B) Q mine s :
  I s ->
  wp G c (fun r m s => match r with Ok a => wp G (f a) Q m s | Throw e => Q (Throw e) m s end) mine s ->
  wp G (c ≫= f) Q mine s.
Proof.
  revert mine s. induction c as [a|e|k IH|X op k IH]; intros mine s HI; simpl; intros H.
  - by apply H.
  - done.
  - intros t. by apply IH.
  - intros s' HR HI'. specialize (H s' HR HI'). destruct (op s') as [[x s'']|]; [|done]. destruct H as (?&?&?&?).
    split_and!; [done..|]. by apply IH.
Qed.
Lemma wp_settle {A} G t (c : call A) Q mine s : wp G c Q mine s -> wp G (settle t c) Q mine s.
Proof. induction c as [a|e|k IH|X op k IH]; cbn [wp settle]; [done|done| |done]. intros H. apply IH, H. Qed.
Lemma wp_catch {A} G (c : call A) h Q mine s :
  I s ->
  wp G c (fun r m s => match r with Ok a => Q (Ok a) m s | Throw e => wp G (h e) Q m s end) mine s ->
  wp G (catch c h) Q mine s.
Proof.
  revert mine s. induction c as [a|e|k IH|X op k IH]; intros mine s HI; simpl; intros H.
  - done.
  - by apply H.
  - intros t. by apply IH.
  - intros s' HR HI'. specialize (H s' HR HI'). destruct (op s') as [[x s'']|]; [|done]. destruct H as (?&?&?&?). auto 7.
Qed.

Lemma wp_yields {A} G (P : A -> Prop) (c : call A) Q mine s :
  yields P c -> wp G c Q mine s ->
  wp G c (fun r m s => Q r m s /\ (forall a, r = Ok a -> P a) /\ exists l, m = (mine ++ l)%list) mine s.
Proof.
  revert mine s. induction c as [a|e|k IH|X op k IH]; intros mine s; cbn [yields wp]; intros HP H.
  - intros s' HR HI. split_and!; [auto|by intros a' [= <-]|]. exists []. by rewrite app_nil_r.
  - intros s' HR HI. split_and!; [auto|done|]. exists []. by rewrite app_nil_r.
  - intros t. by apply IH.
  - intros s' HR HI. specialize (H s' HR HI). destruct (op s') as [[x s'']|]; [|done]. destruct H as (?&?&?&Hk). split_and!; [done..|].
    eapply (wp_mono G G); [done| |apply IH; [apply HP|exact Hk]]. intros r m s3 HI3 (HQ & Ha & l & ->). split_and!; [done|done|].
    exists ([(s', s'')] ++ l)%list. by rewrite app_assoc.
Qed.

(** ** Calls of which nothing else is to be said *)

Definition safe {A} (G : St -> St -> Prop) (c : call A) : Prop := forall mine s, I s -> wp G c (fun _ _ _ => True) mine s.

Lemma safe_ret {A} G (a : A) : safe G (mret a).
Proof. intros mine s _ s' _ _. done. Qed.
Lemma safe_raise {A} G e : safe G (Raise (A := A) e).
Proof. intros mine s _ s' _ _. done. Qed.
Lemma safe_bind {A B} G (c : call A) (f : A -> call B) : safe G c -> (forall a, safe G (f a)) -> safe G (c ≫= f).
Proof.
  intros Hc Hf mine s HI. apply wp_bind; [done|]. eapply wp_mono; [done| |by apply Hc]. intros [a|e] m s' HI' _; [|done]. by apply Hf.
Qed.
Lemma safe_catch {A} G (c : call A) h : safe G c -> (forall e, safe G (h e)) -> safe G (catch c h).
Proof.
  intros Hc Hf mine s HI. apply wp_catch; [done|]. eapply wp_mono; [done| |by apply Hc]. intros [a|e] m s' HI' _; [done|]. by apply Hf.
Qed.
Lemma safe_now G : safe G now.
Proof. intros mine s HI t s' _ _. done. Qed.
Lemma safe_await {X} G (op : St -> option (X * St)) :
  (forall s x s', I s -> op s = Some (x, s') -> I s' /\ R s s' /\ G s s') -> safe G (await op).
Proof.
  intros H mine s _. intros s' _ HI. specialize (H s'). destruct (op s') as [[x s'']|]; [|done].
  destruct (H x s'' HI eq_refl) as (?&?&?). split_and!; done.
Qed.
Lemma safe_for_each {A} G (l : list A) f : (forall x, safe G (f x)) -> safe G (for_each l f).
Proof. intros Hf. induction l as [|x l IH]; [apply safe_ret|]. apply safe_bind; [apply Hf|]. by intros _. Qed.
Lemma safe_collect {A B} G (l : list A) (f : A -> call (list B)) : (forall x, safe G (f x)) -> safe G (collect l f).
Proof.
  intros Hf. induction l as [|x l IH]; [apply safe_ret|]. apply safe_bind; [apply Hf|]. intros ys. apply safe_bind; [done|].
  intros. apply safe_ret.
Qed.
Lemma safe_if {A} G (b : bool) (c d : call A) : safe G c -> safe G d -> safe G (if b then c else d).
Proof. by destruct b. Qed.
Lemma safe_lift {A} G (r : result E A) : safe G (lift r).
Proof. destruct r; [apply safe_ret|apply safe_raise]. Qed.

Lemma yields_zoom {St' A} (get : St' -> St) (put : St -> St' -> St') (P : A -> Prop) (c : call A) :
  yields P c -> yields P (zoom get put c).
Proof. induction c as [a|e|k IH|X op k IH]; simpl; auto. Qed.
(** A call on a part of the state that nobody says anything of. *)
Lemma safe_zoom {St' A} G (get : St -> St') (put : St' -> St -> St) (c : Top_call St' E A) :
  (forall s k, I s -> I (put k s) /\ R s (put k s) /\ G s (put k s)) -> safe G (zoom get put c).
Proof.
  intros Hp. induction c as [a|e|k IH|X op k IH]; simpl.
  - apply (safe_ret G).
  - apply (safe_raise G).
  - intros mine s HI t. by apply IH.
  - intros mine s _ s' _ HI. destruct (op (get s')) as [[x v]|]; [|done]. destruct (Hp s' v HI) as (?&?&?). split_and!; [done..|]. by apply IH.
Qed.

(** One operation, and then the rest. *)
Lemma wp_await {A X} G (op : St -> option (X * St)) (k : X -> call A) Q mine s :
  (forall s' x s'', R s s' -> I s' -> op s' = Some (x, s'') ->
     I s'' /\ R s' s'' /\ G s' s'' /\ wp G (k x) Q (mine ++ [(s', s'')])%list s'') ->
  wp G (await op ≫= k) Q mine s.
Proof.
  intros H. cbn [mbind call_bind await wp]. intros s' HR HI. specialize (H s'). destruct (op s') as [[x s'']|]; [|done].
  destruct (H x s'' HR HI eq_refl) as (?&?&?&?). split_and!; done.
Qed.
Lemma wp_raise {A} G e (Q : result E A -> list (St * St) -> St -> Prop) mine s :
  (forall s', Q (Throw e) mine s') -> wp G (Raise e) Q mine s.
Proof. intros H s' _ _. apply H. Qed.
Lemma wp_now {A} G (k : Z -> call A) Q mine s : (forall t, wp G (k t) Q mine s) -> wp G (now ≫= k) Q mine s.
Proof. done. Qed.
Lemma wp_done {A} G a (Q : result E A -> list (St * St) -> St -> Prop) mine s :
  (forall s', Q (Ok a) mine s') -> wp G (mret a) Q mine s.
Proof. intros H s' _ _. apply H. Qed.
(** A safe call that yields [P], and then the rest. *)
Lemma wp_then {A B} G (P : A -> Prop) (c : call A) (f : A -> call B) Q mine s :
  I s -> safe G c -> yields P c ->
  (forall e m s', Q (Throw e) m s') ->
  (forall a l s', I s' -> P a -> wp G (f a) Q (mine ++ l)%list s') -> wp G (c ≫= f) Q mine s.
Proof.
  intros HI Hs Hy He Hf. apply wp_bind; [done|]. eapply wp_mono; [done| |apply wp_yields; [exact Hy|by apply Hs]].
  intros [a|e] m s' HI' (_ & Ha & l & ->); [|apply He]. apply Hf; auto.
Qed.

Lemma safe_then {A B} G (P : A -> Prop) (c : call A) (f : A -> call B) :
  safe G c -> yields P c -> (forall a, P a -> safe G (f a)) -> safe G (c ≫= f).
Proof. intros Hc Hy Hf mine s HI. apply (wp_then G P); [done|done|done|done|]. intros a l s' HI' Ha. by apply Hf. Qed.

(** ** Every interleaving *)

Context {Req Resp : Type} (serve : Req -> call Resp) (Guar : Req -> St -> St -> Prop)
  (Post : Req -> result E Resp -> list (St * St) -> St -> Prop).
Context (serve_ok : forall q s, I s -> wp (Guar q) (serve q) (Post q) [] s).

Record world_ok (s0 : St) (w : World St E Req Resp) : Prop := {
  w_inv : I w.(st);
  w_since : R s0 w.(st);
  w_chain : chain s0 w.(trace) w.(st);
  w_steps : forall i a b, (i, (a, b)) ∈ w.(trace) -> I b /\ exists q c, w.(pool) !! i = Some (q, c) /\ Guar q a b;
  w_calls : forall i q c, w.(pool) !! i = Some (q, c) -> wp (Guar q) c (Post q) (steps_of i w.(trace)) w.(st);
}.

Lemma steps_of_none i (l : list (nat * (St * St))) : (forall j ss, (j, ss) ∈ l -> j <> i) -> steps_of i l = [].
Proof.
  intros H. unfold steps_of. replace (js_filter _ l) with (@nil (nat * (St * St))); [done|]. symmetry.
  apply js_filter_nil. intros [j ss] Hin. apply Nat.eqb_neq. by apply (H j ss).
Qed.

Lemma act_ok s0 a w : world_ok s0 w -> world_ok s0 (act serve a w).
Proof.
  intros [HI HR Hc Hb Hw]. destruct a as [q t|i t]; cbn [act].
  - split; cbn [st pool trace]; [done|done|done| |].
    + intros i a b Hin. destruct (Hb i a b Hin) as (Hi & q' & c & Hp & HG). split; [done|]. exists q', c. split; [|done].
      by apply lookup_app_l_Some.
    + intros i q' c Hp. apply lookup_app_Some in Hp as [Hp|[Hlen Hp]]; [by apply Hw|].
      destruct (i - length (pool w))%nat eqn:Ei; [|done]. injection Hp as <- <-.
      rewrite steps_of_none; [by apply wp_settle, serve_ok|]. intros j [a b] Hin ->.
      destruct (Hb _ _ _ Hin) as (_ & q' & c & Hp & _). apply lookup_lt_Some in Hp. lia.
  - destruct (pool w !! i) as [[q c]|] eqn:Hp; [|done]. destruct c as [| | |X op k]; [done..|].
    pose proof (Hw i q _ Hp) as H. cbn [wp] in H. specialize (H (st w) (reflexivity _) HI).
    pose proof (lookup_lt_Some _ _ _ Hp) as Hlt.
    destruct (op (st w)) as [[x s]|]; [|done]. destruct H as (HI' & HR' & HG & Hk). split; cbn [st pool trace].
    + done.
    + by transitivity (st w).
    + by apply chain_extend.
    + intros j a b [Hin|Hin]%elem_of_app.
      * destruct (Hb j a b Hin) as (Hi & q' & c & Hj & HGj). split; [done|]. destruct (decide (j = i)) as [->|Hne].
        -- rewrite Hp in Hj. injection Hj as <- <-. eexists q, _. rewrite list_lookup_insert_eq by done. done.
        -- exists q', c. by rewrite list_lookup_insert_ne.
      * apply list_elem_of_singleton in Hin. injection Hin as -> -> ->. split; [done|]. eexists q, _.
        rewrite list_lookup_insert_eq by done. done.
    + intros j q' c Hj. rewrite steps_of_snoc. destruct (Nat.eqb_spec i j) as [<-|Hne].
      * rewrite list_lookup_insert_eq in Hj by done. injection Hj as <- <-. by apply wp_settle.
      * rewrite list_lookup_insert_ne in Hj by done. rewrite app_nil_r. by eapply wp_later, Hw.
Qed.

Lemma acts_ok s0 l w : world_ok s0 w -> world_ok s0 (acts serve l w).
Proof. revert w. induction l as [|a l IH]; intros w H; [done|]. by apply IH, act_ok. Qed.
Lemma begins_ok s : I s -> world_ok s (begins s).
Proof.
  intros HI. split; cbn; [done|done|done| |done]. intros i a b ?%not_elem_of_nil. done.
Qed.

(** Whatever calls are made and however they interleave: the invariant holds, and what has
    ended ended as its specification says. *)
Lemma interleaved_ok s l : I s -> world_ok s (acts serve l (begins s)).
Proof. intros. by apply acts_ok, begins_ok. Qed.
Lemma ended_ok s l i q c r :
  I s -> (acts serve l (begins s)).(pool) !! i = Some (q, c) ->
  c = match r with Ok a => Ret a | Throw e => Raise e end ->
  Post q r (steps_of i (acts serve l (begins s)).(trace)) (acts serve l (begins s)).(st).
Proof.
  intros HI Hp ->. destruct (interleaved_ok s l HI) as [HI' _ _ _ Hw]. specialize (Hw i q _ Hp).
  destruct r; cbn [wp] in Hw; by apply Hw.
Qed.
End wp.
