(* ===== verification/Turn.v ===== *)
(** * Turns: requests, results and where a turn came from

    The data a turn carries between the parts of the core ([src/src/types.ts]) and the
    reconciliation of its origin ([src/src/core/turn-origin.ts]).  [TurnRequest] keeps the
    fields the modelled code reads; the remaining ones are only handed through by it. *)

From S2P Require Import Prelude JsString Scope.

#[local] Open Scope string_scope.

(** [TaskStatus] src/src/tasks/task-store.ts:1-3 *)
Inductive TaskStatus := pending | in_progress | completed | skipped | failed.
#[export] Instance TaskStatus_eq_dec : EqDecision TaskStatus.
Proof. solve_decision. Defined.

(** One row of [Destination.taskList], src/src/types.ts:190-194 *)
Record TaskRow := MkTaskRow { tr_id : string; tr_title : string; tr_status : TaskStatus }.
#[export] Instance TaskRow_eq_dec : EqDecision TaskRow.
Proof. solve_decision. Defined.

(** [Destination] src/src/types.ts:184-200 *)
Record Destination := MkDestination {
  d_type : string;
  d_target : string;
  audienceScopeId : option ScopeId;
  onBehalfOf : option string;
  d_editRef : option string;
  taskList : option (list TaskRow);
  unfurlLinks : option bool;
  d_react : option (string * string);
  d_delete : option string;
  d_identity : option string;
  debugFooter : option string;
}.
#[export] Instance Destination_eta : Eta Destination := fun d =>
  MkDestination d.(d_type) d.(d_target) d.(audienceScopeId) d.(onBehalfOf) d.(d_editRef)
    d.(taskList) d.(unfurlLinks) d.(d_react) d.(d_delete) d.(d_identity) d.(debugFooter).
#[export] Instance Destination_eq_dec : EqDecision Destination.
Proof. solve_decision. Defined.

(** A destination with only its address. *)
Definition address (type target : string) : Destination :=
  MkDestination type target None None None None None None None None None.

(** [BlobAttachment] and [OutgoingAttachment], src/src/types.ts:333-348 *)
Record OutgoingAttachment := MkAttachment {
  a_name : string;
  a_mimetype : string;
  a_sizeBytes : Z;
  a_blobId : string;
  a_artifactId : option string;
  a_artifactViewerId : option string;
}.
#[export] Instance OutgoingAttachment_eq_dec : EqDecision OutgoingAttachment.
Proof. solve_decision. Defined.

(** [TurnOrigin] src/src/types.ts:382-386 *)
Inductive TurnOrigin :=
| o_human (messageTs entryTs : option string)
| o_ambient (entryTs : option string) (live : option bool)
| o_automation (screenData : option string) (destination : option Destination)
    (useOwnerKeychain : option bool)
| o_direct.

(** [LegacyTurnOrigin] src/src/core/turn-origin.ts:4-14 *)
Record LegacyTurnOrigin := MkLegacy {
  triggerTs : option string;
  entryTs : option string;
  triggered : option bool;
  securityScreenData : option string;
  triggerDestination : option Destination;
  ownerKeychainUnion : option bool;
  unprompted : option bool;
  liveActor : option bool;
}.

(** The [panel] block of a request, src/src/types.ts:443-449 *)
Record PanelBlock := MkPanelBlock {
  pb_personaId : string;
  pb_personaName : string;
  continuation : bool;
}.

(** [TurnRequest] src/src/types.ts:388-477 *)
Record TurnRequest := MkTurnRequest {
  surface : string;
  deliveryTarget : option string;
  rq_text : string;
  rq_origin : option TurnOrigin;
  legacy : LegacyTurnOrigin;
  panel : option PanelBlock;
  surfaceTools : option bool;
  addressed : option bool;
}.

(** [TurnResult.status] src/src/types.ts:532-532 *)
Inductive TurnStatus :=
| ts_ok | ts_refused | ts_failed | ts_pending_approval | ts_queued | ts_silent | ts_react.
#[export] Instance TurnStatus_eq_dec : EqDecision TurnStatus.
Proof. solve_decision. Defined.

(** [TurnResult] src/src/types.ts:531-564
    [refusalKind] has one possible value, so its presence is a boolean. *)
Record TurnResult := MkTurnResult {
  t_status : TurnStatus;
  t_sessionId : option string;
  t_reply : option string;
  t_reason : option string;
  t_quarantine : bool;
  t_posted : option bool;
  t_attachments : option (list OutgoingAttachment);
  t_sourceUserSeq : option Z;
  t_sourceAssistantEntrySeq : option Z;
}.

(** ** The origin of a turn *)

Definition is_true (o : option bool) : bool := o ?? false.
(** [...(b ? { field: true } : {})]. *)
Definition flag (b : bool) : option bool := if b then Some true else None.
(** [a ?? b] on optional values. *)
Definition or_else {A} (a b : option A) : option A := match a with Some _ => a | None => b end.

(** [normalizeTurnOrigin] src/src/core/turn-origin.ts:54-78 *)
Definition normalizeTurnOrigin (i : LegacyTurnOrigin) : TurnOrigin :=
  if i.(triggered) === Some true then
    o_automation i.(securityScreenData) i.(triggerDestination) (flag (i.(ownerKeychainUnion) === Some true))
  else if i.(unprompted) === Some true then
    o_ambient (if_truthy i.(entryTs)) (flag (i.(liveActor) === Some true))
  else if i.(liveActor) === Some true then
    o_human (if_truthy i.(triggerTs)) (if_truthy i.(entryTs))
  else o_direct.

(** The [rank] table of [resolveTurnOrigin], src/src/core/turn-origin.ts:22-22 *)
Definition rank (o : TurnOrigin) : Z :=
  match o with o_direct => 0 | o_human _ _ => 1 | o_ambient _ _ => 2 | o_automation _ _ _ => 3 end.

(** The line feed of the template strings. *)
Definition nl : string := String (ascii_of_nat 10) "".

(** [resolveTurnOrigin] src/src/core/turn-origin.ts:24-35 *)
Definition merge_screen (typed legacy : option string) : option string :=
  match typed, legacy with
  | None, _ => legacy
  | Some t, Some l =>
      if t !== l then
        Some ("Typed automation data:" ++ nl ++ t ++ nl ++ nl ++ "Legacy automation data:" ++ nl ++ l)
      else typed
  | Some _, None => typed
  end.

(** [resolveTurnOrigin] src/src/core/turn-origin.ts:16-52 *)
Definition resolveTurnOrigin (origin : option TurnOrigin) (input : LegacyTurnOrigin) : TurnOrigin :=
  let hasLegacy := (input.(triggered) === Some true) || (input.(unprompted) === Some true)
                   || (input.(liveActor) === Some true) in
  match origin with
  | None => normalizeTurnOrigin input
  | Some typed =>
      if negb hasLegacy then typed
      else
        let legacy := normalizeTurnOrigin input in
        if negb (rank typed =? rank legacy)%Z then
          if (rank typed >? rank legacy)%Z then typed else legacy
        else match typed, legacy with
        | o_automation s1 d1 u1, o_automation s2 d2 u2 =>
            o_automation (merge_screen s1 s2) (or_else d1 d2) (flag (is_true u1 || is_true u2))
        | o_human m1 e1, o_human m2 e2 =>
            o_human (if_truthy (or_else m1 m2)) (if_truthy (or_else e1 e2))
        | o_ambient e1 l1, o_ambient e2 l2 =>
            o_ambient (if_truthy (or_else e1 e2)) (flag ((l1 === Some true) || (l2 === Some true)))
        | _, _ => typed
        end
  end.

Definition no_fields : LegacyTurnOrigin := MkLegacy None None None None None None None None.
#[export] Instance LegacyTurnOrigin_eta : Eta LegacyTurnOrigin := fun l =>
  MkLegacy l.(triggerTs) l.(entryTs) l.(triggered) l.(securityScreenData) l.(triggerDestination)
    l.(ownerKeychainUnion) l.(unprompted) l.(liveActor).

(** [turnOriginRequestFields] src/src/core/turn-origin.ts:80-104 *)
Definition turnOriginRequestFields (o : TurnOrigin) : LegacyTurnOrigin :=
  match o with
  | o_human m e =>
      no_fields <| liveActor := Some true |> <| triggerTs := if_truthy m |> <| entryTs := if_truthy e |>
  | o_ambient e l =>
      no_fields <| unprompted := Some true |> <| entryTs := if_truthy e |>
        <| liveActor := flag (l === Some true) |>
  | o_automation s d u =>
      no_fields <| triggered := Some true |> <| securityScreenData := s |>
        <| triggerDestination := d |> <| ownerKeychainUnion := flag (is_true u) |>
  | o_direct => no_fields
  end.

(** ** Theorems *)

(** The normal form of an origin: no empty timestamp, no flag that is present but false. *)
Definition clean_origin (o : TurnOrigin) : TurnOrigin :=
  match o with
  | o_human m e => o_human (if_truthy m) (if_truthy e)
  | o_ambient e l => o_ambient (if_truthy e) (flag (l === Some true))
  | o_automation s d u => o_automation s d (flag (is_true u))
  | o_direct => o_direct
  end.

Lemma if_truthy_idem o : if_truthy (if_truthy o) = if_truthy o.
Proof. unfold if_truthy. destruct (truthy_opt o) eqn:E; [by rewrite E|done]. Qed.
Lemma flag_idem b : (flag b === Some true) = b.
Proof. by destruct b. Qed.

(** The flat request fields and the typed origin are two encodings of one value: writing
    an origin into the legacy fields and reading it back gives the origin in normal form,
    and what is read from any fields is already in normal form. *)
Theorem turn_origin_roundtrip (o : TurnOrigin) (i : LegacyTurnOrigin) :
  normalizeTurnOrigin (turnOriginRequestFields o) = clean_origin o /\
  clean_origin (normalizeTurnOrigin i) = normalizeTurnOrigin i.
Proof.
  split.
  - destruct o as [m e|e l|s d u|]; unfold normalizeTurnOrigin; simpl;
      by rewrite ?if_truthy_idem, ?flag_idem.
  - unfold normalizeTurnOrigin.
    destruct (i.(triggered) === Some true); simpl; [by destruct (_ === _)|].
    destruct (i.(unprompted) === Some true); simpl.
    + by rewrite if_truthy_idem, flag_idem.
    + destruct (i.(liveActor) === Some true); simpl; [by rewrite !if_truthy_idem|done].
Qed.

Lemma rank_normalize i :
  (i.(triggered) === Some true) || (i.(unprompted) === Some true) || (i.(liveActor) === Some true) = false ->
  normalizeTurnOrigin i = o_direct.
Proof.
  unfold normalizeTurnOrigin. intros [[H1 H2]%orb_false_iff H3]%orb_false_iff.
  by rewrite H1, H2, H3.
Qed.

(** A turn can never be reclassified downwards: whatever mixture of a typed origin and
    legacy flags a request carries, the resolved origin has the higher of the two ranks
    (direct, human, ambient, automation), so stale or forged fields cannot strip an
    automation or an ambient turn of its treatment. *)
Theorem resolveTurnOrigin_rank (o : option TurnOrigin) (i : LegacyTurnOrigin) :
  rank (resolveTurnOrigin o i) = Z.max (from_option rank 0 o) (rank (normalizeTurnOrigin i)).
Proof.
  unfold resolveTurnOrigin. destruct o as [t|]; simpl.
  2: { assert (0 <= rank (normalizeTurnOrigin i)) by (destruct (normalizeTurnOrigin i); simpl; lia). lia. }
  destruct (_ || _ || _) eqn:E; simpl.
  - destruct (rank t =? rank (normalizeTurnOrigin i))%Z eqn:E1; simpl; to_prop.
    + rewrite <- E1, Z.max_id.
      destruct t, (normalizeTurnOrigin i); simpl in *; done.
    + destruct (rank t >? rank (normalizeTurnOrigin i))%Z eqn:E2; to_prop; lia.
  - rewrite rank_normalize by done. simpl. destruct t; simpl; lia.
Qed.
