(* ===== verification/ThreadRef.v ===== *)
(** * Thread references

    What a thread reference says about where a session came from, and which message a reply
    in thread hangs off ([src/src/sessions/session-store.ts]).  The four regular expressions
    are anchored at both ends and are written out as matchers. *)

From S2P Require Import Prelude JsString.

(** [SessionOrigin] src/src/sessions/session-store.ts:282-282 *)
Inductive SessionOrigin := conversation | cron | webhook | monitor.
#[export] Instance SessionOrigin_eq_dec : EqDecision SessionOrigin.
Proof. solve_decision. Defined.

(** [ORIGIN_ALTERNATION] src/src/sessions/session-store.ts:286-286 *)
Definition origin_names : list (string * SessionOrigin) :=
  [("cron", cron); ("webhook", webhook); ("monitor", monitor)].

Definition colon : ascii := ":".
(** [.] : any character but a line terminator. *)
Definition not_newline (c : ascii) : bool := negb ((c === "010"%char) || (c === "013"%char)).

(** [STABLE_CRON_ID_PATTERN] src/src/sessions/session-store.ts:284-287
    What follows the prefix, when it is one non-empty segment to the end of the text. *)
Definition stable_segment (prefix s : string) : option string :=
  if starts_with s prefix then
    let seg := str_drop (String.length prefix) s in
    if truthy seg && str_every (fun c => c !== colon) seg then Some seg else None
  else None.

(** The text up to the first colon, and what follows it from the colon on. *)
Fixpoint take_segment (s : string) : string * string :=
  match s with
  | "" => ("", "")
  | String c s' => if decide (c = colon) then ("", s) else let '(a, b) := take_segment s' in (String c a, b)
  end%string.

(** [LEGACY_CRON_ID_PATTERN] src/src/sessions/session-store.ts:285-288
    The segment after the prefix, when nothing follows it, or a colon and more. *)
Definition legacy_segment (prefix s : string) : option string :=
  if starts_with s prefix then
    let '(seg, rest) := take_segment (str_drop (String.length prefix) s) in
    if truthy seg && match rest with
                     | "" => true
                     | String _ tail => truthy tail && str_every not_newline tail
                     end%string
    then Some seg else None
  else None.

(** [sessionOrigin] src/src/sessions/session-store.ts:290-301 *)
Definition sessionOrigin (threadRef : option string) : SessionOrigin :=
  let ref := threadRef ?? "" in
  match find (fun o : string * SessionOrigin =>
          bool_decide (is_Some (stable_segment ("agent:main:" +:+ o.1 +:+ ":") ref))) origin_names with
  | Some o => o.2
  | None =>
      match find (fun o : string * SessionOrigin =>
              bool_decide (is_Some (legacy_segment (o.1 +:+ ":") ref))) origin_names with
      | Some o => o.2
      | None => conversation
      end
  end.

(** [SessionCategory] src/src/sessions/session-store.ts:143-143 *)
Inductive SessionCategory := c_conversation | c_background.
(** [sessionCategory] src/src/sessions/session-store.ts:303-305 *)
Definition sessionCategory (o : SessionOrigin) : SessionCategory :=
  if o === conversation then c_conversation else c_background.

(** [cronIdOf] src/src/sessions/session-store.ts:292-310 *)
Definition cronIdOf (threadRef : option string) : option string :=
  let ref := threadRef ?? "" in
  match stable_segment "agent:main:cron:" ref with
  | Some id => Some id
  | None => legacy_segment "cron:" ref
  end.

(** ** Thread roots *)

(** [EntryType] src/src/types.ts:106-117 *)
Inductive EntryType :=
| user | assistant | thinking | text_ | tool_call | tool_result | soul | system | delivery
| approval_request | approval_resolved.
#[export] Instance EntryType_eq_dec : EqDecision EntryType.
Proof. solve_decision. Defined.

(** The part of an entry a thread walk reads, src/src/sessions/session-store.ts:74-74 *)
Record ThreadEntry := MkThreadEntry { te_seq : Z; te_type : EntryType; te_parentSeq : option Z }.

(** [resolveThreadRootSeq] src/src/sessions/session-store.ts:77-77 *)
Definition bySeq (entries : list ThreadEntry) : jsmap Z ThreadEntry :=
  new_map (map (fun e => (e.(te_seq), e)) entries).

(** [resolveThreadRootSeq] src/src/sessions/session-store.ts:78-79 *)
Definition parentOf (m : jsmap Z ThreadEntry) (e : ThreadEntry) : option ThreadEntry :=
  match e.(te_parentSeq) with None => None | Some p => m !! p end.

(** [resolveThreadRootSeq] src/src/sessions/session-store.ts:85-96
    [None] when the fuel runs out; each turn visits a seq for the first time. *)
Fixpoint walk (m : jsmap Z ThreadEntry) (fuel : nat) (current : option ThreadEntry) (seen : list Z)
    (root : option Z) : option (option Z) :=
  match current with
  | None => Some root
  | Some e =>
      if includes seen e.(te_seq) then Some root
      else match fuel with
      | O => None
      | S fuel =>
          let seen := e.(te_seq) :: seen in
          if e.(te_type) !== user then walk m fuel (parentOf m e) seen root
          else
            let root := Some e.(te_seq) in
            match parentOf m e with
            | None => Some root
            | Some parent => if parent.(te_type) !== user then Some root else walk m fuel (Some parent) seen root
            end
      end
  end.

(** [resolveThreadRootSeq] src/src/sessions/session-store.ts:73-97
    Every turn but the last visits another entry, so their number is fuel enough. *)
Definition resolveThreadRootSeq (entries : list ThreadEntry) (refSeq : Z) : option Z :=
  match bySeq entries !! refSeq with
  | None => None
  | Some e => walk (bySeq entries) (length entries) (Some e) [] None ?? None
  end.

(** ** Termination and correctness *)

Lemma bySeq_Some entries s e : bySeq entries !! s = Some e -> te_seq e = s /\ e ∈ entries.
Proof.
  intros H%lookup_new_map_Some. apply list_elem_of_fmap in H as (e' & [= -> ->] & Hin). done.
Qed.

Lemma parentOf_seq entries e p :
  parentOf (bySeq entries) e = Some p -> te_parentSeq e = Some (te_seq p) /\ p ∈ entries.
Proof.
  unfold parentOf. destruct (te_parentSeq e) as [s|]; [|done].
  intros [<- ?]%bySeq_Some. done.
Qed.

(** The seqs still to be visited bound the turns. *)
Lemma walk_total entries fuel current seen root :
  (forall e, current = Some e -> e ∈ entries) -> NoDup seen -> seen ⊆ map te_seq entries ->
  (length entries <= fuel + length seen)%nat ->
  is_Some (walk (bySeq entries) fuel current seen root).
Proof.
  revert current seen root. induction fuel as [|fuel IH]; intros current seen root Hc Hnd Hsub Hlen;
    destruct current as [e|]; simpl; eauto; destruct (includes seen (te_seq e)) eqn:Ei; eauto.
  all: apply includes_false in Ei; specialize (Hc e eq_refl).
  all: assert (Hs : te_seq e :: seen ⊆ map te_seq entries)
    by (intros x [->|?]%elem_of_cons; [apply list_elem_of_fmap; eauto|by apply Hsub]).
  all: assert (Hnd' : NoDup (te_seq e :: seen)) by (by constructor).
  - exfalso. pose proof (submseteq_length _ _ (NoDup_submseteq _ _ Hnd' Hs)) as Hl.
    rewrite length_map in Hl. simpl in *. lia.
  - assert (Hp : forall q, parentOf (bySeq entries) e = Some q -> q ∈ entries) by (by intros q [_ ?]%parentOf_seq).
    destruct (negb (te_type e === user)).
    + apply IH; [done|done|done|simpl; lia].
    + destruct (parentOf (bySeq entries) e) as [q|]; [|eauto].
      destruct (negb (te_type q === user)); [eauto|]. apply IH; [|done|done|simpl; lia].
      intros ? [= <-]. by apply Hp.
Qed.

(** A seq that a walk may answer: a user entry no later than [s]. *)
Definition user_at (entries : list ThreadEntry) (s : Z) : Prop :=
  exists e, bySeq entries !! s = Some e /\ te_type e = user.
Definition thread_root (entries : list ThreadEntry) (s : Z) : Prop :=
  exists e, bySeq entries !! s = Some e /\ te_type e = user /\
    forall p, parentOf (bySeq entries) e = Some p -> te_type p <> user.

Lemma walk_root entries fuel current seen root s :
  (forall e p, e ∈ entries -> te_parentSeq e = Some p -> p < te_seq e) ->
  (forall e, current = Some e -> bySeq entries !! te_seq e = Some e) ->
  (forall e x, current = Some e -> x ∈ seen -> te_seq e < x) ->
  (forall r, root = Some r -> exists e, current = Some e /\ te_type e = user) ->
  walk (bySeq entries) fuel current seen root = Some (Some s) -> thread_root entries s.
Proof.
  intros Hac. revert current seen root. induction fuel as [|fuel IH]; intros current seen root Hc Hs Hr;
    destruct current as [e|]; simpl.
  2, 4: intros [= ->]; by destruct (Hr _ eq_refl) as (? & ? & _).
  all: replace (includes seen (te_seq e)) with false
    by (symmetry; apply includes_false; intros Hin; specialize (Hs e _ eq_refl Hin); lia).
  { done. }
  destruct (bySeq_Some _ _ _ (Hc e eq_refl)) as [_ He].
  assert (Hp : forall q, parentOf (bySeq entries) e = Some q ->
    bySeq entries !! te_seq q = Some q /\ te_seq q < te_seq e).
  { intros q Hq. unfold parentOf in Hq. destruct (te_parentSeq e) as [ps|] eqn:Ep; [|done].
    destruct (bySeq_Some _ _ _ Hq) as [<- _]. eauto. }
  assert (Hseen : forall q x, parentOf (bySeq entries) e = Some q -> x ∈ te_seq e :: seen -> te_seq q < x).
  { intros q x Hq [->|Hx]%elem_of_cons; [by apply Hp|]. specialize (Hs e x eq_refl Hx).
    destruct (Hp q Hq). lia. }
  destruct (te_type e === user) eqn:Eu; simpl; to_prop.
  - destruct (parentOf (bySeq entries) e) as [q|] eqn:Eq.
    + destruct (te_type q === user) eqn:Euq; simpl; to_prop.
      * apply IH; [by intros ? [= <-]; apply Hp|intros ? x [= <-]; by apply Hseen|by intros _ _; eauto].
      * intros [= <-]. exists e. split; [by apply Hc|]. split; [done|]. intros p. rewrite Eq. by intros [= <-].
    + intros [= <-]. exists e. split; [by apply Hc|]. split; [done|]. intros p. by rewrite Eq.
  - apply IH; [by intros q Hq; apply Hp|by intros q x Hq; apply Hseen|].
    intros r Hrr. destruct (Hr r Hrr) as (e' & [= <-] & ?). done.
Qed.

(** Thread roots.  The walk always ends, cycles in the parent links included, within as
    many turns as there are entries.  In a transcript whose parents are earlier entries, what
    it answers is the root of a thread: a user entry whose parent is not a user entry. *)
Theorem resolveThreadRootSeq_root entries refSeq :
  (forall e, bySeq entries !! refSeq = Some e ->
     is_Some (walk (bySeq entries) (length entries) (Some e) [] None)) /\
  ((forall e p, e ∈ entries -> te_parentSeq e = Some p -> p < te_seq e) ->
   forall s, resolveThreadRootSeq entries refSeq = Some s -> thread_root entries s).
Proof.
  split.
  - intros e He. apply walk_total; simpl; [|constructor|set_solver|lia].
    intros ? [= <-]. by apply bySeq_Some in He as [_ ?].
  - intros Hac s. unfold resolveThreadRootSeq. destruct (bySeq entries !! refSeq) as [e|] eqn:He; [|done].
    destruct (walk _ _ _ _ _) as [r|] eqn:Ew; simpl; [|done]. intros ->.
    eapply (walk_root entries); [exact Hac| | | |exact Ew].
    + intros ? [= <-]. by destruct (bySeq_Some _ _ _ He) as [<- _].
    + intros ? x _ ?%not_elem_of_nil. done.
    + done.
Qed.

Example origin_demo : sessionOrigin (Some "cron:c7:run1") = cron /\ cronIdOf (Some "cron:c7:run1") = Some "c7".
Proof. vm_compute. auto. Qed.

Definition demo_thread : list ThreadEntry :=
  [MkThreadEntry 1 user None; MkThreadEntry 2 assistant (Some 1); MkThreadEntry 3 user (Some 1);
   MkThreadEntry 4 assistant (Some 3)].

Lemma resolveThreadRootSeq_root_witness :
  resolveThreadRootSeq demo_thread 4 = Some 1 /\ thread_root demo_thread 1.
Proof.
  assert (H : resolveThreadRootSeq demo_thread 4 = Some 1) by (vm_compute; reflexivity).
  split; [exact H|]. apply (proj2 (resolveThreadRootSeq_root demo_thread 4)); [|exact H].
  intros e p He Hp. unfold demo_thread in He. rewrite !elem_of_cons in He.
  destruct He as [->|[->|[->|[->|He%not_elem_of_nil]]]]; simpl in *; simplify_eq; lia.
Defined.
