(* ===== verification/Json.v ===== *)
(** * JSON values

    A value of unknown shape, as the parsers of the source receive it.  An object is its
    fields in order; numbers are integers. *)

From S2P Require Import Prelude JsString.

#[local] Set Warnings "-register-all".
Inductive Json :=
| JNull
| JBool (b : bool)
| JNum (n : Z)
| JStr (s : string)
| JArr (l : list Json)
| JObj (fields : list (string * Json)).

(** A property read: [undefined] when the value is no object or lacks the field. *)
Definition field (k : string) (j : Json) : option Json :=
  match j with JObj fs => assoc_get k fs | _ => None end.

(** [typeof v === "string"] and the text; likewise for the other kinds. *)
Definition as_string (j : Json) : option string := match j with JStr s => Some s | _ => None end.
Definition as_bool (j : Json) : option bool := match j with JBool b => Some b | _ => None end.
Definition as_num (j : Json) : option Z := match j with JNum n => Some n | _ => None end.
Definition as_array (j : Json) : option (list Json) := match j with JArr l => Some l | _ => None end.
(** [typeof v === "object" && v !== null]. *)
Definition is_object (j : Json) : bool := match j with JArr _ | JObj _ => true | _ => false end.
Definition is_array (j : Json) : bool := match j with JArr _ => true | _ => false end.

Definition str_field (k : string) (j : Json) : option string := field k j ≫= as_string.

(** [v === "text"] and [v === true] on a value of unknown shape. *)
Definition is_text (v : option Json) (t : string) : bool := match v with Some (JStr s) => s === t | _ => false end.
Definition is_true_ (v : option Json) : bool := match v with Some (JBool b) => b | _ => false end.

(** Induction over a value and the values inside it. *)
Definition Json_nested_ind (P : Json -> Prop) (Hnull : P JNull) (Hbool : forall b, P (JBool b))
    (Hnum : forall n, P (JNum n)) (Hstr : forall s, P (JStr s))
    (Harr : forall l, Forall P l -> P (JArr l))
    (Hobj : forall fs, Forall (fun kv => P kv.2) fs -> P (JObj fs)) : forall v, P v :=
  fix rec v := match v with
  | JNull => Hnull | JBool b => Hbool b | JNum n => Hnum n | JStr s => Hstr s
  | JArr l => Harr l ((fix go l : Forall P l :=
      match l with [] => Forall_nil_2 _ | x :: l => Forall_cons_2 _ _ _ (rec x) (go l) end) l)
  | JObj fs => Hobj fs ((fix go fs : Forall (fun kv => P kv.2) fs :=
      match fs with
      | [] => Forall_nil_2 _
      | kv :: fs => Forall_cons_2 _ _ _ (rec kv.2) (go fs)
      end) fs)
  end.
