(* ===== verification/Auth.v ===== *)
(** * Authentication

    Who is calling: signed payloads ([src/src/auth/signed-token.ts]), the capability tokens
    and the portal identity made of them ([capability-token.ts], [portal-identity.ts]),
    the signature a source puts on its requests ([source-auth-sign.ts], [source-auth.ts]) and
    the register of events that refuses a replay ([replay-dedupe.ts]).

    Cryptography, base64, the JSON codec and the calendar's time zones are the host's: they
    are the fields of [Host]. *)

From S2P Require Import Prelude JsString Regex Scope Json.
From stdpp Require Import pretty.
#[local] Open Scope string_scope.
#[local] Open Scope Z_scope.

(** What the code calls of [node:crypto], [jose], [Buffer], [JSON] and [Intl]. *)
Class Host := {
  hmac_hex : string -> string -> string;
  hmac_b64 : string -> string -> string;
  sha256_b64 : string -> string;
  b64url_utf8 : string -> string;
  b64_utf8 : string -> string;
  compactSign : string -> string -> string -> string;
  compactVerify : string -> string -> option string;
  protectedKid : string -> option (option string);
  json_parse : string -> option Json;
  json_stringify : Json -> string;
  validTimeZone : string -> bool;
}.

Section auth.
Context `{H : Host}.

(** ** Signed payloads *)

(** [constantTimeEqual] src/src/util/crypto.ts:3-7 *)
Definition constantTimeEqual (a b : string) : bool := a === b.

(** [signingKeyId] src/src/auth/signed-token.ts:8-10 *)
Definition signingKeyId (secret : string) : string := str_take 8 (sha256_b64 secret).

(** [mintSignedPayload] src/src/auth/signed-token.ts:12-16
    The header's key id, the secret, the text. *)
Definition mintSignedPayload (value : Json) (secret : string) : string :=
  compactSign (signingKeyId secret) secret (json_stringify value).

(** [lastIndexOf] of a character. *)
Fixpoint last_index (c : ascii) (s : string) : option nat :=
  match s with
  | "" => None
  | String d s => match last_index c s with Some i => Some (S i) | None => if d === c then Some 0%nat else None end
  end.

(** [verifyLegacyPayload] src/src/auth/signed-token.ts:18-33 *)
Definition verifyLegacyPayload (token : string) (secrets : list string) : option Json :=
  match last_index "." token with
  | None | Some O => None
  | Some dot =>
      let payload := str_take dot token in
      let sig := str_drop (S dot) token in
      secret ← find (fun secret => constantTimeEqual (hmac_b64 secret payload) sig
                                   || constantTimeEqual (hmac_hex secret payload) sig) secrets;
      json_parse (b64url_utf8 payload)
  end.

(** The order in which the secrets are tried, src/src/auth/signed-token.ts:44-47 *)
Definition by_kid (kid : option string) (secrets : list string) : list string :=
  match kid with
  | None => secrets
  | Some kid =>
      let hit s : Z := if signingKeyId s === kid then 1 else 0 in
      js_sort (fun a b => hit b - hit a) secrets
  end.

(** The secrets one by one, src/src/auth/signed-token.ts:48-56 *)
Fixpoint try_secrets (token : string) (candidates : list string) : option Json :=
  match candidates with
  | [] => None
  | c :: cs =>
      match compactVerify token c ≫= json_parse with
      | Some v => Some v
      | None => try_secrets token cs
      end
  end.

(** [verifySignedPayload] src/src/auth/signed-token.ts:35-57 *)
Definition verifySignedPayload (token : string) (secrets : list string) : option Json :=
  if negb (Nat.eqb (length (split_on "." token)) 3) then verifyLegacyPayload token secrets
  else match protectedKid token with
       | None => None
       | Some kid => try_secrets token (by_kid kid secrets)
       end.

(** ** Capability tokens *)

(** [CAPABILITY_TTL_MS] src/src/auth/capability-token.ts:5-5 *)
Definition CAPABILITY_TTL_MS : Z := 60 * 60000.
(** [CONTROL_PLANE_AUD] src/src/auth/capability-token.ts:7-7 *)
Definition CONTROL_PLANE_AUD : string := "control-plane".
(** [EGRESS_PROXY_AUD] src/src/auth/capability-token.ts:10-10 *)
Definition EGRESS_PROXY_AUD : string := "egress-proxy".
(** [BLOB_TRANSFER_AUD] src/src/auth/capability-token.ts:11-11 *)
Definition BLOB_TRANSFER_AUD : string := "blob-transfer".

(** The object that is signed, src/src/auth/capability-token.ts:46-46
    The claims are its fields; a claim named [orgId] would override the first. *)
Definition claims_object (orgId : string) (claims : list (string * Json)) : Json :=
  JObj (fold_left (fun fs '(k, v) => assoc_set k v fs) claims [("orgId", JStr orgId)]).
(** [mintCapabilityToken] src/src/auth/capability-token.ts:45-47 *)
Definition mintCapabilityToken (orgId : string) (claims : list (string * Json)) (secret : string) : string :=
  mintSignedPayload (claims_object orgId claims) secret.

(** [isValidCapabilityTimezone] src/src/auth/capability-token.ts:49-58 *)
Definition isValidCapabilityTimezone (timezone : Json) : bool :=
  match timezone with
  | JStr tz => negb ((str_len tz =? 0) || (64 <? str_len tz) || (trim tz !== tz)) && validTimeZone tz
  | _ => false
  end.

(** [claims.k !== undefined && !ok(claims.k)]. *)
Definition bad (k : string) (ok : Json -> bool) (claims : Json) : bool :=
  match field k claims with None => false | Some v => negb (ok v) end.
Definition jbool (j : Json) : bool := is_some (as_bool j).
Definition jstr (j : Json) : bool := is_some (as_string j).
(** The [dir] of a blob grant. *)
Definition blob_dir (blob : Json) : bool :=
  match str_field "dir" blob with Some d => (d === "read") || (d === "write") | None => false end.

(** [verifyCapabilityToken] src/src/auth/capability-token.ts:60-86 *)
Definition verifyCapabilityToken (token : string) (secrets : list string) (now : Z) : option Json :=
  claims ← verifySignedPayload token secrets;
  if negb (is_some (str_field "actorId" claims)) || negb (is_some (str_field "scopeId" claims)) then None else
  exp ← field "exp" claims ≫= as_num;
  if bad "timezone" isValidCapabilityTimezone claims then None
  else if bad "scopeVersion" jstr claims then None
  else if bad "destinations" is_array claims then None
  else if bad "credentials" is_array claims then None
  else if bad "keychainMembers" is_array claims then None
  else if bad "memory" (fun m => from_option is_array false (field "read" m)) claims then None
  else if bad "liveActor" jbool claims then None
  else if bad "liveAuthor" jbool claims then None
  else if bad "blob" blob_dir claims then None
  else if bad "drop" jstr claims then None
  else if exp <=? now then None
  else Some claims.

(** [BLOB_ID] src/src/auth/capability-token.ts:88-88 *)
Definition BLOB_ID (s : string) : bool :=
  (str_len s =? 32) && str_every (fun c => is_digit c || in_range 97 102 c) s.

(** [expected] src/src/auth/capability-token.ts:93-93 *)
Inductive BlobUse := blob_read (id : string) | blob_write.
Definition dir_of (u : BlobUse) : string := match u with blob_read _ => "read" | blob_write => "write" end.

(** [verifyBlobTransferCapability] src/src/auth/capability-token.ts:90-102 *)
Definition verifyBlobTransferCapability (token : string) (secrets : list string) (expected : BlobUse) (now : Z)
  : option Json :=
  claims ← verifyCapabilityToken token secrets now;
  grant ← field "blob" claims;
  if (str_field "aud" claims !== Some BLOB_TRANSFER_AUD) || (str_field "dir" grant !== Some (dir_of expected)) then None
  else if bad "id" (fun id => from_option BLOB_ID false (as_string id)) grant then None
  else match expected, field "id" grant with
       | blob_read id, Some (JStr id') => if id' === id then Some claims else None
       | blob_read _, _ => None
       | blob_write, None => Some claims
       | blob_write, Some _ => None
       end.

(** [verifyPortalIdentity] src/src/auth/portal-identity.ts:12-21
    The answer is the principal the portal speaks for. *)
Definition verifyPortalIdentity (token secret : string) (nowMs : Z) : option string :=
  claims ← verifySignedPayload token [secret];
  p ← str_field "p" claims;
  exp ← field "exp" claims ≫= as_num;
  if negb (truthy p) then None else if exp <? nowMs then None else Some p.

(** ** The register of events *)

(** [PRUNE_INTERVAL_MS] src/src/auth/replay-dedupe.ts:8-8 *)
Definition PRUNE_INTERVAL_MS : Z := 60000.

(** The state of [createMemoryReplayDedupe] src/src/auth/replay-dedupe.ts:10-12
    [nextPruneAt] is absent for minus infinity. *)
Record ReplayState := MkReplay { seen : jsmap string Z; nextPruneAt : option Z }.
#[export] Instance ReplayState_eta : Eta ReplayState := fun s => MkReplay s.(seen) s.(nextPruneAt).
(** [createMemoryReplayDedupe] src/src/auth/replay-dedupe.ts:10-12 *)
Definition createMemoryReplayDedupe : ReplayState := MkReplay ∅ None.

(** Forgetting what expired, src/src/auth/replay-dedupe.ts:17-20 *)
Definition prune (t : Z) (s : ReplayState) : ReplayState :=
  if match s.(nextPruneAt) with None => true | Some n => n <=? t end
  then s <| nextPruneAt := Some (t + PRUNE_INTERVAL_MS) |>
         <| seen ::= fun m => fold_left (fun m '(id, exp) => if exp <? t then delete id m else m) (entries m) m |>
  else s.

(** [claim] src/src/auth/replay-dedupe.ts:15-24 *)
Definition claim (t : Z) (eventId : string) (expiresAtMs : Z) (s : ReplayState) : ReplayState * bool :=
  let s := prune t s in
  match s.(seen) !! eventId with
  | Some existing => if t <=? existing then (s, false) else (s <| seen ::= <[eventId := expiresAtMs]> |>, true)
  | None => (s <| seen ::= <[eventId := expiresAtMs]> |>, true)
  end.

(** ** Signed requests *)

(** [SOURCE_AUTH_REPLAY_WINDOW_MS] src/src/auth/source-auth.ts:5-5 *)
Definition SOURCE_AUTH_REPLAY_WINDOW_MS : Z := 5 * 60000.
(** [MIN_SIGNING_SECRET_LENGTH] src/src/auth/source-auth.ts:6-6 *)
Definition MIN_SIGNING_SECRET_LENGTH : Z := 32.
(** [isStrongSigningSecret] src/src/auth/source-auth.ts:8-10 *)
Definition isStrongSigningSecret (secret : option string) : bool :=
  MIN_SIGNING_SECRET_LENGTH <=? from_option (fun s => str_len (trim s)) 0 secret.

Definition nl : string := String "010" "".
(** [canonicalPayload] src/src/auth/source-auth-sign.ts:3-5 *)
Definition canonicalPayload (method pathWithQuery body : string) : string :=
  method ++ nl ++ pathWithQuery ++ nl ++ body.

(** [signRequest] src/src/auth/source-auth-sign.ts:7-9 *)
Definition signRequest (secret : string) (timestampSec : Z) (canonical : string) : string :=
  "v0=" ++ hmac_hex secret ("v0:" ++ pretty timestampSec ++ ":" ++ canonical).

(** [signedRequestHeaders] src/src/auth/source-auth-sign.ts:11-22 *)
Definition signedRequestHeaders (secret : option string) (method pathWithQuery body : string)
    (base : list (string * string)) (nowSec : Z) : list (string * string) :=
  match if_truthy secret with
  | None => base
  | Some secret =>
      assoc_set "x-signature" (signRequest secret nowSec (canonicalPayload method pathWithQuery body))
        (assoc_set "x-timestamp" (pretty nowSec) base)
  end.

(** [SourceAuthRequest] src/src/auth/source-auth.ts:12-17
    A timestamp that is no finite number is absent. *)
Record SourceAuthRequest := MkSourceRequest { signature : string; timestamp : option Z; sr_body : string; eventId : string }.

(** [verifySignature] src/src/auth/source-auth.ts:36-55 *)
Definition verifySignature (secret : string) (req : SourceAuthRequest) (now replayWindowMs : Z) : result string unit :=
  if negb (truthy req.(signature)) then Throw "missing signature (unsigned request)" else
  match req.(timestamp) with
  | None => Throw "invalid timestamp"
  | Some ts =>
      if replayWindowMs <? Z.abs (now - ts * 1000) then Throw "stale timestamp (replay protection)"
      else if negb (constantTimeEqual (signRequest secret ts req.(sr_body)) req.(signature))
      then Throw "signature mismatch"
      else Ok tt
  end.

(** [verify] src/src/auth/source-auth.ts:63-72
    With the in-memory register, which answers at once, and one reading of the clock. *)
Definition verify (secret : string) (replayWindowMs now : Z) (req : SourceAuthRequest) (s : ReplayState)
  : ReplayState * result string unit :=
  match verifySignature secret req now replayWindowMs, req.(timestamp) with
  | Ok tt, Some ts =>
      let '(s, fresh) := claim now req.(eventId) (ts * 1000 + replayWindowMs) s in
      (s, if fresh then Ok tt else Throw "duplicate event (already processed)")
  | Throw e, _ => (s, Throw e)
  | Ok tt, None => (s, Throw "invalid timestamp")
  end.

(** Requests as they come, each with the clock's reading: the answers. *)
Fixpoint verify_all (secret : string) (replayWindowMs : Z) (reqs : list (Z * SourceAuthRequest)) (s : ReplayState)
  : list (result string unit) :=
  match reqs with
  | [] => []
  | (now, req) :: reqs =>
      let '(s, r) := verify secret replayWindowMs now req s in
      r :: verify_all secret replayWindowMs reqs s
  end.

(** ** Lemmas on the register *)

Lemma forget_lookup t id (l : list (string * Z)) (m : jsmap string Z) :
  fold_left (fun m '(id, exp) => if exp <? t then delete id m else m) l m !! id =
  if existsb (fun p => (p.1 === id) && (p.2 <? t)) l then None else m !! id.
Proof.
  revert m. induction l as [|[k e] l IH]; intros m; cbn; [done|].
  rewrite IH. destruct (existsb _ l); [by rewrite orb_true_r|]. rewrite orb_false_r.
  destruct (e <? t); [|by rewrite andb_false_r]. rewrite andb_true_r, lookup_del.
  by case_decide; case_bool_decide.
Qed.

(** Pruning forgets nothing that has not expired. *)
Lemma prune_lookup t id exp s : t <= exp -> s.(seen) !! id = Some exp -> (prune t s).(seen) !! id = Some exp.
Proof.
  intros Ht Hs. unfold prune. case_match; [|done]. cbn. rewrite forget_lookup.
  destruct (existsb _ _) eqn:E; [|done]. apply existsb_exists in E as ([k e] & Hin & Hm). cbn in Hm. to_prop. subst.
  apply list_elem_of_In, elem_of_entries in Hin. rewrite Hs in Hin. injection Hin as ->. lia.
Qed.

(** What the register holds of an accepted event until it expires. *)
Definition remembers (id : string) (exp t : Z) (s : ReplayState) : Prop := t <= exp -> s.(seen) !! id = Some exp.

Lemma claim_accepts t id exp s : (claim t id exp s).2 = true -> forall t', remembers id exp t' (claim t id exp s).1.
Proof.
  unfold claim. destruct (seen _ !! id) as [e|]; [destruct (t <=? e); [done|]|]; intros _ t' _; cbn; apply lookup_set_eq.
Qed.

Lemma claim_remembers t t' id id' exp exp' s :
  t <= t' -> remembers id exp t s -> remembers id exp t' (claim t' id' exp' s).1.
Proof.
  intros Hle Hr Ht. assert (Hs : (prune t' s).(seen) !! id = Some exp) by (apply prune_lookup, Hr; lia).
  unfold claim. destruct (decide (id' = id)) as [->|Hne].
  - rewrite Hs. by rewrite (proj2 (Z.leb_le _ _)).
  - destruct (_ !! id') as [e|]; [destruct (t' <=? e)|]; cbn; [done| |]; by rewrite lookup_set_ne.
Qed.

Lemma claim_refuses t t' id exp s :
  t <= t' -> t' <= exp -> remembers id exp t s -> (claim t' id exp s).2 = false.
Proof.
  intros Hle Ht Hr. assert (Hs : (prune t' s).(seen) !! id = Some exp) by (apply prune_lookup, Hr; lia).
  unfold claim. rewrite Hs. by rewrite (proj2 (Z.leb_le _ _)).
Qed.

(** A signature is accepted only inside the window around its timestamp. *)
Lemma verifySignature_Ok secret req now W :
  verifySignature secret req now W = Ok tt <->
  req.(signature) <> "" /\ exists ts, req.(timestamp) = Some ts /\ Z.abs (now - ts * 1000) <= W /\
    req.(signature) = signRequest secret ts req.(sr_body).
Proof.
  unfold verifySignature, constantTimeEqual, truthy. destruct (signature req === "") eqn:E; cbn; to_prop.
  { split; [done|]. by intros [? _]. }
  destruct (timestamp req) as [ts|]; [|split; [done|intros (_ & ? & ? & _); done]].
  destruct (W <? _) eqn:Hw; to_prop.
  { split; [done|]. intros (_ & ? & [= <-] & ? & _). lia. }
  case_bool_decide as Hs; cbn.
  - split; [|done]. intros _. split; [done|]. by exists ts.
  - split; [done|]. by intros (_ & ? & [= <-] & _ & ?).
Qed.

Lemma verify_Ok secret W now req s :
  (verify secret W now req s).2 = Ok tt ->
  exists ts, req.(timestamp) = Some ts /\ now <= ts * 1000 + W /\ verifySignature secret req now W = Ok tt /\
    (verify secret W now req s).1 = (claim now req.(eventId) (ts * 1000 + W) s).1 /\
    (claim now req.(eventId) (ts * 1000 + W) s).2 = true.
Proof.
  unfold verify. destruct (verifySignature _ _ _ _) as [[]|e] eqn:Hv; [|done].
  pose proof Hv as (_ & ts & Hts & Habs & _)%verifySignature_Ok. rewrite Hts.
  destruct (claim _ _ _ s) as [s' []] eqn:Hc; [|done]. intros _. exists ts. rewrite Hc. cbn. split_and!; (done || lia).
Qed.

Lemma verify_remembers secret W t now req id exp s :
  t <= now -> remembers id exp t s -> remembers id exp now (verify secret W now req s).1.
Proof.
  intros Hle Hr. unfold verify.
  assert (Hk : remembers id exp now s) by (intros ?; apply Hr; lia).
  destruct (verifySignature _ _ _ _) as [[]|e]; [|done]. destruct (timestamp req) as [ts|]; [|done].
  pose proof (claim_remembers t now id (eventId req) exp (ts * 1000 + W) s Hle Hr) as Hc.
  by destruct (claim _ _ _ s) as [s' fresh].
Qed.

Lemma verify_all_refuses secret W reqs id exp t s j now req :
  (forall p, p ∈ reqs -> t <= p.1) -> StronglySorted (fun a b => a.1 <= b.1) reqs ->
  remembers id exp t s -> reqs !! j = Some (now, req) -> req.(eventId) = id ->
  (exists ts, req.(timestamp) = Some ts /\ ts * 1000 + W = exp) ->
  verify_all secret W reqs s !! j <> Some (Ok tt).
Proof.
  revert t s j. induction reqs as [|[n r] reqs IH]; intros t s j Hge Hs Hr Hj Hid Hexp; [done|].
  cbn. destruct (verify secret W n r s) as [s' res] eqn:Hv.
  assert (t <= n) by (apply (Hge (n, r)); set_solver).
  destruct j as [|j]; cbn in *.
  - injection Hj as -> ->. intros [= ->]. destruct Hexp as (ts & Hts & Hexp).
    pose proof (verify_Ok secret W now req s) as Hok. rewrite Hv in Hok.
    destruct (Hok eq_refl) as (ts' & Hts' & Hn & _ & _ & Hc). rewrite Hts in Hts'. injection Hts' as <-.
    subst. by rewrite (claim_refuses t) in Hc.
  - apply StronglySorted_inv in Hs as [Hs Hall]. apply (IH n s' j); [|done| |done|done|done].
    + intros p Hp. rewrite Forall_forall in Hall. by apply (Hall p).
    + replace s' with (verify secret W n r s).1 by (by rewrite Hv). by apply (verify_remembers _ _ t).
Qed.

(** ** Properties *)

(** A signed request is accepted at most once: while the clock does not run backwards, of two
    requests that name the same event and carry the same timestamp at most one is accepted,
    whatever came before, between or with them, and however often the register pruned itself;
    the register's memory and the window around the timestamp meet exactly. *)
Theorem signed_event_once secret W reqs s i j ti tj ri rj :
  StronglySorted (fun a b => a.1 <= b.1) reqs -> (i < j)%nat ->
  reqs !! i = Some (ti, ri) -> reqs !! j = Some (tj, rj) ->
  ri.(eventId) = rj.(eventId) -> ri.(timestamp) = rj.(timestamp) ->
  verify_all secret W reqs s !! i = Some (Ok tt) -> verify_all secret W reqs s !! j <> Some (Ok tt).
Proof.
  revert s i j. induction reqs as [|[n r] reqs IH]; intros s i j Hs Hlt Hi Hj Hid Hts Hok; [done|].
  cbn in *. destruct (verify secret W n r s) as [s' res] eqn:Hv. apply StronglySorted_inv in Hs as [Hs Hall].
  rewrite Forall_forall in Hall. destruct i as [|i], j as [|j]; cbn in *; try lia.
  - injection Hi as -> ->. injection Hok as ->. pose proof (verify_Ok secret W ti ri s) as Hr. rewrite Hv in Hr.
    destruct (Hr eq_refl) as (ts & Hr' & _ & _ & Hst & Hc). cbn in Hst. subst s'.
    apply (verify_all_refuses _ _ _ (eventId rj) (ts * 1000 + W) ti _ _ tj rj); [| |rewrite <- Hid| | |]; [|done| |done|done|].
    + intros p Hp. apply (Hall p Hp).
    + by apply claim_accepts.
    + exists ts. by rewrite <- Hts.
  - by apply (IH s' i j); [| lia | | | | | ].
Qed.

Lemma find_secret_None token cs :
  (forall c, c ∈ cs -> compactVerify token c = None) -> try_secrets token cs = None.
Proof.
  induction cs as [|c cs IH]; intros Hc; [done|]. cbn. rewrite (Hc c) by set_solver. cbn. apply IH. set_solver.
Qed.

Lemma elem_of_by_kid kid secrets c : c ∈ by_kid kid secrets <-> c ∈ secrets.
Proof. destruct kid; [apply elem_of_js_sort|done]. Qed.

(** What the signing library promises of one token. *)
Record Signed (token kid secret payload : string) : Prop := {
  signed_parts : length (split_on "." token) = 3%nat;
  signed_kid : protectedKid token = Some (Some kid);
  signed_by : forall c, compactVerify token c = if c === secret then Some payload else None;
}.

(** Keys rotate: a token minted with a secret reads back as what was signed when the secret is
    among those accepted, wherever it stands and whatever the others are, and as nothing when
    it is not. *)
Theorem token_keys v secret secrets :
  Signed (mintSignedPayload v secret) (signingKeyId secret) secret (json_stringify v) ->
  json_parse (json_stringify v) = Some v ->
  verifySignedPayload (mintSignedPayload v secret) secrets = if bool_decide (secret ∈ secrets) then Some v else None.
Proof.
  intros [Hp Hk Hs] Hj. unfold verifySignedPayload. rewrite Hp, Hk. cbn [Nat.eqb negb].
  set (cs := by_kid _ _). pose proof (elem_of_by_kid (Some (signingKeyId secret)) secrets) as Hin. fold cs in Hin.
  case_bool_decide as Hsec.
  - apply Hin in Hsec. clear Hin. induction cs as [|c cs IH]; [set_solver|]. cbn. rewrite Hs.
    case_bool_decide as E; cbn; [by rewrite Hj|]. apply IH. set_solver.
  - apply find_secret_None. intros c Hc. rewrite Hs. rewrite (proj2 (eqb_false c secret)); [done|].
    intros ->. by apply Hsec, Hin.
Qed.

Lemma verifyCapabilityToken_Some token secrets now c :
  verifyCapabilityToken token secrets now = Some c ->
  verifySignedPayload token secrets = Some c /\
  exists exp, field "exp" c = Some (JNum exp) /\ now < exp /\
    is_Some (str_field "actorId" c) /\ is_Some (str_field "scopeId" c).
Proof.
  unfold verifyCapabilityToken. intros (c' & Hc & Hv)%bind_Some.
  destruct (negb _ || negb _) eqn:Hids; [done|]. apply bind_Some in Hv as (exp & Hexp & Hv).
  apply bind_Some in Hexp as (je & Hf & Hn). destruct je; try done. injection Hn as ->.
  repeat (destruct (bad _ _ _); [done|]). destruct (exp <=? now) eqn:E; [done|]. injection Hv as <-.
  to_prop. split; [done|]. exists exp. by rewrite <- !is_some_true.
Qed.

(** A blob capability opens one thing only: it is live, it is meant for blob transfers, and no
    token serves two uses, be they two blobs to read or a read and a write. *)
Theorem blob_capability_single token secrets use now c :
  verifyBlobTransferCapability token secrets use now = Some c ->
  (exists exp, field "exp" c = Some (JNum exp) /\ now < exp) /\
  str_field "aud" c = Some BLOB_TRANSFER_AUD /\
  forall use' now' c', verifyBlobTransferCapability token secrets use' now' = Some c' -> use' = use.
Proof.
  assert (Hinv : forall use now c, verifyBlobTransferCapability token secrets use now = Some c ->
    verifyCapabilityToken token secrets now = Some c /\ str_field "aud" c = Some BLOB_TRANSFER_AUD /\
    exists g, field "blob" c = Some g /\ str_field "dir" g = Some (dir_of use) /\
      (forall id, use = blob_read id -> field "id" g = Some (JStr id))).
  { clear. intros use now c. unfold verifyBlobTransferCapability.
    intros (c' & Hc & Hv)%bind_Some. apply bind_Some in Hv as (g & Hg & Hv).
    destruct (_ || _) eqn:Ha; [done|]. to_prop. destruct (bad _ _ _); [done|].
    destruct use as [id|]; destruct (field "id" g) as [[]|] eqn:Hid; try done.
    - case_bool_decide; [|done]. injection Hv as <-. subst. split_and!; [done..|]. exists g.
      split_and!; [done..|]. by intros ? [= <-].
    - injection Hv as <-. split_and!; [done..|]. by exists g. }
  intros H1. pose proof (Hinv _ _ _ H1) as (Hc & Ha & g & Hg & Hd & Hi).
  pose proof (verifyCapabilityToken_Some _ _ _ _ Hc) as (Hp & exp & He & Hn & _).
  split; [by exists exp|]. split; [done|]. intros use' now' c' (Hc' & _ & g' & Hg' & Hd' & Hi')%Hinv.
  pose proof (verifyCapabilityToken_Some _ _ _ _ Hc') as (Hp' & _).
  rewrite Hp in Hp'. injection Hp' as <-. rewrite Hg in Hg'. injection Hg' as <-.
  rewrite Hd in Hd'. destruct use, use'; cbn in Hd'; try done.
  specialize (Hi _ eq_refl). specialize (Hi' _ eq_refl). congruence.
Qed.

End auth.

(** ** A host to run on *)

Definition demo_claims : Json :=
  JObj [("orgId", JStr "acme"); ("actorId", JStr "U1"); ("scopeId", JStr "personal:U1");
        ("aud", JStr "blob-transfer"); ("blob", JObj [("dir", JStr "write")]); ("p", JStr "U1"); ("exp", JNum 1000)].

(** Signatures that show their key, and a codec for one value. *)
#[export] Instance demo_host : Host := {
  hmac_hex k m := k ++ "#" ++ m;
  hmac_b64 k m := k ++ "!" ++ m;
  sha256_b64 s := s;
  b64url_utf8 s := s;
  b64_utf8 s := s;
  compactSign kid k p := kid ++ "." ++ p ++ "." ++ k;
  compactVerify t k := match split_on "." t with [_; p; s] => if k === s then Some p else None | _ => None end;
  protectedKid t := match split_on "." t with k :: _ => Some (Some k) | [] => None end;
  json_parse s := if s === "claims" then Some demo_claims else None;
  json_stringify _ := "claims";
  validTimeZone _ := true;
}.

(** One signed request, sent twice. *)
Definition demo_request : SourceAuthRequest :=
  let sig := signRequest "s3cret" 100 "body" in MkSourceRequest sig (Some 100) "body" sig.

Example signed_event_once_witness :
  verify_all "s3cret" 5000 [(100000, demo_request); (105000, demo_request)] createMemoryReplayDedupe !! 1%nat <> Some (Ok tt).
Proof.
  apply (signed_event_once "s3cret" 5000 [(100000, demo_request); (105000, demo_request)] createMemoryReplayDedupe
    0 1 100000 105000 demo_request demo_request).
  - repeat constructor; cbn; lia.
  - lia.
  - reflexivity.
  - reflexivity.
  - reflexivity.
  - reflexivity.
  - vm_compute. reflexivity.
Defined.

Example token_keys_witness :
  verifySignedPayload (mintSignedPayload demo_claims "new") ["old"; "new"] = Some demo_claims.
Proof.
  refine (token_keys demo_claims "new" ["old"; "new"] _ _); [|reflexivity].
  split; reflexivity.
Defined.

Example blob_capability_single_witness :
  str_field "aud" demo_claims = Some BLOB_TRANSFER_AUD.
Proof.
  refine (proj1 (proj2 (blob_capability_single (mintSignedPayload demo_claims "k") ["k"] blob_write 999 demo_claims _))).
  vm_compute. reflexivity.
Defined.
