(* ===== verification/HttpGate.v ===== *)
(** * The gate of the HTTP interface

    Which requests reach a handler, and as whom: the routes a person or the system calls
    ([src/src/api/user-scoped-routes.ts]), route matching ([src/src/api/routes/route.ts]), the
    check of a source's signature ([src/src/api/http.ts]), what a capability token may do to
    the administration and in a strict scope, the gate itself and the configuration under
    which the server starts ([src/src/api/server.ts]).

    Reading the request, the URL parser and the router are the host's; the identity service,
    the scope service and the configuration are parameters, each call of which may fail, and a
    failure is answered 500. *)

From S2P Require Import Prelude JsString Regex Scope Json Auth.
#[local] Open Scope string_scope.
#[local] Open Scope Z_scope.

(** ** Requests and answers *)

(** What the gate reads of a request: [search] with its question mark, [query] its parameters. *)
Record Request := MkRequest {
  method : string; pathname : string; search : string; query : list (string * string);
  headers : list (string * string); raw : string;
}.
Definition header (k : string) (r : Request) : option string := assoc_get k r.(headers).

(** [sendJson] src/src/api/http.ts:4-8
    The status, the error and the message of an answer that refuses. *)
Record Refusal := MkRefusal { status : Z; r_error : string; r_message : string }.
Definition unauthorized (m : string) : Refusal := MkRefusal 401 "unauthorized" m.
Definition forbidden (m : string) : Refusal := MkRefusal 403 "forbidden" m.
(** [respondError] src/src/api/server.ts:295-304
    For an error that is no oversized body. *)
Definition internal_error : Refusal := MkRefusal 500 "internal_error" "internal server error".
(** A call of a service. *)
Definition call {A} (r : result string A) : result Refusal A := match r with Ok a => Ok a | Throw _ => Throw internal_error end.
(** A guard that answers. *)
Definition refuse_if (b : bool) (r : Refusal) : result Refusal unit := if b then Throw r else Ok tt.

(** ** Routes of persons and of the system *)

(** [Field] src/src/api/user-scoped-routes.ts:3-3 *)
Inductive Place := in_query | in_body | in_header.
(** [Field] src/src/api/user-scoped-routes.ts:3-3 *)
Record Field := MkField { f_in : Place; f_name : string }.
(** [Rule] src/src/api/user-scoped-routes.ts:4-4 *)
Record Rule := MkRule { u_method : string; u_re : re; u_field : option Field }.

Definition segment : re := plus (Cls (none_of "/")).
(** The template of a path as an expression, src/src/api/user-scoped-routes.ts:7-7
    A colon and the name after it stand for one segment. *)
Fixpoint template (in_name : bool) (s : string) : re :=
  match s with
  | "" => Eol false
  | String c s' =>
      if in_name && (c !== "/"%char) then template true s'
      else if (c === ":"%char) && match str_head s' with Some d => d !== "/"%char | None => false end
      then Seq segment (template true s')
      else Seq (chr c) (template false s')
  end.

(** [pat] src/src/api/user-scoped-routes.ts:6-9 *)
Definition pat (m tmpl : string) (field : option Field) : Rule :=
  MkRule m (Seq (Bol false) (template false tmpl)) field.

(** [USER_SCOPED] src/src/api/user-scoped-routes.ts:11-80 *)
Definition USER_SCOPED : list Rule :=
  [pat "GET" "/v1/sessions/:id" (Some (MkField in_query "viewer"));
   pat "GET" "/v1/sessions/:id/entries/:seq" (Some (MkField in_query "viewer"));
   pat "GET" "/v1/sessions/:id/approvals" (Some (MkField in_query "viewer"));
   pat "GET" "/v1/sessions/:id/background" (Some (MkField in_query "viewer"));
   pat "GET" "/v1/sessions/:id/background/:pid/output" (Some (MkField in_query "viewer"));
   pat "GET" "/v1/files/:id/content" (Some (MkField in_query "viewer"));
   pat "GET" "/v1/files" (Some (MkField in_query "viewer"));
   pat "POST" "/v1/files/upload" (Some (MkField in_body "principalId"));
   pat "POST" "/v1/sessions/:id" (Some (MkField in_body "principalId"));
   pat "POST" "/v1/sessions/:id/title" (Some (MkField in_body "principalId"));
   pat "POST" "/v1/sessions/:id/fork" (Some (MkField in_body "principalId"));
   pat "GET" "/v1/sessions" (Some (MkField in_query "principalId"));
   pat "GET" "/v1/contexts" (Some (MkField in_query "principalId"));
   pat "GET" "/v1/projects" (Some (MkField in_query "principalId"));
   pat "POST" "/v1/projects" (Some (MkField in_body "principalId"));
   pat "POST" "/v1/projects/:id/members" (Some (MkField in_body "principalId"));
   pat "DELETE" "/v1/projects/:id/members/:memberId" (Some (MkField in_body "principalId"));
   pat "GET" "/v1/scope-resources" (Some (MkField in_query "principalId"));
   pat "GET" "/v1/memory" (Some (MkField in_query "principalId"));
   pat "PUT" "/v1/memory" (Some (MkField in_body "principalId"));
   pat "GET" "/v1/memory/history" (Some (MkField in_query "principalId"));
   pat "POST" "/v1/memory/restore" (Some (MkField in_body "principalId"));
   pat "GET" "/v1/contexts/policy" (Some (MkField in_query "principalId"));
   pat "GET" "/v1/skills" (Some (MkField in_query "principalId"));
   pat "GET" "/v1/skills/:id" (Some (MkField in_query "principalId"));
   pat "POST" "/v1/skills" (Some (MkField in_body "principalId"));
   pat "PUT" "/v1/skills/:id" (Some (MkField in_body "principalId"));
   pat "DELETE" "/v1/skills/:id" (Some (MkField in_body "principalId"));
   pat "POST" "/v1/skills/:id/restore" (Some (MkField in_body "principalId"));
   pat "GET" "/v1/agents" (Some (MkField in_query "principalId"));
   pat "GET" "/v1/agents/:id" (Some (MkField in_query "principalId"));
   pat "POST" "/v1/agents" (Some (MkField in_body "principalId"));
   pat "PUT" "/v1/agents/:id" (Some (MkField in_body "principalId"));
   pat "DELETE" "/v1/agents/:id" (Some (MkField in_body "principalId"));
   pat "POST" "/v1/soul" (Some (MkField in_body "actorId"));
   pat "GET" "/v1/crons" (Some (MkField in_query "viewer"));
   pat "POST" "/v1/crons" (Some (MkField in_body "createdBy"));
   pat "GET" "/v1/crons/:id" (Some (MkField in_query "principalId"));
   pat "PATCH" "/v1/crons/:id" (Some (MkField in_query "principalId"));
   pat "DELETE" "/v1/crons/:id" (Some (MkField in_query "principalId"));
   pat "POST" "/v1/crons/:id/disable" (Some (MkField in_query "principalId"));
   pat "POST" "/v1/crons/:id/run" (Some (MkField in_query "principalId"));
   pat "POST" "/v1/crons/:id/destination" (Some (MkField in_query "principalId"));
   pat "GET" "/v1/crons/:id/runs" (Some (MkField in_query "principalId"));
   pat "GET" "/v1/deployments" (Some (MkField in_query "principalId"));
   pat "POST" "/v1/deployments" (Some (MkField in_body "createdBy"));
   pat "GET" "/v1/connectors/oauth/:provider/start" (Some (MkField in_query "principalId"));
   pat "GET" "/v1/connectors/oauth/status" (Some (MkField in_query "principalId"));
   pat "POST" "/v1/connectors/token" (Some (MkField in_body "principalId"));
   pat "POST" "/v1/connectors/oauth/revoke" (Some (MkField in_body "principalId"));
   pat "POST" "/v1/deployments/:id/display-name" None;
   pat "POST" "/v1/deployments/:id/name" None;
   pat "POST" "/v1/deployments/:id/archive" None;
   pat "POST" "/v1/deployments/:id/restore" None;
   pat "POST" "/v1/deployments/:id/rollback" None;
   pat "POST" "/v1/deployments/:id/redeploy" None;
   pat "POST" "/v1/deployments/:id/share" None;
   pat "GET" "/v1/approvals/:id" None;
   pat "GET" "/v1/approvals/pending" None;
   pat "GET" "/v1/directory/resolve" None;
   pat "POST" "/v1/reach" None;
   pat "POST" "/v1/share" None;
   pat "POST" "/v1/environments" None;
   pat "POST" "/v1/environments/attach" None;
   pat "POST" "/v1/emoji" None;
   pat "GET" "/v1/runs/:id" None;
   pat "GET" "/v1/runs" None;
   pat "POST" "/v1/runs/:id/signal" None].

(** [SYSTEM] src/src/api/user-scoped-routes.ts:82-113 *)
Definition SYSTEM : list Rule :=
  [pat "POST" "/v1/turns" None;
   pat "POST" "/v1/turns/:id/metrics" None;
   pat "POST" "/v1/runs/:id/delivery-state" None;
   pat "POST" "/v1/deliveries/:id/ack" None;
   pat "POST" "/v1/deliveries/ack-by-key" None;
   pat "POST" "/v1/directory" None;
   pat "POST" "/v1/principals/:id/deactivate" None;
   pat "POST" "/v1/principals/:id/reactivate" None;
   pat "POST" "/v1/surface-cache/ingest" None;
   pat "POST" "/v1/surface-cache/policy" None;
   pat "POST" "/v1/surface-context/:id/result" None;
   pat "POST" "/v1/grants" None;
   pat "POST" "/v1/grants/revoke" None;
   pat "POST" "/v1/blobs" None;
   pat "POST" "/v1/egress-audit" None;
   pat "POST" "/v1/auth/broker/claim" None;
   pat "PUT" "/v1/deployment-layer" None;
   pat "POST" "/v1/session-cap" None;
   pat "POST" "/v1/keychain/drops/:id" None;
   pat "POST" "/v1/keychain/asks" None;
   pat "POST" "/v1/keychain/asks/:id/decline" None;
   pat "POST" "/v1/keychain/credentials" None;
   pat "DELETE" "/v1/keychain/credentials/:id" None;
   pat "POST" "/v1/keychain/drops" None;
   pat "POST" "/v1/keychain/grants" None;
   pat "POST" "/v1/keychain/grants/:id/revoke" None;
   pat "POST" "/v1/keychain/use" None;
   pat "POST" "/v1/surface-context" None;
   pat "POST" "/v1/surface-file" None;
   pat "POST" "/v1/triggers/:id/consent" None].

(** [WRITE] src/src/api/user-scoped-routes.ts:115-115 *)
Definition WRITE : list string := ["POST"; "PUT"; "DELETE"; "PATCH"].

Definition applies (m p : string) (r : Rule) : bool := (r.(u_method) === m) && test r.(u_re) p.

(** [isUserScoped] src/src/api/user-scoped-routes.ts:117-119 *)
Definition isUserScoped (m p : string) : bool := some (applies m p) USER_SCOPED.

(** [userScopedField] src/src/api/user-scoped-routes.ts:121-123 *)
Definition userScopedField (m p : string) : option Field :=
  find (fun r => applies m p r && is_some r.(u_field)) USER_SCOPED ≫= u_field.

(** [isUnclassifiedWrite] src/src/api/user-scoped-routes.ts:125-130 *)
Definition isUnclassifiedWrite (m p : string) : bool :=
  if negb (includes WRITE m) then false
  else if starts_with p "/v1/admin/" then false
  else if is_some (userScopedField m p) then false
  else negb (some (applies m p) SYSTEM).

(** [assertedActor] src/src/api/user-scoped-routes.ts:132-141 *)
Definition assertedActor (field : Field) (req : Request) (body : Json) : option string :=
  match field.(f_in) with
  | in_query => assoc_get field.(f_name) req.(query)
  | in_header => header field.(f_name) req
  | in_body => str_field field.(f_name) body
  end.

(** ** Route matching *)

(** [RouteAuth] src/src/api/routes/route.ts:28-28 *)
Inductive RouteAuth := either | source | public | aud (a : string).
#[export] Instance RouteAuth_eq_dec : EqDecision RouteAuth.
Proof. solve_decision. Defined.

(** A segment of a compiled path, src/src/api/routes/route.ts:40-40 *)
Inductive Segment := seg_literal (s : string) | seg_param (name : string).

(** [compilePath] src/src/api/routes/route.ts:39-40 *)
Definition compilePath (path : string) : list Segment :=
  map (fun s => if starts_with s ":" then seg_param (str_drop 1 s) else seg_literal s) (split_on "/" path).

Section gate.
Context `{Host}.
(** [decodeURIComponent]. *)
Variable decodeURIComponent : string -> option string.

(** [test] src/src/api/routes/route.ts:42-59
    The parameters of the path when it matches. *)
Fixpoint segments_match (want : list Segment) (got : list string) (out : list (string * string))
  : option (list (string * string)) :=
  match want, got with
  | [], [] => Some out
  | seg_literal l :: want, v :: got => if v === l then segments_match want got out else None
  | seg_param name :: want, v :: got => d ← decodeURIComponent v; segments_match want got (assoc_set name d out)
  | _, _ => None
  end.

(** [Route] src/src/api/routes/route.ts:30-33 *)
Record Route := MkRoute { rt_auth : RouteAuth; rt_at : (string * string) + (string -> string -> bool) }.

(** [matcherFor] src/src/api/routes/route.ts:63-71 *)
Definition matcherFor (route : Route) (m p : string) : option (list (string * string)) :=
  match route.(rt_at) with
  | inl (rm, path) => if m === rm then segments_match (compilePath path) (split_on "/" p) [] else None
  | inr test => if test m p then Some [] else None
  end.

(** [findRoute] src/src/api/routes/route.ts:73-83 *)
Fixpoint findRoute (routes : list Route) (m p : string) : option (Route * list (string * string)) :=
  match routes with
  | [] => None
  | r :: routes => match matcherFor r m p with Some params => Some (r, params) | None => findRoute routes m p end
  end.

(** ** What a capability token may do *)

(** [safeDecode] src/src/api/server.ts:30-36 *)
Definition safeDecode (s : string) : string := decodeURIComponent s ?? "".

Definition path_re (tmpl : string) (p : string) : bool := test (Seq (Bol false) (template false tmpl)) p.

(** [isAdminContentRead] src/src/api/server.ts:75-98 *)
Definition isAdminContentRead (p : string) : bool :=
  (p === "/v1/admin/memory") || (p === "/v1/admin/keychain") || (p === "/v1/admin/volumes")
  || starts_with p "/v1/admin/scopes/" || starts_with p "/v1/admin/sessions" || starts_with p "/v1/admin/files"
  || (p === "/v1/admin/runs") || (p === "/v1/admin/audit") || (p === "/v1/admin/errors") || (p === "/v1/admin/egress")
  || (p === "/v1/admin/crons") || (p === "/v1/admin/deployments") || (p === "/v1/admin/skills")
  || (p === "/v1/admin/deliveries/shadow") || starts_with p "/v1/admin/slack-mirror"
  || starts_with p "/v1/admin/ambient-judgments" || starts_with p "/v1/admin/ack-emoji-picks"
  || starts_with p "/v1/admin/skills/" || starts_with p "/v1/admin/users/".

Definition claim_str (k : string) (claims : Json) : string := str_field k claims ?? "".
Definition scope_kind (claims : Json) : option ScopeKind := (parseScopeId (claim_str "scopeId" claims)).1.

(** The scope an administrative read is about, src/src/api/server.ts:64-67 *)
Definition read_target (req : Request) : string :=
  let p := req.(pathname) in
  if starts_with p "/v1/admin/scopes/"
  then safeDecode (head (split_on "/" (str_drop (String.length "/v1/admin/scopes/") p)) ?? "")
  else if p === "/v1/admin/memory" then assoc_get "scope" req.(query) ?? "" else "".

(** [capabilityAdminDenied] src/src/api/server.ts:38-73 *)
Definition capabilityAdminDenied (req : Request) (claims : Json) : option string :=
  let p := req.(pathname) in
  let m := req.(method) in
  let outside_dm := scope_kind claims !== Some personal in
  if (m === "GET") && (p === "/v1/admin/whoami") then None
  else if negb (is_text (field "aud" claims) CONTROL_PLANE_AUD) then Some "admin routes require the per-turn agent token"
  else if negb (is_true_ (field "liveActor" claims)) then
    Some "admin actions through the agent require a turn the admin started themselves — autonomous turns (crons) cannot act as an admin"
  else if starts_with p "/v1/admin/grants" then
    Some "admin grant changes (promote/revoke) are portal-only — the agent cannot manage who governs the org"
  else if starts_with p "/v1/admin/impersonate" then
    Some "impersonating a user is portal-only — the agent cannot act as another person"
  else if (m === "PUT") && path_re "/v1/admin/scopes/:scope/import" p && outside_dm then
    Some "bulk configuration imports may contain credentials — run them from a DM or the portal"
  else if path_re "/v1/admin/scopes/:scope/admin-session-reads" p && outside_dm then
    Some "the admin-session-reads flag governs what may be disclosed here — change it from a DM or the portal"
  else if (m === "GET") && isAdminContentRead p && outside_dm && ((parseScopeId (read_target req)).1 !== Some org) then
    Some "this admin read returns private content — ask the agent in a DM"
  else None.

Definition projects_re : re :=
  (Bol false ⋅ lit "/v1/projects/" ⋅ segment ⋅ opt (lit "/members" ⋅ opt (chr "/" ⋅ segment)) ⋅ Eol false)%re.

(** [strictPostAllowed] src/src/api/server.ts:100-115 *)
Definition strictPostAllowed (p : string) (body : Json) : bool :=
  (p === "/v1/surface-context") || (p === "/v1/projects") || (p === "/v1/memory/search") || (p === "/v1/memory/restore")
  || starts_with p "/v1/run-signals/" || path_re "/v1/conversations/:id/fork" p
  || test projects_re p || path_re "/v1/skills/:id/restore" p
  || (path_re "/v1/triggers/:id/consent" p && is_text (field "decision" body) "decline").

(** ** The gate *)

(** [Wiring] src/src/api/server.ts:128-135
    With what the gate reads of [deps] (src/src/api/deps.ts).  [identity] is [refresh] and then
    [classify]; [sourceAuth] says whether there is a [SourceAuth]. *)
Record Wiring := MkWiring {
  secret : option string;
  sourceAuth : bool;
  capabilitySecret : option string;
  portalIdentitySecret : option string;
  requirePortalIdentity : bool;
  allowUnsignedSourceAuth : bool;
  identity : option (string -> result string PrincipalType);
  authorizesCapabilityScope : string -> ScopeId -> option string -> result string bool;
  securityPosture : option (ScopeId -> result string string);
}.

(** [capabilityFromHeaders] src/src/api/server.ts:117-120 *)
Definition capabilityFromHeaders (req : Request) : option string := if_truthy (header "x-agent-capability" req).

(** [verifyOrReject] src/src/api/http.ts:57-82 *)
Definition verifyOrReject (w : Wiring) (now : Z) (req : Request) (payload : string) (dedup : bool) (st : ReplayState)
  : ReplayState * result Refusal unit :=
  match if_truthy w.(secret) with
  | None =>
      (st, if w.(allowUnsignedSourceAuth) then Ok tt
           else Throw (unauthorized "source authentication is not configured"))
  | Some secret =>
      let sig := header "x-signature" req ?? "" in
      let ts := header "x-timestamp" req ≫= js_integer in
      let sr := MkSourceRequest sig ts payload sig in
      let '(st, r) :=
        if dedup && w.(sourceAuth) then verify secret SOURCE_AUTH_REPLAY_WINDOW_MS now sr st
        else (st, verifySignature secret sr now SOURCE_AUTH_REPLAY_WINDOW_MS) in
      (st, match r with Ok _ => Ok tt | Throw reason => Throw (unauthorized reason) end)
  end.

(** What the gate tells of a principal that is not active, src/src/api/server.ts:171-177 *)
Definition active (w : Wiring) (p : string) : result Refusal bool :=
  match w.(identity) with
  | None => Ok true
  | Some classify => t ← call (classify p); mret (t === internal)
  end.

(** A request that carries a capability token, src/src/api/server.ts:164-211 *)
Definition admit_capability (w : Wiring) (now : Z) (req : Request) (routeAuth : option RouteAuth) (token : string)
  : result Refusal Json :=
  match match w.(capabilitySecret) with Some s => Some s | None => w.(secret) end with
  | Some s =>
      match if truthy s then verifyCapabilityToken token [s] now else None with
      | None => Throw (unauthorized "invalid or expired capability token")
      | Some capability =>
          ok ← active w (claim_str "actorId" capability);
          _ ← refuse_if (negb ok) (unauthorized "principal is no longer active");
          in_scope ← call (w.(authorizesCapabilityScope) (claim_str "actorId" capability) (claim_str "scopeId" capability)
                             (if_truthy (str_field "scopeVersion" capability)));
          _ ← refuse_if (negb in_scope) (forbidden "capability scope membership has been revoked");
          let its_aud := field "aud" capability in
          match routeAuth with
          | Some (aud a) =>
              _ ← refuse_if (negb (is_text its_aud a))
                    (forbidden ("this route requires a capability token with audience " ++ dq ++ a ++ dq));
              mret capability
          | Some either =>
              _ ← refuse_if (is_some its_aud && negb (is_text its_aud CONTROL_PLANE_AUD))
                    (forbidden "capability token audience not valid for this route");
              _ ← match (if starts_with req.(pathname) "/v1/admin/" then capabilityAdminDenied req capability else None) with
                  | Some denied => Throw (forbidden denied)
                  | None => Ok tt
                  end;
              mret capability
          | _ => Throw (forbidden "capability token not valid for this route")
          end
      end
  | None => Throw (unauthorized "invalid or expired capability token")
  end.

(** How the gate admits a request, src/src/api/server.ts:160-227
    The answer is the capability the request carries, if any. *)
Definition admits (w : Wiring) (now : Z) (req : Request) (routeAuth : option RouteAuth) (st : ReplayState)
  : ReplayState * result Refusal (option Json) :=
  match routeAuth, capabilityFromHeaders req with
  | Some public, _ => (st, Ok None)
  | _, Some token => (st, c ← admit_capability w now req routeAuth token; mret (Some c))
  | Some (aud a), None => (st, Throw (unauthorized (a ++ " capability token required")))
  | _, None =>
      let '(st, r) :=
        verifyOrReject w now req (canonicalPayload req.(method) (req.(pathname) ++ req.(search)) req.(raw))
          (req.(method) !== "GET") st in
      (st, _ ← r; mret None)
  end.

(** The body, src/src/api/server.ts:228-236 *)
Definition read_body (req : Request) : result Refusal Json :=
  if truthy req.(raw) then
    match json_parse req.(raw) with Some b => Ok b | None => Throw (MkRefusal 400 "bad_request" "invalid JSON body") end
  else Ok (JObj []).

(** The strict posture, src/src/api/server.ts:237-247 *)
Definition strict_check (w : Wiring) (req : Request) (routeAuth : option RouteAuth) (body : Json) (capability : option Json)
  : result Refusal unit :=
  match capability, routeAuth, w.(securityPosture) with
  | Some c, Some (aud _), _ => Ok tt
  | Some c, _, Some posture =>
      if (req.(method) !== "GET") && negb (strictPostAllowed req.(pathname) body) then
        p ← call (posture (claim_str "scopeId" c));
        refuse_if (p === "strict") (forbidden "Strict posture blocks direct control-plane mutations")
      else Ok tt
  | _, _, _ => Ok tt
  end.

(** [psecret] src/src/api/server.ts:251-251 *)
Definition psecret (w : Wiring) : option string :=
  if_truthy (match w.(portalIdentitySecret) with Some s => Some s | None => w.(secret) end).

(** The person the portal speaks for, src/src/api/server.ts:251-258 *)
Definition portal_actor (w : Wiring) (now : Z) (req : Request) : result Refusal (option string) :=
  match if_truthy (header "x-portal-identity" req), psecret w with
  | Some token, Some s =>
      match verifyPortalIdentity token s now with
      | Some p => ok ← active w p; mret (if ok : bool then Some p else None)
      | None => Ok None
      end
  | _, _ => Ok None
  end.

(** [webTurn] src/src/api/server.ts:260-265 *)
Definition webTurn (req : Request) (body : Json) : bool :=
  (req.(method) === "POST") && (req.(pathname) === "/v1/turns") && is_text (field "surface" body) "web".

(** [needsActor] src/src/api/server.ts:266-270 *)
Definition needsActor (req : Request) (body : Json) : bool :=
  let m := req.(method) in
  let p := req.(pathname) in
  isUserScoped m p || webTurn req body || starts_with p "/v1/admin/" || isUnclassifiedWrite m p.

(** [v ?? null]. *)
Definition non_null (v : option Json) : option Json := match v with Some JNull => None | v => v end.

(** The person must be the one the request names, src/src/api/server.ts:259-285 *)
Definition actor_check (w : Wiring) (req : Request) (body : Json) (actor : option string) : result Refusal unit :=
  if negb (needsActor req body) then Ok tt else
  match psecret w, actor with
  | Some _, Some a =>
      let fld := if webTurn req body then None else userScopedField req.(method) req.(pathname) in
      let asserted :=
        if webTurn req body then non_null (field "actor" body ≫= field "externalId")
        else match fld with Some f => JStr <$> assertedActor f req body | None => None end in
      refuse_if ((is_some fld || is_some asserted) && negb (is_text asserted a))
        (forbidden "portal identity does not match the requested actor")
  | _, _ => Throw (unauthorized "portal identity required")
  end.

(** [GateResult] src/src/api/server.ts:122-126 *)
Record GateResult := MkGate { g_body : Json; g_capability : option Json; g_actor : option string }.

(** What follows the admission, src/src/api/server.ts:228-287 *)
Definition after_admission (w : Wiring) (now : Z) (req : Request) (routeAuth : option RouteAuth) (capability : option Json)
  : result Refusal GateResult :=
  body ← read_body req;
  _ ← strict_check w req routeAuth body capability;
  match capability with
  | Some c => mret (MkGate body (Some c) None)
  | None =>
      actor ← portal_actor w now req;
      _ ← (if (routeAuth !== Some public) && w.(requirePortalIdentity) then actor_check w req body actor else Ok tt);
      mret (MkGate body None actor)
  end.

(** [gate] src/src/api/server.ts:148-288 *)
Definition gate (w : Wiring) (now : Z) (req : Request) (routeAuth : option RouteAuth) (st : ReplayState)
  : ReplayState * result Refusal GateResult :=
  let '(st, admitted) := admits w now req routeAuth st in
  (st, capability ← admitted; after_admission w now req routeAuth capability).

(** ** The server *)

(** The check on the headers before the body is read, src/src/api/server.ts:463-476 *)
Definition front_check (w : Wiring) (now : Z) (req : Request) (routeAuth : option RouteAuth) : result Refusal unit :=
  let accepts := match routeAuth with None | Some source | Some either => true | _ => false end in
  let bad_timestamp := match js_integer (header "x-timestamp" req ?? "0") with
                       | None => true
                       | Some ts => SOURCE_AUTH_REPLAY_WINDOW_MS <? Z.abs (now - ts * 1000)
                       end in
  refuse_if (truthy_opt w.(secret) && negb (is_some (capabilityFromHeaders req)) && accepts
             && (bad_timestamp || negb (is_some (header "x-signature" req))))
    (unauthorized "missing, invalid, or stale source-auth headers").

(** What [createServer] reads of its options src/src/api/deps.ts:53-58 *)
Record ServerOptions := MkOptions {
  o_signingSecret : option string; o_allowUnauthenticatedCore : bool;
  o_requireSignedPortalIdentity : bool; o_production : bool;
  o_capabilitySecret : option string; o_portalIdentitySecret : option string;
  o_identity : option (string -> result string PrincipalType);
  o_authorizes : string -> ScopeId -> option string -> result string bool;
  o_posture : option (ScopeId -> result string string);
}.

(** [buildServer] src/src/api/server.ts:430-445
    The wiring of the gate. *)
Definition buildServer (o : ServerOptions) (allowUnsigned : bool) : Wiring :=
  MkWiring o.(o_signingSecret) (truthy_opt o.(o_signingSecret)) o.(o_capabilitySecret) o.(o_portalIdentitySecret)
    (o.(o_requireSignedPortalIdentity) || o.(o_production)) allowUnsigned o.(o_identity) o.(o_authorizes) o.(o_posture).

(** [shared] src/src/api/server.ts:497-500 *)
Definition shared (o : ServerOptions) (name : string) (value : option string) : option string :=
  match if_truthy value with
  | None => Some (name ++ " is not set (it would fall back to CORE_SIGNING_SECRET)")
  | Some v => if Some v === o.(o_signingSecret) then Some (name ++ " must differ from CORE_SIGNING_SECRET") else None
  end.

(** What is wrong with the secrets, src/src/api/server.ts:501-506 *)
Definition secrets_problem (o : ServerOptions) : option string :=
  match shared o "CAPABILITY_SECRET" o.(o_capabilitySecret) with
  | Some p => Some p
  | None =>
      match shared o "PORTAL_IDENTITY_SECRET" o.(o_portalIdentitySecret) with
      | Some p => Some p
      | None => if o.(o_capabilitySecret) === o.(o_portalIdentitySecret)
                then Some "PORTAL_IDENTITY_SECRET must differ from CAPABILITY_SECRET" else None
      end
  end.

(** [createServer] src/src/api/server.ts:484-513 *)
Definition createServer (o : ServerOptions) : result string Wiring :=
  if negb (truthy_opt o.(o_signingSecret)) && o.(o_allowUnauthenticatedCore) then Ok (buildServer o true)
  else if negb (isStrongSigningSecret o.(o_signingSecret)) then
    Throw "CORE_SIGNING_SECRET must be at least 32 characters; tests that intentionally need unsigned source auth must use createInsecureTestServer"
  else if o.(o_requireSignedPortalIdentity) || o.(o_production) then
    match secrets_problem o with
    | Some problem =>
        Throw ("signed portal identity is required but " ++ problem ++ ". Provision distinct secrets or enforcement is bypassable.")
    | None => Ok (buildServer o false)
    end
  else Ok (buildServer o false).

End gate.

(** ** What it takes to be admitted *)

Lemma refuse_if_Ok b r u : refuse_if b r = Ok u <-> b = false.
Proof. destruct b, u; done. Qed.
Lemma call_Ok {A} (r : result string A) a : call r = Ok a <-> r = Ok a.
Proof. destruct r; cbn; split; congruence. Qed.

Section admission.
Context `{Host}.
Variable decodeURIComponent : string -> option string.
Implicit Types (w : Wiring) (req : Request) (st : ReplayState).

(** The secret under which capability tokens are verified. *)
Definition capability_secret (w : Wiring) : option string :=
  if_truthy (match w.(capabilitySecret) with Some s => Some s | None => w.(secret) end).

(** What a capability must satisfy on a route. *)
Definition audience_ok (req : Request) (routeAuth : option RouteAuth) (c : Json) : Prop :=
  match routeAuth with
  | Some (aud a) => is_text (field "aud" c) a = true
  | Some either =>
      (field "aud" c = None \/ is_text (field "aud" c) CONTROL_PLANE_AUD = true) /\
      (starts_with req.(pathname) "/v1/admin/" = true -> capabilityAdminDenied decodeURIComponent req c = None)
  | _ => False
  end.

Lemma admit_capability_Ok w now req routeAuth token c :
  admit_capability decodeURIComponent w now req routeAuth token = Ok c ->
  exists s, capability_secret w = Some s /\ verifyCapabilityToken token [s] now = Some c /\
    active w (claim_str "actorId" c) = Ok true /\
    w.(authorizesCapabilityScope) (claim_str "actorId" c) (claim_str "scopeId" c) (if_truthy (str_field "scopeVersion" c)) = Ok true /\
    audience_ok req routeAuth c.
Proof.
  unfold admit_capability. destruct (match capabilitySecret w with Some _ => _ | None => _ end) as [s|] eqn:Hs; [|done].
  destruct (truthy s) eqn:Ht; [|done]. destruct (verifyCapabilityToken _ _ _) as [cap|] eqn:Hv; [|done].
  intros (ok & Hok & ([] & Hact%refuse_if_Ok & (sc & Hsc & ([] & Hin%refuse_if_Ok & Hr)%bind_Ok)%bind_Ok)%bind_Ok)%bind_Ok.
  apply call_Ok in Hsc. destruct ok; [|done]. destruct sc; [|done].
  assert (cap = c /\ audience_ok req routeAuth cap) as [-> Haud].
  { destruct routeAuth as [[| | |a]|]; try done; unfold audience_ok.
    - apply bind_Ok in Hr as ([] & Ha%refuse_if_Ok & ([] & Hd & Hr)%bind_Ok). injection Hr as ->. split; [done|]. split.
      + destruct (field "aud" c); [right|by left]. cbn in Ha. by apply negb_false_iff in Ha.
      + intros Hp. rewrite Hp in Hd. by destruct (capabilityAdminDenied _ _ _).
    - apply bind_Ok in Hr as ([] & Ha%refuse_if_Ok & Hr). injection Hr as ->. by apply negb_false_iff in Ha. }
  exists s. split; [|done]. unfold capability_secret. rewrite Hs. apply if_truthy_Some. unfold truthy in Ht. by to_prop.
Qed.

(** What the source's headers must satisfy: the server accepts unsigned requests, or the signature
    is that of this method, path and body, made close to now. *)
Definition source_signed (w : Wiring) (now : Z) (req : Request) : Prop :=
  match if_truthy w.(secret) with
  | None => w.(allowUnsignedSourceAuth) = true
  | Some s =>
      exists ts, header "x-timestamp" req ≫= js_integer = Some ts /\
        Z.abs (now - ts * 1000) <= SOURCE_AUTH_REPLAY_WINDOW_MS /\
        header "x-signature" req ?? "" =
          signRequest s ts (canonicalPayload req.(method) (req.(pathname) ++ req.(search)) req.(raw))
  end.

Lemma verifyOrReject_Ok w now req payload dedup st :
  payload = canonicalPayload req.(method) (req.(pathname) ++ req.(search)) req.(raw) ->
  (verifyOrReject w now req payload dedup st).2 = Ok tt -> source_signed w now req.
Proof.
  intros ->. unfold verifyOrReject, source_signed. destruct (if_truthy (secret w)) as [s|]; [|by destruct (allowUnsignedSourceAuth w)].
  set (sr := MkSourceRequest _ _ _ _).
  assert (Hsig : verifySignature s sr now SOURCE_AUTH_REPLAY_WINDOW_MS = Ok tt ->
    exists ts, header "x-timestamp" req ≫= js_integer = Some ts /\ Z.abs (now - ts * 1000) <= SOURCE_AUTH_REPLAY_WINDOW_MS /\
      header "x-signature" req ?? "" = signRequest s ts (canonicalPayload req.(method) (req.(pathname) ++ req.(search)) req.(raw))).
  { intros (_ & ts & Hts & Habs & Hs)%verifySignature_Ok. by exists ts. }
  destruct (dedup && sourceAuth w).
  - pose proof (verify_Ok s SOURCE_AUTH_REPLAY_WINDOW_MS now sr st) as Hv.
    destruct (verify _ _ _ _ _) as [st' [[]|e]]; [|done]. intros _. destruct (Hv eq_refl) as (_ & _ & _ & Hok & _). by apply Hsig.
  - destruct (verifySignature _ _ _ _) as [[]|e]; [|done]. intros _. by apply Hsig.
Qed.

Lemma gate_Ok w now req routeAuth st g :
  (gate decodeURIComponent w now req routeAuth st).2 = Ok g ->
  (admits decodeURIComponent w now req routeAuth st).2 = Ok g.(g_capability) /\
  strict_check w req routeAuth g.(g_body) g.(g_capability) = Ok tt.
Proof.
  unfold gate. destruct (admits _ _ _ _ _ _) as [st' adm]. intros (cap & -> & Hg)%bind_Ok. unfold after_admission in Hg.
  apply bind_Ok in Hg as (body & _ & ([] & Hstrict & Hg)%bind_Ok).
  destruct cap; [by injection Hg as <-|]. by apply bind_Ok in Hg as (? & _ & (? & _ & [= <-])%bind_Ok).
Qed.

Lemma admit_source w now req routeAuth st :
  (admits decodeURIComponent w now req routeAuth st).2 = Ok None -> routeAuth <> Some public ->
  capabilityFromHeaders req = None /\ (forall a, routeAuth <> Some (aud a)) /\ source_signed w now req.
Proof.
  unfold admits. intros Ha Hpub. destruct (capabilityFromHeaders req) as [token|] eqn:Ht.
  { destruct routeAuth as [[| | |a]|]; try done; by apply bind_Ok in Ha as (? & _ & ?). }
  destruct routeAuth as [[| | |a]|]; try done;
    (destruct (verifyOrReject _ _ _ _ _ _) as [st2 r] eqn:Hv; apply bind_Ok in Ha as ([] & Ha & _); cbn in Ha; subst r;
     split; [done|]; split; [done|]; eapply verifyOrReject_Ok; [done|]; by rewrite Hv).
Qed.

(** ** Properties *)

(** C28: what passes the gate has been authenticated: on a route that is not public, either the
    request carries a capability token that verifies now, of an active person still entitled to
    the token's scope, meant for this route, and allowed what it asks of the administration
    and of a strict scope; or it carries none, the route needs none, and the source signed this
    very method, path and body just now, unless the server was started without a secret. *)
Theorem gate_authenticated w now req routeAuth st g :
  (gate decodeURIComponent w now req routeAuth st).2 = Ok g -> routeAuth <> Some public ->
  match g.(g_capability) with
  | Some c =>
      exists token s, capabilityFromHeaders req = Some token /\ capability_secret w = Some s /\
        verifyCapabilityToken token [s] now = Some c /\ active w (claim_str "actorId" c) = Ok true /\
        w.(authorizesCapabilityScope) (claim_str "actorId" c) (claim_str "scopeId" c) (if_truthy (str_field "scopeVersion" c)) = Ok true /\
        audience_ok req routeAuth c /\
        (routeAuth = Some either -> forall posture, w.(securityPosture) = Some posture ->
         posture (claim_str "scopeId" c) = Ok "strict" ->
         req.(method) = "GET" \/ strictPostAllowed req.(pathname) g.(g_body) = true)
  | None => capabilityFromHeaders req = None /\ (forall a, routeAuth <> Some (aud a)) /\ source_signed w now req
  end.
Proof.
  intros Hg Hpub. apply gate_Ok in Hg as [Ha Hstrict]. destruct (g_capability g) as [c|]; [|by eapply admit_source].
  unfold admits in Ha. destruct (capabilityFromHeaders req) as [token|] eqn:Ht.
  2:{ destruct routeAuth as [[| | |a]|]; try done; destruct (verifyOrReject _ _ _ _ _ _); by apply bind_Ok in Ha as (? & _ & ?). }
  assert (admit_capability decodeURIComponent w now req routeAuth token = Ok c) as Hadm.
  { destruct routeAuth as [[| | |a]|]; try done; by apply bind_Ok in Ha as (? & ? & [= ->]). }
  apply admit_capability_Ok in Hadm as (s & Hs & Hv & Hact & Hsc & Haud). exists token, s. split_and!; try done.
  intros -> posture Hp Hst. cbn in Hstrict. rewrite Hp in Hstrict.
  destruct (decide (req.(method) = "GET")) as [?|Hm]; [by left|right]. rewrite (proj2 (eqb_false _ _) Hm) in Hstrict. cbn in Hstrict.
  destruct (strictPostAllowed _ _); [done|]. cbn in Hstrict. rewrite Hst in Hstrict. done.
Qed.

(** The text a source signs. *)
Definition payload_of (req : Request) : string := canonicalPayload req.(method) (req.(pathname) ++ req.(search)) req.(raw).

(** Requests as they come, each with the clock's reading and its route: the gate's answers. *)
Fixpoint gate_all (w : Wiring) (reqs : list (Z * (Request * option RouteAuth))) (st : ReplayState)
  : list (result Refusal GateResult) :=
  match reqs with
  | [] => []
  | (now, (req, routeAuth)) :: reqs =>
      let '(st, r) := gate decodeURIComponent w now req routeAuth st in
      r :: gate_all w reqs st
  end.

Lemma gate_remembers w now req routeAuth st t id exp :
  t <= now -> remembers id exp t st -> remembers id exp now (gate decodeURIComponent w now req routeAuth st).1.
Proof.
  intros Hle Hr. assert (Hk : remembers id exp now st) by (intros ?; apply Hr; lia).
  assert (Hv : forall payload dedup, remembers id exp now (verifyOrReject w now req payload dedup st).1).
  { intros payload dedup. unfold verifyOrReject. destruct (if_truthy (secret w)) as [s|]; [|done]. set (sr := MkSourceRequest _ _ _ _).
    destruct (dedup && _); [|done]. pose proof (verify_remembers s SOURCE_AUTH_REPLAY_WINDOW_MS t now sr id exp st Hle Hr) as Hv.
    by destruct (verify _ _ _ _ _). }
  unfold gate, admits.
  destruct routeAuth as [[| | |a]|]; destruct (capabilityFromHeaders req); try done;
    (match goal with |- context [verifyOrReject w now req ?p ?d st] => specialize (Hv p d) end;
     by destruct (verifyOrReject _ _ _ _ _ _)).
Qed.

(** A request of a source that changes something has been claimed in the register. *)
Lemma gate_source_claims w now req routeAuth st g s :
  (gate decodeURIComponent w now req routeAuth st).2 = Ok g -> routeAuth <> Some public -> g.(g_capability) = None ->
  if_truthy w.(secret) = Some s -> w.(sourceAuth) = true -> req.(method) <> "GET" ->
  exists ts, header "x-timestamp" req ≫= js_integer = Some ts /\
    let sr := MkSourceRequest (signRequest s ts (payload_of req)) (Some ts) (payload_of req) (signRequest s ts (payload_of req)) in
    verify s SOURCE_AUTH_REPLAY_WINDOW_MS now sr st = ((gate decodeURIComponent w now req routeAuth st).1, Ok tt).
Proof.
  intros Hg Hpub Hcap Hs Hsa Hm.
  pose proof (gate_Ok _ _ _ _ _ _ Hg) as [Hadm _]. rewrite Hcap in Hadm.
  pose proof (admit_source _ _ _ _ _ Hadm Hpub) as (Hno & Haud & Hsrc). clear Hadm.
  unfold source_signed in Hsrc. rewrite Hs in Hsrc. destruct Hsrc as (ts & Hts & _ & Hsig). exists ts. split; [done|]. intros sr.
  unfold gate, admits in *. rewrite Hno in *.
  assert (Hvr : verifyOrReject w now req (payload_of req) (req.(method) !== "GET") st =
    (let '(st, r) := verify s SOURCE_AUTH_REPLAY_WINDOW_MS now sr st in
     (st, match r with Ok _ => Ok tt | Throw reason => Throw (unauthorized reason) end))).
  { unfold verifyOrReject. rewrite Hs, Hsa, Hts, Hsig. rewrite (proj2 (eqb_false _ _) Hm). done. }
  unfold payload_of in *. rewrite Hvr in *. clear Hvr.
  destruct (verify s _ now sr st) as [st' r].
  destruct routeAuth as [[| | |a]|]; try done; try (by destruct (Haud a)); destruct r as [[]|e]; done.
Qed.

Lemma gate_all_refuses w reqs st t j tj rj aj gj s ts :
  if_truthy w.(secret) = Some s -> w.(sourceAuth) = true ->
  (forall p, p ∈ reqs -> t <= p.1) -> StronglySorted (fun a b => a.1 <= b.1) reqs ->
  remembers (signRequest s ts (payload_of rj)) (ts * 1000 + SOURCE_AUTH_REPLAY_WINDOW_MS) t st ->
  reqs !! j = Some (tj, (rj, aj)) -> aj <> Some public -> rj.(method) <> "GET" ->
  header "x-timestamp" rj ≫= js_integer = Some ts ->
  gate_all w reqs st !! j = Some (Ok gj) -> gj.(g_capability) <> None.
Proof.
  intros Hs Hsa Hge Hsort Hrem Hj Hp Hm Hts Hgj Hc.
  revert st t j Hj Hgj Hrem Hge. induction reqs as [|[n [r a]] reqs IH]; intros st t j Hj Hgj Hrem Hge; [done|].
  cbn in Hgj. destruct (gate _ w n r a st) as [st2 res] eqn:Hg. assert (t <= n) by (apply (Hge (n, (r, a))); set_solver).
  apply StronglySorted_inv in Hsort as [Hsort Hall]. rewrite Forall_forall in Hall. destruct j as [|j].
  - injection Hj as -> -> ->. injection Hgj as ->.
    destruct (gate_source_claims w tj rj aj st gj s) as (ts2 & Htj & Hv); [by rewrite Hg|done..|].
    rewrite Hts in Htj. injection Htj as <-. set (sr := MkSourceRequest _ _ _ _) in Hv.
    pose proof (verify_Ok s SOURCE_AUTH_REPLAY_WINDOW_MS tj sr st) as Hok. rewrite Hv in Hok.
    destruct (Hok eq_refl) as (ts' & [= <-] & Hn & _ & _ & Hcl). by rewrite (claim_refuses t) in Hcl.
  - eapply (IH Hsort st2 n j); [done|done| |by intros p Hp'; apply (Hall p)].
    replace st2 with (gate decodeURIComponent w n r a st).1 by (by rewrite Hg). by apply (gate_remembers _ _ _ _ _ t).
Qed.

(** A request a source signed changes things at most once: while the clock does not run backwards,
    of two requests with the same timestamp, method, path and body, neither a GET nor backed by
    a capability, at most one passes the gate, whatever other requests come between. *)
Theorem gate_mutation_once w reqs st i j ti tj ri rj ai aj gi s :
  if_truthy w.(secret) = Some s -> w.(sourceAuth) = true ->
  StronglySorted (fun a b => a.1 <= b.1) reqs -> (i < j)%nat ->
  reqs !! i = Some (ti, (ri, ai)) -> reqs !! j = Some (tj, (rj, aj)) ->
  ai <> Some public -> aj <> Some public -> ri.(method) <> "GET" ->
  (ri.(method), ri.(pathname), ri.(search), ri.(raw)) = (rj.(method), rj.(pathname), rj.(search), rj.(raw)) ->
  header "x-timestamp" ri = header "x-timestamp" rj ->
  gate_all w reqs st !! i = Some (Ok gi) -> gi.(g_capability) = None ->
  ~ exists gj, gate_all w reqs st !! j = Some (Ok gj) /\ gj.(g_capability) = None.
Proof.
  intros Hs Hsa Hsort Hlt Hi Hj Hpi Hpj Hm Hsame Hts Hgi Hci (gj & Hgj & Hcj). revert Hcj. change (g_capability gj <> None).
  assert (Hpay : payload_of ri = payload_of rj) by (unfold payload_of; congruence).
  assert (Hmj : rj.(method) <> "GET") by congruence. clear Hsame.
  revert st i j Hlt Hi Hj Hgi Hgj. induction reqs as [|[n [r a]] reqs IH]; intros st i j Hlt Hi Hj Hgi Hgj; [done|].
  apply StronglySorted_inv in Hsort as [Hsort Hall]. rewrite Forall_forall in Hall. specialize (IH Hsort).
  cbn in Hgi, Hgj. destruct (gate _ w n r a st) as [st' res] eqn:Hg.
  destruct i as [|i], j as [|j]; try lia; [|by apply (IH st' i j); [lia|..]]. clear IH.
  injection Hi as -> -> ->. injection Hgi as ->.
  destruct (gate_source_claims w ti ri ai st gi s) as (ts & Hti & Hv); [by rewrite Hg|done..|].
  rewrite Hg in Hv. set (sr := MkSourceRequest _ _ _ _) in Hv.
  pose proof (verify_Ok s SOURCE_AUTH_REPLAY_WINDOW_MS ti sr st) as Hok. rewrite Hv in Hok.
  destruct (Hok eq_refl) as (ts' & [= <-] & _ & _ & Hst & Hc). pose proof (claim_accepts _ _ _ _ Hc ti) as Hrem.
  rewrite <- Hst in Hrem. unfold sr in Hrem. cbn [eventId fst] in Hrem. rewrite Hpay in Hrem. rewrite Hts in Hti.
  by eapply (gate_all_refuses w reqs st' ti j).
Qed.

Lemma active_true w p : active w p = Ok true <-> forall classify, w.(identity) = Some classify -> classify p = Ok internal.
Proof.
  unfold active. destruct (identity w) as [cl|]; [|by split].
  split.
  - intros (t & Ht%call_Ok & Heq)%bind_Ok cl' [= <-]. injection Heq as Heq. by to_prop; subst.
  - intros Hc. rewrite (Hc cl eq_refl). done.
Qed.

(** Where a signed portal identity is required, a source speaks only for the person the portal
    vouches for: a request of a person's own, a web turn, an administrative request or a write
    of no known kind passes without a capability only with a portal identity that verifies, of
    an active person, and the person the request names, where it names one, is that person. *)
Theorem gate_person w now req routeAuth st g :
  (gate decodeURIComponent w now req routeAuth st).2 = Ok g -> routeAuth <> Some public -> g.(g_capability) = None ->
  w.(requirePortalIdentity) = true -> needsActor req g.(g_body) = true ->
  exists token s p, header "x-portal-identity" req = Some token /\ psecret w = Some s /\
    verifyPortalIdentity token s now = Some p /\ active w p = Ok true /\ g.(g_actor) = Some p /\
    (webTurn req g.(g_body) = false -> forall f, userScopedField req.(method) req.(pathname) = Some f ->
       assertedActor f req g.(g_body) = Some p) /\
    (webTurn req g.(g_body) = true -> forall v, non_null (field "actor" g.(g_body) ≫= field "externalId") = Some v ->
       v = JStr p).
Proof.
  intros Hg Hpub Hcap Hreq Hneed. unfold gate in Hg. destruct (admits _ _ _ _ _ _) as [st' adm]. cbn in Hg.
  apply bind_Ok in Hg as (cap & -> & Hg). unfold after_admission in Hg.
  apply bind_Ok in Hg as (body & _ & ([] & _ & Hg)%bind_Ok).
  destruct cap as [c|]; [by injection Hg as <-|]. apply bind_Ok in Hg as (actor & Hact & (u & Hchk & [= <-])%bind_Ok).
  cbn in *. rewrite Hreq, (proj2 (eqb_false routeAuth (Some public)) Hpub) in Hchk. cbn in Hchk.
  unfold actor_check in Hchk. rewrite Hneed in Hchk. cbn in Hchk.
  destruct (psecret w) as [s|] eqn:Hs; [|done]. destruct actor as [p|]; [|done]. apply refuse_if_Ok in Hchk.
  unfold portal_actor in Hact. rewrite Hs in Hact. destruct (if_truthy _) as [token|] eqn:Ht; [|done].
  apply if_truthy_Some in Ht as [Ht _]. destruct (verifyPortalIdentity _ _ _) as [p'|] eqn:Hv; [|done].
  apply bind_Ok in Hact as ([] & Hact & Hp); [|done]. injection Hp as ->.
  exists token, s, p. split_and!; try done.
  - intros Hw f Hf. rewrite Hw, Hf in Hchk. cbn in Hchk. destruct (assertedActor f req body) as [a|]; cbn in Hchk; [|done].
    apply negb_false_iff in Hchk. by to_prop; subst.
  - intros Hw v Hv'. rewrite Hw, Hv' in Hchk. cbn in Hchk. destruct v; try done. apply negb_false_iff in Hchk. by to_prop; subst.
Qed.

End admission.

(** The keys of a running server are its own: a server either was told to accept unsigned requests
    and has no signing secret, or its signing secret has at least 32 characters; and where a
    signed portal identity is required, capability tokens, portal identities and source signatures
    are checked under three different secrets. *)
Theorem server_keys_separate o w :
  createServer o = Ok w ->
  (w.(allowUnsignedSourceAuth) = true /\ o.(o_allowUnauthenticatedCore) = true /\ if_truthy w.(secret) = None) \/
  (w.(allowUnsignedSourceAuth) = false /\ w.(sourceAuth) = true /\
   exists s, if_truthy w.(secret) = Some s /\ 32 <= str_len (trim s) /\
   (w.(requirePortalIdentity) = true ->
    exists c p, capability_secret w = Some c /\ psecret w = Some p /\ c <> s /\ p <> s /\ c <> p)).
Proof.
  unfold createServer. destruct (negb _ && _) eqn:Hu.
  { intros [= <-]. left. to_prop. cbn. split_and!; [done..|]. unfold if_truthy.
    match goal with Ht : truthy_opt _ = false |- _ => by rewrite Ht end. }
  clear Hu. destruct (isStrongSigningSecret _) eqn:Hst; [|done]. cbn [negb]. intros Hok. right.
  unfold isStrongSigningSecret in Hst. to_prop. destruct o as [[s|] unauth req prod cs ps idn au po]; cbn in *; [|by compute in Hst].
  assert (s <> "") as Hne by (intros ->; by compute in Hst).
  assert (Hts : truthy s = true) by (unfold truthy; by case_bool_decide).
  assert (w = buildServer (MkOptions (Some s) unauth req prod cs ps idn au po) false /\
    (req || prod = true -> secrets_problem (MkOptions (Some s) unauth req prod cs ps idn au po) = None)) as [-> Hp].
  { destruct (req || prod); [|by injection Hok as <-]. destruct (secrets_problem _); [done|]. by injection Hok as <-. }
  cbn. split; [done|]. split; [done|]. exists s. unfold if_truthy; cbn. rewrite Hts. split_and!; [done..|].
  intros Hr. specialize (Hp Hr). clear Hok. unfold secrets_problem, shared in Hp. cbn in Hp.
  destruct (if_truthy cs) as [c|] eqn:Hc; [|done]. destruct (Some c === Some s) eqn:Hcs; [done|].
  destruct (if_truthy ps) as [p|] eqn:Hps; [|done]. destruct (Some p === Some s) eqn:Hpss; [done|].
  destruct (cs === ps) eqn:Hcp; [done|]. to_prop. exists c, p. unfold capability_secret, psecret. cbn.
  pose proof (proj1 (if_truthy_Some _ _) Hc) as [-> ?]. pose proof (proj1 (if_truthy_Some _ _) Hps) as [-> ?].
  split_and!; congruence.
Qed.


(** ** A server to run *)

Definition demo_options : ServerOptions :=
  MkOptions (Some "core-signing-secret-of-32-characters") false true false (Some "capability") (Some "portal")
    (Some (fun p => Ok (if p === "U1" then internal else guest))) (fun _ _ _ => Ok true) None.
Definition demo_wiring : Wiring := buildServer demo_options false.

(** Running a cron from the portal: signed by the source, on behalf of U1. *)
Definition demo_run : Request :=
  let r := MkRequest "POST" "/v1/crons/c1/run" "?principalId=U1" [("principalId", "U1")] [] "" in
  MkRequest "POST" "/v1/crons/c1/run" "?principalId=U1" [("principalId", "U1")]
    [("x-timestamp", "1"); ("x-signature", signRequest "core-signing-secret-of-32-characters" 1 (payload_of r));
     ("x-portal-identity", mintSignedPayload demo_claims "portal")] "".

Example gate_authenticated_witness : source_signed demo_wiring 900 demo_run.
Proof.
  refine (proj2 (proj2 (gate_authenticated Some demo_wiring 900 demo_run (Some either) createMemoryReplayDedupe
    (MkGate (JObj []) None (Some "U1")) _ _))); [vm_compute; reflexivity|discriminate].
Defined.

Example gate_mutation_once_witness :
  ~ exists gj, gate_all Some demo_wiring [(900, (demo_run, Some either)); (901, (demo_run, Some either))]
    createMemoryReplayDedupe !! 1%nat = Some (Ok gj) /\ gj.(g_capability) = None.
Proof.
  refine (gate_mutation_once Some demo_wiring [(900, (demo_run, Some either)); (901, (demo_run, Some either))]
    createMemoryReplayDedupe 0 1 900 901 demo_run demo_run (Some either) (Some either) (MkGate (JObj []) None (Some "U1"))
    "core-signing-secret-of-32-characters" _ _ _ _ _ _ _ _ _ _ _ _ _);
    [reflexivity|reflexivity| |lia|reflexivity|reflexivity|discriminate|discriminate|discriminate|reflexivity|reflexivity
    |vm_compute; reflexivity|reflexivity].
  apply SSorted_cons; [apply SSorted_cons; [apply SSorted_nil|apply Forall_nil_2]|].
  apply Forall_cons_2; [cbn; lia|apply Forall_nil_2].
Defined.

Example gate_person_witness :
  exists token s p, header "x-portal-identity" demo_run = Some token /\ psecret demo_wiring = Some s /\
    verifyPortalIdentity token s 900 = Some p.
Proof.
  destruct (gate_person Some demo_wiring 900 demo_run (Some either) createMemoryReplayDedupe
    (MkGate (JObj []) None (Some "U1"))) as (token & s & p & Ht & Hs & Hv & _).
  - vm_compute. reflexivity.
  - discriminate.
  - reflexivity.
  - reflexivity.
  - vm_compute. reflexivity.
  - exists token, s, p. split; [exact Ht|split; [exact Hs|exact Hv]].
Defined.

Example server_keys_separate_witness :
  (demo_wiring.(allowUnsignedSourceAuth) = true /\ demo_options.(o_allowUnauthenticatedCore) = true /\ if_truthy demo_wiring.(secret) = None) \/
  demo_wiring.(allowUnsignedSourceAuth) = false.
Proof.
  destruct (server_keys_separate demo_options demo_wiring) as [H|[H _]]; [vm_compute; reflexivity|left; exact H|right; exact H].
Defined.
