(* ===== verification/Egress.v ===== *)
(** * What a sandbox may connect to

    Egress policies ([src/src/resolution/egress-policy.ts]), what the people in a
    conversation may reach together ([src/src/resolution/audience-floor.ts]), the policy put
    in the sandbox's token ([egressClaimAllowingControlPlane] of
    [src/src/core/orchestrator/turn-helpers.ts]) and the decision the proxy asks for on every
    connection ([src/src/egress-authz-main.ts]).

    The host name of a URL ([new URL(u).hostname], nothing when [u] is no URL) and the name
    service are the host's. *)

From S2P Require Import Prelude JsString Regex Scope Json Net Auth.
From stdpp Require Import pretty.
#[local] Open Scope string_scope.
#[local] Open Scope Z_scope.

(** ** Policies *)

(** [EgressPolicy] src/src/types.ts:311-316 *)
Record EgressPolicy := MkEgress {
  allowedHosts : list string;
  denyPrivateNetworks : option bool;
  privateNetworkAllowedHosts : option (list string);
  deniedHosts : option (list string);
}.

(** [EgressVerdict] src/src/resolution/egress-policy.ts:70-70 *)
Inductive EgressVerdict := ok | denied | not_allowlisted.
#[export] Instance EgressVerdict_eq_dec : EqDecision EgressVerdict.
Proof. solve_decision. Defined.
(** [EgressDecision] src/src/resolution/egress-policy.ts:72-75
    With the address [decide] adds. *)
Record EgressDecision := MkDecision { allow : bool; verdict : EgressVerdict; address : option string }.

(** The wildcard at the head of a rule. *)
Definition unstar (s : string) : string := replace_first (Bol false ⋅ lit "*.")%re (fun _ => "") s.
(** [s.match(/c/g)?.length ?? 0]. *)
Fixpoint count (c : ascii) (s : string) : nat :=
  match s with "" => 0%nat | String d s => if d === c then S (count c s) else count c s end.

Section egress.
Variable urlHostname : string -> option string.

(** [normalizeHost] src/src/resolution/egress-policy.ts:3-17 *)
Definition normalizeHost (host : string) : string :=
  let s := unbracket (undot (unstar (to_lower (trim host)))) in
  if negb (truthy s) then ""
  else let isIPv6 := Nat.leb 2 (count ":" s) in
       match urlHostname ("https://" ++ if isIPv6 then "[" ++ s ++ "]" else s) with
       | Some h => undot (unbracket h)
       | None => s
       end.

(** A label of a host name, src/src/resolution/egress-policy.ts:39-39 *)
Definition label : re :=
  let alnum c := is_letter c || is_digit c in
  (Cls alnum ⋅ opt (times 0 61 (Cls (fun c => alnum c || (c === "-"%char))) ⋅ Cls alnum))%re.
(** A host name, src/src/resolution/egress-policy.ts:39-39 *)
Definition host_name : re := (Bol false ⋅ star (label ⋅ chr ".") ⋅ label ⋅ Eol false)%re.
(** What no host name holds, src/src/resolution/egress-policy.ts:31-31 *)
Definition not_a_host : re := (Cls is_space ∥ chr "*" ∥ lit "://" ∥ Cls (one_of "/?#@"))%re.

(** One entry of a list, src/src/resolution/egress-policy.ts:28-44
    [hosts] are those kept so far, which are those [seen]; no answer is an entry passed over. *)
Definition parse_host (name : string) (hosts : list string) (item : Json) : result string (option string) :=
  match item with
  | JStr raw =>
      let candidate := trim raw in
      if negb (truthy candidate) then Ok None
      else if test not_a_host candidate then
        Throw (candidate ++ " is not a host name; omit schemes, wildcards, ports, paths, and credentials")
      else let colonCount := count ":" candidate in
      if Nat.eqb colonCount 1 then Throw (candidate ++ " includes a port; enter a host name only")
      else let normalized := normalizeHost candidate in
      if negb (truthy normalized) || (Nat.ltb colonCount 2 && negb (test host_name normalized))
      then Throw (candidate ++ " is not a valid host name")
      else if includes hosts normalized then Throw (name ++ " contains duplicate host " ++ normalized)
      else Ok (Some normalized)
  | _ => Throw (name ++ " must contain only host names")
  end.

(** The loop of [parseList] src/src/resolution/egress-policy.ts:25-48 *)
Fixpoint parse_items (name : string) (hosts : list string) (items : list Json) : result string (list string) :=
  match items with
  | [] => Ok hosts
  | item :: items => h ← parse_host name hosts item; parse_items name (hosts ++ option_list h)%list items
  end.

(** [parseList] src/src/resolution/egress-policy.ts:23-48
    On the field of that name, an empty list when it is absent or null. *)
Definition parseList (name : string) (input : Json) : result string (list string) :=
  match field name input with
  | None | Some JNull => Ok []
  | Some (JArr items) => parse_items name [] items
  | Some _ => Throw (name ++ " must be an array of host names")
  end.

(** [parseEgressPolicy] src/src/resolution/egress-policy.ts:19-57 *)
Definition parseEgressPolicy (input : Json) : result string EgressPolicy :=
  match input with
  | JObj _ =>
      allowedHosts ← parseList "allowedHosts" input;
      deniedHosts ← parseList "deniedHosts" input;
      match Prelude.find (fun h => includes deniedHosts h) allowedHosts with
      | Some overlap =>
          if truthy overlap then Throw (overlap ++ " cannot appear in both allowedHosts and deniedHosts")
          else Ok (MkEgress allowedHosts None None (Some deniedHosts))
      | None => Ok (MkEgress allowedHosts None None (Some deniedHosts))
      end
  | _ => Throw "egress requires { allowedHosts, deniedHosts }"
  end.

(** [hostMatches] src/src/resolution/egress-policy.ts:59-64 *)
Definition hostMatches (requestHost ruleHost : string) : bool :=
  let h := normalizeHost requestHost in
  let r := normalizeHost ruleHost in
  if negb (truthy h) || negb (truthy r) then false else (h === r) || ends_with h ("." ++ r).

(** [isHostDenied] src/src/resolution/egress-policy.ts:66-68 *)
Definition isHostDenied (host : string) (deniedHosts : option (list string)) : bool :=
  match deniedHosts with None => false | Some l => some (fun d => truthy d && hostMatches host d) l end.

(** [egressDecision] src/src/resolution/egress-policy.ts:77-85 *)
Definition egressDecision (host : string) (policy : option EgressPolicy) : EgressDecision :=
  match policy with
  | None => MkDecision true ok None
  | Some policy =>
      if isHostDenied host policy.(deniedHosts) then MkDecision false denied None
      else let rules := policy.(allowedHosts) in
      if Nat.ltb 0 (length rules) && negb (some (fun rule => hostMatches host rule) rules)
      then MkDecision false not_allowlisted None
      else MkDecision true ok None
  end.

(** ** What an audience may reach *)

(** [getEgress] (src/src/resolution/config-store.ts)
    The policies the configuration holds, by scope. *)
Variable getEgress : ScopeId -> option EgressPolicy.

(** [principalScopes] src/src/resolution/audience-floor.ts:5-13 *)
Definition principalScopes (p : Principal) (orgScope : ScopeId) (contextScope : option ScopeId) : list ScopeId :=
  dedup (js_filter truthy ([orgScope] ++ option_list contextScope ++ [scopeId personal p.(p_id)]
                           ++ map (fun t => scopeId team t) (p.(teamIds) ?? []))%list).

(** The hosts of several scopes, without duplicates, in the order they are met. *)
Definition hosts_of (sel : EgressPolicy -> list string) (scopes : list ScopeId) : list string :=
  dedup (concat (map (fun s => from_option sel [] (getEgress s)) scopes)).

(** [principalEgressHosts] src/src/resolution/audience-floor.ts:15-25 *)
Definition principalEgressHosts (p : Principal) (orgScope : ScopeId) (contextScope : option ScopeId) : list string :=
  hosts_of allowedHosts (principalScopes p orgScope contextScope).

(** [principalDeniedHosts] src/src/resolution/audience-floor.ts:27-37 *)
Definition principalDeniedHosts (p : Principal) (orgScope : ScopeId) (contextScope : option ScopeId) : list string :=
  hosts_of (fun e => e.(deniedHosts) ?? []) (principalScopes p orgScope contextScope).

(** [audienceEgressFloor] src/src/resolution/audience-floor.ts:39-49 *)
Definition audienceEgressFloor (audience : list Principal) (orgScope : ScopeId) (contextScope : option ScopeId) : list string :=
  match map (fun p => principalEgressHosts p orgScope contextScope) audience with
  | [] => []
  | first :: rest => js_filter (fun h => every (fun s => includes s h) rest) first
  end.

(** [audienceDeniedFloor] src/src/resolution/audience-floor.ts:51-60 *)
Definition audienceDeniedFloor (audience : list Principal) (orgScope : ScopeId) (contextScope : option ScopeId) : list string :=
  dedup (concat (map (fun p => principalDeniedHosts p orgScope contextScope) audience)).

(** The egress of a resolved turn, src/src/resolution/resolution-service.ts:76-79 *)
Definition resolved_egress (audience : list Principal) (orgScope scope : ScopeId) : EgressPolicy :=
  MkEgress (audienceEgressFloor audience orgScope (Some scope)) None None
    (Some (audienceDeniedFloor audience orgScope (Some scope))).

(** [coreHost] src/src/core/orchestrator/turn-helpers.ts:138-145 *)
Definition core_host (apiBaseUrl : string) : string :=
  if truthy apiBaseUrl then urlHostname apiBaseUrl ?? "" else "".

(** [egressClaimAllowingControlPlane] src/src/core/orchestrator/turn-helpers.ts:130-158 *)
Definition egressClaimAllowingControlPlane (egress : EgressPolicy) (apiBaseUrl : string) (denyPrivate : bool)
  : option EgressPolicy :=
  let allowed := egress.(allowedHosts) in
  let deniedL := egress.(deniedHosts) ?? [] in
  if Nat.eqb (length allowed) 0 && Nat.eqb (length deniedL) 0 && negb denyPrivate then None else
  let coreHost := core_host apiBaseUrl in
  let core := truthy coreHost in
  let safeDenied := if core then js_filter (fun d => negb (hostMatches coreHost d)) deniedL else deniedL in
  let allowedWithCore :=
    if core && Nat.ltb 0 (length allowed) && negb (includes allowed coreHost) then (allowed ++ [coreHost])%list else allowed in
  let claim := MkEgress allowedWithCore (if denyPrivate then Some true else None)
                 (if denyPrivate && core then Some [coreHost] else None)
                 (if Nat.ltb 0 (length safeDenied) then Some safeDenied else None) in
  if Nat.ltb 0 (length claim.(allowedHosts)) || Nat.ltb 0 (length safeDenied) || denyPrivate then Some claim else None.

(** ** The proxy's question *)

Context `{Host}.
(** The addresses of a name; the call may fail. *)
Variable lookup : string -> result string (list string).

(** [OPEN] src/src/egress-authz-main.ts:15-15 *)
Definition OPEN : EgressPolicy := MkEgress [] None None (Some []).
(** [DENY_ALL] src/src/egress-authz-main.ts:17-17 *)
Definition DENY_ALL : EgressPolicy := MkEgress ["deny.invalid"] None None (Some []).

(** [decide] src/src/egress-authz-main.ts:92-119 *)
Definition decide_ (host : string) (policy : option EgressPolicy) : EgressDecision :=
  if isAlwaysBlockedHost host then MkDecision false denied None
  else let byName := egressDecision host policy in
  if negb byName.(allow) then byName
  else match lookup host with
       | Throw _ | Ok [] => MkDecision false denied None
       | Ok ((ip :: _) as ips) =>
           let privateAllowed := match policy ≫= privateNetworkAllowedHosts with
                                 | Some rules => some (fun rule => hostMatches host rule) rules
                                 | None => false
                                 end in
           let denyPrivate := (policy ≫= denyPrivateNetworks) === Some true in
           if some (fun ip => isLinkLocalOrMetadataIp ip || isHostDenied ip (policy ≫= deniedHosts)
                              || (denyPrivate && negb privateAllowed && isPrivateNetworkIp ip)) ips
           then MkDecision false denied None
           else MkDecision true ok (Some ip)
       end.

(** [raw.split(/\s+/, 2)]: the text before the first white space, and the word after it, if there is any. *)
Fixpoint word_end (s : string) : string * option string :=
  match s with
  | "" => ("", None)
  | String c s' => if is_space c then ("", Some (trim_start s')) else let '(w, r) := word_end s' in (String c w, r)
  end.

(** [tokenFromRequest] src/src/egress-authz-main.ts:47-59
    On the [proxy-authorization] header. *)
Definition tokenFromRequest (raw : option string) : option string :=
  raw ← if_truthy raw;
  let '(scheme, rest) := word_end raw in
  value ← if_truthy ((fun r => (word_end r).1) <$> rest);
  if negb (truthy scheme) then None
  else if to_lower scheme === "bearer" then Some value
  else if to_lower scheme === "basic" then
    let decoded := b64_utf8 value in
    match index_of decoded ":" with Some colon => Some (str_drop (S colon) decoded) | None => Some decoded end
  else None.

Definition digits : re := Regex.plus (Cls is_digit).
(** A bracketed host and its port, src/src/egress-authz-main.ts:64-64 *)
Definition bracketed_authority : re :=
  (Bol false ⋅ chr "[" ⋅ Grp 1 (Regex.plus (Cls dot)) ⋅ chr "]" ⋅ opt (chr ":" ⋅ digits) ⋅ Eol false)%re.

(** [hostFromAuthority] src/src/egress-authz-main.ts:61-69 *)
Definition hostFromAuthority (authority : string) : option string :=
  let a := trim authority in
  if negb (truthy a) then None
  else match exec bracketed_authority a with
       | Some m => Regex.group 1 m
       | None =>
           match last_index ":" a with
           | Some (S i) =>
               let port := str_drop (S (S i)) a in
               if negb (str_includes port ":") && truthy port && str_every is_digit port then Some (str_take (S i) a) else Some a
           | _ => Some a
           end
       end.

(** The digits after the last colon, src/src/egress-authz-main.ts:129-129 *)
Definition port_re : re := (chr ":" ⋅ Grp 1 digits ⋅ Eol false)%re.
(** The port, src/src/egress-authz-main.ts:129-133 *)
Definition port_of (authority : string) (scheme : option string) : option Z :=
  let port := match exec port_re authority ≫= Regex.group 1 with
              | Some text => number 10 0 text
              | None => if scheme === Some "http" then 80 else 443
              end in
  if (port <? 1) || (65535 <? port) then None else Some port.

(** A list of names in a claim. *)
Definition names (j : Json) : list string := omap as_string (as_array j ?? []).
(** The policy of a token, as its type [EgressPolicy] reads it. *)
Definition claimed_egress (claims : Json) : option EgressPolicy :=
  e ← field "egress" claims;
  Some (MkEgress (from_option names [] (field "allowedHosts" e)) (field "denyPrivateNetworks" e ≫= as_bool)
          (names <$> field "privateNetworkAllowedHosts" e) (names <$> field "deniedHosts" e)).

(** A policy as JSON carries it, absent fields left out. *)
Definition egress_json (e : EgressPolicy) : Json :=
  let strs l := JArr (map JStr l) in
  JObj ([("allowedHosts", strs e.(allowedHosts))]
        ++ option_list ((fun b => ("denyPrivateNetworks", JBool b)) <$> e.(denyPrivateNetworks))
        ++ option_list ((fun l => ("privateNetworkAllowedHosts", strs l)) <$> e.(privateNetworkAllowedHosts))
        ++ option_list ((fun l => ("deniedHosts", strs l)) <$> e.(deniedHosts)))%list.

(** The claims of a turn's egress token, src/src/core/orchestrator.ts:1193-1203 *)
Definition turn_claims (actorId : string) (scope : ScopeId) (egress : option EgressPolicy) (now : Z) : list (string * Json) :=
  ([("actorId", JStr actorId); ("scopeId", JStr scope); ("aud", JStr EGRESS_PROXY_AUD)]
   ++ option_list ((fun e => ("egress", egress_json e)) <$> egress)
   ++ [("exp", JNum (now + CAPABILITY_TTL_MS))])%list.

(** [EgressAuditRecord] src/src/admin/egress-audit-sink.ts:4-15
    Without its time and its source, which are the sink's. *)
Record AuditRecord := MkAudit { a_host : string; a_allowed : bool; a_verdict : EgressVerdict; scopeLabel : string; principalId : string }.

(** [EgressAuthzDeps] src/src/egress-authz-main.ts:73-79 *)
Record AuthzDeps := MkAuthz { az_capabilitySecret : option string; az_tokenless_open : bool }.

(** [claimsFor] src/src/egress-authz-main.ts:86-90 *)
Definition claimsFor (deps : AuthzDeps) (now : Z) (token : option string) : option Json :=
  t ← if_truthy token;
  s ← if_truthy deps.(az_capabilitySecret);
  claims ← verifyCapabilityToken t [s] now;
  if is_text (field "aud" claims) EGRESS_PROXY_AUD then Some claims else None.

(** The policy that holds for a request, src/src/egress-authz-main.ts:136-138 *)
Definition policy_for (deps : AuthzDeps) (token : option string) (claims : option Json) : option EgressPolicy :=
  match claims with
  | Some c => claimed_egress c
  | None => if negb (truthy_opt token) && deps.(az_tokenless_open) then Some OPEN else Some DENY_ALL
  end.

(** What the proxy asks: the authority, its scheme and its credentials. *)
Record ProxyRequest := MkProxy { authority : string; egress_scheme : option string; proxy_authorization : option string }.

(** The address the proxy dials, src/src/egress-authz-main.ts:153-153 *)
Definition upstream (address : string) (port : Z) : string :=
  if isIP address =? 6 then "[" ++ address ++ "]:" ++ pretty port else address ++ ":" ++ pretty port.

(** [checkStatus] src/src/egress-authz-main.ts:123-154
    The answer, the address to dial if it is 200, and what is written to the audit. *)
Definition checkStatus (deps : AuthzDeps) (now : Z) (req : ProxyRequest) : Z * option string * list AuditRecord :=
  match if_truthy (hostFromAuthority req.(authority)), port_of req.(authority) req.(egress_scheme) with
  | Some host, Some port =>
      let token := tokenFromRequest req.(proxy_authorization) in
      let claims := claimsFor deps now token in
      let d := decide_ host (policy_for deps token claims) in
      let record := MkAudit host d.(allow) d.(verdict) ((claims ≫= str_field "scopeId") ?? "unknown")
                      ((claims ≫= str_field "actorId") ?? "unknown") in
      match (if d.(allow) then if_truthy d.(address) else None) with
      | Some a => (200, Some (upstream a port), [record])
      | None => (403, None, [record])
      end
  | _, _ => (403, None, [])
  end.

(** ** Lemmas *)

Lemma elem_of_hosts_of sel scopes h :
  h ∈ hosts_of sel scopes <-> exists s e, s ∈ scopes /\ getEgress s = Some e /\ h ∈ sel e.
Proof.
  clear urlHostname lookup.
  unfold hosts_of. rewrite elem_of_dedup, list_elem_of_In, in_concat. setoid_rewrite in_map_iff.
  setoid_rewrite <- list_elem_of_In. split.
  - intros (l & (s & <- & Hs) & Hh). destruct (getEgress s) as [e|] eqn:He; [by exists s, e|]. cbn in Hh. set_solver.
  - intros (s & e & Hs & He & Hh). exists (sel e). split; [|done]. exists s. by rewrite He.
Qed.

(** The hosts a person may reach, and those denied to them. *)
Definition may_reach (orgScope : ScopeId) (ctx : option ScopeId) (p : Principal) (h : string) : Prop :=
  exists s e, s ∈ principalScopes p orgScope ctx /\ getEgress s = Some e /\ h ∈ e.(allowedHosts).
Definition may_not_reach (orgScope : ScopeId) (ctx : option ScopeId) (p : Principal) (h : string) : Prop :=
  exists s e, s ∈ principalScopes p orgScope ctx /\ getEgress s = Some e /\ h ∈ (e.(deniedHosts) ?? []).

Lemma elem_of_egress_floor audience orgScope ctx h :
  h ∈ audienceEgressFloor audience orgScope ctx <->
  audience <> [] /\ forall p, p ∈ audience -> may_reach orgScope ctx p h.
Proof.
  clear urlHostname lookup.
  unfold audienceEgressFloor. destruct audience as [|p ps]; cbn [map].
  { split; [set_solver|]. by intros [? _]. }
  rewrite elem_of_js_filter, every_true. split.
  - intros [Hrest Hp]. split; [done|]. intros q [->|Hq]%elem_of_cons; [by apply elem_of_hosts_of in Hp|].
    apply elem_of_hosts_of. change (h ∈ principalEgressHosts q orgScope ctx).
    apply includes_true, Hrest. rewrite list_elem_of_fmap. by exists q.
  - intros [_ Hall]. split; [|by apply elem_of_hosts_of, Hall; left].
    intros s (q & -> & Hq)%list_elem_of_fmap. apply includes_true, elem_of_hosts_of, Hall. by right.
Qed.

Lemma elem_of_denied_floor audience orgScope ctx h :
  h ∈ audienceDeniedFloor audience orgScope ctx <-> exists p, p ∈ audience /\ may_not_reach orgScope ctx p h.
Proof.
  clear urlHostname lookup.
  unfold audienceDeniedFloor. rewrite elem_of_dedup, list_elem_of_In, in_concat. setoid_rewrite in_map_iff.
  setoid_rewrite <- list_elem_of_In. split.
  - intros (l & (p & <- & Hp) & Hh). exists p. split; [done|]. by apply elem_of_hosts_of in Hh.
  - intros (p & Hp & Hh). exists (principalDeniedHosts p orgScope ctx). split; [by exists p|]. by apply elem_of_hosts_of.
Qed.

Lemma isHostDenied_false host l :
  isHostDenied host l = false <-> forall d, d ∈ (l ?? []) -> d <> "" -> hostMatches host d = false.
Proof.
  unfold isHostDenied. destruct l as [l|]; cbn; [|by split; [set_solver|]].
  rewrite some_false. unfold truthy. split; intros Hd d Hin; specialize (Hd d Hin).
  - intros Hne. by rewrite (proj2 (eqb_false _ _) Hne) in Hd.
  - case_bool_decide; [done|]. by apply Hd.
Qed.

Lemma egressDecision_allow host policy :
  (egressDecision host policy).(allow) = true ->
  isHostDenied host (policy ≫= deniedHosts) = false /\
  forall p, policy = Some p -> p.(allowedHosts) <> [] -> exists rule, rule ∈ p.(allowedHosts) /\ hostMatches host rule = true.
Proof.
  unfold egressDecision. destruct policy as [p|]; [|done]. cbn. destruct (isHostDenied _ _); [done|].
  destruct (_ && _) eqn:E; [done|]. intros _. split; [done|]. intros ? [= <-] Hne.
  apply andb_false_iff in E as [E|E]; [destruct (allowedHosts p); done|]. apply negb_false_iff in E. by apply some_true in E.
Qed.

(** What it takes to be let through. *)
Lemma decide_allow host policy :
  (decide_ host policy).(allow) = true ->
  isAlwaysBlockedHost host = false /\ (egressDecision host policy).(allow) = true /\
  exists ip ips, lookup host = Ok (ip :: ips) /\ (decide_ host policy).(address) = Some ip /\
    forall a, a ∈ ip :: ips -> isLinkLocalOrMetadataIp a = false /\ isHostDenied a (policy ≫= deniedHosts) = false /\
      ((policy ≫= denyPrivateNetworks) = Some true -> isPrivateNetworkIp a = true ->
       exists rule, rule ∈ ((policy ≫= privateNetworkAllowedHosts) ?? []) /\ hostMatches host rule = true).
Proof.
  unfold decide_. destruct (isAlwaysBlockedHost host); [done|].
  destruct (allow (egressDecision host policy)) eqn:Ha; cbn [negb]; [|by rewrite Ha].
  destruct (lookup host) as [[|ip ips]|]; [done| |done]. destruct (some _ _) eqn:Hs; [done|]. intros _.
  split; [done|]. split; [done|]. exists ip, ips. split; [done|]. split; [done|].
  intros a Hin. rewrite some_false in Hs. specialize (Hs a Hin). apply orb_false_iff in Hs as [Hs Hpv].
  apply orb_false_iff in Hs as [Hl Hd]. split; [done|]. split; [done|].
  intros Hdp Hpriv. rewrite Hpriv, andb_true_r, (proj2 (eqb_true _ _) Hdp) in Hpv. apply negb_false_iff in Hpv.
  destruct (policy ≫= privateNetworkAllowedHosts) as [rules|]; [|done]. by apply some_true in Hpv.
Qed.

Lemma claim_denies egress apiBaseUrl dp d :
  d ∈ (egress.(deniedHosts) ?? []) -> hostMatches (core_host apiBaseUrl) d = false ->
  d ∈ ((egressClaimAllowingControlPlane egress apiBaseUrl dp ≫= deniedHosts) ?? []).
Proof.
  intros Hd Hm. unfold egressClaimAllowingControlPlane; cbv zeta.
  set (dl := deniedHosts egress ?? []) in *. assert (Hl : Nat.eqb (length dl) 0 = false) by (destruct dl; [set_solver|done]).
  rewrite Hl. rewrite andb_false_r. cbn [negb andb].
  set (safe := if truthy (core_host apiBaseUrl) then _ else dl).
  assert (Hs : d ∈ safe).
  { unfold safe. destruct (truthy _); [|done]. apply elem_of_js_filter. by rewrite Hm. }
  assert (Hn : Nat.ltb 0 (length safe) = true) by (destruct safe; [set_solver|done]).
  clearbody safe. rewrite Hn, orb_true_r. cbn. by rewrite ?Hn.
Qed.

Lemma claim_allows egress apiBaseUrl dp :
  egress.(allowedHosts) <> [] ->
  exists c, egressClaimAllowingControlPlane egress apiBaseUrl dp = Some c /\ c.(allowedHosts) <> [] /\
    forall r, r ∈ c.(allowedHosts) -> r ∈ egress.(allowedHosts) \/ r = core_host apiBaseUrl.
Proof.
  intros Hne. unfold egressClaimAllowingControlPlane; cbv zeta. destruct (allowedHosts egress) as [|h hs] eqn:Ha; [done|]. cbn [length Nat.eqb Nat.ltb Nat.leb andb].
  rewrite andb_true_r. set (core := core_host apiBaseUrl).
  destruct (truthy core && negb (includes (h :: hs) core)); cbn; eexists; (split; [done|]); cbn; (split; [done|]); [|set_solver].
  intros r. change (h :: (hs ++ [core]))%list with ((h :: hs) ++ [core])%list. set_solver.
Qed.

Lemma claim_private egress apiBaseUrl :
  exists c, egressClaimAllowingControlPlane egress apiBaseUrl true = Some c /\ c.(denyPrivateNetworks) = Some true /\
    forall r, r ∈ (c.(privateNetworkAllowedHosts) ?? []) -> r = core_host apiBaseUrl.
Proof.
  unfold egressClaimAllowingControlPlane; cbv zeta. rewrite andb_false_r. cbn [negb]. rewrite orb_true_r. eexists. split; [done|].
  split; [done|]. cbn. destruct (truthy _); cbn; set_solver.
Qed.

Lemma names_strs l : names (JArr (map JStr l)) = l.
Proof. unfold names. cbn. induction l as [|x l IH]; cbn; [done|]. by rewrite IH. Qed.

(** A policy survives the token. *)
Lemma claimed_egress_turn orgId actor scope egress now :
  claimed_egress (claims_object orgId (turn_claims actor scope egress now)) = egress.
Proof.
  destruct egress as [[al dp pr dn]|]; [|done].
  destruct dp, pr, dn; lazy -[names map]; by rewrite !names_strs.
Qed.

Lemma claimsFor_Some deps now token s claims :
  token <> "" -> deps.(az_capabilitySecret) = Some s -> s <> "" -> verifyCapabilityToken token [s] now = Some claims ->
  is_text (field "aud" claims) EGRESS_PROXY_AUD = true -> claimsFor deps now (Some token) = Some claims.
Proof.
  intros Ht Hs Hne Hv Ha. unfold claimsFor. rewrite Hs. unfold if_truthy, truthy_opt, truthy. cbn.
  rewrite !(proj2 (eqb_false _ _)) by done. cbn. rewrite Hv. cbn. by rewrite Ha.
Qed.

(** ** Properties *)

(** What an audience may reach is what everybody in it may reach, and what it may not reach is what
    anybody in it may not: the allowed hosts are the intersection of the people's reaches, the
    denied hosts the union of theirs, each host once, and neither depends on the order of the
    people; nobody reaches nothing. *)
Theorem audience_floor_exact audience orgScope ctx :
  (forall h, h ∈ audienceEgressFloor audience orgScope ctx <->
     audience <> [] /\ forall p, p ∈ audience -> may_reach orgScope ctx p h) /\
  (forall h, h ∈ audienceDeniedFloor audience orgScope ctx <-> exists p, p ∈ audience /\ may_not_reach orgScope ctx p h) /\
  NoDup (audienceEgressFloor audience orgScope ctx) /\ NoDup (audienceDeniedFloor audience orgScope ctx) /\
  (forall audience', audience ≡ₚ audience' ->
     audienceEgressFloor audience orgScope ctx ≡ₚ audienceEgressFloor audience' orgScope ctx /\
     audienceDeniedFloor audience orgScope ctx ≡ₚ audienceDeniedFloor audience' orgScope ctx).
Proof.
  clear urlHostname lookup.
  assert (Hnd : forall l, NoDup (audienceEgressFloor l orgScope ctx) /\ NoDup (audienceDeniedFloor l orgScope ctx)).
  { intros l. split; [|apply dedup_NoDup]. unfold audienceEgressFloor. destruct l as [|p ps]; [constructor|]. cbn [map].
    eapply sublist_NoDup; [|apply js_filter_sublist]. apply dedup_NoDup. }
  split; [intros h; apply elem_of_egress_floor|]. split; [intros h; apply elem_of_denied_floor|].
  split; [apply Hnd|]. split; [apply Hnd|]. intros l' Hp.
  assert (Hin : forall p, p ∈ audience <-> p ∈ l') by (intros p; by rewrite Hp).
  assert (Hnil : audience = [] <-> l' = []).
  { split; intros ->; [by symmetry; apply Permutation_nil_l|by apply Permutation_nil_r in Hp]. }
  split; (apply NoDup_Permutation; [apply Hnd..|]); intros h; rewrite ?elem_of_egress_floor, ?elem_of_denied_floor; set_solver.
Qed.

(** C29: the proxy holds a turn to the policies of everybody in the room: when it lets a connection of a
    turn's sandbox through, the name is not a metadata host; the address it dials is one the
    name service gave, and none of those is link-local, a metadata address, or, where private
    networks are denied, private, unless the host is the control plane; no host denied to
    anybody in the audience by any of their scopes matches the name or any of its addresses,
    except where it would cut off the control plane; and where the audience has a common
    allowlist, the name matches a host that everybody in it may reach, or the control plane. *)
Theorem proxy_enforces_turn deps now req token s orgId actor audience orgScope scope apiBaseUrl dp t0 up log :
  let core := core_host apiBaseUrl in
  tokenFromRequest req.(proxy_authorization) = Some token -> token <> "" ->
  deps.(az_capabilitySecret) = Some s -> s <> "" ->
  verifyCapabilityToken token [s] now =
    Some (claims_object orgId (turn_claims actor scope
      (egressClaimAllowingControlPlane (resolved_egress audience orgScope scope) apiBaseUrl dp) t0)) ->
  checkStatus deps now req = (200, Some up, log) ->
  exists host port a ips, if_truthy (hostFromAuthority req.(authority)) = Some host /\
    port_of req.(authority) req.(egress_scheme) = Some port /\
    lookup host = Ok (a :: ips) /\ up = upstream a port /\ isAlwaysBlockedHost host = false /\
    (forall b, b ∈ a :: ips -> isLinkLocalOrMetadataIp b = false /\
       (dp = true -> isPrivateNetworkIp b = true -> hostMatches host core = true)) /\
    (forall p d, p ∈ audience -> may_not_reach orgScope (Some scope) p d -> d <> "" -> hostMatches core d = false ->
       hostMatches host d = false /\ forall b, b ∈ a :: ips -> hostMatches b d = false) /\
    (audienceEgressFloor audience orgScope (Some scope) <> [] -> hostMatches host core = true \/
       exists rule, hostMatches host rule = true /\ forall p, p ∈ audience -> may_reach orgScope (Some scope) p rule).
Proof.
  intros core Htok Hne Hs Hsne Hv Hst. set (egress := resolved_egress _ _ _) in Hv.
  set (claim := egressClaimAllowingControlPlane egress apiBaseUrl dp) in Hv. unfold checkStatus in Hst. rewrite Htok in Hst.
  destruct (if_truthy (hostFromAuthority _)) as [host|] eqn:Hh; [|done]. destruct (port_of _ _) as [port|] eqn:Hp; [|done].
  rewrite (claimsFor_Some deps now token s _ Hne Hs Hsne Hv) in Hst by (by destruct claim).
  cbn [policy_for] in Hst. rewrite claimed_egress_turn in Hst.
  destruct (allow (decide_ host claim)) eqn:Ha; [|done].
  pose proof (decide_allow host claim Ha) as (Hblk & Hdec & a & ips & Hl & Hadd & Hips). rewrite Hadd in Hst.
  destruct (if_truthy (Some a)) as [a'|] eqn:Hat; [|done].
  assert (a' = a) as -> by (unfold if_truthy in Hat; destruct (truthy_opt _) in Hat; congruence).
  injection Hst as <- <-. apply egressDecision_allow in Hdec as [Hden Hall].
  exists host, port, a, ips. split_and!; try done.
  - intros b Hb. destruct (Hips b Hb) as (Hlink & _ & Hpriv). split; [done|]. intros -> Hpr.
    destruct (claim_private egress apiBaseUrl) as (c & Hc & Hcd & Hcr). unfold claim in Hpriv. rewrite Hc in Hpriv. cbn in Hpriv.
    destruct (Hpriv Hcd Hpr) as (r & Hr & Hm). by rewrite (Hcr r Hr) in Hm.
  - intros p d Hpa Hmn Hd Hcore.
    assert (Hin : d ∈ ((claim ≫= deniedHosts) ?? [])) by (apply claim_denies; [apply elem_of_denied_floor; by exists p|done]).
    rewrite isHostDenied_false in Hden. split; [by apply Hden|]. intros b Hb. destruct (Hips b Hb) as (_ & Hbd & _).
    rewrite isHostDenied_false in Hbd. by apply Hbd.
  - intros Hfl. destruct (claim_allows egress apiBaseUrl dp Hfl) as (c & Hc & Hcne & Hcr).
    destruct (Hall c Hc Hcne) as (r & Hr & Hm). destruct (Hcr r Hr) as [Hr'| ->]; [right|by left].
    exists r. split; [done|]. by apply elem_of_egress_floor.
Qed.

(** A host that came from the named list of the input. *)
Definition listed (input : Json) (name h : string) : Prop :=
  exists items raw, field name input = Some (JArr items) /\ JStr raw ∈ items /\ h = normalizeHost (trim raw) /\ h <> "" /\
    ((count ":" (trim raw) < 2)%nat -> test host_name h = true).

Lemma parse_host_Ok name hosts item h :
  parse_host name hosts item = Ok (Some h) ->
  (h ∉ hosts) /\ exists raw, item = JStr raw /\ h = normalizeHost (trim raw) /\ h <> "" /\
    ((count ":" (trim raw) < 2)%nat -> test host_name h = true).
Proof.
  clear getEgress lookup.
  unfold parse_host. destruct item as [| | |raw| |]; try done. destruct (truthy (trim raw)); [|done]. cbn [negb].
  destruct (test not_a_host _); [done|]. destruct (Nat.eqb _ 1); [done|].
  destruct (negb _ || _) eqn:Hbad; [done|]. destruct (includes hosts _) eqn:Hinc; [done|]. intros [= <-].
  apply includes_false in Hinc. split; [done|]. exists raw. apply orb_false_iff in Hbad as [Ht Hn].
  unfold truthy in Ht. to_prop. split_and!; try done. intros Hc. apply Nat.ltb_lt in Hc. rewrite Hc in Hn. by apply negb_false_iff in Hn.
Qed.

Lemma parse_items_Ok name items hosts out :
  parse_items name hosts items = Ok out ->
  (NoDup hosts -> NoDup out) /\ forall h, h ∈ out -> h ∈ hosts \/ exists raw, JStr raw ∈ items /\ h = normalizeHost (trim raw) /\
    h <> "" /\ ((count ":" (trim raw) < 2)%nat -> test host_name h = true).
Proof.
  clear getEgress lookup.
  revert hosts. induction items as [|item items IH]; intros hosts; cbn; [intros [= <-]; split; [done|by left]|].
  intros (o & Ho & [Hnd Hin]%IH)%bind_Ok. destruct o as [h|]; cbn in *.
  - apply parse_host_Ok in Ho as [Hnew (raw & -> & Hr)]. split.
    + intros Hh. apply Hnd, NoDup_app. split_and!; [done|set_solver|apply NoDup_singleton].
    + intros x [Hx|(raw' & Hx & Hr')]%Hin; [|right; exists raw'; set_solver].
      apply elem_of_app in Hx as [?| ->%list_elem_of_singleton]; [by left|right]. exists raw. set_solver.
  - rewrite app_nil_r in *. split; [done|]. intros x [?|(raw' & Hx & Hr')]%Hin; [by left|right; exists raw'; set_solver].
Qed.

Lemma parseList_Ok name input out :
  parseList name input = Ok out -> NoDup out /\ forall h, h ∈ out -> listed input name h.
Proof.
  clear getEgress lookup.
  unfold parseList, listed. destruct (field name input) as [[| | | |items|]|]; try done;
    try (intros [= <-]; split; [constructor|set_solver]).
  intros [Hnd Hin]%parse_items_Ok. split; [by apply Hnd; constructor|].
  intros h [?|(raw & ? & ?)]%Hin; [set_solver|]. by exists items, raw.
Qed.

(** A stored policy is in normal form: when a policy is accepted, each of its two lists holds no host
    twice, no host stands in both, each host is the normal form of an entry of the list it was
    given in, is not empty, and is a host name unless it is an IPv6 address, and no entry that
    is not blank is lost. *)
Theorem parsed_policy_normal input p :
  parseEgressPolicy input = Ok p ->
  NoDup p.(allowedHosts) /\ NoDup (p.(deniedHosts) ?? []) /\
  (forall h, h ∈ p.(allowedHosts) -> h ∈ (p.(deniedHosts) ?? []) -> False) /\
  (forall h, h ∈ p.(allowedHosts) -> listed input "allowedHosts" h) /\
  (forall h, h ∈ (p.(deniedHosts) ?? []) -> listed input "deniedHosts" h) /\
  (forall items raw, field "deniedHosts" input = Some (JArr items) -> JStr raw ∈ items -> trim raw <> "" ->
     normalizeHost (trim raw) ∈ (p.(deniedHosts) ?? [])).
Proof.
  clear getEgress lookup.
  unfold parseEgressPolicy. destruct input as [| | | | |fs]; try done. set (input := JObj fs).
  intros (al & Ha & (dn & Hd & Hr)%bind_Ok)%bind_Ok.
  assert (Hkeep : forall items hosts out, parse_items "deniedHosts" hosts items = Ok out ->
    (forall h, h ∈ hosts -> h ∈ out) /\ forall raw, JStr raw ∈ items -> trim raw <> "" -> normalizeHost (trim raw) ∈ out).
  { clear. induction items as [|item items IH]; intros hosts out; cbn; [intros [= <-]; split; [done|set_solver]|].
    intros (o & Ho & [Hh Hi]%IH)%bind_Ok. split; [set_solver|].
    intros raw [<-|Hin]%elem_of_cons Hne; [|by apply Hi]. unfold parse_host in Ho.
    assert (Ht : truthy (trim raw) = true) by (unfold truthy; by case_bool_decide). rewrite Ht in Ho. cbn [negb] in Ho.
    destruct (test not_a_host _); [done|]. destruct (Nat.eqb _ 1); [done|]. destruct (negb _ || _); [done|].
    destruct (includes _ _); [done|]. injection Ho as <-. apply Hh. set_solver. }
  pose proof (parseList_Ok _ _ _ Ha) as [Hand Hain]. pose proof (parseList_Ok _ _ _ Hd) as [Hdnd Hdin].
  assert (p = MkEgress al None None (Some dn) /\ forall h, h ∈ al -> h ∈ dn -> False) as [-> Hdis].
  { destruct (Prelude.find _ al) as [o|] eqn:Hf.
    - apply find_Some in Hf as [Ho _]. destruct (Hain o Ho) as (? & ? & _ & _ & _ & Hne & _).
      unfold truthy in Hr. by rewrite (proj2 (eqb_false _ _) Hne) in Hr.
    - injection Hr as <-. split; [done|]. intros h Hh Hh'. rewrite find_None in Hf. specialize (Hf h Hh).
      by apply includes_false in Hf. }
  cbn -[field]. split_and!; try done. intros items raw Hf Hin Hne. unfold parseList in Hd. rewrite Hf in Hd.
  by eapply Hkeep.
Qed.
End egress.

(** ** The audit relay *)

Section relay.
Context {R : Type}.

(** [RELAY_MAX_BATCH] src/src/egress-authz-main.ts:171-171 *)
Definition RELAY_MAX_BATCH : nat := 500.
(** [RELAY_MAX_BUFFER] src/src/egress-authz-main.ts:172-172 *)
Definition RELAY_MAX_BUFFER : nat := Z.to_nat 5000.

(** The state of [createRelayAuditSink] src/src/egress-authz-main.ts:182-184 *)
Record Relay := MkRelay { buffer : list R; flushing : bool; dropped : Z }.
#[export] Instance Relay_eta : Eta Relay := fun s => MkRelay s.(buffer) s.(flushing) s.(dropped).

(** [record] src/src/egress-authz-main.ts:213-220 *)
Definition record (r : R) (s : Relay) : Relay :=
  if Nat.leb RELAY_MAX_BUFFER (length s.(buffer)) then s <| dropped ::= Z.add 1 |>
  else s <| buffer ::= fun b => (b ++ [r])%list |>.

(** [flush], as far as the request it makes, src/src/egress-authz-main.ts:185-198
    The batch it sends; nothing when another is on its way or there is nothing to send. *)
Definition flush_begin (s : Relay) : Relay * option (list R) :=
  if s.(flushing) || Nat.eqb (length s.(buffer)) 0 then (s, None)
  else (s <| flushing := true |>, Some (take RELAY_MAX_BATCH s.(buffer))).

(** [flush], from the answer on, src/src/egress-authz-main.ts:199-209 *)
Definition flush_end (answered_ok : bool) (batch : list R) (s : Relay) : Relay :=
  let s := if answered_ok
           then let s := s <| buffer ::= drop (length batch) |> in
                if 0 <? s.(dropped) then s <| dropped := 0 |> else s
           else s in
  s <| flushing := false |>.

(** The relay with the batch on its way, what was taken in and what the core acknowledged. *)
Record World := MkWorld { relay : Relay; on_its_way : option (list R); taken : list R; acknowledged : list R }.

Inductive relay_step : World -> World -> Prop :=
| step_record r s w t a :
    relay_step (MkWorld s w t a)
      (MkWorld (record r s) w (if Nat.leb RELAY_MAX_BUFFER (length s.(buffer)) then t else t ++ [r])%list a)
| step_flush s w t a s' batch :
    flush_begin s = (s', Some batch) -> relay_step (MkWorld s w t a) (MkWorld s' (Some batch) t a)
| step_answer s batch t a (answered_ok : bool) :
    relay_step (MkWorld s (Some batch) t a)
      (MkWorld (flush_end answered_ok batch s) None t (if answered_ok then a ++ batch else a)%list).

Definition relay_init (w : World) : Prop := w = MkWorld (MkRelay [] false 0) None [] [].

Definition relay_ok (w : World) : Prop :=
  (w.(acknowledged) ++ w.(relay).(buffer))%list = w.(taken) /\ (length w.(relay).(buffer) <= RELAY_MAX_BUFFER)%nat /\
  w.(relay).(flushing) = is_some w.(on_its_way) /\ forall b, w.(on_its_way) = Some b -> b `prefix_of` w.(relay).(buffer).

Lemma relay_step_ok w w' : relay_ok w -> relay_step w w' -> relay_ok w'.
Proof.
  unfold relay_ok. intros (Heq & Hlen & Hfl & Hpre) Hst. destruct Hst as [r s w t a|s w t a s' batch Hb|s batch t a []]; cbn -[RELAY_MAX_BUFFER] in *.
  - unfold record. destruct (Nat.leb _ _) eqn:E; cbn -[RELAY_MAX_BUFFER]; [done|]. apply Nat.leb_gt in E.
    split_and!; [by rewrite app_assoc, Heq|rewrite length_app; cbn -[RELAY_MAX_BUFFER]; lia|done|].
    intros b Hw. by apply prefix_app_r, Hpre.
  - unfold flush_begin in Hb. destruct (flushing s) eqn:Ef; [done|]. destruct (Nat.eqb _ 0); [done|]. injection Hb as <- <-.
    cbn -[RELAY_MAX_BUFFER RELAY_MAX_BATCH]. split_and!; [done..|]. intros b [= <-]. exists (drop RELAY_MAX_BATCH (buffer s)).
    by rewrite take_drop.
  - destruct (Hpre _ eq_refl) as [rest Hr]. unfold flush_end. destruct (0 <? _); cbn -[RELAY_MAX_BUFFER];
      rewrite Hr, drop_app_length; (split_and!; [rewrite <- app_assoc; by rewrite <- Hr| |done|done]);
      rewrite Hr, length_app in Hlen; lia.
  - unfold flush_end. cbn -[RELAY_MAX_BUFFER]. by split_and!.
Qed.

(** The audit trail loses nothing it took in: however recording, sending and answering interleave,
    what the core acknowledged followed by what is buffered is exactly what was taken in, in
    order and once each; at most one batch is on its way, it is the head of the buffer, and
    the buffer never exceeds its bound. *)
Theorem relay_in_order w :
  reachable relay_init relay_step w ->
  (w.(acknowledged) ++ w.(relay).(buffer))%list = w.(taken) /\ (length w.(relay).(buffer) <= RELAY_MAX_BUFFER)%nat /\
  w.(relay).(flushing) = is_some w.(on_its_way) /\
  forall b, w.(on_its_way) = Some b -> b `prefix_of` w.(relay).(buffer).
Proof.
  apply (invariant_reachable _ _ relay_ok).
  - intros ? ->. unfold relay_ok. cbn -[RELAY_MAX_BUFFER]. split_and!; [done|lia|done|done].
  - intros v v' Hv. by apply relay_step_ok.
Qed.
End relay.

(** ** Runs *)

Definition demo_url (u : string) : option string := Some (str_drop 8 u).
Definition ann : Principal := MkPrincipal "U1" internal None None.
Definition bob : Principal := MkPrincipal "U2" internal None None.

(** Ann may reach one host, Bob another; the organisation denies a third. *)
Definition demo_egress (s : ScopeId) : option EgressPolicy :=
  if s === "personal:U1" then Some (MkEgress ["a.example"] None None None)
  else if s === "personal:U2" then Some (MkEgress ["b.example"] None None None)
  else if s === "org:o" then Some (MkEgress [] None None (Some ["bad.example"]))
  else None.

(** Two people whose allowlists have nothing in common: their floor is empty, and an empty allowlist
    restricts nothing, so together they reach a host neither reaches alone. *)
Example disjoint_reaches_open :
  audienceEgressFloor demo_egress [ann; bob] "org:o" None = [] /\
  (egressDecision demo_url "evil.example" (Some (resolved_egress demo_egress [ann] "org:o" "org:o"))).(allow) = false /\
  (egressDecision demo_url "evil.example" (Some (resolved_egress demo_egress [bob] "org:o" "org:o"))).(allow) = false /\
  (egressDecision demo_url "evil.example" (Some (resolved_egress demo_egress [ann; bob] "org:o" "org:o"))).(allow) = true.
Proof. vm_compute. done. Qed.

Definition demo_turn : list (string * Json) :=
  turn_claims "U1" "org:o"
    (egressClaimAllowingControlPlane demo_url (resolved_egress demo_egress [ann] "org:o" "org:o")
       "https://core.example" true) 0.
(** The host of the demonstration, with a codec for these claims. *)
Definition demo_egress_host : Host := {|
  hmac_hex k m := k ++ "#" ++ m;
  hmac_b64 k m := k ++ "!" ++ m;
  sha256_b64 s := s;
  b64url_utf8 s := s;
  b64_utf8 s := s;
  compactSign kid k p := kid ++ "." ++ p ++ "." ++ k;
  compactVerify t k := match split_on "." t with [_; p; s] => if k === s then Some p else None | _ => None end;
  protectedKid t := match split_on "." t with k :: _ => Some (Some k) | [] => None end;
  json_parse s := if s === "turn" then Some (claims_object "acme" demo_turn) else None;
  json_stringify _ := "turn";
  validTimeZone _ := true;
|}.
Definition demo_connection : ProxyRequest := MkProxy "x.a.example:8443" None (Some "Bearer cap.turn.cap").
Definition demo_lookup (host : string) : result string (list string) :=
  if host === "x.a.example" then Ok ["93.184.216.34"] else Throw "ENOTFOUND".

Example proxy_enforces_turn_witness :
  exists host port a ips, if_truthy (hostFromAuthority demo_connection.(authority)) = Some host /\
    port_of demo_connection.(authority) None = Some port /\ demo_lookup host = Ok (a :: ips) /\
    "93.184.216.34:8443" = upstream a port.
Proof.
  destruct (@proxy_enforces_turn demo_url demo_egress demo_egress_host demo_lookup (MkAuthz (Some "cap") false) 1000
    demo_connection "cap.turn.cap" "cap" "acme" "U1" [ann] "org:o" "org:o" "https://core.example" true 0
    "93.184.216.34:8443" [MkAudit "x.a.example" true ok "org:o" "U1"]) as (host & port & a & ips & H1 & H2 & H3 & H4 & _).
  - vm_compute. reflexivity.
  - discriminate.
  - reflexivity.
  - discriminate.
  - vm_compute. reflexivity.
  - vm_compute. reflexivity.
  - exists host, port, a, ips. split; [exact H1|split; [exact H2|split; [exact H3|exact H4]]].
Defined.

Example parsed_policy_normal_witness : NoDup ["a.com"; "b.com"].
Proof.
  refine (proj1 (parsed_policy_normal demo_url
    (JObj [("allowedHosts", JArr [JStr "A.com"; JStr " "; JStr "b.com."]); ("deniedHosts", JArr [JStr "c.com"])])
    (MkEgress ["a.com"; "b.com"] None None (Some ["c.com"])) _)).
  vm_compute. reflexivity.
Defined.

(** One record taken in while another is on its way. *)
Example relay_in_order_witness :
  let w := MkWorld (MkRelay [1%nat; 2%nat] true 0) (Some [1%nat]) [1%nat; 2%nat] [] in
  (w.(acknowledged) ++ w.(relay).(buffer))%list = w.(taken).
Proof.
  refine (proj1 (relay_in_order (MkWorld (MkRelay [1%nat; 2%nat] true 0) (Some [1%nat]) [1%nat; 2%nat] []) _)).
  eexists. split; [reflexivity|].
  eapply rtc_l; [exact (step_record 1%nat (MkRelay [] false 0) None [] [])|].
  eapply rtc_l; [refine (step_flush _ None [1%nat] [] (MkRelay [1%nat] true 0) [1%nat] _); vm_compute; reflexivity|].
  eapply rtc_l; [exact (step_record 2%nat (MkRelay [1%nat] true 0) (Some [1%nat]) [1%nat] [])|].
  apply rtc_refl.
Defined.
