(* ===== verification/Limits.v ===== *)
(** * Limits on use

    How often a person may ask ([src/src/ratelimit/rate-limiter.ts]) and how much they may
    spend ([src/src/ratelimit/budget.ts]), in memory.  Amounts are whole numbers of some unit;
    a limit that is not set is absent, where the source has infinity. *)

From S2P Require Import Prelude JsString.
#[local] Open Scope Z_scope.

(** ** The rate limiter *)

(** [RateDecision] src/src/ratelimit/rate-limiter.ts:1-4 *)
Record RateDecision := MkRate { r_allowed : bool; retryAfterMs : option Z }.

(** A window, src/src/ratelimit/rate-limiter.ts:18-18 *)
Record Window := MkWindow { windowStart : Z; w_count : Z }.

Section rate.
(** [RateLimiterOptions] *)
Context (maxPerWindow windowMs : Z).

(** [check] src/src/ratelimit/rate-limiter.ts:20-32 *)
Definition check (t : Z) (principalId : string) (state : jsmap string Window) : jsmap string Window * RateDecision :=
  match state !! principalId with
  | None => (<[principalId := MkWindow t 1]> state, MkRate true None)
  | Some s =>
      if windowMs <=? t - s.(windowStart) then (<[principalId := MkWindow t 1]> state, MkRate true None)
      else if maxPerWindow <=? s.(w_count) then (state, MkRate false (Some (windowMs - (t - s.(windowStart)))))
      else (<[principalId := MkWindow s.(windowStart) (s.(w_count) + 1)]> state, MkRate true None)
  end.

(** Calls as they come: the times at which each person was let through, last first. *)
Fixpoint calls (l : list (Z * string)) (state : jsmap string Window) (passed : list (Z * string))
  : jsmap string Window * list (Z * string) :=
  match l with
  | [] => (state, passed)
  | (t, p) :: l =>
      let '(state, d) := check t p state in
      calls l state (if d.(r_allowed) then (t, p) :: passed else passed)
  end.

(** The calls of a person that passed in an interval. *)
Definition passed_in (p : string) (lo hi : Z) (passed : list (Z * string)) : list (Z * string) :=
  js_filter (fun c => (c.2 === p) && (lo <=? c.1) && (c.1 <? hi)) passed.
End rate.

(** ** The budget *)

(** [DEFAULT_BUDGET_WINDOW_MS] src/src/ratelimit/budget.ts:13-13 *)
Definition DEFAULT_BUDGET_WINDOW_MS : Z := 86400000.

(** [BudgetCheck] src/src/ratelimit/budget.ts:2-6
    A limit that is absent is infinite. *)
Record BudgetCheck := MkBudget { b_allowed : bool; spentUsd : Z; limitUsd : option Z }.

(** What was spent and when, src/src/ratelimit/budget.ts:25-25 *)
Record Spend := MkSpend { sp_at : Z; sp_usd : Z }.

Definition total (l : list Spend) : Z := fold_left (fun s e => s + e.(sp_usd)) l 0.
(** [a >= limit], which is never so of an infinite limit. *)
Definition reaches (a : Z) (limit : option Z) : bool := match limit with Some l => l <=? a | None => false end.

Section budget.
Context (limit orgLimit : option Z) (windowMs : Z).

(** [orgKey] src/src/ratelimit/budget.ts:26-26 *)
Definition orgKey : string := "@org".

(** [spentIn] src/src/ratelimit/budget.ts:28-33 *)
Definition spentIn (key : string) (now : Z) (spend : jsmap string (list Spend)) : jsmap string (list Spend) * Z :=
  let kept := js_filter (fun e => now - windowMs <=? e.(sp_at)) ((spend !! key) ?? []) in
  (<[key := kept]> spend, total kept).

(** [check] src/src/ratelimit/budget.ts:36-41 *)
Definition check_budget (principalId : string) (now : Z) (spend : jsmap string (list Spend))
  : jsmap string (list Spend) * BudgetCheck :=
  let '(spend, spent) := spentIn principalId now spend in
  if reaches spent limit then (spend, MkBudget false spent limit)
  else let '(spend, orgSpent) := spentIn orgKey now spend in
       (spend, MkBudget (negb (reaches orgSpent orgLimit)) orgSpent orgLimit).

(** [record] src/src/ratelimit/budget.ts:42-48 *)
Definition record_spend (principalId : string) (costUsd now : Z) (spend : jsmap string (list Spend))
  : jsmap string (list Spend) :=
  fold_left (fun spend key => <[key := (((spend !! key) ?? []) ++ [MkSpend now costUsd])%list]> spend)
    [principalId; orgKey] spend.
End budget.

(** ** Counting the calls that passed *)

Section counting.
Context (p : string).

Definition cnt (f : Z -> bool) (l : list (Z * string)) : nat := length (js_filter (fun c => (c.2 === p) && f c.1) l).

Lemma cnt_cons f t q l : cnt f ((t, q) :: l) = ((if decide (q = p) then if f t then 1 else 0 else 0) + cnt f l)%nat.
Proof. unfold cnt. cbn. case_bool_decide; case_decide; try done; cbn; by destruct (f t). Qed.

Lemma cnt_le_add (f g h : Z -> bool) l :
  (forall x, f x = true -> g x = true \/ h x = true) -> (cnt f l <= cnt g l + cnt h l)%nat.
Proof.
  intros Hf. induction l as [|[t q] l IH]; [done|]. rewrite !cnt_cons. case_decide; [|done].
  specialize (Hf t). destruct (f t), (g t), (h t); try lia; by destruct (Hf eq_refl).
Qed.
Lemma cnt_mono (f g : Z -> bool) l : (forall x, f x = true -> g x = true) -> (cnt f l <= cnt g l)%nat.
Proof.
  intros Hf. transitivity (cnt g l + cnt (fun _ => false) l)%nat; [apply cnt_le_add; auto|].
  assert (cnt (fun _ => false) l = 0%nat) as ->; [|lia].
  clear. induction l as [|[t q] l IH]; [done|]. rewrite cnt_cons, IH. by case_decide.
Qed.

Context (maxPerWindow windowMs : Z).
(** A window lets at least one call through. *)
Definition most : nat := Z.to_nat (Z.max 1 maxPerWindow).
Definition between (lo hi x : Z) : bool := (lo <=? x) && (x <? hi).

(** What holds of a person after a call at time [t]: the current window counts its calls, the one before
    it held no more than allowed, and no interval as long as a window held more than twice that. *)
Definition rate_ok (state : jsmap string Window) (t : Z) (passed : list (Z * string)) : Prop :=
  (forall lo, (cnt (between lo (lo + windowMs)) passed <= 2 * most)%nat) /\
  match state !! p with
  | None => forall f, cnt f passed = 0%nat
  | Some s =>
      s.(windowStart) <= t /\ Z.of_nat (cnt (fun x => s.(windowStart) <=? x) passed) = s.(w_count) /\
      s.(w_count) <= Z.of_nat most /\
      (cnt (between (s.(windowStart) - windowMs) s.(windowStart)) passed <= most)%nat /\
      cnt (fun x => s.(windowStart) + windowMs <=? x) passed = 0%nat
  end.

Lemma most_pos : (1 <= most)%nat /\ maxPerWindow <= Z.of_nat most.
Proof. unfold most. lia. Qed.

(** A call of somebody else. *)
Lemma rate_ok_other state state' t t' passed c :
  state' !! p = state !! p -> t <= t' -> c.2 <> p -> rate_ok state t passed ->
  rate_ok state' t' passed /\ rate_ok state' t' (c :: passed).
Proof.
  destruct c as [tc q]. cbn. intros Hs Ht Hq [Hg Hr].
  assert (H1 : rate_ok state' t' passed).
  { unfold rate_ok. rewrite Hs. split; [done|]. destruct (state !! p) as [s|]; [|done]. destruct Hr. split; [lia|done]. }
  split; [done|]. unfold rate_ok in *. assert (Hc : forall f, cnt f ((tc, q) :: passed) = cnt f passed) by (intros f; rewrite cnt_cons; by case_decide).
  destruct H1 as [H1 H2]. split; [intros lo; by rewrite Hc|]. destruct (state' !! p); [by rewrite !Hc|]. intros f. by rewrite Hc.
Qed.

Lemma cnt_here f t l : cnt f ((t, p) :: l) = ((if f t then 1 else 0) + cnt f l)%nat.
Proof. rewrite cnt_cons. by rewrite decide_True. Qed.

(** A call in a window that begins with it. *)
Lemma rate_ok_new state t passed :
  0 < windowMs -> (forall lo, (cnt (between lo (lo + windowMs)) passed <= 2 * most)%nat) ->
  (cnt (fun x => (t - windowMs <=? x)%Z) passed <= most)%nat -> cnt (fun x => t <=? x) passed = 0%nat ->
  rate_ok (<[p := MkWindow t 1]> state) t ((t, p) :: passed).
Proof.
  intros Hw Hg Hold Hnone. pose proof most_pos as [Hm _]. unfold rate_ok. rewrite lookup_set_eq. cbn [windowStart w_count].
  split_and!.
  - intros lo. rewrite cnt_here. destruct (between lo (lo + windowMs) t) eqn:Hb; [|apply Hg].
    unfold between in Hb. to_prop.
    assert (cnt (between lo (lo + windowMs)) passed <= cnt (fun x => (t - windowMs <=? x)%Z) passed)%nat; [|lia].
    apply cnt_mono. intros x Hx. unfold between in Hx. to_prop. apply Z.leb_le. lia.
  - lia.
  - rewrite cnt_here, Hnone. by rewrite Z.leb_refl.
  - lia.
  - rewrite cnt_here. unfold between at 1. rewrite (proj2 (Z.ltb_ge t t)), andb_false_r by lia. cbn.
    etransitivity; [|exact Hold]. apply cnt_mono. intros x Hx. unfold between in Hx. by to_prop; apply Z.leb_le.
  - rewrite cnt_here. rewrite (proj2 (Z.leb_gt _ _)) by lia. cbn.
    assert (cnt (fun x => (t + windowMs <=? x)%Z) passed <= cnt (fun x => (t <=? x)%Z) passed)%nat; [|lia].
    apply cnt_mono. intros x Hx. to_prop. apply Z.leb_le. lia.
Qed.

Lemma rate_ok_check state t t' passed :
  0 < windowMs -> t <= t' -> rate_ok state t passed ->
  let '(state', d) := check maxPerWindow windowMs t' p state in
  rate_ok state' t' (if d.(r_allowed) then (t', p) :: passed else passed).
Proof.
  intros Hw Ht [Hg Hr]. pose proof most_pos as [Hm Hm']. unfold check. destruct (state !! p) as [s|] eqn:Hs; cbn [r_allowed].
  2:{ apply rate_ok_new; [done|done|rewrite Hr; lia|apply Hr]. }
  destruct Hr as (Hws & Hc & Hcm & Hprev & Hend). destruct (windowMs <=? t' - windowStart s) eqn:E; to_prop; cbn [r_allowed].
  - apply rate_ok_new; [done|done| |].
    + assert (cnt (fun x => (t' - windowMs <=? x)%Z) passed <= cnt (fun x => (windowStart s <=? x)%Z) passed)%nat; [|lia].
      apply cnt_mono. intros x Hx. to_prop. apply Z.leb_le. lia.
    + assert (cnt (fun x => (t' <=? x)%Z) passed <= cnt (fun x => (windowStart s + windowMs <=? x)%Z) passed)%nat; [|lia].
      apply cnt_mono. intros x Hx. to_prop. apply Z.leb_le. lia.
  - destruct (maxPerWindow <=? w_count s) eqn:E'; to_prop; cbn [r_allowed]; unfold rate_ok.
    + rewrite Hs. split_and!; (done || lia).
    + rewrite lookup_set_eq. cbn [windowStart w_count]. split_and!.
      * intros lo. rewrite cnt_here. destruct (between lo (lo + windowMs) t') eqn:Hb; [|apply Hg].
        unfold between in Hb. to_prop.
        assert (cnt (between lo (lo + windowMs)) passed <=
          cnt (between (windowStart s - windowMs) (windowStart s)) passed + cnt (fun x => (windowStart s <=? x)%Z) passed)%nat; [|lia].
        apply cnt_le_add. intros x Hx. unfold between in *. to_prop.
        destruct (Z.le_gt_cases (windowStart s) x); [right; by apply Z.leb_le|left].
        rewrite (proj2 (Z.leb_le _ _)), (proj2 (Z.ltb_lt _ _)) by lia. done.
      * lia.
      * rewrite cnt_here. rewrite (proj2 (Z.leb_le _ _)) by lia. lia.
      * lia.
      * rewrite cnt_here. unfold between at 1. rewrite (proj2 (Z.ltb_ge t' _)), andb_false_r by lia. done.
      * rewrite cnt_here. rewrite (proj2 (Z.leb_gt _ _)) by lia. done.
Qed.

Lemma check_other q t state : q <> p -> (check maxPerWindow windowMs t q state).1 !! p = state !! p.
Proof.
  intros Hq. unfold check. destruct (state !! q) as [s|]; [|by apply lookup_set_ne].
  destruct (_ <=? _); [by apply lookup_set_ne|]. destruct (_ <=? _); [done|by apply lookup_set_ne].
Qed.

Lemma rate_ok_calls l state t passed :
  0 < windowMs -> (forall c, c ∈ l -> t <= c.1) -> StronglySorted (fun a b => a.1 <= b.1) l -> rate_ok state t passed ->
  exists t', let '(state', passed') := calls maxPerWindow windowMs l state passed in rate_ok state' t' passed'.
Proof.
  intros Hw. revert state t passed. induction l as [|[n q] l IH]; intros state t passed Hge Hs Hok; [by exists t|].
  apply StronglySorted_inv in Hs as [Hs Hall]. rewrite Forall_forall in Hall. cbn [calls].
  destruct (check maxPerWindow windowMs n q state) as [state' d] eqn:Hc. apply (IH state' n); [intros c Hin; by apply (Hall c)|done|].
  assert (Hn : t <= n) by (apply (Hge (n, q)); set_solver). destruct (decide (q = p)) as [->|Hq].
  - pose proof (rate_ok_check state t n passed Hw Hn Hok) as Hk. by rewrite Hc in Hk.
  - pose proof (check_other q n state Hq) as Ho. rewrite Hc in Ho.
    destruct (rate_ok_other state state' t n passed (n, q) Ho Hn Hq Hok). by destruct (r_allowed d).
Qed.
End counting.

(** ** Properties *)

(** The limit holds over time: while the clock does not run backwards, in no interval as long as the
    window, wherever it lies, are more than twice the allowed number of calls of a person let
    through (a limit below one counting as one), whatever everybody else does. *)
Theorem rate_bounded p maxPerWindow windowMs l lo :
  0 < windowMs -> StronglySorted (fun a b => a.1 <= b.1) l ->
  Z.of_nat (length (passed_in p lo (lo + windowMs) (calls maxPerWindow windowMs l ∅ []).2)) <= 2 * Z.max 1 maxPerWindow.
Proof.
  intros Hw Hs. assert (Hinit : exists t, (forall c : Z * string, c ∈ l -> t <= c.1) /\ rate_ok p maxPerWindow windowMs ∅ t []).
  { destruct l as [|[t q] l]; [exists 0; split; [set_solver|]|exists t; split].
    2:{ apply StronglySorted_inv in Hs as [_ Hall]. rewrite Forall_forall in Hall.
        intros c [->|Hc]%elem_of_cons; [done|by apply (Hall c)]. }
    all: split; [intros lo'; cbn; lia|done]. }
  destruct Hinit as (t & Hge & Hok). destruct (rate_ok_calls p maxPerWindow windowMs l ∅ t [] Hw Hge Hs Hok) as [t' Hr].
  destruct (calls _ _ l ∅ []) as [state' passed']. destruct Hr as [Hg _]. specialize (Hg lo). cbn [snd].
  assert (length (passed_in p lo (lo + windowMs) passed') = cnt p (between lo (lo + windowMs)) passed') as ->.
  { unfold passed_in, cnt, between. f_equal. clear. induction passed' as [|c l IH]; [done|]. cbn. rewrite IH. by rewrite andb_assoc. }
  unfold most in Hg. lia.
Qed.

(** ** The budget against its ledger *)

Section ledger.
Context (limit orgLimit : option Z) (windowMs : Z).

(** What is done to a budget, and when. *)
Inductive BudgetOp := op_record (principalId : string) (costUsd now : Z) | op_check (principalId : string) (now : Z).
Definition op_time (o : BudgetOp) : Z := match o with op_record _ _ now | op_check _ now => now end.
Definition op_principal (o : BudgetOp) : string := match o with op_record p _ _ | op_check p _ => p end.

Definition budget_step (s : jsmap string (list Spend)) (o : BudgetOp) : jsmap string (list Spend) :=
  match o with
  | op_record p usd now => record_spend p usd now s
  | op_check p now => (check_budget limit orgLimit windowMs p now s).1
  end.
Definition budget_run (ops : list BudgetOp) : jsmap string (list Spend) := fold_left budget_step ops ∅.

(** The ledger that forgets nothing: what a person spent, and what everybody did. *)
Definition charges (key : string) (o : BudgetOp) : list Spend :=
  match o with
  | op_record p usd now => if (key === orgKey) || (key === p) then [MkSpend now usd] else []
  | op_check _ _ => []
  end.
Definition ledger (key : string) (ops : list BudgetOp) : list Spend := concat (map (charges key) ops).
Definition recent (now : Z) (l : list Spend) : list Spend := js_filter (fun e => now - windowMs <=? e.(sp_at)) l.

(** The decision the ledger justifies. *)
Definition verdict_of (p : string) (now : Z) (ops : list BudgetOp) : BudgetCheck :=
  let spent := total (recent now (ledger p ops)) in
  let org := total (recent now (ledger orgKey ops)) in
  if reaches spent limit then MkBudget false spent limit else MkBudget (negb (reaches org orgLimit)) org orgLimit.

Lemma recent_recent now t l : t <= now -> recent now (recent t l) = recent now l.
Proof.
  intros Ht. unfold recent. induction l as [|e l IH]; [done|]. cbn. destruct (t - windowMs <=? sp_at e) eqn:E; cbn; [by rewrite IH|].
  to_prop. rewrite (proj2 (Z.leb_gt _ _)) by lia. done.
Qed.

(** The register agrees with the ledger on what is still recent. *)
Definition agrees (t : Z) (s : jsmap string (list Spend)) (ops : list BudgetOp) : Prop :=
  forall key now, t <= now -> recent now ((s !! key) ?? []) = recent now (ledger key ops).

Lemma ledger_snoc key ops o : ledger key (ops ++ [o]) = (ledger key ops ++ charges key o)%list.
Proof. unfold ledger. by rewrite map_app, concat_app; cbn; rewrite app_nil_r. Qed.

Lemma spentIn_agrees key t s ops :
  agrees t s ops -> agrees t (spentIn windowMs key t s).1 ops /\ (spentIn windowMs key t s).2 = total (recent t (ledger key ops)).
Proof.
  intros Ha. unfold spentIn. cbn [fst snd]. split; [|f_equal; apply (Ha key t); lia].
  intros k now Hn. destruct (decide (key = k)) as [->|Hne]; [|rewrite lookup_set_ne by done; by apply Ha].
  rewrite lookup_set_eq. cbn [from_option id]. change (js_filter _ _) with (recent t ((s !! k) ?? [])).
  rewrite recent_recent by done. by apply Ha.
Qed.

Lemma check_agrees p t s ops :
  agrees t s ops -> agrees t (check_budget limit orgLimit windowMs p t s).1 ops /\
  (check_budget limit orgLimit windowMs p t s).2 = verdict_of p t ops.
Proof.
  intros Ha. unfold check_budget, verdict_of. pose proof (spentIn_agrees p t s ops Ha) as [Ha1 Ht1].
  destruct (spentIn windowMs p t s) as [s1 spent]. cbn in Ha1, Ht1. subst spent. destruct (reaches _ limit); [done|].
  pose proof (spentIn_agrees orgKey t s1 ops Ha1) as [Ha2 Ht2]. destruct (spentIn windowMs orgKey t s1) as [s2 spent]. cbn in *. by subst.
Qed.

Lemma step_agrees o t s ops :
  op_principal o <> orgKey -> t <= op_time o -> agrees t s ops -> agrees (op_time o) (budget_step s o) (ops ++ [o]).
Proof.
  intros Hp Ht Ha. assert (Ha' : agrees (op_time o) s ops) by (intros k now Hn; apply Ha; lia).
  destruct o as [p usd now|p now]; cbn [op_time op_principal budget_step] in *.
  - intros key n Hn. rewrite ledger_snoc. unfold recent. rewrite js_filter_app. fold (recent n (ledger key ops)).
    rewrite <- (Ha' key n Hn). unfold record_spend. cbn [fold_left charges].
    assert (Hneq : p <> orgKey) by done. destruct (decide (key = orgKey)) as [->|Hk].
    + rewrite lookup_set_eq, lookup_set_ne, eqb_refl by done. cbn [from_option id orb]. by rewrite js_filter_app.
    + rewrite lookup_set_ne by done. rewrite (proj2 (eqb_false key orgKey)) by done. destruct (decide (key = p)) as [->|Hkp].
      * rewrite lookup_set_eq, eqb_refl. cbn [from_option id orb]. by rewrite js_filter_app.
      * rewrite lookup_set_ne by done. rewrite (proj2 (eqb_false key p)) by done. cbn [orb js_filter]. by rewrite app_nil_r.
  - intros key n Hn. rewrite ledger_snoc. cbn [charges]. rewrite app_nil_r. by apply (check_agrees p now s ops Ha').
Qed.

Lemma run_agrees ops :
  (forall o, o ∈ ops -> op_principal o <> orgKey) -> StronglySorted (fun a b => op_time a <= op_time b) ops ->
  forall now, (forall o, o ∈ ops -> op_time o <= now) -> agrees now (budget_run ops) ops.
Proof.
  intros Hp. induction ops as [|o ops IH] using rev_ind; intros Hs now Hn; [done|].
  unfold budget_run in *. rewrite fold_left_app. cbn [fold_left].
  assert (Hle : forall o', o' ∈ ops -> op_time o' <= op_time o).
  { clear -Hs. induction ops as [|a ops IH]; [set_solver|]. apply StronglySorted_inv in Hs as [Hs Ha]. rewrite Forall_forall in Ha.
    intros o' [->|Hin]%elem_of_cons; [apply Ha; set_solver|by apply IH]. }
  assert (Hs' : StronglySorted (fun a b => op_time a <= op_time b) ops).
  { clear -Hs. induction ops as [|a ops IH]; [constructor|]. apply StronglySorted_inv in Hs as [Hs Ha].
    constructor; [by apply IH|]. rewrite Forall_forall in *. intros x Hx. apply Ha. set_solver. }
  assert (Ho : agrees (op_time o) (fold_left budget_step ops ∅) ops) by (apply IH; [set_solver|done|done]).
  intros key n Hk. apply (step_agrees o (op_time o)); [apply Hp; set_solver|lia|done|]. transitivity now; [apply Hn; set_solver|done].
Qed.

(** The budget is exact: while the clock does not run backwards, a check answers what the full
    ledger of every charge ever made justifies, the person's recent spending against their limit
    and then everybody's against the organisation's, whatever the register has forgotten. *)
Theorem budget_exact p now ops :
  (forall o, o ∈ ops -> op_principal o <> orgKey) -> StronglySorted (fun a b => op_time a <= op_time b) ops ->
  (forall o, o ∈ ops -> op_time o <= now) ->
  (check_budget limit orgLimit windowMs p now (budget_run ops)).2 = verdict_of p now ops.
Proof. intros Hp Hs Hn. by apply check_agrees, run_agrees. Qed.
End ledger.

(** ** Runs *)

Example rate_bounded_witness :
  Z.of_nat (length (passed_in "U1" 0 (0 + 10) (calls 2 10 [(0, "U1"); (9, "U1"); (9, "U1"); (10, "U1")]%string ∅ []).2)) <= 2 * Z.max 1 2.
Proof.
  apply (rate_bounded "U1" 2 10 [(0, "U1"); (9, "U1"); (9, "U1"); (10, "U1")]%string 0); [lia|].
  repeat (apply SSorted_cons; [|repeat (apply Forall_cons_2; [cbn; lia|]); apply Forall_nil_2]). apply SSorted_nil.
Defined.

Example budget_exact_witness :
  (check_budget (Some 10) None 100 "U1" 150 (budget_run (Some 10) None 100 [op_record "U1" 9 20; op_check "U2" 130; op_record "U1" 4 130])).2
  = MkBudget true 4 None.
Proof.
  refine (budget_exact (Some 10) None 100 "U1" 150 [op_record "U1" 9 20; op_check "U2" 130; op_record "U1" 4 130] _ _ _).
  - intros o Ho. repeat (apply elem_of_cons in Ho as [->|Ho]; [discriminate|]). by apply not_elem_of_nil in Ho.
  - repeat (apply SSorted_cons; [|repeat (apply Forall_cons_2; [cbn; lia|]); apply Forall_nil_2]). apply SSorted_nil.
  - intros o Ho. repeat (apply elem_of_cons in Ho as [->|Ho]; [cbn; lia|]). by apply not_elem_of_nil in Ho.
Defined.
