(* ===== verification/TurnStream.v ===== *)
(** * The live stream of a turn

    What a run has said so far, for those who watch it ([src/src/runs/turn-stream.ts]), what it
    did ([src/src/runs/run-activity-store.ts]) and who is told of a session's state
    ([src/src/runs/session-state-bus.ts]).  A listener is a number; calls of listeners are
    logged, and a listener of the stream does not throw.  A timer is a number too, and its
    firing a step of its own.  The sets of listeners are objects, because [subscribe] hands out
    a closure that keeps one. *)

From S2P Require Import Prelude JsString Json.
#[local] Open Scope string_scope.
#[local] Open Scope Z_scope.

(** ** The stream *)

(** [Entry] src/src/runs/turn-stream.ts:23-33 *)
Record Entry := MkEntry {
  text : string; firstBlock_ : string; firstBlockOpen : bool; firstBlockClosed : bool;
  surfacePosted_ : bool; live : bool; replying_ : bool; replyDone : bool; timer : option nat;
}.
#[export] Instance Entry_eta : Eta Entry := fun e =>
  MkEntry e.(text) e.(firstBlock_) e.(firstBlockOpen) e.(firstBlockClosed) e.(surfacePosted_) e.(live) e.(replying_)
    e.(replyDone) e.(timer).

(** [DEFAULT_MAX_CHARS] src/src/runs/turn-stream.ts:40-40 *)
Definition DEFAULT_MAX_CHARS : Z := 200000.
(** [FIRST_BLOCK_MAX_CHARS] src/src/runs/turn-stream.ts:42-42 *)
Definition FIRST_BLOCK_MAX_CHARS : nat := Z.to_nat 20000.
(** [BLOCK_JOIN] src/src/runs/turn-stream.ts:43-43 *)
Definition BLOCK_JOIN : string := String "010" (String "010" "").

(** [makeEntry] src/src/runs/turn-stream.ts:45-58 *)
Definition makeEntry : Entry := MkEntry "" "" true false false true true false None.

(** What listeners are told, src/src/runs/turn-stream.ts:18-21 *)
Inductive Notice := OnFirstBlock (listener : nat) (text : string) | OnSurfacePosted (listener : nat).

(** The closure of [createTurnStream] src/src/runs/turn-stream.ts:60-64
    [listeners] names for each run its set in [sets]; [timers] are the timers that run, with
    the run each will forget. *)
Record Stream := MkStream {
  runs : jsmap string Entry;
  listeners : jsmap string nat;
  sets : jsmap nat (list nat);
  timers : jsmap nat string;
  fresh : nat;
  told : list (string * Notice);
}.
#[export] Instance Stream_eta : Eta Stream := fun s =>
  MkStream s.(runs) s.(listeners) s.(sets) s.(timers) s.(fresh) s.(told).
Definition empty_stream : Stream := MkStream ∅ ∅ ∅ ∅ 0 [].

Section stream.
(** The option [maxChars]. *)
Variable maxChars : nat.

(** [ensure] src/src/runs/turn-stream.ts:66-73 *)
Definition ensure (runId : string) (s : Stream) : Entry := (s.(runs) !! runId) ?? makeEntry.
Definition put (runId : string) (e : Entry) (s : Stream) : Stream := s <| runs ::= <[runId := e]> |>.
(** Everybody who listens to a run is told. *)
Definition tell_all (runId : string) (n : nat -> Notice) (s : Stream) : Stream :=
  match s.(listeners) !! runId with
  | None => s
  | Some set => s <| told ::= fun l => (l ++ map (fun x => (runId, n x)) ((s.(sets) !! set) ?? []))%list |>
  end.

(** [begin] src/src/runs/turn-stream.ts:76-82 *)
Definition begin (runId : string) (s : Stream) : Stream :=
  match s.(runs) !! runId with
  | Some e => put runId (e <| replying_ := true |> <| live := true |>) s
  | None => put runId makeEntry s
  end.

(** [alive] src/src/runs/turn-stream.ts:84-86 *)
Definition alive (runId : string) (s : Stream) : bool := from_option live false (s.(runs) !! runId).
(** [replying] src/src/runs/turn-stream.ts:88-90 *)
Definition replying (runId : string) (s : Stream) : bool := from_option replying_ false (s.(runs) !! runId).

(** [(t + delta).slice(0, n)] while [t] is shorter than [n]. *)
Definition grow (n : nat) (t delta : string) : string :=
  if Nat.ltb (String.length t) n then str_take n (t ++ delta) else t.

(** [publish] src/src/runs/turn-stream.ts:92-104 *)
Definition publish (runId delta : string) (s : Stream) : Stream :=
  if negb (truthy delta) then s else
  let e := ensure runId s in
  let s := match e.(timer) with Some t => s <| timers ::= delete t |> | None => s end in
  put runId
    (e <| replying_ := true |> <| live := true |> <| timer := None |>
       <| firstBlock_ := if e.(firstBlockOpen) then grow FIRST_BLOCK_MAX_CHARS e.(firstBlock_) delta else e.(firstBlock_) |>
       <| text := grow maxChars e.(text) delta |>) s.

(** [publishBlockStart] src/src/runs/turn-stream.ts:106-112 *)
Definition publishBlockStart (runId : string) (s : Stream) : Stream :=
  match s.(runs) !! runId with
  | None => s
  | Some e =>
      let e := if truthy e.(firstBlock_) then e <| firstBlockOpen := false |> else e in
      if negb (truthy e.(text)) || ends_with e.(text) BLOCK_JOIN then put runId e s
      else put runId (e <| text := grow maxChars e.(text) BLOCK_JOIN |>) s
  end.

(** [noteToolCall] src/src/runs/turn-stream.ts:114-122 *)
Definition noteToolCall (runId : string) (s : Stream) : Stream :=
  let e := ensure runId s in
  if negb e.(firstBlockOpen) then put runId e s else
  let closed := truthy (trim e.(firstBlock_)) in
  let s := put runId (e <| firstBlockOpen := false |> <| firstBlockClosed := closed |>) s in
  if closed then tell_all runId (fun l => OnFirstBlock l e.(firstBlock_)) s else s.

(** [firstBlock] src/src/runs/turn-stream.ts:124-128 *)
Definition firstBlock (runId : string) (s : Stream) : option (string * bool) :=
  e ← s.(runs) !! runId;
  if negb (truthy (trim e.(firstBlock_))) then None else Some (e.(firstBlock_), e.(firstBlockClosed)).

(** [markSurfacePosted] src/src/runs/turn-stream.ts:130-135 *)
Definition markSurfacePosted (runId : string) (s : Stream) : Stream :=
  let e := ensure runId s in
  if e.(surfacePosted_) then put runId e s
  else tell_all runId OnSurfacePosted (put runId (e <| surfacePosted_ := true |>) s).

(** [surfacePosted] src/src/runs/turn-stream.ts:137-139 *)
Definition surfacePosted (runId : string) (s : Stream) : bool := from_option surfacePosted_ false (s.(runs) !! runId).

(** [snapshot] src/src/runs/turn-stream.ts:141-144 *)
Definition snapshot (runId : string) (s : Stream) : option string := if_truthy (text <$> s.(runs) !! runId).

(** [markReplyDone] src/src/runs/turn-stream.ts:146-150 *)
Definition markReplyDone (runId : string) (s : Stream) : Stream := put runId ((ensure runId s) <| replyDone := true |>) s.
(** [isReplyDone] src/src/runs/turn-stream.ts:152-154 *)
Definition isReplyDone (runId : string) (s : Stream) : bool := from_option replyDone false (s.(runs) !! runId).

(** [end] src/src/runs/turn-stream.ts:156-164 *)
Definition end_ (runId : string) (s : Stream) : Stream :=
  match s.(runs) !! runId with
  | None => s
  | Some e =>
      let e := e <| live := false |> in
      match e.(timer) with
      | Some _ => put runId e s
      | None => put runId (e <| timer := Some s.(fresh) |>) (s <| timers ::= <[s.(fresh) := runId]> |> <| fresh := S s.(fresh) |>)
      end
  end.

(** A timer fires, src/src/runs/turn-stream.ts:161-161 *)
Definition fire (t : nat) (s : Stream) : Stream :=
  match s.(timers) !! t with
  | None => s
  | Some runId => s <| timers ::= delete t |> <| runs ::= delete runId |>
  end.

(** [subscribe] src/src/runs/turn-stream.ts:166-173
    The answer is the set the function it returns keeps. *)
Definition subscribe (runId : string) (listener : nat) (s : Stream) : Stream * nat :=
  let '(set, s) := match s.(listeners) !! runId with
                   | Some set => (set, s)
                   | None => (s.(fresh), s <| listeners ::= <[runId := s.(fresh)]> |> <| fresh := S s.(fresh) |>)
                   end in
  let l := (s.(sets) !! set) ?? [] in
  (s <| sets ::= <[set := if includes l listener then l else (l ++ [listener])%list]> |>, set).

(** The function [subscribe] returns, src/src/runs/turn-stream.ts:173-176 *)
Definition unsubscribe (runId : string) (set listener : nat) (s : Stream) : Stream :=
  let l := js_filter (fun x => x !== listener) ((s.(sets) !! set) ?? []) in
  let s := s <| sets ::= <[set := l]> |> in
  if Nat.eqb (length l) 0 && (s.(listeners) !! runId === Some set) then s <| listeners ::= delete runId |> else s.

(** ** Steps *)

Inductive StreamOp :=
| Begin (runId : string) | Publish (runId delta : string) | BlockStart (runId : string) | ToolCall (runId : string)
| SurfacePosted (runId : string) | ReplyDone (runId : string) | End_ (runId : string) | Fire (timer : nat)
| Subscribe (runId : string) (listener : nat) | Unsubscribe (runId : string) (set listener : nat).

Definition apply (o : StreamOp) (s : Stream) : Stream :=
  match o with
  | Begin r => begin r s | Publish r d => publish r d s | BlockStart r => publishBlockStart r s
  | ToolCall r => noteToolCall r s | SurfacePosted r => markSurfacePosted r s | ReplyDone r => markReplyDone r s
  | End_ r => end_ r s | Fire t => fire t s | Subscribe r l => (subscribe r l s).1 | Unsubscribe r set l => unsubscribe r set l s
  end.
Definition apply_all (ops : list StreamOp) (s : Stream) : Stream := fold_left (fun s o => apply o s) ops s.
End stream.

(** ** What was said, in full *)

Lemma str_take_all n w : (String.length w <= n)%nat -> str_take n w = w.
Proof. revert n. induction w as [|c w IH]; intros [|n] Hn; cbn in *; try done; try lia. f_equal. apply IH. lia. Qed.
Lemma str_take_app n w d : (n <= String.length w)%nat -> str_take n (w ++ d) = str_take n w.
Proof. revert n. induction w as [|c w IH]; intros [|n] Hn; cbn in *; try done; try lia; try (by destruct d). f_equal. apply IH. lia. Qed.

(** Growing the head of a text is taking the head of the grown text. *)
Lemma grow_take n w d : grow n (str_take n w) d = str_take n (w ++ d).
Proof.
  unfold grow. rewrite length_str_take. destruct (Nat.ltb _ n) eqn:E.
  - apply Nat.ltb_lt in E. by rewrite (str_take_all n w) by lia.
  - apply Nat.ltb_ge in E. by rewrite str_take_app by lia.
Qed.

(** Everything a run said, its first block, and whether that is still open. *)
Record Said := MkSaid { whole : string; first : string; open_ : bool }.
#[export] Instance Said_eta : Eta Said := fun x => MkSaid x.(whole) x.(first) x.(open_).
Definition nothing_said : Said := MkSaid "" "" true.

(** The stream without bounds: what a step adds to what was said; [s] is the stream before it. *)
Definition say (o : StreamOp) (s : Stream) (m : jsmap string Said) : jsmap string Said :=
  match o with
  | Begin r | SurfacePosted r | ReplyDone r => <[r := (m !! r) ?? nothing_said]> m
  | Publish r d =>
      if negb (truthy d) then m else
      let x := (m !! r) ?? nothing_said in
      <[r := MkSaid (x.(whole) ++ d) (if x.(open_) then x.(first) ++ d else x.(first)) x.(open_)]> m
  | BlockStart r =>
      match m !! r with
      | None => m
      | Some x => <[r := MkSaid (if negb (truthy x.(whole)) || ends_with x.(whole) BLOCK_JOIN then x.(whole) else x.(whole) ++ BLOCK_JOIN)
                           x.(first) (if truthy x.(first) then false else x.(open_))]> m
      end
  | ToolCall r => <[r := ((m !! r) ?? nothing_said) <| open_ := false |>]> m
  | Fire t => match s.(timers) !! t with Some r => delete r m | None => m end
  | End_ _ | Subscribe _ _ | Unsubscribe _ _ _ => m
  end.

Fixpoint run_both (maxChars : nat) (ops : list StreamOp) (s : Stream) (m : jsmap string Said) : Stream * jsmap string Said :=
  match ops with [] => (s, m) | o :: ops => run_both maxChars ops (apply maxChars o s) (say o s m) end.

Definition shows (maxChars : nat) (e : Entry) (x : Said) : Prop :=
  e.(text) = str_take maxChars x.(whole) /\ e.(firstBlock_) = str_take FIRST_BLOCK_MAX_CHARS x.(first) /\
  e.(firstBlockOpen) = x.(open_).
Definition stream_shows (maxChars : nat) (s : Stream) (m : jsmap string Said) : Prop :=
  forall r, match s.(runs) !! r, m !! r with
            | Some e, Some x => shows maxChars e x
            | None, None => True
            | _, _ => False
            end.

Section shows.
Variable maxChars : nat.
Abbreviation shows := (shows maxChars).
Abbreviation stream_shows := (stream_shows maxChars).

Lemma shows_new : shows makeEntry nothing_said.
Proof. unfold TurnStream.shows. cbn. destruct maxChars; [done|]. by split_and!. Qed.

Lemma stream_shows_put s m r e x : stream_shows s m -> shows e x -> stream_shows (put r e s) (<[r := x]> m).
Proof.
  intros Hs He r'. unfold put. cbn. destruct (decide (r = r')) as [->|Hne]; [by rewrite !lookup_set_eq|].
  rewrite !lookup_set_ne by done. apply Hs.
Qed.

Lemma ensure_shows s m r : stream_shows s m -> shows (ensure r s) ((m !! r) ?? nothing_said).
Proof.
  intros Hs. specialize (Hs r). unfold ensure. destruct (runs s !! r), (m !! r); try done. apply shows_new.
Qed.

Lemma stream_shows_same s s' m : s'.(runs) = s.(runs) -> stream_shows s m -> stream_shows s' m.
Proof. intros Hr Hs r. rewrite Hr. apply Hs. Qed.

Lemma truthy_first x : truthy (str_take FIRST_BLOCK_MAX_CHARS x) = truthy x.
Proof.
  unfold truthy. destruct x as [|c x]; [by destruct FIRST_BLOCK_MAX_CHARS|].
  assert (0 < FIRST_BLOCK_MAX_CHARS)%nat by (unfold FIRST_BLOCK_MAX_CHARS; lia). destruct FIRST_BLOCK_MAX_CHARS; [lia|done].
Qed.

(** The break between two blocks. *)
Lemma block_take w :
  (if negb (truthy (str_take maxChars w)) || ends_with (str_take maxChars w) BLOCK_JOIN then str_take maxChars w
   else grow maxChars (str_take maxChars w) BLOCK_JOIN) =
  str_take maxChars (if negb (truthy w) || ends_with w BLOCK_JOIN then w else w ++ BLOCK_JOIN).
Proof.
  destruct (Nat.le_gt_cases maxChars (String.length w)) as [Hl|Hl].
  - assert (Hb : forall b : bool, str_take maxChars (if b then w else w ++ BLOCK_JOIN) = str_take maxChars w)
      by (intros []; [done|by apply str_take_app]).
    rewrite Hb, grow_take, str_take_app by done. by destruct (_ || _).
  - rewrite (str_take_all maxChars w) by lia. destruct (_ || _); [by rewrite str_take_all by lia|].
    by rewrite <- (str_take_all maxChars w) at 1 by lia; rewrite grow_take.
Qed.

Lemma apply_shows o s m : stream_shows s m -> stream_shows (apply maxChars o s) (say o s m).
Proof.
  intros Hs. pose proof (ensure_shows s m) as He. destruct o as [r|r d|r|r|r|r|r|t|r l|r set l]; cbn [apply say].
  - specialize (He r Hs). unfold ensure in He. unfold begin. destruct (runs s !! r); by apply stream_shows_put.
  - unfold publish. destruct (negb (truthy d)); [done|]. specialize (He r Hs). set (s' := match timer _ with Some _ => _ | None => s end).
    apply stream_shows_put; [apply (stream_shows_same s); [|done]; unfold s'; by destruct (timer _)|].
    destruct He as (Ht & Hf & Ho). unfold TurnStream.shows. cbn. rewrite Ht, Hf, Ho, grow_take. split_and!; try done.
    destruct (open_ _); [apply grow_take|done].
  - pose proof (Hs r) as Hr. unfold publishBlockStart. destruct (runs s !! r) as [e|], (m !! r) as [x|]; try done.
    destruct Hr as (Ht & Hf & Ho). rewrite <- (truthy_first (first x)), <- Hf.
    set (e' := if truthy (firstBlock_ e) then _ else e).
    assert (He' : text e' = text e /\ firstBlock_ e' = firstBlock_ e /\ firstBlockOpen e' = if truthy (firstBlock_ e) then false else firstBlockOpen e)
      by (unfold e'; by destruct (truthy _)).
    destruct He' as (H1 & H2 & H3). rewrite H1, Ht. pose proof (block_take (whole x)) as Hb.
    destruct (negb _ || ends_with (str_take _ _) _); (apply stream_shows_put; [done|]); unfold TurnStream.shows; cbn;
      rewrite ?H1, ?H2, ?H3, ?Ht, ?Hf, ?Ho; by rewrite <- Hb.
  - specialize (He r Hs). unfold noteToolCall. destruct He as (Ht & Hf & Ho). destruct (negb (firstBlockOpen _)) eqn:E.
    + apply stream_shows_put; [done|]. apply negb_true_iff in E. unfold TurnStream.shows. cbn. by rewrite Ht, Hf, E.
    + assert (Hp : stream_shows (put r ((ensure r s) <| firstBlockOpen := false |> <| firstBlockClosed := truthy (trim (firstBlock_ (ensure r s))) |>) s)
        (<[r := ((m !! r) ?? nothing_said) <| open_ := false |>]> m)) by (apply stream_shows_put; [exact Hs|]; split; [exact Ht|split; [exact Hf|reflexivity]]).
      destruct (truthy (trim _)); [|done]. eapply stream_shows_same; [|exact Hp]. unfold tell_all. by destruct (listeners _ !! r).
  - specialize (He r Hs). unfold markSurfacePosted. destruct (surfacePosted_ _); [by apply stream_shows_put|].
    eapply stream_shows_same; [|apply (stream_shows_put s m r ((ensure r s) <| surfacePosted_ := true |>)); [done|exact He]].
    unfold tell_all. by destruct (listeners _ !! r).
  - apply stream_shows_put; [done|]. exact (He r Hs).
  - unfold end_. pose proof (Hs r) as Hr. destruct (runs s !! r) as [e|] eqn:Er; [|done]. destruct (m !! r) as [x|] eqn:Ex; [|done].
    assert (Hput : forall e' s', s'.(runs) = s.(runs) -> shows e' x -> stream_shows (put r e' s') m).
    { intros e' s' Hr' He'' r'. unfold put. cbn. rewrite Hr'. destruct (decide (r = r')) as [<-|Hne]; [by rewrite lookup_set_eq, Ex|].
      rewrite lookup_set_ne by done. apply Hs. }
    destruct (timer _); by apply Hput.
  - unfold fire. destruct (timers s !! t) as [r|]; [|done]. intros r'. cbn. rewrite !lookup_del.
    destruct (decide (r = r')); [done|]. apply Hs.
  - eapply stream_shows_same; [|exact Hs]. unfold subscribe. by destruct (listeners s !! r).
  - eapply stream_shows_same; [|exact Hs]. unfold unsubscribe. by destruct (_ && _).
Qed.

Lemma run_both_shows ops s m :
  stream_shows s m -> let '(s', m') := run_both maxChars ops s m in stream_shows s' m'.
Proof.
  revert s m. induction ops as [|o ops IH]; intros s m Hs; [done|]. cbn. apply IH, apply_shows, Hs.
Qed.
End shows.

(** The stream shows the head of what was said: whatever is published, joined, ended, forgotten
    and begun again, the text a watcher sees is the beginning of everything the run said since
    it was last forgotten, as long as the bound allows, and its first block the beginning of
    what it said before the first break or call of a tool. *)
Theorem stream_is_prefix maxChars ops r :
  let '(s, m) := run_both maxChars ops empty_stream ∅ in
  snapshot r s = if_truthy (str_take maxChars <$> (whole <$> m !! r)) /\
  firstBlock r s = (x ← m !! r;
    let f := str_take FIRST_BLOCK_MAX_CHARS x.(first) in
    if negb (truthy (trim f)) then None else Some (f, from_option firstBlockClosed false (s.(runs) !! r))).
Proof.
  pose proof (run_both_shows maxChars ops empty_stream ∅) as Hr. destruct (run_both _ ops _ _) as [s m].
  specialize (Hr (fun _ => I) r). unfold snapshot, firstBlock.
  destruct (runs s !! r) as [e|], (m !! r) as [x|]; try done. destruct Hr as (Ht & Hf & _). cbn. by rewrite Ht, Hf.
Qed.

(** A run that begins again while its entry waits to be forgotten is forgotten all the same: it is being
    worked on, has not ended, and is not alive; only a published text would have kept it. *)
Example begin_after_end_forgotten :
  let s := apply_all 100 [Begin "r"; Publish "r" "a"; End_ "r"; Begin "r"] empty_stream in
  alive "r" s = true /\ alive "r" (fire 0 s) = false /\ snapshot "r" (fire 0 s) = None /\
  alive "r" (fire 0 (publish 100 "r" "b" s)) = true.
Proof. vm_compute. done. Qed.

(** ** Run activity *)

(** [RunActivityEntry] src/src/runs/run-activity-store.ts:1-7 *)
Record RunActivityEntry := MkActivity { ra_seq : Z; parentSeq : option Z; ra_type : string; ra_payload : Json; ra_createdAt : Z }.
(** [RUN_ACTIVITY_TTL_MS] src/src/runs/run-activity-store.ts:15-15 *)
Definition RUN_ACTIVITY_TTL_MS : Z := 60 * 60000.
(** [MAX_PER_RUN] src/src/runs/run-activity-store.ts:16-16 *)
Definition MAX_PER_RUN : nat := Z.to_nat 2000.
(** [PRUNE_INTERVAL_MS] src/src/runs/run-activity-store.ts:17-17 *)
Definition ACTIVITY_PRUNE_INTERVAL_MS : Z := 60000.

(** [createMemoryRunActivityStore] src/src/runs/run-activity-store.ts:19-21 *)
Record Activity := MkActivities { act_runs : jsmap string (list RunActivityEntry); act_nextPruneAt : option Z }.

(** The pruning of [append] src/src/runs/run-activity-store.ts:25-33 *)
Definition prune_activity (t : Z) (s : Activity) : Activity :=
  if match s.(act_nextPruneAt) with None => true | Some n => n <=? t end then
    let kept l := js_filter (fun e => t - RUN_ACTIVITY_TTL_MS <=? e.(ra_createdAt)) l in
    MkActivities
      (fold_left (fun m '(id, l) => if Nat.ltb 0 (length (kept l)) then <[id := kept l]> m else delete id m)
         (entries s.(act_runs)) s.(act_runs))
      (Some (t + ACTIVITY_PRUNE_INTERVAL_MS))
  else s.

(** [append] src/src/runs/run-activity-store.ts:23-37 *)
Definition append_activity (t : Z) (runId : string) (entry : RunActivityEntry) (s : Activity) : Activity :=
  let s := prune_activity t s in
  let l := (s.(act_runs) !! runId) ?? [] in
  MkActivities (<[runId := if Nat.ltb (length l) MAX_PER_RUN then (l ++ [entry])%list else l]> s.(act_runs)) s.(act_nextPruneAt).

(** [list] src/src/runs/run-activity-store.ts:38-40 *)
Definition list_activity (runId : string) (s : Activity) : list RunActivityEntry := (s.(act_runs) !! runId) ?? [].

(** ** The bus of session states *)

(** [SessionState] src/src/runs/session-state-bus.ts:3-3 *)
Inductive SessionState := working | awaiting_approval | idle.
(** [SessionStateEvent] src/src/runs/session-state-bus.ts:5-11 *)
Record SessionStateEvent := MkStateEvent {
  se_threadRef : string; se_sessionId : option string; se_participants : option (list string); se_state : SessionState; se_at : Z;
}.

(** [emit] src/src/runs/session-state-bus.ts:22-30
    The calls made; a listener that throws ([bad]) does not keep the next from being called. *)
Definition emit (bad : nat -> bool) (event : SessionStateEvent) (subscribers : list nat) : list (nat * SessionStateEvent * bool) :=
  map (fun cb => (cb, event, bad cb)) subscribers.
(** [subscribe] src/src/runs/session-state-bus.ts:31-34 *)
Definition bus_subscribe (cb : nat) (subscribers : list nat) : list nat :=
  if includes subscribers cb then subscribers else (subscribers ++ [cb])%list.
(** The function it returns, src/src/runs/session-state-bus.ts:33-33 *)
Definition bus_unsubscribe (cb : nat) (subscribers : list nat) : list nat := js_filter (fun x => x !== cb) subscribers.
