(* ===== verification/Transcript.v ===== *)
(** * Transcripts

    What a client is shown of a session log ([src/src/sessions/session-store.ts]): previews of
    what a person wrote, the shortening of tool payloads, and the window of a transcript that
    is sent at once.  Payloads are JSON values. *)

From stdpp Require Import pretty.
From S2P Require Import Prelude JsString Json ThreadRef.

(** [SessionEntry] src/src/types.ts:119-127 *)
Record SessionEntry := MkEntry {
  e_sessionId : string;
  e_seq : Z;
  e_parentSeq : option Z;
  e_type : EntryType;
  e_payload : Json;
  e_scopeLabel : string;
  e_createdAt : Z;
}.

(** ** Previews *)

Definition newline_char : ascii := "010".

(** [s.split(sep)] where [sep] is two newlines. *)
Fixpoint split_blank_line (s : string) : list string :=
  match s with
  | "" => [""]
  | String a s' =>
      match s' with
      | String b s'' =>
          if decide (a = newline_char /\ b = newline_char) then "" :: split_blank_line s''
          else match split_blank_line s' with
               | [] => [String a ""]
               | w :: ws => String a w :: ws
               end
      | "" => [String a ""]
      end
  end%string.

Definition blank_line : string := String newline_char (String newline_char "").

(** [userMessagePreview] src/src/sessions/session-store.ts:344-348 *)
Definition payload_text (payload : Json) : string :=
  match payload with JStr s => s | _ => str_field "text" payload ?? "" end.

(** [userMessagePreview] src/src/sessions/session-store.ts:349-354
    Paragraphs that open with a bracket are the host's notes to the agent. *)
Definition preview_kept (text : string) : string :=
  let kept := trim (join blank_line
    (js_filter (fun p => negb (starts_with (trim_start p) "[")) (split_blank_line text))) in
  if truthy kept then kept else trim text.

(** [userMessagePreview] src/src/sessions/session-store.ts:343-357 *)
Definition userMessagePreview (payload : Json) (maxLen : nat) : string :=
  let oneLine := trim (squeeze (preview_kept (payload_text payload))) in
  if (maxLen <? String.length oneLine)%nat then str_take (maxLen - 1) oneLine +:+ "…" else oneLine.
Definition default_preview : nat := 160.

(** [isOverheardEntry] src/src/sessions/session-store.ts:470-472 *)
Definition isOverheardEntry (e : SessionEntry) : bool :=
  (e.(e_type) === user) &&
  match field "overheard" e.(e_payload) with Some (JBool true) => true | _ => false end.

(** [transcriptEntries] src/src/sessions/session-store.ts:359-361 *)
Definition transcriptEntries (l : list SessionEntry) : list SessionEntry :=
  js_filter (fun e => e.(e_type) !== soul) l.

(** ** Sizes *)

(** [TRANSCRIPT_BYTE_BUDGET] src/src/sessions/session-store.ts:363-363 *)
Definition TRANSCRIPT_BYTE_BUDGET : Z := 400000.
(** [ENTRY_STRING_BUDGET] src/src/sessions/session-store.ts:364-364 *)
Definition ENTRY_STRING_BUDGET : Z := 2000.
(** [WALK_DEPTH] src/src/sessions/session-store.ts:369-369 *)
Definition WALK_DEPTH : nat := 8.

(** The length of [JSON.stringify(v)]. *)
Definition escape_length (c : ascii) : Z :=
  let n := N_of_ascii c in
  if (n =? 34)%N || (n =? 92)%N then 2
  else if (n =? 8)%N || (n =? 9)%N || (n =? 10)%N || (n =? 12)%N || (n =? 13)%N then 2
  else if (n <? 32)%N then 6 else 1.
Fixpoint json_string_length (s : string) : Z :=
  match s with "" => 2 | String c s => escape_length c + json_string_length s end%string.
Fixpoint json_length (v : Json) : Z :=
  match v with
  | JNull => 4
  | JBool b => if b then 4 else 5
  | JNum n => str_len (pretty n)
  | JStr s => json_string_length s
  | JArr l => 2 + foldr (fun x n => json_length x + n) 0 l + Z.max 0 (Z.of_nat (length l) - 1)
  | JObj fs =>
      2 + foldr (fun kv n => json_string_length kv.1 + 1 + json_length kv.2 + n) 0 fs
        + Z.max 0 (Z.of_nat (length fs) - 1)
  end.

(** [payloadBytes] src/src/sessions/session-store.ts:412-429 *)
Fixpoint payloadBytes (value : Json) (depth : nat) : Z :=
  match value with
  | JStr s => str_len s + 2
  | JNull | JBool _ | JNum _ => 8
  | JArr l =>
      if (WALK_DEPTH <=? depth)%nat then json_length value
      else foldl (fun bytes x => bytes + (payloadBytes x (S depth) + 1)) 2 l
  | JObj fs =>
      if (WALK_DEPTH <=? depth)%nat then json_length value
      else foldl (fun bytes kv => bytes + (str_len kv.1 + payloadBytes kv.2 (S depth) + 4)) 2 fs
  end.

(** ** Shortening *)

(** [shortenStrings] src/src/sessions/session-store.ts:371-399
    The value, and whether anything was cut. *)
Fixpoint shortenStrings (value : Json) (depth : nat) : Json * bool :=
  match value with
  | JStr s =>
      if (ENTRY_STRING_BUDGET <? str_len s)%Z then (JStr (str_take (Z.to_nat ENTRY_STRING_BUDGET) s), true)
      else (value, false)
  | JNull | JBool _ | JNum _ => (value, false)
  | JArr l =>
      if (WALK_DEPTH <=? depth)%nat then
        if (ENTRY_STRING_BUDGET <? payloadBytes value depth)%Z then (JNull, true) else (value, false)
      else
        let walked := map (fun x => shortenStrings x (S depth)) l in
        if some snd walked then (JArr (map fst walked), true) else (value, false)
  | JObj fs =>
      if (WALK_DEPTH <=? depth)%nat then
        if (ENTRY_STRING_BUDGET <? payloadBytes value depth)%Z then (JNull, true) else (value, false)
      else
        let walked := map (fun kv => (kv.1, shortenStrings kv.2 (S depth))) fs in
        if some (fun w => w.2.2) walked then (JObj (map (fun w => (w.1, w.2.1)) walked), true) else (value, false)
  end.

(** [PROJECTED_TYPES] src/src/sessions/session-store.ts:368-368 *)
Definition PROJECTED_TYPES : list EntryType := [tool_call; tool_result].

(** [postsToTheConversation] src/src/sessions/session-store.ts:401-404 *)
Definition postsToTheConversation (e : SessionEntry) : bool :=
  (e.(e_type) === tool_call) &&
  match field "action" e.(e_payload) with Some (JStr s) => s === "post" | _ => false end.

(** [TranscriptEntry] src/src/sessions/session-store.ts:366-366 *)
Record TranscriptEntry := MkTranscriptEntry { tr_entry : SessionEntry; tr_truncated : bool }.

#[export] Instance SessionEntry_eta : Eta SessionEntry := fun e =>
  MkEntry e.(e_sessionId) e.(e_seq) e.(e_parentSeq) e.(e_type) e.(e_payload) e.(e_scopeLabel) e.(e_createdAt).

(** [projectEntry] src/src/sessions/session-store.ts:406-410 *)
Definition projectEntry (e : SessionEntry) : TranscriptEntry :=
  if negb (includes PROJECTED_TYPES e.(e_type)) || postsToTheConversation e then MkTranscriptEntry e false
  else let '(v, truncated) := shortenStrings e.(e_payload) 0 in
       if truncated then MkTranscriptEntry (e <| e_payload := v |>) true else MkTranscriptEntry e false.

(** ** The window *)

(** [windowedTranscript]'s window, src/src/sessions/session-store.ts:433-433 *)
Record Window := MkWindow { tailTurns : option Z; w_sinceSeq : option Z; w_beforeSeq : option Z }.

(** [windowedTranscript] src/src/sessions/session-store.ts:436-437
    The same cut serves [sinceSeq], src/src/sessions/session-store.ts:441-442. *)
Definition first_at_or_after (l : list SessionEntry) (seq : Z) : nat :=
  find_index (fun e => seq <=? e.(e_seq)) l ?? length l.

(** [windowedTranscript] src/src/sessions/session-store.ts:435-438 *)
Definition entries_before (w : option Window) (l : list SessionEntry) : list SessionEntry :=
  match w ≫= w_beforeSeq with Some b => take (first_at_or_after l b) l | None => l end.

(** [windowedTranscript] src/src/sessions/session-store.ts:444-451
    The backward walk over the entries below [i]; [0] when it ends without a break. *)
Fixpoint tail_cut (l : list SessionEntry) (tailTurns : Z) (i : nat) (turns : Z) : nat :=
  match i with
  | O => 0%nat
  | S i =>
      match l !! i with
      | Some e =>
          if e.(e_type) !== user then tail_cut l tailTurns i turns
          else if turns + 1 === tailTurns then i else tail_cut l tailTurns i (turns + 1)
      | None => 0%nat
      end
  end.

(** [windowedTranscript] src/src/sessions/session-store.ts:439-452 *)
Definition window_cut (w : option Window) (l : list SessionEntry) : nat :=
  match w with
  | None => 0%nat
  | Some w =>
      match w.(w_sinceSeq), w.(tailTurns) with
      | Some s, _ => first_at_or_after l s
      | None, Some n => if 0 <? n then tail_cut l n (length l) 0 else 0%nat
      | None, None => 0%nat
      end
  end.

(** [windowedTranscript] src/src/sessions/session-store.ts:455-462
    The walk over the entries below [from], which have cost [spend] so far. *)
Fixpoint spend_back (l : list TranscriptEntry) (from : nat) (spend : Z) : nat :=
  match from with
  | O => 0%nat
  | S i =>
      match l !! i with
      | Some e =>
          let bytes := payloadBytes e.(tr_entry).(e_payload) 0 in
          if (TRANSCRIPT_BYTE_BUDGET <? spend + bytes) && (S i <? length l)%nat then S i
          else spend_back l i (spend + bytes)
      | None => S i
      end
  end.

(** [windowedTranscript] src/src/sessions/session-store.ts:463-466 *)
Definition at_boundary (l : list TranscriptEntry) (from : nat) : nat :=
  if (0 <? from)%nat then
    match find_index (fun e => e.(tr_entry).(e_type) === user) (drop from l) with
    | Some k => (from + k)%nat
    | None => from
    end
  else from.

(** [windowedTranscript] src/src/sessions/session-store.ts:431-468 *)
Definition windowedTranscript (l : list SessionEntry) (w : option Window) : list TranscriptEntry * nat :=
  let l := entries_before w l in
  let cut := window_cut w l in
  let windowed := map projectEntry (if (0 <? cut)%nat then drop cut l else l) in
  if bool_decide (w = None) || is_some (w ≫= w_sinceSeq) then (windowed, cut)
  else
    let from := at_boundary windowed (spend_back windowed (length windowed) 0) in
    ((if (0 <? from)%nat then drop from windowed else windowed), (cut + from)%nat).

(** ** Shortened payloads fit *)

(** What a payload that is sent must satisfy: no long string where the walk goes, nothing
    large below it. *)
Fixpoint within_budget (value : Json) (depth : nat) : bool :=
  match value with
  | JStr s => (str_len s <=? ENTRY_STRING_BUDGET)%Z
  | JNull | JBool _ | JNum _ => true
  | JArr l =>
      if (WALK_DEPTH <=? depth)%nat then (payloadBytes value depth <=? ENTRY_STRING_BUDGET)%Z
      else forallb (fun x => within_budget x (S depth)) l
  | JObj fs =>
      if (WALK_DEPTH <=? depth)%nat then (payloadBytes value depth <=? ENTRY_STRING_BUDGET)%Z
      else forallb (fun kv => within_budget kv.2 (S depth)) fs
  end.

Lemma str_len_take n s : str_len (str_take n s) <= Z.of_nat n.
Proof.
  unfold str_len. apply Nat2Z.inj_le. revert s. induction n as [|n IH]; intros [|c s]; simpl; try lia.
  specialize (IH s). lia.
Qed.

#[local] Arguments payloadBytes : simpl never.
#[local] Opaque WALK_DEPTH ENTRY_STRING_BUDGET.

(** What [shortenStrings] must do at a value. *)
Definition shortens (v : Json) (d : nat) : Prop :=
  let '(v', t) := shortenStrings v d in
  within_budget v' d = true /\ t = negb (within_budget v d) /\ (t = false -> v' = v).

Lemma shortens_elim v d : shortens v d ->
  within_budget (shortenStrings v d).1 d = true /\ (shortenStrings v d).2 = negb (within_budget v d).
Proof. unfold shortens. destruct (shortenStrings v d). intros (? & ? & ?). done. Qed.

Lemma shortens_list {A} (get : A -> Json) (d : nat) (l : list A) :
  Forall (fun x => forall d, shortens (get x) d) l ->
  some (fun x => (shortenStrings (get x) d).2) l = negb (forallb (fun x => within_budget (get x) d) l) /\
  forallb (fun x => within_budget (shortenStrings (get x) d).1 d) l = true.
Proof.
  induction 1 as [|x l Hx Hl [IH1 IH2]]; simpl; [done|].
  destruct (shortens_elim _ _ (Hx d)) as [-> ->]. rewrite negb_andb.
  unfold some in *. rewrite IH1. split; [done|]. by rewrite IH2.
Qed.

Lemma shortenStrings_spec v d : shortens v d.
Proof.
  revert d. induction v as [|b|n|s|l IH|fs IH] using Json_nested_ind; intros d; unfold shortens; simpl; try done.
  - destruct (ENTRY_STRING_BUDGET <? str_len s) eqn:E; to_prop; simpl.
    + pose proof (str_len_take (Z.to_nat ENTRY_STRING_BUDGET) s) as Hl.
      rewrite Z2Nat.id in Hl by done.
      rewrite (proj2 (Z.leb_le _ _) Hl), (proj2 (Z.leb_gt _ _) E). done.
    + by rewrite (proj2 (Z.leb_le _ _) E).
  - destruct (WALK_DEPTH <=? d)%nat eqn:Ed.
    + destruct (ENTRY_STRING_BUDGET <? _) eqn:E; to_prop; simpl; rewrite ?Ed.
      * by rewrite (proj2 (Z.leb_gt _ _) E).
      * by rewrite (proj2 (Z.leb_le _ _) E).
    + destruct (shortens_list id (S d) l IH) as [H1 H2]. unfold id in *.
      unfold some in *. rewrite existsb_mapped, H1.
      destruct (forallb _ l) eqn:Ef; simpl; rewrite Ed; [by rewrite Ef|].
      by rewrite !map_map, forallb_mapped, H2.
  - destruct (WALK_DEPTH <=? d)%nat eqn:Ed.
    + destruct (ENTRY_STRING_BUDGET <? _) eqn:E; to_prop; simpl; rewrite ?Ed.
      * by rewrite (proj2 (Z.leb_gt _ _) E).
      * by rewrite (proj2 (Z.leb_le _ _) E).
    + destruct (shortens_list snd (S d) fs IH) as [H1 H2].
      unfold some in *. rewrite existsb_mapped. cbn [snd]. rewrite H1.
      destruct (forallb _ fs) eqn:Ef; simpl; rewrite Ed; [by rewrite Ef|].
      rewrite !map_map, forallb_mapped. cbn [snd fst]. by rewrite H2.
Qed.

(** Tool payloads are cut to size.  What a client receives of a tool call or a tool
    result holds no string over the budget where the walk goes and nothing over it further
    down; the entry is marked truncated exactly when the stored payload breaks that, and is
    the stored one otherwise; every other entry, and a call that posts to the conversation,
    is sent whole.  Nothing but the payload ever changes. *)
Theorem projectEntry_budget e :
  let r := projectEntry e in
  let tool := includes PROJECTED_TYPES (e_type e) && negb (postsToTheConversation e) in
  tr_truncated r = tool && negb (within_budget (e_payload e) 0) /\
  (tr_truncated r = false -> tr_entry r = e) /\
  (tool = true -> within_budget (e_payload (tr_entry r)) 0 = true) /\
  tr_entry r = e <| e_payload := e_payload (tr_entry r) |>.
Proof.
  unfold projectEntry. pose proof (shortenStrings_spec (e_payload e) 0) as H. unfold shortens in H.
  destruct (includes PROJECTED_TYPES (e_type e)), (postsToTheConversation e); cbn [negb orb andb].
  2: { destruct (shortenStrings (e_payload e) 0) as [v t]. destruct H as (Hw & -> & Hv).
       destruct (within_budget (e_payload e) 0) eqn:E; cbn [negb] in *; by destruct e. }
  all: by destruct e.
Qed.

(** ** The window shows a bounded tail *)

Definition user_entries (l : list SessionEntry) : nat := length (js_filter (fun e => e_type e === user) l).
Definition bytes_of (l : list TranscriptEntry) : Z :=
  foldr (fun e n => payloadBytes e.(tr_entry).(e_payload) 0 + n) 0 l.

Lemma user_entries_app l1 l2 : user_entries (l1 ++ l2) = (user_entries l1 + user_entries l2)%nat.
Proof. unfold user_entries. by rewrite js_filter_app, length_app. Qed.
Lemma user_entries_drop n l : (user_entries (drop n l) <= user_entries l)%nat.
Proof. rewrite <- (take_drop n l) at 2. rewrite user_entries_app. lia. Qed.

Lemma tail_cut_spec l n i t :
  (i <= length l)%nat -> t < n ->
  (tail_cut l n i t <= i - 1)%nat /\
  Z.of_nat (user_entries (drop (tail_cut l n i t) (take i l))) + t <= n.
Proof.
  revert t. induction i as [|i IH]; intros t Hi Ht; simpl; [unfold user_entries; simpl; lia|].
  destruct (lookup_lt_is_Some_2 l i) as [e He]; [lia|]. rewrite He.
  rewrite (take_S_r _ _ _ He).
  assert (Hrec : forall t', t' < n -> t' = t + Z.of_nat (user_entries [e]) ->
    (tail_cut l n i t' <= i - 0)%nat /\
    Z.of_nat (user_entries (drop (tail_cut l n i t') (take i l ++ [e]))) + t <= n).
  { intros t' Ht' ->. destruct (IH _ ltac:(lia) Ht') as [Hc Hu]. split; [lia|].
    rewrite drop_app_le by (rewrite length_take; lia). rewrite user_entries_app. lia. }
  unfold user_entries in Hrec at 1. simpl in Hrec.
  destruct (e_type e === user) eqn:Eu; cbn [negb].
  - destruct (t + 1 === n) eqn:En; to_prop.
    + split; [lia|]. rewrite drop_app_le by (rewrite length_take; lia).
      rewrite drop_ge by (rewrite length_take; lia). unfold user_entries. simpl.
      rewrite (proj2 (eqb_true _ _) Eu). simpl. lia.
    + apply Hrec; simpl; lia.
  - apply Hrec; simpl; lia.
Qed.

Lemma bytes_of_drop l i e :
  l !! i = Some e -> bytes_of (drop i l) = payloadBytes (e_payload (tr_entry e)) 0 + bytes_of (drop (S i) l).
Proof. intros He. by rewrite (drop_S _ _ _ He). Qed.

Lemma spend_back_spec l from spend :
  (from <= length l)%nat -> spend = bytes_of (drop from l) ->
  (spend <= TRANSCRIPT_BYTE_BUDGET \/ (length l - from = 1)%nat) ->
  (spend_back l from spend <= from)%nat /\
  (from = length l -> l <> [] -> (spend_back l from spend < from)%nat) /\
  (bytes_of (drop (spend_back l from spend) l) <= TRANSCRIPT_BYTE_BUDGET \/
   (length l - spend_back l from spend = 1)%nat).
Proof.
  revert spend. induction from as [|i IH]; intros spend Hf Hs Hb; simpl.
  { rewrite <- Hs. split_and!; [lia| |done]. by destruct l. }
  destruct (lookup_lt_is_Some_2 l i) as [e He]; [lia|]. rewrite He.
  destruct (_ && _) eqn:E; [|].
  - apply andb_true_iff in E as [_ Hlt%Nat.ltb_lt]. rewrite <- Hs. split_and!; [done|lia|done].
  - destruct (IH (spend + payloadBytes (e_payload (tr_entry e)) 0)) as (H1 & H2 & H3); [lia| | |split_and!; [lia|lia|done]].
    + rewrite (bytes_of_drop _ _ _ He). lia.
    + apply andb_false_iff in E as [E%Z.ltb_ge|E%Nat.ltb_ge]; [by left|right; lia].
Qed.

Lemma find_index_spec {A} (p : A -> bool) l k :
  find_index p l = Some k -> exists x, l !! k = Some x /\ p x = true /\ forall j y, (j < k)%nat -> l !! j = Some y -> p y = false.
Proof.
  revert k. induction l as [|x l IH]; intros k; simpl; [done|].
  destruct (p x) eqn:E; [intros [= <-]; exists x; split_and!; [done|done|lia]|].
  destruct (find_index p l) as [k'|] eqn:Ek; [|done]. intros [= <-].
  destruct (IH _ eq_refl) as (y & Hy & Hp & Hb). exists y. split_and!; [done|done|].
  intros [|j] z Hj Hz; simpl in *; [by simplify_eq|]. eapply Hb; [|done]. lia.
Qed.
Lemma bytes_of_nonneg_suffix l n : bytes_of l = bytes_of (take n l) + bytes_of (drop n l).
Proof.
  revert n. induction l as [|e l IH]; intros [|n]; simpl; try lia. specialize (IH n). simpl in IH. lia.
Qed.

Lemma json_string_length_pos s : 0 <= json_string_length s.
Proof.
  induction s as [|c s IH]; simpl; [lia|]. unfold escape_length. repeat case_match; lia.
Qed.
Lemma foldr_nonneg {A} (f : A -> Z -> Z) l :
  Forall (fun x => forall n, 0 <= n -> 0 <= f x n) l -> 0 <= foldr f 0 l.
Proof. induction 1 as [|x l Hx _ IH]; simpl; auto; lia. Qed.
Lemma foldl_nonneg {A} (f : Z -> A -> Z) l acc :
  Forall (fun x => forall n, 0 <= n -> 0 <= f n x) l -> 0 <= acc -> 0 <= foldl f acc l.
Proof. intros Hl. revert acc. induction Hl as [|x l Hx _ IH]; simpl; intros acc Hacc; auto. Qed.

Lemma json_length_nonneg v : 0 <= json_length v.
Proof.
  induction v as [|b|n|s|l IH|fs IH] using Json_nested_ind; simpl; try lia.
  - destruct b; lia.
  - unfold str_len. lia.
  - apply json_string_length_pos.
  - assert (0 <= foldr (fun x n => json_length x + n) 0 l); [|lia].
    apply foldr_nonneg. eapply Forall_impl; [exact IH|]. simpl. intros x ? n ?. lia.
  - assert (0 <= foldr (fun kv n => json_string_length kv.1 + 1 + json_length kv.2 + n) 0 fs); [|lia].
    apply foldr_nonneg. eapply Forall_impl; [exact IH|]. simpl.
    intros kv ? n ?. pose proof (json_string_length_pos kv.1). lia.
Qed.
#[local] Arguments payloadBytes !value depth.
Lemma payloadBytes_nonneg v d : 0 <= payloadBytes v d.
Proof.
  revert d. induction v as [|b|n|s|l IH|fs IH] using Json_nested_ind; intros d; cbn [payloadBytes]; try lia.
  - unfold str_len. lia.
  - destruct (WALK_DEPTH <=? d)%nat; [apply json_length_nonneg|].
    apply foldl_nonneg; [|lia]. eapply Forall_impl; [exact IH|]. intros x Hx n Hn. specialize (Hx (S d)). lia.
  - destruct (WALK_DEPTH <=? d)%nat; [apply json_length_nonneg|].
    apply foldl_nonneg; [|lia]. eapply Forall_impl; [exact IH|].
    intros x Hx n Hn. specialize (Hx (S d)). unfold str_len. lia.
Qed.
#[local] Arguments payloadBytes : simpl never.
Lemma bytes_of_nonneg l : 0 <= bytes_of l.
Proof.
  apply foldr_nonneg, Forall_true. intros e n Hn. pose proof (payloadBytes_nonneg (e_payload (tr_entry e)) 0). lia.
Qed.

Lemma at_boundary_spec l from :
  (from < length l)%nat -> (from <= at_boundary l from < length l)%nat.
Proof.
  unfold at_boundary. destruct (0 <? from)%nat; [|lia].
  destruct (find_index _ _) as [k|] eqn:Ek; [|lia]. intros _.
  apply find_index_spec in Ek as (x & Hx%lookup_lt_Some & _). rewrite length_drop in Hx. lia.
Qed.

Lemma bytes_of_drop_le l a b : (a <= b)%nat -> bytes_of (drop b l) <= bytes_of (drop a l).
Proof.
  intros Hab. rewrite (bytes_of_nonneg_suffix (drop a l) (b - a)), drop_drop.
  replace (a + (b - a))%nat with b by lia. pose proof (bytes_of_nonneg (take (b - a) (drop a l))). lia.
Qed.

Lemma drop_cond {A} n (l : list A) : (if (0 <? n)%nat then drop n l else l) = drop n l.
Proof. by destruct n. Qed.

Lemma window_cut_lt w l :
  l <> [] -> (w ≫= w_sinceSeq) = None -> (window_cut w l < length l)%nat.
Proof.
  intros Hl Hw. assert (0 < length l)%nat by (destruct l; simpl; [done|lia]).
  destruct w as [[t s b]|]; simpl in *; [|done]. subst s.
  destruct t as [n|]; [|done]. destruct (0 <? n) eqn:E; to_prop; [|done].
  destruct (tail_cut_spec l n (length l) 0) as [? _]; lia.
Qed.

Lemma project_type e : e_type (tr_entry (projectEntry e)) = e_type e.
Proof.
  unfold projectEntry. destruct (_ || _); [done|]. by destruct (shortenStrings _ _) as [? []].
Qed.

(** The transcript window.  The window answers a tail of the entries before
    [beforeSeq], each projected, and the number it left out in front: nothing in between is
    skipped.  With a bound on turns no more user entries are shown than asked for.  A window
    that does not resume from a known entry costs at most the byte budget unless it shows a
    single entry, and it always shows something when there is something to show. *)
Theorem windowedTranscript_window l w shown earlier :
  windowedTranscript l w = (shown, earlier) ->
  shown = map projectEntry (drop earlier (entries_before w l)) /\
  (forall n, (w ≫= tailTurns) = Some n -> 0 < n -> (w ≫= w_sinceSeq) = None ->
     Z.of_nat (user_entries (drop earlier (entries_before w l))) <= n) /\
  (w <> None -> (w ≫= w_sinceSeq) = None ->
     (bytes_of shown <= TRANSCRIPT_BYTE_BUDGET \/ length shown = 1%nat) /\
     (entries_before w l <> [] -> shown <> [])).
Proof.
  unfold windowedTranscript. generalize (entries_before w l). intros base.
  cbv zeta. rewrite !drop_cond. set (cut := window_cut w base).
  set (ws := map projectEntry (drop cut base)).
  destruct (bool_decide (w = None) || is_some (w ≫= w_sinceSeq)) eqn:Eb.
  - intros [= <- <-]. split; [done|]. apply orb_true_iff in Eb as [Eb|Eb].
    + to_prop. subst w. done.
    + apply is_some_true in Eb as [s Es]. rewrite Es. done.
  - intros [= <- <-]. apply orb_false_iff in Eb as [Hw Hs]. to_prop.
    assert (Hs' : (w ≫= w_sinceSeq) = None) by (by destruct (w ≫= w_sinceSeq)).
    set (from := at_boundary ws (spend_back ws (length ws) 0)).
    assert (Hd : map projectEntry (drop (cut + from) base) = drop from ws).
    { unfold ws. by rewrite skipn_map, drop_drop. }
    rewrite Hd. split; [done|]. split.
    + intros n Hn Hpos _. rewrite <- drop_drop. etrans; [apply Nat2Z.inj_le, user_entries_drop|].
      destruct w as [[t s b]|]; [|done]. simpl in Hn, Hs'. subst.
      destruct (tail_cut_spec base n (length base) 0) as [_ Hu]; [lia|done|].
      rewrite take_ge, Z.add_0_r in Hu by lia. unfold cut. simpl. by rewrite (proj2 (Z.ltb_lt _ _) Hpos).
    + intros _ _. destruct (spend_back_spec ws (length ws) 0) as (Hle & Hlt & Hb);
        [done|by rewrite drop_ge|by left; unfold TRANSCRIPT_BYTE_BUDGET; lia|].
      assert (Hfr : ws <> [] -> (spend_back ws (length ws) 0 <= from < length ws)%nat).
      { intros Hne. apply at_boundary_spec. by apply Hlt. }
      split.
      * destruct (decide (ws = [])) as [->|Hne]; [by left; unfold from, at_boundary, TRANSCRIPT_BYTE_BUDGET; simpl|].
        specialize (Hfr Hne). destruct Hb as [Hb|Hb]; [left|right; rewrite length_drop; lia].
        pose proof (bytes_of_drop_le ws _ _ (proj1 Hfr)). lia.
      * intros Hne. assert (Hws : ws <> []).
        { unfold ws. pose proof (window_cut_lt w base Hne Hs'). intros Hnil%(f_equal length).
          rewrite length_map, length_drop in Hnil. simpl in Hnil. unfold cut in Hnil. lia. }
        specialize (Hfr Hws). intros Hnil%(f_equal length). rewrite length_drop in Hnil. simpl in Hnil. lia.
Qed.

Definition demo_entry (seq : Z) (t : EntryType) (p : Json) : SessionEntry :=
  MkEntry "s1" seq None t p "channel:general" (1000 + seq).
Definition demo_log : list SessionEntry :=
  [demo_entry 0 user (JStr "one"); demo_entry 1 assistant (JStr "a"); demo_entry 2 user (JStr "two");
   demo_entry 3 tool_result (JObj [("out", JStr "ok")]); demo_entry 4 assistant (JStr "b")].

Example preview_demo :
  userMessagePreview (JStr (" [note] x" +:+ blank_line +:+ "  hello   there ")) 160 = "hello there".
Proof. vm_compute. done. Qed.

Lemma windowedTranscript_window_witness :
  windowedTranscript demo_log (Some (MkWindow (Some 1) None (Some 4))) =
    (map projectEntry (drop 2 (take 4 demo_log)), 2%nat) /\
  (bytes_of (map projectEntry (drop 2 (take 4 demo_log))) <= TRANSCRIPT_BYTE_BUDGET \/ 2%nat = 1%nat).
Proof.
  assert (H : windowedTranscript demo_log (Some (MkWindow (Some 1) None (Some 4))) =
    (map projectEntry (drop 2 (take 4 demo_log)), 2%nat)) by (vm_compute; reflexivity).
  split; [exact H|]. apply windowedTranscript_window in H as (_ & _ & H).
  destruct H as [H _]; [discriminate|reflexivity|exact H].
Defined.
