(* ===== verification/Sessions.v ===== *)
(** * Sessions (memory store)

    Sessions, their append-only logs, the lease a writer must hold, and who may see which
    part of a log ([src/src/sessions/memory-session-store.ts]).  Generated ids and the clock
    are arguments; each operation reads the clock once. *)

From S2P Require Import Prelude JsString Json ThreadRef Transcript.

(** ** Data *)

(** [SessionType] src/src/types.ts:61-61 *)
Inductive SessionType := dm | channel | group.
#[export] Instance SessionType_eq_dec : EqDecision SessionType.
Proof. solve_decision. Defined.
Definition session_type_name (t : SessionType) : string :=
  match t with dm => "dm" | channel => "channel" | group => "group" end.
Definition origin_name (o : SessionOrigin) : string :=
  match o with conversation => "conversation" | cron => "cron" | webhook => "webhook" | monitor => "monitor" end.

(** [RoomConfig] src/src/types.ts:67-72 *)
Record RoomConfig := MkRoom { personaIds : list string; rounds : Z }.

(** [Session] src/src/types.ts:85-104
    What the store itself keeps; a title that is absent or null is [None]. *)
Record Session := MkSession {
  s_id : string;
  s_type : SessionType;
  s_scopeId : string;
  s_threadRef : string;
  s_createdAt : Z;
  s_channelName : option string;
  s_surface : option string;
  s_title : option string;
  s_room : option RoomConfig;
}.
#[export] Instance Session_eta : Eta Session := fun s =>
  MkSession s.(s_id) s.(s_type) s.(s_scopeId) s.(s_threadRef) s.(s_createdAt) s.(s_channelName) s.(s_surface)
    s.(s_title) s.(s_room).

(** [LeaseHolder] src/src/sessions/session-store.ts:8-8 *)
Inductive LeaseHolder := h_turn | h_compaction | h_fork | h_backfill.
(** [Lease] src/src/sessions/session-store.ts:3-6 *)
Record Lease := MkLease { l_sessionId : string; l_token : string }.
(** [LeaseAttempt] src/src/sessions/session-store.ts:10-15 *)
Record LeaseAttempt := MkAttempt {
  la_lease : option Lease;
  heldBy : option LeaseHolder;
  heldSince : option Z;
  heldUntil : option Z;
}.
(** [createMemorySessionStore] src/src/sessions/memory-session-store.ts:62-62 *)
Record Held := MkHeld { h_token : string; h_expiresAt : Z; h_acquiredAt : Z; h_holder : option LeaseHolder }.
#[export] Instance Held_eta : Eta Held := fun h => MkHeld h.(h_token) h.(h_expiresAt) h.(h_acquiredAt) h.(h_holder).

(** [NewEntry] src/src/sessions/session-store.ts:22-51
    [Some None] is an explicit null parent, [None] the linear chain. *)
Record NewEntry := MkNewEntry {
  n_type : EntryType;
  n_payload : Json;
  n_scopeLabel : string;
  n_parentSeq : option (option Z);
}.

(** [TapeKind] src/src/sessions/session-store.ts:106-106 *)
Inductive TapeKind := message | context_event | annotation.
#[export] Instance TapeKind_eq_dec : EqDecision TapeKind.
Proof. solve_decision. Defined.
(** [NewTapeRecord] src/src/sessions/session-store.ts:108-125
    The message metadata is carried, never read. *)
Record NewTapeRecord := MkNewTape {
  t_kind : TapeKind;
  t_payload : Json;
  t_scopeLabel : string;
  t_harness : option string;
  t_meta : option Json;
  t_entrySeq : option Z;
  t_coversEntrySeq : option Z;
}.
(** [TapeRecord] src/src/sessions/session-store.ts:127-131 *)
Record TapeRecord := MkTape { tp_rec : NewTapeRecord; tp_sessionId : string; tp_seq : Z; tp_createdAt : Z }.

(** [NewLlmRequest] src/src/sessions/session-store.ts:250-264
    Timings and usage are carried, never read. *)
Record NewLlmRequest := MkNewLlm {
  nl_turnSeq : option Z;
  nl_step : Z;
  nl_model : string;
  nl_scopeLabel : string;
  nl_request : Json;
  nl_truncated : option bool;
  nl_ttftMs : option Z;
  nl_durationMs : option Z;
  nl_stepGapMs : option Z;
  nl_toolWallMs : option (list Z);
  nl_gapPhases : option Json;
  nl_usage : option Json;
  nl_transport : option Json;
}.
(** [LlmRequestRecord] src/src/sessions/session-store.ts:231-248 *)
Record LlmRequestRecord := MkLlm {
  lr_id : string;
  lr_sessionId : string;
  lr_turnSeq : option Z;
  lr_step : Z;
  lr_model : string;
  lr_scopeLabel : string;
  lr_createdAt : Z;
  lr_request : Json;
  lr_truncated : bool;
  lr_ttftMs : option Z;
  lr_durationMs : option Z;
  lr_stepGapMs : option Z;
  lr_toolWallMs : option (list Z);
  lr_gapPhases : option Json;
  lr_usage : option Json;
  lr_transport : option Json;
}.
#[export] Instance LlmRequestRecord_eta : Eta LlmRequestRecord := fun r =>
  MkLlm r.(lr_id) r.(lr_sessionId) r.(lr_turnSeq) r.(lr_step) r.(lr_model) r.(lr_scopeLabel) r.(lr_createdAt)
    r.(lr_request) r.(lr_truncated) r.(lr_ttftMs) r.(lr_durationMs) r.(lr_stepGapMs) r.(lr_toolWallMs)
    r.(lr_gapPhases) r.(lr_usage) r.(lr_transport).

(** [createMemorySessionStore] src/src/sessions/memory-session-store.ts:46-61
    One participant's membership and view of a session.  An absent flag is [false], an
    absent or null text [None]: no reader tells them apart. *)
Record Membership := MkMembership {
  validFrom : Z;
  validTo : option Z;
  validFromSeq : Z;
  validToSeq : option Z;
  v_title : option string;
  v_archived : bool;
  v_pinned : bool;
  v_color : option string;
}.
#[export] Instance Membership_eta : Eta Membership := fun w =>
  MkMembership w.(validFrom) w.(validTo) w.(validFromSeq) w.(validToSeq) w.(v_title) w.(v_archived) w.(v_pinned)
    w.(v_color).

(** [createMemorySessionStore] src/src/sessions/memory-session-store.ts:40-62 *)
Record SessionStore := MkSessionStore {
  sessions : jsmap string Session;
  logs : jsmap string (list SessionEntry);
  tape : jsmap string (list TapeRecord);
  llmRequests : jsmap string (list LlmRequestRecord);
  byThread : jsmap string string;
  participants : jsmap string (list string);
  windows : jsmap string (jsmap string Membership);
  leases : jsmap string Held;
}.
#[export] Instance SessionStore_eta : Eta SessionStore := fun s =>
  MkSessionStore s.(sessions) s.(logs) s.(tape) s.(llmRequests) s.(byThread) s.(participants) s.(windows) s.(leases).
Definition empty_sessions : SessionStore := MkSessionStore ∅ ∅ ∅ ∅ ∅ ∅ ∅ ∅.

(** ** Sessions by thread *)

(** [getByThread] src/src/sessions/memory-session-store.ts:90-93 *)
Definition getByThread (threadRef : string) (st : SessionStore) : option Session :=
  match st.(byThread) !! threadRef with
  | Some id => if truthy id then st.(sessions) !! id else None
  | None => None
  end.

(** [get] src/src/sessions/memory-session-store.ts:95-97 *)
Definition get (id : string) (st : SessionStore) : option Session := st.(sessions) !! id.

(** [getOrCreateByThread] src/src/sessions/memory-session-store.ts:70-72 *)
Definition refresh_names (channelName surface : option string) (s : Session) : Session :=
  let s := if truthy_opt channelName && (s.(s_channelName) !== channelName)
           then s <| s_channelName := channelName |> else s in
  if truthy_opt surface && negb (truthy_opt s.(s_surface)) then s <| s_surface := surface |> else s.

(** [getOrCreateByThread] src/src/sessions/memory-session-store.ts:65-88 *)
Definition getOrCreateByThread (uuid : string) (now : Z) (threadRef : string) (type : SessionType) (scopeId : string)
    (channelName surface : option string) (st : SessionStore) : Session * SessionStore :=
  match getByThread threadRef st with
  | Some s =>
      let s' := refresh_names channelName surface s in
      (s', st <| sessions := alter (refresh_names channelName surface) (st.(byThread) !! threadRef ?? "") st.(sessions) |>)
  | None =>
      let session := MkSession uuid type scopeId threadRef now (if_truthy channelName) (if_truthy surface) None None in
      (session, st <| sessions := <[uuid := session]> st.(sessions) |>
                   <| logs := <[uuid := []]> st.(logs) |>
                   <| byThread := <[threadRef := uuid]> st.(byThread) |>)
  end.

(** [updateTitle] src/src/sessions/memory-session-store.ts:99-102 *)
Definition updateTitle (sessionId title : string) (st : SessionStore) : SessionStore :=
  st <| sessions := alter (fun s => s <| s_title := Some title |>) sessionId st.(sessions) |>.

(** [setRoom] src/src/sessions/memory-session-store.ts:104-109 *)
Definition setRoom (sessionId : string) (room : option RoomConfig) (st : SessionStore) : SessionStore :=
  st <| sessions := alter (fun s => s <| s_room := room |>) sessionId st.(sessions) |>.

(** ** Leases *)

(** [acquireLease] src/src/sessions/memory-session-store.ts:111-128 *)
Definition acquireLease (leaseTtlMs : Z) (uuid : string) (now : Z) (sessionId : string) (holder : option LeaseHolder)
    (st : SessionStore) : LeaseAttempt * SessionStore :=
  let grant :=
    (MkAttempt (Some (MkLease sessionId uuid)) None None None,
     st <| leases := <[sessionId := MkHeld uuid (now + leaseTtlMs) now holder]> st.(leases) |>) in
  match st.(leases) !! sessionId with
  | Some held =>
      if now <? held.(h_expiresAt)
      then (MkAttempt None held.(h_holder) (Some held.(h_acquiredAt)) (Some held.(h_expiresAt)), st)
      else grant
  | None => grant
  end.

(** [releaseLease] src/src/sessions/memory-session-store.ts:130-132 *)
Definition releaseLease (lease : Lease) (st : SessionStore) : SessionStore :=
  if (h_token <$> st.(leases) !! lease.(l_sessionId)) === Some lease.(l_token)
  then st <| leases := delete lease.(l_sessionId) st.(leases) |> else st.

(** [forceReleaseLease] src/src/sessions/memory-session-store.ts:148-150 *)
Definition forceReleaseLease (sessionId : string) (st : SessionStore) : SessionStore :=
  st <| leases := delete sessionId st.(leases) |>.

(** [append] and [appendTape]'s guard, src/src/sessions/memory-session-store.ts:153-157
    The holder's write, when the lease is the current one; it renews the lease. *)
Definition holding (lease : Lease) (st : SessionStore) : bool :=
  match st.(leases) !! lease.(l_sessionId) with
  | Some held => held.(h_token) === lease.(l_token)
  | None => false
  end.
(** [append] src/src/sessions/memory-session-store.ts:157-157 *)
Definition renew (leaseTtlMs now : Z) (lease : Lease) (st : SessionStore) : SessionStore :=
  st <| leases := alter (fun h => h <| h_expiresAt := now + leaseTtlMs |>) lease.(l_sessionId) st.(leases) |>.

(** ** The log *)

(** [append] src/src/sessions/memory-session-store.ts:160-171 *)
Definition new_entry (now : Z) (sessionId : string) (seq : Z) (e : NewEntry) : SessionEntry :=
  MkEntry sessionId seq
    (match e.(n_parentSeq) with
     | Some p => p
     | None => if seq === 0 then None else Some (seq - 1)
     end)
    e.(n_type) e.(n_payload) e.(n_scopeLabel) now.

(** [append] src/src/sessions/memory-session-store.ts:152-174 *)
Definition append (leaseTtlMs now : Z) (lease : Lease) (e : NewEntry) (st : SessionStore)
  : result string SessionEntry * SessionStore :=
  if negb (holding lease st) then (Throw "append without a valid session lease", st)
  else
    let st := renew leaseTtlMs now lease st in
    match st.(logs) !! lease.(l_sessionId) with
    | None => (Throw ("unknown session: " +:+ lease.(l_sessionId)), st)
    | Some log =>
        let full := new_entry now lease.(l_sessionId) (Z.of_nat (length log)) e in
        (Ok full, st <| logs := <[lease.(l_sessionId) := log ++ [full]]> st.(logs) |>)
    end.

(** The last [limit] elements, when there is a limit: [l.slice(-limit)]. *)
Definition last_limit {A} (limit : option Z) (l : list A) : list A :=
  match limit with Some n => slice_from (- n) l | None => l end.

(** [getEntries] src/src/sessions/memory-session-store.ts:176-181 *)
Definition getEntries (sessionId : string) (sinceSeq limit : option Z) (st : SessionStore) : list SessionEntry :=
  let log := st.(logs) !! sessionId ?? [] in
  last_limit limit (js_filter (fun e => (sinceSeq ?? 0) <=? e.(e_seq)) log).

(** [appendTape] src/src/sessions/memory-session-store.ts:183-192 *)
Definition appendTape (leaseTtlMs now : Z) (lease : Lease) (rec : NewTapeRecord) (st : SessionStore)
  : result string TapeRecord * SessionStore :=
  if negb (holding lease st) then (Throw "tape append without a valid session lease", st)
  else
    let st := renew leaseTtlMs now lease st in
    let log := st.(tape) !! lease.(l_sessionId) ?? [] in
    let full := MkTape rec lease.(l_sessionId) (Z.of_nat (length log)) now in
    (Ok full, st <| tape := <[lease.(l_sessionId) := log ++ [full]]> st.(tape) |>).

(** [getTape] src/src/sessions/memory-session-store.ts:194-199 *)
Definition getTape (sessionId : string) (sinceSeq limit : option Z) (st : SessionStore) : list TapeRecord :=
  let log := st.(tape) !! sessionId ?? [] in
  last_limit limit (match sinceSeq with Some s => js_filter (fun r => s <? r.(tp_seq)) log | None => log end).

(** [tapeCoverage] src/src/sessions/memory-session-store.ts:207-209
    The entry a tape record vouches for, [-1] for none. *)
Definition turn_end_seq (r : TapeRecord) : Z :=
  let rec := r.(tp_rec) in
  if (rec.(t_kind) === annotation)
     && match field "turnEnd" rec.(t_payload) with Some (JBool true) => true | _ => false end
  then rec.(t_entrySeq) ?? (-1) else -1.
(** [tapeCoverage] src/src/sessions/memory-session-store.ts:210-212 *)
Definition import_seq (r : TapeRecord) : Z :=
  let rec := r.(tp_rec) in
  if (rec.(t_kind) === context_event)
     && match field "event" rec.(t_payload) with Some (JStr s) => s === "legacy_import" | _ => false end
  then rec.(t_coversEntrySeq) ?? (-1) else -1.

(** [tapeCoverage] src/src/sessions/memory-session-store.ts:201-216 *)
Definition tapeCoverage (sessionId : string) (st : SessionStore) : Z :=
  foldl (fun m r => Z.max m (Z.max (turn_end_seq r) (import_seq r))) (-1) (st.(tape) !! sessionId ?? []).

(** [recordLlmRequest] src/src/sessions/memory-session-store.ts:218-244 *)
Definition recordLlmRequest (uuid : string) (now : Z) (sessionId : string) (rec : NewLlmRequest) (st : SessionStore)
  : LlmRequestRecord * SessionStore :=
  let full := MkLlm uuid sessionId rec.(nl_turnSeq) rec.(nl_step) rec.(nl_model) rec.(nl_scopeLabel) now
    rec.(nl_request) (rec.(nl_truncated) ?? false) rec.(nl_ttftMs) rec.(nl_durationMs) rec.(nl_stepGapMs)
    rec.(nl_toolWallMs) rec.(nl_gapPhases) rec.(nl_usage) rec.(nl_transport) in
  (full, st <| llmRequests := <[sessionId := (st.(llmRequests) !! sessionId ?? []) ++ [full]]> st.(llmRequests) |>).

(** [listLlmRequests] src/src/sessions/memory-session-store.ts:246-257 *)
Definition listLlmRequests (sessionId : string) (turnSeqs : option (list Z)) (orphans omitRequest : bool)
    (st : SessionStore) : list LlmRequestRecord :=
  let all := st.(llmRequests) !! sessionId ?? [] in
  let filtered :=
    if is_some turnSeqs || orphans then
      js_filter (fun r =>
        match turnSeqs, r.(lr_turnSeq) with Some want, Some s => includes want s | _, _ => false end
        || (orphans && (r.(lr_turnSeq) === None))) all
    else all in
  map (fun r => if omitRequest then r <| lr_request := JNull |> else r) filtered.

(** ** Participants *)

(** How many entries a session's log holds. *)
Definition log_length (sessionId : string) (st : SessionStore) : Z :=
  Z.of_nat (length (st.(logs) !! sessionId ?? [])).
Definition membership (sessionId principalId : string) (st : SessionStore) : option Membership :=
  (st.(windows) !! sessionId) ≫= (fun w => w !! principalId).

(** [Set.prototype.add] on the sessions of a principal. *)
Definition set_add (x : string) (l : list string) : list string := if includes l x then l else l ++ [x].

(** [addParticipant] src/src/sessions/memory-session-store.ts:272-291 *)
Definition join_membership (now len : Z) (title : option string) (includeHistory : bool)
    (existing : option Membership) : Membership :=
  let fresh (e : option Membership) :=
    MkMembership (if includeHistory then 0 else now) None (if includeHistory then 0 else len) None
      (if is_some title then title else e ≫= v_title)
      (from_option v_archived false e) (from_option v_pinned false e) (e ≫= v_color) in
  match existing with
  | Some w =>
      if w.(validTo) !== None then fresh (Some w)
      else
        let w := if includeHistory then w <| validFrom := 0 |> <| validFromSeq := 0 |> else w in
        if is_some title then w <| v_title := title |> else w
  | None => fresh None
  end.

(** [addParticipant] src/src/sessions/memory-session-store.ts:259-292 *)
Definition addParticipant (now : Z) (sessionId principalId : string) (title : option string) (includeHistory : bool)
    (st : SessionStore) : SessionStore :=
  let w := st.(windows) !! sessionId ?? ∅ in
  let m := join_membership now (log_length sessionId st) title includeHistory (w !! principalId) in
  st <| participants := <[principalId := set_add sessionId (st.(participants) !! principalId ?? [])]> st.(participants) |>
     <| windows := <[sessionId := <[principalId := m]> w]> st.(windows) |>.

(** Mutation of one participant's window, when there is one. *)
Definition alter_membership (f : Membership -> Membership) (sessionId principalId : string) (st : SessionStore)
  : SessionStore :=
  st <| windows := alter (alter f principalId) sessionId st.(windows) |>.

(** [removeParticipant] src/src/sessions/memory-session-store.ts:294-300 *)
Definition leave_membership (now len : Z) (w : Membership) : Membership :=
  if w.(validTo) === None then w <| validTo := Some now |> <| validToSeq := Some len |> else w.

(** [removeParticipant] src/src/sessions/memory-session-store.ts:294-300 *)
Definition removeParticipant (now : Z) (sessionId principalId : string) (st : SessionStore) : SessionStore :=
  alter_membership (leave_membership now (log_length sessionId st)) sessionId principalId st.

(** [deleteSession] src/src/sessions/memory-session-store.ts:137-139 *)
Definition forget_participant (sessionId : string) (ps : jsmap string (list string)) (principalId : string)
  : jsmap string (list string) :=
  alter (js_filter (fun id => id !== sessionId)) principalId ps.

(** [deleteSession] src/src/sessions/memory-session-store.ts:134-146 *)
Definition deleteSession (sessionId : string) (st : SessionStore) : SessionStore :=
  let byThread' :=
    match st.(sessions) !! sessionId with
    | Some s => delete s.(s_threadRef) st.(byThread)
    | None => st.(byThread)
    end in
  MkSessionStore
    (delete sessionId st.(sessions))
    (delete sessionId st.(logs))
    (delete sessionId st.(tape))
    (delete sessionId st.(llmRequests))
    byThread'
    (foldl (forget_participant sessionId) st.(participants) (from_option keys [] (st.(windows) !! sessionId)))
    (delete sessionId st.(windows))
    (delete sessionId st.(leases)).

(** [visibleEntries] src/src/sessions/memory-session-store.ts:342-342
    Also the test of [listByParticipant], line 314, and of [attributedTurns], line 505. *)
Definition in_window (w : Membership) (e : SessionEntry) : bool :=
  (w.(validFromSeq) <=? e.(e_seq)) && match w.(validToSeq) with None => true | Some t => e.(e_seq) <? t end.

(** [visibleEntries] src/src/sessions/memory-session-store.ts:338-343 *)
Definition visibleEntries (sessionId principalId : string) (st : SessionStore) : list SessionEntry :=
  match membership sessionId principalId st with
  | Some w => js_filter (in_window w) (st.(logs) !! sessionId ?? [])
  | None => []
  end.

(** [ParticipantViewPatch] src/src/sessions/session-store.ts:99-104
    [None] leaves the field as it is; [Some None] clears it. *)
Record ParticipantViewPatch := MkPatch {
  p_title : option (option string);
  p_archived : option bool;
  p_pinned : option bool;
  p_color : option (option string);
}.

(** [updateParticipantView] src/src/sessions/memory-session-store.ts:332-335 *)
Definition patch_membership (p : ParticipantViewPatch) (w : Membership) : Membership :=
  let w := match p.(p_title) with Some t => w <| v_title := t |> | None => w end in
  let w := match p.(p_archived) with Some b => w <| v_archived := b |> | None => w end in
  let w := match p.(p_pinned) with Some b => w <| v_pinned := b |> | None => w end in
  match p.(p_color) with Some c => w <| v_color := c |> | None => w end.

(** [updateParticipantView] src/src/sessions/memory-session-store.ts:329-336 *)
Definition updateParticipantView (sessionId principalId : string) (p : ParticipantViewPatch) (st : SessionStore)
  : SessionStore :=
  alter_membership (patch_membership p) sessionId principalId st.

(** [Session] as a participant sees it, src/src/types.ts:94-99 *)
Record ParticipantSession := MkParticipantSession {
  ps_session : Session;
  ps_archived : bool;
  ps_pinned : bool;
  ps_color : option string;
  ps_lastActivityAt : Z;
  ps_hasEntries : bool;
}.

(** [listByParticipant] src/src/sessions/memory-session-store.ts:309-323 *)
Definition participant_row (principalId : string) (s : Session) (id : string) (st : SessionStore) : ParticipantSession :=
  let view := membership id principalId st in
  let all := st.(logs) !! id ?? [] in
  let log := js_filter (fun e => e.(e_type) === user) all in
  let lastActivityAt := foldl Z.max s.(s_createdAt) (map e_createdAt log) in
  let visible := match view with Some w => some (in_window w) all | None => false end in
  MkParticipantSession
    (match view ≫= v_title with Some t => s <| s_title := Some t |> | None => s end)
    (from_option v_archived false view) (from_option v_pinned false view) (view ≫= v_color)
    lastActivityAt visible.

(** [listByParticipant] src/src/sessions/memory-session-store.ts:302-327 *)
Definition listByParticipant (principalId : string) (st : SessionStore) : list ParticipantSession :=
  omap (fun id => (fun s => participant_row principalId s id st) <$> st.(sessions) !! id)
    (st.(participants) !! principalId ?? []).

(** [listParticipants] src/src/sessions/memory-session-store.ts:521-529 *)
Definition listParticipants (st : SessionStore) : list (string * string * Z * option Z) :=
  concat (map (fun sw => map (fun pw => (sw.1, pw.1, pw.2.(validFrom), pw.2.(validTo))) (entries sw.2))
              (entries st.(windows))).

(** [participantsOf] src/src/sessions/memory-session-store.ts:531-533 *)
Definition participantsOf (sessionId : string) (st : SessionStore) : list string :=
  from_option keys [] (st.(windows) !! sessionId).

(** ** Listings *)

(** [listAll] src/src/sessions/memory-session-store.ts:345-347 *)
Definition listAll (st : SessionStore) : list Session := values st.(sessions).

(** [SessionRef] src/src/sessions/session-store.ts:316-322 *)
Record SessionRef := MkSessionRef {
  sr_id : string; sr_threadRef : string; sr_scopeId : string; sr_type : SessionType; sr_title : option string }.

(** [sessionsByThreadRefs] src/src/sessions/memory-session-store.ts:349-354 *)
Definition sessionsByThreadRefs (threadRefs : list string) (st : SessionStore) : list SessionRef :=
  map (fun s => MkSessionRef s.(s_id) s.(s_threadRef) s.(s_scopeId) s.(s_type) s.(s_title))
    (js_filter (fun s => includes threadRefs s.(s_threadRef)) (values st.(sessions))).

(** [distinctScopes] src/src/sessions/memory-session-store.ts:358-363 *)
Definition note_scope (byScope : jsmap string (option string)) (s : Session) : jsmap string (option string) :=
  let channelName := if s.(s_type) === dm then None else s.(s_channelName) in
  match byScope !! s.(s_scopeId) with
  | None => <[s.(s_scopeId) := channelName]> byScope
  | Some prev =>
      if truthy_opt channelName && negb (truthy_opt prev) then <[s.(s_scopeId) := channelName]> byScope else byScope
  end.

(** [distinctScopes] src/src/sessions/memory-session-store.ts:356-365 *)
Definition distinctScopes (st : SessionStore) : list (string * option string) :=
  map (fun p => (p.1, if_truthy p.2)) (entries (foldl note_scope ∅ (values st.(sessions)))).

(** A turn a person took: what [turns] counts, src/src/sessions/memory-session-store.ts:389-389 *)
Definition is_turn (e : SessionEntry) : bool := (e.(e_type) === user) && negb (isOverheardEntry e).
(** [scopeSessionSummaries] src/src/sessions/memory-session-store.ts:388-389 *)
Definition turns_of (id : string) (st : SessionStore) : list SessionEntry :=
  js_filter is_turn (st.(logs) !! id ?? []).

(** [scopeSessionSummaries] src/src/sessions/memory-session-store.ts:398-398
    Also [scopeCronGroups], line 438. *)
Definition last_activity (s : Session) (st : SessionStore) : Z :=
  match last (st.(logs) !! s.(s_id) ?? []) with Some e => e.(e_createdAt) | None => s.(s_createdAt) end.

(** [SessionOriginFilter] src/src/sessions/session-store.ts:144-144 *)
Inductive SessionOriginFilter := only_origin (o : SessionOrigin) | other_background.
(** [scopeSessionSummaries] src/src/sessions/memory-session-store.ts:381-386
    The filters of a page and of the statistics, lines 479-486. *)
Definition origin_matches (f : option SessionOriginFilter) (o : SessionOrigin) : bool :=
  match f with
  | Some other_background => negb ((o === conversation) || (o === cron))
  | Some (only_origin o') => o === o'
  | None => true
  end.
(** [scopeSessionSummaries] src/src/sessions/memory-session-store.ts:380-380 *)
Definition category_matches (c : option SessionCategory) (o : SessionOrigin) : bool :=
  match c, sessionCategory o with
  | None, _ | Some c_conversation, c_conversation | Some c_background, c_background => true
  | _, _ => false
  end.
(** [scopeSessionSummaries] src/src/sessions/memory-session-store.ts:387-387 *)
Definition cron_matches (cronId : option string) (threadRef : string) : bool :=
  negb (truthy_opt cronId) || (cronIdOf (Some threadRef) === cronId).

(** [SessionPage] src/src/sessions/session-store.ts:152-159 *)
Record SessionPage := MkPage {
  pg_limit : Z;
  pg_offset : Z;
  pg_before : option (Z * string);
  pg_category : option SessionCategory;
  pg_origin : option SessionOriginFilter;
  pg_cronId : option string;
}.

#[export] Instance SessionPage_eta : Eta SessionPage := fun p =>
  MkPage p.(pg_limit) p.(pg_offset) p.(pg_before) p.(pg_category) p.(pg_origin) p.(pg_cronId).

(** [SessionSummary] src/src/sessions/session-store.ts:329-341 *)
Record SessionSummary := MkSummary {
  su_id : string;
  su_type : SessionType;
  su_origin : SessionOrigin;
  su_scopeId : string;
  su_threadRef : string;
  su_turns : Z;
  su_messages : Z;
  su_lastActivity : Z;
  su_createdAt : Z;
  su_firstMessage : string;
  su_lastMessage : string;
}.

(** [idDesc] src/src/sessions/memory-session-store.ts:32-36 *)
Definition idDesc (a b : string) : Z := if str_ltb a b then 1 else if str_ltb b a then -1 else 0.

(** [scopeSessionSummaries] src/src/sessions/memory-session-store.ts:376-387 *)
Definition summarised (scope : string) (orgWide : bool) (page : option SessionPage) (sessionIds : option (list string))
    (s : Session) : bool :=
  let origin := sessionOrigin (Some s.(s_threadRef)) in
  (orgWide || (s.(s_scopeId) === scope))
  && match sessionIds with Some ids => includes ids s.(s_id) | None => true end
  && match page with
     | Some p => category_matches p.(pg_category) origin && origin_matches p.(pg_origin) origin
                 && cron_matches p.(pg_cronId) s.(s_threadRef)
     | None => true
     end.

(** [scopeSessionSummaries] src/src/sessions/memory-session-store.ts:387-406 *)
Definition summary_of (includePreviews : bool) (st : SessionStore) (s : Session) : SessionSummary :=
  let userEntries := turns_of s.(s_id) st in
  let preview (e : option SessionEntry) n :=
    match e with Some e => if includePreviews then userMessagePreview e.(e_payload) n else "" | None => "" end in
  MkSummary s.(s_id) s.(s_type) (sessionOrigin (Some s.(s_threadRef))) s.(s_scopeId) s.(s_threadRef)
    (Z.of_nat (length userEntries)) (log_length s.(s_id) st) (last_activity s st) s.(s_createdAt)
    (preview (head userEntries) default_preview) (preview (last userEntries) 100%nat).

(** [scopeSessionSummaries] src/src/sessions/memory-session-store.ts:407-407 *)
Definition newest_first (a b : SessionSummary) : Z :=
  let d := b.(su_lastActivity) - a.(su_lastActivity) in
  if d !== 0 then d else idDesc a.(su_id) b.(su_id).

(** [scopeSessionSummaries] src/src/sessions/memory-session-store.ts:413-413 *)
Definition older_than (before : Z * string) (r : SessionSummary) : bool :=
  (r.(su_lastActivity) <? before.1) || ((r.(su_lastActivity) === before.1) && str_ltb r.(su_id) before.2).

(** [scopeSessionSummaries] src/src/sessions/memory-session-store.ts:374-407 *)
Definition summary_rows (scope : string) (orgWide : bool) (page : option SessionPage) (includePreviews : bool)
    (sessionIds : option (list string)) (st : SessionStore) : list SessionSummary :=
  js_sort newest_first
    (map (summary_of includePreviews st) (js_filter (summarised scope orgWide page sessionIds) (values st.(sessions)))).

(** [scopeSessionSummaries] src/src/sessions/memory-session-store.ts:367-418 *)
Definition scopeSessionSummaries (scope : string) (orgWide : bool) (page : option SessionPage) (includePreviews : bool)
    (sessionIds : option (list string)) (st : SessionStore) : list SessionSummary :=
  let out := summary_rows scope orgWide page includePreviews sessionIds st in
  match page with
  | None => out
  | Some p =>
      match p.(pg_before) with
      | Some before => slice 0 p.(pg_limit) (js_filter (older_than before) out)
      | None => slice p.(pg_offset) (p.(pg_offset) + p.(pg_limit)) out
      end
  end.

(** [lastUserMessages] src/src/sessions/memory-session-store.ts:420-428 *)
Definition lastUserMessages (sessionIds : list string) (st : SessionStore) : jsmap string string :=
  foldl (fun out id =>
    match last (turns_of id st) with
    | Some e => <[id := userMessagePreview e.(e_payload) 100]> out
    | None => out
    end) ∅ sessionIds.

(** [CronGroupSummary] src/src/sessions/session-store.ts:161-169 *)
Record CronGroupSummary := MkCronGroup {
  g_cronId : string;
  g_scopeId : string;
  g_sessions : Z;
  g_turns : Z;
  g_messages : Z;
  g_lastActivity : Z;
  g_createdAt : Z;
}.

(** [scopeCronGroups] src/src/sessions/memory-session-store.ts:432-454 *)
Definition add_to_group (scope : string) (orgWide : bool) (st : SessionStore)
    (groups : jsmap string CronGroupSummary) (s : Session) : jsmap string CronGroupSummary :=
  if negb orgWide && (s.(s_scopeId) !== scope) then groups
  else
    match cronIdOf (Some s.(s_threadRef)) with
    | Some cronId =>
        if negb (truthy cronId) then groups
        else
          let g := groups !! cronId ?? MkCronGroup cronId s.(s_scopeId) 0 0 0 0 s.(s_createdAt) in
          <[cronId := MkCronGroup g.(g_cronId) g.(g_scopeId) (g.(g_sessions) + 1)
              (g.(g_turns) + Z.of_nat (length (turns_of s.(s_id) st))) (g.(g_messages) + log_length s.(s_id) st)
              (Z.max g.(g_lastActivity) (last_activity s st)) (Z.min g.(g_createdAt) s.(s_createdAt))]> groups
    | None => groups
    end.

(** [scopeCronGroups] src/src/sessions/memory-session-store.ts:430-461 *)
Definition scopeCronGroups (scope : string) (orgWide : bool) (st : SessionStore) : list CronGroupSummary :=
  js_sort (fun a b => if b.(g_lastActivity) !== a.(g_lastActivity) then b.(g_lastActivity) - a.(g_lastActivity)
                      else idDesc a.(g_cronId) b.(g_cronId))
    (values (foldl (add_to_group scope orgWide st) ∅ (values st.(sessions)))).

(** [sessionBucket] src/src/sessions/session-store.ts:312-314 *)
Definition sessionBucket (o : SessionOrigin) (t : SessionType) : string :=
  if o === conversation then session_type_name t else origin_name o.

(** [ScopeSessionStats] src/src/sessions/session-store.ts:171-178
    With the cron ids themselves, which the result counts. *)
Record ScopeSessionStats := MkStats {
  total : Z;
  turns : Z;
  byType : jsmap string Z;
  byTypeAll : jsmap string Z;
  conversations : Z;
  backgrounds : Z;
  all_sessions : Z;
  cronIds : list string;
}.
Definition no_stats : ScopeSessionStats := MkStats 0 0 ∅ ∅ 0 0 0 [].
Definition count_in (bucket : string) (m : jsmap string Z) : jsmap string Z := <[bucket := (m !! bucket ?? 0) + 1]> m.

(** [scopeSessionStats] src/src/sessions/memory-session-store.ts:470-492 *)
Definition add_to_stats (scope : string) (orgWide : bool) (category : option SessionCategory)
    (originFilter : option SessionOriginFilter) (cronId : option string) (st : SessionStore)
    (a : ScopeSessionStats) (s : Session) : ScopeSessionStats :=
  if negb orgWide && (s.(s_scopeId) !== scope) then a
  else
    let origin := sessionOrigin (Some s.(s_threadRef)) in
    let bucket := sessionBucket origin s.(s_type) in
    let conv := origin === conversation in
    let ids := match cronIdOf (Some s.(s_threadRef)) with Some id => set_add id a.(cronIds) | None => a.(cronIds) end in
    let a := MkStats a.(total) a.(turns) a.(byType) (count_in bucket a.(byTypeAll))
      (a.(conversations) + if conv then 1 else 0) (a.(backgrounds) + if conv then 0 else 1)
      (a.(all_sessions) + 1) ids in
    if category_matches category origin && origin_matches originFilter origin && cron_matches cronId s.(s_threadRef)
    then MkStats (a.(total) + 1) (a.(turns) + Z.of_nat (length (turns_of s.(s_id) st)))
           (count_in bucket a.(byType)) a.(byTypeAll) a.(conversations) a.(backgrounds) a.(all_sessions) a.(cronIds)
    else a.

(** [scopeSessionStats] src/src/sessions/memory-session-store.ts:463-494 *)
Definition scopeSessionStats (scope : string) (orgWide : bool) (category : option SessionCategory)
    (originFilter : option SessionOriginFilter) (cronId : option string) (st : SessionStore) : ScopeSessionStats :=
  foldl (add_to_stats scope orgWide category originFilter cronId st) no_stats (values st.(sessions)).

(** [AttributedTurn] src/src/sessions/session-store.ts:273-280 *)
Record AttributedTurn := MkAttributed {
  a_principalId : string;
  a_sessionId : string;
  a_day : Z;
  a_turns : Z;
  a_firstAt : Z;
  a_lastAt : Z;
}.
(** [attributedTurns] src/src/sessions/memory-session-store.ts:497-497 *)
Definition DAY : Z := 86400000.

(** [attributedTurns] src/src/sessions/memory-session-store.ts:503-512
    A day's turns so far: their number, and when the first and the last were. *)
Definition add_to_day (w : Membership) (buckets : jsmap Z (Z * Z * Z)) (e : SessionEntry) : jsmap Z (Z * Z * Z) :=
  if negb (in_window w e) then buckets
  else
    let t := e.(e_createdAt) in
    let day := t / DAY in
    match buckets !! day with
    | Some (turns, firstAt, lastAt) =>
        <[day := (turns + 1, (if t <? firstAt then t else firstAt), (if lastAt <? t then t else lastAt))]> buckets
    | None => <[day := (1, t, t)]> buckets
    end.

(** [attributedTurns] src/src/sessions/memory-session-store.ts:496-519 *)
Definition attributedTurns (st : SessionStore) : list AttributedTurn :=
  concat (map (fun sw : string * jsmap string Membership =>
    let log := turns_of sw.1 st in
    concat (map (fun pw : string * Membership =>
      map (fun b : Z * (Z * Z * Z) =>
             let '(day, (n, firstAt, lastAt)) := b in MkAttributed pw.1 sw.1 day n firstAt lastAt)
        (entries (foldl (add_to_day pw.2) ∅ log))) (entries sw.2))) (entries st.(windows))).
