(* ===== verification/SessionsSafety.v ===== *)
(** * Properties of the session store

    Runs of the operations of [Sessions]: one session per thread, dense logs that only grow,
    leases that exclude and fence, memberships that show exactly the span they cover,
    deletion without residue, and paging that neither skips nor repeats. *)

From S2P Require Import Prelude JsString Json ThreadRef Transcript Sessions.

(** ** Runs of operations *)

(** An operation that changes state, with the id and the clock reading it used. *)
Inductive Op :=
| OGetOrCreate (uuid : string) (now : Z) (threadRef : string) (type : SessionType) (scopeId : string)
    (channelName surface : option string)
| OTitle (sessionId title : string)
| ORoom (sessionId : string) (room : option RoomConfig)
| OAcquire (uuid : string) (now : Z) (sessionId : string) (holder : option LeaseHolder)
| ORelease (lease : Lease)
| OForce (sessionId : string)
| OAppend (now : Z) (lease : Lease) (e : NewEntry)
| OTape (now : Z) (lease : Lease) (rec : NewTapeRecord)
| OLlm (uuid : string) (now : Z) (sessionId : string) (rec : NewLlmRequest)
| OJoin (now : Z) (sessionId principalId : string) (title : option string) (includeHistory : bool)
| OLeave (now : Z) (sessionId principalId : string)
| OView (sessionId principalId : string) (patch : ParticipantViewPatch)
| ODelete (sessionId : string).

Section runs.
Context (ttl : Z).

Definition exec (o : Op) (st : SessionStore) : SessionStore :=
  match o with
  | OGetOrCreate uuid now ref ty scope ch sf => (getOrCreateByThread uuid now ref ty scope ch sf st).2
  | OTitle id t => updateTitle id t st
  | ORoom id r => setRoom id r st
  | OAcquire uuid now id h => (acquireLease ttl uuid now id h st).2
  | ORelease l => releaseLease l st
  | OForce id => forceReleaseLease id st
  | OAppend now l e => (append ttl now l e st).2
  | OTape now l r => (appendTape ttl now l r st).2
  | OLlm uuid now id r => (recordLlmRequest uuid now id r st).2
  | OJoin now id p t h => addParticipant now id p t h st
  | OLeave now id p => removeParticipant now id p st
  | OView id p patch => updateParticipantView id p patch st
  | ODelete id => deleteSession id st
  end.

Definition run (ops : list Op) (st : SessionStore) : SessionStore := foldl (fun st o => exec o st) st ops.

(** A generated session id is not empty and not in use. *)
Definition legal (o : Op) (st : SessionStore) : Prop :=
  match o with
  | OGetOrCreate uuid _ _ _ _ _ _ => truthy uuid = true /\ sessions st !! uuid = None
  | _ => True
  end.
Definition step (st st' : SessionStore) : Prop := exists o, legal o st /\ st' = exec o st.
Definition Reach : SessionStore -> Prop := reachable (fun st => st = empty_sessions) step.

(** ** The invariant *)

Record ok (st : SessionStore) : Prop := {
  ok_session id s : sessions st !! id = Some s ->
    s_id s = id /\ truthy id = true /\ byThread st !! s_threadRef s = Some id /\ is_Some (logs st !! id);
  ok_thread ref id : byThread st !! ref = Some id -> exists s, sessions st !! id = Some s /\ s_threadRef s = ref;
  ok_log id log : logs st !! id = Some log ->
    is_Some (sessions st !! id) /\
    forall i e, log !! i = Some e -> e_seq e = Z.of_nat i /\ e_sessionId e = id;
  ok_tape id l : tape st !! id = Some l ->
    forall i r, l !! i = Some r -> tp_seq r = Z.of_nat i /\ tp_sessionId r = id;
  ok_members id p :
    is_Some (membership id p st) <-> exists l, participants st !! p = Some l /\ id ∈ l;
  ok_span id p w : membership id p st = Some w ->
    0 <= validFromSeq w <= log_length id st /\
    match validToSeq w with
    | Some t => validFromSeq w <= t <= log_length id st /\ is_Some (validTo w)
    | None => validTo w = None
    end;
}.

Lemma ok_empty : ok empty_sessions.
Proof.
  split; try done. intros id p. split; [by intros [? ?]|by intros (? & ? & ?)].
Qed.

(** *** What an operation leaves alone *)

(** Operations on leases and transcripts of requests touch nothing the invariant reads. *)
Lemma ok_frame st st' :
  sessions st' = sessions st -> logs st' = logs st -> tape st' = tape st -> byThread st' = byThread st ->
  participants st' = participants st -> windows st' = windows st -> ok st -> ok st'.
Proof.
  destruct st, st'; simpl. intros -> -> -> -> -> -> [H1 H2 H3 H4 H5 H6]. split; assumption.
Qed.

(** Mutation of the sessions that keeps their ids and threads. *)
Lemma ok_alter_session st (f : Session -> Session) id :
  (forall s, s_id (f s) = s_id s) -> (forall s, s_threadRef (f s) = s_threadRef s) ->
  ok st -> ok (st <| sessions := alter f id (sessions st) |>).
Proof.
  intros Hid Href [H1 H2 H3 H4 H5 H6]. destruct st; split; simpl in *; try done.
  - intros id' s. rewrite lookup_alter_jsmap. case_decide; [|by apply H1].
    destruct (_ !! id') as [s0|] eqn:E; [|done]. intros [= <-]. rewrite Hid, Href. by apply H1.
  - intros ref id' Hr. destruct (H2 _ _ Hr) as (s & Hs & Hsr). rewrite lookup_alter_jsmap, Hs.
    case_decide; [|eauto]. eexists. split; [done|]. by rewrite Href.
  - intros id' log Hl. destruct (H3 _ _ Hl) as [[s Hs] Hd]. split; [|done].
    rewrite lookup_alter_jsmap, Hs. by case_decide.
Qed.

Lemma refresh_names_id ch sf s : s_id (refresh_names ch sf s) = s_id s.
Proof. unfold refresh_names. by destruct s; repeat case_match. Qed.
Lemma refresh_names_thread ch sf s : s_threadRef (refresh_names ch sf s) = s_threadRef s.
Proof. unfold refresh_names. by destruct s; repeat case_match. Qed.

Lemma getByThread_None st ref : ok st -> getByThread ref st = None -> byThread st !! ref = None.
Proof.
  intros Hok. unfold getByThread. destruct (byThread st !! ref) as [id|] eqn:E; [|done].
  destruct (ok_thread _ Hok _ _ E) as (s & Hs & _). destruct (ok_session _ Hok _ _ Hs) as (_ & -> & _). by rewrite Hs.
Qed.
Lemma getByThread_Some st ref s :
  ok st -> getByThread ref st = Some s <-> sessions st !! s_id s = Some s /\ s_threadRef s = ref.
Proof.
  intros Hok. unfold getByThread. split.
  - destruct (byThread st !! ref) as [id|] eqn:E; [|done]. destruct (truthy id); [|done]. intros Hs.
    destruct (ok_thread _ Hok _ _ E) as (s' & Hs' & Hr). simplify_eq.
    by destruct (ok_session _ Hok _ _ Hs) as (-> & _).
  - intros [Hs <-]. destruct (ok_session _ Hok _ _ Hs) as (_ & Ht & -> & _). by rewrite Ht.
Qed.

Lemma lookup_set_cases {K V} `{EqDecision K} (m : jsmap K V) k v k' x :
  <[k := v]> m !! k' = Some x -> (k' = k /\ x = v) \/ (k' <> k /\ m !! k' = Some x).
Proof. rewrite lookup_set. case_decide; [intros [= <-]; auto|auto]. Qed.

Lemma log_length_set id l st id' :
  log_length id' (st <| logs := <[id := l]> (logs st) |>) =
    if decide (id = id') then Z.of_nat (length l) else log_length id' st.
Proof. unfold log_length. destruct st; simpl. rewrite lookup_set. by case_decide. Qed.
(** *** Preservation *)

Lemma ok_getOrCreate st uuid now ref ty scope ch sf :
  truthy uuid = true -> sessions st !! uuid = None -> ok st ->
  ok (getOrCreateByThread uuid now ref ty scope ch sf st).2.
Proof.
  intros Ht Hfresh Hok. unfold getOrCreateByThread. destruct (getByThread ref st) as [s0|] eqn:E.
  { apply ok_alter_session; auto using refresh_names_id, refresh_names_thread. }
  apply getByThread_None in E; [|done]. destruct Hok as [H1 H2 H3 H4 H5 H6].
  assert (Hlog : logs st !! uuid = None).
  { destruct (logs st !! uuid) eqn:El; [|done]. destruct (H3 _ _ El) as [[? ?] _]. congruence. }
  destruct st as [ss lg tp lr bt ps ws le]; split; simpl in *.
  - intros id s [[-> ->]|[Hne Hs]]%lookup_set_cases; simpl.
    + rewrite !lookup_set_eq. eauto.
    + destruct (H1 _ _ Hs) as (? & ? & Hb & ?). rewrite !lookup_set_ne by congruence. done.
  - intros r id [[-> ->]|[Hne Hr]]%lookup_set_cases.
    + eexists. rewrite lookup_set_eq. done.
    + destruct (H2 _ _ Hr) as (s & Hs & ?). exists s. rewrite lookup_set_ne by congruence. done.
  - intros id log [[-> ->]|[Hne Hl]]%lookup_set_cases.
    + rewrite lookup_set_eq. split; [eauto|]. intros i e. by rewrite lookup_nil.
    + rewrite lookup_set_ne by congruence. by apply H3.
  - done.
  - done.
  - intros id p w Hw. specialize (H6 id p w Hw). unfold log_length in *. simpl in *.
    rewrite lookup_set. case_decide; [subst id; by rewrite Hlog in H6|done].
Qed.

Lemma holding_true st l : holding l st = true <-> exists h, leases st !! l_sessionId l = Some h /\ h_token h = l_token l.
Proof.
  unfold holding. destruct (leases st !! _) as [h|]; [|split; [done|by intros (? & ? & ?)]].
  rewrite eqb_true. split; [eauto|]. by intros (? & [= ->] & ?).
Qed.

Lemma ok_append st now l e : ok st -> ok (append ttl now l e st).2.
Proof.
  intros Hok. unfold append. destruct (negb (holding l st)); [done|].
  assert (Hok' : ok (renew ttl now l st)) by (by eapply ok_frame; [..|exact Hok]; destruct st).
  cbv zeta. destruct (logs _ !! _) as [log|] eqn:El; [|done]. clear Hok. cbn [snd].
  set (st1 := renew ttl now l st) in *. clearbody st1. destruct Hok' as [H1 H2 H3 H4 H5 H6].
  destruct (H3 _ _ El) as [Hs Hd].
  set (e' := new_entry _ _ _ _). assert (He' : e_seq e' = Z.of_nat (length log) /\ e_sessionId e' = l_sessionId l) by done.
  clearbody e'. destruct st1 as [ss lg tp lr bt ps ws le]; split; simpl in *; try done.
  - intros id s Hid. destruct (H1 _ _ Hid) as (? & ? & ? & ?). rewrite lookup_set. case_decide; eauto.
  - intros id log' [[-> ->]|[Hne Hl]]%lookup_set_cases; [|by apply H3]. split; [done|].
    intros i x [Hx|[Hle [Hi <-]%list_lookup_singleton_Some]]%lookup_app_Some; [by apply Hd|].
    destruct He' as [-> ->]. split; [|done]. lia.
  - intros id p w Hw. specialize (H6 id p w Hw). unfold log_length in *. simpl in *.
    rewrite lookup_set. case_decide; [|done]. subst id. rewrite El in H6. simpl in *. rewrite length_app. simpl.
    destruct (validToSeq w); intuition lia.
Qed.

Lemma ok_tape_append st now l r : ok st -> ok (appendTape ttl now l r st).2.
Proof.
  intros Hok. unfold appendTape. destruct (negb (holding l st)); [done|].
  assert (Hok' : ok (renew ttl now l st)) by (by eapply ok_frame; [..|exact Hok]; destruct st).
  cbv zeta. cbn [snd]. set (st1 := renew ttl now l st) in *. clearbody st1. destruct Hok' as [H1 H2 H3 H4 H5 H6].
  destruct st1 as [ss lg tp lr bt ps ws le]; split; simpl in *; try done.
  intros id log' [[-> ->]|[Hne Hl]]%lookup_set_cases; [|by apply H4].
  intros i x [Hx|[Hle [Hi <-]%list_lookup_singleton_Some]]%lookup_app_Some.
  - destruct (tp !! l_sessionId l) as [log|] eqn:El; simpl in Hx; [by eapply H4|by rewrite lookup_nil in Hx].
  - simpl. split; [|done]. lia.
Qed.

(** What the operations on participants do to memberships. *)
Lemma membership_join now sid q t h st id p :
  membership id p (addParticipant now sid q t h st) =
    if decide (id = sid /\ p = q)
    then Some (join_membership now (log_length sid st) t h (membership sid q st)) else membership id p st.
Proof.
  unfold membership, addParticipant. cbn [windows upd]. destruct st as [ss lg tp lr bt ps ws le]; simpl.
  rewrite lookup_set. case_decide as E1; case_decide as E2; simpl; destruct_and?; subst.
  - rewrite lookup_set_eq. by destruct (ws !! id).
  - rewrite lookup_set_ne by (intros ->; tauto). destruct (ws !! id); simpl; [done|by rewrite lookup_empty_jsmap].
  - done.
  - done.
Qed.
Lemma membership_alter f sid q st id p :
  membership id p (alter_membership f sid q st) =
    if decide (id = sid /\ p = q) then f <$> membership sid q st else membership id p st.
Proof.
  unfold membership, alter_membership. cbn [windows upd]. destruct st as [ss lg tp lr bt ps ws le]; simpl.
  rewrite lookup_alter_jsmap. case_decide as E1; case_decide as E2; destruct_and?; subst; simpl; try done.
  - destruct (ws !! id) as [w|]; simpl; [|done]. by rewrite lookup_alter_jsmap, decide_True.
  - destruct (ws !! id) as [w|]; simpl; [|done]. rewrite lookup_alter_jsmap, decide_False; [done|]. by intros ->; tauto.
Qed.
Lemma membership_delete sid st id p :
  membership id p (deleteSession sid st) = if decide (id = sid) then None else membership id p st.
Proof.
  unfold membership, deleteSession. simpl. rewrite lookup_del.
  case_decide as E1; case_decide as E2; subst; try done.
Qed.

Lemma set_add_elem x y l : x ∈ set_add y l <-> x = y \/ x ∈ l.
Proof.
  unfold set_add. destruct (includes l y) eqn:E; [apply includes_true in E|rewrite elem_of_app, list_elem_of_singleton; tauto].
  split; [tauto|]. by intros [->|?].
Qed.

(** A window that fits its log. *)
Definition span_ok (len : Z) (w : Membership) : Prop :=
  0 <= validFromSeq w <= len /\
  match validToSeq w with
  | Some t => validFromSeq w <= t <= len /\ is_Some (validTo w)
  | None => validTo w = None
  end.
Lemma join_span now len t h m :
  0 <= len -> (forall w, m = Some w -> span_ok len w) -> span_ok len (join_membership now len t h m).
Proof.
  intros Hlen Hm. unfold join_membership.
  destruct m as [w|]; [specialize (Hm w eq_refl)|]; [|by destruct h; unfold span_ok; simpl; split; try done; lia].
  destruct (validTo w === None) eqn:E; simpl; [|destruct h; unfold span_ok; simpl; split; try done; lia].
  to_prop. destruct w as [f to fs ts ti ar pi co]. simpl in E. subst to.
  unfold span_ok in *. simpl in *.
  destruct Hm as [Hf Ht]. destruct ts as [ts|]; [by destruct Ht as [_ [? ?]]|].
  destruct h, t; simpl; split; try done; lia.
Qed.

Lemma ok_join st now sid q t h : ok st -> ok (addParticipant now sid q t h st).
Proof.
  intros Hok. pose proof (membership_join now sid q t h st) as Hm.
  assert (Hspan : forall w, membership sid q st = Some w -> span_ok (log_length sid st) w) by apply Hok.
  destruct Hok as [H1 H2 H3 H4 H5 H6]. split.
  1-4: by destruct st; simpl.
  - intros id p. rewrite Hm. assert (Hp : participants (addParticipant now sid q t h st) =
      <[q := set_add sid (participants st !! q ?? [])]> (participants st)) by (by destruct st).
    rewrite Hp, lookup_set. specialize (H5 id p).
    destruct (decide (q = p)) as [<-|Hne].
    + case_decide as Ec; [destruct Ec as [-> _]|].
      * split; [intros _; eexists; split; [done|]|eauto]. apply set_add_elem. by left.
      * assert (id <> sid) by tauto. rewrite H5. destruct (participants st !! q) as [l|] eqn:El; simpl; split.
        -- intros (l' & [= <-] & Hin). eexists. split; [done|]. apply set_add_elem. by right.
        -- intros (l' & [= <-] & [?|Hin]%set_add_elem); [done|eauto].
        -- by intros (? & ? & _).
        -- intros (l' & [= <-] & [?|Hin%not_elem_of_nil]%set_add_elem); done.
    + rewrite decide_False by (intros [_ ?]; congruence). done.
  - intros id p w. rewrite Hm. assert (Hl : log_length id (addParticipant now sid q t h st) = log_length id st)
      by (by destruct st). rewrite Hl. case_decide as Ec; [destruct Ec as [-> ->]|by apply H6].
    intros [= <-]. apply join_span; [unfold log_length; lia|done].
Qed.

Lemma ok_alter_membership st f sid q :
  (forall w, span_ok (log_length sid st) w -> span_ok (log_length sid st) (f w)) ->
  ok st -> ok (alter_membership f sid q st).
Proof.
  intros Hf Hok. pose proof (membership_alter f sid q st) as Hm.
  destruct Hok as [H1 H2 H3 H4 H5 H6]. split.
  1-4: by destruct st; simpl.
  - intros id p. rewrite Hm. replace (participants (alter_membership f sid q st)) with (participants st) by (by destruct st).
    rewrite <- H5. case_decide as Ec; [destruct Ec as [-> ->]|done]. by rewrite fmap_is_Some.
  - intros id p w. rewrite Hm. replace (log_length id (alter_membership f sid q st)) with (log_length id st) by (by destruct st).
    case_decide as Ec; [destruct Ec as [-> ->]|by apply H6].
    destruct (membership sid q st) as [w0|] eqn:Ew; [|done]. intros [= <-]. by apply Hf, (H6 _ _ _ Ew).
Qed.

(** Deletion takes the session off the list of every participant it had. *)
Lemma forget_fold sid ks ps p :
  NoDup ks ->
  foldl (forget_participant sid) ps ks !! p =
    if decide (p ∈ ks) then js_filter (fun id => id !== sid) <$> ps !! p else ps !! p.
Proof.
  intros Hnd. revert ps. induction Hnd as [|k ks Hk Hnd IH]; intros ps; simpl; [done|].
  rewrite IH. unfold forget_participant. rewrite lookup_alter_jsmap.
  destruct (decide (k = p)) as [->|Hne].
  - rewrite decide_False by done. rewrite decide_True by (by left). done.
  - case_decide as E1; case_decide as E2; try done; rewrite elem_of_cons in E2; naive_solver.
Qed.

Lemma participants_delete st sid p :
  ok st -> participants (deleteSession sid st) !! p = js_filter (fun id => id !== sid) <$> participants st !! p.
Proof.
  intros Hok. unfold deleteSession. simpl.
  assert (Hnd : NoDup (from_option keys [] (windows st !! sid))).
  { destruct (windows st !! sid) as [w|]; [apply keys_NoDup|constructor]. }
  rewrite forget_fold by done. case_decide as E; [done|].
  destruct (participants st !! p) as [l|] eqn:El; [|done]. simpl. f_equal. symmetry. apply js_filter_id.
  intros x Hx. apply negb_true_iff, eqb_false. intros ->. apply E.
  destruct (proj2 (ok_members _ Hok sid p)) as [w Hw]; [eauto|]. unfold membership in Hw.
  destruct (windows st !! sid) as [ws|]; [|done]. simpl in *. apply elem_of_keys. eauto.
Qed.

Lemma ok_delete st sid : ok st -> ok (deleteSession sid st).
Proof.
  intros Hok. pose proof (fun p => participants_delete st sid p Hok) as Hp.
  pose proof (membership_delete sid st) as Hm. destruct Hok as [H1 H2 H3 H4 H5 H6].
  assert (Hthread : forall ref id, byThread (deleteSession sid st) !! ref = Some id -> id <> sid /\ byThread st !! ref = Some id).
  { intros ref id. unfold deleteSession. simpl. destruct (sessions st !! sid) as [s0|] eqn:E0.
    - rewrite lookup_del. case_decide; [done|]. intros Hr. split; [|done]. intros ->.
      destruct (H2 _ _ Hr) as (s & Hs & ?). simplify_eq.
    - intros Hr. split; [|done]. intros ->. destruct (H2 _ _ Hr) as (s & Hs & ?). congruence. }
  assert (Hkeep : forall s id, id <> sid -> sessions st !! id = Some s ->
      byThread (deleteSession sid st) !! s_threadRef s = Some id).
  { intros s id Hne Hs. unfold deleteSession. simpl. destruct (H1 _ _ Hs) as (_ & _ & Hb & _).
    destruct (sessions st !! sid) as [s0|] eqn:E0; [|done]. destruct (H1 _ _ E0) as (_ & _ & Hb0 & _).
    rewrite lookup_del. case_decide; [congruence|done]. }
  split.
  - intros id s. simpl. rewrite lookup_del. case_decide as Ei; [done|]. intros Hs.
    destruct (H1 _ _ Hs) as (? & ? & ? & ?). split_and!; [done|done|by apply Hkeep|].
    by rewrite lookup_del, decide_False.
  - intros ref id [Hne Hr]%Hthread. destruct (H2 _ _ Hr) as (s & Hs & ?). exists s. simpl.
    by rewrite lookup_del, decide_False.
  - intros id log. simpl. rewrite !lookup_del. case_decide; [done|]. by apply H3.
  - intros id l. simpl. rewrite lookup_del. case_decide; [done|]. by apply H4.
  - intros id p. rewrite Hm, Hp. case_decide as Ei.
    + subst id. split; [by intros [? ?]|]. intros (l & Hl & Hin).
      destruct (participants st !! p); [|done]. injection Hl as <-.
      apply elem_of_js_filter in Hin as [Hin _]. by rewrite eqb_refl in Hin.
    + rewrite H5. split.
      * intros (l & -> & Hin). eexists. split; [done|]. apply elem_of_js_filter.
        split; [by apply negb_true_iff, eqb_false|done].
      * intros (l & Hl & Hin). destruct (participants st !! p) as [l0|]; [|done]. injection Hl as <-.
        apply elem_of_js_filter in Hin as [_ Hin]. eauto.
  - intros id p w. rewrite Hm. case_decide; [done|]. unfold log_length. simpl.
    rewrite lookup_del, decide_False by congruence. by apply H6.
Qed.

Lemma exec_ok o st : legal o st -> ok st -> ok (exec o st).
Proof.
  intros Hl Hok. destruct o; simpl in *.
  - destruct Hl. by apply ok_getOrCreate.
  - by apply ok_alter_session.
  - by apply ok_alter_session.
  - unfold acquireLease. destruct (leases st !! sessionId) as [h|]; [destruct (now <? h_expiresAt h)|];
      [done| |]; by eapply ok_frame; [..|exact Hok].
  - unfold releaseLease. destruct (_ === _); [|done]. by eapply ok_frame; [..|exact Hok].
  - by eapply ok_frame; [..|exact Hok].
  - by apply ok_append.
  - by apply ok_tape_append.
  - by eapply ok_frame; [..|exact Hok].
  - by apply ok_join.
  - apply ok_alter_membership; [|done]. intros [f to fs ts ti ar pi co]. unfold leave_membership, span_ok. simpl.
    unfold log_length. destruct (to === None) eqn:E; simpl; [|done]. intros [? Ht]. to_prop. split; [done|].
    split; [|eauto]. lia.
  - apply ok_alter_membership; [|done]. intros [f to fs ts ti ar pi co]. unfold patch_membership, span_ok.
    destruct patch as [[] [] [] []]; simpl; done.
  - by apply ok_delete.
Qed.

Lemma reach_ok st : Reach st -> ok st.
Proof.
  apply invariant_reachable; [by intros ? ->; apply ok_empty|]. intros s s' Hok (o & Hl & ->). by apply exec_ok.
Qed.

(** One session a thread.  In every reachable state a thread leads to a session exactly
    when some session has that thread, so a thread has one session, and looking it up finds
    it; asking for a thread's session answers the one it has, or a new one for that thread,
    and asking again answers the same. *)
Theorem session_per_thread st :
  Reach st ->
  (forall s1 s2, s1 ∈ listAll st -> s2 ∈ listAll st -> s_threadRef s1 = s_threadRef s2 -> s1 = s2) /\
  (forall ref s, getByThread ref st = Some s <-> s ∈ listAll st /\ s_threadRef s = ref) /\
  (forall uuid now ref ty scope ch sf, truthy uuid = true -> get uuid st = None ->
     let '(s, st') := getOrCreateByThread uuid now ref ty scope ch sf st in
     s_threadRef s = ref /\ getByThread ref st' = Some s /\
     (getByThread ref st = None -> listAll st' = listAll st ++ [s]) /\
     (forall s0, getByThread ref st = Some s0 -> s_id s = s_id s0)).
Proof.
  intros Hok%reach_ok.
  assert (Hall : forall s, s ∈ listAll st <-> sessions st !! s_id s = Some s).
  { intros s. unfold listAll. rewrite elem_of_values. split; [|eauto]. intros [id Hid].
    by destruct (ok_session _ Hok _ _ Hid) as (-> & _). }
  assert (Hget : forall ref s, getByThread ref st = Some s <-> s ∈ listAll st /\ s_threadRef s = ref).
  { intros ref s. rewrite Hall. by apply getByThread_Some. }
  split_and!; [|exact Hget|].
  - intros s1 s2 H1 H2 Href. assert (Hs : getByThread (s_threadRef s1) st = Some s1) by (by apply Hget).
    rewrite Href in Hs. rewrite (proj2 (Hget _ s2)) in Hs by done. by injection Hs.
  - intros uuid now ref ty scope ch sf Ht Hf.
    pose proof (ok_getOrCreate st uuid now ref ty scope ch sf Ht Hf Hok) as Hok'. revert Hok'.
    unfold getOrCreateByThread. destruct (getByThread ref st) as [s|] eqn:E; simpl; intros Hok'.
    + apply Hget in E as [Hin Href]. apply Hall in Hin.
      destruct (ok_session _ Hok _ _ Hin) as (_ & _ & Hb & _). rewrite Href in Hb.
      rewrite refresh_names_thread, refresh_names_id. split_and!; [done| |done|by intros ? [= <-]].
      rewrite getByThread_Some by done. rewrite refresh_names_id, refresh_names_thread. split; [|done].
      destruct st; simpl in *. by rewrite Hb; simpl; rewrite lookup_alter_jsmap, decide_True, Hin.
    + split_and!; [done| | |done].
      * rewrite getByThread_Some by done. simpl. split; [|done]. destruct st; simpl. by rewrite lookup_set_eq.
      * intros _. destruct st; unfold listAll; simpl in *. by apply values_set_fresh.
Qed.

(** *** Logs only grow *)

Definition log_of (id : string) (st : SessionStore) : list SessionEntry := logs st !! id ?? [].

Lemma log_of_length id st : log_length id st = Z.of_nat (length (log_of id st)).
Proof. done. Qed.

Lemma append_cases st now l e :
  let '(r, st') := append ttl now l e st in
  match r with
  | Ok full =>
      holding l st = true /\ full = new_entry now (l_sessionId l) (log_length (l_sessionId l) st) e /\
      log_of (l_sessionId l) st' = log_of (l_sessionId l) st ++ [full] /\
      (forall id, id <> l_sessionId l -> log_of id st' = log_of id st)
  | Throw _ => forall id, log_of id st' = log_of id st
  end.
Proof.
  unfold append. destruct (holding l st); simpl; [|done]. unfold log_of, log_length.
  replace (logs (renew ttl now l st)) with (logs st) by (by destruct st).
  destruct (logs st !! l_sessionId l) as [log|] eqn:El; simpl.
  - destruct st as [ss lg tp lr bt ps ws le]; simpl in *. rewrite lookup_set_eq. split_and!; [done|done|done|].
    intros id Hne. by rewrite lookup_set_ne.
  - intros id. by destruct st.
Qed.

(** Every step but the deletion of the session extends its log. *)
Lemma exec_log o st id :
  legal o st -> ok st -> o <> ODelete id -> log_of id st `prefix_of` log_of id (exec o st).
Proof.
  intros Hleg Hok Hne. destruct o; simpl; try (destruct st; done).
  - unfold getOrCreateByThread. destruct (getByThread _ _); simpl; [by destruct st|]. destruct Hleg as [_ Hf].
    unfold log_of. destruct (decide (uuid = id)) as [<-|Hid].
    + destruct (logs st !! uuid) as [log|] eqn:El; [|by apply prefix_nil].
      destruct (ok_log _ Hok _ _ El) as [[? ?] _]. congruence.
    + destruct st; simpl. by rewrite lookup_set_ne.
  - unfold acquireLease. destruct st as [ss lg tp lr bt ps ws le]; simpl.
    destruct (le !! sessionId) as [h|]; [destruct (now <? h_expiresAt h)|]; done.
  - unfold releaseLease. destruct (_ === _); [by destruct st|done].
  - pose proof (append_cases st now lease e) as Ha. destruct (append ttl now lease e st) as [[full|err] st']; simpl.
    + destruct Ha as (_ & _ & Hl & Ho). destruct (decide (id = l_sessionId lease)) as [->|Hid]; [|by rewrite Ho].
      rewrite Hl. by apply prefix_app_r.
    + by rewrite Ha.
  - unfold appendTape. destruct (negb _); [done|]. by destruct st.
  - unfold log_of, deleteSession. simpl. rewrite lookup_del, decide_False by congruence. done.
Qed.

(** A run whose steps are legal, each in its state. *)
Fixpoint legal_run (ops : list Op) (st : SessionStore) : Prop :=
  match ops with [] => True | o :: ops => legal o st /\ legal_run ops (exec o st) end.

Lemma legal_run_reach ops st : legal_run ops st -> Reach st -> Reach (run ops st).
Proof.
  revert st. induction ops as [|o ops IH]; intros st; simpl; [done|]. intros [Hl Hr] HR.
  apply IH; [done|]. eapply reachable_step; [exact HR|]. by exists o.
Qed.
Lemma run_log ops st id :
  legal_run ops st -> ok st -> (forall o, o ∈ ops -> o <> ODelete id) ->
  log_of id st `prefix_of` log_of id (run ops st).
Proof.
  revert st. induction ops as [|o ops IH]; intros st; simpl; [done|]. intros [Hl Hr] Hok Ho.
  etrans; [apply exec_log; [done|done|apply Ho; by left]|].
  apply IH; [done|by apply exec_ok|]. intros o' ?. apply Ho. by right.
Qed.

Lemma dense_log st id : ok st -> forall i e, log_of id st !! i = Some e -> e_seq e = Z.of_nat i /\ e_sessionId e = id.
Proof.
  intros Hok i e. unfold log_of. destruct (logs st !! id) as [log|] eqn:El; simpl; [|by rewrite lookup_nil].
  by apply (ok_log _ Hok _ _ El).
Qed.

(** C8: the log is dense and append-only.  In every reachable state the entries of a log are
    numbered 0, 1, 2, ... without gaps; only the holder of the current lease can append, the
    entry goes to the end with the next number and, unless told otherwise, threads onto the
    entry before it; and until the session is deleted nothing written is ever changed. *)
Theorem log_dense_append_only st id :
  Reach st ->
  (forall i e, log_of id st !! i = Some e -> e_seq e = Z.of_nat i /\ e_sessionId e = id) /\
  (forall now token e full st', append ttl now (MkLease id token) e st = (Ok full, st') ->
     holding (MkLease id token) st = true /\ log_of id st' = log_of id st ++ [full] /\
     (n_parentSeq e = None -> e_parentSeq full = e_seq <$> last (log_of id st)) /\
     (forall id', id' <> id -> log_of id' st' = log_of id' st)) /\
  (forall ops, legal_run ops st -> (forall o, o ∈ ops -> o <> ODelete id) ->
     log_of id st `prefix_of` log_of id (run ops st)).
Proof.
  intros HR. pose proof (reach_ok _ HR) as Hok. pose proof (dense_log st id Hok) as Hd.
  split_and!; [exact Hd| |intros ops Hl Ho; by apply run_log].
  intros now token e full st' Ha. pose proof (append_cases st now (MkLease id token) e) as Hc.
  rewrite Ha in Hc. destruct Hc as (Hh & -> & Hl & Ho). split_and!; [done|done| |done].
  intros Hp. unfold new_entry. rewrite Hp. cbn [e_parentSeq l_sessionId]. rewrite log_of_length, last_lookup.
  destruct (length (log_of id st)) as [|n] eqn:En.
  - by apply nil_length_inv in En as ->.
  - rewrite (proj2 (eqb_false (Z.of_nat (S n)) 0)) by lia. cbn [pred].
    destruct (lookup_lt_is_Some_2 (log_of id st) n) as [x Hx]; [lia|]. rewrite Hx. simpl.
    destruct (Hd _ _ Hx) as [-> _]. f_equal. lia.
Qed.

(** *** Leases *)

(** A step keeps the lease of a session, renews it, grants it anew, or ends it. *)
Inductive lease_change (sid : string) (st : SessionStore) : Op -> SessionStore -> Prop :=
| lc_same o st' : leases st' !! sid = leases st !! sid -> lease_change sid st o st'
| lc_renew o now h st' : leases st !! sid = Some h ->
    (exists l, l_sessionId l = sid /\ ((exists e, o = OAppend now l e) \/ (exists r, o = OTape now l r))) ->
    leases st' !! sid = Some (h <| h_expiresAt := now + ttl |>) -> lease_change sid st o st'
| lc_grant uuid now holder st' :
    (forall h, leases st !! sid = Some h -> h_expiresAt h <= now) ->
    leases st' !! sid = Some (MkHeld uuid (now + ttl) now holder) ->
    lease_change sid st (OAcquire uuid now sid holder) st'
| lc_end o st' :
    (o = OForce sid \/ o = ODelete sid \/
     exists l, o = ORelease l /\ l_sessionId l = sid /\ (h_token <$> leases st !! sid) = Some (l_token l)) ->
    leases st' !! sid = None -> lease_change sid st o st'.

Lemma renew_leases now l st sid :
  leases (renew ttl now l st) !! sid =
    if decide (l_sessionId l = sid) then (fun h => h <| h_expiresAt := now + ttl |>) <$> leases st !! sid
    else leases st !! sid.
Proof. unfold renew. destruct st; simpl. apply lookup_alter_jsmap. Qed.

Lemma exec_lease o st sid : lease_change sid st o (exec o st).
Proof.
  destruct o; simpl; try (apply lc_same; by destruct st).
  - apply lc_same. unfold getOrCreateByThread. by destruct (getByThread _ _); destruct st.
  - unfold acquireLease. set (h' := MkHeld _ _ _ _). assert (Hh : forall hs, leases (st <| leases := <[sessionId := hs]> (leases st) |>) !! sid =
      if decide (sessionId = sid) then Some hs else leases st !! sid) by (intros; destruct st; apply lookup_set).
    destruct (leases st !! sessionId) as [h|] eqn:El; [destruct (now <? h_expiresAt h) eqn:Et; to_prop; [by apply lc_same|]|];
      destruct (decide (sessionId = sid)) as [->|Hne].
    + apply lc_grant; cbn [snd]; [rewrite El; by intros ? [= <-]|]. exact (Hh _).
    + apply lc_same. exact (Hh _).
    + apply lc_grant; cbn [snd]; [by rewrite El|]. exact (Hh _).
    + apply lc_same. exact (Hh _).
  - unfold releaseLease. destruct (_ === _) eqn:E; [|by apply lc_same]. to_prop.
    destruct (decide (l_sessionId lease = sid)) as [<-|Hne].
    + apply lc_end; [right; right; eauto|]. destruct st; simpl. by rewrite lookup_del, decide_True.
    + apply lc_same. destruct st; simpl. by rewrite lookup_del, decide_False.
  - destruct (decide (sessionId = sid)) as [->|Hne].
    + apply lc_end; [by left|]. destruct st; simpl. by rewrite lookup_del, decide_True.
    + apply lc_same. destruct st; simpl. by rewrite lookup_del, decide_False.
  - unfold append. destruct (holding lease st) eqn:Eh; [|by apply lc_same].
    apply holding_true in Eh as (h & Hh & _).
    assert (Hr : forall st', leases st' = leases (renew ttl now lease st) -> lease_change sid st (OAppend now lease e) st').
    { intros st' Hst. pose proof (renew_leases now lease st sid) as Hl. rewrite <- Hst in Hl.
      destruct (decide (l_sessionId lease = sid)) as [<-|Hne]; [|by apply lc_same].
      rewrite Hh in Hl. eapply lc_renew; [done|eexists; split; [done|left; by eexists]|done]. }
    cbv zeta. simpl. destruct (logs _ !! _); by apply Hr; destruct st.
  - unfold appendTape. destruct (holding lease st) eqn:Eh; [|by apply lc_same].
    apply holding_true in Eh as (h & Hh & _). cbv zeta. simpl.
    match goal with |- lease_change _ _ _ ?s => set (st' := s) end.
    pose proof (renew_leases now lease st sid) as Hl.
    replace (leases (renew ttl now lease st)) with (leases st') in Hl by (by destruct st).
    destruct (decide (l_sessionId lease = sid)) as [<-|Hne]; [|by apply lc_same].
    rewrite Hh in Hl. eapply lc_renew; [done|eexists; split; [done|right; by eexists]|done].
  - destruct (decide (sessionId = sid)) as [->|Hne].
    + apply lc_end; [right; by left|]. simpl. by rewrite lookup_del, decide_True.
    + apply lc_same. simpl. by rewrite lookup_del, decide_False.
Qed.

(** A token that is not current stays so until it is drawn again. *)
Definition draws (tok sid : string) (o : Op) : Prop := exists now h, o = OAcquire tok now sid h.

Lemma exec_stale o st sid tok :
  ~ draws tok sid o -> (h_token <$> leases st !! sid) <> Some tok -> (h_token <$> leases (exec o st) !! sid) <> Some tok.
Proof.
  intros Hd Hn. destruct (exec_lease o st sid) as [o st' ->|o now h st' Hh _ ->|uuid now holder st' _ ->|o st' _ ->]; try done.
  - by rewrite Hh in Hn.
  - simpl. intros [= ->]. apply Hd. by eexists _, _.
Qed.
Lemma run_stale ops st sid tok :
  (forall o, o ∈ ops -> ~ draws tok sid o) -> (h_token <$> leases st !! sid) <> Some tok ->
  (h_token <$> leases (run ops st) !! sid) <> Some tok.
Proof.
  revert st. induction ops as [|o ops IH]; intros st Hd Hn; simpl; [done|]. apply IH.
  - intros o' ?. apply Hd. by right.
  - apply exec_stale; [|done]. apply Hd. by left.
Qed.

(** The clock reading of a step that looks at leases or renews them. *)
Definition lease_clock (o : Op) : option Z :=
  match o with OAcquire _ now _ _ | OAppend now _ _ | OTape now _ _ => Some now | _ => None end.
(** Steps that end a lease before its time. *)
Definition ends (lease : Lease) (o : Op) : Prop :=
  o = ORelease lease \/ o = OForce (l_sessionId lease) \/ o = ODelete (l_sessionId lease).

Lemma holding_token l st : holding l st = true <-> (h_token <$> leases st !! l_sessionId l) = Some (l_token l).
Proof.
  rewrite holding_true. destruct (leases st !! _) as [h|]; simpl; split.
  - by intros (? & [= <-] & ->).
  - intros [= Ht]. eauto.
  - by intros (? & ? & _).
  - done.
Qed.

Lemma run_exclusive ops st l from :
  (exists h, leases st !! l_sessionId l = Some h /\ h_token h = l_token l /\ from + ttl <= h_expiresAt h) ->
  (forall o, o ∈ ops -> ~ ends l o) ->
  (forall o now, o ∈ ops -> lease_clock o = Some now -> from <= now < from + ttl) ->
  exists h, leases (run ops st) !! l_sessionId l = Some h /\ h_token h = l_token l /\ from + ttl <= h_expiresAt h.
Proof.
  revert st. induction ops as [|o ops IH]; intros st Hh He Hc; simpl; [done|].
  apply IH; [|intros ? ?; apply He; by right|intros o' now' Hin; apply (Hc o'); by right].
  assert (Hin : o ∈ o :: ops) by (by left). specialize (He o Hin). specialize (fun now => Hc o now Hin). clear IH Hin.
  destruct Hh as (h & Hh & Ht & Hx).
  destruct (exec_lease o st (l_sessionId l)) as [o st' ->|o now h' st' Hh' (l' & _ & Ho) ->|uuid now holder st' Hold ->|o st' Ho Hn].
  - eauto.
  - eexists. split; [done|]. rewrite Hh in Hh'. injection Hh' as <-. destruct h; simpl in *. split; [done|].
    destruct (Hc now); [by destruct Ho as [[? ->]|[? ->]]|lia].
  - specialize (Hold _ Hh). destruct (Hc now eq_refl). lia.
  - exfalso. apply He. unfold ends. destruct Ho as [->|[->|(l' & -> & Hs & Hl)]]; [tauto|tauto|].
    left. rewrite Hh in Hl. simpl in Hl. destruct l, l'; simpl in *. congruence.
Qed.

(** C6: the lease excludes and fences.  A lease on a session is granted only when there is
    none or the one there has run out.  From then on, whatever else happens, no other lease
    ever writes again to the session, in the log or on the tape, nor can it be released in
    place of the new one; and until its time is up, unless it is given up, forced or the
    session deleted, the new holder holds it and everyone else is refused. *)
Theorem lease_excludes_and_fences st uuid now sid holder a st1 lease :
  acquireLease ttl uuid now sid holder st = (a, st1) -> la_lease a = Some lease ->
  lease = MkLease sid uuid /\
  (forall h, leases st !! sid = Some h -> h_expiresAt h <= now) /\
  (forall tok ops, tok <> uuid -> (forall o, o ∈ ops -> ~ draws tok sid o) ->
     let st2 := run ops st1 in let stale := MkLease sid tok in
     (forall t e, append ttl t stale e st2 = (Throw "append without a valid session lease", st2)) /\
     (forall t r, appendTape ttl t stale r st2 = (Throw "tape append without a valid session lease", st2)) /\
     releaseLease stale st2 = st2) /\
  (forall ops, (forall o, o ∈ ops -> ~ ends lease o) ->
     (forall o t, o ∈ ops -> lease_clock o = Some t -> now <= t < now + ttl) ->
     let st2 := run ops st1 in
     holding lease st2 = true /\
     forall uuid' t h', t < now + ttl -> la_lease (acquireLease ttl uuid' t sid h' st2).1 = None).
Proof.
  intros Ha Hl.
  assert (Hg : lease = MkLease sid uuid /\ (forall h, leases st !! sid = Some h -> h_expiresAt h <= now) /\
               leases st1 !! sid = Some (MkHeld uuid (now + ttl) now holder)).
  { unfold acquireLease in Ha. destruct (leases st !! sid) as [h|] eqn:El; [destruct (now <? h_expiresAt h) eqn:Et|];
      to_prop; injection Ha as <- <-; [done| |]; simpl in Hl; injection Hl as <-; split_and!; try done.
    - by intros ? [= <-].
    - destruct st; simpl. by rewrite lookup_set_eq.
    - destruct st; simpl. by rewrite lookup_set_eq. }
  clear Ha Hl. destruct Hg as (-> & Hold & H1). split_and!; [done|done| |].
  - intros tok ops Hne Hd st2 stale.
    assert (Hs : (h_token <$> leases st2 !! sid) <> Some tok) by (apply run_stale; [done|rewrite H1; simpl; congruence]).
    assert (Hh : holding stale st2 = false).
    { apply not_true_is_false. by rewrite holding_token. }
    split_and!; [intros; unfold append; by rewrite Hh|intros; unfold appendTape; by rewrite Hh|].
    unfold releaseLease. by rewrite (proj2 (eqb_false _ _)).
  - intros ops He Hc st2. destruct (run_exclusive ops st1 (MkLease sid uuid) now) as (h & Hh & Ht & Hx).
    + simpl. rewrite H1. eexists. split_and!; [done|done|simpl; lia].
    + done.
    + done.
    + simpl in *. fold st2 in Hh. split; [rewrite holding_true; eauto|].
      intros uuid' t h' Hlt. unfold acquireLease. rewrite Hh.
      by rewrite (proj2 (Z.ltb_lt _ _)) by lia.
Qed.

(** *** Memberships *)

Definition span (w : Membership) : Z * option Z := (validFromSeq w, validToSeq w).
(** Steps that change who is a participant, or drop the log. *)
Definition touches (sid p : string) (o : Op) : Prop :=
  match o with
  | OJoin _ id q _ _ | OLeave _ id q => id = sid /\ q = p
  | ODelete id => id = sid
  | _ => False
  end.

Lemma exec_span o st sid p :
  ~ touches sid p o -> span <$> membership sid p (exec o st) = span <$> membership sid p st.
Proof.
  intros Ht. destruct o; simpl in *; try (by destruct st).
  - unfold getOrCreateByThread. by destruct (getByThread _ _); destruct st.
  - unfold acquireLease. destruct (leases st !! _) as [h|]; [destruct (now <? h_expiresAt h)|]; by destruct st.
  - unfold releaseLease. destruct (_ === _); by destruct st.
  - unfold append. destruct (negb _); [done|]. cbv zeta. destruct (logs _ !! _); by destruct st.
  - unfold appendTape. destruct (negb _); [done|]. by destruct st.
  - rewrite membership_join, decide_False; [done|]. by intros [-> ->]; apply Ht.
  - unfold removeParticipant. rewrite membership_alter, decide_False; [done|]. by intros [-> ->]; apply Ht.
  - unfold updateParticipantView. rewrite membership_alter. case_decide as E; [destruct E as [-> ->]|done].
    destruct (membership _ _ st) as [w|]; [|done]. simpl. f_equal.
    destruct patch as [[] [] [] []], w; done.
  - rewrite membership_delete, decide_False; [done|]. intros ->. by apply Ht.
Qed.

Lemma run_span ops st sid p :
  (forall o, o ∈ ops -> ~ touches sid p o) -> span <$> membership sid p (run ops st) = span <$> membership sid p st.
Proof.
  revert st. induction ops as [|o ops IH]; intros st Ht; simpl; [done|].
  rewrite IH by (intros o' ?; apply Ht; by right). apply exec_span, Ht. by left.
Qed.

(** The entries a window shows, on a dense log. *)
Lemma window_of_dense (log : list SessionEntry) w from :
  (forall i e, log !! i = Some e -> e_seq e = Z.of_nat i) -> validFromSeq w = Z.of_nat from ->
  js_filter (in_window w) log =
    drop from (match validToSeq w with Some t => take (Z.to_nat t) log | None => log end).
Proof.
  intros Hd Hf.
  assert (Hgen : forall k, (k <= length log)%nat -> js_filter (in_window w) (take k log) =
    drop from (match validToSeq w with Some t => take (Z.to_nat t) (take k log) | None => take k log end)).
  { induction k as [|k IH]; intros Hk.
    - rewrite take_0. cbn [js_filter]. destruct (validToSeq w); rewrite ?take_nil; by destruct from.
    - destruct (lookup_lt_is_Some_2 log k) as [e He]; [lia|]. rewrite (take_S_r _ _ _ He), js_filter_app, IH by lia.
      cbn [js_filter]. unfold in_window. rewrite Hf, (Hd _ _ He).
      assert (Hlen : length (take k log) = k) by (rewrite length_take; lia).
      destruct (Z.of_nat from <=? Z.of_nat k) eqn:E1; to_prop; destruct (validToSeq w) as [t|]; cbn [andb].
      + destruct (Z.of_nat k <? t) eqn:E2; to_prop.
        * rewrite (take_ge (take k log)), (take_ge (take k log ++ [e])) by (rewrite ?length_app; simpl; lia).
          by rewrite drop_app_le by lia.
        * rewrite app_nil_r, take_app_le by lia. done.
      + by rewrite drop_app_le by lia.
      + rewrite app_nil_r, !drop_ge; [done| |]; rewrite ?length_take, ?length_app, ?Hlen; simpl; lia.
      + rewrite app_nil_r, !drop_ge; [done| |]; rewrite ?length_app, ?Hlen; simpl; lia. }
  specialize (Hgen (length log)). rewrite take_ge in Hgen by lia. apply Hgen. lia.
Qed.

Lemma visible_span st sid p from to :
  ok st -> span <$> membership sid p st = Some (Z.of_nat from, to) ->
  visibleEntries sid p st = drop from (match to with Some t => take (Z.to_nat t) (log_of sid st) | None => log_of sid st end).
Proof.
  intros Hok Hs. unfold visibleEntries. destruct (membership sid p st) as [w|]; [|done].
  injection Hs as Hf <-. apply window_of_dense; [|done]. intros i e Hi.
  by apply (dense_log _ _ Hok) in Hi as [? _].
Qed.

Lemma run_ok ops st : legal_run ops st -> ok st -> ok (run ops st).
Proof.
  revert st. induction ops as [|o ops IH]; intros st; simpl; [done|]. intros [Hl Hr] Hok. apply IH; [done|by apply exec_ok].
Qed.

(** C7: a participant sees the span of the membership.  Someone who joins without history
    sees, while a participant, exactly what is written after joining; after leaving, exactly
    what was written in between, however the log grows afterwards and whoever else comes and
    goes; someone who joins with history sees the log from its start. *)
Theorem participant_sees_membership_span st now sid p title history ops now' ops' :
  Reach st ->
  (forall w, membership sid p st = Some w -> validTo w <> None) ->
  let st1 := addParticipant now sid p title history st in
  let st2 := run ops st1 in
  let st3 := removeParticipant now' sid p st2 in
  let st4 := run ops' st3 in
  legal_run ops st1 -> legal_run ops' st3 ->
  (forall o, o ∈ ops -> ~ touches sid p o) -> (forall o, o ∈ ops' -> ~ touches sid p o) ->
  let joined := if history then 0%nat else length (log_of sid st) in
  visibleEntries sid p st2 = drop joined (log_of sid st2) /\
  visibleEntries sid p st4 = drop joined (log_of sid st2) /\
  log_of sid st2 `prefix_of` log_of sid st4.
Proof.
  intros HR Hm st1 st2 st3 st4 Hl Hl' Ht Ht' joined. pose proof (reach_ok _ HR) as Hok.
  assert (Hok1 : ok st1) by (by apply ok_join).
  assert (Hok2 : ok st2) by (by apply run_ok).
  assert (Hok3 : ok st3) by (by apply (exec_ok (OLeave now' sid p))).
  assert (Hok4 : ok st4) by (by apply run_ok).
  assert (Hs2 : span <$> membership sid p st2 = Some (Z.of_nat joined, None)).
  { unfold st2. rewrite run_span by done. unfold st1. rewrite membership_join, decide_True by done.
    unfold join_membership. destruct (membership sid p st) as [w|]; [|by destruct history].
    rewrite bool_decide_eq_false_2 by (by apply Hm). by destruct history. }
  assert (Hlog3 : log_of sid st3 = log_of sid st2) by (by destruct st2).
  assert (Hpre : log_of sid st2 `prefix_of` log_of sid st4).
  { rewrite <- Hlog3. apply run_log; [done|done|]. intros o Ho ->. by apply (Ht' _ Ho). }
  assert (Hs4 : span <$> membership sid p st4 = Some (Z.of_nat joined, Some (log_length sid st2))).
  { unfold st4. rewrite run_span by done. unfold st3, removeParticipant. rewrite membership_alter, decide_True by done.
    pose proof (ok_span _ Hok2 sid p) as Hsp. destruct (membership sid p st2) as [w|]; [|done].
    specialize (Hsp _ eq_refl) as [_ Hsp]. injection Hs2 as Hf Hto. rewrite Hto in Hsp. cbn [fmap option_fmap option_map]. unfold leave_membership.
    rewrite Hsp. unfold span. simpl. by rewrite Hf. }
  rewrite (visible_span _ _ _ _ _ Hok2 Hs2), (visible_span _ _ _ _ _ Hok4 Hs4). split_and!; [done| |done].
  rewrite log_of_length, Nat2Z.id. destruct Hpre as [k ->]. by rewrite take_app_length.
Qed.

(** *** Deletion *)

(** Deletion leaves nothing behind and touches nothing else.  Once deleted, a session is
    not found by its id or its thread, shows no entry, tape or request to anyone, is on
    nobody's list, has no participants, and no lease on it is held; every other session
    keeps its record, log, tape, memberships and lease, and everyone else's list keeps its
    order. *)
Theorem deleteSession_complete st sid :
  Reach st ->
  let st' := deleteSession sid st in
  (get sid st' = None /\ (forall ref s, getByThread ref st' = Some s -> s_id s <> sid) /\
   (forall p, visibleEntries sid p st' = []) /\ getEntries sid None None st' = [] /\ getTape sid None None st' = [] /\
   listLlmRequests sid None false false st' = [] /\ participantsOf sid st' = [] /\
   (forall p r, r ∈ listByParticipant p st' -> s_id (ps_session r) <> sid) /\
   (forall token, holding (MkLease sid token) st' = false)) /\
  (forall id, id <> sid ->
     get id st' = get id st /\ log_of id st' = log_of id st /\ getTape id None None st' = getTape id None None st /\
     (forall p, membership id p st' = membership id p st) /\ leases st' !! id = leases st !! id) /\
  (forall p, participants st' !! p = js_filter (fun id => id !== sid) <$> participants st !! p).
Proof.
  intros Hok%reach_ok st'. pose proof (ok_delete st sid Hok) as Hok'.
  assert (Hget : get sid st' = None) by (unfold get; simpl; by rewrite lookup_del, decide_True).
  split_and!; [exact Hget| | | | | | | | | |].
  - intros ref s Hs <-. apply getByThread_Some in Hs as [Hs _]; [|done]. unfold get in Hget. congruence.
  - intros p. unfold visibleEntries. unfold st'. by rewrite membership_delete, decide_True.
  - unfold getEntries. simpl. by rewrite lookup_del, decide_True.
  - unfold getTape. simpl. by rewrite lookup_del, decide_True.
  - unfold listLlmRequests. simpl. by rewrite lookup_del, decide_True.
  - unfold participantsOf. simpl. by rewrite lookup_del, decide_True.
  - intros p r Hr. unfold listByParticipant in Hr. apply list_elem_of_omap in Hr as (id & _ & Hr).
    destruct (sessions st' !! id) as [s|] eqn:Es; [|done]. injection Hr as <-.
    destruct (ok_session _ Hok' _ _ Es) as (Hid & _). intros Heq.
    assert (s_id (ps_session (participant_row p s id st')) = s_id s)
      by (unfold participant_row; simpl; destruct (membership id p st' ≫= v_title); by destruct s).
    unfold get in Hget. congruence.
  - intros token. unfold holding. simpl. by rewrite lookup_del, decide_True.
  - intros id Hne. unfold get, log_of, getTape, st'. simpl.
    rewrite !lookup_del, !decide_False by congruence. split_and!; try done.
    intros p. by rewrite membership_delete, decide_False.
  - intros p. by apply participants_delete.
Qed.

(** *** Paging *)

Lemma idDesc_cmp a b : idDesc a b = str_cmp b a.
Proof.
  unfold idDesc, str_cmp, str_ltb, String.ltb. rewrite (String.compare_antisym b a). by destruct (String.compare a b).
Qed.

#[local] Instance newest_first_comparator : Comparator newest_first.
Proof.
  destruct (comparator_str (fun x : string => x)) as [Ht Htr]. simpl in *.
  split; unfold newest_first.
  - intros x y. rewrite !idDesc_cmp. destruct (Ht (su_id y) (su_id x)); repeat case_bool_decide; simpl; lia.
  - intros x y z. rewrite !idDesc_cmp. specialize (Htr (su_id z) (su_id y) (su_id x)).
    repeat case_bool_decide; simpl; lia.
Qed.

Lemma older_iff a b : su_id a <> su_id b ->
  newest_first a b <= 0 <-> older_than (su_lastActivity a, su_id a) b = true.
Proof.
  intros Hne. unfold newest_first, older_than. rewrite idDesc_cmp. simpl.
  rewrite orb_true_iff, andb_true_iff, Z.ltb_lt, eqb_true.
  assert (Hs : str_cmp (su_id b) (su_id a) <= 0 <-> str_ltb (su_id b) (su_id a) = true).
  { assert (str_cmp (su_id b) (su_id a) <> 0) by (rewrite str_cmp_eq; congruence).
    unfold str_cmp in *. destruct (str_ltb (su_id b) (su_id a)); [split; [done|lia]|].
    destruct (str_ltb (su_id a) (su_id b)); [split; [lia|done]|lia]. }
  case_bool_decide; simpl; [rewrite Hs|]; intuition lia.
Qed.
Lemma older_irrefl a : older_than (su_lastActivity a, su_id a) a = false.
Proof.
  unfold older_than. simpl. rewrite Z.ltb_irrefl. unfold str_ltb, String.ltb. rewrite str_compare_refl.
  by rewrite andb_false_r.
Qed.
Lemma older_asym a b :
  older_than (su_lastActivity a, su_id a) b = true -> older_than (su_lastActivity b, su_id b) a = false.
Proof.
  unfold older_than. simpl. intros H. apply not_true_is_false. intros H'.
  rewrite orb_true_iff, andb_true_iff, Z.ltb_lt, eqb_true in H, H'.
  unfold str_ltb, String.ltb in *. rewrite (String.compare_antisym (su_id a)) in H'.
  destruct (String.compare (su_id b) (su_id a)); simpl in *; intuition (try done; lia).
Qed.

(** Past the cursor is what follows it. *)
Lemma after_cursor (l : list SessionSummary) k r :
  StronglySorted (fun a b => older_than (su_lastActivity a, su_id a) b = true) l -> l !! k = Some r ->
  js_filter (older_than (su_lastActivity r, su_id r)) l = drop (S k) l.
Proof.
  intros Hs. revert k. induction Hs as [|x l Hs IH Hx]; intros [|k] Hk; simpl in *; [done|done| |].
  - injection Hk as ->. rewrite older_irrefl, drop_0. apply js_filter_id. by apply Forall_forall.
  - rewrite Forall_forall in Hx. rewrite older_asym; [by apply IH|]. apply Hx. by eapply list_elem_of_lookup_2.
Qed.

Lemma rows_sorted st scope org page previews ids :
  ok st ->
  StronglySorted (fun a b => older_than (su_lastActivity a, su_id a) b = true)
    (summary_rows scope org page previews ids st).
Proof.
  intros Hok. unfold summary_rows. set (l := map _ _).
  assert (Hnd : NoDup (map su_id l)).
  { unfold l. rewrite map_map. simpl. eapply sublist_NoDup; [|apply map_sublist, js_filter_sublist].
    pose proof (keys_NoDup (sessions st)) as Hk. unfold keys, values in *.
    replace (map s_id (entries (sessions st)).*2) with (entries (sessions st)).*1; [done|].
    assert (Hall : forall kv, kv ∈ entries (sessions st) -> s_id kv.2 = kv.1).
    { intros [id s] Hin%elem_of_entries. by apply (ok_session _ Hok). }
    clear Hk. revert Hall. induction (entries (sessions st)) as [|kv es IH]; intros Hall; [done|].
    rewrite !fmap_cons. simpl. rewrite (Hall kv) by (by left). f_equal. apply IH. intros kv' ?. apply Hall. by right. }
  pose proof (js_sort_sorted newest_first l) as Hs.
  assert (Hnd' : NoDup (map su_id (js_sort newest_first l))) by (by rewrite js_sort_perm).
  revert Hs Hnd'. generalize (js_sort newest_first l). clear. intros m Hs Hnd'.
  induction Hs as [|x m Hs IH Hx]; [by constructor|].
  simpl in Hnd'. apply NoDup_cons in Hnd' as [Hn Hnd']. constructor; [by apply IH|].
  rewrite Forall_forall in *. intros y Hy. apply older_iff; [|by apply Hx].
  intros Heq. apply Hn. rewrite Heq. by apply list_elem_of_fmap_2.
Qed.

(** Paging through the sessions neither skips nor repeats.  With the activity and the id
    of any row as the cursor, a page holds the rows that follow it in the listing, up to the
    limit; and the listing is strictly ordered, newest first. *)
Theorem summaries_cursor_pages st scope org page previews ids k r :
  Reach st -> 0 <= pg_limit page ->
  summary_rows scope org (Some page) previews ids st !! k = Some r ->
  scopeSessionSummaries scope org (Some (page <| pg_before := Some (su_lastActivity r, su_id r) |>)) previews ids st =
    take (Z.to_nat (pg_limit page)) (drop (S k) (summary_rows scope org (Some page) previews ids st)) /\
  StronglySorted (fun a b => older_than (su_lastActivity a, su_id a) b = true)
    (summary_rows scope org (Some page) previews ids st).
Proof.
  intros Hok%reach_ok Hlim Hr. pose proof (rows_sorted st scope org (Some page) previews ids Hok) as Hs.
  split; [|done]. unfold scopeSessionSummaries.
  replace (summary_rows scope org (Some (page <| pg_before := Some (su_lastActivity r, su_id r) |>)) previews ids st)
    with (summary_rows scope org (Some page) previews ids st) by (by destruct page).
  destruct page as [lim off bef cat ori cid]. cbn [upd pg_before pg_limit] in *.
  rewrite (after_cursor _ _ _ Hs Hr). set (l := drop _ _). unfold slice, rel_index.
  rewrite (proj2 (Z.ltb_ge 0 0)), (proj2 (Z.ltb_ge lim 0)) by lia.
  rewrite Z.min_l by lia. simpl. destruct (Z_le_gt_dec lim (Z.of_nat (length l))).
  - by rewrite Z.min_l by lia.
  - rewrite Z.min_r, Nat2Z.id, !take_ge by lia. done.
Qed.

End runs.

(** ** Witnesses *)

Definition demo_ttl : Z := 300000.
Definition say (text : string) : NewEntry := MkNewEntry user (JStr text) "channel:general" None.
Definition demo_lease : Lease := MkLease "s1" "k1".
Definition demo_ops : list Op :=
  [OGetOrCreate "s1" 1 "t1" channel "channel:general" (Some "general") None;
   OGetOrCreate "s2" 2 "t2" channel "channel:general" None None;
   OAcquire "k1" 10 "s1" (Some h_turn); OAppend 11 demo_lease (say "hello")].
Definition demo_store : SessionStore := run demo_ttl demo_ops empty_sessions.

Lemma demo_sessions_reach : Reach demo_ttl demo_store.
Proof.
  apply legal_run_reach; [vm_compute; repeat split|]. by apply reachable_init.
Qed.

Lemma session_per_thread_witness :
  (forall s1 s2, s1 ∈ listAll demo_store -> s2 ∈ listAll demo_store -> s_threadRef s1 = s_threadRef s2 -> s1 = s2) /\
  map s_id (listAll demo_store) = ["s1"; "s2"].
Proof.
  split; [|vm_compute; reflexivity]. exact (proj1 (session_per_thread demo_ttl demo_store demo_sessions_reach)).
Defined.

Lemma log_dense_append_only_witness :
  (append demo_ttl 20 demo_lease (say "again") demo_store).1 =
    Ok (MkEntry "s1" 1 (Some 0) user (JStr "again") "channel:general" 20) /\
  log_of "s1" (append demo_ttl 20 demo_lease (say "again") demo_store).2 =
    log_of "s1" demo_store ++ [MkEntry "s1" 1 (Some 0) user (JStr "again") "channel:general" 20].
Proof.
  assert (H : (append demo_ttl 20 demo_lease (say "again") demo_store).1 =
    Ok (MkEntry "s1" 1 (Some 0) user (JStr "again") "channel:general" 20)) by (vm_compute; reflexivity).
  split; [exact H|].
  destruct (log_dense_append_only demo_ttl demo_store "s1" demo_sessions_reach) as (_ & Ha & _).
  destruct (append demo_ttl 20 demo_lease (say "again") demo_store) as [r st'] eqn:E. simpl in H. subst r.
  exact (proj1 (proj2 (Ha _ _ _ _ _ E))).
Defined.

Lemma lease_excludes_and_fences_witness :
  let st1 := (acquireLease demo_ttl "k2" 400000 "s1" None demo_store).2 in
  (append demo_ttl 400001 demo_lease (say "late") st1).1 = Throw "append without a valid session lease" /\
  holding (MkLease "s1" "k2") st1 = true.
Proof.
  destruct (acquireLease demo_ttl "k2" 400000 "s1" None demo_store) as [a st1] eqn:E. simpl.
  assert (Ha : la_lease a = Some (MkLease "s1" "k2")).
  { change a with ((a, st1).1). rewrite <- E. vm_compute. reflexivity. }
  destruct (lease_excludes_and_fences demo_ttl demo_store "k2" 400000 "s1" None a st1 _ E Ha) as (_ & _ & Hf & Hx).
  split.
  - destruct (Hf "k1" [] ltac:(discriminate)) as (H & _); [by intros o ?%not_elem_of_nil|].
    exact (f_equal fst (H 400001 (say "late"))).
  - destruct (Hx []) as [H _]; [by intros o ?%not_elem_of_nil|by intros o t ?%not_elem_of_nil|]. exact H.
Defined.

Lemma participant_sees_membership_span_witness :
  let st1 := addParticipant 30 "s1" "ann" None false demo_store in
  let st2 := run demo_ttl [OAppend 31 demo_lease (say "hi ann")] st1 in
  let st4 := run demo_ttl [OAppend 41 demo_lease (say "bye")] (removeParticipant 40 "s1" "ann" st2) in
  visibleEntries "s1" "ann" st4 = drop 1 (log_of "s1" st2) /\ length (visibleEntries "s1" "ann" st4) = 1%nat.
Proof.
  assert (Hno : forall o t e, o ∈ [OAppend t demo_lease e] -> ~ touches "s1" "ann" o)
    by (intros o t e ->%list_elem_of_singleton; exact id).
  destruct (participant_sees_membership_span demo_ttl demo_store 30 "s1" "ann" None false
    [OAppend 31 demo_lease (say "hi ann")] 40 [OAppend 41 demo_lease (say "bye")] demo_sessions_reach) as (_ & H & _).
  - intros w Hw. vm_compute in Hw. discriminate.
  - exact (conj I I).
  - exact (conj I I).
  - intros o. apply Hno.
  - intros o. apply Hno.
  - split; [exact H|vm_compute; reflexivity].
Defined.

Lemma deleteSession_complete_witness :
  getByThread "t1" (deleteSession "s1" demo_store) = None /\ get "s1" (deleteSession "s1" demo_store) = None.
Proof.
  split; [vm_compute; reflexivity|].
  exact (proj1 (proj1 (deleteSession_complete demo_ttl demo_store "s1" demo_sessions_reach))).
Defined.

Definition demo_page : SessionPage := MkPage 1 0 None None None None.
Lemma summaries_cursor_pages_witness :
  exists r, summary_rows "channel:general" false (Some demo_page) true None demo_store !! 0%nat = Some r /\ su_id r = "s1" /\
  map su_id (scopeSessionSummaries "channel:general" false
    (Some (demo_page <| pg_before := Some (su_lastActivity r, su_id r) |>)) true None demo_store) = ["s2"].
Proof.
  destruct (summary_rows "channel:general" false (Some demo_page) true None demo_store !! 0%nat) as [r|] eqn:E;
    [|vm_compute in E; discriminate].
  exists r. split; [reflexivity|]. destruct (summaries_cursor_pages demo_ttl demo_store "channel:general" false demo_page true None 0 r
    demo_sessions_reach ltac:(simpl; lia) E) as [H _].
  rewrite H. vm_compute in E. injection E as <-. split; vm_compute; reflexivity.
Defined.
