(* ===== verification/Acl.v ===== *)
(** * Access grants

    Resource references ([src/src/acl/resource-ref.ts]) and the grant store
    ([src/src/acl/acl-store.ts]): who may grant, revoke and replace access, and which grants
    an audience is handed.  The store is written against the interface [GrantPersistence],
    which the in-memory list implements; the Postgres table is its other implementation and
    is not modelled.  Each call runs to completion. *)

From S2P Require Import Prelude JsString Scope ThreadRef Json Transcript.

#[local] Open Scope string_scope.

(** ** Resource references *)

(** [ResourceKind] src/src/acl/resource-ref.ts:1-2 *)
Inductive ResourceKind := k_file | k_skill | k_deploy | k_cron | k_service_cred.
#[export] Instance ResourceKind_eq_dec : EqDecision ResourceKind.
Proof. solve_decision. Defined.
(** [RESOURCE_KINDS] src/src/acl/resource-ref.ts:1-1 *)
Definition RESOURCE_KINDS : list ResourceKind := [k_file; k_skill; k_deploy; k_cron; k_service_cred]%list.

(** [ResourceRef] src/src/acl/resource-ref.ts:4-7 *)
Record ResourceRef := MkRef { rr_kind : ResourceKind; rr_id : string }.

(** [PREFIX] src/src/acl/resource-ref.ts:9-14
    The prefix of each kind but [file], for which it is not defined. *)
Definition PREFIX (k : ResourceKind) : string :=
  match k with
  | k_file => "" | k_skill => "skill:" | k_deploy => "deployment:" | k_cron => "cron:"
  | k_service_cred => "service-cred:"
  end.

(** [encodeRef] src/src/acl/resource-ref.ts:22-24 *)
Definition encodeRef (r : ResourceRef) : string :=
  if r.(rr_kind) === k_file then r.(rr_id) else PREFIX r.(rr_kind) ++ r.(rr_id).

(** [parseRef] src/src/acl/resource-ref.ts:26-33 *)
Definition parseRef (s : string) : ResourceRef :=
  match find (fun k => (k !== k_file) && starts_with s (PREFIX k)) RESOURCE_KINDS with
  | Some k => MkRef k (str_drop (String.length (PREFIX k)) s)
  | None => MkRef k_file s
  end.

(** ** Grants *)

(** [Permission] src/src/types.ts:148-148 *)
Inductive Permission := p_read | p_write.
#[export] Instance Permission_eq_dec : EqDecision Permission.
Proof. solve_decision. Defined.

(** [Grant] src/src/types.ts:150-156 *)
Record Grant := MkGrant {
  ownerScopeId : ScopeId;
  g_ref : string;
  granteeScopeId : ScopeId;
  permission : Permission;
  grantedBy : string;
}.
#[export] Instance Grant_eq_dec : EqDecision Grant.
Proof. solve_decision. Defined.

(** [GrantedHandle] src/src/types.ts:158-163 *)
Record GrantedHandle := MkHandle {
  handlePath : string;
  h_ownerScopeId : ScopeId;
  ownerPath : string;
  h_permission : Permission;
}.

(** [isFileGrant] src/src/acl/acl-store.ts:7-7 *)
Definition isFileGrant (g : Grant) : bool := (parseRef g.(g_ref)).(rr_kind) === k_file.

(** [basename] src/src/acl/acl-store.ts:9-12 *)
Definition basename (p : string) : string :=
  let l := List.last (split_on "/" p) "" in if truthy l then l else p.

(** [toHandle] src/src/acl/acl-store.ts:18-25 *)
Definition toHandle (g : Grant) : GrantedHandle :=
  MkHandle ("shared/" ++ basename g.(g_ref)) g.(ownerScopeId) g.(g_ref) g.(permission).

(** [ownerOf] src/src/acl/acl-store.ts:27-30 *)
Definition ownerOf (scopeId : ScopeId) : option string :=
  let '(kind, ref) := parseScopeId scopeId in if kind === Some personal then Some ref else None.

(** [isMembershipManaged] src/src/acl/acl-store.ts:32-35 *)
Definition isMembershipManaged (scopeId : ScopeId) : bool :=
  let kind := (parseScopeId scopeId).1 in (kind === Some channel) || (kind === Some group).

(** [sameGrant] src/src/acl/acl-store.ts:88-95 *)
Definition sameGrant (a b : Grant) : bool :=
  (a.(ownerScopeId) === b.(ownerScopeId)) && (a.(g_ref) === b.(g_ref))
  && (a.(granteeScopeId) === b.(granteeScopeId)) && (a.(permission) === b.(permission)).

(** [sameGrantTuple] src/src/acl/acl-store.ts:97-99 *)
Definition sameGrantTuple (a b : Grant) : bool := sameGrant a b && (a.(grantedBy) === b.(grantedBy)).

(** [sameGrantSet] src/src/acl/acl-store.ts:101-103 *)
Definition sameGrantSet (a b : list Grant) : bool :=
  (length a =? length b)%nat && every (fun g => some (sameGrantTuple g) b) a.

(** The grants on one resource. *)
Definition on_resource (owner : ScopeId) (ref : string) (g : Grant) : bool :=
  (g.(ownerScopeId) === owner) && (g.(g_ref) === ref).

(** ** Where grants are kept *)

(** [GrantPersistence] src/src/acl/acl-store.ts:76-86 *)
Class GrantPersistence (P : Type) := {
  gp_all : P -> list Grant;
  gp_put : Grant -> P -> P;
  gp_remove : Grant -> P -> P;
  gp_replace : ScopeId -> string -> list Grant -> list Grant -> P -> bool * P;
}.

(** What the store relies on: which grants are there, duplicates aside. *)
Class GrantPersistenceLaws (P : Type) {G : GrantPersistence P} : Prop := {
  gp_put_all g (p : P) x :
    x ∈ gp_all (gp_put g p) <-> x ∈ gp_all p \/ (x = g /\ forall y, y ∈ gp_all p -> sameGrant y g = false);
  gp_remove_all g (p : P) x : x ∈ gp_all (gp_remove g p) <-> x ∈ gp_all p /\ sameGrant x g = false;
  gp_replace_all owner ref expected replacement (p : P) :
    let current := js_filter (on_resource owner ref) (gp_all p) in
    let '(ok, p') := gp_replace owner ref expected replacement p in
    (ok = true -> length current = length expected /\ forall g, g ∈ current -> g ∈ expected) /\
    (ok = false -> p' = p /\ ~ (length current = length expected /\ forall g, g ∈ current -> g ∈ expected)) /\
    (ok = true -> forall x, x ∈ gp_all p' <->
       (x ∈ gp_all p /\ on_resource owner ref x = false) \/ x ∈ replacement);
}.

(** [createMemoryGrantPersistence] src/src/acl/acl-store.ts:109-109 *)
Definition grant_key (g : Grant) : string :=
  let nl := String "010" "" in
  g.(ownerScopeId) ++ nl ++ g.(g_ref) ++ nl ++ g.(granteeScopeId) ++ nl
    ++ match g.(permission) with p_read => "read" | p_write => "write" end.

(** [all] src/src/acl/acl-store.ts:108-115 *)
Definition memory_all (grants : list Grant) : list Grant :=
  js_sort (fun a b => str_cmp (grant_key a) (grant_key b)) grants.
(** [put] src/src/acl/acl-store.ts:116-118 *)
Definition memory_put (g : Grant) (grants : list Grant) : list Grant :=
  if some (fun x => sameGrant x g) grants then grants else (grants ++ [g])%list.
(** [remove] src/src/acl/acl-store.ts:119-123 *)
Definition memory_remove (g : Grant) (grants : list Grant) : list Grant :=
  js_filter (fun x => negb (sameGrant x g)) grants.
(** [replaceForResourceIfCurrent] src/src/acl/acl-store.ts:124-132 *)
Definition memory_replace (owner : ScopeId) (ref : string) (expected replacement grants : list Grant)
  : bool * list Grant :=
  if negb (sameGrantSet (js_filter (on_resource owner ref) grants) expected) then (false, grants)
  else (true, (js_filter (fun g => negb (on_resource owner ref g)) grants ++ replacement)%list).

(** [createMemoryGrantPersistence] src/src/acl/acl-store.ts:105-134 *)
Definition createMemoryGrantPersistence : GrantPersistence (list Grant) := {|
  gp_all := memory_all; gp_put := memory_put; gp_remove := memory_remove; gp_replace := memory_replace |}.
#[export] Existing Instance createMemoryGrantPersistence.

(** ** The store *)

Section store.
Context {P : Type} {G : GrantPersistence P}.
(** [manages]: the membership check the host installs, when it does. *)
Context (manages : option (string -> ScopeId -> option string -> bool)).

(** [canManage] src/src/acl/acl-store.ts:140-145 *)
Definition canManage (scopeId : ScopeId) (principalId : string) (authoredBy : option string) : bool :=
  match ownerOf scopeId with
  | Some owner => samePerson (Some principalId) (Some owner)
  | None =>
      match manages with
      | Some m => if isMembershipManaged scopeId then m principalId scopeId authoredBy else true
      | None => true
      end
  end.

(** [grant] src/src/acl/acl-store.ts:147-152 *)
Definition grant (g : Grant) (authoredBy : option string) (p : P) : result string unit * P :=
  if negb (canManage g.(ownerScopeId) g.(grantedBy) authoredBy)
  then (Throw "only a manager of this scope may grant access (no transitive re-share)", p)
  else (Ok tt, gp_put g p).

(** [revoke] src/src/acl/acl-store.ts:153-161 *)
Definition revoke (owner : ScopeId) (ref : string) (grantee : ScopeId) (revokedBy : string) (authoredBy : option string)
    (p : P) : result string unit * P :=
  if negb (canManage owner revokedBy authoredBy) then (Throw "only a manager of this scope may revoke access", p)
  else
    let matches := js_filter (fun g => on_resource owner ref g && (g.(granteeScopeId) === grantee)) (gp_all p) in
    (Ok tt, foldl (fun p g => gp_remove g p) p matches).

(** [replaceGrantsIfCurrent] src/src/acl/acl-store.ts:162-173 *)
Definition replaceGrantsIfCurrent (owner : ScopeId) (ref : string) (expected replacement : list Grant)
    (changedBy : string) (authoredBy : option string) (p : P) : result string bool * P :=
  if negb (canManage owner changedBy authoredBy)
  then (Throw "only a manager of this scope may replace access grants", p)
  else if some (fun g => negb (on_resource owner ref g)) expected
          || some (fun g => negb (on_resource owner ref g)) replacement
  then (Throw "replacement grants must belong to the selected resource", p)
  else let '(ok, p') := gp_replace owner ref expected replacement p in (Ok ok, p').

(** [handlesFor] src/src/acl/acl-store.ts:174-177 *)
Definition handlesFor (scopeIds : list ScopeId) (p : P) : list GrantedHandle :=
  map toHandle (js_filter (fun g => isFileGrant g && includes scopeIds g.(granteeScopeId)) (gp_all p)).

(** [grantsFor] src/src/acl/acl-store.ts:192-194 *)
Definition grantsFor (owner : ScopeId) (ref : string) (p : P) : list Grant := js_filter (on_resource owner ref) (gp_all p).

(** [entitled]: the entitlement rule the caller passes. *)
Context (entitled : Principal -> ScopeId -> ScopeId -> ScopeId -> bool).

(** [handlesForAudience] src/src/acl/acl-store.ts:178-191 *)
Definition handlesForAudience (audience : list Principal) (sessionScopeId orgScopeId : ScopeId) (p : P)
  : list GrantedHandle :=
  match audience with
  | [] => []
  | _ =>
      let reaches q g := entitled q g.(granteeScopeId) sessionScopeId orgScopeId
                         || entitled q g.(ownerScopeId) sessionScopeId orgScopeId in
      map toHandle (js_filter (fun g =>
        isFileGrant g && some (fun q => entitled q g.(granteeScopeId) sessionScopeId orgScopeId) audience
        && every (fun q => reaches q g) audience) (gp_all p))
  end.

(** [grantsOfKind] src/src/acl/acl-store.ts:195-204 *)
Definition grantsOfKind (kind : ResourceKind) (audience : list Principal) (sessionScopeId orgScopeId : ScopeId) (p : P)
  : list Grant :=
  match audience with
  | [] => []
  | _ =>
      js_filter (fun g => starts_with g.(g_ref) (PREFIX kind) && (g.(ownerScopeId) === orgScopeId)
        && every (fun q => entitled q g.(granteeScopeId) sessionScopeId orgScopeId) audience) (gp_all p)
  end.
End store.

(** [filterHistoryForAudience] src/src/resolution/context-filter.ts:18-28 *)
Definition filterHistoryForAudience (l : list SessionEntry) (audience : list Principal) (sessionScopeId orgScopeId : ScopeId)
  : list SessionEntry :=
  match audience with
  | [] => []
  | _ => js_filter (fun e => every (fun p => principalEntitledToScope p e.(e_scopeLabel) sessionScopeId orgScopeId) audience) l
  end.

(** ** References *)

(** Resource references.  Reading back an encoded reference to anything but a file gives
    the reference; a file path reads back as that file exactly when it does not start with
    another kind's prefix; and every text is the encoding of what it reads as. *)
Theorem resource_ref_roundtrip :
  (forall k id, k <> k_file -> parseRef (encodeRef (MkRef k id)) = MkRef k id) /\
  (forall path, parseRef (encodeRef (MkRef k_file path)) = MkRef k_file path <->
     forall k, k <> k_file -> starts_with path (PREFIX k) = false) /\
  (forall s, encodeRef (parseRef s) = s).
Proof.
  split_and!.
  - intros [] id Hk; [done| | | |]; reflexivity.
  - intros path. unfold encodeRef, parseRef. cbn [rr_kind rr_id]. rewrite eqb_refl.
    destruct (find _ RESOURCE_KINDS) as [k|] eqn:E.
    + apply find_Some in E as [_ [Hk Hs]%andb_true_iff]. apply negb_true_iff, eqb_false in Hk.
      split; [intros [= -> _]; done|]. intros Hall. by rewrite (Hall k Hk) in Hs.
    + split; [|done]. intros _ k Hk. assert (Hin : k ∈ RESOURCE_KINDS) by (unfold RESOURCE_KINDS; destruct k; set_solver).
      apply (proj1 (find_None _ _) E) in Hin. rewrite (proj2 (eqb_false _ _) Hk) in Hin. done.
  - intros s. unfold parseRef. destruct (find _ RESOURCE_KINDS) as [k|] eqn:E; [|done].
    apply find_Some in E as [_ [Hk Hs]%andb_true_iff]. apply negb_true_iff in Hk.
    unfold encodeRef. cbn [rr_kind rr_id]. rewrite Hk. apply starts_with_spec in Hs as [t ->]. by rewrite str_drop_app.
Qed.

(** ** The in-memory list keeps the interface's promises *)

Lemma sameGrant_spec a b :
  sameGrant a b = true <->
  ownerScopeId a = ownerScopeId b /\ g_ref a = g_ref b /\ granteeScopeId a = granteeScopeId b /\ permission a = permission b.
Proof. unfold sameGrant. rewrite !andb_true_iff, !eqb_true. tauto. Qed.
Lemma sameGrant_refl g : sameGrant g g = true.
Proof. by apply sameGrant_spec. Qed.
Lemma sameGrantTuple_eq a b : sameGrantTuple a b = true <-> a = b.
Proof.
  unfold sameGrantTuple. rewrite andb_true_iff, sameGrant_spec, eqb_true.
  destruct a, b; simpl. naive_solver.
Qed.
Lemma sameGrantSet_spec a b :
  sameGrantSet a b = true <-> length a = length b /\ forall g, g ∈ a -> g ∈ b.
Proof.
  unfold sameGrantSet. rewrite andb_true_iff, Nat.eqb_eq, every_true.
  split; intros [? Hs]; (split; [done|]); intros g Hg; specialize (Hs g Hg).
  - apply some_true in Hs as (x & ? & ->%sameGrantTuple_eq). done.
  - apply some_true. exists g. by rewrite sameGrantTuple_eq.
Qed.

#[export] Instance memory_grants_laws : GrantPersistenceLaws (list Grant).
Proof.
  split; intros.
  - simpl. unfold memory_all. rewrite !elem_of_js_sort. setoid_rewrite elem_of_js_sort. unfold memory_put.
    destruct (some (fun y => sameGrant y g) p) eqn:E.
    + apply some_true in E as (y & Hy & Hs). split; [tauto|]. intros [?|[_ Hn]]; [done|].
      specialize (Hn y Hy). congruence.
    + rewrite some_false in E. rewrite elem_of_app, list_elem_of_singleton. intuition.
  - simpl. unfold memory_all, memory_remove. rewrite !elem_of_js_sort, elem_of_js_filter, negb_true_iff. tauto.
  - simpl. unfold memory_replace.
    assert (Hcur : sameGrantSet (js_filter (on_resource owner ref) p) expected = true <->
      length current = length expected /\ forall g, g ∈ current -> g ∈ expected).
    { rewrite sameGrantSet_spec. unfold current. simpl. unfold memory_all.
      assert (Hp : js_filter (on_resource owner ref) (js_sort (fun a b => str_cmp (grant_key a) (grant_key b)) p) ≡ₚ
        js_filter (on_resource owner ref) p).
      { induction (js_sort_perm (fun a b => str_cmp (grant_key a) (grant_key b)) p) as [|x l l' _ IH|x y l|? ? ? _ IH1 _ IH2];
          simpl; [done| | |by etrans].
        - destruct (on_resource owner ref x); by rewrite IH.
        - destruct (on_resource owner ref x), (on_resource owner ref y); [constructor|done..]. }
      rewrite Hp. by setoid_rewrite Hp. }
    destruct (sameGrantSet _ _) eqn:E; simpl.
    + split_and!; [intros _; by apply Hcur|done|]. intros _ x. unfold memory_all.
      by rewrite !elem_of_js_sort, elem_of_app, elem_of_js_filter, negb_true_iff, (and_comm (_ = false)).
    + split_and!; [done| |done]. intros _. split; [done|]. by rewrite <- Hcur.
Qed.

(** ** Who may change what *)

Section authority.
Context {P : Type} `{!GrantPersistence P} `{!GrantPersistenceLaws P}.
Context (manages : option (string -> ScopeId -> option string -> bool)).

(** A request to change grants, with who asks. *)
Inductive AclOp :=
| AGrant (g : Grant) (authoredBy : option string)
| ARevoke (owner : ScopeId) (ref : string) (grantee : ScopeId) (revokedBy : string) (authoredBy : option string)
| AReplace (owner : ScopeId) (ref : string) (expected replacement : list Grant) (changedBy : string)
    (authoredBy : option string).
Definition acl_exec (o : AclOp) (p : P) : P :=
  match o with
  | AGrant g by_ => (grant manages g by_ p).2
  | ARevoke o r ge who by_ => (revoke manages o r ge who by_ p).2
  | AReplace o r e n who by_ => (replaceGrantsIfCurrent manages o r e n who by_ p).2
  end.
Definition acl_run (ops : list AclOp) (p : P) : P := foldl (fun p o => acl_exec o p) p ops.
Definition actor (o : AclOp) : string :=
  match o with AGrant g _ => grantedBy g | ARevoke _ _ _ who _ | AReplace _ _ _ _ who _ => who end.
Definition authored (o : AclOp) : option string :=
  match o with AGrant _ by_ | ARevoke _ _ _ _ by_ | AReplace _ _ _ _ _ by_ => by_ end.

Lemma on_resource_spec owner ref g : on_resource owner ref g = true <-> ownerScopeId g = owner /\ g_ref g = ref.
Proof. unfold on_resource. by rewrite andb_true_iff, !eqb_true. Qed.

Lemma remove_fold (l : list Grant) (p : P) x :
  x ∈ gp_all (foldl (fun p g => gp_remove g p) p l) <-> x ∈ gp_all p /\ forall g, g ∈ l -> sameGrant x g = false.
Proof.
  revert p. induction l as [|g l IH]; intros p; simpl.
  - split; [|tauto]. intros ?. split; [done|]. by intros ? ?%not_elem_of_nil.
  - rewrite IH, gp_remove_all. setoid_rewrite elem_of_cons. naive_solver.
Qed.

(** What a revocation leaves. *)
Lemma revoke_all owner ref grantee (p : P) x :
  let matches := js_filter (fun g => on_resource owner ref g && (granteeScopeId g === grantee)) (gp_all p) in
  x ∈ gp_all (foldl (fun p g => gp_remove g p) p matches) <->
  x ∈ gp_all p /\ ~ (ownerScopeId x = owner /\ g_ref x = ref /\ granteeScopeId x = grantee).
Proof.
  intros matches. rewrite remove_fold. split; intros [Hx Hn]; (split; [done|]).
  - intros (Ho & Hr & Hg). specialize (Hn x). rewrite sameGrant_refl in Hn.
    enough (true = false) by done. apply Hn, elem_of_js_filter. split; [|done].
    by rewrite andb_true_iff, on_resource_spec, eqb_true.
  - intros g [Hg _]%elem_of_js_filter. rewrite andb_true_iff, on_resource_spec, eqb_true in Hg.
    apply not_true_iff_false. rewrite sameGrant_spec. intros (? & ? & ? & _). apply Hn. intuition congruence.
Qed.

(** A request that changes whether a grant is there is made by a manager of its scope. *)
Lemma acl_exec_manager o (p : P) x :
  canManage manages (ownerScopeId x) (actor o) (authored o) = false ->
  x ∈ gp_all (acl_exec o p) <-> x ∈ gp_all p.
Proof.
  intros Hm. destruct o as [g by_|owner ref grantee who by_|owner ref expected replacement who by_]; simpl in *.
  - unfold grant. destruct (canManage manages (ownerScopeId g) _ _) eqn:E; simpl; [|done].
    rewrite gp_put_all. split; [|tauto]. intros [?|[-> _]]; [done|congruence].
  - unfold revoke. destruct (canManage manages owner _ _) eqn:E; simpl; [|done].
    rewrite revoke_all. split; [tauto|]. intros ?. split; [done|]. intros (? & _). congruence.
  - unfold replaceGrantsIfCurrent. destruct (canManage manages owner _ _) eqn:E; simpl; [|done].
    destruct (_ || _) eqn:Eb; [done|]. apply orb_false_iff in Eb as [_ Eb]. rewrite some_false in Eb.
    pose proof (gp_replace_all owner ref expected replacement p) as Hr. simpl in Hr.
    destruct (gp_replace owner ref expected replacement p) as [[] p']; simpl.
    + destruct Hr as (_ & _ & Hr). rewrite (Hr eq_refl). split.
      * intros [[? _]|Hin]; [done|]. specialize (Eb _ Hin). apply negb_false_iff, on_resource_spec in Eb as [? _]. congruence.
      * intros ?. left. split; [done|]. apply not_true_is_false. rewrite on_resource_spec. intros [? _]. congruence.
    + destruct Hr as (_ & Hr & _). by destruct (Hr eq_refl) as [-> _].
Qed.

(** No transitive re-share.  Whatever requests others make, the grants on what a person
    owns stay the same: only requests made by that very person, under any of the spellings
    of the id, can add, remove or replace one. *)
Theorem no_transitive_reshare u (p : P) ops :
  (forall o, o ∈ ops -> samePerson (Some (actor o)) (Some u) = false) ->
  forall g, ownerScopeId g = personalScope u -> g ∈ gp_all (acl_run ops p) <-> g ∈ gp_all p.
Proof.
  intros Ha g Hg. revert p. induction ops as [|o ops IH]; intros p; simpl; [done|].
  rewrite IH by (intros o' ?; apply Ha; by right). apply acl_exec_manager.
  unfold canManage, ownerOf. rewrite Hg. unfold personalScope. rewrite parse_scopeId. simpl. apply Ha. by left.
Qed.

(** The effect of each request.  A grant by a manager is there afterwards, unless the
    same access was granted already, and changes no other; a revocation takes away every
    permission the grantee had on the resource and nothing else; a replacement answers
    [true] only when the grants on the resource were as many as expected and all expected
    (so exactly those, when none is double), and then the resource has the new grants and
    every other resource those it had; in every other case nothing changes. *)
Theorem acl_request_effects (p : P) who by_ owner ref :
  canManage manages owner who by_ = true ->
  (forall g, ownerScopeId g = owner -> grantedBy g = who ->
     let '(r, p') := grant manages g by_ p in
     r = Ok tt /\ (exists x, x ∈ gp_all p' /\ sameGrant x g = true) /\
     (forall x, x <> g -> x ∈ gp_all p' <-> x ∈ gp_all p)) /\
  (forall grantee, let '(r, p') := revoke manages owner ref grantee who by_ p in
     r = Ok tt /\ forall x, x ∈ gp_all p' <->
       x ∈ gp_all p /\ ~ (ownerScopeId x = owner /\ g_ref x = ref /\ granteeScopeId x = grantee)) /\
  (forall expected replacement p', let current := grantsFor owner ref p in
     (replaceGrantsIfCurrent manages owner ref expected replacement who by_ p = (Ok true, p') ->
        (NoDup current -> current ≡ₚ expected) /\
        (forall x, x ∈ grantsFor owner ref p' <-> x ∈ replacement) /\
        (forall x, on_resource owner ref x = false -> x ∈ gp_all p' <-> x ∈ gp_all p)) /\
     (forall r, replaceGrantsIfCurrent manages owner ref expected replacement who by_ p = (r, p') -> r <> Ok true ->
        p' = p)).
Proof.
  intros Hm. split_and!.
  - intros g <- <-. unfold grant. rewrite Hm. simpl. split_and!; [done| |].
    + setoid_rewrite gp_put_all. destruct (some (fun y => sameGrant y g) (gp_all p)) eqn:E.
      * apply some_true in E as (y & ? & ?). exists y. auto.
      * rewrite some_false in E. exists g. split; [auto|apply sameGrant_refl].
    + intros x Hx. rewrite gp_put_all. naive_solver.
  - intros grantee. unfold revoke. rewrite Hm. simpl. split; [done|]. intros x. apply revoke_all.
  - intros expected replacement p' current. unfold replaceGrantsIfCurrent. rewrite Hm. simpl.
    destruct (_ || _) eqn:Eb; [split; [done|by intros r [= <- <-]]|].
    apply orb_false_iff in Eb as [_ Eb]. rewrite some_false in Eb.
    pose proof (gp_replace_all owner ref expected replacement p) as Hr. cbv zeta in Hr.
    destruct (gp_replace owner ref expected replacement p) as [ok p1]. destruct Hr as (H1 & H2 & H3). split.
    + intros [= -> <-]. specialize (H1 eq_refl) as [Hlen Hin]. specialize (H3 eq_refl). split_and!.
      * intros Hnd. apply submseteq_length_Permutation; [by apply NoDup_submseteq|]. unfold current, grantsFor. lia.
      * intros x. unfold grantsFor. rewrite elem_of_js_filter, H3. split; [intros [? [[_ ?]|?]]; [congruence|done]|].
        intros Hx. split; [|by right]. specialize (Eb _ Hx). by apply negb_false_iff in Eb.
      * intros x Hx. rewrite H3, Hx. split; [|by left]. intros [[? _]|Hin']; [done|].
        specialize (Eb _ Hin'). apply negb_false_iff in Eb. congruence.
    + intros r [= <- <-] Hr. destruct ok; [done|]. by destruct (H2 eq_refl).
Qed.
End authority.

(** ** Witnesses *)

Definition demo_grant (by_ : string) : Grant :=
  MkGrant (personalScope "ann@x.co") "notes/a.md" (personalScope "bob@x.co") p_read by_.
Definition demo_reshare : AclOp :=
  AGrant (MkGrant (personalScope "ann@x.co") "notes/a.md" (personalScope "eve@x.co") p_write "bob@x.co") None.

Lemma no_transitive_reshare_witness :
  samePerson (Some (actor demo_reshare)) (Some "ann@x.co") = false /\
  (demo_grant "ann@x.co" ∈ gp_all (acl_run None [demo_reshare]%list [demo_grant "ann@x.co"]%list) <->
   demo_grant "ann@x.co" ∈ gp_all [demo_grant "ann@x.co"]%list).
Proof.
  split; [vm_compute; reflexivity|]. apply (no_transitive_reshare None "ann@x.co"); [|reflexivity].
  intros o ->%list_elem_of_singleton. vm_compute. reflexivity.
Defined.

Lemma acl_request_effects_witness :
  canManage None (personalScope "ann@x.co") "Ann@x.co " None = true /\
  (revoke None (personalScope "ann@x.co") "notes/a.md" (personalScope "bob@x.co") "Ann@x.co " None
     [demo_grant "ann@x.co"]%list).1 = Ok tt.
Proof.
  assert (H : canManage None (personalScope "ann@x.co") "Ann@x.co " None = true) by (vm_compute; reflexivity).
  split; [exact H|].
  destruct (acl_request_effects None [demo_grant "ann@x.co"]%list "Ann@x.co " None (personalScope "ann@x.co") "notes/a.md" H)
    as (_ & Hr & _).
  specialize (Hr (personalScope "bob@x.co")).
  destruct (revoke None _ _ _ _ _ _) as [r p']. exact (proj1 Hr).
Defined.

Lemma resource_ref_roundtrip_witness : parseRef (encodeRef (MkRef k_deploy "d1")) = MkRef k_deploy "d1".
Proof. apply resource_ref_roundtrip. discriminate. Defined.

Example handle_demo :
  handlesForAudience principalEntitledToScope [MkPrincipal "bob@x.co" internal None None]%list "channel:c" "org:o"
    [demo_grant "ann@x.co"]%list =
  [MkHandle "shared/a.md" (personalScope "ann@x.co") "notes/a.md" p_read]%list.
Proof. vm_compute. reflexivity. Qed.
