(* ===== verification/Access.v ===== *)
(** * Who may read, write and manage a scope

    The decisions of [src/src/resolution/scope-membership.ts].  The directory, the managed
    groups, the identity service and the session list are the host's: they are fields of
    [ScopeMembershipDeps], each of which may be missing, and a call to one may fail, which is
    [Throw]; [catch_] is the source's [.catch(() => d)]. *)

From S2P Require Import Prelude JsString Scope.

Definition catch_ {A} (d : A) (r : result string A) : A := match r with Ok a => a | Throw _ => d end.

(** [ManagedGroupDirectory] src/src/resolution/scope-membership.ts:5-11 *)
Record ManagedGroups := MkManagedGroups {
  recognizes : string -> bool;
  mg_membership : string -> string -> result string (option bool);
  mg_members : string -> result string (option (list string));
}.

(** [ScopeMembershipDeps.directory] src/src/resolution/scope-membership.ts:15-22 *)
Record Directory := MkDirectory {
  channelMember : string -> string -> result string bool;
  groupMember : string -> string -> result string bool;
  channelMembership : option (string -> string -> result string (option bool));
  groupMembership : option (string -> string -> result string (option bool));
  channelPrivacy : option (string -> result string (option bool));
  dir_list : option (result string (list (string * option string)));
}.

(** [ScopeMembershipDeps.identity] src/src/resolution/scope-membership.ts:23-25 *)
Record Classified := MkClassified { cl_type : option string; cl_teamIds : option (list string) }.

(** [ScopeMembershipDeps] src/src/resolution/scope-membership.ts:13-27 *)
Record ScopeMembershipDeps := MkDeps {
  managedGroups : option ManagedGroups;
  directory : option Directory;
  identity : option (string -> Classified);
  sessions : option (string -> result string (list ScopeId));
}.

(** The two kinds of shared scope. *)
Inductive SharedKind := sk_channel | sk_group.
#[export] Instance SharedKind_eq_dec : EqDecision SharedKind.
Proof. solve_decision. Defined.
Definition shared_kind (k : option ScopeKind) : option SharedKind :=
  match k with Some channel => Some sk_channel | Some group => Some sk_group | _ => None end.

Section access.
Context (deps : ScopeMembershipDeps).

(** [deps.identity?.classify(id)]. *)
Definition classify (principalId : string) : option Classified := (fun f => f principalId) <$> deps.(identity).
Definition type_of (principalId : string) : option string := classify principalId ≫= cl_type.
Definition in_team (principalId ref : string) : bool :=
  match classify principalId ≫= cl_teamIds with Some l => includes l ref | None => false end.

(** [activePrincipal] src/src/resolution/scope-membership.ts:29-32 *)
Definition activePrincipal (principalId : string) : bool :=
  match type_of principalId with None => true | Some t => t === "internal" end.

(** [deps.managedGroups?.recognizes(ref)] on a group. *)
Definition managed (kind : SharedKind) (ref : string) : option ManagedGroups :=
  match kind, deps.(managedGroups) with
  | sk_group, Some m => if m.(recognizes) ref then Some m else None
  | _, _ => None
  end.
Definition direct_member (kind : SharedKind) (ref principalId : string) : bool :=
  match deps.(directory) with
  | Some d => catch_ false ((match kind with sk_channel => d.(channelMember) | sk_group => d.(groupMember) end) ref principalId)
  | None => false
  end.
Definition privacy (ref : string) : option bool :=
  match deps.(directory) ≫= channelPrivacy with Some f => catch_ None (f ref) | None => None end.
Definition managed_member (m : ManagedGroups) (ref principalId : string) : bool :=
  catch_ (Some false) (m.(mg_membership) ref principalId) === Some true.

(** [currentSharedScopeMember] src/src/resolution/scope-membership.ts:34-46 *)
Definition currentSharedScopeMember (kind : SharedKind) (ref principalId : string) : bool :=
  if negb (activePrincipal principalId) then false
  else match managed kind ref with
       | Some m => managed_member m ref principalId
       | None => direct_member kind ref principalId
       end.

(** [sharedScopeMembership] src/src/resolution/scope-membership.ts:48-66 *)
Definition sharedScopeMembership (kind : SharedKind) (ref principalId : string) : option bool :=
  if negb (activePrincipal principalId) then Some false
  else match managed kind ref with
  | Some m => Some (managed_member m ref principalId)
  | None =>
      match deps.(directory) ≫= (match kind with sk_channel => channelMembership | sk_group => groupMembership end) with
      | Some triState => catch_ None (triState ref principalId)
      | None =>
          if direct_member kind ref principalId then Some true
          else if (kind === sk_channel) && is_some (privacy ref) then Some false else None
      end
  end.

(** [memberOfSharedScope] src/src/resolution/scope-membership.ts:68-80 *)
Definition memberOfSharedScope (kind : SharedKind) (ref principalId : string) (fullScope : ScopeId) : bool :=
  match sharedScopeMembership kind ref principalId with
  | Some current => current
  | None => match deps.(sessions) with
            | Some f => includes (catch_ [] (f principalId)) fullScope
            | None => false
            end
  end.

(** [createIsCurrentSharedScopeMember] src/src/resolution/scope-membership.ts:86-92 *)
Definition isCurrentSharedScopeMember (principalId : string) (scope : ScopeId) : bool :=
  if negb (truthy principalId) then false
  else let '(kind, ref) := parseScopeId scope in
       match shared_kind kind with Some k => currentSharedScopeMember k ref principalId | None => false end.

(** [createCanReadScope] src/src/resolution/scope-membership.ts:133-151 *)
Definition canReadScope (principalId : string) (targetScope : ScopeId) : bool :=
  if negb (truthy principalId) then false
  else
    let '(kind, ref) := parseScopeId targetScope in
    match kind with
    | Some org => type_of principalId === Some "internal"
    | Some personal => samePerson (Some ref) (Some principalId)
    | Some team => in_team principalId ref
    | Some group => memberOfSharedScope sk_group ref principalId targetScope
    | Some channel =>
        if memberOfSharedScope sk_channel ref principalId targetScope then true
        else if privacy ref === Some false then activePrincipal principalId else false
    | None => false
    end.

(** [createCanWriteScope] src/src/resolution/scope-membership.ts:153-163 *)
Definition canWriteScope (principalId : string) (targetScope : ScopeId) : bool :=
  if negb (truthy principalId) || negb (activePrincipal principalId) then false
  else
    let '(kind, ref) := parseScopeId targetScope in
    match kind with
    | Some org => true
    | Some personal => samePerson (Some ref) (Some principalId)
    | Some team => in_team principalId ref
    | Some channel => currentSharedScopeMember sk_channel ref principalId
    | Some group => currentSharedScopeMember sk_group ref principalId
    | None => false
    end.

(** [createMembershipControlsScope] src/src/resolution/scope-membership.ts:168-174 *)
Definition membershipControlsScope (scope : ScopeId) : bool :=
  let '(kind, ref) := parseScopeId scope in
  match kind with
  | Some group => true
  | Some channel => privacy ref === Some true
  | _ => false
  end.

(** [createCanManageScope] src/src/resolution/scope-membership.ts:176-189 *)
Definition canManageScope (principalId : string) (scope : ScopeId) : bool :=
  if negb (truthy principalId) || negb (activePrincipal principalId) then false
  else
    let '(kind, ref) := parseScopeId scope in
    match kind with
    | Some personal => samePerson (Some ref) (Some principalId)
    | Some group => currentSharedScopeMember sk_group ref principalId
    | Some channel =>
        if privacy ref !== Some true then false else currentSharedScopeMember sk_channel ref principalId
    | _ => false
    end.

(** [createManagesArtifactHome] src/src/resolution/scope-membership.ts:193-206
    [canManage] is the rule the caller passes. *)
Definition managesArtifactHome (canManage : string -> ScopeId -> bool) (homeScopeId : ScopeId)
    (createdBy principalId : string) : bool :=
  if negb (truthy principalId) || negb (activePrincipal principalId) then false
  else if canManage principalId homeScopeId then true
  else
    let '(kind, ref) := parseScopeId homeScopeId in
    if negb (samePerson (Some createdBy) (Some principalId)) then false
    else match kind with
         | Some personal => true
         | Some channel => privacy ref === Some false
         | _ => false
         end.

(** [createCurrentScopeMembers] src/src/resolution/scope-membership.ts:97-106 *)
Definition principal_of (id : string) (name : option string) : option Principal :=
  if activePrincipal id
  then Some (MkPrincipal id internal (classify id ≫= cl_teamIds) (if_truthy name))
  else None.

(** The members among the candidates; a failed membership call fails the whole listing. *)
Fixpoint included (member : string -> result string bool) (l : list (string * option string))
  : result string (list Principal) :=
  match l with
  | [] => Ok []
  | (id, name) :: l =>
      yes ← member id;
      rest ← included member l;
      Ok (match (if yes : bool then principal_of id name else None) with Some p => p :: rest | None => rest end)
  end.

(** [createCurrentScopeMembers] src/src/resolution/scope-membership.ts:96-131
    [None] when the members of the scope cannot be told. *)
Definition currentScopeMembers (scope : ScopeId) : result string (option (list Principal)) :=
  let '(kind, ref) := parseScopeId scope in
  match shared_kind kind with
  | None => Ok None
  | Some k =>
      match managed k ref with
      | Some m =>
          ids ← m.(mg_members) ref;
          Ok (Some (omap (fun id => principal_of id None) (ids ?? [])))
      | None =>
          match deps.(directory) with
          | Some d =>
              match d.(dir_list) with
              | None => Ok None
              | Some candidates =>
                  private ← (match k, d.(channelPrivacy) with
                             | sk_channel, Some f => f ref
                             | sk_channel, None => Ok None
                             | sk_group, _ => Ok (Some true)
                             end);
                  if private !== Some true then Ok None
                  else
                    l ← candidates;
                    members ← included ((match k with sk_channel => d.(channelMember) | sk_group => d.(groupMember) end) ref) l;
                    Ok (Some members)
              end
          | None => Ok None
          end
      end
  end.

(** ** Managing implies writing, writing implies reading *)

Lemma managed_channel ref : managed sk_channel ref = None.
Proof. unfold managed. by destruct (managedGroups deps). Qed.

(** The two ways a directory answers about members agree on who is a member. *)
Definition consistent_directory (principalId : string) : Prop :=
  forall d, directory deps = Some d ->
    (forall f ref, channelMembership d = Some f -> catch_ false (channelMember d ref principalId) = true ->
       f ref principalId = Ok (Some true)) /\
    (forall f ref, groupMembership d = Some f -> catch_ false (groupMember d ref principalId) = true ->
       f ref principalId = Ok (Some true)).

Lemma current_member_reads kind ref id full :
  consistent_directory id -> currentSharedScopeMember kind ref id = true -> memberOfSharedScope kind ref id full = true.
Proof.
  intros Hc. unfold currentSharedScopeMember, memberOfSharedScope, sharedScopeMembership.
  destruct (activePrincipal id); simpl; [|done]. destruct (managed kind ref) as [m|]; [done|].
  unfold direct_member. destruct (directory deps) as [d|] eqn:Ed; [|done]. simpl.
  specialize (Hc d Ed) as [Hch Hgr]. destruct kind; intros Hm.
  - destruct (channelMembership d) as [f|]; [by rewrite (Hch f ref eq_refl Hm)|]. by rewrite Hm.
  - destruct (groupMembership d) as [f|]; [by rewrite (Hgr f ref eq_refl Hm)|]. by rewrite Hm.
Qed.

(** Managing a scope implies writing to it, and writing implies reading, for a person the
    identity service classifies and a directory that does not contradict itself. *)
Theorem access_hierarchy id scope :
  (canManageScope id scope = true -> canWriteScope id scope = true) /\
  (consistent_directory id -> type_of id <> None -> canWriteScope id scope = true -> canReadScope id scope = true).
Proof.
  unfold canManageScope, canWriteScope, canReadScope. destruct (truthy id); simpl; [|done].
  destruct (activePrincipal id) eqn:Ha; simpl; [|done]. destruct (parseScopeId scope) as [kind ref]. split.
  - destruct kind as [[]|]; try done. by destruct (privacy ref === Some true).
  - intros Hc Ht. destruct kind as [[]|]; try done.
    + intros Hm. by rewrite (current_member_reads _ _ _ scope Hc Hm).
    + intros _. unfold activePrincipal in Ha. destruct (type_of id) as [t|]; [|done]. apply eqb_true in Ha as ->.
      apply eqb_refl.
    + by apply current_member_reads.
Qed.

(** C27: outsiders and failures are refused.  Somebody classified as anything but internal
    writes to no scope, manages none, owns no artifact home, is a current member of none and
    reads at most what is theirs or their team's; and when every call to the directory, the
    managed groups and the session list fails, nobody reads, writes or manages a channel or a
    group. *)
Theorem access_fails_closed :
  (forall id t scope, type_of id = Some t -> t <> "internal" ->
     canWriteScope id scope = false /\ canManageScope id scope = false /\ isCurrentSharedScopeMember id scope = false /\
     (forall rule createdBy, managesArtifactHome rule scope createdBy id = false) /\
     (canReadScope id scope = true ->
        ((parseScopeId scope).1 = Some personal /\ samePerson (Some (parseScopeId scope).2) (Some id) = true) \/
        ((parseScopeId scope).1 = Some team /\ in_team id (parseScopeId scope).2 = true))) /\
  ((forall m, managedGroups deps = Some m -> forall r i, is_ok (mg_membership m r i) = false) ->
   (forall d, directory deps = Some d -> forall r i,
      is_ok (channelMember d r i) = false /\ is_ok (groupMember d r i) = false /\
      (forall f, channelMembership d = Some f -> is_ok (f r i) = false) /\
      (forall f, groupMembership d = Some f -> is_ok (f r i) = false) /\
      (forall f, channelPrivacy d = Some f -> is_ok (f r) = false)) ->
   (forall f, sessions deps = Some f -> forall i, is_ok (f i) = false) ->
   forall id scope, (parseScopeId scope).1 = Some channel \/ (parseScopeId scope).1 = Some group ->
     canReadScope id scope = false /\ canWriteScope id scope = false /\ canManageScope id scope = false).
Proof.
  split.
  - intros id t scope Ht Hne.
    assert (Ha : activePrincipal id = false) by (unfold activePrincipal; rewrite Ht; by apply eqb_false).
    assert (Hcur : forall k ref, currentSharedScopeMember k ref id = false)
      by (intros; unfold currentSharedScopeMember; by rewrite Ha).
    unfold canWriteScope, canManageScope, isCurrentSharedScopeMember, managesArtifactHome, canReadScope.
    rewrite Ha, orb_true_r. split_and!; [done|done| |done|].
    + destruct (negb (truthy id)); [done|]. destruct (parseScopeId scope) as [kind ref]. by destruct (shared_kind kind).
    + destruct (negb (truthy id)); [done|]. destruct (parseScopeId scope) as [kind ref]. simpl.
      assert (Hsh : forall k r s, memberOfSharedScope k r id s = false)
        by (intros; unfold memberOfSharedScope, sharedScopeMembership; by rewrite Ha).
      rewrite !Hsh, Ht. destruct kind as [[]|]; try done; auto.
      * by destruct (privacy ref === Some false).
      * by intros [= ->]%bool_decide_eq_true.
  - intros Hm Hd Hs id scope Hkind.
    assert (Hcur : forall k ref, currentSharedScopeMember k ref id = false).
    { intros k ref. unfold currentSharedScopeMember. destruct (activePrincipal id); [|done]. simpl.
      unfold managed, managed_member, direct_member.
      assert (Hdir : match directory deps with
        | Some d => catch_ false ((match k with sk_channel => channelMember d | sk_group => groupMember d end) ref id)
        | None => false end = false).
      { destruct (directory deps) as [d|]; [|done]. destruct (Hd d eq_refl ref id) as (H1 & H2 & _).
        destruct k; [by destruct (channelMember d ref id)|by destruct (groupMember d ref id)]. }
      destruct k; [by destruct (managedGroups deps)|]. destruct (managedGroups deps) as [m|]; [|done].
      destruct (recognizes m ref); [|done]. specialize (Hm m eq_refl ref id). by destruct (mg_membership m ref id). }
    assert (Hpriv : forall ref, privacy ref = None).
    { intros ref. unfold privacy. destruct (directory deps) as [d|]; [|done]. simpl.
      destruct (channelPrivacy d) as [f|] eqn:Ef; [|done]. destruct (Hd d eq_refl ref id) as (_ & _ & _ & _ & Hp).
      specialize (Hp f Ef). by destruct (f ref). }
    assert (Hmem : forall k ref, memberOfSharedScope k ref id scope = false).
    { intros k ref. pose proof (Hcur k ref) as Hc. unfold currentSharedScopeMember in Hc.
      unfold memberOfSharedScope, sharedScopeMembership. destruct (activePrincipal id); [|done]. simpl in *.
      destruct (managed k ref) as [m|]; [done|]. rewrite Hc, Hpriv.
      assert (Hsess : match sessions deps with Some f => includes (catch_ [] (f id)) scope | None => false end = false).
      { destruct (sessions deps) as [f|] eqn:Ef; [|done]. specialize (Hs f eq_refl id). by destruct (f id). }
      rewrite Hsess, andb_false_r. destruct (directory deps) as [d|]; [|done]. simpl.
      destruct (Hd d eq_refl ref id) as (_ & _ & H3 & H4 & _).
      destruct k; [destruct (channelMembership d) as [f|]|destruct (groupMembership d) as [f|]]; try done;
        [specialize (H3 f eq_refl)|specialize (H4 f eq_refl)]; by destruct (f ref id). }
    unfold canReadScope, canWriteScope, canManageScope. destruct (parseScopeId scope) as [kind ref]. simpl in Hkind.
    destruct (truthy id); [|done]. destruct (activePrincipal id); simpl.
    all: destruct Hkind as [-> | ->]; rewrite ?Hmem, ?Hcur, ?Hpriv; done.
Qed.

(** A person listed as a current member is one by the membership test, when the managed
    groups' two answers agree and ids are not empty. *)
Lemma included_elem member l ps p :
  included member l = Ok ps -> p ∈ ps -> member (p_id p) = Ok true /\ activePrincipal (p_id p) = true.
Proof.
  revert ps. induction l as [|[id name] l IH]; simpl; intros ps; [by intros [= <-] ?%not_elem_of_nil|].
  destruct (member id) as [yes|] eqn:Em; [|done]. simpl. destruct (included member l) as [rest|] eqn:Er; [|done]. simpl.
  intros [= <-]. destruct yes; [|by apply IH]. unfold principal_of.
  destruct (activePrincipal id) eqn:Ea; [|by apply IH]. intros [->|Hin]%elem_of_cons; [done|by eapply IH].
Qed.

Theorem listed_members_are_members scope ps p :
  (forall m ref ids, managedGroups deps = Some m -> mg_members m ref = Ok (Some ids) ->
     forall id, id ∈ ids -> mg_membership m ref id = Ok (Some true)) ->
  currentScopeMembers scope = Ok (Some ps) -> p ∈ ps -> truthy (p_id p) = true ->
  isCurrentSharedScopeMember (p_id p) scope = true.
Proof.
  intros Hm. unfold currentScopeMembers, isCurrentSharedScopeMember. destruct (parseScopeId scope) as [kind ref].
  destruct (shared_kind kind) as [k|]; [|done]. intros Hl Hp Ht. rewrite Ht. simpl. unfold currentSharedScopeMember.
  destruct (managed k ref) as [m|] eqn:Em.
  - assert (Hdm : managedGroups deps = Some m).
    { unfold managed in Em. destruct k; [by destruct (managedGroups deps)|].
      destruct (managedGroups deps) as [m'|]; [|done]. destruct (recognizes m' ref); congruence. }
    destruct (mg_members m ref) as [ids|] eqn:Ei; [|done]. simpl in Hl. injection Hl as <-.
    apply list_elem_of_omap in Hp as (id & Hid & Hpo). unfold principal_of in Hpo.
    destruct (activePrincipal id) eqn:Ea; [|done]. injection Hpo as <-. simpl. rewrite Ea. simpl.
    destruct ids as [ids|]; simpl in Hid; [|by apply not_elem_of_nil in Hid].
    unfold managed_member. by rewrite (Hm m ref ids Hdm Ei id Hid).
  - unfold direct_member. destruct (directory deps) as [d|]; [|done]. destruct (dir_list d) as [cands|]; [|done].
    destruct (match k, channelPrivacy d with sk_channel, Some f => f ref | sk_channel, None => Ok None | sk_group, _ => Ok (Some true) end)
      as [priv|]; [|done]. simpl in Hl. destruct (priv === Some true); [|done]. simpl in Hl.
    destruct cands as [l|]; [|done]. simpl in Hl. destruct (included _ l) as [ms|] eqn:Ei; [|done]. injection Hl as <-.
    apply (included_elem _ _ _ _ Ei) in Hp as [Hmem ->]. simpl. by rewrite Hmem.
Qed.
End access.

(** ** Witnesses *)

Definition demo_directory : Directory :=
  MkDirectory (fun _ p => Ok (p === "ann")) (fun _ _ => Throw "down")
    (Some (fun _ p => Ok (Some (p === "ann")))) None (Some (fun _ => Ok (Some true))) None.
Definition demo_identity (p : string) : Classified :=
  MkClassified (Some (if p === "gus" then "guest" else "internal")) None.
Definition demo_deps : ScopeMembershipDeps := MkDeps None (Some demo_directory) (Some demo_identity) None.

Lemma access_hierarchy_witness :
  canManageScope demo_deps "ann" "channel:c1" = true /\ canWriteScope demo_deps "ann" "channel:c1" = true /\
  canReadScope demo_deps "ann" "channel:c1" = true.
Proof.
  assert (Hm : canManageScope demo_deps "ann" "channel:c1" = true) by (vm_compute; reflexivity).
  destruct (access_hierarchy demo_deps "ann" "channel:c1") as [H1 H2].
  split; [exact Hm|]. split; [exact (H1 Hm)|]. apply H2; [|vm_compute; discriminate|exact (H1 Hm)].
  intros d Hd. injection Hd as <-. split; simpl; intros f ref Hf; [|discriminate].
  injection Hf as <-. intros _. reflexivity.
Defined.

Definition down_deps : ScopeMembershipDeps :=
  MkDeps None (Some (MkDirectory (fun _ _ => Throw "down") (fun _ _ => Throw "down") None None None None))
    (Some demo_identity) None.
Lemma access_fails_closed_witness :
  type_of demo_deps "gus" = Some "guest" /\ canWriteScope demo_deps "gus" "org:o" = false /\
  canReadScope down_deps "ann" "group:g1" = false.
Proof.
  split; [reflexivity|]. split.
  - exact (proj1 (proj1 (access_fails_closed demo_deps) "gus" "guest" "org:o" eq_refl ltac:(discriminate))).
  - refine (proj1 (proj2 (access_fails_closed down_deps) _ _ _ "ann" "group:g1" _)); [discriminate| |discriminate|right; reflexivity].
    intros d Hd r i. injection Hd as <-. repeat split; discriminate.
Defined.
