(* ===== verification/Idempotency.v ===== *)
(** * Running something once

    [src/src/idempotency/idempotency-store.ts]: a key's work runs at most once within the
    retention time.  The calls to [once] interleave at their awaits: a call is a task that is
    waiting for the backing store's answer, for its work, or for its record to be written,
    and each definition is one stretch of the source between two awaits.  The backing map is
    shared with other processes, which may change it at any time; a call to it may fail. *)

From S2P Require Import Prelude JsString.

(** Where a call of [once] waits. *)
Inductive Task :=
| Checking (key : string) (cutoff : Z) (cached : bool)
| Running (key : string)
| Writing (key : string) (at_ : Z)
| Asking (key : string) (cutoff : Z) (cached : bool).
(** The key a call of [once] keeps others from working on; a call of [committed] keeps none. *)
Definition holds (t : Task) : option string :=
  match t with Checking k _ _ | Running k | Writing k _ => Some k | Asking _ _ _ => None end.

(** The state of the closure, src/src/idempotency/idempotency-store.ts:29-31
    With the backing map, the calls in progress, and the prunes of the backing map in
    progress: those that wait for its rows, by their cut-off, and the keys left to delete. *)
Record OnceStore := MkOnce {
  done_ : jsmap string Z;
  inflight : list string;
  lastPruneAt : Z;
  backing : option (jsmap string Z);
  tasks : jsmap string Task;
  prunes : list Z;
  deletes : list string;
}.
#[export] Instance OnceStore_eta : Eta OnceStore := fun s =>
  MkOnce s.(done_) s.(inflight) s.(lastPruneAt) s.(backing) s.(tasks) s.(prunes) s.(deletes).

(** What happens: work started or recorded, and the answers of calls ([None]: it threw). *)
Inductive Event :=
| Started (tid key : string) (at_ : Z)
| Committed (key : string) (at_ : Z)
| Answered (tid key : string) (answer : option bool).

Section once.
Context (retentionMs pruneIntervalMs : Z).

(** [isCommitted] src/src/idempotency/idempotency-store.ts:49-51 *)
Definition cached_since (cutoff : Z) (key : string) (st : OnceStore) : bool :=
  match st.(done_) !! key with Some at_ => cutoff <=? at_ | None => false end.

(** The [finally] and the answer, src/src/idempotency/idempotency-store.ts:72-74 *)
Definition finish (tid key : string) (answer : option bool) (st : OnceStore) : list Event * OnceStore :=
  ([Answered tid key answer],
   st <| inflight := js_filter (fun k => k !== key) st.(inflight) |> <| tasks := delete tid st.(tasks) |>).

(** [once] src/src/idempotency/idempotency-store.ts:61-65
    Up to the wait for the backing map. *)
Definition once_begin (now : Z) (tid key : string) (st : OnceStore) : list Event * OnceStore :=
  if includes st.(inflight) key then ([Answered tid key (Some false)], st)
  else
    let cutoff := now - retentionMs in
    ([], st <| inflight := st.(inflight) ++ [key] |>
            <| tasks := <[tid := Checking key cutoff (cached_since cutoff key st)]> st.(tasks) |>).

(** [isCommitted] src/src/idempotency/idempotency-store.ts:52-58
    The answer of the backing map, [Ok None] without one; then the work starts, or not. *)
Definition resume_check (now : Z) (tid : string) (r : result string (option Z)) (st : OnceStore)
  : list Event * OnceStore :=
  match st.(tasks) !! tid with
  | Some (Checking key cutoff cached) =>
      if cached : bool then finish tid key (Some false) st
      else match r with
      | Throw _ => finish tid key None st
      | Ok (Some at_) =>
          if cutoff <=? at_ then finish tid key (Some false) (st <| done_ := <[key := at_]> st.(done_) |>)
          else ([Started tid key now], st <| tasks := <[tid := Running key]> st.(tasks) |>)
      | Ok None => ([Started tid key now], st <| tasks := <[tid := Running key]> st.(tasks) |>)
      end
  | _ => ([], st)
  end.

(** [once] src/src/idempotency/idempotency-store.ts:65-68
    The work is over, well or not; its record is being written. *)
Definition resume_work (now : Z) (tid : string) (ok : bool) (st : OnceStore) : list Event * OnceStore :=
  match st.(tasks) !! tid with
  | Some (Running key) =>
      if ok then ([], st <| tasks := <[tid := Writing key now]> st.(tasks) |>) else finish tid key None st
  | _ => ([], st)
  end.

(** [pruneIfDue] src/src/idempotency/idempotency-store.ts:33-46 *)
Definition pruneIfDue (t : Z) (st : OnceStore) : OnceStore :=
  if t - st.(lastPruneAt) <? pruneIntervalMs then st
  else
    let cutoff := t - retentionMs in
    let old := map fst (js_filter (fun p => p.2 <? cutoff) (entries st.(done_))) in
    let st := st <| lastPruneAt := t |> <| done_ := foldl (fun m k => delete k m) st.(done_) old |> in
    match st.(backing) with
    | Some _ => st <| prunes := st.(prunes) ++ [cutoff] |>
    | None => st
    end.

(** [once] src/src/idempotency/idempotency-store.ts:68-71 *)
Definition resume_write (tid : string) (ok : bool) (st : OnceStore) : list Event * OnceStore :=
  match st.(tasks) !! tid with
  | Some (Writing key at_) =>
      if ok then
        let st := st <| backing := (fun b => <[key := at_]> b) <$> st.(backing) |>
                     <| done_ := <[key := at_]> st.(done_) |> in
        let '(evs, st) := finish tid key (Some true) (pruneIfDue at_ st) in
        (evs ++ [Committed key at_], st)
      else finish tid key None st
  | _ => ([], st)
  end.

(** [pruneIfDue] src/src/idempotency/idempotency-store.ts:40-40
    The rows of the backing map, read at once; those past the cut-off are to be deleted. *)
Definition prune_read (st : OnceStore) : OnceStore :=
  match st.(prunes), st.(backing) with
  | cutoff :: rest, Some b =>
      st <| prunes := rest |>
         <| deletes := st.(deletes) ++ map fst (js_filter (fun p => p.2 <? cutoff) (entries b)) |>
  | _, _ => st
  end.
(** [pruneIfDue] src/src/idempotency/idempotency-store.ts:41-41 *)
Definition prune_delete (st : OnceStore) : OnceStore :=
  match st.(deletes) with
  | key :: rest => st <| deletes := rest |> <| backing := delete key <$> st.(backing) |>
  | [] => st
  end.

(** [committed] src/src/idempotency/idempotency-store.ts:48-58
    The same check on its own: up to the wait, and the rest. *)
Definition committed_begin (now : Z) (tid key : string) (st : OnceStore) : list Event * OnceStore :=
  let cutoff := now - retentionMs in
  ([], st <| tasks := <[tid := Asking key cutoff (cached_since cutoff key st)]> st.(tasks) |>).
(** [committed] src/src/idempotency/idempotency-store.ts:52-58 *)
Definition committed_resume (tid : string) (r : result string (option Z)) (st : OnceStore) : list Event * OnceStore :=
  match st.(tasks) !! tid with
  | Some (Asking key cutoff cached) =>
      let st := st <| tasks := delete tid st.(tasks) |> in
      if cached : bool then ([Answered tid key (Some true)], st)
      else match r with
      | Throw _ => ([Answered tid key None], st)
      | Ok (Some at_) =>
          if cutoff <=? at_ then ([Answered tid key (Some true)], st <| done_ := <[key := at_]> st.(done_) |>)
          else ([Answered tid key (Some false)], st)
      | Ok None => ([Answered tid key (Some false)], st)
      end
  | _ => ([], st)
  end.

(** ** Interleavings *)

(** One step of a process: the next stretch of some call or prune, or a change that another
    process makes to the shared map. *)
Inductive Step :=
| SBegin (tid key : string)
| SCheck (tid : string) (r : result string (option Z))
| SWork (tid : string) (ok : bool)
| SWrite (tid : string) (ok : bool)
| SAsk (tid key : string)
| SAskAnswer (tid : string) (r : result string (option Z))
| SPruneRead
| SPruneDelete
| SForeign (b : option (jsmap string Z)).

Definition do_step (now : Z) (s : Step) (st : OnceStore) : list Event * OnceStore :=
  match s with
  | SBegin tid key => once_begin now tid key st
  | SCheck tid r => resume_check now tid r st
  | SWork tid ok => resume_work now tid ok st
  | SWrite tid ok => resume_write tid ok st
  | SAsk tid key => committed_begin now tid key st
  | SAskAnswer tid r => committed_resume tid r st
  | SPruneRead => ([], prune_read st)
  | SPruneDelete => ([], prune_delete st)
  | SForeign b => ([], st <| backing := b |>)
  end.

(** A run: the steps with their clock readings; the events so far are kept in order. *)
Definition once_run (steps : list (Z * Step)) (acc : list Event * OnceStore) : list Event * OnceStore :=
  foldl (fun acc s => let '(evs, st) := do_step s.1 s.2 acc.2 in (acc.1 ++ evs, st)) acc steps.

(** A run the theorem is about: the clock does not go back, a call has an id of its own, and
    nobody asks [committed] on the side, which the program never does. *)
Fixpoint legal_steps (clock : Z) (steps : list (Z * Step)) (st : OnceStore) : Prop :=
  match steps with
  | [] => True
  | (now, s) :: steps =>
      clock <= now /\
      match s with
      | SBegin tid _ => tasks st !! tid = None
      | SAsk _ _ | SAskAnswer _ _ => False
      | _ => True
      end /\
      legal_steps now steps (do_step now s st).2
  end.

(** Work in progress on a key. *)
Definition working (t : Task) : option string := match t with Running k | Writing k _ => Some k | _ => None end.

Record once_ok (clock : Z) (evs : list Event) (st : OnceStore) : Prop := {
  oo_inflight tid t k : tasks st !! tid = Some t -> holds t = Some k -> k ∈ inflight st;
  oo_unique t1 t2 x1 x2 k : tasks st !! t1 = Some x1 -> tasks st !! t2 = Some x2 ->
    holds x1 = Some k -> holds x2 = Some k -> t1 = t2;
  oo_done k a : Committed k a ∈ evs ->
    (exists a', done_ st !! k = Some a' /\ a <= a') \/ a + retentionMs < clock;
  oo_checking tid k cutoff : tasks st !! tid = Some (Checking k cutoff false) ->
    cutoff + retentionMs <= clock /\ forall a, Committed k a ∈ evs -> a < cutoff;
  oo_cached tid k cutoff : tasks st !! tid = Some (Checking k cutoff true) -> cutoff + retentionMs <= clock;
  oo_working tid t k : tasks st !! tid = Some t -> working t = Some k ->
    forall a, Committed k a ∈ evs -> a + retentionMs < clock;
  oo_writing tid k a : tasks st !! tid = Some (Writing k a) -> a <= clock;
  oo_no_ask tid k c b : tasks st !! tid <> Some (Asking k c b);
  oo_started e1 tid k t e2 : evs = e1 ++ Started tid k t :: e2 ->
    (forall a, Committed k a ∈ e1 -> a + retentionMs < t) /\
    ((exists ans, Answered tid k ans ∈ e2) \/ exists x, tasks st !! tid = Some x /\ working x = Some k);
  oo_apart e1 tid k t e2 tid' t' e3 : evs = e1 ++ Started tid k t :: e2 ++ Started tid' k t' :: e3 ->
    exists ans, Answered tid k ans ∈ e2;
}.

(** Time may pass. *)
Lemma once_ok_later c c' evs st : c <= c' -> once_ok c evs st -> once_ok c' evs st.
Proof.
  intros Hc [H1 H2 H3 H4 H5 H6 H7 H8 H9 H10]. split; try done.
  - intros k a Hin. destruct (H3 k a Hin) as [?|?]; [by left|right; lia].
  - intros tid k cutoff Ht. destruct (H4 _ _ _ Ht) as [? ?]. split; [lia|done].
  - intros tid k cutoff Ht. specialize (H5 _ _ _ Ht). lia.
  - intros tid t k Ht Hw a Ha. specialize (H6 _ _ _ Ht Hw a Ha). lia.
  - intros tid k a Ht. specialize (H7 _ _ _ Ht). lia.
Qed.

Lemma split_mid {A} (l es a b : list A) y :
  l ++ es = a ++ y :: b ->
  (exists b', l = a ++ y :: b' /\ b = b' ++ es) \/ (exists a', a = l ++ a' /\ es = a' ++ y :: b).
Proof.
  revert a. induction l as [|x l IH]; intros a; simpl; [intros ->; right; by exists a|].
  destruct a as [|z a]; simpl; intros [= -> E]; [left; by exists l|].
  destruct (IH a E) as [(b' & -> & ->)|(a' & -> & ->)]; [left; by exists b'|right; by exists a'].
Qed.

(** Events that start and commit nothing. *)
Definition quiet (es : list Event) : Prop :=
  forall e, e ∈ es -> match e with Started _ _ _ | Committed _ _ => False | Answered _ _ _ => True end.
Definition no_start (es : list Event) : Prop :=
  forall e, e ∈ es -> match e with Started _ _ _ => False | _ => True end.

Lemma quiet_no_start es : quiet es -> no_start es.
Proof. intros H e He. specialize (H e He). by destruct e. Qed.
Lemma quiet_committed evs es k a : quiet es -> Committed k a ∈ evs ++ es <-> Committed k a ∈ evs.
Proof. intros H. rewrite elem_of_app. split; [|tauto]. intros [?|Hin]; [done|]. by apply H in Hin. Qed.
Lemma split_started evs es e1 tid k t e2 :
  no_start es -> evs ++ es = e1 ++ Started tid k t :: e2 -> exists e2', evs = e1 ++ Started tid k t :: e2' /\ e2 = e2' ++ es.
Proof.
  intros H [?|(a' & -> & ->)]%split_mid; [done|]. exfalso. apply (H (Started tid k t)).
  rewrite elem_of_app, elem_of_cons. tauto.
Qed.

(** The two facts about the events survive when a task's work is over with its answer, or
    keeps a key it works on. *)
Lemma started_quiet (tk tk' : jsmap string Task) evs es :
  no_start es ->
  (forall tid x k, tk !! tid = Some x -> working x = Some k ->
     (exists ans, Answered tid k ans ∈ es) \/ exists x', tk' !! tid = Some x' /\ working x' = Some k) ->
  (forall e1 tid k t e2, evs = e1 ++ Started tid k t :: e2 ->
     (forall a, Committed k a ∈ e1 -> a + retentionMs < t) /\
     ((exists ans, Answered tid k ans ∈ e2) \/ exists x, tk !! tid = Some x /\ working x = Some k)) ->
  forall e1 tid k t e2, evs ++ es = e1 ++ Started tid k t :: e2 ->
     (forall a, Committed k a ∈ e1 -> a + retentionMs < t) /\
     ((exists ans, Answered tid k ans ∈ e2) \/ exists x, tk' !! tid = Some x /\ working x = Some k).
Proof.
  intros Hq Hk Hs e1 tid k t e2 (e2' & -> & ->)%split_started; [|done].
  destruct (Hs _ _ _ _ _ eq_refl) as [Hc [[ans Ha]|(x & Hx & Hw)]]; (split; [done|]).
  - left. exists ans. rewrite elem_of_app. by left.
  - destruct (Hk _ _ _ Hx Hw) as [[ans ?]|?]; [left; exists ans; rewrite elem_of_app; by right|by right].
Qed.
Lemma apart_quiet (evs es : list Event) :
  no_start es ->
  (forall e1 tid k t e2 tid' t' e3, evs = e1 ++ Started tid k t :: e2 ++ Started tid' k t' :: e3 ->
     exists ans, Answered tid k ans ∈ e2) ->
  forall e1 tid k t e2 tid' t' e3, evs ++ es = e1 ++ Started tid k t :: e2 ++ Started tid' k t' :: e3 ->
     exists ans, Answered tid k ans ∈ e2.
Proof.
  intros Hq Hs e1 tid k t e2 tid' t' e3 E.
  destruct (split_started evs es (e1 ++ Started tid k t :: e2) tid' k t' e3 Hq) as (e3' & -> & ->).
  { by rewrite <- app_assoc. }
  rewrite <- app_assoc in Hs. by eapply Hs.
Qed.

(** Changes that leave the calls and the cache alone. *)
Lemma once_ok_frame c evs st st' :
  done_ st' = done_ st -> inflight st' = inflight st -> tasks st' = tasks st -> once_ok c evs st -> once_ok c evs st'.
Proof.
  destruct st, st'; simpl. intros -> -> -> [H1 H2 H3 H4 H5 H6 H7 H8 H9 H10]. by split.
Qed.

(** A later time for a key in the cache. *)
Lemma once_ok_done c evs st k at_ :
  (forall a, Committed k a ∈ evs -> a <= at_ \/ a + retentionMs < c) ->
  once_ok c evs st -> once_ok c evs (st <| done_ := <[k := at_]> (done_ st) |>).
Proof.
  intros Hat [H1 H2 H3 H4 H5 H6 H7 H8 H9 H10]. destruct st; split; simpl in *; try done.
  intros k' a Ha. rewrite lookup_set. case_decide as E; [subst k'|by apply H3].
  destruct (Hat a Ha); [left; eauto|by right].
Qed.

Lemma holds_working x k : working x = Some k -> holds x = Some k.
Proof. by destruct x. Qed.

(** A call that answers. *)
Lemma finish_ok c evs st tid x k ans :
  tasks st !! tid = Some x -> holds x = Some k -> once_ok c evs st ->
  once_ok c (evs ++ (finish tid k ans st).1) (finish tid k ans st).2.
Proof.
  intros Hx Hk [H1 H2 H3 H4 H5 H6 H7 H8 H9 H10]. unfold finish. cbn [fst snd].
  assert (Hq : quiet [Answered tid k ans]) by (by intros e ->%list_elem_of_singleton).
  assert (Hst : no_start [Answered tid k ans]) by (by apply quiet_no_start).
  assert (Hdel : forall t y, delete tid (tasks st) !! t = Some y -> t <> tid /\ tasks st !! t = Some y).
  { intros t y. rewrite lookup_del. by case_decide. }
  destruct st as [dn fl lp bk tk pr de]; split; simpl in *.
  - intros t y k' [Hne Ht]%Hdel Hh. apply elem_of_js_filter. split; [|by eapply H1].
    apply negb_true_iff, eqb_false. intros ->. by apply Hne, (H2 t tid y x k).
  - intros t1 t2 x1 x2 k' [_ ?]%Hdel [_ ?]%Hdel. by apply H2 with (x1 := x1) (x2 := x2).
  - intros k' a. rewrite quiet_committed by done. apply H3.
  - intros t k' cutoff [_ Ht]%Hdel. destruct (H4 _ _ _ Ht) as [? Ha]. split; [done|]. intros a. rewrite quiet_committed by done. apply Ha.
  - intros t k' cutoff [_ Ht]%Hdel. by eapply H5.
  - intros t y k' [_ Ht]%Hdel Hw a. rewrite quiet_committed by done. by eapply H6.
  - intros t k' a [_ Ht]%Hdel. by eapply H7.
  - intros t k' c' b [_ Ht]%Hdel. by eapply H8.
  - eapply (started_quiet tk); [done| |exact H9]. intros t y k' Ht Hw.
    destruct (decide (t = tid)) as [->|Hne].
    + left. exists ans. rewrite Hx in Ht. injection Ht as <-. apply holds_working in Hw. rewrite Hk in Hw.
      injection Hw as ->. by left.
    + right. exists y. by rewrite lookup_del, decide_False.
  - by apply apart_quiet.
Qed.


Lemma set_Some {V} (m : jsmap string V) k v k' x :
  <[k := v]> m !! k' = Some x -> (k' = k /\ x = v) \/ (k' <> k /\ m !! k' = Some x).
Proof. rewrite lookup_set. case_decide; [intros [= <-]; auto|auto]. Qed.

Lemma begin_ok c evs st tid key :
  tasks st !! tid = None -> once_ok c evs st ->
  once_ok c (evs ++ (once_begin c tid key st).1) (once_begin c tid key st).2.
Proof.
  intros Hf [H1 H2 H3 H4 H5 H6 H7 H8 H9 H10]. unfold once_begin.
  destruct (includes (inflight st) key) eqn:Ei; cbn [fst snd].
  { assert (Hq : quiet [Answered tid key (Some false)]) by (by intros e ->%list_elem_of_singleton).
    assert (Hn := quiet_no_start _ Hq). split; try done.
    - intros k a. rewrite quiet_committed by done. apply H3.
    - intros t k cutoff Ht. destruct (H4 _ _ _ Ht) as [? Ha]. split; [done|]. intros a. rewrite quiet_committed by done. apply Ha.
    - intros t y k Ht Hw a. rewrite quiet_committed by done. by eapply H6.
    - eapply (started_quiet (tasks st)); [done| |exact H9]. eauto.
    - by apply apart_quiet. }
  apply includes_false in Ei. rewrite app_nil_r. unfold cached_since.
  set (cached := match done_ st !! key with Some at_ => c - retentionMs <=? at_ | None => false end).
  assert (Hcached : cached = false -> forall a, Committed key a ∈ evs -> a < c - retentionMs).
  { unfold cached. intros Hc a Ha. destruct (H3 _ _ Ha) as [(a' & Hd & ?)|?]; [|lia]. rewrite Hd in Hc. to_prop. lia. }
  clearbody cached. destruct st as [dn fl lp bk tk pr de]; split; simpl in *; try done.
  - intros t y k [[-> ->]|[_ Ht]]%set_Some Hh; rewrite elem_of_app; [|left; by eapply H1].
    right. simpl in Hh. injection Hh as ->. by left.
  - intros t1 t2 x1 x2 k [[-> ->]|[? Ht1]]%set_Some [[-> ->]|[? Ht2]]%set_Some Hh1 Hh2; simpl in *; simplify_eq; try done.
    + by destruct Ei; eapply H1.
    + by destruct Ei; eapply H1.
    + by eapply H2.
  - intros t k cutoff [[-> E]|[_ Ht]]%set_Some; [|by apply H4 in Ht]. injection E as -> -> <-. split; [lia|]. by apply Hcached.
  - intros t k cutoff [[-> E]|[_ Ht]]%set_Some; [|by apply H5 in Ht]. injection E as -> -> _. lia.
  - intros t y k [[-> ->]|[_ Ht]]%set_Some Hw; [done|by eapply H6].
  - intros t k a [[_ E]|[_ Ht]]%set_Some; [done|by eapply H7].
  - intros t k c' b [[_ E]|[_ Ht]]%set_Some; [done|by eapply H8].
  - intros e1 t k a e2 E. destruct (H9 _ _ _ _ _ E) as [? [?|(x & Hx & Hw)]]; (split; [done|]); [by left|right].
    exists x. rewrite lookup_set, decide_False; [done|]. by intros ->; rewrite Hf in Hx.
Qed.

Lemma start_ok c evs st tid k cutoff :
  tasks st !! tid = Some (Checking k cutoff false) -> once_ok c evs st ->
  once_ok c (evs ++ [Started tid k c]) (st <| tasks := <[tid := Running k]> (tasks st) |>).
Proof.
  intros Hx [H1 H2 H3 H4 H5 H6 H7 H8 H9 H10]. destruct (H4 _ _ _ Hx) as [Hcut Hlt].
  assert (Hcom : forall k' a, Committed k' a ∈ evs ++ [Started tid k c] <-> Committed k' a ∈ evs).
  { intros k' a. rewrite elem_of_app, list_elem_of_singleton. intuition done. }
  destruct st as [dn fl lp bk tk pr de]; split; simpl in *.
  - intros t y k' [[-> ->]|[_ Ht]]%set_Some Hh; [|by eapply H1]. simpl in Hh. injection Hh as <-. by eapply H1.
  - intros t1 t2 x1 x2 k' [[-> ->]|[? Ht1]]%set_Some [[-> ->]|[? Ht2]]%set_Some Hh1 Hh2; simpl in *; simplify_eq; try done;
      by eapply H2.
  - intros k' a. rewrite Hcom. apply H3.
  - intros t k' cut [[_ E]|[_ Ht]]%set_Some; [done|]. setoid_rewrite Hcom. by eapply H4.
  - intros t k' cut [[_ E]|[_ Ht]]%set_Some; [done|]. by eapply H5.
  - intros t y k' [[-> ->]|[_ Ht]]%set_Some Hw a; rewrite Hcom; [|by eapply H6].
    simpl in Hw. injection Hw as <-. intros Ha. specialize (Hlt a Ha). lia.
  - intros t k' a [[_ E]|[_ Ht]]%set_Some; [done|by eapply H7].
  - intros t k' c' b [[_ E]|[_ Ht]]%set_Some; [done|by eapply H8].
  - intros e1 t k' a e2 [(e2' & -> & ->)|(a' & -> & E)]%split_mid.
    + destruct (H9 _ _ _ _ _ eq_refl) as [? [[ans ?]|(x & Hx' & Hw)]]; (split; [done|]).
      * left. exists ans. rewrite elem_of_app. by left.
      * right. exists x. rewrite lookup_set, decide_False; [done|]. intros ->. rewrite Hx in Hx'. by injection Hx' as <-.
    + destruct a' as [|? [|]]; try done. injection E as <- <- <- <-. rewrite app_nil_r. split.
      * intros a Ha. specialize (Hlt a Ha). lia.
      * right. exists (Running k). by rewrite lookup_set_eq.
  - intros e1 t k' a e2 t' a'' e3 E.
    assert (E' : evs ++ [Started tid k c] = (e1 ++ Started t k' a :: e2) ++ Started t' k' a'' :: e3) by (by rewrite <- app_assoc).
    apply split_mid in E' as [(b' & Hl & ->)|(x' & Hl & Er)].
    + rewrite <- app_assoc in Hl. by eapply H10.
    + destruct x' as [|? [|]]; try done. injection Er as <- <- <- <-. rewrite app_nil_r in Hl.
      destruct (H9 _ _ _ _ _ (eq_sym Hl)) as [_ [?|(x & Hx' & Hw)]]; [done|].
      assert (t = tid) as -> by (eapply H2; [exact Hx'|exact Hx|by apply holds_working|done]).
      rewrite Hx in Hx'. by injection Hx' as <-.
Qed.

Lemma work_ok c evs st tid k :
  tasks st !! tid = Some (Running k) -> once_ok c evs st ->
  once_ok c evs (st <| tasks := <[tid := Writing k c]> (tasks st) |>).
Proof.
  intros Hx [H1 H2 H3 H4 H5 H6 H7 H8 H9 H10]. destruct st as [dn fl lp bk tk pr de]; split; simpl in *; try done.
  - intros t y k' [[-> ->]|[_ Ht]]%set_Some Hh; [|by eapply H1]. simpl in Hh. injection Hh as <-. by eapply H1.
  - intros t1 t2 x1 x2 k' [[-> ->]|[? Ht1]]%set_Some [[-> ->]|[? Ht2]]%set_Some Hh1 Hh2; simpl in *; simplify_eq; try done;
      by eapply H2.
  - intros t k' cut [[_ E]|[_ Ht]]%set_Some; [done|by eapply H4].
  - intros t k' cut [[_ E]|[_ Ht]]%set_Some; [done|by eapply H5].
  - intros t y k' [[-> ->]|[_ Ht]]%set_Some Hw; [|by eapply H6]. simpl in Hw. injection Hw as <-. by eapply H6.
  - intros t k' a [[_ E]|[_ Ht]]%set_Some; [injection E as -> ->; lia|by eapply H7].
  - intros t k' c' b [[_ E]|[_ Ht]]%set_Some; [done|by eapply H8].
  - intros e1 t k' a e2 E. destruct (H9 _ _ _ _ _ E) as [? [?|(x & Hx' & Hw)]]; (split; [done|]); [by left|right].
    destruct (decide (t = tid)) as [->|Hne].
    + exists (Writing k c). rewrite lookup_set_eq. split; [done|]. rewrite Hx in Hx'. by injection Hx' as <-.
    + exists x. by rewrite lookup_set, decide_False.
Qed.


Lemma lookup_delete_all {V} (l : list string) (m : jsmap string V) k :
  foldl (fun m k => delete k m) m l !! k = if decide (k ∈ l) then None else m !! k.
Proof.
  revert m. induction l as [|x l IH]; intros m; simpl; [done|]. rewrite IH, lookup_del.
  repeat case_decide; rewrite ?elem_of_cons in *; naive_solver.
Qed.

Lemma prune_ok c evs st t : t <= c -> once_ok c evs st -> once_ok c evs (pruneIfDue t st).
Proof.
  intros Ht Hok. unfold pruneIfDue. destruct (_ <? _); [done|]. cbv zeta.
  set (old := map fst (js_filter (fun p => p.2 <? t - retentionMs) (entries (done_ st)))).
  assert (Hp : once_ok c evs (st <| lastPruneAt := t |> <| done_ := foldl (fun m k => delete k m) (done_ st) old |>)).
  { destruct Hok as [H1 H2 H3 H4 H5 H6 H7 H8 H9 H10]. destruct st as [dn fl lp bk tk pr de]; split; simpl in *; try done.
    intros k a Ha. rewrite lookup_delete_all. destruct (H3 _ _ Ha) as [(a' & Hd & Hle)|?]; [|by right].
    case_decide as Hin; [|left; eauto]. right. apply list_elem_of_fmap in Hin as ([k' v] & -> & [Hv He]%elem_of_js_filter).
    apply elem_of_entries in He. simpl in *. rewrite Hd in He. injection He as <-. to_prop. lia. }
  revert Hp. set (st1 := st <| lastPruneAt := t |> <| done_ := _ |>). intros Hp.
  destruct (backing st1); [|done]. by eapply once_ok_frame; [..|exact Hp]; destruct st1.
Qed.

Lemma prune_done c st k at_ t :
  t <= c -> done_ st !! k = Some at_ ->
  (exists a', done_ (pruneIfDue t st) !! k = Some a' /\ at_ <= a') \/ at_ + retentionMs < c.
Proof.
  intros Ht Hd. unfold pruneIfDue. destruct (_ <? _); [left; exists at_; split; [done|lia]|]. cbv zeta.
  set (old := map fst (js_filter (fun p => p.2 <? t - retentionMs) (entries (done_ st)))).
  destruct (decide (k ∈ old)) as [Hin|Hin].
  - right. apply list_elem_of_fmap in Hin as ([k' v] & -> & [Hv He]%elem_of_js_filter).
    apply elem_of_entries in He. simpl in *. rewrite Hd in He. injection He as <-. to_prop. lia.
  - left. exists at_. split; [|lia].
    destruct (backing _); destruct st; simpl in *; by rewrite lookup_delete_all, decide_False.
Qed.

Lemma commit_ok c evs st k at_ :
  (forall tid x, tasks st !! tid = Some x -> holds x <> Some k) ->
  (exists a', done_ st !! k = Some a' /\ at_ <= a') \/ at_ + retentionMs < c ->
  once_ok c evs st -> once_ok c (evs ++ [Committed k at_]) st.
Proof.
  intros Hfree Hd [H1 H2 H3 H4 H5 H6 H7 H8 H9 H10].
  assert (Hn : no_start [Committed k at_]) by (by intros e ->%list_elem_of_singleton).
  assert (Hcom : forall k' a, Committed k' a ∈ evs ++ [Committed k at_] -> Committed k' a ∈ evs \/ (k' = k /\ a = at_)).
  { intros k' a. rewrite elem_of_app, list_elem_of_singleton. intros [?|[= -> ->]]; auto. }
  split; try done.
  - intros k' a [Ha|[-> ->]]%Hcom; [by apply H3|done].
  - intros t k' cut Ht. destruct (H4 _ _ _ Ht) as [? Ha]. split; [done|]. intros a [?|[-> _]]%Hcom; [by apply Ha|].
    by destruct (Hfree _ _ Ht).
  - intros t y k' Ht Hw a [Ha|[-> _]]%Hcom; [by eapply H6|]. by destruct (Hfree _ _ Ht); apply holds_working.
  - eapply (started_quiet (tasks st)); [done| |exact H9]. eauto.
  - by apply apart_quiet.
Qed.

Lemma once_step_ok c evs st s :
  match s with SBegin tid _ => tasks st !! tid = None | SAsk _ _ | SAskAnswer _ _ => False | _ => True end ->
  once_ok c evs st -> once_ok c (evs ++ (do_step c s st).1) (do_step c s st).2.
Proof.
  intros Hl Hok. destruct s as [tid key|tid r|tid ok|tid ok|tid key|tid r| | |b]; simpl in *; try done.
  - by apply begin_ok.
  - unfold resume_check. destruct (tasks st !! tid) as [[key cutoff cached| | |]|] eqn:Ht; simpl; rewrite ?app_nil_r; try done.
    destruct cached; [by eapply finish_ok|]. destruct r as [[at_|]|e].
    + destruct (cutoff <=? at_) eqn:Ec; [|by eapply start_ok]. to_prop.
      apply finish_ok with (x := Checking key cutoff false); [by destruct st|done|].
      apply once_ok_done; [|done]. intros a Ha. destruct (oo_checking _ _ _ Hok _ _ _ Ht) as [_ Hlt]. specialize (Hlt a Ha). left. lia.
    + by eapply start_ok.
    + by eapply finish_ok.
  - unfold resume_work. destruct (tasks st !! tid) as [[| key | |]|] eqn:Ht; simpl; rewrite ?app_nil_r; try done.
    destruct ok; simpl; [rewrite app_nil_r; by eapply work_ok|by eapply finish_ok].
  - unfold resume_write. destruct (tasks st !! tid) as [[| |key at_|]|] eqn:Ht; simpl; rewrite ?app_nil_r; try done.
    destruct ok; [|by eapply finish_ok]. cbv zeta. pose proof (oo_writing _ _ _ Hok _ _ _ Ht) as Hat.
    set (st1 := st <| backing := _ |> <| done_ := _ |>).
    assert (H1 : once_ok c evs st1).
    { unfold st1. set (st0 := st <| backing := _ |>).
      assert (H0 : once_ok c evs st0) by (by eapply once_ok_frame; [..|exact Hok]; destruct st).
      replace (done_ st) with (done_ st0) by (by destruct st). apply once_ok_done; [|done].
      intros a Ha. right. by eapply (oo_working _ _ _ Hok). }
    assert (Hd1 : done_ st1 !! key = Some at_) by (destruct st; simpl; apply lookup_set_eq).
    assert (Ht1 : tasks st1 !! tid = Some (Writing key at_)) by (by destruct st).
    clearbody st1. clear Hok Ht st. set (st2 := pruneIfDue at_ st1).
    assert (H2 : once_ok c evs st2) by (by apply prune_ok).
    assert (Ht2 : tasks st2 !! tid = Some (Writing key at_)).
    { unfold st2, pruneIfDue. destruct (_ <? _); [done|]. cbv zeta. destruct (backing _); by destruct st1. }
    pose proof (prune_done c st1 key at_ at_ Hat Hd1) as Hd2. fold st2 in Hd2.
    pose proof (finish_ok c evs st2 tid _ key (Some true) Ht2 eq_refl H2) as Hf.
    unfold finish in *. cbn [fst snd app] in *.
    replace (evs ++ [Answered tid key (Some true); Committed key at_])
      with ((evs ++ [Answered tid key (Some true)]) ++ [Committed key at_]) by (by rewrite <- app_assoc).
    apply commit_ok; [|by destruct st2|exact Hf].
    intros t x Hx Hh. destruct st2; simpl in *. rewrite lookup_del in Hx. case_decide; [done|].
    assert (t = tid) by (eapply (oo_unique _ _ _ H2); simpl; eauto). congruence.
  - rewrite app_nil_r. by eapply once_ok_frame; [..|exact Hok]; unfold prune_read; destruct (prunes st), (backing st); destruct st.
  - rewrite app_nil_r. by eapply once_ok_frame; [..|exact Hok]; unfold prune_delete; destruct (deletes st); destruct st.
  - rewrite app_nil_r. by eapply once_ok_frame; [..|exact Hok]; destruct st.
Qed.


Lemma once_run_ok steps : forall c evs st,
  legal_steps c steps st -> once_ok c evs st ->
  exists c', once_ok c' (once_run steps (evs, st)).1 (once_run steps (evs, st)).2.
Proof.
  induction steps as [|[now s] steps IH]; intros c evs st; simpl; [by exists c|].
  intros (Hc & Hs & Hl) Hok. unfold once_run in *. simpl.
  pose proof (once_step_ok now evs st s Hs (once_ok_later _ _ _ _ Hc Hok)) as Hok'.
  destruct (do_step now s st) as [es st'] eqn:E. simpl in *. by eapply IH.
Qed.

(** A process that starts: an empty cache, whatever the shared map holds. *)
Definition fresh_once (now : Z) (b : option (jsmap string Z)) : OnceStore := MkOnce ∅ [] now b ∅ [] [].

Lemma fresh_ok now b : once_ok now [] (fresh_once now b).
Proof.
  split; simpl; try done.
  - by intros k a ?%not_elem_of_nil.
  - by intros [].
  - by intros [].
Qed.

End once.

(** ** Witnesses *)

Definition demo_once : list (Z * Step) :=
  [(0, SBegin "a" "k"); (1, SBegin "b" "k"); (2, SCheck "a" (Ok None)); (3, SWork "a" true); (4, SWrite "a" true);
   (5, SBegin "c" "k"); (6, SCheck "c" (Ok None)); (200, SBegin "d" "k"); (201, SCheck "d" (Ok None))].


(** The prune of the shared map deletes by key what it read earlier: a record written in
    between is lost, although it is within the retention time. *)
Example prune_deletes_fresh_record :
  let steps :=
    [(200, SBegin "a" "other"); (200, SCheck "a" (Ok None)); (200, SWork "a" true); (200, SWrite "a" true);
     (201, SPruneRead);
     (202, SBegin "b" "k"); (202, SCheck "b" (Ok (Some 10))); (203, SWork "b" true); (203, SWrite "b" true);
     (204, SPruneDelete)] in
  let '(evs, st) := once_run 100 50 steps ([], fresh_once 0 (Some (<["k" := 10]> ∅))) in
  Committed "k" 203 ∈ evs /\ (backing st ≫= fun b => b !! "k") = None.
Proof. vm_compute. split; [|reflexivity]. set_solver. Qed.
