(* ===== verification/Signals.v ===== *)
(** * Signals to a run

    An abort or a steer that reaches a run while it works: the in-memory signal store and the
    poll a harness keeps on it ([src/src/runs/run-signal-store.ts]).  Polls interleave with
    senders and with each other at their awaits, and each definition is one stretch of the
    source between two of them.  A poll is named by its id, which stands for its callback;
    a [Set] of callbacks is an object in [sets], because [onSignal] hands out a closure that
    keeps it.  A promise in flight is the number of the drain it belongs to. *)

From S2P Require Import Prelude JsString Turn.

(** ** Data *)

(** [RunSignal] src/src/runs/run-signal-store.ts:5-10
    [kind] is read as a string, because older rows hold [followUp]. *)
Record RunSignal := MkSignal { kind : string; text : option string; ts : option string; request : option TurnRequest }.

(** [SignalPollHandlers] src/src/runs/run-signal-store.ts:54-57
    The call a signal turns into. *)
Inductive Call := OnAbort | OnSteer (text : string) (ts : option string).

(** Where a drain is: waiting for [takePending], for a handler, or for its [finally]. *)
Inductive Phase := Idle | Taken (todo : list RunSignal) | Handling (todo : list RunSignal) | Finishing.

(** [startSignalPoll] src/src/runs/run-signal-store.ts:65-68
    [inFlight] is the number of the last drain; [waits] are the calls of its stop function,
    each with the promise it awaits. *)
Record Poll := MkPoll {
  runId : string;
  drainOnStop : bool;
  draining : bool;
  redrain : bool;
  accepting : bool;
  phase : Phase;
  inFlight : nat;
  subscribed_to : string;
  timer : bool;
  waits : jsmap string nat;
}.
#[export] Instance Poll_eta : Eta Poll := fun p =>
  MkPoll p.(runId) p.(drainOnStop) p.(draining) p.(redrain) p.(accepting) p.(phase) p.(inFlight)
    p.(subscribed_to) p.(timer) p.(waits).

(** [createMemoryRunSignalStore] src/src/runs/run-signal-store.ts:21-23
    The closure of the store, with the polls on it. *)
Record Signals := MkSignals {
  pending : jsmap string (list RunSignal);
  listeners : jsmap string string;
  sets : jsmap string (list string);
  polls : jsmap string Poll;
}.
#[export] Instance Signals_eta : Eta Signals := fun s =>
  MkSignals s.(pending) s.(listeners) s.(sets) s.(polls).

Definition empty_signals : Signals := MkSignals ∅ ∅ ∅ ∅.

(** What happens: a poll starts, a signal is sent, a list of signals is taken (by a poll or
    by somebody else), a handler is called or fails, and a call of a stop function ends. *)
Inductive Event :=
| Began (pid run : string)
| Sent (run : string) (s : RunSignal)
| Took (by_ : option string) (run : string) (batch : list RunSignal)
| Called (pid : string) (c : Call)
| Failed (pid : string)
| Stopped (pid : string).

(** ** The store *)

Definition pending_of (run : string) (st : Signals) : list RunSignal := st.(pending) !! run ?? [].
Definition callbacks (set : string) (st : Signals) : list string := st.(sets) !! set ?? [].

(** [takePending] src/src/runs/run-signal-store.ts:31-35 *)
Definition takePending (run : string) (st : Signals) : list RunSignal * Signals :=
  (pending_of run st, st <| pending := delete run st.(pending) |>).

(** [pendingRunIds] src/src/runs/run-signal-store.ts:36-38 *)
Definition pendingRunIds (st : Signals) : list string := keys st.(pending).

(** [onSignal] src/src/runs/run-signal-store.ts:40-43
    [newSet] is the identity of the set made when there is none. *)
Definition onSignal (run pid newSet : string) (st : Signals) : string * Signals :=
  let set := st.(listeners) !! run ?? newSet in
  let cbs := if is_some (st.(listeners) !! run) then callbacks set st else [] in
  let cbs := if includes cbs pid then cbs else cbs ++ [pid] in
  (set, st <| sets := <[set := cbs]> st.(sets) |> <| listeners := <[run := set]> st.(listeners) |>).

(** [onSignal] src/src/runs/run-signal-store.ts:44-47
    The closure it returns. *)
Definition unsubscribe (run pid set : string) (st : Signals) : Signals :=
  let cbs := js_filter (fun q => q !== pid) (callbacks set st) in
  let st := st <| sets := <[set := cbs]> st.(sets) |> in
  match cbs with [] => st <| listeners := delete run st.(listeners) |> | _ => st end.

(** ** A poll *)

(** [startSignalPoll] src/src/runs/run-signal-store.ts:77-80
    What a signal is dispatched to; [None] for one that is passed over. *)
Definition dispatch (s : RunSignal) : option Call :=
  if s.(kind) === "abort" then Some OnAbort
  else if ((s.(kind) === "steer") || (s.(kind) === "followUp")) && truthy_opt s.(text)
  then Some (OnSteer (s.(text) ?? "") s.(ts))
  else None.

Definition set_poll (pid : string) (p : Poll) (st : Signals) : Signals := st <| polls := <[pid := p]> st.(polls) |>.

(** [drain] src/src/runs/run-signal-store.ts:69-77
    Up to the wait for [takePending], which answers from memory. *)
Definition drain (pid : string) (forced : bool) (st : Signals) : list Event * Signals :=
  match st.(polls) !! pid with
  | None => ([], st)
  | Some p =>
      if negb p.(accepting) && negb forced then ([], st)
      else if p.(draining) then ([], set_poll pid (p <| redrain := true |>) st)
      else
        let '(batch, st) := takePending p.(runId) st in
        ([Took (Some pid) p.(runId) batch],
         set_poll pid (p <| draining := true |> <| phase := Taken batch |> <| inFlight := S p.(inFlight) |>) st)
  end.

(** [drain] src/src/runs/run-signal-store.ts:77-81
    The loop up to the next call of a handler, with what is left. *)
Fixpoint next_call (todo : list RunSignal) : option (Call * list RunSignal) :=
  match todo with
  | [] => None
  | s :: todo => match dispatch s with Some c => Some (c, todo) | None => next_call todo end
  end.

(** [drain] src/src/runs/run-signal-store.ts:77-83
    The loop goes on once what it waits for is there: [ok] says whether the handler it waits
    for succeeded.  Its failure ends the loop; [onError] is taken not to throw. *)
Definition resume (pid : string) (ok : bool) (st : Signals) : list Event * Signals :=
  match st.(polls) !! pid with
  | None => ([], st)
  | Some p =>
      let go todo :=
        match next_call todo with
        | Some (c, rest) => ([Called pid c], set_poll pid (p <| phase := Handling rest |>) st)
        | None => ([], set_poll pid (p <| phase := Finishing |>) st)
        end in
      match p.(phase) with
      | Taken todo => go todo
      | Handling todo => if ok then go todo else ([Failed pid], set_poll pid (p <| phase := Finishing |>) st)
      | Idle | Finishing => ([], st)
      end
  end.

(** [drain] src/src/runs/run-signal-store.ts:84-90
    The [finally]. *)
Definition finally_ (pid : string) (st : Signals) : list Event * Signals :=
  match st.(polls) !! pid with
  | Some p =>
      match p.(phase) with
      | Finishing =>
          let p := p <| phase := Idle |> <| draining := false |> in
          if p.(redrain) then drain pid false (set_poll pid (p <| redrain := false |>) st)
          else ([], set_poll pid p st)
      | _ => ([], st)
      end
  | None => ([], st)
  end.

(** [send] src/src/runs/run-signal-store.ts:25-30
    A listener is the [drain] of a poll, called without an argument. *)
Definition send (run : string) (s : RunSignal) (st : Signals) : list Event * Signals :=
  let st := st <| pending := <[run := pending_of run st ++ [s]]> st.(pending) |> in
  let cbs := match st.(listeners) !! run with Some set => callbacks set st | None => [] end in
  foldl (fun acc pid => let '(evs, st) := drain pid false acc.2 in (acc.1 ++ evs, st)) ([Sent run s], st) cbs.

(** [startSignalPoll] src/src/runs/run-signal-store.ts:59-94 *)
Definition startSignalPoll (pid run newSet : string) (onStop : bool) (st : Signals) : list Event * Signals :=
  let '(set, st) := onSignal run pid newSet st in
  ([Began pid run], set_poll pid (MkPoll run onStop false false true Idle 0 set true ∅) st).

(** [startSignalPoll] src/src/runs/run-signal-store.ts:93-93
    The timer fires. *)
Definition tick (pid : string) (st : Signals) : list Event * Signals :=
  match st.(polls) !! pid with
  | Some p => if p.(timer) then drain pid false st else ([], st)
  | None => ([], st)
  end.

(** [startSignalPoll] src/src/runs/run-signal-store.ts:95-101
    The stop function, up to its first wait; [call] is the identity of the call. *)
Definition stop (pid call : string) (st : Signals) : list Event * Signals :=
  match st.(polls) !! pid with
  | None => ([], st)
  | Some p =>
      let st := set_poll pid (p <| accepting := false |> <| timer := false |>) st in
      let st := unsubscribe p.(runId) pid p.(subscribed_to) st in
      let '(evs, st) := if p.(drainOnStop) then drain pid true st else ([], st) in
      (evs, match st.(polls) !! pid with
            | Some p => set_poll pid (p <| waits := <[call := p.(inFlight)]> p.(waits) |>) st
            | None => st
            end)
  end.

(** [startSignalPoll] src/src/runs/run-signal-store.ts:100-104
    The promise a stop call awaits has settled: drain [n] is over once a later one began or
    none is in progress. *)
Definition stop_resume (pid call : string) (st : Signals) : list Event * Signals :=
  match st.(polls) !! pid with
  | None => ([], st)
  | Some p =>
      match p.(waits) !! call with
      | None => ([], st)
      | Some n =>
          let current := bool_decide (n = p.(inFlight)) in
          if current && p.(draining) then ([], st)
          else if negb p.(draining) && current
          then ([Stopped pid], set_poll pid (p <| waits := delete call p.(waits) |>) st)
          else ([], set_poll pid (p <| waits := <[call := p.(inFlight)]> p.(waits) |>) st)
      end
  end.

(** ** Interleavings *)

(** One stretch of some poll, a sender, somebody else taking the signals of a run. *)
Inductive Step :=
| SStart (pid run newSet : string) (onStop : bool)
| SSend (run : string) (s : RunSignal)
| STake (run : string)
| STick (pid : string)
| SResume (pid : string) (ok : bool)
| SFinally (pid : string)
| SStop (pid call : string)
| SStopResume (pid call : string).

Definition do_step (s : Step) (st : Signals) : list Event * Signals :=
  match s with
  | SStart pid run newSet b => startSignalPoll pid run newSet b st
  | SSend run s => send run s st
  | STake run => let '(batch, st) := takePending run st in ([Took None run batch], st)
  | STick pid => tick pid st
  | SResume pid ok => resume pid ok st
  | SFinally pid => finally_ pid st
  | SStop pid call => stop pid call st
  | SStopResume pid call => stop_resume pid call st
  end.

Definition signals_run (steps : list Step) (acc : list Event * Signals) : list Event * Signals :=
  foldl (fun acc s => let '(evs, st) := do_step s acc.2 in (acc.1 ++ evs, st)) acc steps.

(** Identities are new, and a stop function is called once, as its callers see to. *)
Definition legal_step (s : Step) (st : Signals) : Prop :=
  match s with
  | SStart pid _ newSet _ => polls st !! pid = None /\ sets st !! newSet = None
  | SStop pid _ => forall p, polls st !! pid = Some p -> accepting p = true
  | _ => True
  end.
Fixpoint legal (steps : list Step) (st : Signals) : Prop :=
  match steps with
  | [] => True
  | s :: steps => legal_step s st /\ legal steps (do_step s st).2
  end.

(** ** What the events say *)

Definition sent (run : string) (evs : list Event) : list RunSignal :=
  evs ≫= fun e => match e with Sent r s => if r === run then [s] else [] | _ => [] end.
Definition taken (run : string) (evs : list Event) : list RunSignal :=
  evs ≫= fun e => match e with Took _ r l => if r === run then l else [] | _ => [] end.
Definition taken_by (pid : string) (evs : list Event) : list RunSignal :=
  evs ≫= fun e => match e with Took (Some q) _ l => if q === pid then l else [] | _ => [] end.
Definition called (pid : string) (evs : list Event) : list Call :=
  evs ≫= fun e => match e with Called q c => if q === pid then [c] else [] | _ => [] end.
(** What a poll has in hand. *)
Definition in_hand (p : Poll) : list RunSignal :=
  match p.(phase) with Taken todo | Handling todo => todo | _ => [] end.
Definition hand_of (pid : string) (st : Signals) : list RunSignal := from_option in_hand [] (st.(polls) !! pid).

(** Nothing was sent to the run since the poll began. *)
Definition quiet_since (pid run : string) (evs : list Event) : Prop :=
  exists e1 e2, evs = e1 ++ Began pid run :: e2 /\ sent run e2 = [].
(** An event in which a poll does something. *)
Definition acts (pid : string) (e : Event) : Prop :=
  match e with Called q _ | Took (Some q) _ _ => q = pid | _ => False end.
Definition quiet_after_stop (pid : string) (evs : list Event) : Prop :=
  forall e1 e2, evs = e1 ++ Stopped pid :: e2 -> Forall (fun e => ~ acts pid e) e2.

(** [W] are the polls whose callback is about to be called. *)
Record signals_ok (W : list string) (evs : list Event) (st : Signals) : Prop := {
  so_kept run : sent run evs = taken run evs ++ pending_of run st;
  so_called pid : Failed pid ∉ evs ->
    omap dispatch (taken_by pid evs) = called pid evs ++ omap dispatch (hand_of pid st);
  so_phase pid p : polls st !! pid = Some p ->
    (draining p = true <-> phase p <> Idle) /\ (redrain p = true -> draining p = true);
  so_sub pid p : polls st !! pid = Some p -> accepting p = true ->
    listeners st !! runId p = Some (subscribed_to p) /\ pid ∈ callbacks (subscribed_to p) st;
  so_wake pid p : polls st !! pid = Some p -> accepting p = true -> pending_of (runId p) st <> [] ->
    redrain p = true \/ quiet_since pid (runId p) evs \/ pid ∈ W;
  so_dead pid : Stopped pid ∈ evs ->
    exists p, polls st !! pid = Some p /\ accepting p = false /\ draining p = false;
  so_quiet pid : quiet_after_stop pid evs;
}.

(** *** Lists of events *)

Lemma quiet_nil pid evs : quiet_after_stop pid evs -> quiet_after_stop pid (evs ++ []).
Proof. by rewrite app_nil_r. Qed.
Lemma quiet_snoc pid evs e :
  quiet_after_stop pid evs -> (Stopped pid ∈ evs -> ~ acts pid e) -> quiet_after_stop pid (evs ++ [e]).
Proof.
  intros Hq He e1 e2 Heq. destruct e2 as [|x e2 _] using rev_ind; [done|].
  rewrite app_comm_cons, app_assoc in Heq. apply app_inj_tail in Heq as [-> ->].
  rewrite Forall_app, Forall_singleton. split; [by eapply Hq|]. apply He. set_solver.
Qed.
Lemma quiet_since_app pid run evs evs' :
  quiet_since pid run evs -> sent run evs' = [] -> quiet_since pid run (evs ++ evs').
Proof.
  intros (e1 & e2 & -> & H2) H. exists e1, (e2 ++ evs'). split; [by rewrite <- app_assoc|].
  unfold sent in *. by rewrite bind_app, H2, H.
Qed.

(** *** The store *)

Lemma pending_of_take run r st : pending_of r (takePending run st).2 = if decide (run = r) then [] else pending_of r st.
Proof. unfold pending_of. simpl. rewrite lookup_del. by case_decide. Qed.
Lemma lookup_poll pid q p st :
  polls (set_poll pid p st) !! q = if decide (pid = q) then Some p else polls st !! q.
Proof. simpl. by rewrite lookup_set. Qed.
Lemma hand_of_poll pid q p st : hand_of q (set_poll pid p st) = if decide (pid = q) then in_hand p else hand_of q st.
Proof. unfold hand_of. rewrite lookup_poll. by case_decide. Qed.

Lemma set_poll_take pid p p' m st :
  set_poll pid p (set_poll pid p' st <| pending := m |>) = set_poll pid p (st <| pending := m |>).
Proof. apply (f_equal (fun ps => MkSignals m (listeners st) (sets st) ps)), set_set. Qed.

(** Changing the record of one poll, while it keeps its run and its subscription. *)
Lemma ok_set_poll W W' evs e st pid p p' :
  signals_ok W evs st -> (forall q, q ∈ W -> q = pid \/ q ∈ W') -> polls st !! pid = Some p ->
  runId p' = runId p -> subscribed_to p' = subscribed_to p -> (accepting p' = true -> accepting p = true) ->
  (draining p' = true <-> phase p' <> Idle) -> (redrain p' = true -> draining p' = true) ->
  redrain p' = true \/ accepting p' = false \/ (redrain p = redrain p' /\ (pid ∈ W -> pid ∈ W')) ->
  (forall r, sent r e = [] /\ taken r e = []) ->
  (forall q, taken_by q e = []) -> (forall q, q <> pid -> called q e = []) ->
  (Failed pid ∉ e -> omap dispatch (in_hand p) = called pid e ++ omap dispatch (in_hand p')) ->
  (Stopped pid ∈ evs -> accepting p' = false /\ draining p' = false) ->
  (forall q, Stopped q ∈ e -> q = pid /\ accepting p' = false /\ draining p' = false) ->
  (forall q, quiet_after_stop q (evs ++ e)) ->
  signals_ok W' (evs ++ e) (set_poll pid p' st).
Proof.
  intros [H1 H2 H3 H4 H5 H6 H7] HW Hp Hrun Hset Hacc Hph Hre Hwake He Htb Hc Hhand Hdead Hstop Hq. split.
  - intros run. destruct (He run) as [Hs Ht]. unfold sent, taken in *. by rewrite !bind_app, Hs, Ht, !app_nil_r, H1.
  - intros q Hf. rewrite elem_of_app in Hf. rewrite hand_of_poll. unfold taken_by, called in *.
    rewrite !bind_app, Htb, app_nil_r. pose proof (H2 q ltac:(tauto)) as Hq2. unfold taken_by, called in Hq2.
    rewrite Hq2. case_decide as Hd; subst.
    + unfold hand_of. rewrite Hp. simpl. rewrite Hhand by tauto. by rewrite app_assoc.
    + rewrite Hc by done. by rewrite app_nil_r.
  - intros q x. rewrite lookup_poll. case_decide; [intros [= <-]; by split|]. apply H3.
  - intros q x. rewrite lookup_poll. case_decide; [|apply H4].
    intros [= <-] Ha. rewrite Hrun, Hset. subst. apply (H4 _ _ Hp). by apply Hacc.
  - intros q x. rewrite lookup_poll. case_decide as Hd.
    + intros [= <-] Ha. rewrite Hrun. intros Hne. subst q. change (pending_of (runId p) st <> []) in Hne.
      destruct Hwake as [Hw|[?|[Hw HWp]]]; [by left|congruence|]. rewrite <- Hw.
      destruct (H5 _ _ Hp (Hacc Ha) Hne) as [?|[?|?]]; [by left| |auto].
      right. left. by apply quiet_since_app, He.
    + intros Hx Ha Hne. destruct (H5 _ _ Hx Ha Hne) as [?|[?|Hin]]; [by left| |].
      * right. left. by apply quiet_since_app, He.
      * destruct (HW _ Hin) as [->|?]; [done|auto].
  - intros q [Hin|Hin]%elem_of_app; rewrite lookup_poll; case_decide as Hd.
    + subst q. exists p'. by split; [|apply Hdead].
    + by apply H6.
    + exists p'. split; [done|]. by apply (Hstop q).
    + by destruct (Hstop q Hin) as [-> _].
  - done.
Qed.

(** Taking what is pending on a run. *)
Lemma ok_take W W' evs st who run pid p p' :
  signals_ok W evs st -> (forall q, q ∈ W -> q = pid \/ q ∈ W') -> polls st !! pid = Some p -> who = Some pid -> runId p = run ->
  runId p' = run -> subscribed_to p' = subscribed_to p -> (accepting p' = true -> accepting p = true) ->
  in_hand p = [] -> draining p' = true -> phase p' = Taken (pending_of run st) -> Stopped pid ∉ evs ->
  signals_ok W' (evs ++ [Took who run (pending_of run st)]) (set_poll pid p' (takePending run st).2).
Proof.
  intros [H1 H2 H3 H4 H5 H6 H7] HW Hp -> Hr Hr' Hset Hacc Hph Hdr Hph' Hs. split.
  - intros r. unfold sent, taken in *. rewrite !bind_app, H1, app_nil_r, <- app_assoc. f_equal.
    change (pending_of r (set_poll pid p' (takePending run st).2)) with (pending_of r (takePending run st).2).
    rewrite pending_of_take. simpl. case_bool_decide; case_decide; subst; try done. by rewrite !app_nil_r.
  - intros q Hf. rewrite hand_of_poll. unfold taken_by, called in *. rewrite !bind_app. simpl.
    pose proof (H2 q ltac:(set_solver)) as Hq. unfold taken_by, called in Hq. rewrite omap_app, Hq, !app_nil_r, <- app_assoc.
    f_equal. case_decide as Hd; [rewrite bool_decide_eq_true_2 by done|rewrite bool_decide_eq_false_2 by done].
    + subst q. unfold in_hand. rewrite Hph'. unfold hand_of. rewrite Hp. unfold from_option, in_hand. by fold (in_hand p); rewrite Hph.
    + simpl. by rewrite app_nil_r.
  - intros q x. rewrite lookup_poll. case_decide; [|apply H3]. intros [= <-]. rewrite Hdr, Hph'. done.
  - intros q x. rewrite lookup_poll. case_decide; [|apply H4].
    intros [= <-] Ha. rewrite Hr', Hset. subst. apply (H4 _ _ Hp). by apply Hacc.
  - intros q x Hx Ha. change (pending_of (runId x) (set_poll pid p' (takePending run st).2)) with (pending_of (runId x) (takePending run st).2).
    rewrite pending_of_take. case_decide as Hd; [done|]. intros Hne. revert Hx. rewrite lookup_poll. case_decide.
    + intros [= <-]. congruence.
    + intros Hx. destruct (H5 _ _ Hx Ha Hne) as [?|[?|Hin]]; [by left|right; left; by apply quiet_since_app|].
      destruct (HW _ Hin) as [->|?]; [done|auto].
  - intros q Hin. assert (Hq : Stopped q ∈ evs) by set_solver. rewrite lookup_poll. case_decide; [congruence|]. by apply H6.
  - intros q. apply quiet_snoc; [done|]. simpl. by intros Hin <-.
Qed.

Lemma ok_weaken W W' evs st :
  signals_ok W evs st -> (forall q p, q ∈ W -> polls st !! q = Some p -> accepting p = true -> q ∈ W') ->
  signals_ok W' (evs ++ []) st.
Proof.
  intros [H1 H2 H3 H4 H5 H6 H7] HW. rewrite app_nil_r. split; try done.
  intros pid p Hp Ha Hne. destruct (H5 _ _ Hp Ha Hne) as [?|[?|?]]; eauto.
Qed.

Lemma idle_phase W evs st pid p :
  signals_ok W evs st -> polls st !! pid = Some p -> draining p = false -> phase p = Idle.
Proof.
  intros Hok Hp Hd. destruct (so_phase _ _ _ Hok _ _ Hp) as [[_ Hi] _].
  destruct (phase p); [done|exfalso; rewrite Hd in Hi; by apply diff_false_true, Hi..].
Qed.
Lemma accepting_not_dead W evs st pid p :
  signals_ok W evs st -> polls st !! pid = Some p -> accepting p = true \/ draining p = true -> Stopped pid ∉ evs.
Proof. intros Hok Hp Ha Hs. destruct (so_dead _ _ _ Hok _ Hs) as (x & Hx & ? & ?). destruct Ha; congruence. Qed.

Lemma ok_drain W W' evs st pid forced :
  signals_ok W evs st -> (forall q, q ∈ W -> q = pid \/ q ∈ W') -> (forced = true -> Stopped pid ∉ evs) ->
  signals_ok W' (evs ++ (drain pid forced st).1) (drain pid forced st).2.
Proof.
  intros Hok HW Hf. unfold drain. destruct (polls st !! pid) as [p|] eqn:Hp.
  2: { apply (ok_weaken W); [done|]. intros q x Hq Hx _. destruct (HW _ Hq) as [->|]; [|done].
    simpl in Hx; congruence. }
  destruct (negb (accepting p) && negb forced) eqn:Eg.
  { apply (ok_weaken W); [done|]. intros q x Hq Hx Ha. destruct (HW _ Hq) as [->|]; [|done].
    simpl in Hx. simplify_eq. by rewrite Ha in Eg. }
  destruct (draining p) eqn:Ed.
  - apply (ok_set_poll W _ _ _ _ _ p); try done; try (by rewrite ?Ed); simpl.
    + exact (proj1 (so_phase _ _ _ Hok _ _ Hp)).
    + by left.
    + intros Hs. by destruct (accepting_not_dead _ _ _ _ _ Hok Hp (or_intror Ed)).
    + set_solver.
    + intros q. apply quiet_nil, Hok.
  - apply (ok_take W _ _ _ _ _ _ p); try done; simpl.
    + unfold in_hand. by rewrite (idle_phase _ _ _ _ _ Hok Hp Ed).
    + destruct forced; [auto|]. destruct (accepting p) eqn:Ea; [|done]. by apply (accepting_not_dead W _ st _ p); auto.
Qed.

Lemma next_call_dispatch todo :
  omap dispatch todo = match next_call todo with Some (c, rest) => c :: omap dispatch rest | None => [] end.
Proof. induction todo as [|s todo IH]; simpl; [done|]. by destruct (dispatch s). Qed.

(** A step of a poll at work, which calls a handler, fails, or comes to its end. *)
Lemma ok_work evs st pid p e ph :
  signals_ok [] evs st -> polls st !! pid = Some p -> phase p <> Idle -> ph <> Idle ->
  (e = [] \/ (exists c, e = [Called pid c]) \/ e = [Failed pid]) ->
  (Failed pid ∉ e -> omap dispatch (in_hand p) = called pid e ++ omap dispatch (in_hand (p <| phase := ph |>))) ->
  signals_ok [] (evs ++ e) (set_poll pid (p <| phase := ph |>) st).
Proof.
  intros Hok Hp Hph Hph' He Hd. pose proof (so_phase _ _ _ Hok _ _ Hp) as [Hiff Hre].
  assert (Hn : Stopped pid ∉ evs) by (apply (accepting_not_dead _ _ _ _ _ Hok Hp); right; by apply Hiff).
  assert (Hshape : Forall (fun x => match x with Called q _ | Failed q => q = pid | _ => False end) e)
    by (destruct He as [->|[[c ->]| ->]]; by repeat constructor).
  apply (ok_set_poll [] _ _ _ _ _ p); try done; simpl.
  - by intros q ?%not_elem_of_nil.
  - split; intros _; [done|by apply Hiff].
  - right. right. done.
  - intros r. by destruct He as [->|[[c ->]| ->]].
  - intros q. by destruct He as [->|[[c ->]| ->]].
  - intros q Hq. destruct He as [->|[[c ->]| ->]]; try done. unfold called. simpl. by rewrite bool_decide_eq_false_2.
  - intros q Hq. rewrite Forall_forall in Hshape. by apply Hshape in Hq.
  - intros q. destruct He as [->|[[c ->]| ->]]; [apply quiet_nil, Hok|apply quiet_snoc; [apply Hok|]..]; simpl; [|tauto].
    by intros ? <-.
Qed.

Lemma ok_resume evs st pid ok :
  signals_ok [] evs st -> signals_ok [] (evs ++ (resume pid ok st).1) (resume pid ok st).2.
Proof.
  intros Hok. unfold resume. destruct (polls st !! pid) as [p|] eqn:Hp; [|by rewrite app_nil_r].
  assert (Hgo : forall todo, in_hand p = todo -> phase p <> Idle ->
    let r := match next_call todo with
             | Some (c, rest) => ([Called pid c], set_poll pid (p <| phase := Handling rest |>) st)
             | None => ([], set_poll pid (p <| phase := Finishing |>) st)
             end in signals_ok [] (evs ++ r.1) r.2).
  { intros todo Hin Hni. pose proof (next_call_dispatch todo) as Hnd.
    destruct (next_call todo) as [[c rest]|]; apply ok_work; eauto; rewrite Hin, Hnd; intros _; unfold called; simpl; [|done].
    by rewrite bool_decide_eq_true_2. }
  destruct (phase p) eqn:Eph; simpl; try (by rewrite app_nil_r).
  - apply Hgo; [unfold in_hand; by rewrite Eph|done].
  - destruct ok; [apply Hgo; [unfold in_hand; by rewrite Eph|done]|].
    apply ok_work; eauto; [by rewrite Eph|set_solver].
Qed.

(** A change that no event and no other poll sees. *)
Lemma ok_silent W evs st pid p p' :
  signals_ok W evs st -> polls st !! pid = Some p ->
  runId p' = runId p -> subscribed_to p' = subscribed_to p -> (accepting p' = true -> accepting p = true) ->
  draining p' = draining p -> phase p' = phase p -> redrain p' = redrain p ->
  signals_ok W (evs ++ []) (set_poll pid p' st).
Proof.
  intros Hok Hp H1 H2 H3 H4 H5 H6. pose proof (so_phase _ _ _ Hok _ _ Hp) as [Hiff Hre].
  apply (ok_set_poll W _ _ _ _ _ p); try done; rewrite ?H4, ?H5, ?H6; auto; unfold in_hand; rewrite ?H5; try done.
  - intros Hs. destruct (so_dead _ _ _ Hok _ Hs) as (x & Hx & Ha & Hd). simplify_eq. split; [|done].
    destruct (accepting p'); [|done]. by rewrite H3 in Ha.
  - intros q ?%not_elem_of_nil. done.
  - intros q. apply quiet_nil, Hok.
Qed.

Lemma ok_finally evs st pid :
  signals_ok [] evs st -> signals_ok [] (evs ++ (finally_ pid st).1) (finally_ pid st).2.
Proof.
  intros Hok. unfold finally_. destruct (polls st !! pid) as [p|] eqn:Hp; [|by rewrite app_nil_r].
  destruct (phase p) eqn:Eph; try (by rewrite app_nil_r). cbn [redrain]. cbv zeta.
  pose proof (so_phase _ _ _ Hok _ _ Hp) as [Hiff Hre].
  assert (Hn : Stopped pid ∉ evs) by (apply (accepting_not_dead _ _ _ _ _ Hok Hp); right; apply Hiff; by rewrite Eph).
  assert (Hkeep : redrain p = false \/ accepting p = false ->
    signals_ok [] (evs ++ []) (set_poll pid (p <| phase := Idle |> <| draining := false |> <| redrain := false |>) st)).
  { intros Hk. apply (ok_set_poll [] _ _ _ _ _ p); try done; simpl.
    - by intros q ?%not_elem_of_nil.
    - destruct Hk; auto.
    - intros _. unfold in_hand. by rewrite Eph.
    - intros q ?%not_elem_of_nil. done.
    - intros q. apply quiet_nil, Hok. }
  destruct (redrain p) eqn:Er; simpl; rewrite Er.
  - destruct (accepting p) eqn:Ea.
    + unfold drain. rewrite lookup_poll, decide_True by done. simpl. rewrite Ea. simpl.
      refine (eq_ind_r (signals_ok _ _) _ (set_poll_take pid _ _ _ st)). apply (ok_take [] _ evs st _ (runId p) pid p); try done; simpl.
      * by intros q ?%not_elem_of_nil.
      * unfold in_hand. by rewrite Eph.
    + unfold drain. rewrite lookup_poll, decide_True by done. simpl. rewrite Ea. simpl. apply Hkeep. auto.
  - apply (ok_set_poll [] _ _ _ _ _ p); try done; simpl.
    + by intros q ?%not_elem_of_nil.
    + rewrite Er. done.
    + right. right. done.
    + intros _. unfold in_hand. by rewrite Eph.
    + intros q ?%not_elem_of_nil. done.
    + intros q. apply quiet_nil, Hok.
Qed.

Lemma ok_unsubscribe W evs st pid p :
  signals_ok W evs st -> polls st !! pid = Some p -> accepting p = false ->
  listeners st !! runId p = Some (subscribed_to p) -> signals_ok W evs (unsubscribe (runId p) pid (subscribed_to p) st).
Proof.
  intros Hok Hp Ha Hl. pose proof Hok as [H1 H2 H3 H4 H5 H6 H7].
  remember (js_filter (fun q => q !== pid) (callbacks (subscribed_to p) st)) as cbs eqn:Hcbs.
  assert (Hpolls : polls (unsubscribe (runId p) pid (subscribed_to p) st) = polls st).
  { unfold unsubscribe. rewrite <- Hcbs. cbv zeta. by destruct cbs. }
  assert (Hpend : pending (unsubscribe (runId p) pid (subscribed_to p) st) = pending st).
  { unfold unsubscribe. rewrite <- Hcbs. cbv zeta. by destruct cbs. }
  assert (Hsets : sets (unsubscribe (runId p) pid (subscribed_to p) st) = <[subscribed_to p := cbs]> (sets st)).
  { unfold unsubscribe. rewrite <- Hcbs. cbv zeta. by destruct cbs. }
  unfold pending_of, hand_of in *. split; unfold pending_of, hand_of; rewrite ?Hpolls, ?Hpend; try done.
  intros q x Hx Hax. destruct (H4 _ _ Hx Hax) as [Hlx Hin].
  assert (Hq : q <> pid) by congruence.
  assert (Hin' : q ∈ callbacks (subscribed_to x) (unsubscribe (runId p) pid (subscribed_to p) st)).
  { unfold callbacks. rewrite Hsets, lookup_set. case_decide as Hd; [|done]. simpl.
    rewrite Hcbs. apply elem_of_js_filter. rewrite Hd. split; [|done]. by rewrite bool_decide_eq_false_2. }
  split; [|done]. unfold unsubscribe. rewrite <- Hcbs. cbv zeta. destruct cbs; [|done]. simpl. rewrite lookup_del.
  case_decide as Hd; [|done]. exfalso. rewrite Hd in Hl. simplify_eq.
  apply (not_elem_of_nil q). rewrite Hcbs. apply elem_of_js_filter. split; [by rewrite bool_decide_eq_false_2|].
  by replace (subscribed_to p) with (subscribed_to x) by congruence.
Qed.

Lemma ok_stop evs st pid call :
  signals_ok [] evs st -> (forall p, polls st !! pid = Some p -> accepting p = true) ->
  signals_ok [] (evs ++ (stop pid call st).1) (stop pid call st).2.
Proof.
  intros Hok Hacc. unfold stop. destruct (polls st !! pid) as [p|] eqn:Hp; [|by rewrite app_nil_r].
  specialize (Hacc _ eq_refl). pose proof (so_sub _ _ _ Hok _ _ Hp Hacc) as [Hl _].
  set (p' := p <| accepting := false |> <| timer := false |>).
  assert (H1 : signals_ok [] evs (unsubscribe (runId p) pid (subscribed_to p) (set_poll pid p' st))).
  { apply (ok_unsubscribe _ _ _ _ p'); [|by rewrite lookup_poll, decide_True|done|done].
    rewrite <- (app_nil_r evs). by apply (ok_silent _ _ _ _ p). }
  assert (Hn : Stopped pid ∉ evs) by (apply (accepting_not_dead _ _ _ _ _ Hok Hp); auto).
  assert (H2 : forall r : list Event * Signals,
    r = (if drainOnStop p then drain pid true (unsubscribe (runId p) pid (subscribed_to p) (set_poll pid p' st))
         else ([], unsubscribe (runId p) pid (subscribed_to p) (set_poll pid p' st))) -> signals_ok [] (evs ++ r.1) r.2).
  { intros r ->. destruct (drainOnStop p); [|by rewrite app_nil_r].
    apply (ok_drain []); [done|by intros q ?%not_elem_of_nil|done]. }
  specialize (H2 _ eq_refl). cbv zeta. fold p'. destruct (if drainOnStop p then _ else _) as [e s]. cbn [fst snd] in *.
  destruct (polls s !! pid) as [x|] eqn:Hx; [|done]. rewrite <- (app_nil_r (evs ++ e)). by apply (ok_silent _ _ _ _ x).
Qed.

Lemma ok_stop_resume evs st pid call :
  signals_ok [] evs st -> (forall p, polls st !! pid = Some p -> is_Some (waits p !! call) -> accepting p = false) ->
  signals_ok [] (evs ++ (stop_resume pid call st).1) (stop_resume pid call st).2.
Proof.
  intros Hok Hacc. unfold stop_resume. destruct (polls st !! pid) as [p|] eqn:Hp; [|by rewrite app_nil_r].
  destruct (waits p !! call) as [n|] eqn:Hw; [|by rewrite app_nil_r]. specialize (Hacc _ eq_refl ltac:(eauto)).
  cbv zeta. destruct (_ && _); [by rewrite app_nil_r|]. destruct (draining p) eqn:Ed; simpl.
  - by apply (ok_silent _ _ _ _ p).
  - case_bool_decide; [|by apply (ok_silent _ _ _ _ p)].
    pose proof (so_phase _ _ _ Hok _ _ Hp) as [Hiff Hre].
    apply (ok_set_poll [] _ _ _ _ _ p); try done; simpl; auto.
    + by intros q ?%list_elem_of_singleton; simplify_eq.
    + intros q. apply quiet_snoc; [apply Hok|]. by intros _ [].
Qed.

Lemma ok_start evs st pid run newSet b :
  signals_ok [] evs st -> polls st !! pid = None -> sets st !! newSet = None ->
  signals_ok [] (evs ++ (startSignalPoll pid run newSet b st).1) (startSignalPoll pid run newSet b st).2.
Proof.
  intros [H1 H2 H3 H4 H5 H6 H7] Hnp Hns. unfold startSignalPoll, onSignal. cbv zeta. cbn [fst snd].
  set (set := listeners st !! run ?? newSet).
  set (old := if is_some (listeners st !! run) then callbacks set st else []).
  set (cbs := if includes old pid then old else old ++ [pid]).
  assert (Hin : pid ∈ cbs).
  { unfold cbs. destruct (includes old pid) eqn:E; [by apply includes_true|set_solver]. }
  assert (Hold : forall q, q ∈ old -> q ∈ cbs) by (unfold cbs; intros q; destruct (includes old pid); set_solver).
  unfold pending_of, hand_of in *. split; unfold pending_of, hand_of; simpl.
  - intros r. unfold sent, taken in *. by rewrite !bind_app, H1, !app_nil_r.
  - intros q Hf. unfold taken_by, called in *. rewrite !bind_app, !app_nil_r, H2 by set_solver.
    rewrite lookup_set. case_decide as Hd; [|done]. subst q. by rewrite Hnp.
  - intros q p. rewrite lookup_set. case_decide; [intros [= <-]; done|apply H3].
  - intros q p. unfold callbacks. simpl. rewrite !lookup_set. case_decide as Hd.
    + intros [= <-] _. simpl. rewrite !decide_True by done. by subst.
    + intros Hp Ha. destruct (H4 _ _ Hp Ha) as [Hl Hc]. case_decide as Hr.
      * assert (Hs : set = subscribed_to p) by (unfold set; rewrite Hr, Hl; done).
        rewrite decide_True by done. split; [by rewrite Hs|]. apply Hold. unfold old. by rewrite Hs, Hr, Hl.
      * split; [done|]. case_decide as Hs; [|done]. simpl. apply Hold. unfold old.
        destruct (listeners st !! run) as [s|] eqn:El; simpl; [by rewrite Hs|].
        exfalso. assert (Hs2 : set = newSet) by done.
        unfold callbacks in Hc. rewrite <- Hs, Hs2, Hns in Hc. set_solver.
  - intros q p. rewrite lookup_set. case_decide as Hd.
    + intros [= <-] _ _. right. left. exists evs, []. by subst.
    + intros Hp Ha Hne. destruct (H5 _ _ Hp Ha Hne) as [?|[?|?]]; [by left|right; left; by apply quiet_since_app|auto].
  - intros q [Hq|Hq]%elem_of_app; [|set_solver]. rewrite lookup_set. case_decide as Hd; [|by apply H6].
    subst q. destruct (H6 _ Hq) as (x & Hx & _). congruence.
  - intros q. apply quiet_snoc; [done|]. by intros _ [].
Qed.

Lemma ok_take_other evs st run :
  signals_ok [] evs st ->
  signals_ok [] (evs ++ [Took None run (pending_of run st)]) (takePending run st).2.
Proof.
  intros [H1 H2 H3 H4 H5 H6 H7]. split.
  - intros r. rewrite pending_of_take. unfold sent, taken in *. rewrite !bind_app, H1, app_nil_r, <- app_assoc. f_equal. simpl.
    case_decide as Hd; [rewrite bool_decide_eq_true_2 by done|rewrite bool_decide_eq_false_2 by done].
    + subst r. by rewrite !app_nil_r.
    + done.
  - intros q Hf. unfold taken_by, called in *. rewrite !bind_app, !app_nil_r. apply H2. set_solver.
  - done.
  - done.
  - intros q p Hp Ha. rewrite pending_of_take. case_decide; [done|]. intros Hne.
    destruct (H5 _ _ Hp Ha Hne) as [?|[?|?]]; [by left|right; left; by apply quiet_since_app|auto].
  - intros q [Hq|Hq]%elem_of_app; [by apply H6|set_solver].
  - intros q. apply quiet_snoc; [done|]. by intros _ [].
Qed.

(** The callbacks a sender calls, one by one. *)
Lemma ok_ring W evs0 e st :
  signals_ok W (evs0 ++ e) st ->
  let r := foldl (fun acc pid => let '(evs, st) := drain pid false acc.2 in (acc.1 ++ evs, st)) (e, st) W in
  signals_ok [] (evs0 ++ r.1) r.2.
Proof.
  revert e st. induction W as [|pid W IH]; intros e st Hok; [done|]. cbn [foldl]. cbn [snd fst].
  pose proof (ok_drain _ W _ _ pid false Hok) as Hd. destruct (drain pid false st) as [e' st']. cbn [fst snd] in Hd.
  apply IH. rewrite app_assoc. apply Hd; [set_solver|done].
Qed.

Lemma ok_send evs st run s :
  signals_ok [] evs st -> signals_ok [] (evs ++ (send run s st).1) (send run s st).2.
Proof.
  intros [H1 H2 H3 H4 H5 H6 H7]. unfold send. apply ok_ring.
  assert (Hp : forall r, pending_of r (st <| pending := <[run := pending_of run st ++ [s]]> (pending st) |>) =
    if decide (run = r) then pending_of r st ++ [s] else pending_of r st).
  { intros r. unfold pending_of. simpl. rewrite lookup_set. case_decide as Hd; [by subst|done]. }
  split; try done.
  - intros r. rewrite Hp. unfold sent, taken in *. rewrite !bind_app, H1, app_nil_r, <- app_assoc. f_equal. simpl.
    case_decide as Hd; [rewrite bool_decide_eq_true_2 by done|rewrite bool_decide_eq_false_2 by done]; [done|by rewrite app_nil_r].
  - intros q Hf. unfold taken_by, called in *. rewrite !bind_app, !app_nil_r. apply H2. set_solver.
  - intros q p Hq Ha. rewrite Hp. case_decide as Hd.
    + intros _. right. right. destruct (H4 _ _ Hq Ha) as [Hl Hc]. simpl. by rewrite Hd, Hl.
    + intros Hne. destruct (H5 _ _ Hq Ha Hne) as [?|[?|?%not_elem_of_nil]]; [by left| |done].
      right. left. apply quiet_since_app; [done|]. unfold sent. simpl. by rewrite bool_decide_eq_false_2.
  - intros q [Hq|Hq]%elem_of_app; [by apply H6|set_solver].
  - intros q. apply quiet_snoc; [done|]. by intros _ [].
Qed.

(** *** Waiting calls of a stop function *)

(** Only a poll that was stopped has somebody waiting for its end. *)
Definition waits_ok (st : Signals) : Prop :=
  forall pid p call, polls st !! pid = Some p -> is_Some (waits p !! call) -> accepting p = false.

Lemma waits_set pid p p' st :
  waits_ok st -> polls st !! pid = Some p ->
  (forall call, is_Some (waits p' !! call) -> is_Some (waits p !! call) \/ accepting p = false) ->
  (accepting p = false -> accepting p' = false) ->
  waits_ok (set_poll pid p' st).
Proof.
  intros Hok Hp Hw Ha q x call. rewrite lookup_poll. case_decide; [|apply Hok].
  intros [= <-] Hc. apply Ha. destruct (Hw _ Hc); [by eapply Hok|done].
Qed.
Lemma waits_same_polls st st' : polls st' = polls st -> waits_ok st -> waits_ok st'.
Proof. unfold waits_ok. by intros ->. Qed.

(** What a drain does to the polls: their calls and their acceptance stay. *)
Lemma drain_polls pid forced st q x :
  polls (drain pid forced st).2 !! q = Some x ->
  exists y, polls st !! q = Some y /\ waits x = waits y /\ accepting x = accepting y.
Proof.
  unfold drain. destruct (polls st !! pid) as [p|] eqn:Hp; [|eauto].
  destruct (_ && _); [eauto|]. destruct (draining p); simpl; rewrite lookup_set; case_decide as Hd; eauto;
    intros [= <-]; exists p; by subst.
Qed.
Lemma waits_drain pid forced st : waits_ok st -> waits_ok (drain pid forced st).2.
Proof.
  intros Hok q x call Hx Hc. apply drain_polls in Hx as (y & Hy & Hw & Ha). rewrite Hw in Hc. rewrite Ha. by eapply Hok.
Qed.
Lemma unsubscribe_polls run pid set st : polls (unsubscribe run pid set st) = polls st.
Proof. unfold unsubscribe. cbv zeta. by destruct (js_filter _ _). Qed.

Lemma waits_step s st : waits_ok st -> legal_step s st -> waits_ok (do_step s st).2.
Proof.
  intros Hok Hl. destruct s as [pid run newSet b|run s|run|pid|pid ok|pid|pid call|pid call]; simpl in *.
  - unfold startSignalPoll, onSignal. cbv zeta. cbn [fst snd]. intros q x call. rewrite lookup_poll. case_decide; [|apply Hok].
    intros [= <-]. simpl. rewrite lookup_empty_jsmap. by intros [].
  - unfold send. generalize [Sent run s]. 
    match goal with |- forall l, waits_ok (foldl _ (l, ?st1) ?W).2 => generalize W; assert (H1 : waits_ok st1) by exact Hok; revert H1; generalize st1 end.
    intros st1 H1 W. revert st1 H1. induction W as [|pid W IH]; intros st1 H1 l; [done|]. cbn [foldl snd fst].
    pose proof (waits_drain pid false st1 H1) as H2. destruct (drain pid false st1). by apply IH.
  - exact Hok.
  - unfold tick. destruct (polls st !! pid) as [p|]; [|done]. destruct (timer p); [by apply waits_drain|done].
  - unfold resume. destruct (polls st !! pid) as [p|] eqn:Hp; [|done].
    destruct (phase p); [done| |destruct ok|done]; try destruct (next_call todo) as [[c rest]|];
      (eapply waits_set; [done|done|auto|done]).
  - unfold finally_. destruct (polls st !! pid) as [p|] eqn:Hp; [|done]. destruct (phase p); try done. cbv zeta.
    match goal with |- context [if ?b then _ else _] => destruct b end; [apply waits_drain|];
      (eapply waits_set; [done|done|auto|done]).
  - unfold stop. destruct (polls st !! pid) as [p|] eqn:Hp; [|done]. cbv zeta.
    set (st1 := unsubscribe _ _ _ _).
    assert (H1 : waits_ok st1 /\ forall x, polls st1 !! pid = Some x -> accepting x = false).
    { unfold st1. split.
      - eapply waits_same_polls; [apply unsubscribe_polls|]. by eapply waits_set; [done|done|auto|].
      - intros x. rewrite unsubscribe_polls, lookup_poll, decide_True by done. by intros [= <-]. }
    destruct H1 as [H1 Ha1].
    assert (H2 : forall r : list Event * Signals, r = (if drainOnStop p then drain pid true st1 else ([], st1)) ->
       waits_ok r.2 /\ forall x, polls r.2 !! pid = Some x -> accepting x = false).
    { intros r ->. destruct (drainOnStop p); [|done]. split; [by apply waits_drain|].
      intros x (y & Hy & _ & ->)%drain_polls. auto. }
    specialize (H2 _ eq_refl). destruct (if drainOnStop p then _ else _) as [e s]. cbn [snd] in *. destruct H2 as [H2 Ha2].
    destruct (polls s !! pid) as [x|] eqn:Hx; [|done]. specialize (Ha2 _ eq_refl).
    eapply waits_set; [done|done|auto|done].
  - unfold stop_resume. destruct (polls st !! pid) as [p|] eqn:Hp; [|done].
    destruct (waits p !! call) as [n|] eqn:Hw; [|done]. cbv zeta.
    pose proof (Hok _ _ call Hp ltac:(eauto)) as Ha.
    destruct (_ && _); [done|]. destruct (_ && _); (eapply waits_set; [done|done|auto|done]).
Qed.

(** ** Runs *)

Lemma ok_step s evs st :
  signals_ok [] evs st -> waits_ok st -> legal_step s st -> signals_ok [] (evs ++ (do_step s st).1) (do_step s st).2.
Proof.
  intros Hok Hw Hl. destruct s as [pid run newSet b|run s|run|pid|pid ok|pid|pid call|pid call]; simpl in *.
  - destruct Hl. by apply ok_start.
  - by apply ok_send.
  - by apply ok_take_other.
  - unfold tick. destruct (polls st !! pid) as [p|]; [|by rewrite app_nil_r].
    destruct (timer p); [|by rewrite app_nil_r]. apply (ok_drain []); [done|by intros q ?%not_elem_of_nil|done].
  - by apply ok_resume.
  - by apply ok_finally.
  - by apply ok_stop.
  - apply ok_stop_resume; [done|]. intros p Hp. by eapply Hw.
Qed.

Lemma ok_run steps acc :
  signals_ok [] acc.1 acc.2 -> waits_ok acc.2 -> legal steps acc.2 ->
  signals_ok [] (signals_run steps acc).1 (signals_run steps acc).2 /\ waits_ok (signals_run steps acc).2.
Proof.
  revert acc. induction steps as [|s steps IH]; intros [evs st] Hok Hw Hl; [done|]. destruct Hl as [Hl Hl'].
  cbn [signals_run foldl fst snd] in *. pose proof (ok_step s evs st Hok Hw Hl) as H1. pose proof (waits_step s st Hw Hl) as H2.
  destruct (do_step s st) as [e st']. apply (IH (evs ++ e, st')); done.
Qed.

Lemma signals_ok_empty : signals_ok [] [] empty_signals.
Proof.
  split; try done; intros; try (by match goal with H : context [_ ∈ []] |- _ => apply not_elem_of_nil in H end).
  intros e1 e2 H. by destruct e1.
Qed.
Lemma ok_reachable steps :
  legal steps empty_signals ->
  signals_ok [] (signals_run steps ([], empty_signals)).1 (signals_run steps ([], empty_signals)).2 /\
  waits_ok (signals_run steps ([], empty_signals)).2.
Proof. intros Hl. apply (ok_run steps ([], empty_signals)); [apply signals_ok_empty|done|done]. Qed.


(** A poll works through what it has in hand. *)
Lemma resume_all pid n evs st p :
  polls st !! pid = Some p -> phase p <> Idle -> (length (in_hand p) < n)%nat ->
  exists evs' st' p', signals_run (replicate n (SResume pid true)) (evs, st) = (evs ++ evs', st') /\
    polls st' !! pid = Some p' /\ phase p' = Finishing /\ accepting p' = accepting p /\ waits p' = waits p.
Proof.
  revert evs st p. induction n as [|n IH]; intros evs st p Hp Hph Hn; [lia|].
  assert (Hstep : exists e st1 p1, resume pid true st = (e, st1) /\ polls st1 !! pid = Some p1 /\ phase p1 <> Idle /\
    accepting p1 = accepting p /\ waits p1 = waits p /\ (phase p1 = Finishing \/ length (in_hand p1) < n)%nat).
  { unfold resume. rewrite Hp. unfold in_hand in Hn.
    assert (Hc : forall todo c rest, next_call todo = Some (c, rest) -> (length rest < length todo)%nat).
    { intros todo. induction todo as [|s todo IHt]; intros c rest; simpl; [done|].
      destruct (dispatch s); [by intros [= <- <-]; lia|]. intros H%IHt. lia. }
    destruct (phase p) as [|todo|todo|] eqn:E; [done| | |by eexists _, _, p; rewrite E; eauto 10].
    all: destruct (next_call todo) as [[c rest]|] eqn:En; eexists _, _, _; split; [done| |done|];
      (split; [by apply lookup_set_eq|]); simpl; split_and!; auto.
    all: right; unfold in_hand; simpl; apply Hc in En; lia. }
  destruct Hstep as (e & st1 & p1 & Hr & Hp1 & Hph1 & Ha & Hw & Hlen). cbn [replicate signals_run foldl do_step snd fst].
  rewrite Hr. destruct Hlen as [Hf|Hlen].
  - destruct n as [|n]; [by exists e, st1, p1|].
    destruct (IH (evs ++ e) st1 p1 Hp1 Hph1 ltac:(unfold in_hand; rewrite Hf; simpl; lia)) as (e2 & st2 & p2 & H2 & H3 & H4 & H5 & H6).
    exists (e ++ e2), st2, p2. unfold signals_run in H2. rewrite H2, app_assoc. split_and!; congruence.
  - destruct (IH (evs ++ e) st1 p1 Hp1 Hph1 Hlen) as (e2 & st2 & p2 & H2 & H3 & H4 & H5 & H6).
    exists (e ++ e2), st2, p2. unfold signals_run in H2. rewrite H2, app_assoc. split_and!; congruence.
Qed.

Lemma finish_stopped pid st p :
  polls st !! pid = Some p -> phase p = Finishing -> accepting p = false ->
  exists st' p', finally_ pid st = ([], st') /\ polls st' !! pid = Some p' /\ draining p' = false /\ waits p' = waits p.
Proof.
  intros Hp Hph Ha. unfold finally_. rewrite Hp, Hph. cbv zeta. cbn [redrain upd].
  match goal with |- context [if ?b then _ else _] => destruct b eqn:Er end.
  - unfold drain. rewrite lookup_poll, decide_True by done. simpl. rewrite Ha. simpl.
    eexists _, _. split; [done|]. split; [by apply lookup_set_eq|]. done.
  - eexists _, _. split; [done|]. split; [by apply lookup_set_eq|]. done.
Qed.

Lemma stop_resume_twice pid call st p n evs :
  polls st !! pid = Some p -> draining p = false -> waits p !! call = Some n ->
  Stopped pid ∈ (signals_run [SStopResume pid call; SStopResume pid call] (evs, st)).1.
Proof.
  intros Hp Hd Hw. cbn [signals_run foldl do_step snd fst].
  assert (H1 : stop_resume pid call st =
    if bool_decide (n = inFlight p) then ([Stopped pid], set_poll pid (p <| waits := delete call (waits p) |>) st)
    else ([], set_poll pid (p <| waits := <[call := inFlight p]> (waits p) |>) st)).
  { unfold stop_resume. rewrite Hp, Hw. cbv zeta. rewrite Hd, andb_false_r. simpl. by case_bool_decide. }
  rewrite H1. case_bool_decide.
  - cbn [fst snd]. destruct (stop_resume pid call (set_poll _ _ _)) as [e st1]. simpl. set_solver.
  - cbn [fst snd]. unfold stop_resume. simpl. rewrite lookup_set, decide_True by done. simpl.
    rewrite lookup_set, decide_True by done. rewrite bool_decide_eq_true_2 by done. rewrite Hd. simpl. set_solver.
Qed.

(** Stopping a poll is final, and ends.  After a stop function has ended its poll calls no
    handler and takes nothing, so what is sent later stays pending for somebody else; and from
    every state in which a stop function waits, it ends once the handlers of the signals in
    hand have succeeded. *)
Theorem stop_is_final steps :
  legal steps empty_signals ->
  let '(evs, st) := signals_run steps ([], empty_signals) in
  (forall pid e1 e2, evs = e1 ++ Stopped pid :: e2 -> Forall (fun e => ~ acts pid e) e2) /\
  (forall pid p call n, polls st !! pid = Some p -> waits p !! call = Some n ->
     exists k, Stopped pid ∈ (signals_run (replicate k (SResume pid true) ++
       [SFinally pid; SStopResume pid call; SStopResume pid call]) ([], st)).1).
Proof.
  intros Hl. destruct (ok_reachable _ Hl) as [Hok Hwt].
  destruct (signals_run steps _) as [evs st]. cbn [fst snd] in *. split; [intros pid; apply Hok|].
  intros pid p call n Hp Hw. pose proof (Hwt _ _ call Hp ltac:(eauto)) as Ha.
  pose proof (so_phase _ _ _ Hok _ _ Hp) as [Hiff _].
  assert (Hdec : phase p = Idle \/ phase p <> Idle) by (destruct (phase p); auto). destruct Hdec as [Hi|Hi].
  - exists 0%nat. cbn [replicate app]. unfold signals_run. cbn [foldl do_step fst snd].
    assert (Hf : finally_ pid st = ([], st)) by (unfold finally_; by rewrite Hp, Hi).
    rewrite Hf. apply (stop_resume_twice _ _ _ p n); [done| |done].
    destruct (draining p); [|done]. by destruct (proj1 Hiff eq_refl).
  - exists (S (length (in_hand p))).
    destruct (resume_all pid (S (length (in_hand p))) [] st p Hp Hi ltac:(lia)) as (e & st1 & p1 & Hr & Hp1 & Hf & Ha1 & Hw1).
    unfold signals_run in *. rewrite foldl_app, Hr.
    destruct (finish_stopped pid st1 p1 Hp1 Hf ltac:(congruence)) as (st2 & p2 & Hfin & Hp2 & Hd2 & Hw2).
    cbn [foldl do_step snd fst]. rewrite Hfin. apply (stop_resume_twice _ _ _ p2 n); congruence.
Qed.

(** A poll that is idle when it is stopped with [drainOnStop] takes what is pending. *)
Lemma stop_drains pid call st p :
  polls st !! pid = Some p -> drainOnStop p = true -> draining p = false ->
  (stop pid call st).1 = [Took (Some pid) (runId p) (pending_of (runId p) st)].
Proof.
  intros Hp Hd Hi. unfold stop. rewrite Hp, Hd. cbv zeta. unfold drain at 1.
  rewrite unsubscribe_polls, lookup_poll, decide_True by done. simpl. rewrite Hi. simpl.
  unfold pending_of, unsubscribe. cbv zeta. by destruct (js_filter _ _).
Qed.

(** ** Examples *)

Definition demo_steer (t : string) : RunSignal := MkSignal "steer" (Some t) None None.
Definition demo_steps : list Step :=
  [SStart "p" "r" "s" false; SSend "r" (demo_steer "first"); SResume "p" true; SSend "r" (demo_steer "second");
   SSend "r" (MkSignal "abort" None None None); SResume "p" true; SFinally "p"; SResume "p" true; SResume "p" true;
   SResume "p" true; SFinally "p"; SSend "r" (demo_steer "third"); SResume "p" true; SStop "p" "c";
   SSend "r" (demo_steer "fourth")].

Lemma demo_legal : legal demo_steps empty_signals.
Proof. vm_compute. repeat split. by intros p [= <-]. Qed.


Lemma stop_is_final_witness :
  exists k, Stopped "p" ∈ (signals_run (replicate k (SResume "p" true) ++
    [SFinally "p"; SStopResume "p" "c"; SStopResume "p" "c"]) ([], (signals_run demo_steps ([], empty_signals)).2)).1.
Proof.
  pose proof (stop_is_final demo_steps demo_legal) as H. revert H.
  destruct (signals_run demo_steps ([], empty_signals)) as [evs st] eqn:E. vm_compute in E. intros (_ & H).
  injection E as <- <-. cbn [snd]. refine (H "p" _ "c" 3%nat eq_refl eq_refl).
Defined.

(** A signal that comes while a drain is in progress is not taken by a stop with
    [drainOnStop]: the forced drain is put off to the drain's [finally], which repeats it as an
    ordinary one, and the poll accepts none any more. *)
Example drainOnStop_skipped :
  let '(evs, st) := signals_run
    [SStart "p" "r" "s" true; SSend "r" (demo_steer "first"); SResume "p" true; SSend "r" (demo_steer "second");
     SStop "p" "c"; SResume "p" true; SFinally "p"; SStopResume "p" "c"] ([], empty_signals) in
  Stopped "p" ∈ evs /\ called "p" evs = [OnSteer "first" None] /\ pending_of "r" st = [demo_steer "second"].
Proof. vm_compute. split; [|done]. set_solver. Qed.
