(* ===== verification/Triggers.v ===== *)
(** * Triggers

    What crons and monitors share ([src/src/triggers/trigger-store.ts]): the base of a stored
    trigger, who may own one, and the consent of a recipient. *)

From S2P Require Import Prelude JsString Scope Turn.

(** [RecipientConsent.status] src/src/types.ts:167-167 *)
Inductive ConsentStatus := cs_pending | cs_accepted | cs_declined.
#[export] Instance ConsentStatus_eq_dec : EqDecision ConsentStatus.
Proof. solve_decision. Defined.
(** [RecipientConsent] src/src/types.ts:165-169 *)
Record RecipientConsent := MkConsent { recipientId : string; cs_status : ConsentStatus; decidedAt : option Z }.

(** [Cron.runAs] src/src/types.ts:246-246 *)
Inductive RunAs := ra_owner | ra_scopeFloor | ra_scopeShared.
#[export] Instance RunAs_eq_dec : EqDecision RunAs.
Proof. solve_decision. Defined.

(** [TriggerBase] src/src/types.ts:171-182 *)
Record TriggerBase := MkTriggerBase {
  tb_id : string;
  tb_ownerScopeId : ScopeId;
  owner : string;
  createdBy : string;
  ownerConsentedAt : option Z;
  destination : option Destination;
  enabled : bool;
  tb_createdAt : Z;
  lastFiredAt : option Z;
  recipientConsent : option RecipientConsent;
}.
#[export] Instance TriggerBase_eta : Eta TriggerBase := fun b =>
  MkTriggerBase b.(tb_id) b.(tb_ownerScopeId) b.(owner) b.(createdBy) b.(ownerConsentedAt) b.(destination)
    b.(enabled) b.(tb_createdAt) b.(lastFiredAt) b.(recipientConsent).

(** [CreateTriggerInput] src/src/triggers/trigger-store.ts:5-12 *)
Record CreateTriggerInput := MkTriggerInput {
  ti_ownerScopeId : ScopeId;
  ti_owner : string;
  ti_createdBy : string;
  ti_destination : option Destination;
  ti_ownerConsentedAt : option Z;
  ti_recipientConsent : option RecipientConsent;
}.

(** [consentRequiredRecipient] src/src/triggers/trigger-store.ts:14-22 *)
Definition consentRequiredRecipient (who : string) (standing : bool) (d : option Destination) : option string :=
  if negb standing then None
  else match d with
       | Some d =>
           if (d.(d_type) === "principal") && negb (samePerson (Some d.(d_target)) (Some who))
           then Some d.(d_target) else None
       | None => None
       end.

(** [recipientConsentSatisfied] src/src/triggers/trigger-store.ts:24-32 *)
Definition recipientConsentSatisfied (consent : option RecipientConsent) (requiredRecipient : option string) : bool :=
  if negb (truthy_opt requiredRecipient)
  then match consent with None => true | Some c => c.(cs_status) === cs_accepted end
  else match consent with
       | Some c => (c.(cs_status) === cs_accepted) && samePerson (Some c.(recipientId)) requiredRecipient
       | None => false
       end.

(** Why a decision is refused, src/src/triggers/trigger-store.ts:39-39 *)
Inductive ConsentRefusal := no_consent | not_recipient.

(** [decideRecipientConsent] src/src/triggers/trigger-store.ts:34-43 *)
Definition decideRecipientConsent (current : option RecipientConsent) (actorId : string) (accept : bool) (now : Z)
  : result ConsentRefusal RecipientConsent :=
  match current with
  | None => Throw no_consent
  | Some c =>
      if negb (samePerson (Some c.(recipientId)) (Some actorId)) then Throw not_recipient
      else Ok (MkConsent c.(recipientId) (if accept then cs_accepted else cs_declined) (Some now))
  end.

(** A timestamp that is present and not zero. *)
Definition truthy_num (n : option Z) : option Z := match n with Some 0 | None => None | Some _ => n end.

(** [assertNoEscalation] src/src/triggers/trigger-store.ts:67-71 *)
Definition assertNoEscalation (i : CreateTriggerInput) : result string unit :=
  if negb (samePerson (Some i.(ti_owner)) (Some i.(ti_createdBy))) && negb (is_some (truthy_num i.(ti_ownerConsentedAt)))
  then Throw "assigning a different owner requires that owner's consent" else Ok tt.

(** [buildTriggerBase] src/src/triggers/trigger-store.ts:73-85 *)
Definition buildTriggerBase (i : CreateTriggerInput) (id : string) (createdAt : Z) : TriggerBase :=
  MkTriggerBase id i.(ti_ownerScopeId) i.(ti_owner) i.(ti_createdBy) (truthy_num i.(ti_ownerConsentedAt))
    i.(ti_destination) true createdAt None i.(ti_recipientConsent).

(** A recipient decides for themselves.  A standing delivery to somebody other than its
    owner is let through only with an accepted consent of that very person; and a consent
    that was not accepted becomes accepted only by a decision of the person it names, on that
    consent, and says when. *)
Theorem recipient_decides who d consent actorId accept now :
  (recipientConsentSatisfied consent (consentRequiredRecipient who true (Some d)) = true ->
   d_type d = "principal" -> samePerson (Some (d_target d)) (Some who) = false -> truthy (d_target d) = true ->
   exists c, consent = Some c /\ cs_status c = cs_accepted /\ samePerson (Some (recipientId c)) (Some (d_target d)) = true) /\
  (forall c', decideRecipientConsent consent actorId accept now = Ok c' ->
     (exists c, consent = Some c /\ recipientId c' = recipientId c /\
        samePerson (Some (recipientId c)) (Some actorId) = true) /\
     (cs_status c' = cs_accepted <-> accept = true) /\ decidedAt c' = Some now).
Proof.
  split.
  - unfold consentRequiredRecipient, recipientConsentSatisfied. intros Hs Ht Hp Hn. simpl in Hs.
    rewrite Ht, eqb_refl, Hp in Hs. simpl in Hs. unfold truthy_opt in Hs. simpl in Hs. rewrite Hn in Hs. simpl in Hs.
    destruct consent as [c|]; [|done]. apply andb_true_iff in Hs as [Hc%bool_decide_eq_true Hs]. eauto.
  - unfold decideRecipientConsent. destruct consent as [c|]; [|done].
    destruct (samePerson _ _) eqn:E; simpl; [|done]. intros c' [= <-]. simpl.
    split_and!; [eauto| |done]. by destruct accept.
Qed.

Lemma recipient_decides_witness :
  let d := MkDestination "principal" "bob@x.co" None None None None None None None None None in
  let c := MkConsent "bob@x.co" cs_accepted (Some 5) in
  recipientConsentSatisfied (Some c) (consentRequiredRecipient "ann@x.co" true (Some d)) = true /\
  exists c', Some c = Some c' /\ cs_status c' = cs_accepted /\
    samePerson (Some (recipientId c')) (Some (d_target d)) = true.
Proof.
  intros d c. assert (H : recipientConsentSatisfied (Some c) (consentRequiredRecipient "ann@x.co" true (Some d)) = true)
    by (vm_compute; reflexivity).
  split; [exact H|].
  apply (proj1 (recipient_decides "ann@x.co" d (Some c) "bob@x.co" true 5)); [exact H|reflexivity|vm_compute; reflexivity..].
Defined.
