(* ===== verification/Cron.v ===== *)
(** * Scheduled work

    Schedules ([src/src/cron/schedule.ts]) and the cron store
    ([src/src/cron/cron-store.ts]), over any durable map with an atomic update, which both
    maps of the program have.  The calendar is the cron library's: [nextRun] answers the next
    time an expression fires strictly after a time in a zone, or fails; [validTimezone] is
    the host's list of zones; [contentId] is the digest of what was asked for. *)

From stdpp Require Import pretty.
From S2P Require Import Prelude JsString Scope DurableMap Turn Triggers.

(** ** Data *)

(** [CronSchedule] src/src/types.ts:220-225 *)
Record CronSchedule := MkSchedule {
  s_cron : option string;
  s_timezone : option string;
  everyMs : option Z;
  firstFireAt : option Z;
}.
#[export] Instance CronSchedule_eq_dec : EqDecision CronSchedule.
Proof. solve_decision. Defined.

(** [CronFireLogEntry] src/src/types.ts:227-236 *)
Record CronFireLogEntry := MkFire {
  fireKey : string;
  f_threadRef : string;
  firedAt : Z;
  f_scheduledAt : option Z;
  f_status : option TurnStatus;
  f_note : option string;
  f_reply : option string;
  f_sessionId : option string;
}.

(** [Cron] src/src/types.ts:238-249 *)
Record Cron := MkCron {
  base : TriggerBase;
  schedule : CronSchedule;
  nextFireAt : option Z;
  c_title : option string;
  archived : bool;
  action : option string;
  message : option string;
  runAs : option RunAs;
  c_members : option (list Principal);
  fireLog : option (list CronFireLogEntry);
}.
#[export] Instance Cron_eta : Eta Cron := fun c =>
  MkCron c.(base) c.(schedule) c.(nextFireAt) c.(c_title) c.(archived) c.(action) c.(message) c.(runAs)
    c.(c_members) c.(fireLog).

(** [NormalizedSchedule] src/src/cron/schedule.ts:9-12 *)
Record NormalizedSchedule := MkNormalized { ns_schedule : CronSchedule; ns_nextFireAt : option Z }.

(** ** Schedules *)

(** [DEFAULT_CRON_TIMEZONE] src/src/cron/schedule.ts:4-4 *)
Definition DEFAULT_CRON_TIMEZONE : string := "America/Los_Angeles".
(** [DAY_MS] src/src/cron/schedule.ts:6-6 *)
Definition DAY_MS : Z := 24 * 60 * 60 * 1000.
(** [MIN_RECURRING_CRON_MS] src/src/cron/schedule.ts:7-7 *)
Definition MIN_RECURRING_CRON_MS : Z := 60000.

(** [Number.isSafeInteger]. *)
Definition is_safe_integer (n : Z) : bool := (Z.abs n <=? 9007199254740991)%Z.

(** [isCalendarSchedule] src/src/cron/schedule.ts:14-16 *)
Definition isCalendarSchedule (s : CronSchedule) : bool := is_some s.(s_cron).

(** [finiteEpochMs] src/src/cron/schedule.ts:18-23 *)
Definition finiteEpochMs (value : option Z) (name : string) : result string (option Z) :=
  match value with
  | None => Ok None
  | Some v => if negb (is_safe_integer v) then Throw (name +:+ " must be a finite integer timestamp in ms") else Ok value
  end.

(** [finitePositiveMs] src/src/cron/schedule.ts:25-30 *)
Definition finitePositiveMs (value : option Z) (name : string) : result string (option Z) :=
  match value with
  | None => Ok None
  | Some v =>
      if negb (is_safe_integer v) || (v <=? 0)%Z then Throw (name +:+ " must be a positive integer number of ms")
      else Ok value
  end.

(** [normalizeCronExpression] src/src/cron/schedule.ts:42-46 *)
Definition normalizeCronExpression (input : string) : result string string :=
  let cron := squeeze (trim input) in
  if negb (length (split_on " " cron) =? 5)%nat then Throw "schedule.cron must be a 5-field cron expression" else Ok cron.

Section schedule.
Variable nextRun : string -> string -> Z -> result string (option Z).
Variable validTimezone : string -> bool.

(** [normalizeTimezone] src/src/cron/schedule.ts:32-40 *)
Definition normalizeTimezone (input : option string) (fallback : string) : result string string :=
  let tz := trim (match if_truthy (trim <$> input) with Some t => t | None => fallback end) in
  if validTimezone tz then Ok tz else Throw ("invalid IANA timezone: " +:+ tz).

(** [nextCalendarFireAfter] src/src/cron/schedule.ts:48-56 *)
Definition nextCalendarFireAfter (s : CronSchedule) (after : Z) : result string (option Z) :=
  match if_truthy s.(s_cron) with
  | None => Throw "schedule.cron is required"
  | Some expr => tz ← normalizeTimezone s.(s_timezone) DEFAULT_CRON_TIMEZONE; nextRun expr tz after
  end.

(** [normalizeSchedule] src/src/cron/schedule.ts:83-89 *)
Definition day_message : string :=
  "schedule.everyMs >= 24h is almost always a clock-time schedule in disguise — it anchors to an " +:+
  "arbitrary epoch, has no timezone, and drifts with DST. Use {cron,timezone} for daily/weekly/monthly " +:+
  "runs (e.g. { cron: " +:+ dq +:+ "30 7 * * 1-5" +:+ dq +:+ ", timezone: " +:+ dq +:+ "America/Los_Angeles" +:+ dq +:+
  " }). Reserve everyMs for genuine sub-day polling where wall-clock time does not matter.".

(** [normalizeSchedule] src/src/cron/schedule.ts:58-97 *)
Definition normalizeSchedule (input : CronSchedule) (now : Z) (defaultTimezone : string)
  : result string NormalizedSchedule :=
  match input.(s_cron) with
  | Some expr =>
      if negb (truthy (trim expr)) then Throw "schedule.cron must be a non-empty string"
      else if is_some input.(everyMs) || is_some input.(firstFireAt)
      then Throw "schedule.cron cannot be combined with everyMs or firstFireAt"
      else
        cron ← normalizeCronExpression expr;
        tz ← normalizeTimezone input.(s_timezone) defaultTimezone;
        let schedule := MkSchedule (Some cron) (Some tz) None None in
        next ← nextCalendarFireAfter schedule now;
        match next : option Z with
        | None => Throw "schedule.cron has no future fire time"
        | Some n => Ok (MkNormalized schedule (Some n))
        end
  | None =>
      if is_some input.(s_timezone) then Throw "schedule.timezone requires schedule.cron"
      else if match input.(everyMs) with Some e => (DAY_MS <=? e)%Z | None => false end then Throw day_message
      else
        every ← finitePositiveMs input.(everyMs) "schedule.everyMs";
        first ← finiteEpochMs input.(firstFireAt) "schedule.firstFireAt";
        let firstFireAt := match first : option Z with
                           | Some f => f
                           | None => match every : option Z with Some e => (now + e)%Z | None => now end
                           end in
        Ok (MkNormalized (MkSchedule None None every (Some firstFireAt)) (Some firstFireAt))
  end.

(** [validateUserSchedule] src/src/cron/schedule.ts:99-103 *)
Definition validateUserSchedule (s : CronSchedule) : result string unit :=
  match s.(everyMs) with
  | Some e => if (e <? MIN_RECURRING_CRON_MS)%Z
              then Throw ("schedule.everyMs must be at least " +:+ pretty MIN_RECURRING_CRON_MS +:+ "ms") else Ok tt
  | None => Ok tt
  end.

(** [recoverNextFireAt] src/src/cron/schedule.ts:105-116 *)
Definition recoverNextFireAt (s : CronSchedule) (createdAt : Z) (lastFired next : option Z) : result string (option Z) :=
  if is_some next then finiteEpochMs next "nextFireAt"
  else if isCalendarSchedule s then nextCalendarFireAfter s (lastFired ?? createdAt)
  else match lastFired with
  | None =>
      first ← finiteEpochMs s.(firstFireAt) "schedule.firstFireAt";
      Ok (Some (first ?? createdAt))
  | Some at_ =>
      every ← finitePositiveMs s.(everyMs) "schedule.everyMs";
      Ok ((fun e => at_ + e)%Z <$> (every : option Z))
  end.

(** [advanceNextFireAt] src/src/cron/schedule.ts:118-122 *)
Definition advanceNextFireAt (s : CronSchedule) (firedAt : Z) : result string (option Z) :=
  if isCalendarSchedule s then nextCalendarFireAfter s firedAt
  else
    every ← finitePositiveMs s.(everyMs) "schedule.everyMs";
    Ok ((fun e => firedAt + e)%Z <$> (every : option Z)).
End schedule.

(** ** The store *)

(** [CreateCronInput] src/src/cron/cron-store.ts:14-21 *)
Record CreateCronInput := MkCreateCron {
  i_trigger : CreateTriggerInput;
  i_schedule : CronSchedule;
  i_title : option string;
  i_action : option string;
  i_message : option string;
  i_runAs : option RunAs;
  i_members : option (list Principal);
}.
(** [CronPatch] src/src/cron/cron-store.ts:23-33 *)
Record CronPatch := MkCronPatch {
  pa_title : option string;
  pa_action : option string;
  pa_message : option string;
  pa_schedule : option CronSchedule;
  pa_enabled : option bool;
  pa_archived : option bool;
  pa_destination : option Destination;
  pa_members : option (list Principal);
  pa_runAs : option RunAs;
}.

(** [normalizeTitle] src/src/cron/cron-store.ts:51-55 *)
Definition normalizeTitle (title : option string) : option string :=
  match if_truthy ((fun t => squeeze (trim t)) <$> title) with
  | Some t => Some (if (80 <? String.length t)%nat then str_take 79 t +:+ "..." else t)
  | None => None
  end.

(** [recordFire] src/src/cron/cron-store.ts:119-119
    [{ ...old, ...entry }]: what the entry has wins. *)
Definition merge_fire (old : option CronFireLogEntry) (e : CronFireLogEntry) : CronFireLogEntry :=
  MkFire e.(fireKey) e.(f_threadRef) e.(firedAt) (or_else e.(f_scheduledAt) (old ≫= f_scheduledAt))
    (or_else e.(f_status) (old ≫= f_status)) (or_else e.(f_note) (old ≫= f_note))
    (or_else e.(f_reply) (old ≫= f_reply)) (or_else e.(f_sessionId) (old ≫= f_sessionId)).

(** [recordFire] src/src/cron/cron-store.ts:117-121 *)
Definition addEntry (entry : CronFireLogEntry) (cron : Cron) : Cron :=
  let byKey := new_map (map (fun e => (e.(fireKey), e)) (cron.(fireLog) ?? [])) in
  let byKey := <[entry.(fireKey) := merge_fire (byKey !! entry.(fireKey)) entry]> byKey in
  cron <| fireLog := Some (js_sort (fun a b => a.(firedAt) - b.(firedAt))%Z (values byKey)) |>.

Section store.
Context {M : Type} {D : DurableMap M Cron}.
Variable nextRun : string -> string -> Z -> result string (option Z).
Variable validTimezone : string -> bool.
Variable contentId : CreateCronInput -> option string -> string.

(** The slot a cron waits for. *)
Definition slot (c : Cron) : result string (option Z) :=
  recoverNextFireAt nextRun validTimezone c.(schedule) c.(base).(tb_createdAt) c.(base).(lastFiredAt) c.(nextFireAt).
Definition set_base (f : TriggerBase -> TriggerBase) (c : Cron) : Cron := c <| base ::= f |>.
(** [cron.archived || !cron.enabled]. *)
Definition asleep (c : Cron) : bool := c.(archived) || negb c.(base).(enabled).

(** [create] src/src/cron/cron-store.ts:59-85 *)
Definition create (now : Z) (i : CreateCronInput) (m : M) : result string Cron * M :=
  match assertNoEscalation i.(i_trigger) with
  | Throw e => (Throw e, m)
  | Ok _ =>
      let title := normalizeTitle i.(i_title) in
      match normalizeSchedule nextRun validTimezone i.(i_schedule) now DEFAULT_CRON_TIMEZONE with
      | Throw e => (Throw e, m)
      | Ok n =>
          let id := contentId i title in
          let '(c, m) := dm_putIfAbsent id (MkCron (buildTriggerBase i.(i_trigger) id now) n.(ns_schedule)
            n.(ns_nextFireAt) title false i.(i_action) i.(i_message) i.(i_runAs) i.(i_members) None) m in
          (Ok c, m)
      end
  end.

(** [update] src/src/cron/cron-store.ts:89-104 *)
Definition patch_cron (p : CronPatch) (n : option NormalizedSchedule) (c : Cron) : Cron :=
  let c := match p.(pa_title) with Some _ => c <| c_title := normalizeTitle p.(pa_title) |> | None => c end in
  let c := match p.(pa_action) with Some a => c <| action := Some a |> | None => c end in
  let c := match p.(pa_message) with Some a => c <| message := Some a |> | None => c end in
  let c := match n with
           | Some n => c <| schedule := n.(ns_schedule) |> <| nextFireAt := n.(ns_nextFireAt) |>
           | None => c
           end in
  let c := match p.(pa_enabled) with Some b => set_base (fun t => t <| enabled := b |>) c | None => c end in
  let c := match p.(pa_archived) with Some b => c <| archived := b |> | None => c end in
  let c := match p.(pa_destination) with
           | Some d => set_base (fun t => t <| destination := Some d |>) c
           | None => c
           end in
  let c := if p.(pa_archived) === Some true then set_base (fun t => t <| enabled := false |>) c else c in
  let c := match p.(pa_members) with Some l => c <| c_members := Some l |> | None => c end in
  match p.(pa_runAs) with Some r => c <| runAs := Some r |> | None => c end.

(** [update] src/src/cron/cron-store.ts:88-105 *)
Definition update (now : Z) (id : string) (p : CronPatch) (m : M) : result string (option Cron) * M :=
  match p.(pa_schedule) with
  | Some s =>
      match normalizeSchedule nextRun validTimezone s now DEFAULT_CRON_TIMEZONE with
      | Throw e => (Throw e, m)
      | Ok n => let '(c, m) := dm_merge id (patch_cron p (Some n)) m in (Ok c, m)
      end
  | None => let '(c, m) := dm_merge id (patch_cron p None) m in (Ok c, m)
  end.

(** [setEnabled] src/src/cron/cron-store.ts:107-109 *)
Definition setEnabled (id : string) (b : bool) (m : M) : M :=
  (dm_merge id (fun c => let c := set_base (fun t => t <| enabled := b |>) c in
                         if b then c <| archived := false |> else c) m).2.

(** [setDestination] src/src/cron/cron-store.ts:110-112 *)
Definition setDestination (id : string) (d : option Destination) (m : M) : M :=
  (dm_merge id (set_base (fun t => t <| destination := d |>)) m).2.

(** [setRecipientConsent] src/src/cron/cron-store.ts:113-115
    It is [setTriggerRecipientConsent], src/src/triggers/trigger-store.ts:95-101. *)
Definition setRecipientConsent (id : string) (rc : RecipientConsent) (m : M) : M :=
  (dm_merge id (set_base (fun t => t <| recipientConsent := Some rc |>)) m).2.

(** [recordFire] src/src/cron/cron-store.ts:116-129 *)
Definition recordFire (id : string) (entry : CronFireLogEntry) (m : M) : M := (dm_update id (addEntry entry) m).2.

(** [markFired] src/src/cron/cron-store.ts:130-135 *)
Definition markFired (id : string) (at_ : Z) (scheduledAt : option Z) (m : M) : result string unit * M :=
  match dm_get id m with
  | None => (Ok tt, m)
  | Some cron =>
      let from := if isCalendarSchedule cron.(schedule) then scheduledAt ?? at_ else at_ in
      match advanceNextFireAt nextRun validTimezone cron.(schedule) from with
      | Throw e => (Throw e, m)
      | Ok next => (Ok tt, (dm_merge id (fun c => set_base (fun t => t <| lastFiredAt := Some at_ |>) c
                                           <| nextFireAt := next |>) m).2)
      end
  end.

(** [claimSlot] src/src/cron/cron-store.ts:138-149 *)
Definition claim_transform (scheduledAt at_ : Z) (cron : Cron) : result string (bool * Cron) :=
  if asleep cron then Ok (false, cron)
  else
    s ← slot cron;
    if (s : option Z) !== Some scheduledAt then Ok (false, cron)
    else
      let from := if isCalendarSchedule cron.(schedule) then scheduledAt else at_ in
      next ← advanceNextFireAt nextRun validTimezone cron.(schedule) from;
      Ok (true, set_base (fun t => t <| lastFiredAt := Some at_ |>) cron <| nextFireAt := next |>).

(** [claimSlot] src/src/cron/cron-store.ts:136-159
    One atomic update of the row; a transform that throws changes nothing. *)
Definition claimSlot (id : string) (scheduledAt at_ : Z) (m : M) : result string bool * M :=
  match dm_get id m with
  | None => (Ok false, m)
  | Some cron =>
      match claim_transform scheduledAt at_ cron with
      | Throw e => (Throw e, m)
      | Ok (claimed, cron') => (Ok claimed, dm_put id cron' m)
      end
  end.

(** [unclaimSlot] src/src/cron/cron-store.ts:161-169 *)
Definition restore_slot (scheduledAt at_ : Z) (priorLastFiredAt : option Z) (cron : Cron) : Cron :=
  if cron.(base).(lastFiredAt) !== Some at_ then cron
  else set_base (fun t => t <| lastFiredAt := priorLastFiredAt |>) cron <| nextFireAt := Some scheduledAt |>.

(** [unclaimSlot] src/src/cron/cron-store.ts:160-177 *)
Definition unclaimSlot (id : string) (scheduledAt at_ : Z) (prior : option Z) (m : M) : M :=
  (dm_update id (restore_slot scheduledAt at_ prior) m).2.

(** [due] src/src/cron/cron-store.ts:178-186
    The rows that are due, each with its slot. *)
Fixpoint due_among (now : Z) (l : list Cron) : result string (list (Cron * Z)) :=
  match l with
  | [] => Ok []
  | c :: l =>
      if asleep c then due_among now l
      else
        s ← slot c;
        rest ← due_among now l;
        Ok (match s : option Z with
            | Some n => if (n <=? now)%Z then (c <| nextFireAt := Some n |>, n) :: rest else rest
            | None => rest
            end)
  end.
(** [due] src/src/cron/cron-store.ts:178-186 *)
Definition due (now : Z) (m : M) : result string (list (Cron * Z)) := due_among now (dm_all m).

Context `{!DurableMapLaws M Cron}.
(** What the cron library documents: the next run is after the given time. *)
Hypothesis nextRun_after : forall expr tz t n, nextRun expr tz t = Ok (Some n) -> t < n.

(** ** A slot is claimed once *)

(** The cron waits for nothing, or for something after [s]. *)
Definition past (s : Z) (c : Cron) : Prop := forall n, slot c = Ok (Some n) -> s < n.

Lemma calendar_after sc t n : nextCalendarFireAfter nextRun validTimezone sc t = Ok (Some n) -> t < n.
Proof.
  unfold nextCalendarFireAfter. destruct (if_truthy (s_cron sc)) as [expr|]; [|done].
  destruct (normalizeTimezone _ _ _) as [tz|]; [|done]. apply nextRun_after.
Qed.
Lemma positive_ms v name r : finitePositiveMs v name = Ok r -> r = v /\ forall e, v = Some e -> 0 < e.
Proof.
  unfold finitePositiveMs. destruct v as [e|]; [|by intros [= <-]].
  destruct (_ || _) eqn:E; [done|]. intros [= <-]. apply orb_false_iff in E as [_ E]. to_prop. split; [done|]. by intros ? [= <-].
Qed.
Lemma epoch_ms v name r : finiteEpochMs v name = Ok r -> r = v.
Proof. unfold finiteEpochMs. destruct v; [|by intros [= <-]]. destruct (negb _); [done|by intros [= <-]]. Qed.

(** A cron moved on from a time that is not before [s], and fired not before [s], is past it. *)
Lemma advance_past s c from at_ next :
  s <= from -> s <= at_ -> advanceNextFireAt nextRun validTimezone (schedule c) from = Ok next ->
  past s (set_base (fun t => t <| lastFiredAt := Some at_ |>) c <| nextFireAt := next |>).
Proof.
  intros Hf Ha Hadv n. unfold slot. destruct c as [b sc nx ti ar ac me ra mb fl]. simpl in *. unfold recoverNextFireAt.
  destruct next as [n'|]; cbn [is_some].
  - intros ?%epoch_ms. simplify_eq. unfold advanceNextFireAt in Hadv.
    destruct (isCalendarSchedule sc); [apply calendar_after in Hadv; lia|].
    destruct (finitePositiveMs _ _) as [every|] eqn:E; [|done]. apply positive_ms in E as [-> Hpos].
    simpl in Hadv. destruct (everyMs sc) as [e|]; [|done]. injection Hadv as <-. specialize (Hpos e eq_refl). lia.
  - unfold advanceNextFireAt in Hadv. destruct (isCalendarSchedule sc); [simpl; intros ?%calendar_after; lia|].
    destruct (finitePositiveMs _ _) as [every|]; [|done]. simpl in *. by destruct every.
Qed.

Lemma claim_transform_true s at_ c c' :
  claim_transform s at_ c = Ok (true, c') ->
  asleep c = false /\ slot c = Ok (Some s) /\
  exists from next, (from = s \/ from = at_) /\
    advanceNextFireAt nextRun validTimezone (schedule c) from = Ok next /\
    c' = set_base (fun t => t <| lastFiredAt := Some at_ |>) c <| nextFireAt := next |>.
Proof.
  unfold claim_transform. destruct (asleep c); [done|]. destruct (slot c) as [sl|]; [|done]. simpl.
  destruct (sl === Some s) eqn:E; simpl; [|done]. to_prop. subst sl.
  destruct (advanceNextFireAt _ _ _ _) as [next|] eqn:Ea; [|done]. intros [= <-]. split_and!; [done|done|].
  eexists _, next. split_and!; [|exact Ea|done]. destruct (isCalendarSchedule _); auto.
Qed.
Lemma claim_transform_false s at_ c c' : claim_transform s at_ c = Ok (false, c') -> c' = c.
Proof.
  unfold claim_transform. destruct (asleep c); [by intros [= <-]|]. destruct (slot c); [|done]. simpl.
  destruct (negb _); [by intros [= <-]|]. by destruct (advanceNextFireAt _ _ _ _).
Qed.
Lemma past_not_claimed s at_ c : past s c -> forall c', claim_transform s at_ c <> Ok (true, c').
Proof. intros Hp c' (_ & Hs & _)%claim_transform_true. specialize (Hp _ Hs). lia. Qed.

(** The store's operations. *)
Inductive Op :=
| OCreate (now : Z) (i : CreateCronInput)
| OUpdate (now : Z) (id : string) (p : CronPatch)
| ODelete (id : string)
| OEnable (id : string) (b : bool)
| ODestination (id : string) (d : option Destination)
| OConsent (id : string) (rc : RecipientConsent)
| OFire (id : string) (e : CronFireLogEntry)
| OMark (id : string) (at_ : Z) (scheduledAt : option Z)
| OClaim (id : string) (scheduledAt at_ : Z)
| OUnclaim (id : string) (scheduledAt at_ : Z) (prior : option Z).
Definition exec (o : Op) (m : M) : M :=
  match o with
  | OCreate now i => (create now i m).2
  | OUpdate now id p => (update now id p m).2
  | ODelete id => dm_delete id m
  | OEnable id b => setEnabled id b m
  | ODestination id d => setDestination id d m
  | OConsent id rc => setRecipientConsent id rc m
  | OFire id e => recordFire id e m
  | OMark id at_ s => (markFired id at_ s m).2
  | OClaim id s at_ => (claimSlot id s at_ m).2
  | OUnclaim id s at_ p => unclaimSlot id s at_ p m
  end.
(** Operations that may arm a cron for [s] again: a new schedule, deletion, giving a slot
    back, and firing or claiming ahead of time. *)
Definition rearms (id : string) (s : Z) (o : Op) : Prop :=
  match o with
  | OUpdate _ id' p => id' = id /\ pa_schedule p <> None
  | ODelete id' | OUnclaim id' _ _ _ => id' = id
  | OMark id' at_ sch => id' = id /\ (at_ < s \/ exists t, sch = Some t /\ t < s)
  | OClaim id' t at_ => id' = id /\ at_ < t
  | _ => False
  end.

Definition row_past (id : string) (s : Z) (m : M) : Prop := exists c, dm_get id m = Some c /\ past s c.

Lemma merge_row id id' f s m :
  (forall c, past s c -> past s (f c)) -> row_past id s m -> row_past id s (dm_merge id' f m).2.
Proof.
  intros Hf (c & Hc & Hp). unfold dm_merge, row_past. destruct (dm_get id' m) as [c0|] eqn:E; simpl; [|eauto].
  rewrite dm_get_put. case_decide as Ed; [|eauto]. subst. simplify_eq. eauto.
Qed.
(** Changes that keep a cron's slot. *)
Lemma same_slot s c c' :
  schedule c' = schedule c -> nextFireAt c' = nextFireAt c -> tb_createdAt (base c') = tb_createdAt (base c) ->
  lastFiredAt (base c') = lastFiredAt (base c) -> past s c -> past s c'.
Proof. unfold past, slot. by intros -> -> -> ->. Qed.

Lemma exec_past id s o m : ~ rearms id s o -> row_past id s m -> row_past id s (exec o m).
Proof.
  intros Hr Hm. destruct o as [now i|now id' p|id'|id' b|id' d|id' rc|id' e|id' at_ sch|id' t at_|id' t at_ pr]; simpl in *.
  - unfold create. destruct (assertNoEscalation _); [|done]. destruct (normalizeSchedule _ _ _ _ _); [|done]. cbv zeta.
    unfold dm_putIfAbsent. destruct (dm_get (contentId _ _) m) eqn:E; simpl; [done|].
    destruct Hm as (c & Hc & Hp). exists c. rewrite dm_get_put_ne; [done|congruence].
  - unfold update. destruct (pa_schedule p) as [sc|] eqn:Ep.
    + destruct (normalizeSchedule _ _ _ _ _) as [n|]; [|done].
      destruct Hm as (c & Hc & Hp). unfold row_past, dm_merge. destruct (dm_get id' m); simpl; [|eauto].
      exists c. rewrite dm_get_put_ne; [done|]. intros ->. by apply Hr.
    + pose proof (merge_row id id' (patch_cron p None) s m) as Hmr. destruct (dm_merge id' _ m) as [r m'].
      apply Hmr; [|done]. intros c. destruct c as [b sc nx ti ar ac me ra mb fl].
      destruct p as [[] [] [] sc' [] [[]|] [] [] []]; simpl; by apply same_slot.
  - destruct Hm as (c & Hc & Hp). exists c. by rewrite dm_get_delete, decide_False.
  - apply merge_row; [|done]. intros c. destruct c, b; by apply same_slot.
  - apply merge_row; [|done]. intros c. destruct c; by apply same_slot.
  - apply merge_row; [|done]. intros c. destruct c; by apply same_slot.
  - apply (merge_row id id' (addEntry e)); [|done]. intros c. destruct c; by apply same_slot.
  - unfold markFired. destruct (dm_get id' m) as [c0|] eqn:E0; [|done].
    destruct (advanceNextFireAt _ _ _ _) as [next|] eqn:Ea; [|done]. cbn [snd].
    destruct Hm as (c & Hc & Hp). unfold row_past, dm_merge. rewrite E0. cbn [snd]. rewrite dm_get_put.
    case_decide as Ed; [|eauto]. subst id'. eexists. split; [done|].
    assert (s <= at_) by (apply Z.nlt_ge; intros ?; apply Hr; auto).
    eapply advance_past; [|done|exact Ea]. destruct (isCalendarSchedule _); [|done].
    destruct sch as [t|]; simpl; [|done]. apply Z.nlt_ge. intros ?. apply Hr. eauto.
  - unfold claimSlot. destruct (dm_get id' m) as [c0|] eqn:E0; [|done].
    destruct (claim_transform t at_ c0) as [[claimed c1]|] eqn:Ec; [|done]. cbn [snd].
    destruct Hm as (c & Hc & Hp). unfold row_past. rewrite dm_get_put. case_decide as Ed; [|eauto]. subst id'.
    rewrite Hc in E0. injection E0 as <-. eexists. split; [done|].
    destruct claimed; [|by apply claim_transform_false in Ec as ->].
    apply claim_transform_true in Ec as (_ & Hsl & from & next & Hfrom & Ha & ->). specialize (Hp _ Hsl).
    assert (t <= at_) by (apply Z.nlt_ge; intros ?; apply Hr; auto).
    eapply advance_past; [| |exact Ha]; [destruct Hfrom as [-> | ->]|]; lia.
  - destruct Hm as (c & Hc & Hp). unfold row_past, unclaimSlot, dm_update. destruct (dm_get id' m); simpl; [|eauto].
    exists c. rewrite dm_get_put_ne; [done|]. intros ->. by apply Hr.
Qed.

Lemma claim_past id s at_ m m' : claimSlot id s at_ m = (Ok true, m') -> s <= at_ -> row_past id s m'.
Proof.
  intros Hc Hat. unfold claimSlot in Hc. destruct (dm_get id m) as [c|]; [|done].
  destruct (claim_transform s at_ c) as [[[] c']|] eqn:E; try done. injection Hc as <-.
  exists c'. split; [by rewrite dm_get_put_eq|].
  apply claim_transform_true in E as (_ & _ & from & next & Hfrom & Ha & ->).
  eapply advance_past; [| |exact Ha]; [destruct Hfrom as [-> | ->]|]; lia.
Qed.
Lemma past_unclaimable id s at_ m : row_past id s m -> (claimSlot id s at_ m).1 <> Ok true.
Proof.
  unfold claimSlot. intros (c & -> & Hp). pose proof (past_not_claimed s at_ c Hp) as Hn.
  destruct (claim_transform s at_ c) as [[[] c']|]; [by destruct (Hn c')|done|done].
Qed.

(** A slot is claimed once.  After a claim of a slot at or after its time, no claim of that
    slot succeeds again, whatever else is done to the crons in between, unless that slot is
    given back, the cron is deleted or rescheduled, or it is marked as fired or claimed ahead of
    time. *)
Theorem slot_claimed_once id s at_ m m' ops :
  claimSlot id s at_ m = (Ok true, m') -> s <= at_ -> (forall o, o ∈ ops -> ~ rearms id s o) ->
  forall at', (claimSlot id s at' (foldl (fun m o => exec o m) m' ops)).1 <> Ok true.
Proof.
  intros Hc Hat Hops. pose proof (claim_past _ _ _ _ _ Hc Hat) as Hrow.
  clear Hc. revert m' Hrow. induction ops as [|o ops IH]; intros m' Hrow at'; simpl; [by apply past_unclaimable|].
  apply IH; [intros o' ?; apply Hops; by right|]. apply exec_past; [apply Hops; by left|done].
Qed.

(** Due crons can be claimed, and a slot given back is as it was.  [due] answers exactly
    the crons that are awake and whose slot has come; each of them can be claimed at that
    slot, unless its schedule cannot be moved on; and giving a claimed slot back restores
    when the cron last fired and arms it for that slot again. *)
Theorem due_claim_unclaim now m l :
  due now m = Ok l ->
  (forall c' n, (c', n) ∈ l <->
     exists c, c ∈ dm_all m /\ asleep c = false /\ slot c = Ok (Some n) /\ n <= now /\ c' = c <| nextFireAt := Some n |>) /\
  (forall id c n at_, dm_get id m = Some c -> asleep c = false -> slot c = Ok (Some n) ->
     (claimSlot id n at_ m).1 = Ok true \/ exists e, claimSlot id n at_ m = (Throw e, m)) /\
  (forall id c n at_ m', dm_get id m = Some c -> claimSlot id n at_ m = (Ok true, m') ->
     dm_get id (unclaimSlot id n at_ (lastFiredAt (base c)) m') = Some (c <| nextFireAt := Some n |>)).
Proof.
  intros Hd. split_and!.
  - unfold due in Hd. revert l Hd. induction (dm_all m) as [|c cs IH]; simpl; intros l.
    { intros [= <-] c' n. split; [by intros ?%not_elem_of_nil|]. by intros (c & ?%not_elem_of_nil & _). }
    intros Hd c' n. setoid_rewrite elem_of_cons. destruct (asleep c) eqn:Ea.
    { rewrite (IH l Hd). split; [naive_solver|]. intros (c0 & [->|?] & Has & ?); [congruence|eauto]. }
    destruct (slot c) as [sl|] eqn:Es; [|done]. simpl in Hd. destruct (due_among now cs) as [rest|]; [|done].
    simpl in Hd. specialize (IH rest eq_refl c' n). injection Hd as <-. destruct sl as [n'|]; [destruct (n' <=? now) eqn:En; to_prop|].
    + rewrite elem_of_cons, IH. split.
      * intros [[= -> ->]|(c0 & ? & ?)]; [exists c; auto|exists c0; tauto].
      * intros (c0 & [->|?] & ? & Hs & ? & ->); [left; rewrite Es in Hs; by injection Hs as ->|right; by exists c0].
    + rewrite IH. split; [intros (c0 & ? & ?); exists c0; tauto|].
      intros (c0 & [->|?] & ? & Hs & ? & ->); [rewrite Es in Hs; injection Hs as ->; lia|by exists c0].
    + rewrite IH. split; [intros (c0 & ? & ?); exists c0; tauto|].
      intros (c0 & [->|?] & ? & Hs & ? & ->); [by rewrite Es in Hs|by exists c0].
  - intros id c n at_ Hc Ha Hs. unfold claimSlot. rewrite Hc. unfold claim_transform. rewrite Ha, Hs. simpl.
    rewrite eqb_refl. simpl. destruct (advanceNextFireAt _ _ _ _); simpl; eauto.
  - intros id c n at_ m' Hc. unfold claimSlot. rewrite Hc. destruct (claim_transform n at_ c) as [[[] c1]|] eqn:E; try done.
    intros [= <-]. apply claim_transform_true in E as (_ & _ & from & next & _ & _ & ->).
    unfold unclaimSlot, dm_update. rewrite dm_get_put_eq. simpl. rewrite dm_get_put_eq. f_equal.
    unfold restore_slot. destruct c as [[] ? ? ? ? ? ? ? ? ?]. simpl. by rewrite eqb_refl.
Qed.
End store.

(** ** Witnesses *)

Definition demo_next (expr tz : string) (t : Z) : result string (option Z) := Ok (Some (t + 60000)).
Lemma demo_next_after expr tz t n : demo_next expr tz t = Ok (Some n) -> t < n.
Proof. unfold demo_next. intros [= <-]. lia. Qed.
Definition demo_cron (sc : CronSchedule) (next : option Z) : Cron :=
  MkCron (MkTriggerBase "c1" "personal:ann" "ann" "ann" None None true 0 None None) sc next None false (Some "do it")
    None None None None.
Definition demo_crons : jsmap string Cron :=
  <["c1" := demo_cron (MkSchedule (Some "* * * * *") (Some "UTC") None None) (Some 60000)]> ∅.

Lemma slot_claimed_once_witness :
  (claimSlot demo_next (fun _ => true) "c1" 60000 60005 demo_crons).1 = Ok true /\
  (claimSlot demo_next (fun _ => true) "c1" 60000 60006
     (claimSlot demo_next (fun _ => true) "c1" 60000 60005 demo_crons).2).1 <> Ok true.
Proof.
  destruct (claimSlot demo_next (fun _ => true) "c1" 60000 60005 demo_crons) as [r m'] eqn:E.
  assert (Hr : r = Ok true).
  { change r with ((r, m').1). rewrite <- E. vm_compute. reflexivity. }
  subst r. split; [reflexivity|].
  apply (slot_claimed_once demo_next (fun _ => true) (fun _ _ => "c1") demo_next_after "c1" 60000 60005 demo_crons m' []);
    [exact E|lia|]. intros o Ho. by apply not_elem_of_nil in Ho.
Defined.

Lemma due_claim_unclaim_witness :
  due demo_next (fun _ => true) 60001 demo_crons =
    Ok [(demo_cron (MkSchedule (Some "* * * * *") (Some "UTC") None None) (Some 60000), 60000)] /\
  ((claimSlot demo_next (fun _ => true) "c1" 60000 60005 demo_crons).1 = Ok true \/
   exists e, claimSlot demo_next (fun _ => true) "c1" 60000 60005 demo_crons = (Throw e, demo_crons)).
Proof.
  assert (H : due demo_next (fun _ => true) 60001 demo_crons =
    Ok [(demo_cron (MkSchedule (Some "* * * * *") (Some "UTC") None None) (Some 60000), 60000)]) by (vm_compute; reflexivity).
  split; [exact H|].
  destruct (due_claim_unclaim demo_next (fun _ => true) 60001 demo_crons _ H) as (_ & Hc & _).
  apply (Hc "c1" (demo_cron (MkSchedule (Some "* * * * *") (Some "UTC") None None) (Some 60000))); vm_compute; reflexivity.
Defined.

Example normalize_demo :
  normalizeSchedule demo_next (fun _ => true) (MkSchedule None None (Some 3600000) None) 1000 "UTC" =
    Ok (MkNormalized (MkSchedule None None (Some 3600000) (Some 3601000)) (Some 3601000)).
Proof. vm_compute. reflexivity. Qed.
