(* ===== verification/SafeRegex.v ===== *)
(** * Patterns that are safe to run

    [src/src/util/safe-regex.ts]: what a stored pattern must satisfy before it is compiled.
    Compiling and running a pattern is the host's [RegExp], a parameter. *)

From S2P Require Import Prelude JsString Regex.

(** [MAX_PATTERN_CHARS] src/src/util/safe-regex.ts:1-1 *)
Definition MAX_PATTERN_CHARS : Z := 256.

(** [compileSafeRegex] src/src/util/safe-regex.ts:6-6 *)
Definition unsupported : re :=
  let bs := chr (ascii_of_N 92) in
  (bs ⋅ Cls (in_range 49 57) ∥ bs ⋅ lit "k<" ∥ lit "(?" ⋅ Cls (one_of "=!<"))%re.

(** [compileSafeRegex] src/src/util/safe-regex.ts:8-8 *)
Record group_info := MkGroup { quantified : bool; alternation : bool }.

(** The scan's state, src/src/util/safe-regex.ts:8-12 *)
Record rx_state := MkRx {
  groups : list group_info;
  escaped : bool;
  inClass : bool;
  previousQuantifier : bool;
  closed : option group_info;
}.
#[export] Instance rx_eta : Eta rx_state := fun s =>
  MkRx s.(groups) s.(escaped) s.(inClass) s.(previousQuantifier) s.(closed).

(** Change the innermost open group. *)
Definition on_top (f : group_info -> group_info) (gs : list group_info) : list group_info :=
  match gs with [] => [] | g :: gs => f g :: gs end.

(** [compileSafeRegex] src/src/util/safe-regex.ts:13-65
    One character; [prev] is the character before it.  The groups are innermost first. *)
Definition rx_step (prev : option ascii) (ch : ascii) (s : rx_state) : result string rx_state :=
  if s.(escaped) then Ok (s <| escaped := false |> <| previousQuantifier := false |> <| closed := None |>)
  else if ch === ascii_of_N 92 then Ok (s <| escaped := true |>)
  else if ch === "["%char then Ok (s <| inClass := true |> <| previousQuantifier := false |> <| closed := None |>)
  else if (ch === "]"%char) && s.(inClass) then Ok (s <| inClass := false |>)
  else if s.(inClass) then Ok s
  else if ch === "("%char then
    Ok (s <| groups := MkGroup false false :: s.(groups) |> <| previousQuantifier := false |> <| closed := None |>)
  else if ch === "|"%char then
    Ok (s <| groups := on_top (fun g => MkGroup g.(quantified) true) s.(groups) |>
          <| previousQuantifier := false |> <| closed := None |>)
  else if ch === ")"%char then
    Ok (s <| closed := Some (head s.(groups) ?? MkGroup false false) |> <| groups := tail s.(groups) |>
          <| previousQuantifier := false |>)
  else if one_of "*+{" ch || ((ch === "?"%char) && (prev !== Some "("%char)) then
    if s.(previousQuantifier)
       || match s.(closed) with Some c => c.(quantified) || c.(alternation) | None => false end
    then Throw "nested or ambiguous repetition is not supported"
    else Ok (s <| groups := on_top (fun g => MkGroup true g.(alternation)) s.(groups) |>
               <| previousQuantifier := true |> <| closed := None |>)
  else Ok (s <| previousQuantifier := false |> <| closed := None |>).

(** [compileSafeRegex] src/src/util/safe-regex.ts:13-65 *)
Fixpoint rx_scan (prev : option ascii) (pattern : string) (s : rx_state) : result string unit :=
  match pattern with
  | "" => Ok tt
  | String c rest => s' ← rx_step prev c s; rx_scan (Some c) rest s'
  end%string.

(** [compileSafeRegex] src/src/util/safe-regex.ts:3-67
    [newRegExp] compiles a pattern to its matcher, which answers the text of the first match. *)
Definition compileSafeRegex {R : Type} (newRegExp : string -> string -> result string R) (pattern flags : string)
  : result string R :=
  if negb (truthy pattern) || (str_len pattern >? MAX_PATTERN_CHARS)%Z then Throw "pattern must be 1-256 characters"
  else if test unsupported pattern then Throw "backreferences and lookarounds are not supported"
  else _ ← rx_scan None pattern (MkRx [] false false false None); newRegExp pattern flags.

Example safe_demo :
  is_ok (rx_scan None "(a+)+" (MkRx [] false false false None)) = false /\
  is_ok (rx_scan None "\brm\b[^\n]*(?:-[a-zA-Z]*r|--recursive)" (MkRx [] false false false None)) = true.
Proof. vm_compute. auto. Qed.
