(* ===== verification/ShellScan.v ===== *)
(** * Reading a shell command

    The scanner the command policy uses to see through quoting, substitutions and wrappers
    ([src/src/policy/command-policy.ts]).  An index into the input is the text that is left.
    A loop that can advance by more than one character has fuel, spent at one unit a turn;
    running out is the error [OutOfFuel], which [scanShell_total] excludes.  The other error
    is the source's: [String.fromCodePoint] throws on a number that is no code point.
    A decoded character outside the model's range is [unrepresentable]. *)

From S2P Require Import Prelude JsString Regex.

Inductive scan_error := RangeError | OutOfFuel.
#[export] Instance scan_error_eq_dec : EqDecision scan_error.
Proof. solve_decision. Defined.
Abbreviation scan := (result scan_error).

Definition backslash : ascii := ascii_of_N 92.
Definition squote : ascii := ascii_of_N 39.
Definition dquote : ascii := ascii_of_N 34.
Definition backtick : ascii := ascii_of_N 96.
Definition lf : ascii := ascii_of_N 10.

(** ** Escapes *)

(** [Number.parseInt] on the digits a match captured. *)
Definition digit_value (c : ascii) : Z :=
  let n := Z.of_N (N_of_ascii c) in
  if is_digit c then n - 48 else if in_range 97 102 c then n - 87 else n - 55.
Fixpoint parse_int (base acc : Z) (s : string) : Z :=
  match s with "" => acc | String c s => parse_int base (acc * base + digit_value c) s end%string.

Definition unrepresentable : ascii := ascii_of_N 191.
Definition fromCodePoint (n : Z) : scan string :=
  if (n >? 1114111)%Z then Throw RangeError
  else Ok (String (if (n <=? 255)%Z then ascii_of_N (Z.to_N n) else unrepresentable) "").

(** Replacement of every match, the replacement text being computed from the match. *)
Fixpoint replace_from (r : re) (f : hit -> scan string) (fuel : nat) (prev : option ascii) (s : string) : scan string :=
  match fuel with
  | O => Throw OutOfFuel
  | S fuel =>
      match search_from r prev s with
      | None => Ok s
      | Some h =>
          t ← f h;
          let q := h_end h in
          if truthy (h_text h) then
            u ← replace_from r f fuel (before q) (rest q);
            mret (h_skipped h +:+ t +:+ u)
          else match step_pos q with
               | None => mret (h_skipped h +:+ t)
               | Some (c, q') =>
                   u ← replace_from r f fuel (before q') (rest q');
                   mret (h_skipped h +:+ t +:+ String c u)
               end
      end
  end.
Definition replace (r : re) (f : hit -> scan string) (s : string) : scan string :=
  replace_from r f (S (String.length s)) None s.

Definition hex_escape (c : ascii) (lo hi : nat) : re :=
  (chr backslash ⋅ chr c ⋅ Grp 1 (times lo hi (Cls is_hex)))%re.
Definition octal_escape : re := (chr backslash ⋅ Grp 1 (times 1 3 (Cls (in_range 48 55))))%re.
Definition letter_escape : re :=
  (chr backslash ⋅ Grp 1 (Cls (fun c => (c === backslash) || (c === squote) || (c === dquote) || one_of "abefnrtv" c)))%re.

Definition code_point (base : Z) (h : hit) : scan string := fromCodePoint (parse_int base 0 (group 1 h ?? "")).

(** The table of [decodeAnsiC], src/src/policy/command-policy.ts:107-108 *)
Definition escape_letter (s : string) : string :=
  let c n := String (ascii_of_N n) "" in
  if s === "a" then c 7%N else if s === "b" then c 8%N else if s === "e" then c 27%N
  else if s === "f" then c 12%N else if s === "n" then c 10%N else if s === "r" then c 13%N
  else if s === "t" then c 9%N else if s === "v" then c 11%N else s.

(** [decodeAnsiC] src/src/policy/command-policy.ts:99-110 *)
Definition decodeAnsiC (value : string) : scan string :=
  v ← replace (hex_escape "x" 1 2) (code_point 16) value;
  v ← replace (hex_escape "u" 4 4) (code_point 16) v;
  v ← replace (hex_escape "U" 8 8) (code_point 16) v;
  v ← replace octal_escape (code_point 8) v;
  replace letter_escape (fun h => Ok (escape_letter (group 1 h ?? ""))) v.

(** [unquoteBareWord] src/src/policy/command-policy.ts:112-114 *)
Definition bare_char (c : ascii) : bool := is_word c || one_of "@%+=:,./-" c.
(** [unquoteBareWord] src/src/policy/command-policy.ts:112-114 *)
Definition unquoteBareWord (inner : string) : option string :=
  if str_every bare_char inner then Some inner else None.

(** ** The scanner *)

(** [ShellScan] src/src/policy/command-policy.ts:123-126 *)
Record ShellScan := MkScan { commands : list (list string); nested : list string }.

Definition special (c : ascii) : bool := one_of ";|&(){}" c.

(** The text before the first [c] and the text after it: [indexOf] with the two slices. *)
Fixpoint cut_at (c : ascii) (s : string) : option (string * string) :=
  match s with
  | "" => None
  | String d s =>
      if d === c then Some ("", s)
      else match cut_at c s with Some (a, b) => Some (String d a, b) | None => None end
  end%string.

Definition cons_body (c : ascii) (r : option (string * string)) : option (string * string) :=
  match r with Some (a, b) => Some (String c a, b) | None => None end.

(** [commandSubstitution] src/src/policy/command-policy.ts:137-162
    The text is what follows the opening bracket; the answer is the body and what follows
    the closing one. *)
Fixpoint commandSubstitution (depth : nat) (quote : option ascii) (s : string) : option (string * string) :=
  match s with
  | "" => None
  | String c t =>
      if c === backslash then
        match t with
        | "" => None
        | String d t => cons_body c (cons_body d (commandSubstitution depth quote t))
        end
      else match quote with
      | Some q => cons_body c (commandSubstitution depth (if c === q then None else quote) t)
      | None =>
          if (c === squote) || (c === dquote) then cons_body c (commandSubstitution depth (Some c) t)
          else match t with
          | String d t' =>
              if (c === "$"%char) && (d === "("%char) then cons_body c (cons_body d (commandSubstitution (S depth) None t'))
              else if c === ")"%char then
                if Nat.eqb depth 1 then Some ("", t) else cons_body c (commandSubstitution (pred depth) None t)
              else cons_body c (commandSubstitution depth None t)
          | "" => if (c === ")"%char) && Nat.eqb depth 1 then Some ("", t) else None
          end
      end
  end%string.

(** [scanShell] src/src/policy/command-policy.ts:222-243
    Inside double quotes: the word so far, the nested commands so far. *)
Fixpoint dquote_loop (fuel : nat) (s word : string) (nested : list string) : scan (string * string * list string) :=
  match fuel with
  | O => Throw OutOfFuel
  | S fuel =>
      match s with
      | "" => Ok (s, word, nested)
      | String c t =>
          if c === dquote then Ok (t, word, nested)
          else if (c === backslash) && truthy t then
            match t with
            | String d t => dquote_loop fuel t (word +:+ String d "") nested
            | "" => Ok (t, word, nested)
            end
          else if (c === "$"%char) && starts_with t "(" then
            match commandSubstitution 1 None (str_drop 1 t) with
            | None => dquote_loop fuel t (word +:+ String c "") nested
            | Some (body, rest) => dquote_loop fuel rest word (nested ++ [body])
            end
          else if c === backtick then
            match cut_at backtick t with
            | None => dquote_loop fuel t word nested
            | Some (body, rest) => dquote_loop fuel rest word (nested ++ [body])
            end
          else dquote_loop fuel t (word +:+ String c "") nested
      end
  end%string.

(** The last character of the word is a redirection sign: the test [/[<>]$/]. *)
Definition ends_redirect (word : string) : bool :=
  match str_last word with Some c => one_of "<>" c | None => false end.

(** [scanShell] src/src/policy/command-policy.ts:180-184 *)
Definition in_word (c : ascii) (word : string) : bool :=
  negb (is_space c) && (negb (special c) || ((c === "&"%char) && ends_redirect word)).

(** [scanShell] src/src/policy/command-policy.ts:178-269
    One word: the text left, the word, whether it started, the nested commands. *)
Fixpoint word_loop (fuel : nat) (s word : string) (started : bool) (nested : list string)
  : scan (string * string * bool * list string) :=
  match fuel with
  | O => Throw OutOfFuel
  | S fuel =>
      match s with
      | "" => Ok (s, word, started, nested)
      | String c t =>
          if negb (in_word c word) then Ok (s, word, started, nested)
          else if c === backslash then
            match t with
            | String d t' =>
                if d === lf then word_loop fuel t' word started nested
                else word_loop fuel t' (word +:+ String d "") true nested
            | "" => word_loop fuel t word started nested
            end
          else if c === squote then
            match cut_at squote t with
            | None => word_loop fuel "" (word +:+ t) true nested
            | Some (a, rest) => word_loop fuel rest (word +:+ a) true nested
            end
          else if (c === "$"%char) && starts_with t (String squote "") then
            match cut_at squote (str_drop 1 t) with
            | None => word_loop fuel "" (word +:+ str_drop 1 t) true nested
            | Some (a, rest) => d ← decodeAnsiC a; word_loop fuel rest (word +:+ d) true nested
            end
          else if c === dquote then
            r ← dquote_loop (S (String.length t)) t word nested;
            let '(rest, word, nested) := r : string * string * list string in
            word_loop fuel rest word true nested
          else if (c === "$"%char) && starts_with t "(" then
            match commandSubstitution 1 None (str_drop 1 t) with
            | None => word_loop fuel t (word +:+ String c "") true nested
            | Some (body, rest) => word_loop fuel rest word true (nested ++ [body])
            end
          else if c === backtick then
            match cut_at backtick t with
            | None => word_loop fuel t word true nested
            | Some (body, rest) => word_loop fuel rest word true (nested ++ [body])
            end
          else word_loop fuel t (word +:+ String c "") true nested
      end
  end%string.

Fixpoint skip_comment (s : string) : string :=
  match s with "" => "" | String c t => if c === lf then s else skip_comment t end%string.
Fixpoint skip_special (s : string) : string :=
  match s with "" => "" | String c t => if special c then skip_special t else s end%string.

(** [scanShell] src/src/policy/command-policy.ts:133-136 *)
Definition flush (commands : list (list string)) (words : list string) : list (list string) :=
  match words with [] => commands | _ => commands ++ [words] end.

(** [scanShell] src/src/policy/command-policy.ts:163-274 *)
Fixpoint scan_loop (fuel : nat) (s : string) (commands : list (list string)) (words nested : list string)
  : scan ShellScan :=
  match fuel with
  | O => Throw OutOfFuel
  | S fuel =>
      match s with
      | "" => Ok (MkScan (flush commands words) nested)
      | String c t =>
          if is_space c then
            if c === lf then scan_loop fuel t (flush commands words) [] nested
            else scan_loop fuel t commands words nested
          else if (c === "#"%char) && match words with [] => true | _ => false end then scan_loop fuel (skip_comment s) commands words nested
          else if special c then scan_loop fuel (skip_special s) (flush commands words) [] nested
          else
            r ← word_loop (S (String.length s)) s "" false nested;
            let '(rest, word, started, nested) := r : string * string * bool * list string in
            scan_loop fuel rest commands (if started then words ++ [word] else words)%list nested
      end
  end%string.

(** [scanShell] src/src/policy/command-policy.ts:128-274 *)
Definition scanShell (input : string) : scan ShellScan := scan_loop (S (String.length input)) input [] [] [].

(** ** The scanner always answers *)

Abbreviation len := String.length.

Definition fueled {A} (r : scan A) : Prop := r <> Throw OutOfFuel.

Lemma fueled_Ok {A} (a : A) : fueled (Ok a).
Proof. done. Qed.
Lemma fueled_bind {A B} (m : scan A) (f : A -> scan B) :
  fueled m -> (forall a, m = Ok a -> fueled (f a)) -> fueled (m ≫= f).
Proof.
  unfold fueled. destruct m as [a|e]; simpl; [intros _ H; by apply H|]. intros H _ [= ->]. done.
Qed.
Lemma bind_inv {E A B} (m : result E A) (f : A -> result E B) b :
  m ≫= f = Ok b -> exists a, m = Ok a /\ f a = Ok b.
Proof. destruct m as [a|e]; [|done]. intros H. by exists a. Qed.

Lemma len_app a b : len (a +:+ b) = (len a + len b)%nat.
Proof. induction a as [|c a IH]; simpl; auto. Qed.

Lemma replace_total r f fuel prev s :
  (forall h, fueled (f h)) -> (len s < fuel)%nat -> fueled (replace_from r f fuel prev s).
Proof.
  intros Hf. revert prev s. induction fuel as [|fuel IH]; intros prev s Hl; [lia|]. simpl.
  destruct (search_from r prev s) as [h|] eqn:Es; [|done].
  apply search_from_hit in Es. unfold left in Es.
  apply fueled_bind; [done|]. intros t _. destruct (truthy (h_text h)) eqn:Et.
  - apply truthy_length in Et. apply fueled_bind; [|done]. apply IH. lia.
  - destruct (step_pos (h_end h)) as [[c q]|] eqn:Eq; [|done]. apply step_pos_left in Eq. unfold left in Eq.
    apply fueled_bind; [|done]. apply IH. lia.
Qed.

Lemma fueled_code_point base h : fueled (code_point base h).
Proof. unfold code_point, fromCodePoint. by destruct (_ >? _)%Z. Qed.

Lemma decode_total v : fueled (decodeAnsiC v).
Proof.
  unfold decodeAnsiC, replace.
  repeat (apply fueled_bind; [apply replace_total; [apply fueled_code_point|lia]|intros ? _]).
  apply replace_total; [done|lia].
Qed.

(** An expression that starts with a character class matches at least one character. *)
Lemma search_cls_nonempty f r prev s h : search_from (Cls f ⋅ r)%re prev s = Some h -> truthy (h_text h) = true.
Proof.
  revert prev h. induction s as [|c s IH]; intros prev h; cbn [search_from].
  - simpl. done.
  - destruct (run _ _ Some) as [q|] eqn:E.
    + intros [= <-]. apply truthy_length. cbn [h_text]. unfold between. rewrite length_str_take. simpl in *.
      destruct (f c); [|done]. apply run_forward in E as (p' & Hp & [= ->]). unfold left in Hp. simpl in Hp. lia.
    + destruct (search_from _ (Some c) s) as [h'|] eqn:Es; [|done]. intros [= <-]. by apply IH in Es.
Qed.

Lemma replace_cls_length f0 r f fuel prev s t :
  (forall prev s h u, search_from (Cls f0 ⋅ r)%re prev s = Some h -> f h = Ok u -> (len u <= 1)%nat) ->
  replace_from (Cls f0 ⋅ r)%re f fuel prev s = Ok t -> (len t <= len s)%nat.
Proof.
  intros Hf. revert prev s t. induction fuel as [|fuel IH]; intros prev s t; simpl; [done|].
  destruct (search_from _ prev s) as [h|] eqn:Es; [|by intros [= ->]].
  pose proof (search_cls_nonempty _ _ _ _ _ Es) as Et. rewrite Et. apply truthy_length in Et.
  intros (u & Hu & H)%bind_inv. pose proof (Hf _ _ _ _ Es Hu).
  apply search_from_hit in Es. unfold left in Es.
  apply bind_inv in H as (v & Hv%IH & [= <-]). rewrite !len_app. lia.
Qed.

Lemma code_point_length base h u : code_point base h = Ok u -> (len u <= 1)%nat.
Proof. unfold code_point, fromCodePoint. destruct (_ >? _)%Z; [done|]. by intros [= <-]. Qed.

Lemma search_letter_group prev s h : search_from letter_escape prev s = Some h ->
  exists c, group 1 h = Some (String c "").
Proof.
  revert prev h. induction s as [|c s IH]; intros prev h; cbn [search_from].
  - done.
  - destruct (run _ _ Some) as [q|] eqn:E.
    + intros [= <-]. unfold letter_escape in E. simpl in E. destruct (c === backslash); [|done].
      unfold step_pos in E. simpl in E. destruct s as [|d s]; [done|].
      destruct (_ || _) in E; [|done]. injection E as <-. exists d. unfold group, cap. simpl.
      unfold between. simpl. by replace (S (len s) - len s)%nat with 1%nat by lia.
    + destruct (search_from _ (Some c) s) as [h'|] eqn:Es; [|done]. intros [= <-]. apply IH in Es.
      exact Es.
Qed.

Lemma escape_letter_length c : len (escape_letter (String c "")) = 1%nat.
Proof. unfold escape_letter. repeat (case_bool_decide; [done|]). done. Qed.

Lemma decode_length v u : decodeAnsiC v = Ok u -> (len u <= len v)%nat.
Proof.
  unfold decodeAnsiC, replace.
  intros (v1 & H1 & (v2 & H2 & (v3 & H3 & (v4 & H4 & H5)%bind_inv)%bind_inv)%bind_inv)%bind_inv.
  apply replace_cls_length in H1; [|by intros ? ? ? ? _; apply code_point_length].
  apply replace_cls_length in H2; [|by intros ? ? ? ? _; apply code_point_length].
  apply replace_cls_length in H3; [|by intros ? ? ? ? _; apply code_point_length].
  apply replace_cls_length in H4; [|by intros ? ? ? ? _; apply code_point_length].
  apply replace_cls_length in H5; [lia|].
  intros prev s h w Hs [= <-]. apply search_letter_group in Hs as [c ->]. simpl. by rewrite escape_letter_length.
Qed.

(** ** Progress of the loops *)

Lemma cut_at_length c s a b : cut_at c s = Some (a, b) -> (S (len a + len b) = len s)%nat.
Proof.
  revert a b. induction s as [|d s IH]; intros a b; simpl; [done|].
  destruct (d === c); [by intros [= <- <-]|].
  destruct (cut_at c s) as [[a' b']|] eqn:E; [|done]. intros [= <- <-]. simpl. by rewrite <- (IH a' b').
Qed.

Lemma cons_body_Some c r a b : cons_body c r = Some (a, b) -> exists a', r = Some (a', b) /\ a = String c a'.
Proof. destruct r as [[a' b']|]; [|done]. intros [= <- <-]. eauto. Qed.

Lemma substitution_length depth quote s a b :
  commandSubstitution depth quote s = Some (a, b) -> (len a + len b < len s)%nat.
Proof.
  assert (Hgen : forall n depth quote s a b, (len s <= n)%nat ->
    commandSubstitution depth quote s = Some (a, b) -> (len a + len b < len s)%nat).
  2: { by apply (Hgen (len s)). }
  clear. intros n. induction n as [|n IH]; intros depth quote s a b Hn; destruct s as [|c t]; simpl in *; try done; [lia|].
  assert (IHt : forall depth quote s a b, (len s <= len t)%nat ->
    commandSubstitution depth quote s = Some (a, b) -> (len a + len b < len s)%nat).
  { intros. eapply IH; [|done]. lia. }
  clear IH Hn.
  destruct (c === backslash).
  - destruct t as [|d t]; [done|]. intros (a1 & (a2 & H & ->)%cons_body_Some & ->)%cons_body_Some.
    apply IHt in H; simpl in *; lia.
  - destruct quote as [q|].
    + intros (a1 & H & ->)%cons_body_Some. apply IHt in H; simpl in *; lia.
    + destruct (_ || _).
      * intros (a1 & H & ->)%cons_body_Some. apply IHt in H; simpl in *; lia.
      * destruct t as [|d t'].
        -- destruct (_ && _); [|done]. intros [= <- <-]. simpl. lia.
        -- destruct (_ && _).
           ++ intros (a1 & (a2 & H & ->)%cons_body_Some & ->)%cons_body_Some. apply IHt in H; simpl in *; lia.
           ++ destruct (c === ")"%char).
              ** destruct (Nat.eqb depth 1); [intros [= <- <-]; simpl; lia|].
                 intros (a1 & H & ->)%cons_body_Some. apply IHt in H; simpl in *; lia.
              ** intros (a1 & H & ->)%cons_body_Some. apply IHt in H; simpl in *; lia.
Qed.

Lemma str_drop1_length s : (len (str_drop 1 s) <= len s)%nat.
Proof. destruct s; simpl; [lia|]. destruct s; simpl; lia. Qed.

(** What is left and the word together never outgrow the text. *)
Lemma dquote_total fuel s word nested :
  (len s < fuel)%nat ->
  exists s' word' nested', dquote_loop fuel s word nested = Ok (s', word', nested') /\
    (len s' + len word' <= len s + len word)%nat /\ (len s' <= len s)%nat.
Proof.
  revert s word nested. induction fuel as [|fuel IH]; intros s word nested Hl; [lia|].
  destruct s as [|c t]; cbn [dquote_loop]; [eauto 6|]. simpl in Hl.
  assert (Hgo : forall s1 w1 n1, (len s1 <= len t)%nat -> (len s1 + len w1 <= S (len t) + len word)%nat ->
    exists s' word' nested', dquote_loop fuel s1 w1 n1 = Ok (s', word', nested') /\
    (len s' + len word' <= S (len t) + len word)%nat /\ (len s' <= S (len t))%nat).
  { intros s1 w1 n1 H1 H2. destruct (IH s1 w1 n1) as (s' & w' & n' & H & ? & ?); [lia|].
    exists s', w', n'. split; [done|]. lia. }
  destruct (c === dquote); [eexists _, _, _; split; [done|]; simpl; lia|].
  destruct (_ && truthy t).
  - destruct t as [|d t]; [eexists _, _, _; split; [done|]; simpl; lia|].
    apply Hgo; rewrite ?len_app; simpl; lia.
  - destruct (_ && starts_with t "(").
    + pose proof (str_drop1_length t).
      destruct (commandSubstitution 1 None _) as [[body rest]|] eqn:E.
      * apply substitution_length in E. apply Hgo; lia.
      * apply Hgo; rewrite ?len_app; simpl; lia.
    + destruct (c === backtick).
      * destruct (cut_at backtick t) as [[body rest]|] eqn:E; [apply cut_at_length in E|]; apply Hgo; lia.
      * apply Hgo; rewrite ?len_app; simpl; lia.
Qed.

Definition word_ends (s word : string) : Prop :=
  match s with "" => True | String c _ => in_word c word = false end%string.

Definition word_result (s word : string) (r : scan (string * string * bool * list string)) : Prop :=
  match r with
  | Ok (s', word', _, _) =>
      (len s' + len word' <= len s + len word)%nat /\ (len s' <= len s)%nat /\ word_ends s' word' /\
      (s' = s -> word' = word)
  | Throw e => e = RangeError
  end.

Lemma word_result_weaken s word s1 w1 r :
  word_result s1 w1 r -> (len s1 < len s)%nat -> (len s1 + len w1 <= len s + len word)%nat -> word_result s word r.
Proof.
  unfold word_result. destruct r as [[[[s' w'] st] n]|]; [|done]. intros (H1 & H2 & H3 & H4) Hl Hw.
  split_and!; [lia|lia|done|]. intros ->. lia.
Qed.

Lemma word_total fuel s word started nested :
  (len s < fuel)%nat -> word_result s word (word_loop fuel s word started nested).
Proof.
  revert s word started nested. induction fuel as [|fuel IH]; intros s word started nested Hl; [lia|].
  destruct s as [|c t]; cbn [word_loop]; [simpl; split_and!; done|]. simpl in Hl.
  destruct (negb (in_word c word)) eqn:Ew; [simpl; split_and!; try done; by to_prop|].
  assert (Hgo : forall s1 w1 b1 n1, (len s1 <= len t)%nat -> (len s1 + len w1 <= S (len t) + len word)%nat ->
    word_result (String c t) word (word_loop fuel s1 w1 b1 n1)).
  { intros s1 w1 b1 n1 H1 H2. eapply word_result_weaken; [apply IH; lia| |]; simpl; lia. }
  pose proof (str_drop1_length t) as Hd.
  destruct (c === backslash).
  { destruct t as [|d t']; [apply Hgo; simpl; lia|].
    destruct (d === lf); apply Hgo; rewrite ?len_app; simpl in *; lia. }
  destruct (c === squote).
  { destruct (cut_at squote t) as [[a rest]|] eqn:E; [apply cut_at_length in E|];
      apply Hgo; rewrite ?len_app; simpl in *; lia. }
  destruct (_ && starts_with t (String squote "")).
  { destruct (cut_at squote (str_drop 1 t)) as [[a rest]|] eqn:E.
    - apply cut_at_length in E. pose proof (decode_total a) as Ht.
      destruct (decodeAnsiC a) as [d|e] eqn:Ed.
      + apply decode_length in Ed. simpl. apply Hgo; rewrite ?len_app; lia.
      + simpl. destruct e; [done|]. by destruct Ht.
    - apply Hgo; rewrite ?len_app; simpl; lia. }
  destruct (c === dquote).
  { destruct (dquote_total (S (len t)) t word nested) as (s' & w' & n' & E & ? & ?); [lia|].
    rewrite E. simpl. apply Hgo; lia. }
  destruct (_ && starts_with t "(").
  { destruct (commandSubstitution 1 None _) as [[body rest]|] eqn:E.
    - apply substitution_length in E. apply Hgo; lia.
    - apply Hgo; rewrite ?len_app; simpl; lia. }
  destruct (c === backtick).
  { destruct (cut_at backtick t) as [[body rest]|] eqn:E; [apply cut_at_length in E|]; apply Hgo; lia. }
  apply Hgo; rewrite ?len_app; simpl; lia.
Qed.

(** A word that can begin is not empty-handed: its first character is consumed. *)
Lemma word_progress fuel c t word started nested s' word' st' n' :
  (len (String c t) < fuel)%nat -> in_word c word = true ->
  word_loop fuel (String c t) word started nested = Ok (s', word', st', n') -> (len s' < len (String c t))%nat.
Proof.
  intros Hl Hin E. pose proof (word_total fuel (String c t) word started nested Hl) as H. rewrite E in H.
  destruct H as (_ & H2 & H3 & H4). destruct (decide (len s' = len (String c t))) as [Heq|]; [|lia].
  exfalso. clear H2 H3 H4. destruct fuel as [|fuel]; [done|]. cbn [word_loop] in E. rewrite Hin in E. cbn [negb] in E.
  assert (Hgo : forall s1 w1 b1 n1, (len s1 <= len t)%nat -> word_loop fuel s1 w1 b1 n1 = Ok (s', word', st', n') -> False).
  { intros s1 w1 b1 n1 Hs1 Hw. simpl in Hl.
    pose proof (word_total fuel s1 w1 b1 n1 ltac:(lia)) as H. rewrite Hw in H. destruct H as (_ & H & _). simpl in Heq. lia. }
  pose proof (str_drop1_length t) as Hd.
  destruct (c === backslash).
  { destruct t as [|d t']; [by apply Hgo in E|]. destruct (d === lf); apply Hgo in E; simpl in *; auto; lia. }
  destruct (c === squote).
  { destruct (cut_at squote t) as [[a rest]|] eqn:Ec; [apply cut_at_length in Ec|];
      apply Hgo in E; simpl in *; auto; lia. }
  destruct (_ && starts_with t (String squote "")).
  { destruct (cut_at squote (str_drop 1 t)) as [[a rest]|] eqn:Ec.
    - apply cut_at_length in Ec. destruct (decodeAnsiC a) as [d|e]; [|done]. simpl in E. apply Hgo in E; [done|lia].
    - apply Hgo in E; [done|simpl; lia]. }
  destruct (c === dquote).
  { destruct (dquote_total (S (len t)) t word nested) as (s1 & w1 & n1 & Ed & ? & ?); [lia|].
    rewrite Ed in E. simpl in E. by apply Hgo in E. }
  destruct (_ && starts_with t "(").
  { destruct (commandSubstitution 1 None _) as [[body rest]|] eqn:Ec; [apply substitution_length in Ec|];
      apply Hgo in E; auto; lia. }
  destruct (c === backtick).
  { destruct (cut_at backtick t) as [[body rest]|] eqn:Ec; [apply cut_at_length in Ec|]; apply Hgo in E; auto; lia. }
  by apply Hgo in E.
Qed.

Lemma skip_comment_length s : (len (skip_comment s) <= len s)%nat.
Proof. induction s as [|c t IH]; simpl; [done|]. destruct (c === lf); simpl; lia. Qed.
Lemma skip_special_length s : (len (skip_special s) <= len s)%nat.
Proof. induction s as [|c t IH]; simpl; [done|]. destruct (special c); simpl; lia. Qed.

(** The size of a list of words: their characters and one separator each. *)
Definition size (ws : list string) : nat := list_sum (map (fun w => S (len w)) ws).
Lemma size_app a b : size (a ++ b) = (size a + size b)%nat.
Proof. unfold size. by rewrite map_app, list_sum_app. Qed.

(** A word may begin only after a separator. *)
Definition fits (N : nat) (s : string) (ws : list string) : Prop :=
  (size ws + len s <= S N)%nat /\
  match s with "" => True | String c _ => is_space c = true \/ special c = true \/ (size ws + len s <= N)%nat end%string.

Lemma flush_fits N cmds ws :
  (forall c, c ∈ cmds -> (size c <= S N)%nat) -> (size ws <= S N)%nat ->
  forall c, c ∈ flush cmds ws -> (size c <= S N)%nat.
Proof.
  intros Hc Hw c. unfold flush. destruct ws as [|w ws]; [apply Hc|].
  rewrite elem_of_app, list_elem_of_singleton. intros [?| ->]; auto.
Qed.

Lemma fits_nil N s : (len s <= N)%nat -> fits N s [].
Proof. intros. split; [simpl; lia|]. destruct s; [done|]. right. right. simpl in *. lia. Qed.

Lemma scan_loop_total N fuel s cmds ws nested :
  (len s < fuel)%nat -> (len s <= N)%nat -> (forall c, c ∈ cmds -> (size c <= S N)%nat) -> fits N s ws ->
  match scan_loop fuel s cmds ws nested with
  | Ok r => forall c, c ∈ commands r -> (size c <= S N)%nat
  | Throw e => e = RangeError
  end.
Proof.
  revert s cmds ws nested. induction fuel as [|fuel IH]; intros s cmds ws nested Hl HN Hc [Hf1 Hf2]; [lia|].
  destruct s as [|c t]; cbn [scan_loop]; [simpl; apply flush_fits; simpl in *; [done|lia]|].
  simpl in Hl, HN, Hf1, Hf2.
  destruct (is_space c) eqn:Es.
  - destruct (c === lf).
    + apply IH; [lia|lia|apply flush_fits; [done|lia]|apply fits_nil; lia].
    + apply IH; [lia|lia|done|]. split; [lia|]. destruct t; [done|]. right. right. simpl in *. lia.
  - destruct (_ && _) eqn:Eh.
    + destruct ws; [|by rewrite andb_false_r in Eh]. apply andb_true_iff in Eh as [Eh _]. apply eqb_true in Eh as ->.
      pose proof (skip_comment_length t). cbn [skip_comment]. change ("#"%char === lf) with false. cbv iota.
      apply IH; [lia|lia|done|apply fits_nil; lia].
    + destruct (special c) eqn:Ep.
      * pose proof (skip_special_length t). cbn [skip_special]. rewrite Ep.
        apply IH; [lia|lia|apply flush_fits; [done|lia]|apply fits_nil; lia].
      * assert (Hsz : (size ws + S (len t) <= N)%nat) by (destruct Hf2 as [?|[?|?]]; [congruence|congruence|done]).
        assert (Hin : in_word c "" = true) by (unfold in_word; by rewrite Es, Ep).
        pose proof (word_total (S (len (String c t))) (String c t) "" false nested ltac:(lia)) as Hw.
        destruct (word_loop _ _ _ _ _) as [[[[s' w'] st'] n']|e] eqn:Ew; [|exact Hw].
        apply word_progress in Ew; [|lia|done]. destruct Hw as (H1 & H2 & H3 & _). cbn in H1, H2, Ew. simpl.
        assert (Hfit : fits N s' (if st' then ws ++ [w'] else ws)).
        { assert (Hs : (size (if st' then ws ++ [w'] else ws) <= size ws + S (len w'))%nat).
          { destruct st'; [|lia]. rewrite size_app. unfold size at 2. simpl. lia. }
          split; [lia|]. destruct s' as [|d s']; [done|]. unfold word_ends, in_word in H3.
          destruct (is_space d); [by left|]. right. left. simpl in H3.
          apply orb_false_iff in H3 as [H3 _]. by apply negb_false_iff. }
        apply IH; [lia|lia|done|exact Hfit].
Qed.

Lemma scanShell_size input :
  match scanShell input with
  | Ok r => forall c, c ∈ commands r -> (size c <= S (len input))%nat
  | Throw e => e = RangeError
  end.
Proof.
  unfold scanShell. apply scan_loop_total; [lia|lia|by intros c ?%not_elem_of_nil|by apply fits_nil].
Qed.

(** C40: the scanner always answers.  On any text it stops within its fuel: it answers, or throws
    the range error of an escape that names no code point; and no command it finds is longer
    than the text. *)
Theorem scanShell_total input :
  match scanShell input with
  | Ok r => forall c, c ∈ commands r -> (size c <= S (len input))%nat
  | Throw e => e = RangeError
  end.
Proof. apply scanShell_size. Qed.

(** ** Quoting *)

(** A word between single quotes, as a caller quotes it for the shell. *)
Definition quote_word (w : string) : string := String squote (w +:+ String squote "").
Definition quotable (w : string) : bool := str_every (fun c => c !== squote) w.

Lemma cut_at_quoted w s : quotable w = true -> cut_at squote (w +:+ String squote s) = Some (w, s).
Proof.
  induction w as [|c w IH]; [done|]. cbn [quotable str_every]. intros Hq. apply andb_true_iff in Hq as [Hc Hq].
  cbn [String.append cut_at]. apply negb_true_iff in Hc. rewrite Hc. unfold quotable in IH. by rewrite IH.
Qed.

Definition at_gap (s : string) : Prop := match s with "" => True | String c _ => c = " "%char end%string.

Lemma word_loop_quoted fuel w s nested :
  quotable w = true -> at_gap s ->
  word_loop (S (S fuel)) (quote_word w +:+ s) "" false nested = Ok (s, w, true, nested).
Proof.
  intros Hq Hs. unfold quote_word. cbn [String.append]. rewrite str_append_assoc. cbn [String.append].
  remember (S fuel) as n eqn:En. cbn [word_loop].
  change (in_word squote "") with true. change (squote === backslash) with false. change (squote === squote) with true.
  cbn [negb]. rewrite cut_at_quoted by done. subst n.
  destruct s as [|c s]; cbn [word_loop]; simpl; [done|]. simpl in Hs. subst c. done.
Qed.

Lemma scan_loop_quoted fuel w s cmds ws nested :
  quotable w = true -> at_gap s ->
  scan_loop (S fuel) (quote_word w +:+ s) cmds ws nested = scan_loop fuel s cmds (ws ++ [w]) nested.
Proof.
  intros Hq Hs. cbn [scan_loop]. unfold quote_word at 1. cbn [String.append].
  change (is_space squote) with false. change (squote === "#"%char) with false. change (special squote) with false.
  cbn [andb]. cbv iota. change (String squote ((w +:+ String squote "") +:+ s)) with (quote_word w +:+ s).
  replace (S (len (quote_word w +:+ s))) with (S (S (len ((w +:+ String squote "") +:+ s)))) by done.
  by rewrite word_loop_quoted.
Qed.

Lemma at_gap_join ws : at_gap (foldr (fun w s => String " " (quote_word w +:+ s)) "" ws).
Proof. by destruct ws. Qed.

Lemma scan_loop_all fuel ws cmds acc nested :
  (forall w, w ∈ ws -> quotable w = true) -> (2 * length ws < fuel)%nat ->
  scan_loop fuel (foldr (fun w s => String " " (quote_word w +:+ s)) "" ws) cmds acc nested =
    Ok (MkScan (flush cmds (acc ++ ws)) nested).
Proof.
  revert fuel acc. induction ws as [|w ws IH]; intros fuel acc Hq Hf; simpl in Hf.
  - destruct fuel; [lia|]. simpl. by rewrite app_nil_r.
  - destruct fuel as [|[|fuel]]; [lia|lia|]. cbn [foldr].
    remember (S fuel) as n. cbn [scan_loop]. change (is_space " ") with true. change (" "%char === lf) with false.
    cbv iota. subst n. rewrite scan_loop_quoted; [|apply Hq, list_elem_of_here|apply at_gap_join].
    rewrite IH; [by rewrite <- app_assoc| |lia]. intros x Hx. apply Hq. by apply list_elem_of_further.
Qed.

Lemma join_quoted w ws :
  join " " (map quote_word (w :: ws)) = quote_word w +:+ foldr (fun w s => String " " (quote_word w +:+ s)) "" ws.
Proof.
  revert w. induction ws as [|v ws IH]; intros w; [simpl; by rewrite str_append_nil_r|].
  cbn [map join foldr]. cbn [map] in IH. by rewrite <- IH.
Qed.

Lemma length_foldr ws : (2 * length ws <= len (foldr (fun w s => String " " (quote_word w +:+ s)) "" ws))%nat.
Proof.
  induction ws as [|w ws IH]; cbn [foldr length String.length]; [lia|].
  rewrite len_app. unfold quote_word at 1. cbn [String.length]. rewrite len_app. lia.
Qed.

(** Quoting is inverted.  A command line made of words in single quotes, whatever shell
    syntax the words hold, is read back as exactly one command with exactly those words and
    nothing nested. *)
Theorem scanShell_quoted ws :
  ws <> [] -> (forall w, w ∈ ws -> quotable w = true) ->
  scanShell (join " " (map quote_word ws)) = Ok (MkScan [ws] []).
Proof.
  destruct ws as [|w ws]; [done|]. intros _ Hq. unfold scanShell. rewrite join_quoted.
  rewrite scan_loop_quoted; [|apply Hq, list_elem_of_here|apply at_gap_join].
  pose proof (length_foldr ws). rewrite scan_loop_all; [done| |].
  - intros x Hx. apply Hq. by apply list_elem_of_further.
  - rewrite len_app. unfold quote_word at 1. cbn [String.length]. rewrite len_app. lia.
Qed.

Lemma scanShell_quoted_witness :
  scanShell (join " " (map quote_word ["echo"; "$(rm -rf /) | sh; x"; ""])) = Ok (MkScan [["echo"; "$(rm -rf /) | sh; x"; ""]] []).
Proof.
  apply scanShell_quoted; [discriminate|]. intros w Hw. rewrite !elem_of_cons in Hw.
  destruct Hw as [->|[->|[->|Hw%not_elem_of_nil]]]; [vm_compute; reflexivity..|done].
Defined.

Example scan_demo :
  scanShell (join "" ["sudo -u "; "a$(id) rm -rf /x 2>&1 | sh # gone"]) =
    Ok (MkScan [["sudo"; "-u"; "a"; "rm"; "-rf"; "/x"; "2>&1"]; ["sh"; "#"; "gone"]] ["id"]).
Proof. vm_compute. reflexivity. Qed.
