(* ===== verification/CommandPolicy.v ===== *)
(** * The command policy

    What a shell command is allowed to do ([src/src/policy/command-policy.ts]): the text the
    rules are matched against, which shows what quoting, substitutions, wrappers, pipes and
    variables would run, and the evaluation of the rules.  The host's [RegExp] is a
    parameter of the evaluation.

    The functions that look inside a command line call themselves on its tail or on the
    words of an [env -S] string; their fuel is the size of the words plus one, and
    [scannable_total] shows that it never runs out. *)

From stdpp Require Import pretty.
From S2P Require Import Prelude JsString Regex Json SafeRegex ShellScan.

(** ** Policies *)

(** [CommandDecision] src/src/types.ts:318-318 *)
Inductive CommandDecision := allow | deny | require_approval.
#[export] Instance CommandDecision_eq_dec : EqDecision CommandDecision.
Proof. solve_decision. Defined.
(** [CommandPolicyMode] src/src/types.ts:326-326 *)
Inductive Mode := denylist | allowlist.
#[export] Instance Mode_eq_dec : EqDecision Mode.
Proof. solve_decision. Defined.
(** [CommandRule] src/src/types.ts:320-324 *)
Record CommandRule := MkRule { pattern : string; r_decision : CommandDecision; r_reason : option string }.
(** [CommandPolicy] src/src/types.ts:328-331 *)
Record CommandPolicy := MkPolicy { mode : Mode; rules : list CommandRule }.

(** [ORG_FLOOR_RULES] src/src/policy/command-policy.ts:5-19 *)
Definition ORG_FLOOR_RULES : list CommandRule :=
  [ MkRule "\brm\b[^\n]*(?:-[a-zA-Z]*r|--recursive)" require_approval (Some "recursive delete");
    MkRule "\bgit\s+push\b.*(?:--force\b|(?:^|\s)-[a-zA-Z]*f\b)" require_approval (Some "force push");
    MkRule "\b(drop|truncate)\s+table\b" require_approval (Some "destructive SQL");
    MkRule "\bmkfs\b|:\(\)\s*\{" deny (Some "destructive / fork bomb");
    MkRule "\bcurl\b.*\|\s*(sh|bash)\b" require_approval (Some "pipe-to-shell") ].

(** [defaultOrgPolicy] src/src/policy/command-policy.ts:21-23 *)
Definition defaultOrgPolicy : CommandPolicy := MkPolicy denylist ORG_FLOOR_RULES.

(** [composePolicy] src/src/policy/command-policy.ts:25-32 *)
Definition composePolicy (orgFloor : CommandPolicy) (scope : option CommandPolicy) : CommandPolicy :=
  match scope with
  | None => orgFloor
  | Some scope =>
      MkPolicy (if orgFloor.(mode) === allowlist then allowlist else scope.(mode))
        (orgFloor.(rules) ++ scope.(rules))
  end.

(** ** The text the rules see *)

Definition quote_char : ascii -> bool := fun c => (c === squote) || (c === dquote).

(** [stripWrittenHeredocs] src/src/policy/command-policy.ts:89-89 *)
Definition heredoc : re :=
  let line := star (Cls (fun c => c !== lf)) in
  (Bol true ⋅ Grp 1 line ⋅ lit "<<" ⋅ opt (chr "-") ⋅ star (Cls is_space) ⋅ Grp 2 (opt (Cls quote_char))
   ⋅ Grp 3 (Cls (fun c => is_letter c || (c === "_"%char)) ⋅ star (Cls is_word)) ⋅ Bref 2 ⋅ Grp 4 line ⋅ chr lf
   ⋅ Grp 5 (lazy_star (Cls any_char)) ⋅ Bol true ⋅ star (Cls is_space) ⋅ Bref 3 ⋅ star (Cls is_space) ⋅ Eol true)%re.

(** [heredocRunsShell] src/src/policy/command-policy.ts:95-95 *)
Definition shell_call : re :=
  ((Bol false ∥ Cls (one_of "|;&") ⋅ star (Cls is_space)) ⋅ opt (star (Cls non_space) ⋅ chr "/")
   ⋅ opt (lit "ba" ∥ lit "da" ∥ chr "k" ∥ chr "z") ⋅ lit "sh"
   ⋅ Grp 1 (opt (plus (Cls is_space) ⋅ star (Cls (none_of "|;&")))))%re.
(** [heredocRunsShell] src/src/policy/command-policy.ts:96-96 *)
Definition dash_c_option : re :=
  ((Bol false ∥ Cls is_space) ⋅ chr "-" ⋅ star (Cls (fun c => (c !== "-"%char) && non_space c)) ⋅ chr "c"
   ⋅ (Cls is_space ∥ Eol false))%re.

(** [heredocRunsShell] src/src/policy/command-policy.ts:94-97 *)
Definition heredocRunsShell (commandLine : string) : bool :=
  some (fun h => negb (test dash_c_option (group 1 h ?? ""))) (match_all shell_call commandLine).

(** [stripWrittenHeredocs] src/src/policy/command-policy.ts:87-92 *)
Definition stripWrittenHeredocs (command : string) : scan string :=
  replace heredoc (fun h =>
    let line := (group 1 h ?? "") +:+ (group 4 h ?? "") in
    Ok (if str_includes line ">" && negb (heredocRunsShell line) then "" else h_text h)) command.

(** ** Inside a command *)

(** [commandStart] src/src/policy/command-policy.ts:280-280 *)
Definition assignment : re :=
  (Bol false ⋅ Cls (fun c => is_letter c || (c === "_"%char)) ⋅ star (Cls is_word) ⋅ chr "=")%re.
(** [commandStart] src/src/policy/command-policy.ts:280-280 *)
Definition shell_keywords : list string := ["if"; "then"; "elif"; "else"; "while"; "until"; "do"; "!"].
(** [commandStart] src/src/policy/command-policy.ts:281-282 *)
Definition redirect : re :=
  (Bol false ⋅ star (Cls is_digit)
   ⋅ (chr ">" ⋅ opt (chr ">") ∥ chr "<" ⋅ opt (chr "<") ∥ lit "<>" ∥ lit ">&" ∥ lit "<&"))%re.

(** [commandStart] src/src/policy/command-policy.ts:276-286
    On the words from index [i] on. *)
Fixpoint start_from (words : list string) (i : nat) : nat :=
  match words with
  | [] => i
  | word :: ws =>
      if test assignment word || includes shell_keywords word then start_from ws (S i)
      else if test (redirect ⋅ Eol false)%re word then
        match ws with [] => S (S i) | _ :: ws => start_from ws (S (S i)) end
      else if test (redirect ⋅ plus (Cls dot))%re word then start_from ws (S i)
      else i
  end.
(** [commandStart] src/src/policy/command-policy.ts:276-286 *)
Definition commandStart (words : list string) : nat := start_from words 0.

(** [optionCommand] src/src/policy/command-policy.ts:294-294
    [word.replace(/=.*/, "")]. *)
Definition option_name (word : string) : string :=
  match exec (chr "=" ⋅ star (Cls dot))%re word with
  | Some h => h_skipped h +:+ rest (h_end h)
  | None => word
  end.

(** [optionCommand] src/src/policy/command-policy.ts:288-298
    The index, among [args], of the first word that is no option. *)
Fixpoint optionCommand (args : list string) (i : nat) (valueOptions : list string) : nat :=
  match args with
  | [] => i
  | word :: ws =>
      if word === "--" then S i
      else if negb (starts_with word "-") || (word === "-") then i
      else if includes valueOptions (option_name word) && negb (str_includes word "=") then
        match ws with [] => S (S i) | _ :: ws => optionCommand ws (S (S i)) valueOptions end
      else optionCommand ws (S i) valueOptions
  end.

(** [splitStringPayload] src/src/policy/command-policy.ts:300-308 *)
Definition splitStringPayload (args : list string) (split : nat) : option string * list string :=
  let arg := args !! split ?? "" in
  let compact := starts_with arg "-S" && Nat.ltb 2 (len arg) in
  let value :=
    if str_includes arg "=" then Some (match cut_at "="%char arg with Some (_, v) => v | None => arg end)
    else if compact then Some (str_drop 2 arg)
    else args !! S split in
  (value, drop (split + (if str_includes arg "=" || compact then 1 else 2)) args).

(** [envSplitWords] src/src/policy/command-policy.ts:311-313 *)
Definition is_split_string (arg : string) : bool :=
  (arg === "-S") || starts_with arg "-S" || (arg === "--split-string") || starts_with arg "--split-string=".

(** [envSplitWords] src/src/policy/command-policy.ts:310-318 *)
Definition envSplitWords (args : list string) : scan (option (list string)) :=
  match find_index is_split_string args with
  | None => Ok None
  | Some split =>
      match splitStringPayload args split with
      | (None, _) => Ok (Some [])
      | (Some value, rest) =>
          s ← scanShell (join " " (value :: rest));
          mret (Some (head (commands s) ?? []))
      end
  end.

(** ** Pipelines *)

(** [finishSegment] src/src/policy/command-policy.ts:325-328 *)
Definition finishSegment (segment : string) (pipeline : list string) : list string :=
  let segment := trim segment in if truthy segment then pipeline ++ [segment] else pipeline.
(** [finishPipeline] src/src/policy/command-policy.ts:329-333 *)
Definition finishPipeline (segment : string) (pipeline : list string) (pipelines : list (list string))
  : list (list string) :=
  let pipeline := finishSegment segment pipeline in
  if Nat.ltb 1 (length pipeline) then pipelines ++ [pipeline] else pipelines.

(** [shellPipelines] src/src/policy/command-policy.ts:334-366
    [segment] is the text since [start]. *)
Fixpoint pipelines_from (s : string) (quote : option ascii) (segment : string) (pipeline : list string)
    (pipelines : list (list string)) : list (list string) :=
  match s with
  | "" => finishPipeline segment pipeline pipelines
  | String c t =>
      let more := String.append segment (String c "") in
      if c === backslash then
        match t with
        | "" => finishPipeline more pipeline pipelines
        | String d t => pipelines_from t quote (String.append more (String d "")) pipeline pipelines
        end
      else match quote with
      | Some q => pipelines_from t (if c === q then None else quote) more pipeline pipelines
      | None =>
          if (c === squote) || (c === dquote) || (c === backtick) then pipelines_from t (Some c) more pipeline pipelines
          else
            let single :=
              if c === "|"%char then
                match t with
                | String d t' =>
                    if d === "&"%char then pipelines_from t' None "" (finishSegment segment pipeline) pipelines
                    else pipelines_from t None "" (finishSegment segment pipeline) pipelines
                | "" => pipelines_from t None "" (finishSegment segment pipeline) pipelines
                end
              else if (c === ";"%char) || (c === lf) || (c === "&"%char) then
                pipelines_from t None "" [] (finishPipeline segment pipeline pipelines)
              else pipelines_from t None more pipeline pipelines in
            match t with
            | String d t' =>
                if ((c === "|"%char) || (c === "&"%char)) && (d === c)
                then pipelines_from t' None "" [] (finishPipeline segment pipeline pipelines)
                else single
            | "" => single
            end
      end
  end%string.

(** [shellPipelines] src/src/policy/command-policy.ts:320-367 *)
Definition shellPipelines (input : string) : list (list string) := pipelines_from input None "" [] [].

(** ** Wrappers *)

(** The last path segment: [split("/").pop()]. *)
Definition basename (word : string) : string := List.last (split_on "/" word) word.

Definition sudo_options : list string :=
  ["-u"; "--user"; "-g"; "--group"; "-h"; "--host"; "-p"; "--prompt"; "-C"; "--chdir"; "-T"; "--command-timeout";
   "-R"; "--chroot"; "-t"; "--type"].
Definition xargs_options : list string :=
  ["-a"; "--arg-file"; "-d"; "--delimiter"; "-E"; "--eof"; "-I"; "--replace"; "-L"; "--max-lines"; "-n";
   "--max-args"; "-P"; "--max-procs"; "-s"; "--max-chars"].
Definition env_options : list string := ["-u"; "--unset"; "-C"; "--chdir"; "-S"; "--split-string"].

(** The wrappers the source treats alike wherever it looks through them: their options that take
    a value, and the words they take before the command;
    [segmentConsumesShellStdin] src/src/policy/command-policy.ts:398-437 *)
Definition wrapper (executable : string) : option (list string * nat) :=
  if executable === "exec" then Some (["-a"], 0%nat)
  else if executable === "sudo" then Some (sudo_options, 0%nat)
  else if executable === "nice" then Some (["-n"; "--adjustment"], 0%nat)
  else if executable === "timeout" then Some (["-s"; "--signal"; "-k"; "--kill-after"], 1%nat)
  else if executable === "time" then Some (["-o"; "--output"; "-f"; "--format"], 0%nat)
  else if executable === "nohup" then Some ([], 0%nat)
  else if executable === "stdbuf" then Some (["-i"; "--input"; "-o"; "--output"; "-e"; "--error"], 0%nat)
  else None.

Definition shells : list string := ["bash"; "sh"; "dash"; "zsh"; "ksh"].
(** [/^-[^-]*c/]. *)
Definition dash_c : re := (Bol false ⋅ chr "-" ⋅ star (Cls (fun c => c !== "-"%char)) ⋅ chr "c")%re.

(** The words after the assignments at the head of [args]: the loops
    [while (next < args.length && /^[A-Za-z_]\w*=/.test(args[next]))]. *)
Fixpoint skip_assignments (args : list string) : list string :=
  match args with w :: ws => if test assignment w then skip_assignments ws else args | [] => [] end.

(** [segmentConsumesShellStdin] src/src/policy/command-policy.ts:376-388
    A shell reads its standard input unless its arguments name a script or a command. *)
Definition stdin_scripts : list string := ["-"; "/dev/stdin"; "/dev/fd/0"; "/proc/self/fd/0"].
(** [segmentConsumesShellStdin] src/src/policy/command-policy.ts:376-388 *)
Fixpoint shell_reads_stdin (args : list string) : bool :=
  match args with
  | [] => true
  | arg :: ws =>
      if test dash_c arg then false
      else if arg === "-s" then true
      else if includes ["-O"; "-o"; "--rcfile"; "--init-file"] arg then
        match ws with [] => true | _ :: ws => shell_reads_stdin ws end
      else if arg === "--" then match ws with [] => true | w :: _ => includes stdin_scripts w end
      else if negb (starts_with arg "-") || (arg === "-") then includes stdin_scripts arg
      else shell_reads_stdin ws
  end.

(** [segmentConsumesShellStdin] src/src/policy/command-policy.ts:369-439 *)
Fixpoint segmentConsumesShellStdin (fuel : nat) (words : list string) : scan bool :=
  match fuel with
  | O => Throw OutOfFuel
  | S fuel =>
      match drop (commandStart words) words with
      | [] => Ok false
      | executableWord :: args =>
          let executable := basename executableWord in
          if includes shells executable then Ok (shell_reads_stdin args)
          else if executable === "env" then
            split ← envSplitWords args;
            match split : option (list string) with
            | Some words => segmentConsumesShellStdin fuel words
            | None => segmentConsumesShellStdin fuel (skip_assignments (drop (optionCommand args 0 env_options) args))
            end
          else if executable === "command" then segmentConsumesShellStdin fuel (drop (optionCommand args 0 []) args)
          else match wrapper executable with
          | Some (opts, extra) => segmentConsumesShellStdin fuel (drop (optionCommand args 0 opts + extra) args)
          | None => Ok false
          end
      end
  end.

(** ** What a literal producer prints *)

(** [literalProducerPayload] src/src/policy/command-policy.ts:448-456
    The words after the options of [command]; [None] when it only describes a command.  Also
    [segmentShellPayloads], lines 683-691. *)
Fixpoint after_command (args : list string) : option (list string) :=
  match args with
  | [] => Some []
  | w :: ws =>
      if w === "--" then Some ws
      else if (w === "-v") || (w === "-V") then None
      else if w !== "-p" then Some args
      else after_command ws
  end.

(** [literalProducerPayload] src/src/policy/command-policy.ts:511-520 *)
Definition echo_flag (w : string) : bool :=
  match w with
  | String c s => (c === "-"%char) && truthy s && str_every (one_of "neE") s
  | "" => false
  end%string.
Fixpoint last_escape_flag (dec : bool) (s : string) : bool :=
  match s with
  | "" => dec
  | String c s => last_escape_flag (if c === "e"%char then true else if c === "E"%char then false else dec) s
  end%string.
(** [literalProducerPayload] src/src/policy/command-policy.ts:511-518 *)
Fixpoint echo_args (dec : bool) (args : list string) : bool * list string :=
  match args with
  | w :: ws => if echo_flag w then echo_args (last_escape_flag dec w) ws else (dec, args)
  | [] => (dec, [])
  end.

(** [literalProducerPayload] src/src/policy/command-policy.ts:525-529
    The conversions of a format, with the values that are left. *)
Fixpoint render (s : string) (vals : list string) : scan (string * list string) :=
  match s with
  | "" => Ok ("", vals)
  | String c t =>
      let plain := r ← render t vals; mret (String c (fst r), snd r) in
      if c === "%"%char then
        match t with
        | String d t' =>
            if d === "%"%char then r ← render t' vals; mret (String "%" (fst r), snd r)
            else if d === "s"%char then
              r ← render t' (tail vals); mret (String.append (head vals ?? "") (fst r), snd r)
            else if d === "b"%char then
              v ← decodeAnsiC (head vals ?? "");
              r ← render t' (tail vals); mret (String.append v (fst r), snd r)
            else plain
        | "" => plain
        end
      else plain
  end%string.

Definition nl : string := String lf "".

(** [literalProducerPayload] src/src/policy/command-policy.ts:509-530 *)
Definition printed (executable : string) (args : list string) : scan (option string) :=
  let args := match args with w :: ws => if w === "--" then ws else args | [] => [] end in
  if executable === "echo" then
    let '(dec, args) := echo_args false args in
    let payload := join " " args in
    if dec : bool then p ← decodeAnsiC payload; mret (Some p) else Ok (Some payload)
  else match args with
  | format :: vals =>
      if executable === "printf" then
        f ← decodeAnsiC format;
        r ← render f vals;
        mret (Some (join nl (fst r :: snd r ++ [join " " args])))
      else Ok None
  | [] => Ok None
  end.

(** [literalProducerPayload] src/src/policy/command-policy.ts:441-531 *)
Fixpoint literalProducerPayload (fuel : nat) (words : list string) : scan (option string) :=
  match fuel with
  | O => Throw OutOfFuel
  | S fuel =>
      match drop (commandStart words) words with
      | [] => Ok None
      | executableWord :: args =>
          let executable := basename executableWord in
          if executable === "command" then
            match after_command args with Some ws => literalProducerPayload fuel ws | None => Ok None end
          else if executable === "builtin" then
            match args with
            | w :: ws =>
                if starts_with w "-" && (w !== "--") then Ok None
                else literalProducerPayload fuel (if w === "--" then ws else args)
            | [] => literalProducerPayload fuel args
            end
          else if executable === "env" then
            split ← envSplitWords args;
            match split : option (list string) with
            | Some words => literalProducerPayload fuel words
            | None => literalProducerPayload fuel
                (skip_assignments (drop (optionCommand args 0 ["-u"; "--unset"; "-C"; "--chdir"]) args))
            end
          else match wrapper executable with
          | Some (opts, extra) => literalProducerPayload fuel (drop (optionCommand args 0 opts + extra) args)
          | None => printed executable args
          end
      end
  end.

(** ** Payloads *)

(** [Array.prototype.flatMap] over a function that may throw. *)
Fixpoint flat_mapM {A B} (f : A -> scan (list B)) (l : list A) : scan (list B) :=
  match l with [] => Ok [] | x :: l => y ← f x; z ← flat_mapM f l; mret (y ++ z) end.

Definition words_fuel (words : list string) : nat := S (size words).

(** [pipedShellPayloads] src/src/policy/command-policy.ts:536-544
    One stage of a pipeline, [prev] being the stage before it. *)
Definition piped_payload (prev stage : string) : scan (list string) :=
  s ← scanShell stage;
  match head (commands s) with
  | None => Ok []
  | Some consumer =>
      reads ← segmentConsumesShellStdin (words_fuel consumer) consumer;
      if negb reads then Ok []
      else
        p ← scanShell prev;
        match last (commands p) with
        | None => Ok []
        | Some producer =>
            payload ← literalProducerPayload (words_fuel producer) producer;
            mret (match if_truthy payload with Some p => [p] | None => [] end)
        end
  end.
(** [pipedShellPayloads] src/src/policy/command-policy.ts:535-546 *)
Fixpoint pipeline_payloads (pipeline : list string) : scan (list string) :=
  match pipeline with
  | prev :: (stage :: _) as rest =>
      y ← piped_payload prev stage; z ← pipeline_payloads rest; mret (y ++ z)
  | _ => Ok []
  end.
(** [pipedShellPayloads] src/src/policy/command-policy.ts:533-547 *)
Definition pipedShellPayloads (input : string) : scan (list string) :=
  flat_mapM pipeline_payloads (shellPipelines input).

(** [hereStringShellPayloads] src/src/policy/command-policy.ts:551-576 *)
Fixpoint space_here_strings (s : string) (quote : option ascii) : string :=
  match s with
  | "" => ""
  | String c t =>
      if c === backslash then
        match t with "" => String c "" | String d t => String c (String d (space_here_strings t quote)) end
      else match quote with
      | Some q => String c (space_here_strings t (if c === q then None else quote))
      | None =>
          if (c === squote) || (c === dquote) || (c === backtick) then String c (space_here_strings t (Some c))
          else match t with
          | String d (String e t') =>
              if (c === "<"%char) && (d === "<"%char) && (e === "<"%char)
              then String.append " <<< " (space_here_strings t' None)
              else String c (space_here_strings t None)
          | _ => String c (space_here_strings t None)
          end
      end
  end%string.

(** [hereStringShellPayloads] src/src/policy/command-policy.ts:577-582 *)
Definition here_string_payload (words : list string) : scan (list string) :=
  match find_index (fun w => w === "<<<") words with
  | None | Some O => Ok []
  | Some redirect =>
      reads ← segmentConsumesShellStdin (words_fuel (take redirect words)) (take redirect words);
      mret (if reads : bool then match if_truthy (words !! S redirect) with Some p => [p] | None => [] end else [])
  end.
(** [hereStringShellPayloads] src/src/policy/command-policy.ts:549-584 *)
Definition hereStringShellPayloads (input : string) : scan (list string) :=
  s ← scanShell (space_here_strings input None);
  flat_mapM here_string_payload (commands s).

(** ** Variables *)

Definition ident : re := (Cls (fun c => is_letter c || (c === "_"%char)) ⋅ star (Cls is_word))%re.
(** [simpleVariablePayloads] src/src/policy/command-policy.ts:638-638 *)
Definition simple_assignment : re :=
  (Bol false ⋅ Grp 1 ident ⋅ chr "=" ⋅ Grp 2 (plus (Cls (fun c => is_word c || one_of "./-" c))) ⋅ Eol false)%re.
(** [simpleVariablePayloads] src/src/policy/command-policy.ts:645-645 *)
Definition variable_word : re :=
  (Bol false ⋅ chr "$" ⋅ (chr "{" ⋅ Grp 1 ident ⋅ chr "}" ∥ Grp 2 ident) ⋅ Eol false)%re.

(** [executableIndex] src/src/policy/command-policy.ts:589-633 *)
Fixpoint executableIndex (fuel : nat) (words : list string) (offset : nat) : option (option nat) :=
  match fuel with
  | O => None
  | S fuel =>
      let start := commandStart words in
      match drop start words with
      | [] => Some None
      | executableWord :: args =>
          let executable := basename executableWord in
          let next :=
            if executable === "command" then Some (optionCommand args 0 [])
            else if executable === "env" then
              let next := optionCommand args 0 env_options in
              Some (next + (length (drop next args) - length (skip_assignments (drop next args))))%nat
            else match wrapper executable with
            | Some (opts, extra) => Some (optionCommand args 0 opts + extra)%nat
            | None => None
            end in
          match next with
          | None => Some (Some (offset + start)%nat)
          | Some next => executableIndex fuel (drop next args) (offset + start + 1 + next)%nat
          end
      end
  end.

(** [simpleVariablePayloads] src/src/policy/command-policy.ts:636-642 *)
Definition record_assignments (words : list string) (vals : jsmap string string) : jsmap string string :=
  fold_left (fun vals word =>
    match exec simple_assignment word with
    | Some h => <[group 1 h ?? "" := group 2 h ?? ""]> vals
    | None => vals
    end) words vals.

(** [simpleVariablePayloads] src/src/policy/command-policy.ts:643-647 *)
Definition variable_payload (words : list string) (vals : jsmap string string) : scan (list string) :=
  match executableIndex (words_fuel words) words 0 with
  | None => Throw OutOfFuel
  | Some None => Ok []
  | Some (Some index) =>
      let m := exec variable_word (words !! index ?? "") in
      let name := match m ≫= group 1 with Some n => n | None => (m ≫= group 2) ?? "" end in
      Ok (match if_truthy (vals !! name) with
          | Some value => [join " " (take index words ++ value :: drop (S index) words)]
          | None => []
          end)
  end.

(** [simpleVariablePayloads] src/src/policy/command-policy.ts:634-649 *)
Fixpoint variable_payloads (cmds : list (list string)) (vals : jsmap string string) : scan (list string) :=
  match cmds with
  | [] => Ok []
  | words :: cmds =>
      if Nat.leb (length words) (commandStart words) then variable_payloads cmds (record_assignments words vals)
      else y ← variable_payload words vals; z ← variable_payloads cmds vals; mret (y ++ z)
  end.

(** [simpleVariablePayloads] src/src/policy/command-policy.ts:586-650 *)
Definition simpleVariablePayloads (input : string) : scan (list string) :=
  s ← scanShell input; variable_payloads (commands s) ∅.

(** ** Wrapped shells *)

(** [segmentShellPayloads] src/src/policy/command-policy.ts:659-667 *)
Fixpoint shell_payload (args : list string) : list string :=
  match args with
  | [] => []
  | w :: ws =>
      if (w === "--") || negb (starts_with w "-") then []
      else if includes ["-O"; "-o"; "--rcfile"; "--init-file"] w then
        match ws with [] => [] | _ :: ws => shell_payload ws end
      else if test dash_c w then match ws with [] => [] | p :: _ => [p] end
      else shell_payload ws
  end.

(** [segmentShellPayloads] src/src/policy/command-policy.ts:652-756 *)
Fixpoint segmentShellPayloads (fuel : nat) (words : list string) : scan (list string) :=
  match fuel with
  | O => Throw OutOfFuel
  | S fuel =>
      match drop (commandStart words) words with
      | [] => Ok []
      | executableWord :: args =>
          let executable := basename executableWord in
          if includes shells executable then Ok (shell_payload args)
          else if executable === "eval" then Ok (match args with [] => [] | _ => [join " " args] end)
          else if executable === "env" then
            match find_index is_split_string args with
            | Some split =>
                Ok (match splitStringPayload args split with
                    | (None, _) => []
                    | (Some value, rest) => [join " " (value :: rest)]
                    end)
            | None => segmentShellPayloads fuel (skip_assignments (drop (optionCommand args 0 env_options) args))
            end
          else if executable === "command" then
            match after_command args with Some ws => segmentShellPayloads fuel ws | None => Ok [] end
          else if executable === "coproc" then segmentShellPayloads fuel args
          else if executable === "xargs" then segmentShellPayloads fuel (drop (optionCommand args 0 xargs_options) args)
          else match wrapper executable with
          | Some (opts, extra) => segmentShellPayloads fuel (drop (optionCommand args 0 opts + extra) args)
          | None => Ok []
          end
      end
  end.

(** [executedShellPayloads] src/src/policy/command-policy.ts:758-767 *)
Definition executedShellPayloads (input : string) : scan (list string) :=
  s ← scanShell input;
  a ← flat_mapM (fun words => segmentShellPayloads (words_fuel words) words) (commands s);
  b ← pipedShellPayloads input;
  c ← hereStringShellPayloads input;
  d ← simpleVariablePayloads input;
  mret (nested s ++ a ++ b ++ c ++ d).

(** ** The scannable text *)

(** [m.slice(1, -1)]. *)
Definition inner (m : string) : string := str_take (len m - 2) (str_drop 1 m).

(** [scannableCommandAtDepth] src/src/policy/command-policy.ts:73-77 *)
Definition double_quoted : re :=
  (chr dquote ⋅ star (Cls (fun c => (c !== dquote) && (c !== backslash)) ∥ chr backslash ⋅ Cls dot) ⋅ chr dquote)%re.
Definition substitution : re :=
  (lit "$(" ⋅ star (Cls (fun c => c !== ")"%char)) ⋅ chr ")"
   ∥ chr backtick ⋅ star (Cls (fun c => c !== backtick)) ⋅ chr backtick)%re.
(** [scannableCommandAtDepth] src/src/policy/command-policy.ts:73-77 *)
Definition scan_double (h : hit) : scan string :=
  match match_all substitution (h_text h) with
  | [] => Ok (unquoteBareWord (inner (h_text h)) ?? String dquote (String dquote ""))
  | subs => Ok (join " " (map h_text subs))
  end.

(** [scannableCommandAtDepth] src/src/policy/command-policy.ts:78-79 *)
Definition ansi_quoted : re :=
  (chr "$" ⋅ chr squote ⋅ Grp 1 (star (Cls (fun c => (c !== squote) && (c !== backslash)) ∥ chr backslash ⋅ Cls dot))
   ⋅ chr squote)%re.
Definition single_quoted : re := (chr squote ⋅ star (Cls (fun c => c !== squote)) ⋅ chr squote)%re.
Definition empty_quotes : string := String squote (String squote "").

(** [scannableCommandAtDepth] src/src/policy/command-policy.ts:80-80 *)
Definition escaped_char : re := (chr backslash ⋅ Grp 1 (Cls bare_char))%re.

(** [scannableCommandAtDepth] src/src/policy/command-policy.ts:72-80 *)
Definition scan_base (stripped : string) : scan string :=
  a ← replace double_quoted scan_double stripped;
  b ← replace ansi_quoted (fun h => d ← decodeAnsiC (group 1 h ?? ""); mret (unquoteBareWord d ?? empty_quotes)) a;
  c ← replace single_quoted (fun h => Ok (unquoteBareWord (inner (h_text h)) ?? empty_quotes)) b;
  replace escaped_char (fun h => Ok (group 1 h ?? "")) c.

(** [scannableCommandAtDepth] src/src/policy/command-policy.ts:70-85
    [k] is how many more levels of payloads are looked at: eight less the depth. *)
Fixpoint scannableCommandAtDepth (k : nat) (command : string) : scan string :=
  stripped ← stripWrittenHeredocs command;
  base ← scan_base stripped;
  match k with
  | O => Ok base
  | S k =>
      executed ← executedShellPayloads stripped;
      match executed with
      | [] => Ok base
      | _ => parts ← flat_mapM (fun payload => t ← scannableCommandAtDepth k payload; mret [t]) executed;
             mret (join nl (base :: parts))
      end
  end.

(** [scannableCommand] src/src/policy/command-policy.ts:66-68 *)
Definition scannableCommand (command : string) : scan string := scannableCommandAtDepth 8 command.

(** ** Evaluation *)

(** [CommandEvaluation] src/src/policy/command-policy.ts:116-121 *)
Record CommandEvaluation := MkEval {
  decision : CommandDecision;
  reason : option string;
  matched : option string;
  approvalKey : option string;
}.

Section evaluation.
(** The host's [RegExp]: a pattern and flags compile to a matcher, or throw. *)
Variable newRegExp : string -> string -> result string (string -> option string).

(** [parseCommandPolicy] src/src/policy/command-policy.ts:44-62
    One rule, [i] being its position. *)
Definition parse_rule (i : nat) (raw : Json) : result string CommandRule :=
  let at_ s := "rules[" +:+ pretty (Z.of_nat i) +:+ "]" +:+ s in
  if negb (is_object raw) then Throw (at_ " must be an object")
  else match if_truthy (str_field "pattern" raw) with
  | None => Throw (at_ ".pattern must be a non-empty string")
  | Some pattern =>
      match compileSafeRegex newRegExp pattern "i" with
      | Throw e => Throw (at_ (".pattern is not a valid regex: " +:+ e))
      | Ok _ =>
          match (match str_field "decision" raw with
                 | Some d => if d === "allow" then Some allow else if d === "deny" then Some deny
                             else if d === "require_approval" then Some require_approval else None
                 | None => None
                 end) with
          | None => Throw (at_ (".decision must be " +:+ dq +:+ "allow" +:+ dq +:+ ", " +:+ dq +:+ "deny" +:+ dq
                                +:+ ", or " +:+ dq +:+ "require_approval" +:+ dq))
          | Some d =>
              match field "reason" raw with
              | None => Ok (MkRule pattern d None)
              | Some (JStr r) => Ok (MkRule pattern d (Some r))
              | Some _ => Throw (at_ ".reason must be a string")
              end
          end
      end
  end.

(** [parseCommandPolicy] src/src/policy/command-policy.ts:43-62 *)
Fixpoint parse_rules (i : nat) (l : list Json) : result string (list CommandRule) :=
  match l with
  | [] => Ok []
  | raw :: l => r ← parse_rule i raw; rs ← parse_rules (S i) l; mret (r :: rs)
  end.

(** [parseCommandPolicy] src/src/policy/command-policy.ts:34-64 *)
Definition parseCommandPolicy (input : Json) : result string CommandPolicy :=
  if negb (is_object input) || is_array input then Throw "command policy must be an object"
  else
    let bad_mode := Throw ("mode must be " +:+ dq +:+ "denylist" +:+ dq +:+ " or " +:+ dq +:+ "allowlist" +:+ dq) in
    match str_field "mode" input with
    | None => bad_mode
    | Some m =>
        match (if m === "denylist" then Some denylist else if m === "allowlist" then Some allowlist else None) with
        | None => bad_mode
        | Some mode =>
            match field "rules" input ≫= as_array with
            | None => Throw "rules must be an array"
            | Some l => rs ← parse_rules 0 l; mret (MkPolicy mode rs)
            end
        end
    end.

(** [firstMatch] src/src/policy/command-policy.ts:769-791 *)
Fixpoint firstMatch (scannable : string) (rules : list CommandRule) : option CommandEvaluation :=
  match rules with
  | [] => None
  | rule :: rules =>
      match compileSafeRegex newRegExp rule.(pattern) "i" with
      | Throw _ => firstMatch scannable rules
      | Ok re =>
          match re scannable with
          | Some hit => Some (MkEval rule.(r_decision) (if_truthy rule.(r_reason)) (Some hit) (Some rule.(pattern)))
          | None => firstMatch scannable rules
          end
      end
  end.

Definition not_in_allowlist : CommandEvaluation := MkEval deny (Some "not in allowlist") None None.
Definition allowed : CommandEvaluation := MkEval allow None None None.

(** [evaluateCommand] src/src/policy/command-policy.ts:793-800 *)
Definition evaluateCommand (command : string) (policy : CommandPolicy) : scan CommandEvaluation :=
  scannable ← scannableCommand command;
  mret (match firstMatch scannable policy.(rules) with
        | Some m => m
        | None => if policy.(mode) === allowlist then not_in_allowlist else allowed
        end).

(** [evaluateCommandWithLayer] src/src/policy/command-policy.ts:802-816 *)
Definition evaluateCommandWithLayer (command : string) (policy : CommandPolicy) (layerRules : list CommandRule)
  : scan CommandEvaluation :=
  scannable ← scannableCommand command;
  mret (match firstMatch scannable policy.(rules) with
        | Some m => m
        | None =>
            if policy.(mode) === allowlist then not_in_allowlist
            else match firstMatch scannable layerRules with Some m => m | None => allowed end
        end).
End evaluation.

(** ** The text is always found *)

Lemma size_cons w ws : size (w :: ws) = (S (len w) + size ws)%nat.
Proof. done. Qed.
Lemma size_drop n ws : (size (drop n ws) <= size ws)%nat.
Proof. rewrite <- (take_drop n ws) at 2. rewrite size_app. lia. Qed.
Lemma size_take n ws : (size (take n ws) <= size ws)%nat.
Proof. rewrite <- (take_drop n ws) at 2. rewrite size_app. lia. Qed.
Lemma size_skip_assignments args : (size (skip_assignments args) <= size args)%nat.
Proof. induction args as [|w ws IH]; simpl; [done|]. destruct (test assignment w); rewrite ?size_cons in *; lia. Qed.
Lemma length_join_words l : l <> [] -> S (len (join " " l)) = size l.
Proof.
  induction l as [|w [|v l] IH]; intros Hl; [done|unfold size; simpl; lia|].
  change (join " " (w :: v :: l)) with (w +:+ " " +:+ join " " (v :: l)).
  rewrite len_app, size_cons. change (len (" " +:+ join " " (v :: l))) with (S (len (join " " (v :: l)))).
  rewrite IH by done. lia.
Qed.

Lemma len_str_drop n s : (len (str_drop n s) <= len s)%nat.
Proof. revert s. induction n as [|n IH]; intros [|c s]; simpl; try lia. specialize (IH s). lia. Qed.

Lemma split_payload_size args split value rest :
  splitStringPayload args split = (Some value, rest) -> (split < length args)%nat ->
  (size (value :: rest) <= size args)%nat.
Proof.
  intros H Hlt. destruct (lookup_lt_is_Some_2 _ _ Hlt) as [arg Harg].
  assert (Hsz : (S (len arg) + size (drop (S split) args) <= size args)%nat).
  { rewrite <- (take_drop_middle args split arg Harg) at 2. rewrite size_app, size_cons. lia. }
  unfold splitStringPayload in H. rewrite Harg in H. cbv zeta in H. change (Some arg ?? "") with arg in H.
  destruct (str_includes arg "=") eqn:Ee.
  - cbn [orb] in H. injection H as <- <-. rewrite size_cons, Nat.add_1_r.
    assert (len (match cut_at "=" arg with Some (_, v) => v | None => arg end) <= len arg)%nat.
    { destruct (cut_at "=" arg) as [[a v]|] eqn:Ec; [apply cut_at_length in Ec; lia|done]. }
    lia.
  - destruct (starts_with arg "-S" && Nat.ltb 2 (len arg)); cbn [orb] in H.
    + injection H as <- <-. rewrite size_cons, Nat.add_1_r. pose proof (len_str_drop 2 arg). lia.
    + injection H as Hv <-. rewrite size_cons. replace (split + 2)%nat with (S (S split)) by lia.
      assert (Hd : drop (S split) args = value :: drop (S (S split)) args) by (by apply drop_S).
      rewrite Hd, size_cons in Hsz. lia.
Qed.

Lemma find_index_lt {A} (p : A -> bool) l n : find_index p l = Some n -> (n < length l)%nat.
Proof.
  revert n. induction l as [|x l IH]; intros n; simpl; [done|].
  destruct (p x); [intros [= <-]; lia|].
  destruct (find_index p l) as [m|]; simpl; [|done]. intros [= <-]. specialize (IH m eq_refl). lia.
Qed.

Lemma scanShell_fueled input : fueled (scanShell input).
Proof. pose proof (scanShell_size input) as H. destruct (scanShell input) as [r|e]; [done|]. by rewrite H. Qed.
Lemma scanShell_bound input r c : scanShell input = Ok r -> c ∈ commands r -> (size c <= S (len input))%nat.
Proof. intros E. pose proof (scanShell_size input) as H. rewrite E in H. apply H. Qed.

Lemma envSplit_fueled args : fueled (envSplitWords args).
Proof.
  unfold envSplitWords. destruct (find_index _ _); [|done].
  destruct (splitStringPayload _ _) as [[v|] r]; [|done].
  apply fueled_bind; [apply scanShell_fueled|done].
Qed.
Lemma envSplit_size args ws : envSplitWords args = Ok (Some ws) -> (size ws <= size args)%nat.
Proof.
  unfold envSplitWords. destruct (find_index is_split_string args) as [split|] eqn:Ef; [|done].
  destruct (splitStringPayload args split) as [[v|] r] eqn:Es; [|intros [= <-]; unfold size; simpl; lia].
  intros (sc & Hsc & H)%bind_inv. injection H as <-.
  apply find_index_lt in Ef. pose proof (split_payload_size _ _ _ _ Es Ef).
  destruct (commands sc) as [|c cs] eqn:Ec; [unfold size at 1; simpl; lia|].
  pose proof (scanShell_bound _ _ c Hsc ltac:(rewrite Ec; apply list_elem_of_here)).
  rewrite length_join_words in H0 by done. simpl. lia.
Qed.

(** The arguments of the command at the head of some words are smaller than the words. *)
Lemma args_size words e args : drop (commandStart words) words = e :: args -> (size args < size words)%nat.
Proof.
  intros H. pose proof (size_drop (commandStart words) words) as Hd. rewrite H, size_cons in Hd. lia.
Qed.

Lemma consumes_total fuel words : (size words < fuel)%nat -> fueled (segmentConsumesShellStdin fuel words).
Proof.
  revert words. induction fuel as [|fuel IH]; intros words Hf; [lia|]. cbn [segmentConsumesShellStdin].
  destruct (drop (commandStart words) words) as [|e args] eqn:Ed; [done|]. apply args_size in Ed.
  assert (Hdrop : forall n, fueled (segmentConsumesShellStdin fuel (drop n args))).
  { intros n. apply IH. pose proof (size_drop n args). lia. }
  destruct (includes shells _); [done|]. destruct (_ === "env").
  - apply fueled_bind; [apply envSplit_fueled|]. intros [ws|] Hw.
    + apply envSplit_size in Hw. apply IH. lia.
    + apply IH. pose proof (size_skip_assignments (drop (optionCommand args 0 env_options) args)).
      pose proof (size_drop (optionCommand args 0 env_options) args). lia.
  - destruct (_ === "command"); [apply Hdrop|]. destruct (wrapper _) as [[o n]|]; [apply Hdrop|done].
Qed.

Lemma after_command_size args ws : after_command args = Some ws -> (size ws <= size args)%nat.
Proof.
  revert ws. induction args as [|w args IH]; intros ws; simpl; [by intros [= <-]|].
  destruct (_ === _); [intros [= <-]; rewrite size_cons; lia|].
  destruct (_ || _); [done|]. destruct (negb _); [by intros [= <-]|]. intros ?%IH. rewrite size_cons. lia.
Qed.

Lemma render_fueled s vals : fueled (render s vals).
Proof.
  assert (Hgen : forall n s vals, (len s <= n)%nat -> fueled (render s vals)); [|by eapply Hgen].
  clear. induction n as [|n IH]; intros s vals Hl; (destruct s as [|c t]; [done|]); simpl in Hl; [lia|].
  cbn [render].
  assert (Hp : fueled (r ← render t vals; mret (String c r.1, r.2))) by (apply fueled_bind; [apply IH; lia|done]).
  destruct (c === "%"%char); [|exact Hp]. destruct t as [|d t']; [exact Hp|]. simpl in Hl.
  repeat (match goal with |- fueled (if ?b then _ else _) => destruct b end); try exact Hp;
    repeat (apply fueled_bind; [first [apply decode_total|apply IH; lia]|intros ? _]); try done.
Qed.

Lemma printed_fueled e args : fueled (printed e args).
Proof.
  unfold printed. destruct (e === "echo").
  - destruct (echo_args _ _) as [[] l]; [apply fueled_bind; [apply decode_total|done]|done].
  - destruct (match args with [] => [] | _ => _ end) as [|f vals]; [done|]. destruct (e === "printf"); [|done].
    apply fueled_bind; [apply decode_total|]. intros u _. apply fueled_bind; [apply render_fueled|done].
Qed.

Lemma producer_total fuel words : (size words < fuel)%nat -> fueled (literalProducerPayload fuel words).
Proof.
  revert words. induction fuel as [|fuel IH]; intros words Hf; [lia|]. cbn [literalProducerPayload].
  destruct (drop (commandStart words) words) as [|e args] eqn:Ed; [done|]. apply args_size in Ed.
  destruct (_ === "command").
  { destruct (after_command args) eqn:Ea; [|done]. apply after_command_size in Ea. apply IH. lia. }
  destruct (_ === "builtin").
  { destruct args as [|w ws]; [apply IH; lia|]. destruct (_ && _); [done|]. apply IH.
    rewrite size_cons in Ed. destruct (w === "--"); rewrite ?size_cons; lia. }
  destruct (_ === "env").
  - apply fueled_bind; [apply envSplit_fueled|]. intros [ws|] Hw.
    + apply envSplit_size in Hw. apply IH. lia.
    + apply IH. pose proof (size_skip_assignments (drop (optionCommand args 0 ["-u"; "--unset"; "-C"; "--chdir"]) args)).
      pose proof (size_drop (optionCommand args 0 ["-u"; "--unset"; "-C"; "--chdir"]) args). lia.
  - destruct (wrapper _) as [[o n]|]; [|apply printed_fueled].
    apply IH. pose proof (size_drop (optionCommand args 0 o + n) args). lia.
Qed.

Lemma segment_total fuel words : (size words < fuel)%nat -> fueled (segmentShellPayloads fuel words).
Proof.
  revert words. induction fuel as [|fuel IH]; intros words Hf; [lia|]. cbn [segmentShellPayloads].
  destruct (drop (commandStart words) words) as [|e args] eqn:Ed; [done|]. apply args_size in Ed.
  assert (Hdrop : forall n, fueled (segmentShellPayloads fuel (drop n args))).
  { intros n. apply IH. pose proof (size_drop n args). lia. }
  destruct (includes shells _); [done|]. destruct (_ === "eval"); [by destruct args|].
  destruct (_ === "env").
  { destruct (find_index _ args); [by destruct (splitStringPayload _ _) as [[] ?]|].
    apply IH. pose proof (size_skip_assignments (drop (optionCommand args 0 env_options) args)).
    pose proof (size_drop (optionCommand args 0 env_options) args). lia. }
  destruct (_ === "command").
  { destruct (after_command args) eqn:Ea; [|done]. apply after_command_size in Ea. apply IH. lia. }
  destruct (_ === "coproc"); [apply IH; lia|]. destruct (_ === "xargs"); [apply Hdrop|].
  destruct (wrapper _) as [[o n]|]; [apply Hdrop|done].
Qed.

Lemma executableIndex_total fuel words offset : (size words < fuel)%nat -> is_Some (executableIndex fuel words offset).
Proof.
  revert words offset. induction fuel as [|fuel IH]; intros words offset Hf; [lia|]. cbn [executableIndex].
  destruct (drop (commandStart words) words) as [|e args] eqn:Ed; [eauto|]. apply args_size in Ed.
  assert (Hdrop : forall n off, is_Some (executableIndex fuel (drop n args) off)).
  { intros n off. apply IH. pose proof (size_drop n args). lia. }
  cbv zeta. destruct (if _ === "command" then _ else _); [apply Hdrop|eauto].
Qed.

Lemma flat_mapM_fueled {A B} (f : A -> scan (list B)) l : (forall x, fueled (f x)) -> fueled (flat_mapM f l).
Proof.
  intros Hf. induction l as [|x l IH]; cbn [flat_mapM]; [done|].
  apply fueled_bind; [apply Hf|]. intros y _. by apply fueled_bind.
Qed.

Lemma piped_fueled prev stage : fueled (piped_payload prev stage).
Proof.
  unfold piped_payload, words_fuel. apply fueled_bind; [apply scanShell_fueled|]. intros s _.
  destruct (head (commands s)); [|done]. apply fueled_bind; [apply consumes_total; lia|]. intros reads _.
  destruct (negb reads); [done|]. apply fueled_bind; [apply scanShell_fueled|]. intros p _.
  destruct (last (commands p)); [|done]. apply fueled_bind; [apply producer_total; lia|done].
Qed.

Lemma pipeline_fueled pipeline : fueled (pipeline_payloads pipeline).
Proof.
  induction pipeline as [|p l IH]; [done|]. cbn [pipeline_payloads]. destruct l as [|q l]; [done|].
  apply fueled_bind; [apply piped_fueled|]. intros y _. by apply fueled_bind.
Qed.

Lemma variables_fueled cmds vals : fueled (variable_payloads cmds vals).
Proof.
  revert vals. induction cmds as [|ws cmds IH]; intros vals; cbn [variable_payloads]; [done|].
  destruct (Nat.leb _ _); [done|]. apply fueled_bind; [|intros y _; by apply fueled_bind].
  unfold variable_payload, words_fuel. destruct (executableIndex_total (S (size ws)) ws 0) as [r ->]; [lia|].
  by destruct r.
Qed.

Lemma executed_fueled input : fueled (executedShellPayloads input).
Proof.
  unfold executedShellPayloads, pipedShellPayloads, hereStringShellPayloads, simpleVariablePayloads, words_fuel.
  apply fueled_bind; [apply scanShell_fueled|]. intros s _.
  apply fueled_bind; [apply flat_mapM_fueled; intros; apply segment_total; lia|]. intros a _.
  apply fueled_bind; [apply flat_mapM_fueled, pipeline_fueled|]. intros b _.
  apply fueled_bind.
  { apply fueled_bind; [apply scanShell_fueled|]. intros t _. apply flat_mapM_fueled. intros ws.
    unfold here_string_payload, words_fuel. destruct (find_index _ _) as [[|n]|]; [done| |done].
    apply fueled_bind; [apply consumes_total; lia|done]. }
  intros c _. apply fueled_bind; [|done]. apply fueled_bind; [apply scanShell_fueled|]. intros t _. apply variables_fueled.
Qed.

Lemma replace_fueled r f s : (forall h, fueled (f h)) -> fueled (replace r f s).
Proof. intros. apply replace_total; [done|lia]. Qed.

Lemma base_fueled s : fueled (scan_base s).
Proof.
  unfold scan_base.
  apply fueled_bind; [apply replace_fueled; intros h; unfold scan_double; by destruct (match_all _ _)|]. intros a _.
  apply fueled_bind.
  { apply replace_fueled. intros h. apply fueled_bind; [apply decode_total|done]. }
  intros b _. apply fueled_bind; [by apply replace_fueled|]. intros c _. by apply replace_fueled.
Qed.

Lemma scannable_fueled k command : fueled (scannableCommandAtDepth k command).
Proof.
  revert command. induction k as [|k IH]; intros command; cbn [scannableCommandAtDepth].
  - apply fueled_bind; [by apply replace_fueled|]. intros st _. apply fueled_bind; [apply base_fueled|done].
  - apply fueled_bind; [by apply replace_fueled|]. intros st _. apply fueled_bind; [apply base_fueled|]. intros b _.
    apply fueled_bind; [apply executed_fueled|]. intros [|p ps] _; [done|].
    apply fueled_bind; [|done]. apply flat_mapM_fueled. intros x. apply fueled_bind; [apply IH|done].
Qed.

(** The gate always answers.  Whatever the command, the policy and the host's [RegExp], the
    evaluation ends with a decision, or throws the range error of an escape that names no
    code point; the recursion into payloads and wrappers never runs out. *)
Theorem evaluateCommand_total newRegExp command policy layer :
  match evaluateCommand newRegExp command policy with Ok _ => True | Throw e => e = RangeError end /\
  match evaluateCommandWithLayer newRegExp command policy layer with Ok _ => True | Throw e => e = RangeError end.
Proof.
  pose proof (scannable_fueled 8 command) as H. unfold evaluateCommand, evaluateCommandWithLayer, scannableCommand.
  destruct (scannableCommandAtDepth 8 command) as [t|[]]; simpl; [done|done|by destruct H].
Qed.

(** ** Nothing a command would run is hidden from the rules *)

(** [runs k command text]: [text] is what [command] itself, or a payload nested in it at most
    [k] levels deep, looks like to the rules. *)
Inductive runs : nat -> string -> string -> Prop :=
| runs_self k command stripped base :
    stripWrittenHeredocs command = Ok stripped -> scan_base stripped = Ok base -> runs k command base
| runs_payload k command stripped executed payload text :
    stripWrittenHeredocs command = Ok stripped -> executedShellPayloads stripped = Ok executed ->
    payload ∈ executed -> runs k payload text -> runs (S k) command text.

Lemma join_app a b : a <> [] -> b <> [] -> join nl (a ++ b) = join nl a +:+ nl +:+ join nl b.
Proof.
  intros Ha Hb. induction a as [|x a IH]; [done|]. destruct a as [|y a]; [by destruct b|].
  change (join nl ((x :: y :: a) ++ b)) with (x +:+ nl +:+ join nl ((y :: a) ++ b)).
  change (join nl (x :: y :: a)) with (x +:+ nl +:+ join nl (y :: a)).
  rewrite IH by done. by rewrite !str_append_assoc.
Qed.

(** Replacing one of the joined pieces by its own pieces. *)
Lemma join_flatten l1 m l2 : m <> [] -> join nl (l1 ++ join nl m :: l2) = join nl (l1 ++ m ++ l2).
Proof.
  intros Hm. assert (H : join nl (join nl m :: l2) = join nl (m ++ l2)).
  { destruct l2 as [|x l2]; [by rewrite app_nil_r|]. by rewrite (join_app m (x :: l2)). }
  destruct l1 as [|x l1]; [exact H|].
  rewrite !(join_app (x :: l1)); [by rewrite H|done|by destruct m|done|done].
Qed.

Lemma flat_mapM_elem {A B} (f : A -> scan (list B)) l x r :
  flat_mapM f l = Ok r -> x ∈ l -> exists r1 y r2, r = r1 ++ y ++ r2 /\ f x = Ok y.
Proof.
  revert r. induction l as [|z l IH]; intros r; [by intros _ ?%not_elem_of_nil|].
  cbn [flat_mapM]. intros (y & Hy & (w & Hw & H)%bind_inv)%bind_inv. injection H as <-.
  intros [->|Hx]%elem_of_cons; [by exists [], y, w|].
  destruct (IH _ Hw Hx) as (r1 & y' & r2 & -> & ?). exists (y ++ r1), y', r2. by rewrite <- app_assoc.
Qed.

Lemma scannable_unfold k command text :
  scannableCommandAtDepth k command = Ok text ->
  exists stripped base, stripWrittenHeredocs command = Ok stripped /\ scan_base stripped = Ok base /\
    (text = base /\ (k <> O -> executedShellPayloads stripped = Ok []) \/
     exists k' executed parts, k = S k' /\ executedShellPayloads stripped = Ok executed /\
       flat_mapM (fun p => t ← scannableCommandAtDepth k' p; mret [t]) executed = Ok parts /\
       text = join nl (base :: parts)).
Proof.
  destruct k as [|k]; cbn [scannableCommandAtDepth]; intros (st & Hs & (b & Hb & H)%bind_inv)%bind_inv; exists st, b.
  - injection H as <-. split; [done|]. split; [done|]. left. by split.
  - apply bind_inv in H as (ex & He & H). split; [done|]. split; [done|].
    destruct ex as [|p ps]; [injection H as <-; auto|].
    apply bind_inv in H as (parts & Hp & H). injection H as <-. right. by exists k, (p :: ps), parts.
Qed.


(** ** Wrappers are transparent *)

Lemma test_unfold_start w ws :
  test assignment w = true -> drop (commandStart (w :: ws)) (w :: ws) = drop (commandStart ws) ws.
Proof.
  intros Hw. assert (Hshift : forall l i, start_from l (S i) = S (start_from l i)).
  { fix go 1. intros [|v [|u l]] i; simpl; [done| |]; destruct (test assignment v || _); auto;
      repeat case_match; auto. }
  unfold commandStart. cbn [start_from]. rewrite Hw. simpl. by rewrite Hshift.
Qed.

Lemma basename_path dir exe :
  str_every (fun d => d !== "/"%char) exe = true -> basename (dir +:+ String "/" exe) = exe.
Proof. intros He. unfold basename. rewrite split_on_last, (split_on_none _ exe He). apply last_last. Qed.
Lemma basename_plain exe : str_every (fun d => d !== "/"%char) exe = true -> basename exe = exe.
Proof. intros He. unfold basename. by rewrite (split_on_none _ exe He). Qed.

(** Words that run the words [cmd]: assignments in front, and wrappers with any options. *)
Inductive wrapped (cmd : list string) : list string -> Prop :=
| wrapped_command : wrapped cmd cmd
| wrapped_assignment w ws : test assignment w = true -> wrapped cmd ws -> wrapped cmd (w :: ws)
| wrapped_wrapper word args opts extra :
    commandStart (word :: args) = 0%nat -> wrapper (basename word) = Some (opts, extra) ->
    wrapped cmd (drop (optionCommand args 0 opts + extra) args) -> wrapped cmd (word :: args).

Lemma wrapper_not_special e opts extra : wrapper e = Some (opts, extra) ->
  includes shells e = false /\ (e === "eval") = false /\ (e === "env") = false /\ (e === "command") = false /\
  (e === "coproc") = false /\ (e === "xargs") = false.
Proof.
  unfold wrapper. repeat (case_bool_decide; [intros _; subst; by vm_compute|]). done.
Qed.

(** Wrappers hide nothing.  However a shell with [-c] is wrapped, in assignments and in any
    stack of exec, sudo, nice, timeout, time, nohup and stdbuf with whatever options these
    take, the text the shell would run is found, and it alone. *)
Theorem wrapped_shell_payload shell flag payload others words :
  includes shells (basename shell) = true -> commandStart [shell] = 0%nat ->
  shell_payload (flag :: payload :: others) = [payload] ->
  wrapped (shell :: flag :: payload :: others) words ->
  segmentShellPayloads (words_fuel words) words = Ok [payload].
Proof.
  intros Hsh Hst Hp Hw. unfold words_fuel. generalize (Nat.lt_succ_diag_r (size words)).
  generalize (S (size words)) as fuel. intros fuel. revert fuel.
  assert (Hst' : forall l, commandStart (shell :: l) = 0%nat).
  { intros l. revert Hst. unfold commandStart. cbn [start_from].
    destruct (test assignment shell || _); [by destruct l|].
    destruct (test (redirect ⋅ Eol false)%re shell); [done|]. by destruct (test _ shell). }
  induction Hw as [|w ws Ha Hw IH|w args opts extra H0 Hwr Hw IH]; intros [|fuel] Hf; try lia.
  - cbn [segmentShellPayloads]. rewrite Hst'. cbn [drop]. rewrite Hsh. by rewrite Hp.
  - rewrite size_cons in Hf. specialize (IH (S fuel) ltac:(lia)). cbn [segmentShellPayloads] in *.
    by rewrite test_unfold_start.
  - cbn [segmentShellPayloads]. rewrite H0. cbn [drop].
    destruct (wrapper_not_special _ _ _ Hwr) as (-> & -> & -> & -> & -> & ->). rewrite Hwr. apply IH.
    rewrite size_cons in Hf. pose proof (size_drop (optionCommand args 0 opts + extra) args). lia.
Qed.

(** ** Composition *)

Lemma firstMatch_app newRegExp s a b :
  firstMatch newRegExp s (a ++ b) =
    match firstMatch newRegExp s a with Some e => Some e | None => firstMatch newRegExp s b end.
Proof.
  induction a as [|r a IH]; [done|]. simpl. destruct (compileSafeRegex _ _ _) as [re|]; [|done]. by destruct (re s).
Qed.

(** A scope cannot weaken the organisation.  Under the composed policy a command that an
    organisation rule matches gets that rule's decision, whatever the scope says; under an
    organisation allowlist a command no rule matches is denied; and otherwise it gets what
    the scope's policy alone would give. *)
Theorem org_floor_holds newRegExp command floor scope :
  evaluateCommand newRegExp command (composePolicy floor (Some scope)) =
    (s ← scannableCommand command;
     match firstMatch newRegExp s (rules floor) with
     | Some e => mret e
     | None =>
         match mode floor with
         | denylist => evaluateCommand newRegExp command scope
         | allowlist => mret (firstMatch newRegExp s (rules scope) ?? not_in_allowlist)
         end
     end).
Proof.
  unfold evaluateCommand, composePolicy. destruct (scannableCommand command) as [s|e]; [|done]. simpl.
  rewrite firstMatch_app. destruct (firstMatch newRegExp s (rules floor)); [done|].
  destruct (mode floor); simpl; by destruct (firstMatch newRegExp s (rules scope)).
Qed.

(** A layer only adds restrictions of its own.  Evaluating with the rules of a layer gives
    what the policy alone gives, except where the policy's default would allow; there the
    layer's first matching rule decides.  So no layer lifts a denial or an approval. *)
Theorem layer_only_after_policy newRegExp command policy layer :
  evaluateCommandWithLayer newRegExp command policy layer =
    (s ← scannableCommand command;
     e ← evaluateCommand newRegExp command policy;
     mret (if is_some (firstMatch newRegExp s (rules policy)) || (mode policy === allowlist) then e
           else firstMatch newRegExp s layer ?? allowed)).
Proof.
  unfold evaluateCommandWithLayer, evaluateCommand. destruct (scannableCommand command) as [s|e]; [|done]. simpl.
  destruct (firstMatch newRegExp s (rules policy)); [done|]. simpl. destruct (mode policy === allowlist); [done|].
  by destruct (firstMatch newRegExp s layer).
Qed.

(** ** Parsing *)

Lemma parse_rule_ok newRegExp i raw r :
  parse_rule newRegExp i raw = Ok r -> is_ok (compileSafeRegex newRegExp (pattern r) "i") = true.
Proof.
  unfold parse_rule. destruct (negb _); [done|]. destruct (if_truthy _) as [p|]; [|done].
  destruct (compileSafeRegex newRegExp p "i") as [m|] eqn:E; [|done].
  destruct (match str_field "decision" raw with Some _ => _ | None => _ end); [|done].
  destruct (field "reason" raw) as [[]|]; try done; intros [= <-]; simpl; by rewrite E.
Qed.

Lemma parse_rules_ok newRegExp i l rs :
  parse_rules newRegExp i l = Ok rs ->
  length rs = length l /\ forall r, r ∈ rs -> is_ok (compileSafeRegex newRegExp (pattern r) "i") = true.
Proof.
  revert i rs. induction l as [|raw l IH]; intros i rs; cbn [parse_rules].
  - intros [= <-]. split; [done|]. by intros r ?%not_elem_of_nil.
  - intros (r & Hr & (rs' & Hrs & [= <-])%bind_inv)%bind_inv. apply IH in Hrs as [Hl Hall].
    split; [simpl; by rewrite Hl|]. intros x [->|Hx]%elem_of_cons; [by eapply parse_rule_ok|auto].
Qed.

(** What the parser accepts is enforced.  Every rule of an accepted policy has a pattern
    that compiles, so the evaluation skips none of them: the first rule, in order, whose
    pattern matches decides, and there are as many rules as the input listed. *)
Theorem parsed_policy_enforced newRegExp input policy :
  parseCommandPolicy newRegExp input = Ok policy ->
  (exists l, field "rules" input = Some (JArr l) /\ length l = length (rules policy)) /\
  forall s, firstMatch newRegExp s (rules policy) =
    match find (fun r => match compileSafeRegex newRegExp (pattern r) "i" with
                         | Ok re => is_some (re s) | Throw _ => true end) (rules policy) with
    | Some r => match compileSafeRegex newRegExp (pattern r) "i" with
                | Ok re => Some (MkEval (r_decision r) (if_truthy (r_reason r)) (re s) (Some (pattern r)))
                | Throw _ => None
                end
    | None => None
    end.
Proof.
  unfold parseCommandPolicy. destruct (_ || _); [done|]. destruct (str_field "mode" input) as [m|]; [|done].
  destruct (if m === "denylist" then _ else _) as [md|]; [|done].
  destruct (field "rules" input) as [[]|] eqn:Ef; try done. simpl.
  intros (rs & Hrs & [= <-])%bind_inv. apply parse_rules_ok in Hrs as [Hl Hall]. split; [eauto|].
  intros s. simpl. clear Hl Ef. induction rs as [|r rs IH]; [done|]. simpl.
  assert (Hr : is_ok (compileSafeRegex newRegExp (pattern r) "i") = true) by (apply Hall, list_elem_of_here).
  assert (IH' := IH (fun x Hx => Hall x (list_elem_of_further _ _ _ Hx))).
  destruct (compileSafeRegex newRegExp (pattern r) "i") as [re|] eqn:E; [|done].
  destruct (re s) as [h|] eqn:Eh; simpl; [by rewrite E, Eh|exact IH'].
Qed.

(** ** Witnesses *)

Definition demo_command : string := "sudo -n sh -c " +:+ quote_word "rm -rf /x".
Definition demo_text : string := match scannableCommand demo_command with Ok t => t | Throw _ => "" end.


Lemma wrapped_shell_payload_witness :
  segmentShellPayloads (words_fuel ["A=1"; "/usr/bin/sudo"; "-u"; "root"; "timeout"; "5"; "bash"; "-lc"; "rm -rf /x"])
    ["A=1"; "/usr/bin/sudo"; "-u"; "root"; "timeout"; "5"; "bash"; "-lc"; "rm -rf /x"] = Ok ["rm -rf /x"].
Proof.
  apply (wrapped_shell_payload "bash" "-lc" "rm -rf /x" []); [vm_compute; reflexivity..|].
  apply wrapped_assignment; [vm_compute; reflexivity|].
  apply (wrapped_wrapper _ _ _ sudo_options 0); [vm_compute; reflexivity..|].
  apply (wrapped_wrapper _ _ _ ["-s"; "--signal"; "-k"; "--kill-after"] 1); [vm_compute; reflexivity..|].
  apply wrapped_command.
Defined.

(** A host whose patterns are plain texts. *)
Definition demo_regexp (pattern flags : string) : result string (string -> option string) :=
  Ok (fun s => if str_includes s pattern then Some pattern else None).
Definition demo_policy_json : Json :=
  JObj [("mode", JStr "denylist");
        ("rules", JArr [JObj [("pattern", JStr "rm -rf"); ("decision", JStr "deny")]])].
Definition demo_policy : CommandPolicy := MkPolicy denylist [MkRule "rm -rf" deny None].

Lemma parsed_policy_enforced_witness :
  parseCommandPolicy demo_regexp demo_policy_json = Ok demo_policy /\
  firstMatch demo_regexp demo_text (rules demo_policy) = Some (MkEval deny None (Some "rm -rf") (Some "rm -rf")).
Proof.
  assert (H : parseCommandPolicy demo_regexp demo_policy_json = Ok demo_policy) by (vm_compute; reflexivity).
  split; [exact H|]. rewrite (proj2 (parsed_policy_enforced demo_regexp demo_policy_json demo_policy H)).
  vm_compute. reflexivity.
Defined.

(** An escape that names no code point makes the evaluation throw instead of deciding. *)
Lemma range_error_escape :
  evaluateCommand demo_regexp ("echo $" +:+ String squote ("\UFFFFFFFF" +:+ String squote "")) demo_policy
    = Throw RangeError.
Proof. vm_compute. reflexivity. Qed.

(** The heredoc that only writes a file is dropped; the one a shell reads is kept. *)
Example heredoc_demo :
  stripWrittenHeredocs ("cat > f <<EOF" +:+ nl +:+ "rm -rf /" +:+ nl +:+ "EOF") = Ok "" /\
  stripWrittenHeredocs ("sh <<EOF" +:+ nl +:+ "ls" +:+ nl +:+ "EOF") = Ok ("sh <<EOF" +:+ nl +:+ "ls" +:+ nl +:+ "EOF").
Proof. vm_compute. auto. Qed.
Example pipe_demo :
  executedShellPayloads "echo rm -rf /x | env -u A bash; X=ls; $X -la; bash <<<'id'" =
    Ok ["rm -rf /x"; "id"; "ls -la"].
Proof. vm_compute. reflexivity. Qed.
