(* ===== verification/Runs.v ===== *)
(** * The run queue

    The in-memory run store ([src/src/runs/memory-run-store.ts]) with the shared
    predicates of [src/src/runs/run-store.ts].  Every method of the store is one atomic
    step: its body holds no [await].  Fresh identifiers ([randomUUID]) and the clock
    ([Date.now], read once per step) are arguments.  What a step tells the listeners is the
    log [settled] of the runs passed to [settle]. *)

From stdpp Require Import pretty.
From S2P Require Import Prelude JsString Turn.

(** ** Data *)

(** [RunStatus] src/src/runs/run-store.ts:4-4 *)
Inductive RunStatus := pending | running | done_ | failed.
#[export] Instance RunStatus_eq_dec : EqDecision RunStatus.
Proof. solve_decision. Defined.

(** [Run] src/src/runs/run-store.ts:19-36
    [RunDeliveryState] holds one optional field, the edit reference. *)
Record Run := MkRun {
  id : string;
  sessionId : string;
  status : RunStatus;
  request : TurnRequest;
  run_result : option TurnResult;
  deliveryState : option (option string);
  dedupKey : option string;
  attempts : Z;
  errorAttempts : Z;
  maxAttempts : Z;
  leaseToken : option string;
  leaseExpiresAt : option Z;
  workerId : option string;
  createdAt : Z;
  startedAt : option Z;
  finishedAt : option Z;
}.
#[export] Instance Run_eta : Eta Run := fun r =>
  MkRun r.(id) r.(sessionId) r.(status) r.(request) r.(run_result) r.(deliveryState) r.(dedupKey)
    r.(attempts) r.(errorAttempts) r.(maxAttempts) r.(leaseToken) r.(leaseExpiresAt) r.(workerId)
    r.(createdAt) r.(startedAt) r.(finishedAt).

(** [ReapEvent] src/src/runs/run-store.ts:6-13 *)
Inductive ReapOutcome := requeued | parked.
#[export] Instance ReapOutcome_eq_dec : EqDecision ReapOutcome.
Proof. solve_decision. Defined.
(** [ReapEvent] src/src/runs/run-store.ts:6-13 *)
Record ReapEvent := MkReapEvent {
  re_runId : string;
  re_sessionId : string;
  re_workerId : option string;
  re_attempts : Z;
  re_errorAttempts : Z;
  re_outcome : ReapOutcome;
}.

(** [EnqueueInput] src/src/runs/run-store.ts:38-43 *)
Record EnqueueInput := MkEnqueue {
  e_sessionId : string;
  e_request : TurnRequest;
  e_dedupKey : option string;
  e_maxAttempts : option Z;
}.

(** [isTerminal] src/src/runs/run-store.ts:89-92 *)
Definition isTerminal (s : RunStatus) : bool := (s === done_) || (s === failed).

(** [errorParks] src/src/runs/run-store.ts:94-96 *)
Definition errorParks (r : Run) (maxClaims : option Z) : bool :=
  (r.(errorAttempts) + 1 >=? r.(maxAttempts))%Z
  || match maxClaims with None => false | Some m => (r.(attempts) >=? m)%Z end.

(** [leaseLapsed] src/src/runs/run-store.ts:98-100 *)
Definition leaseLapsed (r : Run) (asOf : Z) : bool :=
  (r.(status) === running)
  && match r.(leaseExpiresAt) with None => false | Some e => (e <=? asOf)%Z end.

(** The state of the store, src/src/runs/memory-run-store.ts:13-19. *)
Record Store := MkStore {
  runs : jsmap string Run;
  byKey : jsmap string string;
  ledger : jsmap string string;
  settled : list Run;
}.
#[export] Instance Store_eta : Eta Store := fun s => MkStore s.(runs) s.(byKey) s.(ledger) s.(settled).

Definition empty_store : Store := MkStore ∅ ∅ ∅ [].

(** ** Operations *)

Section ops.
(** [maxClaims]: [None] is the default [Number.POSITIVE_INFINITY]. *)
Variable maxClaims : option Z.

(** [createMemoryRunStore] src/src/runs/memory-run-store.ts:21-26 *)
Definition sessionHasRunning (st : Store) (sid : string) : bool :=
  some (fun r => (r.(sessionId) === sid) && (r.(status) === running)) (values st.(runs)).

(** [settle] src/src/runs/memory-run-store.ts:28-32 *)
Definition settle (r : Run) (st : Store) : Store :=
  if negb (isTerminal r.(status)) then st
  else st <| settled := st.(settled) ++ [r] |>.

(** The write-back of a run object the store handed out by reference. *)
Definition put_run (r : Run) (st : Store) : Store := st <| runs := <[r.(id) := r]> st.(runs) |>.

(** [enqueue] src/src/runs/memory-run-store.ts:44-61 *)
Definition new_run (uuid : string) (now : Z) (i : EnqueueInput) : Run :=
  MkRun uuid i.(e_sessionId) pending i.(e_request) None None i.(e_dedupKey) 0 0
    (i.(e_maxAttempts) ?? 3) None None None now None None.

(** [enqueue] src/src/runs/memory-run-store.ts:38-43 *)
Definition find_deduped (st : Store) (key : option string) : option Run :=
  match key with
  | Some k =>
      if truthy k then
        match st.(byKey) !! k with
        | Some existingId => if truthy existingId then st.(runs) !! existingId else None
        | None => None
        end
      else None
  | None => None
  end.

(** [enqueue] src/src/runs/memory-run-store.ts:37-66 *)
Definition enqueue (uuid : string) (now : Z) (i : EnqueueInput) (st : Store) : (Run * bool) * Store :=
  match find_deduped st i.(e_dedupKey) with
  | Some existing => ((existing, true), st)
  | None =>
      let run := new_run uuid now i in
      let st := put_run run st in
      let st := match i.(e_dedupKey) with
                | Some k => if truthy k then st <| byKey := <[k := run.(id)]> st.(byKey) |> else st
                | None => st
                end in
      ((run, false), st)
  end.

(** [lease] src/src/runs/memory-run-store.ts:201-209 *)
Definition lease (uuid : string) (now : Z) (wid : string) (ttlMs : Z) (r : Run) : Run :=
  r <| status := running |> <| leaseToken := Some uuid |> <| leaseExpiresAt := Some (now + ttlMs)%Z |>
    <| workerId := Some wid |> <| attempts := (r.(attempts) + 1)%Z |>
    <| startedAt := Some (r.(startedAt) ?? now) |>.

(** [claim] src/src/runs/memory-run-store.ts:69-71 *)
Definition claimable (st : Store) : list Run :=
  js_sort (fun a b => a.(createdAt) - b.(createdAt))%Z
    (js_filter (fun r => (r.(status) === pending) && negb (sessionHasRunning st r.(sessionId)))
       (values st.(runs))).

(** [claim] src/src/runs/memory-run-store.ts:68-75 *)
Definition claim (uuid : string) (now : Z) (wid : string) (ttlMs : Z) (st : Store) : option Run * Store :=
  match head (claimable st) with
  | None => (None, st)
  | Some run => let run' := lease uuid now wid ttlMs run in (Some run', put_run run' st)
  end.

(** [claimById] src/src/runs/memory-run-store.ts:77-81 *)
Definition claimById (uuid : string) (now : Z) (runId wid : string) (ttlMs : Z) (st : Store)
  : option Run * Store :=
  match st.(runs) !! runId with
  | Some run =>
      if negb (run.(status) === pending) || sessionHasRunning st run.(sessionId) then (None, st)
      else let run' := lease uuid now wid ttlMs run in (Some run', put_run run' st)
  | None => (None, st)
  end.

(** [heartbeat] src/src/runs/memory-run-store.ts:83-88 *)
Definition heartbeat (now : Z) (runId token : string) (ttlMs : Z) (st : Store) : bool * Store :=
  match st.(runs) !! runId with
  | Some run =>
      if negb (run.(status) === running) || negb (run.(leaseToken) === Some token) then (false, st)
      else (true, put_run (run <| leaseExpiresAt := Some (now + ttlMs)%Z |>) st)
  | None => (false, st)
  end.

(** [releaseLease] src/src/runs/memory-run-store.ts:90-98 *)
Definition releaseLease (runId token : string) (st : Store) : bool * Store :=
  match st.(runs) !! runId with
  | Some run =>
      if negb (run.(status) === running) || negb (run.(leaseToken) === Some token) then (false, st)
      else (true, put_run (run <| status := pending |> <| leaseToken := None |>
                               <| leaseExpiresAt := None |> <| workerId := None |>) st)
  | None => (false, st)
  end.

(** [complete] src/src/runs/memory-run-store.ts:100-110 *)
Definition complete (now : Z) (runId token : string) (res : TurnResult) (st : Store) : bool * Store :=
  match st.(runs) !! runId with
  | Some run =>
      if negb (run.(leaseToken) === Some token) then (false, st)
      else
        let run' := run <| status := done_ |> <| run_result := Some res |> <| leaseToken := None |>
                        <| leaseExpiresAt := None |> <| finishedAt := Some now |> in
        (true, settle run' (put_run run' st))
  | None => (false, st)
  end.

(** The crash-loop message, src/src/runs/memory-run-store.ts:233-233 *)
Definition crash_loop_reason (n : Z) : string :=
  "run parked after " +:+ pretty n +:+ " claims without completing (suspected crash loop)".

(** [retire] src/src/runs/memory-run-store.ts:211-239
    Returns the run object after the call and the [requeued]/[applied] flags; [settle] is
    called by the wrapper below, on the object as it is then. *)
Definition retire_run (now : Z) (r : Run) (error : string) (retry : bool)
    (ifExpiredAt : option Z) (countsAsError : bool) : Run * (bool * bool) :=
  if negb (r.(status) === running) then (r, (false, false))
  else if match ifExpiredAt with
          | None => false
          | Some t => match r.(leaseExpiresAt) with None => true | Some e => (e >? t)%Z end
          end then (r, (false, false))
  else
    let r := r <| leaseToken := None |> <| leaseExpiresAt := None |> <| workerId := None |> in
    let r := if countsAsError then r <| errorAttempts := (r.(errorAttempts) + 1)%Z |> else r in
    let overClaimed := match maxClaims with None => false | Some m => (r.(attempts) >=? m)%Z end in
    if retry && (r.(errorAttempts) <? r.(maxAttempts))%Z && negb overClaimed then
      (r <| status := pending |>, (true, true))
    else
      let reason :=
        if negb countsAsError && overClaimed && retry && (r.(errorAttempts) <? r.(maxAttempts))%Z
        then crash_loop_reason r.(attempts) else error in
      let res := MkTurnResult ts_failed (Some r.(sessionId)) None (Some reason) false None None None None in
      (r <| status := failed |> <| run_result := Some res |> <| finishedAt := Some now |>, (false, true)).

(** [retire] src/src/runs/memory-run-store.ts:211-239 *)
Definition retire (now : Z) (r : Run) (error : string) (retry : bool)
    (ifExpiredAt : option Z) (countsAsError : bool) (st : Store) : (bool * bool) * Store :=
  let '(r', flags) := retire_run now r error retry ifExpiredAt countsAsError in
  if flags.2 then (flags, settle r' (put_run r' st)) else (flags, st).

(** [fail] src/src/runs/memory-run-store.ts:112-116 *)
Definition fail_ (now : Z) (runId token error : string) (retry : option bool) (st : Store) : bool * Store :=
  match st.(runs) !! runId with
  | Some run =>
      if negb (run.(leaseToken) === Some token) then (false, st)
      else let '(flags, st') := retire now run error (negb (retry === Some false)) None true st in
           (flags.1, st')
  | None => (false, st)
  end.

(** [setDeliveryState] src/src/runs/memory-run-store.ts:118-124 *)
Definition setDeliveryState (runId : string) (token : option string) (ds : option string) (st : Store)
  : bool * Store :=
  match st.(runs) !! runId with
  | Some run =>
      if negb (token === None) && negb (run.(leaseToken) === token) then (false, st)
      else (true, put_run (run <| deliveryState := Some ds |>) st)
  | None => (false, st)
  end.

(** [get] src/src/runs/memory-run-store.ts:130-132 *)
Definition get (runId : string) (st : Store) : option Run := st.(runs) !! runId.

(** [activeForThread] src/src/runs/memory-run-store.ts:134-140 *)
Definition activeForThread (sid : string) (st : Store) : option Run :=
  head (js_sort (fun a b => b.(createdAt) - a.(createdAt))%Z
    (js_filter (fun r => (r.(sessionId) === sid) && negb (isTerminal r.(status))) (values st.(runs)))).

(** [activeSessionIds] src/src/runs/memory-run-store.ts:142-146 *)
Definition activeSessionIds (st : Store) : list string :=
  dedup (map sessionId (js_filter (fun r => negb (isTerminal r.(status))) (values st.(runs)))).

(** [list] src/src/runs/memory-run-store.ts:148-150 *)
Definition list_runs (limit : option Z) (st : Store) : list Run :=
  slice 0 (limit ?? 200) (js_sort (fun a b => b.(createdAt) - a.(createdAt))%Z (values st.(runs))).

(** The answer of [reapExpired] and what it hands to its callbacks. *)
Record ReapReport := MkReport {
  n_requeued : Z;
  n_parked : Z;
  retiredSessionIds : list string;
  reaps : list ReapEvent;
}.

(** [reapExpired] src/src/runs/memory-run-store.ts:161-178
    One turn of the loop.  [run] is the object found expired; the store holds its current
    fields. *)
Definition reap_one (now : Z) (maxAgeMs : option Z) (acc : ReapReport * Store) (run : Run) : ReapReport * Store :=
  let '(rep, st) := acc in
  let run := st.(runs) !! run.(id) ?? run in
  let tooOld := match maxAgeMs, run.(startedAt) with
                | Some age, Some s => (now - s >? age)%Z
                | _, _ => false
                end in
  let reason := if tooOld then "run exceeded max age (reaped)" else "lease expired (reaped)" in
  let wid := run.(workerId) in
  let '(r, st') := retire now run reason (negb tooOld) (Some now) false st in
  if negb r.2 then (rep, st')
  else
    let run' := st'.(runs) !! run.(id) ?? run in
    let ev := MkReapEvent run'.(id) run'.(sessionId) wid run'.(attempts) run'.(errorAttempts)
                (if r.1 then requeued else parked) in
    (MkReport (if r.1 then rep.(n_requeued) + 1 else rep.(n_requeued))%Z
              (if r.1 then rep.(n_parked) else rep.(n_parked) + 1)%Z
              (rep.(retiredSessionIds) ++ [run.(sessionId)])
              (rep.(reaps) ++ [ev]), st').

(** [reapExpired] src/src/runs/memory-run-store.ts:152-181 *)
Definition reapExpired (now : Z) (maxAgeMs : option Z) (st : Store) : ReapReport * Store :=
  let expired := js_filter (fun r => leaseLapsed r now) (values st.(runs)) in
  fold_left (reap_one now maxAgeMs) expired (MkReport 0 0 [] [], st).

(** [ledger] key, src/src/runs/memory-run-store.ts:243-243 *)
Definition ledger_key (runId : string) (attempt callIndex : Z) : string :=
  runId +:+ ":" +:+ pretty attempt +:+ ":" +:+ pretty callIndex.

(** [begin] src/src/runs/memory-run-store.ts:242-245 *)
Definition ledger_begin (runId : string) (attempt callIndex : Z) (st : Store) : option string :=
  st.(ledger) !! ledger_key runId attempt callIndex.

(** [record] src/src/runs/memory-run-store.ts:246-248 *)
Definition ledger_record (runId : string) (attempt callIndex : Z) (output : string) (st : Store) : Store :=
  st <| ledger := <[ledger_key runId attempt callIndex := output]> st.(ledger) |>.
End ops.

(** ** The store's operations on every branch *)


Lemma put_run_lookup r st k : runs (put_run r st) !! k = if decide (id r = k) then Some r else runs st !! k.
Proof. apply lookup_set. Qed.
Lemma settle_runs r st : runs (settle r st) = runs st.
Proof. unfold settle. by destruct (negb _). Qed.

Definition eligible (st : Store) (r : Run) : Prop :=
  status r = pending /\ sessionHasRunning st (sessionId r) = false.

Lemma eligible_bool st r :
  (status r === pending) && negb (sessionHasRunning st (sessionId r)) = true <-> eligible st r.
Proof. unfold eligible. rewrite andb_true_iff, bool_decide_eq_true, negb_true_iff. done. Qed.

Lemma js_filter_split {A} (p : A -> bool) l l1 x l2 :
  js_filter p l = l1 ++ x :: l2 ->
  exists m1 m2, l = m1 ++ x :: m2 /\ js_filter p m1 = l1 /\ js_filter p m2 = l2 /\ p x = true.
Proof.
  revert l1. induction l as [|y l IH]; simpl; intros l1 E; [by destruct l1|].
  destruct (p y) eqn:Ep.
  - destruct l1 as [|z l1]; injection E as Ez E; subst.
    + by exists [], l.
    + destruct (IH _ E) as (m1 & m2 & -> & <- & <- & ?). exists (z :: m1), m2. simpl. by rewrite Ep.
  - destruct (IH _ E) as (m1 & m2 & -> & <- & <- & ?). exists (y :: m1), m2. simpl. by rewrite Ep.
Qed.

(** A claim serves the queue in order of creation.  It answers nothing only when no
    pending run has a free session; otherwise it leases an eligible run that is older than
    every eligible run enqueued before it and no younger than any other, and changes
    nothing else. *)
Theorem claim_oldest u now wid ttl st :
  let '(o, st') := claim u now wid ttl st in
  match o with
  | None => st' = st /\ forall k r, runs st !! k = Some r -> ~ eligible st r
  | Some r' => exists r l1 l2,
      values (runs st) = l1 ++ r :: l2 /\ eligible st r /\
      r' = lease u now wid ttl r /\ st' = put_run r' st /\
      (forall x, x ∈ l1 -> eligible st x -> createdAt r < createdAt x) /\
      (forall x, x ∈ l2 -> eligible st x -> createdAt r <= createdAt x)
  end.
Proof.
  unfold claim. destruct (claimable st) as [|r l] eqn:E; simpl.
  - split; [done|]. intros k r Hk He. unfold claimable in E.
    apply (js_sort_nil_inv _) in E. rewrite js_filter_nil in E.
    assert (Hin : r ∈ values (runs st)) by (apply elem_of_values; eauto).
    apply E in Hin. apply eligible_bool in He. congruence.
  - pose proof (js_sort_head_le _ _ _ _ E) as Hle.
    apply (js_sort_head_first _) in E as (l1 & l2 & E & Hlt).
    apply js_filter_split in E as (m1 & m2 & Hv & <- & <- & He).
    exists r, m1, m2. split; [done|]. split; [by apply eligible_bool|].
    split; [done|]. split; [done|]. split.
    + intros x Hx Hel. assert (Hf : ~ createdAt x - createdAt r <= 0); [|lia].
      apply Hlt, elem_of_js_filter. split; [by apply eligible_bool|done].
    + intros x Hx Hel. assert (Hf : createdAt r - createdAt x <= 0); [|lia].
      apply Hle, elem_of_js_filter. split; [by apply eligible_bool|].
      rewrite Hv, elem_of_app, elem_of_cons. auto.
Qed.

(** [errorParks] predicts what a failure report does.  For the lease holder of a running
    run and [retry] not disabled, the run goes back to pending when [errorParks] is false
    and ends as failed when it is true; with [retry] disabled it always ends. *)
Theorem errorParks_predicts_fail mc now k t err retry st r :
  runs st !! k = Some r -> id r = k -> status r = running -> leaseToken r = Some t ->
  let '(again, st') := fail_ mc now k t err retry st in
  let parks := errorParks r mc || (retry === Some false) in
  again = negb parks /\
  exists r', runs st' !! k = Some r' /\ leaseToken r' = None /\
    errorAttempts r' = (errorAttempts r + 1)%Z /\
    status r' = (if parks then failed else pending).
Proof.
  intros Hk Hid Hrun Ht. unfold fail_. rewrite Hk, Ht, eqb_refl. simpl.
  unfold retire, retire_run, errorParks. rewrite Hrun, eqb_refl, Z.geb_leb. simpl.
  rewrite (Z.ltb_antisym (maxAttempts r)).
  destruct (retry === Some false), (maxAttempts r <=? errorAttempts r + 1)%Z,
    (match mc with None => false | Some _ => _ end); simpl;
    (split; [done|]); rewrite ?settle_runs; simpl; rewrite Hid, lookup_set_eq; by eexists.
Qed.

(** ** Reaping *)

Definition too_old (now : Z) (age : option Z) (r : Run) : bool :=
  match age, startedAt r with Some a, Some s => (now - s >? a)%Z | _, _ => false end.

(** A lapsed run after the reap, and whether it was requeued. *)
Definition reaped (mc : option Z) (now : Z) (age : option Z) (r : Run) : Run * (bool * bool) :=
  retire_run mc now r (if too_old now age r then "run exceeded max age (reaped)" else "lease expired (reaped)")
    (negb (too_old now age r)) (Some now) false.

Lemma reaped_applies mc now age r :
  leaseLapsed r now = true ->
  (reaped mc now age r).2.2 = true /\ id (reaped mc now age r).1 = id r /\
  status (reaped mc now age r).1 <> running /\
  sessionId (reaped mc now age r).1 = sessionId r /\
  errorAttempts (reaped mc now age r).1 = errorAttempts r.
Proof.
  unfold leaseLapsed, reaped, retire_run. intros Hl. to_prop. rewrite H, eqb_refl. simpl.
  destruct (leaseExpiresAt r) as [e|]; [|done]. rewrite Z.gtb_ltb.
  to_prop. replace (now <? e)%Z with false by (symmetry; by apply Z.ltb_ge). simpl.
  by destruct (negb _ && _ && _); simpl.
Qed.

Lemma reap_one_eq mc now age rep st r :
  runs st !! id r = Some r -> leaseLapsed r now = true ->
  let '(r', flags) := reaped mc now age r in
  let '(rep', st') := reap_one mc now age (rep, st) r in
  (forall k, runs st' !! k = if decide (id r = k) then Some r' else runs st !! k) /\
  rep' = MkReport (n_requeued rep + Z.b2z flags.1) (n_parked rep + Z.b2z (negb flags.1))
    (retiredSessionIds rep ++ [sessionId r])
    (reaps rep ++ [MkReapEvent (id r) (sessionId r) (workerId r) (attempts r') (errorAttempts r)
                     (if flags.1 then requeued else parked)]).
Proof.
  intros Hk Hl. pose proof (reaped_applies mc now age r Hl) as (Ha & Hid & _ & Hs & He).
  unfold reap_one, retire. rewrite Hk. simpl. fold (too_old now age r) (reaped mc now age r).
  destruct (reaped mc now age r) as [r' flags]; simpl in *. rewrite Ha. simpl. rewrite Ha. simpl.
  rewrite settle_runs. simpl. rewrite Hid, lookup_set_eq. simpl. rewrite Hid, Hs, He. split.
  - intros k. by rewrite lookup_set.
  - destruct flags.1; simpl; f_equal; lia.
Qed.

Lemma reap_fold mc now age l rep st :
  NoDup (map id l) -> (forall r, r ∈ l -> runs st !! id r = Some r /\ leaseLapsed r now = true) ->
  let '(rep', st') := fold_left (reap_one mc now age) l (rep, st) in
  (forall k, runs st' !! k =
     match find (fun r => id r === k) l with
     | Some r => Some (reaped mc now age r).1
     | None => runs st !! k
     end) /\
  n_requeued rep' + n_parked rep' = n_requeued rep + n_parked rep + Z.of_nat (length l) /\
  retiredSessionIds rep' = retiredSessionIds rep ++ map sessionId l /\
  map re_runId (reaps rep') = map re_runId (reaps rep) ++ map id l.
Proof.
  revert rep st. induction l as [|r l IH]; intros rep st Hnd Hl; cbn [fold_left map find].
  - rewrite !app_nil_r. split; [done|]. split; [simpl; lia|done].
  - apply NoDup_cons in Hnd as [Hr Hnd].
    destruct (Hl r) as [Hk Hlap]; [apply list_elem_of_here|].
    pose proof (reap_one_eq mc now age rep st r Hk Hlap) as Hone.
    destruct (reaped mc now age r) as [r' flags] eqn:Er.
    destruct (reap_one mc now age (rep, st) r) as [rep1 st1]. destruct Hone as [Hst ->].
    specialize (IH (MkReport (n_requeued rep + Z.b2z flags.1) (n_parked rep + Z.b2z (negb flags.1))
      (retiredSessionIds rep ++ [sessionId r])
      (reaps rep ++ [MkReapEvent (id r) (sessionId r) (workerId r) (attempts r') (errorAttempts r)
                     (if flags.1 then requeued else parked)])) st1 Hnd).
    destruct (fold_left _ l _) as [rep2 st2]. destruct IH as (IH1 & IH2 & IH3 & IH4).
    { intros x Hx. destruct (Hl x) as [Hkx ?]; [by apply list_elem_of_further|].
      split; [|done]. rewrite Hst, decide_False; [done|]. intros E. apply Hr. rewrite E.
      apply list_elem_of_fmap. eauto. }
    split; [|split; [|split]].
    + intros k. rewrite IH1, Hst. destruct (decide (id r = k)) as [<-|Hne].
      * rewrite eqb_refl, Er. simpl. replace (find _ l) with (@None Run); [done|].
        symmetry. apply find_None. intros x Hx. apply eqb_false. intros E. apply Hr. rewrite <- E.
        apply list_elem_of_fmap. eauto.
      * by replace (id r === k) with false by (symmetry; by apply eqb_false).
    + rewrite IH2. simpl. destruct flags.1; simpl; lia.
    + rewrite IH3. cbn [retiredSessionIds]. by rewrite <- app_assoc.
    + rewrite IH4. cbn [reaps]. by rewrite map_app, <- app_assoc.
Qed.

(** A reap is complete and exact.  Afterwards no run of the store has a lapsed lease;
    every run whose lease had lapsed is retired (requeued or ended) without charging its
    retry budget and every other run is untouched; the two counts add up to the number of
    lapsed runs, and the reports name exactly those runs and their sessions, in order. *)
Theorem reapExpired_exact mc now age st :
  (forall k r, runs st !! k = Some r -> id r = k) ->
  let lapsed := js_filter (fun r => leaseLapsed r now) (values (runs st)) in
  let '(rep, st') := reapExpired mc now age st in
  (forall k r, runs st' !! k = Some r -> leaseLapsed r now = false) /\
  (forall k r, runs st !! k = Some r ->
     if leaseLapsed r now
     then exists r', runs st' !! k = Some r' /\ r' = (reaped mc now age r).1 /\ errorAttempts r' = errorAttempts r
     else runs st' !! k = Some r) /\
  n_requeued rep + n_parked rep = Z.of_nat (length lapsed) /\
  map re_runId (reaps rep) = map id lapsed /\ retiredSessionIds rep = map sessionId lapsed.
Proof.
  intros Hid lapsed. unfold reapExpired. fold lapsed.
  assert (Hl : forall r, r ∈ lapsed -> runs st !! id r = Some r /\ leaseLapsed r now = true).
  { intros r [Hp [k Hk]%elem_of_values]%elem_of_js_filter. by rewrite (Hid _ _ Hk). }
  assert (Hnd : NoDup (map id lapsed)).
  { eapply sublist_NoDup; [|apply map_sublist, js_filter_sublist].
    replace (map id (values (runs st))) with (keys (runs st)); [apply keys_NoDup|].
    unfold keys, values. rewrite <- list_fmap_compose. apply list_fmap_ext.
    intros i [k r] Hi. simpl. apply list_elem_of_lookup_2, elem_of_entries in Hi. by rewrite (Hid _ _ Hi). }
  pose proof (reap_fold mc now age lapsed (MkReport 0 0 [] []) st Hnd Hl) as H.
  destruct (fold_left _ _ _) as [rep st']. destruct H as (Hst & Hn & Hs & He).
  split; [|split; [|split; [exact Hn|by split]]].
  - intros k r. rewrite Hst. destruct (find _ lapsed) as [r0|] eqn:Ef.
    + intros [= <-]. apply find_Some in Ef as [Hin _]. destruct (Hl _ Hin) as [_ Hlap].
      destruct (reaped_applies mc now age r0 Hlap) as (_ & _ & Hnr & _). unfold leaseLapsed.
      by replace (_ === running) with false by (symmetry; by apply eqb_false).
    + intros Hk. rewrite find_None in Ef. apply not_true_iff_false. intros Hlap.
      assert (Hin : r ∈ lapsed) by (apply elem_of_js_filter; split; [done|apply elem_of_values; eauto]).
      apply Ef in Hin. rewrite (Hid _ _ Hk), eqb_refl in Hin. done.
  - intros k r Hk. rewrite Hst. destruct (find _ lapsed) as [r0|] eqn:Ef.
    + apply find_Some in Ef as [Hin Hk0]. to_prop. destruct (Hl _ Hin) as [Hr0 Hlap].
      rewrite Hk0, Hk in Hr0. injection Hr0 as ->. rewrite Hlap. eexists. split; [done|]. split; [done|].
      by apply reaped_applies.
    + rewrite find_None in Ef. destruct (leaseLapsed r now) eqn:Hlap; [|done].
      assert (Hin : r ∈ lapsed) by (apply elem_of_js_filter; split; [done|apply elem_of_values; eauto]).
      apply Ef in Hin. rewrite (Hid _ _ Hk), eqb_refl in Hin. done.
Qed.
