(* ===== verification/Lifecycle.v ===== *)
(** * The run lifecycle: the specification of the run queue

    An abstract machine over run records: it says when a run may change hands, when it may
    end, and that an end is announced.  It knows nothing of the queue's indexes, of how a
    claim is chosen or of how a reap is organised.  [RunsSafety] proves that the store of
    [Runs] refines it; the safety properties of the queue are proved here, by rule
    induction on the machine, and hold of the store by the refinement. *)

From S2P Require Import Prelude Turn Runs.

(** What no step changes. *)
Definition same_run (r r' : Run) : Prop :=
  id r' = id r /\ sessionId r' = sessionId r /\ request r' = request r /\
  dedupKey r' = dedupKey r /\ maxAttempts r' = maxAttempts r /\ createdAt r' = createdAt r.

(** One step of one run.  [free] holds when no run of its session is running; a claim takes
    the freshly minted token. *)
Inductive life (free : Prop) : option string -> Run -> Run -> Prop :=
| life_claim t r r' :
    status r = pending -> free ->
    status r' = running -> leaseToken r' = Some t -> is_Some (leaseExpiresAt r') ->
    attempts r' = (attempts r + 1)%Z -> errorAttempts r' = errorAttempts r ->
    life free (Some t) r r'
| life_renew r r' :
    status r = running -> status r' = running -> leaseToken r' = leaseToken r ->
    is_Some (leaseExpiresAt r') ->
    attempts r' = attempts r -> errorAttempts r' = errorAttempts r ->
    life free None r r'
| life_requeue (e : bool) r r' :
    status r = running -> status r' = pending -> leaseToken r' = None ->
    attempts r' = attempts r -> errorAttempts r' = (errorAttempts r + Z.b2z e)%Z ->
    (e = true -> (errorAttempts r' < maxAttempts r)%Z) ->
    life free None r r'
| life_finish (e : bool) r r' :
    status r = running -> isTerminal (status r') = true -> leaseToken r' = None ->
    is_Some (run_result r') -> is_Some (finishedAt r') ->
    attempts r' = attempts r -> errorAttempts r' = (errorAttempts r + Z.b2z e)%Z ->
    life free None r r'
| life_annotate ds r :
    life free None r (r <| deliveryState := ds |>).

(** The machine: the runs, the announcements, the identifiers handed out so far. *)
Record Machine := MkMachine {
  m_runs : jsmap string Run;
  m_settled : list Run;
  m_used : list string;
}.

Definition initial (m : Machine) : Prop := m = MkMachine ∅ [] [].

Definition session_free (rs : jsmap string Run) (sid : string) : Prop :=
  forall k r, rs !! k = Some r -> sessionId r = sid -> status r <> running.

(** A run is announced when it becomes terminal. *)
Definition announce (r r' : Run) (l : list Run) : list Run :=
  if isTerminal (status r') && negb (isTerminal (status r)) then l ++ [r'] else l.

Definition mint (u : option string) (used : list string) : list string :=
  match u with Some u => u :: used | None => used end.

Inductive machine_step : Machine -> Machine -> Prop :=
| step_mint u rs se us :
    u ∉ us -> machine_step (MkMachine rs se us) (MkMachine rs se (u :: us))
| step_create r rs se us :
    id r ∉ us -> truthy (id r) = true -> status r = pending -> leaseToken r = None ->
    attempts r = 0 -> errorAttempts r = 0 ->
    machine_step (MkMachine rs se us) (MkMachine (<[id r := r]> rs) se (id r :: us))
| step_life u k r r' rs se us :
    rs !! k = Some r -> same_run r r' -> (forall t, u = Some t -> t ∉ us) ->
    life (session_free rs (sessionId r)) u r r' ->
    machine_step (MkMachine rs se us) (MkMachine (<[k := r']> rs) (announce r r' se) (mint u us)).

Definition Reach : Machine -> Prop := reachable initial machine_step.

(** ** The invariant *)

(** A lease is held exactly while running, and it has an expiry. *)
Record run_ok (r : Run) : Prop := {
  ok_running : status r = running <-> is_Some (leaseToken r);
  ok_expiry : status r = running -> is_Some (leaseExpiresAt r);
  ok_result : isTerminal (status r) = true -> is_Some (run_result r) /\ is_Some (finishedAt r);
  ok_attempts : 0 <= errorAttempts r <= Z.max 1 (maxAttempts r);
  ok_retriable : isTerminal (status r) = false -> errorAttempts r < Z.max 1 (maxAttempts r);
}.

Record machine_ok (m : Machine) : Prop := {
  mo_id k r : m_runs m !! k = Some r -> id r = k /\ k ∈ m_used m /\ truthy k = true;
  mo_run k r : m_runs m !! k = Some r -> run_ok r;
  mo_token k r t : m_runs m !! k = Some r -> leaseToken r = Some t -> t ∈ m_used m;
  mo_owner k k' r r' t : m_runs m !! k = Some r -> m_runs m !! k' = Some r' ->
    leaseToken r = Some t -> leaseToken r' = Some t -> k = k';
  mo_session k k' r r' : m_runs m !! k = Some r -> m_runs m !! k' = Some r' ->
    status r = running -> status r' = running -> sessionId r = sessionId r' -> k = k';
  mo_settled_once : NoDup (map id (m_settled m));
  mo_settled k : k ∈ map id (m_settled m) <->
    exists r, m_runs m !! k = Some r /\ isTerminal (status r) = true;
}.

Lemma running_live r : status r = running -> isTerminal (status r) = false.
Proof. by intros ->. Qed.
Lemma pending_live r : status r = pending -> isTerminal (status r) = false.
Proof. by intros ->. Qed.
Lemma terminal_not_running r : isTerminal (status r) = true -> status r <> running.
Proof. intros Ht E. by rewrite E in Ht. Qed.

Lemma life_run_ok free u r r' : life free u r r' -> same_run r r' -> run_ok r -> run_ok r'.
Proof.
  intros Hl (_ & _ & _ & _ & Hm & _) [Hr He Hres Ha Ht].
  destruct Hl as [t r r' Hp Hf Hp' Hk Hx Hat Her|r r' Hp Hp' Hk Hx Hat Her
    |e r r' Hp Hp' Hk Hat Her Hlt|e r r' Hp Hp' Hk Hx Hfi Hat Her|ds r].
  - specialize (Ht (pending_live _ Hp)). split; rewrite ?Hm, ?Her, ?Hp', ?Hk; try done.
  - specialize (Ht (running_live _ Hp)). split; rewrite ?Hm, ?Her, ?Hk; try done.
    + rewrite <- Hr. by rewrite Hp, Hp'.
    + by rewrite Hp'.
  - specialize (Ht (running_live _ Hp)).
    assert (Hb : errorAttempts r' < Z.max 1 (maxAttempts r) /\ 0 <= errorAttempts r')
      by (destruct e; simpl in *; [specialize (Hlt eq_refl)|]; lia).
    split; rewrite ?Hm, ?Hp', ?Hk; try done; try lia.
  - specialize (Ht (running_live _ Hp)). split; rewrite ?Hm, ?Her, ?Hk; try done.
    + split; [by intros ?%terminal_not_running|by intros [? [=]]].
    + by intros ?%terminal_not_running.
    + destruct e; simpl; lia.
    + by rewrite Hp'.
  - by split.
Qed.

(** ** Preservation *)

Lemma elem_of_mint t u us : t ∈ mint u us <-> u = Some t \/ t ∈ us.
Proof. destruct u; simpl; rewrite ?elem_of_cons; naive_solver. Qed.

(** The token of a run after a step is its own or the fresh one. *)
Lemma life_token free u r r' t : life free u r r' -> leaseToken r' = Some t -> leaseToken r = Some t \/ u = Some t.
Proof. destruct 1; intros; first [left; congruence|right; congruence|by left]. Qed.

(** A run is running after a step only if it was, or if its session was free. *)
Lemma life_running free u r r' : life free u r r' -> status r' = running -> status r = running \/ free.
Proof. destruct 1; auto; intros Hr; exfalso; first [congruence|by eapply terminal_not_running]. Qed.

(** A terminal run stays as it is but for its delivery state. *)
Lemma life_terminal free u r r' :
  life free u r r' -> isTerminal (status r) = true -> exists ds, r' = r <| deliveryState := ds |>.
Proof.
  destruct 1; intros Ht; try (exfalso; by eapply terminal_not_running); eauto.
  by rewrite pending_live in Ht.
Qed.

Lemma life_terminal_mono free u r r' :
  life free u r r' -> isTerminal (status r) = true -> isTerminal (status r') = true.
Proof. intros Hl Ht. by destruct (life_terminal _ _ _ _ Hl Ht) as [ds ->]. Qed.

Lemma some_terminal (r : Run) :
  (exists v, Some r = Some v /\ isTerminal (status v) = true) <-> isTerminal (status r) = true.
Proof. split; [by intros (v & [= ->] & ?)|eauto]. Qed.
Lemma elem_of_if_single {A} (b : bool) (x y : A) : x = y -> x ∈ (if b then [y] else []) <-> b = true.
Proof. intros ->. destruct b; [by rewrite list_elem_of_singleton|by rewrite elem_of_nil]. Qed.

Lemma announce_ids r r' l :
  map id (announce r r' l) =
    map id l ++ (if isTerminal (status r') && negb (isTerminal (status r)) then [id r'] else []).
Proof. unfold announce. destruct (_ && _); [by rewrite map_app|by rewrite app_nil_r]. Qed.

Lemma create_ok r rs se us :
  id r ∉ us -> truthy (id r) = true -> status r = pending -> leaseToken r = None ->
  attempts r = 0 -> errorAttempts r = 0 ->
  machine_ok (MkMachine rs se us) -> machine_ok (MkMachine (<[id r := r]> rs) se (id r :: us)).
Proof.
  intros Hfr Ht Hp Hk Ha He [Hid Hrun Htok Hown Hses Hnd Hset]; simpl in *.
  assert (Hnew : rs !! id r = None).
  { apply eq_None_not_Some. intros [r0 Hr0]. destruct (Hid _ _ Hr0) as (? & ? & ?). done. }
  assert (Hlook : forall k v, <[id r := r]> rs !! k = Some v -> (k = id r /\ v = r) \/ rs !! k = Some v).
  { intros k v. rewrite lookup_set. case_decide; naive_solver. }
  split; simpl.
  - intros k v [[-> ->]|Hv]%Hlook; [by rewrite elem_of_cons; auto|].
    destruct (Hid _ _ Hv) as (? & ? & ?). rewrite elem_of_cons. auto.
  - intros k v [[-> ->]|Hv]%Hlook; [|eauto].
    split; rewrite ?Hp, ?Hk, ?He; try done; lia.
  - intros k v t [[-> ->]|Hv]%Hlook Hvt; [congruence|]. rewrite elem_of_cons. eauto.
  - intros k k' v v' t [[-> ->]|Hv]%Hlook [[-> ->]|Hv']%Hlook ? ?; try congruence. eauto.
  - intros k k' v v' [[-> ->]|Hv]%Hlook [[-> ->]|Hv']%Hlook ? ? ?; try congruence. eauto.
  - done.
  - intros k. rewrite Hset. setoid_rewrite lookup_set. split.
    + intros (v & Hv & Hvt). exists v. rewrite decide_False; [done|]. congruence.
    + intros (v & Hv & Hvt). case_decide; [|eauto]. simplify_eq. by rewrite pending_live in Hvt.
Qed.

Lemma life_ok u k r r' rs se us :
  rs !! k = Some r -> same_run r r' -> (forall t, u = Some t -> t ∉ us) ->
  life (session_free rs (sessionId r)) u r r' ->
  machine_ok (MkMachine rs se us) ->
  machine_ok (MkMachine (<[k := r']> rs) (announce r r' se) (mint u us)).
Proof.
  intros Hk Hsame Hu Hl [Hid Hrun Htok Hown Hses Hnd Hset]; simpl in *.
  pose proof Hsame as (Hsid & Hsess & _).
  assert (Hlook : forall k' v, <[k := r']> rs !! k' = Some v -> (k' = k /\ v = r') \/ (k' <> k /\ rs !! k' = Some v)).
  { intros k' v. rewrite lookup_set. case_decide; naive_solver. }
  destruct (Hid _ _ Hk) as (Hidk & Husd & Htr).
  split; simpl.
  - intros k' v [[-> ->]|[_ Hv]]%Hlook; rewrite elem_of_mint.
    + split; [congruence|auto].
    + destruct (Hid _ _ Hv) as (? & ? & ?). auto.
  - intros k' v [[-> ->]|[_ Hv]]%Hlook; [by eapply life_run_ok; eauto|eauto].
  - intros k' v t [[-> ->]|[_ Hv]]%Hlook Hvt; rewrite elem_of_mint; [|eauto].
    destruct (life_token _ _ _ _ _ Hl Hvt); eauto.
  - assert (Hgen : forall k' v t, k' <> k -> rs !! k' = Some v -> leaseToken r' = Some t ->
      leaseToken v = Some t -> False).
    { intros k' v t Hne Hv H1 H2. destruct (life_token _ _ _ _ _ Hl H1) as [H3|H3].
      - eauto.
      - by apply (Hu t H3), (Htok _ _ _ Hv). }
    intros k1 k2 v1 v2 t [[-> ->]|[? Hv]]%Hlook [[-> ->]|[? Hv']]%Hlook ? ?; eauto; exfalso; eauto.
  - assert (Hgen : forall k' v, k' <> k -> rs !! k' = Some v -> status r' = running ->
      status v = running -> sessionId r' = sessionId v -> False).
    { intros k' v Hne Hv H1 H2 H3. destruct (life_running _ _ _ _ Hl H1) as [H4|H4].
      - apply Hne. eapply Hses; eauto. congruence.
      - eapply H4; eauto. congruence. }
    intros k1 k2 v1 v2 [[-> ->]|[? Hv]]%Hlook [[-> ->]|[? Hv']]%Hlook ? ? ?; eauto; exfalso; eauto.
  - rewrite announce_ids. destruct (_ && _) eqn:E; [|by rewrite app_nil_r].
    apply NoDup_app. split; [done|]. split; [|apply NoDup_singleton].
    intros k' Hk' ->%list_elem_of_singleton. apply Hset in Hk' as (v & Hv & Hvt).
    to_prop. rewrite Hsid, Hidk in Hv. congruence.
  - intros k'. rewrite announce_ids, elem_of_app, Hset.
    destruct (decide (k = k')) as [<-|Hne].
    + rewrite lookup_set_eq, Hk, !some_terminal, (elem_of_if_single _ k (id r')) by congruence.
      pose proof (life_terminal_mono _ _ _ _ Hl).
      destruct (isTerminal (status r')), (isTerminal (status r)); simpl; naive_solver.
    + rewrite lookup_set_ne by done. assert (k' <> id r') by congruence.
      destruct (_ && _); rewrite ?list_elem_of_singleton, ?elem_of_nil; tauto.
Qed.

Lemma machine_ok_step m m' : machine_ok m -> machine_step m m' -> machine_ok m'.
Proof.
  intros Hm Hs. destruct Hs as [u rs se us Hu|r rs se us|u k r r' rs se us];
    [|by apply (create_ok r rs se us)|by apply (life_ok u k r r' rs se us)].
  destruct Hm as [Hid Hrun Htok Hown Hses Hnd Hset]. split; simpl in *; eauto.
  - intros k r Hr. destruct (Hid _ _ Hr) as (? & ? & ?). rewrite elem_of_cons. auto.
  - intros k r t ? ?. rewrite elem_of_cons. eauto.
Qed.

Lemma machine_ok_reach m : Reach m -> machine_ok m.
Proof.
  apply invariant_reachable; [|apply machine_ok_step].
  intros ? ->. split; simpl; try done; try apply NoDup_nil_2.
  intros k. rewrite elem_of_nil. split; [done|]. by intros (? & ? & ?).
Qed.

(** ** What holds of every continuation *)

(** A token that was handed out and is held by no run. *)
Definition dead (t : string) (m : Machine) : Prop :=
  t ∈ m_used m /\ forall k r, m_runs m !! k = Some r -> leaseToken r <> Some t.

Lemma dead_step t m m' : dead t m -> machine_step m m' -> dead t m'.
Proof.
  intros [Hu Hd] Hs. destruct Hs as [u rs se us Hf|r rs se us Hf Ht Hp Hk|u k r r' rs se us Hk Hsame Hfr Hl];
    unfold dead; simpl in *; rewrite ?elem_of_cons; (split; [rewrite ?elem_of_mint; auto|]); [done| |].
  - intros k v. rewrite lookup_set. case_decide; [|eauto]. intros [= <-]. congruence.
  - intros k' v. rewrite lookup_set. case_decide; [|eauto]. intros [= <-] Hv.
    destruct (life_token _ _ _ _ _ Hl Hv) as [H0|H0]; [by eapply Hd|by eapply Hfr].
Qed.

Lemma dead_rtc t m m' : rtc machine_step m m' -> dead t m -> dead t m'.
Proof. apply rtc_invariant. intros ? ?. apply dead_step. Qed.

(** A run that ended, and how it ended. *)
Definition ended (k : string) (r : Run) (m : Machine) : Prop :=
  exists ds, m_runs m !! k = Some (r <| deliveryState := ds |>).

Lemma ended_step k r m m' :
  machine_ok m -> isTerminal (status r) = true -> ended k r m -> machine_step m m' -> ended k r m'.
Proof.
  intros Hm Ht [ds Hr] Hs. destruct Hs as [u rs se us Hf|v rs se us Hf Htr Hp Hkv|u k' v v' rs se us Hk Hsame Hfr Hl];
    unfold ended; simpl in *; [eauto| |].
  - exists ds. rewrite lookup_set_ne; [done|]. intros <-.
    by destruct (mo_id _ Hm _ _ Hr) as (_ & ? & _).
  - rewrite lookup_set. case_decide; [subst|eauto]. simplify_eq.
    destruct (life_terminal _ _ _ _ Hl) as [ds' ->]; [done|]. by exists ds'.
Qed.

Lemma ended_rtc k r m m' :
  rtc machine_step m m' -> machine_ok m -> isTerminal (status r) = true -> ended k r m -> ended k r m'.
Proof.
  intros Hr Hm Ht He.
  eapply (rtc_invariant machine_step (fun m => machine_ok m /\ ended k r m)); [|exact Hr|done].
  intros s s' [? ?] ?. split; [by eapply machine_ok_step|by eapply ended_step].
Qed.

(** Runs are never dropped, and keep their identity. *)
Lemma same_run_trans r1 r2 r3 : same_run r1 r2 -> same_run r2 r3 -> same_run r1 r3.
Proof. unfold same_run. intuition congruence. Qed.
Lemma same_run_refl r : same_run r r.
Proof. by unfold same_run. Qed.

Lemma persists_step k r m m' :
  machine_ok m -> m_runs m !! k = Some r -> machine_step m m' ->
  exists r', m_runs m' !! k = Some r' /\ same_run r r' /\ attempts r <= attempts r' /\
    errorAttempts r <= errorAttempts r'.
Proof.
  intros Hm Hr Hs. destruct Hs as [u rs se us Hf|v rs se us Hf Htr Hp Hkv|u k' v v' rs se us Hk Hsame Hfr Hl];
    simpl in *.
  - exists r. by repeat split.
  - exists r. rewrite lookup_set_ne; [by repeat split|]. intros <-.
    by destruct (mo_id _ Hm _ _ Hr) as (_ & ? & _).
  - rewrite lookup_set. case_decide; [subst|exists r; by repeat split]. simplify_eq.
    exists v'. split; [done|]. split; [done|].
    destruct Hl as [| |e|e|]; try lia; try (destruct e; simpl in *; lia). done.
Qed.
