(* ===== verification/RunsSafety.v ===== *)
(** * The run queue refines its lifecycle

    A run of the queue is a sequence of calls on the store ([Op]), every fresh identifier
    being new and non-empty.  The queue refines the lifecycle machine call by call; the
    safety properties are the machine's, read back on the store. *)

From S2P Require Import Prelude JsString Turn Runs Lifecycle.

(** ** Sequences of calls *)

Inductive Op :=
| OEnqueue (uuid : string) (now : Z) (i : EnqueueInput)
| OClaim (uuid : string) (now : Z) (wid : string) (ttl : Z)
| OClaimById (uuid : string) (now : Z) (runId wid : string) (ttl : Z)
| OHeartbeat (now : Z) (runId token : string) (ttl : Z)
| ORelease (runId token : string)
| OComplete (now : Z) (runId token : string) (res : TurnResult)
| OFail (now : Z) (runId token error : string) (retry : option bool)
| OSetDelivery (runId : string) (token ds : option string)
| OReap (now : Z) (maxAgeMs : option Z)
| ORecord (runId : string) (attempt callIndex : Z) (output : string).

Definition minted (o : Op) : option string :=
  match o with
  | OEnqueue u _ _ | OClaim u _ _ _ | OClaimById u _ _ _ _ => Some u
  | _ => None
  end.

Definition exec (mc : option Z) (o : Op) (st : Store) : Store :=
  match o with
  | OEnqueue u now i => (enqueue u now i st).2
  | OClaim u now wid ttl => (claim u now wid ttl st).2
  | OClaimById u now k wid ttl => (claimById u now k wid ttl st).2
  | OHeartbeat now k t ttl => (heartbeat now k t ttl st).2
  | ORelease k t => (releaseLease k t st).2
  | OComplete now k t res => (complete now k t res st).2
  | OFail now k t e retry => (fail_ mc now k t e retry st).2
  | OSetDelivery k t ds => (setDeliveryState k t ds st).2
  | OReap now age => (reapExpired mc now age st).2
  | ORecord k a c out => ledger_record k a c out st
  end.

(** The store with the identifiers handed out so far. *)
Record Sys := MkSys { store : Store; used : list string }.

Inductive sys_step (mc : option Z) : Sys -> Sys -> Prop :=
| sys_op o st us :
    (forall u, minted o = Some u -> (u ∉ us) /\ truthy u = true) ->
    sys_step mc (MkSys st us) (MkSys (exec mc o st) (mint (minted o) us)).

Definition sys_init (s : Sys) : Prop := s = MkSys empty_store [].

Definition SysReach (mc : option Z) : Sys -> Prop := reachable sys_init (sys_step mc).

(** What the machine sees of the store. *)
Definition view (st : Store) (us : list string) : Machine := MkMachine (runs st) (settled st) us.
Definition sys_view (s : Sys) : Machine := view (store s) (used s).

(** ** Each call is a sequence of machine steps *)

Lemma sessionHasRunning_false st sid :
  sessionHasRunning st sid = false -> session_free (runs st) sid.
Proof.
  unfold sessionHasRunning. rewrite some_false. intros Hf k r Hr Hs Hrun.
  assert (Hin : r ∈ values (runs st)) by (apply elem_of_values; eauto).
  specialize (Hf _ Hin). by rewrite Hs, Hrun, !eqb_refl in Hf.
Qed.

Lemma sessionHasRunning_true st sid :
  sessionHasRunning st sid = true <->
  exists k r, runs st !! k = Some r /\ sessionId r = sid /\ status r = running.
Proof.
  unfold sessionHasRunning. rewrite some_true. split.
  - intros (r & [k Hk]%elem_of_values & Hp). to_prop. eauto.
  - intros (k & r & Hk & Hs & Hr). exists r. split; [apply elem_of_values; eauto|].
    by rewrite Hs, Hr, !eqb_refl.
Qed.

(** Writing back a run after a lifecycle step, and announcing it when it ended. *)
Lemma put_life u k r r' st us :
  machine_ok (view st us) -> runs st !! k = Some r -> same_run r r' ->
  (forall t, u = Some t -> t ∉ us) -> life (session_free (runs st) (sessionId r)) u r r' ->
  isTerminal (status r') && negb (isTerminal (status r)) = false ->
  machine_step (view st us) (view (put_run r' st) (mint u us)).
Proof.
  intros Hm Hk Hsame Hu Hl Ha. destruct (mo_id _ Hm _ _ Hk) as (Hid & _).
  pose proof (step_life u k r r' (runs st) (settled st) us Hk Hsame Hu Hl) as Hs.
  unfold announce in Hs. rewrite Ha in Hs. unfold view, put_run; simpl.
  replace (id r') with k by (destruct Hsame; congruence). exact Hs.
Qed.

Lemma settle_life k r r' st us :
  machine_ok (view st us) -> runs st !! k = Some r -> status r = running -> same_run r r' ->
  life (session_free (runs st) (sessionId r)) None r r' ->
  machine_step (view st us) (view (settle r' (put_run r' st)) us).
Proof.
  intros Hm Hk Hrun Hsame Hl. destruct (mo_id _ Hm _ _ Hk) as (Hid & _).
  pose proof (step_life None k r r' (runs st) (settled st) us Hk Hsame ltac:(done) Hl) as Hs.
  unfold announce in Hs. rewrite (running_live r Hrun), andb_true_r in Hs.
  unfold view, settle, put_run; simpl. replace (id r') with k by (destruct Hsame; congruence).
  destruct (isTerminal (status r')); exact Hs.
Qed.

Lemma lease_life u now wid ttl r (free : Prop) :
  status r = pending -> free -> life free (Some u) r (lease u now wid ttl r).
Proof. intros. by eapply life_claim. Qed.

Lemma retire_run_life mc now r err retry asOf ce (free : Prop) :
  let '(r', flags) := retire_run mc now r err retry asOf ce in
  if flags.2 : bool then status r = running /\ same_run r r' /\ life free None r r' else r' = r.
Proof.
  unfold retire_run. destruct (status r === running) eqn:E; simpl; [|done]. to_prop.
  destruct (match asOf with None => false | _ => _ end); simpl; [done|].
  set (ov := match mc with None => false | Some m => _ end).
  destruct ce; simpl; destruct (retry && (_ <? _) && negb ov) eqn:Ec; simpl; (split; [done|]); (split; [by unfold same_run|]).
  - to_prop. by apply (life_requeue _ true).
  - by apply (life_finish _ true).
  - apply (life_requeue _ false); try done; simpl. lia.
  - apply (life_finish _ false); try done; simpl. lia.
Qed.

Lemma retire_steps mc now k r err retry asOf ce st us :
  machine_ok (view st us) -> runs st !! k = Some r ->
  rtc machine_step (view st us) (view (retire mc now r err retry asOf ce st).2 us).
Proof.
  intros Hm Hk. pose proof (retire_run_life mc now r err retry asOf ce
    (session_free (runs st) (sessionId r))) as Hl.
  unfold retire. destruct (retire_run _ _ _ _ _ _ _) as [r' flags].
  destruct (flags.2); simpl; [|done]. destruct Hl as (Hrun & Hs & Hl).
  apply rtc_once. by eapply settle_life.
Qed.

Lemma fold_steps {A} (f : A * Store -> Run -> A * Store) us l acc :
  (forall acc r, machine_ok (view acc.2 us) ->
    (exists k, is_Some (runs acc.2 !! k) /\ id r = k) ->
    rtc machine_step (view acc.2 us) (view (f acc r).2 us)) ->
  machine_ok (view acc.2 us) -> (forall r, r ∈ l -> is_Some (runs acc.2 !! id r)) ->
  rtc machine_step (view acc.2 us) (view (fold_left f l acc).2 us).
Proof.
  intros Hf. revert acc. induction l as [|r l IH]; intros acc Hm Hin; simpl; [done|].
  assert (Hs : rtc machine_step (view acc.2 us) (view (f acc r).2 us)).
  { apply Hf; [done|]. eexists; split; [|done]. apply Hin, list_elem_of_here. }
  etransitivity; [exact Hs|].
  assert (Hrun : forall k, is_Some (runs acc.2 !! k) -> is_Some (runs (f acc r).2 !! k)).
  { intros k Hk. assert (H : is_Some (m_runs (view (f acc r).2 us) !! k)); [|exact H].
    eapply (rtc_invariant machine_step (fun m => machine_ok m /\ is_Some (m_runs m !! k))); [|exact Hs|done].
    intros m m' [? [v Hv]] ?. split; [by eapply machine_ok_step|].
    destruct (persists_step k v m m') as (v' & ? & _); eauto. }
  apply IH.
  - eapply (rtc_invariant machine_step machine_ok); [|exact Hs|done]. intros. by eapply machine_ok_step.
  - intros r' Hr'. apply Hrun, Hin. by apply list_elem_of_further.
Qed.

Lemma reap_steps mc now age st us :
  machine_ok (view st us) ->
  rtc machine_step (view st us) (view (reapExpired mc now age st).2 us).
Proof.
  intros Hm. unfold reapExpired.
  apply (fold_steps (reap_one mc now age) us _ (MkReport 0 0 [] [], st)); [|done|].
  - intros [rep st1] r Hm1 (k & [v Hv] & <-). simpl in *. rewrite Hv; simpl.
    pose proof (retire_steps mc now _ v
      (if match age, startedAt v with Some a, Some s => (now - s >? a)%Z | _, _ => false end
       then "run exceeded max age (reaped)" else "lease expired (reaped)")
      (negb match age, startedAt v with Some a, Some s => (now - s >? a)%Z | _, _ => false end)
      (Some now) false st1 us Hm1 Hv) as Hs.
    destruct (retire _ _ _ _ _ _ _ _) as [[a b] st2]; simpl in *. by destruct b.
  - simpl. intros r [_ [k Hk]%elem_of_values]%elem_of_js_filter.
    destruct (mo_id _ Hm _ _ Hk) as (<- & _). eauto.
Qed.

(** A call on the lease holder of a run is fenced by its token. *)
Lemma holder_running m k r t :
  machine_ok m -> m_runs m !! k = Some r -> leaseToken r = Some t -> status r = running.
Proof. intros Hm Hk Ht. apply (ok_running _ (mo_run _ Hm _ _ Hk)). eauto. Qed.

Ltac guard_case :=
  match goal with
  | |- context [if ?b then _ else _] => destruct b eqn:?; simpl in *; try done; to_prop
  end.

Lemma claim_member st r l : claimable st = r :: l ->
  exists k, runs st !! k = Some r /\ status r = pending /\ session_free (runs st) (sessionId r).
Proof.
  unfold claimable. intros E.
  match type of E with js_sort ?c ?l = _ => assert (Hin : r ∈ js_sort c l) by (rewrite E; apply list_elem_of_here) end.
  rewrite elem_of_js_sort in Hin. apply elem_of_js_filter in Hin as [Hp [k Hk]%elem_of_values].
  to_prop. eauto using sessionHasRunning_false.
Qed.

Lemma lease_step u now wid ttl k r st us :
  machine_ok (view st us) -> runs st !! k = Some r -> status r = pending ->
  session_free (runs st) (sessionId r) -> u ∉ us ->
  rtc machine_step (view st us) (view (put_run (lease u now wid ttl r) st) (u :: us)).
Proof.
  intros Hm Hk Hp Hf Hu. apply rtc_once, (put_life (Some u) k r); try done.
  - by intros ? [= <-].
  - by apply lease_life.
Qed.

Lemma keep_step k r r' st us :
  machine_ok (view st us) -> runs st !! k = Some r -> same_run r r' ->
  life (session_free (runs st) (sessionId r)) None r r' ->
  isTerminal (status r') && negb (isTerminal (status r)) = false ->
  rtc machine_step (view st us) (view (put_run r' st) us).
Proof. intros. by apply rtc_once, (put_life None k r). Qed.

Lemma exec_steps mc o st us :
  machine_ok (view st us) -> (forall u, minted o = Some u -> (u ∉ us) /\ truthy u = true) ->
  rtc machine_step (view st us) (view (exec mc o st) (mint (minted o) us)).
Proof.
  intros Hm Hfr.
  destruct o as [u now i|u now wid ttl|u now k wid ttl|now k t ttl|k t|now k t res|now k t e retry|k t ds|now age|k a c out];
    simpl in *; try (destruct (Hfr u eq_refl) as [Hu Htr]).
  - unfold enqueue. destruct (find_deduped _ _); simpl; [by apply rtc_once, step_mint|].
    apply rtc_once. destruct (e_dedupKey i) as [key|]; [destruct (truthy key)|];
      by apply (step_create (new_run u now i)).
  - unfold claim. destruct (claimable st) as [|r l] eqn:E; simpl; [by apply rtc_once, step_mint|].
    destruct (claim_member _ _ _ E) as (k & Hk & Hp & Hf).
    by apply (lease_step u now wid ttl k).
  - unfold claimById. destruct (runs st !! k) as [r|] eqn:Hk; [|by apply rtc_once, step_mint].
    destruct (_ || _) eqn:Eb; simpl; [by apply rtc_once, step_mint|]. to_prop.
    apply (lease_step u now wid ttl k); try done. by apply sessionHasRunning_false.
  - unfold heartbeat. destruct (runs st !! k) as [r|] eqn:Hk; [|done].
    destruct (_ || _) eqn:Eb; simpl; [done|]. to_prop.
    apply (keep_step k r); try done; [by apply life_renew|by destruct (isTerminal _)].
  - unfold releaseLease. destruct (runs st !! k) as [r|] eqn:Hk; [|done].
    destruct (_ || _) eqn:Eb; simpl; [done|]. to_prop.
    apply (keep_step k r); try done. apply (life_requeue _ false); try done; simpl; lia.
  - unfold complete. destruct (runs st !! k) as [r|] eqn:Hk; [|done].
    destruct (negb _) eqn:Eb; [done|]. to_prop. apply rtc_once.
    pose proof (holder_running _ _ _ _ Hm Hk Eb).
    apply (settle_life k r); try done.
    apply (life_finish _ false); try done; simpl. lia.
  - unfold fail_. destruct (runs st !! k) as [r|] eqn:Hk; [|done].
    destruct (negb _) eqn:Eb; [done|].
    pose proof (retire_steps mc now k r e (negb (retry === Some false)) None true st us Hm Hk) as Hs.
    destruct (retire _ _ _ _ _ _ _ _) as [[? ?] ?]. exact Hs.
  - unfold setDeliveryState. destruct (runs st !! k) as [r|] eqn:Hk; [|done].
    destruct (_ && _); [done|].
    apply (keep_step k r); try done; [apply life_annotate|by simpl; destruct (isTerminal _)].
  - by apply reap_steps.
  - done.
Qed.

(** ** Reading the machine's properties back *)

Lemma sys_step_view mc s s' :
  machine_ok (sys_view s) -> sys_step mc s s' -> rtc machine_step (sys_view s) (sys_view s').
Proof. intros Hm Hst. destruct Hst as [o st us Hfr]. by apply exec_steps. Qed.

Lemma sys_reach_view mc s : SysReach mc s -> Reach (sys_view s).
Proof.
  intros Hs.
  destruct (simulation_reachable sys_init (sys_step mc) initial machine_step (fun s m => m = sys_view s /\ Reach m))
    with (c := s) as (m & Hm & -> & _); [| |done|done].
  - intros ? ->. exists (MkMachine ∅ [] []). split; [done|]. split; [done|]. by apply reachable_init.
  - intros c c' a Hc [-> Ha] Hst. exists (sys_view c').
    assert (Hr : rtc machine_step (sys_view c) (sys_view c')).
    { eapply sys_step_view; [|exact Hst]. by apply machine_ok_reach. }
    split; [done|]. split; [done|]. by eapply reachable_rtc.
Qed.

Lemma sys_ok mc s : SysReach mc s -> machine_ok (sys_view s).
Proof. intros. by eapply machine_ok_reach, sys_reach_view. Qed.

Lemma sys_rtc_view mc s s' :
  SysReach mc s -> rtc (sys_step mc) s s' -> rtc machine_step (sys_view s) (sys_view s').
Proof.
  intros Hs Hr. induction Hr as [|s1 s2 s3 H12 Hr IH]; [done|].
  etransitivity; [|apply IH; by eapply reachable_step].
  eapply sys_step_view; [|exact H12]. by eapply sys_ok.
Qed.

(** ** Executable traces, for the witnesses *)

Fixpoint exec_all (mc : option Z) (ops : list Op) (s : Sys) : Sys :=
  match ops with
  | [] => s
  | o :: ops => exec_all mc ops (MkSys (exec mc o (store s)) (mint (minted o) (used s)))
  end.

Fixpoint fresh_all (ops : list Op) (us : list string) : bool :=
  match ops with
  | [] => true
  | o :: ops =>
      match minted o with Some u => negb (includes us u) && truthy u | None => true end
      && fresh_all ops (mint (minted o) us)
  end.

Lemma exec_all_rtc mc ops s : fresh_all ops (used s) = true -> rtc (sys_step mc) s (exec_all mc ops s).
Proof.
  revert s. induction ops as [|o ops IH]; intros [st us] Hf; simpl in *; [done|].
  apply andb_true_iff in Hf as [Hf1 Hf2]. eapply rtc_l; [|by apply IH].
  apply sys_op. intros u Hu. rewrite Hu in Hf1. to_prop. by apply includes_false in H.
Qed.
Definition init_sys : Sys := MkSys empty_store [].
Lemma exec_all_reach mc ops : fresh_all ops [] = true -> SysReach mc (exec_all mc ops init_sys).
Proof. intros. exists init_sys. split; [done|]. by apply exec_all_rtc. Qed.

(** ** Safety *)


(** C2: safety of leases, over every sequence of calls.  A run is running exactly while it
    holds a lease token, and then its lease has an expiry; no two runs hold the same token;
    no two runs of one session are running; and [sessionHasRunning] answers accordingly. *)
Theorem lease_mutual_exclusion mc s :
  SysReach mc s ->
  (forall k r, runs (store s) !! k = Some r -> id r = k /\
     (status r = running <-> is_Some (leaseToken r)) /\
     (status r = running -> is_Some (leaseExpiresAt r))) /\
  (forall k k' r r' t, runs (store s) !! k = Some r -> runs (store s) !! k' = Some r' ->
     leaseToken r = Some t -> leaseToken r' = Some t -> k = k') /\
  (forall k k' r r', runs (store s) !! k = Some r -> runs (store s) !! k' = Some r' ->
     status r = running -> status r' = running -> sessionId r = sessionId r' -> k = k') /\
  (forall sid, sessionHasRunning (store s) sid = true <->
     exists k r, runs (store s) !! k = Some r /\ sessionId r = sid /\ status r = running).
Proof.
  intros Hm%sys_ok. repeat split.
  - by apply (mo_id _ Hm) in H as [? _].
  - by apply (ok_running _ (mo_run _ Hm _ _ H)).
  - by apply (ok_running _ (mo_run _ Hm _ _ H)).
  - by apply (ok_expiry _ (mo_run _ Hm _ _ H)).
  - apply (mo_owner _ Hm).
  - apply (mo_session _ Hm).
  - apply sessionHasRunning_true.
  - apply sessionHasRunning_true.
Qed.

Lemma dead_fenced mc t st us :
  machine_ok (view st us) -> dead t (view st us) -> forall k now ttl res err retry,
  heartbeat now k t ttl st = (false, st) /\ releaseLease k t st = (false, st) /\
  complete now k t res st = (false, st) /\ fail_ mc now k t err retry st = (false, st).
Proof.
  intros Hm [_ Hd] k now ttl res err retry. simpl in Hd.
  unfold heartbeat, releaseLease, complete, fail_.
  destruct (runs st !! k) as [r|] eqn:Hk; [|done].
  assert (Hf : (leaseToken r === Some t) = false) by (apply eqb_false; eauto).
  rewrite Hf, orb_true_r. done.
Qed.

(** Fencing.  Once a token that was handed out is held by no run, it is never accepted
    again: after any further calls, a heartbeat, release, completion or failure that
    presents it answers [false] and leaves the store as it is. *)
Theorem stale_token_fenced mc s s' t :
  SysReach mc s -> t ∈ used s ->
  (forall k r, runs (store s) !! k = Some r -> leaseToken r <> Some t) ->
  rtc (sys_step mc) s s' ->
  forall k now ttl res err retry,
  heartbeat now k t ttl (store s') = (false, store s') /\
  releaseLease k t (store s') = (false, store s') /\
  complete now k t res (store s') = (false, store s') /\
  fail_ mc now k t err retry (store s') = (false, store s').
Proof.
  intros Hs Hu Hd Hr. apply (dead_fenced mc t (store s') (used s')).
  - eapply sys_ok, reachable_rtc; eauto.
  - eapply dead_rtc; [by eapply sys_rtc_view|]. by split.
Qed.

(** C3: a run that ended stays as it ended (only its delivery state may still change), and
    its end was announced to the listeners exactly once, then and in every later state. *)
Theorem terminal_forever_announced_once mc s s' k r :
  SysReach mc s -> runs (store s) !! k = Some r -> isTerminal (status r) = true ->
  rtc (sys_step mc) s s' ->
  (exists ds, runs (store s') !! k = Some (r <| deliveryState := ds |>)) /\
  length (filter (fun k' => k' = k) (map id (settled (store s')))) = 1%nat.
Proof.
  intros Hs Hk Ht Hr.
  assert (He : ended k r (sys_view s')).
  { eapply ended_rtc; [by eapply sys_rtc_view|by eapply sys_ok|done|]. exists (deliveryState r). by destruct r. }
  destruct He as [ds Hds]. split; [eauto|].
  assert (Hm : machine_ok (sys_view s')) by (eapply sys_ok, reachable_rtc; eauto).
  apply NoDup_filter_single; [apply (mo_settled_once _ Hm)|].
  apply (mo_settled _ Hm). eauto.
Qed.

(** The retry budget.  The failures counted against a run never exceed its budget
    (which is at least one), and a run that has not ended has a failure left; a run that
    ended carries a result and the time it finished. *)
Theorem retry_budget mc s k r :
  SysReach mc s -> runs (store s) !! k = Some r ->
  0 <= errorAttempts r <= Z.max 1 (maxAttempts r) /\
  (isTerminal (status r) = false -> errorAttempts r < Z.max 1 (maxAttempts r)) /\
  (isTerminal (status r) = true -> is_Some (run_result r) /\ is_Some (finishedAt r)).
Proof. intros Hm%sys_ok Hk. by destruct (mo_run _ Hm _ _ Hk). Qed.

(** ** De-duplication *)

Lemma settle_byKey r st : byKey (settle r st) = byKey st.
Proof. unfold settle. by destruct (negb _). Qed.
Lemma retire_byKey mc now r err retry asOf ce st :
  byKey (retire mc now r err retry asOf ce st).2 = byKey st.
Proof.
  unfold retire. destruct (retire_run _ _ _ _ _ _ _) as [r' flags]. destruct flags.2; [|done].
  cbn [snd]. by rewrite settle_byKey.
Qed.
Lemma reap_byKey mc now age l acc : byKey (fold_left (reap_one mc now age) l acc).2 = byKey acc.2.
Proof.
  revert acc. induction l as [|r l IH]; intros [rep st]; simpl; [done|].
  rewrite IH. unfold reap_one.
  match goal with |- context [retire ?a ?b ?c ?d ?e ?f ?g ?h] =>
    pose proof (retire_byKey a b c d e f g h) as H; destruct (retire a b c d e f g h) as [[x y] st'] end.
  simpl in *. destruct y; exact H.
Qed.

Definition keyed (key rid : string) (st : Store) : Prop :=
  byKey st !! key = Some rid /\ truthy rid = true /\ is_Some (runs st !! rid).

Lemma keyed_find key rid st : truthy key = true -> keyed key rid st -> find_deduped st (Some key) = runs st !! rid.
Proof. intros Hk (Hb & Ht & _). unfold find_deduped. by rewrite Hk, Hb, Ht. Qed.

Lemma keyed_exec mc o st us key rid :
  machine_ok (view st us) -> (forall u, minted o = Some u -> (u ∉ us) /\ truthy u = true) ->
  truthy key = true -> keyed key rid st -> keyed key rid (exec mc o st).
Proof.
  intros Hm Hfr Hkey Hk. pose proof Hk as (Hb & Ht & Hrid).
  assert (Hrun : is_Some (runs (exec mc o st) !! rid)).
  { assert (H : is_Some (m_runs (view (exec mc o st) (mint (minted o) us)) !! rid)); [|exact H].
    eapply (rtc_invariant machine_step (fun m => machine_ok m /\ is_Some (m_runs m !! rid)));
      [|by eapply exec_steps|done].
    intros m m' [? [v Hv]] ?. split; [by eapply machine_ok_step|].
    destruct (persists_step rid v m m') as (v' & ? & _); eauto. }
  split; [|by split].
  destruct o as [u now i|u now wid ttl|u now k wid ttl|now k t ttl|k t|now k t res|now k t e retry|k t ds|now age|k a c out];
    simpl.
  - unfold enqueue. destruct (find_deduped st (e_dedupKey i)) eqn:Ef; [done|].
    destruct (e_dedupKey i) as [k'|]; [|done]. destruct (truthy k') eqn:Ek; [|done]. simpl.
    rewrite lookup_set. case_decide; [|done]. subst k'.
    rewrite (keyed_find _ _ _ Hkey Hk) in Ef. destruct Hrid as [? Hrid]. congruence.
  - unfold claim. by destruct (head (claimable st)).
  - unfold claimById. destruct (runs st !! k); [|done]. by destruct (_ || _).
  - unfold heartbeat. destruct (runs st !! k); [|done]. by destruct (_ || _).
  - unfold releaseLease. destruct (runs st !! k); [|done]. by destruct (_ || _).
  - unfold complete. destruct (runs st !! k); [|done]. destruct (negb _); [done|].
    cbn [snd]. by rewrite settle_byKey.
  - unfold fail_. destruct (runs st !! k) as [r|]; [|done]. destruct (negb _); [done|].
    pose proof (retire_byKey mc now r e (negb (retry === Some false)) None true st) as H.
    destruct (retire _ _ _ _ _ _ _ _). cbn [snd] in *. by rewrite H.
  - unfold setDeliveryState. destruct (runs st !! k); [|done]. by destruct (_ && _).
  - unfold reapExpired. by rewrite reap_byKey.
  - done.
Qed.

(** At most one run per de-duplication key.  After an enqueue under a non-empty key,
    every later enqueue under that key, whatever happened in between, answers with the same
    run, says so, and changes nothing. *)
Theorem dedup_forever mc s s' u now i key u' now' i' :
  SysReach mc s -> (u ∉ used s) -> truthy u = true ->
  e_dedupKey i = Some key -> e_dedupKey i' = Some key -> truthy key = true ->
  rtc (sys_step mc) (MkSys (enqueue u now i (store s)).2 (u :: used s)) s' ->
  exists r, enqueue u' now' i' (store s') = ((r, true), store s') /\
    id r = id (enqueue u now i (store s)).1.1.
Proof.
  intros Hs Hu Htu Hi Hi' Hkey Hr.
  set (rid := id (enqueue u now i (store s)).1.1).
  set (s1 := MkSys (enqueue u now i (store s)).2 (u :: used s)) in *.
  assert (Hs1 : SysReach mc s1).
  { eapply reachable_step; [exact Hs|]. destruct s as [st us].
    apply (sys_op mc (OEnqueue u now i)). intros ? [= <-]. done. }
  assert (Hk1 : keyed key rid (store s1)).
  { unfold s1, rid, enqueue. simpl. rewrite Hi. destruct (find_deduped (store s) (Some key)) as [r|] eqn:Ef; simpl.
    - unfold find_deduped in Ef. rewrite Hkey in Ef.
      destruct (byKey (store s) !! key) as [k'|] eqn:Eb; [|done]. destruct (truthy k') eqn:Et; [|done].
      destruct (mo_id _ (sys_ok _ _ Hs) _ _ Ef) as (<- & _). unfold keyed. eauto.
    - rewrite Hkey. unfold keyed. simpl. by rewrite !lookup_set_eq. }
  assert (Hk' : SysReach mc s' /\ keyed key rid (store s')).
  { eapply (rtc_invariant (sys_step mc) (fun s => SysReach mc s /\ keyed key rid (store s))); [|exact Hr|done].
    intros a b [Ha Hka] Hab. split; [by eapply reachable_step|].
    pose proof (sys_ok _ _ Ha) as Hm. destruct Hab as [o st us Hfr]. by eapply keyed_exec. }
  destruct Hk' as [Hs' Hk']. pose proof Hk' as (_ & _ & [r Hrr]).
  exists r. unfold enqueue at 1. rewrite Hi', (keyed_find _ _ _ Hkey Hk'), Hrr. split; [done|].
  by destruct (mo_id _ (sys_ok _ _ Hs') _ _ Hrr).
Qed.

(** ** Witnesses *)

Definition demo_request : TurnRequest :=
  MkTurnRequest "slack" None "hi" None (MkLegacy None None None None None None None None) None None None.
Definition demo_input (sid : string) (key : option string) : EnqueueInput :=
  MkEnqueue sid demo_request key (Some 2%Z).
Definition demo_result : TurnResult := MkTurnResult ts_ok None (Some "done") None false None None None None.

(** One run is claimed, expires, is claimed again and completes; a second one waits. *)
Definition demo_ops : list Op :=
  [ OEnqueue "r1" 1 (demo_input "s1" (Some "k1")); OEnqueue "r2" 2 (demo_input "s1" None);
    OClaim "t1" 3 "w1" 10; OReap 20 None; OClaim "t2" 21 "w2" 10; OComplete 22 "r1" "t2" demo_result ].
Definition demo_sys : Sys := exec_all (Some 5%Z) demo_ops init_sys.
Definition demo_more : Sys := exec_all (Some 5%Z) [OClaim "t3" 30 "w1" 10] demo_sys.

Lemma demo_reach : SysReach (Some 5%Z) demo_sys.
Proof. apply exec_all_reach. vm_compute. reflexivity. Qed.
Lemma demo_more_rtc : rtc (sys_step (Some 5%Z)) demo_sys demo_more.
Proof. apply exec_all_rtc. vm_compute. reflexivity. Qed.

(** A property of every stored run, decided on the entries of a concrete store. *)
Lemma all_runs (p : string * Run -> bool) st :
  every p (entries (runs st)) = true -> forall k r, runs st !! k = Some r -> p (k, r) = true.
Proof. intros Hp k r Hk%elem_of_entries. by eapply every_true in Hp. Qed.

Definition no_token (t : string) (e : string * Run) : bool := negb (leaseToken e.2 === Some t).

Definition demo_run : Run := default (new_run "" 0 (demo_input "" None)) (runs (store demo_sys) !! "r1").


Lemma lease_mutual_exclusion_witness :
  sessionHasRunning (store demo_more) "s1" = true /\
  exists k r, runs (store demo_more) !! k = Some r /\ sessionId r = "s1" /\ status r = running.
Proof.
  split; [vm_compute; reflexivity|].
  apply (lease_mutual_exclusion (Some 5%Z) demo_more (reachable_rtc _ _ _ _ demo_reach demo_more_rtc)).
  vm_compute. reflexivity.
Defined.

Lemma stale_token_fenced_witness :
  complete 40 "r1" "t1" demo_result (store demo_more) = (false, store demo_more).
Proof.
  apply (stale_token_fenced (Some 5%Z) demo_sys demo_more "t1" demo_reach) with (ttl := 0) (err := "") (retry := None).
  - apply includes_true. vm_compute. reflexivity.
  - intros k r Hk. apply (all_runs (no_token "t1")) in Hk; [|vm_compute; reflexivity].
    unfold no_token in Hk. simpl in Hk. by to_prop.
  - exact demo_more_rtc.
Defined.

Lemma terminal_forever_announced_once_witness :
  length (filter (fun k' => k' = "r1") (map id (settled (store demo_more)))) = 1%nat.
Proof.
  apply (terminal_forever_announced_once (Some 5%Z) demo_sys demo_more "r1" demo_run demo_reach).
  - vm_compute. reflexivity.
  - vm_compute. reflexivity.
  - exact demo_more_rtc.
Defined.

Lemma retry_budget_witness : is_Some (run_result demo_run).
Proof.
  apply (retry_budget (Some 5%Z) demo_sys "r1" demo_run demo_reach); vm_compute; reflexivity.
Defined.

Lemma dedup_forever_witness :
  exists r, enqueue "r9" 50 (demo_input "s7" (Some "k1")) (store demo_more) = ((r, true), store demo_more) /\ id r = "r1".
Proof.
  apply (dedup_forever (Some 5%Z) init_sys demo_more "r1" 1 (demo_input "s1" (Some "k1")) "k1").
  - apply reachable_init. reflexivity.
  - apply not_elem_of_nil.
  - reflexivity.
  - reflexivity.
  - reflexivity.
  - reflexivity.
  - apply (exec_all_rtc (Some 5%Z) (tail demo_ops ++ [OClaim "t3" 30 "w1" 10])
      (MkSys (enqueue "r1" 1 (demo_input "s1" (Some "k1")) empty_store).2 ["r1"])).
    vm_compute. reflexivity.
Defined.

(** The second run of the demonstration, while it is running. *)
Definition demo_run2 : Run := default demo_run (runs (store demo_more) !! "r2").

Lemma errorParks_predicts_fail_witness :
  let '(again, st') := fail_ (Some 5%Z) 31 "r2" "t3" "boom" None (store demo_more) in
  again = true /\ exists r', runs st' !! "r2" = Some r' /\ status r' = Runs.pending.
Proof.
  pose proof (errorParks_predicts_fail (Some 5%Z) 31 "r2" "t3" "boom" None (store demo_more) demo_run2
    ltac:(vm_compute; reflexivity) ltac:(vm_compute; reflexivity) ltac:(vm_compute; reflexivity)
    ltac:(vm_compute; reflexivity)) as H.
  destruct (fail_ _ _ _ _ _ _ _) as [again st']. destruct H as (-> & r' & Hr' & _ & _ & Hst).
  split; [vm_compute; reflexivity|]. exists r'. split; [exact Hr'|].
  rewrite Hst. vm_compute. reflexivity.
Defined.

Lemma reapExpired_exact_witness :
  let '(rep, st') := reapExpired (Some 5%Z) 99 None (store demo_more) in
  n_requeued rep + n_parked rep = 1 /\ forall k r, runs st' !! k = Some r -> leaseLapsed r 99 = false.
Proof.
  pose proof (reapExpired_exact (Some 5%Z) 99 None (store demo_more)) as H.
  destruct (reapExpired _ _ _ _) as [rep st']. destruct H as (H1 & _ & H3 & _).
  - intros k r Hk. apply (all_runs (fun e => id e.2 === e.1)) in Hk; [|vm_compute; reflexivity].
    cbv beta in Hk. by to_prop.
  - split; [rewrite H3; vm_compute; reflexivity|exact H1].
Defined.
