(* ===== verification/Personas.v ===== *)
(** * Agent personas

    The named voices of a room ([src/src/agents/persona-store.ts]), over any durable map.
    Each operation is one atomic step.  Names are compared case-insensitively because a name
    is the [@mention] token. *)

From stdpp Require Import pretty.
From S2P Require Import Prelude JsString Scope DurableMap.

(** [AgentPersona] src/src/agents/persona-store.ts:17-37 *)
Record AgentPersona := MkPersona {
  p_id : string;
  p_scopeId : ScopeId;
  p_name : string;
  color : string;
  glyph : string;
  harnessId : string;
  modelId : string;
  instructions : string;
  enabled : bool;
  createdBy : string;
  p_createdAt : Z;
  version : Z;
  updatedAt : option Z;
  archivedAt : option Z;
}.
#[export] Instance AgentPersona_eta : Eta AgentPersona := fun p =>
  MkPersona p.(p_id) p.(p_scopeId) p.(p_name) p.(color) p.(glyph) p.(harnessId) p.(modelId)
    p.(instructions) p.(enabled) p.(createdBy) p.(p_createdAt) p.(version) p.(updatedAt) p.(archivedAt).

(** [NewAgentPersona] src/src/agents/persona-store.ts:39-49 *)
Record NewAgentPersona := MkNewPersona {
  n_scopeId : ScopeId;
  n_name : string;
  n_color : string;
  n_glyph : string;
  n_harnessId : string;
  n_modelId : string;
  n_instructions : string;
  n_enabled : option bool;
  n_createdBy : string;
}.

(** [AgentPersonaPatch] src/src/agents/persona-store.ts:51-53 *)
Record AgentPersonaPatch := MkPatch {
  u_name : option string;
  u_color : option string;
  u_glyph : option string;
  u_harnessId : option string;
  u_modelId : option string;
  u_instructions : option string;
  u_enabled : option bool;
}.

(** ** Field rules *)

(** [PERSONA_NAME_MIN] src/src/agents/persona-store.ts:5-5 *)
Definition PERSONA_NAME_MIN : nat := 2.
(** [PERSONA_NAME_MAX] src/src/agents/persona-store.ts:6-6 *)
Definition PERSONA_NAME_MAX : nat := 32.
(** [PERSONA_INSTRUCTIONS_MAX] src/src/agents/persona-store.ts:8-8 *)
Definition PERSONA_INSTRUCTIONS_MAX : Z := 8000.

(** [PERSONA_NAME_PATTERN] src/src/agents/persona-store.ts:7-7 *)
Definition PERSONA_NAME_PATTERN (s : string) : bool :=
  match s with
  | "" => false
  | String c s => is_letter c && str_every (fun c => is_letter c || is_digit c || (c === "-"%char)) s
  end%string.

(** [PERSONA_COLOR_PATTERN] src/src/agents/persona-store.ts:9-9 *)
Definition PERSONA_COLOR_PATTERN (s : string) : bool :=
  match s with
  | "" => false
  | String c s => (c === "#"%char) && str_every is_hex s && Nat.eqb (String.length s) 6
  end%string.

(** [PersonaFields] src/src/agents/persona-store.ts:55-60 *)
Record PersonaFields := MkFields { f_name : string; f_color : string; f_glyph : string; f_instructions : string }.

(** [glyphLength] src/src/agents/persona-store.ts:63-65 *)
Definition glyphLength (g : string) : nat := String.length g.

(** [personaFieldError] src/src/agents/persona-store.ts:72-90 *)
Definition personaFieldError (f : PersonaFields) : option string :=
  if Nat.ltb (String.length f.(f_name)) PERSONA_NAME_MIN || Nat.ltb PERSONA_NAME_MAX (String.length f.(f_name))
  then Some "persona name must be 2-32 characters"
  else if negb (PERSONA_NAME_PATTERN f.(f_name))
  then Some "persona name must start with a letter and contain only letters, digits, and hyphens (no spaces — it is the @mention token)"
  else if negb (PERSONA_COLOR_PATTERN f.(f_color)) then Some "persona color must be a #rrggbb hex color"
  else if Nat.ltb (glyphLength f.(f_glyph)) 1 || Nat.ltb 2 (glyphLength f.(f_glyph))
  then Some "persona glyph must be 1-2 characters"
  else if (Z.of_nat (String.length f.(f_instructions)) >? PERSONA_INSTRUCTIONS_MAX)%Z
  then Some "persona instructions must be at most 8000 characters"
  else None.

(** [assertValidPersonaFields] src/src/agents/persona-store.ts:92-95 *)
Definition assertValidPersonaFields (f : PersonaFields) : result string unit :=
  match personaFieldError f with Some problem => Throw problem | None => Ok tt end.

(** [isLive] src/src/agents/persona-store.ts:111-113 *)
Definition isLive (p : AgentPersona) : bool := p.(archivedAt) === None.

(** ** The store *)

Section store.
Context {M : Type} {D : DurableMap M AgentPersona}.

(** [assertNameFree] src/src/agents/persona-store.ts:118-124 *)
Definition assertNameFree (scope : ScopeId) (name : string) (exceptId : option string) (m : M)
  : result string unit :=
  let wanted := to_lower name in
  match find (fun p => negb (Some p.(p_id) === exceptId) && (p.(p_scopeId) === scope) && isLive p
                       && (to_lower p.(p_name) === wanted)) (dm_all m) with
  | Some clash => Throw ("an agent named " +:+ dq +:+ clash.(p_name) +:+ dq +:+ " already exists in " +:+ scope)
  | None => Ok tt
  end.

(** [create] src/src/agents/persona-store.ts:127-152 *)
Definition create (uuid : string) (now : Z) (i : NewAgentPersona) (m : M)
  : result string AgentPersona * M :=
  let name := trim i.(n_name) in
  let color := to_lower (trim i.(n_color)) in
  let glyph := trim i.(n_glyph) in
  match assertValidPersonaFields (MkFields name color glyph i.(n_instructions)) ≫=
        fun _ => assertNameFree i.(n_scopeId) name None m with
  | Throw e => (Throw e, m)
  | Ok _ =>
      let p := MkPersona ("ap_" +:+ uuid) i.(n_scopeId) name color glyph i.(n_harnessId) i.(n_modelId)
                 i.(n_instructions) (i.(n_enabled) ?? true) i.(n_createdBy) now 1 (Some now) None in
      (Ok p, dm_put p.(p_id) p m)
  end.

(** [update] src/src/agents/persona-store.ts:154-175 *)
Definition update (now : Z) (id : string) (u : AgentPersonaPatch) (m : M) : result string AgentPersona * M :=
  match dm_get id m with
  | None => (Throw ("unknown agent persona: " +:+ id), m)
  | Some p =>
      if negb (isLive p) then (Throw ("agent persona is archived: " +:+ id), m)
      else
        let name := match u.(u_name) with None => p.(p_name) | Some n => trim n end in
        let color := match u.(u_color) with None => p.(color) | Some c => to_lower (trim c) end in
        let glyph := match u.(u_glyph) with None => p.(glyph) | Some g => trim g end in
        let instr := u.(u_instructions) ?? p.(instructions) in
        match assertValidPersonaFields (MkFields name color glyph instr) ≫=
              fun _ => if to_lower name !== to_lower p.(p_name)
                       then assertNameFree p.(p_scopeId) name (Some p.(p_id)) m else Ok tt with
        | Throw e => (Throw e, m)
        | Ok _ =>
            let p' := MkPersona p.(p_id) p.(p_scopeId) name color glyph (u.(u_harnessId) ?? p.(harnessId))
                        (u.(u_modelId) ?? p.(modelId)) instr (u.(u_enabled) ?? p.(enabled)) p.(createdBy)
                        p.(p_createdAt) (p.(version) + 1) (Some now) p.(archivedAt) in
            (Ok p', dm_put p'.(p_id) p' m)
        end
  end.

(** [listForScopes] src/src/agents/persona-store.ts:180-185
    [localeCompare] is the host's collation. *)
Definition listForScopes (localeCompare : string -> string -> Z) (orderedScopes : list ScopeId) (m : M)
  : list AgentPersona :=
  let rank := new_map (imap (fun i s => (s, Z.of_nat i)) orderedScopes) in
  let r p := rank !! p.(p_scopeId) ?? 0 in
  js_sort (fun a b => let d := r a - r b in if d !== 0 then d else localeCompare a.(p_name) b.(p_name))
    (js_filter (fun p => isLive p && has p.(p_scopeId) rank) (dm_all m)).

(** [archive] src/src/agents/persona-store.ts:187-195 *)
Definition archive (now : Z) (id : string) (m : M) : result string AgentPersona * M :=
  match dm_get id m with
  | None => (Throw ("unknown agent persona: " +:+ id), m)
  | Some p =>
      if negb (isLive p) then (Ok p, m)
      else let p' := p <| archivedAt := Some now |> <| updatedAt := Some now |> in (Ok p', dm_put p'.(p_id) p' m)
  end.

(** [delete] src/src/agents/persona-store.ts:197-199 *)
Definition delete_ (id : string) (m : M) : M := dm_delete id m.

(** [get] src/src/agents/persona-store.ts:177-178 *)
Definition get (id : string) (m : M) : option AgentPersona := dm_get id m.
End store.

(** ** Correctness, against the interface *)

Definition fields_of (p : AgentPersona) : PersonaFields :=
  MkFields p.(p_name) p.(color) p.(glyph) p.(instructions).

Section correct.
Context {M : Type} {D : DurableMap M AgentPersona} {L : DurableMapLaws M AgentPersona}.
Implicit Types (m : M) (p : AgentPersona).

Inductive step : M -> M -> Prop :=
| step_create uuid now i m : dm_get ("ap_" +:+ uuid) m = None -> step m (create uuid now i m).2
| step_update now id u m : step m (update now id u m).2
| step_archive now id m : step m (archive now id m).2
| step_delete id m : step m (delete_ id m).

Definition Reach : M -> Prop := reachable (fun m => m = dm_empty) step.

Definition clash p p' : Prop :=
  isLive p = true /\ isLive p' = true /\ p_scopeId p = p_scopeId p' /\
  to_lower (p_name p) = to_lower (p_name p').

Record ok m : Prop := {
  ok_id k p : dm_get k m = Some p -> p_id p = k;
  ok_fields k p : dm_get k m = Some p -> personaFieldError (fields_of p) = None;
  ok_names k k' p p' : dm_get k m = Some p -> dm_get k' m = Some p' -> clash p p' -> k = k';
}.

Lemma nameFree_Ok scope name except m :
  assertNameFree scope name except m = Ok tt ->
  forall k p, dm_get k m = Some p -> Some (p_id p) <> except -> isLive p = true -> p_scopeId p = scope ->
  to_lower (p_name p) <> to_lower name.
Proof.
  unfold assertNameFree. destruct (find _ _) eqn:Ef; [done|]. intros _ k p Hk Hne Hl Hs Hn.
  rewrite find_None in Ef. specialize (Ef p). rewrite Hl, Hs, Hn, !eqb_refl in Ef.
  destruct (Some (p_id p) === except) eqn:E; to_prop; [done|].
  simpl in Ef. specialize (Ef ltac:(apply elem_of_dm_all; eauto)). done.
Qed.

(** Writing a persona whose fields are valid and whose name clashes with no other. *)
Lemma put_persona_ok p m :
  ok m -> personaFieldError (fields_of p) = None ->
  (forall k q, dm_get k m = Some q -> k <> p_id p -> ~ clash p q) -> ok (dm_put (p_id p) p m).
Proof.
  intros [Hid Hf Hn] Hp Hc. split.
  - intros k q [[-> ->]|[_ Hq]]%dm_get_put_Some; eauto.
  - intros k q [[-> ->]|[_ Hq]]%dm_get_put_Some; eauto.
  - intros k k' q q' [[-> ->]|[Hk Hq]]%dm_get_put_Some [[-> ->]|[Hk' Hq']]%dm_get_put_Some Hcl; eauto.
    + destruct (Hc _ _ Hq' Hk' Hcl).
    + destruct (Hc _ _ Hq Hk). unfold clash in *. intuition congruence.
Qed.

Lemma assertValid_Ok f : assertValidPersonaFields f = Ok tt -> personaFieldError f = None.
Proof. unfold assertValidPersonaFields. by destruct (personaFieldError f). Qed.

Lemma persona_step_ok m m' : ok m -> step m m' -> ok m'.
Proof.
  intros Hm Hs. destruct Hs as [uuid now i m Hfresh|now id u m|now id m|id m].
  - unfold create. destruct (_ ≫= _) as [[]|e] eqn:E; [|done].
    apply bind_Ok in E as ([] & Hv & Hfree).
    apply put_persona_ok; [done|by apply assertValid_Ok|].
    intros k q Hq _ (Hl & Hl' & Hsc & Hnm).
    eapply (nameFree_Ok _ _ _ _ Hfree); eauto.
  - unfold update. destruct (dm_get id m) as [p|] eqn:Hp; [|done].
    destruct (negb (isLive p)) eqn:Hl; [done|]. to_prop.
    destruct (_ ≫= _) as [[]|e] eqn:E; [|done]. apply bind_Ok in E as ([] & Hv & Hfree).
    apply put_persona_ok; [done|by apply assertValid_Ok|].
    intros k q Hq Hk (_ & Hl' & Hsc & Hnm). simpl in *.
    assert (Hidp : p_id p = id) by by eapply ok_id.
    destruct (_ === _) eqn:En in Hfree; simpl in Hfree; to_prop.
    + apply Hk. rewrite Hidp. eapply (ok_names _ Hm k id q p); [done|done|].
      unfold clash. intuition congruence.
    + eapply (nameFree_Ok _ _ _ _ Hfree k q); eauto. rewrite (ok_id _ Hm _ _ Hq). congruence.
  - unfold archive. destruct (dm_get id m) as [p|] eqn:Hp; [|done].
    destruct (negb (isLive p)); [done|]. apply put_persona_ok; [done|by apply (ok_fields _ Hm id p)|].
    by intros k q _ _ (? & _).
  - unfold delete_. split; intros *.
    + intros [_ ?]%dm_get_delete_Some. by eapply ok_id.
    + intros [_ ?]%dm_get_delete_Some. by eapply ok_fields.
    + intros [_ ?]%dm_get_delete_Some [_ ?]%dm_get_delete_Some. by eapply ok_names.
Qed.

Lemma persona_reach_ok m : Reach m -> ok m.
Proof.
  apply invariant_reachable; [|apply persona_step_ok].
  intros ? ->. split; intros *; rewrite dm_get_empty; done.
Qed.
End correct.

(** An [@mention] is unambiguous.  In every state of the store, over any durable map, every
    stored persona satisfies the field rules and is stored under its own id, and no two live
    personas of one scope have names that agree up to case. *)
Theorem persona_names_unique {M} `{DurableMapLaws M AgentPersona} (m : M) :
  Reach m ->
  (forall k p, dm_get k m = Some p -> p_id p = k /\
     personaFieldError (MkFields (p_name p) (color p) (glyph p) (instructions p)) = None) /\
  (forall p p', p ∈ dm_all m -> p' ∈ dm_all m -> isLive p = true -> isLive p' = true ->
     p_scopeId p = p_scopeId p' -> to_lower (p_name p) = to_lower (p_name p') -> p = p').
Proof.
  intros Hm%persona_reach_ok. split.
  - intros k p Hk. split; [by eapply ok_id|by eapply (ok_fields _ Hm)].
  - intros p p' [k Hk]%elem_of_dm_all [k' Hk']%elem_of_dm_all ? ? ? ?.
    assert (k = k') as <- by (eapply (ok_names _ Hm); eauto; done). congruence.
Qed.

Definition demo_persona (name : string) : NewAgentPersona :=
  MkNewPersona "org:o1" name "#00FF00" "S" "pi" "m1" "Be terse." None "u1".
Definition demo_map : jsmap string AgentPersona :=
  (create "2" 20 (demo_persona "scout") (create "1" 10 (demo_persona " Scout ") ∅).2).2.

Lemma persona_names_unique_witness :
  length (dm_all demo_map) = 1%nat /\
  forall p p', p ∈ dm_all demo_map -> p' ∈ dm_all demo_map -> isLive p = true -> isLive p' = true ->
    p_scopeId p = p_scopeId p' -> to_lower (p_name p) = to_lower (p_name p') -> p = p'.
Proof.
  split; [vm_compute; reflexivity|].
  apply (persona_names_unique demo_map).
  eapply reachable_step; [eapply reachable_step; [by apply reachable_init|]|]; apply step_create; vm_compute; reflexivity.
Defined.
