(* ===== verification/Panel.v ===== *)
(** * The panel driver

    How a room of personas takes turns ([src/src/agents/panel-driver.ts]).  A turn is the
    environment's: [run] takes the turn's specification and the state of the world and
    answers an outcome or throws; [abort] reads the room's flag.  [runPanel] answers the
    turns it started, in order, and the final world. *)

From stdpp Require Import pretty.
From S2P Require Import Prelude JsString Personas.

(** ** Vocabulary *)

(** [ROOM_MAX_ROUNDS] src/src/types.ts:75-75 *)
Definition ROOM_MAX_ROUNDS : Z := 20.

(** [panelTurnCeiling] src/src/agents/panel-driver.ts:10-12 *)
Definition panelTurnCeiling (memberCount rounds : Z) : Z := (Z.max 1 memberCount * Z.max 1 rounds * 2)%Z.

(** [PANEL_CONTINUATION_NUDGE] src/src/agents/panel-driver.ts:15-16 *)
Definition PANEL_CONTINUATION_NUDGE : string :=
  "It is your turn to speak in the room. Reply to the conversation so far, or reply exactly PASS.".

(** [PANEL_PASS] src/src/agents/panel-driver.ts:19-19 *)
Definition PANEL_PASS : string := "PASS".

(** [PanelMember] src/src/agents/panel-driver.ts:22-27 *)
Record PanelMember := MkMember { m_id : string; m_name : string; m_harnessId : string; m_modelId : string }.
#[export] Instance PanelMember_eq_dec : EqDecision PanelMember.
Proof. solve_decision. Defined.

(** [PanelTurnSpec] src/src/agents/panel-driver.ts:34-46 *)
Record PanelTurnSpec := MkSpec {
  s_persona : string * string;
  s_continuation : bool;
  s_harness : string;
  s_model : string;
  s_text : string;
  s_index : Z;
  s_round : Z;
  s_rounds : Z;
}.

(** [PanelTurnOutcome] src/src/agents/panel-driver.ts:52-60 *)
Record PanelTurnOutcome := MkOutcome { o_status : option string; o_reply : option string; o_posted : option bool }.

(** [panelMembersFrom] src/src/agents/panel-driver.ts:79-83 *)
Definition panelMembersFrom (personas : list (option AgentPersona)) : list PanelMember :=
  map (fun p => MkMember p.(p_id) p.(p_name) p.(harnessId) p.(modelId))
    (js_filter (fun p => p.(enabled) && (p.(archivedAt) === None)) (omap (fun p => p) personas)).

(** [isPanelPass] src/src/agents/panel-driver.ts:85-87 *)
Definition isPanelPass (reply : option string) : bool := trim (reply ?? "") === PANEL_PASS.

(** [isPanelQuiet] src/src/agents/panel-driver.ts:109-114 *)
Definition isPanelQuiet (r : option PanelTurnOutcome) : bool :=
  match r with
  | None => true
  | Some r =>
      if r.(o_status) === Some "silent" then r.(o_posted) !== Some true
      else if (r.(o_status) !== None) && (r.(o_status) !== Some "ok") then false
      else isPanelPass r.(o_reply) || (trim (r.(o_reply) ?? "") === "")
  end.

(** ** Mentions *)

(** [mentionPattern] src/src/agents/panel-driver.ts:127-129
    Whether the token [@name] stands at the head of the text: the characters of the name,
    each escaped, up to case, and then no character of a longer name. *)
Definition name_char (c : ascii) : bool := is_letter c || is_digit c || (c === "-"%char).
(** [escapeForRegex] src/src/agents/panel-driver.ts:116-118
    A literal, matched up to case; answers what follows it. *)
Fixpoint match_literal (lit text : string) : option string :=
  match lit, text with
  | "", _ => Some text
  | String c lit, String d text => if lower_ascii c === lower_ascii d then match_literal lit text else None
  | String _ _, "" => None
  end%string.
(** [mentionPattern] src/src/agents/panel-driver.ts:127-129 *)
Definition mention_here (text name : string) : bool :=
  match match_literal (String "@" name) text with
  | Some rest => match rest with "" => true | String c _ => negb (name_char c) end%string
  | None => false
  end.

(** [mentionAt] src/src/agents/panel-driver.ts:157-159
    [None] is -1. *)
Fixpoint mentionAt (text name : string) : option nat :=
  if mention_here text name then Some 0%nat
  else match text with "" => None | String _ text => S <$> mentionAt text name end%string.

(** [panelMentions] src/src/agents/panel-driver.ts:166-175 *)
Definition panelMentions (reply : option string) (roster : list string) (selfName : option string) : list string :=
  let text := reply ?? "" in
  if negb (str_includes text "@") then []
  else js_filter (fun name =>
         if match selfName with Some self => to_lower name === to_lower self | None => false end then false
         else bool_decide (is_Some (mentionAt text name))) roster.

(** [panelAddressed] src/src/agents/panel-driver.ts:184-192
    The comparator orders by position, then by roster order. *)
Definition panelAddressed (text : option string) (members : list PanelMember) : list PanelMember :=
  let body := text ?? "" in
  if negb (str_includes body "@") then []
  else
    let hits := omap (fun om : nat * PanelMember =>
                  match mentionAt body om.2.(m_name) with
                  | Some at_ => Some (at_, om.1, om.2)
                  | None => None
                  end) (imap (fun i m => (i, m)) members) in
    map (fun h => h.2)
      (js_sort (fun a b : nat * nat * PanelMember =>
         let d := Z.of_nat a.1.1 - Z.of_nat b.1.1 in
         if d !== 0 then d else (Z.of_nat a.1.2 - Z.of_nat b.1.2)%Z) hits).

(** The words a count may be attached to, with their optional plural;
    [requestedPanelRounds] src/src/agents/panel-driver.ts:146-146 *)
Definition turn_words : list string :=
  ["times"; "rounds"; "round"; "turns"; "turn"; "exchanges"; "exchange"].
(** [requestedPanelRounds] src/src/agents/panel-driver.ts:146-149
    The match at the head of the text: up to two digits, white space, a word, and a word
    boundary.  Giving a digit back never helps, since a digit is no word's first letter. *)
Definition rounds_here (text : string) : option Z :=
  match text with
  | String a rest =>
      if negb (is_digit a) then None
      else
        let d c := Z.of_N (N_of_ascii c - 48) in
        let '(n, rest) := match rest with
                          | String b rest' => if is_digit b then (10 * d a + d b, rest')%Z else (d a, rest)
                          | "" => (d a, rest)
                          end in
        if some (fun w => match match_literal w (trim_start rest) with
                          | Some rest => match rest with "" => true | String c _ => negb (is_word c) end
                          | None => false
                          end) turn_words
        then Some n else None
  | "" => None
  end%string.

(** [requestedPanelRounds] src/src/agents/panel-driver.ts:146-146
    The first match, [prev] being whether the character before the text is a word's. *)
Fixpoint rounds_from (prev : bool) (text : string) : option Z :=
  match (if prev then None else rounds_here text) with
  | Some n => Some n
  | None => match text with "" => None | String c text => rounds_from (is_word c) text end%string
  end.

(** [requestedPanelRounds] src/src/agents/panel-driver.ts:144-151 *)
Definition requestedPanelRounds (text : option string) : option Z :=
  match rounds_from false (text ?? "") with
  | Some n => if (n <? 1)%Z then None else Some (Z.min n ROOM_MAX_ROUNDS)
  | None => None
  end.

(** ** The driver *)

Section driver.
Context {W : Type} (abort : W -> bool).
Context (run : PanelTurnSpec -> W -> result string (option PanelTurnOutcome) * W).

(** [PanelRunOptions] src/src/agents/panel-driver.ts:62-76 *)
Record PanelRunOptions := MkOptions {
  members : list PanelMember;
  invitable_ : option (list PanelMember);
  rounds : Z;
  text : string;
}.

Definition invitable (o : PanelRunOptions) : list PanelMember := o.(invitable_) ?? o.(members).

(** [runPanel] src/src/agents/panel-driver.ts:206-206 *)
Definition ceiling (o : PanelRunOptions) : Z :=
  panelTurnCeiling (Z.max (Z.of_nat (length o.(members))) (Z.of_nat (length (invitable o)))) o.(rounds).

(** [runPanel] src/src/agents/panel-driver.ts:219-228 *)
Definition spec_of (o : PanelRunOptions) (m : PanelMember) (index round : Z) : PanelTurnSpec :=
  MkSpec (m.(m_id), m.(m_name)) (index >? 0)%Z m.(m_harnessId) m.(m_modelId)
    (if (index >? 0)%Z then PANEL_CONTINUATION_NUDGE else o.(text)) index round o.(rounds).

(** [runPanel] src/src/agents/panel-driver.ts:251-256
    The bonus turns a reply grants: what is pushed on the queue, and the grants so far. *)
Fixpoint grant (o : PanelRunOptions) (names : list string) (granted : list string)
  : list PanelMember * list string :=
  match names with
  | [] => ([], granted)
  | n :: names =>
      match find (fun m => to_lower m.(m_name) === to_lower n) (invitable o) with
      | Some invited =>
          if includes granted invited.(m_id) then grant o names granted
          else let '(q, g) := grant o names (invited.(m_id) :: granted) in (invited :: q, g)
      | None => grant o names granted
      end
  end.

(** The state of a round: the turn index, what is left of the queue, the grants and the two
    counters, the turns started so far (newest first) and the world. *)
Record Round := MkRound {
  index : Z;
  queue : list PanelMember;
  granted : list string;
  turnsThisRound : Z;
  passesThisRound : Z;
  started : list PanelTurnSpec;
  world : W;
}.

(** [runPanel] src/src/agents/panel-driver.ts:218-256
    One turn: the head of the queue speaks. *)
Definition speak (o : PanelRunOptions) (round : Z) (m : PanelMember) (rest : list PanelMember) (r : Round) : Round :=
  let spec := spec_of o m r.(index) round in
  let '(res, w) := run spec r.(world) in
  let next passes q g :=
    MkRound (r.(index) + 1) q g (r.(turnsThisRound) + 1) passes (spec :: r.(started)) w in
  match res with
  | Throw _ => next r.(passesThisRound) rest r.(granted)
  | Ok out =>
      if isPanelQuiet out then next (r.(passesThisRound) + 1)%Z rest r.(granted)
      else
        let reply := out ≫= o_reply in
        let '(q, g) := grant o (panelMentions reply (map m_name (invitable o)) (Some m.(m_name))) r.(granted) in
        next r.(passesThisRound) (rest ++ q) g
  end.

(** How the inner loop ends: the queue ran out, or the panel returned. *)
Inductive RoundEnd := Exhausted (r : Round) | Returned (r : Round).

(** [runPanel] src/src/agents/panel-driver.ts:216-257
    Each turn raises [index], so [ceiling - index] bounds the turns left. *)
Fixpoint run_queue (o : PanelRunOptions) (round : Z) (fuel : nat) (r : Round) : RoundEnd :=
  match r.(queue) with
  | [] => Exhausted r
  | m :: rest =>
      if abort r.(world) || (r.(index) >=? ceiling o)%Z then Returned r
      else match fuel with
           | O => Returned r
           | S fuel => run_queue o round fuel (speak o round m rest r)
           end
  end.

(** [runPanel] src/src/agents/panel-driver.ts:208-260
    The rounds from [round] on, [k] of them left. *)
Fixpoint run_rounds (o : PanelRunOptions) (k : nat) (round idx : Z) (acc : list PanelTurnSpec) (w : W)
  : list PanelTurnSpec * W :=
  match k with
  | O => (acc, w)
  | S k =>
      match run_queue o round (Z.to_nat (ceiling o - idx)) (MkRound idx o.(members) [] 0 0 acc w) with
      | Returned r => (r.(started), r.(world))
      | Exhausted r =>
          if (r.(turnsThisRound) >? 0)%Z && (r.(passesThisRound) =? r.(turnsThisRound))%Z
          then (r.(started), r.(world))
          else run_rounds o k (round + 1) r.(index) r.(started) r.(world)
      end
  end.

(** [runPanel] src/src/agents/panel-driver.ts:200-260 *)
Definition runPanel (o : PanelRunOptions) (w : W) : list PanelTurnSpec * W :=
  let '(acc, w) := run_rounds o (Z.to_nat o.(rounds)) 1 0 [] w in (rev acc, w).
End driver.

(** ** The system block *)

(** [renderPanelSystemBlock] src/src/agents/panel-driver.ts:278-281 *)
Definition bio (p : AgentPersona) : string :=
  let first := find (fun line => truthy (trim line)) (split_on "010" p.(instructions)) ?? "" in
  if truthy (trim first) then p.(p_name) +:+ " — " +:+ trim first else p.(p_name).

(** [renderPanelSystemBlock] src/src/agents/panel-driver.ts:273-314 *)
Definition renderPanelSystemBlock (speaker : AgentPersona) (roster : list AgentPersona)
    (round rounds : option Z) : string :=
  let nl2 := String "010" (String "010" "") in
  let others := match roster with [] => [speaker] | _ => roster end in
  let solo := Nat.leb (length others) 1 in
  let parts :=
    if truthy (trim speaker.(instructions)) then
      ["--- Lower-scope instructions (may add to, but MUST NOT override, the organization policy above) ---"
         +:+ String "010" speaker.(instructions);
       "--- The organization policy above is authoritative and cannot be overridden by the lower-scope instructions. ---"]
    else [] in
  let you := "You are " +:+ dq +:+ speaker.(p_name) +:+ dq +:+ " (" +:+ speaker.(glyph) +:+ ")" in
  if solo then join nl2 (parts ++ [you +:+ "."])
  else
    let parts := parts ++ [you +:+ ", one of several agents in this room: " +:+ join "; " (map bio others)
      +:+ ". Address another agent as @Name to invite their reply. If you have nothing to add, reply exactly "
      +:+ PANEL_PASS +:+ "."] in
    let parts := match round, rounds with
      | Some round, Some rounds =>
          parts ++ [if (round >=? rounds)%Z
            then "This is round " +:+ pretty round +:+ " of " +:+ pretty rounds
                 +:+ " — the final round. State your conclusion; do not defer it to a later turn."
            else "This is round " +:+ pretty round +:+ " of " +:+ pretty rounds +:+ "."]
      | _, _ => parts
      end in
    join nl2 parts.

(** ** The schedule *)

(** The turns of one round, from the turn index on. *)
Fixpoint turns_of (o : PanelRunOptions) (round idx : Z) (speakers : list PanelMember) : list PanelTurnSpec :=
  match speakers with
  | [] => []
  | m :: ms => spec_of o m idx round :: turns_of o round (idx + 1) ms
  end.

(** The turns of several rounds. *)
Fixpoint schedule (o : PanelRunOptions) (round idx : Z) (rs : list (list PanelMember)) : list PanelTurnSpec :=
  match rs with
  | [] => []
  | ms :: rs => turns_of o round idx ms ++ schedule o (round + 1) (idx + Z.of_nat (length ms)) rs
  end.

(** The bonus turns of a round: members of the wider pool, each at most once. *)
Definition bonus_ok (o : PanelRunOptions) (granted : list string) (bonus : list PanelMember) : Prop :=
  (forall m, m ∈ bonus -> m ∈ invitable o) /\ NoDup (rev (map m_id bonus) ++ granted).

Lemma turns_of_app o round idx a b :
  turns_of o round idx (a ++ b) = turns_of o round idx a ++ turns_of o round (idx + Z.of_nat (length a)) b.
Proof.
  revert idx. induction a as [|m a IH]; intros idx; cbn [app turns_of length].
  - f_equal. lia.
  - rewrite IH. simpl. do 3 f_equal. lia.
Qed.
Lemma length_turns_of o round idx a : length (turns_of o round idx a) = length a.
Proof. revert idx. induction a; intros; simpl; auto. Qed.

Lemma bonus_ok_nil o g : NoDup g -> bonus_ok o g [].
Proof. intros. split; [by intros ? ?%not_elem_of_nil|done]. Qed.
Lemma bonus_ok_app o g a b :
  bonus_ok o g a -> bonus_ok o (rev (map m_id a) ++ g) b -> bonus_ok o g (a ++ b).
Proof.
  intros [Ha _] [Hb Hn]. split.
  - intros m [?|?]%elem_of_app; auto.
  - by rewrite map_app, rev_app_distr, <- app_assoc.
Qed.

Lemma grant_spec o names g :
  NoDup g -> let '(q, g') := grant o names g in bonus_ok o g q /\ g' = rev (map m_id q) ++ g.
Proof.
  revert g. induction names as [|n names IH]; intros g Hg; simpl; [split; [by apply bonus_ok_nil|done]|].
  destruct (find _ _) as [m|] eqn:Ef; [|by apply IH].
  destruct (includes g (m_id m)) eqn:Ei; [by apply IH|]. apply includes_false in Ei.
  specialize (IH (m_id m :: g) ltac:(by constructor)).
  destruct (grant _ _ _) as [q g']. destruct IH as [Hb ->]. split.
  - apply (bonus_ok_app o g [m]); [|done]. split; [|by constructor].
    intros ? ->%list_elem_of_singleton. by apply find_Some in Ef as [? _].
  - simpl. by rewrite <- app_assoc.
Qed.

Section schedule.
Context {W : Type} (abort : W -> bool).
Context (run : PanelTurnSpec -> W -> result string (option PanelTurnOutcome) * W).
Context (o : PanelRunOptions).
Implicit Types (r : Round (W := W)).

Lemma speak_spec round m rest r :
  NoDup (granted r) ->
  exists bonus, let r' := speak run o round m rest r in
    queue r' = rest ++ bonus /\ bonus_ok o (granted r) bonus /\
    granted r' = rev (map m_id bonus) ++ granted r /\ index r' = (index r + 1)%Z /\
    started r' = spec_of o m (index r) round :: started r.
Proof.
  intros Hg. unfold speak. destruct (run _ _) as [[out|e] w].
  - destruct (isPanelQuiet out).
    + exists []. simpl. rewrite app_nil_r. split_and!; auto using bonus_ok_nil.
    + pose proof (grant_spec o (panelMentions (out ≫= o_reply) (map m_name (invitable o)) (Some (m_name m))) _ Hg) as H.
      destruct (grant _ _ _) as [q g']. destruct H as [Hb ->]. exists q. by split_and!.
  - exists []. simpl. rewrite app_nil_r. split_and!; auto using bonus_ok_nil.
Qed.

Definition round_of (e : RoundEnd (W := W)) : Round := match e with Exhausted r | Returned r => r end.

Lemma run_queue_spec round fuel r :
  NoDup (granted r) -> (Z.to_nat (ceiling o - index r) <= fuel)%nat ->
  exists spoken bonus, let e := run_queue abort run o round fuel r in let r' := round_of e in
    spoken ++ queue r' = queue r ++ bonus /\ bonus_ok o (granted r) bonus /\
    index r' = (index r + Z.of_nat (length spoken))%Z /\
    started r' = rev (turns_of o round (index r) spoken) ++ started r /\
    match e with
    | Exhausted _ => queue r' = []
    | Returned _ => abort (world r') = true \/ (index r' >= ceiling o)%Z /\ queue r' <> []
    end.
Proof.
  revert r. induction fuel as [|fuel IH]; intros r Hg Hf; simpl; destruct (queue r) as [|m rest] eqn:Eq.
  - exists [], []. simpl. rewrite Eq. split_and!; auto using bonus_ok_nil with lia.
  - exists [], []. destruct (abort (world r)) eqn:Ea, (index r >=? ceiling o)%Z eqn:Ei;
      simpl; rewrite Eq, ?app_nil_r; (split; [done|]); (split; [by apply bonus_ok_nil|]);
      (split; [lia|]); (split; [done|]); to_prop; auto; right; (split; [lia|done]).
  - exists [], []. simpl. rewrite Eq. split_and!; auto using bonus_ok_nil with lia.
  - destruct (abort (world r) || (index r >=? ceiling o)%Z) eqn:Ec.
    + exists [], []. simpl. rewrite Eq, app_nil_r. split; [done|]. split; [by apply bonus_ok_nil|].
      split; [lia|]. split; [done|]. apply orb_true_iff in Ec as [?|Hi]; [auto|]. to_prop.
      right. split; [lia|done].
    + to_prop. destruct (speak_spec round m rest r Hg) as (b1 & Hq & Hb1 & Hg' & Hi & Hs).
      set (r1 := speak run o round m rest r) in *.
      destruct (IH r1) as (spoken & b2 & E1 & E2 & E3 & E4 & E5).
      { rewrite Hg'. apply Hb1. }
      { rewrite Hi. lia. }
      exists (m :: spoken), (b1 ++ b2). simpl.
      split; [by rewrite E1, Hq, <- app_assoc|].
      split; [apply bonus_ok_app; [done|by rewrite <- Hg']|].
      split; [rewrite E3, Hi; lia|].
      split; [|exact E5].
      by rewrite E4, Hs, Hi, <- app_assoc.
Qed.

(** A round fits under the ceiling: as many turns as members and bonus turns. *)
Lemma bonus_length bonus : bonus_ok o [] bonus -> (length bonus <= length (invitable o))%nat.
Proof.
  intros [Hin Hnd]. rewrite app_nil_r in Hnd.
  assert (Hn : NoDup (map m_id bonus)).
  { apply (NoDup_Permutation_proper _ _ (Permutation_rev _)). done. }
  rewrite <- (length_map m_id bonus), <- (length_map m_id (invitable o)).
  apply submseteq_length, NoDup_submseteq; [done|].
  intros x (m & -> & Hm)%list_elem_of_fmap. apply list_elem_of_fmap. eauto.
Qed.

Definition per_round : Z :=
  (2 * Z.max 1 (Z.max (Z.of_nat (length (members o))) (Z.of_nat (length (invitable o)))))%Z.
Lemma ceiling_rounds : ceiling o = (per_round * Z.max 1 (rounds o))%Z.
Proof. unfold ceiling, panelTurnCeiling, per_round. lia. Qed.

Definition cut (rs : list (list PanelMember)) : Prop :=
  forall ms, ms ∈ rs -> exists bonus, bonus_ok o [] bonus /\ ms `prefix_of` members o ++ bonus.
Definition complete (rs : list (list PanelMember)) : Prop :=
  forall ms, ms ∈ rs -> exists bonus, bonus_ok o [] bonus /\ ms = members o ++ bonus.

Lemma run_rounds_spec k round idx acc w :
  1 <= round -> (round + Z.of_nat k = Z.max 0 (rounds o) + 1)%Z -> (0 <= idx <= per_round * (round - 1))%Z ->
  exists rs, let '(acc', w') := run_rounds abort run o k round idx acc w in
    acc' = rev (schedule o round idx rs) ++ acc /\ (length rs <= k)%nat /\ cut rs /\
    (abort w' = false -> complete rs).
Proof.
  revert round idx acc w. induction k as [|k IH]; intros round idx acc w Hr Hk Hidx; simpl.
  - exists []. split_and!; try done; [|intros _]; by intros ms Hms%not_elem_of_nil.
  - set (r0 := MkRound idx (members o) [] 0 0 acc w).
    destruct (run_queue_spec round (Z.to_nat (ceiling o - idx)) r0 (NoDup_nil_2) ltac:(done))
      as (spoken & bonus & E1 & E2 & E3 & E4 & E5).
    simpl in E1, E2, E3, E4.
    pose proof (bonus_length _ E2) as Hbl.
    assert (Hlen : (length spoken <= length (members o) + length (invitable o))%nat).
    { apply (f_equal length) in E1. rewrite !length_app in E1. lia. }
    assert (Hcut : cut [spoken]).
    { intros ms ->%list_elem_of_singleton. exists bonus. split; [done|]. by eexists. }
    assert (Hcomp : queue (round_of (run_queue abort run o round (Z.to_nat (ceiling o - idx)) r0)) = [] -> complete [spoken]).
    { intros Hq ms ->%list_elem_of_singleton. exists bonus. split; [done|]. by rewrite Hq, app_nil_r in E1. }
    assert (Hpr : (Z.of_nat (length (members o)) + Z.of_nat (length (invitable o)) <= per_round)%Z)
      by (unfold per_round; lia).
    destruct (run_queue abort run o round _ r0) as [r|r]; simpl in E1, E3, E4, E5, Hcomp.
    + destruct ((turnsThisRound r >? 0)%Z && (passesThisRound r =? turnsThisRound r)%Z).
      * exists [spoken]. cbn [schedule]. rewrite app_nil_r. split; [done|]. split; [simpl; lia|]. split; [done|].
        intros _. by apply Hcomp.
      * destruct (IH (round + 1)%Z (index r) (started r) (world r)) as (rs & Hrs); [lia|lia|rewrite E3; nia|].
        exists (spoken :: rs). destruct (run_rounds _ _ _ _ _ _ _ _) as [acc' w'].
        destruct Hrs as (-> & Hl & Hc & Hcm). cbn [schedule]. split; [|split; [simpl; lia|split]].
        -- rewrite E4, E3, rev_app_distr. by rewrite app_assoc.
        -- intros ms [->|?]%elem_of_cons; [apply Hcut, list_elem_of_here|auto].
        -- intros Ha ms [->|?]%elem_of_cons; [by apply Hcomp; [|apply list_elem_of_here]|by apply Hcm].
    + exists [spoken]. cbn [schedule]. rewrite app_nil_r. split; [done|]. split; [simpl; lia|]. split; [done|].
      intros Ha. destruct E5 as [?|[Hge Hne]]; [congruence|].
      exfalso. rewrite ceiling_rounds in Hge. rewrite E3 in Hge.
      assert (Hlt : (length spoken < length (members o) + length (invitable o))%nat).
      { apply (f_equal length) in E1. rewrite !length_app in E1.
        destruct (queue r); [done|]. simpl in E1. lia. }
      assert (round <= Z.max 1 (rounds o))%Z by lia. nia.
Qed.
End schedule.

Lemma length_schedule o round idx rs :
  cut o rs -> (Z.of_nat (length (schedule o round idx rs)) <= Z.of_nat (length rs) * per_round o)%Z.
Proof.
  revert round idx. induction rs as [|ms rs IH]; intros round idx Hc; simpl; [lia|].
  rewrite length_app, length_turns_of.
  specialize (IH (round + 1) (idx + Z.of_nat (length ms)) ltac:(intros x ?; apply Hc; by apply list_elem_of_further)).
  destruct (Hc ms) as (bonus & Hb & Hpre); [apply list_elem_of_here|].
  apply prefix_length in Hpre. rewrite length_app in Hpre. apply bonus_length in Hb. unfold per_round in *. lia.
Qed.

(** The schedule of a panel, whatever the turns do.  The turns are numbered from 0, round
    by round; only the very first carries the human's message, the others the nudge.  A round
    is a prefix of the members in order followed by bonus turns, each for a member of the
    invitable pool and no one twice; unless the room's flag is up at the end, every round that
    began ran to its end, so the turn ceiling never silences anybody.  There are at most
    [rounds] rounds and [panelTurnCeiling] turns. *)
Theorem panel_schedule {W} (abort : W -> bool) run (o : PanelRunOptions) (w : W) :
  let '(specs, w') := runPanel abort run o w in
  (exists rs, specs = schedule o 1 0 rs /\ (length rs <= Z.to_nat (rounds o))%nat /\
     (forall ms, ms ∈ rs -> exists bonus, bonus_ok o [] bonus /\ ms `prefix_of` members o ++ bonus) /\
     (abort w' = false -> forall ms, ms ∈ rs -> exists bonus, bonus_ok o [] bonus /\ ms = members o ++ bonus)) /\
  Z.of_nat (length specs) <= ceiling o.
Proof.
  unfold runPanel.
  destruct (run_rounds_spec abort run o (Z.to_nat (rounds o)) 1 0 [] w) as (rs & H); [lia|lia|lia|].
  destruct (run_rounds _ _ _ _ _ _ _ _) as [acc w']. destruct H as (-> & Hl & Hc & Hcm).
  rewrite app_nil_r, rev_involutive. split.
  - exists rs. by split_and!.
  - pose proof (length_schedule o 1 0 rs Hc). rewrite ceiling_rounds.
    assert (0 < per_round o)%Z by (unfold per_round; lia). nia.
Qed.

(** ** What a mention is *)

Lemma match_literal_spec lit text rest :
  match_literal lit text = Some rest <-> exists tok, text = tok +:+ rest /\ to_lower tok = to_lower lit.
Proof.
  revert text rest. induction lit as [|c lit IH]; intros text rest; simpl.
  - split; [intros [= ->]; by exists ""|]. intros (tok & -> & Ht). by destruct tok.
  - destruct text as [|d text].
    + split; [done|]. intros (tok & Ht & Hl). destruct tok; [by simpl in Hl|done].
    + destruct (lower_ascii c === lower_ascii d) eqn:E; to_prop.
      * rewrite IH. split.
        -- intros (tok & -> & Ht). exists (String d tok). simpl. by rewrite Ht, E.
        -- intros (tok & Ht & Hl). destruct tok as [|e tok]; [by simpl in Hl|].
           simpl in Ht, Hl. injection Ht as -> ->. injection Hl as _ Hl. eauto.
      * split; [done|]. intros (tok & Ht & Hl). destruct tok as [|e tok]; [by simpl in Hl|].
        simpl in Ht, Hl. injection Ht as -> ->. injection Hl as Hl _. congruence.
Qed.

Definition ends_token (rest : string) : Prop :=
  match rest with "" => True | String c _ => name_char c = false end%string.

Lemma mention_here_spec text name :
  mention_here text name = true <->
  exists tok rest, text = String "@" (tok +:+ rest) /\ to_lower tok = to_lower name /\ ends_token rest.
Proof.
  unfold mention_here. split.
  - destruct (match_literal _ text) as [rest|] eqn:E; [|done].
    apply match_literal_spec in E as (tok & -> & Ht). destruct tok as [|a tok]; [by simpl in Ht|].
    simpl in Ht. injection Ht as Ha Ht. intros Hr. exists tok, rest. split; [|split; [done|]].
    + simpl. f_equal. clear -Ha. destruct a as [[][][][][][][][]]; vm_compute in Ha; done.
    + destruct rest; [done|]. by apply negb_true_iff in Hr.
  - intros (tok & rest & -> & Ht & Hr).
    replace (match_literal (String "@" name) (String "@" (tok +:+ rest))) with (Some rest).
    + destruct rest; [done|]. by rewrite Hr.
    + symmetry. apply match_literal_spec. exists (String "@" tok). simpl. by rewrite Ht.
Qed.

Lemma mentionAt_spec text name :
  is_Some (mentionAt text name) <-> exists pre post, text = pre +:+ post /\ mention_here post name = true.
Proof.
  induction text as [|c text IH]; cbn [mentionAt]; destruct (mention_here _ name) eqn:E.
  - split; [|eauto]. intros _. by exists "", "".
  - split; [by intros []|]. intros (pre & post & Hp & Hm). destruct pre; [|done]. simpl in Hp. congruence.
  - split; [|eauto]. intros _. by exists "", (String c text).
  - rewrite fmap_is_Some, IH. split.
    + intros (pre & post & -> & ?). by exists (String c pre), post.
    + intros (pre & post & Hp & Hm). destruct pre as [|d pre]; simpl in Hp; [congruence|].
      injection Hp as -> ->. eauto.
Qed.

(** Whom a reply invites.  A name is among the mentions exactly when it is on the roster, is
    not the speaker's own up to case, and occurs in the text, up to case, after an [@] and
    not followed by a character that would make it a longer name. *)
Theorem panelMentions_exact text roster self name :
  name ∈ panelMentions (Some text) roster (Some self) <->
  name ∈ roster /\ to_lower name <> to_lower self /\
  exists pre tok rest, text = pre +:+ String "@" (tok +:+ rest) /\ to_lower tok = to_lower name /\ ends_token rest.
Proof.
  unfold panelMentions. simpl. destruct (str_includes text "@") eqn:Ei; simpl.
  - rewrite elem_of_js_filter. destruct (to_lower name === to_lower self) eqn:Es; to_prop; [split; [by intros [? _]|tauto]|].
    rewrite bool_decide_eq_true, mentionAt_spec. setoid_rewrite mention_here_spec.
    split; [intros [(pre & post & -> & tok & rest & -> & ? & ?) ?]|intros (? & ? & pre & tok & rest & -> & ? & ?)].
    + split; [done|]. split; [done|]. by exists pre, tok, rest.
    + split; [|done]. exists pre, (String "@" (tok +:+ rest)). split; [done|]. by exists tok, rest.
  - split; [by intros ?%not_elem_of_nil|]. intros (_ & _ & pre & tok & rest & -> & _).
    exfalso. clear -Ei. induction pre as [|c pre IH]; simpl in Ei; [done|].
    apply orb_false_iff in Ei as [_ Ei]. auto.
Qed.

Definition demo_members : list PanelMember := [MkMember "a" "Scout" "pi" "m"; MkMember "b" "Critic" "pi" "m"].
Example panel_demo :
  map (fun s => (s_persona s).1)
    (runPanel (fun _ => false) (fun s w => (Ok (Some (MkOutcome (Some "ok") (Some "ask @scout!") None)), S w))
      (MkOptions demo_members None 2 "hi") 0%nat).1 = ["a"; "b"; "a"; "a"; "b"; "a"].
Proof. vm_compute. reflexivity. Qed.
Example rounds_demo : requestedPanelRounds (Some "debate this for 12 Rounds.") = Some 12.
Proof. vm_compute. reflexivity. Qed.
