(* ===== verification/Tasks.v ===== *)
(** * Tasks and their event log

    The in-memory task store ([src/src/tasks/memory-task-store.ts]).  A change of status is a
    compare-and-set; every change appends to the task's event log.  [localeCompare] is the
    host's collation; the generated id and the clock are arguments. *)

From stdpp Require Import pretty.
From S2P Require Import Prelude JsString Turn.

(** [Task] src/src/tasks/task-store.ts:6-14 *)
Record Task := MkTask {
  tk_id : string;
  tk_sessionId : string;
  tk_originRunId : string;
  tk_title : string;
  tk_status : TaskStatus;
  tk_createdAt : Z;
  tk_updatedAt : Z;
}.
#[export] Instance Task_eta : Eta Task := fun t =>
  MkTask t.(tk_id) t.(tk_sessionId) t.(tk_originRunId) t.(tk_title) t.(tk_status) t.(tk_createdAt) t.(tk_updatedAt).

(** [TaskEventType] src/src/tasks/task-store.ts:4-4 *)
Inductive TaskEventType := created | status_changed.
#[export] Instance TaskEventType_eq_dec : EqDecision TaskEventType.
Proof. solve_decision. Defined.
(** [TaskEvent] src/src/tasks/task-store.ts:16-24 *)
Record TaskEvent := MkTaskEvent {
  ev_id : string;
  ev_taskId : string;
  ev_runId : string;
  ev_type : TaskEventType;
  fromStatus : option TaskStatus;
  toStatus : TaskStatus;
  ev_createdAt : Z;
}.

(** [CreateTaskInput] src/src/tasks/task-store.ts:26-32 *)
Record CreateTaskInput := MkCreateTask {
  c_id : option string;
  c_sessionId : string;
  c_originRunId : string;
  c_title : string;
  c_status : option TaskStatus;
}.

(** [TaskFilter] src/src/tasks/task-store.ts:34-38 *)
Record TaskFilter := MkTaskFilter {
  tf_sessionId : option string;
  tf_originRunId : option string;
  tf_statuses : option (list TaskStatus);
}.

(** [isOpenTask] src/src/tasks/task-store.ts:55-59 *)
Definition isOpenTask (s : TaskStatus) : bool := includes [pending; in_progress] s.

(** The state, src/src/tasks/memory-task-store.ts:13-17 *)
Record TaskStore := MkTaskStore {
  tasks : jsmap string Task;
  events : jsmap string (list TaskEvent);
  nextEventId : Z;
}.
#[export] Instance TaskStore_eta : Eta TaskStore := fun s => MkTaskStore s.(tasks) s.(events) s.(nextEventId).
Definition empty_tasks : TaskStore := MkTaskStore ∅ ∅ 1.

(** [appendEvent] src/src/tasks/memory-task-store.ts:23-41 *)
Definition appendEvent (taskId runId : string) (from : option TaskStatus) (to : TaskStatus) (at_ : Z)
    (st : TaskStore) : TaskStore :=
  let taskEvents := st.(events) !! taskId ?? [] in
  let ev := MkTaskEvent (pretty st.(nextEventId)) taskId runId
              (if from === None then created else status_changed) from to at_ in
  st <| nextEventId := (st.(nextEventId) + 1)%Z |> <| events := <[taskId := taskEvents ++ [ev]]> st.(events) |>.

(** [matches] src/src/tasks/memory-task-store.ts:43-48 *)
Definition matches (t : Task) (f : TaskFilter) : bool :=
  match f.(tf_sessionId) with None => true | Some s => t.(tk_sessionId) === s end
  && match f.(tf_originRunId) with None => true | Some s => t.(tk_originRunId) === s end.

(** [ordered] src/src/tasks/memory-task-store.ts:50-52 *)
Definition ordered (localeCompare : string -> string -> Z) (l : list Task) : list Task :=
  js_sort (fun a b => let d := a.(tk_createdAt) - b.(tk_createdAt) in
                      if d !== 0 then d else localeCompare a.(tk_id) b.(tk_id)) l.

(** [create] src/src/tasks/memory-task-store.ts:55-71 *)
Definition create (uuid : string) (now : Z) (i : CreateTaskInput) (st : TaskStore)
  : result string Task * TaskStore :=
  let id := i.(c_id) ?? uuid in
  if has id st.(tasks) then (Throw ("task " +:+ id +:+ " already exists"), st)
  else
    let task := MkTask id i.(c_sessionId) i.(c_originRunId) i.(c_title) (i.(c_status) ?? pending) now now in
    let st := st <| tasks := <[id := task]> st.(tasks) |> in
    (Ok task, appendEvent id i.(c_originRunId) None task.(tk_status) now st).

(** [get] src/src/tasks/memory-task-store.ts:73-76 *)
Definition get (id : string) (st : TaskStore) : option Task := st.(tasks) !! id.

(** [list] src/src/tasks/memory-task-store.ts:78-83 *)
Definition list_tasks (localeCompare : string -> string -> Z) (f : TaskFilter) (st : TaskStore) : list Task :=
  ordered localeCompare (js_filter (fun t => matches t f
    && match f.(tf_statuses) with None => true | Some ss => includes ss t.(tk_status) end) (values st.(tasks))).

(** [listOpen] src/src/tasks/memory-task-store.ts:85-87 *)
Definition listOpen (localeCompare : string -> string -> Z) (f : TaskFilter) (st : TaskStore) : list Task :=
  ordered localeCompare (js_filter (fun t => matches t f && isOpenTask t.(tk_status)) (values st.(tasks))).

(** [transitionStatus] src/src/tasks/memory-task-store.ts:89-97 *)
Definition transitionStatus (now : Z) (id : string) (expected next : TaskStatus) (runId : string)
    (st : TaskStore) : option Task * TaskStore :=
  match st.(tasks) !! id with
  | None => (None, st)
  | Some task =>
      if task.(tk_status) !== expected then (None, st)
      else
        let task' := task <| tk_status := next |> <| tk_updatedAt := now |> in
        let st := st <| tasks := <[id := task']> st.(tasks) |> in
        (Some task', appendEvent id runId (Some expected) next now st)
  end.

(** [listEvents] src/src/tasks/memory-task-store.ts:99-101 *)
Definition listEvents (taskId : string) (st : TaskStore) : list TaskEvent := st.(events) !! taskId ?? [].

(** ** The log explains the status *)

(** A log that starts at [s] and ends at the second status, each event taking up where the
    one before it ended. *)
Fixpoint chain (s : option TaskStatus) (l : list TaskEvent) : option (option TaskStatus) :=
  match l with
  | [] => Some s
  | e :: l =>
      if (e.(fromStatus) === s) && Bool.eqb (e.(ev_type) === created) (s === None)
      then chain (Some e.(toStatus)) l else None
  end.

Inductive step : TaskStore -> TaskStore -> Prop :=
| step_create uuid now i st : step st (create uuid now i st).2
| step_transition now id expected next runId st : step st (transitionStatus now id expected next runId st).2.

Definition Reach : TaskStore -> Prop := reachable (fun st => st = empty_tasks) step.

Lemma chain_snoc s l e s' :
  chain s l = Some s' -> chain s (l ++ [e]) =
    if (fromStatus e === s') && Bool.eqb (ev_type e === created) (s' === None) then Some (Some (toStatus e)) else None.
Proof.
  revert s. induction l as [|e' l IH]; intros s; simpl; [by intros [= ->]|].
  destruct ((fromStatus e' === s) && _); [apply IH|done].
Qed.

(** The log after one more event, for a log that ended where the event starts. *)
Lemma append_chain id runId from to at_ st :
  chain None (listEvents id st) = Some from ->
  chain None (listEvents id (appendEvent id runId from to at_ st)) = Some (Some to).
Proof.
  intros Hc. unfold listEvents, appendEvent in *. simpl. rewrite lookup_set_eq. simpl.
  rewrite (chain_snoc _ _ _ _ Hc). simpl. rewrite eqb_refl. simpl.
  by destruct (from === None).
Qed.
Lemma append_other id id' runId from to at_ st :
  id <> id' -> listEvents id' (appendEvent id runId from to at_ st) = listEvents id' st.
Proof. intros. unfold listEvents, appendEvent. simpl. by rewrite lookup_set_ne. Qed.

Record ok (st : TaskStore) : Prop := {
  ok_task k t : tasks st !! k = Some t ->
    tk_id t = k /\ chain None (listEvents k st) = Some (Some (tk_status t));
  ok_none k : tasks st !! k = None -> listEvents k st = [];
}.

Lemma task_write_ok k t from runId at_ st :
  ok st -> tk_id t = k -> chain None (listEvents k st) = Some from ->
  ok (appendEvent k runId from (tk_status t) at_ (st <| tasks := <[k := t]> st.(tasks) |>)).
Proof.
  intros [Ht Hn] Hid Hc. split; intros k'; simpl; rewrite lookup_set; case_decide as Hk.
  - intros t' [= <-]. subst k'. split; [done|]. by apply append_chain.
  - intros t' Ht'. rewrite append_other by done. by apply Ht.
  - done.
  - intros. rewrite append_other by done. by apply Hn.
Qed.

Lemma task_step_ok st st' : ok st -> step st st' -> ok st'.
Proof.
  intros Hok Hs. destruct Hs as [uuid now i st|now id expected next runId st].
  - unfold create. destruct (has _ _) eqn:Eh; [done|]. apply has_false in Eh. cbn [snd].
    match goal with |- ok (appendEvent ?k ?r None _ ?a _) => apply (task_write_ok k _ None r a st) end; [done|done|].
    by rewrite (ok_none _ Hok).
  - unfold transitionStatus. destruct (tasks st !! id) as [t|] eqn:Et; [|done].
    destruct (negb _) eqn:E; [done|]. to_prop. cbn [snd].
    destruct (ok_task _ Hok _ _ Et) as [Hid Hc].
    set (t' := t <| tk_status := next |> <| tk_updatedAt := now |>).
    apply (task_write_ok id t' (Some expected) runId now st); [done|done|by rewrite Hc, E].
Qed.

(** The event log explains every status.  Whatever tasks are created and moved, the log of
    a stored task starts with its creation, each later event takes up the status the one
    before it left, and the last one leaves the task's present status; an unknown task has no
    events.  A move that expects another status than the present one changes nothing. *)
Theorem task_log_explains_status st :
  Reach st ->
  (forall k t, tasks st !! k = Some t -> tk_id t = k /\ chain None (listEvents k st) = Some (Some (tk_status t))) /\
  (forall k, tasks st !! k = None -> listEvents k st = []) /\
  (forall k t now expected next runId, tasks st !! k = Some t -> tk_status t <> expected ->
     transitionStatus now k expected next runId st = (None, st)).
Proof.
  intros Hr. assert (Hok : ok st).
  { eapply invariant_reachable; [|apply task_step_ok|exact Hr].
    intros ? ->. by split. }
  split; [apply (ok_task _ Hok)|]. split; [apply (ok_none _ Hok)|].
  intros k t now expected next runId Hk Hne. unfold transitionStatus. rewrite Hk.
  by rewrite (proj2 (eqb_false _ _) Hne).
Qed.

Definition demo_tasks : TaskStore :=
  (transitionStatus 5 "t1" pending completed "r2"
    (create "t1" 4 (MkCreateTask None "s1" "r1" "write it" None) empty_tasks).2).2.

Lemma task_log_explains_status_witness :
  length (listEvents "t1" demo_tasks) = 2%nat /\
  transitionStatus 9 "t1" pending failed "r3" demo_tasks = (None, demo_tasks).
Proof.
  split; [vm_compute; reflexivity|].
  eapply (task_log_explains_status demo_tasks).
  - eapply reachable_step; [eapply reachable_step; [by apply reachable_init|]|]; [apply step_create|apply step_transition].
  - vm_compute. reflexivity.
  - vm_compute. discriminate.
Defined.
