(* ===== verification/Delivery.v ===== *)
(** * Deliveries

    The outbound queue ([src/src/delivery/delivery-store.ts]): idempotent enqueue, claims with
    a time to live, acknowledgements; and what a finished run delivers
    ([src/src/delivery/run-result-delivery.ts]).  Fresh ids and the clock are arguments; the
    listeners of [onEnqueue] are the flag [notified] of an enqueue. *)

From stdpp Require Import pretty.
From S2P Require Import Prelude JsString Scope Turn ThreadRef Tasks Runs Panel.

(** ** Identity of the poster *)

(** [PERSONA_IDENTITY_PREFIX] src/src/delivery/persona-identity.ts:9-9 *)
Definition PERSONA_IDENTITY_PREFIX : string := "persona:".
(** [personaPostIdentity] src/src/delivery/persona-identity.ts:11-13 *)
Definition personaPostIdentity (personaId : string) : string := PERSONA_IDENTITY_PREFIX +:+ personaId.
(** [personaIdFromIdentity] src/src/delivery/persona-identity.ts:15-18 *)
Definition personaIdFromIdentity (identity : option string) : option string :=
  match identity with
  | Some i => if starts_with i PERSONA_IDENTITY_PREFIX
              then if_truthy (Some (str_drop (String.length PERSONA_IDENTITY_PREFIX) i)) else None
  | None => None
  end.

(** ** Data *)

(** [DeliveryProvenance] src/src/types.ts:209-218 *)
Record DeliveryProvenance := MkProvenance {
  trigger : string;
  pv_surface : string;
  fireKey : string;
  sourceScopeId : ScopeId;
  sourceThreadRef : string;
  sourceSessionId : option string;
  sourceUserSeq : option Z;
  sourceAssistantEntrySeq : option Z;
}.

(** [Delivery] src/src/types.ts:263-276 *)
Record Delivery := MkDelivery {
  dl_id : string;
  dl_destination : Destination;
  dl_text : string;
  dl_attachments : option (list OutgoingAttachment);
  provenance : option DeliveryProvenance;
  idempotencyKey : string;
  dl_createdAt : Z;
  deliveredAt : option Z;
  shadow : bool;
  recipientThreadRef : option string;
  deliverLatencyMs : option Z;
  slackApiMs : option Z;
}.
#[export] Instance Delivery_eta : Eta Delivery := fun d =>
  MkDelivery d.(dl_id) d.(dl_destination) d.(dl_text) d.(dl_attachments) d.(provenance) d.(idempotencyKey)
    d.(dl_createdAt) d.(deliveredAt) d.(shadow) d.(recipientThreadRef) d.(deliverLatencyMs) d.(slackApiMs).

(** The input of [enqueue], src/src/delivery/delivery-store.ts:6-13 *)
Record NewDelivery := MkNewDelivery {
  nd_destination : Destination;
  nd_text : string;
  nd_attachments : option (list OutgoingAttachment);
  nd_provenance : option DeliveryProvenance;
  nd_idempotencyKey : string;
  nd_shadow : bool;
}.

(** The state, src/src/delivery/delivery-store.ts:29-33 *)
Record DeliveryStore := MkDeliveryStore {
  deliveries : jsmap string Delivery;
  keyed : jsmap string string;
  claimedUntil : jsmap string Z;
}.
#[export] Instance DeliveryStore_eta : Eta DeliveryStore := fun s =>
  MkDeliveryStore s.(deliveries) s.(keyed) s.(claimedUntil).
Definition empty_deliveries : DeliveryStore := MkDeliveryStore ∅ ∅ ∅.

(** ** Operations *)

(** An attachment list that is present and not empty. *)
Definition nonempty {A} (l : option (list A)) : option (list A) :=
  match l with Some (_ :: _) => l | _ => None end.

(** [existingId], src/src/delivery/delivery-store.ts:37-38 *)
Definition existing (key : string) (st : DeliveryStore) : option string :=
  if_truthy (st.(keyed) !! key).

(** [enqueue] src/src/delivery/delivery-store.ts:39-51 *)
Definition new_delivery (uuid : string) (now : Z) (i : NewDelivery) : Delivery :=
  MkDelivery uuid i.(nd_destination) i.(nd_text) (nonempty i.(nd_attachments)) i.(nd_provenance)
    i.(nd_idempotencyKey) now None i.(nd_shadow) None None None.

(** Storing a delivery and indexing its key, src/src/delivery/delivery-store.ts:50-51 *)
Definition store_delivery (d : Delivery) (st : DeliveryStore) : DeliveryStore :=
  st <| deliveries := <[d.(dl_id) := d]> st.(deliveries) |>
     <| keyed := <[d.(idempotencyKey) := d.(dl_id)]> st.(keyed) |>.

(** [enqueue] src/src/delivery/delivery-store.ts:36-54
    Answers the delivery and whether the listeners were called. *)
Definition enqueue (uuid : string) (now : Z) (i : NewDelivery) (st : DeliveryStore)
  : (option Delivery * bool) * DeliveryStore :=
  match existing i.(nd_idempotencyKey) st with
  | Some id => ((st.(deliveries) !! id, false), st)
  | None =>
      let d := new_delivery uuid now i in
      ((Some d, negb d.(shadow)), store_delivery d st)
  end.

(** [pending] src/src/delivery/delivery-store.ts:55-57 *)
Definition is_pending (type : string) (d : Delivery) : bool :=
  (d.(deliveredAt) === None) && negb d.(shadow) && (d.(dl_destination).(d_type) === type).
(** [pending] src/src/delivery/delivery-store.ts:55-57 *)
Definition pending_deliveries (type : string) (st : DeliveryStore) : list Delivery :=
  js_filter (is_pending type) (values st.(deliveries)).

(** [claimPending] src/src/delivery/delivery-store.ts:60-63 *)
Definition claimable_deliveries (type : string) (now : Z) (st : DeliveryStore) : list Delivery :=
  js_filter (fun d => is_pending type d && ((st.(claimedUntil) !! d.(dl_id) ?? 0) <=? now)%Z)
    (values st.(deliveries)).
(** [claimPending] src/src/delivery/delivery-store.ts:58-66 *)
Definition claimPending (type : string) (now ttlMs : Z) (st : DeliveryStore) : list Delivery * DeliveryStore :=
  let rows := claimable_deliveries type now st in
  (rows, st <| claimedUntil := fold_left (fun m d => <[d.(dl_id) := (now + ttlMs)%Z]> m) rows st.(claimedUntil) |>).

(** [listShadow] src/src/delivery/delivery-store.ts:67-73 *)
Definition listShadow (limit : option Z) (st : DeliveryStore) : list Delivery :=
  slice 0 (Z.max 1 (limit ?? 100))
    (js_sort (fun a b => b.(dl_createdAt) - a.(dl_createdAt))%Z
      (js_filter (fun d => d.(shadow) && (d.(deliveredAt) === None)) (values st.(deliveries)))).

(** The write-back of a delivery the store changed in place. *)
Definition put_delivery (d : Delivery) (st : DeliveryStore) : DeliveryStore :=
  st <| deliveries := <[d.(dl_id) := d]> st.(deliveries) |>.

(** [ack] src/src/delivery/delivery-store.ts:74-81 *)
Definition ack (id : string) (at_ : Z) (apiMs : option Z) (st : DeliveryStore) : DeliveryStore :=
  match st.(deliveries) !! id with
  | Some d =>
      if d.(deliveredAt) === None then
        put_delivery (d <| deliveredAt := Some at_ |> <| deliverLatencyMs := Some (Z.max 0 (at_ - d.(dl_createdAt))) |>
                        <| slackApiMs := or_else apiMs d.(slackApiMs) |>) st
      else st
  | None => st
  end.

(** [ackByKey] src/src/delivery/delivery-store.ts:89-96 *)
Definition tombstone (uuid key : string) (at_ : Z) : Delivery :=
  MkDelivery uuid (address "ack-tombstone" "") "" None None key at_ (Some at_) false None None None.

(** [ackByKey] src/src/delivery/delivery-store.ts:82-99 *)
Definition ackByKey (uuid key : string) (at_ : Z) (st : DeliveryStore) : DeliveryStore :=
  match existing key st with
  | Some id =>
      match st.(deliveries) !! id with
      | Some d => if d.(deliveredAt) === None then put_delivery (d <| deliveredAt := Some at_ |>) st else st
      | None => st
      end
  | None => store_delivery (tombstone uuid key at_) st
  end.

(** [setEditRefByKey] src/src/delivery/delivery-store.ts:100-104 *)
Definition setEditRefByKey (key ref : string) (st : DeliveryStore) : DeliveryStore :=
  match existing key st with
  | Some id =>
      match st.(deliveries) !! id with
      | Some d =>
          if d.(deliveredAt) === None
          then put_delivery (d <| dl_destination := d.(dl_destination) <| d_editRef := Some ref |> |>) st else st
      | None => st
      end
  | None => st
  end.

(** [get] src/src/delivery/delivery-store.ts:105-107 *)
Definition get_delivery (id : string) (st : DeliveryStore) : option Delivery := st.(deliveries) !! id.

(** [recordRecipientThread] src/src/delivery/delivery-store.ts:108-113 *)
Definition recordRecipientThread (id ref : string) (at_ : Z) (st : DeliveryStore) : DeliveryStore :=
  match st.(deliveries) !! id with
  | Some d =>
      if d.(dl_destination).(d_type) !== "principal" then st
      else put_delivery (d <| recipientThreadRef := Some ref |>
                           <| deliveredAt := or_else d.(deliveredAt) (Some at_) |>) st
  | None => st
  end.

(** [listByRecipientThread] src/src/delivery/delivery-store.ts:114-120 *)
Definition listByRecipientThread (ref : string) (limit : option Z) (st : DeliveryStore) : list Delivery :=
  slice_from (- Z.max 1 (limit ?? 20))
    (js_sort (fun a b => a.(dl_createdAt) - b.(dl_createdAt))%Z
      (js_filter (fun d => (d.(recipientThreadRef) === Some ref) && (d.(dl_destination).(d_type) === "principal"))
        (values st.(deliveries)))).

(** [listBySourceSession] src/src/delivery/delivery-store.ts:121-129 *)
Definition listBySourceSession (sid ref : string) (limit : option Z) (st : DeliveryStore) : list Delivery :=
  slice_from (- Z.max 1 (limit ?? 20))
    (js_sort (fun a b => a.(dl_createdAt) - b.(dl_createdAt))%Z
      (js_filter (fun d => match d.(provenance) with
                           | Some p => (p.(sourceSessionId) === Some sid) || (p.(sourceThreadRef) === ref)
                           | None => false
                           end) (values st.(deliveries)))).

(** [sentCountsBySourceSessions] src/src/delivery/delivery-store.ts:135-141
    The session a delivery counts for. *)
Definition counted_for (sources : list (string * string)) (d : Delivery) : option string :=
  if d.(shadow) then None
  else match d.(provenance) with
  | None => None
  | Some p =>
      if_truthy (match if_truthy p.(sourceSessionId) with
                 | Some sid => if includes sources.*1 sid then Some sid else None
                 | None => if truthy p.(sourceThreadRef)
                           then new_map (map (fun s => (s.2, s.1)) sources) !! p.(sourceThreadRef) else None
                 end)
  end.

(** [sentCountsBySourceSessions] src/src/delivery/delivery-store.ts:130-145
    A source is its session id and its thread reference. *)
Definition sentCountsBySourceSessions (sources : list (string * string)) (st : DeliveryStore) : jsmap string Z :=
  fold_left (fun counts d =>
    match counted_for sources d with
    | Some id => <[id := ((counts !! id ?? 0) + 1)%Z]> counts
    | None => counts
    end) (values st.(deliveries)) ∅.

(** [sentRunCountsByCron] src/src/delivery/delivery-store.ts:149-155 *)
Definition cron_run (cronIds : list string) (d : Delivery) : option (string * string) :=
  if d.(shadow) then None
  else match d.(provenance) with
  | None => None
  | Some p =>
      if negb (truthy p.(sourceThreadRef)) then None
      else match if_truthy (cronIdOf (Some p.(sourceThreadRef))) with
           | Some cronId => if includes cronIds cronId then Some (cronId, p.(sourceSessionId) ?? p.(sourceThreadRef)) else None
           | None => None
           end
  end.

(** [sentRunCountsByCron] src/src/delivery/delivery-store.ts:146-158 *)
Definition sentRunCountsByCron (cronIds : list string) (st : DeliveryStore) : list (string * Z) :=
  let runs := fold_left (fun (runs : jsmap string (list string)) d =>
      match cron_run cronIds d with
      | Some (c, r) => let set := runs !! c ?? [] in <[c := if includes set r then set else set ++ [r]]> runs
      | None => runs
      end) (values st.(deliveries)) ∅ in
  map (fun kv => (kv.1, Z.of_nat (length kv.2))) (entries runs).

(** ** What a finished run delivers *)

(** [SECURITY_QUARANTINE_REFUSAL_TEXT] src/plugins/chassis/src/security-quarantine.ts:1-2 *)
Definition SECURITY_QUARANTINE_REFUSAL_TEXT : string :=
  "I couldn't act because my security screen flagged part of this message or its conversation context. Please retry without the flagged context, or ask an admin to review the quarantine.".

(** [runResultDelivery] src/src/delivery/run-result-delivery.ts:28-35 *)
Definition run_destination (r : Run) (todo : list Task) (surface target : string) : Destination :=
  let panelAuthor := match r.(request).(panel) with
                     | Some p => if p.(continuation) then if_truthy (Some p.(pb_personaId)) else None
                     | None => None
                     end in
  (address surface target)
    <| d_editRef := if_truthy (r.(deliveryState) ≫= fun e => e) |>
    <| taskList := match todo with
                   | [] => None
                   | _ => Some (map (fun t => MkTaskRow t.(tk_id) t.(tk_title) t.(tk_status)) todo)
                   end |>
    <| d_identity := if surface === "slack" then personaPostIdentity <$> panelAuthor else None |>.

(** [runResultDelivery] src/src/delivery/run-result-delivery.ts:54-62
    The quiet turn of a panel. *)
Definition quiet_panel_turn (r : Run) : bool :=
  let st := t_status <$> r.(run_result) in
  let reply := r.(run_result) ≫= t_reply in
  is_some r.(request).(panel)
  && negb (is_some (nonempty (r.(run_result) ≫= t_attachments)))
  && (r.(status) !== Runs.failed) && (st !== Some ts_failed) && (st !== Some ts_refused)
  && ((st === Some ts_silent) || isPanelPass reply || negb (truthy (trim (reply ?? "")))).

(** [runResultDelivery] src/src/delivery/run-result-delivery.ts:17-78 *)
Definition runResultDelivery (r : Run) (todo : list Task) : option NewDelivery :=
  let surface := r.(request).(surface) in
  match if_truthy r.(request).(deliveryTarget) with
  | None => None
  | Some target =>
      if negb (truthy surface) then None
      else
        let destination := run_destination r todo surface target in
        let key := "run:" +:+ r.(id) in
        let out text atts := Some (MkNewDelivery destination text atts None key false) in
        let st := t_status <$> r.(run_result) in
        let atts := nonempty (r.(run_result) ≫= t_attachments) in
        if (surface === "slack") && (st === Some ts_refused) && is_true (t_quarantine <$> r.(run_result))
           && is_true r.(request).(addressed)
        then out SECURITY_QUARANTINE_REFUSAL_TEXT None
        else if quiet_panel_turn r then None
        else if is_true r.(request).(surfaceTools) && (st !== Some ts_failed) && (atts === None) then None
        else if r.(status) === Runs.failed then
          match resolveTurnOrigin r.(request).(rq_origin) r.(request).(legacy) with
          | o_ambient _ _ => None
          | _ => out ("⚠️ I couldn't finish that turn: "
                       +:+ ((r.(run_result) ≫= t_reason) ?? "unknown error")) None
          end
        else if (st === Some ts_ok)
                && (truthy_opt (r.(run_result) ≫= t_reply) || is_some atts)
        then out ((r.(run_result) ≫= t_reply) ?? "") atts
        else None
  end.

(** [wireRunResultDeliveries] src/src/delivery/run-result-delivery.ts:80-89
    What the listener does when a run ended. *)
Definition on_run_terminal (localeCompare : string -> string -> Z) (uuid : string) (now : Z) (r : Run)
    (ts : TaskStore) (st : DeliveryStore) : DeliveryStore :=
  match runResultDelivery r (list_tasks localeCompare (MkTaskFilter None (Some r.(id)) None) ts) with
  | None => st
  | Some i => (enqueue uuid now i st).2
  end.

(** ** One delivery per key, delivered once *)

(** The calls that change the queue; [late t] says a claim may happen at time [t]. *)
Inductive step (late : Z -> Prop) : DeliveryStore -> DeliveryStore -> Prop :=
| step_enqueue u now i st : st.(deliveries) !! u = None -> truthy u = true -> step late st (enqueue u now i st).2
| step_claim type now ttl st : late now -> step late st (claimPending type now ttl st).2
| step_ack id at_ ms st : step late st (ack id at_ ms st)
| step_ackByKey u key at_ st :
    st.(deliveries) !! u = None -> truthy u = true -> step late st (ackByKey u key at_ st)
| step_editRef key ref st : step late st (setEditRefByKey key ref st)
| step_recipient id ref at_ st : step late st (recordRecipientThread id ref at_ st).

Definition anytime (t : Z) : Prop := True.
Definition Reach : DeliveryStore -> Prop := reachable (fun st => st = empty_deliveries) (step anytime).

Record ok (st : DeliveryStore) : Prop := {
  ok_delivery k d : st.(deliveries) !! k = Some d ->
    dl_id d = k /\ truthy k = true /\ st.(keyed) !! d.(idempotencyKey) = Some k;
  ok_keyed key k : st.(keyed) !! key = Some k ->
    exists d, st.(deliveries) !! k = Some d /\ d.(idempotencyKey) = key;
}.

Lemma existing_None key st : ok st -> existing key st = None -> st.(keyed) !! key = None.
Proof.
  intros Hok. unfold existing, if_truthy. destruct (keyed st !! key) as [k|] eqn:Ek; simpl; [|done].
  destruct (ok_keyed _ Hok _ _ Ek) as (d & Hd & _).
  destruct (ok_delivery _ Hok _ _ Hd) as (_ & -> & _). done.
Qed.
Lemma existing_Some key k st : existing key st = Some k -> st.(keyed) !! key = Some k.
Proof. unfold existing, if_truthy. by destruct (truthy_opt _). Qed.

Lemma store_delivery_ok d st :
  ok st -> st.(deliveries) !! dl_id d = None -> truthy (dl_id d) = true ->
  st.(keyed) !! d.(idempotencyKey) = None -> ok (store_delivery d st).
Proof.
  intros [Hd Hk] Hn Ht Hkey. split; simpl.
  - intros k d'. rewrite lookup_set. case_decide as Hki.
    + intros [= <-]. subst k. by rewrite lookup_set_eq.
    + intros Hd'. destruct (Hd _ _ Hd') as (? & ? & Hi). split; [done|]. split; [done|].
      rewrite lookup_set_ne; [done|]. intros E. by rewrite E, Hi in Hkey.
  - intros key k. rewrite lookup_set. case_decide as Hki.
    + intros [= <-]. subst key. exists d. by rewrite lookup_set_eq.
    + intros Hk'. destruct (Hk _ _ Hk') as (d' & Hd' & <-). exists d'. split; [|done].
      rewrite lookup_set_ne; [done|]. intros E. by rewrite <- E, Hn in Hd'.
Qed.

Lemma put_delivery_ok d d' st :
  ok st -> st.(deliveries) !! dl_id d' = Some d -> d'.(idempotencyKey) = d.(idempotencyKey) ->
  ok (put_delivery d' st).
Proof.
  intros [Hd Hk] Hl Hkey. split; simpl.
  - intros k e. rewrite lookup_set. case_decide as Hki; [|by apply Hd].
    intros [= <-]. subst k. rewrite Hkey. by destruct (Hd _ _ Hl) as (_ & ? & ?).
  - intros key k Hk'. destruct (Hk _ _ Hk') as (e & He & <-). rewrite lookup_set.
    case_decide as Hki; [|eauto]. subst k. exists d'. split; [done|]. congruence.
Qed.

(** What a step may do to a stored delivery: keep its key, and its delivery time once set. *)
Definition keeps (d d' : Delivery) : Prop :=
  dl_id d' = dl_id d /\ idempotencyKey d' = idempotencyKey d /\ dl_text d' = dl_text d /\
  (is_Some (deliveredAt d) -> deliveredAt d' = deliveredAt d).
Lemma keeps_refl d : keeps d d.
Proof. by unfold keeps. Qed.
Lemma keeps_trans d1 d2 d3 : keeps d1 d2 -> keeps d2 d3 -> keeps d1 d3.
Proof.
  intros (A1 & A2 & A3 & A4) (B1 & B2 & B3 & B4). unfold keeps. split_and!; try congruence.
  intros Hs. rewrite B4; [by apply A4|]. by rewrite A4.
Qed.

Definition grows (st st' : DeliveryStore) : Prop :=
  forall k d, st.(deliveries) !! k = Some d -> exists d', st'.(deliveries) !! k = Some d' /\ keeps d d'.

Lemma grows_refl st : grows st st.
Proof. intros k d Hd. eauto using keeps_refl. Qed.
Lemma store_grows d st : st.(deliveries) !! dl_id d = None -> grows st (store_delivery d st).
Proof.
  intros Hn k e He. exists e. split; [|apply keeps_refl]. simpl. rewrite lookup_set_ne; [done|]. congruence.
Qed.
Lemma put_grows d d' st : st.(deliveries) !! dl_id d' = Some d -> keeps d d' -> grows st (put_delivery d' st).
Proof.
  intros Hl Hk k e He. simpl. rewrite lookup_set. case_decide; [|eauto using keeps_refl]. subst k.
  exists d'. split; [done|]. congruence.
Qed.

(** A step either leaves the deliveries, adds one under a new key, or rewrites one. *)
Inductive change (st : DeliveryStore) : DeliveryStore -> Prop :=
| change_none c : change st (st <| claimedUntil := c |>)
| change_new d : st.(deliveries) !! dl_id d = None -> truthy (dl_id d) = true ->
    st.(keyed) !! d.(idempotencyKey) = None -> change st (store_delivery d st)
| change_put d d' : st.(deliveries) !! dl_id d' = Some d -> keeps d d' -> change st (put_delivery d' st).

Lemma change_same st : change st st.
Proof. pose proof (change_none st (claimedUntil st)) as H. by destruct st. Qed.

Lemma step_change late st st' : ok st -> step late st st' -> change st st'.
Proof.
  intros Hok Hs. destruct Hs as [u now i st Hu Ht|type now ttl st Hl|id at_ ms st|u key at_ st Hu Ht|key ref st|id ref at_ st].
  - unfold enqueue. destruct (existing _ st) eqn:Ee; [apply change_same|].
    apply existing_None in Ee; [|done]. by apply change_new.
  - apply change_none.
  - unfold ack. destruct (deliveries st !! id) as [d|] eqn:Ed; [|apply change_same].
    destruct (deliveredAt d === None) eqn:En; [|apply change_same]. to_prop.
    destruct (ok_delivery _ Hok _ _ Ed) as (<- & _).
    eapply change_put; [exact Ed|]. unfold keeps. simpl. rewrite En. by split_and!.
  - unfold ackByKey. destruct (existing key st) as [k|] eqn:Ee.
    + destruct (deliveries st !! k) as [d|] eqn:Ed; [|apply change_same].
      destruct (deliveredAt d === None) eqn:En; [|apply change_same]. to_prop.
      destruct (ok_delivery _ Hok _ _ Ed) as (<- & _).
      eapply change_put; [exact Ed|]. unfold keeps. simpl. rewrite En. by split_and!.
    + apply existing_None in Ee; [|done]. by apply change_new.
  - unfold setEditRefByKey. destruct (existing key st) as [k|]; [|apply change_same].
    destruct (deliveries st !! k) as [d|] eqn:Ed; [|apply change_same].
    destruct (deliveredAt d === None); [|apply change_same].
    destruct (ok_delivery _ Hok _ _ Ed) as (<- & _). by eapply change_put.
  - unfold recordRecipientThread. destruct (deliveries st !! id) as [d|] eqn:Ed; [|apply change_same].
    destruct (negb _); [apply change_same|].
    destruct (ok_delivery _ Hok _ _ Ed) as (<- & _).
    eapply change_put; [exact Ed|]. unfold keeps. simpl. split_and!; try done. by intros [t ->].
Qed.

Lemma delivery_change_ok st st' : ok st -> change st st' -> ok st'.
Proof.
  intros Hok Hs. destruct Hs as [c|d|d d' Hl Hk].
  - destruct Hok as [Hd Hk]. by split.
  - by apply store_delivery_ok.
  - eapply put_delivery_ok; [done|exact Hl|]. by destruct Hk as (_ & ? & _).
Qed.
Lemma change_grows st st' : change st st' -> grows st st'.
Proof.
  intros Hs. destruct Hs; [|by apply store_grows|by eapply put_grows].
  intros k d Hd. exists d. split; [done|apply keeps_refl].
Qed.

Lemma steps_ok late st st' : rtc (step late) st st' -> ok st -> ok st'.
Proof. apply rtc_invariant. eauto using step_change, delivery_change_ok. Qed.
Lemma delivery_reach_ok st : Reach st -> ok st.
Proof.
  apply invariant_reachable; [|eauto using step_change, delivery_change_ok].
  intros ? ->. by split.
Qed.
Lemma steps_grow late st st' : rtc (step late) st st' -> ok st -> grows st st'.
Proof.
  intros Hr. induction Hr as [|s1 s2 s3 H12 _ IH]; intros Hok; [apply grows_refl|].
  pose proof (step_change _ _ _ Hok H12) as Hc. specialize (IH (delivery_change_ok _ _ Hok Hc)).
  intros k d Hd. destruct (change_grows _ _ Hc _ _ Hd) as (d1 & Hd1 & Hk1).
  destruct (IH _ _ Hd1) as (d2 & Hd2 & Hk2). eauto using keeps_trans.
Qed.


(** ** Claims *)

Lemma fold_claim_lookup rows until (m : jsmap string Z) k :
  fold_left (fun m d => <[d.(dl_id) := until]> m) rows m !! k =
    if decide (k ∈ map dl_id rows) then Some until else m !! k.
Proof.
  revert m. induction rows as [|d rows IH]; intros m; cbn [fold_left map].
  - rewrite decide_False; [done|]. apply not_elem_of_nil.
  - rewrite IH, lookup_set. repeat case_decide; subst; try done; rewrite elem_of_cons in *; naive_solver.
Qed.

Definition claimed_past (T : Z) (k : string) (st : DeliveryStore) : Prop :=
  exists u, st.(claimedUntil) !! k = Some u /\ T <= u.

Lemma claimed_step T k st st' :
  ok st -> is_Some (st.(deliveries) !! k) -> claimed_past T k st ->
  step (fun t => t < T) st st' -> claimed_past T k st'.
Proof.
  intros Hok [d0 Hd0] (u & Hu & Hle) Hs. unfold claimed_past.
  destruct Hs as [u0 now i st Hu0 Ht|type now ttl st Hl|id at_ ms st|u0 key at_ st Hu0 Ht|key ref st|id ref at_ st].
  - unfold enqueue. destruct (existing _ st); simpl; eauto.
  - unfold claimPending. simpl. exists u. split; [|done]. rewrite fold_claim_lookup.
    rewrite decide_False; [done|]. intros (d & -> & Hd)%list_elem_of_fmap.
    apply elem_of_js_filter in Hd as [Hp _]. to_prop. rewrite Hu in *. simpl in *. lia.
  - unfold ack. destruct (deliveries st !! id); [|eauto]. destruct (_ === _); simpl; eauto.
  - unfold ackByKey. destruct (existing key st); [|simpl; eauto].
    destruct (deliveries st !! s); [|eauto]. destruct (_ === _); simpl; eauto.
  - unfold setEditRefByKey. destruct (existing key st); [|eauto].
    destruct (deliveries st !! s); [|eauto]. destruct (_ === _); simpl; eauto.
  - unfold recordRecipientThread. destruct (deliveries st !! id); [|eauto]. destruct (negb _); simpl; eauto.
Qed.

(** Claims are exclusive.  What a claim hands out is pending and was not under another
    claim; and until its time to live is over, no later claim, of any type and whatever
    happened in between, hands out any of it again. *)
Theorem claim_exclusive st type now ttl st' type' now' ttl' :
  Reach st -> 0 <= now ->
  rtc (step (fun t => t < now + ttl)) (claimPending type now ttl st).2 st' -> now' < now + ttl ->
  let rows := (claimPending type now ttl st).1 in
  (forall d, d ∈ rows -> deliveredAt d = None /\ shadow d = false /\ d_type (dl_destination d) = type /\
     forall t, st.(claimedUntil) !! dl_id d = Some t -> t <= now) /\
  (forall d d', d ∈ rows -> d' ∈ (claimPending type' now' ttl' st').1 -> dl_id d <> dl_id d').
Proof.
  intros Hok%delivery_reach_ok H0 Hs Hlt rows. split.
  - intros d [Hp _]%elem_of_js_filter. unfold is_pending in Hp. to_prop. split_and!; try done.
    intros t Ht. rewrite Ht in *. simpl in *. lia.
  - intros d d' Hd Hd' E.
    set (st1 := (claimPending type now ttl st).2) in *.
    assert (Hok1 : ok st1) by (destruct Hok as [Ha Hb]; by split).
    assert (Hin : is_Some (st1.(deliveries) !! dl_id d)).
    { apply elem_of_js_filter in Hd as [_ [k Hk]%elem_of_values].
      destruct (ok_delivery _ Hok _ _ Hk) as (-> & _). exists d. exact Hk. }
    assert (Hc : claimed_past (now + ttl) (dl_id d) st1).
    { exists (now + ttl)%Z. split; [|lia]. unfold st1, claimPending. simpl.
      rewrite fold_claim_lookup, decide_True; [done|]. apply list_elem_of_fmap. eauto. }
    assert (Hc' : claimed_past (now + ttl) (dl_id d) st').
    { eapply (rtc_invariant (step (fun t => t < now + ttl))
        (fun s => ok s /\ is_Some (s.(deliveries) !! dl_id d) /\ claimed_past (now + ttl) (dl_id d) s));
        [|exact Hs|done].
      intros a b (Ha & Hb & Hc') Hab. pose proof (step_change _ _ _ Ha Hab) as Hch.
      split; [by eapply delivery_change_ok|]. split; [|by eapply claimed_step].
      destruct Hb as [e He]. destruct (change_grows _ _ Hch _ _ He) as (e' & ? & _). eauto. }
    destruct Hc' as (u & Hu & Hle). apply elem_of_js_filter in Hd' as [Hp _]. to_prop.
    rewrite <- E, Hu in *. simpl in *. lia.
Qed.

(** ** Results *)

Lemma trim_end_head c s : is_space c = false -> exists t, trim_end (String c s) = String c t.
Proof. intros Hc. simpl. destruct (trim_end s); [rewrite Hc|]; eauto. Qed.
Lemma trim_head c s : is_space c = false -> exists t, trim (String c s) = String c t.
Proof. intros Hc. unfold trim. simpl. rewrite Hc. by apply trim_end_head. Qed.

Lemma personaId_roundtrip pid : personaIdFromIdentity (Some (personaPostIdentity pid)) = if_truthy (Some pid).
Proof.
  unfold personaIdFromIdentity, personaPostIdentity. by rewrite starts_with_app, str_drop_app.
Qed.

(** A quiet persona stays quiet on the surface.  Whatever a panel turn came to, a message
    the recovery queue posts for it without attachments is never the literal PASS and never
    blank; and the identity it is posted under names the persona it came from. *)
Theorem panel_silence_not_delivered r todo i :
  runResultDelivery r todo = Some i -> is_Some (panel (request r)) -> nd_attachments i = None ->
  isPanelPass (Some (nd_text i)) = false /\ truthy (trim (nd_text i)) = true /\
  nd_idempotencyKey i = "run:" +:+ id r /\
  (forall ident, d_identity (nd_destination i) = Some ident ->
     exists p, panel (request r) = Some p /\ personaIdFromIdentity (Some ident) = Some (pb_personaId p)).
Proof.
  intros Hr Hpanel Hatt. unfold runResultDelivery in Hr.
  destruct (if_truthy (deliveryTarget (request r))) as [target|]; [|done].
  destruct (negb (truthy (surface (request r)))); [done|].
  set (dest := run_destination _ _ _ _) in Hr.
  assert (Hid : forall ident, d_identity dest = Some ident ->
    exists p, panel (request r) = Some p /\ personaIdFromIdentity (Some ident) = Some (pb_personaId p)).
  { intros ident. unfold dest, run_destination. simpl. destruct (surface (request r) === "slack"); [|done].
    destruct (panel (request r)) as [p|]; [|done]. destruct (continuation p); [|done].
    unfold if_truthy. simpl. destruct (truthy (pb_personaId p)) eqn:Et; [|done]. cbn [fmap option_fmap option_map]. intros [= <-].
    exists p. split; [done|]. change (personaIdFromIdentity (Some (personaPostIdentity (pb_personaId p))) = Some (pb_personaId p)).
    rewrite personaId_roundtrip. unfold if_truthy. simpl. by rewrite Et. }
  assert (Hpost : forall text, i = MkNewDelivery dest text None None ("run:" +:+ id r) false ->
    isPanelPass (Some text) = false /\ truthy (trim text) = true ->
    isPanelPass (Some (nd_text i)) = false /\ truthy (trim (nd_text i)) = true /\
    nd_idempotencyKey i = "run:" +:+ id r /\
    (forall ident, d_identity (nd_destination i) = Some ident ->
      exists p, panel (request r) = Some p /\ personaIdFromIdentity (Some ident) = Some (pb_personaId p))).
  { intros text -> [? ?]. by split_and!. }
  destruct (_ && is_true (addressed (request r))) in Hr.
  { injection Hr as <-. eapply Hpost; [done|]. by vm_compute. }
  destruct (quiet_panel_turn r) eqn:Hq; [done|].
  destruct (is_true (surfaceTools (request r)) && _ && _) in Hr; [done|].
  destruct (status r === Runs.failed) eqn:Hst.
  { destruct (resolveTurnOrigin _ _); try done; injection Hr as <-; (eapply Hpost; [done|]);
      unfold isPanelPass; simpl default;
      match goal with |- context [trim (String.append (String ?c _) _)] => idtac | _ => idtac end;
      match goal with |- context [trim ?t] =>
        let t' := eval hnf in t in change t with t';
        match t' with String ?c ?s => destruct (trim_head c s ltac:(done)) as [u ->] end end; done. }
  destruct (t_status <$> run_result r) as [ts|] eqn:Hts; [|done].
  destruct ((Some ts === Some ts_ok) && _) eqn:Hok in Hr; [|done]. injection Hr as <-.
  to_prop. simpl in Hatt. eapply (Hpost _); [by rewrite Hatt|].
  unfold quiet_panel_turn in Hq. rewrite Hts, (proj2 (eqb_false _ _) Hst), Hatt in Hq. simplify_eq.
  apply is_some_true in Hpanel. rewrite Hpanel in Hq. simpl in Hq. apply orb_false_iff in Hq as [Hq1 Hq2].
  unfold isPanelPass in *. simpl. split; [exact Hq1|]. by apply negb_false_iff in Hq2.
Qed.

(** ** Witnesses *)

Definition demo_delivery : NewDelivery :=
  MkNewDelivery (address "slack" "C1") "hello" None None "run:r1" false.
(** The acknowledgement comes first, then the enqueue. *)
Definition demo_queue : DeliveryStore := ackByKey "d0" "run:r0" 5 (enqueue "d1" 10 demo_delivery empty_deliveries).2.
Definition demo_row : Delivery := default (tombstone "" "" 0) (demo_queue.(deliveries) !! "d0").

Lemma demo_queue_reach : Reach demo_queue.
Proof.
  apply (reachable_step _ _ (enqueue "d1" 10 demo_delivery empty_deliveries).2).
  - apply (reachable_step _ _ empty_deliveries); [by apply reachable_init|].
    apply step_enqueue; vm_compute; reflexivity.
  - apply step_ackByKey; vm_compute; reflexivity.
Qed.


Lemma claim_exclusive_witness :
  map dl_id (claimPending "slack" 20 30 demo_queue).1 = ["d1"] /\
  forall d d', d ∈ (claimPending "slack" 20 30 demo_queue).1 ->
    d' ∈ (claimPending "slack" 40 30 (claimPending "slack" 20 30 demo_queue).2).1 -> dl_id d <> dl_id d'.
Proof.
  split; [vm_compute; reflexivity|].
  apply (claim_exclusive demo_queue "slack" 20 30 (claimPending "slack" 20 30 demo_queue).2 "slack" 40 30 demo_queue_reach);
    [lia|reflexivity|lia].
Defined.

Definition demo_panel_request : TurnRequest :=
  MkTurnRequest "slack" (Some "C1") "hi" None (MkLegacy None None None None None None None None)
    (Some (MkPanelBlock "p1" "Scout" true)) None None.
Definition demo_panel_run (reply : string) : Run :=
  MkRun "r1" "s1" done_ demo_panel_request (Some (MkTurnResult ts_ok None (Some reply) None false None None None None))
    None None 1 0 3 None None None 0 None (Some 9).

Lemma panel_silence_not_delivered_witness :
  runResultDelivery (demo_panel_run " PASS ") [] = None /\
  exists i, runResultDelivery (demo_panel_run "I object.") [] = Some i /\ isPanelPass (Some (nd_text i)) = false.
Proof.
  split; [vm_compute; reflexivity|].
  destruct (runResultDelivery (demo_panel_run "I object.") []) as [i|] eqn:E; [|vm_compute in E; discriminate].
  exists i. split; [reflexivity|].
  apply (panel_silence_not_delivered (demo_panel_run "I object.") [] i E); [eexists; reflexivity|].
  vm_compute in E. injection E as <-. reflexivity.
Defined.
