(* ===== verification/Reach.v ===== *)
(** * Reaching somebody

    Whom and what a person can see ([src/src/directory/visibility.ts]), the resolution of a
    request to write to a teammate, a channel or a group, and the delivery that follows
    ([src/src/reach/reach.ts]).  The directory is the host's; each call to it may fail.  What
    the resolution changes there, opening a group and registering it, is logged, and the log
    survives a failure. *)

From S2P Require Import Prelude JsString Scope Turn Delivery.

(** ** The directory *)

(** [DirectoryMember] src/src/directory/directory-store.ts:4-9 *)
Record DirectoryMember := MkMember { dm_principalId : string; dm_displayName : string; dm_type : PrincipalType; slackId : option string }.
(** [DirectoryChannel] src/src/directory/directory-store.ts:11-15 *)
Record DirectoryChannel := MkChannel { channelId : string; ch_name : string; isPrivate : option bool }.
(** [RecipientResolution], [ChannelResolution] src/src/directory/directory-store.ts:37-41 *)
Inductive Resolution (A : Type) := one (x : A) | ambiguous (candidates : list A) | none.
Arguments one {A} x.
Arguments ambiguous {A} candidates.
Arguments none {A}.

(** What a resolution does to the world. *)
Inductive Effect := OpenGroup (participants : list string) | RegisterGroup (groupId : string) (participants : list string).

(** A computation that logs what it did, whether or not it fails. *)
Definition act (A : Type) : Type := list Effect * result string A.
#[export] Instance act_ret : MRet act := fun _ a => ([], Ok a).
#[export] Instance act_bind : MBind act := fun _ _ k m =>
  match m.2 with Ok a => let n := k a in (m.1 ++ n.1, n.2) | Throw e => (m.1, Throw e) end.
Definition ask {A} (r : result string A) : act A := ([], r).
Definition tell (e : Effect) : act unit := ([e], Ok tt).

(** [VisibilityDirectory] src/src/directory/visibility.ts:9-13 *)
Record VisibilityDirectory := MkVisibility {
  channelMember : string -> string -> result string bool;
  groupMember : string -> string -> result string bool;
  listChannelsFor : option (string -> result string (list DirectoryChannel));
}.
(** [VisibilityTarget] src/src/directory/visibility.ts:4-7 *)
Inductive VisibilityTarget := vt_dm (ownerId : string) | vt_group (groupId : string) | vt_channel (channelId : string) (isPrivate : option bool).

(** [isVisible] src/src/directory/visibility.ts:15-27 *)
Definition isVisible (dir : VisibilityDirectory) (actorId : string) (target : VisibilityTarget) : result string bool :=
  match target with
  | vt_dm ownerId => Ok (samePerson (Some actorId) (Some ownerId))
  | vt_group groupId => dir.(groupMember) groupId actorId
  | vt_channel cid (Some true) => dir.(channelMember) cid actorId
  | vt_channel cid (Some false) => Ok true
  | vt_channel cid None =>
      match dir.(listChannelsFor) with
      | None => Ok false
      | Some list => l ← list actorId; Ok (existsb (fun c => c.(channelId) === cid) l)
      end
  end.

(** [ReachDirectory] src/src/reach/reach.ts:19-28
    [openGroup] answers a group, a reason, or nothing ([OpenAnswer]). *)
Inductive OpenAnswer := opened (groupId : string) | not_opened (error : string) | no_answer.
(** [ReachDirectory] src/src/reach/reach.ts:19-28 *)
Record ReachDirectory := MkReachDirectory {
  resolveRecipient : string -> result string (Resolution DirectoryMember);
  resolveChannel : string -> result string (Resolution DirectoryChannel);
  resolveGroup : list string -> result string (option string);
  visibility : VisibilityDirectory;
  directoryMember : string -> result string (option string);
  openGroup : option (list string -> result string OpenAnswer);
  registerGroup : option (string -> list string -> result string unit);
}.

(** ** Answers *)

(** [ReachTarget] src/src/reach/reach.ts:73-77 *)
Record ReachTarget := MkReachTarget { recipient : option string; channel : option string; participants : option (list string) }.

(** [ReachResolution] src/src/reach/reach.ts:79-93
    The extra field of an answer names what was reached: a principal, a channel or a group. *)
Inductive Reached := to_recipient (principalId displayName : string) | to_channel (channelId name : string) | to_group (groupId : string).
(** [ReachResolution] src/src/reach/reach.ts:79-93 *)
Inductive ReachResolution :=
| r_ok (d : Destination) (what : Reached)
| r_no (status : Z) (error message : string) (candidates : list (list (string * string))).

(** [principalDestination] src/src/reach/reach.ts:15-17 *)
Definition principalDestination (target onBehalfOf : string) : Destination :=
  MkDestination "principal" target (Some (scopeId personal target)) (Some onBehalfOf) None None None None None None None.

(** [MAX_GROUP_DM_PARTICIPANTS] src/src/reach/reach.ts:30-30 *)
Definition MAX_GROUP_DM_PARTICIPANTS : Z := 8.

(** [groupTooLarge] src/src/reach/reach.ts:32-39 *)
Definition groupTooLarge : ReachResolution :=
  r_no 400 "group_too_large" "a group DM holds at most 8 people including you — use a channel instead" [].

Inductive Room := room_channel | room_group.

(** [membershipDenial] src/src/reach/reach.ts:50-71 *)
Definition membershipDenial (dir : ReachDirectory) (authorityId : string) (room : Room) : act ReachResolution :=
  m ← ask (dir.(directoryMember) authorityId);
  match m with
  | None => mret (r_no 403 "identity_unverified"
      "I can't confirm your membership here — your account isn't in this workspace's directory, so your login may not be linked to Slack (or it hasn't synced yet). Connecting / signing in with Slack should link it." [])
  | Some _ => mret (r_no 403 "not_a_member"
      match room with
      | room_channel => "I can only post to a private channel you're in"
      | room_group => "I can only post to a group DM you're in"
      end [])
  end.

Definition bad_request (message : string) : ReachResolution := r_no 400 "bad_request" message [].

(** [resolveReachTarget] src/src/reach/reach.ts:187-203
    The refusal of a recipient that names nobody, or several. *)
Definition recipient_refusal (query : string) (r : Resolution DirectoryMember) : ReachResolution + DirectoryMember :=
  match r with
  | none => inl (r_no 404 "recipient_not_found" ("no internal teammate matches " ++ dq ++ query ++ dq) [])
  | ambiguous l => inl (r_no 409 "ambiguous_recipient"
      (dq ++ query ++ dq ++ " matches multiple teammates — pass an exact name or id")
      (map (fun c => [("principalId", c.(dm_principalId)); ("displayName", c.(dm_displayName))]) l))
  | one m => inr m
  end.

(** [resolveReachTarget] src/src/reach/reach.ts:116-141 *)
Definition reach_recipient (dir : ReachDirectory) (query authorityId : string) : act ReachResolution :=
  r ← ask (dir.(resolveRecipient) query);
  match recipient_refusal query r with
  | inl no => mret no
  | inr m => mret (r_ok (principalDestination m.(dm_principalId) authorityId)
                     (to_recipient m.(dm_principalId) m.(dm_displayName)))
  end.

(** [resolveReachTarget] src/src/reach/reach.ts:142-172 *)
Definition reach_channel (dir : ReachDirectory) (query authorityId : string) : act ReachResolution :=
  r ← ask (dir.(resolveChannel) query);
  match r with
  | none => mret (r_no 404 "channel_not_found" ("no channel I'm in matches " ++ dq ++ query ++ dq) [])
  | ambiguous l => mret (r_no 409 "ambiguous_channel"
      (dq ++ query ++ dq ++ " matches multiple channels — pass an exact name or id")
      (map (fun c => [("channelId", c.(channelId)); ("name", c.(ch_name))]) l))
  | one c =>
      let cid := c.(channelId) in
      v ← ask (isVisible dir.(visibility) authorityId (vt_channel cid (Some (c.(isPrivate) === Some true))));
      if negb v then membershipDenial dir authorityId room_channel
      else mret (r_ok ((address "slack" cid) <| audienceScopeId := Some (scopeId Scope.channel cid) |>)
                   (to_channel cid c.(ch_name)))
  end.

(** [resolveReachTarget] src/src/reach/reach.ts:184-205 *)
Fixpoint name_all (dir : ReachDirectory) (asked named : list string) : act (ReachResolution + list string) :=
  match asked with
  | [] => mret (inr named)
  | query :: asked =>
      p ← ask (dir.(resolveRecipient) query);
      match recipient_refusal query p with
      | inl no => mret (inl no)
      | inr m => name_all dir asked (named ++ [m.(dm_principalId)])
      end
  end.

(** [groupDestination] src/src/reach/reach.ts:216-220 *)
Definition groupDestination (gid : string) : ReachResolution :=
  r_ok ((address "group" gid) <| audienceScopeId := Some (scopeId Scope.group gid) |>) (to_group gid).

(** [resolveReachTarget] src/src/reach/reach.ts:238-249
    Opening a group that is not known; a failure to register it is swallowed. *)
Definition open_group (dir : ReachDirectory) (open : list string -> result string OpenAnswer)
    (people : list string) (authorityId : string) : act ReachResolution :=
  m ← ask (dir.(directoryMember) authorityId);
  match m with
  | None => membershipDenial dir authorityId room_group
  | Some _ =>
      _ ← tell (OpenGroup people);
      o ← ask (open people);
      match o with
      | no_answer => mret (r_no 502 "group_open_failed"
          "I couldn't open a group DM with those people just now — try again in a moment" [])
      | not_opened e => mret (r_no 502 "group_open_failed" e [])
      | opened gid =>
          _ ← (if is_some dir.(registerGroup) then tell (RegisterGroup gid people) else mret tt);
          mret (groupDestination gid)
      end
  end.

(** [resolveReachTarget] src/src/reach/reach.ts:173-250 *)
Definition reach_group (dir : ReachDirectory) (wanted : list string) (authorityId : string) (mayOpenGroup : bool)
  : act ReachResolution :=
  if Z.of_nat (length wanted) =? 0
  then mret (bad_request "participants must list the group DM's other members (at least one)")
  else
    let asked := dedup wanted in
    if MAX_GROUP_DM_PARTICIPANTS <? Z.of_nat (length asked) then mret groupTooLarge
    else
      n ← name_all dir asked [];
      match n with
      | inl no => mret no
      | inr named =>
          let people := dedup (named ++ [authorityId]) in
          if Z.of_nat (length people) <? 2
          then mret (bad_request "a group DM needs someone besides you — name a `recipient` instead for a 1:1 DM")
          else if MAX_GROUP_DM_PARTICIPANTS <? Z.of_nat (length people) then mret groupTooLarge
          else
            known ← ask (dir.(resolveGroup) people);
            match known, dir.(openGroup) with
            | Some gid, _ =>
                v ← ask (isVisible dir.(visibility) authorityId (vt_group gid));
                if negb v then membershipDenial dir authorityId room_group else mret (groupDestination gid)
            | None, None => mret (r_no 404 "group_not_found"
                "no group DM I'm in has exactly those participants (it may not have synced yet)" [])
            | None, Some open =>
                if negb mayOpenGroup then mret (r_no 404 "group_not_found"
                  "no group DM I'm in has exactly those participants — post to it once with /v1/reach, which opens it, then address it here" [])
                else open_group dir open people authorityId
            end
      end.

(** [resolveReachTarget] src/src/reach/reach.ts:99-257 *)
Definition resolveReachTarget (dir : ReachDirectory) (target : ReachTarget) (authorityId : string) (mayOpenGroup : bool)
  : act ReachResolution :=
  match target.(recipient), target.(channel), target.(participants) with
  | Some q, None, None => reach_recipient dir q authorityId
  | None, Some q, None => reach_channel dir q authorityId
  | None, None, Some l => reach_group dir l authorityId mayOpenGroup
  | None, None, None => mret (bad_request "name a recipient (a teammate), a channel, or a group DM's participants")
  | _, _, _ => mret (bad_request "specify exactly one of recipient (a teammate), channel, or participants (a group DM)")
  end.

(** ** Delivering *)

(** [attributeRelay] src/src/reach/reach.ts:259-262 *)
Definition attributeRelay (text : string) (senderDisplayName : option string) : string :=
  let who := trim <$> senderDisplayName in
  if truthy_opt who then (who ?? "") +:+ " asked me to pass on:" +:+ String "010"%char text else text.

(** [isThirdPartyRelay] src/src/reach/reach.ts:321-326 *)
Definition isThirdPartyRelay (d : Destination) (attributeAs : option string) : bool :=
  match attributeAs with
  | None => false
  | Some _ =>
      if d.(d_type) === "group" then true
      else if d.(d_type) !== "principal" then false
      else d.(onBehalfOf) !== Some d.(d_target)
  end.

(** [withSlackUnfurlOption] src/src/reach/reach.ts:275-277 *)
Definition withSlackUnfurlOption (d : Destination) (b : option bool) : Destination :=
  match b with None => d | Some _ => d <| unfurlLinks := b |> end.
(** [withReact] src/src/reach/reach.ts:279-284 *)
Definition withReact (d : Destination) (react : option (string * string)) : Destination :=
  match react with None => d | Some _ => d <| d_react := react |> end.
(** [withDelete] src/src/reach/reach.ts:286-288 *)
Definition withDelete (d : Destination) (del : option string) : Destination :=
  match del with None => d | Some _ => d <| d_delete := del |> end.
(** [withThread] src/src/reach/reach.ts:290-292 *)
Definition withThread (d : Destination) (threadTs : option string) : Destination :=
  if truthy_opt threadTs then d <| d_target := d.(d_target) +:+ ":" +:+ (threadTs ?? "") |> else d.
(** [withEdit] src/src/reach/reach.ts:294-296 *)
Definition withEdit (d : Destination) (editRef : option string) : Destination :=
  if truthy_opt editRef then d <| d_editRef := editRef |> else d.

(** [ReachEnqueueInput] src/src/reach/reach.ts:264-273 *)
Record ReachEnqueueInput := MkReachInput {
  ri_destination : Destination;
  ri_text : string;
  ri_attachments : option (list OutgoingAttachment);
  ri_idempotencyKey : string;
  ri_provenance : option DeliveryProvenance;
  attributeAs : option string;
  ri_shadow : bool;
}.

(** [reachEnqueue] src/src/reach/reach.ts:298-319
    What is put on the queue. *)
Definition reach_delivery (i : ReachEnqueueInput) : NewDelivery :=
  let d := i.(ri_destination) in
  if is_some d.(d_react) || is_some d.(d_delete)
  then MkNewDelivery d "" None i.(ri_provenance) i.(ri_idempotencyKey) i.(ri_shadow)
  else
    let text := if isThirdPartyRelay d i.(attributeAs) then attributeRelay i.(ri_text) i.(attributeAs) else i.(ri_text) in
    MkNewDelivery d text (nonempty i.(ri_attachments)) i.(ri_provenance) i.(ri_idempotencyKey) i.(ri_shadow).

(** [reachEnqueue] src/src/reach/reach.ts:298-319 *)
Definition reachEnqueue (uuid : string) (now : Z) (i : ReachEnqueueInput) (st : DeliveryStore) :=
  enqueue uuid now (reach_delivery i) st.

(** ** Properties *)

Lemma ask_bind {A B} (r : result string A) (k : A -> act B) :
  ask r ≫= k = match r with Ok a => k a | Throw e => ([], Throw e) end.
Proof. unfold ask, mbind, act_bind. simpl. destruct r as [a|e]; [|done]. by destruct (k a). Qed.
Lemma tell_bind {B} e (k : unit -> act B) : tell e ≫= k = (e :: (k tt).1, (k tt).2).
Proof. done. Qed.
Lemma act_bind_Ok {A B} (m : act A) (k : A -> act B) e b :
  m ≫= k = (e, Ok b) -> exists a e1 e2, m = (e1, Ok a) /\ k a = (e2, Ok b) /\ e = e1 ++ e2.
Proof.
  unfold mbind, act_bind. destruct m as [e1 [a|x]]; simpl; [|done]. intros H. exists a, e1. destruct (k a) as [e2 r] eqn:E.
  simpl in H. exists e2. by simplify_eq.
Qed.

(** Take apart the answers of the directory one by one. *)
Ltac answers :=
  repeat (rewrite ?ask_bind;
    match goal with
    | |- context [match ?r with Ok _ => _ | Throw _ => _ end] => let E := fresh "E" in destruct r eqn:E; [|by intros; simplify_eq]
    end).

Lemma denial_no dir who room e d what : membershipDenial dir who room <> (e, Ok (r_ok d what)).
Proof. unfold membershipDenial. rewrite ask_bind. by destruct (directoryMember dir who) as [[]|]. Qed.
Lemma denial_quiet dir who room : (membershipDenial dir who room).1 = [].
Proof. unfold membershipDenial. rewrite ask_bind. by destruct (directoryMember dir who) as [[]|]. Qed.

Lemma name_all_spec dir asked named e r :
  name_all dir asked named = (e, r) ->
  e = [] /\ (forall d what, r <> Ok (inl (r_ok d what))) /\ forall people, r = Ok (inr people) ->
    exists ms, people = named ++ map dm_principalId ms /\
      Forall2 (fun q m => resolveRecipient dir q = Ok (one m)) asked ms.
Proof.
  revert named e r. induction asked as [|q asked IH]; intros named e r; cbn [name_all].
  - intros [= <- <-]. split_and!; [done|done|]. intros people [= <-]. exists []. by rewrite app_nil_r.
  - rewrite ask_bind. destruct (resolveRecipient dir q) as [p|x] eqn:Eq; [|by intros [= <- <-]].
    destruct p as [m|l|]; simpl; [|by intros [= <- <-]..].
    intros H. apply IH in H as (-> & Hno & H). split_and!; [done|done|]. intros people Hp. destruct (H _ Hp) as (ms & -> & Hms).
    exists (m :: ms). rewrite <- app_assoc. split; [done|]. by constructor.
Qed.

(** What makes a list of people a group that [who] may address: they are the teammates asked
    for and [who], each once, between two and eight. *)
Definition roster (dir : ReachDirectory) (wanted : list string) (who : string) (people : list string) : Prop :=
  NoDup people /\ who ∈ people /\ (2 <= length people <= 8)%nat /\
  (forall p, p ∈ people -> p = who \/ exists q m, q ∈ wanted /\ resolveRecipient dir q = Ok (one m) /\ dm_principalId m = p) /\
  (forall q, q ∈ wanted -> exists m, resolveRecipient dir q = Ok (one m) /\ dm_principalId m ∈ people).

Lemma roster_named dir wanted who ms :
  Forall2 (fun q m => resolveRecipient dir q = Ok (one m)) (dedup wanted) ms ->
  (Z.of_nat (length (dedup (map dm_principalId ms ++ [who]))) <? 2) = false ->
  (MAX_GROUP_DM_PARTICIPANTS <? Z.of_nat (length (dedup (map dm_principalId ms ++ [who])))) = false ->
  roster dir wanted who (dedup (map dm_principalId ms ++ [who])).
Proof.
  intros Hms H2 H8. unfold MAX_GROUP_DM_PARTICIPANTS in H8. split_and!.
  - apply dedup_NoDup.
  - apply elem_of_dedup. set_solver.
  - lia.
  - lia.
  - intros p Hp. apply elem_of_dedup, elem_of_app in Hp as [Hp|Hp]; [right|left; set_solver].
    apply list_elem_of_fmap in Hp as (m & -> & Hm). apply list_elem_of_lookup in Hm as [i Hi].
    destruct (Forall2_lookup_r _ _ _ _ _ Hms Hi) as (q & Hq & Hr). exists q, m. split_and!; [|done|done].
    apply elem_of_dedup, list_elem_of_lookup. eauto.
  - intros q Hq. apply elem_of_dedup, list_elem_of_lookup in Hq as [i Hi].
    destruct (Forall2_lookup_l _ _ _ _ _ Hms Hi) as (m & Hm & Hr). exists m. split; [done|].
    apply elem_of_dedup, elem_of_app. left. apply list_elem_of_fmap. exists m. split; [done|]. apply list_elem_of_lookup. eauto.
Qed.

(** Opening a group: who asks is in the directory, and the group is reached if it was opened. *)
Definition opens (dir : ReachDirectory) (people : list string) (who : string) (e : list Effect)
    (r : result string ReachResolution) : Prop :=
  exists open t, openGroup dir = Some open /\ directoryMember dir who = Ok (Some t) /\
    match open people with
    | Ok (opened gid) =>
        r = Ok (groupDestination gid) /\
        e = OpenGroup people :: (if is_some (registerGroup dir) then [RegisterGroup gid people] else [])
    | _ => e = [OpenGroup people] /\ forall d what, r <> Ok (r_ok d what)
    end.

Lemma open_group_cases dir open people who e r :
  openGroup dir = Some open -> open_group dir open people who = (e, r) ->
  (e = [] /\ forall d what, r <> Ok (r_ok d what)) \/ opens dir people who e r.
Proof.
  intros Ho. unfold open_group, opens. rewrite ask_bind.
  destruct (directoryMember dir who) as [[t|]|x] eqn:Em.
  - rewrite tell_bind, ask_bind. intros H. right. exists open, t. split_and!; [done|done|].
    destruct (open people) as [[gid|err|]|x]; simpl in H; simplify_eq; [|done..].
    destruct (is_some (registerGroup dir)); simpl; by split.
  - intros H. left. pose proof (denial_quiet dir who room_group) as Hq. rewrite H in Hq. split; [done|].
    intros d what ->. by apply denial_no in H.
  - intros [= <- <-]. by left.
Qed.

Lemma reach_group_cases dir wanted who may e r :
  reach_group dir wanted who may = (e, r) ->
  (e = [] /\ forall d what, r = Ok (r_ok d what) -> exists gid people, r_ok d what = groupDestination gid /\
     roster dir wanted who people /\ resolveGroup dir people = Ok (Some gid) /\
     groupMember (visibility dir) gid who = Ok true) \/
  (exists people, may = true /\ roster dir wanted who people /\ resolveGroup dir people = Ok None /\
     opens dir people who e r).
Proof.
  unfold reach_group. destruct (_ =? 0); [by intros [= <- <-]; left|]. cbv zeta.
  destruct (_ <? _); [by intros [= <- <-]; left|].
  destruct (name_all dir (dedup wanted) []) as [e1 r1] eqn:En.
  apply name_all_spec in En as (-> & Hno & Hn). change ([], r1) with (ask r1). rewrite ask_bind.
  destruct r1 as [[no|named]|x]; [| |by intros [= <- <-]; left].
  { intros [= <- <-]. left. split; [done|]. intros d what [= ->]. by destruct (Hno d what). }
  destruct (Hn _ eq_refl) as (ms & -> & Hms). cbn [app] in *.
  destruct (_ <? 2) eqn:H2; [by intros [= <- <-]; left|]. destruct (MAX_GROUP_DM_PARTICIPANTS <? _) eqn:H8; [by intros [= <- <-]; left|].
  pose proof (roster_named _ _ _ _ Hms H2 H8) as Hr. revert Hr. generalize (dedup (map dm_principalId ms ++ [who])). intros people Hr.
  rewrite ask_bind. destruct (resolveGroup dir people) as [[gid|]|x] eqn:Eg; [| |by intros [= <- <-]; left].
  - unfold isVisible. rewrite ask_bind. destruct (groupMember (visibility dir) gid who) as [[]|] eqn:Em; simpl; intros H.
    + left. injection H as <- <-. split; [done|]. intros d what [= <- <-]. by exists gid, people.
    + left. pose proof (denial_quiet dir who room_group) as Hq.
      destruct (membershipDenial dir who room_group) as [e1 r1] eqn:Ed. simpl in Hq, H. simplify_eq. split; [done|].
      intros d what ->. by apply denial_no in Ed.
    + left. by simplify_eq.
  - destruct (openGroup dir) as [open|] eqn:Eo; [|by intros [= <- <-]; left].
    destruct may; simpl; [|by intros [= <- <-]; left].
    destruct (open_group dir open people who) as [e1 r1] eqn:Ep. intros [= <- <-].
    apply (open_group_cases _ _ _ _ _ _ Eo) in Ep as [[-> Hf]|Hop]; [left|right; eauto 10].
    split; [done|]. intros d what ->. by destruct (Hf d what).
Qed.

(** Nobody is reached without authority.  Whatever is asked for, a destination that comes
    back is one the person may write to: a teammate the directory knows under exactly the name
    given, on behalf of the person; a channel that is not private or that they are in; a known
    group of exactly the people named and themselves that they are in; or such a group opened
    for the purpose, which happens only where opening is allowed, for somebody in the
    directory, and when no such group is known.  Nothing else changes the directory. *)
Theorem reach_authorized dir target who may e r :
  resolveReachTarget dir target who may = (e, r) ->
  (forall d what, r = Ok (r_ok d what) ->
    match what with
    | to_recipient pid name => exists q m, recipient target = Some q /\ resolveRecipient dir q = Ok (one m) /\
        pid = dm_principalId m /\ name = dm_displayName m /\ d = principalDestination pid who
    | to_channel cid name => exists q c, Reach.channel target = Some q /\ resolveChannel dir q = Ok (one c) /\
        cid = channelId c /\ d_target d = cid /\ audienceScopeId d = Some (scopeId Scope.channel cid) /\
        (isPrivate c = Some true -> channelMember (visibility dir) cid who = Ok true)
    | to_group gid => exists l people, participants target = Some l /\ roster dir l who people /\
        r_ok d what = groupDestination gid /\
        ((resolveGroup dir people = Ok (Some gid) /\ groupMember (visibility dir) gid who = Ok true) \/
         (may = true /\ resolveGroup dir people = Ok None /\ opens dir people who e r))
    end) /\
  (e <> [] -> exists l people, participants target = Some l /\ may = true /\ roster dir l who people /\
     resolveGroup dir people = Ok None /\ opens dir people who e r).
Proof.
  unfold resolveReachTarget. destruct target as [[q|] [q2|] [l|]]; simpl; try (by intros [= <- <-]).
  - unfold reach_recipient. rewrite ask_bind. destruct (resolveRecipient dir q) as [res|x] eqn:Eq; [|by intros [= <- <-]].
    destruct res as [m|l|]; simpl; intros [= <- <-]; split; try done. intros d what [= <- <-]. by exists q, m.
  - unfold reach_channel. rewrite ask_bind. destruct (resolveChannel dir q2) as [res|x] eqn:Eq; [|by intros [= <- <-]].
    destruct res as [c|l|]; [|by intros [= <- <-]..]. cbv zeta. rewrite ask_bind. unfold isVisible.
    case_bool_decide as Hp; [destruct (channelMember _ _ _) as [[]|] eqn:Em|]; simpl; intros H.
    1, 4: injection H as <- <-; split; [|done]; intros d what [= <- <-]; exists q2, c; by split_and!; simpl.
    + pose proof (denial_quiet dir who room_channel) as Hq. rewrite H in Hq. simpl in Hq. subst e. split; [|done].
      intros d what ->. by apply denial_no in H.
    + by simplify_eq.
  - intros H. apply reach_group_cases in H as [[-> Hr]|(people & -> & Hro & Hg & Hop)].
    + split; [|done]. intros d what Hd. destruct (Hr _ _ Hd) as (gid & people & Heq & Hro & Hg & Hm).
      injection Heq as -> ->. exists l, people. split_and!; auto.
    + split; [|by exists l, people]. intros d what Hd. destruct Hop as (open & t & Ho & Hm & Hop).
      destruct (open people) as [[gid|err|]|x] eqn:Ep; [|by destruct Hop as [_ Hop]; destruct (Hop _ _ Hd)..].
      destruct Hop as [Hop He]. rewrite Hd in Hop. injection Hop as -> ->. exists l, people. split_and!; auto.
      right. split_and!; auto. exists open, t. by rewrite Ep.
Qed.

(** ** Examples *)

Definition demo_people (q : string) : result string (Resolution DirectoryMember) :=
  if q === "Bob" then Ok (one (MkMember "bob@x.co" "Bob" internal None)) else Ok none.
Definition demo_reach : ReachDirectory :=
  MkReachDirectory demo_people (fun _ => Ok none) (fun _ => Ok None)
    (MkVisibility (fun _ _ => Ok false) (fun _ _ => Ok false) None)
    (fun p => Ok (Some "internal")) (Some (fun _ => Ok (opened "G1"))) None.

Lemma reach_authorized_witness :
  let t := MkReachTarget None None (Some ["Bob"; "Bob"]) in
  resolveReachTarget demo_reach t "ann@x.co" true = ([OpenGroup ["bob@x.co"; "ann@x.co"]], Ok (groupDestination "G1")) /\
  exists l people, participants t = Some l /\ true = true /\ roster demo_reach l "ann@x.co" people /\
    resolveGroup demo_reach people = Ok None /\
    opens demo_reach people "ann@x.co" [OpenGroup ["bob@x.co"; "ann@x.co"]] (Ok (groupDestination "G1")).
Proof.
  intros t.
  assert (H : resolveReachTarget demo_reach t "ann@x.co" true =
    ([OpenGroup ["bob@x.co"; "ann@x.co"]], Ok (groupDestination "G1"))) by (vm_compute; reflexivity).
  split; [exact H|]. exact (proj2 (reach_authorized demo_reach t "ann@x.co" true _ _ H) ltac:(discriminate)).
Defined.
