(* ===== verification/RunTrigger.v ===== *)
(** * Running a trigger

    What happens when a cron or a monitor fires ([src/src/triggers/run-trigger.ts]): who acts,
    whether they may, the turn that runs, and what is delivered.  The identity service, the
    directory and the members of a scope are the host's and are as they were after the
    refresh; the turn is the orchestrator's ([run]); the idempotency store decides whether the
    work runs ([Gate], its answer in [Idempotency]).  The state is the delivery queue and the
    turns that were run. *)

From S2P Require Import Prelude JsString Scope Turn Triggers Delivery Reach.

(** ** Data *)

(** [TriggerSpec] src/src/triggers/run-trigger.ts:33-52 *)
Record TriggerSpec := MkSpec {
  sp_owner : string;
  ownerScopeId : ScopeId;
  input : string;
  sp_securityScreenData : option string;
  sp_fireKey : string;
  sp_surface : string;
  sp_destination : option Destination;
  message : option string;
  threadRef : option string;
  runAs : option RunAs;
  members : option (list Principal);
  sp_recipientConsent : option RecipientConsent;
  recipientConsentRequired : option bool;
  sp_shadow : option bool;
  thinkingLevel : option string;
  readOnly : option bool;
  turnWallClockMs : option Z;
  errorNotice : option (string -> string);
}.

(** [TriggerOutcome] src/src/triggers/run-trigger.ts:54-61 *)
Record TriggerOutcome := MkOutcome {
  authzFailed : bool;
  ran : bool;
  status : option TurnStatus;
  note : option string;
  reply : option string;
  sessionId : option string;
}.

(** [TriggerDeps.directory] src/src/triggers/run-trigger.ts:27-30 *)
Record TriggerDirectory := MkTriggerDirectory {
  td_visibility : VisibilityDirectory;
  td_get : string -> result string (option string);
  channelPrivacy : option (string -> result string (option bool));
}.
(** [TriggerDeps] src/src/triggers/run-trigger.ts:21-31
    The refresh of the identity service, and its answers after it. *)
Record TriggerDeps := MkDeps {
  refresh : result string unit;
  classify : string -> PrincipalType;
  currentScopeMembers : option (ScopeId -> result string (option (list Principal)));
  directory : option TriggerDirectory;
}.

(** [ActorAssertion] src/src/types.ts:479-485, the fields a trigger sets. *)
Record ActorAssertion := MkActor { externalId : string; aa_teamIds : option (list string) }.
(** [TurnRequest.conversation] src/src/types.ts:394-403, the fields a trigger sets. *)
Record Conversation := MkConversation {
  cv_kind : ConversationKind;
  cv_threadRef : string;
  channelRef : option string;
  audience : option (list ActorAssertion);
}.
(** [runTrigger] src/src/triggers/run-trigger.ts:223-237
    The request of the turn: the fields of a turn request that a trigger sets. *)
Record TriggerRequest := MkTriggerRequest {
  tq_surface : string;
  tq_actor : string;
  tq_conversation : Conversation;
  tq_text : string;
  tq_securityScreenData : option string;
  tq_triggered : bool;
  tq_thinkingLevel : option string;
  tq_fastMode : option bool;
  tq_readOnly : option bool;
  tq_turnWallClockMs : option Z;
  tq_triggerDestination : option Destination;
  tq_live : bool;
  tq_ownerKeychainUnion : option bool;
  tq_idempotencyKey : string;
}.

(** The state a firing changes. *)
Record World := MkWorld { queue : DeliveryStore; requests : list TriggerRequest }.
#[export] Instance World_eta : Eta World := fun w => MkWorld w.(queue) w.(requests).

(** What the idempotency store does with the work: it refuses it, fails before it, or runs it
    and then writes its record, which may fail. *)
Inductive Gate := g_refuse | g_fail (e : string) | g_run (written : result string unit).

(** ** Small pieces *)

(** [TurnResult.status] src/src/types.ts:532-532 *)
Definition status_name (s : TurnStatus) : string :=
  match s with
  | ts_ok => "ok" | ts_refused => "refused" | ts_failed => "failed" | ts_pending_approval => "pending_approval"
  | ts_queued => "queued" | ts_silent => "silent" | ts_react => "react"
  end.

(** [isTriggerFailure] src/src/triggers/run-trigger.ts:63-65 *)
Definition isTriggerFailure (o : TriggerOutcome) : bool :=
  o.(ran) && match o.(status) with Some s => (s !== ts_ok) && (s !== ts_silent) | None => false end.

(** [isPollSurface] src/src/triggers/run-trigger.ts:70-71 *)
Definition isPollSurface (surface : string) : bool := includes ["cron"; "monitor"] surface.

(** The lines of a text: [split(/\r?\n/)]. *)
Definition strip_cr (line : string) : string :=
  if ends_with line (String "013"%char "") then str_take (String.length line - 1) line else line.
Fixpoint lines_of (ls : list string) : list string :=
  match ls with [] => [] | [l] => [l] | l :: ls => strip_cr l :: lines_of ls end.

(** [isSilentPollReply] src/src/triggers/run-trigger.ts:73-81, with the markers of lines 67-68 *)
Definition isSilentPollReply (reply : string) : bool :=
  match List.find (fun l => trim l !== "") (rev (lines_of (split_on "010"%char (trim_end reply)))) with
  | None => true
  | Some l => includes ["[no-update]"; "no_reply"; "[silent]"] (to_lower (trim l))
  end.

(** [turnModelOptions] src/src/core/turn-options.ts:23-35 *)
Definition turnModelOptions (triggered : bool) (level : option string) (fast : option bool) : option string * option bool :=
  let level := if negb (truthy_opt level) && triggered then Some "xhigh" else level in
  let fast := if negb (is_some fast) && triggered then Some false else fast in
  (if_truthy level, fast).

(** ** Who acts *)

(** [runTrigger] src/src/triggers/run-trigger.ts:151-152 *)
Definition is_internal (deps : TriggerDeps) (id : string) : bool := deps.(classify) id === internal.
Definition same (a b : string) : bool := samePerson (Some a) (Some b).

(** [runTrigger] src/src/triggers/run-trigger.ts:140-158
    The person who acts, or why nobody may. *)
Definition acting (deps : TriggerDeps) (spec : TriggerSpec) (current : option (list Principal)) : string + string :=
  let people := current ?? (spec.(members) ?? []) in
  if spec.(runAs) === Some ra_scopeFloor then
    match js_filter (fun m => (m.(p_type) === internal) && is_internal deps m.(p_id)) people with
    | [] => inr "scopeFloor cron has no internal members left"
    | m :: ms => inl (if existsb (fun m => same m.(p_id) spec.(sp_owner)) (m :: ms) then spec.(sp_owner) else m.(p_id))
    end
  else if negb (is_internal deps spec.(sp_owner)) then inr "owner is no longer an internal principal"
  else match current with
       | Some l =>
           if (spec.(runAs) === Some ra_scopeShared) && negb (existsb (fun m => same m.(p_id) spec.(sp_owner)) l)
           then inr "scopeShared owner is no longer a current scope member" else inl spec.(sp_owner)
       | None => inl spec.(sp_owner)
       end.

(** [actorMayReadScope] src/src/triggers/run-trigger.ts:102-116 *)
Definition actorMayReadScope (deps : TriggerDeps) (actorId : string) (kind : option ScopeKind) (ref : string)
  : result string bool :=
  if negb (truthy ref) then Ok false
  else match kind, deps.(directory) with
  | Some personal, _ => Ok (same actorId ref)
  | _, None => Ok ((kind !== Some Scope.group) && (kind !== Some Scope.channel))
  | Some Scope.group, Some d => isVisible d.(td_visibility) actorId (vt_group ref)
  | Some Scope.channel, Some d =>
      priv ← match d.(channelPrivacy) with Some f => f ref | None => Ok None end;
      match priv with None => Ok false | Some _ => isVisible d.(td_visibility) actorId (vt_channel ref priv) end
  | _, Some _ => Ok true
  end.

(** [destinationVisible] src/src/triggers/run-trigger.ts:118-133 *)
Definition destinationVisible (deps : TriggerDeps) (actorId : string) (d : Destination) : result string bool :=
  match deps.(directory) with
  | None => Ok true
  | Some dir =>
      let id := List.hd "" (split_on ":"%char d.(d_target)) in
      if d.(d_type) === "slack" then
        match parseScopeId <$> if_truthy d.(audienceScopeId) with
        | Some (Some personal, ref) => isVisible dir.(td_visibility) actorId (vt_dm ref)
        | Some (Some Scope.group, _) => isVisible dir.(td_visibility) actorId (vt_group id)
        | _ => isVisible dir.(td_visibility) actorId (vt_channel id None)
        end
      else if d.(d_type) === "group" then isVisible dir.(td_visibility) actorId (vt_group id)
      else Ok true
  end.

(** [relayAttribution] src/src/triggers/run-trigger.ts:96-100 *)
Definition relayAttribution (deps : TriggerDeps) (spec : TriggerSpec) : option string :=
  match spec.(message), deps.(directory) with
  | Some _, Some d => match d.(td_get) spec.(sp_owner) with Ok name => name | Throw _ => None end
  | _, _ => None
  end.

(** [deliveryProvenance] src/src/triggers/run-trigger.ts:83-94 *)
Definition deliveryProvenance (spec : TriggerSpec) (thread : string) (res : option TurnResult) : DeliveryProvenance :=
  MkProvenance spec.(sp_surface) spec.(sp_surface) spec.(sp_fireKey) spec.(ownerScopeId) thread
    (if_truthy (res ≫= t_sessionId)) (res ≫= t_sourceUserSeq) (res ≫= t_sourceAssistantEntrySeq).

(** [runTrigger] src/src/triggers/run-trigger.ts:160-171 *)
Definition trigger_conversation (spec : TriggerSpec) (people : list Principal) (thread : string) : Conversation :=
  let aud := if ((spec.(runAs) === Some ra_scopeFloor) || (spec.(runAs) === Some ra_scopeShared)) && (match people with [] => false | _ => true end)
             then Some (map (fun m => MkActor m.(p_id) m.(teamIds)) people) else None in
  match parseScopeId spec.(ownerScopeId) with
  | (Some Scope.channel, ref) => MkConversation ck_channel thread (Some ref) aud
  | (Some Scope.group, ref) => MkConversation ck_group thread (Some ref) aud
  | _ => MkConversation ck_dm thread None None
  end.

(** ** Firing *)

Section run.
Context (deps : TriggerDeps) (run : TriggerRequest -> result string TurnResult).

(** What a firing has found out before the work, src/src/triggers/run-trigger.ts:164-185 *)
Record Plan := MkPlan {
  actorId : string;
  current : option (list Principal);
  conversation : Conversation;
  thread : string;
  deliverable : bool;
  consented : bool;
}.

Definition notVisibleNote : string := "destination is no longer visible to the cron owner — delivery skipped".
(** [consentNote] src/src/triggers/run-trigger.ts:181-184 *)
Definition consentNote (spec : TriggerSpec) : string :=
  if (cs_status <$> spec.(sp_recipientConsent)) === Some cs_declined
  then "recipient turned this delivery off — skipped" else "awaiting the recipient's consent — delivery skipped".

(** [liveDelivery] src/src/triggers/run-trigger.ts:185-185 *)
Definition liveDelivery (spec : TriggerSpec) (p : Plan) : bool :=
  (spec.(sp_surface) === "monitor") && is_some spec.(sp_destination) && p.(consented) && p.(deliverable).

(** [runTrigger] src/src/triggers/run-trigger.ts:223-237 *)
Definition trigger_request (spec : TriggerSpec) (p : Plan) : TriggerRequest :=
  let '(level, fast) := turnModelOptions true spec.(thinkingLevel) None in
  MkTriggerRequest spec.(sp_surface) p.(actorId) p.(conversation) spec.(input) spec.(sp_securityScreenData) true level fast
    (flag (is_true spec.(readOnly))) spec.(turnWallClockMs) spec.(sp_destination) (liveDelivery spec p)
    (flag (spec.(runAs) === Some ra_scopeShared)) spec.(sp_fireKey).

(** The variables of a firing that its work writes, src/src/triggers/run-trigger.ts:187-190 *)
Record Locals := MkLocals { l_status : option TurnStatus; l_note : option string; l_reply : option string; l_sessionId : option string }.

(** [runTrigger] src/src/triggers/run-trigger.ts:248-267
    Delivering a text, or the note that says why not; likewise at 194-213. *)
Definition deliver (spec : TriggerSpec) (p : Plan) (uuid : string) (now : Z) (text : string)
    (attachments : option (list OutgoingAttachment)) (attribute : option string) (res : option TurnResult) (w : World)
  : option string * World :=
  match spec.(sp_destination) with
  | None => (None, w)
  | Some d =>
      if negb p.(consented) then (Some (consentNote spec), w)
      else if negb p.(deliverable) then (Some notVisibleNote, w)
      else
        let i := MkReachInput d text attachments spec.(sp_fireKey) (Some (deliveryProvenance spec p.(thread) res))
                   attribute (is_true spec.(sp_shadow)) in
        (None, w <| queue := (reachEnqueue uuid now i w.(queue)).2 |>)
  end.

(** [runTrigger] src/src/triggers/run-trigger.ts:238-270
    What becomes of the result of the turn. *)
Definition after_turn (spec : TriggerSpec) (p : Plan) (uuid : string) (now : Z) (res : TurnResult) (w : World)
  : option string * World :=
  match res.(t_status) with
  | ts_silent => (None, w)
  | ts_pending_approval => (Some "hit a require_approval command — failed closed (no human at fire/event time)", w)
  | ts_ok =>
      if truthy_opt res.(t_reply) || is_some (nonempty res.(t_attachments)) then
        if is_some spec.(sp_destination) && liveDelivery spec p then (None, w)
        else deliver spec p uuid now (res.(t_reply) ?? "") (nonempty res.(t_attachments)) None (Some res) w
      else (Some "produced no reply", w)
  | s => (Some (if truthy_opt res.(t_reason) then status_name s +:+ ": " +:+ (res.(t_reason) ?? "") else status_name s), w)
  end.

(** [runTrigger] src/src/triggers/run-trigger.ts:191-271
    The work that runs once. *)
Definition work (spec : TriggerSpec) (p : Plan) (uuid : string) (now : Z) (w : World) : result string Locals * World :=
  match spec.(message) with
  | Some m =>
      let '(n, w) := deliver spec p uuid now m None (if_truthy (relayAttribution deps spec)) None w in
      (Ok (MkLocals (Some ts_ok) n None None), w)
  | None =>
      let can :=
        match p.(current) with
        | Some l => Ok (existsb (fun m => same m.(p_id) p.(actorId)) l)
        | None =>
            if negb (is_some deps.(directory)) then Ok true
            else let '(kind, ref) := parseScopeId spec.(ownerScopeId) in actorMayReadScope deps p.(actorId) kind ref
        end in
      match can with
      | Throw e => (Throw e, w)
      | Ok false => (Ok (MkLocals None (Some "the acting person is no longer a member of this trigger's home scope — run skipped") None None), w)
      | Ok true =>
          let rq := trigger_request spec p in
          let w := w <| requests := w.(requests) ++ [rq] |> in
          match run rq with
          | Throw e => (Throw e, w)
          | Ok res =>
              let '(n, w) := after_turn spec p uuid now res w in
              (Ok (MkLocals (Some res.(t_status)) n res.(t_reply) res.(t_sessionId)), w)
          end
      end
  end.

(** [once] as [runTrigger] uses it, src/src/triggers/run-trigger.ts:191-191 *)
Definition once (gate : Gate) (f : World -> result string Locals * World) (w : World) : result string (bool * Locals) * World :=
  match gate with
  | g_refuse => (Ok (false, MkLocals None None None None), w)
  | g_fail e => (Throw e, w)
  | g_run written =>
      let '(r, w) := f w in
      (match r, written with Ok l, Ok _ => Ok (true, l) | Throw e, _ => Throw e | _, Throw e => Throw e end, w)
  end.

(** [runTrigger] src/src/triggers/run-trigger.ts:282-290
    The notice of a failure. *)
Definition error_notice (spec : TriggerSpec) (p : Plan) (uuid : string) (now : Z) (note : option string) (o : TriggerOutcome) (w : World) : World :=
  match spec.(errorNotice), spec.(sp_destination) with
  | Some f, Some d =>
      if p.(consented) && p.(deliverable) && isTriggerFailure o then
        let text := f (match note with Some n => n | None => from_option status_name "" o.(status) end) in
        let i := MkNewDelivery d text None (Some (deliveryProvenance spec p.(thread) None)) (spec.(sp_fireKey) +:+ ":err")
                   (is_true spec.(sp_shadow)) in
        w <| queue := (enqueue uuid now i w.(queue)).2 |>
      else w
  | _, _ => w
  end.

(** [runTrigger] src/src/triggers/run-trigger.ts:191-292
    [id1], [t1] and [id2], [t2] are the identities and times of the two deliveries it may
    enqueue. *)
Definition fire (spec : TriggerSpec) (p : Plan) (gate : Gate) (id1 id2 : string) (t1 t2 : Z) (w : World)
  : result string TriggerOutcome * World :=
  match once gate (work spec p id1 t1) w with
  | (Throw e, w) => (Throw e, w)
  | (Ok (ran, l), w) =>
      let o := MkOutcome false ran l.(l_status) (if_truthy l.(l_note)) l.(l_reply) (if_truthy l.(l_sessionId)) in
      (Ok o, error_notice spec p id2 t2 l.(l_note) o w)
  end.

(** [runTrigger] src/src/triggers/run-trigger.ts:164-180 *)
Definition plan (spec : TriggerSpec) (current : option (list Principal)) (actorId : string) : result string Plan :=
  let people := current ?? (spec.(members) ?? []) in
  let thread := spec.(threadRef) ?? spec.(sp_fireKey) in
  deliverable ← match spec.(sp_destination) with Some d => destinationVisible deps actorId d | None => Ok true end;
  let required := consentRequiredRecipient spec.(sp_owner) (is_true spec.(recipientConsentRequired)) spec.(sp_destination) in
  Ok (MkPlan actorId current (trigger_conversation spec people thread) thread deliverable
        (recipientConsentSatisfied spec.(sp_recipientConsent) required)).

(** [runTrigger] src/src/triggers/run-trigger.ts:135-293 *)
Definition runTrigger (spec : TriggerSpec) (gate : Gate) (id1 id2 : string) (t1 t2 : Z) (w : World)
  : result string TriggerOutcome * World :=
  match deps.(refresh) with
  | Throw e => (Throw e, w)
  | Ok _ =>
      match (match deps.(currentScopeMembers) with Some f => f spec.(ownerScopeId) | None => Ok None end) with
      | Throw e => (Throw e, w)
      | Ok current =>
          match acting deps spec current with
          | inr why => (Ok (MkOutcome true false None (Some why) None None), w)
          | inl actorId =>
              match plan spec current actorId with
              | Throw e => (Throw e, w)
              | Ok p => fire spec p gate id1 id2 t1 t2 w
              end
          end
      end
  end.
End run.

(** ** Properties *)

Lemma enqueue_rows uuid now i st k d :
  deliveries (enqueue uuid now i st).2 !! k = Some d ->
  deliveries st !! k = Some d \/
  (dl_destination d = nd_destination i /\ idempotencyKey d = nd_idempotencyKey i /\ dl_text d = nd_text i).
Proof.
  unfold enqueue. destruct (existing _ st); [by left|]. simpl. rewrite lookup_set. case_decide; [intros [= <-]|]; auto.
Qed.

Section properties.
Context (deps : TriggerDeps) (run : TriggerRequest -> result string TurnResult).

(** What a firing with plan [p] may add to the queue. *)
Definition lawful (spec : TriggerSpec) (p : Plan) (d : Delivery) : Prop :=
  exists dest, sp_destination spec = Some dest /\ dl_destination d = dest /\
    (idempotencyKey d = sp_fireKey spec \/ idempotencyKey d = sp_fireKey spec +:+ ":err") /\
    consented p = true /\ deliverable p = true.
Definition grows_by (P : Delivery -> Prop) (st st' : DeliveryStore) : Prop :=
  forall k d, deliveries st' !! k = Some d -> deliveries st !! k = Some d \/ P d.
Lemma grows_by_refl P st : grows_by P st st.
Proof. intros k d. by left. Qed.
Lemma grows_by_trans P st1 st2 st3 : grows_by P st1 st2 -> grows_by P st2 st3 -> grows_by P st1 st3.
Proof. intros H1 H2 k d Hd. destruct (H2 k d Hd) as [H|H]; [by apply H1|by right]. Qed.

Lemma deliver_lawful spec p uuid now text att by_ res w :
  grows_by (lawful spec p) (queue w) (queue (deliver spec p uuid now text att by_ res w).2) /\
  requests (deliver spec p uuid now text att by_ res w).2 = requests w.
Proof.
  unfold deliver. destruct (sp_destination spec) as [d|] eqn:Ed; [|split; [apply grows_by_refl|done]].
  destruct (consented p) eqn:Ec; simpl; [|split; [apply grows_by_refl|done]].
  destruct (deliverable p) eqn:Ev; simpl; [|split; [apply grows_by_refl|done]].
  split; [|done]. intros k x Hx. apply enqueue_rows in Hx as [?|(Hd & Hk & _)]; [by left|right].
  exists d. unfold reach_delivery in Hd, Hk. simpl in Hd, Hk. destruct (_ || _); simpl in *; split_and!; auto.
Qed.

Lemma after_turn_lawful spec p uuid now res w :
  grows_by (lawful spec p) (queue w) (queue (after_turn spec p uuid now res w).2) /\
  requests (after_turn spec p uuid now res w).2 = requests w.
Proof.
  unfold after_turn. destruct (t_status res); try (split; [apply grows_by_refl|done]).
  destruct (_ || _); [|split; [apply grows_by_refl|done]]. destruct (_ && _); [split; [apply grows_by_refl|done]|].
  apply deliver_lawful.
Qed.

(** The turn a firing runs, if it runs one. *)
Definition may_run (spec : TriggerSpec) (p : Plan) (rq : TriggerRequest) : Prop :=
  rq = trigger_request spec p /\ message spec = None /\
  match current p with
  | Some l => exists m, m ∈ l /\ same (p_id m) (actorId p) = true
  | None => directory deps = None \/
      actorMayReadScope deps (actorId p) (parseScopeId (ownerScopeId spec)).1 (parseScopeId (ownerScopeId spec)).2 = Ok true
  end.

Lemma work_lawful spec p uuid now w :
  let w' := (work deps run spec p uuid now w).2 in
  grows_by (lawful spec p) (queue w) (queue w') /\
  exists rqs, requests w' = requests w ++ rqs /\ (length rqs <= 1)%nat /\ forall rq, rq ∈ rqs -> may_run spec p rq.
Proof.
  unfold work. cbv zeta. destruct (message spec) as [m|] eqn:Em.
  - destruct (deliver _ _ _ _ _ _ _ _ _) as [n w'] eqn:E.
    pose proof (deliver_lawful spec p uuid now m None (if_truthy (relayAttribution deps spec)) None w) as [H1 H2].
    rewrite E in H1, H2. simpl in *. split; [done|]. exists []. rewrite H2, app_nil_r. split_and!; [done|simpl; lia|].
    by intros rq ?%not_elem_of_nil.
  - set (can := match current p with Some _ => _ | None => _ end).
    assert (Hcan : can = Ok true -> may_run spec p (trigger_request spec p)).
    { unfold can, may_run. intros Hc. split_and!; [done|done|]. destruct (current p) as [l|].
      - injection Hc as Hc. apply existsb_exists in Hc as (x & Hx & Hs). exists x. by rewrite list_elem_of_In.
      - destruct (directory deps); [right|by left]. simpl in Hc. by destruct (parseScopeId _). }
    assert (Hnone : forall w0, w0 = w -> grows_by (lawful spec p) (queue w) (queue w0) /\
      exists rqs, requests w0 = requests w ++ rqs /\ (length rqs <= 1)%nat /\ forall rq, rq ∈ rqs -> may_run spec p rq).
    { intros w0 ->. split; [apply grows_by_refl|]. exists []. rewrite app_nil_r. split_and!; [done|simpl; lia|].
      by intros rq ?%not_elem_of_nil. }
    destruct can as [[]|]; [|by apply Hnone..]. specialize (Hcan eq_refl).
    assert (Hone : forall w0, requests w0 = requests w ++ [trigger_request spec p] ->
      exists rqs, requests w0 = requests w ++ rqs /\ (length rqs <= 1)%nat /\ forall rq, rq ∈ rqs -> may_run spec p rq).
    { intros w0 ->. eexists. split_and!; [done|done|]. intros rq ->%list_elem_of_singleton. done. }
    destruct (run (trigger_request spec p)) as [res|e]; simpl; [|split; [apply grows_by_refl|exact (Hone (w <| requests := requests w ++ [trigger_request spec p] |>) eq_refl)]].
    set (w1 := w <| requests := _ |>). pose proof (after_turn_lawful spec p uuid now res w1) as [H1 H2].
    destruct (after_turn spec p uuid now res w1) as [n w2]. simpl in *. split; [done|]. by apply Hone.
Qed.

Lemma error_notice_lawful spec p uuid now n o w :
  grows_by (lawful spec p) (queue w) (queue (error_notice spec p uuid now n o w)) /\
  requests (error_notice spec p uuid now n o w) = requests w.
Proof.
  unfold error_notice. destruct (errorNotice spec) as [f|]; [|split; [apply grows_by_refl|done]].
  destruct (sp_destination spec) as [d|] eqn:Ed; [|split; [apply grows_by_refl|done]].
  destruct (_ && isTriggerFailure o) eqn:E; [|split; [apply grows_by_refl|done]].
  apply andb_true_iff in E as [[Hc Hd]%andb_true_iff _]. split; [|done].
  intros k x Hx. apply enqueue_rows in Hx as [?|(Hx & Hk & _)]; [by left|right]. exists d. simpl in *. split_and!; auto.
Qed.

(** The person who acts is internal, or the same person as somebody who is. *)
Lemma acting_internal spec current a :
  acting deps spec current = inl a ->
  (exists q, classify deps q = internal /\ (q = a \/ same q a = true)) /\
  (runAs spec <> Some ra_scopeFloor -> a = sp_owner spec) /\
  (a <> sp_owner spec -> exists m, m ∈ current ?? (members spec ?? []) /\ p_id m = a /\ p_type m = internal).
Proof.
  unfold acting. case_bool_decide as Hf.
  - destruct (js_filter _ _) as [|m ms] eqn:El; [done|].
    assert (Hin : forall x, x ∈ m :: ms -> classify deps (p_id x) = internal /\ p_type x = internal /\
      x ∈ current ?? (members spec ?? [])).
    { intros x Hx. rewrite <- El in Hx. apply elem_of_js_filter in Hx as [Hx Hm]. apply andb_true_iff in Hx as [Ht Hi].
      unfold is_internal in Hi. rewrite bool_decide_eq_true in Ht, Hi. done. }
    destruct (existsb _ _) eqn:Ex; intros [= <-].
    + apply existsb_exists in Ex as (x & Hx & Hs). apply list_elem_of_In in Hx. destruct (Hin x Hx) as (? & ? & ?).
      split_and!; [|done|done]. exists (p_id x). auto.
    + destruct (Hin m ltac:(set_solver)) as (? & ? & ?). split_and!; [by exists (p_id m); auto|done|]. intros _. by exists m.
  - destruct (is_internal deps (sp_owner spec)) eqn:Ei; simpl; [|done]. unfold is_internal in Ei. apply bool_decide_eq_true in Ei.
    intros H. assert (a = sp_owner spec) as ->.
    { destruct current; [|congruence]. destruct (_ && _); congruence. }
    split_and!; [|done|done]. exists (sp_owner spec). auto.
Qed.

(** The work and the notice of its failure, through the gate. *)
Lemma fired_lawful spec p gate id1 id2 t1 t2 w :
  let w' := (fire deps run spec p gate id1 id2 t1 t2 w).2 in
  grows_by (lawful spec p) (queue w) (queue w') /\
  exists rqs, requests w' = requests w ++ rqs /\ (length rqs <= 1)%nat /\ forall rq, rq ∈ rqs -> may_run spec p rq.
Proof.
  set (ok w0 := grows_by (lawful spec p) (queue w) (queue w0) /\
    exists rqs, requests w0 = requests w ++ rqs /\ (length rqs <= 1)%nat /\ forall rq, rq ∈ rqs -> may_run spec p rq).
  cbv zeta. change (ok (fire deps run spec p gate id1 id2 t1 t2 w).2).
  assert (Hnotice : forall n o w0, ok w0 -> ok (error_notice spec p id2 t2 n o w0)).
  { intros n o w0 [H1 H2]. destruct (error_notice_lawful spec p id2 t2 n o w0) as [H3 H4]. unfold ok. rewrite H4.
    split; [by eapply grows_by_trans|done]. }
  assert (Hw : ok w).
  { split; [apply grows_by_refl|]. exists []. rewrite app_nil_r. split_and!; [done|simpl; lia|]. by intros rq ?%not_elem_of_nil. }
  assert (Hw1 : ok (once gate (work deps run spec p id1 t1) w).2).
  { unfold once. destruct gate as [|e|written]; [done|done|]. pose proof (work_lawful spec p id1 t1 w) as H.
    destruct (work deps run spec p id1 t1 w) as [r1 w1]. exact H. }
  unfold fire. destruct (once gate _ w) as [[[b l]|e] w1]; [by apply Hnotice|done].
Qed.


Lemma deliver_rows spec p uuid now text att by_ res w n w' dest :
  deliver spec p uuid now text att by_ res w = (n, w') -> sp_destination spec = Some dest -> n = None ->
  existing (sp_fireKey spec) (queue w) = None ->
  deliveries (queue w') !! uuid = Some (new_delivery uuid now (reach_delivery
    (MkReachInput dest text att (sp_fireKey spec) (Some (deliveryProvenance spec (thread p) res)) by_ (is_true (sp_shadow spec))))) /\
  keyed (queue w') !! sp_fireKey spec = Some uuid.
Proof.
  unfold deliver. intros H Hd -> Hk. rewrite Hd in H. destruct (consented p); [|done]. destruct (deliverable p); [|done].
  simpl in H. injection H as <-. simpl. unfold reachEnqueue, enqueue.
  set (i := reach_delivery _). assert (Hi : nd_idempotencyKey i = sp_fireKey spec) by (unfold i, reach_delivery; simpl; by destruct (_ || _)).
  rewrite Hi, Hk. simpl. rewrite Hi, !lookup_set, !decide_True by done. done.
Qed.

Lemma deliver_note spec p uuid now text att by_ res w :
  if_truthy (deliver spec p uuid now text att by_ res w).1 = None -> (deliver spec p uuid now text att by_ res w).1 = None.
Proof.
  unfold deliver. destruct (sp_destination spec); [|done]. destruct (consented p); [by destruct (deliverable p)|].
  simpl. unfold consentNote. by case_bool_decide.
Qed.

(** The work that ran a turn which answered a reply delivers that reply. *)
Lemma work_replied spec p uuid now w l w1 rq res dest :
  work deps run spec p uuid now w = (Ok l, w1) -> requests w1 = requests w ++ [rq] -> run rq = Ok res ->
  t_status res = ts_ok -> truthy_opt (t_reply res) = true -> sp_destination spec = Some dest -> sp_surface spec <> "monitor" ->
  l_status l = Some ts_ok /\ l_reply l = t_reply res /\
  deliver spec p uuid now (t_reply res ?? "") (nonempty (t_attachments res)) None (Some res)
    (w <| requests := requests w ++ [rq] |>) = (l_note l, w1).
Proof.
  intros Hw Hr Hrun Hst Hrep Hd Hmon.
  assert (Hsame : forall w0 : World, requests w0 = requests w -> w1 = w0 -> False).
  { intros w0 H0 ->. rewrite H0 in Hr. apply (f_equal length) in Hr. rewrite length_app in Hr. simpl in Hr. lia. }
  unfold work in Hw. destruct (message spec) as [m|].
  { pose proof (deliver_lawful spec p uuid now m None (if_truthy (relayAttribution deps spec)) None w) as [_ Hq].
    destruct (deliver _ _ _ _ _ _ _ _ _) as [n w2]. simplify_eq. by destruct (Hsame w1 Hq). }
  set (can := match current p with Some _ => _ | None => _ end) in Hw.
  destruct can as [[]|]; simplify_eq; [|by destruct (Hsame w1 eq_refl)].
  set (w2 := w <| requests := requests w ++ [trigger_request spec p] |>) in Hw.
  destruct (run (trigger_request spec p)) as [res'|] eqn:Erun; [|done].
  pose proof (after_turn_lawful spec p uuid now res' w2) as [_ Hq].
  assert (rq = trigger_request spec p) as ->.
  { destruct (after_turn spec p uuid now res' w2) as [n w3]. simplify_eq. simpl in Hq. rewrite Hq in Hr.
    by apply app_inj_tail in Hr as [_ <-]. }
  rewrite Erun in Hrun. injection Hrun as ->. unfold after_turn in Hw. rewrite Hst, Hrep in Hw. simpl in Hw.
  unfold liveDelivery in Hw. rewrite (bool_decide_eq_false_2 (sp_surface spec = "monitor")), andb_false_r in Hw by done.
  fold w2. destruct (deliver _ _ _ _ _ _ _ _ _) as [n w3]. by simplify_eq/=.
Qed.

(** A reply is not lost.  When the turn of a firing answers a reply and the firing reports
    no reason for skipping it, the reply is on the delivery queue: under the firing's key, for
    the trigger's destination, with that text and where it came from.  A monitor's turn, which
    posts for itself while it runs, is the exception. *)
Theorem trigger_reply_delivered spec id1 id2 t1 t2 w o w' rq res dest :
  runTrigger deps run spec (g_run (Ok tt)) id1 id2 t1 t2 w = (Ok o, w') ->
  requests w' = requests w ++ [rq] -> run rq = Ok res -> t_status res = ts_ok -> truthy_opt (t_reply res) = true ->
  sp_destination spec = Some dest -> d_react dest = None -> d_delete dest = None -> sp_surface spec <> "monitor" ->
  note o = None -> existing (sp_fireKey spec) (queue w) = None ->
  reply o = t_reply res /\ status o = Some ts_ok /\ ran o = true /\
  exists d, deliveries (queue w') !! id1 = Some d /\ keyed (queue w') !! sp_fireKey spec = Some id1 /\
    Some (dl_text d) = t_reply res /\ dl_destination d = dest /\ idempotencyKey d = sp_fireKey spec /\
    provenance d = Some (deliveryProvenance spec (threadRef spec ?? sp_fireKey spec) (Some res)).
Proof.
  unfold runTrigger. destruct (refresh deps) as [_u|]; [|done].
  destruct (match currentScopeMembers deps with Some _ => _ | None => _ end) as [current|]; [|done].
  destruct (acting deps spec current) as [a|why] eqn:Ea; [|intros [= <- <-] Hr; apply (f_equal length) in Hr; rewrite length_app in Hr; simpl in Hr; lia].
  destruct (plan deps spec current a) as [p|] eqn:Ep; [|done]. unfold fire, once.
  destruct (work deps run spec p id1 t1 w) as [rl w1] eqn:Ew. destruct rl as [l|]; [|done].
  intros [= <- <-] Hr Hrun Hst Hrep Hd Hre Hde Hmon Hn Hk. cbn [note reply status ran] in *.
  pose proof (error_notice_lawful spec p id2 t2 (l_note l) (MkOutcome false true (l_status l) (if_truthy (l_note l)) (l_reply l)
    (if_truthy (l_sessionId l))) w1) as [_ Hq]. rewrite Hq in Hr.
  destruct (work_replied _ _ _ _ _ _ _ _ _ _ Ew Hr Hrun Hst Hrep Hd Hmon) as (Hs & Hrp & Hdel).
  assert (Hnotice : forall n o, status o = Some ts_ok -> error_notice spec p id2 t2 n o w1 = w1).
  { intros n o Ho. unfold error_notice. destruct (errorNotice spec); [|done]. destruct (sp_destination spec); [|done].
    unfold isTriggerFailure. rewrite Ho. simpl. by rewrite !andb_false_r. }
  rewrite Hnotice by done. split_and!; [done|done|done|].
  assert (Hnone : l_note l = None).
  { pose proof (deliver_note spec p id1 t1 (t_reply res ?? "") (nonempty (t_attachments res)) None (Some res)
      (w <| requests := requests w ++ [rq] |>)) as H. rewrite Hdel in H. by apply H. }
  destruct (deliver_rows _ _ _ _ _ _ _ _ _ _ _ _ Hdel Hd Hnone Hk) as [H1 H2].
  eexists. split; [exact H1|]. split; [exact H2|]. unfold reach_delivery. simpl. rewrite Hre, Hde. simpl.
  split_and!; [|done|done|].
  - destruct (t_reply res); [|done]. done.
  - do 2 f_equal. unfold plan in Ep. destruct (match sp_destination spec with Some _ => _ | None => _ end); [|done].
    simpl in Ep. by simplify_eq.
Qed.
End properties.

(** ** Examples *)

Definition demo_deps : TriggerDeps := MkDeps (Ok tt) (fun _ => internal) None None.
Definition demo_dest : Destination := address "slack" "C1".
Definition demo_spec : TriggerSpec :=
  MkSpec "ann@x.co" "personal:ann@x.co" "check the build" None "cron:c1:5" "cron" (Some demo_dest) None None None None None
    None None None None None None.
Definition demo_turn (rq : TriggerRequest) : result string TurnResult :=
  Ok (MkTurnResult ts_ok (Some "s1") (Some "all green") None false None None None None).
Definition demo_world : World := MkWorld empty_deliveries [].
Definition demo_fired : result string TriggerOutcome * World :=
  runTrigger demo_deps demo_turn demo_spec (g_run (Ok tt)) "d1" "d2" 7 8 demo_world.
Definition demo_outcome : TriggerOutcome := MkOutcome false true (Some ts_ok) None (Some "all green") (Some "s1").


Lemma trigger_reply_delivered_witness :
  exists d, deliveries (queue demo_fired.2) !! "d1" = Some d /\ Some (dl_text d) = Some "all green".
Proof.
  assert (H : demo_fired = (Ok demo_outcome, demo_fired.2)) by (vm_compute; reflexivity).
  destruct (trigger_reply_delivered demo_deps demo_turn demo_spec "d1" "d2" 7 8 demo_world demo_outcome demo_fired.2
    (trigger_request demo_spec (MkPlan "ann@x.co" None (MkConversation ck_dm "cron:c1:5" None None) "cron:c1:5" true true))
    (MkTurnResult ts_ok (Some "s1") (Some "all green") None false None None None None) demo_dest)
    as (_ & _ & _ & d & Hd & _ & Ht & _);
    [exact H|vm_compute; reflexivity|reflexivity|reflexivity|reflexivity|reflexivity|reflexivity|reflexivity|discriminate
    |reflexivity|reflexivity|].
  exists d. split; [exact Hd|exact Ht].
Defined.
