(* ===== verification/Workers.v ===== *)
(** * The workers, the reaper and the drain around the run queue

    What claims runs and executes them ([src/src/runs/worker.ts]), what takes back the runs
    and sessions of workers that died ([src/src/runs/reaper.ts]), and what keeps an old build
    from claiming ([src/src/runs/drain.ts], [src/src/runs/task-protection.ts]).

    A worker is a loop over the queue of [Runs], several calls of its interface and, while a
    run executes, a heartbeat.  Its steps are cut at the awaits, so that everything else
    (other workers, the reaper, the calls [stop] and [releaseInFlight]) comes in between. *)

From stdpp Require Import pretty.
From S2P Require Import Prelude JsString Turn Sessions Runs Lifecycle RunsSafety.

#[local] Open Scope Z_scope.

(** ** The heartbeat of a run that executes *)

(** [LEASE_LOST_CONSECUTIVE] src/src/runs/worker.ts:18-18 *)
Definition LEASE_LOST_CONSECUTIVE : Z := 3.

(** What a call of [heartbeat] settles to. *)
Inductive BeatAnswer := alive | lost | unanswered.
#[export] Instance BeatAnswer_eq_dec : EqDecision BeatAnswer.
Proof. solve_decision. Defined.

(** [processRun] src/src/runs/worker.ts:26-28
    [aborts] counts the calls of [cancel.abort]. *)
Record Beat := MkBeat { consecutiveLost : Z; leaseLost : bool; aborts : nat }.
#[export] Instance Beat_eta : Eta Beat := fun b => MkBeat b.(consecutiveLost) b.(leaseLost) b.(aborts).
Definition first_beat : Beat := MkBeat 0 false 0.

(** [processRun] src/src/runs/worker.ts:29-51 *)
Definition on_beat (a : BeatAnswer) (b : Beat) : Beat :=
  match a with
  | alive | unanswered => b <| consecutiveLost := 0 |>
  | lost =>
      let b := b <| consecutiveLost := b.(consecutiveLost) + 1 |> in
      if (b.(consecutiveLost) >=? LEASE_LOST_CONSECUTIVE) && negb b.(leaseLost)
      then b <| leaseLost := true |> <| aborts := S b.(aborts) |>
      else b
  end.
Definition beats (l : list BeatAnswer) : Beat := fold_left (fun b a => on_beat a b) l first_beat.

(** ** One run *)

(** What the turn of a run is called with. *)
Record TurnCall := MkTurnCall {
  c_request : TurnRequest;
  c_origin : TurnOrigin;
  c_runId : string;
  c_attempt : Z;
  c_finalAttempt : bool;
  c_background : bool;
  c_queueMs : option Z;
}.

(** [processRun] src/src/runs/worker.ts:59-69 *)
Definition turn_call (maxClaims : option Z) (background : bool) (run : Run) : TurnCall :=
  MkTurnCall run.(request) (resolveTurnOrigin run.(request).(rq_origin) run.(request).(legacy)) run.(id)
    run.(attempts) (errorParks run maxClaims) background
    ((fun s => Z.max 0 (s - run.(createdAt))) <$> run.(startedAt)).

(** How a turn ends: [te_nonRetryable] is [err instanceof NonRetryableTurnError]. *)
Inductive TurnEnd :=
| turn_result (r : TurnResult)
| turn_error (message : string) (nonRetryable : bool).

(** [processRun] src/src/runs/worker.ts:58-82
    The end of the turn and what the queue is told.  [completes] and [fails] say whether the
    calls of [complete] and [fail] are answered or reject with a message. *)
Definition finish_run (maxClaims : option Z) (now : Z) (run : Run) (token : string) (e : TurnEnd)
    (completes fails : option string) (st : Store) : result string TurnResult * Store :=
  let failed_with (msg : string) (nonRetryable : bool) :=
    match fails with
    | Some msg' => (Throw msg', st)
    | None => (Throw msg, (fail_ maxClaims now run.(id) token msg (Some (negb nonRetryable)) st).2)
    end in
  match e with
  | turn_result r =>
      match completes with
      | None => (Ok r, (complete now run.(id) token r st).2)
      | Some msg => failed_with msg false
      end
  | turn_error msg nonRetryable => failed_with msg nonRetryable
  end.

(** ** The loop *)

(** [CLAIM_FAIL_CRASH_CONSECUTIVE] src/src/runs/worker.ts:20-20 *)
Definition CLAIM_FAIL_CRASH_CONSECUTIVE : Z := 20.

(** [loop] src/src/runs/worker.ts:124-124 *)
Definition claim_backoff (pollMs claimFailures : Z) : Z := Z.min (pollMs * 2 ^ Z.min claimFailures 5) 5000.

(** [createWorker] src/src/runs/worker.ts:107-107 *)
Record InFlight := MkInFlight { f_runId : string; f_token : string; f_threadRef : string }.

(** Where an instance of the loop is: at the test of its [while]; asleep; with the answer of
    [claim] on its way; executing a run; over; dead of an exception. *)
Inductive LoopState :=
| at_top (claimFailures : Z)
| sleeping (claimFailures ms : Z)
| claimed (claimFailures : Z) (answer : option (option Run))
| executing (run : Run) (b : Beat)
| ended
| crashed.

(** Where a [releaseInFlight] is: the call it last made has been answered.  [None] is a call
    that rejected. *)
Inductive ReleaseStage :=
| asked (ours : option bool)
| found (session : option (option Session))
| freed (ok : bool)
| handed (ok : bool).

(** [createWorker] src/src/runs/worker.ts:103-109 *)
Record Worker := MkWorker {
  stopped : bool;
  loopDone : bool;
  loops : list LoopState;
  inFlight : option InFlight;
  releasedLeaseToken : option string;
  releasing : option (InFlight * ReleaseStage);
}.
#[export] Instance Worker_eta : Eta Worker := fun w =>
  MkWorker w.(stopped) w.(loopDone) w.(loops) w.(inFlight) w.(releasedLeaseToken) w.(releasing).
Definition new_worker : Worker := MkWorker false false [] None None None.

(** The world a worker shares with the others. *)
Record World := MkWorld { queue : Store; threads : SessionStore }.
#[export] Instance World_eta : Eta World := fun w => MkWorld w.(queue) w.(threads).

Section worker.
Variable maxClaims : option Z.
Variable leaseTtlMs pollMs : Z.
Variable worker_id : string.

(** [loop] src/src/runs/worker.ts:111-118
    The test, [canClaim], and the call of [claim]; [rejects] is a claim that fails, which the
    queue does not see. *)
Definition loop_top (canClaim rejects : bool) (uuid : string) (now : Z) (w : Worker) (f : Z) (st : Store)
  : LoopState * Store :=
  if w.(stopped) then (ended, st)
  else if negb canClaim then (sleeping f pollMs, st)
  else if rejects then (claimed f None, st)
  else let '(run, st') := claim uuid now worker_id leaseTtlMs st in (claimed f (Some run), st').

(** [loop] src/src/runs/worker.ts:117-141
    The answer of [claim]. [rejects] is a handback that fails, swallowed. *)
Definition loop_claimed (rejects : bool) (w : Worker) (f : Z) (answer : option (option Run)) (st : Store)
  : LoopState * Worker * Store :=
  match answer with
  | None =>
      let f := f + 1 in
      if f >=? CLAIM_FAIL_CRASH_CONSECUTIVE then (crashed, w, st)
      else (sleeping f (claim_backoff pollMs f), w, st)
  | Some None => (sleeping 0 pollMs, w, st)
  | Some (Some run) =>
      if w.(stopped) then
        (ended, w, match run.(leaseToken) with
                   | Some t => if rejects then st else (Runs.releaseLease run.(id) t st).2
                   | None => st
                   end)
      else
        (executing run first_beat,
         w <| inFlight := (fun t => MkInFlight run.(id) t run.(sessionId)) <$> run.(leaseToken) |>, st)
  end.

(** [processRun] src/src/runs/worker.ts:29-51
    One heartbeat of a run that executes: none is sent after the lease was given up.
    [rejects] is a call that fails. *)
Definition loop_beat (rejects : bool) (now : Z) (run : Run) (b : Beat) (st : Store) : Beat * Store :=
  match run.(leaseToken) with
  | Some t =>
      if b.(leaseLost) then (b, st)
      else if rejects then (on_beat unanswered b, st)
      else let '(ok, st') := heartbeat now run.(id) t leaseTtlMs st in
           (on_beat (if ok then alive else lost) b, st')
  | None => (b, st)
  end.

(** [loop] src/src/runs/worker.ts:143-149
    The end of the turn; [processRun] throws at once on a run without a lease. *)
Definition loop_finish (now : Z) (e : TurnEnd) (completes fails : option string) (run : Run) (st : Store) : Store :=
  match run.(leaseToken) with
  | Some t => (finish_run maxClaims now run t e completes fails st).2
  | None => st
  end.

Inductive LoopEvent :=
| le_top (canClaim rejects : bool) (uuid : string) (now : Z)
| le_answer (rejects : bool)
| le_wake
| le_beat (rejects : bool) (now : Z)
| le_end (now : Z) (e : TurnEnd) (completes fails : option string).

(** [loop] src/src/runs/worker.ts:111-152 *)
Definition loop_step (ev : LoopEvent) (l : LoopState) (w : Worker) (st : Store) : LoopState * Worker * Store :=
  match l, ev with
  | at_top f, le_top canClaim rejects uuid now =>
      let '(l', st') := loop_top canClaim rejects uuid now w f st in (l', w, st')
  | claimed f answer, le_answer rejects => loop_claimed rejects w f answer st
  | sleeping f _, le_wake => (at_top f, w, st)
  | executing run b, le_beat rejects now =>
      let '(b', st') := loop_beat rejects now run b st in (executing run b', w, st')
  | executing run b, le_end now e completes fails =>
      (at_top 0, w <| inFlight := None |>, loop_finish now e completes fails run st)
  | _, _ => (l, w, st)
  end.

(** ** The calls on a worker *)

(** [start] src/src/runs/worker.ts:155-159 *)
Definition start (w : Worker) : Worker :=
  if w.(loopDone) then w
  else w <| stopped := false |> <| loops := w.(loops) ++ [at_top 0] |> <| loopDone := true |>.

(** [busy] src/src/runs/worker.ts:160-162 *)
Definition busy (w : Worker) : bool := is_some w.(inFlight).

(** [stop] src/src/runs/worker.ts:184-185 *)
Definition stop_call (w : Worker) : Worker := w <| stopped := true |>.
(** [stop] src/src/runs/worker.ts:186-187
    After its loop or the time for draining has ended. *)
Definition stop_return (w : Worker) : Worker := w <| loopDone := false |>.

(** [releaseInFlight] src/src/runs/worker.ts:163-169
    The call: nothing in flight, or released already; a release going on is joined; else the
    heartbeat that asks whether the run is still ours. *)
Definition release_call (rejects : bool) (now : Z) (w : Worker) (wd : World) : Worker * World :=
  match w.(inFlight) with
  | None => (w, wd)
  | Some held =>
      if Some held.(f_token) === w.(releasedLeaseToken) then (w, wd)
      else match w.(releasing) with
      | Some _ => (w, wd)
      | None =>
          if rejects then (w <| releasing := Some (held, asked None) |>, wd)
          else let '(ok, st') := heartbeat now held.(f_runId) held.(f_token) leaseTtlMs wd.(queue) in
               (w <| releasing := Some (held, asked (Some ok)) |>, wd <| queue := st' |>)
      end
  end.

(** [releaseInFlight] src/src/runs/worker.ts:170-180
    One await of the release: the session of the thread, its lease, the run's lease. *)
Definition release_step (rejects : bool) (w : Worker) (wd : World) : Worker * World :=
  match w.(releasing) with
  | None => (w, wd)
  | Some (held, stage) =>
      let given_up := w <| releasing := None |> in
      let done_with := w <| releasedLeaseToken := Some held.(f_token) |> <| releasing := None |> in
      let at_ s := w <| releasing := Some (held, s) |> in
      let hand_back :=
        if rejects then (at_ (handed false), wd)
        else (at_ (handed true), wd <| queue := (Runs.releaseLease held.(f_runId) held.(f_token) wd.(queue)).2 |>) in
      match stage with
      | asked None | found None | freed false | handed false => (given_up, wd)
      | asked (Some false) => (done_with, wd)
      | asked (Some true) =>
          if rejects then (at_ (found None), wd)
          else (at_ (found (Some (getByThread held.(f_threadRef) wd.(threads)))), wd)
      | found (Some (Some s)) =>
          if rejects then (at_ (freed false), wd)
          else (at_ (freed true), wd <| threads := forceReleaseLease s.(s_id) wd.(threads) |>)
      | found (Some None) => hand_back
      | freed true => hand_back
      | handed true => (done_with, wd)
      end
  end.
End worker.

(** ** The reaper *)

(** [releaseStrandedSessionLeases] src/src/runs/reaper.ts:26-31 *)
Definition releaseStrandedSessionLeases (refs : list string) (st : SessionStore) : SessionStore :=
  fold_left (fun st ref => match getByThread ref st with
                           | Some s => forceReleaseLease s.(s_id) st
                           | None => st
                           end) (dedup refs) st.

(** What the error log is told of a reaped run. *)
Record ErrorRecord := MkErrorRecord { er_code : string; er_message : string; er_sessionId : string }.

(** [recordReapEvent] src/src/runs/reaper.ts:10-18 *)
Definition recordReapEvent (e : ReapEvent) : ErrorRecord :=
  let parked_ := e.(re_outcome) === parked in
  MkErrorRecord (if parked_ then "run_reap_parked" else "run_reap_requeued")
    ("run " +:+ e.(re_runId) +:+ " " +:+ (if parked_ then "parked" else "requeued")
     +:+ " (worker=" +:+ (e.(re_workerId) ?? "none") +:+ ", attempts=" +:+ pretty e.(re_attempts)
     +:+ ", error_attempts=" +:+ pretty e.(re_errorAttempts) +:+ ")")
    e.(re_sessionId).

(** [createReaper] src/src/runs/reaper.ts:43-49
    One sweep with nothing in between. *)
Definition sweep (maxClaims : option Z) (now : Z) (maxAgeMs : option Z) (w : World)
  : (Z * Z) * list ErrorRecord * World :=
  let '(rep, q) := reapExpired maxClaims now maxAgeMs w.(queue) in
  ((rep.(n_requeued), rep.(n_parked)), map recordReapEvent rep.(reaps),
   MkWorld q (releaseStrandedSessionLeases rep.(retiredSessionIds) w.(threads))).

(** The same in its steps: what is left of the retired threads, and the session found for
    the first of them. *)
Record Reaping := MkReaping { rp_left : list string; rp_found : option (option Session) }.

(** [createReaper] src/src/runs/reaper.ts:43-45
    The runs are retired, each of them with its record. *)
Definition sweep_begin (maxClaims : option Z) (now : Z) (maxAgeMs : option Z) (w : World)
  : Reaping * list ErrorRecord * World :=
  let '(rep, q) := reapExpired maxClaims now maxAgeMs w.(queue) in
  (MkReaping (dedup rep.(retiredSessionIds)) None, map recordReapEvent rep.(reaps), w <| queue := q |>).
(** [releaseStrandedSessionLeases] src/src/runs/reaper.ts:27-30
    One await. *)
Definition sweep_next (r : Reaping) (w : World) : Reaping * World :=
  match r.(rp_left), r.(rp_found) with
  | [], _ => (r, w)
  | ref :: _, None => (MkReaping r.(rp_left) (Some (getByThread ref w.(threads))), w)
  | _ :: rest, Some None => (MkReaping rest None, w)
  | _ :: rest, Some (Some s) => (MkReaping rest None, w <| threads := forceReleaseLease s.(s_id) w.(threads) |>)
  end.

(** ** The drain *)

(** [createDrainController] src/src/runs/drain.ts:21-22
    [d_calls] are the calls of [protection.set] in order; [d_pending] is the value the sweep
    has asked for and waits to be done. *)
Record Drain := MkDrain {
  superseded : bool;
  protectionOn : bool;
  d_calls : list bool;
  d_pending : option bool;
}.
#[export] Instance Drain_eta : Eta Drain := fun d =>
  MkDrain d.(superseded) d.(protectionOn) d.(d_calls) d.(d_pending).
Definition new_drain : Drain := MkDrain false false [] None.

(** [createDrainController] src/src/runs/drain.ts:24-40
    A sweep once the registry has answered; without protection it ends there. *)
Definition drain_beat (protection newer busy : bool) (d : Drain) : Drain :=
  let d := d <| superseded := newer |> in
  if negb protection then d
  else if busy then d <| d_calls := d.(d_calls) ++ [true] |> <| d_pending := Some true |>
  else if d.(protectionOn) then d <| d_calls := d.(d_calls) ++ [false] |> <| d_pending := Some false |>
  else d.
(** [createDrainController] src/src/runs/drain.ts:34-38
    The awaited [set] has been done. *)
Definition drain_set_done (d : Drain) : Drain :=
  match d.(d_pending) with
  | Some b => d <| protectionOn := b |> <| d_pending := None |>
  | None => d
  end.
(** [stop] src/src/runs/drain.ts:46-52 *)
Definition drain_stop (protection : bool) (d : Drain) : Drain :=
  if d.(protectionOn) && protection
  then d <| protectionOn := false |> <| d_calls := d.(d_calls) ++ [false] |> else d.
(** [canClaim] src/src/runs/drain.ts:53-53 *)
Definition canClaim (d : Drain) : bool := negb d.(superseded).
(** [noteBusy] src/src/runs/drain.ts:54-58 *)
Definition noteBusy (protection : bool) (d : Drain) : Drain :=
  if negb protection || d.(protectionOn) then d
  else d <| protectionOn := true |> <| d_calls := d.(d_calls) ++ [true] |>.

(** [set] src/src/runs/task-protection.ts:15-33
    The last failure reported, and whether this one is reported: the same message twice in
    a row is said once. *)
Definition protection_set (answer : result string unit) (lastFailure : option string) : option string * bool :=
  match answer with
  | Ok _ => (None, false)
  | Throw msg => if Some msg === lastFailure then (lastFailure, false) else (Some msg, true)
  end.

(** ** The turn is cancelled once, when the lease is gone *)

Definition three_lost (l : list BeatAnswer) : Prop := exists l1 l2, l = l1 ++ [lost; lost; lost] ++ l2.

(** The answers end in [n] losses, after one of another kind or none. *)
Definition ends_lost (n : nat) (l : list BeatAnswer) : Prop :=
  exists l', l = l' ++ replicate n lost /\ last l' <> Some lost.

Lemma three_lost_snoc l a :
  three_lost (l ++ [a]) <-> three_lost l \/ (a = lost /\ exists l', l = l' ++ [lost; lost]).
Proof.
  split.
  - intros (l1 & l2 & H). destruct l2 as [|x l2 _] using rev_ind.
    + right. rewrite app_nil_r in H. change [lost; lost; lost] with ([lost; lost] ++ [lost]) in H.
      rewrite app_assoc in H. apply app_inj_tail in H as [-> ->]. split; [done|by exists l1].
    + left. rewrite !app_assoc in H. apply app_inj_tail in H as [-> _]. exists l1, l2. by rewrite app_assoc.
  - intros [(l1 & l2 & ->)|(-> & l' & ->)].
    + exists l1, (l2 ++ [a]). by rewrite !app_assoc.
    + exists l', []. by rewrite app_nil_r, <- app_assoc.
Qed.

Lemma ends_lost_two n l : ends_lost n l -> (exists l', l = l' ++ [lost; lost]) <-> (2 <= n)%nat.
Proof.
  intros (l0 & -> & Hl0). split.
  - intros [l' H]. destruct n as [|[|n]]; [| |lia].
    + exfalso. apply Hl0. simpl in H. rewrite app_nil_r in H. subst l0.
      change [lost; lost] with ([lost] ++ [lost]). by rewrite app_assoc, last_snoc.
    + exfalso. simpl in H. change [lost; lost] with ([lost] ++ [lost]) in H. rewrite app_assoc in H.
      apply app_inj_tail in H as [-> _]. apply Hl0. by rewrite last_snoc.
  - intros Hn. exists (l0 ++ replicate (n - 2) lost). rewrite <- app_assoc. f_equal.
    change [lost; lost] with (replicate 2 lost). rewrite <- replicate_add. f_equal. lia.
Qed.

Lemma ends_lost_snoc n l : ends_lost n l -> ends_lost (S n) (l ++ [lost]).
Proof.
  intros (l0 & -> & Hl0). exists l0. split; [|done].
  rewrite <- app_assoc. f_equal. by rewrite <- replicate_S_end.
Qed.
Lemma ends_lost_reset l a : a <> lost -> ends_lost 0 (l ++ [a]).
Proof. intros Ha. exists (l ++ [a]). rewrite app_nil_r, last_snoc. split; [done|]. congruence. Qed.

(** The counter is the number of losses at the end until the turn is cancelled. *)
Lemma beats_spec l :
  (three_lost l /\ leaseLost (beats l) = true /\ aborts (beats l) = 1%nat) \/
  (~ three_lost l /\ leaseLost (beats l) = false /\ aborts (beats l) = 0%nat /\
   exists n, (n < 3)%nat /\ consecutiveLost (beats l) = Z.of_nat n /\ ends_lost n l).
Proof.
  induction l as [|a l IH] using rev_ind.
  - right. split; [|split; [done|split; [done|]]].
    + intros (l1 & l2 & H). by destruct l1.
    + exists 0%nat. split; [lia|]. split; [done|]. by exists [].
  - unfold beats. rewrite fold_left_app. fold (beats l). cbn [fold_left].
    destruct (beats l) as [c ll ab]. cbn [leaseLost aborts consecutiveLost] in IH. destruct IH as [(Ht & Hl & Ha)|IH].
    + left. split; [apply three_lost_snoc; by left|]. subst. destruct a; simpl; [done| |done].
      by rewrite andb_false_r.
    + destruct IH as (Ht & Hl & Ha & n & Hn & Hc & He). rewrite three_lost_snoc, (ends_lost_two n l He).
      destruct (decide (a = lost)) as [->|Hne].
      * subst. simpl. rewrite andb_true_r. unfold LEASE_LOST_CONSECUTIVE. rewrite Z.geb_leb.
        destruct (_ <=? _) eqn:E; [apply Z.leb_le in E|apply Z.leb_gt in E]; simpl.
        -- left. split; [|done]. right. split; [done|]. lia.
        -- right. split; [intros [?|[_ ?]]; [done|lia]|]. split; [done|]. split; [done|].
           exists (S n). split; [lia|]. split; [lia|]. by apply ends_lost_snoc.
      * right. split; [by intros [?|[? _]]|]. subst. destruct a; [|done|]; simpl.
        all: split; [done|]; split; [done|]; exists 0%nat; split; [lia|]; split; [done|]; by apply ends_lost_reset.
Qed.

(** A turn is cancelled exactly when three successive answers to its heartbeat said that
    the lease is gone, and then once, whatever is answered afterwards; a heartbeat that could
    not be sent counts as alive. *)
Theorem turn_cancelled_once l :
  (aborts (beats l) = 1%nat <-> three_lost l) /\ (aborts (beats l) = 0%nat <-> ~ three_lost l) /\
  (leaseLost (beats l) = true <-> three_lost l).
Proof.
  destruct (beats_spec l) as [(Ht & -> & ->)|(Ht & -> & -> & _)].
  all: repeat split; intros; done.
Qed.

(** ** A worker that is left running empties the queue *)

(** How often a run can still be executed. *)
Definition cost (r : Run) : nat :=
  if isTerminal (status r) then 0%nat else Z.to_nat (Z.max 1 (maxAttempts r) - errorAttempts r).
Definition cost_of (rs : jsmap string Run) (k : string) : nat := from_option cost 0%nat (rs !! k).
Definition budget (st : Store) : nat := sum_list (map (cost_of (runs st)) (keys (runs st))).

(** A queue no worker is at work on. *)
Definition idle (st : Store) : Prop :=
  forall k r, runs st !! k = Some r ->
    id r = k /\ status r <> running /\ (isTerminal (status r) = false -> errorAttempts r < Z.max 1 (maxAttempts r)).

Definition all_settled (st : Store) : Prop :=
  forall k r, runs st !! k = Some r -> isTerminal (status r) = true.

Lemma sum_list_le (f g : string -> nat) l :
  (forall k, k ∈ l -> (f k <= g k)%nat) -> (sum_list (map f l) <= sum_list (map g l))%nat.
Proof.
  induction l as [|k l IH]; intros Hl; simpl; [lia|].
  pose proof (Hl k (list_elem_of_here _ _)). assert (sum_list (map f l) <= sum_list (map g l))%nat; [|lia].
  apply IH. intros. by apply Hl, list_elem_of_further.
Qed.
Lemma sum_list_lt (f g : string -> nat) l k :
  k ∈ l -> (f k < g k)%nat -> (forall k, k ∈ l -> (f k <= g k)%nat) ->
  (sum_list (map f l) < sum_list (map g l))%nat.
Proof.
  intros Hk Hlt. induction Hk as [k l|k k' l Hk IH]; intros Hl; simpl.
  - pose proof (sum_list_le f g l (fun x Hx => Hl x (list_elem_of_further _ _ _ Hx))). lia.
  - pose proof (Hl k' (list_elem_of_here _ _)). assert (sum_list (map f l) < sum_list (map g l))%nat; [|lia].
    apply IH; [done|]. intros. by apply Hl, list_elem_of_further.
Qed.

Lemma idle_no_session st sid : idle st -> sessionHasRunning st sid = false.
Proof.
  intros Hi. apply some_false. intros r [k Hk]%elem_of_values. destruct (Hi _ _ Hk) as (_ & Hr & _).
  replace (status r === running) with false; [by rewrite andb_false_r|]. symmetry. by apply eqb_false.
Qed.

(** What an idle queue gives: a pending run while there is one. *)
Lemma claim_idle u now wid ttl st :
  idle st ->
  match claim u now wid ttl st with
  | (Some run, st') =>
      exists r, runs st !! id r = Some r /\ status r = pending /\ run = lease u now wid ttl r /\ st' = put_run run st
  | (None, st') => st' = st /\ all_settled st
  end.
Proof.
  intros Hi. unfold claim. destruct (head (claimable st)) as [r|] eqn:Eh.
  - apply head_Some_elem_of in Eh. unfold claimable in Eh.
    apply elem_of_js_sort, elem_of_js_filter in Eh as [Hp [k Hk]%elem_of_values].
    destruct (Hi _ _ Hk) as (Hid & _). apply andb_true_iff in Hp as [Hp _]. to_prop.
    exists r. subst k. done.
  - split; [done|]. intros k r Hk. destruct (Hi _ _ Hk) as (_ & Hr & _). apply head_None in Eh.
    unfold claimable in Eh. apply js_sort_nil_inv in Eh.
    destruct (status r) eqn:E; try done. exfalso.
    assert (Hin : r ∈ @nil Run); [|by apply elem_of_nil in Hin].
    rewrite <- Eh. apply elem_of_js_filter. split; [|apply elem_of_values; eauto].
    by rewrite E, idle_no_session.
Qed.

(** A run that was leased and whose turn is over: it has settled, or waits for its next try. *)
Definition tried (r r' : Run) : Prop :=
  id r' = id r /\ maxAttempts r' = maxAttempts r /\
  (isTerminal (status r') = true \/
   status r' = Runs.pending /\ errorAttempts r' = errorAttempts r + 1 /\ errorAttempts r' < maxAttempts r).

Lemma fail_leased mc u now wid ttl t msg retry r st :
  let run := lease u now wid ttl r in
  exists r', tried r r' /\
    runs (fail_ mc t (id run) u msg retry (put_run run st)).2 = <[id r := r']> (runs (put_run run st)).
Proof.
  intros run. unfold fail_. rewrite put_run_lookup, decide_True by done. cbn [leaseToken run lease].
  rewrite eqb_refl. cbn [negb]. unfold retire, retire_run. cbn [status run lease]. rewrite eqb_refl. cbn [negb].
  cbv zeta. destruct (negb (retry === Some false) && _ && _) eqn:E; cbn [fst snd].
  - eexists. split; [|rewrite settle_runs; cbn [put_run runs]; reflexivity].
    split; [done|]. split; [done|]. right. split; [done|]. split; [done|].
    apply andb_true_iff in E as [[_ E]%andb_true_iff _]. apply Z.ltb_lt in E. exact E.
  - eexists. split; [|rewrite settle_runs; cbn [put_run runs]; reflexivity].
    split; [done|]. split; [done|]. by left.
Qed.

Lemma finish_leased mc u now wid ttl t e completes r st :
  let run := lease u now wid ttl r in
  exists r', tried r r' /\
    runs (finish_run mc t run u e completes None (put_run run st)).2 = <[id r := r']> (runs st).
Proof.
  intros run.
  assert (Hfail : forall msg nr, exists r', tried r r' /\
    runs (fail_ mc t (id run) u msg (Some (negb nr)) (put_run run st)).2 = <[id r := r']> (runs st)).
  { intros msg nr. destruct (fail_leased mc u now wid ttl t msg (Some (negb nr)) r st) as (r' & Hr & Heq).
    exists r'. split; [done|]. etrans; [exact Heq|]. cbn [put_run runs].
    change (id (lease u now wid ttl r)) with (id r). apply set_set. }
  unfold finish_run. destruct e as [res|msg nr]; [|apply Hfail].
  destruct completes as [msg|]; [apply Hfail|]. cbn [snd]. unfold complete.
  rewrite put_run_lookup, decide_True by done. cbn [leaseToken run lease]. rewrite eqb_refl.
  cbn [negb snd]. rewrite settle_runs. cbn [put_run runs]. eexists. split; [|apply set_set]. split; [done|]. split; [done|]. by left.
Qed.

Lemma tried_cost r r' :
  isTerminal (status r) = false -> errorAttempts r < Z.max 1 (maxAttempts r) -> tried r r' ->
  (cost r' < cost r)%nat.
Proof.
  intros Ht He (_ & Hm & Hr). unfold cost. rewrite Ht. destruct Hr as [->|(-> & Ha & Hlt)]; [lia|].
  simpl. rewrite Hm in *. lia.
Qed.

(** The runs stay, and those that have settled stay as they are. *)
Definition kept (st st' : Store) : Prop :=
  keys (runs st') = keys (runs st) /\
  forall k r, runs st !! k = Some r -> isTerminal (status r) = true -> runs st' !! k = Some r.
Lemma kept_refl st : kept st st.
Proof. by split. Qed.
Lemma kept_trans st1 st2 st3 : kept st1 st2 -> kept st2 st3 -> kept st1 st3.
Proof. intros [Hk1 Ht1] [Hk2 Ht2]. split; [congruence|]. intros k r Hk Ht. by apply Ht2; [apply Ht1|]. Qed.

(** Trying a run keeps the queue idle and uses up some of its budget. *)
Lemma tried_idle st st' r r' :
  idle st -> runs st !! id r = Some r -> isTerminal (status r) = false -> tried r r' ->
  runs st' = <[id r := r']> (runs st) -> idle st' /\ kept st st' /\ (budget st' < budget st)%nat.
Proof.
  intros Hi Hk Ht Htr Hst. destruct (Hi _ _ Hk) as (_ & Hnr & He). split; [|split].
  - intros k x. rewrite Hst, lookup_set. destruct (decide (id r = k)) as [<-|Hne]; [|apply Hi].
    intros [= <-]. destruct Htr as (Hid & Hm & [Hter|(-> & Ha & Hlt)]).
    + split; [done|]. split; [by apply terminal_not_running|]. rewrite Hter. done.
    + split; [done|]. split; [done|]. intros _. lia.
  - split; [by rewrite Hst, keys_set, decide_True by eauto|]. intros k x Hx Htx. rewrite Hst, lookup_set.
    destruct (decide (id r = k)) as [<-|Hne]; [|done]. rewrite Hk in Hx. injection Hx as ->. by rewrite Ht in Htx.
  - unfold budget. rewrite Hst, keys_set.
    rewrite decide_True by eauto.
    apply (sum_list_lt _ _ _ (id r)); [apply elem_of_keys; eauto| |].
    + unfold cost_of. rewrite lookup_set_eq, Hk. simpl. by apply tried_cost; [..|apply He|].
    + intros k _. unfold cost_of. rewrite lookup_set. destruct (decide (id r = k)) as [<-|Hne]; [|done].
      rewrite Hk. simpl. apply Nat.lt_le_incl. by apply tried_cost; [..|apply He|].
Qed.

(** The worker by itself, with nobody else at the queue: at each lap the loop tests, claims,
    executes what it got and comes round.  The [n]th lap has its own identifier, clocks and
    end of the turn. *)
Section alone.
Variable mc : option Z.
Variable ttl poll : Z.
Variable wid : string.
Variable uuid : nat -> string.
Variable clock : nat -> Z * Z.
Variable turn : nat -> TurnEnd.

Definition lap_events (n : nat) : list LoopEvent :=
  [le_top true false (uuid n) (clock n).1; le_answer false; le_end (clock n).2 (turn n) None None; le_wake].

Definition stepped (c : LoopState * Worker * Store) (e : LoopEvent) : LoopState * Worker * Store :=
  let '(l, w, st) := c in loop_step mc ttl poll wid e l w st.

Fixpoint laps (from n : nat) (c : LoopState * Worker * Store) : LoopState * Worker * Store :=
  match n with
  | O => c
  | S n => laps (S from) n (fold_left stepped (lap_events from) c)
  end.

(** One lap of an idle queue: nothing is left and nothing changes, or a run was tried. *)
Lemma lap_spec i f w st :
  idle st -> stopped w = false ->
  exists f' w' st', fold_left stepped (lap_events i) (at_top f, w, st) = (at_top f', w', st') /\
    stopped w' = false /\ idle st' /\ kept st st' /\ ((all_settled st /\ st' = st) \/ (budget st' < budget st)%nat).
Proof.
  intros Hi Hw. pose proof (claim_idle (uuid i) (clock i).1 wid ttl st Hi) as Hc.
  unfold lap_events. cbn [fold_left stepped loop_step]. unfold loop_top. rewrite Hw. cbn [negb].
  destruct (claim _ _ _ _ st) as [[run|] st1].
  - destruct Hc as (r & Hk & Hp & -> & ->). cbn [stepped loop_step loop_claimed]. rewrite Hw.
    unfold loop_finish. cbn [leaseToken lease].
    destruct (finish_leased mc (uuid i) (clock i).1 wid ttl (clock i).2 (turn i) None r st) as (r' & Htr & Hst).
    do 3 eexists. split; [reflexivity|]. split; [done|].
    apply (tried_idle st _ r r') in Hst as (Hi' & Hkept & Hb); [|done|done|by rewrite Hp|done].
    split; [exact Hi'|]. split; [exact Hkept|]. by right.
  - destruct Hc as [-> Hs]. do 3 eexists. split; [reflexivity|]. split; [done|]. split; [done|]. split; [apply kept_refl|]. by left.
Qed.

Lemma budget_pos st k r :
  idle st -> runs st !! k = Some r -> isTerminal (status r) = false -> (0 < budget st)%nat.
Proof.
  intros Hi Hk Ht. destruct (Hi _ _ Hk) as (_ & _ & He). specialize (He Ht). unfold budget.
  apply (Nat.le_lt_trans _ (sum_list (map (fun _ => 0%nat) (keys (runs st))))); [lia|].
  apply (sum_list_lt _ _ _ k); [apply elem_of_keys; eauto| |intros; lia].
  unfold cost_of, cost. rewrite Hk. simpl. rewrite Ht. lia.
Qed.

Lemma laps_spec n : forall i f w st,
  idle st -> stopped w = false -> all_settled st \/ (budget st <= n)%nat ->
  exists f' w' st', laps i n (at_top f, w, st) = (at_top f', w', st') /\ all_settled st' /\ kept st st'.
Proof.
  induction n as [|n IH]; intros i f w st Hi Hw Hb.
  - exists f, w, st. split; [done|]. split; [|apply kept_refl]. intros k r Hk.
    destruct (isTerminal (status r)) eqn:Ht; [done|]. destruct Hb as [Hs|Hb]; [by rewrite (Hs _ _ Hk) in Ht|].
    pose proof (budget_pos _ _ _ Hi Hk Ht). lia.
  - destruct (lap_spec i f w st Hi Hw) as (f1 & w1 & st1 & E & Hw1 & Hi1 & Hk1 & Hc).
    destruct (IH (S i) f1 w1 st1 Hi1 Hw1) as (f' & w' & st' & E' & Hs & Hk).
    { destruct Hc as [[Hs ->]|Hlt]; [by left|]. destruct Hb as [Hs|Hb]; [left|right; lia].
      intros k r Hkr. destruct Hk1 as [Hkeys Hsame]. destruct (runs st !! k) as [r0|] eqn:E0.
      - pose proof (Hsame _ _ E0 (Hs _ _ E0)). assert (r0 = r) as <- by congruence. by eapply Hs.
      - exfalso. assert (Hin : k ∈ keys (runs st1)) by (apply elem_of_keys; eauto).
        rewrite Hkeys in Hin. apply elem_of_keys in Hin. rewrite E0 in Hin. by destruct Hin. }
    exists f', w', st'. cbn [laps]. rewrite E. split; [done|]. split; [done|]. by eapply kept_trans.
Qed.

(** C4: liveness.  A worker left alone with a queue at which no run is executing comes to an
    end with every run settled, however the turns end: no more laps are needed than the runs
    have tries left.  It loses no run and touches none that had settled before. *)
Theorem worker_drains_queue f w st n :
  idle st -> stopped w = false -> (budget st <= n)%nat ->
  exists f' w' st', laps 0 n (at_top f, w, st) = (at_top f', w', st') /\
    (forall k r, runs st' !! k = Some r -> isTerminal (status r) = true) /\
    keys (runs st') = keys (runs st) /\
    (forall k r, runs st !! k = Some r -> isTerminal (status r) = true -> runs st' !! k = Some r).
Proof.
  intros Hi Hw Hb. destruct (laps_spec n 0%nat f w st Hi Hw (or_intror Hb)) as (f' & w' & st' & E & Hs & Hk & Ht).
  by exists f', w', st'.
Qed.
End alone.

(** ** Handing back *)

Section handback.
Variable ttl : Z.

(** A release with nothing in between: the call and all its awaits. *)
Definition release (now : Z) (w : Worker) (wd : World) : Worker * World :=
  fold_left (fun c (_ : nat) => release_step false c.1 c.2) (seq 0 5) (release_call ttl false now w wd).

(** The run is still the one this worker leased. *)
Definition owned (held : InFlight) (st : Store) : bool :=
  match runs st !! f_runId held with
  | Some r => (status r === running) && (leaseToken r === Some (f_token held))
  | None => false
  end.

Lemma heartbeat_owned now held st :
  heartbeat now (f_runId held) (f_token held) ttl st =
  (owned held st, if owned held st then (heartbeat now (f_runId held) (f_token held) ttl st).2 else st).
Proof.
  unfold heartbeat, owned. destruct (runs st !! f_runId held) as [r|]; [|done].
  by destruct (status r === running), (leaseToken r === Some (f_token held)).
Qed.

(** The run is taken back, by way of the heartbeat that asked for it. *)
Lemma hand_back_run now held st :
  (forall k r, runs st !! k = Some r -> id r = k) -> owned held st = true ->
  let st' := (Runs.releaseLease (f_runId held) (f_token held)
                (heartbeat now (f_runId held) (f_token held) ttl st).2).2 in
  (exists r, runs st' !! f_runId held = Some r /\ status r = Runs.pending /\ leaseToken r = None) /\
  (forall k, k <> f_runId held -> runs st' !! k = runs st !! k).
Proof.
  intros Hid. unfold owned, heartbeat, Runs.releaseLease.
  destruct (runs st !! f_runId held) as [r|] eqn:Hk; [|done]. intros Ho. apply andb_true_iff in Ho as [Hr Ht].
  rewrite Hr, Ht. cbn [negb orb snd]. pose proof (Hid _ _ Hk) as Hidr.
  rewrite put_run_lookup. cbn [id]. rewrite decide_True by done. simpl. rewrite Hr, Ht.
  cbn [negb orb snd]. split.
  - eexists. rewrite put_run_lookup, decide_True by done. done.
  - intros k Hne. rewrite !put_run_lookup. rewrite decide_False by (simpl; congruence).
    by rewrite decide_False by (simpl; congruence).
Qed.

(** A worker that hands back what it has in flight, with nothing in between, gives back
    both leases when the run is still its own: the run is pending and without a lease, the
    session of its thread is free, and no other run or session is touched.  When the run is
    its own no more, nothing is touched at all, the session of the new holder least of all. *)
Theorem handback_frees now w wd held :
  inFlight w = Some held -> releasing w = None -> releasedLeaseToken w <> Some (f_token held) ->
  (forall k r, runs (queue wd) !! k = Some r -> id r = k) ->
  let '(w', wd') := release now w wd in
  releasing w' = None /\ releasedLeaseToken w' = Some (f_token held) /\ inFlight w' = inFlight w /\
  if owned held (queue wd)
  then (exists r, runs (queue wd') !! f_runId held = Some r /\ status r = Runs.pending /\ leaseToken r = None) /\
       (forall k, k <> f_runId held -> runs (queue wd') !! k = runs (queue wd) !! k) /\
       (forall s, getByThread (f_threadRef held) (threads wd) = Some s -> leases (threads wd') !! s_id s = None) /\
       (forall sid, (forall s, getByThread (f_threadRef held) (threads wd) = Some s -> s_id s <> sid) ->
          leases (threads wd') !! sid = leases (threads wd) !! sid)
  else wd' = wd.
Proof.
  intros Hf Hr Hl Hid. unfold release, release_call. rewrite Hf, Hr.
  replace (Some (f_token held) === releasedLeaseToken w) with false by (symmetry; apply eqb_false; congruence).
  rewrite heartbeat_owned. destruct (owned held (queue wd)) eqn:Ho.
  - pose proof (hand_back_run now held (queue wd) Hid Ho) as [Hrun Hoth].
    cbn -[heartbeat Runs.releaseLease getByThread].
    destruct (getByThread (f_threadRef held) (threads wd)) as [s|] eqn:Es.
    + cbn -[heartbeat Runs.releaseLease getByThread]. split; [done|]. split; [done|]. split; [done|].
      split; [exact Hrun|]. split; [exact Hoth|]. unfold forceReleaseLease. cbn [leases]. split.
      * intros ? [= <-]. by rewrite lookup_del, decide_True.
      * intros sid Hne. rewrite lookup_del, decide_False; [done|]. by apply Hne.
    + cbn -[heartbeat Runs.releaseLease getByThread]. split; [done|]. split; [done|]. split; [done|].
      split; [exact Hrun|]. split; [exact Hoth|]. by split.
  - cbn. split; [done|]. split; [done|]. split; [done|].
    by destruct wd.
Qed.
End handback.

(** A worker that was told to stop begins nothing any more: whatever step its loop takes,
    a run that executes afterwards executed before, and a claim that was already under way
    is handed back, so that its run is pending again for the others. *)
Theorem stopped_worker_begins_nothing mc ttl poll wid ev l w st :
  stopped w = true ->
  let '(l', w', st') := loop_step mc ttl poll wid ev l w st in
  stopped w' = true /\
  (forall run b, l' = executing run b -> exists b0, l = executing run b0) /\
  (forall f run t r, l = claimed f (Some (Some run)) -> ev = le_answer false -> leaseToken run = Some t ->
     runs st !! id run = Some r -> id r = id run -> status r = running -> leaseToken r = Some t ->
     l' = ended /\ exists r', runs st' !! id run = Some r' /\ status r' = Runs.pending /\ leaseToken r' = None).
Proof.
  intros Hs. destruct l as [f|f ms|f a|run b| |], ev as [cc rj u now|rj| |rj now|now e co fa]; cbn [loop_step].
  all: try by (split; [done|]; split; [intros; simplify_eq; eauto|intros; simplify_eq]).
  - unfold loop_top. rewrite Hs. done.
  - unfold loop_claimed. destruct a as [[run|]|]; [rewrite Hs|done|by destruct (_ >=? _)].
    split; [done|]. split; [done|]. intros f' run' t r [= -> ->] [= ->] Ht Hr Hid Hrun Htok. split; [done|].
    rewrite Ht. unfold Runs.releaseLease. rewrite Hr, Hrun, Htok, !eqb_refl. cbn [negb orb snd].
    eexists. split; [rewrite put_run_lookup; cbn [id]; by rewrite decide_True|done].
  - destruct (loop_beat _ _ _ _ _ _) as [b' st']. split; [done|]. split; [|done]. intros ? ? [= -> ->]. eauto.
Qed.

(** ** Sweeping *)

Lemma getByThread_force ref sid st : getByThread ref (forceReleaseLease sid st) = getByThread ref st.
Proof. done. Qed.

Lemma stranded_leases refs st sid :
  let st' := fold_left (fun st ref => match getByThread ref st with
                                      | Some s => forceReleaseLease s.(s_id) st
                                      | None => st
                                      end) refs st in
  (forall ref, getByThread ref st' = getByThread ref st) /\
  leases st' !! sid =
  if some (fun ref => match getByThread ref st with Some s => s_id s === sid | None => false end) refs
  then None else leases st !! sid.
Proof.
  revert st. induction refs as [|ref refs IH]; intros st; cbn [fold_left]; [done|].
  set (st1 := match getByThread ref st with Some s => forceReleaseLease (s_id s) st | None => st end).
  assert (Hg : forall r, getByThread r st1 = getByThread r st) by (intros r; subst st1; by destruct (getByThread ref st)).
  destruct (IH st1) as [IH1 IH2]. split; [intros r; by rewrite IH1|]. rewrite IH2. unfold some. cbn [existsb].
  rewrite (existsb_same _ (fun r => match getByThread r st with Some s => s_id s === sid | None => false end))
    by (intros r; by rewrite Hg).
  destruct (existsb _ refs); [by rewrite orb_true_r|]. rewrite orb_false_r. subst st1.
  destruct (getByThread ref st) as [s|]; [|done]. unfold forceReleaseLease.
  simpl.
  rewrite lookup_del.
  destruct (decide (s_id s = sid)) as [->|Hne]; [by rewrite eqb_refl|].
  by replace (s_id s === sid) with false by (symmetry; by apply eqb_false).
Qed.

(** What a worker that died held is free after one sweep: no run has a lapsed lease any
    more, the session of every run whose lease had lapsed can be leased again, and no session
    without such a run loses its lease. *)
Theorem sweep_frees_stranded mc now age w :
  (forall k r, runs (queue w) !! k = Some r -> id r = k) ->
  let '(_, _, w') := sweep mc now age w in
  (forall k r, runs (queue w') !! k = Some r -> leaseLapsed r now = false) /\
  (forall k r s, runs (queue w) !! k = Some r -> leaseLapsed r now = true ->
     getByThread (sessionId r) (threads w) = Some s -> leases (threads w') !! s_id s = None) /\
  (forall sid, (forall k r s, runs (queue w) !! k = Some r -> leaseLapsed r now = true ->
      getByThread (sessionId r) (threads w) = Some s -> s_id s <> sid) ->
     leases (threads w') !! sid = leases (threads w) !! sid).
Proof.
  intros Hid. unfold sweep. pose proof (reapExpired_exact mc now age (queue w) Hid) as H.
  cbv zeta in H. destruct (reapExpired mc now age (queue w)) as [rep q]. destruct H as (Hq & _ & _ & _ & Hret).
  cbn [queue threads]. unfold releaseStrandedSessionLeases. split; [exact Hq|].
  assert (Hin : forall ref, ref ∈ dedup (retiredSessionIds rep) <->
    exists k r, runs (queue w) !! k = Some r /\ leaseLapsed r now = true /\ sessionId r = ref).
  { intros ref. rewrite elem_of_dedup, Hret. rewrite list_elem_of_fmap. split.
    - intros (r & -> & [Hl [k Hk]%elem_of_values]%elem_of_js_filter). eauto.
    - intros (k & r & Hk & Hl & <-). exists r. split; [done|]. apply elem_of_js_filter.
      split; [done|]. apply elem_of_values. eauto. }
  split.
  - intros k r s Hk Hl Hs. rewrite (proj2 (stranded_leases _ _ (s_id s))).
    replace (some _ _) with true; [done|]. symmetry. apply some_true. exists (sessionId r).
    split; [apply Hin; eauto|]. by rewrite Hs, eqb_refl.
  - intros sid Hne. rewrite (proj2 (stranded_leases _ _ sid)).
    replace (some _ _) with false; [done|]. symmetry. apply some_false. intros ref (k & r & Hk & Hl & <-)%Hin.
    destruct (getByThread _ _) as [s|] eqn:Hs; [|done]. apply eqb_false. by eapply Hne.
Qed.

(** With nothing in between, the steps of a sweep are the sweep. *)
Lemma sweep_next_alone refs w :
  Nat.iter (2 * length refs) (fun c => sweep_next c.1 c.2) (MkReaping refs None, w) =
  (MkReaping [] None,
   w <| threads := fold_left (fun st ref => match getByThread ref st with
                                            | Some s => forceReleaseLease s.(s_id) st
                                            | None => st
                                            end) refs (threads w) |>).
Proof.
  revert w. induction refs as [|ref refs IH]; intros w; [by destruct w|].
  replace (2 * length (ref :: refs))%nat with (2 * length refs + 2)%nat by (simpl; lia).
  rewrite Nat.iter_add. cbn [Nat.iter fold_left sweep_next rp_left rp_found fst snd nat_rect].
  destruct (getByThread ref (threads w)) as [s|]; cbn [fst snd]; rewrite IH; done.
Qed.

(** ** Concrete queues *)

Definition demo_queue : Store :=
  store (exec_all (Some 5) [OEnqueue "r1" 1 (demo_input "t1" None); OEnqueue "r2" 2 (demo_input "t2" None)] init_sys).
Definition demo_threads : SessionStore :=
  (acquireLease 20 "sl1" 3 "s1" None
     (getOrCreateByThread "s1" 0 "t1" dm "personal:a" None None empty_sessions).2).2.
(** [r1] is executed by a worker that holds the session of its thread. *)
Definition demo_world : World := MkWorld (claim "tok1" 3 "w1" 10 demo_queue).2 demo_threads.
Definition demo_held : InFlight := MkInFlight "r1" "tok1" "t1".
Definition demo_worker : Worker := MkWorker false true [] (Some demo_held) None None.

(** The claim of another worker and its lease on the session. *)
Definition other_worker (w : World) : World :=
  MkWorld (claim "tok2" 31 "w2" 10 (queue w)).2 (acquireLease 100 "sl2" 31 "s1" None (threads w)).2.

(** Between the requeueing of a run and the release of its session another worker may claim
    the run and lease the session; the sweep then takes that lease away.  The same holds of a
    hand-back whose run settles while it is under way. *)
Example sweep_frees_successor :
  let '(rp, _, w1) := sweep_begin (Some 5) 30 None demo_world in
  let '(rp, w2) := sweep_next rp w1 in
  let w3 := other_worker w2 in
  (h_token <$> leases (threads w3) !! "s1") = Some "sl2" /\
  leases (threads (sweep_next rp w3).2) !! "s1" = None.
Proof. vm_compute. by split. Qed.

Definition demo_finish (w : World) : World :=
  MkWorld (complete 30 "r1" "tok1" demo_result (queue w)).2 (Sessions.releaseLease (MkLease "s1" "sl1") (threads w)).
Example handback_frees_successor :
  let '(k1, w1) := release_call 10 false 12 demo_worker demo_world in
  let '(k2, w2) := release_step false k1 w1 in
  let w3 := MkWorld (queue (demo_finish w2)) (acquireLease 100 "sl2" 31 "s1" None (threads (demo_finish w2))).2 in
  (h_token <$> leases (threads w3) !! "s1") = Some "sl2" /\
  leases (threads (release_step false k2 w3).2) !! "s1" = None.
Proof. vm_compute. by split. Qed.

(** While the sweep of a drain waits for protection to be taken off, a run that begins is not
    protected: [noteBusy] sees it still on. *)
Example noteBusy_lost :
  let d := drain_beat true false false (drain_set_done (drain_beat true false true new_drain)) in
  let d := drain_set_done (noteBusy true d) in
  protectionOn d = false /\ d_calls d = [true; false].
Proof. by split. Qed.

Lemma demo_idle : idle demo_queue.
Proof.
  intros k r Hk.
  assert (Hall : every (fun e => (id e.2 === e.1) && negb (status e.2 === running)
     && (isTerminal (status e.2) || (errorAttempts e.2 <? Z.max 1 (maxAttempts e.2)))) (entries (runs demo_queue)) = true)
    by (vm_compute; reflexivity).
  pose proof (proj1 (every_true _ _) Hall (k, r) (proj2 (elem_of_entries _ _ _) Hk)) as H. simpl in H.
  apply andb_true_iff in H as [[H1 H2]%andb_true_iff H3]. to_prop.
  split; [done|]. split; [done|]. intros Ht. rewrite Ht in H3. simpl in H3. lia.
Qed.

Lemma demo_ids k r : runs (queue demo_world) !! k = Some r -> id r = k.
Proof.
  intros Hk.
  assert (Hall : every (fun e => id e.2 === e.1) (entries (runs (queue demo_world))) = true) by (vm_compute; reflexivity).
  pose proof (proj1 (every_true _ _) Hall (k, r) (proj2 (elem_of_entries _ _ _) Hk)) as H. simpl in H. by to_prop.
Qed.

(** Two runs of two tries each; every turn fails. *)
Lemma worker_drains_queue_witness :
  exists f' w' st',
    laps (Some 5) 10 50 "w" (fun n => "tok" +:+ pretty n) (fun n => (Z.of_nat n, Z.of_nat n))
      (fun _ => turn_error "boom" false) 0 4 (at_top 0, new_worker, demo_queue) = (at_top f', w', st') /\
    (forall k r, runs st' !! k = Some r -> isTerminal (status r) = true) /\ keys (runs st') = ["r1"; "r2"].
Proof.
  destruct (worker_drains_queue (Some 5) 10 50 "w" (fun n => "tok" +:+ pretty n) (fun n => (Z.of_nat n, Z.of_nat n))
    (fun _ => turn_error "boom" false) 0 new_worker demo_queue 4 demo_idle eq_refl
    ltac:(vm_compute; lia)) as (f' & w' & st' & E & Hs & Hk & _).
  exists f', w', st'. split; [exact E|]. split; [exact Hs|]. rewrite Hk. vm_compute. reflexivity.
Defined.

Lemma handback_frees_witness :
  leases (threads (release 10 12 demo_worker demo_world).2) !! "s1" = None.
Proof.
  pose proof (handback_frees 10 12 demo_worker demo_world demo_held eq_refl eq_refl
    ltac:(discriminate) demo_ids) as H.
  destruct (release _ _ _ _) as [w' wd']. destruct H as (_ & _ & _ & H).
  assert (Ho : owned demo_held (queue demo_world) = true) by (vm_compute; reflexivity). rewrite Ho in H.
  destruct H as (_ & _ & H & _). cbn [snd].
  destruct (getByThread (f_threadRef demo_held) (threads demo_world)) as [s|] eqn:Es; [|vm_compute in Es; discriminate].
  rewrite <- (H s eq_refl). f_equal. vm_compute in Es. injection Es as <-. reflexivity.
Defined.

Definition demo_claimed : Run := lease "tok1" 3 "w1" 10 (new_run "r1" 1 (demo_input "t1" None)).
Lemma demo_claimed_lookup : runs (queue demo_world) !! "r1" = Some demo_claimed.
Proof. vm_compute. reflexivity. Qed.

Lemma stopped_worker_begins_nothing_witness :
  exists l' w' st', loop_step (Some 5) 10 50 "w1" (le_answer false)
      (claimed 0 (Some (Some demo_claimed))) (stop_call demo_worker) (queue demo_world) = (l', w', st') /\
    l' = ended /\ exists r', runs st' !! "r1" = Some r' /\ status r' = Runs.pending.
Proof.
  pose proof (stopped_worker_begins_nothing (Some 5) 10 50 "w1" (le_answer false)
      (claimed 0 (Some (Some demo_claimed))) (stop_call demo_worker) (queue demo_world) eq_refl) as H.
  destruct (loop_step _ _ _ _ _ _ _ _) as [[l' w'] st']. destruct H as (_ & _ & H).
  destruct (H 0 demo_claimed "tok1" demo_claimed eq_refl eq_refl eq_refl demo_claimed_lookup eq_refl eq_refl eq_refl)
    as (-> & r' & Hr & Hp & _).
  exists ended, w', st'. split; [done|]. split; [done|]. by exists r'.
Defined.

Lemma sweep_frees_stranded_witness :
  leases (threads (sweep (Some 5) 30 None demo_world).2) !! "s1" = None.
Proof.
  pose proof (sweep_frees_stranded (Some 5) 30 None demo_world demo_ids) as H.
  destruct (sweep _ _ _ _) as [[n l] w']. destruct H as (_ & H & _). cbn [snd].
  destruct (getByThread "t1" (threads demo_world)) as [s|] eqn:Es; [|vm_compute in Es; discriminate].
  rewrite <- (H "r1" demo_claimed s demo_claimed_lookup eq_refl Es).
  f_equal. vm_compute in Es. injection Es as <-. reflexivity.
Defined.
