(* ===== verification/Processes.v ===== *)
(** * Background processes

    The registry of the processes a sandbox runs in the background
    ([src/src/processes/process-registry.ts], its in-memory store), the reaper of the ones
    whose time is over ([src/src/processes/process-reaper.ts]), the reconciliation with what
    the sandbox still runs ([src/src/processes/reconcile.ts]) and the polling of a process
    ([src/src/sandbox/process-poll.ts], [src/src/sandbox/await-process-exit.ts]).  The
    sandbox is the host's: its answers are parameters. *)

From S2P Require Import Prelude JsString.

#[local] Open Scope Z_scope.

(** ** The registry *)

(** [isDeclaredKind] src/src/processes/process-registry.ts:5-9 *)
Definition isDeclaredKind (kind : string) : bool := includes ["build"; "dev-server"; "background"] kind.

(** [ProcessStatus] src/src/processes/process-registry.ts:11-11 *)
Inductive ProcessStatus := running | exited | reaped.
#[export] Instance ProcessStatus_eq_dec : EqDecision ProcessStatus.
Proof. solve_decision. Defined.

(** [ProcessRecord] src/src/processes/process-registry.ts:13-23 *)
Record ProcessRecord := MkProcess {
  processId : string;
  pr_scopeId : string;
  pr_kind : string;
  pr_command : string;
  pr_startedAt : Z;
  pr_expiresAt : Z;
  pr_status : ProcessStatus;
  sessionRef : option string;
  pr_runId : option string;
}.
#[export] Instance ProcessRecord_eta : Eta ProcessRecord := fun p =>
  MkProcess p.(processId) p.(pr_scopeId) p.(pr_kind) p.(pr_command) p.(pr_startedAt) p.(pr_expiresAt) p.(pr_status)
    p.(sessionRef) p.(pr_runId).

(** [NewProcessRecord] src/src/processes/process-registry.ts:25-33 *)
Record NewProcessRecord := MkNewProcess {
  np_processId : string;
  np_scopeId : string;
  np_kind : string;
  np_command : string;
  np_ttlMs : Z;
  np_sessionRef : option string;
  np_runId : option string;
}.

(** [newRecord] src/src/processes/process-registry.ts:47-60 *)
Definition newRecord (rec : NewProcessRecord) (now : Z) : result string ProcessRecord :=
  if negb (isDeclaredKind rec.(np_kind)) then Throw ("process kind not declared: " +:+ rec.(np_kind))
  else Ok (MkProcess rec.(np_processId) rec.(np_scopeId) rec.(np_kind) rec.(np_command) now (now + rec.(np_ttlMs))
             running (if_truthy rec.(np_sessionRef)) (if_truthy rec.(np_runId))).

(** The rows of the in-memory registry. *)
Abbreviation Registry := (jsmap string ProcessRecord).

(** [register] src/src/processes/process-registry.ts:65-69 *)
Definition register (rec : NewProcessRecord) (now : Z) (m : Registry) : result string ProcessRecord * Registry :=
  match newRecord rec now with
  | Throw e => (Throw e, m)
  | Ok row => (Ok row, <[row.(processId) := row]> m)
  end.
(** [get] src/src/processes/process-registry.ts:70-73 *)
Definition get_process (id : string) (m : Registry) : option ProcessRecord := m !! id.
(** [listByScope] src/src/processes/process-registry.ts:74-76 *)
Definition listByScope (scope : string) (m : Registry) : list ProcessRecord :=
  js_filter (fun r => r.(pr_scopeId) === scope) (values m).
Definition is_live (now : Z) (r : ProcessRecord) : bool := (r.(pr_status) === running) && (r.(pr_expiresAt) >? now).
(** [liveByScope] src/src/processes/process-registry.ts:77-81 *)
Definition liveByScope (scope : string) (now : Z) (m : Registry) : list ProcessRecord :=
  js_filter (fun r => (r.(pr_scopeId) === scope) && is_live now r) (values m).
(** [listLive] src/src/processes/process-registry.ts:82-84 *)
Definition listLive (now : Z) (m : Registry) : list ProcessRecord := js_filter (is_live now) (values m).
(** [markStatus] src/src/processes/process-registry.ts:85-90 *)
Definition markStatus (id : string) (s : ProcessStatus) (m : Registry) : bool * Registry :=
  match m !! id with
  | None => (false, m)
  | Some row => (true, <[id := row <| pr_status := s |>]> m)
  end.
Definition is_expired (now : Z) (r : ProcessRecord) : bool := (r.(pr_status) === running) && (r.(pr_expiresAt) <=? now).
(** [listExpired] src/src/processes/process-registry.ts:91-93 *)
Definition listExpired (now : Z) (m : Registry) : list ProcessRecord := js_filter (is_expired now) (values m).
(** [delete] src/src/processes/process-registry.ts:94-96 *)
Definition delete_process (id : string) (m : Registry) : Registry := delete id m.

(** ** Polling a process *)

(** [ProcessState] src/src/sandbox/sandbox.ts:100-100 *)
Inductive ProcessState := ps_running | ps_exited (code : Z).
(** [ReadProcessResult] src/src/sandbox/sandbox.ts:113-117 *)
Record ReadProcessResult := MkRead { chunks : string; rd_cursor : Z; rd_status : ProcessState }.

(** [processIsGone] src/src/sandbox/process-poll.ts:5-5 *)
Definition processIsGone (message : string) : bool := starts_with (to_lower message) "no such process".

Definition has_exited (s : ProcessState) : bool := match s with ps_exited _ => true | ps_running => false end.

Section poll.
(** The answer to the [i]th read since a cursor and with a wait, and the times at which the
    [i]th turn of the loop begins and has its answer. *)
Variable read : nat -> Z -> Z -> result string ReadProcessResult.
Variable startedAt answeredAt : nat -> Z.
Variable until : ReadProcessResult -> string -> bool.
Variable deadline waitMs : Z.
Variable collect : bool.

(** [pollProcess] src/src/sandbox/process-poll.ts:33-45
    [None] is more turns than the fuel. *)
Fixpoint poll_loop (fuel i : nat) (cursor : Z) (output : string) : option (result string (string * Z * ProcessState)) :=
  match fuel with
  | O => None
  | S fuel =>
      match read i cursor (Z.max 0 (Z.min (deadline - startedAt i) waitMs)) with
      | Throw e => Some (Throw e)
      | Ok r =>
          let output := if collect then output +:+ r.(chunks) else output in
          if has_exited r.(rd_status) || until r output || (answeredAt i >=? deadline)
          then Some (Ok (output, r.(rd_cursor), r.(rd_status)))
          else poll_loop fuel (S i) r.(rd_cursor) output
      end
  end.

(** The loop ends: the clock of a turn that does not return has moved on by a millisecond at
    least, and so the turns are no more than the milliseconds to the deadline. *)
Theorem poll_loop_ends fuel : forall i cursor output,
  (forall j, startedAt j <= answeredAt j) -> (forall j, answeredAt j < startedAt (S j)) ->
  (Z.to_nat (deadline - startedAt i) < fuel)%nat -> poll_loop fuel i cursor output <> None.
Proof.
  induction fuel as [|fuel IH]; intros i cursor output Ha Hs Hf; [lia|]. cbn [poll_loop].
  destruct (read _ _ _) as [r|e]; [|done]. cbv zeta. destruct (_ || _) eqn:E; [done|].
  apply orb_false_iff in E as [_ E]. rewrite Z.geb_leb in E. apply Z.leb_gt in E.
  apply IH; [done|done|]. specialize (Ha i). specialize (Hs i). lia.
Qed.
End poll.

(** ** The reaper *)

(** What the reaper asks of the sandbox. *)
Inductive SandboxCall := sc_provision | sc_signal (id signal : string) | sc_await (id : string) (graceMs : Z) | sc_teardown.

(** The answers it gets. *)
Record KillAnswers := MkKillAnswers {
  ka_provision : result string unit;
  ka_term : result string unit;
  ka_after_term : result string ProcessState;
  ka_kill : result string unit;
  ka_after_kill : result string ProcessState;
  ka_teardown : result string unit;
}.

(** [createReaperKillHook] src/src/processes/process-reaper.ts:25-34
    What is tried on the process.  [awaitProcessExit] is its last known state. *)
Definition kill_attempt (a : KillAnswers) (termGraceMs killGraceMs : Z) (id : string) : result string unit * list SandboxCall :=
  let term := [sc_signal id "TERM"] in
  match a.(ka_term) with
  | Throw e => (Throw e, term)
  | Ok _ =>
      let waited := term ++ [sc_await id termGraceMs] in
      match a.(ka_after_term) with
      | Throw e => (Throw e, waited)
      | Ok (ps_exited _) => (Ok tt, waited)
      | Ok ps_running =>
          let killed := waited ++ [sc_signal id "KILL"] in
          match a.(ka_kill) with
          | Throw e => (Throw e, killed)
          | Ok _ =>
              (match a.(ka_after_kill) with
               | Throw e => Throw e
               | Ok (ps_exited _) => Ok tt
               | Ok ps_running => Throw ("process survived TERM+KILL: " +:+ id)
               end, killed ++ [sc_await id killGraceMs])
          end
      end
  end.

(** [createReaperKillHook] src/src/processes/process-reaper.ts:16-41
    A process that is gone counts as killed; the machine is let go whatever happens, and a
    failure of that is the failure of the whole. *)
Definition reaper_kill (a : KillAnswers) (termGraceMs killGraceMs : option Z) (rec : ProcessRecord)
  : result string unit * list SandboxCall :=
  match a.(ka_provision) with
  | Throw e => (Throw e, [sc_provision])
  | Ok _ =>
      let '(r, calls) := kill_attempt a (termGraceMs ?? 5000) (killGraceMs ?? 2000) rec.(processId) in
      let r := match r with Throw e => if processIsGone e then Ok tt else Throw e | Ok _ => Ok tt end in
      (match a.(ka_teardown) with Throw e => Throw e | Ok _ => r end, sc_provision :: calls ++ [sc_teardown])
  end.

(** [createProcessReaper] src/src/processes/process-reaper.ts:61-72
    One expired process: [kill] is the hook, when there is one; the count and the records
    handed to [onReaped] grow when its row is still there. *)
Definition reap_process (kill : option (ProcessRecord -> result string unit)) (acc : list ProcessRecord * Registry)
    (rec : ProcessRecord) : list ProcessRecord * Registry :=
  let '(reaped_, m) := acc in
  match kill with
  | Some k =>
      match k rec with
      | Throw _ => (reaped_, m)
      | Ok _ => let '(flipped, m) := markStatus rec.(processId) reaped m in
                if negb flipped then (reaped_, m) else (reaped_ ++ [rec], m)
      end
  | None => let '(flipped, m) := markStatus rec.(processId) reaped m in
            if negb flipped then (reaped_, m) else (reaped_ ++ [rec], m)
  end.
(** [sweep] src/src/processes/process-reaper.ts:58-75 *)
Definition process_sweep (kill : option (ProcessRecord -> result string unit)) (now : Z) (m : Registry)
  : Z * list ProcessRecord * Registry :=
  let '(l, m) := fold_left (reap_process kill) (listExpired now m) ([], m) in (Z.of_nat (length l), l, m).

(** ** Reconciliation *)

(** [ProcessSession] src/src/sandbox/sandbox.ts:119-124, the fields that are read. *)
Record ProcessSession := MkSessionOf { pss_processId : string; pss_status : ProcessState }.

(** [reconcileProcesses] src/src/processes/reconcile.ts:10-22
    [live] is the sandbox's answer, asked only when there is something running. *)
Definition reconcileProcesses (live : result string (list ProcessSession)) (scope : string) (m : Registry)
  : result string unit * Registry :=
  let running_ := js_filter (fun r => r.(pr_status) === running) (listByScope scope m) in
  match running_ with
  | [] => (Ok tt, m)
  | _ =>
      match live with
      | Throw e => (Throw e, m)
      | Ok l =>
          let byId := new_map (map (fun s => (s.(pss_processId), s)) l) in
          (Ok tt, fold_left (fun m rec =>
             match byId !! rec.(processId) with
             | Some s => if has_exited s.(pss_status) then (markStatus rec.(processId) exited m).2 else m
             | None => (markStatus rec.(processId) exited m).2
             end) running_ m)
      end
  end.

(** ** Facts *)

(** The rows are under their identifiers. *)
Definition keyed_registry (m : Registry) : Prop := forall k r, m !! k = Some r -> processId r = k.

Lemma register_keyed rec now m : keyed_registry m -> keyed_registry (register rec now m).2.
Proof.
  intros Hm. unfold register. destruct (newRecord rec now) as [row|]; [|done]. cbn [snd]. intros k r.
  rewrite lookup_set. destruct (decide _) as [<-|]; [by intros [= <-]|apply Hm].
Qed.
Lemma markStatus_lookup id s m k :
  (markStatus id s m).2 !! k = if decide (id = k) then (fun r => r <| pr_status := s |>) <$> m !! k else m !! k.
Proof.
  unfold markStatus. destruct (m !! id) as [r|] eqn:E; cbn [snd].
  - rewrite lookup_set. destruct (decide _) as [<-|]; [by rewrite E|done].
  - destruct (decide _) as [<-|]; [by rewrite E|done].
Qed.
Lemma markStatus_keyed id s m : keyed_registry m -> keyed_registry (markStatus id s m).2.
Proof.
  intros Hm k r. rewrite markStatus_lookup. destruct (decide _) as [->|]; [|apply Hm].
  destruct (m !! k) as [r0|] eqn:E; [|done]. intros [= <-]. by apply (Hm _ _ E).
Qed.

(** A process counts as killed only when the sandbox said that it has exited, or that there
    is no such process; and what was provisioned is let go. *)
Lemma kill_Ok a tg kg rec calls :
  reaper_kill a tg kg rec = (Ok tt, calls) ->
  ((exists c, ka_after_term a = Ok (ps_exited c)) \/ (exists c, ka_after_kill a = Ok (ps_exited c)) \/
   (exists e, processIsGone e = true /\
      (ka_term a = Throw e \/ ka_after_term a = Throw e \/ ka_kill a = Throw e \/ ka_after_kill a = Throw e \/
       e = "process survived TERM+KILL: " +:+ processId rec))) /\
  last calls = Some sc_teardown.
Proof.
  unfold reaper_kill, kill_attempt. destruct (ka_provision a) as [[]|]; [|done].
  destruct (ka_term a) as [[]|e] eqn:E1.
  2:{ destruct (ka_teardown a); [|done]. destruct (processIsGone e) eqn:Eg; [|done]. intros [= <-].
      split; [right; right; eauto 6|done]. }
  destruct (ka_after_term a) as [[|c]|e] eqn:E2.
  - destruct (ka_kill a) as [[]|e] eqn:E3.
    2:{ destruct (ka_teardown a); [|done]. destruct (processIsGone e) eqn:Eg; [|done]. intros [= <-].
        split; [right; right; eauto 8|done]. }
    destruct (ka_after_kill a) as [[|c]|e] eqn:E4; destruct (ka_teardown a); try done.
    + intros [= <-]. split; [|done]. right. left. eauto.
    + destruct (processIsGone e) eqn:Eg; [|done]. intros [= <-]. split; [right; right; eauto 10|done].
  - destruct (ka_teardown a); [|done]. intros [= <-]. split; [left; eauto|done].
  - destruct (ka_teardown a); [|done]. destruct (processIsGone e) eqn:Eg; [|done]. intros [= <-].
    split; [right; right; eauto 7|done].
Qed.

Definition killed (kill : option (ProcessRecord -> result string unit)) (rec : ProcessRecord) : bool :=
  match kill with Some k => is_ok (k rec) | None => true end.

Lemma reap_process_eq kill acc m rec :
  is_Some (m !! processId rec) ->
  reap_process kill (acc, m) rec =
  if killed kill rec then (acc ++ [rec], (markStatus (processId rec) reaped m).2) else (acc, m).
Proof.
  intros [r Hr]. unfold reap_process, killed, markStatus. rewrite Hr.
  destruct kill as [k|]; [|done]. by destruct (k rec) as [[]|].
Qed.

Lemma reap_processes kill l : forall acc m,
  (forall r, r ∈ l -> is_Some (m !! processId r)) ->
  let '(out, m') := fold_left (reap_process kill) l (acc, m) in
  out = acc ++ js_filter (killed kill) l /\
  (forall k, m' !! k = if some (fun r => (processId r === k) && killed kill r) l
                       then (fun r => r <| pr_status := reaped |>) <$> m !! k else m !! k).
Proof.
  induction l as [|rec l IH]; intros acc m Hl; cbn [fold_left]; [by rewrite app_nil_r|].
  rewrite reap_process_eq by (apply Hl, list_elem_of_here).
  unfold some. cbn [js_filter existsb].
  destruct (killed kill rec) eqn:Ek.
  - specialize (IH (acc ++ [rec]) (markStatus (processId rec) reaped m).2).
    destruct (fold_left _ l _) as [out m']. destruct IH as [-> IH].
    { intros r Hr. rewrite markStatus_lookup. destruct (decide _); [apply fmap_is_Some|].
      all: by apply Hl, list_elem_of_further. }
    split.
    + by rewrite <- app_assoc.
    + intros k. rewrite IH, markStatus_lookup. rewrite andb_true_r. fold (some (fun r => (processId r === k) && killed kill r) l).
      destruct (decide (processId rec = k)) as [->|Hne].
      * rewrite eqb_refl. cbn [orb]. destruct (some _ l), (m !! k); done.
      * replace (processId rec === k) with false by (symmetry; by apply eqb_false). done.
  - specialize (IH acc m). destruct (fold_left _ l _) as [out m']. destruct IH as [-> IH].
    { intros r Hr. by apply Hl, list_elem_of_further. }
    split; [done|]. intros k. rewrite IH, andb_false_r. done.
Qed.

(** One sweep of the process reaper marks as reaped exactly the running processes whose
    time is over and whose kill succeeded; a process that survives stays running in the
    registry, so that the next sweep finds it again; every other row is untouched; and the
    count and the reports name the reaped ones, in order. *)
Theorem process_sweep_exact kill now m :
  keyed_registry m ->
  let '(n, reports, m') := process_sweep kill now m in
  (forall k r, m !! k = Some r ->
     m' !! k = Some (if is_expired now r && killed kill r then r <| pr_status := reaped |> else r)) /\
  (forall k, m !! k = None -> m' !! k = None) /\
  reports = js_filter (fun r => is_expired now r && killed kill r) (values m) /\ n = Z.of_nat (length reports).
Proof.
  intros Hm. unfold process_sweep. pose proof (reap_processes kill (listExpired now m) [] m) as H.
  assert (Hin : forall r, r ∈ listExpired now m <-> is_expired now r = true /\ m !! processId r = Some r).
  { intros r. unfold listExpired. rewrite elem_of_js_filter, elem_of_values. split.
    - intros [He [k Hk]]. by rewrite (Hm _ _ Hk).
    - intros [He Hk]. eauto. }
  destruct (fold_left _ _ _) as [out m']. destruct H as [Hout Hm'].
  { intros r [_ Hr]%Hin. eauto. }
  simpl in Hout. split; [|split; [|split; [|done]]].
  - intros k r Hk. rewrite Hm', Hk. pose proof (Hm _ _ Hk) as Hid.
    destruct (is_expired now r && killed kill r) eqn:E.
    + replace (some _ _) with true; [done|]. symmetry. apply some_true. exists r.
      apply andb_true_iff in E as [E1 E2]. rewrite E2, Hid, eqb_refl. split; [|done]. apply Hin. by rewrite Hid.
    + replace (some _ _) with false; [done|]. symmetry. apply some_false. intros r' [He Hr']%Hin.
      destruct (processId r' === k) eqn:Ek; [|done]. to_prop. rewrite Ek, Hk in Hr'. injection Hr' as <-.
      by rewrite He in E.
  - intros k Hk. rewrite Hm', Hk. by destruct (some _ _).
  - rewrite Hout. unfold listExpired. generalize (values m). induction l as [|r l IH]; [done|].
    cbn [js_filter]. destruct (is_expired now r); cbn [js_filter andb]; [|done].
    destruct (killed kill r); [by rewrite IH|done].
Qed.

Definition backend_runs (l : list ProcessSession) (id : string) : bool :=
  match new_map (map (fun s => (s.(pss_processId), s)) l) !! id with
  | Some s => negb (has_exited s.(pss_status))
  | None => false
  end.

Lemma reconcile_fold (p : string -> bool) l : forall m k,
  fold_left (fun m rec => if p (processId rec) then m else (markStatus (processId rec) exited m).2) l m !! k =
  if some (fun r => (processId r === k) && negb (p k)) l then (fun r => r <| pr_status := exited |>) <$> m !! k else m !! k.
Proof.
  induction l as [|rec l IH]; intros m k; [done|]. cbn [fold_left]. rewrite IH. unfold some. cbn [existsb].
  destruct (decide (processId rec = k)) as [<-|Hne].
  - rewrite eqb_refl. cbn [andb]. destruct (p (processId rec)); [done|]. cbn [negb orb].
    rewrite markStatus_lookup, decide_True by done. by destruct (existsb _ _), (m !! _).
  - replace (processId rec === k) with false by (symmetry; by apply eqb_false). cbn [andb orb].
    destruct (p (processId rec)); [done|]. by rewrite markStatus_lookup, decide_False.
Qed.

(** What a reconciliation leaves: when the sandbox answered, a process of the scope that is
    still running in the registry is one the sandbox still runs; nothing of another scope and
    nothing that had ended is touched. *)
Theorem reconcile_truthful live scope m :
  keyed_registry m ->
  let '(r, m') := reconcileProcesses live scope m in
  (forall l k p, live = Ok l -> r = Ok tt -> m' !! k = Some p -> pr_scopeId p = scope -> pr_status p = running ->
     backend_runs l k = true) /\
  (forall k p, m !! k = Some p -> pr_scopeId p <> scope \/ pr_status p <> running -> m' !! k = Some p) /\
  (forall e, live = Throw e -> m' = m).
Proof.
  intros Hm. unfold reconcileProcesses. set (rs := js_filter _ (listByScope scope m)).
  assert (Hin : forall r, r ∈ rs <-> m !! processId r = Some r /\ pr_scopeId r = scope /\ pr_status r = running).
  { intros r. subst rs. unfold listByScope. rewrite !elem_of_js_filter, elem_of_values, !eqb_true. split.
    - intros (? & ? & [k Hk]). by rewrite (Hm _ _ Hk).
    - intros (? & ? & ?). eauto. }
  destruct rs as [|r0 rs0] eqn:Ers.
  { split; [|done]. intros l k p _ _ Hk Hs Hr. exfalso. assert (p ∈ @nil ProcessRecord); [|by apply elem_of_nil in H].
    apply Hin. by rewrite (Hm _ _ Hk). }
  rewrite <- Ers in *. destruct live as [l|e]; [|done].
  set (f := fun m0 rec => _). assert (Hf : forall k, fold_left f rs m !! k =
    if some (fun r => (processId r === k) && negb (backend_runs l k)) rs
    then (fun r => r <| pr_status := exited |>) <$> m !! k else m !! k).
  { intros k. rewrite <- (reconcile_fold (backend_runs l)). f_equal. generalize rs, m. clear -f.
    intros l0. induction l0 as [|rec l0 IH]; intros m0; [done|]. cbn [fold_left]. rewrite IH. f_equal. unfold f.
    unfold backend_runs. destruct (new_map _ !! _) as [s|]; [|done]. by destruct (has_exited _). }
  split; [|split; [|done]].
  - intros l' k p [= <-] _. rewrite Hf. destruct (some _ rs) eqn:E.
    + destruct (m !! k) as [p0|]; [|done]. by intros [= <-].
    + intros Hk Hs Hr. pose proof (proj1 (some_false _ _) E p) as H.
      cbv beta in H. rewrite (Hm _ _ Hk), eqb_refl in H. destruct (backend_runs l k); [done|].
      assert (Hp : p ∈ rs) by (apply Hin; by rewrite (Hm _ _ Hk)). by specialize (H Hp).
  - intros k p Hk Hne. rewrite Hf. replace (some _ rs) with false; [done|]. symmetry. apply some_false.
    intros r (Hr & Hs & Hrun)%Hin. destruct (processId r === k) eqn:Ek; [|done]. to_prop.
    rewrite Ek, Hk in Hr. injection Hr as <-. by destruct Hne.
Qed.

Definition demo_registry : Registry :=
  (register (MkNewProcess "p2" "s" "build" "make" 50 None None) 1
    (register (MkNewProcess "p1" "s" "background" "sleep" 5 None None) 0 ∅).2).2.
Lemma demo_registry_keyed : keyed_registry demo_registry.
Proof. by do 2 apply register_keyed. Qed.

Lemma process_sweep_exact_witness :
  pr_status <$> (process_sweep None 10 demo_registry).2 !! "p1" = Some reaped.
Proof.
  pose proof (process_sweep_exact None 10 demo_registry demo_registry_keyed) as H.
  destruct (process_sweep None 10 demo_registry) as [[n l] m']. destruct H as (H & _). cbn [snd].
  destruct (demo_registry !! "p1") as [r|] eqn:E; [|vm_compute in E; discriminate].
  rewrite (H _ _ E). vm_compute in E. injection E as <-. reflexivity.
Defined.
