(* ===== verification/Monitors.v ===== *)
(** * Monitors: watching a background process

    The store of watches ([src/src/monitors/monitor-store.ts]), the calls that arm and disarm
    one ([src/src/monitors/monitor-broker.ts]) and the poller that reads the watched processes
    and fires a trigger when there is something to say ([src/src/monitors/monitor-poller.ts]).
    The store is over any [DurableMap].  Reading a process and provisioning its machine are
    the sandbox's; firing is [runTrigger] ([RunTrigger]), here a parameter that may change
    everything, since the turn it runs may arm and disarm watches itself. *)

From stdpp Require Import pretty.
From S2P Require Import Prelude JsString Scope Turn DurableMap Triggers RunTrigger Processes.

#[local] Open Scope Z_scope.

(** ** Patterns *)

(** [MAX_PATTERN_CHARS] src/src/monitors/monitor-broker.ts:27-27 *)
Definition MAX_PATTERN_CHARS : Z := 256.

(** [compileMonitorPattern] src/src/monitors/monitor-broker.ts:32-33 *)
Definition is_pattern_special (c : ascii) : bool :=
  includes ["\"; "["; "]"; "("; ")"; "{"; "}"; "`"; "*"; "+"; "?"]%char c.

(** [compileMonitorPattern] src/src/monitors/monitor-broker.ts:34-42 *)
Record Alternative := MkAlternative { literal : string; starts : bool; ends : bool }.
Definition parse_alternative (raw : string) : result string Alternative :=
  if negb (truthy raw) then Throw "pattern alternatives must not be empty"
  else
    let s := starts_with raw "^" in
    let e := ends_with raw "$" in
    let lit := str_drop (if s then 1 else 0) (if e then str_take (String.length raw - 1) raw else raw) in
    if negb (truthy lit) || str_includes lit "^" || str_includes lit "$"
    then Throw "^ and $ are supported only as alternative anchors"
    else Ok (MkAlternative lit s e).
Fixpoint parse_alternatives (l : list string) : result string (list Alternative) :=
  match l with
  | [] => Ok []
  | raw :: l => a ← parse_alternative raw; rest ← parse_alternatives l; Ok (a :: rest)
  end.

(** [compileMonitorPattern] src/src/monitors/monitor-broker.ts:43-49 *)
Definition alternative_matches (line : string) (a : Alternative) : bool :=
  if a.(starts) && a.(ends) then line === a.(literal)
  else if a.(starts) then starts_with line a.(literal)
  else if a.(ends) then ends_with line a.(literal)
  else str_includes line a.(literal).

(** [compileMonitorPattern] src/src/monitors/monitor-broker.ts:29-50 *)
Definition compileMonitorPattern (pattern : string) : result string (string -> bool) :=
  if negb (truthy pattern) || (str_len pattern >? MAX_PATTERN_CHARS)
  then Throw ("pattern must be 1-" +:+ pretty MAX_PATTERN_CHARS +:+ " characters")
  else if str_some is_pattern_special pattern
  then Throw "pattern must use literal alternatives, with optional ^ and $ anchors"
  else alternatives ← parse_alternatives (split_on "|"%char pattern);
       Ok (fun line => some (alternative_matches line) alternatives).

(** ** The store *)

(** [Monitor] src/src/types.ts:251-261 *)
Record Monitor := MkMonitor {
  mo_base : TriggerBase;
  mo_processId : string;
  mo_command : string;
  mo_threadRef : string;
  mo_instructions : option string;
  mo_pattern : option string;
  mo_cursor : Z;
  mo_tail : option string;
  mo_expiresAt : Z;
  lastError : option string;
}.
#[export] Instance Monitor_eta : Eta Monitor := fun m =>
  MkMonitor m.(mo_base) m.(mo_processId) m.(mo_command) m.(mo_threadRef) m.(mo_instructions) m.(mo_pattern)
    m.(mo_cursor) m.(mo_tail) m.(mo_expiresAt) m.(lastError).
Definition mo_id (m : Monitor) : string := m.(mo_base).(tb_id).
Definition mo_enabled (m : Monitor) : bool := m.(mo_base).(enabled).
Definition mo_createdAt (m : Monitor) : Z := m.(mo_base).(tb_createdAt).
Definition mo_lastFiredAt (m : Monitor) : option Z := m.(mo_base).(lastFiredAt).

(** [CreateMonitorInput] src/src/monitors/monitor-store.ts:11-19 *)
Record CreateMonitorInput := MkCreateMonitor {
  cm_trigger : CreateTriggerInput;
  cm_processId : string;
  cm_command : string;
  cm_threadRef : string;
  cm_instructions : option string;
  cm_pattern : option string;
  cm_cursor : option Z;
  cm_expiresAt : Z;
}.

Section store.
Context {M : Type} {D : DurableMap M Monitor}.

(** [create] src/src/monitors/monitor-store.ts:35-49 *)
Definition create (uuid : string) (now : Z) (i : CreateMonitorInput) (s : M) : result string Monitor * M :=
  match assertNoEscalation i.(cm_trigger) with
  | Throw e => (Throw e, s)
  | Ok _ =>
      let m := MkMonitor (buildTriggerBase i.(cm_trigger) uuid now) i.(cm_processId) i.(cm_command) i.(cm_threadRef)
                 i.(cm_instructions) i.(cm_pattern) (i.(cm_cursor) ?? 0) None i.(cm_expiresAt) None in
      (Ok m, dm_put (mo_id m) m s)
  end.
(** [enabled] src/src/monitors/monitor-store.ts:52-54 *)
Definition enabled_monitors (s : M) : list Monitor := js_filter mo_enabled (dm_all s).
(** [setEnabled] src/src/monitors/monitor-store.ts:55-57
    It is [setTriggerEnabled], src/src/triggers/trigger-store.ts:87-93. *)
Definition setEnabled (id : string) (b : bool) (s : M) : M :=
  (dm_merge id (fun m => m <| mo_base := m.(mo_base) <| enabled := b |> |>) s).2.
(** [advance] src/src/monitors/monitor-store.ts:59-65 *)
Definition advance (id : string) (cursor : Z) (tail : option string) (firedAt : option Z) (s : M) : M :=
  (dm_merge id (fun m =>
     let m := m <| mo_cursor := cursor |> <| mo_tail := tail |> in
     match firedAt with Some t => m <| mo_base := m.(mo_base) <| lastFiredAt := Some t |> |> | None => m end) s).2.
(** [update] src/src/monitors/monitor-store.ts:66-73 *)
Definition update (id : string) (instructions pattern : option string) (cursor : option Z) (s : M) : M :=
  if is_some instructions || is_some pattern || is_some cursor then
    (dm_merge id (fun m =>
       let m := match instructions with Some _ => m <| mo_instructions := instructions |> | None => m end in
       let m := match pattern with Some _ => m <| mo_pattern := pattern |> | None => m end in
       match cursor with Some c => m <| mo_cursor := c |> <| mo_tail := None |> | None => m end) s).2
  else s.
(** [recordError] src/src/monitors/monitor-store.ts:74-76 *)
Definition recordError (id error : string) (s : M) : M := (dm_merge id (fun m => m <| lastError := Some error |>) s).2.

(** ** Arming and disarming *)

(** [EXPIRY_GRACE_MS] src/src/monitors/monitor-broker.ts:26-26 *)
Definition EXPIRY_GRACE_MS : Z := 5 * 60000.

(** [MonitorBrokerDeps] src/src/monitors/monitor-broker.ts:52-61, less the stores. *)
Record Broker := MkBroker {
  br_scopeId : string;
  br_owner : string;
  br_ownerScopeId : ScopeId;
  br_threadRef : string;
  br_destination : option Destination;
  br_graceMs : option Z;
}.
(** [BackgroundWatchResult] src/src/monitors/monitor-broker.ts:5-10 *)
Record WatchResult := MkWatch { w_monitorId : string; w_processId : string; reattached : bool; w_expiresAt : Z }.

Definition status_word (s : ProcessStatus) : string :=
  match s with running => "running" | exited => "exited" | reaped => "reaped" end.

(** [watch] src/src/monitors/monitor-broker.ts:82-83 *)
Definition watches (b : Broker) (pid : string) (m : Monitor) : bool :=
  mo_enabled m && (m.(mo_processId) === pid) && (m.(mo_threadRef) === b.(br_threadRef)).

(** [watch] src/src/monitors/monitor-broker.ts:66-106 *)
Definition watch (b : Broker) (uuid : string) (now : Z) (pid : string) (instructions pattern : option string)
    (sinceCursor : option Z) (procs : Registry) (s : M) : result string WatchResult * M :=
  match get_process pid procs with
  | None => (Throw "no such background job to watch", s)
  | Some rec =>
      if (rec.(pr_scopeId) !== b.(br_scopeId)) || (rec.(pr_kind) !== "background")
      then (Throw "no such background job to watch", s)
      else if rec.(pr_status) !== running
      then (Throw ("background job already " +:+ status_word rec.(pr_status) +:+ " — nothing left to watch"), s)
      else
        match (match pattern with Some p => compileMonitorPattern p | None => Ok (fun _ => true) end) with
        | Throw e => (Throw ("invalid pattern: " +:+ e), s)
        | Ok _ =>
            match Prelude.find (watches b pid) (dm_all s) with
            | Some existing =>
                (Ok (MkWatch (mo_id existing) pid true existing.(mo_expiresAt)),
                 update (mo_id existing) instructions pattern sinceCursor s)
            | None =>
                let i := MkCreateMonitor
                           (MkTriggerInput b.(br_ownerScopeId) b.(br_owner) b.(br_owner) b.(br_destination) None None)
                           pid rec.(pr_command) b.(br_threadRef) instructions pattern sinceCursor
                           (rec.(pr_expiresAt) + (b.(br_graceMs) ?? EXPIRY_GRACE_MS)) in
                match create uuid now i s with
                | (Throw e, s) => (Throw e, s)
                | (Ok m, s) => (Ok (MkWatch (mo_id m) pid false m.(mo_expiresAt)), s)
                end
            end
        end
  end.
(** [unwatch] src/src/monitors/monitor-broker.ts:107-112 *)
Definition unwatch (b : Broker) (id : string) (s : M) : bool * M :=
  match dm_get id s with
  | Some m => if m.(mo_base).(tb_ownerScopeId) !== b.(br_ownerScopeId) then (false, s) else (true, dm_delete id s)
  | None => (false, s)
  end.
(** [list] src/src/monitors/monitor-broker.ts:113-115 *)
Definition list_watches (b : Broker) (s : M) : list Monitor :=
  js_filter (fun m => m.(mo_base).(tb_ownerScopeId) === b.(br_ownerScopeId)) (dm_all s).
End store.

(** ** What an update says *)

(** [MAX_EVENT_CHARS] src/src/monitors/monitor-poller.ts:17-17 *)
Definition MAX_EVENT_CHARS : Z := 16000.
(** [MAX_TAIL_CHARS] src/src/monitors/monitor-poller.ts:18-18 *)
Definition MAX_TAIL_CHARS : Z := 4096.
(** [DEFAULT_HEARTBEAT_MS] src/src/monitors/monitor-poller.ts:20-20 *)
Definition DEFAULT_HEARTBEAT_MS : Z := 180000.
(** [DEFAULT_MIN_FIRE_INTERVAL_MS] src/src/monitors/monitor-poller.ts:21-21 *)
Definition DEFAULT_MIN_FIRE_INTERVAL_MS : Z := 60000.

(** [MonitorEvent] src/src/monitors/monitor-poller.ts:46-51 *)
Inductive MonitorEvent := ev_output | ev_exited (code : Z) | ev_expired | ev_lost | ev_quiet (quietMins : Z).

Definition nl : ascii := "010"%char.
Definition nl_s : string := String nl "".
(** [s.slice(-n)]. *)
Definition str_last_n (n : Z) (s : string) : string := str_drop (Z.to_nat (str_len s - n)) s.

(** [filterLines] src/src/monitors/monitor-poller.ts:60-63
    The lines that match. *)
Definition matched (matches_ : string -> bool) (chunk : string) : list string :=
  js_filter (fun l => truthy l && matches_ l) (split_on nl chunk).
(** [filterLines] src/src/monitors/monitor-poller.ts:53-64 *)
Definition filterLines (chunk pattern : string) : string :=
  match compileMonitorPattern pattern with
  | Throw _ => chunk
  | Ok matches_ => join nl_s (matched matches_ chunk)
  end.

(** [describeEvent] src/src/monitors/monitor-poller.ts:66-76 *)
Definition describeEvent (ev : MonitorEvent) : string :=
  match ev with
  | ev_exited code => "It just exited with code " +:+ pretty code +:+ "."
  | ev_expired => "Your watch on it expired (the job may still be running — `background poll` it, or arm a new watch if you still need one)."
  | ev_lost => "It is no longer on your computer (likely lost to a restart) — treat it as gone."
  | ev_quiet m => "It's still running — just nothing wake-worthy in the last ~" +:+ pretty m +:+ " min. Its most recent raw output (if any) is below so you can read where it's up to."
  | ev_output => "It produced new output."
  end.
(** [replyGuidance] src/src/monitors/monitor-poller.ts:78-84 *)
Definition replyGuidance (ev : MonitorEvent) : string :=
  match ev with
  | ev_quiet _ => "This heartbeat exists so they can tell a quiet job from a stalled one: a one-line still-running note is the point, unless they asked you to stay quiet. "
  | ev_output => "If the new output is just noise they wouldn't care about, finish silently. "
  | _ => "This is the last update this watch will send, so stay quiet only if they explicitly asked for silence on this outcome. "
  end.

(** [renderEvent] src/src/monitors/monitor-poller.ts:88-88 *)
Definition cap_event (output : string) : string :=
  if str_len output >? MAX_EVENT_CHARS then "…[truncated]" +:+ nl_s +:+ str_last_n MAX_EVENT_CHARS output else output.
(** [renderEvent] src/src/monitors/monitor-poller.ts:86-101
    The text for the turn and what is screened of it. *)
Definition renderEvent (m : Monitor) (output : string) (ev : MonitorEvent) : string * string :=
  let capped := cap_event output in
  (join nl_s
    (["[background job update — automated, not a user message] You are watching background job " +:+ m.(mo_processId)
      +:+ " (`" +:+ m.(mo_command) +:+ "`) in this conversation. " +:+ describeEvent ev]
     ++ (if truthy (trim capped) then [""; "<output>"; capped; "</output>"] else [])
     ++ (if truthy_opt m.(mo_instructions)
         then [""; "When you armed this watch you said: " +:+ (m.(mo_instructions) ?? "")] else [])
     ++ [""; "Act on this. The user can't see the job, so when something changed that's worth telling them, reply with a brief update — it posts to this conversation — saying where things stand and what to expect next. "
         +:+ replyGuidance ev +:+ "Use the `background` tool (poll/stop/watch) if you need more than what's shown."]), capped).

(** ** The poller *)

Section poller.
Context {M : Type} {D : DurableMap M Monitor} {X : Type}.

(** What a tick may change: the watches, the registry of processes, and all the rest. *)
Record MWorld := MkMWorld { mons : M; procs : Registry; rest : X }.

Variable fire : TriggerSpec -> MWorld -> result string TriggerOutcome * MWorld.
(** [readProcess] of a process since a cursor. *)
Variable read : string -> Z -> result string ReadProcessResult.
(** [provision] of the machine of a scope. *)
Variable provision : string -> result string unit.
Variable heartbeatMs minFireIntervalMs maxFiresPerTick : Z.

Definition on_mons (f : M -> M) (w : MWorld) : MWorld := MkMWorld (f w.(mons)) w.(procs) w.(rest).
Definition on_procs (f : Registry -> Registry) (w : MWorld) : MWorld := MkMWorld w.(mons) (f w.(procs)) w.(rest).

(** [fire] src/src/monitors/monitor-poller.ts:119-138 *)
Definition monitor_spec (m : Monitor) (fireKey : string) (event : string * string) (withErrorNotice : bool) : TriggerSpec :=
  MkSpec m.(mo_base).(owner) m.(mo_base).(tb_ownerScopeId) event.1 (Some event.2) fireKey "monitor"
    m.(mo_base).(destination) None (Some m.(mo_threadRef)) None None None None None None None None
    (if withErrorNotice
     then Some (fun s => "⚠️ A background-job update (`" +:+ m.(mo_command) +:+ "`) could not run: " +:+ s) else None).

(** [reportLost] src/src/monitors/monitor-poller.ts:140-144 *)
Definition reportLost (m : Monitor) (w : MWorld) : result string unit * MWorld :=
  match fire (monitor_spec m ("monitor:" +:+ mo_id m +:+ ":lost") (renderEvent m (m.(mo_tail) ?? "") ev_lost) false) w with
  | (Throw e, w) => (Throw e, w)
  | (Ok o, w) =>
      let w := match o.(note) with
               | Some n => if negb o.(authzFailed) && truthy n then on_mons (recordError (mo_id m) n) w else w
               | None => w
               end in
      (Ok tt, on_mons (setEnabled (mo_id m) false) w)
  end.

(** [stillLive] src/src/monitors/monitor-poller.ts:146-149 *)
Definition stillLive (m : Monitor) (w : MWorld) : bool :=
  match dm_get (mo_id m) w.(mons) with Some f => mo_enabled f | None => false end.

(** [poll] src/src/monitors/monitor-poller.ts:178-180
    The text up to the last line feed, which it keeps, and what comes after. *)
Fixpoint split_last_nl (s : string) : option (string * string) :=
  match s with
  | "" => None
  | String c s =>
      match split_last_nl s with
      | Some (a, b) => Some (String c a, b)
      | None => if decide (c = nl) then Some (nl_s, s) else None
      end
  end.

(** [poll] src/src/monitors/monitor-poller.ts:172-182
    What there is to say and what of an unfinished line is kept for later. *)
Definition cut (pattern : option string) (raw : string) (final : bool) : string * option string :=
  match if_truthy pattern with
  | None => (raw, None)
  | Some p =>
      if final then (filterLines raw p, None)
      else match split_last_nl raw with
           | None => ("", if_truthy (Some (str_last_n MAX_TAIL_CHARS raw)))
           | Some (done_, part) => (filterLines done_ p, if_truthy (Some (str_last_n MAX_TAIL_CHARS part)))
           end
  end.

(** [Math.round(ms / 60_000)], at least one. *)
Definition quiet_minutes (ms : Z) : Z := Z.max 1 ((2 * ms + 60000) / 120000).

(** [poll] src/src/monitors/monitor-poller.ts:185-202
    Nothing to say: the heartbeat, or only the cursor. *)
Definition poll_quiet (m : Monitor) (t : Z) (raw : string) (tail : option string) (cursor : Z) (w : MWorld)
  : result string bool * MWorld :=
  let id := mo_id m in
  let quietSince := mo_lastFiredAt m ?? mo_createdAt m in
  if (heartbeatMs >? 0) && (t - quietSince >=? heartbeatMs) then
    match fire (monitor_spec m ("monitor:" +:+ id +:+ ":quiet:" +:+ pretty quietSince)
                  (renderEvent m (str_last_n MAX_TAIL_CHARS raw) (ev_quiet (quiet_minutes (t - quietSince)))) false) w with
    | (Throw e, w) => (Throw e, w)
    | (Ok o, w) =>
        if o.(authzFailed) then (Ok true, on_mons (setEnabled id false) w)
        else
          let w := match if_truthy o.(note) with Some n => on_mons (recordError id n) w | None => w end in
          (Ok true, on_mons (advance id cursor tail (Some t)) w)
    end
  else if (cursor !== m.(mo_cursor)) || (tail !== m.(mo_tail)) then (Ok false, on_mons (advance id cursor tail None) w)
  else (Ok false, w).

(** [poll] src/src/monitors/monitor-poller.ts:210-230
    Something to say. *)
Definition poll_fire (m : Monitor) (t : Z) (events : string) (tail : option string) (r : ReadProcessResult)
    (expired : bool) (w : MWorld) : result string bool * MWorld :=
  let id := mo_id m in
  let '(ev, key) :=
    match r.(rd_status) with
    | ps_exited code => (ev_exited code, "monitor:" +:+ id +:+ ":exit")
    | ps_running => if expired then (ev_expired, "monitor:" +:+ id +:+ ":expired")
                    else (ev_output, "monitor:" +:+ id +:+ ":" +:+ pretty m.(mo_cursor))
    end in
  let exited_ := has_exited r.(rd_status) in
  match fire (monitor_spec m key (renderEvent m events ev) true) w with
  | (Throw e, w) => (Throw e, w)
  | (Ok o, w) =>
      if o.(authzFailed) then (Ok true, on_mons (setEnabled id false) w)
      else
        let w := match if_truthy o.(note) with Some n => on_mons (recordError id n) w | None => w end in
        let w := if is_some (dm_get id w.(mons))
                 then let w := on_mons (advance id r.(rd_cursor) tail (Some t)) w in
                      if exited_ || expired then on_mons (setEnabled id false) w else w
                 else w in
        (Ok true, if exited_ then on_procs (fun p => (markStatus m.(mo_processId) exited p).2) w else w)
  end.

(** [poll] src/src/monitors/monitor-poller.ts:151-231 *)
Definition poll (m : Monitor) (t : Z) (w : MWorld) : result string bool * MWorld :=
  if negb (stillLive m w) then (Ok false, w)
  else match read m.(mo_processId) m.(mo_cursor) with
  | Throw e =>
      if processIsGone e
      then match reportLost m w with (Throw e, w) => (Throw e, w) | (Ok _, w) => (Ok true, w) end
      else (Ok false, on_mons (recordError (mo_id m) e) w)
  | Ok r =>
      let exited_ := has_exited r.(rd_status) in
      let expired := negb exited_ && (t >=? m.(mo_expiresAt)) in
      let raw := (m.(mo_tail) ?? "") +:+ r.(chunks) in
      let '(events, tail) := cut m.(mo_pattern) raw (exited_ || expired) in
      if negb (truthy (trim events)) && negb exited_ && negb expired
      then poll_quiet m t raw tail r.(rd_cursor) w
      else if negb exited_ && negb expired && (minFireIntervalMs >? 0)
           && match mo_lastFiredAt m with Some l => t - l <? minFireIntervalMs | None => false end
      then (Ok false, w)
      else poll_fire m t events tail r expired w
  end.

(** [pollAll] src/src/monitors/monitor-poller.ts:242-270
    The watches in turn.  [handles] are the scopes whose machine is provisioned. *)
Fixpoint poll_each (t : Z) (l : list Monitor) (handles : list string) (fires : Z) (w : MWorld)
  : result string (list string * Z) * MWorld :=
  match l with
  | [] => (Ok (handles, fires), w)
  | m :: l =>
      if fires >=? maxFiresPerTick then (Ok (handles, fires), w)
      else match get_process m.(mo_processId) w.(procs) with
      | None =>
          match reportLost m w with
          | (Throw e, w) => (Throw e, w)
          | (Ok _, w) => poll_each t l handles (fires + 1) w
          end
      | Some rec =>
          let provisioned := if includes handles rec.(pr_scopeId) then Ok tt else provision rec.(pr_scopeId) in
          match provisioned with
          | Throw e => poll_each t l handles fires (on_mons (recordError (mo_id m) e) w)
          | Ok _ =>
              let handles := if includes handles rec.(pr_scopeId) then handles else handles ++ [rec.(pr_scopeId)] in
              match poll m t w with
              | (Ok fired, w) => poll_each t l handles (if fired then fires + 1 else fires) w
              | (Throw e, w) => poll_each t l handles fires (on_mons (recordError (mo_id m) e) w)
              end
          end
      end
  end.

(** [pollAll] src/src/monitors/monitor-poller.ts:233-277
    A sandbox without process sessions has nothing to poll. *)
Definition pollAll (supported : bool) (t : Z) (w : MWorld) : result string unit * MWorld :=
  if negb supported then (Ok tt, w)
  else
    let l := js_sort (fun a b => mo_createdAt a - mo_createdAt b) (enabled_monitors w.(mons)) in
    match poll_each t l [] 0 w with (Ok _, w) => (Ok tt, w) | (Throw e, w) => (Throw e, w) end.
End poller.

(** ** Filtering a stream is filtering the whole *)

(** What successive polls of one watch say, when each reads the next of [cs] and the last is
    the end of the process; [tail] is what the watch has kept. *)
Fixpoint feed (pattern : option string) (tail : option string) (cs : list string) : list string :=
  match cs with
  | [] => []
  | [c] => [(cut pattern ((tail ?? "") +:+ c) true).1]
  | c :: cs =>
      let '(events, tail) := cut pattern ((tail ?? "") +:+ c) false in
      events :: feed pattern tail cs
  end.

(** The lines of a text that are not empty. *)
Definition lines (s : string) : list string := js_filter truthy (split_on nl s).

Lemma split_last_nl_spec s :
  match split_last_nl s with
  | Some (a, b) => exists a', a = a' +:+ nl_s /\ s = a +:+ b /\ str_every (fun d => d !== nl) b = true
  | None => str_every (fun d => d !== nl) s = true
  end.
Proof.
  induction s as [|c s IH]; [done|]. cbn [split_last_nl]. destruct (split_last_nl s) as [[a b]|].
  - destruct IH as (a' & -> & -> & Hb). by exists (String c a').
  - destruct (decide (c = nl)) as [->|Hne].
    + by exists "".
    + cbn [str_every]. rewrite IH. by replace (c !== nl) with true by (symmetry; by apply negb_true_iff, eqb_false).
Qed.

Lemma matched_app f a b : matched f (a +:+ String nl b) = matched f a ++ matched f b.
Proof. unfold matched. by rewrite split_on_last, js_filter_app. Qed.

Lemma lines_joined f s : lines (join nl_s (matched f s)) = matched f s.
Proof.
  unfold lines. destruct (matched f s) as [|x l] eqn:E; [done|]. unfold nl_s. rewrite split_join; [|done|].
  - apply js_filter_id. intros w Hw. rewrite <- E in Hw. apply elem_of_js_filter in Hw as [Hw _].
    by apply andb_true_iff in Hw as [-> _].
  - intros w Hw. rewrite <- E in Hw. apply elem_of_js_filter in Hw as [_ Hw]. by eapply split_on_parts.
Qed.

(** Lines short enough that an unfinished one is kept whole. *)
Definition short_lines (s : string) : Prop := forall w, w ∈ split_on nl s -> str_len w <= MAX_TAIL_CHARS.

Lemma short_app_r a b : short_lines (a +:+ String nl b) -> short_lines b.
Proof. intros H w Hw. apply H. rewrite split_on_last. apply elem_of_app. by right. Qed.

Lemma str_len_app a b : str_len (a +:+ b) = str_len a + str_len b.
Proof. unfold str_len. induction a as [|c a IH]; simpl; lia. Qed.

(** The first line of [a ++ b] begins with all of [a], when that has no line feed. *)
Lemma split_prefix a b :
  str_every (fun d => d !== nl) a = true ->
  exists x l, split_on nl b = x :: l /\ split_on nl (a +:+ b) = (a +:+ x) :: l.
Proof.
  destruct (split_on nl b) as [|x l] eqn:E; [by destruct (split_on_nonempty nl b)|]. intros Ha. exists x, l.
  split; [done|]. induction a as [|c a IH]; simpl in *; [done|].
  apply andb_true_iff in Ha as [Hc Ha]. to_prop. rewrite decide_False by done. by rewrite IH.
Qed.
Lemma short_prefix a b : str_every (fun d => d !== nl) a = true -> short_lines (a +:+ b) -> str_len a <= MAX_TAIL_CHARS.
Proof.
  intros Ha Hs. destruct (split_prefix a b Ha) as (x & l & _ & E).
  assert (H : str_len (a +:+ x) <= MAX_TAIL_CHARS) by (apply Hs; rewrite E; apply list_elem_of_here).
  rewrite str_len_app in H. unfold str_len in *. lia.
Qed.

Lemma str_last_all n s : str_len s <= n -> str_last_n n s = s.
Proof. intros H. unfold str_last_n. by replace (Z.to_nat (str_len s - n)) with 0%nat by lia. Qed.

Lemma tail_back s : (if_truthy (Some s) ?? "") = s.
Proof. unfold if_truthy, truthy_opt, truthy. simpl. destruct (s === "") eqn:E; [by to_prop|done]. Qed.

Lemma feed_cons p tail c cs :
  cs <> [] ->
  feed p tail (c :: cs) = (cut p ((tail ?? "") +:+ c) false).1 :: feed p (cut p ((tail ?? "") +:+ c) false).2 cs.
Proof. destruct cs; [done|]. intros _. cbn [feed]. by destruct (cut p _ false). Qed.

Lemma feed_lines p f cs : forall tail,
  truthy p = true -> compileMonitorPattern p = Ok f -> cs <> [] ->
  short_lines ((tail ?? "") +:+ fold_right String.append "" cs) ->
  concat (map lines (feed (Some p) tail cs)) = matched f ((tail ?? "") +:+ fold_right String.append "" cs).
Proof.
  induction cs as [|c cs IH]; intros tail Hp Hf Hne Hs; [done|].
  assert (Ht : if_truthy (Some p) = Some p) by (unfold if_truthy; simpl; by rewrite Hp).
  destruct cs as [|c' cs].
  - cbn [feed map concat fold_right]. unfold cut. rewrite Ht. cbn [fst]. unfold filterLines. rewrite Hf.
    rewrite app_nil_r, lines_joined, str_append_nil_r. done.
  - rewrite feed_cons by done. assert (Hne' : c' :: cs <> []) by done. revert IH Hs Hne'.
    generalize (c' :: cs). intros cs' IH Hs Hne'. unfold cut. rewrite Ht. cbn [fold_right] in *. rewrite <- str_append_assoc in *. set (raw := (tail ?? "") +:+ c) in *.
    pose proof (split_last_nl_spec raw) as Hsp. destruct (split_last_nl raw) as [[a b]|].
    + destruct Hsp as (a' & -> & Hraw & Hb).
      assert (Hwhole : raw +:+ fold_right String.append "" cs' = a' +:+ String nl (b +:+ fold_right String.append "" cs')).
      { rewrite Hraw, !str_append_assoc. done. }
      rewrite Hwhole in Hs |- *. apply short_app_r in Hs.
      rewrite (str_last_all _ b) by (by eapply short_prefix). cbn [map concat fst snd].
      rewrite (IH (if_truthy (Some b)) Hp Hf Hne'); [|by rewrite tail_back].
      rewrite tail_back, matched_app. f_equal. unfold filterLines. rewrite Hf, lines_joined.
      change nl_s with (String nl ""). rewrite matched_app. apply app_nil_r.
    + rewrite (str_last_all _ raw) by (by eapply short_prefix). cbn [map concat fst snd].
      rewrite (IH (if_truthy (Some raw)) Hp Hf Hne'); [|by rewrite tail_back]. by rewrite tail_back.
Qed.

(** The pattern of a watch sees the output as if it came in one piece.  However the
    output is cut into reads, in the middle of lines too, what the polls say, taken line by
    line and in order, are exactly the lines of the whole output that are not empty and match
    - none lost, none told twice - as long as no line is longer than what the watch keeps of
    an unfinished one. *)
Theorem pattern_stream_complete p f cs :
  compileMonitorPattern p = Ok f -> cs <> [] -> short_lines (fold_right String.append "" cs) ->
  concat (map lines (feed (Some p) None cs)) =
  js_filter (fun l => truthy l && f l) (split_on nl (fold_right String.append "" cs)).
Proof.
  intros Hf Hne Hs. apply (feed_lines p f cs None); [|done|done|done].
  unfold compileMonitorPattern in Hf. by destruct (truthy p).
Qed.

(** ** What a tick fires *)

(** A firing of the watch [m]: under its identity, for its owner, in its thread. *)
Definition of_watch (m : Monitor) (s : TriggerSpec) : Prop :=
  starts_with (sp_fireKey s) ("monitor:" +:+ mo_id m +:+ ":") = true /\ sp_owner s = owner (mo_base m) /\
  ownerScopeId s = tb_ownerScopeId (mo_base m) /\ threadRef s = Some (mo_threadRef m) /\
  sp_destination s = destination (mo_base m) /\ sp_surface s = "monitor".

Lemma of_watch_spec m key text notice :
  of_watch m (monitor_spec m ("monitor:" +:+ mo_id m +:+ ":" +:+ key) text notice).
Proof.
  split; [|done]. cbn [sp_fireKey monitor_spec]. rewrite <- !str_append_assoc. apply starts_with_app.
Qed.

Section tick.
Context {M : Type} {D : DurableMap M Monitor}.
Abbreviation TW := (@MWorld M (list TriggerSpec)).
Variable fire : TriggerSpec -> TW -> result string TriggerOutcome * TW.
Variable read : string -> Z -> result string ReadProcessResult.
Variable provision : string -> result string unit.
Variable heartbeatMs minFireIntervalMs maxFires : Z.
(** The rest of the world is the list of what was fired. *)
Hypothesis fire_logs : forall s w, rest (fire s w).2 = rest w ++ [s].

Definition fired (m : Monitor) (w w' : TW) : Prop := exists s, of_watch m s /\ rest w' = rest w ++ [s].

Lemma fire_fired m key text notice w :
  fired m w (fire (monitor_spec m ("monitor:" +:+ mo_id m +:+ ":" +:+ key) text notice) w).2.
Proof. eexists. split; [apply of_watch_spec|apply fire_logs]. Qed.

Lemma reportLost_fired m w : fired m w (reportLost fire m w).2.
Proof.
  unfold reportLost. destruct (fire_fired m "lost" (renderEvent m (mo_tail m ?? "") ev_lost) false w) as (s & Hs & Hr).
  destruct (fire _ w) as [[o|e] w1]; exists s; (split; [done|]); cbn [snd] in *; [|done].
  by destruct (note o) as [n|]; [destruct (_ && _)|].
Qed.

Lemma poll_quiet_fired m t raw tail cursor w :
  let '(res, w') := poll_quiet fire heartbeatMs m t raw tail cursor w in
  if (match res with Ok false => true | _ => false end : bool) then rest w' = rest w else fired m w w'.
Proof.
  unfold poll_quiet. set (qs := mo_lastFiredAt m ?? mo_createdAt m). destruct (_ && _).
  - match goal with |- context [fire (monitor_spec m _ ?x ?n) w] =>
      destruct (fire_fired m ("quiet:" +:+ pretty qs) x n w) as (s & Hs & Hr) end.
    change ("monitor:" +:+ mo_id m +:+ ":quiet:" +:+ pretty qs) with ("monitor:" +:+ mo_id m +:+ ":" +:+ "quiet:" +:+ pretty qs).
    destruct (fire _ w) as [[o|e] w1]; cbn [snd] in Hr.
    + destruct (authzFailed o); [by exists s|]. exists s. split; [done|]. by destruct (if_truthy (note o)).
    + by exists s.
  - by destruct (_ || _).
Qed.

Lemma poll_fire_fired m t events tail r expired w :
  let '(res, w') := poll_fire fire m t events tail r expired w in fired m w w' /\ res <> Ok false.
Proof.
  unfold poll_fire. set (ek := match rd_status r with ps_exited code => _ | ps_running => _ end).
  assert (Hek : exists k, ek.2 = "monitor:" +:+ mo_id m +:+ ":" +:+ k).
  { subst ek. destruct (rd_status r); [destruct expired|]; cbn [snd]; eexists; reflexivity. }
  destruct ek as [ev key]. cbn [snd] in Hek. destruct Hek as [k ->].
  destruct (fire_fired m k (renderEvent m events ev) true w) as (s & Hs & Hr).
  destruct (fire _ w) as [[o|e] w1]; cbn [snd] in Hr; [|split; [by exists s|done]].
  destruct (authzFailed o); [split; [by exists s|done]|]. split; [|done]. exists s. split; [done|].
  rewrite <- Hr. destruct (if_truthy (note o)); repeat case_match; done.
Qed.

Lemma poll_fired m t w :
  let '(res, w') := poll fire read heartbeatMs minFireIntervalMs m t w in
  if (match res with Ok false => true | _ => false end : bool) then rest w' = rest w else fired m w w'.
Proof.
  unfold poll. destruct (negb _); [done|]. destruct (read _ _) as [r|e].
  - destruct (cut _ _ _) as [events tail]. destruct (_ && _ && _); [apply poll_quiet_fired|].
    destruct (_ && _); [done|].
    pose proof (poll_fire_fired m t events tail r
      (negb (has_exited (rd_status r)) && (t >=? mo_expiresAt m)) w) as H.
    destruct (poll_fire _ _ _ _ _ _ _ _) as [[[]|] w']; destruct H; done.
  - destruct (processIsGone e); [|done]. pose proof (reportLost_fired m w) as H.
    by destruct (reportLost fire m w) as [[[]|] w'].
Qed.

(** What a loop over the watches [l] has fired. *)
Definition fired_in (l : list Monitor) (n : Z) (w w' : TW) : Prop :=
  exists l' specs, l' `sublist_of` l /\ Forall2 of_watch l' specs /\ rest w' = rest w ++ specs /\
    ((forall s w e, (fire s w).1 <> Throw e) -> Z.of_nat (length specs) <= Z.max 0 n).

Lemma fired_in_skip m l n w w1 w' : rest w1 = rest w -> fired_in l n w1 w' -> fired_in (m :: l) n w w'.
Proof.
  intros Hr (l' & specs & Hsub & Hall & Hw & Hb). exists l', specs. rewrite <- Hr.
  split; [by apply sublist_cons|]. done.
Qed.
Lemma fired_in_one m l n n' w w1 w' :
  fired m w w1 -> fired_in l n' w1 w' -> ((forall s w e, (fire s w).1 <> Throw e) -> 1 + Z.max 0 n' <= n) ->
  fired_in (m :: l) n w w'.
Proof.
  intros (s & Hs & Hr) (l' & specs & Hsub & Hall & Hw & Hb) Hn. exists (m :: l'), (s :: specs).
  split; [by apply sublist_skip|]. split; [by constructor|]. rewrite Hw, Hr, <- app_assoc. split; [done|].
  intros Ht. specialize (Hb Ht). specialize (Hn Ht). simpl. lia.
Qed.
Lemma fired_in_nil l n w : fired_in l n w w.
Proof. exists [], []. split; [apply sublist_nil_l|]. split; [done|]. rewrite app_nil_r. split; [done|]. simpl. lia. Qed.

Definition sure : Prop := forall s w e, (fire s w).1 <> Throw e.

Lemma reportLost_sure m w e : sure -> (reportLost fire m w).1 <> Throw e.
Proof.
  intros Hs. unfold reportLost. match goal with |- context [fire ?s w] => pose proof (Hs s w) as H end.
  destruct (fire _ w) as [[o|e'] w1]; [done|]. by destruct (H e').
Qed.
Lemma poll_sure m t w e : sure -> (poll fire read heartbeatMs minFireIntervalMs m t w).1 <> Throw e.
Proof.
  intros Hs. unfold poll. destruct (negb _); [done|]. destruct (read _ _) as [r|e0].
  - destruct (cut _ _ _) as [events tail]. destruct (_ && _ && _).
    + unfold poll_quiet. destruct (_ && _); [|by destruct (_ || _)].
      match goal with |- context [fire ?s w] => pose proof (Hs s w) as H end.
      destruct (fire _ w) as [[o|e'] w1]; [by destruct (authzFailed o)|by destruct (H e')].
    + destruct (_ && _); [done|]. unfold poll_fire. destruct (match rd_status r with ps_exited _ => _ | ps_running => _ end) as [ev key].
      match goal with |- context [fire ?s w] => pose proof (Hs s w) as H end.
      destruct (fire _ w) as [[o|e'] w1]; [by destruct (authzFailed o)|by destruct (H e')].
  - destruct (processIsGone e0); [|done]. pose proof (fun e' => reportLost_sure m w e' Hs) as H.
    destruct (reportLost fire m w) as [[[]|e'] w1]; [done|]. by destruct (H e').
Qed.

Lemma poll_each_fired t l : forall handles fires w,
  fired_in l (maxFires - fires) w
    (poll_each fire read provision heartbeatMs minFireIntervalMs maxFires t l handles fires w).2.
Proof.
  induction l as [|m l IH]; intros handles fires w; cbn [poll_each]; [apply fired_in_nil|].
  destruct (fires >=? maxFires) eqn:Ef; [apply fired_in_nil|]. rewrite Z.geb_leb in Ef. apply Z.leb_gt in Ef.
  destruct (get_process _ _) as [rec|].
  - destruct (if includes handles (pr_scopeId rec) then Ok tt else provision (pr_scopeId rec)) as [[]|e].
    + pose proof (poll_fired m t w) as Hp. pose proof (fun e => poll_sure m t w e) as Ht.
      destruct (poll _ _ _ _ m t w) as [[[]|e] w1].
      * eapply fired_in_one; [exact Hp|apply IH|]. intros _. lia.
      * by eapply fired_in_skip; [exact Hp|apply IH].
      * eapply (fired_in_one _ _ _ _ w (on_mons (recordError (mo_id m) e) w1)); [exact Hp|apply IH|].
        intros Hs. by destruct (Ht e Hs).
    + by eapply fired_in_skip; [|apply IH].
  - pose proof (reportLost_fired m w) as Hp. pose proof (fun e => reportLost_sure m w e) as Ht.
    destruct (reportLost fire m w) as [[[]|e] w1].
    + eapply fired_in_one; [exact Hp|apply IH|]. intros _. lia.
    + eapply fired_in_one; [exact Hp|apply (fired_in_nil l 0)|]. intros Hs. by destruct (Ht e Hs).
Qed.

(** What one tick of the poller fires.  The firings are of watches that were enabled, in
    the order of their creation and each at most once; each is made for the owner of the
    watch, in the thread and to the destination of the watch; and, when no firing fails, they
    are no more than the cap, whatever the processes have to say. *)
Theorem tick_fires supported t w :
  let l := js_sort (fun a b => mo_createdAt a - mo_createdAt b) (enabled_monitors (mons w)) in
  let w' := (pollAll fire read provision heartbeatMs minFireIntervalMs maxFires supported t w).2 in
  exists l' specs, l' `sublist_of` l /\ Forall2 of_watch l' specs /\ rest w' = rest w ++ specs /\
    ((forall s w e, (fire s w).1 <> Throw e) -> Z.of_nat (length specs) <= Z.max 0 maxFires).
Proof.
  intros l w'. subst w'. unfold pollAll. destruct (negb supported).
  - exists [], []. split; [apply sublist_nil_l|]. split; [done|]. split; [by rewrite app_nil_r|]. simpl. lia.
  - fold l. pose proof (poll_each_fired t l [] 0 w) as H. rewrite Z.sub_0_r in H.
    by destruct (poll_each _ _ _ _ _ _ _ _ _ _ _) as [[]].
Qed.
End tick.

(** ** What arming a watch does *)

Section arming.
Context {M : Type} {D : DurableMap M Monitor} `{!DurableMapLaws M Monitor}.

Definition keyed_monitors (s : M) : Prop := forall k m, dm_get k s = Some m -> mo_id m = k.

Lemma update_get id ins pat cur (s : M) k :
  dm_get k (update id ins pat cur s) = dm_get k s \/
  (k = id /\ exists m m', dm_get k s = Some m /\ dm_get k (update id ins pat cur s) = Some m' /\
     mo_base m' = mo_base m /\ mo_processId m' = mo_processId m /\ mo_threadRef m' = mo_threadRef m /\
     mo_expiresAt m' = mo_expiresAt m).
Proof.
  unfold update. destruct (_ || _); [|by left]. unfold dm_merge. destruct (dm_get id s) as [m|] eqn:E; [|by left].
  cbn [snd]. rewrite dm_get_put. destruct (decide (id = k)) as [<-|]; [|by left]. right. split; [done|].
  exists m. eexists. split; [done|]. split; [reflexivity|]. by destruct ins, pat, cur.
Qed.

(** Arming a watch.  It is refused, without any effect, unless the process is a running
    background process of the caller's own scope and the pattern can be compiled.  When it is
    granted the answer names an enabled watch on that process in that thread, with the expiry
    it answers; every other watch is untouched; and a new one is made only when the thread
    had none on the process, so that the same job does not wake a thread twice. *)
Theorem watch_sound b uuid now pid ins pat since pr (s : M) :
  keyed_monitors s -> dm_get uuid s = None ->
  match watch b uuid now pid ins pat since pr s with
  | (Throw _, s') => s' = s
  | (Ok r, s') =>
      (exists rec, pr !! pid = Some rec /\ pr_scopeId rec = br_scopeId b /\ pr_kind rec = "background" /\
         pr_status rec = running) /\
      (forall p, pat = Some p -> exists f, compileMonitorPattern p = Ok f) /\
      (exists m, dm_get (w_monitorId r) s' = Some m /\ watches b pid m = true /\ mo_expiresAt m = w_expiresAt r) /\
      (forall k, k <> w_monitorId r -> dm_get k s' = dm_get k s) /\
      (reattached r = true <-> exists k m, dm_get k s = Some m /\ watches b pid m = true)
  end.
Proof.
  intros Hk Hu. unfold watch, get_process. destruct (pr !! pid) as [rec|]; [|done].
  destruct (_ || _) eqn:E1; [done|]. apply orb_false_iff in E1 as [E1 E2].
  destruct (pr_status rec !== running) eqn:E3; [done|]. apply negb_false_iff in E1, E2, E3. to_prop.
  destruct (match pat with Some p => compileMonitorPattern p | None => Ok (fun _ => true) end) as [f|] eqn:Ef; [|done].
  assert (Hpat : forall p, pat = Some p -> exists f, compileMonitorPattern p = Ok f) by (intros ? ->; eauto).
  destruct (Prelude.find (watches b pid) (dm_all s) : option Monitor) as [m|] eqn:Efind.
  - apply Prelude.find_Some in Efind as [[k Hm]%elem_of_dm_all Hw]. pose proof (Hk _ _ Hm) as Hid. subst k.
    split; [eauto|]. split; [exact Hpat|]. cbn [w_monitorId w_expiresAt reattached]. split; [|split; [|by split; eauto]].
    + destruct (update_get (mo_id m) ins pat since s (mo_id m)) as [->|(_ & m0 & m' & Hm0 & -> & Hb & Hp & Ht & He)].
      * by exists m.
      * rewrite Hm in Hm0. injection Hm0 as <-. exists m'. split; [done|]. split; [|done].
        unfold watches, mo_enabled in *. by rewrite Hb, Hp, Ht.
    + intros k Hne. by destruct (update_get (mo_id m) ins pat since s k) as [|[-> _]].
  - unfold create. destruct (assertNoEscalation _) as [[]|e]; [|done].
    cbn [mo_id mo_base buildTriggerBase tb_id w_monitorId w_expiresAt reattached mo_expiresAt].
    split; [eauto|]. split; [exact Hpat|]. split; [|split].
    + eexists. split; [apply dm_get_put_eq|]. split; [|done]. unfold watches, mo_enabled. simpl. by rewrite !eqb_refl.
    + intros k Hne. by apply dm_get_put_ne.
    + split; [done|]. intros (k & m & Hm & Hw). exfalso. rewrite Prelude.find_None in Efind.
      rewrite Efind in Hw; [done|]. apply elem_of_dm_all. eauto.
Qed.
End arming.

(** ** Concrete watches *)

Abbreviation MS := (jsmap string Monitor).
Definition demo_broker : Broker := MkBroker "home" "ann@x.co" "personal:ann@x.co" "t1" None None.
Definition demo_procs : Registry :=
  (register (MkNewProcess "p1" "home" "background" "make all" 100000 None None) 0 ∅).2.
Definition demo_store : MS :=
  (watch (D := createMemoryMap) demo_broker "m1" 10 "p1" None (Some "error|^done$") None demo_procs ∅).2.

Definition mworld : Type := @MWorld MS (list TriggerSpec).
Definition demo_mworld (s : MS) : mworld := MkMWorld s demo_procs [].
Definition ran_outcome : TriggerOutcome := MkOutcome false true (Some ts_ok) None None None.
Definition logging (s : TriggerSpec) (w : mworld) : result string TriggerOutcome * mworld :=
  (Ok ran_outcome, MkMWorld w.(mons) w.(procs) (w.(rest) ++ [s])).
(** A process that has said twenty characters by now. *)
Definition twenty (pid : string) (cursor : Z) : result string ReadProcessResult :=
  Ok (MkRead (str_drop (Z.to_nat cursor) ("compiling" +:+ nl_s +:+ "an error" +:+ nl_s +:+ "x")) 20 ps_running).
Definition polled (fire : TriggerSpec -> mworld -> result string TriggerOutcome * mworld) (t : Z) (w : mworld) : mworld :=
  (pollAll (D := createMemoryMap) fire twenty (fun _ => Ok tt) DEFAULT_HEARTBEAT_MS DEFAULT_MIN_FIRE_INTERVAL_MS 20 true t w).2.

(** The matching line is told, the unfinished one is kept. *)
Example demo_poll :
  let w := polled logging 1000 (demo_mworld demo_store) in
  map sp_securityScreenData (rest w) = [Some "an error"] /\
  (mo_cursor <$> mons w !! "m1") = Some 20 /\ (mons w !! "m1" ≫= mo_tail) = Some "x".
Proof. vm_compute. by repeat split. Qed.

(** A turn that polls the job itself, to 40, and arms the watch again from there. *)
Definition rewatching (s : TriggerSpec) (w : mworld) : result string TriggerOutcome * mworld :=
  let s' := (watch (D := createMemoryMap) demo_broker "m2" 1001 "p1" None None (Some 40) w.(procs) w.(mons)).2 in
  (Ok ran_outcome, MkMWorld s' w.(procs) (w.(rest) ++ [s])).
(** The poller writes its own cursor over the one the turn asked for. *)
Example rewatch_lost :
  (forall s, (mo_cursor <$> mons (rewatching s (demo_mworld demo_store)).2 !! "m1") = Some 40) /\
  (mo_cursor <$> mons (polled rewatching 1000 (demo_mworld demo_store)) !! "m1") = Some 20.
Proof. split; [intros s|]; vm_compute; reflexivity. Qed.

(** A firing is identified by the cursor it starts from, so that a watch set back to a cursor
    it has fired from is taken for one that has been told already. *)
Example rewind_same_key :
  let w := polled logging 1000 (demo_mworld demo_store) in
  let w := on_mons (fun s => (watch (D := createMemoryMap) demo_broker "m2" 1001 "p1" None None (Some 0) demo_procs s).2) w in
  map sp_fireKey (rest (polled logging 100000 w)) = ["monitor:m1:0"; "monitor:m1:0"].
Proof. vm_compute. reflexivity. Qed.

(** A watch whose process is gone from the registry and whose firing fails ends the tick: the
    watches behind it are not read, at this tick and at every one after. *)
Definition fails_for (owner_thread : string) (s : TriggerSpec) (w : mworld) : result string TriggerOutcome * mworld :=
  if sp_fireKey s === owner_thread then (Throw "model unavailable", w) else logging s w.
Definition two_watches : mworld :=
  MkMWorld (watch (D := createMemoryMap) (MkBroker "home" "ann@x.co" "personal:ann@x.co" "t2" None None) "m2" 20 "p1" None None None
              demo_procs (watch (D := createMemoryMap) demo_broker "m1" 10 "p0" None None None
                 (<["p0" := default (MkProcess "" "" "" "" 0 0 running None None) (demo_procs !! "p1")]> demo_procs) ∅).2).2
    demo_procs [].
Example lost_watch_blocks :
  let w := polled (fails_for "monitor:m1:lost") 1000 two_watches in
  map mo_id (enabled_monitors (D := createMemoryMap) (mons two_watches)) = ["m1"; "m2"] /\ w = two_watches /\
  map threadRef (rest (polled logging 1000 two_watches)) = [Some "t1"; Some "t2"].
Proof. vm_compute. by repeat split. Qed.

Lemma pattern_stream_complete_witness :
  exists f, compileMonitorPattern "error|^done$" = Ok f /\
    concat (map lines (feed (Some "error|^done$") None ["one er"; "ror" +:+ nl_s +:+ "do"; "ne" +:+ nl_s +:+ "undone"])) =
    ["one error"; "done"] /\
    js_filter (fun l => truthy l && f l) (split_on nl ("one error" +:+ nl_s +:+ "done" +:+ nl_s +:+ "undone")) =
    ["one error"; "done"].
Proof.
  destruct (compileMonitorPattern "error|^done$") as [f|] eqn:Ef; [|vm_compute in Ef; discriminate].
  pose proof (pattern_stream_complete "error|^done$" f ["one er"; "ror" +:+ nl_s +:+ "do"; "ne" +:+ nl_s +:+ "undone"] Ef
    ltac:(discriminate)) as H.
  exists f. split; [done|]. assert (E : concat (map lines (feed (Some "error|^done$") None
    ["one er"; "ror" +:+ nl_s +:+ "do"; "ne" +:+ nl_s +:+ "undone"])) = ["one error"; "done"]) by (vm_compute; reflexivity).
  split; [exact E|]. rewrite <- E. symmetry. apply H. intros w Hw.
  assert (Hall : every (fun w => str_len w <=? MAX_TAIL_CHARS) (split_on nl (fold_right String.append ""
    ["one er"; "ror" +:+ nl_s +:+ "do"; "ne" +:+ nl_s +:+ "undone"])) = true) by (vm_compute; reflexivity).
  rewrite every_true in Hall. by apply Z.leb_le, Hall.
Defined.

Lemma tick_fires_witness :
  exists specs, rest (polled logging 1000 two_watches) = [] ++ specs /\ Z.of_nat (length specs) <= 20 /\
    specs <> [].
Proof.
  destruct (tick_fires (D := createMemoryMap) logging twenty (fun _ => Ok tt) DEFAULT_HEARTBEAT_MS
    DEFAULT_MIN_FIRE_INTERVAL_MS 20 (fun s w => eq_refl) true 1000 two_watches) as (l' & specs & _ & _ & Hr & Hb).
  exists specs. split; [exact Hr|]. split; [apply Hb; intros; discriminate|].
  intros ->. assert (E : length (rest (polled logging 1000 two_watches)) = 2%nat) by (vm_compute; reflexivity).
  unfold polled in E. rewrite Hr in E. discriminate E.
Defined.

Lemma watch_sound_witness :
  exists r s', watch (D := createMemoryMap) demo_broker "m2" 50 "p1" None None None demo_procs demo_store = (Ok r, s') /\
    reattached r = true /\ w_monitorId r = "m1".
Proof.
  assert (Hk : keyed_monitors (D := createMemoryMap) demo_store).
  { intros k m Hm. change (demo_store !! k = Some m) in Hm.
    assert (Hall : every (fun e => mo_id e.2 === e.1) (entries demo_store) = true) by (vm_compute; reflexivity).
    pose proof (proj1 (every_true _ _) Hall (k, m) (proj2 (elem_of_entries _ _ _) Hm)) as H. simpl in H. by to_prop. }
  pose proof (watch_sound (D := createMemoryMap) demo_broker "m2" 50 "p1" None None None demo_procs demo_store Hk
    ltac:(vm_compute; reflexivity)) as H.
  destruct (watch _ _ _ _ _ _ _ _ _) as [[r|e] s'] eqn:Ew; [|exfalso; vm_compute in Ew; discriminate Ew].
  exists r, s'. split; [done|]. destruct H as (_ & _ & _ & _ & Hre). split.
  - apply Hre. destruct (demo_store !! "m1") as [m|] eqn:Em; [|vm_compute in Em; discriminate].
    exists "m1", m. split; [exact Em|]. vm_compute in Em. injection Em as <-. vm_compute. reflexivity.
  - vm_compute in Ew. injection Ew as <- _. reflexivity.
Defined.
