(* ===== verification/Tape.v ===== *)
(** * The tape: what a session is to the model

    The tape of a session is its log of messages, context events and annotations
    ([Sessions.appendTape]).  This file models what [src/src/harness/tape-fold.ts] makes of it:
    the part an audience may see, the fold of the rows into the messages a model is given
    (with compactions, imports and interruptions), the point of view of one persona of a room,
    the check of a fold and its repair, and putting images back within a budget of bytes.
    Messages are JSON values whose fields are looked at only as far as the source does. *)

From stdpp Require Import pretty.
From S2P Require Import Prelude JsString Json Scope Sessions.

#[local] Open Scope Z_scope.

(** A JSON value as a condition; a number other than zero, and every object, is true. *)
Definition truthy_json (v : Json) : bool :=
  match v with
  | JNull => false | JBool b => b | JNum n => n !== 0 | JStr s => truthy s | JArr _ | JObj _ => true
  end.
Definition role_of (m : Json) : option Json := field "role" m.
Definition has_role (m : Json) (r : string) : bool := is_text (role_of m) r.
(** [Array.isArray(msg.content)] and the blocks. *)
Definition content_of (m : Json) : option (list Json) := field "content" m ≫= as_array.

(** [INTERRUPTED_TOOL_RESULT] src/src/harness/context-compaction.ts:21-22 *)
Definition INTERRUPTED_TOOL_RESULT : string :=
  "[interrupted — the platform restarted while this tool call was running and its outcome was not recorded. Check what actually happened before redoing anything with side effects.]".

(** A tool result that stands for one that is not there:
    src/src/harness/tape-fold.ts:26-33 and src/src/harness/tape-fold.ts:198-205 *)
Definition stub_result (callId : string) (toolName : Json) (at_ : Z) : Json :=
  JObj [("role", JStr "toolResult"); ("toolCallId", JStr callId); ("toolName", toolName);
        ("content", JArr [JObj [("type", JStr "text"); ("text", JStr INTERRUPTED_TOOL_RESULT)]]);
        ("isError", JBool true); ("timestamp", JNum at_)].

(** ** Rows *)

Definition t_payload_of (r : TapeRecord) : Json := r.(tp_rec).(t_payload).
Definition t_kind_of (r : TapeRecord) : TapeKind := r.(tp_rec).(t_kind).
Definition t_label (r : TapeRecord) : string := r.(tp_rec).(t_scopeLabel).
(** [{ ...r, payload }]. *)
Definition with_payload (r : TapeRecord) (p : Json) : TapeRecord :=
  let n := r.(tp_rec) in
  MkTape (MkNewTape n.(t_kind) p n.(t_scopeLabel) n.(t_harness) n.(t_meta) n.(t_entrySeq) n.(t_coversEntrySeq))
    r.(tp_sessionId) r.(tp_seq) r.(tp_createdAt).

(** [TapeEvent] src/src/harness/tape-fold.ts:147-162
    What an event carries is read from the payload of its row. *)
Inductive TapeEvent := e_compaction | e_legacy_import | e_legacy_patch | e_interrupt.
#[export] Instance TapeEvent_eq_dec : EqDecision TapeEvent.
Proof. solve_decision. Defined.

(** [contextEvent] src/src/harness/tape-fold.ts:164-176 *)
Definition contextEvent (r : TapeRecord) : option TapeEvent :=
  if negb (t_kind_of r === context_event) then None
  else
    let e := field "event" (t_payload_of r) in
    if is_text e "compaction" then Some e_compaction
    else if is_text e "legacy_import" then Some e_legacy_import
    else if is_text e "legacy_patch" then Some e_legacy_patch
    else if is_text e "interrupt" then Some e_interrupt
    else None.

(** ** What an audience may see *)

Section audience.
Variable audience : list Principal.
Variable sessionScopeId orgScopeId : ScopeId.

Definition entitled (scope : ScopeId) : bool :=
  every (fun p => principalEntitledToScope p scope sessionScopeId orgScopeId) audience.

(** [filterTapeForAudience] src/src/harness/tape-fold.ts:14-36
    One row. *)
Definition filter_row (r : TapeRecord) : list TapeRecord :=
  if (t_kind_of r !== message) || entitled (t_label r) then [r]
  else
    let msg := t_payload_of r in
    match str_field "toolCallId" msg with
    | Some cid =>
        if has_role msg "toolResult"
        then [with_payload r (stub_result cid (JStr (str_field "toolName" msg ?? "tool")) r.(tp_createdAt))]
        else []
    | None => []
    end.
(** [filterTapeForAudience] src/src/harness/tape-fold.ts:6-38 *)
Definition filterTapeForAudience (rows : list TapeRecord) : list TapeRecord :=
  match audience with [] => [] | _ => concat (map filter_row rows) end.

(** [scopes] of an import or a patch, src/src/harness/tape-fold.ts:60-63 *)
Definition scopes_entitled (p : Json) : bool :=
  match field "scopes" p ≫= as_array with
  | Some l => every (fun s => match s with JStr s => entitled s | _ => false end) l
  | None => false
  end.
(** [tapeEventsEntitled] src/src/harness/tape-fold.ts:55-65 *)
Definition event_entitled (r : TapeRecord) : bool :=
  match contextEvent r with
  | None | Some e_interrupt => true
  | Some e => if negb (entitled (t_label r)) then false
              else match e with e_legacy_import | e_legacy_patch => scopes_entitled (t_payload_of r) | _ => true end
  end.
Definition is_import (r : TapeRecord) : bool := contextEvent r === Some e_legacy_import.
(** The rows from the last import on; all of them when there is none.  The others count for
    nothing to [tapeEventsEntitled]. *)
Fixpoint from_last_import (rows : list TapeRecord) : list TapeRecord :=
  match rows with
  | [] => []
  | r :: rest => if some is_import rest then from_last_import rest else r :: rest
  end.
(** [tapeEventsEntitled] src/src/harness/tape-fold.ts:45-66 *)
Definition tapeEventsEntitled (rows : list TapeRecord) : bool :=
  match audience with
  | [] => false
  | _ => every event_entitled (from_last_import rows)
  end.
End audience.

(** [lastImportLacksScopes] src/src/harness/tape-fold.ts:40-43 *)
Definition lastImportLacksScopes (rows : list TapeRecord) : bool :=
  match find_last is_import rows with
  | Some r => negb (is_some (field "scopes" (t_payload_of r) ≫= as_array))
  | None => false
  end.

(** ** The fold *)

Section fold.
(** [JSON.stringify] and [String] of a value that is no string. *)
Variable stringify js_string : option Json -> string.

(** [Foldable] src/src/harness/tape-fold.ts:178-178 *)
Record Foldable := MkFold { out : list Json; boundaries : list (nat * Z) }.

(** [healDanglingCalls] src/src/harness/tape-fold.ts:181-185 *)
Definition answer_of (m : Json) : list string :=
  if has_role m "toolResult" then match str_field "toolCallId" m with Some c => [c] | None => [] end else [].
(** The tool calls of an assistant message: identifiers and names. *)
Definition call_of (b : Json) : list (string * Json) :=
  if is_text (field "type" b) "toolCall"
  then match str_field "id" b with
       | Some c => [(c, match field "name" b with None | Some JNull => JStr "tool" | Some n => n end)]
       | None => []
       end
  else [].
Definition calls_of (m : Json) : list (string * Json) :=
  if has_role m "assistant" then concat (map call_of (content_of m ?? [])) else [].

(** [healDanglingCalls] src/src/harness/tape-fold.ts:186-196 *)
Definition missing_calls (l : list Json) : list (string * Json) :=
  let answered := concat (map answer_of l) in
  js_filter (fun c => negb (includes answered c.1)) (concat (map calls_of l)).
(** [healDanglingCalls] src/src/harness/tape-fold.ts:180-207 *)
Definition healDanglingCalls (l : list Json) (at_ : Z) : list Json :=
  l ++ map (fun c => stub_result c.1 c.2 at_) (missing_calls l).

(** The summary that stands for what was compacted, src/src/harness/tape-fold.ts:234-238 *)
Definition summary_message (text : string) (at_ : Z) : Json :=
  JObj [("role", JStr "user");
        ("content", JArr [JObj [("type", JStr "text"); ("text", JStr ("[Earlier conversation summary]" +:+ String "010"%char "" +:+ text))]]);
        ("timestamp", JNum at_)].

(** [foldTape] src/src/harness/tape-fold.ts:226-244
    A compaction: what the covered entries had put there gives way to the summary. *)
Definition fold_compaction (text : string) (covers : option Z) (at_ : Z) (f : Foldable) : Foldable :=
  let cut := match covers with
             | Some c => find_last (fun b : nat * Z => b.2 <=? c) f.(boundaries)
             | None => None
             end in
  match cut with
  | Some (pos, _) =>
      MkFold (summary_message text at_ :: drop pos f.(out))
        (map (fun b => (b.1 - pos + 1, b.2)%nat) (js_filter (fun b => (pos <=? b.1)%nat) f.(boundaries)))
  | None => MkFold (summary_message text at_ :: f.(out)) (map (fun b => (b.1 + 1, b.2)%nat) f.(boundaries))
  end.

Definition messages_of (p : Json) : list Json := (field "messages" p ≫= as_array) ?? [].
Definition boundary (covers : option Z) (pos : nat) : list (nat * Z) :=
  match covers with Some c => [(pos, c)] | None => [] end.

(** [foldTape] src/src/harness/tape-fold.ts:211-251
    One row. *)
Definition fold_row (f : Foldable) (row : TapeRecord) : Foldable :=
  let p := t_payload_of row in
  let covers := row.(tp_rec).(t_coversEntrySeq) in
  match t_kind_of row with
  | annotation =>
      if is_true_ (field "turnEnd" p)
      then MkFold f.(out) (f.(boundaries) ++ boundary row.(tp_rec).(t_entrySeq) (length f.(out)))
      else f
  | _ =>
      match contextEvent row with
      | Some e_legacy_import => let l := messages_of p in MkFold l (boundary covers (length l))
      | Some e_legacy_patch =>
          let l := f.(out) ++ messages_of p in MkFold l (f.(boundaries) ++ boundary covers (length l))
      | Some e_compaction =>
          fold_compaction (match field "text" p with Some (JStr t) => t | v => js_string v end) covers row.(tp_createdAt) f
      | Some e_interrupt => MkFold (healDanglingCalls f.(out) row.(tp_createdAt)) f.(boundaries)
      | None => if (t_kind_of row === message) && negb (match p with JNull => true | _ => false end)
                then MkFold (f.(out) ++ [p]) f.(boundaries) else f
      end
  end.
(** [foldTape] src/src/harness/tape-fold.ts:209-253 *)
Definition foldTape (rows : list TapeRecord) : list Json := (fold_left fold_row rows (MkFold [] [])).(out).

(** ** One persona's point of view *)

(** [UNATTRIBUTED_AUTHOR] src/src/harness/tape-fold.ts:262-262 *)
Definition UNATTRIBUTED_AUTHOR : string := "Assistant".

Definition author_of (r : TapeRecord) : option string := r.(tp_rec).(t_meta) ≫= str_field "author".
Definition text_of (b : Json) : list string :=
  if is_text (field "type" b) "text" then match str_field "text" b with Some t => [t] | None => [] end else [].
Definition is_call (b : Json) : bool := is_text (field "type" b) "toolCall".
(** [rewriteRowsForPersona] src/src/harness/tape-fold.ts:293-314
    A message of somebody else as what the persona was told. *)
Definition told (r : TapeRecord) : TapeRecord :=
  let msg := t_payload_of r in
  let author := author_of r ?? UNATTRIBUTED_AUTHOR in
  let blocks := content_of msg ?? [] in
  let nl := String "010"%char "" in
  let text := "[" +:+ author +:+ "]: " +:+ join nl (concat (map text_of blocks))
              +:+ (if some is_call blocks then nl +:+ "[" +:+ author +:+ " used tools]" else "") in
  with_payload r (JObj ([("role", JStr "user"); ("content", JArr [JObj [("type", JStr "text"); ("text", JStr text)]])]
    ++ match field "timestamp" msg with Some (JNum t) => [("timestamp", JNum t)] | _ => [] end)).

(** [rewriteRowsForPersona] src/src/harness/tape-fold.ts:275-317
    [dropped] are the calls whose results are not shown. *)
Fixpoint rewrite_rows (persona : string) (dropped : list string) (rows : list TapeRecord) : list TapeRecord :=
  match rows with
  | [] => []
  | row :: rest =>
      let msg := t_payload_of row in
      if (t_kind_of row !== message) || (match msg with JNull => true | _ => false end)
      then row :: rewrite_rows persona dropped rest
      else if has_role msg "toolResult" then
        if match str_field "toolCallId" msg with Some c => includes dropped c | None => false end
        then rewrite_rows persona dropped rest
        else row :: rewrite_rows persona dropped rest
      else if negb (has_role msg "assistant") || (author_of row === Some persona)
      then row :: rewrite_rows persona dropped rest
      else told row :: rewrite_rows persona (dropped ++ map fst (calls_of msg)) rest
  end.
(** [foldTapeForPersona] src/src/harness/tape-fold.ts:323-325
    A persona is known by its name here. *)
Definition foldTapeForPersona (rows : list TapeRecord) (persona : option string) : list Json :=
  foldTape (match persona with Some p => rewrite_rows p [] rows | None => rows end).

(** ** Checking a fold, and repairing it *)

(** The variables of [lintFold]; a set of identifiers is a list without repetition. *)
Record Lint := MkLint { problems : list string; openCalls : list string; seenCallIds : list string }.

Definition problem (i : nat) (what : string) : string := "#" +:+ pretty (Z.of_nat i) +:+ ": " +:+ what.
Definition set_add (x : string) (l : list string) : list string := if includes l x then l else l ++ [x].

(** [lintFold] src/src/harness/tape-fold.ts:370-377 *)
Definition image_problems (i : nat) (blocks : list Json) : list string :=
  concat (map (fun b => if is_text (field "type" b) "image" && negb (is_some (str_field "data" b))
                        then [problem i "image block without bytes"] else []) blocks).
(** [lintFold] src/src/harness/tape-fold.ts:378-386 *)
Definition lint_call (i : nat) (s : Lint) (c : string) : Lint :=
  MkLint (if includes s.(seenCallIds) c then s.(problems) ++ [problem i ("duplicate tool call id " +:+ c)] else s.(problems))
    (set_add c s.(openCalls)) (set_add c s.(seenCallIds)).
(** [lintFold] src/src/harness/tape-fold.ts:364-395
    One message. *)
Definition lint_message (s : Lint) (im : nat * Json) : Lint :=
  let '(i, m) := im in
  if negb (has_role m "user" || has_role m "assistant" || has_role m "toolResult")
  then MkLint (s.(problems) ++ [problem i ("unknown role " +:+ stringify (role_of m))]) s.(openCalls) s.(seenCallIds)
  else
    let s := MkLint (s.(problems) ++ image_problems i (content_of m ?? [])) s.(openCalls) s.(seenCallIds) in
    if has_role m "assistant" && is_some (content_of m) then fold_left (lint_call i) (map fst (calls_of m)) s
    else if has_role m "toolResult" then
      let cid := str_field "toolCallId" m in
      match cid with
      | Some c =>
          if includes s.(openCalls) c
          then MkLint s.(problems) (js_filter (fun x => x !== c) s.(openCalls)) s.(seenCallIds)
          else MkLint (s.(problems) ++ [problem i ("toolResult without a preceding open call (" +:+ c +:+ ")")]) s.(openCalls) s.(seenCallIds)
      | None => MkLint (s.(problems) ++ [problem i ("toolResult without a preceding open call ("
                  +:+ js_string (field "toolCallId" m) +:+ ")")]) s.(openCalls) s.(seenCallIds)
      end
    else if has_role m "user" && negb (length s.(openCalls) =? 0)%nat then
      MkLint (s.(problems) ++ [problem i ("user message while " +:+ pretty (Z.of_nat (length s.(openCalls))) +:+ " tool call(s) await results")])
        [] s.(seenCallIds)
    else s.
(** [lintFold] src/src/harness/tape-fold.ts:361-363 *)
Definition first_problem (messages : list Json) : list string :=
  match messages with
  | m :: _ => if truthy_json m && negb (has_role m "user")
              then ["#0: first message must be user-role, got " +:+ stringify (role_of m)] else []
  | [] => []
  end.
(** [lintFold] src/src/harness/tape-fold.ts:357-398
    The problems; the fold is fine when there is none. *)
Definition lintFold (messages : list Json) : list string :=
  let s := fold_left lint_message (imap pair messages) (MkLint (first_problem messages) [] []) in
  s.(problems) ++ (if (length s.(openCalls) =? 0)%nat then []
                   else ["end: " +:+ pretty (Z.of_nat (length s.(openCalls))) +:+ " dangling tool call(s)"]).
Definition lint_ok (messages : list Json) : bool := (length (lintFold messages) =? 0)%nat.

(** [tapeNeedsInterruptHeal] src/src/harness/tape-fold.ts:341-344 *)
Definition needsInterruptHeal (folded : list Json) : bool :=
  let ps := lintFold folded in negb (length ps =? 0)%nat && every (fun p => starts_with p "end:") ps.
Definition tapeNeedsInterruptHeal (rows : list TapeRecord) (folded : option (list Json)) : bool :=
  needsInterruptHeal (folded ?? foldTape rows).
(** [healFoldInterrupt] src/src/harness/tape-fold.ts:346-350 *)
Definition healFoldInterrupt (messages : list Json) (at_ : Z) : list Json := healDanglingCalls messages at_.

(** [planTapeSeed] src/src/harness/tape-fold.ts:327-332 *)
Inductive SeedMode := sm_shadow | sm_serve.
#[export] Instance SeedMode_eq_dec : EqDecision SeedMode.
Proof. solve_decision. Defined.
Record SeedPlan := MkSeedPlan { seed : option (list Json); foreign_harness : bool; sp_lint : option (list string); sp_fold : option (list Json) }.
(** [planTapeSeed] src/src/harness/tape-fold.ts:327-339 *)
Definition planTapeSeed (rows : list TapeRecord) (harness : string) (mode : option SeedMode) (folded : option (list Json)) : SeedPlan :=
  if some (fun r => (t_kind_of r === message)
                    && match r.(tp_rec).(t_harness) with Some h => h !== harness | None => false end) rows
  then MkSeedPlan None true None None
  else
    let fold := folded ?? foldTape rows in
    let lint := lintFold fold in
    MkSeedPlan (if (mode === Some sm_serve) && (length lint =? 0)%nat && negb (length fold =? 0)%nat then Some fold else None)
      false (Some lint) (Some fold).
End fold.

(** ** Putting images back *)

(** [ELIDED_IMAGE_TEXT] src/src/harness/tape-fold.ts:74-75 *)
Definition ELIDED_IMAGE_TEXT : string :=
  "[image removed: this conversation's images no longer fit the model's request-size limit; ask for it to be re-shared if needed]".
Definition elided : Json := JObj [("type", JStr "text"); ("text", JStr ELIDED_IMAGE_TEXT)].

(** What [load] answers, src/src/harness/tape-fold.ts:68-72 and src/src/harness/tape-fold.ts:79-79 *)
Inductive Loaded := ld_image (data mimeType : string) (sizeBytes : Z) | ld_over_budget | ld_none.

(** [rehydrateFoldImages] src/src/harness/tape-fold.ts:82-94 *)
Definition bare_image (b : Json) : bool := is_text (field "type" b) "image" && negb (is_some (str_field "data" b)).
Definition isStripped (b : Json) : bool := bare_image b && is_some (str_field "artifactRef" b).
Definition isOmitted (b : Json) : bool :=
  bare_image b && negb (is_some (str_field "artifactRef" b)) && is_true_ (field "omitted" b).

(** [rehydrateFoldImages] src/src/harness/tape-fold.ts:95-104
    The blocks of a kind with their places: message and block. *)
Definition blocks_where (p : Json -> bool) (messages : list Json) : list ((nat * nat) * Json) :=
  concat (imap (fun i m => concat (imap (fun j b => if p b then [((i, j), b)] else []) (content_of m ?? []))) messages).

Record Rehydration := MkRehydration {
  remainingBytes : Z;
  cached : list (string * Loaded);
  replacements : list ((nat * nat) * Json);
}.

(** [rehydrateFoldImages] src/src/harness/tape-fold.ts:127-128 *)
Definition with_data (b : Json) (data mime : string) : Json :=
  match b with
  | JObj fs => JObj (assoc_set "mimeType" (JStr mime) (assoc_set "data" (JStr data)
                 (assoc_delete "omitted" (assoc_delete "artifactRef" fs))))
  | _ => b
  end.

Section images.
Variable load : string -> Z -> Loaded.

(** [rehydrateFoldImages] src/src/harness/tape-fold.ts:109-132
    One image, from the last to the first. *)
Definition rehydrate_one (s : Rehydration) (c : (nat * nat) * Json) : Rehydration :=
  let '(pos, b) := c in
  let ref := str_field "artifactRef" b ?? "" in
  let spent := s.(remainingBytes) <=? 0 in
  let '(loaded, cache) :=
    if spent then (ld_none, s.(cached))
    else match assoc_get ref s.(cached) with
         | Some l => (l, s.(cached))
         | None => let l := load ref s.(remainingBytes) in (l, assoc_set ref l s.(cached))
         end in
  let elide := MkRehydration s.(remainingBytes) cache ((pos, elided) :: s.(replacements)) in
  let leave := MkRehydration s.(remainingBytes) cache s.(replacements) in
  match loaded with
  | ld_image data mime size =>
      if (size >? 0) && (size <=? s.(remainingBytes)) && is_text (field "mimeType" b) mime
      then MkRehydration (s.(remainingBytes) - size) cache ((pos, with_data b data mime) :: s.(replacements))
      else if spent || (size >? s.(remainingBytes)) then elide else leave
  | ld_over_budget => elide
  | ld_none => if spent then elide else leave
  end.

Definition replaced (repl : list ((nat * nat) * Json)) (i : nat) (m : Json) : Json :=
  match m, content_of m with
  | JObj fs, Some blocks =>
      if some (fun j => is_some (assoc_get (i, j) repl)) (seq 0 (length blocks))
      then JObj (assoc_set "content" (JArr (imap (fun j b => assoc_get (i, j) repl ?? b) blocks)) fs)
      else m
  | _, _ => m
  end.

(** What is put in the place of which block, src/src/harness/tape-fold.ts:95-132 *)
Definition plan_images (messages : list Json) (maxBytes : Z) : Rehydration :=
  fold_left rehydrate_one (rev (blocks_where isStripped messages))
    (MkRehydration maxBytes [] (map (fun c => (c.1, elided)) (blocks_where isOmitted messages))).
(** [rehydrateFoldImages] src/src/harness/tape-fold.ts:77-145 *)
Definition rehydrateFoldImages (messages : list Json) (maxBytes : Z) : list Json :=
  imap (replaced (plan_images messages maxBytes).(replacements)) messages.
End images.

(** ** Repairing an interrupted fold *)

Section heal.
Variable stringify js_string : option Json -> string.
Abbreviation lint_message := (lint_message stringify js_string).

(** The calls made and answered in a list of messages, in order. *)
Definition ids (l : list Json) : list string := concat (map (fun m => map fst (calls_of m)) l).
Definition answers (l : list Json) : list string := concat (map answer_of l).

Lemma problem_not_end i w : starts_with (problem i w) "end:" = false.
Proof. done. Qed.

(** While there was no problem, the set of open calls is what was called and not answered. *)
Definition clean (l : list Json) (s : Lint) : Prop :=
  problems s = [] /\ seenCallIds s = ids l /\ NoDup (ids l) /\ (forall c, c ∈ answers l -> c ∈ ids l) /\
  openCalls s = js_filter (fun c => negb (includes (answers l) c)) (ids l).

Lemma ids_snoc l m : ids (l ++ [m]) = ids l ++ map fst (calls_of m).
Proof. unfold ids. rewrite map_app, concat_app. cbn [map concat]. by rewrite app_nil_r. Qed.
Lemma answers_snoc l m : answers (l ++ [m]) = answers l ++ answer_of m.
Proof. unfold answers. rewrite map_app, concat_app. cbn [map concat]. by rewrite app_nil_r. Qed.

Lemma lint_calls_grow i cs : forall s, exists ps, problems (fold_left (lint_call i) cs s) = problems s ++ ps.
Proof.
  induction cs as [|c cs IH]; intros s; cbn [fold_left]; [exists []; by rewrite app_nil_r|].
  destruct (IH (lint_call i s c)) as [ps ->]. unfold lint_call at 1. cbn [problems].
  destruct (includes _ c); [rewrite <- app_assoc|]; eauto.
Qed.

(** Every problem of a message is one of its kind; none is about the end. *)
Lemma lint_call_kind i cs : forall s,
  (forall p, p ∈ problems s -> starts_with p "end:" = false) ->
  forall p, p ∈ problems (fold_left (lint_call i) cs s) -> starts_with p "end:" = false.
Proof.
  induction cs as [|c cs IH]; intros s Hs; cbn [fold_left]; [done|]. apply IH. unfold lint_call. cbn [problems].
  destruct (includes _ c); [|done]. by intros p [?| ->%list_elem_of_singleton]%elem_of_app; [apply Hs|].
Qed.

Lemma lint_message_kind s im :
  (forall p, p ∈ problems s -> starts_with p "end:" = false) ->
  forall p, p ∈ problems (lint_message s im) -> starts_with p "end:" = false.
Proof.
  intros Hs. destruct im as [i m]. unfold Tape.lint_message. destruct (negb _).
  { by intros p [?| ->%list_elem_of_singleton]%elem_of_app; [apply Hs|]. }
  set (s1 := MkLint (problems s ++ _) _ _).
  assert (H1 : forall p, p ∈ problems s1 -> starts_with p "end:" = false).
  { subst s1. cbn [problems]. intros p [?|Hp]%elem_of_app; [by apply Hs|]. unfold image_problems in Hp.
    apply list_elem_of_In, in_concat in Hp as (x & Hx & Hp). apply in_map_iff in Hx as (b & <- & _).
    destruct (_ && _); [|done]. by destruct Hp as [<-|]. }
  destruct (_ && _); [by apply lint_call_kind|]. destruct (has_role m "toolResult").
  - destruct (str_field _ m) as [c|].
    + destruct (includes _ c); [done|]. by intros p [?| ->%list_elem_of_singleton]%elem_of_app; [apply H1|].
    + by intros p [?| ->%list_elem_of_singleton]%elem_of_app; [apply H1|].
  - destruct (_ && _); [|done]. by intros p [?| ->%list_elem_of_singleton]%elem_of_app; [apply H1|].
Qed.

(** Problems are only ever added. *)
Lemma lint_message_grow s im : exists ps, problems (lint_message s im) = problems s ++ ps.
Proof.
  destruct im as [i m]. unfold Tape.lint_message. destruct (negb _); [by eexists|].
  set (s1 := MkLint (problems s ++ _) _ _). assert (H1 : exists ps, problems s1 = problems s ++ ps) by (by eexists).
  destruct H1 as [ps1 H1]. rewrite <- (app_nil_r (problems s1)) in H1.
  destruct (_ && _).
  { destruct (lint_calls_grow i (map fst (calls_of m)) s1) as [ps ->]. rewrite app_nil_r in H1. rewrite H1.
    rewrite <- app_assoc. eauto. }
  rewrite app_nil_r in H1.
  destruct (has_role m "toolResult"); [destruct (str_field _ m) as [c|]; [destruct (includes _ c)|]|destruct (_ && _)].
  all: cbn [problems]; rewrite H1; try rewrite <- app_assoc; eauto.
Qed.

Lemma lint_messages_grow l : forall s, exists ps, problems (fold_left lint_message l s) = problems s ++ ps.
Proof.
  induction l as [|im l IH]; intros s; cbn [fold_left]; [exists []; by rewrite app_nil_r|].
  destruct (IH (lint_message s im)) as [ps ->]. destruct (lint_message_grow s im) as [ps' ->].
  rewrite <- app_assoc. eauto.
Qed.

(** Calls that raise no problem are new, and are added. *)
Lemma lint_calls_clean i cs : forall s,
  problems s = [] -> problems (fold_left (lint_call i) cs s) = [] -> NoDup (seenCallIds s) ->
  (forall c, c ∈ openCalls s -> c ∈ seenCallIds s) ->
  fold_left (lint_call i) cs s = MkLint [] (openCalls s ++ cs) (seenCallIds s ++ cs) /\ NoDup (seenCallIds s ++ cs).
Proof.
  induction cs as [|c cs IH]; intros s H0 Hp Hnd Hsub; cbn [fold_left] in *.
  - rewrite !app_nil_r. split; [|done]. destruct s. simpl in *. by subst.
  - assert (Ei : includes (seenCallIds s) c = false).
    { destruct (includes (seenCallIds s) c) eqn:Ei; [|done]. exfalso.
      destruct (lint_calls_grow i cs (lint_call i s c)) as [ps Hg]. rewrite Hg in Hp.
      apply app_eq_nil in Hp as [Hp _]. unfold lint_call in Hp. rewrite Ei in Hp. cbn [problems] in Hp.
      by destruct (problems s). }
    assert (Hoc : includes (openCalls s) c = false).
    { apply includes_false. intros Hin. apply includes_false in Ei. by apply Ei, Hsub. }
    assert (Es : lint_call i s c = MkLint [] (openCalls s ++ [c]) (seenCallIds s ++ [c])).
    { unfold lint_call, set_add. by rewrite Hoc, Ei, H0. }
    rewrite Es in Hp |- *. apply includes_false in Ei.
    destruct (IH (MkLint [] (openCalls s ++ [c]) (seenCallIds s ++ [c]))) as [-> Hnd']; [done|done| | |].
    + cbn [seenCallIds]. apply NoDup_app. split; [done|]. split; [|apply NoDup_singleton].
      by intros x Hx ->%list_elem_of_singleton.
    + cbn [seenCallIds openCalls]. intros x [Hx|Hx]%elem_of_app; apply elem_of_app; [left; by apply Hsub|by right].
    + cbn [seenCallIds openCalls] in *. rewrite <- !app_assoc in *. done.
Qed.

Lemma has_role_excl m r r' : has_role m r = true -> r <> r' -> has_role m r' = false.
Proof.
  unfold has_role, is_text. destruct (role_of m) as [[]|]; try done. rewrite !eqb_true, eqb_false. congruence.
Qed.

Lemma filter_answered (l : list string) (c : string) : forall xs : list string,
  js_filter (fun x => negb (includes (l ++ [c]) x)) xs = js_filter (fun x => x !== c) (js_filter (fun x => negb (includes l x)) xs).
Proof.
  induction xs as [|x xs IH]; [done|]. cbn [js_filter].
  destruct (includes (l ++ [c]) x) eqn:E1, (includes l x) eqn:E2; cbn [negb js_filter].
  - done.
  - apply includes_true in E1. apply includes_false in E2.
    apply elem_of_app in E1 as [?| ->%list_elem_of_singleton]; [done|]. by rewrite eqb_refl.
  - apply includes_false in E1. apply includes_true in E2. destruct E1. apply elem_of_app. by left.
  - apply includes_false in E1. destruct (x === c) eqn:Ec; [|cbn [negb]; by rewrite IH].
    to_prop. subst. destruct E1. apply elem_of_app. right. apply list_elem_of_here.
Qed.

Lemma clean_step l s i m :
  clean l s -> problems (lint_message s (i, m)) = [] -> clean (l ++ [m]) (lint_message s (i, m)).
Proof.
  intros (Hp & Hs & Hnd & Hsub & Ho) H. unfold Tape.lint_message in *.
  destruct (negb (has_role m "user" || has_role m "assistant" || has_role m "toolResult")) eqn:Er.
  { by destruct (problems s). }
  rewrite Hp in *. cbn [app] in *. set (im := image_problems i _) in *.
  destruct (has_role m "assistant" && is_some (content_of m)) eqn:Ea.
  - apply andb_true_iff in Ea as [Ea Ec].
    assert (Him : im = []).
    { destruct (lint_calls_grow i (map fst (calls_of m)) (MkLint im (openCalls s) (seenCallIds s))) as [ps Hg].
      rewrite Hg in H. by apply app_eq_nil in H as [H _]. }
    rewrite Him in *. clear im Him.
    destruct (lint_calls_clean i (map fst (calls_of m)) (MkLint [] (openCalls s) (seenCallIds s))) as [-> Hnd'].
    { done. } { done. } { cbn. by rewrite Hs. }
    { cbn [openCalls seenCallIds]. rewrite Ho, Hs. by intros c [_ Hc]%elem_of_js_filter. }
    cbn [openCalls seenCallIds problems] in *. rewrite Hs in Hnd'.
    assert (Han : answer_of m = []) by (unfold answer_of; by rewrite (has_role_excl _ _ "toolResult" Ea)).
    split; [done|]. cbn [openCalls seenCallIds problems]. rewrite ids_snoc, answers_snoc, Han, app_nil_r, Hs.
    split; [done|]. split; [done|]. split; [intros c Hc; apply elem_of_app; left; by apply Hsub|].
    rewrite js_filter_app, Ho. f_equal. symmetry. apply js_filter_id. intros c Hc. apply negb_true_iff, includes_false.
    intros Ha%Hsub. apply NoDup_app in Hnd' as (_ & Hdis & _). by destruct (Hdis c Ha).
  - assert (Hcs : calls_of m = []).
    { unfold calls_of. destruct (has_role m "assistant"); [|done]. by destruct (content_of m). }
    destruct (has_role m "toolResult") eqn:Et.
    + unfold clean. rewrite ids_snoc, answers_snoc, Hcs, app_nil_r. unfold answer_of. rewrite Et.
      destruct (str_field "toolCallId" m) as [c|] eqn:Ecid; [|cbn [problems] in H; by destruct im].
      cbn [openCalls] in *. destruct (includes (openCalls s) c) eqn:Eo; [|cbn [problems] in H; by destruct im].
      apply includes_true in Eo. cbn [problems openCalls seenCallIds] in *.
      split; [done|]. split; [done|]. split; [done|]. split.
      * intros x [Hx| ->%list_elem_of_singleton]%elem_of_app; [by apply Hsub|]. rewrite Ho in Eo.
        by apply elem_of_js_filter in Eo as [_ Eo].
      * rewrite filter_answered, <- Ho. done.
    + unfold clean. rewrite ids_snoc, answers_snoc, Hcs. unfold answer_of. rewrite Et, !app_nil_r.
      destruct (has_role m "user" && _) eqn:Eu; cbn [problems openCalls seenCallIds] in *; [by destruct im|]. done.
Qed.

Lemma clean_run l : forall k l0 s,
  clean l0 s -> problems (fold_left lint_message (imap (fun i m => (k + i, m)%nat) l) s) = [] ->
  clean (l0 ++ l) (fold_left lint_message (imap (fun i m => (k + i, m)%nat) l) s).
Proof.
  induction l as [|m l IH]; intros k l0 s Hc Hp; [by rewrite app_nil_r|]. cbn [imap fold_left] in *.
  rewrite Nat.add_0_r in *.
  assert (Hm : clean (l0 ++ [m]) (lint_message s (k, m))).
  { apply clean_step; [done|]. destruct (lint_messages_grow (imap ((fun i m => (k + i, m)%nat) ∘ S) l) (lint_message s (k, m))) as [ps Hg].
    rewrite Hg in Hp. by apply app_eq_nil in Hp as [Hp _]. }
  replace (l0 ++ m :: l) with ((l0 ++ [m]) ++ l) by by rewrite <- app_assoc.
  assert (Hi : imap ((fun i m => (k + i, m)%nat) ∘ S) l = imap (fun i m => (S k + i, m)%nat) l).
  { apply imap_ext. intros i x _. simpl. f_equal. lia. }
  rewrite Hi in *. by apply IH.
Qed.

(** A stub closes its call and raises nothing. *)
Lemma lint_stub i c name at_ seen open :
  lint_message (MkLint [] (c :: open) seen) (i, stub_result c name at_) =
  MkLint [] (js_filter (fun x => x !== c) (c :: open)) seen.
Proof.
  unfold Tape.lint_message. cbn [negb]. change (has_role (stub_result c name at_) "toolResult") with true.
  change (has_role (stub_result c name at_) "user") with false.
  change (has_role (stub_result c name at_) "assistant") with false. cbn [orb negb andb].
  change (str_field "toolCallId" (stub_result c name at_)) with (Some c). cbn [openCalls].
  replace (includes (c :: open) c) with true by (symmetry; apply includes_true, list_elem_of_here). done.
Qed.

Lemma lint_stubs at_ cs : forall k seen,
  NoDup (map fst cs) ->
  fold_left lint_message (imap (fun i m => (k + i, m)%nat) (map (fun c => stub_result c.1 c.2 at_) cs))
    (MkLint [] (map fst cs) seen) = MkLint [] [] seen.
Proof.
  induction cs as [|[c name] cs IH]; intros k seen Hnd; [done|]. cbn [map fst snd] in *.
  apply NoDup_cons in Hnd as [Hc Hnd]. cbn [imap fold_left]. rewrite lint_stub.
  replace (js_filter (fun x => x !== c) (c :: map fst cs)) with (map fst cs).
  - rewrite <- (IH (S k) seen Hnd). f_equal. apply imap_ext. intros i x _. simpl. f_equal. lia.
  - cbn [js_filter]. rewrite eqb_refl. cbn [negb]. symmetry. apply js_filter_id. intros x Hx.
    apply negb_true_iff, eqb_false. congruence.
Qed.

Lemma js_filter_map {A B} (f : A -> B) (p : B -> bool) (l : list A) : map f (js_filter (fun x => p (f x)) l) = js_filter p (map f l).
Proof. induction l as [|x l IH]; [done|]. cbn [js_filter map]. destruct (p (f x)); cbn [map]; by rewrite IH. Qed.

Lemma missing_ids l : map fst (missing_calls l) = js_filter (fun c => negb (includes (answers l) c)) (ids l).
Proof.
  unfold missing_calls. cbv zeta. rewrite (js_filter_map fst (fun c => negb (includes (concat (map answer_of l)) c))). f_equal. unfold ids. induction l as [|m l IH]; [done|].
  cbn [map concat]. by rewrite map_app, IH.
Qed.

Lemma lint_kinds l : forall s,
  (forall p, p ∈ problems s -> starts_with p "end:" = false) ->
  forall p, p ∈ problems (fold_left lint_message l s) -> starts_with p "end:" = false.
Proof.
  induction l as [|im l IH]; intros s Hs; [done|]. cbn [fold_left]. apply IH. by apply lint_message_kind.
Qed.

(** Repairing an interrupted fold.  When the only thing wrong with the messages is that
    tool calls have no result - which is what the check asks before it repairs - then after
    the repair nothing is wrong with them: every call has exactly one result, after the call,
    and the conversation can be served to the model again. *)
Theorem heal_repairs folded at_ :
  needsInterruptHeal stringify js_string folded = true -> lint_ok stringify js_string (healFoldInterrupt folded at_) = true.
Proof.
  unfold needsInterruptHeal, lint_ok, lintFold, healFoldInterrupt, healDanglingCalls. cbv zeta.
  set (first := first_problem stringify).
  intros [Hne Hall]%andb_true_iff. rewrite every_true in Hall.
  assert (Hfirst : forall l p, p ∈ first l -> starts_with p "end:" = false).
  { intros l p. unfold first, first_problem. destruct l as [|m l]; [by intros ?%elem_of_nil|].
    destruct (_ && _); [by intros ->%list_elem_of_singleton|by intros ?%elem_of_nil]. }
  set (s := fold_left lint_message (imap pair folded) (MkLint (first folded) [] [])) in *.
  assert (Hs : problems s = []).
  { apply list_eq_nil_elem_of. intros p Hp. assert (Hp' := Hp).
    apply (lint_kinds _ (MkLint (first folded) [] []) (Hfirst folded)) in Hp'.
    rewrite Hall in Hp'; [done|]. apply elem_of_app. by left. }
  assert (Hfn : first folded = []).
  { destruct (lint_messages_grow (imap pair folded) (MkLint (first folded) [] [])) as [ps Hg].
    fold s in Hg. rewrite Hs in Hg. cbn [problems] in Hg. symmetry in Hg. by apply app_eq_nil in Hg as [Hg _]. }
  rewrite Hs in Hne. cbn [app] in Hne.
  assert (Hc : clean folded s).
  { subst s. rewrite Hfn in *. apply (clean_run folded 0 [] (MkLint [] [] [])); [|done].
    split; [done|]. split; [done|]. split; [constructor|]. split; [by intros c ?%elem_of_nil|done]. }
  destruct Hc as (_ & Hseen & Hnd & _ & Hopen). rewrite <- missing_ids in Hopen.
  set (stubs := map (fun c => stub_result c.1 c.2 at_) (missing_calls folded)).
  assert (Hf2 : first (folded ++ stubs) = []).
  { destruct folded; [|exact Hfn]. subst stubs. cbn in Hopen |- *. done. }
  rewrite Hf2, imap_app, fold_left_app.
  assert (Hs' : fold_left lint_message (imap pair folded) (MkLint [] [] []) = MkLint [] (map fst (missing_calls folded)) (ids folded)).
  { subst s. rewrite Hfn in *. destruct (fold_left _ _ _) as [ps op se]. simpl in *. by subst. }
  rewrite Hs'. subst stubs.
  replace (imap (pair ∘ Nat.add (length folded)) _) with
    (imap (fun i m => (length folded + i, m)%nat) (map (fun c => stub_result c.1 c.2 at_) (missing_calls folded))) by done.
  rewrite lint_stubs; [done|]. rewrite missing_ids. eapply sublist_NoDup; [exact Hnd|apply js_filter_sublist].
Qed.
End heal.

(** ** Confidentiality *)

Section confidential.
Variable audience : list Principal.
Variable sessionScopeId orgScopeId : ScopeId.
Abbreviation entitled := (entitled audience sessionScopeId orgScopeId).

(** Two rows an audience must not tell apart: the same row, or two messages of one scope it is
    not entitled to that say nothing in common but which call they answer. *)
Definition indistinct (r r' : TapeRecord) : Prop :=
  r = r' \/
  (t_kind_of r = message /\ entitled (t_label r) = false /\
   has_role (t_payload_of r) "toolResult" = has_role (t_payload_of r') "toolResult" /\
   str_field "toolCallId" (t_payload_of r) = str_field "toolCallId" (t_payload_of r') /\
   str_field "toolName" (t_payload_of r) = str_field "toolName" (t_payload_of r') /\
   r' = with_payload r (t_payload_of r')).

Lemma filter_row_indistinct r r' :
  indistinct r r' -> filter_row audience sessionScopeId orgScopeId r = filter_row audience sessionScopeId orgScopeId r'.
Proof.
  intros [->|(Hk & He & Hr & Hc & Hn & Heq)]; [done|]. unfold filter_row.
  assert (Hk' : t_kind_of r' = t_kind_of r) by (by rewrite Heq). assert (Hl' : t_label r' = t_label r) by (by rewrite Heq).
  rewrite Hk', Hl', Hk, He, <- Hr, <- Hc, <- Hn, eqb_refl. cbn [negb orb].
  destruct (str_field "toolCallId" (t_payload_of r)) as [c|]; [|done]. destruct (has_role _ _); [|done].
  f_equal. rewrite Heq. done.
Qed.

(** C35: confidentiality of the tape.  What the model is given for an audience does not depend
    on what was said in a scope that somebody of the audience is not entitled to: two tapes
    that differ only in the messages of such scopes are filtered to the same rows, and so
    fold to the same conversation.  Of a tool result only the call and the tool remain. *)
Theorem filtered_fold_confidential stringify rows rows' :
  Forall2 indistinct rows rows' ->
  filterTapeForAudience audience sessionScopeId orgScopeId rows =
  filterTapeForAudience audience sessionScopeId orgScopeId rows' /\
  foldTape stringify (filterTapeForAudience audience sessionScopeId orgScopeId rows) =
  foldTape stringify (filterTapeForAudience audience sessionScopeId orgScopeId rows').
Proof.
  intros H. assert (E : filterTapeForAudience audience sessionScopeId orgScopeId rows =
    filterTapeForAudience audience sessionScopeId orgScopeId rows'); [|by rewrite E].
  unfold filterTapeForAudience. destruct audience as [|p ps] eqn:Ea; [done|]. rewrite <- Ea in *. f_equal.
  induction H as [|r r' l l' Hr _ IH]; [done|]. cbn [map]. by rewrite (filter_row_indistinct _ _ Hr), IH.
Qed.
End confidential.

(** ** The budget of images *)

Section budget.
Variable load : string -> Z -> Loaded.
Variable bytes : string -> Z.
Hypothesis load_sizes : forall ref max d m n, load ref max = ld_image d m n -> n = bytes d.

Definition image_bytes (v : Json) : Z := from_option bytes 0 (str_field "data" v).
Definition spent_bytes (repl : list ((nat * nat) * Json)) : Z := fold_right (fun c n => image_bytes c.2 + n) 0 repl.

Definition within (maxBytes : Z) (s : Rehydration) : Prop :=
  spent_bytes (replacements s) + remainingBytes s = maxBytes /\ Z.min 0 maxBytes <= remainingBytes s /\
  (forall ref d m n, assoc_get ref (cached s) = Some (ld_image d m n) -> n = bytes d).

Lemma with_data_bytes b d m : isStripped b = true -> image_bytes (with_data b d m) = bytes d.
Proof.
  unfold isStripped, bare_image, image_bytes. destruct b; try done. intros _. cbn [with_data].
  unfold str_field, field. rewrite assoc_get_set, decide_False by done. by rewrite assoc_get_set, decide_True.
Qed.

Lemma rehydrate_one_within maxBytes s c :
  isStripped c.2 = true -> within maxBytes s -> within maxBytes (rehydrate_one load s c).
Proof.
  intros Hb (Hs & Hr & Hc). destruct c as [pos b]. cbn [snd] in Hb. unfold rehydrate_one.
  set (lc := if remainingBytes s <=? 0 then _ else _).
  assert (Hlc : (forall ref d m n, assoc_get ref lc.2 = Some (ld_image d m n) -> n = bytes d) /\
                (forall d m n, lc.1 = ld_image d m n -> n = bytes d)).
  { subst lc. destruct (_ <=? 0); [by split|]. destruct (assoc_get _ (cached s)) as [l|] eqn:E; cbn [fst snd].
    - split; [done|]. intros d m n ->. by eapply Hc.
    - split; [|by eauto]. intros ref d m n. rewrite assoc_get_set. destruct (decide _); [intros [= E']; eauto|apply Hc]. }
  destruct lc as [loaded cache]. cbn [fst snd] in Hlc. destruct Hlc as [Hcache Hl]. destruct loaded as [d m n| |].
  - destruct (_ && _ && _) eqn:E.
    + apply andb_true_iff in E as [[E1 E2]%andb_true_iff _]. apply Z.leb_le in E2. rewrite Z.gtb_ltb in E1. apply Z.ltb_lt in E1.
      unfold within. cbn [replacements remainingBytes cached spent_bytes fold_right snd] in *.
      rewrite (with_data_bytes b d m Hb), <- (Hl d m n eq_refl). split; [unfold spent_bytes in Hs; lia|]. split; [lia|done].
    + destruct (_ || _); (split; [done|]; by split).
  - by split.
  - destruct (_ <=? 0); (split; [done|]; by split).
Qed.

Lemma blocks_where_true p messages c : c ∈ blocks_where p messages -> p c.2 = true.
Proof.
  unfold blocks_where. rewrite list_elem_of_In, in_concat. intros (x & Hx & Hin). revert Hx.
  rewrite <- list_elem_of_In, elem_of_lookup_imap. intros (i & m & -> & _).
  apply in_concat in Hin as (y & Hy & Hin). rewrite <- list_elem_of_In, elem_of_lookup_imap in Hy.
  destruct Hy as (j & b & -> & _). destruct (p b) eqn:E; [|done]. by destruct Hin as [<-|].
Qed.

(** The images put back into a conversation fit the budget: the bytes of all of them
    together are at most what was allowed, however often one image occurs and whatever the
    store answers, as long as it tells their size. *)
Theorem images_within_budget messages maxBytes :
  0 <= maxBytes -> spent_bytes (replacements (plan_images load messages maxBytes)) <= maxBytes.
Proof.
  intros Hm. enough (within maxBytes (plan_images load messages maxBytes)) as (H1 & H2 & _) by lia.
  unfold plan_images.
  assert (H0 : within maxBytes (MkRehydration maxBytes [] (map (fun c => (c.1, elided)) (blocks_where isOmitted messages)))).
  { unfold within. cbn [replacements remainingBytes cached]. split; [|split; [lia|done]].
    enough (spent_bytes (map (fun c => (c.1, elided)) (blocks_where isOmitted messages)) = 0) by lia.
    induction (blocks_where isOmitted messages) as [|c l IH]; [done|]. cbn [map spent_bytes fold_right] in *.
    unfold spent_bytes in IH. rewrite IH. done. }
  revert H0. generalize (MkRehydration maxBytes [] (map (fun c => (c.1, elided)) (blocks_where isOmitted messages))).
  assert (Hl : forall c, c ∈ rev (blocks_where isStripped messages) -> isStripped c.2 = true).
  { intros c Hc. apply (blocks_where_true _ messages). by apply elem_of_reverse_rev. }
  induction (rev (blocks_where isStripped messages)) as [|c l IH]; [done|]. intros s Hs. cbn [fold_left].
  apply IH; [intros; by apply Hl, list_elem_of_further|]. apply rehydrate_one_within; [|done]. apply Hl, list_elem_of_here.
Qed.
End budget.

(** ** Concrete tapes *)

Definition demo_user (t : string) : Json := JObj [("role", JStr "user"); ("content", JStr t)].
Definition demo_calls (l : list string) : Json :=
  JObj [("role", JStr "assistant");
        ("content", JArr (map (fun c => JObj [("type", JStr "toolCall"); ("id", JStr c); ("name", JStr "execute")]) l))].
Definition demo_answer (c t : string) : Json :=
  JObj [("role", JStr "toolResult"); ("toolCallId", JStr c); ("toolName", JStr "execute"); ("content", JStr t)].
Definition demo_row (kind : TapeKind) (p : Json) (label : string) (entry covers : option Z) (seq : Z) : TapeRecord :=
  MkTape (MkNewTape kind p label None None entry covers) "s1" seq (1000 + seq).
Definition no_string (v : option Json) : string := match v with Some (JStr s) => s | _ => "undefined" end.

(** A turn that was cut off after one of its two calls. *)
Definition demo_cut : list Json := [demo_user "go"; demo_calls ["c1"; "c2"]; demo_answer "c1" "ok"].
Example demo_problems : lintFold no_string no_string demo_cut = ["end: 1 dangling tool call(s)"].
Proof. vm_compute. reflexivity. Qed.
Lemma heal_repairs_witness :
  lint_ok no_string no_string (healFoldInterrupt demo_cut 5) = true /\ length (healFoldInterrupt demo_cut 5) = 4%nat.
Proof. split; [apply (heal_repairs no_string no_string demo_cut 5); vm_compute; reflexivity|vm_compute; reflexivity]. Defined.

(** A compaction through entry 4 keeps what came after the turn that ended there. *)
Example demo_compaction :
  foldTape no_string
    [ demo_row message (demo_user "one") "org" None None 0; demo_row annotation (JObj [("turnEnd", JBool true)]) "org" (Some 4) None 1;
      demo_row message (demo_user "two") "org" None None 2; demo_row annotation (JObj [("turnEnd", JBool true)]) "org" (Some 9) None 3;
      demo_row context_event (JObj [("event", JStr "compaction"); ("text", JStr "they said one")]) "org" None (Some 4) 4 ] =
  [summary_message "they said one" 1004; demo_user "two"].
Proof. vm_compute. reflexivity. Qed.

Definition demo_ann : Principal := MkPrincipal "ann@x.co" internal None None.
Lemma filtered_fold_confidential_witness :
  foldTape no_string (filterTapeForAudience [demo_ann] "channel:c" "org"
    [demo_row message (demo_user "hi") "org" None None 0; demo_row message (demo_answer "c1" "bob's secret") "personal:bob" None None 1]) =
  foldTape no_string (filterTapeForAudience [demo_ann] "channel:c" "org"
    [demo_row message (demo_user "hi") "org" None None 0; demo_row message (demo_answer "c1" "another one") "personal:bob" None None 1]).
Proof.
  apply (filtered_fold_confidential [demo_ann] "channel:c" "org" no_string).
  constructor; [by left|]. constructor; [|constructor].
  right. split; [done|]. split; [vm_compute; reflexivity|]. split; [done|]. split; [done|]. by split.
Defined.

Definition demo_image (ref : string) : Json :=
  JObj [("type", JStr "image"); ("artifactRef", JStr ref); ("mimeType", JStr "image/png")].
Definition demo_load (ref : string) (max : Z) : Loaded := if max >=? 4 then ld_image "abcd" "image/png" 4 else ld_over_budget.
Lemma images_within_budget_witness :
  spent_bytes str_len (replacements (plan_images demo_load [JObj [("role", JStr "user"); ("content", JArr [demo_image "a"; demo_image "b"; demo_image "a"])]] 10)) <= 10 /\
  spent_bytes str_len (replacements (plan_images demo_load [JObj [("role", JStr "user"); ("content", JArr [demo_image "a"; demo_image "b"; demo_image "a"])]] 10)) = 8.
Proof.
  split; [|vm_compute; reflexivity]. apply (images_within_budget demo_load str_len); [|lia].
  unfold demo_load. intros ref max d m n. destruct (max >=? 4); [|done]. intros [= <- <- <-]. reflexivity.
Defined.
