(* ===== verification/Compaction.v ===== *)
(** * Compaction: keeping a conversation within the model's context

    The entries of a session the model is shown, the plan of what is summarised and what is
    kept ([src/src/harness/context-compaction.ts]), and the writing of the summary into the
    log of the session, in a turn or in the background
    ([src/src/core/orchestrator/compaction.ts]).  The tokenizer and the model that writes the
    summary are parameters; fractions of a budget are taken in tenths. *)

From stdpp Require Import pretty.
From S2P Require Import Prelude JsString Json Scope ThreadRef Transcript Sessions Tape.

#[local] Open Scope Z_scope.

(** ** Summaries and what the model is shown *)

(** [contextSummaryPayload] src/src/harness/context-compaction.ts:30-41
    The last entry covered and the text. *)
Definition contextSummaryPayload (e : SessionEntry) : option (Z * string) :=
  if (e.(e_type) === system) && is_text (field "kind" e.(e_payload)) "context_summary"
  then match field "throughSeq" e.(e_payload), field "text" e.(e_payload) with
       | Some (JNum s), Some (JStr t) => Some (s, t)
       | _, _ => None
       end
  else None.
Definition is_summary (e : SessionEntry) : bool := is_some (contextSummaryPayload e).

(** [createContextSummaryPayload] src/src/harness/context-compaction.ts:43-45 *)
Definition createContextSummaryPayload (throughSeq : Z) (text : string) : list (string * Json) :=
  [("kind", JStr "context_summary"); ("throughSeq", JNum throughSeq); ("text", JStr text)].

Definition only_label (l : list ScopeId) : option ScopeId := match l with [x] => Some x | _ => None end.
(** [compactedScopeLabel] src/src/harness/context-compaction.ts:47-66 *)
Definition compactedScopeLabel (entries : list SessionEntry) (sessionScopeId orgScopeId : ScopeId) : option ScopeId :=
  let labels := dedup (map e_scopeLabel entries) in
  let byKind k := js_filter (fun l => (parseScopeId l).1 === Some k) labels in
  match byKind personal with
  | (_ :: _) as l => only_label l
  | [] =>
      match byKind team with
      | (_ :: _) as l => only_label l
      | [] =>
          match js_filter (fun l => (l !== orgScopeId) && (l !== sessionScopeId)) labels with
          | (_ :: _) as l => only_label l
          | [] => Some (if includes labels sessionScopeId then sessionScopeId else orgScopeId)
          end
      end
  end.

Definition tainted (e : SessionEntry) : bool := is_true_ (field "securityTainted" e.(e_payload)).
(** [forModelContext] src/src/harness/context-compaction.ts:72-78 *)
Definition replayable (e : SessionEntry) : bool :=
  negb (includes [thinking; text_; soul] e.(e_type)) && negb (is_text (field "kind" e.(e_payload)) "turn_failure").
(** [forModelContext] src/src/harness/context-compaction.ts:80-83 *)
Definition shown (includeTainted : bool) (e : SessionEntry) : bool := replayable e && (includeTainted || negb (tainted e)).
(** [forModelContext] src/src/harness/context-compaction.ts:68-90 *)
Definition forModelContext (includeTainted : bool) (entries : list SessionEntry) : list SessionEntry :=
  let visible := js_filter (shown includeTainted) entries in
  match find_last (fun e => replayable e && is_summary e) entries with
  | None => visible
  | Some latest =>
      let throughSeq := from_option fst 0 (contextSummaryPayload latest) in
      (if shown includeTainted latest then [latest] else [])
      ++ js_filter (fun e => negb (is_summary e) && (e.(e_seq) >? throughSeq)) visible
  end.

(** ** The plan *)

Section plan.
(** [countTokens] of the text of an entry, or of its payload written as JSON. *)
Variable tokens : SessionEntry -> Z.

(** [estimateHistoryTokens] src/src/harness/context-compaction.ts:109-113 *)
Definition estimateHistoryTokens (history : list SessionEntry) : Z := fold_right (fun e n => tokens e + n) 0 history.

(** [recentEntryCountWithinBudget] src/src/harness/context-compaction.ts:117-124
    Along the reversed history. *)
Fixpoint recent_count (l : list SessionEntry) (maxCount maxTokens count spent : Z) : Z :=
  match l with
  | [] => count
  | e :: l =>
      if count >=? maxCount then count
      else
        let next := spent + tokens e in
        if (count >=? 1) && (next >? maxTokens) then count else recent_count l maxCount maxTokens (count + 1) next
  end.
(** [recentEntryCountWithinBudget] src/src/harness/context-compaction.ts:115-126 *)
Definition recentEntryCountWithinBudget (history : list SessionEntry) (maxCount maxTokens : Z) : Z :=
  recent_count (rev history) maxCount maxTokens 0 0.

(** [overBudgetFraction] src/src/harness/context-compaction.ts:172-179
    The fraction is in tenths. *)
Definition overBudgetFraction (history : list SessionEntry) (maxEntries maxTokens tenths : Z) : bool :=
  (10 * Z.of_nat (length history) >? maxEntries * tenths) || (10 * estimateHistoryTokens history >? maxTokens * tenths).
(** [COMPACT_SOFT_FRACTION], [COMPACT_HARD_FRACTION] src/src/harness/context-compaction.ts:169-170 *)
Definition COMPACT_SOFT_TENTHS : Z := 7.
Definition COMPACT_HARD_TENTHS : Z := 9.

(** [CompactionPlan] src/src/harness/context-compaction.ts:181-185 *)
Record CompactionPlan := MkPlan { toSummarize : list SessionEntry; kept : list SessionEntry; reuse : option SessionEntry }.

Definition call_id (e : SessionEntry) : option string := if_truthy (str_field "callId" e.(e_payload)).
(** [planCompaction] src/src/harness/context-compaction.ts:214-224
    A call at the end of the batch whose result is not in it stays out of it. *)
Fixpoint trim_batch (n : nat) (l : list SessionEntry) : nat :=
  match n with
  | O => O
  | S n' =>
      match l !! n' with
      | Some last =>
          if last.(e_type) !== tool_call then n
          else match call_id last with
               | None => n
               | Some cid =>
                   if some (fun e => (e.(e_type) === tool_result) && is_text (field "callId" e.(e_payload)) cid) (take n l)
                   then n else trim_batch n' l
               end
      | None => n
      end
  end.
(** [planCompaction] src/src/harness/context-compaction.ts:187-229 *)
Definition planCompaction (history : list SessionEntry) (maxEntries maxTokens keepTenths keepRecentEntries reuseEntries reuseTokens : Z)
  : option CompactionPlan :=
  let latestSummary := find_last is_summary history in
  let latestPayload := latestSummary ≫= contextSummaryPayload in
  let afterSummary := js_filter (fun e => negb (is_summary e)
    && match latestPayload with Some (through, _) => e.(e_seq) >? through | None => true end) history in
  let keepRecent := Z.max 1 keepRecentEntries in
  let keepRecentTokens := (maxTokens * keepTenths) / 10 in
  let fresh :=
    let keptCount := recentEntryCountWithinBudget afterSummary keepRecent keepRecentTokens in
    let overflowCount := trim_batch (Z.to_nat (Z.of_nat (length afterSummary) - keptCount)) afterSummary in
    let overflow := take overflowCount afterSummary in
    match overflow with
    | [] => None
    | _ => Some (MkPlan (match latestSummary with Some s => s :: overflow | None => overflow end)
                   (drop overflowCount afterSummary) None)
    end in
  match latestSummary with
  | Some s =>
      if (Z.of_nat (length afterSummary) + 1 <=? reuseEntries) && (estimateHistoryTokens (s :: afterSummary) <=? reuseTokens)
      then Some (MkPlan [] (s :: afterSummary) (Some s)) else fresh
  | None => fresh
  end.

(** [compactionThroughSeq] src/src/harness/context-compaction.ts:231-236 *)
Definition compactionThroughSeq (entries : list SessionEntry) : Z :=
  fold_left (fun m e => Z.max m (match contextSummaryPayload e with Some (t, _) => t | None => e.(e_seq) end)) entries (-1).
End plan.

(** ** The text a summary is made of *)

Section transcript.
Variable stringify : Json -> string.
Variable js_string : Json -> string.

(** [capCompactLine] src/src/harness/context-compaction.ts:8-19
    with [headSlice] and [tailSlice] of src/src/util/text.ts:1-13
    The three characters of the notice outside Latin-1 have three bytes each and count one. *)
Definition capCompactLine (s : string) : string :=
  if str_len s <=? 16000 then s
  else
    let notice := "…[truncated — " +:+ pretty (str_len s) +:+ " chars]…" in
    str_take (Z.to_nat (16000 - 2000 - (str_len notice - 6))) s +:+ notice +:+ str_drop (Z.to_nat (str_len s - 2000)) s.

Definition type_name (t : EntryType) : string :=
  match t with
  | user => "user" | assistant => "assistant" | tool_call => "tool_call" | tool_result => "tool_result"
  | system => "system" | thinking => "thinking" | text_ => "text" | soul => "soul" | delivery => "delivery"
  | approval_request => "approval_request" | approval_resolved => "approval_resolved"
  end.
Definition string_of (v : option Json) : string :=
  match v with None | Some JNull => "" | Some (JStr s) => s | Some v => js_string v end.

(** [compactTranscript] src/src/harness/context-compaction.ts:137-165
    The lines of one entry; [answered] are the calls that have a result. *)
Definition entry_lines (answered : list string) (e : SessionEntry) : list string :=
  match contextSummaryPayload e with
  | Some (through, t) => [capCompactLine ("Prior summary through seq " +:+ pretty through +:+ ": " +:+ t)]
  | None =>
      let p := e.(e_payload) in
      let ov := (e.(e_type) === user) && is_true_ (field "overheard" p) in
      let body := trim (string_of (field "text" p)) in
      let files := if ov then js_filter truthy (map (fun f => match f with JStr s => s | v => js_string v end)
                                                    ((field "files" p ≫= as_array) ?? [])) else [] in
      let label := if ov then "overheard#" +:+ pretty e.(e_seq) +:+ " (" +:+ (if_truthy (str_field "name" p) ?? "someone") +:+ ")"
                   else type_name e.(e_type) +:+ "#" +:+ pretty e.(e_seq) in
      (if truthy body
       then [capCompactLine (label +:+ ": " +:+ body +:+ (match files with [] => "" | _ => " (files: " +:+ join ", " files +:+ ")" end))]
       else if ov && negb (length files =? 0)%nat
       then [capCompactLine (label +:+ ": (shared file) (files: " +:+ join ", " files +:+ ")")]
       else if negb ov
       then [capCompactLine (label +:+ ":" +:+ (if is_true_ (field "isError" p) then " [isError]" else "") +:+ " "
               +:+ stringify (match p with JNull => JObj [] | _ => p end))]
       else [])
      ++ match (if e.(e_type) === tool_call then call_id e else None) with
         | Some cid => if includes answered cid then []
                       else ["tool_result#" +:+ pretty e.(e_seq) +:+ ": " +:+ INTERRUPTED_TOOL_RESULT]
         | None => []
         end
  end.
(** [compactTranscript] src/src/harness/context-compaction.ts:128-167 *)
Definition compactTranscript (history : list SessionEntry) : string :=
  let answered := concat (map (fun e => if e.(e_type) === tool_result then match call_id e with Some c => [c] | None => [] end else []) history) in
  join (String "010"%char "") (concat (map (entry_lines answered) history)).
(** [deterministicCompactSummary] src/src/harness/context-compaction.ts:238-242 *)
Definition deterministicCompactSummary (history : list SessionEntry) : string :=
  "Compacted " +:+ pretty (Z.of_nat (length history)) +:+ " prior entr" +:+ (if (length history =? 1)%nat then "y" else "ies")
  +:+ " through seq " +:+ pretty (compactionThroughSeq history) +:+ "." +:+ String "010"%char "" +:+ str_take (Z.to_nat 8000) (compactTranscript history).
End transcript.

(** ** Compacting a session *)

Section orchestrator.
Variable tokens : SessionEntry -> Z.
(** Whether a scope is a group the deployment manages itself; the model's summary; the limits
    and the lease time. *)
Variable isManagedGroupScope : ScopeId -> bool.
Variable compactHistory : option (list SessionEntry -> result string string).
Variable maxContextEntries maxContextTokens leaseTtlMs : Z.

(** [boundRecent] src/src/core/orchestrator/compaction.ts:57-69 *)
Definition boundRecent (entries : list SessionEntry) : list SessionEntry :=
  match find is_summary entries with
  | Some summary =>
      let rest := js_filter (fun e => e.(e_seq) !== summary.(e_seq)) entries in
      let n := recentEntryCountWithinBudget tokens rest (maxContextEntries - 1) (maxContextTokens - tokens summary) in
      summary :: drop (length rest - Z.to_nat n) rest
  | None => drop (length entries - Z.to_nat (recentEntryCountWithinBudget tokens entries maxContextEntries maxContextTokens)) entries
  end.

(** [keepRecentEntries] src/src/core/orchestrator/compaction.ts:75-75 *)
Definition keepRecentEntries : Z := Z.max 1 ((maxContextEntries * COMPACT_SOFT_TENTHS) / 10 - 1).
(** [keepRecentTokenFraction] src/src/core/orchestrator/compaction.ts:76-76 *)
Definition keepRecentTenths : Z := Z.min 6 (COMPACT_SOFT_TENTHS - 1).

(** [Summarized] src/src/core/orchestrator/compaction.ts:26-31 *)
Record Summarized := MkSummarized { su_text : string; su_label : ScopeId; su_throughSeq : Z; su_tainted : bool }.

(** [summarizeForCompaction] src/src/core/orchestrator/compaction.ts:78-122 *)
Definition summarizeForCompaction (history : list SessionEntry) (scopeId orgScopeId : ScopeId) : result string (option Summarized) :=
  if isManagedGroupScope scopeId then Ok None
  else match compactHistory with
  | None => Ok None
  | Some model =>
      match planCompaction tokens history maxContextEntries maxContextTokens keepRecentTenths keepRecentEntries
              (keepRecentEntries + 1) ((maxContextTokens * keepRecentTenths) / 10) with
      | None => Ok None
      | Some p =>
          match p.(toSummarize), compactedScopeLabel p.(toSummarize) scopeId orgScopeId with
          | [], _ | _, None => Ok None
          | l, Some label =>
              t ← model l; Ok (Some (MkSummarized t label (compactionThroughSeq l) (some tainted l)))
          end
      end
  end.

(** [writeCompaction] src/src/core/orchestrator/compaction.ts:130-137
    The entry of the summary. *)
Definition summary_entry (s : Summarized) : NewEntry :=
  MkNewEntry system
    (JObj (createContextSummaryPayload s.(su_throughSeq) s.(su_text)
           ++ (if s.(su_tainted) then [("securityTainted", JBool true)] else [])))
    s.(su_label) None.
(** [writeCompaction] src/src/core/orchestrator/compaction.ts:124-165
    The summary goes to the log; its mirror on the tape may fail without harm. *)
Definition writeCompaction (n1 n2 n3 : Z) (lease : Lease) (s : Summarized) (st : SessionStore)
  : result string (SessionEntry * bool) * SessionStore :=
  match append leaseTtlMs n1 lease (summary_entry s) st with
  | (Throw e, st) => (Throw e, st)
  | (Ok summary, st) =>
      match appendTape leaseTtlMs n2 lease
              (MkNewTape context_event (JObj [("event", JStr "compaction"); ("text", JStr s.(su_text))]) s.(su_label)
                 None None (Some summary.(e_seq)) (Some s.(su_throughSeq))) st with
      | (Throw _, st) => (Ok (summary, false), st)
      | (Ok _, st) =>
          (Ok (summary, true),
           if tapeCoverage lease.(l_sessionId) st === summary.(e_seq) - 1
           then (appendTape leaseTtlMs n3 lease
                   (MkNewTape annotation (JObj [("turnEnd", JBool true)]) s.(su_label) None None (Some summary.(e_seq)) None) st).2
           else st)
      end
  end.

(** [applyCompaction] src/src/core/orchestrator/compaction.ts:167-183 *)
Definition applyCompaction (n1 n2 n3 : Z) (lease : Lease) (history : list SessionEntry) (scopeId orgScopeId : ScopeId)
    (st : SessionStore) : result string (option (list SessionEntry * bool)) * SessionStore :=
  match summarizeForCompaction history scopeId orgScopeId with
  | Throw e => (Throw e, st)
  | Ok None => (Ok None, st)
  | Ok (Some s) =>
      match writeCompaction n1 n2 n3 lease s st with
      | (Throw e, st) => (Throw e, st)
      | (Ok (summary, mirrored), st) =>
          let recent := js_filter (fun e => (e.(e_seq) >? s.(su_throughSeq)) && negb (is_summary e)) history in
          (Ok (Some (summary :: drop (Z.to_nat (Z.max 0 (Z.of_nat (length recent) - (maxContextEntries - 1)))) recent, mirrored)), st)
      end
  end.

(** [compactContextIfNeeded] src/src/core/orchestrator/compaction.ts:185-202
    The history of the turn, and whether the mirror failed. *)
Definition compactContextIfNeeded (n1 n2 n3 : Z) (lease : Lease) (history : list SessionEntry) (scopeId orgScopeId : ScopeId)
    (st : SessionStore) : result string (list SessionEntry * bool) * SessionStore :=
  if negb (overBudgetFraction tokens history maxContextEntries maxContextTokens COMPACT_HARD_TENTHS) then (Ok (history, false), st)
  else match applyCompaction n1 n2 n3 lease history scopeId orgScopeId st with
  | (Throw e, st) => (Throw e, st)
  | (Ok (Some (h, mirrored)), st) => (Ok (h, negb mirrored), st)
  | (Ok None, st) => (Ok (boundRecent history, false), st)
  end.

(** [scheduleBackgroundCompaction] src/src/core/orchestrator/compaction.ts:233-247
    What a compaction in the background takes with it to the wait for the lease: the last
    entry it saw, and the summary. *)
Definition background_read (includeTainted : bool) (sessionId scopeId orgScopeId : string) (st : SessionStore)
  : result string (option (Z * Summarized)) :=
  let entries := getEntries sessionId None None st in
  let history := forModelContext includeTainted entries in
  if negb (overBudgetFraction tokens history maxContextEntries maxContextTokens COMPACT_SOFT_TENTHS) then Ok None
  else
    s ← summarizeForCompaction history scopeId orgScopeId;
    Ok ((fun s => (from_option e_seq (-1) (last entries), s)) <$> (s : option Summarized)).
(** [scheduleBackgroundCompaction] src/src/core/orchestrator/compaction.ts:248-253
    With the lease, in whatever state the session is by then. *)
Definition background_write (n1 n2 n3 : Z) (lease : Lease) (snapshotSeq : Z) (s : Summarized) (st : SessionStore)
  : result string bool * SessionStore :=
  let since := getEntries lease.(l_sessionId) (Some (snapshotSeq + 1)) None st in
  if some is_summary since then (Ok false, st)
  else match writeCompaction n1 n2 n3 lease s st with
       | (Throw e, st) => (Throw e, st)
       | (Ok _, st) => (Ok true, st)
       end.
End orchestrator.

(** ** What a compaction keeps *)

Definition incr : list SessionEntry -> Prop := StronglySorted (fun a b => e_seq a < e_seq b).

Lemma incr_app l1 l2 : incr (l1 ++ l2) <-> incr l1 /\ incr l2 /\ (forall a b, a ∈ l1 -> b ∈ l2 -> e_seq a < e_seq b).
Proof.
  unfold incr. induction l1 as [|x l1 IH]; simpl.
  - split; [intros H; split; [constructor|]; split; [done|by intros a b ?%elem_of_nil]|by intros (_ & ? & _)].
  - split.
    + intros H. inversion H as [|? ? Hs Hf]; subst. apply IH in Hs as (H1 & H2 & H3). rewrite Forall_forall in Hf.
      split; [constructor; [done|]; apply Forall_forall; intros b Hb; apply Hf, elem_of_app; by left|].
      split; [done|]. intros a b [->|Ha]%elem_of_cons Hb; [apply Hf, elem_of_app; by right|by apply H3].
    + intros (H1 & H2 & H3). inversion H1 as [|? ? Hs Hf]; subst. constructor.
      * apply IH. split; [done|]. split; [done|]. intros a b Ha Hb. apply H3; [by right|done].
      * apply Forall_app. split; [done|]. apply Forall_forall. intros b Hb. apply H3; [by left|done].
Qed.

Lemma incr_sublist l l' : l `sublist_of` l' -> incr l' -> incr l.
Proof.
  intros Hs. unfold incr. induction Hs as [|x l l' Hs IH|x l l' Hs IH]; intros H; [constructor| |].
  - inversion H as [|? ? H1 Hf]; subst. constructor; [by apply IH|]. rewrite Forall_forall in Hf |- *.
    intros b Hb. apply Hf. eapply elem_of_sublist; eauto.
  - inversion H; subst. by apply IH.
Qed.

Lemma js_filter_and {A} (p q : A -> bool) l : js_filter (fun x => p x && q x) l = js_filter q (js_filter p l).
Proof. induction l as [|x l IH]; [done|]. cbn [js_filter]. destruct (p x); cbn [js_filter andb]; [destruct (q x)|]; by rewrite IH. Qed.
Lemma js_filter_ext {A} (p q : A -> bool) l : (forall x, x ∈ l -> p x = q x) -> js_filter p l = js_filter q l.
Proof.
  induction l as [|x l IH]; intros H; [done|]. cbn [js_filter]. rewrite (H x (list_elem_of_here _ _)).
  rewrite IH; [done|]. intros y Hy. by apply H, list_elem_of_further.
Qed.

Lemma summary_replayable e : is_summary e = true -> replayable e = true.
Proof.
  unfold is_summary, contextSummaryPayload, replayable. destruct (e_type e === system) eqn:Et; [|done]. to_prop.
  rewrite Et. cbn [andb]. destruct (is_text _ "context_summary") eqn:Ek; [|done]. intros _.
  unfold is_text in *. destruct (field "kind" (e_payload e)) as [[| | |s| |]|]; try done. to_prop. by subst.
Qed.

Lemma find_last_snoc {A} (p : A -> bool) l x : p x = true -> find_last p (l ++ [x]) = Some x.
Proof. intros Hp. unfold find_last. rewrite rev_app_distr. cbn [rev app find]. by rewrite Hp. Qed.

Lemma find_app {A} (p : A -> bool) l1 l2 :
  Prelude.find p (l1 ++ l2) = match Prelude.find p l1 with Some x => Some x | None => Prelude.find p l2 end.
Proof. induction l1 as [|x l1 IH]; [done|]. cbn [app Prelude.find]. by destruct (p x). Qed.

(** What is above the latest summary of a log, if it has one. *)
Definition latest_of (log : list SessionEntry) : option SessionEntry := find_last (fun e => replayable e && is_summary e) log.
Definition above (log : list SessionEntry) (e : SessionEntry) : bool :=
  match latest_of log with
  | Some s => e.(e_seq) >? from_option fst 0 (contextSummaryPayload s)
  | None => true
  end.
Definition after (b : bool) (log : list SessionEntry) : list SessionEntry :=
  js_filter (fun e => negb (is_summary e) && above log e) (js_filter (shown b) log).
Definition heads (b : bool) (log : list SessionEntry) : list SessionEntry :=
  match latest_of log with Some s => if shown b s then [s] else [] | None => [] end.

Lemma latest_of_summary log s : latest_of log = Some s -> is_summary s = true /\ s ∈ log.
Proof.
  unfold latest_of, find_last. intros [Hin Hp]%find_Some. apply andb_true_iff in Hp as [_ Hp].
  split; [done|]. by apply elem_of_reverse_rev.
Qed.

Lemma forModelContext_shape b log : forModelContext b log = heads b log ++ after b log.
Proof.
  unfold forModelContext, heads, after. fold (latest_of log). destruct (latest_of log) as [s|] eqn:E.
  - f_equal. apply js_filter_ext. intros e _. unfold above. by rewrite E.
  - cbn [app]. symmetry. apply js_filter_id. intros e [Hs He]%elem_of_js_filter. unfold above. rewrite E.
    unfold latest_of, find_last in E. rewrite find_None in E. rewrite andb_true_r.
    specialize (E e (proj2 (elem_of_reverse_rev _ _) He)). unfold shown in Hs. apply andb_true_iff in Hs as [Hr _].
    rewrite Hr in E. cbn [andb] in E. by rewrite E.
Qed.

Lemma heads_cases b log :
  heads b log = [] \/ exists s t, heads b log = [s] /\ contextSummaryPayload s = Some t /\ latest_of log = Some s.
Proof.
  unfold heads. destruct (latest_of log) as [s|] eqn:E; [|by left]. destruct (shown b s); [|by left]. right.
  apply latest_of_summary in E as [Hs _]. unfold is_summary in Hs.
  destruct (contextSummaryPayload s) as [t|] eqn:Et; [|done]. by exists s, t.
Qed.

Lemma forModelContext_shown b log e : e ∈ forModelContext b log -> shown b e = true.
Proof.
  rewrite forModelContext_shape. intros [He|[_ [He _]%elem_of_js_filter]%elem_of_js_filter]%elem_of_app; [|done].
  unfold heads in He. destruct (latest_of log) as [s|]; [|by apply elem_of_nil in He].
  destruct (shown b s) eqn:Es; [|by apply elem_of_nil in He]. by apply list_elem_of_singleton in He as ->.
Qed.

Section keeping.
Variable tokens : SessionEntry -> Z.

(** A plan that summarises something splits what is shown in two. *)
Lemma plan_splits b log me mt kt kr re rt p :
  planCompaction tokens (forModelContext b log) me mt kt kr re rt = Some p -> toSummarize p <> [] ->
  exists n, toSummarize p = heads b log ++ take n (after b log) /\ take n (after b log) <> [] /\ kept p = drop n (after b log).
Proof.
  rewrite forModelContext_shape.
  assert (Hns : forall e, e ∈ after b log -> is_summary e = false).
  { intros e [He _]%elem_of_js_filter. apply andb_true_iff in He as [He _]. by apply negb_true_iff. }
  assert (Hnone : find_last is_summary (after b log) = None).
  { unfold find_last. apply Prelude.find_None. intros e He. apply Hns. by apply elem_of_reverse_rev. }
  assert (Hlast : find_last is_summary (heads b log ++ after b log) = head (heads b log)).
  { unfold find_last in *. rewrite rev_app_distr. destruct (heads_cases b log) as [->|(s & t & -> & Hs & _)].
    - cbn [rev app head]. by rewrite app_nil_r.
    - cbn [rev app head]. rewrite find_app. rewrite Hnone. cbn [find]. unfold is_summary. by rewrite Hs. }
  unfold planCompaction. rewrite Hlast.
  set (af := js_filter _ (heads b log ++ after b log)).
  assert (Haf : af = after b log).
  { subst af. rewrite js_filter_app. destruct (heads_cases b log) as [->|(s & [t txt] & -> & Hs & Hl)]; cbn [head].
    - cbn [js_filter app]. apply js_filter_id. intros e He. by rewrite (Hns e He).
    - cbn [js_filter]. unfold is_summary at 1. rewrite Hs. cbn [is_some negb andb app]. cbn [mbind option_bind]. rewrite Hs.
      apply js_filter_id. intros e He. rewrite (Hns e He). cbn [negb andb].
      apply elem_of_js_filter in He as [He _]. apply andb_true_iff in He as [_ He]. unfold above in He.
      rewrite Hl, Hs in He. exact He. }
  rewrite Haf. clearbody af. set (n := trim_batch _ _).
  assert (Hfresh : forall q, match take n (after b log) with [] => None | _ => Some (MkPlan
      (match head (heads b log) with Some s => s :: take n (after b log) | None => take n (after b log) end)
      (drop n (after b log)) None) end = Some q ->
    exists n, toSummarize q = heads b log ++ take n (after b log) /\ take n (after b log) <> [] /\ kept q = drop n (after b log)).
  { intros q Hq. exists n. destruct (take n (after b log)) as [|x l] eqn:Et; [done|]. injection Hq as <-. cbn [toSummarize kept].
    split; [|done]. by destruct (heads_cases b log) as [->|(s & t & -> & _)]. }
  destruct (head (heads b log)) as [s|] eqn:Eh; [|intros Hp _; by apply Hfresh].
  destruct (_ && _); [by intros [= <-]|intros Hp _; by apply Hfresh].
Qed.

(** How far a summary reaches. *)
Lemma throughSeq_ge l e : e ∈ l ->
  match contextSummaryPayload e with Some (t, _) => t | None => e_seq e end <= compactionThroughSeq l.
Proof.
  unfold compactionThroughSeq. set (f := fun e => match contextSummaryPayload e with Some (t, _) => t | None => e_seq e end).
  change (e ∈ l -> f e <= fold_left (fun m e => Z.max m (f e)) l (-1)).
  assert (Hge : forall l m, m <= fold_left (fun m e => Z.max m (f e)) l m).
  { induction l0 as [|x l0 IH]; intros m; cbn [fold_left]; [lia|]. specialize (IH (Z.max m (f x))). lia. }
  generalize (-1). induction l as [|x l IH]; intros m; cbn [fold_left]; [by intros ?%elem_of_nil|].
  intros [->|He]%elem_of_cons; [|by apply IH]. specialize (Hge l (Z.max m (f x))). lia.
Qed.
Lemma throughSeq_le l m : -1 <= m ->
  (forall e, e ∈ l -> match contextSummaryPayload e with Some (t, _) => t | None => e_seq e end <= m) ->
  compactionThroughSeq l <= m.
Proof.
  unfold compactionThroughSeq. generalize (-1). induction l as [|x l IH]; intros k Hk Hl; cbn [fold_left]; [done|].
  apply IH; [|intros; apply Hl; by right]. specialize (Hl x (list_elem_of_here _ _)). lia.
Qed.

Lemma is_summary_None e : is_summary e = false -> contextSummaryPayload e = None.
Proof. unfold is_summary. by destruct (contextSummaryPayload e). Qed.

Lemma sub_in {A} {l l' : list A} x : l `sublist_of` l' -> x ∈ l -> x ∈ l'.
Proof. intros Hs Hx. eapply elem_of_sublist; eauto. Qed.

(** What a summary of a plan covers: all that is shown up to it, and nothing of what is kept. *)
Lemma plan_threshold b log n :
  incr log -> (forall e, e ∈ log -> 0 <= e_seq e) -> take n (after b log) <> [] ->
  let T := compactionThroughSeq (heads b log ++ take n (after b log)) in
  js_filter (fun e => negb (is_summary e) && (e_seq e >? T)) (js_filter (shown b) log) = drop n (after b log) /\
  exists e, e ∈ log /\ T <= e_seq e.
Proof.
  intros Hinc Hpos Hne T.
  assert (Hsub : after b log `sublist_of` log) by (etrans; apply js_filter_sublist).
  pose proof (incr_sublist _ _ Hsub Hinc) as Hia. rewrite <- (take_drop n (after b log)) in Hia.
  apply incr_app in Hia as (_ & _ & Hlt).
  assert (Hns : forall e, e ∈ after b log -> is_summary e = false /\ above log e = true).
  { intros e [He _]%elem_of_js_filter. apply andb_true_iff in He as [He ?]. by apply negb_true_iff in He. }
  assert (Htake : forall e, e ∈ take n (after b log) -> e_seq e <= T).
  { intros e He. assert (He' : e ∈ after b log) by (exact (sub_in e (sublist_take _ _) He)).
    pose proof (throughSeq_ge (heads b log ++ take n (after b log)) e) as H.
    rewrite (is_summary_None _ (proj1 (Hns _ He'))) in H. apply H. apply elem_of_app. by right. }
  assert (exists x0, x0 ∈ take n (after b log)) as [x0 Hx0].
  { destruct (take n (after b log)) as [|x0 l0]; [done|]. exists x0. by left. }
  assert (Hx0a : x0 ∈ after b log) by (exact (sub_in x0 (sublist_take _ _) Hx0)).
  assert (Hbound : forall m, -1 <= m -> (forall e, e ∈ take n (after b log) -> e_seq e <= m) -> e_seq x0 <= m -> T <= m).
  { intros m Hm Hall Hx. apply throughSeq_le; [done|]. intros e [He|He]%elem_of_app.
    - destruct (heads_cases b log) as [E|(s & [t txt] & E & Hs & Hl)]; rewrite E in He; [by apply elem_of_nil in He|].
      apply list_elem_of_singleton in He as ->. rewrite Hs. destruct (Hns _ Hx0a) as [_ Hab]. unfold above in Hab.
      rewrite Hl, Hs in Hab. cbn in Hab. rewrite Z.gtb_ltb in Hab. apply Z.ltb_lt in Hab. lia.
    - assert (He' : e ∈ after b log) by (exact (sub_in e (sublist_take _ _) He)).
      rewrite (is_summary_None _ (proj1 (Hns _ He'))). by apply Hall. }
  split.
  - assert (Ha : js_filter (fun e => negb (is_summary e) && (e_seq e >? T)) (js_filter (shown b) log) =
                 js_filter (fun e => e_seq e >? T) (after b log)).
    { unfold after. rewrite <- (js_filter_and (fun e => negb (is_summary e) && above log e) (fun e => e_seq e >? T)).
      apply js_filter_ext. intros e He. destruct (is_summary e); [done|]. cbn [negb andb].
      destruct (e_seq e >? T) eqn:Eg; [|by rewrite andb_false_r]. rewrite andb_true_r. symmetry.
      unfold above. destruct (latest_of log) as [s|] eqn:El; [|done].
      destruct (Hns _ Hx0a) as [_ Hab]. unfold above in Hab. rewrite El in Hab.
      rewrite Z.gtb_ltb in *. apply Z.ltb_lt in Hab, Eg. apply Z.ltb_lt. specialize (Htake _ Hx0). lia. }
    rewrite Ha, <- (take_drop n (after b log)) at 1. rewrite js_filter_app.
    rewrite (proj2 (js_filter_nil _ (take n (after b log)))); [cbn [app]; apply js_filter_id|].
    + intros e He. rewrite Z.gtb_ltb. apply Z.ltb_lt.
      enough (T <= e_seq e - 1) by lia. apply Hbound.
      * assert (0 <= e_seq e); [|lia]. apply Hpos, (sub_in e Hsub).
        rewrite <- (take_drop n (after b log)). apply elem_of_app. by right.
      * intros x Hx. specialize (Hlt x e Hx He). lia.
      * specialize (Hlt x0 e Hx0 He). lia.
    + intros e He. rewrite Z.gtb_ltb. apply Z.ltb_ge. by apply Htake.
  - destruct (last_is_Some (take n (after b log))) as [_ Hl]. destruct (Hl Hne) as [e El].
    assert (He : e ∈ take n (after b log)) by (by apply last_Some_elem_of).
    exists e. split; [apply (sub_in e Hsub), (sub_in e (sublist_take _ _) He)|].
    assert (Hmax : forall x, x ∈ take n (after b log) -> e_seq x <= e_seq e).
    { intros x Hx. apply last_Some in El as [l' El']. rewrite El' in Hx.
      assert (Hi : incr (l' ++ [e])) by (rewrite <- El'; eapply incr_sublist; [etrans; [apply sublist_take|exact Hsub]|done]).
      apply incr_app in Hi as (_ & _ & Hi). apply elem_of_app in Hx as [Hx| ->%list_elem_of_singleton]; [|lia].
      specialize (Hi x e Hx (list_elem_of_here _ _)). lia. }
    apply Hbound; [|done|by apply Hmax]. pose proof (Hpos x0 (sub_in x0 Hsub Hx0a)).
    specialize (Hmax _ Hx0). lia.
Qed.

(** The summary [s] of a plan, written after [more] has been said, takes the place of exactly
    what it covers. *)
Lemma summary_takes_place b log more me mt kt kr re rt p s txt :
  incr (log ++ more ++ [s]) -> (forall e, e ∈ log -> 0 <= e_seq e) -> (forall e, e ∈ more -> is_summary e = false) ->
  planCompaction tokens (forModelContext b log) me mt kt kr re rt = Some p -> toSummarize p <> [] ->
  contextSummaryPayload s = Some (compactionThroughSeq (toSummarize p), txt) -> b || negb (tainted s) = true ->
  forModelContext b (log ++ more ++ [s]) = s :: kept p ++ js_filter (shown b) more.
Proof.
  intros Hinc Hpos Hmore Hp Hne Hs Ht. destruct (plan_splits b log me mt kt kr re rt p Hp Hne) as (n & Hsum & Hn & Hk).
  apply incr_app in Hinc as (Hi1 & _ & Hlt). rewrite Hsum in Hs.
  destruct (plan_threshold b log n Hi1 Hpos Hn) as [Hth (e0 & He0 & HT)].
  set (T := compactionThroughSeq _) in *.
  assert (Hsm : is_summary s = true) by (unfold is_summary; by rewrite Hs).
  unfold forModelContext. rewrite !app_assoc. rewrite (find_last_snoc _ _ s); [|by rewrite (summary_replayable _ Hsm), Hsm].
  assert (Hshown : shown b s = true) by (unfold shown; by rewrite (summary_replayable _ Hsm), Ht).
  rewrite Hs. cbn [from_option fst]. rewrite Hshown. cbn [app]. f_equal.
  rewrite !js_filter_app, Hth, <- Hk. cbn [js_filter]. rewrite Hshown. cbn [js_filter].
  rewrite Hsm. cbn [negb andb]. rewrite app_nil_r. f_equal. apply js_filter_id.
  intros e [_ He]%elem_of_js_filter. rewrite (Hmore e He). cbn [negb andb]. rewrite Z.gtb_ltb. apply Z.ltb_lt.
  specialize (Hlt e0 e He0 (proj2 (elem_of_app _ _ _) (or_introl He))). lia.
Qed.
End keeping.

(** The dense log of a session. *)
Definition dense (l : list SessionEntry) : Prop := forall i e, l !! i = Some e -> e_seq e = Z.of_nat i.

Lemma dense_incr l : dense l -> incr l.
Proof.
  induction l as [|e l IH] using rev_ind; intros Hd; [constructor|]. apply incr_app. split; [|split].
  - apply IH. intros i x Hx. apply Hd. by apply lookup_app_l_Some.
  - repeat constructor.
  - intros a b Ha ->%list_elem_of_singleton. apply list_elem_of_lookup in Ha as [i Hi].
    rewrite (Hd i a) by by apply lookup_app_l_Some. rewrite (Hd (length l) e) by by rewrite lookup_app_r, Nat.sub_diag.
    apply lookup_lt_Some in Hi. lia.
Qed.
Lemma dense_pos l e : dense l -> e ∈ l -> 0 <= e_seq e.
Proof. intros Hd [i Hi]%list_elem_of_lookup. rewrite (Hd _ _ Hi). lia. Qed.

(** What was said since the last entry of the snapshot. *)
Lemma dense_since log more :
  dense (log ++ more) ->
  js_filter (fun e => from_option e_seq (-1) (last log) + 1 <=? e_seq e) (log ++ more) = more.
Proof.
  intros Hd. assert (Hl : from_option e_seq (-1) (last log) + 1 = Z.of_nat (length log)).
  { destruct log as [|e l _] using rev_ind; [done|]. rewrite last_snoc, length_app. simpl.
    rewrite (Hd (length l) e); [lia|]. rewrite <- app_assoc. by rewrite lookup_app_r, Nat.sub_diag. }
  rewrite Hl, js_filter_app. rewrite (proj2 (js_filter_nil _ log)).
  - apply js_filter_id. intros e [i Hi]%list_elem_of_lookup. apply Z.leb_le.
    rewrite (Hd (length log + i)%nat e); [lia|]. rewrite lookup_app_r by lia. rewrite <- Hi. f_equal. lia.
  - intros e [i Hi]%list_elem_of_lookup. apply Z.leb_gt. rewrite (Hd i e) by by apply lookup_app_l_Some.
    apply lookup_lt_Some in Hi. lia.
Qed.

Lemma getEntries_all id st : dense (logs st !! id ?? []) -> getEntries id None None st = logs st !! id ?? [].
Proof.
  intros Hd. unfold getEntries, last_limit. apply js_filter_id. intros e He. apply Z.leb_le. by eapply dense_pos.
Qed.

Lemma append_log ttl now lease e st full st' :
  append ttl now lease e st = (Ok full, st') ->
  logs st' !! l_sessionId lease ?? [] = (logs st !! l_sessionId lease ?? []) ++ [full] /\
  full = new_entry now (l_sessionId lease) (Z.of_nat (length (logs st !! l_sessionId lease ?? []))) e.
Proof.
  unfold append. destruct (negb _); [done|]. change (logs (renew ttl now lease st)) with (logs st).
  destruct (logs st !! l_sessionId lease) as [log|] eqn:El; [|done]. intros [= <- <-].
  split; [|done]. change (logs _) with (<[l_sessionId lease := log ++ [new_entry now (l_sessionId lease) (Z.of_nat (length log)) e]]> (logs st)).
  by rewrite lookup_set_eq.
Qed.
Lemma appendTape_logs ttl now lease r st : logs (appendTape ttl now lease r st).2 = logs st.
Proof. unfold appendTape. by destruct (negb _). Qed.

Lemma writeCompaction_log ttl n1 n2 n3 lease s st summary mirrored st' :
  writeCompaction ttl n1 n2 n3 lease s st = (Ok (summary, mirrored), st') ->
  logs st' !! l_sessionId lease ?? [] = (logs st !! l_sessionId lease ?? []) ++ [summary] /\
  contextSummaryPayload summary = Some (su_throughSeq s, su_text s) /\ tainted summary = su_tainted s /\
  e_scopeLabel summary = su_label s /\ e_seq summary = Z.of_nat (length (logs st !! l_sessionId lease ?? [])).
Proof.
  unfold writeCompaction. destruct (append _ _ _ _ st) as [[full|e] st1] eqn:Ea; [|done].
  apply append_log in Ea as [Hl ->]. set (full := new_entry _ _ _ _) in *.
  assert (Hf : contextSummaryPayload full = Some (su_throughSeq s, su_text s) /\ tainted full = su_tainted s /\
    e_scopeLabel full = su_label s /\ e_seq full = Z.of_nat (length (logs st !! l_sessionId lease ?? [])))
    by (split; [done|]; split; [by unfold tainted; simpl; destruct (su_tainted s)|done]).
  destruct (appendTape _ _ _ _ st1) as [[r|e] st2] eqn:Et; intros [= <- <- <-];
    pose proof (f_equal (fun x => logs x.2) Et) as H2; cbv beta in H2; rewrite appendTape_logs in H2; cbn [snd] in H2;
    rewrite <- Hl; (split; [|exact Hf]).
  - destruct (_ === _); [|by rewrite H2]. by rewrite appendTape_logs, H2.
  - by rewrite H2.
Qed.

(** A plan that summarises nothing yields no summary; one that yields a summary has a model. *)
Lemma summarize_inv tokens managed model me mt history scope org s :
  summarizeForCompaction tokens managed model me mt history scope org = Ok (Some s) ->
  exists f p, model = Some f /\
    planCompaction tokens history me mt (keepRecentTenths) (keepRecentEntries me) (keepRecentEntries me + 1)
      ((mt * keepRecentTenths) / 10) = Some p /\ toSummarize p <> [] /\ f (toSummarize p) = Ok (su_text s) /\
    compactedScopeLabel (toSummarize p) scope org = Some (su_label s) /\
    su_throughSeq s = compactionThroughSeq (toSummarize p) /\ su_tainted s = some tainted (toSummarize p).
Proof.
  unfold summarizeForCompaction. destruct (managed scope); [done|]. destruct model as [f|]; [|done].
  destruct (planCompaction _ _ _ _ _ _ _ _) as [p|] eqn:Ep; [|done].
  destruct (toSummarize p) as [|e l] eqn:El; [done|]. destruct (compactedScopeLabel _ _ _) as [label|] eqn:Ec; [|done].
  destruct (f (e :: l)) as [t|] eqn:Ef; [|done]. intros [= <-]. exists f, p. rewrite El. by split_and!.
Qed.

Lemma dense_snoc l e : dense l -> e_seq e = Z.of_nat (length l) -> dense (l ++ [e]).
Proof.
  intros Hd He i x [Hx|[Hi Hx]]%lookup_app_Some; [by apply Hd|].
  apply list_lookup_singleton_Some in Hx as [? <-]. lia.
Qed.

Lemma shown_untainted b l : (forall e, e ∈ l -> shown b e = true) -> b || negb (some tainted l) = true.
Proof.
  intros H. destruct b; [done|]. cbn [orb]. apply negb_true_iff, some_false. intros e He. cbv beta.
  specialize (H e He). unfold shown in H. apply andb_true_iff in H as [_ H]. cbn [orb] in H. by apply negb_true_iff.
Qed.


(** ** The bounds of what is kept *)

Section bounds.
Variable tokens : SessionEntry -> Z.

Lemma recent_count_bounds l mc mt count spent :
  0 <= count -> count <= recent_count tokens l mc mt count spent <= Z.max count mc.
Proof.
  revert count spent. induction l as [|e l IH]; intros count spent Hc; cbn [recent_count]; [lia|].
  destruct (count >=? mc) eqn:E; [lia|]. destruct (_ && _); [lia|].
  specialize (IH (count + 1) (spent + tokens e) ltac:(lia)). lia.
Qed.

(** The entries counted fit the budget of tokens, unless it is one entry that does not. *)
Lemma recent_count_tokens l mc mt :
  let n := Z.to_nat (recent_count tokens l mc mt 0 0) in
  (n <= length l)%nat /\ (estimateHistoryTokens tokens (take n l) <= mt \/ (n <= 1)%nat).
Proof.
  assert (H : forall k c s, 0 <= c -> let r := recent_count tokens k mc mt c s in
    let n := Z.to_nat (r - c) in (n <= length k)%nat /\
    (s + estimateHistoryTokens tokens (take n k) <= mt \/ r <= 1 \/ n = 0%nat)).
  { induction k as [|e k IH]; intros c s Hc; cbn [recent_count].
    - cbv zeta. rewrite Z.sub_diag. cbn. split; [done|]. by right; right.
    - destruct (c >=? mc) eqn:E1; [cbv zeta; rewrite Z.sub_diag; split; [cbn; lia|by right; right]|].
      destruct ((c >=? 1) && (s + tokens e >? mt)) eqn:E2; [cbv zeta; rewrite Z.sub_diag; split; [cbn; lia|by right; right]|].
      destruct (IH (c + 1) (s + tokens e) ltac:(lia)) as [Hn Ht].
      pose proof (recent_count_bounds k mc mt (c + 1) (s + tokens e) ltac:(lia)) as Hb.
      set (r := recent_count _ k _ _ _ _) in *. cbv zeta. cbv zeta in Hn, Ht.
      replace (Z.to_nat (r - c)) with (S (Z.to_nat (r - (c + 1)))) by lia. cbn [length take]. split; [lia|].
      change (estimateHistoryTokens tokens (e :: take ?n k)) with (tokens e + estimateHistoryTokens tokens (take n k)).
      destruct Ht as [Ht|[Ht|Ht]]; [left; lia|by right; left|]. assert (Hr : r = c + 1) by lia. rewrite Ht, take_0.
      change (estimateHistoryTokens tokens []) with 0.
      apply andb_false_iff in E2 as [E2|E2]; [right; left; lia|left; lia]. }
  destruct (H l 0 0 ltac:(lia)) as [H1 H2]. cbv zeta in *. rewrite Z.sub_0_r in *. split; [done|].
  destruct H2 as [H2|[H2|H2]]; [by left|right; lia|right; lia].
Qed.

Lemma estimate_app l l' : estimateHistoryTokens tokens (l ++ l') = estimateHistoryTokens tokens l + estimateHistoryTokens tokens l'.
Proof. unfold estimateHistoryTokens. induction l as [|e l IH]; cbn [app fold_right]; [lia|]. rewrite IH. lia. Qed.
Lemma estimate_rev l : estimateHistoryTokens tokens (rev l) = estimateHistoryTokens tokens l.
Proof. induction l as [|e l IH]; [done|]. cbn [rev]. rewrite estimate_app, IH. unfold estimateHistoryTokens. cbn. lia. Qed.

Lemma rev_take_rev {A} n (l : list A) : rev (take n (rev l)) = drop (length l - n) l.
Proof. by rewrite firstn_rev, rev_involutive. Qed.

(** What is kept of a history by its recent end. *)
Lemma recent_end l mc mt :
  let k := drop (length l - Z.to_nat (recentEntryCountWithinBudget tokens l mc mt)) l in
  Z.of_nat (length k) <= Z.max 0 mc /\ (estimateHistoryTokens tokens k <= mt \/ (length k <= 1)%nat).
Proof.
  unfold recentEntryCountWithinBudget. pose proof (recent_count_bounds (rev l) mc mt 0 0 ltac:(lia)) as Hb.
  destruct (recent_count_tokens (rev l) mc mt) as [Hn Ht]. rewrite length_rev in Hn.
  set (n := Z.to_nat _) in *. cbv zeta. rewrite <- rev_take_rev, estimate_rev, length_rev, length_take, length_rev.
  split; [lia|]. destruct Ht as [Ht|Ht]; [by left|right; lia].
Qed.

Lemma boundRecent_length me mt history : Z.of_nat (length (boundRecent tokens me mt history)) <= Z.max 1 me.
Proof.
  unfold boundRecent. destruct (find is_summary history) as [s|].
  - cbn [length]. destruct (recent_end (js_filter (fun e => e_seq e !== e_seq s) history) (me - 1) (mt - tokens s)) as [H _]. lia.
  - destruct (recent_end history me mt) as [H _]. lia.
Qed.
End bounds.

(** The history a turn starts with is bounded: whatever the session shows, however the
    model fails to be available and wherever the plan cuts, a turn that gets a history gets
    at most the configured number of entries, and at least room for one. *)
Theorem compacted_history_bounded tokens managed model me mt ttl n1 n2 n3 lease history scope org st h failed st' :
  compactContextIfNeeded tokens managed model me mt ttl n1 n2 n3 lease history scope org st = (Ok (h, failed), st') ->
  Z.of_nat (length h) <= Z.max 1 me.
Proof.
  unfold compactContextIfNeeded. destruct (negb _) eqn:Eo.
  - intros [= <- <- <-]. apply negb_true_iff in Eo. unfold overBudgetFraction in Eo. apply orb_false_iff in Eo as [Eo _].
    unfold COMPACT_HARD_TENTHS in Eo. lia.
  - unfold applyCompaction. destruct (summarizeForCompaction _ _ _ _ _ _ _ _) as [[s|]|]; [| |done].
    + destruct (writeCompaction _ _ _ _ _ _ _) as [[[summary m]|] st2]; [|done]. intros [= <- <- <-].
      cbn [length]. rewrite length_drop. lia.
    + intros [= <- <- <-]. apply boundRecent_length.
Qed.

(** Without a model the history is cut, and the cut keeps to both budgets: at most the
    configured number of entries, all from the recent end after the summary if there is one,
    and no more tokens than the model takes, the summary included, unless a single recent
    entry alone is over. *)
Theorem cut_history_fits tokens me mt history :
  1 <= me ->
  exists front back,
    boundRecent tokens me mt history = front ++ back /\ Z.of_nat (length (front ++ back)) <= me /\
    (front = [] \/ exists s, front = [s] /\ find is_summary history = Some s) /\
    back `suffix_of` js_filter (fun e => every (fun s => e_seq e !== e_seq s) front) history /\
    (estimateHistoryTokens tokens (front ++ back) <= mt \/ (length back <= 1)%nat).
Proof.
  intros Hme. unfold boundRecent. destruct (find is_summary history) as [s|] eqn:Ef.
  - set (rest := js_filter _ history). destruct (recent_end tokens rest (me - 1) (mt - tokens s)) as [Hl Ht].
    exists [s]. eexists. split; [reflexivity|]. split; [rewrite length_app; cbn [length]; lia|].
    split; [right; by exists s|]. split.
    + erewrite js_filter_ext; [apply suffix_drop|]. intros e _. cbn. by rewrite andb_true_r.
    + destruct Ht as [Ht|Ht]; [left|by right]. rewrite estimate_app. change (estimateHistoryTokens tokens [s]) with (tokens s + 0). lia.
  - destruct (recent_end tokens history me mt) as [Hl Ht]. exists [], (drop (length history - Z.to_nat (recentEntryCountWithinBudget tokens history me mt)) history).
    rewrite app_nil_l. split; [reflexivity|]. split; [lia|].
    split; [by left|]. split; [|done]. rewrite js_filter_id by done. apply suffix_drop.
Qed.

(** ** A session of three entries, compacted in the background *)

Definition demo_said (seq : Z) (t : EntryType) (text : string) : SessionEntry :=
  MkEntry "s" seq (if seq === 0 then None else Some (seq - 1)) t (JObj [("text", JStr text)]) "personal:ann" (10 * seq).
Definition demo_log : list SessionEntry := [demo_said 0 user "one"; demo_said 1 assistant "two"; demo_said 2 user "three"].
Definition demo_more : list SessionEntry := [demo_said 3 assistant "four"].
Definition demo_at (log : list SessionEntry) : SessionStore :=
  MkSessionStore ∅ (<["s" := log]> ∅) ∅ ∅ ∅ ∅ ∅ (<["s" := MkHeld "t" 100 0 None]> ∅).
Definition demo_model : option (list SessionEntry -> result string string) :=
  Some (fun l => Ok ("So far: " +:+ pretty (Z.of_nat (length l)))).
Definition demo_tokens (_ : SessionEntry) : Z := 10.

Example demo_read :
  background_read demo_tokens (fun _ => false) demo_model 4 30 true "s" "personal:ann" "org" (demo_at demo_log)
  = Ok (Some (2, MkSummarized "So far: 2" "personal:ann" 1 false)).
Proof. vm_compute. reflexivity. Qed.


Lemma compacted_history_bounded_witness :
  exists h failed st',
    compactContextIfNeeded demo_tokens (fun _ => false) None 2 30 50 40 41 42 (MkLease "s" "t") demo_log "personal:ann" "org"
      (demo_at demo_log) = (Ok (h, failed), st') /\ length h = 2%nat /\ Z.of_nat (length h) <= Z.max 1 2.
Proof.
  do 3 eexists. split; [vm_compute; reflexivity|]. split; [reflexivity|].
  apply (compacted_history_bounded demo_tokens (fun _ => false) None 2 30 50 40 41 42 (MkLease "s" "t") demo_log "personal:ann" "org"
    (demo_at demo_log) _ false (demo_at demo_log)). vm_compute. reflexivity.
Defined.

Lemma cut_history_fits_witness :
  boundRecent demo_tokens 2 30 demo_log = [demo_said 1 assistant "two"; demo_said 2 user "three"] /\
  exists front back, boundRecent demo_tokens 2 30 demo_log = front ++ back /\ Z.of_nat (length (front ++ back)) <= 2 /\
    (estimateHistoryTokens demo_tokens (front ++ back) <= 30 \/ (length back <= 1)%nat).
Proof.
  split; [reflexivity|]. destruct (cut_history_fits demo_tokens 2 30 demo_log ltac:(lia)) as (f & k & H1 & H2 & _ & _ & H3).
  exists f, k. split; [exact H1|]. split; [exact H2|exact H3].
Defined.
