(* ===== verification/Screener.v ===== *)
(** * The screener: classifying a payload through a proxy, and the classifier of a turn

    The payload cut into overlapping chunks that never split a character, the classification
    of the chunks two at a time with their retries, and the verdict on the whole
    ([src/src/security/security-screener.ts]); the classifier that asks a model or the proxy,
    waits a bounded time and answers in any case
    ([src/src/core/orchestrator/security-screen.ts]).  Text is a list of 16-bit units here,
    since the cuts are about surrogates.  The network, the clock and the model are the
    host's: their answers are arguments. *)

From Stdlib Require Import QArith.
From S2P Require Import Prelude JsString Json Posture.

#[local] Open Scope Z_scope.

(** ** Chunks *)

Definition high_surrogate (c : Z) : bool := (55296 <=? c) && (c <=? 56319).
Definition low_surrogate (c : Z) : bool := (56320 <=? c) && (c <=? 57343).
(** [String.prototype.toWellFormed]. *)
Fixpoint toWellFormed (l : list Z) : list Z :=
  match l with
  | [] => []
  | c :: tl =>
      if high_surrogate c
      then match tl with
           | d :: rest => if low_surrogate d then c :: d :: toWellFormed rest else 65533 :: toWellFormed tl
           | [] => [65533]
           end
      else (if low_surrogate c then 65533 else c) :: toWellFormed tl
  end.
(** [charCodeAt], where a comparison with what is past the end is false. *)
Definition code_at (l : list Z) (i : nat) : Z := l !! i ?? -1.

(** [SECURITY_SCREEN_CHUNK_CHARS] src/src/security/security-screener.ts:50-50 *)
Definition SECURITY_SCREEN_CHUNK_CHARS : nat := Z.to_nat 1600.
(** [SECURITY_SCREEN_CHUNK_OVERLAP_CHARS] src/src/security/security-screener.ts:51-51 *)
Definition SECURITY_SCREEN_CHUNK_OVERLAP_CHARS : nat := Z.to_nat 256.

(** [securityScreenChunks] src/src/security/security-screener.ts:61-65
    The end of the chunk that begins at [start]. *)
Definition chunk_end (l : list Z) (start : nat) : nat :=
  let end_ := Nat.min (start + SECURITY_SCREEN_CHUNK_CHARS) (length l) in
  if (end_ <? length l)%nat && low_surrogate (code_at l end_) then (end_ - 1)%nat else end_.
(** [securityScreenChunks] src/src/security/security-screener.ts:68-70 *)
Definition next_start (l : list Z) (start end_ : nat) : nat :=
  let s := Nat.max (end_ - SECURITY_SCREEN_CHUNK_OVERLAP_CHARS) (start + 1) in
  if low_surrogate (code_at l s) then S s else s.
(** [securityScreenChunks] src/src/security/security-screener.ts:60-71
    In the units of fuel. *)
Fixpoint chunk_loop (fuel : nat) (l : list Z) (start : nat) : list (list Z) :=
  match fuel with
  | O => []
  | S fuel =>
      if (start <? length l)%nat then
        let end_ := chunk_end l start in
        take (end_ - start) (drop start l)
        :: (if (end_ =? length l)%nat then [] else chunk_loop fuel l (next_start l start end_))
      else []
  end.
(** [securityScreenChunks] src/src/security/security-screener.ts:55-73 *)
Definition securityScreenChunks (text : list Z) : list (list Z) :=
  let normalized := toWellFormed text in
  if (length normalized <=? SECURITY_SCREEN_CHUNK_CHARS)%nat then [normalized]
  else chunk_loop (length normalized) normalized 0.

(** ** One classification *)

(** [SecurityScreenClassification] src/src/security/security-screener.ts:9-14 *)
Record Classification := MkClass { c_verdict : Verdict; c_score : Q; c_threshold : Q; c_outcome : option string }.

(** A body read as JSON, as far as its fields are looked at: a number that is not finite is
    [v_number None]. *)
Inductive Value := v_number (q : option Q) | v_string (s : string) | v_other.
Record Body := MkBody { b_score : option Value; b_threshold : option Value; b_outcome : option Value }.

(** [OUTCOME] src/src/security/security-screener.ts:53-53 *)
Definition OUTCOME (s : string) : bool :=
  match s with
  | "" => false
  | String c s =>
      (in_range 97 122 c || is_digit c)
      && str_every (fun c => in_range 97 122 c || is_digit c || includes ["."; "_"; "-"]%char c) s && (str_len s <=? 127)
  end.

Section body.
(** [JSON.parse]: [None] throws, [Some None] is no object. *)
Variable parse_body : string -> option (option Body).
Variable provider : string.

Definition unit_interval (v : option Value) : option Q :=
  match v with Some (v_number (Some q)) => if Qle_bool 0 q && Qle_bool q 1 then Some q else None | _ => None end.
(** [classification] src/src/security/security-screener.ts:166-169 *)
Definition outcome_of (v : option Value) : option (option string) :=
  match v with None => Some None | Some (v_string s) => if OUTCOME s then Some (Some s) else None | Some _ => None end.
(** [classification] src/src/security/security-screener.ts:141-179 *)
Definition classification (body : string) : result string Classification :=
  match parse_body body with
  | None => Throw "Security screen proxy returned invalid JSON"
  | Some None => Throw "Security screen proxy returned an invalid classification"
  | Some (Some b) =>
      match unit_interval b.(b_score), unit_interval b.(b_threshold) with
      | Some score, Some threshold =>
          match outcome_of b.(b_outcome) with
          | None => Throw "Security screen proxy returned an invalid outcome"
          | Some outcome =>
              Ok (MkClass
                    (if Qle_bool threshold score
                     then MkVerdict d_strict (Some (provider +:+ ":" +:+ (outcome ?? "malicious"))) false
                     else MkVerdict d_auto None false)
                    score threshold outcome)
          end
      | _, _ => Throw "Security screen proxy returned invalid scores"
      end
  end.

(** ** Requests *)

(** What a request comes to: a response with its status, the length it declares and the
    pieces of its body, [None] for a read that fails; or a failure, a passed deadline
    included. *)
Inductive Fetched := response (status : Z) (declared : option Z) (pieces : list (option string)) | fetch_failed (message : string).

(** [MAX_SECURITY_SCREEN_RESPONSE_BYTES] src/src/security/security-screener.ts:49-49 *)
Definition MAX_SECURITY_SCREEN_RESPONSE_BYTES : Z := 64 * 1024.
Variable utf8 : string -> string.
(** [responseText] src/src/security/security-screener.ts:125-134 *)
Fixpoint read_pieces (total : Z) (acc : string) (l : list (option string)) : result string string :=
  match l with
  | [] => Ok (utf8 acc)
  | None :: _ => Throw "read failed"
  | Some piece :: l =>
      let total := total + str_len piece in
      if total >? MAX_SECURITY_SCREEN_RESPONSE_BYTES then Throw "Security screen proxy response exceeds the supported limit"
      else read_pieces total (acc +:+ piece) l
  end.
(** [responseText] src/src/security/security-screener.ts:114-139 *)
Definition responseText (declared : option Z) (pieces : list (option string)) : result string string :=
  match declared with
  | Some n => if n >? MAX_SECURITY_SCREEN_RESPONSE_BYTES then Throw "Security screen proxy response exceeds the supported limit"
              else read_pieces 0 "" pieces
  | None => read_pieces 0 "" pieces
  end.

(** [SECURITY_SCREEN_RETRY_MS] src/src/security/security-screener.ts:52-52 *)
Definition SECURITY_SCREEN_RETRY_MS : list Z := [250; 1000; 4000].
(** [retryDelayMs] src/src/security/security-screener.ts:181-187
    The header as its number in thousandths, when it is one. *)
Definition retryDelayMs (retryAfter : option Z) (fallback : Z) : Z :=
  match retryAfter with Some ms => if 0 <=? ms then Z.min ms 30000 else fallback | None => fallback end.

(** [net chunk attempt] is what the request for a chunk comes to; a wait that is cut short is
    the failure of the request after it. *)
Variable net : nat -> nat -> Fetched.
(** [createSecurityScreenProxy] src/src/security/security-screener.ts:231-254 *)
Fixpoint classify_attempts (chunk attempt budget : nat) : result string Classification :=
  match budget with
  | O => Throw "Security screen proxy retry loop exhausted"
  | S budget =>
      match net chunk attempt with
      | fetch_failed m => Throw m
      | response status declared pieces =>
          if (status =? 429) && (attempt <? length SECURITY_SCREEN_RETRY_MS)%nat then classify_attempts chunk (S attempt) budget
          else if negb ((200 <=? status) && (status <=? 299)) then Throw "Security screen proxy returned HTTP"
          else t ← responseText declared pieces; classification t
      end
  end.
Definition classify_chunk (chunk : nat) : result string Classification :=
  classify_attempts chunk 0 (S (length SECURITY_SCREEN_RETRY_MS)).

(** ** All chunks *)

(** Whether the deadline has passed when a batch begins, and which of two failures of a batch
    comes first. *)
Variable aborted : nat -> bool.
Variable second_fails_first : nat -> bool.
(** [classifyChunks] src/src/security/security-screener.ts:88-104
    The batch of one or two chunks at [start]. *)
Definition batch (start n : nat) : result string (list Classification) :=
  match n with
  | 0%nat => Ok []
  | 1%nat => a ← classify_chunk start; Ok [a]
  | _ =>
      match classify_chunk start, classify_chunk (S start) with
      | Ok a, Ok b => Ok [a; b]
      | Throw e, Ok _ | Ok _, Throw e => Throw e
      | Throw e, Throw e' => Throw (if second_fails_first start then e' else e)
      end
  end.
(** [classifyChunks] src/src/security/security-screener.ts:75-108 *)
Fixpoint classifyChunks (fuel start n : nat) : result string (list Classification) :=
  match fuel with
  | O => if aborted start then Throw "aborted" else Ok []
  | S fuel =>
      match n with
      | 0%nat => if aborted start then Throw "aborted" else Ok []
      | _ =>
          if aborted start then Throw "aborted"
          else here ← batch start (Nat.min n 2); rest ← classifyChunks fuel (start + 2)%nat (n - 2)%nat; Ok (here ++ rest)
      end
  end.

(** [createSecurityScreenProxy] src/src/security/security-screener.ts:258-263 *)
Definition worse (highest current : Classification) : Classification :=
  if current.(c_verdict).(v_decision) !== highest.(c_verdict).(v_decision)
  then (if current.(c_verdict).(v_decision) === d_strict then current else highest)
  else if negb (Qle_bool current.(c_score) highest.(c_score)) then current else highest.
(** [MAX_SECURITY_SCREEN_CHARS] src/src/security/security-screener.ts:48-48 *)
Definition MAX_SECURITY_SCREEN_CHARS : Z := 16000.

(** [createSecurityScreenProxy] src/src/security/security-screener.ts:203-207
    What may begin, with [active] classifications of a shadow under way; the count then. *)
Definition classify_enter (shadow : bool) (active : Z) (payload : list Z) : result string Z :=
  if (Z.of_nat (length payload) >? MAX_SECURITY_SCREEN_CHARS) then Throw "Security screen proxy payload exceeds the supported limit"
  else if shadow && (active >=? 2) then Throw "Security screen proxy shadow capacity reached"
  else Ok (if shadow then active + 1 else active).
(** [createSecurityScreenProxy] src/src/security/security-screener.ts:264-266 *)
Definition classify_leave (shadow : bool) (active : Z) : Z := if shadow then active - 1 else active.
(** [createSecurityScreenProxy] src/src/security/security-screener.ts:209-263 *)
Definition classify_payload (payload : list Z) : result string Classification :=
  let chunks := securityScreenChunks payload in
  l ← classifyChunks (length chunks) 0 (length chunks);
  match l with [] => Throw "Reduce of empty array with no initial value" | c :: l => Ok (fold_left worse l c) end.
(** [createSecurityScreenProxy] src/src/security/security-screener.ts:202-267
    One classification while no other one begins or ends. *)
Definition classify (shadow : bool) (active : Z) (payload : list Z) : result string Classification * Z :=
  match classify_enter shadow active payload with
  | Throw e => (Throw e, active)
  | Ok active => (classify_payload payload, classify_leave shadow active)
  end.
End body.

(** ** What the chunks cover *)

(** A text in which every surrogate is one half of a pair. *)
Fixpoint well_formed (l : list Z) : bool :=
  match l with
  | [] => true
  | c :: tl =>
      if high_surrogate c then match tl with d :: rest => low_surrogate d && well_formed rest | [] => false end
      else negb (low_surrogate c) && well_formed tl
  end.

Lemma high_not_low c : high_surrogate c = true -> low_surrogate c = false.
Proof. unfold high_surrogate, low_surrogate. lia. Qed.

(** Induction on a text, a pair at a time. *)
Lemma text_ind (P : list Z -> Prop) :
  P [] -> (forall c l, P l -> (forall d r, l = d :: r -> P r) -> P (c :: l)) -> forall l, P l.
Proof.
  intros H0 H1 l. enough (H : P l /\ forall d r, l = d :: r -> P r) by apply H.
  induction l as [|c l [IH1 IH2]]; split; [done|done|by apply H1|]. by intros d r [= <- <-].
Qed.

Lemma toWellFormed_wf l : well_formed (toWellFormed l) = true.
Proof.
  induction l as [|c l IH IH2] using text_ind; [done|]. cbn [toWellFormed].
  destruct (high_surrogate c) eqn:Eh.
  - destruct l as [|d r]; [done|]. destruct (low_surrogate d) eqn:El; cbn [well_formed].
    + rewrite Eh, El. cbn [andb]. by eapply IH2.
    + exact IH.
  - destruct (low_surrogate c) eqn:El; cbn [well_formed]; [exact IH|]. by rewrite Eh, El.
Qed.
Lemma toWellFormed_id l : well_formed l = true -> toWellFormed l = l.
Proof.
  induction l as [|c l IH IH2] using text_ind; [done|]. cbn [well_formed toWellFormed].
  destruct (high_surrogate c) eqn:Eh.
  - destruct l as [|d r]; [done|]. intros [-> Hr]%andb_true_iff. do 2 f_equal. by eapply IH2.
  - intros [Hl Hr]%andb_true_iff. apply negb_true_iff in Hl. rewrite Hl. f_equal. by apply IH.
Qed.

Lemma code_at_cons c l i : code_at (c :: l) (S i) = code_at l i.
Proof. done. Qed.

(** A text may be cut where no second half of a pair follows. *)
Lemma wf_cut l n : well_formed l = true -> low_surrogate (code_at l n) = false ->
  well_formed (take n l) = true /\ well_formed (drop n l) = true.
Proof.
  revert n. induction l as [|c l IH IH2] using text_ind; intros n.
  - by destruct n.
  - intros Hw Hl. destruct n as [|n]; [done|]. rewrite code_at_cons in Hl. cbn [take drop]. cbn [well_formed] in Hw |- *.
    destruct (high_surrogate c) eqn:Eh.
    + destruct l as [|d r]; [done|]. apply andb_true_iff in Hw as [Hd Hr]. destruct n as [|n]; [cbn in Hl; congruence|].
      rewrite code_at_cons in Hl. cbn [take drop]. rewrite Hd. cbn [andb]. by apply (IH2 d r eq_refl).
    + apply andb_true_iff in Hw as [Hc Hr]. rewrite Hc. cbn [andb]. by apply IH.
Qed.
Lemma wf_low_alone l n : well_formed l = true -> low_surrogate (code_at l n) = true ->
  exists n', n = S n' /\ low_surrogate (code_at l n') = false /\ low_surrogate (code_at l (S n)) = false.
Proof.
  revert n. induction l as [|c l IH IH2] using text_ind; intros n.
  - by destruct n.
  - intros Hw Hl. cbn [well_formed] in Hw. destruct n as [|n].
    + cbn in Hl. destruct (high_surrogate c) eqn:Eh; [apply high_not_low in Eh; congruence|]. by rewrite Hl in Hw.
    + exists n. split; [done|]. rewrite code_at_cons in Hl |- *. destruct (high_surrogate c) eqn:Eh.
      * destruct l as [|d r]; [done|]. apply andb_true_iff in Hw as [Hd Hr]. destruct n as [|n].
        -- split; [by apply high_not_low|]. rewrite code_at_cons. destruct r as [|e r]; [done|].
           cbn in Hr. cbn [code_at lookup]. change (low_surrogate e = false). destruct (high_surrogate e) eqn:Ee; [by apply high_not_low|].
           by apply andb_true_iff in Hr as [?%negb_true_iff _].
        -- rewrite code_at_cons in Hl. destruct (IH2 d r eq_refl n Hr Hl) as (n' & -> & H1 & H2). by rewrite !code_at_cons in *.
      * apply andb_true_iff in Hw as [Hc Hr]. destruct (IH n Hr Hl) as (n' & -> & H1 & H2). by rewrite !code_at_cons in *.
Qed.

Section cover.
Variable l : list Z.
Hypothesis Hwf : well_formed l = true.

Lemma chunk_end_bounds start : (start < length l)%nat ->
  (start < chunk_end l start <= length l)%nat /\ (chunk_end l start <= start + SECURITY_SCREEN_CHUNK_CHARS)%nat /\
  (chunk_end l start = length l \/ start + 1599 <= chunk_end l start)%nat /\
  low_surrogate (code_at l (chunk_end l start)) = false.
Proof.
  intros Hs. unfold chunk_end, SECURITY_SCREEN_CHUNK_CHARS. set (e := Nat.min _ _).
  assert (He : (e = length l \/ e = start + Z.to_nat 1600)%nat /\ (start < e <= length l)%nat) by lia.
  destruct ((e <? length l)%nat && low_surrogate (code_at l e)) eqn:E.
  - apply andb_true_iff in E as [E1%Nat.ltb_lt E2]. destruct (wf_low_alone l e Hwf E2) as (n & -> & H & _).
    replace (S n - 1)%nat with n by lia. split; [lia|]. split; [lia|]. split; [lia|done].
  - split; [lia|]. split; [lia|]. split; [lia|]. apply andb_false_iff in E as [E%Nat.ltb_ge|E]; [|done].
    unfold code_at. by rewrite lookup_ge_None_2.
Qed.

Lemma next_start_bounds start end_ : (start + 1599 <= end_)%nat ->
  (start < next_start l start end_ <= end_ - 255)%nat /\ low_surrogate (code_at l (next_start l start end_)) = false.
Proof.
  intros He. unfold next_start, SECURITY_SCREEN_CHUNK_OVERLAP_CHARS. set (s := Nat.max _ _).
  assert (Hs : (s = end_ - 256)%nat) by lia. destruct (low_surrogate (code_at l s)) eqn:E.
  - destruct (wf_low_alone l s Hwf E) as (n & -> & _ & H). split; [lia|done].
  - split; [lia|done].
Qed.

Lemma chunk_loop_spec fuel start :
  (length l - start <= fuel)%nat -> (start < length l)%nat -> low_surrogate (code_at l start) = false ->
  (forall c, c ∈ chunk_loop fuel l start -> well_formed c = true /\ (length c <= SECURITY_SCREEN_CHUNK_CHARS)%nat) /\
  (forall i k, (start <= i)%nat -> (i + k <= length l)%nat -> (k <= 255)%nat ->
     exists c j, c ∈ chunk_loop fuel l start /\ take k (drop j c) = take k (drop i l)).
Proof.
  revert start. induction fuel as [|fuel IH]; intros start Hf Hs Hl; [lia|]. cbn [chunk_loop].
  rewrite (proj2 (Nat.ltb_lt _ _) Hs). cbv zeta. set (e := chunk_end l start).
  destruct (chunk_end_bounds start Hs) as (He1 & He2 & He3 & He4). fold e in He1, He2, He3, He4.
  set (c := take (e - start) (drop start l)).
  assert (Hc : well_formed c = true /\ (length c <= SECURITY_SCREEN_CHUNK_CHARS)%nat).
  { split; [|unfold c; rewrite length_take; lia]. apply wf_cut; [by apply wf_cut|].
    unfold code_at. rewrite lookup_drop. by replace (start + (e - start))%nat with e by lia. }
  assert (Hin : forall i k, (start <= i)%nat -> (i + k <= e)%nat -> take k (drop (i - start) c) = take k (drop i l)).
  { intros i k Hi Hk. unfold c. rewrite skipn_firstn_comm, drop_drop, take_take.
    replace (start + (i - start))%nat with i by lia. f_equal. lia. }
  destruct (e =? length l)%nat eqn:E; [apply Nat.eqb_eq in E|apply Nat.eqb_neq in E].
  - split; [intros x ->%list_elem_of_singleton; done|]. intros i k Hi Hk _. exists c, (i - start)%nat.
    split; [by left|]. apply Hin; lia.
  - destruct He3 as [?|He3]; [lia|]. destruct (next_start_bounds start e He3) as [Hn1 Hn2].
    set (s' := next_start l start e) in *. destruct (IH s') as [I1 I2]; [lia|lia|done|]. split.
    + intros x [->|Hx]%elem_of_cons; [done|by apply I1].
    + intros i k Hi Hk Hk'. destruct (decide (i + k <= e)%nat) as [Hie|Hie].
      * exists c, (i - start)%nat. split; [by left|]. by apply Hin.
      * destruct (I2 i k) as (x & j & Hx & Hj); [lia|lia|lia|]. exists x, j. split; [by right|done].
Qed.
End cover.

(** C36: The screen sees the whole text, whatever is written across a cut.  The chunks of a
    payload are well formed, so no cut falls inside a character; each has at most 1600 units;
    and every run of up to 255 units of the text, wherever it starts, lies whole in at least
    one of them. *)
Theorem chunks_cover text :
  let normalized := toWellFormed text in
  (forall c, c ∈ securityScreenChunks text -> well_formed c = true /\ (length c <= SECURITY_SCREEN_CHUNK_CHARS)%nat) /\
  (forall i k, (i + k <= length normalized)%nat -> (k <= 255)%nat ->
     exists c j, c ∈ securityScreenChunks text /\ take k (drop j c) = take k (drop i normalized)) /\
  (well_formed text = true -> normalized = text).
Proof.
  cbv zeta. pose proof (toWellFormed_wf text) as Hwf. unfold securityScreenChunks. cbv zeta.
  set (l := toWellFormed text) in *. split; [|split; [|by apply toWellFormed_id]].
  - intros c. destruct (_ <=? _)%nat eqn:E; [apply Nat.leb_le in E; by intros ->%list_elem_of_singleton|].
    apply Nat.leb_gt in E. apply (chunk_loop_spec l Hwf); [lia|lia|]. destruct l as [|c0 l0]; [done|].
    cbn in Hwf |- *. destruct (high_surrogate c0) eqn:Eh; [by apply high_not_low|]. by apply andb_true_iff in Hwf as [?%negb_true_iff _].
  - intros i k Hi Hk. destruct (_ <=? _)%nat eqn:E; [exists l, i; split; [by left|done]|].
    apply Nat.leb_gt in E. apply (chunk_loop_spec l Hwf); [lia|lia| |lia|lia|lia]. destruct l as [|c0 l0]; [done|].
    cbn in Hwf |- *. destruct (high_surrogate c0) eqn:Eh; [by apply high_not_low|]. by apply andb_true_iff in Hwf as [?%negb_true_iff _].
Qed.

(** ** The verdict on the whole *)

Section verdict_of_chunks.
Variable parse_body : string -> option (option Body).
Variable provider : string.
Variable utf8 : string -> string.
Variable net : nat -> nat -> Fetched.
Variable aborted second_fails_first : nat -> bool.

Abbreviation chunk_class := (classify_chunk parse_body provider utf8 net).

(** The classifications of the first [n] chunks, in order. *)
Definition chunk_classes (n : nat) (l : list Classification) : Prop :=
  length l = n /\ forall j c, l !! j = Some c -> chunk_class j = Ok c.

Lemma batch_Ok start n l : (n <= 2)%nat -> batch parse_body provider utf8 net second_fails_first start n = Ok l ->
  length l = n /\ forall j c, l !! j = Some c -> chunk_class (start + j)%nat = Ok c.
Proof.
  intros Hn. destruct n as [|[|[|n]]]; [| | |lia]; cbn [batch].
  - intros [= <-]. split; [done|]. by intros j c.
  - destruct (chunk_class start) as [a|] eqn:Ea; [|done]. cbn. intros [= <-]. split; [done|].
    intros [|j] c; [|done]. cbn. intros [= <-]. by rewrite Nat.add_0_r.
  - destruct (chunk_class start) as [a|] eqn:Ea, (chunk_class (S start)) as [b|] eqn:Eb; try done. intros [= <-].
    split; [done|]. intros [|[|j]] c; cbn; [intros [= <-]; by rewrite Nat.add_0_r|intros [= <-]; by rewrite Nat.add_1_r|done].
Qed.

Lemma classifyChunks_Ok fuel start n l : (n <= fuel)%nat ->
  classifyChunks parse_body provider utf8 net aborted second_fails_first fuel start n = Ok l ->
  length l = n /\ forall j c, l !! j = Some c -> chunk_class (start + j)%nat = Ok c.
Proof.
  revert start n l. induction fuel as [|fuel IH]; intros start n l Hn.
  - assert (n = 0)%nat as -> by lia. cbn [classifyChunks]. destruct (aborted start); [done|]. intros [= <-]. split; [done|]. by intros j c.
  - cbn [classifyChunks]. destruct n as [|n].
    + destruct (aborted start); [done|]. intros [= <-]. split; [done|]. by intros j c.
    + destruct (aborted start); [done|].
      intros (here & Hh & (rest & Hr & [= <-])%bind_Ok)%bind_Ok. apply batch_Ok in Hh as [Hl1 H1]; [|lia].
      apply IH in Hr as [Hl2 H2]; [|lia]. split; [rewrite length_app; lia|]. intros j c [Hj|[Hge Hj]]%lookup_app_Some; [by apply H1|].
      assert (Hj' := lookup_lt_Some _ _ _ Hj). destruct (H2 _ _ Hj). f_equal. lia.
Qed.

(** What a classification of one chunk says. *)
Lemma classification_strict t c : classification parse_body provider t = Ok c ->
  (v_decision (c_verdict c) = d_strict <-> Qle (c_threshold c) (c_score c)) /\
  (v_decision (c_verdict c) = d_strict \/ v_decision (c_verdict c) = d_auto /\ v_unscreened (c_verdict c) = false).
Proof.
  unfold classification. destruct (parse_body t) as [[b|]|]; try done.
  destruct (unit_interval (b_score b)) as [s|]; [|done]. destruct (unit_interval (b_threshold b)) as [th|]; [|done].
  destruct (outcome_of (b_outcome b)) as [o|]; [|done]. intros [= <-]. cbn [c_verdict c_threshold c_score].
  destruct (Qle_bool th s) eqn:E; cbn [v_decision v_unscreened].
  - apply Qle_bool_iff in E. split; [done|by left].
  - split; [|by right]. split; [done|]. intros H%Qle_bool_iff. congruence.
Qed.
Lemma chunk_strict i c : chunk_class i = Ok c ->
  (v_decision (c_verdict c) = d_strict <-> Qle (c_threshold c) (c_score c)) /\
  (v_decision (c_verdict c) = d_strict \/ v_decision (c_verdict c) = d_auto /\ v_unscreened (c_verdict c) = false).
Proof.
  unfold classify_chunk. generalize 0%nat at 1. generalize (S (length SECURITY_SCREEN_RETRY_MS)). intros budget.
  induction budget as [|budget IH]; intros a; cbn [classify_attempts]; [done|].
  destruct (net i a) as [status declared pieces|m]; [|done]. destruct (_ && _); [apply IH|]. destruct (negb _); [done|].
  intros (t & _ & Ht)%bind_Ok. by apply (classification_strict t).
Qed.

Lemma worse_one c d :
  (worse c d = c \/ worse c d = d) /\
  (v_decision (c_verdict (worse c d)) = d_strict <-> v_decision (c_verdict c) = d_strict \/ v_decision (c_verdict d) = d_strict) /\
  (forall x, x = c \/ x = d -> v_decision (c_verdict x) = v_decision (c_verdict (worse c d)) -> Qle (c_score x) (c_score (worse c d))).
Proof.
  unfold worse. destruct (v_decision (c_verdict d) !== v_decision (c_verdict c)) eqn:E; to_prop.
  - assert (Hne : forall x : Classification, x = c \/ x = d ->
      forall y, y = c \/ y = d -> v_decision (c_verdict x) = v_decision (c_verdict y) -> Qle (c_score x) (c_score y)).
    { intros x [-> | ->] y [-> | ->] H; try congruence; apply Qle_refl. }
    destruct (v_decision (c_verdict d) === d_strict) eqn:Ed; to_prop.
    + split; [by right|]. split; [tauto|]. intros x Hx. apply Hne; [done|by right].
    + split; [by left|]. split; [tauto|]. intros x Hx. apply Hne; [done|by left].
  - destruct (Qle_bool (c_score d) (c_score c)) eqn:Eq; cbn [negb].
    + apply Qle_bool_iff in Eq. split; [by left|]. split; [rewrite E; tauto|]. intros x [-> | ->] _; [apply Qle_refl|done].
    + split; [by right|]. split; [rewrite E; tauto|]. intros x [-> | ->] _; [|apply Qle_refl].
      destruct (Qlt_le_dec (c_score c) (c_score d)) as [Hlt|Hle]; [by apply Qlt_le_weak|]. apply Qle_bool_iff in Hle. congruence.
Qed.

Lemma worse_spec l c : let r := fold_left worse l c in
  r ∈ c :: l /\
  (v_decision (c_verdict r) = d_strict <-> exists x, x ∈ c :: l /\ v_decision (c_verdict x) = d_strict) /\
  (forall x, x ∈ c :: l -> v_decision (c_verdict x) = v_decision (c_verdict r) -> Qle (c_score x) (c_score r)).
Proof.
  cbv zeta. revert c. induction l as [|d l IH]; intros c; cbn [fold_left].
  - split; [by left|]. split; [|intros x ->%list_elem_of_singleton _; apply Qle_refl].
    split; [intros H; exists c; split; [by left|done]|by intros (x & ->%list_elem_of_singleton & ?)].
  - destruct (IH (worse c d)) as (H1 & H2 & H3). set (r := fold_left worse l (worse c d)) in *.
    assert (Hw : (worse c d = c \/ worse c d = d) /\
      (v_decision (c_verdict (worse c d)) = d_strict <-> v_decision (c_verdict c) = d_strict \/ v_decision (c_verdict d) = d_strict) /\
      (forall x, x = c \/ x = d -> v_decision (c_verdict x) = v_decision (c_verdict (worse c d)) -> Qle (c_score x) (c_score (worse c d)))).
    { apply worse_one. }
    destruct Hw as (W1 & W2 & W3). split; [|split].
    + apply elem_of_cons in H1 as [->|H1]; [destruct W1 as [-> | ->]; [by left|by right; left]|by right; right].
    + rewrite H2. split.
      * intros (x & [->|Hx]%elem_of_cons & Hs); [|exists x; split; [by right; right|done]].
        apply W2 in Hs as [Hs|Hs]; [exists c; split; [by left|done]|exists d; split; [by right; left|done]].
      * intros (x & [->|[->|Hx]%elem_of_cons]%elem_of_cons & Hs).
        -- exists (worse c d). split; [by left|]. apply W2. by left.
        -- exists (worse c d). split; [by left|]. apply W2. by right.
        -- exists x. split; [by right|done].
    + intros x Hx Hs.
      assert (Hcd : x = c \/ x = d -> Qle (c_score x) (c_score r)).
      { intros Hcd. destruct (decide (v_decision (c_verdict (worse c d)) = v_decision (c_verdict r))) as [Heq|Hne].
        - eapply Qle_trans; [apply W3; [done|congruence]|]. apply H3; [by left|done].
        - exfalso. apply Hne. destruct (v_decision (c_verdict r)) eqn:Er.
          + destruct (v_decision (c_verdict (worse c d))) eqn:Ew; [done|]. exfalso.
            assert (d_auto = d_strict); [|done]. apply H2. exists (worse c d). split; [by left|done].
          + apply W2. destruct Hcd as [-> | ->]; auto. }
      apply elem_of_cons in Hx as [->|[->|Hx]%elem_of_cons]; [apply Hcd; by left|apply Hcd; by right|]. apply H3; [by right|done].
Qed.

(** Every chunk of a payload with a verdict was classified, and the verdict is theirs. *)
Lemma classify_payload_chunks payload c :
  classify_payload parse_body provider utf8 net aborted second_fails_first payload = Ok c ->
  exists l c0, chunk_classes (length (securityScreenChunks payload)) (c0 :: l) /\ c = fold_left worse l c0.
Proof.
  intros Hp. unfold classify_payload in Hp. cbv zeta in Hp. apply bind_Ok in Hp as (l & Hl & H).
  apply classifyChunks_Ok in Hl; [|done]. destruct l as [|c0 l]; [done|]. injection H as <-. by exists l, c0.
Qed.

(** A payload passes only when every chunk is below its threshold. *)
Lemma passes_chunks payload c i :
  classify_payload parse_body provider utf8 net aborted second_fails_first payload = Ok c ->
  v_decision (c_verdict c) = d_auto -> (i < length (securityScreenChunks payload))%nat ->
  exists ci, chunk_class i = Ok ci /\ ~ Qle (c_threshold ci) (c_score ci).
Proof.
  intros (l & c0 & [Hn Hall] & ->)%classify_payload_chunks Ha Hi. destruct (worse_spec l c0) as (_ & H2 & _).
  destruct (lookup_lt_is_Some_2 (c0 :: l) i) as [ci Hci]; [lia|]. exists ci. split; [by apply Hall|].
  intros Hq. rewrite (proj2 H2) in Ha; [done|]. exists ci. split; [by eapply list_elem_of_lookup_2|].
  by apply (chunk_strict i ci (Hall _ _ Hci)).
Qed.

(** One malicious chunk makes the payload malicious, and no chunk goes unclassified.  When
    the proxy gives a verdict, every chunk of the payload was classified; the verdict is
    strict exactly when some chunk was at or above its threshold, whatever the others and in
    whatever order the answers came; and the score reported is the highest of the chunks that
    share the verdict.  A chunk that could not be classified, for a bad status, a body that is
    too long or no JSON, scores out of range or a passed deadline, leaves no verdict at all. *)
Theorem proxy_verdict_exact payload c :
  classify_payload parse_body provider utf8 net aborted second_fails_first payload = Ok c ->
  let n := length (securityScreenChunks payload) in
  (forall i, (i < n)%nat -> exists ci, chunk_class i = Ok ci /\
     (v_decision (c_verdict ci) = v_decision (c_verdict c) -> Qle (c_score ci) (c_score c))) /\
  (v_decision (c_verdict c) = d_strict <->
     exists i ci, (i < n)%nat /\ chunk_class i = Ok ci /\ Qle (c_threshold ci) (c_score ci)) /\
  (v_decision (c_verdict c) = d_strict \/ v_decision (c_verdict c) = d_auto /\ v_unscreened (c_verdict c) = false).
Proof.
  intros (l & c0 & [Hn Hall] & ->)%classify_payload_chunks n. fold n in Hn. destruct (worse_spec l c0) as (H1 & H2 & H3).
  assert (Hi : forall i, (i < n)%nat -> exists ci, (c0 :: l) !! i = Some ci /\ chunk_class i = Ok ci).
  { intros i Hi. destruct (lookup_lt_is_Some_2 (c0 :: l) i) as [ci Hci]; [lia|]. exists ci. split; [done|]. by apply Hall. }
  assert (Hin : forall x, x ∈ c0 :: l -> exists i, (i < n)%nat /\ chunk_class i = Ok x).
  { intros x [i Hx]%list_elem_of_lookup. exists i. split; [apply lookup_lt_Some in Hx; lia|]. by apply Hall. }
  split; [|split].
  - intros i Hlt. destruct (Hi i Hlt) as (ci & Hc & Hok). exists ci. split; [done|]. apply H3. by eapply list_elem_of_lookup_2.
  - rewrite H2. split.
    + intros (x & Hx & Hs). destruct (Hin x Hx) as (i & Hlt & Hok). exists i, x. split; [done|]. split; [done|].
      by apply (chunk_strict i x Hok).
    + intros (i & ci & Hlt & Hok & Hq). destruct (Hi i Hlt) as (ci' & Hc & Hok'). rewrite Hok in Hok'. injection Hok' as ->.
      exists ci'. split; [by eapply list_elem_of_lookup_2|]. by apply (chunk_strict i ci' Hok).
  - destruct (Hin _ H1) as (i & _ & Hok). by apply (chunk_strict i _ Hok).
Qed.
End verdict_of_chunks.

(** ** At a concrete payload *)

Definition demo_body (s : string) : option (option Body) :=
  if s === "bad" then Some (Some (MkBody (Some (v_number (Some (9#10)%Q))) (Some (v_number (Some (1#2)%Q))) (Some (v_string "injection"))))
  else if s === "fine" then Some (Some (MkBody (Some (v_number (Some (1#10)%Q))) (Some (v_number (Some (1#2)%Q))) None)) else None.
Definition demo_net (chunk attempt : nat) : Fetched :=
  match chunk, attempt with
  | 0%nat, 0%nat => response 429 None []
  | 0%nat, _ => response 200 (Some 4) [Some "fi"; Some "ne"]
  | _, _ => response 200 None [Some "bad"]
  end.
Definition demo_payload : list Z := repeat 97 1700.

Lemma proxy_verdict_exact_witness :
  exists c, classify_payload demo_body "qm" id demo_net (fun _ => false) (fun _ => false) demo_payload = Ok c /\
    c_verdict c = MkVerdict d_strict (Some "qm:injection") false /\
    (v_decision (c_verdict c) = d_strict <->
       exists i ci, (i < 2)%nat /\ classify_chunk demo_body "qm" id demo_net i = Ok ci /\ Qle (c_threshold ci) (c_score ci)).
Proof.
  eexists. split; [vm_compute; reflexivity|]. split; [reflexivity|].
  exact (proj1 (proj2 (proxy_verdict_exact demo_body "qm" id demo_net (fun _ => false) (fun _ => false) demo_payload
    (MkClass (MkVerdict d_strict (Some "qm:injection") false) (9#10)%Q (1#2)%Q (Some "injection")) ltac:(vm_compute; reflexivity)))).
Defined.
