(* ===== verification/Souls.v ===== *)
(** * SOULs: the instructions of a scope, kept with their history

    The writes of [src/src/resolution/config-store.ts] on the instructions of a scope: one
    durable row holds the current text, its version and every revision.  Several processes
    write with no lock between them; a write is cut at its awaits.  Times and random ids are
    arguments. *)

From S2P Require Import Prelude JsString Scope DurableMap.

#[local] Open Scope Z_scope.

(** ** Data *)

(** [PersistedSoulRevision] src/src/resolution/config-store.ts:32-38 *)
Record Revision := MkRevision {
  r_scopeId : ScopeId; r_content : string; r_version : Z; r_updatedAt : Z; r_updatedBy : option string }.
(** [PersistedSoul] src/src/resolution/config-store.ts:23-31 *)
Record PersistedSoul := MkSoul {
  p_scopeId : ScopeId;
  p_content : string;
  p_version : Z;
  p_updatedAt : option Z;
  p_updatedBy : option string;
  p_history : option (list Revision);
  p_mutationId : option string;
}.
#[export] Instance PersistedSoul_eta : Eta PersistedSoul := fun s =>
  MkSoul s.(p_scopeId) s.(p_content) s.(p_version) s.(p_updatedAt) s.(p_updatedBy) s.(p_history) s.(p_mutationId).
#[export] Instance Revision_eq_dec : EqDecision Revision.
Proof. solve_decision. Defined.
#[export] Instance PersistedSoul_eq_dec : EqDecision PersistedSoul.
Proof. solve_decision. Defined.

(** [createMemoryConfigStore] src/src/resolution/config-store.ts:228-230
    What a process keeps: the current text and version, the history and, for rows from
    before histories were kept in the row, the old revisions. *)
Record Cache := MkCache {
  souls : jsmap ScopeId (string * Z);
  soulHistory : jsmap ScopeId (list Revision);
  legacySoulHistory : jsmap ScopeId (list Revision);
}.
#[export] Instance Cache_eta : Eta Cache := fun c => MkCache c.(souls) c.(soulHistory) c.(legacySoulHistory).

Section soul.
Variable org : ScopeId.

(** [defaultOrgSoul] src/src/resolution/config-store.ts:299-303 *)
Definition defaultOrgSoul : string * Z :=
  ("You are a helpful internal assistant for this organization. Be concise, accurate, and respect data boundaries: never reveal information to people who are not party to the current conversation.", 1).
(** [createMemoryConfigStore] src/src/resolution/config-store.ts:304-304 *)
Definition initial_cache : Cache := MkCache (<[org := defaultOrgSoul]> ∅) ∅ ∅.

(** [loadSoulCache] src/src/resolution/config-store.ts:309-315 *)
Definition loadSoulCache (id : ScopeId) (soul : option PersistedSoul) (c : Cache) : Cache :=
  let c :=
    match soul with
    | Some s => c <| souls := <[id := (s.(p_content), s.(p_version))]> c.(souls) |>
    | None => if id === org then c <| souls := <[org := defaultOrgSoul]> c.(souls) |>
              else c <| souls := delete id c.(souls) |>
    end in
  match soul ≫= p_history with
  | Some h => c <| soulHistory := <[id := h]> c.(soulHistory) |>
  | None => c <| soulHistory := delete id c.(soulHistory) |>
  end.

Definition newest_first (l : list Revision) : list Revision := js_sort (fun a b => r_version b - r_version a) l.
(** [mergeSoulHistory] src/src/resolution/config-store.ts:318-326 *)
Definition mergeSoulHistory (embedded : option (list Revision)) (legacy : list Revision) : list Revision :=
  newest_first (values (new_map (map (fun r => (r.(r_version), r)) (legacy ++ (embedded ?? []))))).
(** [historyIncludingCurrent] src/src/resolution/config-store.ts:333-339 *)
Definition current_revision (s : PersistedSoul) : Revision :=
  MkRevision s.(p_scopeId) s.(p_content) s.(p_version) (s.(p_updatedAt) ?? 0) (if_truthy s.(p_updatedBy)).
(** [historyIncludingCurrent] src/src/resolution/config-store.ts:327-343 *)
Definition historyIncludingCurrent (current : PersistedSoul) (legacy : list Revision) : list Revision :=
  let history := mergeSoulHistory current.(p_history) legacy in
  if some (fun r => r.(r_version) === current.(p_version)) history then history
  else newest_first (history ++ [current_revision current]).

Definition revision_of (id : ScopeId) (content : string) (version now : Z) (by_ : option string) : Revision :=
  MkRevision id content version now (if_truthy by_).
Definition soul_of (r : Revision) (history : list Revision) (mid : option string) : PersistedSoul :=
  MkSoul r.(r_scopeId) r.(r_content) r.(r_version) (Some r.(r_updatedAt)) r.(r_updatedBy) (Some history) mid.
Definition legacy_for (current : PersistedSoul) (legacy : list Revision) : list Revision :=
  match current.(p_history) with None => legacy | Some _ => [] end.

(** ** Writes *)

Context {M : Type} {D : DurableMap M PersistedSoul} {DL : DurableMapLaws M PersistedSoul}.

(** [setSoul] src/src/resolution/config-store.ts:409-423
    The version, the write that follows in the background, and the cache. *)
Definition setSoul (id : ScopeId) (content : string) (by_ : option string) (now : Z) (c : Cache) : Z * (M -> M) * Cache :=
  let version := from_option snd 0 (c.(souls) !! id) + 1 in
  let revision := revision_of id content version now by_ in
  let history := revision :: (c.(soulHistory) !! id ?? []) in
  (version, dm_put id (soul_of revision history None),
   c <| souls := <[id := (content, version)]> c.(souls) |> <| soulHistory := <[id := history]> c.(soulHistory) |>).

(** [setSoulLatest] src/src/resolution/config-store.ts:428-441 *)
Definition append (id : ScopeId) (content : string) (by_ : option string) (now : Z) (mid : string) (legacy : list Revision)
    (current : PersistedSoul) : PersistedSoul :=
  let revision := revision_of id content (current.(p_version) + 1) now by_ in
  soul_of revision (revision :: historyIncludingCurrent current (legacy_for current legacy)) (Some mid).
Definition candidate_of (id : ScopeId) (content : string) (by_ : option string) (version now : Z) (mid : string) : PersistedSoul :=
  let revision := revision_of id content version now by_ in soul_of revision [revision] (Some mid).
(** [setSoulLatest] src/src/resolution/config-store.ts:458-459
    with the end of [setSoulIfVersion], which it shares. *)
Definition settle_cache (id : ScopeId) (saved : PersistedSoul) (c : Cache) : Cache :=
  loadSoulCache id (Some saved) (c <| legacySoulHistory := delete id c.(legacySoulHistory) |>).

(** A call of one of the two writes that go through the row, and where it stands. *)
Record Call := MkCall { k_id : ScopeId; k_content : string; k_by : option string; k_expected : option Z }.
Inductive Pc :=
| started
| putting (candidate : PersistedSoul) (legacy : list Revision)
| again (legacy : list Revision)
| cas_putting (candidate : PersistedSoul)
| cas_updating (candidate : PersistedSoul) (legacy : list Revision).
Inductive Outcome := more (pc : Pc) | returned (r : result string (option Z)).

(** [setSoulLatest] src/src/resolution/config-store.ts:424-462
    From await to await: [now] and [mid] are the time and the random id of the step. *)
Definition latest_step (k : Call) (pc : Pc) (now : Z) (mid : string) (d : M) (c : Cache) : Outcome * M * Cache :=
  let id := k.(k_id) in
  match pc with
  | started =>
      let legacy := c.(legacySoulHistory) !! id ?? [] in
      match dm_update id (append id k.(k_content) k.(k_by) now mid legacy) d with
      | (Some saved, d) => (returned (Ok (Some saved.(p_version))), d, settle_cache id saved c)
      | (None, d) =>
          (more (putting (candidate_of id k.(k_content) k.(k_by) (from_option snd 0 (c.(souls) !! id) + 1) now mid) legacy), d, c)
      end
  | putting candidate legacy =>
      let (canonical, d) := dm_putIfAbsent id candidate d in
      if canonical.(p_mutationId) === candidate.(p_mutationId)
      then (returned (Ok (Some canonical.(p_version))), d, settle_cache id canonical c)
      else (more (again legacy), d, c)
  | again legacy =>
      match dm_update id (append id k.(k_content) k.(k_by) now mid legacy) d with
      | (Some saved, d) => (returned (Ok (Some saved.(p_version))), d, settle_cache id saved c)
      | (None, d) => (returned (Throw "SOUL disappeared during atomic update"), d, c)
      end
  | _ => (returned (Throw "not this call"), d, c)
  end.

(** [setSoulIfVersion] src/src/resolution/config-store.ts:475-517 *)
Definition cas_step (expected : Z) (k : Call) (pc : Pc) (now : Z) (mid : string) (d : M) (c : Cache) : Outcome * M * Cache :=
  let id := k.(k_id) in
  match pc with
  | started =>
      let candidate := candidate_of id k.(k_content) k.(k_by) (expected + 1) now mid in
      match dm_get id d with
      | None => if from_option snd 0 (c.(souls) !! id) !== expected then (returned (Ok None), d, c)
                else (more (cas_putting candidate), d, c)
      | Some _ => (more (cas_updating candidate (c.(legacySoulHistory) !! id ?? [])), d, c)
      end
  | cas_putting candidate =>
      let (canonical, d) := dm_putIfAbsent id candidate d in
      if canonical.(p_mutationId) === candidate.(p_mutationId)
      then (returned (Ok (Some canonical.(p_version))), d, settle_cache id canonical c)
      else (returned (Ok None), d, c)
  | cas_updating candidate legacy =>
      match dm_get id d with
      | Some current =>
          if current.(p_version) !== expected then (returned (Ok None), d, c)
          else
            let saved := candidate <| p_history :=
              Some (revision_of id k.(k_content) (expected + 1) (candidate.(p_updatedAt) ?? 0) k.(k_by)
                    :: historyIncludingCurrent current (legacy_for current legacy)) |> in
            (returned (Ok (Some saved.(p_version))), dm_put id saved d, settle_cache id saved c)
      | None => (returned (Ok None), d, c)
      end
  | _ => (returned (Throw "not this call"), d, c)
  end.
Definition call_step (k : Call) : Pc -> Z -> string -> M -> Cache -> Outcome * M * Cache :=
  match k.(k_expected) with Some v => cas_step v k | None => latest_step k end.

(** [clearSoul] src/src/resolution/config-store.ts:463-474
    The cache; the row and the old revisions are deleted in the background. *)
Definition clearSoul (id : ScopeId) (c : Cache) : (M -> M) * Cache :=
  (dm_delete id,
   (if id === org then c <| souls := <[org := defaultOrgSoul]> c.(souls) |> else c <| souls := delete id c.(souls) |>)
   <| soulHistory := delete id c.(soulHistory) |> <| legacySoulHistory := delete id c.(legacySoulHistory) |>).

(** [soulVersion], [soulHistory] src/src/resolution/config-store.ts:518-519 *)
Definition soulVersion (id : ScopeId) (c : Cache) : Z := from_option snd 0 (c.(souls) !! id).
Definition soulHistory_of (id : ScopeId) (c : Cache) : list Revision := take 25 (c.(soulHistory) !! id ?? []).
(** [getSoul] src/src/resolution/config-store.ts:408-408 *)
Definition getSoul (id : ScopeId) (c : Cache) : option string := fst <$> c.(souls) !! id.
(** [restoreSoulSnapshot] src/src/resolution/config-store.ts:523-536 *)
Definition restoreSoulSnapshot (id : ScopeId) (snapshot : option PersistedSoul) (d : M) (c : Cache) : bool * M * Cache :=
  let d := match snapshot with Some s => dm_put id s d | None => dm_delete id d end in
  let restored := dm_get id d in
  (restored === snapshot, d, loadSoulCache id restored c).
(** [refreshScope] src/src/resolution/config-store.ts:910-927
    What it does to the row and the cache of a soul it has read as [soul]. *)
Definition refreshSoul (id : ScopeId) (soul : option PersistedSoul) (d : M) (c : Cache) : M * Cache :=
  let legacyHistory := c.(legacySoulHistory) !! id ?? [] in
  match soul with
  | Some s =>
      match s.(p_history) with
      | None =>
          match legacyHistory with
          | [] => (d, loadSoulCache id soul c)
          | _ =>
              let merge current := match current.(p_history) with
                | Some _ => current
                | None => current <| p_history := Some (mergeSoulHistory None legacyHistory) |> end in
              let (refreshed, d) := dm_update id merge d in
              (d, loadSoulCache id refreshed (c <| legacySoulHistory := delete id c.(legacySoulHistory) |>))
          end
      | Some _ => (d, loadSoulCache id soul (c <| legacySoulHistory := delete id c.(legacySoulHistory) |>))
      end
  | None => (d, loadSoulCache id soul c)
  end.

(** ** The log of a scope *)

(** The abstract state: the revisions of a scope, newest first. *)
Definition log_of (id : ScopeId) (d : M) : list Revision := (dm_get id d ≫= p_history) ?? [].
(** Each version follows the one before it. *)
Fixpoint chained (l : list Revision) : Prop :=
  match l with
  | r :: (r' :: _) as l' => r.(r_version) = r'.(r_version) + 1 /\ chained l'
  | _ => True
  end.
(** A row as these writes leave it. *)
Definition row_ok (s : PersistedSoul) : Prop :=
  exists r l, p_history s = Some (r :: l) /\ r_version r = p_version s /\ r_content r = p_content s /\ chained (r :: l).
Definition rows_ok (d : M) : Prop := forall id s, dm_get id d = Some s -> row_ok s.

Lemma chained_tail r l : chained (r :: l) -> chained l.
Proof. destruct l as [|r' l]; [done|]. by intros [_ H]. Qed.
Lemma chained_below r l x : chained (r :: l) -> x ∈ l -> r_version x < r_version r.
Proof.
  revert r. induction l as [|r' l IH]; intros r; [by intros _ ?%elem_of_nil|]. intros [E H] [->|Hx]%elem_of_cons; [lia|].
  specialize (IH r' H Hx). lia.
Qed.
Lemma chained_sorted l : chained l -> StronglySorted (fun a b => r_version b - r_version a <= 0) l /\ NoDup (map r_version l).
Proof.
  induction l as [|r l IH]; intros H; [split; constructor|]. destruct (IH (chained_tail r l H)) as [I1 I2]. split.
  - constructor; [done|]. apply Forall_forall. intros x Hx. pose proof (chained_below r l x H Hx). lia.
  - cbn [map]. constructor; [|done]. intros (x & E & Hx)%list_elem_of_In%in_map_iff. apply list_elem_of_In in Hx.
    pose proof (chained_below r l x H Hx). lia.
Qed.

Lemma history_same s : row_ok s -> historyIncludingCurrent s (legacy_for s []) = (p_history s ?? []) /\
  forall legacy, legacy_for s legacy = [].
Proof.
  intros (r & l & Hh & Hv & _ & Hc). unfold legacy_for. rewrite Hh. split; [|done]. cbn [default from_option].
  destruct (chained_sorted _ Hc) as [Hs Hn].
  assert (Hm : mergeSoulHistory (Some (r :: l)) [] = r :: l).
  { unfold mergeSoulHistory. cbn [app default from_option]. rewrite values_new_map.
    - rewrite map_map. cbn [snd]. rewrite map_id. by apply js_sort_id.
    - by rewrite map_map. }
  unfold historyIncludingCurrent. rewrite Hh, Hm. replace (some _ (r :: l)) with true; [done|].
  symmetry. apply some_true. exists r. split; [by left|]. cbv beta. rewrite Hv. apply eqb_refl.
Qed.

(** ** One step of a call *)

(** The candidate a call carries is its own revision, alone, under a random id of its own. *)
Definition candidate_mid (pc : Pc) : option string :=
  match pc with
  | putting cand _ | cas_putting cand | cas_updating cand _ => p_mutationId cand
  | _ => None
  end.
Definition pc_ok (k : Call) (pc : Pc) : Prop :=
  match k_expected k, pc with
  | _, started | None, again _ => True
  | None, putting cand _ => exists v now m, cand = candidate_of (k_id k) (k_content k) (k_by k) v now m
  | Some e, cas_putting cand | Some e, cas_updating cand _ =>
      exists now m, cand = candidate_of (k_id k) (k_content k) (k_by k) (e + 1) now m
  | _, _ => False
  end.

(** What an accepted write adds to the log. *)
Definition written_by (k : Call) (v : Z) (r : Revision) : Prop :=
  r_version r = v /\ r_scopeId r = k_id k /\ r_content r = k_content k /\ r_updatedBy r = if_truthy (k_by k) /\
  (forall e, k_expected k = Some e -> v = e + 1).

(** The two things a step may do: leave the row alone, or write the next revision and return
    its version. *)
Definition quiet (k : Call) (pc : Pc) (mid : string) (out : Outcome) (d d' : M) : Prop :=
  d' = d /\
  match out with
  | more pc' => pc_ok k pc' /\ (candidate_mid pc' = candidate_mid pc \/ candidate_mid pc' = Some mid \/ candidate_mid pc' = None)
  | returned (Ok (Some _)) => False
  | returned _ => True
  end.
Definition writes (k : Call) (pc : Pc) (mid : string) (out : Outcome) (d d' : M) : Prop :=
  exists r m, out = returned (Ok (Some (r_version r))) /\ written_by k (r_version r) r /\
    d' = dm_put (k_id k) (soul_of r (r :: log_of (k_id k) d) (Some m)) d /\
    (m = mid \/ candidate_mid pc = Some m) /\
    (forall r', head (log_of (k_id k) d) = Some r' -> r_version r = r_version r' + 1).

Lemma log_head d id s : rows_ok d -> dm_get id d = Some s ->
  log_of id d = p_history s ?? [] /\ historyIncludingCurrent s (legacy_for s []) = log_of id d /\
  (forall legacy, legacy_for s legacy = []) /\ (forall r', head (log_of id d) = Some r' -> r_version r' = p_version s).
Proof.
  intros Hok Hs. unfold log_of. rewrite Hs. cbn [mbind option_bind]. destruct (history_same s (Hok _ _ Hs)) as [H1 H2].
  split; [done|]. split; [done|]. split; [done|]. destruct (Hok _ _ Hs) as (r & l & -> & Hv & _). cbn. by intros r' [= <-].
Qed.

Lemma append_writes k pc now mid legacy d s :
  rows_ok d -> dm_get (k_id k) d = Some s -> k_expected k = None ->
  writes k pc mid (returned (Ok (Some (p_version (append (k_id k) (k_content k) (k_by k) now mid legacy s))))) d
    (dm_put (k_id k) (append (k_id k) (k_content k) (k_by k) now mid legacy s) d).
Proof.
  intros Hok Hs He. destruct (log_head d _ s Hok Hs) as (_ & H2 & H3 & H4). unfold append. rewrite (H3 legacy).
  rewrite (H3 []) in H2. rewrite H2. exists (revision_of (k_id k) (k_content k) (p_version s + 1) now (k_by k)), mid.
  split; [done|]. split; [split_and!; try done; intros e; by rewrite He|]. split; [done|]. split; [by left|].
  intros r' Hr. by rewrite (H4 r' Hr).
Qed.

Lemma put_absent_writes k pc mid d v now m :
  dm_get (k_id k) d = None -> (forall e, k_expected k = Some e -> v = e + 1) ->
  candidate_mid pc = Some m ->
  writes k pc mid (returned (Ok (Some v))) d (dm_put (k_id k) (candidate_of (k_id k) (k_content k) (k_by k) v now m) d).
Proof.
  intros Hn He Hc. exists (revision_of (k_id k) (k_content k) v now (k_by k)), m. split; [done|]. split; [by split_and!|].
  unfold log_of. rewrite Hn. split; [done|]. split; [by right|]. done.
Qed.

Lemma latest_step_spec k pc now mid d c out d' c' :
  rows_ok d -> k_expected k = None -> pc_ok k pc ->
  (forall m, candidate_mid pc = Some m -> forall id s, dm_get id d = Some s -> p_mutationId s <> Some m) ->
  latest_step k pc now mid d c = (out, d', c') ->
  quiet k pc mid out d d' \/ writes k pc mid out d d'.
Proof.
  intros Hok He Hpc Hm. unfold pc_ok in Hpc. rewrite He in Hpc. destruct pc as [|cand legacy|legacy|cand|cand legacy]; try done; cbn [latest_step].
  - unfold dm_update. destruct (dm_get (k_id k) d) as [s|] eqn:Es; intros [= <- <- <-].
    + right. by apply append_writes.
    + left. split; [done|]. split; [|by right; left]. unfold pc_ok. rewrite He. by do 3 eexists.
  - destruct Hpc as (v & n & m & ->). unfold dm_putIfAbsent. destruct (dm_get (k_id k) d) as [s|] eqn:Es.
    + destruct (p_mutationId s === _) eqn:E; to_prop; [by destruct (Hm m eq_refl _ _ Es)|]. intros [= <- <- <-].
      left. split; [done|]. split; [unfold pc_ok; by rewrite He|by right; right].
    + rewrite eqb_refl. intros [= <- <- <-]. right. by apply put_absent_writes; [|rewrite He|].
  - unfold dm_update. destruct (dm_get (k_id k) d) as [s|] eqn:Es; intros [= <- <- <-].
    + right. by apply append_writes.
    + by left.
Qed.

Lemma cas_step_spec e k pc now mid d c out d' c' :
  rows_ok d -> k_expected k = Some e -> pc_ok k pc ->
  (forall m, candidate_mid pc = Some m -> forall id s, dm_get id d = Some s -> p_mutationId s <> Some m) ->
  cas_step e k pc now mid d c = (out, d', c') ->
  quiet k pc mid out d d' \/ writes k pc mid out d d'.
Proof.
  intros Hok He Hpc Hm. unfold pc_ok in Hpc. rewrite He in Hpc. destruct pc as [|cand legacy|legacy|cand|cand legacy]; try done; cbn [cas_step].
  - destruct (dm_get (k_id k) d) as [s|].
    + intros [= <- <- <-]. left. split; [done|]. split; [unfold pc_ok; rewrite He; by do 2 eexists|by right; left].
    + destruct (_ !== e); intros [= <- <- <-]; left; (split; [done|]); [done|]. split; [unfold pc_ok; rewrite He; by do 2 eexists|by right; left].
  - destruct Hpc as (n & m & ->). unfold dm_putIfAbsent. destruct (dm_get (k_id k) d) as [s|] eqn:Es.
    + destruct (p_mutationId s === _) eqn:E; to_prop; [by destruct (Hm m eq_refl _ _ Es)|]. intros [= <- <- <-]. by left.
    + rewrite eqb_refl. intros [= <- <- <-]. right. apply put_absent_writes; [done|intros e'; rewrite He; by intros [= ->]|done].
  - destruct Hpc as (n & m & ->). destruct (dm_get (k_id k) d) as [s|] eqn:Es; [|intros [= <- <- <-]; by left].
    destruct (p_version s !== e) eqn:E; to_prop; [intros [= <- <- <-]; by left|]. intros [= <- <- <-]. right.
    destruct (log_head d _ s Hok Es) as (_ & H2 & H3 & H4). rewrite (H3 legacy). rewrite (H3 []) in H2. rewrite H2.
    exists (revision_of (k_id k) (k_content k) (e + 1) n (k_by k)), m. split; [done|].
    split; [split_and!; try done; intros e'; rewrite He; by intros [= ->]|]. split; [done|]. split; [by right|].
    intros r' Hr. cbn. rewrite (H4 r' Hr). lia.
Qed.

(** ** Any number of processes *)

(** The row store, the random ids drawn so far, the calls under way, [None] once returned,
    and the writes that were reported as done, in order. *)
Record World := MkWorld {
  w_rows : M; w_used : list string; w_calls : list (Call * option Pc); w_done : list (Call * Z) }.
(** A process begins a call, or a call takes its next step, with whatever its process has in
    its cache by then. *)
Inductive wstep : World -> World -> Prop :=
| w_begin k w : wstep w (MkWorld (w_rows w) (w_used w) (w_calls w ++ [(k, Some started)]) (w_done w))
| w_step i k pc now mid c out d' c' w :
    w_calls w !! i = Some (k, Some pc) -> mid ∉ w_used w ->
    call_step k pc now mid (w_rows w) c = (out, d', c') ->
    wstep w (MkWorld d' (w_used w ++ [mid])
               (<[i := (k, match out with more pc' => Some pc' | returned _ => None end)]> (w_calls w))
               (match out with returned (Ok (Some v)) => w_done w ++ [(k, v)] | _ => w_done w end)).

Definition mids_in (d : M) (used : list string) : Prop :=
  forall id s m, dm_get id d = Some s -> p_mutationId s = Some m -> m ∈ used.
Definition starts_from (d0 : M) (w : World) : Prop :=
  w_rows w = d0 /\ rows_ok d0 /\ mids_in d0 (w_used w) /\ w_calls w = [] /\ w_done w = [].

(** The id of the row a call is about to write, if it has drawn it. *)
Definition held (w : World) (i : nat) (m : string) : Prop :=
  exists k pc, w_calls w !! i = Some (k, Some pc) /\ candidate_mid pc = Some m.

Record soul_inv (d0 : M) (w : World) : Prop := {
  si_rows : rows_ok (w_rows w);
  si_mids : mids_in (w_rows w) (w_used w);
  si_pcs : forall i k pc, w_calls w !! i = Some (k, Some pc) -> pc_ok k pc;
  si_held : forall i m, held w i m -> m ∈ w_used w /\ forall id s, dm_get id (w_rows w) = Some s -> p_mutationId s <> Some m;
  si_apart : forall i j m, held w i m -> held w j m -> i = j;
  si_log : forall id, exists new, log_of id (w_rows w) = new ++ log_of id d0 /\
    Forall2 (fun r kv => written_by kv.1 kv.2 r) new (rev (js_filter (fun kv => k_id kv.1 === id) (w_done w)));
}.

Lemma chained_cons r l : chained l -> (forall r', head l = Some r' -> r_version r = r_version r' + 1) -> chained (r :: l).
Proof. intros Hl Hr. destruct l as [|r' l]; [done|]. split; [by apply Hr|done]. Qed.
Lemma log_chained id d : rows_ok d -> chained (log_of id d).
Proof.
  intros Hok. unfold log_of. destruct (dm_get id d) as [s|] eqn:Es; [|done]. cbn. by destruct (Hok _ _ Es) as (r & l & -> & _ & _ & H).
Qed.
Lemma log_put id id' s d : log_of id' (dm_put id s d) = if decide (id = id') then p_history s ?? [] else log_of id' d.
Proof. unfold log_of. rewrite dm_get_put. by case_decide. Qed.

Lemma call_step_spec k pc now mid d c out d' c' :
  rows_ok d -> pc_ok k pc ->
  (forall m, candidate_mid pc = Some m -> forall id s, dm_get id d = Some s -> p_mutationId s <> Some m) ->
  call_step k pc now mid d c = (out, d', c') ->
  quiet k pc mid out d d' \/ writes k pc mid out d d'.
Proof.
  unfold call_step. destruct (k_expected k) as [e|] eqn:He; intros; [by eapply cas_step_spec|by eapply latest_step_spec].
Qed.

(** The calls after a step: the others as before, this one where the step left it. *)
Lemma lookup_stepped (l : list (Call * option Pc)) i j k o kp x :
  l !! i = Some kp -> <[i := (k, o)]> l !! j = Some x -> (j = i /\ x = (k, o)) \/ (j <> i /\ l !! j = Some x).
Proof.
  intros Hi Hj. destruct (decide (i = j)) as [->|Hne].
  - rewrite list_lookup_insert_eq in Hj by (by apply lookup_lt_Some in Hi). left. by injection Hj as <-.
  - rewrite list_lookup_insert_ne in Hj by done. by right.
Qed.

(** What is held after a step: what was held before, or the id just drawn. *)
Lemma held_stepped w i k pc o mid d' done' :
  w_calls w !! i = Some (k, Some pc) ->
  (forall pc', o = Some pc' -> candidate_mid pc' = candidate_mid pc \/ candidate_mid pc' = Some mid \/ candidate_mid pc' = None) ->
  forall j x, held (MkWorld d' (w_used w ++ [mid]) (<[i:=(k, o)]> (w_calls w)) done') j x ->
    (held w j x /\ (j = i -> o <> None)) \/ (j = i /\ x = mid /\ o <> None).
Proof.
  intros Hi Ho j x (k' & p & H & Hx). cbn in H. eapply lookup_stepped in H as [[-> [= -> <-]]|[Hne H]]; [| |exact Hi].
  - destruct (Ho p eq_refl) as [Hc|[Hc|Hc]]; rewrite Hx in Hc.
    + left. split; [by exists k, pc|done].
    + injection Hc as ->. by right.
    + done.
  - left. split; [by exists k', p|done].
Qed.

Lemma inv_begin d0 w k : soul_inv d0 w -> soul_inv d0 (MkWorld (w_rows w) (w_used w) (w_calls w ++ [(k, Some started)]) (w_done w)).
Proof.
  intros [Hr Hm Hp Hh Ha Hl].
  assert (Hheld : forall i m, held (MkWorld (w_rows w) (w_used w) (w_calls w ++ [(k, Some started)]) (w_done w)) i m -> held w i m).
  { intros i m (k' & pc & H & Hc). cbn in H. apply lookup_app_Some in H as [H|[_ H]]; [by exists k', pc|].
    by apply list_lookup_singleton_Some in H as [_ [= <- <-]]. }
  split; cbn; try done.
  - intros i k' pc [H|[_ H]]%lookup_app_Some; [by eapply Hp|]. apply list_lookup_singleton_Some in H as [_ [= <- <-]].
    unfold pc_ok. by destruct (k_expected k).
  - intros i m H%Hheld. by apply (Hh i m).
  - intros i j m H1%Hheld H2%Hheld. by apply (Ha i j m).
Qed.

Lemma inv_quiet d0 w i k pc o mid :
  soul_inv d0 w -> w_calls w !! i = Some (k, Some pc) -> mid ∉ w_used w ->
  (forall pc', o = Some pc' -> pc_ok k pc' /\
     (candidate_mid pc' = candidate_mid pc \/ candidate_mid pc' = Some mid \/ candidate_mid pc' = None)) ->
  soul_inv d0 (MkWorld (w_rows w) (w_used w ++ [mid]) (<[i:=(k, o)]> (w_calls w)) (w_done w)).
Proof.
  intros [Hr Hm Hp Hh Ha Hl] Hi Hmid Ho.
  pose proof (held_stepped w i k pc o mid (w_rows w) (w_done w) Hi (fun pc' E => proj2 (Ho pc' E))) as Hheld.
  split; cbn; try done.
  - intros id s x H1 H2. apply elem_of_app. left. by eapply Hm.
  - intros j k' p H. eapply lookup_stepped in H as [[-> [= -> <-]]|[_ H]]; [by apply Ho|by eapply Hp|exact Hi].
  - intros j x [[H _]|(-> & -> & _)]%Hheld.
    + destruct (Hh j x H). split; [apply elem_of_app; by left|done].
    + split; [apply elem_of_app; right; by left|]. intros id s H1 H2. apply Hmid. by eapply Hm.
  - intros j1 j2 x H1%Hheld H2%Hheld.
    destruct H1 as [[H1 _]|(-> & -> & _)], H2 as [[H2 _]|(-> & E & _)]; [by eapply Ha| | |done].
    + subst x. by destruct (Hh _ _ H1) as [Hin _].
    + by destruct (Hh _ _ H2) as [Hin _].
Qed.

Lemma rows_put d id r m : rows_ok d -> r_scopeId r = id -> (forall r', head (log_of id d) = Some r' -> r_version r = r_version r' + 1) ->
  rows_ok (dm_put id (soul_of r (r :: log_of id d) (Some m)) d).
Proof.
  intros Hr _ Hnext id' s [[-> ->]|[_ Hs]]%dm_get_put_Some; [|by eapply Hr].
  exists r, (log_of id d). split; [done|]. split; [done|]. split; [done|]. apply chained_cons; [by apply log_chained|done].
Qed.

Lemma inv_writes d0 w i k pc mid r m :
  soul_inv d0 w -> w_calls w !! i = Some (k, Some pc) -> mid ∉ w_used w ->
  written_by k (r_version r) r -> (m = mid \/ candidate_mid pc = Some m) ->
  (forall r', head (log_of (k_id k) (w_rows w)) = Some r' -> r_version r = r_version r' + 1) ->
  soul_inv d0 (MkWorld (dm_put (k_id k) (soul_of r (r :: log_of (k_id k) (w_rows w)) (Some m)) (w_rows w)) (w_used w ++ [mid])
    (<[i:=(k, None)]> (w_calls w)) (w_done w ++ [(k, r_version r)])).
Proof.
  intros [Hr Hm Hp Hh Ha Hl] Hi Hmid Hw Hmm Hnext.
  pose proof (fun d' done' => held_stepped w i k pc None mid d' done' Hi) as Hheld.
  assert (Hcand : forall x, candidate_mid pc = Some x -> held w i x) by (intros x Hc; by exists k, pc).
  split; cbn.
  - apply rows_put; [done|by apply Hw|done].
  - intros id s x [[-> ->]|[_ Hs]]%dm_get_put_Some Hx; [|apply elem_of_app; left; by eapply Hm].
    injection Hx as <-. apply elem_of_app. destruct Hmm as [->|Hc]; [right; by left|left]. by apply (Hh i), Hcand.
  - intros j k' p H. eapply lookup_stepped in H as [[_ [=]]|[_ H]]; [by eapply Hp|exact Hi].
  - intros j x H. apply Hheld in H as [[H Hne]|(_ & _ & ?)]; [|done|done].
    destruct (Hh j x H) as [H1 H2]. split; [apply elem_of_app; by left|].
    intros id s [[-> ->]|[_ Hs]]%dm_get_put_Some; [|by eapply H2]. cbn. intros [= ->].
    destruct Hmm as [->|Hc]; [done|]. assert (j = i) as -> by (eapply Ha; [done|by apply Hcand]). by destruct (Hne eq_refl).
  - intros j1 j2 x H1 H2. apply Hheld in H1 as [[H1 _]|(_ & _ & ?)]; [|done|done]. apply Hheld in H2 as [[H2 _]|(_ & _ & ?)]; [|done|done].
    by eapply Ha.
  - intros id. destruct (Hl id) as (new & Hlog & Hf). rewrite log_put. rewrite js_filter_app. cbn [js_filter fst].
    case_decide as Hne.
    + subst id. rewrite eqb_refl. exists (r :: new). rewrite rev_app_distr. cbn [soul_of p_history default from_option rev app].
      split; [by rewrite Hlog|]. by constructor.
    + rewrite (proj2 (eqb_false _ _) Hne), app_nil_r. by exists new.
Qed.

Lemma soul_inv_step d0 w w' : soul_inv d0 w -> wstep w w' -> soul_inv d0 w'.
Proof.
  intros H Hs. destruct Hs as [k w|i k pc now mid c out d' c' w Hi Hmid Hstep]; [by apply inv_begin|].
  assert (Hcand : forall m, candidate_mid pc = Some m -> held w i m) by (intros m Hc; by exists k, pc).
  destruct (call_step_spec _ _ _ _ _ _ _ _ _ (si_rows _ _ H) (si_pcs _ _ H _ _ _ Hi)
    (fun m Hc => proj2 (si_held _ _ H i m (Hcand m Hc))) Hstep) as [[-> Hout]|(r & m & -> & Hw & -> & Hmm & Hnext)].
  - replace (match out with returned (Ok (Some v)) => w_done w ++ [(k, v)] | _ => w_done w end) with (w_done w)
      by (destruct out as [|[[|]|]]; done).
    eapply inv_quiet; [done|done|done|]. intros pc' Hpc. destruct out as [pc''|]; [|done]. by injection Hpc as ->.
  - by eapply inv_writes.
Qed.

End soul.

#[global] Arguments World M : clear implicits.
#[global] Arguments MkWorld {M} _ _ _ _.
#[global] Arguments wstep org {M D} _ _.
#[global] Arguments w_begin org {M D} _ _.
#[global] Arguments w_step org {M D} _ _ _ _ _ _ _ _ _ _ _ _ _.
#[global] Arguments starts_from {M D} _ _.

(** ** Two processes write the first SOUL of a scope *)

Definition demo_org : ScopeId := "org:o".
Definition demo_rows : jsmap string PersistedSoul := ∅.
Definition demo_left : Call := MkCall "channel:c" "left" (Some "ann") None.
Definition demo_right : Call := MkCall "channel:c" "right" (Some "bob") None.
Definition demo_cand (k : Call) (mid : string) : PersistedSoul := candidate_of (k_id k) (k_content k) (k_by k) 1 10 mid.
Definition demo_first : Revision := revision_of "channel:c" "right" 1 10 (Some "bob").
Definition demo_second : Revision := revision_of "channel:c" "left" 2 40 (Some "ann").
Definition demo_end : jsmap string PersistedSoul :=
  <["channel:c" := soul_of demo_second [demo_second; demo_first] (Some "m5")]> (<["channel:c" := demo_cand demo_right "m2"]> ∅).
Definition demo_world (d : jsmap string PersistedSoul) (used : list string) (l r : option Pc) (dn : list (Call * Z)) : World (jsmap string PersistedSoul) :=
  MkWorld d used [(demo_left, l); (demo_right, r)] dn.

Lemma demo_run :
  rtc (wstep demo_org) (MkWorld demo_rows [] [] [])
    (demo_world demo_end ["m1"; "m2"; "m3"; "m4"; "m5"] None None [(demo_right, 1); (demo_left, 2)]).
Proof.
  eapply rtc_l; [apply (w_begin demo_org demo_left)|]. eapply rtc_l; [apply (w_begin demo_org demo_right)|]. cbn [app w_calls w_rows w_used w_done].
  eapply rtc_l; [eapply (w_step demo_org 0 demo_left started 10 "m1" (MkCache ∅ ∅ ∅) _ _ _ (demo_world ∅ [] (Some started) (Some started) [])); [reflexivity|set_solver|reflexivity]|].
  eapply rtc_l; [eapply (w_step demo_org 1 demo_right started 10 "m2" (MkCache ∅ ∅ ∅) _ _ _
    (demo_world ∅ ["m1"] (Some (putting (demo_cand demo_left "m1") [])) (Some started) [])); [reflexivity|set_solver|reflexivity]|].
  eapply rtc_l; [eapply (w_step demo_org 1 demo_right (putting (demo_cand demo_right "m2") []) 20 "m3" (MkCache ∅ ∅ ∅) _ _ _
    (demo_world ∅ ["m1"; "m2"] (Some (putting (demo_cand demo_left "m1") [])) (Some (putting (demo_cand demo_right "m2") [])) []));
    [reflexivity|set_solver|reflexivity]|].
  eapply rtc_l; [eapply (w_step demo_org 0 demo_left (putting (demo_cand demo_left "m1") []) 30 "m4" (MkCache ∅ ∅ ∅) _ _ _
    (demo_world (<["channel:c" := demo_cand demo_right "m2"]> ∅) ["m1"; "m2"; "m3"] (Some (putting (demo_cand demo_left "m1") [])) None
       [(demo_right, 1)])); [reflexivity|set_solver|reflexivity]|].
  eapply rtc_l; [eapply (w_step demo_org 0 demo_left (again []) 40 "m5" (MkCache ∅ ∅ ∅) _ _ _
    (demo_world (<["channel:c" := demo_cand demo_right "m2"]> ∅) ["m1"; "m2"; "m3"; "m4"] (Some (again [])) None
       [(demo_right, 1)])); [reflexivity|set_solver|reflexivity]|].
  apply rtc_refl.
Qed.

