(* ===== verification/Models.v ===== *)
(** * Models: the registry, what a harness can run and what a provider can serve

    [src/src/model/pi-models.ts].  The catalogue of models built into the agent library is a
    parameter; prices are in cents per million tokens. *)

From S2P Require Import Prelude JsString.

#[local] Open Scope Z_scope.

(** [HARNESS_IDS] src/src/model/pi-models.ts:10-11 *)
Definition HARNESS_IDS : list string := ["pi"; "opencode"; "codex"; "claude"; "acp"; "mock"].
(** [isHarnessId] src/src/model/pi-models.ts:20-22 *)
Definition isHarnessId (s : string) : bool := includes HARNESS_IDS s.
(** [MODEL_PROVIDERS] src/src/model/pi-models.ts:13-14 *)
Definition MODEL_PROVIDERS : list string := ["anthropic"; "openai"; "openrouter"].
(** [DEFAULT_AGENT_MODEL_ID] src/src/model/pi-models.ts:6-6 *)
Definition DEFAULT_AGENT_MODEL_ID : string := "claude-opus-5".
(** [DEFAULT_CODEX_MODEL_ID] src/src/model/pi-models.ts:7-7 *)
Definition DEFAULT_CODEX_MODEL_ID : string := "gpt-5.6-sol".
(** [DEFAULT_ACP_MODEL_ID] src/src/model/pi-models.ts:8-8 *)
Definition DEFAULT_ACP_MODEL_ID : string := "acp-default".

(** [PiModel] src/src/model/pi-models.ts:24-24
    As far as it is looked at here. *)
Record PiModel := MkModel {
  m_id : string; m_name : string; m_provider : string; contextWindow : option Z; maxTokens : option Z;
  cost_input : Z; cost_output : Z; cost_cacheRead : Z; cost_cacheWrite : Z }.
(** [ModelEntry] src/src/model/pi-models.ts:33-40 *)
Record Clone := MkClone {
  cl_template : string; cl_input : Z; cl_output : Z; cl_cacheWrite : option Z; cl_contextWindow : Z; cl_maxTokens : Z }.
(** [ModelEntry] src/src/model/pi-models.ts:26-41 *)
Record ModelEntry := MkModelEntry {
  me_id : string; me_name : string; me_fastMode : bool; me_webui : bool; me_base : bool; me_auxiliary : bool; me_clone : option Clone }.

(** [GPT_56_CLONE] src/src/model/pi-models.ts:43-43 *)
Definition gpt_56_clone (input output : Z) : Clone := MkClone "gpt-5.5" input output None 1050000 128000.
(** [MODEL_REGISTRY] src/src/model/pi-models.ts:45-93 *)
Definition MODEL_REGISTRY : list ModelEntry := [
  MkModelEntry "claude-fable-5" "Claude Fable 5" false true true false None;
  MkModelEntry "claude-opus-5" "Claude Opus 5" true true true false
    (Some (MkClone "claude-opus-4-8" 500 2500 (Some 625) 1000000 128000));
  MkModelEntry "claude-opus-4-8" "Claude Opus 4.8" true true true false None;
  MkModelEntry "claude-sonnet-5" "Claude Sonnet 5" false true true false None;
  MkModelEntry "claude-haiku-4-5" "Claude Haiku 4.5" false true true true None;
  MkModelEntry "gpt-5.6-sol" "GPT-5.6 Sol" false true true false (Some (gpt_56_clone 500 3000));
  MkModelEntry "gpt-5.6-terra" "GPT-5.6 Terra" false true true false (Some (gpt_56_clone 250 1500));
  MkModelEntry "gpt-5.6-luna" "GPT-5.6 Luna" false true true true (Some (gpt_56_clone 100 600));
  MkModelEntry "openrouter/auto" "OpenRouter Auto" false true true false None;
  MkModelEntry "claude-opus-4-7" "Claude Opus 4.7" true false false false None;
  MkModelEntry "claude-opus-4-6" "Claude Opus 4.6" true false false false None ].
(** [REGISTRY_BY_ID] src/src/model/pi-models.ts:95-95 *)
Definition registered (id : string) : option ModelEntry := find (fun e => e.(me_id) === id) MODEL_REGISTRY.
(** [modelDisplayName] src/src/model/pi-models.ts:97-99 *)
Definition modelDisplayName (id : string) : string := from_option me_name id (registered id).
(** [DEFAULT_WEBUI_MODEL_IDS] src/src/model/pi-models.ts:101-101 *)
Definition DEFAULT_WEBUI_MODEL_IDS : list string := map me_id (js_filter me_webui MODEL_REGISTRY).
(** [SELECTABLE_BASE_MODELS] src/src/model/pi-models.ts:103-105 *)
Definition SELECTABLE_BASE_MODELS : list ModelEntry := js_filter me_base MODEL_REGISTRY.
(** [FAST_MODE_MODEL_IDS] src/src/model/pi-models.ts:250-250 *)
Definition FAST_MODE_MODEL_IDS : list string := map me_id (js_filter me_fastMode MODEL_REGISTRY).
(** [modelSupportsFastMode] src/src/model/pi-models.ts:246-248 *)
Definition modelSupportsFastMode (id : option string) : bool :=
  match id with Some id => truthy id && from_option me_fastMode false (registered id) | None => false end.

(** [ModelProviderAvailability] src/src/model/pi-models.ts:195-199 *)
Record Availability := MkAvailability { anthropic : bool; openai : bool; openrouter : bool }.
(** [ALL_PROVIDERS_AVAILABLE] src/src/model/pi-models.ts:214-214 *)
Definition ALL_PROVIDERS_AVAILABLE : Availability := MkAvailability true true true.
(** [modelProviderAvailabilityFor] src/src/model/pi-models.ts:216-227 *)
Definition modelProviderAvailabilityFor (harness : string) (configKeys managedKeys : Availability) : Availability :=
  if harness === "pi" then managedKeys
  else if harness === "opencode" then MkAvailability configKeys.(anthropic) configKeys.(openai) false
  else ALL_PROVIDERS_AVAILABLE.
(** [onlyProvider] src/src/model/pi-models.ts:229-231 *)
Definition onlyProvider (provider : string) : Availability :=
  MkAvailability (provider === "anthropic") (provider === "openai") (provider === "openrouter").
Definition available (a : Availability) (provider : string) : option bool :=
  if provider === "anthropic" then Some a.(anthropic) else if provider === "openai" then Some a.(openai)
  else if provider === "openrouter" then Some a.(openrouter) else None.

Section models.
(** [getBuiltinModel] of the agent library, for a provider and an id. *)
Variable getModel : string -> string -> option PiModel.

(** [builtinModel] src/src/model/pi-models.ts:107-113 *)
Fixpoint first_builtin (providers : list string) (id : string) : option PiModel :=
  match providers with
  | [] => None
  | p :: providers => match getModel p id with Some m => Some m | None => first_builtin providers id end
  end.
Definition builtinModel (id : string) : option PiModel := first_builtin MODEL_PROVIDERS id.
(** [resolveModel] src/src/model/pi-models.ts:129-147
    with [cloneModel]. *)
Definition resolveModel (id : string) : option PiModel :=
  match registered id with
  | Some (MkModelEntry _ name _ _ _ _ (Some c)) =>
      (fun t => MkModel id name t.(m_provider) (Some c.(cl_contextWindow)) (Some c.(cl_maxTokens))
                  c.(cl_input) c.(cl_output) (c.(cl_input) / 10) (c.(cl_cacheWrite) ?? 0)) <$> builtinModel c.(cl_template)
  | _ => builtinModel id
  end.
Definition provider_of (id : string) : option string := m_provider <$> resolveModel id.
(** [getRequiredModel] src/src/model/pi-models.ts:240-244 *)
Definition getRequiredModel (id : string) : result string PiModel :=
  match resolveModel id with Some m => Ok m | None => Throw ("Unsupported model: " +:+ id) end.

(** [auxiliaryModelForProvider] src/src/model/pi-models.ts:149-151 *)
Definition auxiliaryModelForProvider (provider : string) : option string :=
  me_id <$> find (fun e => e.(me_auxiliary) && (provider_of e.(me_id) === Some provider)) MODEL_REGISTRY.
(** [auxiliaryModelFor] src/src/model/pi-models.ts:153-157 *)
Definition auxiliaryModelFor (baseModelId : string) : string :=
  match if_truthy (provider_of baseModelId) with
  | None => baseModelId
  | Some provider => auxiliaryModelForProvider provider ?? baseModelId
  end.
(** [contextTokenBudgetForModel] src/src/model/pi-models.ts:159-168
    Half of what is left of the window. *)
Definition contextTokenBudgetForModel (id : string) : option Z :=
  match resolveModel id with
  | Some (MkModel _ _ _ (Some window) (Some output) _ _ _ _) =>
      if (window <=? 0) || (output <=? 0) || (output >=? window) then None else Some ((window - output) / 2)
  | _ => None
  end.

Definition lower_starts (s p : string) : bool := starts_with (to_lower s) p.
(** [modelSupportedByHarness] src/src/model/pi-models.ts:170-178 *)
Definition modelSupportedByHarness (id : option string) (harness : string) : bool :=
  match if_truthy id with
  | None => false
  | Some id =>
      if harness === "acp" then truthy (trim id)
      else if (harness === "pi") || (harness === "opencode") || (harness === "mock") then is_some (resolveModel id)
      else if harness === "claude" then (provider_of id === Some "anthropic") || lower_starts id "claude-"
      else if harness === "codex" then
        (provider_of id === Some "openai") || lower_starts id "gpt-" || lower_starts id "codex" || lower_starts id "openai/"
        || (lower_starts id "o" && from_option is_digit false (str_head (str_drop 1 id)))
      else false
  end.
(** [modelServiceable] src/src/model/pi-models.ts:201-208 *)
Definition modelServiceable (id : string) (providers : Availability) : bool :=
  match if_truthy (provider_of id) with None => false | Some p => available providers p ?? true end.
(** [serviceableModelIds] src/src/model/pi-models.ts:210-212 *)
Definition serviceableModelIds (ids : list string) (providers : Availability) : list string :=
  js_filter (fun id => modelServiceable id providers) ids.
(** [defaultModelForHarness] src/src/model/pi-models.ts:180-193 *)
Definition defaultModelForHarness (harness : string) (configured : option string) (providers : option Availability) : string :=
  match (if modelSupportedByHarness configured harness then configured else None) with
  | Some c => c
  | None =>
      if harness === "acp" then DEFAULT_ACP_MODEL_ID
      else
        let preferred := if harness === "codex" then DEFAULT_CODEX_MODEL_ID else DEFAULT_AGENT_MODEL_ID in
        match providers with
        | None => preferred
        | Some providers =>
            if modelServiceable preferred providers then preferred
            else from_option me_id preferred
                   (find (fun m => modelSupportedByHarness (Some m.(me_id)) harness && modelServiceable m.(me_id) providers)
                      SELECTABLE_BASE_MODELS)
        end
  end.
(** [defaultModelForProvider] src/src/model/pi-models.ts:233-238 *)
Definition defaultModelForProvider (harness provider : string) : option string :=
  let only := onlyProvider provider in
  if negb (available (modelProviderAvailabilityFor harness only only) provider ?? false) then None
  else
    let model := defaultModelForHarness harness None (Some only) in
    if modelSupportedByHarness (Some model) harness && modelServiceable model only then Some model else None.

(** ** What is chosen fits *)

Lemma serviceable_only id provider : modelServiceable id (onlyProvider provider) = true ->
  provider ∈ MODEL_PROVIDERS -> exists p, provider_of id = Some p /\ (p = provider \/ p ∉ MODEL_PROVIDERS).
Proof.
  unfold modelServiceable. destruct (provider_of id) as [p|]; [|done]. unfold if_truthy. destruct (truthy_opt (Some p)); [|done].
  intros H Hp. exists p. split; [done|]. destruct (decide (p ∈ MODEL_PROVIDERS)) as [Hin|]; [|by right]. left.
  unfold MODEL_PROVIDERS in *. set_unfold in Hin. set_unfold in Hp.
  destruct Hin as [->|[->|[->|[]]]], Hp as [->|[->|[->|[]]]]; done.
Qed.

(** The model found for a run of a harness fits: a configured model is kept only when the
    harness can run it, and when no provider is preferred the choice falls back to a
    registered model that the harness runs and a provider serves, if there is one. *)
Lemma default_fits harness configured providers m :
  defaultModelForHarness harness configured (Some providers) = m -> harness <> "acp" ->
  Some m = configured \/ modelServiceable m providers = true \/
  (forall e, e ∈ SELECTABLE_BASE_MODELS -> modelSupportedByHarness (Some (me_id e)) harness && modelServiceable (me_id e) providers = false).
Proof.
  unfold defaultModelForHarness. intros H Hacp.
  destruct (if modelSupportedByHarness configured harness then configured else None) as [c|] eqn:Ec.
  { left. destruct (modelSupportedByHarness configured harness); [by subst|done]. }
  right. rewrite (proj2 (eqb_false _ _) Hacp) in H. set (preferred := if harness === "codex" then _ else _) in *.
  destruct (modelServiceable preferred providers) eqn:Es; [left; by subst|].
  destruct (find _ SELECTABLE_BASE_MODELS) as [e|] eqn:Ef; cbn [from_option] in H.
  - left. apply find_Some in Ef as [_ Ef]. apply andb_true_iff in Ef as [_ Ef]. by subst m.
  - right. by apply find_None.
Qed.

(** The helper of a model is served by the provider that serves the model. *)
Lemma auxiliary_same_provider id : is_Some (resolveModel id) -> provider_of (auxiliaryModelFor id) = provider_of id.
Proof.
  intros [m Hm]. unfold auxiliaryModelFor. destruct (provider_of id) as [p|] eqn:Ep; [|by unfold provider_of in Ep; rewrite Hm in Ep].
  unfold if_truthy. destruct (truthy_opt (Some p)); [|done]. unfold auxiliaryModelForProvider.
  destruct (find _ MODEL_REGISTRY) as [e|] eqn:Ef; [|done]. cbn. apply find_Some in Ef as [_ Ef].
  apply andb_true_iff in Ef as [_ Ef]. by to_prop.
Qed.

(** The budget leaves room for the answer. *)
Lemma context_budget_fits id b : contextTokenBudgetForModel id = Some b ->
  exists m w o, resolveModel id = Some m /\ contextWindow m = Some w /\ maxTokens m = Some o /\ 0 <= b /\ 2 * b + o <= w.
Proof.
  unfold contextTokenBudgetForModel. destruct (resolveModel id) as [[i n p [w|] [o|] a c d e]|]; try done.
  destruct (_ || _) eqn:E; [done|]. apply orb_false_iff in E as [[E1 E2]%orb_false_iff E3]. intros [= <-]. do 3 eexists. split; [done|]. split; [done|]. split; [done|].
  pose proof (Z.mul_div_le (w - o) 2 ltac:(lia)). split; [apply Z.div_pos; lia|lia].
Qed.
End models.
