(* ===== verification/Config.v ===== *)
(** * Scoped configuration: settings kept in memory and written behind

    The settings of [src/src/resolution/config-store.ts] other than SOUL documents, which
    are in [Souls], with the keyed queue of [src/src/util/async.ts] they are written
    through.  A setter changes the memory of the process at once and queues the write of the
    row; one write of a key is on its way at a time, and it may fail.  Other processes write
    the same rows.  A table is a durable map from scopes to rows, and a row stands as its
    value: the scope it names is its key.  A queued write is one step. *)

From S2P Require Import Prelude JsString Scope DurableMap CommandPolicy Posture Egress Souls Models.

#[local] Open Scope Z_scope.

(** ** Data *)

(** [ApprovalGrantModes] src/src/types.ts:517-520 *)
Record ApprovalGrantModes := MkModes { m_session : bool; m_always : bool }.
(** [RuntimeSelection] src/src/resolution/config-store.ts:67-70 *)
Record RuntimeSelection := MkSelection { rs_harnessId : string; rs_modelId : string }.
(** [ScopedRuntimeSelection] src/src/resolution/config-store.ts:71-74 *)
Record ScopedRuntimeSelection := MkScoped { ss_selection : RuntimeSelection; ss_orgRevision : Z; ss_revision : option Z }.
(** [PersistedBaseModel] src/src/resolution/config-store.ts:60-66 *)
Record BaseModel := MkBaseModel {
  b_modelId : string; b_harnessId : option string; b_orgRevision : option Z; b_revision : option Z }.
#[export] Instance BaseModel_eta : Eta BaseModel := fun b =>
  MkBaseModel b.(b_modelId) b.(b_harnessId) b.(b_orgRevision) b.(b_revision).
(** [OrgBranding] src/src/resolution/config-store.ts:87-91 *)
Record OrgBranding := MkBranding { br_accent : option string; br_mark : option string; br_selfLabel : option string }.

(** [ScopeConfigPresence] src/src/resolution/config-store.ts:108-119 *)
Record ScopeConfigPresence := MkPresence {
  has_soul : bool; has_commandPolicy : bool; has_securityPosture : bool; has_approvalGrantModes : bool; has_egress : bool;
  has_unfulfilledInsights : bool; has_externalSlackParticipants : bool; has_runtime : bool; has_approvedHarnesses : bool;
  has_branding : bool }.

(** The durable maps the store is opened on. *)
Inductive Table :=
| t_soul | t_policy | t_posture | t_modes | t_egress | t_insights | t_slack | t_model | t_approved | t_ambient | t_fast
| t_webui | t_people | t_branding | t_steps | t_browse | t_clock.
#[export] Instance Table_eq_dec : EqDecision Table.
Proof. solve_decision. Defined.

(** [createMemoryConfigStore] src/src/resolution/config-store.ts:204-222
    What a row of each map holds. *)
Definition Val (t : Table) : Type :=
  match t with
  | t_soul => PersistedSoul
  | t_policy => CommandPolicy
  | t_posture => SecurityPosture
  | t_modes => ApprovalGrantModes
  | t_egress => EgressPolicy
  | t_insights | t_slack | t_ambient | t_fast => bool
  | t_model => BaseModel
  | t_approved | t_webui => list string
  | t_people | t_browse => string
  | t_branding => OrgBranding
  | t_steps | t_clock => Z
  end.
Definition Tables := forall t, jsmap ScopeId (Val t).

(** The table [t] replaced. *)
Definition put_table (t : Table) (m : jsmap ScopeId (Val t)) (r : Tables) : Tables := fun t' =>
  match decide (t = t') with left e => eq_rect t (fun t => jsmap ScopeId (Val t)) m t' e | right _ => r t' end.
Definition put_row (t : Table) (id : ScopeId) (v : Val t) (r : Tables) : Tables := put_table t (<[id := v]> (r t)) r.
Definition delete_row (t : Table) (id : ScopeId) (r : Tables) : Tables := put_table t (delete id (r t)) r.
Definition put_or_delete (t : Table) (id : ScopeId) (v : option (Val t)) (r : Tables) : Tables :=
  match v with Some v => put_row t id v r | None => delete_row t id r end.

(** The name a table has in the keys of the queue. *)
Definition table_name (t : Table) : string :=
  match t with
  | t_soul => "soul" | t_policy => "policy" | t_posture => "securityPosture" | t_modes => "approvalGrantModes"
  | t_egress => "egress" | t_insights => "unfulfilled" | t_slack => "externalSlack" | t_model => "model"
  | t_approved => "approvedHarnesses" | t_ambient => "orgAmbient" | t_fast => "interactiveFastMode"
  | t_webui => "webuiModels" | t_people => "peopleDir" | t_branding => "branding" | t_steps => "browseSteps"
  | t_browse => "browseModel" | t_clock => "turnWallClock"
  end.
Definition key (t : Table) (id : ScopeId) : string := table_name t +:+ ":" +:+ id.

(** [createMemoryConfigStore] src/src/resolution/config-store.ts:228-246
    What the process remembers: the tables it has read or set, the three switches of the
    organisation, and the SOULs. *)
Record Caches := MkCaches {
  known : Tables; approvedHarnesses : option (list string); orgAmbient : bool; interactiveFastMode : bool; soul_cache : Souls.Cache }.
#[export] Instance Caches_eta : Eta Caches := fun c =>
  MkCaches c.(known) c.(approvedHarnesses) c.(orgAmbient) c.(interactiveFastMode) c.(soul_cache).
Definition learn (t : Table) (id : ScopeId) (v : option (Val t)) (c : Caches) : Caches :=
  c <| known := put_or_delete t id v c.(known) |>.

(** A write that waits in the queue of its key: what it does to the rows and, when it is
    done, to the memory; whether [pendingWrites] tells of it. *)
Record Write := MkWrite { wr_id : nat; wr_tracked : bool; wr_run : Tables -> Tables * (Caches -> Caches) }.

(** [createMemoryConfigStore] src/src/resolution/config-store.ts:267-268
    The rows, the memory, the queues, the writes the process still speaks of, and what has
    become of it all: the promises that were rejected and the changes of runtime told to the
    listeners. *)
Record Config := MkConfig {
  rows : Tables; caches : Caches; queue : jsmap string (list Write); pendingWrites : jsmap string nat;
  next_id : nat; rejected : list nat; noted : list ScopeId }.
#[export] Instance Config_eta : Eta Config := fun c =>
  MkConfig c.(rows) c.(caches) c.(queue) c.(pendingWrites) c.(next_id) c.(rejected) c.(noted).

(** ** The queue *)

(** [createKeyedQueue] src/src/util/async.ts:7-22
    A write joins the queue of its key. *)
Definition enqueue (k : string) (tracked : bool) (op : Tables -> Tables * (Caches -> Caches)) (c : Config) : Config :=
  c <| queue := <[k := (c.(queue) !! k ?? []) ++ [MkWrite c.(next_id) tracked op]]> c.(queue) |> <| next_id := S c.(next_id) |>.
(** [persist] src/src/resolution/config-store.ts:269-277 *)
Definition persist (k : string) (op : Tables -> Tables) (c : Config) : Config :=
  enqueue k true (fun r => (op r, fun m => m)) (c <| pendingWrites := <[k := c.(next_id)]> c.(pendingWrites) |>).
(** [persist] src/src/resolution/config-store.ts:270-274
    The first write of a queue ends, well or not. *)
Definition run_write (k : string) (succeeds : bool) (c : Config) : Config :=
  match c.(queue) !! k with
  | Some (w :: ws) =>
      let c := c <| queue := <[k := ws]> c.(queue) |> in
      if succeeds then
        let '(r, settle) := w.(wr_run) c.(rows) in
        let c := c <| rows := r |> <| caches := settle c.(caches) |> in
        if w.(wr_tracked) && (c.(pendingWrites) !! k === Some w.(wr_id))
        then c <| pendingWrites := delete k c.(pendingWrites) |> else c
      else c <| rejected := w.(wr_id) :: c.(rejected) |>
  | _ => c
  end.
Definition remember (f : Caches -> Caches) (c : Config) : Config := c <| caches := f c.(caches) |>.
Definition note (id : ScopeId) (c : Config) : Config := c <| noted := c.(noted) ++ [id] |>.

(** A setting changed in memory, and its row behind it. *)
Definition write (t : Table) (id : ScopeId) (v : option (Val t)) (c : Config) : Config :=
  persist (key t id) (put_or_delete t id v) (remember (learn t id v) c).
(** A setting whose caller waits for the row: the memory follows it. *)
Definition write_through (t : Table) (id : ScopeId) (v : option (Val t)) (c : Config) : Config :=
  enqueue (key t id) false (fun r => (put_or_delete t id v r, learn t id v)) c.

(** ** The settings *)

Section settings.
Variable orgId : string.
Variable defaultSecurityPosture : SecurityPosture.
(** [getBuiltinModel] of the agent library. *)
Variable getModel : string -> string -> option PiModel.

(** [createMemoryConfigStore] src/src/resolution/config-store.ts:292-292 *)
Definition org : ScopeId := scopeId Scope.org orgId.

Definition known_of (t : Table) (id : ScopeId) (c : Config) : option (Val t) := known c.(caches) t !! id.
Definition row_of (t : Table) (id : ScopeId) (c : Config) : option (Val t) := c.(rows) t !! id.
Definition forget_or (t : Table) (v : Val t) (id : ScopeId) (c : Config) : Config :=
  remember (learn t id (if id === org then Some v else None)) c.

(** *** Command policies and egress *)

Definition no_egress : EgressPolicy := MkEgress [] None None (Some []).
(** [getCommandPolicy] src/src/resolution/config-store.ts:540-540 *)
Definition getCommandPolicy (id : ScopeId) (c : Config) : option CommandPolicy := known_of t_policy id c.
(** [setCommandPolicy] src/src/resolution/config-store.ts:541-544 *)
Definition setCommandPolicy (id : ScopeId) (policy : CommandPolicy) : Config -> Config := write t_policy id (Some policy).
(** [clearCommandPolicy] src/src/resolution/config-store.ts:545-549 *)
Definition clearCommandPolicy (id : ScopeId) (c : Config) : Config :=
  persist (key t_policy id) (delete_row t_policy id) (forget_or t_policy defaultOrgPolicy id c).
(** [getEgress] src/src/resolution/config-store.ts:594-594 *)
Definition getEgress (id : ScopeId) (c : Config) : option EgressPolicy := known_of t_egress id c.
(** [setEgress] src/src/resolution/config-store.ts:595-598 *)
Definition setEgress (id : ScopeId) (policy : EgressPolicy) : Config -> Config := write t_egress id (Some policy).
(** [clearEgress] src/src/resolution/config-store.ts:599-603 *)
Definition clearEgress (id : ScopeId) (c : Config) : Config :=
  persist (key t_egress id) (delete_row t_egress id) (forget_or t_egress no_egress id c).

(** *** Posture *)

Definition posture_in (get : ScopeId -> option SecurityPosture) (id : ScopeId) : SecurityPosture :=
  let orgPosture := get org ?? defaultSecurityPosture in
  if id === org then orgPosture else composeSecurityPosture orgPosture (get id).
(** [getSecurityPosture] src/src/resolution/config-store.ts:550-553 *)
Definition getSecurityPosture (id : ScopeId) (c : Config) : SecurityPosture :=
  posture_in (fun id => known_of t_posture id c) id.
(** [getSecurityPostureDurable] src/src/resolution/config-store.ts:554-558 *)
Definition getSecurityPostureDurable (id : ScopeId) (c : Config) : SecurityPosture :=
  posture_in (fun id => row_of t_posture id c) id.
(** [setSecurityPosture] src/src/resolution/config-store.ts:559-568
    When the row of the organisation has been read. *)
Definition setSecurityPosture (id : ScopeId) (posture : SecurityPosture) (c : Config) : Config :=
  let effective :=
    if id === org then posture
    else composeSecurityPosture (row_of t_posture org c ?? defaultSecurityPosture) (Some posture) in
  write_through t_posture id (Some effective) c.
(** [clearSecurityPosture] src/src/resolution/config-store.ts:569-572 *)
Definition clearSecurityPosture (id : ScopeId) : Config -> Config := write t_posture id None.

(** *** What an approval may grant *)

(** [createMemoryConfigStore] src/src/resolution/config-store.ts:294-294 *)
Definition DEFAULT_APPROVAL_GRANT_MODES : ApprovalGrantModes := MkModes true true.
(** [composeApprovalGrantModes] src/src/resolution/config-store.ts:295-298 *)
Definition composeApprovalGrantModes (orgModes : ApprovalGrantModes) (scope : option ApprovalGrantModes) : ApprovalGrantModes :=
  MkModes (orgModes.(m_session) && from_option m_session true scope) (orgModes.(m_always) && from_option m_always true scope).
Definition modes_in (get : ScopeId -> option ApprovalGrantModes) (id : ScopeId) : ApprovalGrantModes :=
  let orgModes := get org ?? DEFAULT_APPROVAL_GRANT_MODES in
  if id === org then orgModes else composeApprovalGrantModes orgModes (get id).
(** [getApprovalGrantModes] src/src/resolution/config-store.ts:573-577 *)
Definition getApprovalGrantModes (id : ScopeId) (c : Config) : ApprovalGrantModes := modes_in (fun id => known_of t_modes id c) id.
(** [getApprovalGrantModesDurable] src/src/resolution/config-store.ts:578-582 *)
Definition getApprovalGrantModesDurable (id : ScopeId) (c : Config) : ApprovalGrantModes := modes_in (fun id => row_of t_modes id c) id.
(** [setApprovalGrantModes] src/src/resolution/config-store.ts:583-589 *)
Definition setApprovalGrantModes (id : ScopeId) (modes : ApprovalGrantModes) : Config -> Config := write_through t_modes id (Some modes).
(** [clearApprovalGrantModes] src/src/resolution/config-store.ts:590-593 *)
Definition clearApprovalGrantModes (id : ScopeId) : Config -> Config := write t_modes id None.

(** *** Flags a scope has from its organisation as well *)

(** [getUnfulfilledInsights] src/src/resolution/config-store.ts:604-604 *)
Definition getUnfulfilledInsights (id : ScopeId) (c : Config) : bool :=
  (known_of t_insights org c ?? false) || (known_of t_insights id c ?? false).
(** [setUnfulfilledInsights] src/src/resolution/config-store.ts:605-610 *)
Definition setUnfulfilledInsights (id : ScopeId) (on : bool) : Config -> Config := write t_insights id (Some on).
(** [clearUnfulfilledInsights] src/src/resolution/config-store.ts:611-614 *)
Definition clearUnfulfilledInsights (id : ScopeId) : Config -> Config := write t_insights id None.
(** [getExternalSlackParticipants] src/src/resolution/config-store.ts:615-616 *)
Definition getExternalSlackParticipants (id : ScopeId) (c : Config) : bool :=
  (known_of t_slack org c ?? false) || (known_of t_slack id c ?? false).
(** [setExternalSlackParticipants] src/src/resolution/config-store.ts:617-622 *)
Definition setExternalSlackParticipants (id : ScopeId) (on : bool) : Config -> Config := write t_slack id (Some on).
(** [clearExternalSlackParticipants] src/src/resolution/config-store.ts:623-628 *)
Definition clearExternalSlackParticipants (id : ScopeId) : Config -> Config := write t_slack id None.
(** [getExternalSlackParticipantsDurable] src/src/resolution/config-store.ts:629-631 *)
Definition getExternalSlackParticipantsDurable (id : ScopeId) (c : Config) : bool :=
  (row_of t_slack org c ?? false) || (row_of t_slack id c ?? false).

(** *** The model and the harness of a scope *)

(** [getBaseModel] src/src/resolution/config-store.ts:632-632 *)
Definition getBaseModel (id : ScopeId) (c : Config) : option string := b_modelId <$> known_of t_model id c.
(** [setBaseModel] src/src/resolution/config-store.ts:633-646 *)
Definition setBaseModel (id : ScopeId) (modelId : option string) (c : Config) : Config :=
  match modelId with
  | None => note id (write t_model id None c)
  | Some modelId =>
      let prior := known_of t_model id c in
      match if_truthy (prior ≫= b_harnessId) with
      | Some h =>
          if isHarnessId h && negb (modelSupportedByHarness getModel (Some modelId) h) then c
          else note id (write t_model id ((fun b => b <| b_modelId := modelId |>) <$> prior) c)
      | None =>
          note id (write t_model id (Some (from_option (fun b => b <| b_modelId := modelId |>) (MkBaseModel modelId None None None) prior)) c)
      end
  end.
Definition selection_of (row : option BaseModel) : option ScopedRuntimeSelection :=
  b ← row; h ← if_truthy b.(b_harnessId);
  Some (MkScoped (MkSelection h b.(b_modelId)) (b.(b_orgRevision) ?? 0) b.(b_revision)).
(** [getRuntimeSelection] src/src/resolution/config-store.ts:647-656 *)
Definition getRuntimeSelection (id : ScopeId) (c : Config) : option ScopedRuntimeSelection := selection_of (known_of t_model id c).
(** [getRuntimeSelectionDurable] src/src/resolution/config-store.ts:713-722 *)
Definition getRuntimeSelectionDurable (id : ScopeId) (c : Config) : option ScopedRuntimeSelection := selection_of (row_of t_model id c).
(** [setRuntimeSelection] src/src/resolution/config-store.ts:664-669
    The row of a selection, under the row of the organisation. *)
Definition selected (id : ScopeId) (s : RuntimeSelection) (orgRow : option BaseModel) : BaseModel :=
  let orgRevision := (orgRow ≫= b_revision) ?? 0 in
  let revision := orgRevision + 1 in
  if id === org then MkBaseModel s.(rs_modelId) (Some s.(rs_harnessId)) (Some revision) (Some revision)
  else MkBaseModel s.(rs_modelId) (Some s.(rs_harnessId)) (Some orgRevision) None.
(** [setRuntimeSelection] src/src/resolution/config-store.ts:657-673 *)
Definition setRuntimeSelection (id : ScopeId) (s : option RuntimeSelection) (c : Config) : Config :=
  match s with
  | None => note id (write t_model id None c)
  | Some s => note id (write t_model id (Some (selected id s (known_of t_model org c))) c)
  end.
(** [setRuntimeSelectionLatest] src/src/resolution/config-store.ts:674-691
    What is queued; the listeners are told when it is done. *)
Definition setRuntimeSelectionLatest (id : ScopeId) (s : option RuntimeSelection) (c : Config) : Config :=
  enqueue (key t_model id) false (fun r =>
    let v := (fun s => selected id s (r t_model !! org)) <$> s in
    (put_or_delete t_model id v r, learn t_model id v)) c.
Definition acknowledged (row orgRow : option BaseModel) : option BaseModel :=
  (fun b => b <| b_orgRevision := Some ((orgRow ≫= b_revision) ?? 0) |>) <$> row.
(** [acknowledgeRuntimeSelection] src/src/resolution/config-store.ts:692-698 *)
Definition acknowledgeRuntimeSelection (id : ScopeId) (c : Config) : Config :=
  match acknowledged (known_of t_model id c) (known_of t_model org c) with
  | Some next => if id === org then c else write t_model id (Some next) c
  | None => c
  end.
(** [acknowledgeRuntimeSelectionLatest] src/src/resolution/config-store.ts:699-709 *)
Definition acknowledgeRuntimeSelectionLatest (id : ScopeId) (c : Config) : Config :=
  if id === org then c
  else enqueue (key t_model id) false (fun r =>
    match acknowledged (r t_model !! id) (r t_model !! org) with
    | Some next => (put_row t_model id next r, learn t_model id (Some next))
    | None => (r, fun m => m)
    end) c.
(** [getBaseModelOwnDurable] src/src/resolution/config-store.ts:748-748 *)
Definition getBaseModelOwnDurable (id : ScopeId) (c : Config) : option string := b_modelId <$> row_of t_model id c.
(** [getBaseModelDurable] src/src/resolution/config-store.ts:749-751 *)
Definition getBaseModelDurable (id : ScopeId) (c : Config) : option string :=
  match b_modelId <$> row_of t_model id c with
  | Some m => Some m
  | None => if id === org then None else b_modelId <$> row_of t_model org c
  end.

(** *** The switches of the organisation *)

(** [setApprovedHarnesses] src/src/resolution/config-store.ts:724-732 *)
Definition setApprovedHarnesses (ids : option (list string)) (c : Config) : Config :=
  persist (key t_approved org) (put_or_delete t_approved org ids) (remember (fun m => m <| approvedHarnesses := ids |>) c).
(** [getApprovedHarnessesDurable] src/src/resolution/config-store.ts:733-733 *)
Definition getApprovedHarnessesDurable (c : Config) : option (list string) := row_of t_approved org c.
(** [setOrgAmbient] src/src/resolution/config-store.ts:735-738 *)
Definition setOrgAmbient (on : bool) (c : Config) : Config :=
  persist (key t_ambient org) (put_row t_ambient org on) (remember (fun m => m <| orgAmbient := on |>) c).
(** [getOrgAmbientDurable] src/src/resolution/config-store.ts:739-739 *)
Definition getOrgAmbientDurable (c : Config) : bool := row_of t_ambient org c ?? true.
(** [setInteractiveFastMode] src/src/resolution/config-store.ts:741-746 *)
Definition setInteractiveFastMode (on : bool) (c : Config) : Config :=
  persist (key t_fast org) (put_row t_fast org on) (remember (fun m => m <| interactiveFastMode := on |>) c).
(** [getInteractiveFastModeDurable] src/src/resolution/config-store.ts:747-747 *)
Definition getInteractiveFastModeDurable (c : Config) : bool := row_of t_fast org c ?? false.

(** *** What the interface shows and a turn is limited to *)

(** [getWebuiModels] src/src/resolution/config-store.ts:752-752 *)
Definition getWebuiModels (id : ScopeId) (c : Config) : option (list string) := known_of t_webui id c.
(** [setWebuiModels] src/src/resolution/config-store.ts:753-761 *)
Definition setWebuiModels (id : ScopeId) (ids : option (list string)) : Config -> Config :=
  write t_webui id (match ids with Some (_ :: _) => ids | _ => None end).
(** [getWebuiModelsDurable] src/src/resolution/config-store.ts:762-763 *)
Definition getWebuiModelsDurable (id : ScopeId) (c : Config) : option (list string) :=
  match row_of t_webui id c with Some ids => Some ids | None => row_of t_webui org c end.
(** [getPeopleDirectoryUrl] src/src/resolution/config-store.ts:764-764 *)
Definition getPeopleDirectoryUrl (id : ScopeId) (c : Config) : option string := known_of t_people id c.
(** [setPeopleDirectoryUrl] src/src/resolution/config-store.ts:765-773 *)
Definition setPeopleDirectoryUrl (id : ScopeId) (url : option string) : Config -> Config := write t_people id url.
(** [getBranding] src/src/resolution/config-store.ts:774-774 *)
Definition getBranding (id : ScopeId) (c : Config) : option OrgBranding := known_of t_branding id c.
(** [setBranding] src/src/resolution/config-store.ts:775-783 *)
Definition setBranding (id : ScopeId) (value : option OrgBranding) : Config -> Config := write t_branding id value.
(** [getBrandingDurable] src/src/resolution/config-store.ts:784-784 *)
Definition getBrandingDurable (id : ScopeId) (c : Config) : option OrgBranding := row_of t_branding id c.
(** [getBrowseMaxSteps] src/src/resolution/config-store.ts:785-785 *)
Definition getBrowseMaxSteps (id : ScopeId) (c : Config) : option Z := known_of t_steps id c.
(** [setBrowseMaxSteps] src/src/resolution/config-store.ts:786-794 *)
Definition setBrowseMaxSteps (id : ScopeId) (steps : option Z) : Config -> Config := write t_steps id steps.
(** [getBrowseModel] src/src/resolution/config-store.ts:795-795 *)
Definition getBrowseModel (id : ScopeId) (c : Config) : option string := known_of t_browse id c.
(** [setBrowseModel] src/src/resolution/config-store.ts:796-804 *)
Definition setBrowseModel (id : ScopeId) (modelId : option string) : Config -> Config := write t_browse id modelId.
(** [getTurnWallClockSecDurable] src/src/resolution/config-store.ts:805-805 *)
Definition getTurnWallClockSecDurable (id : ScopeId) (c : Config) : option Z := row_of t_clock id c.
(** [setTurnWallClockSec] src/src/resolution/config-store.ts:806-812 *)
Definition setTurnWallClockSec (id : ScopeId) (sec : option Z) : Config -> Config := write_through t_clock id sec.

(** *** SOULs, through the queue *)

(** [setSoul] src/src/resolution/config-store.ts:419-421
    What [Souls.setSoul] changes, with its write queued. *)
Definition setSoul (id : ScopeId) (content : string) (by_ : option string) (now : Z) (c : Config) : Z * Config :=
  let '(version, op, souls) := Souls.setSoul id content by_ now (soul_cache c.(caches)) in
  (version, persist (key t_soul id) (fun r => put_table t_soul (op (r t_soul)) r) (remember (fun m => m <| soul_cache := souls |>) c)).
(** [clearSoul] src/src/resolution/config-store.ts:468-469
    What [Souls.clearSoul] changes, with its write queued; the old revisions are not a table
    here. *)
Definition clearSoul (id : ScopeId) (c : Config) : Config :=
  let (op, souls) := Souls.clearSoul org id (soul_cache c.(caches)) in
  persist (key t_soul id) (fun r => put_table t_soul (op (r t_soul)) r) (remember (fun m => m <| soul_cache := souls |>) c).
(** [getSoul] src/src/resolution/config-store.ts:408-408 *)
Definition getSoul (id : ScopeId) (c : Config) : option string := Souls.getSoul id (soul_cache c.(caches)).

(** *** Following the rows *)

(** What [refreshSecurity] has read of a scope; each row is read in its own time. *)
Record Read := MkRead { rd_soul : option PersistedSoul; rd_policy : option CommandPolicy; rd_egress : option EgressPolicy }.
Definition unless_pending (k : string) (f : Config -> Config) (c : Config) : Config := if has k c.(pendingWrites) then c else f c.
Definition follow (t : Table) (id : ScopeId) (v : option (Val t)) (c : Config) : Config :=
  match v with
  | Some _ => remember (learn t id v) c
  | None => if id !== org then remember (learn t id None) c else c
  end.
Definition follow_soul (id : ScopeId) (soul : option PersistedSoul) (c : Config) : Config :=
  let set_souls f := remember (fun m => m <| soul_cache := (soul_cache m) <| souls := f (soul_cache m).(souls) |> |>) c in
  match soul with
  | Some s => set_souls (fun l => <[id := (s.(p_content), s.(p_version))]> l)
  | None => if id !== org then set_souls (delete id) else c
  end.
(** [refreshSecurity] src/src/resolution/config-store.ts:346-368
    When the rows of a scope have been read. *)
Definition refreshSecurity (id : ScopeId) (read : Read) (c : Config) : Config :=
  unless_pending (key t_egress id) (follow t_egress id read.(rd_egress))
    (unless_pending (key t_policy id) (follow t_policy id read.(rd_policy))
      (unless_pending (key t_soul id) (follow_soul id read.(rd_soul)) c)).

(** [refreshScope] src/src/resolution/config-store.ts:928-948
    The tables, as they were read. *)
Definition refresh_tables (id : ScopeId) (read : Tables) (m : Caches) : Caches :=
  let default {t} (v : Val t) := match read t !! id with Some v' => Some v' | None => if id === org then Some v else None end in
  let as_read t := learn t id (read t !! id) in
  let m := learn t_policy id (@default t_policy defaultOrgPolicy) m in
  let m := as_read t_modes (as_read t_posture m) in
  let m := learn t_egress id (@default t_egress no_egress) m in
  let m := as_read t_model (as_read t_slack (as_read t_insights m)) in
  let m := if id === org
    then m <| approvedHarnesses := read t_approved !! org |> <| orgAmbient := read t_ambient !! org ?? true |>
           <| interactiveFastMode := read t_fast !! org ?? false |>
    else m in
  as_read t_branding m.
(** [refreshScope] src/src/resolution/config-store.ts:882-949 *)
Definition refreshScope (id : ScopeId) (read : Tables) (c : Config) : Config :=
  let (d, souls) := Souls.refreshSoul org id (read t_soul !! id) (c.(rows) t_soul) (soul_cache c.(caches)) in
  remember (fun m => refresh_tables id read (m <| soul_cache := souls |>)) (c <| rows := put_table t_soul d c.(rows) |>).
(** [scopeConfigPresence] src/src/resolution/config-store.ts:845-881 *)
Definition scopeConfigPresence (id : ScopeId) (read : Tables) : ScopeConfigPresence :=
  let there t := has id (read t) in
  MkPresence (there t_soul) (there t_policy) (there t_posture) (there t_modes) (there t_egress) (there t_insights) (there t_slack)
    (there t_model) (if id === org then has org (read t_approved) else false) (there t_branding).

Definition hydrate_table (read : Tables) (m : Caches) (t : Table) : Caches :=
  fold_left (fun m e => learn t e.1 (Some e.2) m) (dm_entries (read t)) m.
(** [hydrate] src/src/resolution/config-store.ts:371-406
    The identity of the database, [identity], and the tables; the SOULs are in [Souls]. *)
Definition hydrate (identity : option string) (read : Tables) (c : Config) : string * result string Config :=
  let owner := identity ?? orgId in
  (owner,
   if owner !== orgId then Throw ("database belongs to org " +:+ owner +:+ ", not " +:+ orgId)
   else Ok (remember (fun m =>
     let m := fold_left (hydrate_table read) [t_policy; t_posture; t_modes; t_egress; t_insights; t_slack; t_model] m in
     let m := m <| approvedHarnesses := read t_approved !! org |> <| orgAmbient := read t_ambient !! org ?? true |>
                <| interactiveFastMode := read t_fast !! org ?? false |> in
     fold_left (hydrate_table read) [t_webui; t_people; t_branding; t_steps; t_browse; t_clock] m) c)).

(** [flushScope] src/src/resolution/config-store.ts:951-962 *)
Definition flush_keys (id : ScopeId) : list string :=
  map (fun t => key t id) [t_soul; t_policy; t_posture; t_modes; t_egress; t_slack; t_model; t_clock; t_branding]
  ++ (if id === org then map (fun t => key t org) [t_approved; t_ambient; t_fast] else []).
(** A flush of a key awaits the write that was pending when it began, then its turn in the
    queue. *)
Inductive Flush := fl_await (pending : option nat) | fl_turn (ticket : nat).
Definition queued (k : string) (n : nat) (c : Config) : bool := some (fun w => w.(wr_id) =? n)%nat (c.(queue) !! k ?? []).
(** [flushScope] src/src/resolution/config-store.ts:963-966 *)
Definition flush_begin (k : string) (c : Config) : Flush := fl_await (c.(pendingWrites) !! k).
(** [flushScope] src/src/resolution/config-store.ts:965-968
    What it awaits now, or that it has ended. *)
Definition flush_step (k : string) (f : Flush) (c : Config) : (Flush + result string unit) * Config :=
  let turn := (inl (fl_turn c.(next_id)), enqueue k false (fun r => (r, fun m => m)) c) in
  match f with
  | fl_await (Some n) =>
      if queued k n c then (inl f, c)
      else if includes c.(rejected) n then (inr (Throw "the write failed"), c)
      else turn
  | fl_await None => turn
  | fl_turn n => if queued k n c then (inl f, c) else (inr (Ok tt), c)
  end.
End settings.

(** ** What a process does between two moments *)

(** An operation on the rows that leaves those of the other keys alone. *)
Definition local_to (k : string) (op : Tables -> Tables) : Prop :=
  forall r t id, key t id <> k -> op r t !! id = r t !! id.

(** Anything but a setting of the key [k]: settings of other keys, ends of writes, the memory
    changing, turns taken by flushes, rows of other keys written by other processes. *)
Inductive cstep (k : string) : Config -> Config -> Prop :=
| cs_persist k' op c : k' <> k -> local_to k' op -> cstep k c (persist k' op c)
| cs_enqueue k' op c : k' <> k -> local_to k' (fun r => (op r).1) -> cstep k c (enqueue k' false op c)
| cs_turn k' c : cstep k c (enqueue k' false (fun r => (r, fun m => m)) c)
| cs_run k' succeeds c : cstep k c (run_write k' succeeds c)
| cs_remember f c : cstep k c (remember f c)
| cs_note id c : cstep k c (note id c)
| cs_row k' op c : k' <> k -> local_to k' op -> cstep k c (c <| rows := op c.(rows) |>).

Definition nothing : Tables := fun t => ∅.
Definition start (read : Tables) (m : Caches) : Config := MkConfig read m ∅ ∅ 0 [] [].
Definition config_reachable (c : Config) : Prop :=
  exists read m, rtc (fun c c' => exists k, cstep k c c') (start read m) c.

(** A flush of a key and all that happens until it ends with an answer. *)
Inductive flush_run (k : string) : Flush -> Config -> result string unit -> Config -> Prop :=
| fr_meanwhile f c c1 r c2 : cstep k c c1 -> flush_run k f c1 r c2 -> flush_run k f c r c2
| fr_step f c f' c1 r c2 : flush_step k f c = (inl f', c1) -> flush_run k f' c1 r c2 -> flush_run k f c r c2
| fr_end f c r c1 : flush_step k f c = (inr r, c1) -> flush_run k f c r c1.

(** ** Tables and keys *)

Lemma table_put t t' m r : put_table t m r t' = match decide (t = t') with left e => eq_rect t (fun t => jsmap ScopeId (Val t)) m t' e | right _ => r t' end.
Proof. done. Qed.
Lemma table_put_eq t m r : put_table t m r t = m.
Proof. unfold put_table. destruct (decide (t = t)) as [e|]; [|done]. by rewrite (Eqdep_dec.UIP_dec Table_eq_dec e eq_refl). Qed.
Lemma table_put_ne t t' m r : t <> t' -> put_table t m r t' = r t'.
Proof. intros. unfold put_table. by destruct (decide (t = t')). Qed.
Lemma lookup_put_or_delete t id v r t' id' :
  (t', id') <> (t, id) -> put_or_delete t id v r t' !! id' = r t' !! id'.
Proof.
  intros Hne. destruct (decide (t = t')) as [<-|Ht].
  - assert (id <> id') by congruence. destruct v; cbn; unfold put_row, delete_row; rewrite table_put_eq.
    + by apply lookup_set_ne.
    + rewrite lookup_del. by case_decide.
  - destruct v; cbn; unfold put_row, delete_row; by rewrite table_put_ne.
Qed.
Lemma lookup_put_or_delete_eq t id v r : put_or_delete t id v r t !! id = v.
Proof.
  destruct v; cbn; unfold put_row, delete_row; rewrite table_put_eq; [apply lookup_set_eq|].
  rewrite lookup_del. by case_decide.
Qed.

Fixpoint before_colon (s : string) : string :=
  match s with
  | EmptyString => EmptyString
  | String c s => if c === ":"%char then EmptyString else String c (before_colon s)
  end.
Lemma before_colon_key t id : before_colon (key t id) = table_name t.
Proof. by destruct t. Qed.
Lemma table_name_inj t t' : table_name t = table_name t' -> t = t'.
Proof. by destruct t, t'. Qed.
Lemma key_inj t id t' id' : key t id = key t' id' -> t = t' /\ id = id'.
Proof.
  intros H. assert (t = t') as <-.
  { apply table_name_inj. by rewrite <- !(before_colon_key _ id), H, before_colon_key, before_colon_key. }
  split; [done|]. unfold key in H. by do 2 apply (inj (String.append _)) in H.
Qed.
Lemma put_local t id v : local_to (key t id) (put_or_delete t id v).
Proof. intros r t' id' H. apply lookup_put_or_delete. intros [= -> ->]. done. Qed.

(** ** The queues *)

Definition waiting (k : string) (c : Config) : list Write := c.(queue) !! k ?? [].

Lemma waiting_enqueue k k' tr op c :
  waiting k (enqueue k' tr op c) = if decide (k' = k) then waiting k c ++ [MkWrite (next_id c) tr op] else waiting k c.
Proof. unfold waiting, enqueue. cbn. rewrite lookup_set. by case_decide; subst. Qed.
Lemma waiting_persist k k' op c :
  waiting k (persist k' op c) = if decide (k' = k) then waiting k c ++ [MkWrite (next_id c) true (fun r => (op r, fun m => m))] else waiting k c.
Proof. unfold persist. by rewrite waiting_enqueue. Qed.

(** What the end of a write does, said field by field. *)
Record ran (k : string) (succeeds : bool) (w : Write) (ws : list Write) (c c' : Config) : Prop := {
  ran_first : waiting k c = w :: ws;
  ran_waiting : forall k', waiting k' c' = if decide (k = k') then ws else waiting k' c;
  ran_next : next_id c' = next_id c;
  ran_rows : rows c' = if succeeds then (wr_run w (rows c)).1 else rows c;
  ran_pending : pendingWrites c' =
    if succeeds && (wr_tracked w && (pendingWrites c !! k === Some (wr_id w))) then delete k (pendingWrites c) else pendingWrites c;
  ran_rejected : rejected c' = if succeeds then rejected c else wr_id w :: rejected c;
}.
Lemma run_write_ran k b c : run_write k b c = c \/ exists w ws, ran k b w ws c (run_write k b c).
Proof.
  unfold run_write. destruct (queue c !! k) as [[|w ws]|] eqn:E; [by left| |by left]. right. exists w, ws.
  assert (Hf : waiting k c = w :: ws) by (unfold waiting; by rewrite E).
  assert (Hw : forall k', (<[k:=ws]> (queue c) !! k' ?? []) = if decide (k = k') then ws else waiting k' c)
    by (intros k'; rewrite lookup_set; unfold waiting; by case_decide).
  destruct b; [|by split]. cbn [andb].
  destruct (wr_run w (rows _)) as [r settle] eqn:Er. cbn in Er.
  destruct (wr_tracked w && _) eqn:Ep; cbn in Ep; split; cbn; try done; by rewrite ?Er, ?Ep.
Qed.

(** Every write that waits has an id of its own, given out before, and changes rows of its
    key only. *)
Record config_ok (c : Config) : Prop := {
  co_ids k w : w ∈ waiting k c -> (wr_id w < next_id c)%nat;
  co_local k w : w ∈ waiting k c -> local_to k (fun r => (wr_run w r).1);
  co_rejected n : n ∈ rejected c -> (n < next_id c)%nat;
}.

Lemma config_ok_enqueue k tr op c : config_ok c -> local_to k (fun r => (op r).1) -> config_ok (enqueue k tr op c).
Proof.
  intros H Hop. split.
  - intros k' w. rewrite waiting_enqueue. cbn. case_decide as E.
    + rewrite elem_of_app, list_elem_of_singleton. intros [Hw| ->]; cbn; [pose proof (co_ids _ H _ _ Hw); lia|lia].
    + intros Hw. pose proof (co_ids _ H _ _ Hw). lia.
  - intros k' w. rewrite waiting_enqueue. case_decide as E; [|apply (co_local _ H)]. subst k'.
    rewrite elem_of_app, list_elem_of_singleton. intros [Hw| ->]; [by apply (co_local _ H)|done].
  - intros n Hn. cbn in *. pose proof (co_rejected _ H _ Hn). lia.
Qed.
Lemma config_ok_run k b c : config_ok c -> config_ok (run_write k b c).
Proof.
  intros H. destruct (run_write_ran k b c) as [->|(w & ws & R)]; [done|].
  assert (Hin : forall k' w', w' ∈ waiting k' (run_write k b c) -> w' ∈ waiting k' c).
  { intros k' w'. rewrite (ran_waiting _ _ _ _ _ _ R). case_decide; [|done]. subst k'. rewrite (ran_first _ _ _ _ _ _ R). by right. }
  split.
  - intros k' w' Hw. rewrite (ran_next _ _ _ _ _ _ R). by eapply (co_ids _ H), Hin.
  - intros k' w' Hw. by apply (co_local _ H), Hin.
  - intros n. rewrite (ran_rejected _ _ _ _ _ _ R), (ran_next _ _ _ _ _ _ R). destruct b; [apply (co_rejected _ H)|].
    rewrite elem_of_cons. intros [->|]; [|by apply (co_rejected _ H)]. apply (co_ids _ H k). rewrite (ran_first _ _ _ _ _ _ R). by left.
Qed.
Lemma turn_local k : local_to k (fun r : Tables => (r, fun m : Caches => m).1).
Proof. done. Qed.
Lemma config_ok_same c c' :
  queue c' = queue c -> next_id c' = next_id c -> rejected c' = rejected c -> config_ok c -> config_ok c'.
Proof.
  intros Hq Hn Hr H. split.
  - intros k w. unfold waiting. rewrite Hq, Hn. apply (co_ids _ H).
  - intros k w. unfold waiting. rewrite Hq. apply (co_local _ H).
  - intros n. rewrite Hr, Hn. apply (co_rejected _ H).
Qed.
Lemma config_ok_step k c c' : cstep k c c' -> config_ok c -> config_ok c'.
Proof.
  intros [k' op c0 _ Hl|k' op c0 _ Hl|k' c0|k' b c0|f c0|id c0|k' op c0 _ _] H.
  - apply config_ok_enqueue; [|done]. by eapply (config_ok_same c0).
  - by apply config_ok_enqueue.
  - by apply config_ok_enqueue.
  - by apply config_ok_run.
  - by eapply (config_ok_same c0).
  - by eapply (config_ok_same c0).
  - by eapply (config_ok_same c0).
Qed.
Lemma config_ok_reachable c : config_reachable c -> config_ok c.
Proof.
  intros (read & m & Hr).
  assert (H0 : config_ok (start read m)).
  { split; cbn; unfold waiting; cbn; intros; set_solver. }
  revert H0. induction Hr as [|? ? ? [k Hs] _ IH]; intros H0; [done|]. apply IH. by eapply config_ok_step.
Qed.

(** ** One write, followed *)

Definition is_turn (w : Write) : Prop := wr_tracked w = false /\ forall r, (wr_run w r).1 = r.
Definition other_id (n : nat) (w : Write) : Prop := wr_id w <> n.

Section follow.
Variables (t : Table) (id : ScopeId) (v : option (Val t)) (n : nat).
#[local] Abbreviation k := (key t id).

Definition still (c : Config) : Prop :=
  (exists pre w turns, waiting k c = pre ++ w :: turns /\ wr_id w = n /\ wr_tracked w = true /\
     (forall r, (wr_run w r).1 t !! id = v) /\ Forall is_turn turns /\ Forall (other_id n) (pre ++ turns)) /\
  pendingWrites c !! k = Some n /\ n ∉ rejected c.
Definition saved (c : Config) : Prop :=
  (Forall is_turn (waiting k c) /\ Forall (other_id n) (waiting k c)) /\
  rows c t !! id = v /\ pendingWrites c !! k = None /\ n ∉ rejected c.
Definition lost (c : Config) : Prop :=
  (Forall is_turn (waiting k c) /\ Forall (other_id n) (waiting k c)) /\ pendingWrites c !! k = Some n /\ n ∈ rejected c.

Record follows (c : Config) : Prop := {
  fo_ok : config_ok c;
  fo_next : (n < next_id c)%nat;
  fo_only : forall k' w, w ∈ waiting k' c -> wr_id w = n -> k' = k;
  fo_fate : still c \/ saved c \/ lost c;
}.

(** The fate is read off four things. *)
Lemma fate_same c c' :
  waiting k c' = waiting k c -> pendingWrites c' !! k = pendingWrites c !! k -> rows c' t !! id = rows c t !! id ->
  (n ∈ rejected c' <-> n ∈ rejected c) -> still c \/ saved c \/ lost c -> still c' \/ saved c' \/ lost c'.
Proof. unfold still, saved, lost. intros -> -> -> ->. done. Qed.
Lemma fate_turn c c' m :
  waiting k c' = waiting k c ++ [m] -> is_turn m -> other_id n m -> pendingWrites c' = pendingWrites c -> rows c' = rows c ->
  rejected c' = rejected c -> still c \/ saved c \/ lost c -> still c' \/ saved c' \/ lost c'.
Proof.
  unfold still, saved, lost. intros Hw Hm Ho -> -> ->.
  intros [((pre & w & turns & H & Hi & Ht & Hv & Hf & Hn) & Hp)|[((Hf & Hn) & H)|((Hf & Hn) & H)]]; rewrite Hw.
  - left. split; [|done]. exists pre, w, (turns ++ [m]). rewrite H, <- app_assoc. repeat split; try done.
    + by apply Forall_app_2; [|constructor].
    + rewrite app_assoc. by apply Forall_app_2; [|constructor].
  - right; left. split; [|done]. by split; apply Forall_app_2; [done|by constructor|done|by constructor].
  - right; right. split; [|done]. by split; apply Forall_app_2; [done|by constructor|done|by constructor].
Qed.
Lemma fate_run b w ws c c' :
  ran k b w ws c c' -> still c \/ saved c \/ lost c -> still c' \/ saved c' \/ lost c'.
Proof.
  intros [Hf Hw _ Hr Hp Hj]. unfold still, saved, lost. rewrite Hf, Hw, decide_True by done. rewrite Hp, Hr, Hj.
  intros [((pre & w0 & turns & H & Hi & Ht & Hv & Hu & Hn) & Hpk & Hrj)|[((Hu & Hn) & Hv & Hpk & Hrj)|((Hu & Hn) & Hpk & Hrj)]].
  - destruct pre as [|x pre]; injection H as -> ->; cbn in Hn.
    + rewrite Ht, Hi, Hpk, bool_decide_true by done. destruct b; cbn [andb].
      * right; left. rewrite lookup_del, decide_True by done. done.
      * right; right. split; [done|]. split; [done|by left].
    + apply Forall_cons in Hn as [Hx Hn]. left. split; [by exists pre, w0, turns|].
      rewrite Hpk, (bool_decide_false (Some n = _)), !andb_false_r by (intros [=]; by apply Hx). split; [done|].
      destruct b; [done|]. rewrite not_elem_of_cons. split; [|done]. intros ->. by apply Hx.
  - apply Forall_cons in Hu as [[Hx Hx'] Hu], Hn as [Hxn Hn]. right; left. rewrite Hx, !andb_false_r, Hx'.
    split; [done|]. split; [by destruct b|]. split; [done|]. destruct b; [done|]. rewrite not_elem_of_cons. split; [|done].
    intros ->. by apply Hxn.
  - apply Forall_cons in Hu as [[Hx Hx'] Hu], Hn as [Hxn Hn]. right; right. rewrite Hx, !andb_false_r. split; [done|].
    split; [done|]. destruct b; [done|by right].
Qed.

Lemma follows_step c c' : cstep k c c' -> follows c -> follows c'.
Proof.
  intros Hs [Ho Hn Honly Hf]. pose proof (config_ok_step _ _ _ Hs Ho) as Ho'. split; [done| | |]; destruct Hs as
    [k' op c0 Hk Hl|k' op c0 Hk Hl|k' c0|k' b c0|f c0|id' c0|k' op c0 Hk Hl].
  all: try (cbn; lia).
  all: try done.
  - destruct (run_write_ran k' b c0) as [->|(w & ws & R)]; [done|]. by rewrite (ran_next _ _ _ _ _ _ R).
  - intros k2 w. rewrite waiting_persist. case_decide; [|by apply Honly]. rewrite elem_of_app, list_elem_of_singleton.
    intros [Hw| ->]; [by apply Honly|]. cbn. lia.
  - intros k2 w. rewrite waiting_enqueue. case_decide; [|by apply Honly]. rewrite elem_of_app, list_elem_of_singleton.
    intros [Hw| ->]; [by apply Honly|]. cbn. lia.
  - intros k2 w. rewrite waiting_enqueue. case_decide; [|by apply Honly]. rewrite elem_of_app, list_elem_of_singleton.
    intros [Hw| ->]; [by apply Honly|]. cbn. lia.
  - destruct (run_write_ran k' b c0) as [->|(w & ws & R)]; [done|]. intros k2 w2. rewrite (ran_waiting _ _ _ _ _ _ R).
    case_decide; [|by apply Honly]. subst k2. intros Hw. apply Honly. rewrite (ran_first _ _ _ _ _ _ R). by right.
  - apply (fate_same c0); try done; [rewrite waiting_persist; by case_decide|]. cbn. by rewrite lookup_set_ne.
  - apply (fate_same c0); try done. rewrite waiting_enqueue. by case_decide.
  - destruct (decide (k' = k)) as [->|Hk].
    + apply (fate_turn c0 _ (MkWrite (next_id c0) false (fun r => (r, fun m => m)))); try done; [|unfold other_id; cbn; lia].
      by rewrite waiting_enqueue, decide_True.
    + apply (fate_same c0); try done. rewrite waiting_enqueue. by case_decide.
  - destruct (run_write_ran k' b c0) as [->|(w & ws & R)]; [done|].
    destruct (decide (k' = k)) as [->|Hk]; [by eapply fate_run|].
    assert (Hin : w ∈ waiting k' c0) by (rewrite (ran_first _ _ _ _ _ _ R); by left).
    apply (fate_same c0); try done.
    + rewrite (ran_waiting _ _ _ _ _ _ R). by case_decide.
    + rewrite (ran_pending _ _ _ _ _ _ R). destruct (b && _); [|done]. rewrite lookup_del. by case_decide.
    + rewrite (ran_rows _ _ _ _ _ _ R). destruct b; [|done]. apply (co_local _ Ho _ _ Hin). congruence.
    + rewrite (ran_rejected _ _ _ _ _ _ R). destruct b; [done|]. rewrite elem_of_cons. split; [|by right]. intros [->|]; [|done].
      by destruct Hk; eapply Honly.
  - apply (fate_same c0); try done. cbn. apply Hl. congruence.
Qed.
Lemma follows_steps c c' : rtc (cstep k) c c' -> follows c -> follows c'.
Proof. induction 1; [done|]. eauto using follows_step. Qed.
End follow.

Lemma follows_write t id v c : config_ok c -> follows t id v (next_id c) (write t id v c).
Proof.
  intros H. split.
  - eapply config_ok_step; [|eapply (config_ok_step "") with (c := c); [apply cs_remember|done]].
    apply (cs_persist (key t id +:+ "!")); [|apply put_local]. intros E. apply (f_equal String.length) in E. rewrite length_append in E. cbn in E. lia.
  - cbn. lia.
  - intros k' w. unfold write. rewrite waiting_persist. case_decide as E; [by subst|]. intros Hw Hi.
    pose proof (co_ids _ H k' w Hw). lia.
  - left. split.
    + eexists (waiting (key t id) c), _, []. unfold write. rewrite waiting_persist, decide_True by done. split; [reflexivity|].
      repeat split; try done.
      * intros r. cbn. apply lookup_put_or_delete_eq.
      * rewrite app_nil_r. apply Forall_forall. intros w Hw Hi. pose proof (co_ids _ H _ w Hw). lia.
    + cbn. rewrite lookup_set_eq. split; [done|]. intros Hr. pose proof (co_rejected _ H _ Hr). lia.
Qed.

(** A write that is neither waiting nor to come ends no more. *)
Definition gone (n : nat) (c : Config) : Prop := (n < next_id c)%nat /\ forall k w, w ∈ waiting k c -> wr_id w <> n.
Lemma gone_step k n c c' : cstep k c c' -> gone n c -> gone n c' /\ (n ∈ rejected c' <-> n ∈ rejected c).
Proof.
  assert (Hadd : forall k' tr op c, gone n c -> gone n (enqueue k' tr op c)).
  { intros k' tr op c0 [Hn H]. split; [cbn; lia|]. intros k2 w. rewrite waiting_enqueue. case_decide; [|apply H].
    rewrite elem_of_app, list_elem_of_singleton. intros [Hw| ->]; [by eapply H|]. cbn. lia. }
  intros [k' op c0 _ _|k' op c0 _ _|k' c0|k' b c0|f c0|id' c0|k' op c0 _ _] H.
  - split; [|done]. by apply Hadd.
  - split; [|done]. by apply Hadd.
  - split; [|done]. by apply Hadd.
  - destruct (run_write_ran k' b c0) as [->|(w & ws & R)]; [done|]. destruct H as [Hn H].
    assert (Hw : wr_id w <> n) by (apply (H k'); rewrite (ran_first _ _ _ _ _ _ R); by left).
    split; [split; [by rewrite (ran_next _ _ _ _ _ _ R)|]|].
    + intros k2 w2. rewrite (ran_waiting _ _ _ _ _ _ R). case_decide; [|apply H]. intros Hw2. apply (H k').
      rewrite (ran_first _ _ _ _ _ _ R). by right.
    + rewrite (ran_rejected _ _ _ _ _ _ R). destruct b; [done|]. rewrite elem_of_cons. naive_solver.
  - done.
  - done.
  - done.
Qed.

Lemma not_queued_gone t id v n c : follows t id v n c -> queued (key t id) n c = false -> gone n c /\ (saved t id v n c \/ lost t id n c).
Proof.
  intros [_ Hn Honly Hf] Hq. unfold queued in Hq. fold (waiting (key t id) c) in Hq.
  assert (Hno : Forall (other_id n) (waiting (key t id) c)).
  { apply Forall_forall. intros w Hw Hi. pose proof (proj1 (some_false _ _) Hq w Hw) as H. cbv beta in H. apply Nat.eqb_neq in H. done. }
  split.
  - split; [done|]. intros k w Hw Hi. pose proof (Honly _ _ Hw Hi) as ->. rewrite Forall_forall in Hno. by apply (Hno w).
  - destruct Hf as [((pre & w & turns & H & Hi & _) & _)|]; [|done]. rewrite H in Hno. apply Forall_app in Hno as [_ Hno].
    by apply Forall_cons in Hno as [[] _].
Qed.
Lemma gone_fate t id v n c : follows t id v n c -> gone n c -> saved t id v n c \/ lost t id n c.
Proof.
  intros [_ _ _ Hf] [_ H]. destruct Hf as [((pre & w & turns & Hw & Hi & _) & _)|]; [|done].
  exfalso. destruct (H (key t id) w); [|done]. rewrite Hw. apply elem_of_app. right. by left.
Qed.

(** A flush that began after the write ends as the write did. *)
Definition flush_sound (n : nat) (f : Flush) (c : Config) : Prop :=
  match f with fl_await (Some m) => m = n | fl_await None | fl_turn _ => gone n c /\ n ∉ rejected c end.
Lemma flush_sound_step k n f c c' : cstep k c c' -> flush_sound n f c -> flush_sound n f c'.
Proof. destruct f as [[|]|]; cbn; [done| |]; intros Hs [Hg Hr]; destruct (gone_step _ _ _ _ Hs Hg) as [? ->]; done. Qed.

Lemma flush_run_ends t id v n f c r c' : follows t id v n c -> flush_sound n f c -> flush_run (key t id) f c r c' ->
  match r with Ok _ => saved t id v n c' | Throw _ => lost t id n c' end.
Proof.
  intros Hf Hs Hrun. revert Hf Hs. induction Hrun as [f c c1 r c2 Hstep _ IH|f c f' c1 r c2 Hstep _ IH|f c r c1 Hstep]; intros Hf Hs.
  - apply IH; [by eapply follows_step|by eapply flush_sound_step].
  - assert (Hturn : forall n', gone n' c -> n' ∉ rejected c -> let c' := enqueue (key t id) false (fun r => (r, fun m => m)) c in
      follows t id v n c' /\ gone n' c' /\ n' ∉ rejected c').
    { intros n' Hg Hr. pose proof (cs_turn (key t id) (key t id) c) as Ht. split; [by eapply follows_step|].
      by destruct (gone_step _ _ _ _ Ht Hg) as [? ->]. }
    destruct f as [[m|]|m]; cbn in Hstep, Hs.
    + subst m. destruct (queued (key t id) n c) eqn:Eq; [by injection Hstep as <- <-; apply IH|].
      destruct (includes (rejected c) n) eqn:Er; [done|]. injection Hstep as <- <-. apply bool_decide_eq_false in Er.
      destruct (Hturn n) as (? & ?); [by eapply not_queued_gone|done|by apply IH].
    + injection Hstep as <- <-. destruct Hs. destruct (Hturn n) as (? & ?); [done..|by apply IH].
    + destruct (queued (key t id) m c); [|done]. injection Hstep as <- <-. by apply IH.
  - destruct f as [[m|]|m]; cbn in Hstep, Hs; [|done|].
    + subst m. destruct (queued (key t id) n c) eqn:Eq; [done|]. destruct (includes (rejected c) n) eqn:Er; [|done].
      injection Hstep as <- <-. apply bool_decide_eq_true in Er. destruct (not_queued_gone _ _ _ _ _ Hf Eq) as [_ [(_ & _ & _ & ?)|]]; done.
    + destruct (queued (key t id) m c); [done|]. injection Hstep as <- <-. destruct Hs as [Hg Hr].
      destruct (gone_fate _ _ _ _ _ Hf Hg) as [|(_ & _ & ?)]; done.
Qed.

(** A flush of a setting tells the truth.  In a process that has run in any way, a setting
    is written; other settings are written, writes end well or not, memory is refreshed and
    other processes write other rows, as often as they like; then a flush of its key begins
    and ends.  If it ends well, the row holds the value and nothing is pending, so that the
    process follows the row again; if it throws, the write failed and is still told as
    pending, so that a later flush throws as well. *)
Theorem flush_tells_truth t id (v : option (Val t)) c c1 r c2 :
  config_reachable c -> rtc (cstep (key t id)) (write t id v c) c1 ->
  flush_run (key t id) (flush_begin (key t id) c1) c1 r c2 ->
  match r with
  | Ok _ => row_of t id c2 = v /\ pendingWrites c2 !! key t id = None
  | Throw _ => exists n, pendingWrites c2 !! key t id = Some n /\ n ∈ rejected c2
  end.
Proof.
  intros Hc Hs Hrun. pose proof (follows_steps _ _ _ _ _ _ Hs (follows_write t id v c (config_ok_reachable _ Hc))) as Hf.
  assert (Hb : flush_sound (next_id c) (flush_begin (key t id) c1) c1).
  { pose proof Hf as [_ Hn Honly [(_ & Hp & _)|[((_ & Ho) & _ & Hp & Hr)|(_ & Hp & _)]]]; unfold flush_begin; rewrite Hp; cbn; try done.
    split; [|done]. split; [done|]. intros k' w Hw Hi. pose proof (Honly _ _ Hw Hi) as ->. rewrite Forall_forall in Ho. by apply (Ho w). }
  pose proof (flush_run_ends _ _ _ _ _ _ _ _ Hf Hb Hrun) as H. destruct r as [|].
  - destruct H as (_ & Hv & Hp & _). done.
  - destruct H as (_ & Hp & Hr). eauto.
Qed.

(** The operations are such steps, so that a run may be made of them. *)
Section operations.
Variables (orgId : string) (k : string).

Lemma write_steps t id v c : key t id <> k -> rtc (cstep k) c (write t id v c).
Proof. intros H. eapply rtc_l; [apply (cs_remember k (learn t id v))|]. apply rtc_once, cs_persist; [done|apply put_local]. Qed.
Lemma write_through_step t id v c : key t id <> k -> cstep k c (write_through t id v c).
Proof. intros H. apply cs_enqueue; [done|]. apply put_local. Qed.
Lemma learn_latest_step id s c : key t_model id <> k -> cstep k c (setRuntimeSelectionLatest orgId id s c).
Proof. intros H. apply cs_enqueue; [done|]. intros r t' id' H'. by apply put_local. Qed.
Lemma unless_pending_steps k' f c : (forall c, rtc (cstep k) c (f c)) -> rtc (cstep k) c (unless_pending k' f c).
Proof. intros H. unfold unless_pending. by destruct (has _ _). Qed.
Lemma follow_steps t id v c : rtc (cstep k) c (follow orgId t id v c).
Proof. unfold follow. destruct v; [apply rtc_once, cs_remember|]. destruct (id !== _); [apply rtc_once, cs_remember|done]. Qed.
Lemma follow_soul_steps id s c : rtc (cstep k) c (follow_soul orgId id s c).
Proof. unfold follow_soul. destruct s; [apply rtc_once, cs_remember|]. destruct (id !== _); [apply rtc_once, cs_remember|done]. Qed.
Lemma refreshSecurity_steps id read c : rtc (cstep k) c (refreshSecurity orgId id read c).
Proof.
  unfold refreshSecurity. do 3 (etrans; [|apply unless_pending_steps; intros; solve [apply follow_steps|apply follow_soul_steps]]). done.
Qed.
Lemma flush_step_steps k' f c : rtc (cstep k) c (flush_step k' f c).2.
Proof.
  unfold flush_step. destruct f as [[n|]|n]; [destruct (queued _ _ _); [done|]; destruct (includes _ _); [done|]| |destruct (queued _ _ _); done].
  all: apply rtc_once, cs_turn.
Qed.
End operations.

(** ** What a scope may loosen *)

Section floors.
Variables (orgId : string) (defaultSecurityPosture : SecurityPosture).
Abbreviation org := (org orgId).

Lemma compose_rank floor scope :
  POSTURE_RANK floor <= POSTURE_RANK (composeSecurityPosture floor scope) /\
  forall s, scope = Some s -> POSTURE_RANK s <= POSTURE_RANK (composeSecurityPosture floor scope).
Proof. unfold composeSecurityPosture. destruct floor, scope as [[]|]; cbn; split; try lia; intros ? [= <-]; cbn; lia. Qed.

(** No scope is under its organisation: its posture is at least the posture of the
    organisation, and at least what it asked for itself; an approval grants nothing there that
    the organisation does not let it grant.  This is so of the memory and of the rows, and a
    posture that is set is stored over the floor of its time. *)
Lemma scopes_keep_floors id c :
  (POSTURE_RANK (getSecurityPosture orgId defaultSecurityPosture org c) <= POSTURE_RANK (getSecurityPosture orgId defaultSecurityPosture id c)) /\
  (POSTURE_RANK (getSecurityPostureDurable orgId defaultSecurityPosture org c) <= POSTURE_RANK (getSecurityPostureDurable orgId defaultSecurityPosture id c)) /\
  (forall s, row_of t_posture id c = Some s -> POSTURE_RANK s <= POSTURE_RANK (getSecurityPostureDurable orgId defaultSecurityPosture id c)) /\
  (forall f, f = m_session \/ f = m_always -> f (getApprovalGrantModesDurable orgId id c) -> f (getApprovalGrantModesDurable orgId org c)) /\
  (forall f, f = m_session \/ f = m_always -> f (getApprovalGrantModes orgId id c) -> f (getApprovalGrantModes orgId org c)).
Proof.
  assert (Hp : forall get, POSTURE_RANK (posture_in orgId defaultSecurityPosture get org) <= POSTURE_RANK (posture_in orgId defaultSecurityPosture get id) /\
    forall s, get id = Some s -> POSTURE_RANK s <= POSTURE_RANK (posture_in orgId defaultSecurityPosture get id)).
  { intros get. unfold posture_in. rewrite (bool_decide_true (org = org)) by done. case_bool_decide as E.
    - split; [lia|]. intros s Hs. subst id. rewrite Hs. cbn. lia.
    - apply compose_rank. }
  assert (Hm : forall get f, f = m_session \/ f = m_always -> f (modes_in orgId get id) -> f (modes_in orgId get org)).
  { intros get f Hf. unfold modes_in. rewrite (bool_decide_true (org = org)) by done. case_bool_decide as E; [done|].
    unfold composeApprovalGrantModes. destruct Hf as [-> | ->]; cbn; rewrite andb_True; tauto. }
  split; [exact (proj1 (Hp (fun i => known_of t_posture i c)))|]. split; [exact (proj1 (Hp (fun i => row_of t_posture i c)))|].
  split; [exact (proj2 (Hp (fun i => row_of t_posture i c)))|].
  split; [exact (Hm (fun i => row_of t_modes i c))|exact (Hm (fun i => known_of t_modes i c))].
Qed.

Lemma has_key_unless k f c : unless_pending k f c = if has k (pendingWrites c) then c else f c.
Proof. done. Qed.
Lemma known_learn t id v t' id' m :
  known (learn t id v m) t' !! id' = if decide ((t', id') = (t, id)) then known (learn t id v m) t' !! id' else known m t' !! id'.
Proof. case_decide as E; [done|]. unfold learn. cbn. by apply lookup_put_or_delete. Qed.
Lemma known_follow t id v c :
  known_of t id (follow orgId t id v c) = match v with Some x => Some x | None => if id === org then known_of t id c else None end.
Proof.
  unfold follow, known_of, remember, learn. destruct v; cbn; [apply (lookup_put_or_delete_eq t id (Some _))|].
  case_bool_decide; cbn; [done|]. apply (lookup_put_or_delete_eq t id None).
Qed.
Lemma known_follow_ne t id v t' id' c : (t', id') <> (t, id) -> known_of t' id' (follow orgId t id v c) = known_of t' id' c.
Proof.
  intros H. unfold follow, known_of, remember, learn. destruct v; cbn; [by apply (lookup_put_or_delete t id (Some _))|].
  case_bool_decide; cbn; [done|]. by apply (lookup_put_or_delete t id None).
Qed.
Lemma known_follow_soul t id id' s c : known_of t id (follow_soul orgId id' s c) = known_of t id c.
Proof. unfold follow_soul. destruct s; [done|]. by destruct (id' !== _). Qed.
Lemma pending_follow t id v c : pendingWrites (follow orgId t id v c) = pendingWrites c.
Proof. unfold follow. destruct v; [done|]. by destruct (id !== _). Qed.
Lemma pending_follow_soul id s c : pendingWrites (follow_soul orgId id s c) = pendingWrites c.
Proof. unfold follow_soul. destruct s; [done|]. by destruct (id !== _). Qed.

(** What a refresh before a turn does to the command policy and the egress of a scope: the
    row as it was read, unless a write of this process is pending; a missing row leaves the
    organisation what it had. *)
Lemma refresh_follows id read c :
  getCommandPolicy id (refreshSecurity orgId id read c) =
    (if has (key t_policy id) (pendingWrites c) then getCommandPolicy id c
     else match rd_policy read with Some p => Some p | None => if id === org then getCommandPolicy id c else None end) /\
  getEgress id (refreshSecurity orgId id read c) =
    (if has (key t_egress id) (pendingWrites c) then getEgress id c
     else match rd_egress read with Some p => Some p | None => if id === org then getEgress id c else None end).
Proof.
  unfold getCommandPolicy, getEgress, refreshSecurity, unless_pending.
  destruct (has (key t_soul id) _); rewrite ?pending_follow_soul; destruct (has (key t_policy id) _) eqn:E; rewrite ?pending_follow, ?pending_follow_soul;
    destruct (has (key t_egress id) _); rewrite ?(known_follow_ne t_egress id _ t_policy) by done; rewrite ?known_follow, ?known_follow_soul,
      ?(known_follow_ne t_policy id _ t_egress) by done; rewrite ?known_follow_soul; done.
Qed.
End floors.

(** ** Runs *)

Definition demo_caches : Caches := MkCaches nothing None true false (initial_cache "org:o").
Definition demo_start : Config := start nothing demo_caches.
Definition demo_scope : ScopeId := "channel:c".
Definition deny_evil : EgressPolicy := MkEgress [] None None (Some ["evil.com"]).

Lemma demo_reachable : config_reachable demo_start.
Proof. by exists nothing, demo_caches. Qed.

Lemma flush_tells_truth_witness :
  let c1 := write t_egress demo_scope (Some deny_evil) demo_start in
  let c2 := run_write (key t_egress demo_scope) true (run_write (key t_egress demo_scope) true
    (flush_step (key t_egress demo_scope) (fl_await None) (run_write (key t_egress demo_scope) true c1)).2) in
  row_of t_egress demo_scope c2 = Some deny_evil /\ pendingWrites c2 !! key t_egress demo_scope = None.
Proof.
  refine (flush_tells_truth t_egress demo_scope (Some deny_evil) demo_start
    (write t_egress demo_scope (Some deny_evil) demo_start) (Ok tt) _ demo_reachable (rtc_refl _ _) _).
  eapply fr_meanwhile; [apply (cs_run _ (key t_egress demo_scope) true)|].
  eapply fr_step; [vm_compute; reflexivity|]. eapply fr_meanwhile; [apply (cs_run _ (key t_egress demo_scope) true)|].
  eapply fr_meanwhile; [apply (cs_run _ (key t_egress demo_scope) true)|]. apply fr_end. vm_compute. reflexivity.
Defined.

(** The write of an egress policy fails.  The process keeps the policy it set, and no refresh
    brings it the policy that another process writes later; and an administrator who then sets
    something else for the scope is told of a failure by the flush, although it was saved. *)
Example failed_write_pins :
  let c := run_write (key t_egress demo_scope) false (setEgress demo_scope no_egress demo_start) in
  let c := c <| rows := put_row t_egress demo_scope deny_evil c.(rows) |> in
  let c' := refreshSecurity "o" demo_scope (MkRead None None (row_of t_egress demo_scope c)) c in
  let saved := run_write (key t_branding demo_scope) true (setBranding demo_scope (Some (MkBranding (Some "red") None None)) c) in
  (getEgress demo_scope c', row_of t_egress demo_scope c') = (Some no_egress, Some deny_evil) /\
  (getBrandingDurable demo_scope saved = Some (MkBranding (Some "red") None None)) /\
  (key t_egress demo_scope ∈ flush_keys "o" demo_scope /\
   (flush_step (key t_egress demo_scope) (flush_begin (key t_egress demo_scope) saved) saved).1 = inr (Throw "the write failed")).
Proof. split; [vm_compute; reflexivity|]. split; [vm_compute; reflexivity|]. split; [|vm_compute; reflexivity]. set_solver. Qed.

(** The settings of a scope are read while a write of one of them is on its way: memory goes
    back to the old row, and stays there when the write has ended well. *)
Example read_takes_back :
  let c := setExternalSlackParticipants demo_scope true demo_start in
  let c' := run_write (key t_slack demo_scope) true (refreshScope "o" demo_scope c.(rows) c) in
  (getExternalSlackParticipants "o" demo_scope c, getExternalSlackParticipants "o" demo_scope c',
   getExternalSlackParticipantsDurable "o" demo_scope c') = (true, false, true).
Proof. vm_compute. reflexivity. Qed.

(** A flush does not wait for the flag of unfulfilled insights. *)
Example insights_not_flushed : key t_insights demo_scope ∉ flush_keys "o" demo_scope.
Proof. vm_compute. set_solver. Qed.
