(* ===== verification/Approvals.v ===== *)
(** * Approvals: what a turn may run, and who let it

    A command that needs approval, and a tool under the strict posture, runs only when somebody
    let it: [handleTurn] of [src/src/core/orchestrator.ts] (the uses a turn has, the decision
    it carries, what it leaves pending), the gates of [src/src/tools/primitives.ts] and
    [src/src/harness/pi-tools.ts], the outcome of a turn ([src/src/core/turn-outcome.ts]) and
    what the API shows and holds back ([src/src/api/app-helpers.ts],
    [src/src/api/app-turn.ts]).  Hashing, the clock and the model that writes summaries are
    the host's. *)

From S2P Require Import Prelude JsString Json Scope Turn ShellScan CommandPolicy Config.

#[local] Open Scope Z_scope.

(** ** Data *)

(** [ApprovalScope] src/src/types.ts:515-515 *)
Inductive ApprovalScope := once | session_ | always.
#[export] Instance ApprovalScope_eq_dec : EqDecision ApprovalScope.
Proof. solve_decision. Defined.
(** [PendingApprovalRecord] src/src/types.ts:500-513
    Of the request, the actor and the version of the scope; [true] in [pr_input] is the kind
    [input]. *)
Record PendingApprovalRecord := MkPending {
  pr_sessionId : string;
  pr_command : string;
  pr_createdAt : option Z;
  pr_reason : option string;
  pr_matched : option string;
  pr_purpose : option string;
  pr_summary : option string;
  pr_approvalKey : option string;
  pr_grantModes : option ApprovalGrantModes;
  pr_request : option (string * option string);
  pr_blocksInput : option bool;
  pr_kind : option string;
}.
(** [PendingApproval] src/src/types.ts:487-498 *)
Record PendingApproval := MkAsk {
  pa_requestId : string;
  pa_command : string;
  pa_reason : string;
  pa_matched : option string;
  pa_purpose : option string;
  pa_summary : option string;
  pa_approvalKey : option string;
  pa_grantModes : option ApprovalGrantModes;
  pa_blocksInput : option bool;
  pa_kind : option string;
}.
(** [CommandApprovalGrant] src/src/types.ts:522-529 *)
Record CommandApprovalGrant := MkGrant {
  g_actorId : string;
  g_command : string;
  g_scope : ApprovalScope;
  g_createdAt : Z;
  g_sessionId : option string;
  g_approvalKey : option string;
}.
(** [TurnRequest] src/src/types.ts:472-472 *)
Record Decision := MkDecision { d_requestId : string; d_approved : bool; d_scope : option ApprovalScope }.

(** How often a key may still be used: [Infinity] is a number of its own. *)
Inductive Uses := finite (n : nat) | infinite.
Abbreviation CommandUses := (jsmap string Uses).
Definition add_uses (a b : Uses) : Uses := match a, b with finite m, finite n => finite (m + n) | _, _ => infinite end.

(** Whether the organisation lets an approval of this scope stand. *)
Definition mode_of (m : ApprovalGrantModes) (s : ApprovalScope) : bool :=
  match s with once => false | session_ => m.(m_session) | always => m.(m_always) end.

(** ** The uses of a turn *)

(** [handleTurn] src/src/core/orchestrator.ts:964-970 *)
Definition initial_uses (actorId sessionId : string) (modes : ApprovalGrantModes) (grants : list CommandApprovalGrant) : CommandUses :=
  fold_left (fun uses g =>
    if negb (samePerson (Some g.(g_actorId)) (Some actorId)) then uses
    else if (g.(g_scope) === session_) && (g.(g_sessionId) !== Some sessionId) then uses
    else if negb (mode_of modes g.(g_scope)) then uses
    else <[(g.(g_approvalKey) ?? g.(g_command)) := infinite]> uses) grants ∅.
(** [handleTurn] src/src/core/orchestrator.ts:973-976
    One use of a key, if there is one. *)
Definition use_key (key : string) (uses : CommandUses) : option CommandUses :=
  match uses !! key ?? finite 0 with
  | finite 0 => None
  | finite (S n) => Some (<[key := finite n]> uses)
  | infinite => Some (<[key := infinite]> uses)
  end.
Definition tool_key (tool : string) : string := "tool:" +:+ tool.
(** [authorizeToolCall] src/src/core/orchestrator.ts:971-977 *)
Definition authorizeToolCall (tool : string) (uses : CommandUses) : option CommandUses := use_key (tool_key tool) uses.
(** [authorizeCommand] src/src/core/orchestrator.ts:1737-1739 *)
Definition command_key (command : string) (approvalKey : option string) (uses : CommandUses) : string :=
  match approvalKey with
  | Some k => if has k uses then k else if has command uses then command else k
  | None => command
  end.
(** [authorizeCommand] src/src/core/orchestrator.ts:1736-1744 *)
Definition authorizeCommand (command : string) (approvalKey : option string) (uses : CommandUses) : option CommandUses :=
  use_key (command_key command approvalKey uses) uses.

(** ** The gates *)

(** [NeedsApproval] src/src/tools/primitives.ts:103-118 *)
Record NeedsApproval := MkNeeds {
  n_command : string; n_reason : string; n_matched : option string; n_approvalKey : option string }.
Inductive Gate := g_run (evaluation : CommandEvaluation) (uses : CommandUses) | g_denied (reason : string) | g_needs (ask : NeedsApproval).

Section gates.
Variable newRegExp : string -> string -> result string (string -> option string).

(** [execute], [backgroundStart] src/src/tools/primitives.ts:479-489
    The policy and the rules of a layer, as they are when the command comes. *)
Definition gate_command (policy : CommandPolicy) (layerRules : list CommandRule) (command : string) (uses : CommandUses) : scan Gate :=
  e ← evaluateCommandWithLayer newRegExp command policy layerRules;
  mret (match e.(decision) with
        | deny => g_denied ("command denied (" +:+ (e.(reason) ?? "denied by policy") +:+ "): " +:+ command)
        | require_approval =>
            match authorizeCommand command e.(approvalKey) uses with
            | Some uses => g_run e uses
            | None => g_needs (MkNeeds command (e.(reason) ?? "requires approval") e.(matched) e.(approvalKey))
            end
        | allow => g_run e uses
        end).
End gates.

(** [withToolApprovalGate] src/src/harness/pi-tools.ts:2415-2416 *)
Definition TOOL_APPROVAL_EXEMPT : list string := ["finish_silently"; "stay_silent"].
Definition STRICT_TOOL_APPROVAL_REASON : string := "strict posture: this tool call requires human approval".
(** [withToolApprovalGate] src/src/harness/pi-tools.ts:2430-2466
    Whether the tool runs, or what is asked instead; [gated] tells the strict posture. *)
Definition withToolApprovalGate (gated : bool) (tool : string) (uses : CommandUses) : CommandUses + NeedsApproval :=
  if includes TOOL_APPROVAL_EXEMPT tool || negb gated then inl uses
  else match authorizeToolCall tool uses with
       | Some uses => inl uses
       | None => inr (MkNeeds tool STRICT_TOOL_APPROVAL_REASON None (Some (tool_key tool)))
       end.

(** ** The decision a turn carries *)

Section decisions.
(** [hashId] of the source: a hash of parts, cut to a length. *)
Variable hashId : list string -> nat -> string.

(** [commandApprovalId] src/src/core/approval-id.ts:3-5 *)
Definition commandApprovalId (sessionId command : string) : string := hashId [sessionId; command] 16.
Definition scope_name (s : ApprovalScope) : string := match s with once => "once" | session_ => "session" | always => "always" end.
(** [approvalGrantId] src/src/core/orchestrator/turn-helpers.ts:262-266 *)
Definition approvalGrantId (g : CommandApprovalGrant) : string :=
  hashId [g.(g_actorId); scope_name g.(g_scope); g.(g_sessionId) ?? "*"; g.(g_approvalKey) ?? g.(g_command)] 24.

(** What becomes of a turn that carries a decision. *)
Inductive Decided :=
| dc_refused (reason : string)
| dc_ask_again (reason : string) (ask : PendingApproval)
| dc_proceed.
(** The stores an approval is kept in. *)
Record Store := MkStore { pending : jsmap string PendingApprovalRecord; approvalGrants : jsmap string CommandApprovalGrant }.
#[export] Instance Store_eta : Eta Store := fun s => MkStore s.(pending) s.(approvalGrants).

(** [handleTurn] src/src/core/orchestrator.ts:1351-1420
    [p] is the record that was read for the decision; the store is as it is afterwards. *)
Definition decide_approval (d : Decision) (p : option PendingApprovalRecord) (actorId sessionId : string) (modes : ApprovalGrantModes)
    (now : Z) (uses : CommandUses) (st : Store) : Decided * CommandUses * Store :=
  let dropped := st <| pending := delete d.(d_requestId) st.(pending) |> in
  if negb d.(d_approved) then
    (dc_refused (match if_truthy (pr_command <$> p) with Some c => "approval denied for " +:+ c | None => "approval denied" end),
     uses, dropped)
  else
    match p with
    | Some r =>
        if r.(pr_sessionId) !== sessionId then (dc_proceed, uses, st)
        else
          let scope := d.(d_scope) ?? once in
          if (scope !== once) && negb (mode_of modes scope) then
            (dc_ask_again ("the " +:+ dq +:+ scope_name scope +:+ dq
                           +:+ " approval option is disabled by an admin here — approve once or deny")
               (MkAsk d.(d_requestId) r.(pr_command) (r.(pr_reason) ?? "requires approval") (if_truthy r.(pr_matched))
                  (if_truthy r.(pr_purpose)) (if_truthy r.(pr_summary)) (if_truthy r.(pr_approvalKey)) (Some modes)
                  (Some (r.(pr_blocksInput) !== Some false)) (if r.(pr_kind) === Some "approval" then r.(pr_kind) else None)),
             uses, st)
          else
            let useKey := r.(pr_approvalKey) ?? r.(pr_command) in
            let uses := <[useKey := add_uses (uses !! useKey ?? finite 0) (if scope === once then finite 1 else infinite)]> uses in
            let st :=
              if (scope === session_) || (scope === always) then
                let grant := MkGrant actorId r.(pr_command) scope now (if scope === session_ then Some sessionId else None)
                               (if_truthy r.(pr_approvalKey)) in
                dropped <| approvalGrants := <[approvalGrantId grant := grant]> dropped.(approvalGrants) |>
              else dropped in
            (dc_proceed, uses, st)
    | None => (dc_proceed, uses, st)
    end.

(** ** What a turn leaves behind *)

(** [TurnOutcomeInput] src/src/core/turn-outcome.ts:1-7 *)
Record TurnOutcomeInput := MkOutcomeInput {
  oi_reply : option string; oi_attachments : Z; oi_issues : Z; oi_pendingApprovals : list (option string); oi_terminatedOnApproval : bool }.
(** [TurnOutcome] src/src/core/turn-outcome.ts:9-14 *)
Record TurnOutcome := MkOutcome { completed : bool; paused : bool; approvalsBlock : bool; awaitingApproval : bool }.
(** [approvalBlocksInput] src/src/core/turn-outcome.ts:29-31 *)
Definition approvalBlocksInput (kind : option string) (approvalsBlock : bool) : bool := (kind !== Some "input") && approvalsBlock.
(** [deriveTurnOutcome] src/src/core/turn-outcome.ts:16-27 *)
Definition deriveTurnOutcome (i : TurnOutcomeInput) : TurnOutcome :=
  let completed := truthy (from_option trim "" i.(oi_reply)) || (i.(oi_attachments) >? 0) || (i.(oi_issues) >? 0) in
  let paused := (0 <? length i.(oi_pendingApprovals))%nat && negb completed in
  let approvalsBlock := paused || i.(oi_terminatedOnApproval) in
  MkOutcome completed paused approvalsBlock
    (approvalsBlock && some (fun kind => approvalBlocksInput kind approvalsBlock) i.(oi_pendingApprovals)).
(** [sessionStateAfterTurn] src/src/core/turn-outcome.ts:33-35 *)
Definition sessionStateAfterTurn (o : TurnOutcome) : string := if o.(awaitingApproval) then "awaiting_approval" else "idle".

(** What a harness reports of an approval it could not have. *)
Record Asked := MkAsked {
  a_command : string; a_reason : string; a_matched : option string; a_purpose : option string; a_approvalKey : option string; a_kind : option string }.
(** [handleTurn] src/src/core/orchestrator.ts:2856-2859 *)
Definition grant_modes_field (modes : ApprovalGrantModes) : option ApprovalGrantModes :=
  if modes.(m_session) && modes.(m_always) then None else Some modes.
(** [handleTurn] src/src/core/orchestrator.ts:2862-2897
    One approval: its id, its record and what is shown; [summary] is what the model said of it. *)
Definition prepare_approval (sessionId : string) (request : string * option string) (modes : ApprovalGrantModes) (now : Z)
    (o : TurnOutcome) (a : Asked) (summary : option string) : string * PendingApprovalRecord * PendingApproval :=
  let blocks := approvalBlocksInput a.(a_kind) o.(approvalsBlock) in
  let requestId := commandApprovalId sessionId a.(a_command) in
  (requestId,
   MkPending sessionId a.(a_command) (Some now) (Some a.(a_reason)) (if_truthy a.(a_matched)) (if_truthy a.(a_purpose)) (if_truthy summary)
     (if_truthy a.(a_approvalKey)) (grant_modes_field modes) (Some request) (Some blocks) (if_truthy a.(a_kind)),
   MkAsk requestId a.(a_command) a.(a_reason) (if_truthy a.(a_matched)) (if_truthy a.(a_purpose)) (if_truthy summary)
     (if_truthy a.(a_approvalKey)) (grant_modes_field modes) (Some blocks) (if_truthy a.(a_kind))).
(** [handleTurn] src/src/core/orchestrator.ts:2898-2903 *)
Definition put_approvals (prepared : list (string * PendingApprovalRecord * PendingApproval)) (st : Store) : Store :=
  fold_left (fun st p => st <| pending := <[p.1.1 := p.1.2]> st.(pending) |>) prepared st.
(** [handleTurn] src/src/core/orchestrator.ts:2959-3003
    A turn that a gate stopped: what is pending, and what is shown. *)
Definition stopped_by_gate (sessionId : string) (request : string * option string) (modes : ApprovalGrantModes) (now : Z)
    (n : NeedsApproval) (summary : option string) : string * PendingApprovalRecord * PendingApproval :=
  let requestId := commandApprovalId sessionId n.(n_command) in
  (requestId,
   MkPending sessionId n.(n_command) (Some now) (Some n.(n_reason)) (if_truthy n.(n_matched)) None (if_truthy summary)
     (if_truthy n.(n_approvalKey)) (grant_modes_field modes) (Some request) (Some true) (Some "approval"),
   MkAsk requestId n.(n_command) n.(n_reason) (if_truthy n.(n_matched)) None (if_truthy summary)
     (if_truthy n.(n_approvalKey)) (grant_modes_field modes) (Some true) None).

(** How a turn that ended well looks to [handleTurn]. *)
Record Ended := MkEnded {
  en_isPollFire : bool; en_silent : bool; en_pausedOnApproval : bool; en_approvals : list PendingApproval; en_completed : bool;
  en_reply : option string; en_attachments : option (list OutgoingAttachment); en_silentReply : bool; en_speaksThroughTools : bool;
  en_posted : Z; en_userSeq : option Z; en_assistantSeq : option Z }.
(** [handleTurn] src/src/core/orchestrator.ts:2849-2935
    The result of the turn, with the approvals it shows; [stopped] is left out. *)
Definition final_result (sessionId : string) (e : Ended) : TurnResult * list PendingApproval :=
  let result st reply posted atts u a := MkTurnResult st (Some sessionId) reply None false posted atts u a in
  let spoken := result ts_ok e.(en_reply) None
    (match e.(en_attachments) with Some (_ :: _) => e.(en_attachments) | _ => None end) e.(en_userSeq) e.(en_assistantSeq) in
  let silent := result ts_silent None None None None None in
  if e.(en_isPollFire) && e.(en_silent) && negb e.(en_pausedOnApproval) then (silent, [])
  else match e.(en_approvals) with
  | _ :: _ =>
      (if e.(en_completed) then spoken else result ts_pending_approval None None None None None, e.(en_approvals))
  | [] =>
      if e.(en_isPollFire) && negb (is_some (head (e.(en_attachments) ?? []))) && e.(en_silentReply) then (silent, [])
      else if e.(en_speaksThroughTools) then
        (result ts_silent None (if 0 <? e.(en_posted) then Some true else None) None None None, [])
      else (spoken, [])
  end.
End decisions.

(** ** Turns side by side *)

Section world.
Variable newRegExp : string -> string -> result string (string -> option string).
Variable hashId : list string -> nat -> string.

(** Who takes a turn, where, and what its organisation lets an approval grant there. *)
Record Who := MkWho { w_actor : string; w_session : string; w_modes : ApprovalGrantModes }.
Inductive Pc := pc_start | pc_got (d : Decision) (p : option PendingApprovalRecord) | pc_run | pc_over.
Record TurnState := MkTurn { tn_who : Who; tn_uses : CommandUses; tn_pc : Pc }.

(** What happens: a record is put, a decision lets a key be used, something is run. *)
Inductive Event :=
| ev_asked (requestId : string) (r : PendingApprovalRecord)
| ev_approved (i : nat) (who : Who) (requestId key : string) (scope : ApprovalScope)
| ev_ran (i : nat) (who : Who) (command : string) (e : CommandEvaluation) (key : option string).

Record World := MkWorld { w_store : Store; w_turns : list TurnState; w_log : list Event }.

Definition use_of (r : PendingApprovalRecord) : string := r.(pr_approvalKey) ?? r.(pr_command).
(** What a decision lets happen, told after the fact. *)
Definition told (i : nat) (who : Who) (d : Decision) (p : option PendingApprovalRecord) : list Event :=
  match p with
  | Some r =>
      let scope := d.(d_scope) ?? once in
      if d.(d_approved) && (r.(pr_sessionId) === w_session who) && ((scope === once) || mode_of (w_modes who) scope)
      then [ev_approved i who d.(d_requestId) (use_of r) scope] else []
  | None => []
  end.
Definition used_key (command : string) (e : CommandEvaluation) (uses : CommandUses) : option string :=
  if e.(decision) === require_approval then Some (command_key command e.(approvalKey) uses) else None.
Definition tool_eval (tool : string) : CommandEvaluation :=
  MkEval require_approval (Some STRICT_TOOL_APPROVAL_REASON) None (Some (tool_key tool)).

(** Turns of any people in any sessions interleave at their awaits: a turn begins with what
    the standing grants allow it, reads the record it decides on, decides, and runs commands
    under any policy and tools under the strict posture; it leaves approvals pending. *)
Inductive wstep : World -> World -> Prop :=
| ws_begin who st turns log :
    wstep (MkWorld st turns log)
      (MkWorld st (turns ++ [MkTurn who (initial_uses (w_actor who) (w_session who) (w_modes who) (values st.(approvalGrants))) pc_start]) log)
| ws_read i t d st turns log :
    turns !! i = Some t -> tn_pc t = pc_start ->
    wstep (MkWorld st turns log) (MkWorld st (<[i := MkTurn (tn_who t) (tn_uses t) (pc_got d (st.(pending) !! d.(d_requestId)))]> turns) log)
| ws_go i t st turns log :
    turns !! i = Some t -> tn_pc t = pc_start ->
    wstep (MkWorld st turns log) (MkWorld st (<[i := MkTurn (tn_who t) (tn_uses t) pc_run]> turns) log)
| ws_decide i t d p now st turns log out uses st' :
    turns !! i = Some t -> tn_pc t = pc_got d p ->
    decide_approval hashId d p (w_actor (tn_who t)) (w_session (tn_who t)) (w_modes (tn_who t)) now (tn_uses t) st = (out, uses, st') ->
    wstep (MkWorld st turns log)
      (MkWorld st' (<[i := MkTurn (tn_who t) uses (match out with dc_proceed => pc_run | _ => pc_over end)]> turns)
         (log ++ told i (tn_who t) d p))
| ws_call i t policy layerRules command e uses st turns log :
    turns !! i = Some t -> tn_pc t = pc_run ->
    gate_command newRegExp policy layerRules command (tn_uses t) = Ok (g_run e uses) ->
    wstep (MkWorld st turns log)
      (MkWorld st (<[i := MkTurn (tn_who t) uses pc_run]> turns)
         (log ++ [ev_ran i (tn_who t) command e (used_key command e (tn_uses t))]))
| ws_tool i t tool uses st turns log :
    turns !! i = Some t -> tn_pc t = pc_run -> tool ∉ TOOL_APPROVAL_EXEMPT ->
    withToolApprovalGate true tool (tn_uses t) = inl uses ->
    wstep (MkWorld st turns log)
      (MkWorld st (<[i := MkTurn (tn_who t) uses pc_run]> turns) (log ++ [ev_ran i (tn_who t) tool (tool_eval tool) (Some (tool_key tool))]))
| ws_ask i t request now o a summary st turns log :
    turns !! i = Some t -> tn_pc t = pc_run ->
    let p := prepare_approval hashId (w_session (tn_who t)) request (w_modes (tn_who t)) now o a summary in
    wstep (MkWorld st turns log) (MkWorld (put_approvals [p] st) turns (log ++ [ev_asked p.1.1 p.1.2]))
| ws_stopped i t request now n summary st turns log :
    turns !! i = Some t -> tn_pc t = pc_run ->
    let p := stopped_by_gate hashId (w_session (tn_who t)) request (w_modes (tn_who t)) now n summary in
    wstep (MkWorld st turns log)
      (MkWorld (put_approvals [p] st) (<[i := MkTurn (tn_who t) (tn_uses t) pc_over]> turns) (log ++ [ev_asked p.1.1 p.1.2]))
| ws_over i t st turns log :
    turns !! i = Some t -> wstep (MkWorld st turns log) (MkWorld st (<[i := MkTurn (tn_who t) (tn_uses t) pc_over]> turns) log).

Definition empty_world : World := MkWorld (MkStore ∅ ∅) [] [].

(** How often a turn has used a key, and how often it was let to, once each. *)
Definition ran_with (i : nat) (k : string) (e : Event) : bool :=
  match e with ev_ran j _ _ _ key => (j =? i)%nat && (key === Some k) | _ => false end.
Definition let_once (i : nat) (k : string) (e : Event) : bool :=
  match e with ev_approved j _ _ key s => (j =? i)%nat && (key === k) && (s === once) | _ => false end.
Definition count (p : Event -> bool) (l : list Event) : nat := length (js_filter p l).

(** Somebody approved the key for more than once, for this turn too. *)
Definition standing (log : list Event) (i : nat) (who : Who) (k : string) : Prop :=
  exists j who' rid s, ev_approved j who' rid k s ∈ log /\ s <> once /\ mode_of (w_modes who) s = true /\
    (j = i \/ samePerson (Some (w_actor who')) (Some (w_actor who)) = true) /\ (s = session_ -> w_session who' = w_session who).

(** Why an event may happen after those of [before]. *)
Definition explained (before : list Event) (e : Event) : Prop :=
  match e with
  | ev_asked _ _ => True
  | ev_approved i who rid k s => exists r, ev_asked rid r ∈ before /\ pr_sessionId r = w_session who /\ k = use_of r
  | ev_ran i who command e key =>
      e.(decision) <> deny /\
      (e.(decision) = require_approval -> exists k, key = Some k /\ (k = command \/ e.(approvalKey) = Some k) /\
        ((count (ran_with i k) before = 0%nat /\ count (let_once i k) before = 1%nat) \/ standing before i who k))
  end.

(** *** The invariant *)

Definition index_of (e : Event) : option nat :=
  match e with ev_asked _ _ => None | ev_approved i _ _ _ _ | ev_ran i _ _ _ _ => Some i end.
Definition uses_ok (log : list Event) (i : nat) (who : Who) (uses : CommandUses) : Prop :=
  forall k, match uses !! k ?? finite 0 with
            | finite n => (n + count (ran_with i k) log = count (let_once i k) log)%nat
            | infinite => standing log i who k
            end.
Record turn_ok (log : list Event) (i : nat) (t : TurnState) : Prop := {
  to_read d r : tn_pc t = pc_got d (Some r) -> ev_asked d.(d_requestId) r ∈ log /\ pr_approvalKey r <> Some "";
  to_fresh : match tn_pc t with pc_start | pc_got _ _ => forall k, count (let_once i k) log = 0%nat | _ => True end;
  to_once k : (count (let_once i k) log <= 1)%nat;
  to_uses : uses_ok log i (tn_who t) (tn_uses t);
}.
Definition grant_ok (log : list Event) (g : CommandApprovalGrant) : Prop :=
  exists j who rid, ev_approved j who rid (g.(g_approvalKey) ?? g.(g_command)) g.(g_scope) ∈ log /\ w_actor who = g.(g_actorId) /\
    g.(g_scope) <> once /\ (g.(g_scope) = session_ -> g.(g_sessionId) = Some (w_session who)).
Record world_ok (w : World) : Prop := {
  wo_log l1 e l2 : w_log w = l1 ++ e :: l2 -> explained l1 e;
  wo_grants id g : (w_store w).(approvalGrants) !! id = Some g -> grant_ok (w_log w) g;
  wo_pending rid r : (w_store w).(pending) !! rid = Some r -> ev_asked rid r ∈ w_log w /\ pr_approvalKey r <> Some "";
  wo_turns i t : w_turns w !! i = Some t -> turn_ok (w_log w) i t;
  wo_index e i : e ∈ w_log w -> index_of e = Some i -> (i < length (w_turns w))%nat;
}.

Lemma count_app p l e : count p (l ++ [e]) = (count p l + if p e then 1 else 0)%nat.
Proof. unfold count. rewrite js_filter_app, length_app. cbn. by destruct (p e). Qed.
Lemma count_other p l : (forall e, e ∈ l -> p e = false) -> count p l = 0%nat.
Proof. intros H. unfold count. by rewrite (proj2 (js_filter_nil p l) H). Qed.
Lemma standing_app log e i who k : standing log i who k -> standing (log ++ [e]) i who k.
Proof. intros (j & who' & rid & s & H & ?). exists j, who', rid, s. split; [|done]. rewrite elem_of_app. by left. Qed.
Lemma grant_ok_app log e g : grant_ok log g -> grant_ok (log ++ [e]) g.
Proof. intros (j & who & rid & H & ?). exists j, who, rid. split; [|done]. rewrite elem_of_app. by left. Qed.
Lemma index_counts e i : index_of e <> Some i -> forall k, ran_with i k e = false /\ let_once i k e = false.
Proof. destruct e; cbn; intros H k; split; try done; destruct (Nat.eqb_spec i0 i); subst; done. Qed.
Lemma turn_ok_app log e i t : index_of e <> Some i -> turn_ok log i t -> turn_ok (log ++ [e]) i t.
Proof.
  intros He [Hr Hf Ho Hu]. assert (Hc : forall k, count (let_once i k) (log ++ [e]) = count (let_once i k) log /\
    count (ran_with i k) (log ++ [e]) = count (ran_with i k) log).
  { intros k. rewrite !count_app. destruct (index_counts _ _ He k) as [-> ->]. lia. }
  split.
  - intros d r H. rewrite elem_of_app. destruct (Hr _ _ H). by split; [left|].
  - destruct (tn_pc t); try done; intros k; by rewrite (proj1 (Hc k)).
  - intros k. by rewrite (proj1 (Hc k)).
  - intros k. specialize (Hu k). destruct (_ ?? _); [destruct (Hc k) as [-> ->]; done|by apply standing_app].
Qed.

Lemma initial_uses_spec actorId sessionId modes grants k u :
  initial_uses actorId sessionId modes grants !! k = Some u ->
  u = infinite /\ exists g, g ∈ grants /\ k = (g.(g_approvalKey) ?? g.(g_command)) /\ samePerson (Some g.(g_actorId)) (Some actorId) = true /\
    (g.(g_scope) = session_ -> g.(g_sessionId) = Some sessionId) /\ mode_of modes g.(g_scope) = true.
Proof.
  unfold initial_uses. set (f := fun _ _ => _).
  assert (Hf : forall acc, fold_left f grants acc !! k = Some u -> acc !! k = Some u \/
    u = infinite /\ exists g, g ∈ grants /\ k = (g.(g_approvalKey) ?? g.(g_command)) /\ samePerson (Some g.(g_actorId)) (Some actorId) = true /\
    (g.(g_scope) = session_ -> g.(g_sessionId) = Some sessionId) /\ mode_of modes g.(g_scope) = true).
  { induction grants as [|g grants IH]; intros acc H; [by left|]. cbn [fold_left] in H. apply IH in H as [H|(-> & g' & Hg & ?)].
    - unfold f in H. destruct (samePerson _ _) eqn:Ep; cbn [negb] in H; [|by left].
      destruct ((g_scope g === session_) && (g_sessionId g !== Some sessionId)) eqn:Es; [by left|].
      destruct (mode_of modes (g_scope g)) eqn:Em; cbn [negb] in H; [|by left].
      rewrite lookup_set in H. case_decide as Ek; [|by left]. injection H as <-. right. split; [done|]. exists g.
      split; [by left|]. split; [done|]. split; [done|]. split; [|done]. intros Hs. rewrite Hs in Es. cbn in Es.
      by apply negb_false_iff, bool_decide_eq_true in Es.
    - right. split; [done|]. exists g'. split; [by right|done]. }
  intros H. by destruct (Hf _ H).
Qed.

(** What a decision changes. *)
Lemma decide_spec i who d p now uses st out uses' st' :
  (forall r, p = Some r -> pr_approvalKey r <> Some "") ->
  decide_approval hashId d p (w_actor who) (w_session who) (w_modes who) now uses st = (out, uses', st') ->
  (forall rid r, st'.(pending) !! rid = Some r -> st.(pending) !! rid = Some r) /\
  ((told i who d p = [] /\ uses' = uses /\ st'.(approvalGrants) = st.(approvalGrants)) \/
   exists r s, p = Some r /\ pr_sessionId r = w_session who /\ told i who d p = [ev_approved i who d.(d_requestId) (use_of r) s] /\
     uses' = <[use_of r := add_uses (uses !! use_of r ?? finite 0) (if s === once then finite 1 else infinite)]> uses /\
     (s = once /\ st'.(approvalGrants) = st.(approvalGrants) \/
      s <> once /\ mode_of (w_modes who) s = true /\ exists g, st'.(approvalGrants) = <[approvalGrantId hashId g := g]> st.(approvalGrants) /\
        w_actor who = g_actorId g /\ g_scope g = s /\ (g_approvalKey g ?? g_command g) = use_of r /\
        (s = session_ -> g_sessionId g = Some (w_session who)))).
Proof.
  unfold decide_approval, told. intros Hkey H.
  assert (Hsub : forall rid r, delete (d_requestId d) st.(pending) !! rid = Some r -> st.(pending) !! rid = Some r).
  { intros rid r. rewrite lookup_del. by destruct (decide (d_requestId d = rid)). }
  destruct (d_approved d); cbn [negb andb] in *.
  2: { injection H as <- <- <-. split; [done|]. left. by destruct p. }
  destruct p as [r|]; [|injection H as <- <- <-; split; [done|by left]].
  destruct (bool_decide_reflect (pr_sessionId r = w_session who)) as [Hs|Hs]; cbn [negb] in H;
    [|injection H as <- <- <-; split; [done|by left]].
  set (s := d_scope d ?? once) in *. destruct (bool_decide_reflect (s = once)) as [Ho|Ho]; cbn [negb andb orb] in *.
  - injection H as <- <- <-. rewrite Ho. cbn. split; [done|]. right. exists r, once. do 4 (split; [done|]). left. by split.
  - destruct (mode_of (w_modes who) s) eqn:Em; cbn [negb] in H; [|injection H as <- <- <-; split; [done|by left]].
    assert (Hss : (s === session_) || (s === always) = true) by (by destruct s). rewrite Hss in H. injection H as <- <- <-. cbn.
    split; [done|]. right. exists r, s. do 3 (split; [done|]). rewrite bool_decide_false by done. split; [done|]. right.
    do 2 (split; [done|]). eexists. split; [reflexivity|]. cbn. do 2 (split; [done|]). split.
    + specialize (Hkey _ eq_refl). unfold use_of. by destruct (pr_approvalKey r) as [[|c k]|].
    + intros ->. done.
Qed.

Lemma log_snoc log e0 :
  (forall l1 e l2, log = l1 ++ e :: l2 -> explained l1 e) -> explained log e0 -> forall l1 e l2, log ++ [e0] = l1 ++ e :: l2 -> explained l1 e.
Proof.
  intros H He l1 e l2. destruct l2 as [|x l2 _] using rev_ind.
  - intros Ha. by apply app_inj_tail in Ha as [<- <-].
  - rewrite app_comm_cons, app_assoc. intros Ha. apply app_inj_tail in Ha as [Ha _]. by eapply H.
Qed.
Lemma use_key_spec k uses uses' : use_key k uses = Some uses' ->
  (uses !! k = Some infinite /\ uses' = <[k := infinite]> uses) \/
  (exists n, uses !! k = Some (finite (S n)) /\ uses' = <[k := finite n]> uses).
Proof. unfold use_key. destruct (uses !! k) as [[[|n]|]|]; cbn; intros [= <-]; eauto. Qed.

(** A use is counted against what let it happen. *)
Lemma use_counted log i t command e k uses' :
  turn_ok log i t -> use_key k (tn_uses t) = Some uses' ->
  turn_ok (log ++ [ev_ran i (tn_who t) command e (Some k)]) i (MkTurn (tn_who t) uses' pc_run) /\
  ((count (ran_with i k) log = 0%nat /\ count (let_once i k) log = 1%nat) \/ standing log i (tn_who t) k).
Proof.
  intros [_ _ Ho Hu] Hk. pose proof (Hu k) as Huk.
  assert (Hlet : forall k', count (let_once i k') (log ++ [ev_ran i (tn_who t) command e (Some k)]) = count (let_once i k') log)
    by (intros k'; rewrite count_app; cbn; lia).
  assert (Hran : forall k', count (ran_with i k') (log ++ [ev_ran i (tn_who t) command e (Some k)]) =
    (count (ran_with i k') log + if decide (k = k') then 1 else 0)%nat).
  { intros k'. rewrite count_app. cbn. rewrite Nat.eqb_refl. cbn. f_equal. destruct (decide (k = k')) as [->|Hne];
      [by rewrite bool_decide_true|rewrite bool_decide_false; [done|congruence]]. }
  destruct (use_key_spec _ _ _ Hk) as [[E ->]|(n & E & ->)]; rewrite E in Huk; cbn in Huk.
  - split; [|by right]. split; cbn; [done|done|intros; rewrite Hlet; apply Ho|]. intros k'. rewrite lookup_set, Hlet, Hran.
    case_decide as Ekk; [subst; by apply standing_app|]. specialize (Hu k'). destruct (tn_uses t !! k' ?? _); [lia|by apply standing_app].
  - pose proof (Ho k) as Hok. split; [|left; lia]. split; cbn; [done|done|intros; rewrite Hlet; apply Ho|]. intros k'. rewrite lookup_set, Hlet, Hran.
    case_decide as Ekk; [subst; cbn; lia|]. specialize (Hu k'). destruct (tn_uses t !! k' ?? _); [lia|by apply standing_app].
Qed.

Lemma turns_insert log i t0 t (turns : list TurnState) e :
  turns !! i = Some t0 -> index_of e = Some i \/ index_of e = None ->
  (forall j u, turns !! j = Some u -> turn_ok log j u) -> turn_ok (log ++ [e]) i t ->
  forall j u, <[i := t]> turns !! j = Some u -> turn_ok (log ++ [e]) j u.
Proof.
  intros Hi He H Ht j u. rewrite list_lookup_insert_Some. intros [(<- & <- & _)|[Hne Hj]]; [done|].
  apply turn_ok_app; [|by apply H]. destruct He as [-> | ->]; congruence.
Qed.
Lemma turns_same log i t (turns : list TurnState) :
  (forall j u, turns !! j = Some u -> turn_ok log j u) -> turn_ok log i t ->
  forall j u, <[i := t]> turns !! j = Some u -> turn_ok log j u.
Proof. intros H Ht j u. rewrite list_lookup_insert_Some. intros [(<- & <- & _)|[_ Hj]]; [done|by apply H]. Qed.
Lemma index_snoc log e (turns : list TurnState) (turns' : list TurnState) :
  length turns' = length turns -> (forall i, index_of e = Some i -> (i < length turns)%nat) ->
  (forall e i, e ∈ log -> index_of e = Some i -> (i < length turns)%nat) ->
  forall e' i, e' ∈ log ++ [e] -> index_of e' = Some i -> (i < length turns')%nat.
Proof. intros -> He H e' i. rewrite elem_of_app, list_elem_of_singleton. intros [Hin| ->]; [by apply H|by apply He]. Qed.

(** A turn uses a key it was let to use: the rest of the world stays as it is. *)
Lemma ran_ok w i t command e k uses' :
  world_ok w -> w_turns w !! i = Some t ->
  match k with Some k => use_key k (tn_uses t) = Some uses' | None => uses' = tn_uses t end ->
  e.(decision) <> deny -> (e.(decision) = require_approval -> exists k', k = Some k' /\ (k' = command \/ e.(approvalKey) = Some k')) ->
  world_ok (MkWorld (w_store w) (<[i := MkTurn (tn_who t) uses' pc_run]> (w_turns w)) (w_log w ++ [ev_ran i (tn_who t) command e k])).
Proof.
  intros [Hlog Hg Hp Ht Hi] Hti Hk Hd Hr. pose proof (Ht _ _ Hti) as Hok.
  assert (Hnew : turn_ok (w_log w ++ [ev_ran i (tn_who t) command e k]) i (MkTurn (tn_who t) uses' pc_run) /\
    explained (w_log w) (ev_ran i (tn_who t) command e k)).
  { destruct k as [k|].
    - destruct (use_counted _ _ _ command e _ _ Hok Hk) as [H1 H2]. split; [done|]. split; [done|]. intros Hreq.
      destruct (Hr Hreq) as (k' & [= <-] & Hk'). exists k. by split.
    - subst uses'. split.
      + destruct Hok as [_ _ Ho Hu].
        assert (Hc : forall k, count (let_once i k) (w_log w ++ [ev_ran i (tn_who t) command e None]) = count (let_once i k) (w_log w) /\
          count (ran_with i k) (w_log w ++ [ev_ran i (tn_who t) command e None]) = count (ran_with i k) (w_log w)).
        { intros k. rewrite !count_app. cbn. rewrite andb_false_r. lia. }
        split; cbn; [done|done|intros k; by rewrite (proj1 (Hc k))|]. intros k. specialize (Hu k). destruct (_ ?? _);
          [destruct (Hc k) as [-> ->]; done|by apply standing_app].
      + split; [done|]. intros Hreq. destruct (Hr Hreq) as (? & ? & _). done. }
  split; cbn.
  - apply log_snoc; [done|apply Hnew].
  - intros id g H. by apply grant_ok_app, (Hg id).
  - intros rid r H. destruct (Hp _ _ H). split; [|done]. rewrite elem_of_app. by left.
  - eapply turns_insert; [done|by left|done|apply Hnew].
  - eapply index_snoc; [by rewrite length_insert| |done]. intros j [= <-]. by eapply lookup_lt_Some.
Qed.

Lemma store_same w i t t' :
  world_ok w -> w_turns w !! i = Some t -> turn_ok (w_log w) i t' -> world_ok (MkWorld (w_store w) (<[i := t']> (w_turns w)) (w_log w)).
Proof.
  intros [Hlog Hg Hp Ht Hi] Hti Ht'. split; cbn; [done|done|done|by apply turns_same|].
  intros e j. rewrite length_insert. apply Hi.
Qed.

(** A record is put for what was asked. *)
Lemma asked_ok w (p : string * PendingApprovalRecord * PendingApproval) turns :
  world_ok w -> pr_approvalKey p.1.2 <> Some "" -> length turns = length (w_turns w) ->
  (forall i t, turns !! i = Some t -> exists t0, w_turns w !! i = Some t0 /\ tn_who t = tn_who t0 /\ tn_uses t = tn_uses t0 /\
     (tn_pc t = tn_pc t0 \/ tn_pc t = pc_over)) ->
  world_ok (MkWorld (put_approvals [p] (w_store w)) turns (w_log w ++ [ev_asked p.1.1 p.1.2])).
Proof.
  intros [Hlog Hg Hp Ht Hi] Hk Hlen Hturns. split; cbn.
  - by apply log_snoc.
  - intros id g H. by apply grant_ok_app, (Hg id).
  - intros rid r. rewrite lookup_set, elem_of_app. case_decide as E.
    + intros [= <-]. split; [|done]. right. subst rid. by left.
    + intros H. destruct (Hp _ _ H). by split; [left|].
  - intros i t Hti. destruct (Hturns _ _ Hti) as (t0 & Hi0 & Hw & Hu & Hpc). apply turn_ok_app; [done|].
    destruct (Ht _ _ Hi0) as [Hr Hf Ho Hus]. rewrite <- Hw, <- Hu in Hus. split; [|destruct Hpc as [-> | ->]; done|done|done].
    intros d r. destruct Hpc as [-> | ->]; [apply Hr|done].
  - eapply index_snoc; [done|done|done].
Qed.

Lemma decided_ok w i t d p now out uses st' :
  world_ok w -> w_turns w !! i = Some t -> tn_pc t = pc_got d p ->
  decide_approval hashId d p (w_actor (tn_who t)) (w_session (tn_who t)) (w_modes (tn_who t)) now (tn_uses t) (w_store w) = (out, uses, st') ->
  world_ok (MkWorld st' (<[i := MkTurn (tn_who t) uses (match out with dc_proceed => pc_run | _ => pc_over end)]> (w_turns w))
              (w_log w ++ told i (tn_who t) d p)).
Proof.
  intros [Hlog Hg Hp Ht Hi] Hti Hpc Hdec. pose proof (Ht _ _ Hti) as [Hr Hf Ho Hu]. rewrite Hpc in Hf.
  destruct (decide_spec i _ _ _ _ _ _ _ _ _ (fun r E => proj2 (Hr d r (eq_trans Hpc (f_equal _ E)))) Hdec) as
    [Hsub [(-> & -> & Hgr)|(r & s & -> & Hs & -> & -> & Hgr)]].
  - rewrite app_nil_r. split; cbn; [done|by rewrite Hgr| | |].
    + intros rid r H. apply Hp. by apply Hsub.
    + apply turns_same; [done|]. split; cbn; [by destruct out|by destruct out|done|done].
    + intros e j. rewrite length_insert. apply Hi.
  - set (who := tn_who t) in *. set (ev := ev_approved i who (d_requestId d) (use_of r) s).
    assert (Hev : explained (w_log w) ev) by (exists r; by destruct (Hr _ _ Hpc)).
    assert (Hcr : forall k, count (ran_with i k) (w_log w ++ [ev]) = count (ran_with i k) (w_log w))
      by (intros k; rewrite count_app; cbn; lia).
    assert (Hcl : forall k, count (let_once i k) (w_log w ++ [ev]) = if decide (use_of r = k /\ s = once) then 1%nat else 0%nat).
    { intros k. rewrite count_app, Hf. cbn. rewrite Nat.eqb_refl. cbn [andb]. destruct (decide (use_of r = k /\ s = once)) as [E|E].
      - destruct E as [E1 E2]. by rewrite !bool_decide_true.
      - destruct (bool_decide_reflect (use_of r = k)), (bool_decide_reflect (s = once)); cbn; try done. destruct E. by split. }
    split; cbn.
    + by apply log_snoc.
    + intros id g H. destruct Hgr as [[_ Hgr]|(Hso & Hm & g' & Hgr & Ha & Hsc & Hk & Hss)]; rewrite Hgr in H; [by apply grant_ok_app, (Hg id)|].
      rewrite lookup_set in H. case_decide; [|by apply grant_ok_app, (Hg id)]. injection H as <-.
      exists i, who, (d_requestId d). rewrite Hk, Hsc. split; [rewrite elem_of_app; right; by left|]. done.
    + intros rid r' H. apply Hsub in H. destruct (Hp _ _ H). split; [|done]. rewrite elem_of_app. by left.
    + eapply turns_insert; [done|by left|done|]. split; cbn.
      * by destruct out.
      * by destruct out.
      * intros k. rewrite Hcl. destruct (decide (use_of r = k /\ s = once)); lia.
      * intros k. rewrite lookup_set, Hcr, Hcl. specialize (Hu k). rewrite Hf in Hu. destruct (decide (use_of r = k)) as [Ek|Ek].
        -- subst k. cbn. destruct (tn_uses t !! use_of r ?? finite 0) as [n|].
           ++ destruct Hgr as [[Hso _]|(Hso & Hm & _)].
              { rewrite bool_decide_true, decide_True by done. cbn. lia. }
              rewrite bool_decide_false by done. cbn. exists i, who, (d_requestId d), s. rewrite elem_of_app, list_elem_of_singleton. by auto 10.
           ++ cbn. assert (H : standing (w_log w ++ [ev]) i who (use_of r)) by (by apply standing_app). by destruct (s === once).
        -- rewrite decide_False by (intros [? _]; done). destruct (tn_uses t !! k ?? finite 0); [done|by apply standing_app].
    + eapply index_snoc; [by rewrite length_insert| |done]. intros j [= <-]. by eapply lookup_lt_Some.
Qed.

Lemma turn_begins_ok w who : world_ok w ->
  world_ok (MkWorld (w_store w) (w_turns w ++ [MkTurn who (initial_uses (w_actor who) (w_session who) (w_modes who) (values (w_store w).(approvalGrants))) pc_start]) (w_log w)).
Proof.
  intros [Hlog Hg Hp Ht Hi].
  assert (Hz : forall p, (forall e, p e = true -> index_of e = Some (length (w_turns w))) -> count p (w_log w) = 0%nat).
  { intros p Hpe. apply count_other. intros e He. destruct (p e) eqn:E; [|done]. pose proof (Hi _ _ He (Hpe _ E)). lia. }
  assert (Hnew : turn_ok (w_log w) (length (w_turns w)) (MkTurn who (initial_uses (w_actor who) (w_session who) (w_modes who) (values (w_store w).(approvalGrants))) pc_start)).
  { assert (Hl : forall k, count (let_once (length (w_turns w)) k) (w_log w) = 0%nat).
    { intros k. apply Hz. intros [|j ? ? ? ?|]; cbn; try done. destruct (Nat.eqb_spec j (length (w_turns w))); [by subst|done]. }
    assert (Hr : forall k, count (ran_with (length (w_turns w)) k) (w_log w) = 0%nat).
    { intros k. apply Hz. intros [| |j ? ? ? ?]; cbn; try done. destruct (Nat.eqb_spec j (length (w_turns w))); [by subst|done]. }
    split; cbn; [done|done|intros k; rewrite Hl; lia|]. intros k. rewrite Hl, Hr.
    destruct (initial_uses _ _ _ _ !! k) as [u|] eqn:E; [|done]. apply initial_uses_spec in E as (-> & g & Hin & -> & Hsp & Hse & Hm).
    cbn. apply elem_of_values in Hin as [id Hid]. destruct (Hg _ _ Hid) as (j & who' & rid & Hev & Ha & Hso & Hss).
    exists j, who', rid, (g_scope g). split; [done|]. split; [done|]. split; [done|]. split; [right; by rewrite Ha|].
    intros E. specialize (Hss E). specialize (Hse E). congruence. }
  split; cbn; [done|done|done| |].
  - intros i t H. apply lookup_app_Some in H as [H|[Hlen H]]; [by apply Ht|].
    destruct (i - length (w_turns w))%nat eqn:E; [|done]. injection H as <-. by replace i with (length (w_turns w)) by lia.
  - intros e i He Hx. rewrite length_app. cbn. pose proof (Hi _ _ He Hx). lia.
Qed.

Lemma gate_spec policy layerRules command uses e uses' :
  gate_command newRegExp policy layerRules command uses = Ok (g_run e uses') ->
  e.(decision) <> deny /\
  match used_key command e uses with Some k => use_key k uses = Some uses' | None => uses' = uses end /\
  (e.(decision) = require_approval -> exists k, used_key command e uses = Some k /\ (k = command \/ e.(approvalKey) = Some k)).
Proof.
  unfold gate_command, used_key, authorizeCommand. destruct (evaluateCommandWithLayer _ _ _ _) as [ev|x]; [|done]. cbn.
  destruct (decision ev) eqn:Ed; cbn.
  - intros [= <- <-]. rewrite Ed. done.
  - done.
  - destruct (use_key _ uses) eqn:E; [|done]. intros [= <- <-]. rewrite Ed. split; [done|]. split; [done|]. intros _. eexists. split; [reflexivity|].
    unfold command_key. destruct (approvalKey ev) as [k|]; [|by left]. destruct (has k uses); [by right|]. destruct (has command uses); [by left|by right].
Qed.

Lemma world_ok_step w w' : wstep w w' -> world_ok w -> world_ok w'.
Proof.
  intros Hs Hw. destruct Hs as [who st turns log|i t d st turns log Ht Hpc|i t st turns log Ht Hpc|i t d p now st turns log out uses st' Ht Hpc Hdec
    |i t policy layerRules command e uses st turns log Ht Hpc Hg|i t tool uses st turns log Ht Hpc Hex Hg
    |i t request now o a summary st turns log Ht Hpc p|i t request now n summary st turns log Ht Hpc p|i t st turns log Ht].
  - by apply (turn_begins_ok (MkWorld st turns log)).
  - apply (store_same (MkWorld st turns log) i t); [done..|]. destruct (wo_turns _ Hw i t Ht) as [Hr Hf Ho Hu]. rewrite Hpc in Hf. split; cbn; [|done|done|done].
    intros d' r [= <- Hp]. by apply (wo_pending _ Hw).
  - apply (store_same (MkWorld st turns log) i t); [done..|]. destruct (wo_turns _ Hw i t Ht) as [Hr Hf Ho Hu]. by split.
  - by eapply (decided_ok (MkWorld st turns log)).
  - destruct (gate_spec _ _ _ _ _ _ Hg) as (Hd & Hk & Hr). by apply (ran_ok (MkWorld st turns log) i t).
  - unfold withToolApprovalGate, authorizeToolCall in Hg. rewrite (bool_decide_false _ Hex : includes TOOL_APPROVAL_EXEMPT tool = false) in Hg. cbn [orb negb] in Hg.
    destruct (use_key (tool_key tool) (tn_uses t)) eqn:Ek; [|done]. injection Hg as <-.
    apply (ran_ok (MkWorld st turns log) i t); [done|done|done|done|]. intros _. exists (tool_key tool). split; [done|by right].
  - apply (asked_ok (MkWorld st turns log)); [done| |done|eauto 10]. unfold p. cbn. by destruct (a_approvalKey a) as [[|]|].
  - apply (asked_ok (MkWorld st turns log)); [done| |by rewrite length_insert|].
    + unfold p. cbn. by destruct (n_approvalKey n) as [[|]|].
    + intros j u. rewrite list_lookup_insert_Some. intros [(<- & <- & _)|[_ Hj]]; [exists t; by auto|exists u; by auto].
  - apply (store_same (MkWorld st turns log) i t); [done..|]. destruct (wo_turns _ Hw i t Ht) as [Hr Hf Ho Hu]. by split.
Qed.

(** C11: Nothing that needs approval runs unless somebody approved it.  Turns of any people in
    any sessions interleave, each under whatever policy is in force when a command comes.  A
    command that the policy denies never runs.  A command that needs approval, or a tool
    under the strict posture, runs only against the rule it matched or its own text (a tool
    against its own key): either that was approved once in this very turn and has not been
    used in it yet; or it was approved for longer, in this turn or by the same person in
    another, in the same session if it was for a session, and the organisation still lets
    such an approval stand.  And every approval answers a request that was made before, in
    the session of the turn that decided it, for that key. *)
Theorem approved_or_not_run w l1 e l2 :
  rtc wstep empty_world w -> w_log w = l1 ++ e :: l2 -> explained l1 e.
Proof.
  intros Hr. apply wo_log. eapply rtc_invariant; [intros ? ? ? Hs; by eapply world_ok_step|exact Hr|].
  split; cbn; [by intros [|]|done|done|done|by intros ? ? ?%elem_of_nil].
Qed.
End world.

(** ** A command that waits for approval *)

Definition demo_hash (parts : list string) (len : nat) : string := join "/" parts.
Definition demo_modes : ApprovalGrantModes := MkModes true true.
Definition demo_ask : CommandPolicy := MkPolicy denylist [MkRule "rm -rf" require_approval (Some "recursive delete")].
Definition demo_ann : Who := MkWho "ann@x.co" "s1" demo_modes.
Definition demo_needs : NeedsApproval := MkNeeds "rm -rf build" "recursive delete" (Some "rm -rf") (Some "rm -rf").
Definition demo_pending : string * PendingApprovalRecord * PendingApproval :=
  stopped_by_gate demo_hash "s1" ("ann@x.co", None) demo_modes 5 demo_needs None.
Definition demo_eval : CommandEvaluation := MkEval require_approval (Some "recursive delete") (Some "rm -rf") (Some "rm -rf").
Definition demo_yes : Decision := MkDecision "s1/rm -rf build" true None.
Definition demo_before : list Event :=
  [ev_asked "s1/rm -rf build" demo_pending.1.2; ev_approved 1 demo_ann "s1/rm -rf build" "rm -rf" once].

Example gate_asks : gate_command demo_regexp demo_ask [] "rm -rf build" ∅ = Ok (g_needs demo_needs).
Proof. vm_compute. reflexivity. Qed.

Lemma approved_or_not_run_witness : explained demo_before (ev_ran 1 demo_ann "rm -rf build" demo_eval (Some "rm -rf")).
Proof.
  pose (turn uses pc := MkTurn demo_ann uses pc).
  refine (approved_or_not_run demo_regexp demo_hash
    (MkWorld (MkStore (delete "s1/rm -rf build" (<["s1/rm -rf build" := demo_pending.1.2]> ∅)) ∅)
       [turn ∅ pc_over; turn (<["rm -rf" := finite 0]> (<["rm -rf" := finite 1]> ∅)) pc_run]
       (demo_before ++ [ev_ran 1 demo_ann "rm -rf build" demo_eval (Some "rm -rf")])) _ _ [] _ eq_refl).
  eapply rtc_l; [apply (ws_begin _ _ demo_ann)|]. eapply rtc_l; [by apply (ws_go _ _ 0 (turn ∅ pc_start))|].
  eapply rtc_l; [by apply (ws_stopped _ _ 0 (turn ∅ pc_run) ("ann@x.co", None) 5 demo_needs None)|].
  eapply rtc_l; [apply (ws_begin _ _ demo_ann)|]. eapply rtc_l; [by apply (ws_read _ _ 1 (turn ∅ pc_start) demo_yes)|].
  eapply rtc_l; [eapply (ws_decide _ _ 1 (turn ∅ (pc_got demo_yes (Some demo_pending.1.2))) demo_yes (Some demo_pending.1.2) 9);
    [reflexivity|reflexivity|vm_compute; reflexivity]|].
  eapply rtc_l; [eapply (ws_call _ _ 1 (turn (<["rm -rf" := finite 1]> ∅) pc_run) demo_ask [] "rm -rf build");
    [reflexivity|reflexivity|vm_compute; reflexivity]|].
  cbn. apply rtc_refl.
Defined.

(** A denial does not look at the session: a turn of another session that denies by the id of
    a request takes it away from the session that waits for it. *)
Example denial_crosses_sessions :
  let st := put_approvals [demo_pending] (MkStore ∅ ∅) in
  decide_approval demo_hash (MkDecision "s1/rm -rf build" false None) (st.(pending) !! "s1/rm -rf build") "eve@x.co" "s2" demo_modes 9 ∅ st
  = (dc_refused "approval denied for rm -rf build", ∅, MkStore (delete "s1/rm -rf build" st.(pending)) ∅).
Proof. vm_compute. reflexivity. Qed.

(** The default policy lists its one denial after rules that ask: a command that both match
    is only asked about, and runs unasked once recursive deletion has been approved for good. *)
Definition floor_regexp (p flags : string) : result string (string -> option string) :=
  Ok (fun s =>
    let word := if p === "\brm\b[^\n]*(?:-[a-zA-Z]*r|--recursive)" then "rm -r" else if p === "\bmkfs\b|:\(\)\s*\{" then "mkfs" else "none" in
    if str_includes s word then Some word else None).
Example denial_after_approval :
  let command := "rm -r /data; mkfs.ext4 /dev/sda" in
  let key := "\brm\b[^\n]*(?:-[a-zA-Z]*r|--recursive)" in
  let decide_ uses c := match gate_command floor_regexp defaultOrgPolicy [] c uses with Ok (g_run _ _) => "runs" | Ok (g_denied _) => "denied" | Ok (g_needs _) => "asks" | Throw _ => "throws" end in
  (decide_ ∅ "mkfs.ext4 /dev/sda", decide_ ∅ command, decide_ (<[key := infinite]> ∅) command) = ("denied", "asks", "runs").
Proof. vm_compute. reflexivity. Qed.
