(* ===== verification/People.v ===== *)
(** * The people of the workspace

    The identity service ([src/src/identity/identity-service.ts]) with the rows it shares with
    other processes, and the synchronised directory ([src/src/directory/directory-store.ts]):
    its members, channels and groups, how a name is resolved, and the stamps that keep a late
    synchronisation out.  Clocks are arguments.  The directory stands behind the interfaces
    that scope membership ([Access]) and reach ([Reach]) are proved against. *)

From S2P Require Import Prelude JsString Scope Access Reach.

#[local] Open Scope Z_scope.

(** ** The identity service *)

Module Identity.
(** [DeactivationSource] src/src/identity/identity-service.ts:10-10 *)
Inductive DeactivationSource := manual | directory_sync.
#[export] Instance DeactivationSource_eq_dec : EqDecision DeactivationSource.
Proof. solve_decision. Defined.
(** [DeactivationRecord] src/src/identity/identity-service.ts:12-16 *)
Record DeactivationRecord := MkDeactivation { d_principalId : string; d_source : DeactivationSource; d_at : Z }.
(** [createIdentityService] src/src/identity/identity-service.ts:34-38
    What a process remembers of who is deactivated, by person. *)
Record Identity := MkIdentity { deactivated : jsmap string DeactivationRecord; refreshedAt : Z }.
#[export] Instance Identity_eta : Eta Identity := fun s => MkIdentity s.(deactivated) s.(refreshedAt).
Abbreviation Rows := (jsmap string DeactivationRecord).
Definition key_of (externalId : string) : string := personKey (Some externalId).

(** [classify] src/src/identity/identity-service.ts:41-44 *)
Definition classify (externalId : string) (isExternalGuest : bool) (s : Identity) : Principal :=
  MkPrincipal externalId (if has (key_of externalId) s.(deactivated) || isExternalGuest then guest else internal) None None.
(** [deactivate] src/src/identity/identity-service.ts:46-53
    Memory at once, and the row that is put after it. *)
Definition deactivate (externalId : string) (source : DeactivationSource) (now : Z) (s : Identity) : Identity * (Rows -> Rows) :=
  let key := key_of externalId in
  let record := MkDeactivation externalId source now in
  let go := (s <| deactivated := <[key := record]> s.(deactivated) |>, fun rows => <[key := record]> rows) in
  match s.(deactivated) !! key with
  | Some existing => if (existing.(d_source) === manual) || (existing.(d_source) === source) then (s, fun rows => rows) else go
  | None => go
  end.
(** [reactivate] src/src/identity/identity-service.ts:55-59 *)
Definition reactivate (externalId : string) (s : Identity) : Identity * (Rows -> Rows) :=
  let key := key_of externalId in (s <| deactivated := delete key s.(deactivated) |>, fun rows => delete key rows).

(** A call with its row written before the next one begins. *)
Definition settled (f : Identity -> Identity * (Rows -> Rows)) (w : Identity * Rows) : Identity * Rows :=
  let (s, put) := f w.1 in (s, put w.2).
(** [recordDirectorySync] src/src/identity/identity-service.ts:67-71 *)
Definition sync_removed (now : Z) (acc : Identity * Rows * list string) (id : string) : Identity * Rows * list string :=
  let '(w, out) := acc in
  if has (key_of id) w.1.(deactivated) then acc else (settled (deactivate id directory_sync now) w, out ++ [id]).
(** [recordDirectorySync] src/src/identity/identity-service.ts:72-76 *)
Definition sync_present (acc : Identity * Rows * list string) (id : string) : Identity * Rows * list string :=
  let '(w, out) := acc in
  if (d_source <$> w.1.(deactivated) !! key_of id) !== Some directory_sync then acc
  else (settled (reactivate id) w, out ++ [id]).
(** [recordDirectorySync] src/src/identity/identity-service.ts:65-78
    Memory, rows, and who was deactivated and reactivated. *)
Definition recordDirectorySync (removedIds presentIds : list string) (now : Z) (w : Identity * Rows)
    : Identity * Rows * (list string * list string) :=
  let '(w, out) := fold_left (sync_removed now) removedIds (w, []) in
  let '(w, back) := fold_left sync_present presentIds (w, []) in
  (w, (out, back)).
(** [hydrate] src/src/identity/identity-service.ts:79-89
    With the rows it has read. *)
Definition hydrate (read : list DeactivationRecord) (s : Identity) : Identity :=
  fold_left (fun s r => let key := key_of r.(d_principalId) in
    if has key s.(deactivated) then s else s <| deactivated := <[key := r]> s.(deactivated) |>) read s.
(** [createIdentityService] src/src/identity/identity-service.ts:36-36 *)
Definition REFRESH_TTL_MS : Z := 10000.
(** [refresh] src/src/identity/identity-service.ts:90-93
    Whether a refresh reads the rows now. *)
Definition refresh_due (running : bool) (now : Z) (s : Identity) : bool := negb running && negb (now - s.(refreshedAt) <? REFRESH_TTL_MS).
(** [refresh] src/src/identity/identity-service.ts:94-100
    When the rows have been read. *)
Definition refresh (read : list DeactivationRecord) (now : Z) (s : Identity) : Identity :=
  MkIdentity (fold_left (fun m r => <[key_of r.(d_principalId) := r]> m) read ∅) now.
(** [resolve] src/src/identity/identity-service.ts:106-113 *)
Definition resolveActor (externalId : string) (isExternalGuest : bool) (teams : option (list string)) (name : option string) (s : Identity) : Principal :=
  let p := classify externalId isExternalGuest s in MkPrincipal p.(p_id) p.(p_type) teams (if_truthy name).
(** [isInternal] src/src/identity/identity-service.ts:114-116 *)
Definition isInternal (p : Principal) : bool := p.(p_type) === internal.
(** [audienceIsAllInternal] src/src/identity/identity-service.ts:117-119 *)
Definition audienceIsAllInternal (audience : list Principal) : bool := (0 <? length audience)%nat && every isInternal audience.
End Identity.

(** ** The directory *)

Module Directory.
(** [DirectoryStore] src/src/directory/directory-store.ts:93-99 *)
Record State := MkState {
  members : list DirectoryMember;
  channels : list DirectoryChannel;
  channelMembers : option (jsmap string (list string));
  groupMembers : option (jsmap string (list string));
  groupsSynced : bool;
  workspaceUrl : option string;
  syncedAts : jsmap string Z }.
#[export] Instance State_eta : Eta State := fun s =>
  MkState s.(members) s.(channels) s.(channelMembers) s.(groupMembers) s.(groupsSynced) s.(workspaceUrl) s.(syncedAts).
Definition empty_directory : State := MkState [] [] None None false None ∅.

(** [groupParticipantsKey] src/src/directory/directory-store.ts:29-31 *)
Definition groupParticipantsKey (participants : list string) : string :=
  join "," (js_sort str_cmp (dedup (js_filter truthy participants))).
(** [MAX_CANDIDATES] src/src/directory/directory-store.ts:69-69 *)
Definition MAX_CANDIDATES : nat := 10.
(** [normDirectoryQuery] src/src/directory/directory-store.ts:70-70 *)
Definition normDirectoryQuery (s : string) : string :=
  match to_lower (trim s) with
  | String c rest => if includes ["@"; "#"]%char c then rest else String c rest
  | EmptyString => EmptyString
  end.

Section pick.
Context {T : Type} (id label : T -> string).
(** [pickMatch] src/src/directory/directory-store.ts:72-90 *)
Definition pickMatch (items : list T) (query : string) : Resolution T :=
  let q := normDirectoryQuery query in
  if negb (truthy q) then none
  else match find (fun t => to_lower (id t) === q) items with
  | Some t => one t
  | None =>
      match js_filter (fun t => normDirectoryQuery (label t) === q) items with
      | [t] => one t
      | (_ :: _) as exact => ambiguous (take MAX_CANDIDATES exact)
      | [] =>
          let prefix := js_filter (fun t => starts_with (normDirectoryQuery (label t)) q) items in
          match (match prefix with [] => js_filter (fun t => str_includes (normDirectoryQuery (label t)) q) items | _ => prefix end) with
          | [] => none
          | [t] => one t
          | pool => ambiguous (take MAX_CANDIDATES pool)
          end
      end
  end.
End pick.

(** [acceptSync] src/src/directory/directory-store.ts:101-110 *)
Definition acceptSync (section : string) (syncedAt : option Z) (s : State) : option State :=
  match syncedAt with
  | None => Some s
  | Some at_ =>
      if from_option (fun stored => stored >? at_) false (s.(syncedAts) !! section) then None
      else Some (s <| syncedAts := <[section := at_]> s.(syncedAts) |>)
  end.
Definition swap (section : string) (syncedAt : option Z) (f : State -> State) (s : State) : bool * State :=
  match acceptSync section syncedAt s with Some s => (true, f s) | None => (false, s) end.
(** [set.add] of the set under a key of a map. *)
Definition add_member (m : jsmap string (list string)) (k p : string) : jsmap string (list string) :=
  let l := m !! k ?? [] in <[k := if includes l p then l else l ++ [p]]> m.
Definition by_key (l : list (string * string)) : jsmap string (list string) :=
  fold_left (fun m e => if truthy e.1 && truthy e.2 then add_member m e.1 e.2 else m) l ∅.
Definition listed (m : option (jsmap string (list string))) (k p : string) : bool :=
  match m with Some m => includes (m !! k ?? []) p | None => false end.

(** [replace] src/src/directory/directory-store.ts:119-123 *)
Definition replace (next : list DirectoryMember) (syncedAt : option Z) : State -> bool * State :=
  swap "members" syncedAt (fun s => s <| members := js_filter (fun m => truthy m.(dm_principalId) && (m.(dm_type) === internal)) next |>).
(** [replaceChannels] src/src/directory/directory-store.ts:124-136 *)
Definition replaceChannels (next : list DirectoryChannel) (nextMembers : option (list (string * string))) (syncedAt : option Z)
    : State -> bool * State :=
  swap "channels" syncedAt (fun s =>
    let s := s <| channels := js_filter (fun c => truthy c.(channelId) && truthy c.(ch_name)) next |> in
    match nextMembers with Some l => s <| channelMembers := Some (by_key l) |> | None => s end).
(** [channelMember] src/src/directory/directory-store.ts:137-139 *)
Definition channelMember (cid pid : string) (s : State) : bool := listed s.(channelMembers) cid pid.
Definition channel_of (cid : string) (s : State) : option DirectoryChannel := find (fun c => c.(channelId) === cid) s.(channels).
(** [channelMembership] src/src/directory/directory-store.ts:140-146 *)
Definition channelMembership (cid pid : string) (s : State) : option bool :=
  match s.(channelMembers), channel_of cid s with
  | Some _, Some channel =>
      let member := channelMember cid pid s in
      if member || (channel.(isPrivate) === Some true) then Some member else None
  | _, _ => None
  end.
(** [channelPrivacy] src/src/directory/directory-store.ts:147-150 *)
Definition channelPrivacy (cid : string) (s : State) : option bool := (fun c => c.(isPrivate) === Some true) <$> channel_of cid s.
(** [replaceGroups] src/src/directory/directory-store.ts:151-161 *)
Definition replaceGroups (next : list (string * string)) (syncedAt : option Z) : State -> bool * State :=
  swap "groups" syncedAt (fun s => s <| groupMembers := Some (by_key next) |> <| groupsSynced := true |>).
(** [upsertGroup] src/src/directory/directory-store.ts:162-170 *)
Definition upsertGroup (groupId : string) (principalIds : list string) (now : Z) (s : State) : State :=
  let ids := js_filter truthy principalIds in
  if negb (truthy groupId) || (length ids =? 0)%nat then s
  else s <| groupMembers := Some (<[groupId := dedup ids]> (s.(groupMembers) ?? ∅)) |>
         <| syncedAts := <["groups" := Z.max (s.(syncedAts) !! "groups" ?? 0) now]> s.(syncedAts) |>.
(** [resolveGroupByParticipants] src/src/directory/directory-store.ts:171-181 *)
Definition resolveGroupByParticipants (participants : list string) (s : State) : option string :=
  let k := groupParticipantsKey participants in
  if negb (truthy k) then None
  else fst <$> (s.(groupMembers) ≫= fun m => find (fun e => groupParticipantsKey e.2 === k) (entries m)).
(** [groupMember] src/src/directory/directory-store.ts:182-184 *)
Definition groupMember (gid pid : string) (s : State) : bool := listed s.(groupMembers) gid pid.
(** [groupMembership] src/src/directory/directory-store.ts:185-189 *)
Definition groupMembership (gid pid : string) (s : State) : option bool :=
  match s.(groupMembers) with Some _ => if s.(groupsSynced) then Some (groupMember gid pid s) else None | None => None end.
(** [listGroupsFor] src/src/directory/directory-store.ts:190-194 *)
Definition listGroupsFor (pid : string) (s : State) : list string :=
  from_option (fun m => map fst (js_filter (fun e => includes e.2 pid) (entries m))) [] s.(groupMembers).
(** [listChannelsFor] src/src/directory/directory-store.ts:195-197 *)
Definition listChannelsFor (pid : string) (s : State) : list DirectoryChannel :=
  js_filter (fun c => (c.(isPrivate) !== Some true) || channelMember c.(channelId) pid s) s.(channels).
(** [get] src/src/directory/directory-store.ts:204-206 *)
Definition get (pid : string) (s : State) : option DirectoryMember :=
  find (fun m => samePerson (Some m.(dm_principalId)) (Some pid)) s.(members).
(** [resolve] src/src/directory/directory-store.ts:207-219 *)
Definition resolve (query : string) (s : State) : Resolution DirectoryMember :=
  match find (fun x => truthy_opt x.(slackId) && (x.(slackId) === Some (trim query))) s.(members) with
  | Some m => one m
  | None => pickMatch dm_principalId dm_displayName s.(members) query
  end.
(** [resolveChannel] src/src/directory/directory-store.ts:220-230 *)
Definition resolveChannel (query : string) (s : State) : Resolution DirectoryChannel := pickMatch channelId ch_name s.(channels) query.
End Directory.

(** ** The identity service: who stays out *)

Section identity.
Import Identity.
Implicit Types (s : Identity) (w : Identity * Rows).

Definition agrees w : Prop := forall k, w.1.(deactivated) !! k = w.2 !! k.

Lemma settled_agrees f w : agrees w ->
  (forall s rows, (forall k, s.(deactivated) !! k = rows !! k) -> forall k, ((f s).1).(deactivated) !! k = (f s).2 rows !! k) ->
  agrees (settled f w).
Proof. intros H Hf k. unfold settled. pose proof (Hf w.1 w.2 H k) as Hk. destruct (f w.1). apply Hk. Qed.
Lemma deactivate_agrees id src now w : agrees w -> agrees (settled (deactivate id src now) w).
Proof.
  intros H. apply settled_agrees; [done|]. intros s rows Hs k. unfold deactivate.
  destruct (s.(deactivated) !! key_of id) as [e|]; [destruct (_ || _)|]; cbn; rewrite ?lookup_set, ?Hs; done.
Qed.
Lemma reactivate_agrees id w : agrees w -> agrees (settled (reactivate id) w).
Proof. intros H. apply settled_agrees; [done|]. intros s rows Hs k. cbn. by rewrite !lookup_del, Hs. Qed.

Definition manual_at (k : string) s : Prop := d_source <$> s.(deactivated) !! k = Some manual.
Lemma deactivate_keeps_manual id src now s k : manual_at k s -> manual_at k (deactivate id src now s).1.
Proof.
  unfold manual_at, deactivate. intros H. destruct (s.(deactivated) !! key_of id) as [e|] eqn:E.
  - destruct (bool_decide_reflect (d_source e = manual)) as [Hm|Hm]; [done|]. cbn [orb]. destruct (d_source e === src); [done|]. cbn.
    rewrite lookup_set. case_decide as Ek; [|done]. subst. rewrite E in H. cbn in H. congruence.
  - cbn. rewrite lookup_set. case_decide as Ek; [|done]. subst. by rewrite E in H.
Qed.
Lemma sync_removed_manual now acc id k : manual_at k acc.1.1 -> manual_at k (sync_removed now acc id).1.1.
Proof.
  destruct acc as [w out]. unfold sync_removed. intros H. destruct (has _ _); [done|]. unfold settled.
  pose proof (deactivate_keeps_manual id directory_sync now w.1 k H) as Hd. by destruct (deactivate id directory_sync now w.1).
Qed.
Lemma sync_present_manual acc id k : manual_at k acc.1.1 -> manual_at k (sync_present acc id).1.1.
Proof.
  destruct acc as [w out]. unfold sync_present. intros H.
  destruct (bool_decide_reflect (d_source <$> w.1.(deactivated) !! key_of id = Some directory_sync)) as [Hs|]; cbn [negb]; [|done].
  unfold settled, manual_at. cbn. rewrite lookup_del. case_decide as Ek; [|done]. unfold manual_at in H. cbn in H. congruence.
Qed.
Lemma fold_inv {A B} (P : A -> Prop) (f : A -> B -> A) l a : (forall a b, P a -> P (f a b)) -> P a -> P (fold_left f l a).
Proof. intros Hf. revert a. induction l as [|b l IH]; intros a Ha; [done|]. apply IH, Hf, Ha. Qed.

(** A synchronisation keeps memory and rows alike, never brings back a person whom somebody
    deactivated by hand, and leaves everybody it names as present in unless they are out by
    hand. *)
Lemma sync_keeps_manual removedIds presentIds now w k :
  manual_at k w.1 -> manual_at k (recordDirectorySync removedIds presentIds now w).1.1.
Proof.
  intros H. unfold recordDirectorySync.
  pose proof (fold_inv (fun acc => manual_at k acc.1.1) _ removedIds (w, []) (fun a b => sync_removed_manual now a b k) H) as H1.
  destruct (fold_left (sync_removed now) removedIds (w, [])) as [w1 out].
  pose proof (fold_inv (fun acc => manual_at k acc.1.1) _ presentIds (w1, []) (fun a b => sync_present_manual a b k) H1) as H2.
  by destruct (fold_left sync_present presentIds (w1, [])) as [w2 back].
Qed.
Lemma sync_agrees removedIds presentIds now w : agrees w -> agrees (recordDirectorySync removedIds presentIds now w).1.
Proof.
  intros H. unfold recordDirectorySync.
  assert (H1 : agrees (fold_left (sync_removed now) removedIds (w, [])).1).
  { apply (fold_inv (fun acc => agrees acc.1)); [|done]. intros [w' out] id Hw. unfold sync_removed. destruct (has _ _); [done|].
    by apply deactivate_agrees. }
  destruct (fold_left (sync_removed now) removedIds (w, [])) as [w1 out]. cbn in H1.
  assert (H2 : agrees (fold_left sync_present presentIds (w1, [])).1).
  { apply (fold_inv (fun acc => agrees acc.1)); [|done]. intros [w' out'] id Hw. unfold sync_present. destruct (_ !== _); [done|].
    by apply reactivate_agrees. }
  by destruct (fold_left sync_present presentIds (w1, [])) as [w2 back].
Qed.
Lemma present_not_synced_out removedIds presentIds now w id : id ∈ presentIds ->
  d_source <$> (recordDirectorySync removedIds presentIds now w).1.1.(deactivated) !! key_of id <> Some directory_sync.
Proof.
  intros Hin. unfold recordDirectorySync. destruct (fold_left (sync_removed now) removedIds (w, [])) as [w1 out].
  assert (H : forall l acc, (id ∈ l \/ d_source <$> acc.1.1.(deactivated) !! key_of id <> Some directory_sync) ->
    d_source <$> (fold_left sync_present l acc).1.1.(deactivated) !! key_of id <> Some directory_sync).
  { induction l as [|x l IH]; intros acc Hx; [destruct Hx as [Hx|]; [by apply elem_of_nil in Hx|done]|]. cbn [fold_left]. apply IH.
    destruct (decide (id ∈ l)) as [Hl|Hl]; [by left|]. right.
    destruct acc as [w' out']. unfold sync_present.
    destruct (bool_decide_reflect (d_source <$> w'.1.(deactivated) !! key_of x = Some directory_sync)) as [Hs|Hs]; cbn [negb].
    - unfold settled. cbn. rewrite lookup_del. case_decide as Ek; [done|]. destruct Hx as [Hx|Hx]; [|done].
      apply elem_of_cons in Hx as [->|Hx]; done.
    - destruct Hx as [Hx|Hx]; [|done]. apply elem_of_cons in Hx as [->|Hx]; done. }
  pose proof (H presentIds (w1, []) (or_introl Hin)) as H2. by destruct (fold_left sync_present presentIds (w1, [])) as [w2 back].
Qed.

(** A deactivation that is in flight is forgotten by a refresh that read the rows before it
    was written: the person is let in again until the next refresh. *)
Example refresh_forgets :
  let s := MkIdentity ∅ 0 in
  let read : list DeactivationRecord := [] in
  let '(s, put) := deactivate "bob@x.co" manual 20000 s in
  let rows := put ∅ in
  let s := refresh read 20001 s in
  (p_type (classify "bob@x.co" false s), d_source <$> rows !! "bob@x.co", refresh_due false 20002 s) = (internal, Some manual, false).
Proof. vm_compute. reflexivity. Qed.
End identity.

(** ** The directory: late synchronisations and names *)

Section directory.
Import Directory.
Implicit Types (s : State).

Definition kept (batch : list DirectoryMember) : list DirectoryMember :=
  js_filter (fun m => truthy m.(dm_principalId) && (m.(dm_type) === internal)) batch.
Definition sync_members s (e : Z * list DirectoryMember) : State := (replace e.2 (Some e.1) s).2.

Lemma sync_members_accepted s e :
  from_option (fun stored => stored <= e.1) True (s.(syncedAts) !! "members") ->
  members (sync_members s e) = kept e.2 /\ syncedAts (sync_members s e) !! "members" = Some e.1.
Proof.
  unfold sync_members, replace, swap, acceptSync. intros H. destruct (syncedAts s !! "members") as [st|]; cbn in *.
  - assert ((st >? e.1) = false) as -> by lia. cbn. by rewrite lookup_set_eq.
  - by rewrite lookup_set_eq.
Qed.
Lemma sync_members_refused s e st :
  s.(syncedAts) !! "members" = Some st -> e.1 < st -> sync_members s e = s.
Proof. intros H Hlt. unfold sync_members, replace, swap, acceptSync. rewrite H. cbn. by assert ((st >? e.1) = true) as -> by lia. Qed.
Lemma sync_stamp_le s l b : from_option (fun stored => stored <= b) True (s.(syncedAts) !! "members") ->
  (forall e, e ∈ l -> e.1 <= b) -> from_option (fun stored => stored <= b) True ((fold_left sync_members l s).(syncedAts) !! "members").
Proof.
  revert s. induction l as [|e l IH]; intros s H Hl; [done|]. cbn [fold_left]. apply IH; [|intros e' He'; apply Hl; by right].
  destruct (syncedAts s !! "members") as [st|] eqn:E.
  - destruct (Z.lt_ge_cases e.1 st) as [Hlt|Hge].
    + rewrite (sync_members_refused _ _ _ E Hlt), E. done.
    + rewrite (proj2 (sync_members_accepted s e ltac:(rewrite E; cbn; lia))). cbn. apply Hl. by left.
  - rewrite (proj2 (sync_members_accepted s e ltac:(by rewrite E))). cbn. apply Hl. by left.
Qed.

(** However synchronisations of the roster arrive, the roster is the one of the newest: the
    last to arrive among those with the greatest stamp. *)
Lemma newest_roster_wins s l1 at_ batch l2 :
  s.(syncedAts) !! "members" = None -> (forall e, e ∈ l1 -> e.1 <= at_) -> (forall e, e ∈ l2 -> e.1 < at_) ->
  members (fold_left sync_members (l1 ++ (at_, batch) :: l2) s) = kept batch.
Proof.
  intros Hs H1 H2. rewrite fold_left_app. cbn [fold_left].
  assert (Ha : from_option (fun stored => stored <= at_) True ((fold_left sync_members l1 s).(syncedAts) !! "members"))
    by (apply sync_stamp_le; [by rewrite Hs|done]).
  destruct (sync_members_accepted _ (at_, batch) Ha) as [Hm Hst]. cbn in Hm, Hst. revert Hm Hst.
  generalize (sync_members (fold_left sync_members l1 s) (at_, batch)) as s'. induction l2 as [|e l2 IH]; intros s' Hm Hst; [done|].
  cbn [fold_left]. rewrite (sync_members_refused _ _ _ Hst (H2 e (list_elem_of_here _ _))). apply IH; [|done|done].
  intros e' He'. apply H2. by right.
Qed.

Section pick.
Context {T : Type} (id label : T -> string).
Definition at_id (q : string) (t : T) : Prop := to_lower (id t) = q.
Definition holds (q : string) (t : T) : Prop := str_includes (normDirectoryQuery (label t)) q = true.

Lemma starts_includes a b : starts_with a b = true -> str_includes a b = true.
Proof. destruct a; cbn [str_includes]; intros ->; done. Qed.
Lemma starts_self a : starts_with a a = true.
Proof. apply starts_with_spec. exists "". by rewrite str_append_nil_r. Qed.

(** A name that is resolved to one item has its id, or the item's label holds it; several
    candidates are at least two, at most ten, and all hold it; and nothing is found only when
    no label holds it and no id is it. *)
Lemma pickMatch_exact (items : list T) query :
  let q := normDirectoryQuery query in
  match pickMatch id label items query with
  | one t => t ∈ items /\ (at_id q t \/ holds q t)
  | ambiguous l => (2 <= length l <= MAX_CANDIDATES)%nat /\ (forall t, t ∈ l -> t ∈ items /\ holds q t) /\ forall t, t ∈ items -> ~ at_id q t
  | none => q = "" \/ forall t, t ∈ items -> ~ at_id q t /\ ~ holds q t
  end.
Proof.
  cbv zeta. unfold pickMatch. set (q := normDirectoryQuery query). destruct (truthy q) eqn:Eq; cbn [negb].
  2: { left. by apply negb_false_iff, bool_decide_eq_true in Eq. }
  assert (Hmany : forall (p : T -> bool) x y l, js_filter p items = x :: y :: l -> (forall t, p t = true -> holds q t) ->
    (2 <= length (take MAX_CANDIDATES (x :: y :: l)) <= MAX_CANDIDATES)%nat /\ forall t, t ∈ take MAX_CANDIDATES (x :: y :: l) -> t ∈ items /\ holds q t).
  { intros p x y l Hl Hp. split; [rewrite length_take; unfold MAX_CANDIDATES; cbn [length]; lia|]. intros t Ht.
    apply elem_of_take in Ht as (i & Hi & _). apply list_elem_of_lookup_2 in Hi. rewrite <- Hl in Hi.
    apply elem_of_js_filter in Hi as [? ?]. auto. }
  assert (Hone : forall (p : T -> bool) x, js_filter p items = [x] -> (forall t, p t = true -> holds q t) -> x ∈ items /\ holds q x).
  { intros p x Hl Hp. assert (Hx : x ∈ js_filter p items) by (rewrite Hl; by left). apply elem_of_js_filter in Hx as [? ?]. auto. }
  assert (He : forall t, (normDirectoryQuery (label t) === q) = true -> holds q t).
  { intros t Ht. apply bool_decide_eq_true in Ht. unfold holds. rewrite Ht. apply starts_includes, starts_self. }
  destruct (find (fun t => to_lower (id t) === q) items) as [t|] eqn:Ef.
  { apply find_Some in Ef as [Hin Ht]. split; [done|]. left. by apply bool_decide_eq_true in Ht. }
  assert (Hid : forall t, t ∈ items -> ~ at_id q t).
  { intros t Ht Ha. pose proof (proj1 (find_None _ _) Ef t Ht) as Hn. cbv beta in Hn. by apply bool_decide_eq_false in Hn. }
  destruct (js_filter (fun t => normDirectoryQuery (label t) === q) items) as [|x [|y l]] eqn:El.
  2: { destruct (Hone _ _ El He). auto. }
  2: { destruct (Hmany _ _ _ _ El He). auto. }
  destruct (js_filter (fun t => starts_with (normDirectoryQuery (label t)) q) items) as [|x [|y l]] eqn:Ep.
  2: { destruct (Hone _ _ Ep (fun t => starts_includes _ _)). auto. }
  2: { destruct (Hmany _ _ _ _ Ep (fun t => starts_includes _ _)). auto. }
  destruct (js_filter (fun t => str_includes (normDirectoryQuery (label t)) q) items) as [|x [|y l]] eqn:Ei.
  - right. intros t Ht. split; [by apply Hid|]. intros Hh. pose proof (proj1 (js_filter_nil _ _) Ei t Ht) as Hn. cbv beta in Hn.
    unfold holds in Hh. congruence.
  - destruct (Hone _ _ Ei (fun t H => H)). auto.
  - destruct (Hmany _ _ _ _ Ei (fun t H => H)). auto.
Qed.
End pick.
End directory.
