(* ===== verification/Projects.v ===== *)
(** * Projects: groups with a managed roster

    The project store of [src/src/projects/project-store.ts], over any durable map.  A project
    is a group whose members the store keeps; every change of the roster gives it a new
    version, and work that was planned for one version does not run for another.  The lock
    makes a mutation one step; the clock and the ids are arguments, and the people that are
    still active are the identity service's.  The store stands behind the interface of
    managed groups that scope membership is proved against ([Access]). *)

From stdpp Require Import pretty.
From S2P Require Import Prelude JsString Scope DurableMap Access People.

#[local] Open Scope Z_scope.

(** ** Data *)

(** [PROJECT_GROUP_PREFIX] src/src/projects/project-store.ts:9-9 *)
Definition PROJECT_GROUP_PREFIX : string := "web-project-".
(** [Project] src/src/projects/project-store.ts:11-19 *)
Record Project := MkProject {
  j_id : string; j_orgId : string; j_name : string; j_ownerId : string; j_memberIds : list string; j_createdAt : Z; j_updatedAt : Z }.
#[export] Instance Project_eta : Eta Project := fun p =>
  MkProject p.(j_id) p.(j_orgId) p.(j_name) p.(j_ownerId) p.(j_memberIds) p.(j_createdAt) p.(j_updatedAt).
(** [ProjectMutation] src/src/projects/project-store.ts:21-23 *)
Inductive ProjectMutation := pm_ok (project : Project) (changed : bool) | pm_not_found | pm_forbidden | pm_invalid_member | pm_invalid_name.

(** [isProjectGroupRef] src/src/projects/project-store.ts:57-59 *)
Definition isProjectGroupRef (ref : string) : bool := starts_with ref PROJECT_GROUP_PREFIX.
(** [projectGroupRef] src/src/projects/project-store.ts:43-45 *)
Definition projectGroupRef (id : string) : string := PROJECT_GROUP_PREFIX +:+ id.
(** [projectScopeId] src/src/projects/project-store.ts:47-49 *)
Definition projectScopeId (id : string) : ScopeId := scopeId Scope.group (projectGroupRef id).
(** [projectIdFromGroupRef] src/src/projects/project-store.ts:51-55 *)
Definition projectIdFromGroupRef (ref : string) : option string :=
  if negb (isProjectGroupRef ref) then None
  else let id := str_drop (String.length PROJECT_GROUP_PREFIX) ref in
       if truthy id && negb (str_includes id ":") then Some id else None.
(** [s.replace(/\s+/g, " ")]: a run of white space becomes one blank. *)
Fixpoint squeeze (after_space : bool) (s : string) : string :=
  match s with
  | EmptyString => EmptyString
  | String c s => if is_space c then (if after_space then squeeze true s else String " " (squeeze true s)) else String c (squeeze false s)
  end.
(** [cleanName] src/src/projects/project-store.ts:61-63 *)
Definition cleanName (name : string) : string := str_take 200 (squeeze false (trim name)).

Section projects.
Context {M : Type} {D : DurableMap M Project} {DL : DurableMapLaws M Project}.
Variable orgId : string.
Variable isActiveMember : string -> bool.

(** ** Operations *)

(** [projectForGroup] src/src/projects/project-store.ts:86-91 *)
Definition projectForGroup (groupRef : string) (d : M) : option Project :=
  id ← projectIdFromGroupRef groupRef; p ← dm_get id d; if p.(j_orgId) === orgId then Some p else None.

(** [mutate] src/src/projects/project-store.ts:105-128
    What becomes of the project that is stored. *)
Definition change_roster (actorId memberId : string) (add : bool) (now : Z) (p : Project) : ProjectMutation * Project :=
  let canChangeRoster :=
    if add then some (fun member => samePerson (Some member) (Some actorId)) p.(j_memberIds)
    else samePerson (Some p.(j_ownerId)) (Some actorId) in
  if negb canChangeRoster || negb (isActiveMember p.(j_ownerId)) || negb (isActiveMember actorId) then (pm_forbidden, p)
  else if samePerson (Some memberId) (Some p.(j_ownerId)) then (pm_invalid_member, p)
  else
    let memberIds := if add then dedup (p.(j_memberIds) ++ [memberId]) else js_filter (fun m => m !== memberId) p.(j_memberIds) in
    if memberIds === p.(j_memberIds) then (pm_ok p false, p)
    else let p := p <| j_memberIds := memberIds |> <| j_updatedAt := Z.max now (p.(j_updatedAt) + 1) |> in (pm_ok p true, p).
(** [mutate] src/src/projects/project-store.ts:93-135 *)
Definition mutate (id actorId memberId : string) (add : bool) (now : Z) (d : M) : ProjectMutation * M :=
  if negb (truthy memberId) then (pm_invalid_member, d)
  else match dm_get id d with
       | None => (pm_not_found, d)
       | Some p => let (r, p) := change_roster actorId memberId add now p in (r, dm_put id p d)
       end.
(** [addMember] src/src/projects/project-store.ts:172-172 *)
Definition addMember (id actorId memberId : string) : Z -> M -> ProjectMutation * M := mutate id actorId memberId true.
(** [removeMember] src/src/projects/project-store.ts:173-173 *)
Definition removeMember (id actorId memberId : string) : Z -> M -> ProjectMutation * M := mutate id actorId memberId false.
(** [create] src/src/projects/project-store.ts:138-155
    [id] and [at_] are the id and the time it takes. *)
Definition create (name ownerId id : string) (at_ : Z) (d : M) : result string Project * M :=
  let name := cleanName name in
  if negb (truthy name) || negb (truthy ownerId) then (Throw "project requires name and ownerId", d)
  else
    let project := MkProject id orgId name ownerId [ownerId] at_ at_ in
    let (stored, d) := dm_putIfAbsent id project d in
    if (stored.(j_createdAt) !== project.(j_createdAt)) || (stored.(j_ownerId) !== project.(j_ownerId))
    then (Throw "project id collision", d) else (Ok stored, d).
(** [get] src/src/projects/project-store.ts:156-159 *)
Definition get (id : string) (d : M) : option Project := dm_get id d.
(** [listForMember] src/src/projects/project-store.ts:160-171 *)
Definition listForMember (principalId : string) (d : M) : list Project :=
  js_sort (fun a b => b.(j_updatedAt) - a.(j_updatedAt))
    (js_filter (fun p => (p.(j_orgId) === orgId) && isActiveMember p.(j_ownerId) && isActiveMember principalId
                         && includes p.(j_memberIds) principalId) (dm_all d)).
(** [rename] src/src/projects/project-store.ts:174-197 *)
Definition rename (id ownerId name : string) (d : M) : ProjectMutation * M :=
  let clean := cleanName name in
  if negb (truthy clean) then (pm_invalid_name, d)
  else match dm_get id d with
       | None => (pm_not_found, d)
       | Some p =>
           if (p.(j_ownerId) !== ownerId) || negb (isActiveMember ownerId) then (pm_forbidden, dm_put id p d)
           else if p.(j_name) === clean then (pm_ok p false, dm_put id p d)
           else let p := p <| j_name := clean |> in (pm_ok p true, dm_put id p d)
       end.
(** [membership] src/src/projects/project-store.ts:198-203 *)
Definition membership (groupRef principalId : string) (d : M) : option bool :=
  (fun p => isActiveMember p.(j_ownerId) && isActiveMember principalId && includes p.(j_memberIds) principalId) <$> projectForGroup groupRef d.
(** [members] src/src/projects/project-store.ts:204-210 *)
Definition members (groupRef : string) (d : M) : option (list string) :=
  (fun p => if isActiveMember p.(j_ownerId) then js_filter isActiveMember p.(j_memberIds) else []) <$> projectForGroup groupRef d.
(** [version] src/src/projects/project-store.ts:211-214 *)
Definition version (groupRef : string) (d : M) : option string := (fun p => pretty p.(j_updatedAt)) <$> projectForGroup groupRef d.
(** [withVersion] src/src/projects/project-store.ts:215-223
    What it does with its lock held: the work runs only for the version it was planned for. *)
Definition withVersion {W A} (groupRef : string) (v : option string) (fn : W -> A * W) (d : M) (w : W) : option A * W :=
  match projectIdFromGroupRef groupRef with
  | None => (None, w)
  | Some id =>
      match dm_get id d with
      | Some p => if (p.(j_orgId) === orgId) && (Some (pretty p.(j_updatedAt)) === v) then let (a, w) := fn w in (Some a, w) else (None, w)
      | None => (None, w)
      end
  end.
(** [name] src/src/projects/project-store.ts:224-227 *)
Definition name (groupRef : string) (d : M) : option string :=
  p ← projectForGroup groupRef d; if isActiveMember p.(j_ownerId) then Some p.(j_name) else None.
(** [withRosterLock] src/src/projects/project-store.ts:228-233 *)
Definition withRosterLock {A} (id : string) (fn : Project -> A) (d : M) : option A := fn <$> dm_get id d.

(** [createProjectStore] src/src/projects/project-store.ts:198-198
    What scope membership asks of managed groups. *)
Definition managed_groups (d : M) : ManagedGroups :=
  MkManagedGroups isProjectGroupRef (fun ref p => Ok (membership ref p d)) (fun ref => Ok (members ref d)).
End projects.

(** ** Rosters and their versions *)

Section rosters.
Context {M : Type} {D : DurableMap M Project} {DL : DurableMapLaws M Project}.
Variable orgId : string.

(** The operations that change projects; who is active may differ from one to the next. *)
Inductive pstep : M -> M -> Prop :=
| ps_create name ownerId id at_ d : pstep d (create orgId name ownerId id at_ d).2
| ps_mutate active id actorId memberId add now d : pstep d (mutate active id actorId memberId add now d).2
| ps_rename active id ownerId name d : pstep d (rename active id ownerId name d).2.

(** What may become of a project: it stays whose it was, its version never goes back, and
    one version has one roster. *)
Definition later (p p' : Project) : Prop :=
  j_ownerId p' = j_ownerId p /\ j_orgId p' = j_orgId p /\ j_updatedAt p <= j_updatedAt p' /\
  (j_updatedAt p' = j_updatedAt p -> j_memberIds p' = j_memberIds p).
Definition all_later (d d' : M) : Prop := forall id p, dm_get id d = Some p -> exists p', dm_get id d' = Some p' /\ later p p'.

Lemma later_refl p : later p p.
Proof. split_and!; try done; lia. Qed.
Lemma later_trans p1 p2 p3 : later p1 p2 -> later p2 p3 -> later p1 p3.
Proof.
  intros (Ho1 & Hg1 & Hu1 & Hm1) (Ho2 & Hg2 & Hu2 & Hm2). split; [congruence|]. split; [congruence|]. split; [lia|].
  intros E. rewrite Hm2, Hm1 by lia. done.
Qed.
Lemma all_later_refl d : all_later d d.
Proof. intros id p H. exists p. split; [done|apply later_refl]. Qed.
Lemma all_later_put d id p p' : dm_get id d = Some p -> later p p' -> all_later d (dm_put id p' d).
Proof.
  intros Hp Hl id' q Hq. rewrite dm_get_put. case_decide as E; [|exists q; split; [done|apply later_refl]].
  subst id'. exists p'. split; [done|]. congruence.
Qed.
Lemma change_roster_later active actorId memberId add now p : later p (change_roster active actorId memberId add now p).2.
Proof.
  unfold change_roster. destruct (_ || _); [apply later_refl|]. destruct (samePerson _ _); [apply later_refl|].
  destruct (_ === j_memberIds p); [apply later_refl|]. cbn. split_and!; cbn; try done; lia.
Qed.
Lemma pstep_later d d' : pstep d d' -> all_later d d'.
Proof.
  intros [name ownerId id at_ d0|active id actorId memberId add now d0|active id ownerId name d0].
  - unfold create. destruct (_ || _); [apply all_later_refl|]. unfold dm_putIfAbsent.
    destruct (dm_get id d0) as [q|] eqn:E; [by destruct (_ || _); apply all_later_refl|].
    assert (H : forall x, all_later d0 (dm_put id x d0)).
    { intros x id' p Hp. exists p. rewrite dm_get_put. case_decide; [congruence|]. split; [done|apply later_refl]. }
    destruct (_ || _); apply H.
  - unfold mutate. destruct (negb _); [apply all_later_refl|]. destruct (dm_get id d0) as [p|] eqn:E; [|apply all_later_refl].
    pose proof (change_roster_later active actorId memberId add now p) as Hl.
    destruct (change_roster active actorId memberId add now p). by apply (all_later_put _ _ p).
  - unfold rename. destruct (negb _); [apply all_later_refl|]. destruct (dm_get id d0) as [p|] eqn:E; [|apply all_later_refl].
    destruct (_ || _); [by apply (all_later_put _ _ p); [|apply later_refl]|].
    destruct (j_name p === _); [by apply (all_later_put _ _ p); [|apply later_refl]|].
    apply (all_later_put _ _ p); [done|]. split_and!; cbn; try done; lia.
Qed.
Lemma psteps_later d d' : rtc pstep d d' -> all_later d d'.
Proof.
  induction 1 as [d|d d1 d' Hs _ IH]; [apply all_later_refl|]. intros id p Hp.
  destruct (pstep_later _ _ Hs _ _ Hp) as (p1 & Hp1 & Hl1). destruct (IH _ _ Hp1) as (p2 & Hp2 & Hl2).
  exists p2. split; [done|]. by eapply later_trans.
Qed.

(** Work planned for a roster runs only for that roster.  A turn takes the version of a
    project's group; members are added and removed, projects created and renamed, by anybody
    and under any clock; then, when the work that was planned under that version runs, the
    project has exactly the members and the owner it had when the version was taken, and
    otherwise the work does nothing. *)
Theorem version_names_roster {W A : Type} groupRef v d d' (fn : W -> A * W) (w w' : W) (r : option A) :
  version orgId groupRef d = Some v -> rtc pstep d d' ->
  withVersion orgId groupRef (Some v) fn d' w = (r, w') ->
  match r with
  | None => w' = w
  | Some a => (a, w') = fn w /\ exists p p', projectForGroup orgId groupRef d = Some p /\ projectForGroup orgId groupRef d' = Some p' /\
      j_memberIds p' = j_memberIds p /\ j_ownerId p' = j_ownerId p
  end.
Proof.
  unfold version, withVersion, projectForGroup. intros Hv Hr. apply fmap_Some in Hv as (p & Hp & ->).
  destruct (projectIdFromGroupRef groupRef) as [id|]; [|done]. cbn in *.
  destruct (dm_get id d) as [q|] eqn:Eq; [|done]. cbn in Hp. destruct (bool_decide_reflect (j_orgId q = orgId)) as [Hq|]; [|done].
  injection Hp as ->. destruct (psteps_later _ _ Hr _ _ Eq) as (p' & Hp' & Hl). rewrite Hp'.
  destruct (bool_decide_reflect (j_orgId p' = orgId)) as [Hg|]; cbn [andb]; [|by intros [= <- <-]].
  destruct (bool_decide_reflect (Some (pretty (j_updatedAt p')) = Some (pretty (j_updatedAt p)))) as [E|]; [|by intros [= <- <-]].
  destruct (fn w) as [a w0]. intros [= <- <-]. split; [done|]. exists p, p'. cbn. rewrite !bool_decide_true by done.
  do 2 (split; [done|]). destruct Hl as (Ho & _ & _ & Hm). split; [|done]. apply Hm. injection E as E. by apply (inj pretty) in E.
Qed.
End rosters.

(** ** Projects as scopes *)

Section wired.
Context {M : Type} {D : DurableMap M Project} {DL : DurableMapLaws M Project}.
Variable orgId : string.

(** [createApp] src/src/wiring.ts:830-833 *)
Definition active_in (s : Identity.Identity) (principalId : string) : bool := Identity.isInternal (Identity.classify principalId false s).
Definition type_name (t : PrincipalType) : string := match t with internal => "internal" | guest => "guest" end.
(** The directory and the identity service, as scope membership sees them. *)
Definition directory_of (s : Directory.State) : Access.Directory :=
  MkDirectory (fun c p => Ok (Directory.channelMember c p s)) (fun g p => Ok (Directory.groupMember g p s))
    (Some (fun c p => Ok (Directory.channelMembership c p s))) (Some (fun g p => Ok (Directory.groupMembership g p s)))
    (Some (fun c => Ok (Directory.channelPrivacy c s)))
    (Some (Ok (map (fun m => (Reach.dm_principalId m, Some (Reach.dm_displayName m))) (Directory.members s)))).
Definition classified_by (s : Identity.Identity) (id : string) : Classified :=
  MkClassified (Some (type_name (p_type (Identity.classify id false s)))) None.
(** [createApp] src/src/wiring.ts:834-836 *)
Definition scope_deps (i : Identity.Identity) (s : Directory.State) (sessions : option (string -> result string (list ScopeId))) (d : M)
    : ScopeMembershipDeps :=
  MkDeps (Some (managed_groups orgId (active_in i) d)) (Some (directory_of s)) (Some (classified_by i)) sessions.

Lemma active_wired i s sessions d who : activePrincipal (scope_deps i s sessions d) who = active_in i who.
Proof. unfold activePrincipal, type_of, classify, active_in, Identity.isInternal. cbn. by destruct (_ || _). Qed.

(** What the roster says of a person. *)
Definition on_roster (i : Identity.Identity) (d : M) (pid who : string) : Prop :=
  active_in i who = true /\ exists p, projectForGroup orgId (projectGroupRef pid) d = Some p /\ active_in i p.(j_ownerId) = true /\ who ∈ p.(j_memberIds).

Lemma managed_project i s sessions d pid : managed (scope_deps i s sessions d) sk_group (projectGroupRef pid) = Some (managed_groups orgId (active_in i) d).
Proof.
  unfold managed. cbn [managedGroups scope_deps managed_groups recognizes]. unfold isProjectGroupRef, projectGroupRef.
  by rewrite (proj2 (starts_with_spec _ _)) by eauto.
Qed.
Lemma project_of_ref pid d q : projectForGroup orgId (projectGroupRef pid) d = Some q -> dm_get pid d = Some q.
Proof.
  unfold projectForGroup, projectIdFromGroupRef. destruct (isProjectGroupRef _); [|done]. cbn [negb].
  change (str_drop _ (projectGroupRef pid)) with pid. destruct (truthy pid && _); [|done]. cbn.
  destruct (dm_get pid d) as [x|]; [|done]. cbn. by destruct (j_orgId x === orgId).
Qed.
Lemma member_spec i d pid who :
  active_in i who = true -> managed_member (managed_groups orgId (active_in i) d) (projectGroupRef pid) who = true <-> on_roster i d pid who.
Proof.
  intros Ha. unfold managed_member, on_roster. cbn [mg_membership managed_groups catch_]. unfold membership.
  destruct (projectForGroup orgId (projectGroupRef pid) d) as [p|]; cbn; rewrite bool_decide_eq_true.
  - rewrite Ha, andb_true_r. split.
    + intros [= H]. apply andb_true_iff in H as [Ho Hm]. split; [done|]. exists p. by apply bool_decide_eq_true in Hm.
    + intros (_ & p' & [= <-] & -> & Hm). f_equal. by apply bool_decide_eq_true.
  - split; [done|]. by intros (_ & p & ? & _).
Qed.

Lemma access_is_membership i s sessions d pid who :
  let deps := scope_deps i s sessions d in let scope := projectScopeId pid in
  let m := truthy who && active_in i who && managed_member (managed_groups orgId (active_in i) d) (projectGroupRef pid) who in
  canReadScope deps who scope = m /\ canWriteScope deps who scope = m /\ canManageScope deps who scope = m.
Proof.
  cbv zeta. unfold canReadScope, canWriteScope, canManageScope, projectScopeId. rewrite parse_scopeId, active_wired.
  unfold memberOfSharedScope, sharedScopeMembership, currentSharedScopeMember. rewrite active_wired, managed_project.
  destruct (truthy who); [|done]. by destruct (active_in i who).
Qed.

(** C16: Who may read, write and manage a project is who is on its roster.  Under the stores as
    the program wires them, a person may do any of the three exactly when they are active, the
    project is of this organisation, its owner is active, and the roster lists them; neither
    old sessions nor the synchronised groups of the directory open a project.  So a member who
    has been removed is out at once, in all three. *)
Theorem project_access_exact i s sessions d pid who :
  let deps := scope_deps i s sessions d in let scope := projectScopeId pid in
  (canReadScope deps who scope = true <-> truthy who = true /\ on_roster i d pid who) /\
  canWriteScope deps who scope = canReadScope deps who scope /\ canManageScope deps who scope = canReadScope deps who scope /\
  (forall actor now p changed d', removeMember (active_in i) pid actor who now d = (pm_ok p changed, d') ->
     canReadScope (scope_deps i s sessions d') who scope = false).
Proof.
  cbv zeta. destruct (access_is_membership i s sessions d pid who) as (Hr & Hw & Hm). rewrite Hw, Hm, Hr.
  split; [|split; [done|split; [done|]]].
  - destruct (truthy who); [|naive_solver]. cbn [andb]. destruct (active_in i who) eqn:Ha; cbn [andb].
    + rewrite member_spec by done. naive_solver.
    + split; [done|]. intros (_ & Ha' & _). congruence.
  - intros actor now p changed d' Hrm. rewrite (proj1 (access_is_membership i s sessions d' pid who)).
    apply not_true_is_false. intros H. apply andb_true_iff in H as [H Hmem]. apply andb_true_iff in H as [_ Ha].
    apply (member_spec i d' pid who Ha) in Hmem as (_ & q & Hq & _ & Hin). revert Hrm. unfold removeMember, mutate.
    destruct (negb (truthy who)); [done|]. apply project_of_ref in Hq.
    destruct (dm_get pid d) as [x|]; [|done]. unfold change_roster. destruct (_ || _); [done|]. destruct (samePerson _ _); [done|].
    set (l := js_filter _ _). assert (Hl : who ∉ l).
    { unfold l. rewrite elem_of_js_filter. intros [H _]. by rewrite bool_decide_true in H. }
    destruct (bool_decide_reflect (l = j_memberIds x)) as [El|El]; intros [= _ _ <-]; rewrite dm_get_put, decide_True in Hq by done; cbn in Hq.
    + injection Hq as <-. congruence.
    + injection Hq as <-. done.
Qed.
End wired.

(** ** A project and its people *)

Definition demo_project : Project := MkProject "p1" "o" "Launch" "ann@x.co" ["ann@x.co"] 5 5.
Definition demo_projects : jsmap string Project := <["p1" := demo_project]> ∅.

Lemma version_names_roster_witness :
  exists p p', projectForGroup "o" "web-project-p1" demo_projects = Some p /\
    projectForGroup "o" "web-project-p1" (rename (fun _ => true) "p1" "ann@x.co" "Landing" demo_projects).2 = Some p' /\
    j_memberIds p' = j_memberIds p /\ j_ownerId p' = j_ownerId p.
Proof.
  refine (proj2 (version_names_roster "o" "web-project-p1" "5" demo_projects
    (rename (fun _ => true) "p1" "ann@x.co" "Landing" demo_projects).2 (fun w : nat => (w, S w)) 0%nat 1%nat (Some 0%nat) _ _ _)).
  - vm_compute. reflexivity.
  - apply rtc_once, ps_rename.
  - vm_compute. reflexivity.
Defined.

Definition demo_out : Identity.Identity := (Identity.deactivate "bob@x.co" Identity.manual 1 (Identity.MkIdentity ∅ 0)).1.
Definition demo_public : Directory.State :=
  (Directory.replaceChannels [Reach.MkChannel "C1" "general" (Some false)] (Some []) None Directory.empty_directory).2.

(** The rule for the home of an artifact is wired without the identity service
    (line 837 of the wiring): somebody who has been deactivated may not manage
    the channel, but goes on managing what they made in it. *)
Example deactivated_keeps_home :
  let d := demo_projects in
  let deps := scope_deps "o" demo_out demo_public None d in
  let home := MkDeps (managedGroups deps) (Access.directory deps) None None in
  (canWriteScope deps "bob@x.co" "channel:C1", canManageScope deps "bob@x.co" "channel:C1",
   managesArtifactHome home (canManageScope deps) "channel:C1" "bob@x.co" "bob@x.co") = (false, false, true).
Proof. vm_compute. reflexivity. Qed.

Lemma project_access_exact_witness :
  let d := (addMember (fun _ => true) "p1" "ann@x.co" "eve@x.co" 9 demo_projects).2 in
  let d' := (removeMember (fun _ => true) "p1" "ann@x.co" "eve@x.co" 10 d).2 in
  canReadScope (scope_deps "o" demo_out demo_public None d) "eve@x.co" (projectScopeId "p1") = true /\
  canReadScope (scope_deps "o" demo_out demo_public None d') "eve@x.co" (projectScopeId "p1") = false.
Proof.
  split.
  - apply (proj2 (proj1 (project_access_exact "o" demo_out demo_public None
      (addMember (fun _ => true) "p1" "ann@x.co" "eve@x.co" 9 demo_projects).2 "p1" "eve@x.co"))).
    split; [vm_compute; reflexivity|]. split; [vm_compute; reflexivity|]. eexists. split; [vm_compute; reflexivity|].
    split; [vm_compute; reflexivity|]. apply elem_of_cons. right. by left.
  - eapply (proj2 (proj2 (proj2 (project_access_exact "o" demo_out demo_public None
      (addMember (fun _ => true) "p1" "ann@x.co" "eve@x.co" 9 demo_projects).2 "p1" "eve@x.co"))) "ann@x.co" 10). vm_compute. reflexivity.
Defined.

(** A roster is asked by the person and searched by the text: the owner removes a member whose
    address is written differently, is told that it went well, and the member stays. *)
Example removal_by_other_spelling :
  let d := (addMember (fun _ => true) "p1" "ann@x.co" "Bob@x.co" 9 demo_projects).2 in
  let '(r, d) := removeMember (fun _ => true) "p1" "ann@x.co" "bob@x.co" 10 d in
  (samePerson (Some "Bob@x.co") (Some "bob@x.co"), match r with pm_ok _ changed => Some changed | _ => None end,
   membership "o" (fun _ => true) "web-project-p1" "Bob@x.co" d) = (true, Some false, Some true).
Proof. vm_compute. reflexivity. Qed.
