(* ===== verification/Keychain.v ===== *)
(** * The keychain: credentials, grants and asks

    What people keep in the keychain and who may use it ([src/src/credentials/keychain.ts],
    [createKeychain]): saving and listing credentials, the grants an owner makes for a
    conversation, the asks others make, loading a secret, the organisation's service
    credentials, and the tokens of connected apps with their refresh.  Every method is a call
    cut at its awaits ([Async]); the maps are any that keep the laws of [DurableMap].
    Encryption, digests, JSON, the configuration's organisation and the answers of the OAuth
    provider are the host's. *)

From S2P Require Import Prelude JsString Json Scope Turn DurableMap Async Regex Posture.

#[local] Open Scope string_scope.
#[local] Open Scope Z_scope.

(** ** Data *)

(** [CredentialKind] src/src/credentials/keychain.ts:14-14 *)
Inductive CredentialKind := k_env | k_file | k_broker.
#[export] Instance CredentialKind_eq_dec : EqDecision CredentialKind.
Proof. solve_decision. Defined.
(** [CredentialInjection] src/src/credentials/keychain.ts:16-19 *)
Record CredentialInjection := MkInjection { inj_header : option string; inj_scheme : option string }.
(** [BrokerDelivery] src/src/credentials/keychain.ts:21-30
    The delivery is ["broker"] or ["env"]. *)
Inductive DeliveryKind := d_broker | d_env.
#[export] Instance DeliveryKind_eq_dec : EqDecision DeliveryKind.
Proof. solve_decision. Defined.
(** [BrokerDelivery] src/src/credentials/keychain.ts:21-30 *)
Record BrokerDelivery := MkBroker {
  b_name : string;
  b_delivery : option DeliveryKind;
  b_envKey : option string;
  b_injection : option CredentialInjection;
  b_allowedMethods : option (list string);
  b_allowedPathPrefixes : option (list string);
  b_enabled : bool;
  b_updatedBy : option string;
}.
(** [CredentialRefresh] src/src/credentials/keychain.ts:32-40 *)
Record CredentialRefresh := MkRefresh {
  refreshTokenEnc : option string;
  rf_accountType : option string;
  rf_clientRef : option string;
  rf_grantedScopes : option (list string);
  refreshFailedAt : option Z;
  refreshError : option string;
  rf_orgId : option string;
}.
#[export] Instance CredentialRefresh_eta : Eta CredentialRefresh := fun r =>
  MkRefresh r.(refreshTokenEnc) r.(rf_accountType) r.(rf_clientRef) r.(rf_grantedScopes) r.(refreshFailedAt)
    r.(refreshError) r.(rf_orgId).
(** [CredentialFile] src/src/credentials/keychain.ts:42-45 *)
Record CredentialFile := MkFile { path : string; contentBase64 : string }.
#[export] Instance CredentialFile_eq_dec : EqDecision CredentialFile.
Proof. solve_decision. Defined.
(** [CredentialFieldMeta] src/src/credentials/keychain.ts:47-50 *)
Record CredentialFieldMeta := MkFieldMeta { fm_envKey : string; fm_secret : bool }.
(** [CredentialFieldInput] src/src/credentials/keychain.ts:52-56 *)
Record CredentialFieldInput := MkFieldInput { fi_envKey : string; fi_value : string; fi_secret : option bool }.

(** [KeychainCredential] src/src/credentials/keychain.ts:58-79
    With the [username] that records of an earlier version carry ([decryptToEnv]). *)
Record KeychainCredential := MkCred {
  c_id : string;
  c_ownerId : string;
  c_orgId : option string;
  service : string;
  c_kind : CredentialKind;
  c_envKey : option string;
  target : option string;
  targets : option (list string);
  host : option string;
  accountLabel : option string;
  fields : option (list CredentialFieldMeta);
  broker : option BrokerDelivery;
  refresh : option CredentialRefresh;
  managed : bool;
  secretEnc : string;
  fingerprint : string;
  origin : option string;
  c_expiresAt : option Z;
  c_createdAt : Z;
  c_updatedAt : Z;
  username : option string;
}.
#[export] Instance KeychainCredential_eta : Eta KeychainCredential := fun c =>
  MkCred c.(c_id) c.(c_ownerId) c.(c_orgId) c.(service) c.(c_kind) c.(c_envKey) c.(target) c.(targets) c.(host)
    c.(accountLabel) c.(fields) c.(broker) c.(refresh) c.(managed) c.(secretEnc) c.(fingerprint) c.(origin)
    c.(c_expiresAt) c.(c_createdAt) c.(c_updatedAt) c.(username).

(** [toMeta] src/src/credentials/keychain.ts:400-403
    A record without its secret: the secret is emptied. *)
Definition toMeta (rec : KeychainCredential) : KeychainCredential := rec <| secretEnc := "" |>.

(** [GrantMode] src/src/credentials/keychain.ts:83-83 *)
Inductive GrantMode := once | standing.
#[export] Instance GrantMode_eq_dec : EqDecision GrantMode.
Proof. solve_decision. Defined.
(** [KeychainGrant.status] src/src/credentials/keychain.ts:93-93 *)
Inductive GrantStatus := g_active | g_revoked | g_used.
#[export] Instance GrantStatus_eq_dec : EqDecision GrantStatus.
Proof. solve_decision. Defined.
(** [KeychainGrant] src/src/credentials/keychain.ts:85-100 *)
Record KeychainGrant := MkGrant {
  g_id : string;
  g_credentialId : string;
  g_ownerId : string;
  g_orgId : option string;
  g_audience : ScopeId;
  g_mode : GrantMode;
  g_purpose : string;
  g_status : GrantStatus;
  g_createdAt : Z;
  g_expiresAt : option Z;
  revokedAt : option Z;
  usedAt : option Z;
  usedBy : option string;
  g_askId : option string;
}.
#[export] Instance KeychainGrant_eta : Eta KeychainGrant := fun g =>
  MkGrant g.(g_id) g.(g_credentialId) g.(g_ownerId) g.(g_orgId) g.(g_audience) g.(g_mode) g.(g_purpose) g.(g_status)
    g.(g_createdAt) g.(g_expiresAt) g.(revokedAt) g.(usedAt) g.(usedBy) g.(g_askId).

(** [AskStatus] src/src/credentials/keychain.ts:102-102 *)
Inductive AskStatus := a_pending | a_approved | a_declined | a_expired.
#[export] Instance AskStatus_eq_dec : EqDecision AskStatus.
Proof. solve_decision. Defined.
Definition status_name (s : AskStatus) : string :=
  match s with a_pending => "pending" | a_approved => "approved" | a_declined => "declined" | a_expired => "expired" end.
(** [KeychainAsk] src/src/credentials/keychain.ts:104-122 *)
Record KeychainAsk := MkAsk {
  a_id : string;
  a_credentialId : string;
  a_ownerId : string;
  requesterId : string;
  a_orgId : option string;
  requesterScopeId : ScopeId;
  requesterDestination : option Destination;
  requesterThreadRef : option string;
  a_purpose : string;
  requestedMode : option GrantMode;
  a_status : AskStatus;
  a_createdAt : Z;
  a_expiresAt : Z;
  resolvedAt : option Z;
  a_grantId : option string;
  a_note : option string;
  notifiedAt : option Z;
}.
#[export] Instance KeychainAsk_eta : Eta KeychainAsk := fun a =>
  MkAsk a.(a_id) a.(a_credentialId) a.(a_ownerId) a.(requesterId) a.(a_orgId) a.(requesterScopeId)
    a.(requesterDestination) a.(requesterThreadRef) a.(a_purpose) a.(requestedMode) a.(a_status) a.(a_createdAt)
    a.(a_expiresAt) a.(resolvedAt) a.(a_grantId) a.(a_note) a.(notifiedAt).

(** [ASK_TTL_MS] src/src/credentials/keychain.ts:124-124 *)
Definition ASK_TTL_MS : Z := 24 * 60 * 60000.
(** [ASK_PRUNE_AFTER_MS] src/src/credentials/keychain.ts:125-125 *)
Definition ASK_PRUNE_AFTER_MS : Z := 14 * 24 * 60 * 60000.

(** [ServiceCredentialInput] src/src/credentials/keychain.ts:127-139 *)
Record ServiceCredentialInput := MkServiceInput {
  slug : string;
  sc_name : string;
  sc_secret : option string;
  sc_delivery : option DeliveryKind;
  sc_envKey : option string;
  sc_host : string;
  sc_injection : option CredentialInjection;
  sc_allowedMethods : option (list string);
  sc_allowedPathPrefixes : option (list string);
  sc_enabled : option bool;
  sc_updatedBy : option string;
}.
(** [PublicServiceCredential] src/src/credentials/keychain.ts:141-154 *)
Record PublicServiceCredential := MkPublic {
  ps_slug : string;
  ps_name : string;
  ps_delivery : DeliveryKind;
  ps_envKey : option string;
  ps_host : string;
  ps_injection : option CredentialInjection;
  ps_allowedMethods : option (list string);
  ps_allowedPathPrefixes : option (list string);
  ps_enabled : bool;
  hasSecret : bool;
  ps_updatedBy : option string;
  ps_updatedAt : Z;
}.
(** [DecryptedServiceCredential] src/src/credentials/keychain.ts:156-167 *)
Record DecryptedServiceCredential := MkDecrypted {
  ds_slug : string;
  ds_name : string;
  ds_secret : string;
  ds_delivery : DeliveryKind;
  ds_envKey : option string;
  ds_host : string;
  ds_injection : option CredentialInjection;
  ds_allowedMethods : option (list string);
  ds_allowedPathPrefixes : option (list string);
  ds_enabled : bool;
}.
(** [OAuthToken] src/src/credentials/keychain.ts:194-202 *)
Record OAuthToken := MkToken {
  accessToken : string;
  refreshToken : option string;
  t_expiresAt : option Z;
  t_grantedScopes : option (list string);
  t_clientRef : option string;
  t_accountType : option string;
  t_orgId : option string;
}.
#[export] Instance OAuthToken_eta : Eta OAuthToken := fun t =>
  MkToken t.(accessToken) t.(refreshToken) t.(t_expiresAt) t.(t_grantedScopes) t.(t_clientRef) t.(t_accountType) t.(t_orgId).
(** [OAuthTokenStatus] src/src/credentials/keychain.ts:204-213
    [None] when there is no token: [connected] is false. *)
Record OAuthTokenStatus := MkTokenStatus {
  ts_expiresAt : option Z;
  hasRefreshToken : bool;
  ts_needsReconnect : bool;
  ts_refreshFailedAt : option Z;
  ts_refreshError : option string;
  ts_accountType : option string;
  ts_grantedScopes : option (list string);
}.
(** [ConnectorMeta] src/src/credentials/keychain.ts:221-229 *)
Record ConnectorMeta := MkConnectorMeta {
  cm_credentialId : string;
  cm_ownerId : string;
  cm_host : string;
  cm_accountType : option string;
  cm_expiresAt : option Z;
  cm_needsReconnect : bool;
}.

(** [SaveCredentialInput] src/src/credentials/keychain.ts:238-250 *)
Record SaveCredentialInput := MkSave {
  s_ownerId : string;
  s_service : string;
  s_secret : option string;
  s_envKey : option string;
  s_fields : option (list CredentialFieldInput);
  s_target : option string;
  s_files : option (list CredentialFile);
  s_host : option string;
  s_accountLabel : option string;
  s_origin : option string;
  s_expiresAt : option Z;
}.
(** [CreateGrantInput] src/src/credentials/keychain.ts:252-260 *)
Record CreateGrantInput := MkGrantInput {
  gi_credentialId : string;
  gi_ownerId : string;
  gi_audience : ScopeId;
  gi_mode : GrantMode;
  gi_purpose : string;
  gi_expiresAt : option Z;
  gi_askId : option string;
}.
(** [CreateAskInput] src/src/credentials/keychain.ts:262-271 *)
Record CreateAskInput := MkAskInput {
  ai_credentialId : string;
  ai_requesterId : string;
  ai_scopeId : ScopeId;
  ai_destination : option Destination;
  ai_threadRef : option string;
  ai_purpose : string;
  ai_mode : option GrantMode;
  ai_expiresAt : option Z;
}.
(** [ApproveAskInput] src/src/credentials/keychain.ts:273-279 *)
Record ApproveAskInput := MkApprove {
  ap_askId : string;
  ap_ownerId : string;
  ap_mode : GrantMode;
  ap_purpose : string;
  ap_expiresAt : option Z;
}.
(** [AskListFilter] src/src/credentials/keychain.ts:281-285 *)
Record AskListFilter := MkAskFilter { af_requesterId : option string; af_ownerId : option string; af_scopeId : option ScopeId }.
(** [GrantListFilter] src/src/credentials/keychain.ts:317-320 *)
Record GrantListFilter := MkGrantFilter { gf_ownerId : option string; gf_audience : option ScopeId }.

(** [MaterializedCred] src/src/credentials/keychain.ts:287-306
    What is loaded: variables, or files with where they came from. *)
Inductive Loaded := l_env (env : list (string * string)) | l_files (files : list CredentialFile) (origin : option string).
(** [MaterializedCred] src/src/credentials/keychain.ts:287-306 *)
Record MaterializedCred := MkLoaded {
  m_credentialId : string;
  m_ownerId : string;
  m_service : string;
  m_loaded : Loaded;
  m_grant : option (string * string);
}.

(** [KeychainError] src/src/credentials/keychain.ts:308-315
    And the other errors a method may throw. *)
Inductive Error := KeychainError (status : Z) (message : string) | OtherError (message : string).

(** ** Small pieces *)

(** [/^[a-z0-9][a-z0-9-]{0,62}$/] and the like, read off the characters. *)
Definition is_lower (c : ascii) : bool := in_range 97 122 c.
Definition is_upper (c : ascii) : bool := in_range 65 90 c.
(** [isValidCredentialSlug] src/src/credentials/keychain.ts:169-171 *)
Definition isValidCredentialSlug (s : string) : bool :=
  match s with
  | "" => false
  | String c s => (is_lower c || is_digit c)
      && str_every (fun c => is_lower c || is_digit c || (c === "-"%char)) s && (Nat.leb (String.length s) 62)
  end.
(** [isValidServiceCredentialEnvKey] src/src/credentials/keychain.ts:173-175 *)
Definition isValidServiceCredentialEnvKey (s : string) : bool :=
  match s with
  | "" => false
  | String c t => is_upper c && str_every (fun c => is_upper c || is_digit c || (c === "_"%char)) t
  end && negb (starts_with s "AGENT_").
(** [ENV_KEY_RE] src/src/credentials/keychain.ts:385-385 *)
Definition ENV_KEY_RE (s : string) : bool :=
  match s with "" => false | String c s => (is_letter c || (c === "_"%char)) && str_every is_word s end.

(** [s.toUpperCase().replace(/[^A-Z0-9]/g, "_")]: in upper case the sharp s is two letters. *)
Definition env_char (c : ascii) : string :=
  if is_lower c then String (ascii_of_N (N_of_ascii c - 32)) ""
  else if is_upper c || is_digit c then String c ""
  else if N_of_ascii c === 223%N then "SS" else "_".
Fixpoint env_word (s : string) : string := match s with "" => "" | String c s => env_char c +:+ env_word s end.
(** [defaultEnvKey] src/src/credentials/keychain.ts:381-383 *)
Definition defaultEnvKey (service : string) : string := env_word service +:+ "_TOKEN".
(** [envKey] src/src/credentials/connector-token.ts:5-8
    Without a principal. *)
Definition envKey (host : string) : string := "VAULT_TOKEN_" +:+ env_word host.
(** [legacyUsernameEnvKey] src/src/credentials/keychain.ts:387-390
    The leftmost match of the expression is the longest of the endings. *)
Definition legacyUsernameEnvKey (passwordEnvKey : string) : string :=
  let base :=
    match find (fun e => ends_with (to_lower passwordEnvKey) e) ["_password"; "_pass"; "_token"; "_secret"; "_api_key"; "_key"] with
    | Some e => str_take (String.length passwordEnvKey - String.length e) passwordEnvKey
    | None => passwordEnvKey
    end in
  (if truthy base then base else passwordEnvKey) +:+ "_USERNAME".

(** [expired] src/src/credentials/keychain.ts:392-394 *)
Definition expired (expiresAt : option Z) (now : Z) : bool := match expiresAt with Some e => e <? now | None => false end.
(** [credExpired] src/src/credentials/keychain.ts:396-398 *)
Definition credExpired (rec : KeychainCredential) (now : Z) : bool :=
  (rec.(c_kind) !== k_file) && expired rec.(c_expiresAt) now.

(** [stripHomePrefix] src/src/credentials/paths.ts:1-3 *)
Definition stripHomePrefix (p : string) : string :=
  let p := if starts_with p "~/" then str_drop 2 p else p in if p === "~" then "" else p.
(** [homeRelativePath] src/src/credentials/paths.ts:5-11 *)
Definition homeRelativePath (p : string) : option string :=
  let rel := stripHomePrefix p in
  let rel := if starts_with rel "./" then str_drop 2 rel else rel in
  if negb (truthy rel) || starts_with rel "/" || includes (split_on "/"%char rel) ".." then None else Some rel.
(** [keychainFilePath] src/src/credentials/keychain.ts:369-375 *)
Definition keychainFilePath (p : string) : result Error string :=
  match homeRelativePath p with
  | Some rel => Ok rel
  | None => Throw (KeychainError 400 ("file path must be home-relative: " +:+ p))
  end.

(** [Buffer.from(s, "utf8").toString("base64")]. *)
Definition to_base64 (s : string) : string :=
  let l := utf8_bytes s in
  base64 l +:+ match (length l mod 3)%nat with 1%nat => "==" | 2%nat => "=" | _ => "" end.

(** [storedRefreshError] src/src/credentials/keychain.ts:630-633 *)
Definition storedRefreshError (e : string) : string :=
  let msg := trim (squeeze e) in if str_len msg >? 500 then str_take 497 msg +:+ "..." else msg.

(** [oauthSlot] src/src/credentials/keychain.ts:569-569 *)
Definition oauthSlot (accountType : option string) : string :=
  "oauth:" +:+ (if truthy_opt accountType && (accountType !== Some "default") then accountType ?? "" else "").
(** [orgIdOf] src/src/credentials/keychain.ts:505-505 *)
Definition orgIdOf (orgScopeId : string) : string := if starts_with orgScopeId "org:" then str_drop 4 orgScopeId else orgScopeId.

Definition same (a b : string) : bool := samePerson (Some a) (Some b).

(** [bucketByOwner] src/src/credentials/keychain.ts:405-422 *)
Definition bucketByOwner {T} (creds : list KeychainCredential) (ownerIds : list string)
    (include : KeychainCredential -> bool) (item : KeychainCredential -> T) : jsmap string (list T) :=
  let byKey := new_map (map (fun id => (personKey (Some id), id)) ownerIds) in
  fold_left (fun out c =>
    if negb (include c) then out
    else match byKey !! personKey (Some c.(c_ownerId)) with
         | None => out
         | Some owner => <[owner := (out !! owner ?? []) ++ [item c]]> out
         end%list) creds ∅.

(** ** The state the calls share

    The three maps; for each process the refreshes it has under way ([inflightRefreshes], a
    promise by credential) with the promises; and the provider of OAuth tokens: the
    credentials whose refresh it has been asked for, and the answers it will give. *)
Record Keychain (Mc Mg Ma : Type) := MkKeychain {
  creds : Mc;
  grants : Mg;
  asks : Ma;
  inflight : jsmap (string * string) nat;
  promises : list (option (option string));
  outstanding : list (string * string);
  answers : list (result string OAuthToken);
}.
Arguments MkKeychain {Mc Mg Ma}.
Arguments creds {Mc Mg Ma} k.
Arguments grants {Mc Mg Ma} k.
Arguments asks {Mc Mg Ma} k.
Arguments inflight {Mc Mg Ma} k.
Arguments promises {Mc Mg Ma} k.
Arguments outstanding {Mc Mg Ma} k.
Arguments answers {Mc Mg Ma} k.
#[export] Instance Keychain_eta Mc Mg Ma : Eta (Keychain Mc Mg Ma) := fun k =>
  MkKeychain k.(creds) k.(grants) k.(asks) k.(inflight) k.(promises) k.(outstanding) k.(answers).

(** What the host does for the keychain, and how it was made ([deps]).  The random nonce of
    the encryption is not seen by the program; [None] is a decryption that throws. *)
Record Host := MkHost {
  encryptSecret : string -> string;
  decryptSecret : string -> option string;
  hashId : list string -> string;
  stringify : Json -> string;
  parse : string -> option Json;
  configOrgId : string;
  refreshes : bool;
  oauthSkewMs : option Z;
  oauthRefreshMarginMs : option Z;
  self : string;
}.

Section keychain.
Context {Mc Mg Ma : Type} `{!DurableMap Mc KeychainCredential} `{!DurableMap Mg KeychainGrant} `{!DurableMap Ma KeychainAsk}.
Variable h : Host.
Abbreviation St := (Keychain Mc Mg Ma).
Abbreviation call := (call St Error).

(** Atomic operations on one of the maps. *)
Definition on_creds {X} (f : Mc -> X * Mc) (s : St) : option (X * St) :=
  let '(x, m) := f s.(creds) in Some (x, s <| creds := m |>).
Definition on_grants {X} (f : Mg -> X * Mg) (s : St) : option (X * St) :=
  let '(x, m) := f s.(grants) in Some (x, s <| grants := m |>).
Definition on_asks {X} (f : Ma -> X * Ma) (s : St) : option (X * St) :=
  let '(x, m) := f s.(asks) in Some (x, s <| asks := m |>).
Definition get_cred id : call (option KeychainCredential) := await (on_creds (fun m => (dm_get id m, m))).
Definition all_creds : call (list KeychainCredential) := await (on_creds (fun m => (dm_all m, m))).
Definition put_cred id c : call unit := await (on_creds (fun m => (tt, dm_put id c m))).
Definition merge_cred id f : call unit := await (on_creds (fun m => (tt, (dm_merge id f m).2))).
Definition delete_cred id : call unit := await (on_creds (fun m => (tt, dm_delete id m))).
Definition get_grant id : call (option KeychainGrant) := await (on_grants (fun m => (dm_get id m, m))).
Definition all_grants : call (list KeychainGrant) := await (on_grants (fun m => (dm_all m, m))).
Definition put_grant id g : call unit := await (on_grants (fun m => (tt, dm_put id g m))).
Definition merge_grant id f : call unit := await (on_grants (fun m => (tt, (dm_merge id f m).2))).
Definition get_ask id : call (option KeychainAsk) := await (on_asks (fun m => (dm_get id m, m))).
Definition all_asks : call (list KeychainAsk) := await (on_asks (fun m => (dm_all m, m))).
Definition put_ask id a : call unit := await (on_asks (fun m => (tt, dm_put id a m))).
Definition merge_ask id f : call unit := await (on_asks (fun m => (tt, (dm_merge id f m).2))).
Definition delete_ask id : call unit := await (on_asks (fun m => (tt, dm_delete id m))).

Definition fail_with {A} (status : Z) (message : string) : call A := Raise (KeychainError status message).
Definition require {A} (o : option A) (status : Z) (message : string) : call A :=
  match o with Some a => Ret a | None => fail_with status message end.

(** ** Reading a credential *)

(** [fingerprintOf] src/src/credentials/keychain.ts:361-363 *)
Definition fingerprintOf (secret : string) : string := h.(hashId) [secret].
(** [credId] src/src/credentials/keychain.ts:377-379 *)
Definition credId (ownerId service slot : string) : string := h.(hashId) [ownerId; service; slot].

(** Files as JSON holds them: what [saveCredential] writes. *)
Definition files_json (files : list CredentialFile) : Json :=
  JArr (map (fun f => JObj [("path", JStr f.(path)); ("contentBase64", JStr f.(contentBase64))]) files).
Definition file_of_json (j : Json) : option CredentialFile :=
  match str_field "path" j, str_field "contentBase64" j with Some p, Some c => Some (MkFile p c) | _, _ => None end.
Definition files_of_json (j : Json) : option (list CredentialFile) := as_array j ≫= mapM file_of_json.

(** [decryptToEnv] src/src/credentials/keychain.ts:443-462
    [None] when it throws. *)
Definition decryptToEnv (rec : KeychainCredential) (extra : option (string * string)) : option MaterializedCred :=
  raw ← h.(decryptSecret) rec.(secretEnc);
  env ← match rec.(fields) with
        | Some fs =>
            values ← h.(parse) raw;
            Some (map (fun f => (f.(fm_envKey), str_field f.(fm_envKey) values ?? "")) fs)
        | None =>
            let key := rec.(c_envKey) ?? defaultEnvKey rec.(service) in
            Some ((key, raw) :: match if_truthy rec.(username) with Some u => [(legacyUsernameEnvKey key, u)] | None => [] end)
        end;
  Some (MkLoaded rec.(c_id) rec.(c_ownerId) rec.(service) (l_env env) extra).

(** [decryptToFiles] src/src/credentials/keychain.ts:464-477 *)
Definition decryptToFiles (rec : KeychainCredential) (extra : option (string * string)) : option MaterializedCred :=
  raw ← h.(decryptSecret) rec.(secretEnc);
  files ← match rec.(targets) with
          | Some _ => h.(parse) raw ≫= files_of_json
          | None => match keychainFilePath (rec.(target) ?? "") with Ok p => Some [MkFile p (to_base64 raw)] | Throw _ => None end
          end;
  Some (MkLoaded rec.(c_id) rec.(c_ownerId) rec.(service) (l_files files (if_truthy rec.(origin))) extra).

(** [materializeDecrypted] src/src/credentials/keychain.ts:805-818
    With [tryDecrypt] (479-488): what throws inside it is no value. *)
Definition materializeDecrypted (cred : KeychainCredential) (extra : option (string * string)) : call MaterializedCred :=
  require (if cred.(c_kind) === k_file then decryptToFiles cred extra else decryptToEnv cred extra)
    422 "credential does not decrypt under the current key".

(** ** Saving *)

(** [saveCredential] src/src/credentials/keychain.ts:719-729
    The files of an input, their paths checked. *)
Definition input_files (input : SaveCredentialInput) : result Error (option (list CredentialFile)) :=
  match input.(s_files) with
  | Some (f :: fs) => l ← mapM (fun f => p ← keychainFilePath f.(path); Ok (MkFile p f.(contentBase64))) (f :: fs); Ok (Some l)
  | _ =>
      if truthy_opt input.(s_target) && truthy_opt input.(s_secret)
      then p ← keychainFilePath (input.(s_target) ?? ""); Ok (Some [MkFile p (to_base64 (input.(s_secret) ?? ""))])
      else Ok None
  end.
(** [saveCredential] src/src/credentials/keychain.ts:731-742
    The fields of an input without files: name, value, and whether it is secret. *)
Definition input_fields (files : option (list CredentialFile)) (input : SaveCredentialInput)
  : result Error (option (list (string * string * bool))) :=
  match files, input.(s_fields) with
  | None, Some (f :: fs) =>
      let fields := map (fun f => (trim f.(fi_envKey), f.(fi_value), f.(fi_secret) !== Some false)) (f :: fs) in
      if some (fun f => negb (ENV_KEY_RE f.1.1)) fields
      then Throw (KeychainError 400 "each credential field needs a valid environment-variable envKey")
      else if some (fun f => negb (truthy f.1.2) || negb (truthy (trim f.1.2))) fields
      then Throw (KeychainError 400 "each credential field needs a value")
      else if negb (Nat.eqb (length (dedup (map (fun f => f.1.1) fields))) (length fields))
      then Throw (KeychainError 400 "credential field envKeys must be unique")
      else Ok (Some fields)
  | _, _ => Ok None
  end.

(** [saveCredential] src/src/credentials/keychain.ts:716-782
    The part before the read of the prior record: the record that is saved, without what
    depends on the time and on that record. *)
Definition saved_record (input : SaveCredentialInput) : result Error KeychainCredential :=
  let service := to_lower (trim input.(s_service)) in
  if negb (truthy service) then Throw (KeychainError 400 "service required")
  else
    files ← input_files input;
    fields ← input_fields files input;
    let kind := if is_some files then k_file else k_env in
    let secret :=
      match files, fields with
      | Some l, _ => Some (h.(stringify) (files_json l))
      | None, Some fs => Some (h.(stringify) (JObj (map (fun f => (f.1.1, JStr f.1.2)) fs)))
      | None, None => input.(s_secret)
      end in
    if negb (truthy_opt secret) || negb (truthy (trim (secret ?? ""))) then Throw (KeychainError 400 "empty secret")
    else
      let secret := secret ?? "" in
      let key := if (kind === k_env) && negb (is_some fields)
                 then Some (if_truthy (trim <$> input.(s_envKey)) ?? defaultEnvKey service) else None in
      if match key with Some k => truthy k && negb (ENV_KEY_RE k) | None => false end
      then Throw (KeychainError 400 "envKey must be a valid environment-variable name")
      else
        let slot := match kind, fields with
                    | k_file, _ => "file"
                    | _, Some fs => "env:" +:+ join "," (js_sort str_cmp (map (fun f => f.1.1) fs))
                    | _, None => "env:" +:+ (key ?? "undefined")
                    end in
        Ok (MkCred (credId input.(s_ownerId) service slot) input.(s_ownerId) (Some h.(configOrgId)) service kind
              (if_truthy key) None (map path <$> files) (if_truthy input.(s_host)) (if_truthy input.(s_accountLabel))
              (map (fun f => MkFieldMeta f.1.1 f.2) <$> fields) None None false (h.(encryptSecret) secret)
              (fingerprintOf secret) (if_truthy input.(s_origin)) input.(s_expiresAt) 0 0 None).

(** [save] src/src/credentials/keychain.ts:754-781 *)
Definition save (input : SaveCredentialInput) : call KeychainCredential :=
  rec ← lift (saved_record input);
  t ← now;
  prior ← get_cred rec.(c_id);
  let rec := rec <| c_createdAt := (c_createdAt <$> prior) ?? t |> <| c_updatedAt := t |> in
  _ ← put_cred rec.(c_id) rec;
  mret (toMeta rec).

(** ** Grants *)

(** [activeGrantsFor] src/src/credentials/keychain.ts:490-495 *)
Definition activeGrantsFor (scopeId : ScopeId) : call (list KeychainGrant) :=
  t ← now;
  l ← all_grants;
  mret (js_filter (fun g => (g.(g_audience) === scopeId) && (g.(g_status) === g_active) && negb (expired g.(g_expiresAt) t)) l).

(** [materialize] src/src/credentials/keychain.ts:1183-1186
    What a grant is refused for, in the order of the checks; [None] lets it through. *)
Definition grant_refusal (g : KeychainGrant) (scopeId : ScopeId) (t : Z) : option Error :=
  if g.(g_audience) !== scopeId then Some (KeychainError 403 "grant is for a different conversation")
  else if g.(g_status) === g_revoked then Some (KeychainError 410 "grant was revoked")
  else if g.(g_status) === g_used then Some (KeychainError 410 "one-time grant already used")
  else if expired g.(g_expiresAt) t then Some (KeychainError 410 "grant is expired")
  else None.

(** [claimOnceGrant] src/src/credentials/keychain.ts:823-831
    The update of the record; one that throws changes nothing. *)
Definition claim_update (id : string) (scopeId : ScopeId) (by_ : string) (t : Z) (m : Mg) : result Error unit * Mg :=
  match dm_get id m with
  | None => (Throw (KeychainError 404 "unknown grant"), m)
  | Some g =>
      match grant_refusal g scopeId t with
      | Some e => (Throw e, m)
      | None => (Ok tt, dm_put id (g <| g_status := g_used |> <| usedAt := Some t |> <| usedBy := Some by_ |>) m)
      end
  end.
(** [claimOnceGrant] src/src/credentials/keychain.ts:820-832 *)
Definition claimOnceGrant (g : KeychainGrant) (scopeId : ScopeId) (by_ : string) : call unit :=
  if g.(g_mode) !== once then mret tt
  else
    t ← now;
    r ← await (on_grants (claim_update g.(g_id) scopeId by_ t));
    lift r.

(** [mintGrant] src/src/credentials/keychain.ts:834-865 *)
Definition mintGrant (input : CreateGrantInput) : call KeychainGrant :=
  cred ← get_cred input.(gi_credentialId);
  cred ← require cred 404 "unknown credential";
  if cred.(c_kind) === k_broker then
    fail_with 400 "broker credentials are org-owned and used via the credential broker, not grants"
  else if negb (same cred.(c_ownerId) input.(gi_ownerId)) then
    fail_with 403 "only the credential's owner can grant it — and only on a turn the owner themself sent"
  else
    let purpose := trim input.(gi_purpose) in
    if negb (truthy purpose) then fail_with 400 "purpose required — record the owner's approval verbatim"
    else
      t ← now;
      if negb cred.(managed) && credExpired cred t then fail_with 410 "credential is expired"
      else
        let g := MkGrant (h.(hashId) [cred.(c_id); input.(gi_audience); pretty.pretty t; purpose]) cred.(c_id) cred.(c_ownerId)
                   cred.(c_orgId) input.(gi_audience) input.(gi_mode) purpose g_active t input.(gi_expiresAt)
                   None None None (if_truthy input.(gi_askId)) in
        _ ← put_grant g.(g_id) g;
        mret g.

(** [revokeGrant] src/src/credentials/keychain.ts:939-940 *)
Definition revoke (t : Z) (g : KeychainGrant) : KeychainGrant := g <| g_status := g_revoked |> <| revokedAt := Some t |>.

(** [deleteCredential] src/src/credentials/keychain.ts:867-874 *)
Definition deleteCredential (id : string) : call unit :=
  l ← all_grants;
  _ ← for_each l (fun g =>
        if (g.(g_credentialId) === id) && (g.(g_status) === g_active) then t ← now; merge_grant g.(g_id) (revoke t) else mret tt);
  delete_cred id.

(** [getOwned] src/src/credentials/keychain.ts:438-441 *)
Definition getOwned (ownerId id : string) : call (option KeychainCredential) :=
  rec ← get_cred id;
  mret (match rec with Some c => if same c.(c_ownerId) ownerId then Some c else None | None => None end).

(** [remove] src/src/credentials/keychain.ts:898-904 *)
Definition remove (ownerId id : string) : call bool :=
  rec ← getOwned ownerId id;
  match rec with
  | None => mret false
  | Some c => if c.(managed) || (c.(c_kind) === k_broker) then mret false else _ ← deleteCredential id; mret true
  end.

(** A credential that people see and load as their own. *)
Definition personal_cred (c : KeychainCredential) : bool := negb c.(managed) && (c.(c_kind) !== k_broker).
(** [listAllMetadata] src/src/credentials/keychain.ts:879-881 *)
Definition listAllMetadata : call (list KeychainCredential) := l ← all_creds; mret (map toMeta (js_filter personal_cred l)).
(** [listByOwner] src/src/credentials/keychain.ts:883-887 *)
Definition listByOwner (ownerId : string) : call (list KeychainCredential) :=
  l ← all_creds; mret (map toMeta (js_filter (fun c => same c.(c_ownerId) ownerId && personal_cred c) l)).
(** [listByOwners] src/src/credentials/keychain.ts:889-891 *)
Definition listByOwners (ownerIds : list string) : call (jsmap string (list KeychainCredential)) :=
  l ← all_creds; mret (bucketByOwner l ownerIds personal_cred toMeta).
(** [getCredential] src/src/credentials/keychain.ts:893-896 *)
Definition getCredential (id : string) : call (option KeychainCredential) := rec ← get_cred id; mret (fmap (M := option) toMeta rec).
(** [getGrant] src/src/credentials/keychain.ts:925-927 *)
Definition getGrant (id : string) : call (option KeychainGrant) := get_grant id.
(** [listGrants] src/src/credentials/keychain.ts:929-935 *)
Definition listGrants (f : GrantListFilter) : call (list KeychainGrant) :=
  l ← all_grants;
  mret (js_filter (fun g =>
    match f.(gf_ownerId) with None => true | Some o => same g.(g_ownerId) o end
    && match f.(gf_audience) with None => true | Some a => g.(g_audience) === a end) l).
(** [revokeGrant] src/src/credentials/keychain.ts:937-942 *)
Definition revokeGrant (ownerId grantId : string) : call bool :=
  g ← get_grant grantId;
  match g with
  | None => mret false
  | Some g =>
      if negb (same g.(g_ownerId) ownerId) then mret false
      else _ ← (if g.(g_status) === g_active then t ← now; merge_grant grantId (revoke t) else mret tt); mret true
  end.
(** [grantsForScope] src/src/credentials/keychain.ts:944-952 *)
Definition grantsForScope (scopeId : ScopeId) : call (list (KeychainGrant * KeychainCredential)) :=
  l ← activeGrantsFor scopeId;
  collect l (fun g =>
    cred ← get_cred g.(g_credentialId);
    t ← now;
    mret match cred with
         | Some c => if c.(managed) || negb (credExpired c t) then [(g, toMeta c)] else []
         | None => []
         end).

(** ** Asks *)

(** [freshAsk] src/src/credentials/keychain.ts:499-499
    The patch, of the record in the store and of the one that was read. *)
Definition expire (t : Z) (a : KeychainAsk) : KeychainAsk := a <| a_status := a_expired |> <| resolvedAt := Some t |>.
(** [freshAsk] src/src/credentials/keychain.ts:497-502 *)
Definition freshAsk (rec : KeychainAsk) (t : Z) : call KeychainAsk :=
  if (rec.(a_status) !== a_pending) || (rec.(a_expiresAt) >=? t) then mret rec
  else _ ← merge_ask rec.(a_id) (expire t); mret (expire t rec).

(** [createAsk] src/src/credentials/keychain.ts:965-970
    The loop over the asks there are: the one already pending for this. *)
Fixpoint pending_for (credentialId : string) (scopeId : ScopeId) (t : Z) (l : list KeychainAsk) : call (option KeychainAsk) :=
  match l with
  | [] => mret None
  | rec :: l =>
      a ← freshAsk rec t;
      if (a.(a_status) === a_pending) && (a.(a_credentialId) === credentialId) && (a.(requesterScopeId) === scopeId)
      then mret (Some a) else pending_for credentialId scopeId t l
  end.
(** [createAsk] src/src/credentials/keychain.ts:954-988
    [newId] is the random identifier. *)
Definition createAsk (newId : string) (input : CreateAskInput) : call (KeychainAsk * bool) :=
  let purpose := trim input.(ai_purpose) in
  if negb (truthy purpose) then fail_with 400 "purpose required — record the requester's words verbatim"
  else
    cred ← get_cred input.(ai_credentialId);
    match cred with
    | None => fail_with 404 "unknown credential"
    | Some cred =>
        if cred.(c_kind) === k_broker then fail_with 404 "unknown credential"
        else
          t ← now;
          if negb cred.(managed) && credExpired cred t
          then fail_with 410 "credential is expired — its owner must re-auth before it can be asked for"
          else if same cred.(c_ownerId) input.(ai_requesterId)
          then fail_with 400 "you own this credential — grant it directly instead of asking yourself"
          else
            l ← all_asks;
            old ← pending_for cred.(c_id) input.(ai_scopeId) t l;
            match old with
            | Some a => mret (a, true)
            | None =>
                let ask := MkAsk newId cred.(c_id) cred.(c_ownerId) input.(ai_requesterId) (Some h.(configOrgId))
                             input.(ai_scopeId) input.(ai_destination) (if_truthy input.(ai_threadRef)) purpose
                             input.(ai_mode) a_pending t (input.(ai_expiresAt) ?? t + ASK_TTL_MS) None None None None in
                _ ← put_ask newId ask;
                mret (ask, false)
            end
    end.

(** [getAsk] src/src/credentials/keychain.ts:990-993 *)
Definition getAsk (id : string) : call (option KeychainAsk) :=
  rec ← get_ask id;
  match rec with None => mret None | Some a => t ← now; a ← freshAsk a t; mret (Some a) end.
(** [listAsks] src/src/credentials/keychain.ts:1000-1002 *)
Definition ask_listed (f : AskListFilter) (a : KeychainAsk) : bool :=
  match f.(af_requesterId) with None => true | Some r => same a.(requesterId) r end
  && match f.(af_ownerId) with None => true | Some o => same a.(a_ownerId) o end
  && match f.(af_scopeId) with None => true | Some sc => a.(requesterScopeId) === sc end.
(** [listAsks] src/src/credentials/keychain.ts:995-1006 *)
Definition listAsks (f : AskListFilter) : call (list KeychainAsk) :=
  t ← now;
  l ← all_asks;
  out ← collect l (fun rec => a ← freshAsk rec t; mret (if ask_listed f a then [a] else []));
  mret (js_sort (fun x y => x.(a_createdAt) - y.(a_createdAt)) out).

(** [approveAsk] src/src/credentials/keychain.ts:1023-1023 *)
Definition approved (t : Z) (grantId : string) (a : KeychainAsk) : KeychainAsk :=
  a <| a_status := a_approved |> <| resolvedAt := Some t |> <| a_grantId := Some grantId |>.
(** [approveAsk] src/src/credentials/keychain.ts:1008-1026 *)
Definition approveAsk (input : ApproveAskInput) : call (KeychainAsk * KeychainGrant) :=
  rec ← get_ask input.(ap_askId);
  rec ← require rec 404 "unknown ask";
  t ← now;
  ask ← freshAsk rec t;
  if ask.(a_status) !== a_pending then fail_with 410 ("ask already " +:+ status_name ask.(a_status))
  else
    g ← mintGrant (MkGrantInput ask.(a_credentialId) input.(ap_ownerId) ask.(requesterScopeId) input.(ap_mode)
                     input.(ap_purpose) input.(ap_expiresAt) (Some ask.(a_id)));
    _ ← merge_ask ask.(a_id) (approved t g.(g_id));
    mret (approved t g.(g_id) ask, g).

(** [declineAsk] src/src/credentials/keychain.ts:1037-1037 *)
Definition declined (t : Z) (note : option string) (a : KeychainAsk) : KeychainAsk :=
  a <| a_status := a_declined |> <| resolvedAt := Some t |> <| a_note := (if is_some note then note else a.(a_note)) |>.
(** [declineAsk] src/src/credentials/keychain.ts:1028-1040 *)
Definition declineAsk (askId ownerId : string) (note : option string) : call KeychainAsk :=
  rec ← get_ask askId;
  rec ← require rec 404 "unknown ask";
  if negb (same rec.(a_ownerId) ownerId) then fail_with 403 "only the credential's owner can decline an ask"
  else
    t ← now;
    ask ← freshAsk rec t;
    if ask.(a_status) !== a_pending then fail_with 410 ("ask already " +:+ status_name ask.(a_status))
    else
      let note := if_truthy (trim <$> note) in
      _ ← merge_ask ask.(a_id) (declined t note);
      mret (declined t note ask).

(** [unnotifiedResolvedAsks] src/src/credentials/keychain.ts:1042-1051 *)
Definition unnotifiedResolvedAsks (nowAt : Z) : call (list KeychainAsk) :=
  l ← all_asks;
  collect l (fun rec =>
    a ← freshAsk rec nowAt;
    if a.(a_status) === a_pending then mret []
    else match a.(notifiedAt) with
         | None => mret [a]
         | Some n => if n <? nowAt - ASK_PRUNE_AFTER_MS then _ ← delete_ask a.(a_id); mret [] else mret []
         end).
(** [markAskNotified] src/src/credentials/keychain.ts:1053-1055 *)
Definition markAskNotified (id : string) : call unit :=
  t ← now; merge_ask id (fun a => a <| notifiedAt := Some t |>).
(** [resolveAsksForGrant] src/src/credentials/keychain.ts:1057-1074 *)
Definition resolveAsksForGrant (g : KeychainGrant) : call (list KeychainAsk) :=
  t ← now;
  l ← all_asks;
  collect l (fun rec =>
    a ← freshAsk rec t;
    if (a.(a_status) !== a_pending) || (a.(a_credentialId) !== g.(g_credentialId)) || (a.(requesterScopeId) !== g.(g_audience))
    then mret []
    else
      let patch a := (approved t g.(g_id) a) <| notifiedAt := Some t |> in
      _ ← merge_ask a.(a_id) patch;
      _ ← merge_grant g.(g_id) (fun x => x <| g_askId := Some a.(a_id) |>);
      mret [patch a]).

(** ** The organisation's service credentials *)

(** [brokerId] src/src/credentials/keychain.ts:504-504 *)
Definition brokerId (orgScopeId slug : string) : string := credId orgScopeId slug "broker".
(** [brokerToPublic] src/src/credentials/keychain.ts:508-508 *)
Definition broker_of (rec : KeychainCredential) : BrokerDelivery :=
  rec.(broker) ?? MkBroker rec.(service) None None None None None true None.
(** [brokerToPublic] src/src/credentials/keychain.ts:507-523 *)
Definition brokerToPublic (rec : KeychainCredential) : PublicServiceCredential :=
  let b := broker_of rec in
  MkPublic rec.(service) b.(b_name) (b.(b_delivery) ?? d_broker) (if_truthy b.(b_envKey)) (rec.(host) ?? "") b.(b_injection)
    b.(b_allowedMethods) b.(b_allowedPathPrefixes) b.(b_enabled) (truthy rec.(secretEnc)) (if_truthy b.(b_updatedBy))
    rec.(c_updatedAt).

(** [m.toUpperCase()] of a method. *)
Fixpoint upper (s : string) : string :=
  match s with
  | "" => ""
  | String c s =>
      let n := N_of_ascii c in
      (if N.eqb n 223 then "SS"
       else String (if N.eqb n 181 || N.eqb n 255 then ascii_of_N 191
                    else if is_lower c || (N.leb 224 n && negb (N.eqb n 247)) then ascii_of_N (n - 32) else c) "") +:+ upper s
  end.
(** [serviceCredentialRecord] src/src/credentials/keychain.ts:529-567 *)
Definition serviceCredentialRecord (orgScopeId : ScopeId) (input : ServiceCredentialInput) (prior : option KeychainCredential)
    (now : Z) : result Error KeychainCredential :=
  let secret := if_truthy (trim <$> input.(sc_secret)) in
  let t := Z.max now (((c_updatedAt <$> prior) ?? 0) + 1) in
  let delivery := input.(sc_delivery) ?? d_broker in
  if (delivery === d_env) && (negb (truthy_opt input.(sc_envKey)) || negb (isValidServiceCredentialEnvKey (input.(sc_envKey) ?? "")))
  then Throw (OtherError ("env-delivery credential " +:+ input.(slug) +:+ " needs an UPPER_SNAKE_CASE envKey outside AGENT_* (got "
                            +:+ h.(stringify) (match input.(sc_envKey) with Some k => JStr k | None => JNull end) +:+ ")"))
  else if (delivery !== d_env) && truthy_opt input.(sc_envKey)
  then Throw (OtherError ("broker-delivery credential " +:+ input.(slug) +:+ " must not carry an envKey"))
  else
    Ok (MkCred (brokerId orgScopeId input.(slug)) orgScopeId (Some (orgIdOf orgScopeId)) input.(slug) k_broker None None None
          (Some input.(sc_host)) None None
          (Some (MkBroker input.(sc_name) (if delivery === d_env then Some d_env else None)
                   (if delivery === d_env then input.(sc_envKey) else None) input.(sc_injection)
                   (map upper <$> input.(sc_allowedMethods)) input.(sc_allowedPathPrefixes)
                   (input.(sc_enabled) !== Some false) (if_truthy input.(sc_updatedBy))))
          None false
          (match secret with Some x => h.(encryptSecret) x | None => (secretEnc <$> prior) ?? "" end)
          (match secret with Some x => fingerprintOf x | None => (fingerprint <$> prior) ?? "" end)
          None None ((c_createdAt <$> prior) ?? t) t None).

(** [setServiceCredential] src/src/credentials/keychain.ts:1076-1080
    With [brokerRecord] (525-527). *)
Definition setServiceCredential (orgScopeId : ScopeId) (input : ServiceCredentialInput) : call unit :=
  prior ← get_cred (brokerId orgScopeId input.(slug));
  t ← now;
  rec ← lift (serviceCredentialRecord orgScopeId input prior t);
  put_cred rec.(c_id) rec.
(** [setServiceCredentialIfAbsent] src/src/credentials/keychain.ts:1082-1086 *)
Definition setServiceCredentialIfAbsent (orgScopeId : ScopeId) (input : ServiceCredentialInput) : call (option Z) :=
  t ← now;
  rec ← lift (serviceCredentialRecord orgScopeId input None t);
  b ← await (on_creds (fun m => dm_insertIfAbsent rec.(c_id) rec m));
  mret (if (b : bool) then Some rec.(c_updatedAt) else None).
(** [setServiceCredentialIfCurrent] src/src/credentials/keychain.ts:1092-1092
    And the other writes that name the version they replace. *)
Definition is_current (orgScopeId : ScopeId) (expectedUpdatedAt : Z) (c : KeychainCredential) : bool :=
  (c.(c_kind) === k_broker) && (c.(c_ownerId) === orgScopeId) && (c.(c_updatedAt) =? expectedUpdatedAt).
(** [setServiceCredentialIfCurrent] src/src/credentials/keychain.ts:1091-1097 *)
Definition update_current (orgScopeId : ScopeId) (input : ServiceCredentialInput) (expectedUpdatedAt t : Z) (m : Mc)
  : result Error (option Z) * Mc :=
  let id := brokerId orgScopeId input.(slug) in
  match dm_get id m with
  | None => (Ok None, m)
  | Some prior =>
      if negb (is_current orgScopeId expectedUpdatedAt prior) then (Ok None, dm_put id prior m)
      else match serviceCredentialRecord orgScopeId input (Some prior) t with
           | Ok next => (Ok (Some next.(c_updatedAt)), dm_put id next m)
           | Throw e => (Throw e, m)
           end
  end.
(** [setServiceCredentialIfCurrent] src/src/credentials/keychain.ts:1088-1099 *)
Definition setServiceCredentialIfCurrent (orgScopeId : ScopeId) (input : ServiceCredentialInput) (expectedUpdatedAt : Z)
  : call (option Z) :=
  t ← now;
  r ← await (on_creds (update_current orgScopeId input expectedUpdatedAt t));
  lift r.
(** [listServiceCredentials] src/src/credentials/keychain.ts:1101-1105 *)
Definition listServiceCredentials (orgScopeId : ScopeId) : call (list PublicServiceCredential) :=
  l ← all_creds;
  mret (map brokerToPublic (js_filter (fun c => (c.(c_kind) === k_broker) && (c.(c_ownerId) === orgScopeId)) l)).
(** [deleteServiceCredential] src/src/credentials/keychain.ts:1107-1109 *)
Definition deleteServiceCredential (orgScopeId slug : string) : call unit := delete_cred (brokerId orgScopeId slug).
(** [deleteServiceCredentialIfCurrent] src/src/credentials/keychain.ts:1111-1117 *)
Definition deleteServiceCredentialIfCurrent (orgScopeId slug : string) (expectedUpdatedAt : Z) : call bool :=
  await (on_creds (dm_deleteIf (brokerId orgScopeId slug) (is_current orgScopeId expectedUpdatedAt))).
(** [getServiceCredentialSecret] src/src/credentials/keychain.ts:1119-1135 *)
Definition getServiceCredentialSecret (orgScopeId slug : string) : call (option DecryptedServiceCredential) :=
  rec ← get_cred (brokerId orgScopeId slug);
  match rec with
  | None => mret None
  | Some rec =>
      if negb (truthy rec.(secretEnc)) then mret None
      else
        let b := broker_of rec in
        match h.(decryptSecret) rec.(secretEnc) with
        | None => Raise (OtherError "decrypt")
        | Some secret =>
            mret (Some (MkDecrypted rec.(service) b.(b_name) secret (b.(b_delivery) ?? d_broker) (if_truthy b.(b_envKey))
                          (rec.(host) ?? "") b.(b_injection) b.(b_allowedMethods) b.(b_allowedPathPrefixes) b.(b_enabled)))
        end
  end.

(** ** Tokens of connected apps *)

(** [oauthSkew] src/src/credentials/keychain.ts:435-435 *)
Definition oauthSkew : Z := h.(oauthSkewMs) ?? 60000.
(** [oauthRefreshMargin] src/src/credentials/keychain.ts:436-436 *)
Definition oauthRefreshMargin : Z := Z.max (h.(oauthRefreshMarginMs) ?? 10 * 60000) oauthSkew.
(** [oauthId] src/src/credentials/keychain.ts:570-571 *)
Definition oauthId (host principalId : string) (accountType : option string) : string :=
  credId principalId (to_lower host) (oauthSlot accountType).

(** [putConnectorToken] src/src/credentials/keychain.ts:580-605
    The record of a token. *)
Definition token_record (host principalId : string) (token : OAuthToken) (accountType : option string)
    (prior : option KeychainCredential) (t : Z) : KeychainCredential :=
  let at_ := match token.(t_accountType) with Some a => Some a | None => accountType end in
  MkCred (oauthId host principalId accountType) principalId (Some (token.(t_orgId) ?? h.(configOrgId))) (to_lower host)
    k_env None None None (Some (to_lower host)) None None None
    (Some (MkRefresh (h.(encryptSecret) <$> if_truthy token.(refreshToken)) (if_truthy at_) (if_truthy token.(t_clientRef))
             token.(t_grantedScopes) None None (if_truthy token.(t_orgId))))
    true (h.(encryptSecret) token.(accessToken)) (fingerprintOf token.(accessToken)) (Some "connector-oauth")
    token.(t_expiresAt) ((c_createdAt <$> prior) ?? t) t None.
(** [putConnectorToken] src/src/credentials/keychain.ts:574-608 *)
Definition putConnectorToken (host principalId : string) (token : OAuthToken) (accountType : option string)
  : call KeychainCredential :=
  t ← now;
  prior ← get_cred (oauthId host principalId accountType);
  let rec := token_record host principalId token accountType prior t in
  _ ← put_cred rec.(c_id) rec;
  mret rec.
(** [connectorRecord] src/src/credentials/keychain.ts:610-616 *)
Definition connectorRecord (host principalId : string) (accountType : option string) : call (option KeychainCredential) :=
  get_cred (oauthId host principalId accountType).

(** A part of the refresh data of a record. *)
Definition refresh_of {A} (f : CredentialRefresh -> option A) (rec : KeychainCredential) : option A := rec.(refresh) ≫= f.
(** [recToOAuthToken] src/src/credentials/keychain.ts:618-628
    [None] when a decryption throws. *)
Definition recToOAuthToken (rec : KeychainCredential) : option OAuthToken :=
  access ← h.(decryptSecret) rec.(secretEnc);
  rt ← match if_truthy (refresh_of refreshTokenEnc rec) with
       | Some e => x ← h.(decryptSecret) e; Some (Some x)
       | None => Some None
       end;
  Some (MkToken access rt rec.(c_expiresAt) (refresh_of rf_grantedScopes rec) (if_truthy (refresh_of rf_clientRef rec))
          (if_truthy (refresh_of rf_accountType rec)) (if_truthy (refresh_of rf_orgId rec))).

(** [markConnectorRefreshFailure] src/src/credentials/keychain.ts:635-643 *)
Definition markConnectorRefreshFailure (rec : KeychainCredential) (message : string) : call unit :=
  t ← now;
  current ← get_cred rec.(c_id);
  match current with
  | None => mret tt
  | Some c =>
      if negb (c.(c_updatedAt) =? rec.(c_updatedAt)) || (c.(fingerprint) !== rec.(fingerprint)) then mret tt
      else
        let r := c.(refresh) ?? MkRefresh None None None None None None None in
        merge_cred rec.(c_id) (fun x =>
          x <| refresh := Some (r <| refreshFailedAt := Some t |> <| refreshError := Some message |>) |> <| c_updatedAt := t |>)
  end.

(** [refreshAndStore] src/src/credentials/keychain.ts:659-664
    What is stored: the answer over what was known; an answer leaves out what it does not say. *)
Definition merged_token (stored fresh : OAuthToken) : OAuthToken :=
  MkToken fresh.(accessToken) fresh.(refreshToken) fresh.(t_expiresAt) fresh.(t_grantedScopes)
    (if is_some fresh.(t_clientRef) then fresh.(t_clientRef) else stored.(t_clientRef))
    (if is_some fresh.(t_accountType) then fresh.(t_accountType) else stored.(t_accountType))
    (if is_some fresh.(t_orgId) then fresh.(t_orgId) else stored.(t_orgId)).

(** The provider answers a refresh it was asked for. *)
Definition provider_answers (key : string * string) (s : St) : option (result string OAuthToken * St) :=
  match s.(answers) with
  | [] => None
  | a :: l => Some (a, s <| answers := l |> <| outstanding := js_filter (fun k => k !== key) s.(outstanding) |>)
  end.

(** [refreshAndStore] src/src/credentials/keychain.ts:652-680
    From the request at the provider on, which is under way. *)
Definition refreshAndStore (host principalId : string) (accountType : option string) (rec : KeychainCredential)
    (stored : OAuthToken) : call (option string) :=
  answer ← await (provider_answers (h.(self), rec.(c_id)));
  let failed message := _ ← markConnectorRefreshFailure rec (storedRefreshError message); mret None in
  match answer with
  | Throw e => failed e
  | Ok fresh =>
      if negb (truthy fresh.(accessToken)) then failed "refresh returned an empty access token"
      else
        let merged := merged_token stored fresh in
        _ ← putConnectorToken host principalId merged accountType;
        mret (Some merged.(accessToken))
  end.

(** [oauthExpired] src/src/credentials/keychain.ts:682-683 *)
Definition oauthExpired (rec : KeychainCredential) (t : Z) : bool :=
  match rec.(c_expiresAt) with Some e => t >=? e - oauthSkew | None => false end.
(** [connectorTokenForRecord] src/src/credentials/keychain.ts:687-687 *)
Definition refreshable (rec : KeychainCredential) : option string :=
  if truthy_opt (refresh_of refreshTokenEnc rec) && h.(refreshes) then if_truthy rec.(host) else None.

(** [connectorTokenForRecord] src/src/credentials/keychain.ts:689-694
    Without an await in between: the refresh under way, or a new one, which asks the provider
    at once ([refreshAndStore], 651-655) unless the record does not decrypt. *)
Definition begin_refresh (rec : KeychainCredential) (s : St) : option (nat * bool * St) :=
  let key := (h.(self), rec.(c_id)) in
  match s.(inflight) !! key with
  | Some p => Some (p, false, s)
  | None =>
      let p := length s.(promises) in
      Some (p, true, s <| inflight := <[key := p]> s.(inflight) |> <| promises := (s.(promises) ++ [None])%list |>
                       <| outstanding := (match recToOAuthToken rec with
                                          | Some _ => s.(outstanding) ++ [key] | None => s.(outstanding) end)%list |>)
  end.
(** [connectorTokenForRecord] src/src/credentials/keychain.ts:694-694
    The refresh has ended: its promise is settled and it is no longer under way. *)
Definition end_refresh (rec : KeychainCredential) (p : nat) (v : option string) (s : St) : option (unit * St) :=
  Some (tt, s <| promises := <[p := Some v]> s.(promises) |> <| inflight := delete (h.(self), rec.(c_id)) s.(inflight) |>).
Definition await_promise (p : nat) (s : St) : option (option string * St) :=
  match s.(promises) !! p with Some (Some v) => Some (v, s) | _ => None end.

(** [connectorTokenForRecord] src/src/credentials/keychain.ts:685-700 *)
Definition connectorTokenForRecord (rec : KeychainCredential) : call (option string) :=
  t ← now;
  match refreshable rec with
  | Some host =>
      if match rec.(c_expiresAt) with Some e => t >=? e - oauthRefreshMargin | None => false end
      then
        r ← await (begin_refresh rec);
        let '(p, mine) := (r : nat * bool) in
        if mine then
          v ← match recToOAuthToken rec with
              | Some stored => refreshAndStore host rec.(c_ownerId) (refresh_of rf_accountType rec) rec stored
              | None => mret None
              end;
          _ ← await (end_refresh rec p v);
          mret v
        else await (await_promise p)
      else mret (h.(decryptSecret) rec.(secretEnc))
  | None => if oauthExpired rec t then mret None else mret (h.(decryptSecret) rec.(secretEnc))
  end.

(** [needsReconnect] src/src/credentials/keychain.ts:702-712 *)
Definition needsReconnect (rec : KeychainCredential) (t : Z) : bool :=
  oauthExpired rec t && (negb (truthy_opt (refresh_of refreshTokenEnc rec)) || is_some (refresh_of refreshFailedAt rec)).
(** [connectorMeta] src/src/credentials/keychain.ts:701-714 *)
Definition connectorMeta (t : Z) (rec : KeychainCredential) : ConnectorMeta :=
  MkConnectorMeta rec.(c_id) rec.(c_ownerId) (rec.(host) ?? rec.(service)) (if_truthy (refresh_of rf_accountType rec))
    rec.(c_expiresAt) (needsReconnect rec t).
(** [connectorTokenStatus] src/src/credentials/keychain.ts:1145-1162 *)
Definition connectorTokenStatus (host principalId : string) (accountType : option string) : call (option OAuthTokenStatus) :=
  rec ← connectorRecord host principalId accountType;
  match rec with
  | None => mret None
  | Some rec =>
      t ← now;
      let failed := refresh_of refreshFailedAt rec in
      mret (Some (MkTokenStatus rec.(c_expiresAt) (truthy_opt (refresh_of refreshTokenEnc rec)) (needsReconnect rec t) failed
                    (if is_some failed then if_truthy (refresh_of refreshError rec) else None)
                    (if_truthy (refresh_of rf_accountType rec)) (refresh_of rf_grantedScopes rec)))
  end.
(** [setConnectorToken] src/src/credentials/keychain.ts:1137-1139 *)
Definition setConnectorToken (host principalId : string) (token : OAuthToken) (accountType : option string) : call unit :=
  _ ← putConnectorToken host principalId token accountType; mret tt.
(** [deleteConnectorToken] src/src/credentials/keychain.ts:1141-1143 *)
Definition deleteConnectorToken (host principalId : string) (accountType : option string) : call unit :=
  deleteCredential (oauthId host principalId accountType).
(** [connectorAccessToken] src/src/credentials/keychain.ts:1164-1168 *)
Definition connectorAccessToken (host principalId : string) (accountType : option string) : call (option string) :=
  rec ← connectorRecord host principalId accountType;
  match rec with None => mret None | Some rec => connectorTokenForRecord rec end.
(** [listConnectorsByOwners] src/src/credentials/keychain.ts:1170-1178 *)
Definition listConnectorsByOwners (ownerIds : list string) : call (jsmap string (list ConnectorMeta)) :=
  t ← now;
  l ← all_creds;
  mret (bucketByOwner l ownerIds managed (connectorMeta t)).
(** [grantConnectorToScope] src/src/credentials/keychain.ts:912-921 *)
Definition standing_grant (id : string) (scope : ScopeId) (g : KeychainGrant) : bool :=
  (g.(g_credentialId) === id) && (g.(g_audience) === scope) && (g.(g_mode) === standing) && (g.(g_status) === g_active).
(** [grantConnectorToScope] src/src/credentials/keychain.ts:908-923 *)
Definition grantConnectorToScope (host principalId : string) (accountType : option string) (scope : ScopeId) (purpose : string)
  : call (option KeychainGrant) :=
  let id := oauthId host principalId accountType in
  cred ← get_cred id;
  match cred with
  | None => mret None
  | Some _ =>
      l ← all_grants;
      match find (standing_grant id scope) l with
      | Some g => mret (Some g)
      | None => g ← mintGrant (MkGrantInput id principalId scope standing purpose None None); mret (Some g)
      end
  end.

(** ** Loading a secret *)

(** [materializeConnectorEnv] src/src/credentials/keychain.ts:784-803 *)
Definition materializeConnectorEnv (cred : KeychainCredential) (extra : option (string * string)) : call MaterializedCred :=
  value ← (if truthy_opt cred.(host) then connectorTokenForRecord cred else mret None);
  match if_truthy value, if_truthy cred.(host) with
  | Some v, Some hst =>
      mret (MkLoaded cred.(c_id) cred.(c_ownerId) cred.(service) (l_env [(envKey hst, v)]) extra)
  | _, _ => fail_with 410 "connector token expired and could not be refreshed — its owner must reconnect the app"
  end.

(** [materialize] src/src/credentials/keychain.ts:1180-1202 *)
Definition materialize (grantId : string) (scopeId : ScopeId) (by_ : string) : call MaterializedCred :=
  g ← get_grant grantId;
  g ← require g 404 "unknown grant";
  t ← now;
  match grant_refusal g scopeId t with
  | Some e => Raise e
  | None =>
      cred ← get_cred g.(g_credentialId);
      cred ← require cred 404 "credential no longer exists";
      if cred.(c_kind) === k_broker then
        fail_with 403 "broker credentials are not grantable — they are used via the credential broker"
      else
        let extra := Some (g.(g_id), g.(g_purpose)) in
        if cred.(managed) then
          m ← materializeConnectorEnv cred extra;
          _ ← claimOnceGrant g scopeId by_;
          mret m
        else
          t ← now;
          if credExpired cred t then fail_with 410 "credential is expired"
          else
            m ← materializeDecrypted cred extra;
            _ ← claimOnceGrant g scopeId by_;
            mret m
  end.

(** [materializeOwnById] src/src/credentials/keychain.ts:1204-1219 *)
Definition materializeOwnById (ownerId credentialId : string) (scope : ScopeId) : call MaterializedCred :=
  if scope !== scopeId personal ownerId then
    fail_with 403 "a credential id loads only in its owner's own personal conversation — anywhere else needs a grant from the owner"
  else
    cred ← get_cred credentialId;
    match cred with
    | None => fail_with 404 "unknown credential"
    | Some cred =>
        if negb (same cred.(c_ownerId) ownerId) then fail_with 404 "unknown credential"
        else if cred.(c_kind) === k_broker then
          fail_with 403 "broker credentials are used via the credential broker, never materialized"
        else if cred.(managed) then materializeConnectorEnv cred None
        else
          t ← now;
          if credExpired cred t then fail_with 410 "credential is expired" else materializeDecrypted cred None
    end.

(** [materializeOwn] src/src/credentials/keychain.ts:1221-1227 *)
Definition materializeOwn (ownerId : string) : call (list MaterializedCred) :=
  t ← now;
  l ← all_creds;
  mret (omap (fun c => decryptToEnv c None)
    (js_filter (fun c => same c.(c_ownerId) ownerId && (c.(c_kind) === k_env) && negb c.(managed) && negb (expired c.(c_expiresAt) t)) l)).
(** [materializeOwnFiles] src/src/credentials/keychain.ts:1229-1234 *)
Definition materializeOwnFiles (ownerId : string) : call (list MaterializedCred) :=
  l ← all_creds;
  mret (omap (fun c => decryptToFiles c None)
    (js_filter (fun c => same c.(c_ownerId) ownerId && (c.(c_kind) === k_file) && negb c.(managed)) l)).

(** [materializeStanding] src/src/credentials/keychain.ts:1236-1261 *)
Definition materializeStanding (scopeId : ScopeId) : call (list MaterializedCred) :=
  l ← activeGrantsFor scopeId;
  collect l (fun g =>
    if g.(g_mode) !== standing then mret []
    else
      cred ← get_cred g.(g_credentialId);
      match cred with
      | None => mret []
      | Some cred =>
          let extra := Some (g.(g_id), g.(g_purpose)) in
          if cred.(c_kind) !== k_env then mret []
          else if cred.(managed) then
            value ← (if truthy_opt cred.(host) then connectorTokenForRecord cred else mret None);
            mret match if_truthy value, if_truthy cred.(host) with
                 | Some v, Some hst => [MkLoaded cred.(c_id) cred.(c_ownerId) cred.(service) (l_env [(envKey hst, v)]) extra]
                 | _, _ => []
                 end
          else
            t ← now;
            if credExpired cred t then mret []
            else mret match decryptToEnv cred extra with Some m => [m] | None => [] end
      end).
End keychain.
