(* ===== verification/KeychainScript.v ===== *)
(** * What the keychain hands out: scripts and notices

    The shell script a loaded credential becomes ([renderUseScript]) and the text of the notice
    to an owner ([renderAskNotice]), of [src/src/credentials/keychain.ts].  The script is read
    back with the scanner of the command policy ([ShellScan]). *)

From stdpp Require Import pretty.
From S2P Require Import Prelude JsString Regex Scope ShellScan Keychain.

#[local] Open Scope string_scope.
#[local] Open Scope Z_scope.

(** ** The script *)

Fixpoint shq_body (s : string) : string :=
  match s with "" => "" | String c s => (if c === squote then "'\''" else String c "") +:+ shq_body s end.
(** [shq] src/src/util/shell.ts:1-1 *)
Definition shq (s : string) : string := "'" +:+ shq_body s +:+ "'".

Definition not_slash (c : ascii) : bool := c !== "/"%char.
Definition at_start : re := Grp 1 (Bol false ∥ chr "/")%re.
Definition pointer (name abs : string) : string := "export " +:+ name +:+ "=" +:+ dq +:+ abs +:+ dq.
(** Without the end of the path that the expression matches. *)
Definition without (tail abs : string) : string := replace_first (lit tail ⋅ Eol false)%re (fun _ => "") abs.
(** [FILE_ENV_POINTERS] src/src/credentials/keychain.ts:1265-1278 *)
Definition FILE_ENV_POINTERS : list (re * (string -> string)) :=
  [((at_start ⋅ lit ".aws/credentials" ⋅ Eol false)%re, pointer "AWS_SHARED_CREDENTIALS_FILE");
   ((at_start ⋅ lit ".aws/config" ⋅ Eol false)%re, pointer "AWS_CONFIG_FILE");
   ((at_start ⋅ lit ".kube/config" ⋅ Eol false)%re, pointer "KUBECONFIG");
   ((at_start ⋅ lit ".config/gh/hosts.yml" ⋅ Eol false)%re, fun abs => pointer "GH_CONFIG_DIR" (without "/hosts.yml" abs));
   ((at_start ⋅ ((lit ".config/" ⋅ (lit "glab-cli" ∥ lit "glab")) ∥ lit "Library/Application Support/glab-cli") ⋅ lit "/config.yml" ⋅ Eol false)%re,
    fun abs => pointer "GLAB_CONFIG_DIR" (without "/config.yml" abs));
   ((at_start ⋅ lit ".docker/config.json" ⋅ Eol false)%re, fun abs => pointer "DOCKER_CONFIG" (without "/config.json" abs));
   ((at_start ⋅ lit ".npmrc" ⋅ Eol false)%re, pointer "NPM_CONFIG_USERCONFIG");
   ((at_start ⋅ lit ".netrc" ⋅ Eol false)%re, pointer "NETRC");
   ((at_start ⋅ lit ".ssh/" ⋅ star (Cls not_slash) ⋅ Grp 2 (lit "id_" ∥ lit "key") ⋅ star (Cls not_slash) ⋅ Eol false)%re,
    fun abs => pointer "GIT_SSH_COMMAND" ("ssh -i " +:+ abs +:+ " -o IdentitiesOnly=yes"))].

(** [renderUseScript] src/src/credentials/keychain.ts:1283-1290
    The lines that write a file. *)
Definition file_lines (f : CredentialFile) : list string :=
  let parent := if str_includes f.(path) "/" then replace_first (chr "/" ⋅ star (Cls not_slash) ⋅ Eol false)%re (fun _ => "") f.(path) else "" in
  (if truthy parent then ["mkdir -p " +:+ dq +:+ "$__kc_dir/" +:+ parent +:+ dq] else [])
  ++ ["printf '%s' " +:+ shq f.(contentBase64) +:+ " | base64 -d > " +:+ dq +:+ "$__kc_dir/" +:+ f.(path) +:+ dq;
      "chmod 600 " +:+ dq +:+ "$__kc_dir/" +:+ f.(path) +:+ dq].
(** [renderUseScript] src/src/credentials/keychain.ts:1291-1299
    Each pointer is set by the first file it fits; [pointed] are those set, by position. *)
Fixpoint point_file (f : CredentialFile) (i : nat) (ps : list (re * (string -> string))) (pointed : list nat) : list nat * list string :=
  match ps with
  | [] => (pointed, [])
  | (r, render) :: ps =>
      if test r f.(path) && negb (includes pointed i)
      then let '(pointed, ls) := point_file f (S i) ps (pointed ++ [i])%list in (pointed, render ("$__kc_dir/" +:+ f.(path)) :: ls)
      else point_file f (S i) ps pointed
  end.
Fixpoint point_files (fs : list CredentialFile) (pointed : list nat) : list string :=
  match fs with
  | [] => []
  | f :: fs => let '(pointed, ls) := point_file f 0 FILE_ENV_POINTERS pointed in (ls ++ point_files fs pointed)%list
  end.
Definition nl : string := String lf "".
(** [renderUseScript] src/src/credentials/keychain.ts:1280-1307 *)
Definition renderUseScript (m : Loaded) : string :=
  match m with
  | l_env env => join nl (map (fun e => "export " +:+ e.1 +:+ "=" +:+ shq e.2) env) +:+ nl
  | l_files files _ =>
      let lines := (["__kc_dir=" +:+ dq +:+ "$(mktemp -d " +:+ dq +:+ "${TMPDIR:-/tmp}/keychain.XXXXXX" +:+ dq +:+ ")" +:+ dq; "umask 077"]
                    ++ concat (map file_lines files) ++ point_files files [])%list in
      let lines := if some (fun f => negb (some (fun p => test p.1 f.(path)) FILE_ENV_POINTERS)) files
                   then (lines ++ ["for __e in " +:+ dq +:+ "$HOME" +:+ dq +:+ "/.[!.]* " +:+ dq +:+ "$HOME" +:+ dq +:+ "/*; do [ -e " +:+ dq +:+ "$__e" +:+ dq
                                   +:+ " ] || continue; __b=${__e##*/}; [ -e " +:+ dq +:+ "$__kc_dir/$__b" +:+ dq +:+ " ] || ln -s " +:+ dq +:+ "$__e" +:+ dq
                                   +:+ " " +:+ dq +:+ "$__kc_dir/$__b" +:+ dq +:+ "; done";
                                   "export HOME=" +:+ dq +:+ "$__kc_dir" +:+ dq])%list
                   else lines in
      join nl lines +:+ nl
  end.

(** ** Notices *)

(** [Math.round(n / d)]: halves go up. *)
Definition js_round (n d : Z) : Z := (2 * n + d) / (2 * d).
(** [hoursLeft] src/src/credentials/keychain.ts:1309-1311 *)
Definition hoursLeft (expiresAt now : Z) : Z := Z.max 1 (js_round (expiresAt - now) 3600000).
(** [agoNote] src/src/credentials/keychain.ts:1313-1316 *)
Definition agoNote (createdAt now : Z) : string :=
  let mins := Z.max 1 (js_round (now - createdAt) 60000) in
  if mins <? 60 then pretty mins +:+ "m ago" else pretty (js_round mins 60) +:+ "h ago".
Definition tick (s : string) : string := "`" +:+ s +:+ "`".
(** [renderAskNotice] src/src/credentials/keychain.ts:1318-1332 *)
Definition renderAskNotice (ask : KeychainAsk) (credential : KeychainCredential) (requesterName channelName : option string) (now : Z) : string :=
  let who := if truthy_opt requesterName then (requesterName ?? "") +:+ " (" +:+ ask.(requesterId) +:+ ")" else ask.(requesterId) in
  let place := if truthy_opt channelName then "**#" +:+ (channelName ?? "") +:+ "**" else tick ask.(requesterScopeId) in
  let account := match if_truthy credential.(accountLabel) with Some l => " (" +:+ l +:+ ")" | None => "" end in
  let mode := if ask.(requestedMode) === Some standing then "as a standing grant for that conversation" else "one time" in
  who +:+ " asked in " +:+ place +:+ " to use your **" +:+ credential.(service) +:+ "** credential" +:+ account +:+ ", " +:+ mode +:+ ", for: "
  +:+ dq +:+ ask.(a_purpose) +:+ dq +:+ ". Reply here to approve or decline — only your own reply counts; a yes relayed through "
  +:+ "anyone else doesn't. (ask " +:+ tick ask.(a_id) +:+ ", expires in " +:+ pretty (hoursLeft ask.(a_expiresAt) now) +:+ "h)".

(** ** The script of variables holds nothing but them *)

Definition plain (c : ascii) : bool := is_word c || (c === "="%char).
Lemma plain_cases c : plain c = true ->
  is_space c = false /\ special c = false /\ (c === backslash) = false /\ (c === squote) = false /\ (c === dquote) = false /\
  (c === "$"%char) = false /\ (c === backtick) = false.
Proof. destruct c as [[][][][][][][][]]; vm_compute; intros H; try discriminate H; split_and!; reflexivity. Qed.
Lemma word_loop_char fuel c s word st nested :
  plain c = true -> word_loop (S fuel) (String c s) word st nested = word_loop fuel s (word +:+ String c "") true nested.
Proof.
  intros (E1&E2&E3&E4&E5&E6&E7)%plain_cases. cbn [word_loop]. unfold in_word. by rewrite E1, E2, E3, E4, E5, E6, E7.
Qed.
Lemma word_loop_plain w fuel s word nested :
  str_every plain w = true -> word_loop (len w + fuel) (w +:+ s) word true nested = word_loop fuel s (word +:+ w) true nested.
Proof.
  revert word. induction w as [|c w IH]; intros word H; cbn [String.length Nat.add String.append str_every] in *.
  - by rewrite str_append_nil_r.
  - apply andb_true_iff in H as [Hc H]. rewrite word_loop_char by done. rewrite IH by done. by rewrite str_append_assoc.
Qed.

Fixpoint quotes (s : string) : nat := match s with "" => O | String c s => ((if c === squote then 1 else 0) + quotes s)%nat end.
Lemma first_quote v : quotable v = true \/ exists a v', quotable a = true /\ v = a +:+ String squote v'.
Proof.
  induction v as [|c v IH]; [by left|]. destruct (decide (c = squote)) as [->|Hc]; [right; by exists "", v|].
  assert (Hq : forall a, quotable a = true -> quotable (String c a) = true).
  { intros a Ha. unfold quotable in *. cbn [str_every]. rewrite Ha. by rewrite bool_decide_eq_false_2. }
  destruct IH as [H|(a & v' & Ha & ->)]; [left; auto|right]. exists (String c a), v'. auto.
Qed.
Lemma shq_body_quotable a s : quotable a = true -> shq_body (a +:+ s) = a +:+ shq_body s.
Proof.
  induction a as [|c a IH]; [done|]. unfold quotable. cbn [str_every String.append shq_body]. intros H. apply andb_true_iff in H as [Hc H].
  apply negb_true_iff in Hc. rewrite Hc. by rewrite IH.
Qed.
Lemma quotes_quotable a s : quotable a = true -> quotes (a +:+ s) = quotes s.
Proof.
  induction a as [|c a IH]; [done|]. unfold quotable. cbn [str_every String.append quotes]. intros H. apply andb_true_iff in H as [Hc H].
  apply negb_true_iff in Hc. rewrite Hc. by rewrite IH.
Qed.

Lemma word_loop_quote fuel a s word nested :
  quotable a = true ->
  word_loop (S fuel) (String squote (a +:+ String squote s)) word true nested = word_loop fuel s (word +:+ a) true nested.
Proof.
  intros Ha. cbn [word_loop]. unfold in_word. change (is_space squote) with false. change (special squote) with false.
  change (squote === backslash) with false. change (squote === squote) with true. cbn [negb andb orb]. by rewrite cut_at_quoted.
Qed.
Lemma word_loop_shq n v fuel s word nested :
  (len v <= n)%nat ->
  word_loop (1 + 2 * quotes v + fuel) (String squote (shq_body v +:+ String squote s)) word true nested =
    word_loop fuel s (word +:+ v) true nested.
Proof.
  revert v word. induction n as [n IH] using lt_wf_ind. intros v word Hn. destruct (first_quote v) as [Hq|(a & v' & Ha & ->)].
  - rewrite <- (str_append_nil_r v) at 1 2. rewrite quotes_quotable, shq_body_quotable by done. cbn [quotes shq_body].
    rewrite str_append_nil_r. apply word_loop_quote. done.
  - rewrite quotes_quotable, shq_body_quotable by done. cbn [quotes shq_body]. rewrite eqb_refl.
    replace (1 + 2 * (1 + quotes v') + fuel)%nat with (S (S (1 + 2 * quotes v' + fuel))) by lia.
    rewrite !str_append_assoc. cbn [String.append]. rewrite len_app in Hn. cbn [String.length] in Hn.
    change "'"%char with squote. rewrite word_loop_quote by done.
    set (f := (1 + 2 * quotes v' + fuel)%nat). cbn [word_loop]. unfold in_word. change (is_space "\"%char) with false. change (special "\"%char) with false.
    change ("\"%char === backslash) with true. cbn [negb andb orb]. change (squote === lf) with false. cbv iota. subst f.
    rewrite (IH (len v')) by lia. by rewrite !str_append_assoc.
Qed.

Lemma len_shq_body v : len (shq_body v) = (len v + 3 * quotes v)%nat.
Proof.
  induction v as [|c v IH]; [done|]. cbn [shq_body quotes String.length]. rewrite len_app, IH. destruct (c === squote); simpl; lia.
Qed.
Definition line_of (e : string * string) : string := "export " +:+ e.1 +:+ "=" +:+ shq e.2.
Definition words_of (e : string * string) : list string := ["export"; e.1 +:+ "=" +:+ e.2].

Lemma word_loop_newline fuel word nested t st : word_loop (S fuel) (String lf t) word st nested = Ok (String lf t, word, st, nested).
Proof. done. Qed.
Lemma word_loop_assignment fuel c k v t nested :
  plain c = true -> str_every plain k = true -> (len (String c k +:+ "=" +:+ shq v +:+ String lf t) < fuel)%nat ->
  word_loop fuel (String c k +:+ "=" +:+ shq v +:+ String lf t) "" false nested =
    Ok (String lf t, String c k +:+ "=" +:+ v, true, nested).
Proof.
  intros Hc Hk Hf. unfold shq in *. rewrite !len_app, len_shq_body in Hf. cbn [String.length] in Hf. rewrite ?len_app, ?len_shq_body in Hf. cbn [String.length] in Hf.
  replace fuel with (S (len k + (1 + (1 + 2 * quotes v + S (fuel - 4 - len k - 2 * quotes v)))))%nat by lia.
  cbn [String.append]. rewrite word_loop_char by done. rewrite word_loop_plain by done. cbn [String.append].
  change (1 + (1 + 2 * quotes v + S (fuel - 4 - len k - 2 * quotes v)))%nat with (S (1 + 2 * quotes v + S (fuel - 4 - len k - 2 * quotes v)))%nat.
  rewrite word_loop_char by done. rewrite !str_append_assoc. cbn [String.append]. change "'"%char with squote.
  rewrite (word_loop_shq (len v)) by lia. rewrite word_loop_newline. cbn [String.append]. by rewrite !str_append_assoc.
Qed.

Lemma scan_space fuel t cmds ws n : scan_loop (S fuel) (String " " t) cmds ws n = scan_loop fuel t cmds ws n.
Proof. done. Qed.
Lemma scan_newline fuel t cmds ws n : scan_loop (S fuel) (String lf t) cmds ws n = scan_loop fuel t (flush cmds ws) [] n.
Proof. done. Qed.
Lemma scan_word fuel c s cmds ws n r w n' :
  plain c = true -> word_loop (S (len (String c s))) (String c s) "" false n = Ok (r, w, true, n') ->
  scan_loop (S fuel) (String c s) cmds ws n = scan_loop fuel r cmds (ws ++ [w])%list n'.
Proof.
  intros Hc Hw. destruct (plain_cases c Hc) as (E1 & E2 & _). cbn [scan_loop]. rewrite E1, E2.
  destruct (c === "#"%char) eqn:Eh; [apply bool_decide_eq_true in Eh; subst c; discriminate Hc|]. cbn [andb]. by rewrite Hw.
Qed.
Lemma scan_line fuel e t cmds :
  e.1 <> "" -> str_every plain e.1 = true ->
  scan_loop (4 + fuel) (line_of e +:+ String lf t) cmds [] [] = scan_loop fuel t (cmds ++ [words_of e])%list [] [].
Proof.
  destruct e as [k v]. cbn [fst snd]. intros Hne Hk. unfold line_of, words_of. cbn [fst snd]. destruct k as [|c k]; [done|].
  cbn [str_every] in Hk. apply andb_true_iff in Hk as [Hc Hk].
  rewrite !str_append_assoc. change (4 + fuel)%nat with (S (S (S (S fuel)))). set (u := String c k +:+ "=" +:+ shq v +:+ String lf t).
  change ("export " +:+ u) with (String "e" ("xport" +:+ String " " u)).
  rewrite (scan_word _ _ _ _ _ _ (String " " u) "export" []) by done. rewrite scan_space.
  change u with (String c (k +:+ "=" +:+ shq v +:+ String lf t)) at 1.
  rewrite (scan_word _ _ _ _ _ _ (String lf t) (String c k +:+ "=" +:+ v) []); [by rewrite scan_newline|done|].
  apply (word_loop_assignment _ c k); [done|done|]. cbn [String.append String.length]. lia.
Qed.

Lemma scan_lines env fuel cmds :
  (forall e, e ∈ env -> e.1 <> "" /\ str_every plain e.1 = true) -> (4 * length env < fuel)%nat ->
  scan_loop fuel (foldr (fun e t => line_of e +:+ String lf t) "" env) cmds [] [] = Ok (MkScan (cmds ++ map words_of env)%list []).
Proof.
  revert fuel cmds. induction env as [|e env IH]; intros fuel cmds He Hf; cbn [foldr length map] in *.
  - destruct fuel; [lia|]. cbn. by rewrite app_nil_r.
  - destruct (He e (list_elem_of_here _ _)) as [H1 H2]. replace fuel with (4 + (fuel - 4))%nat by lia. rewrite scan_line by done.
    rewrite IH; [by rewrite <- app_assoc| |lia]. intros x Hx. apply He. by apply list_elem_of_further.
Qed.
Lemma join_lines x l : join nl (x :: l) +:+ nl = foldr (fun s t => s +:+ String lf t) "" (x :: l).
Proof.
  revert x. induction l as [|y l IH]; intros x; [done|]. change (join nl (x :: y :: l)) with (x +:+ nl +:+ join nl (y :: l)).
  rewrite !str_append_assoc, IH. done.
Qed.
Lemma script_env env : env <> [] -> renderUseScript (l_env env) = foldr (fun e t => line_of e +:+ String lf t) "" env.
Proof.
  destruct env as [|e env]; [done|]. intros _. unfold renderUseScript. cbn [map]. rewrite join_lines.
  change ("export " +:+ e.1 +:+ "=" +:+ shq e.2) with (line_of e). cbn [foldr]. f_equal. f_equal.
  induction env as [|e' env IH]; [done|]. cbn [map foldr]. by rewrite IH.
Qed.
Lemma len_script env : (7 * length env <= len (foldr (fun e t => line_of e +:+ String lf t) "" env))%nat.
Proof. induction env as [|e env IH]; cbn [foldr length]; [simpl; lia|]. unfold line_of at 1. rewrite !len_app. cbn [String.length]. lia. Qed.

(** C15: A secret cannot become a command.  The script a turn sources to use a credential of
    variables is read by the shell scanner as one [export] for each variable, whose words are
    the name and exactly the value, whatever characters the value is made of; nothing else is
    run, and nothing nested.  Names are those a credential can have: letters, digits and
    underscores. *)
Theorem env_script_exact env :
  env <> [] -> (forall e, e ∈ env -> ENV_KEY_RE e.1 = true) ->
  scanShell (renderUseScript (l_env env)) = Ok (MkScan (map (fun e => ["export"; e.1 +:+ "=" +:+ e.2]) env) []).
Proof.
  intros Hne He. rewrite script_env by done. unfold scanShell.
  rewrite (scan_lines env); [done| |pose proof (len_script env); lia].
  intros [k v] Hin. specialize (He _ Hin). cbn [fst] in *. destruct k as [|c k]; [done|]. split; [done|].
  cbn [ENV_KEY_RE] in He. apply andb_true_iff in He as [Hc Hk]. cbn [str_every]. apply andb_true_iff. split.
  - unfold plain, is_word. apply orb_true_iff in Hc as [->| ->]; [done|]. by rewrite orb_true_r.
  - clear - Hk. induction k as [|d k IH]; [done|]. cbn [str_every] in *. apply andb_true_iff in Hk as [Hd Hk]. unfold plain at 1.
    rewrite Hd. cbn [orb andb]. auto.
Qed.
Lemma env_script_exact_witness :
  ENV_KEY_RE "API_KEY" = true /\ scanShell (renderUseScript (l_env [("API_KEY", "a'; rm -rf $(pwd) #"); ("B", "")])) =
    Ok (MkScan [["export"; "API_KEY=a'; rm -rf $(pwd) #"]; ["export"; "B="]] []).
Proof.
  split; [reflexivity|]. apply env_script_exact; [discriminate|]. intros e He. rewrite !elem_of_cons in He.
  destruct He as [->|[->|He%not_elem_of_nil]]; [reflexivity|reflexivity|done].
Defined.

(** The path of a file is not held to that: it stands between double quotes as it was saved,
    and a path may hold a substitution.  Whoever uses the credential runs it. *)
Example path_runs :
  homeRelativePath ".aws/$(id)" = Some ".aws/$(id)" /\ match scanShell (renderUseScript (l_files [MkFile ".aws/$(id)" "QQ=="] None)) with
  | Ok sc => includes sc.(nested) "id"
  | Throw _ => false
  end = true.
Proof. vm_compute. split; reflexivity. Qed.
