(* ===== verification/KeychainSafety.v ===== *)
(** * The keychain under interleaving

    Calls of the keychain ([Keychain]) interleave at their awaits, in any number and from any
    number of processes.  What is loaded for a conversation was granted for it, by the owner of
    the credential, and a one-time grant is used once. *)

From S2P Require Import Prelude JsString Scope Turn DurableMap Async Keychain.

#[local] Open Scope string_scope.
#[local] Open Scope Z_scope.

(** ** The methods *)

Inductive Req :=
| q_save (i : SaveCredentialInput)
| q_remove (ownerId id : string)
| q_createGrant (i : CreateGrantInput)
| q_grantConnector (host principalId : string) (accountType : option string) (scope : ScopeId) (purpose : string)
| q_listGrants (f : GrantListFilter)
| q_revokeGrant (ownerId grantId : string)
| q_grantsForScope (scope : ScopeId)
| q_createAsk (newId : string) (i : CreateAskInput)
| q_getAsk (id : string)
| q_listAsks (f : AskListFilter)
| q_approveAsk (i : ApproveAskInput)
| q_declineAsk (askId ownerId : string) (note : option string)
| q_unnotified (now : Z)
| q_markNotified (id : string)
| q_resolveAsks (g : KeychainGrant)
| q_setService (org_ : ScopeId) (i : ServiceCredentialInput)
| q_setServiceIfAbsent (org_ : ScopeId) (i : ServiceCredentialInput)
| q_setServiceIfCurrent (org_ : ScopeId) (i : ServiceCredentialInput) (expected : Z)
| q_deleteService (org_ slug : string)
| q_deleteServiceIfCurrent (org_ slug : string) (expected : Z)
| q_getService (org_ slug : string)
| q_setToken (host principalId : string) (token : OAuthToken) (accountType : option string)
| q_deleteToken (host principalId : string) (accountType : option string)
| q_accessToken (host principalId : string) (accountType : option string)
| q_materialize (grantId : string) (scope : ScopeId) (by_ : string)
| q_materializeOwnById (ownerId credentialId : string) (scope : ScopeId)
| q_materializeOwn (ownerId : string)
| q_materializeOwnFiles (ownerId : string)
| q_materializeStanding (scope : ScopeId).

(** An answer, as far as the theorems look at it. *)
Inductive Resp := r_done | r_loaded (m : MaterializedCred) | r_many (l : list MaterializedCred).

Create HintDb keychain discriminated.

Section safety.
Context {Mc Mg Ma : Type} `{!DurableMap Mc KeychainCredential} `{!DurableMap Mg KeychainGrant} `{!DurableMap Ma KeychainAsk}.
Context `{!DurableMapLaws Mc KeychainCredential} `{!DurableMapLaws Mg KeychainGrant} `{!DurableMapLaws Ma KeychainAsk}.
Variable h : Host.
Abbreviation St := (Keychain Mc Mg Ma).
Abbreviation call := (call St Error).

Definition quiet {A} (c : call A) : call Resp := _ ← c; mret r_done.
(** The method of a request; [self] is the process whose keychain is called. *)
Definition serve (p : string * Req) : call Resp :=
  let h := MkHost h.(encryptSecret) h.(decryptSecret) h.(hashId) h.(stringify) h.(parse) h.(configOrgId) h.(refreshes)
             h.(oauthSkewMs) h.(oauthRefreshMarginMs) p.1 in
  match p.2 with
  | q_save i => quiet (save h i)
  | q_remove o id => quiet (remove o id)
  | q_createGrant i => quiet (mintGrant h i)
  | q_grantConnector host pid at_ sc purpose => quiet (grantConnectorToScope h host pid at_ sc purpose)
  | q_listGrants f => quiet (listGrants f)
  | q_revokeGrant o id => quiet (revokeGrant o id)
  | q_grantsForScope sc => quiet (grantsForScope sc)
  | q_createAsk id i => quiet (createAsk h id i)
  | q_getAsk id => quiet (getAsk id)
  | q_listAsks f => quiet (listAsks f)
  | q_approveAsk i => quiet (approveAsk h i)
  | q_declineAsk id o note => quiet (declineAsk id o note)
  | q_unnotified t => quiet (unnotifiedResolvedAsks t)
  | q_markNotified id => quiet (markAskNotified id)
  | q_resolveAsks g => quiet (resolveAsksForGrant g)
  | q_setService o i => quiet (setServiceCredential h o i)
  | q_setServiceIfAbsent o i => quiet (setServiceCredentialIfAbsent h o i)
  | q_setServiceIfCurrent o i e => quiet (setServiceCredentialIfCurrent h o i e)
  | q_deleteService o sl => quiet (deleteServiceCredential h o sl)
  | q_deleteServiceIfCurrent o sl e => quiet (deleteServiceCredentialIfCurrent h o sl e)
  | q_getService o sl => quiet (getServiceCredentialSecret h o sl)
  | q_setToken host pid tok at_ => quiet (setConnectorToken h host pid tok at_)
  | q_deleteToken host pid at_ => quiet (deleteConnectorToken h host pid at_)
  | q_accessToken host pid at_ => quiet (connectorAccessToken h host pid at_)
  | q_materialize g sc by_ => m ← materialize h g sc by_; mret (r_loaded m)
  | q_materializeOwnById o c sc => m ← materializeOwnById h o c sc; mret (r_loaded m)
  | q_materializeOwn o => l ← materializeOwn h o; mret (r_many l)
  | q_materializeOwnFiles o => l ← materializeOwnFiles h o; mret (r_many l)
  | q_materializeStanding sc => l ← materializeStanding h sc; mret (r_many l)
  end.

(** ** What every call keeps, and what a call may do to the grants *)

(** Credentials and grants stand under their own identifiers. *)
Definition keyed (s : St) : Prop :=
  (forall k c, dm_get k s.(creds) = Some c -> c.(c_id) = k) /\ (forall k g, dm_get k s.(grants) = Some g -> g.(g_id) = k).

(** What a grant says, and that it was not brought back to life. *)
Definition carried (g g' : KeychainGrant) : Prop :=
  g'.(g_credentialId) = g.(g_credentialId) /\ g'.(g_ownerId) = g.(g_ownerId) /\ g'.(g_audience) = g.(g_audience) /\
  g'.(g_mode) = g.(g_mode) /\ g'.(g_purpose) = g.(g_purpose) /\ (g'.(g_status) = g_active -> g.(g_status) = g_active).

(** The requests that make grants, and the grants they may make: by the owner of the
    credential, for what the request names. *)
Definition minted_by (q : Req) (g : KeychainGrant) : Prop :=
  match q with
  | q_createGrant i =>
      g.(g_credentialId) = i.(gi_credentialId) /\ same g.(g_ownerId) i.(gi_ownerId) = true /\ g.(g_audience) = i.(gi_audience) /\
      g.(g_mode) = i.(gi_mode) /\ g.(g_purpose) = trim i.(gi_purpose)
  | q_approveAsk i =>
      same g.(g_ownerId) i.(ap_ownerId) = true /\ g.(g_mode) = i.(ap_mode) /\ g.(g_purpose) = trim i.(ap_purpose)
  | q_grantConnector host pid at_ sc purpose =>
      g.(g_credentialId) = oauthId h host pid at_ /\ same g.(g_ownerId) pid = true /\ g.(g_audience) = sc /\
      g.(g_mode) = standing /\ g.(g_purpose) = trim purpose
  | _ => False
  end.
Definition guar (q : Req) (a b : St) : Prop :=
  forall k g', dm_get k b.(grants) = Some g' -> (exists g, dm_get k a.(grants) = Some g /\ carried g g') \/ minted_by q g'.

Abbreviation wp := (wp any keyed).
Abbreviation safe q := (Async.safe (E := Error) any keyed (guar q)).
Abbreviation safe_ret := (Async.safe_ret (E := Error) any keyed).
Abbreviation safe_raise := (Async.safe_raise (E := Error) any keyed).
Abbreviation safe_bind := (Async.safe_bind (E := Error) any keyed).
Abbreviation safe_now := (Async.safe_now (E := Error) any keyed).
Abbreviation safe_for_each := (Async.safe_for_each (E := Error) any keyed).
Abbreviation safe_collect := (Async.safe_collect (E := Error) any keyed).
Abbreviation safe_if := (Async.safe_if (E := Error) any keyed).
Abbreviation safe_lift := (Async.safe_lift (E := Error) any keyed).
Abbreviation wp_raise := (Async.wp_raise (E := Error) any keyed).
Abbreviation wp_now := (Async.wp_now (E := Error) any keyed).
Abbreviation wp_done := (Async.wp_done (E := Error) any keyed).
Abbreviation wp_then := (Async.wp_then (E := Error) any keyed).

Lemma carried_refl g : carried g g.
Proof. done. Qed.
Lemma guar_same q (a b : St) : b.(grants) = a.(grants) -> guar q a b.
Proof. intros E k g'. rewrite E. intros Hg. left. exists g'. split; [done|apply carried_refl]. Qed.

(** *** One operation *)

Lemma wp_await_keyed {A X} q (op : St -> option (X * St)) (k : X -> call A) Q mine s :
  (forall s' x s'', keyed s' -> op s' = Some (x, s'') ->
     keyed s'' /\ guar q s' s'' /\ wp (guar q) (k x) Q (mine ++ [(s', s'')]) s'') ->
  wp (guar q) (await op ≫= k) Q mine s.
Proof.
  intros H. cbn [mbind call_bind await Async.wp]. intros s' _ HI. specialize (H s'). destruct (op s') as [[x s'']|]; [|done].
  destruct (H x s'' HI eq_refl) as (?&?&?). split_and!; done.
Qed.

Lemma upd_creds_id (s : St) : s <| creds := s.(creds) |> = s.
Proof. by destruct s. Qed.
Lemma upd_grants_id (s : St) : s <| grants := s.(grants) |> = s.
Proof. by destruct s. Qed.

Lemma safe_await_keyed {X} q (op : St -> option (X * St)) :
  (forall s x s', keyed s -> op s = Some (x, s') -> keyed s' /\ guar q s s') -> safe q (await op).
Proof. intros H mine s _. intros s' _ HI. specialize (H s'). destruct (op s') as [[x s'']|]; [|done]. destruct (H x s'' HI eq_refl). split_and!; done. Qed.
Lemma safe_require {A} q (o : option A) st msg : safe q (require o st msg).
Proof. destruct o; [apply safe_ret|apply safe_raise]. Qed.

(** *** Operations on the maps *)

Lemma keyed_creds (s : St) m : keyed s -> (forall k c, dm_get k m = Some c -> c.(c_id) = k) -> keyed (s <| creds := m |>).
Proof. intros [_ Hg] Hc. by split. Qed.
Lemma keyed_grants (s : St) m : keyed s -> (forall k g, dm_get k m = Some g -> g.(g_id) = k) -> keyed (s <| grants := m |>).
Proof. intros [Hc _] Hg. by split. Qed.
Lemma safe_creds {X} q (f : Mc -> X * Mc) :
  (forall m x m', (forall k c, dm_get k m = Some c -> c.(c_id) = k) -> f m = (x, m') -> forall k c, dm_get k m' = Some c -> c.(c_id) = k) ->
  safe q (await (on_creds f)).
Proof.
  intros Hf. apply safe_await_keyed. intros s x s' HI. unfold on_creds. destruct (f s.(creds)) as [y m] eqn:E. intros [= <- <-]. split.
  - apply keyed_creds; [done|]. eapply Hf; [apply HI|done].
  - by apply guar_same.
Qed.
Lemma safe_asks {X} q (f : Ma -> X * Ma) : safe q (await (on_asks f)).
Proof.
  apply safe_await_keyed. intros s x s' HI. unfold on_asks. destruct (f s.(asks)) as [y m]. intros [= <- <-]. split; [exact HI|]. by apply guar_same.
Qed.
Lemma safe_grants {X} q (f : Mg -> X * Mg) :
  (forall m x m', (forall k g, dm_get k m = Some g -> g.(g_id) = k) -> f m = (x, m') ->
     forall k g', dm_get k m' = Some g' -> g'.(g_id) = k /\ exists g, dm_get k m = Some g /\ carried g g') ->
  safe q (await (on_grants f)).
Proof.
  intros Hf. apply safe_await_keyed. intros s x s' HI. unfold on_grants. destruct (f s.(grants)) as [y m] eqn:E. intros [= <- <-].
  pose proof (Hf _ _ _ (proj2 HI) E) as H. split.
  - apply keyed_grants; [done|]. intros k g Hg. by apply (H k g).
  - intros k g' Hg. left. by apply (H k g').
Qed.

Lemma safe_get_cred q id : safe q (get_cred id).
Proof. apply safe_creds. by intros m x m' Hk [= <- <-]. Qed.
Lemma safe_all_creds q : safe q all_creds.
Proof. apply safe_creds. by intros m x m' Hk [= <- <-]. Qed.
Lemma safe_put_cred q id c : c.(c_id) = id -> safe q (put_cred id c).
Proof.
  intros Hid. apply safe_creds. intros m x m' Hk [= <- <-] k c'. intros [[-> ->]|[? H]]%dm_get_put_Some; [done|]. by apply Hk.
Qed.
Lemma safe_merge_cred q id f : (forall c, (f c).(c_id) = c.(c_id)) -> safe q (merge_cred id f).
Proof.
  intros Hf. apply safe_creds. intros m x m' Hk [= <- <-] k c'. unfold dm_merge. destruct (dm_get id m) as [c|] eqn:E; simpl; [|apply Hk].
  intros [[-> ->]|[? H]]%dm_get_put_Some; [rewrite Hf|]; by apply Hk.
Qed.
Lemma safe_delete_cred q id : safe q (delete_cred id).
Proof. apply safe_creds. intros m x m' Hk [= <- <-] k c' [? H]%dm_get_delete_Some. by apply Hk. Qed.
Lemma safe_get_grant q id : safe q (get_grant id).
Proof. apply safe_grants. intros m x m' Hk [= <- <-] k g Hg. split; [by apply Hk|]. exists g. split; [done|apply carried_refl]. Qed.
Lemma safe_all_grants q : safe q all_grants.
Proof. apply safe_grants. intros m x m' Hk [= <- <-] k g Hg. split; [by apply Hk|]. exists g. split; [done|apply carried_refl]. Qed.
Lemma safe_merge_grant q id f : (forall g, (f g).(g_id) = g.(g_id) /\ carried g (f g)) -> safe q (merge_grant id f).
Proof.
  intros Hf. apply safe_grants. intros m x m' Hk [= <- <-] k g'. unfold dm_merge. destruct (dm_get id m) as [g|] eqn:E; simpl.
  - intros [[-> ->]|[? H]]%dm_get_put_Some.
    + split; [rewrite (proj1 (Hf g)); by apply Hk|]. exists g. split; [done|]. apply Hf.
    + split; [by apply Hk|]. exists g'. split; [done|apply carried_refl].
  - intros H. split; [by apply Hk|]. exists g'. split; [done|apply carried_refl].
Qed.
Lemma safe_claim q g sc by_ : safe q (claimOnceGrant g sc by_).
Proof.
  unfold claimOnceGrant. apply safe_if; [apply safe_ret|]. apply safe_bind; [apply safe_now|]. intros t. apply safe_bind; [|intros; apply safe_lift].
  apply safe_grants. intros m x m' Hk E k g' Hg'. unfold claim_update in E.
  assert (Hsame : m' = m -> g'.(g_id) = k /\ exists g, dm_get k m = Some g /\ carried g g').
  { intros ->. split; [by apply Hk|]. exists g'. split; [done|apply carried_refl]. }
  destruct (dm_get g.(g_id) m) as [g0|] eqn:E0; [|injection E as _ <-; auto].
  destruct (grant_refusal g0 sc t) as [e|]; injection E as _ <-; [auto|].
  apply dm_get_put_Some in Hg' as [[-> ->]|[? H]]; [|split; [by apply Hk|exists g'; split; [done|apply carried_refl]]].
  split; [by apply (Hk g.(g_id) g0)|]. exists g0. split; [done|]. split_and!; done.
Qed.

(** An operation on neither of the two maps. *)
Lemma safe_other {X} q (op : St -> option (X * St)) :
  (forall s x s', op s = Some (x, s') -> s'.(creds) = s.(creds) /\ s'.(grants) = s.(grants)) -> safe q (await op).
Proof.
  intros H. apply safe_await_keyed. intros s x s' [Hc Hg] E. destruct (H s x s' E) as [Ec Eg]. split; [|by apply guar_same].
  split; [by rewrite Ec|by rewrite Eg].
Qed.


(** *** Every method *)

Lemma safe_fail {A} q st msg : safe q (fail_with (A := A) st msg).
Proof. apply safe_raise. Qed.
Lemma safe_get_ask q id : safe q (get_ask id).
Proof. apply safe_asks. Qed.
Lemma safe_all_asks q : safe q all_asks.
Proof. apply safe_asks. Qed.
Lemma safe_put_ask q id a : safe q (put_ask id a).
Proof. apply safe_asks. Qed.
Lemma safe_merge_ask q id f : safe q (merge_ask id f).
Proof. apply safe_asks. Qed.
Lemma safe_delete_ask q id : safe q (delete_ask id).
Proof. apply safe_asks. Qed.
Lemma safe_begin h' q rec : safe q (await (begin_refresh h' rec)).
Proof. apply safe_other. intros s x s'. unfold begin_refresh. destruct (_ !! _); by intros [= <- <-]. Qed.
Lemma safe_end h' q rec p v : safe q (await (end_refresh h' rec p v)).
Proof. apply safe_other. intros s x s'. unfold end_refresh. by intros [= <- <-]. Qed.
Lemma safe_await_promise q p : safe q (await (await_promise p)).
Proof. apply safe_other. intros s x s'. unfold await_promise. destruct (_ !! _) as [[v|]|]; [by intros [= <- <-]|done|done]. Qed.
Lemma safe_provider q key : safe q (await (provider_answers key)).
Proof. apply safe_other. intros s x s'. unfold provider_answers. destruct s.(answers); [done|]. by intros [= <- <-]. Qed.
Lemma carried_revoke t g : (revoke t g).(g_id) = g.(g_id) /\ carried g (revoke t g).
Proof. split; [done|]. split_and!; done. Qed.
Lemma carried_ask a g : (g <| g_askId := a |>).(g_id) = g.(g_id) /\ carried g (g <| g_askId := a |>).
Proof. split; [done|]. split_and!; done. Qed.

Hint Resolve @Async.safe_ret @Async.safe_raise @safe_fail @Async.safe_now @Async.safe_lift @safe_require @safe_get_cred @safe_all_creds @safe_delete_cred @safe_get_grant @safe_all_grants
  @safe_claim @safe_get_ask @safe_all_asks @safe_put_ask @safe_merge_ask @safe_delete_ask @safe_begin @safe_end
  @safe_await_promise @safe_provider : keychain.
Ltac safe_step :=
  match goal with
  | |- safe _ (_ ≫= _) => apply safe_bind; [|intros]
  | |- safe _ (let _ := _ in _) => cbv zeta
  | |- safe _ (merge_grant _ _) => apply safe_merge_grant; intros; first [apply carried_revoke | apply carried_ask]
  | |- safe _ (put_cred _ _) => apply safe_put_cred; done
  | |- safe _ (for_each _ _) => apply safe_for_each; intros
  | |- safe _ (collect _ _) => apply safe_collect; intros
  | |- safe _ _ => solve [eauto with keychain]
  | |- safe _ (match ?x with _ => _ end) => destruct x
  end.
Ltac safely := repeat safe_step.

Lemma safe_freshAsk q rec t : safe q (freshAsk rec t).
Proof. unfold freshAsk. safely. Qed.
Hint Resolve @safe_freshAsk : keychain.
Lemma safe_activeGrantsFor q sc : safe q (activeGrantsFor sc).
Proof. unfold activeGrantsFor. safely. Qed.
Lemma safe_deleteCredential q id : safe q (deleteCredential id).
Proof. unfold deleteCredential. safely. Qed.
Lemma safe_materializeDecrypted h' q c x : safe q (materializeDecrypted h' c x).
Proof. unfold materializeDecrypted. safely. Qed.
Lemma safe_putConnectorToken h' q host pid tok at_ : safe q (putConnectorToken h' host pid tok at_).
Proof. unfold putConnectorToken. safely. Qed.
Hint Resolve @safe_activeGrantsFor @safe_deleteCredential @safe_materializeDecrypted @safe_putConnectorToken : keychain.
Lemma safe_markFailure q rec msg : safe q (markConnectorRefreshFailure rec msg).
Proof. unfold markConnectorRefreshFailure. safely. apply safe_merge_cred. done. Qed.
Hint Resolve @safe_markFailure : keychain.
Lemma safe_refreshAndStore h' q host pid at_ rec stored : safe q (refreshAndStore h' host pid at_ rec stored).
Proof. unfold refreshAndStore. safely. Qed.
Hint Resolve @safe_refreshAndStore : keychain.
Lemma safe_connectorToken h' q rec : safe q (connectorTokenForRecord h' rec).
Proof. unfold connectorTokenForRecord. safely. Qed.
Hint Resolve @safe_connectorToken : keychain.
Lemma safe_connectorEnv h' q rec x : safe q (materializeConnectorEnv h' rec x).
Proof. unfold materializeConnectorEnv. safely. Qed.
Hint Resolve @safe_connectorEnv : keychain.
Lemma safe_pending_for q id sc t l : safe q (pending_for id sc t l).
Proof. induction l as [|a l IH]; simpl; safely. Qed.
Hint Resolve @safe_pending_for : keychain.
Lemma safe_service_record h' o i p t rec : serviceCredentialRecord h' o i p t = Ok rec -> rec.(c_id) = brokerId h' o i.(slug).
Proof. unfold serviceCredentialRecord. repeat case_match; by intros [= <-]. Qed.

Lemma safe_with_cred {A} q id (k : option KeychainCredential -> call A) :
  (forall o, (forall c, o = Some c -> c.(c_id) = id) -> safe q (k o)) -> safe q (get_cred id ≫= k).
Proof.
  intros H mine s HI. apply wp_await_keyed. intros s' x s'' HI' [= <- <-]. rewrite upd_creds_id. split_and!; [done|by apply guar_same|].
  apply H; [|done]. intros c Hc. by apply HI'.
Qed.
Lemma safe_put_grant q id g : g.(g_id) = id -> minted_by q g -> safe q (put_grant id g).
Proof.
  intros Hid Hm. apply safe_await_keyed. intros s x s' HI [= <- <-]. split.
  - apply keyed_grants; [done|]. intros k g'. intros [[-> ->]|[? H]]%dm_get_put_Some; [done|]. by apply HI.
  - intros k g'. intros [[-> ->]|[? H]]%dm_get_put_Some; [by right|]. left. exists g'. split; [done|apply carried_refl].
Qed.
Definition mints (i : CreateGrantInput) (g : KeychainGrant) : Prop :=
  g.(g_credentialId) = i.(gi_credentialId) /\ same g.(g_ownerId) i.(gi_ownerId) = true /\ g.(g_audience) = i.(gi_audience) /\
  g.(g_mode) = i.(gi_mode) /\ g.(g_purpose) = trim i.(gi_purpose).
Lemma safe_mintGrant h' q i : (forall g, mints i g -> minted_by q g) -> safe q (mintGrant h' i).
Proof.
  intros Hm. unfold mintGrant. apply safe_with_cred. intros [c|] Hc; [|apply safe_raise]. specialize (Hc c eq_refl). cbn [require mbind call_bind].
  destruct (c_kind c === k_broker); [safely|]. destruct (negb (same (c_ownerId c) (gi_ownerId i))) eqn:Eo; [safely|]. to_prop.
  cbv zeta. destruct (negb (truthy _)); [safely|]. apply safe_bind; [safely|]. intros t. destruct (_ && _); [safely|]. safely.
  apply safe_put_grant; [done|]. apply Hm. split_and!; done.
Qed.

Lemma safe_insert_cred q c : safe q (await (on_creds (fun m => dm_insertIfAbsent c.(c_id) c m))).
Proof.
  apply safe_creds. intros m x m' Hk. unfold dm_insertIfAbsent. destruct (dm_get c.(c_id) m); intros [= <- <-]; [done|].
  intros k c'. intros [[-> ->]|[? H]]%dm_get_put_Some; [done|]. by apply Hk.
Qed.
Lemma safe_update_current h' q o i e t : safe q (await (on_creds (update_current h' o i e t))).
Proof.
  apply safe_creds. intros m x m' Hk. unfold update_current. destruct (dm_get _ m) as [prior|] eqn:E; [|by intros [= <- <-]].
  destruct (is_current o e prior); simpl.
  - destruct (serviceCredentialRecord _ _ _ _ _) as [rec|] eqn:Er; intros [= <- <-]; [|done]. apply safe_service_record in Er.
    intros k c'. intros [[-> ->]|[? H]]%dm_get_put_Some; [done|]. by apply Hk.
  - intros [= <- <-] k c'. intros [[-> ->]|[? H]]%dm_get_put_Some; by apply Hk.
Qed.
Lemma safe_deleteIf q id p : safe q (await (on_creds (dm_deleteIf id p))).
Proof.
  apply safe_creds. intros m x m' Hk. unfold dm_deleteIf. destruct (dm_get id m) as [v|]; [|by intros [= <- <-]].
  destruct (negb (p v)); intros [= <- <-]; [done|]. intros k c' [? H]%dm_get_delete_Some. by apply Hk.
Qed.
Hint Resolve @safe_insert_cred @safe_update_current @safe_deleteIf : keychain.

Lemma serve_safe p : safe p.2 (serve p).
Proof.
  unfold serve, quiet. destruct p as [self q]; cbn [fst snd]. destruct q; safely.
  all: try (apply safe_mintGrant; intros g' Hm; exact Hm).
  all: unfold save, remove, getOwned, grantConnectorToScope, listGrants, revokeGrant, grantsForScope, createAsk, getAsk, listAsks, approveAsk,
         declineAsk, unnotifiedResolvedAsks, markAskNotified, resolveAsksForGrant, setServiceCredential, setServiceCredentialIfAbsent,
         setServiceCredentialIfCurrent, deleteServiceCredential, deleteServiceCredentialIfCurrent, getServiceCredentialSecret,
         setConnectorToken, deleteConnectorToken, connectorAccessToken, connectorRecord, materialize, materializeOwnById, materializeOwn,
         materializeOwnFiles, materializeStanding; safely.
  all: apply safe_mintGrant; intros g' (?&?&?&?&?); by split_and!.
Qed.


(** ** What an answer says *)

(** A step that uses the grant up. *)
Definition uses_up (id : string) (p : St * St) : Prop :=
  (exists g, dm_get id p.1.(grants) = Some g /\ g.(g_status) = g_active) /\
  (exists g', dm_get id p.2.(grants) = Some g' /\ g'.(g_status) = g_used).
(** The grant a secret was loaded under, as it stood at one of the call's steps. *)
Definition under (id : string) (sc : ScopeId) (m : MaterializedCred) (mine : list (St * St)) (g : KeychainGrant) : Prop :=
  (exists p, p ∈ mine /\ dm_get id p.1.(grants) = Some g) /\ g.(g_status) = g_active /\ g.(g_audience) = sc /\
  m.(m_credentialId) = g.(g_credentialId) /\ m.(m_grant) = Some (id, g.(g_purpose)).

Definition post (p : string * Req) (r : result Error Resp) (mine : list (St * St)) (s : St) : Prop :=
  match p.2, r with
  | q_materialize id sc _, Ok (r_loaded m) =>
      exists g, under id sc m mine g /\ (g.(g_mode) = once -> exists p, p ∈ mine /\ uses_up id p)
  | q_materializeOwnById o c sc, Ok (r_loaded m) =>
      sc = scopeId personal o /\ same m.(m_ownerId) o = true /\ m.(m_credentialId) = c
  | q_materializeOwn o, Ok (r_many l) => Forall (fun m => same m.(m_ownerId) o = true) l
  | q_materializeOwnFiles o, Ok (r_many l) => Forall (fun m => same m.(m_ownerId) o = true) l
  | q_materializeStanding sc, Ok (r_many l) => Forall (fun m => exists id g, under id sc m mine g /\ g.(g_mode) = standing) l
  | _, _ => True
  end.

Definition of_cred (c : KeychainCredential) (extra : option (string * string)) (m : MaterializedCred) : Prop :=
  m.(m_credentialId) = c.(c_id) /\ m.(m_ownerId) = c.(c_ownerId) /\ m.(m_grant) = extra.
Lemma decryptToEnv_of h' c x m : decryptToEnv h' c x = Some m -> of_cred c x m.
Proof. unfold decryptToEnv. intros H. apply bind_Some in H as (raw & _ & H). apply bind_Some in H as (env & _ & H). by injection H as <-. Qed.
Lemma decryptToFiles_of h' c x m : decryptToFiles h' c x = Some m -> of_cred c x m.
Proof. unfold decryptToFiles. intros H. apply bind_Some in H as (raw & _ & H). apply bind_Some in H as (env & _ & H). by injection H as <-. Qed.
Lemma yields_decrypted h' c x : yields (of_cred c x) (materializeDecrypted (Mc := Mc) (Mg := Mg) (Ma := Ma) h' c x).
Proof.
  unfold materializeDecrypted, require. destruct (c_kind c === k_file).
  - destruct (decryptToFiles h' c x) eqn:E; simpl; [by eapply decryptToFiles_of|done].
  - destruct (decryptToEnv h' c x) eqn:E; simpl; [by eapply decryptToEnv_of|done].
Qed.
Lemma yields_connectorEnv h' c x : yields (of_cred c x) (materializeConnectorEnv (Mc := Mc) (Mg := Mg) (Ma := Ma) h' c x).
Proof. unfold materializeConnectorEnv. apply yields_then. intros v. destruct (if_truthy v), (if_truthy (host c)); done. Qed.

(** A safe call that yields [P], and then the rest. *)


Lemma grant_refusal_none g sc t : grant_refusal g sc t = None -> g.(g_audience) = sc /\ g.(g_status) = g_active /\ expired g.(g_expiresAt) t = false.
Proof.
  unfold grant_refusal. destruct (g_audience g !== sc) eqn:E1; [done|]. destruct (g_status g) eqn:E2; simpl; [|done|done].
  destruct (expired _ _) eqn:E4; [done|]. by to_prop.
Qed.

Lemma wp_get_grant {A} q id (k : option KeychainGrant -> call A) Q mine s :
  (forall s', keyed s' -> wp (guar q) (k (dm_get id s'.(grants))) Q (mine ++ [(s', s')]) s') -> wp (guar q) (get_grant id ≫= k) Q mine s.
Proof.
  intros H. apply wp_await_keyed. intros s' x s'' HI [= <- <-]. rewrite upd_grants_id. split_and!; [done|by apply guar_same|by apply H].
Qed.
Lemma wp_get_cred {A} q id (k : option KeychainCredential -> call A) Q mine s :
  (forall s', keyed s' -> wp (guar q) (k (dm_get id s'.(creds))) Q (mine ++ [(s', s')]) s') -> wp (guar q) (get_cred id ≫= k) Q mine s.
Proof.
  intros H. apply wp_await_keyed. intros s' x s'' HI [= <- <-]. rewrite upd_creds_id. split_and!; [done|by apply guar_same|by apply H].
Qed.
Lemma wp_all_creds {A} q (k : list KeychainCredential -> call A) Q mine s :
  (forall s', keyed s' -> wp (guar q) (k (dm_all s'.(creds))) Q (mine ++ [(s', s')]) s') -> wp (guar q) (all_creds ≫= k) Q mine s.
Proof.
  intros H. apply wp_await_keyed. intros s' x s'' HI [= <- <-]. rewrite upd_creds_id. split_and!; [done|by apply guar_same|by apply H].
Qed.

(** The claim of a one-time grant uses it up. *)
Lemma wp_claim q g sc by_ (Q : result Error unit -> list (St * St) -> St -> Prop) mine s :
  (forall e m s', Q (Throw e) m s') ->
  (forall l s', (g.(g_mode) = once -> exists p, p ∈ l /\ uses_up g.(g_id) p) -> Q (Ok tt) (mine ++ l)%list s') ->
  keyed s -> wp (guar q) (claimOnceGrant g sc by_) Q mine s.
Proof.
  intros He HQ HI. unfold claimOnceGrant. destruct (g_mode g !== once) eqn:Em.
  - intros s' _ _. rewrite <- (app_nil_r mine). apply HQ. intros E. by rewrite E in Em.
  - apply wp_now. intros t. apply wp_await_keyed. intros s' x s'' HI' E. assert (Hs : keyed s'' /\ guar q s' s'').
    { pose proof (safe_claim q g sc by_ [] s' HI') as Hc. unfold claimOnceGrant in Hc. rewrite Em in Hc. specialize (Hc t s' I HI').
      cbv beta in Hc. rewrite E in Hc. destruct Hc as (?&?&?&?). done. }
    destruct Hs as [Hk Hg]. split_and!; [done|done|]. unfold on_grants in E.
    destruct (claim_update g.(g_id) sc by_ t s'.(grants)) as [r m] eqn:Ec. injection E as <- <-.
    destruct r as [[]|e]; [|by apply wp_raise]. intros s3 _ _. apply HQ. intros _. eexists. split; [apply list_elem_of_here|].
    unfold claim_update in Ec. destruct (dm_get g.(g_id) s'.(grants)) as [g0|] eqn:E0; [|done].
    destruct (grant_refusal g0 sc t) eqn:Er; [done|]. injection Ec as <-. apply grant_refusal_none in Er as (Ha & Hst & _).
    split; cbn [fst snd]; [by exists g0|]. eexists. split; [apply dm_get_put_eq|done].
Qed.

Lemma wp_materialize h' q id sc by_ s : keyed s ->
  wp (guar q) (materialize h' id sc by_) (fun r m _ => forall a, r = Ok a ->
    exists g, under id sc a m g /\ (g.(g_mode) = once -> exists p, p ∈ m /\ uses_up id p)) [] s.
Proof.
  intros HI. unfold materialize. apply wp_get_grant. intros s1 HI1. cbn [app].
  destruct (dm_get id s1.(grants)) as [g|] eqn:Eg; [|by apply wp_raise]. apply wp_now. intros t.
  destruct (grant_refusal g sc t) as [e|] eqn:Er; [by apply wp_raise|]. apply grant_refusal_none in Er as (Ha & Hst & _).
  apply wp_get_cred. intros s2 HI2. destruct (dm_get g.(g_credentialId) s2.(creds)) as [c|] eqn:Ec; [|by apply wp_raise].
  assert (Hc : c.(c_id) = g.(g_credentialId)) by by apply HI2. assert (Hid : g.(g_id) = id) by by apply HI1.
  cbn [require mbind call_bind]. destruct (c_kind c === k_broker); [by apply wp_raise|]. cbv zeta.
  set (x := Some (g.(g_id), g.(g_purpose))).
  assert (Hrest : forall (body : call MaterializedCred) mine s', keyed s' -> (exists l, mine = ([(s1, s1)] ++ l)%list) ->
    safe q body -> yields (of_cred c x) body ->
    wp (guar q) (m ← body; _ ← claimOnceGrant g sc by_; mret m) (fun r m _ => forall a, r = Ok a ->
      exists g, under id sc a m g /\ (g.(g_mode) = once -> exists p, p ∈ m /\ uses_up id p)) mine s').
  { intros body mine s' HI' [l ->] Hsafe Hy. apply (wp_then _ (of_cred c x)); [done|done|done|done|].
    intros m l' s3 HI3 (H1 & H2 & H3). apply wp_bind; [typeclasses eauto|done|]. apply wp_claim; [done| |done].
    intros l2 s4 Huse s5 _ _ a [= <-]. exists g. split.
    - split_and!; [|done|done|by rewrite H1|by rewrite H3, <- Hid]. exists (s1, s1). split; [|done]. rewrite !elem_of_app. left. left. left. apply list_elem_of_here.
    - intros Ho. destruct (Huse Ho) as (p & Hp & Hu). exists p. split; [|by rewrite <- Hid]. rewrite elem_of_app. by right. }
  destruct (managed c).
  - apply Hrest; [done|by eexists|auto with keychain|apply yields_connectorEnv].
  - apply wp_now. intros t'. destruct (credExpired c t'); [by apply wp_raise|]. apply Hrest; [done|by eexists|auto with keychain|apply yields_decrypted].
Qed.


Lemma yields_own (f : KeychainCredential -> option (string * string) -> option MaterializedCred) (p : KeychainCredential -> bool) o l :
  (forall c x m, f c x = Some m -> of_cred c x m) -> (forall c, p c = true -> same c.(c_ownerId) o = true) ->
  Forall (fun m => same m.(m_ownerId) o = true) (omap (fun c => f c None) (js_filter p l)).
Proof.
  intros Hf Hp. apply Forall_forall. intros m. rewrite list_elem_of_omap. intros (c & Hc & Hm). apply elem_of_js_filter in Hc as [Hc _].
  destruct (Hf _ _ _ Hm) as (_ & -> & _). by apply Hp.
Qed.
Lemma yields_materializeOwn h' o : yields (Forall (fun m => same m.(m_ownerId) o = true)) (materializeOwn (Mc := Mc) (Mg := Mg) (Ma := Ma) h' o).
Proof.
  unfold materializeOwn. apply yields_then. intros t. apply yields_then. intros l. apply yields_own; [apply decryptToEnv_of|].
  intros c Hc. by to_prop.
Qed.
Lemma yields_materializeOwnFiles h' o :
  yields (Forall (fun m => same m.(m_ownerId) o = true)) (materializeOwnFiles (Mc := Mc) (Mg := Mg) (Ma := Ma) h' o).
Proof. unfold materializeOwnFiles. apply yields_then. intros l. apply yields_own; [apply decryptToFiles_of|]. intros c Hc. by to_prop. Qed.

Lemma wp_materializeOwnById h' q o c sc s : keyed s ->
  wp (guar q) (materializeOwnById h' o c sc) (fun r _ _ => forall m, r = Ok m ->
    sc = scopeId personal o /\ same m.(m_ownerId) o = true /\ m.(m_credentialId) = c) [] s.
Proof.
  intros HI. unfold materializeOwnById. destruct (sc !== scopeId personal o) eqn:Esc; [by apply wp_raise|]. to_prop.
  apply wp_get_cred. intros s1 HI1. destruct (dm_get c s1.(creds)) as [cr|] eqn:Ec; [|by apply wp_raise].
  assert (Hid : cr.(c_id) = c) by by apply HI1. destruct (negb (same cr.(c_ownerId) o)) eqn:Eo; [by apply wp_raise|]. to_prop.
  destruct (c_kind cr === k_broker); [by apply wp_raise|].
  assert (Hrest : forall (body : call MaterializedCred) mine s', keyed s' -> safe q body -> yields (of_cred cr None) body ->
    wp (guar q) body (fun r _ _ => forall m, r = Ok m -> sc = scopeId personal o /\ same m.(m_ownerId) o = true /\ m.(m_credentialId) = c) mine s').
  { intros body mine s' HI' Hs Hy. eapply wp_mono; [done| |apply wp_yields; [exact Hy|by apply Hs]].
    intros r m s2 _ (_ & Ha & _) a Hr. destruct (Ha a Hr) as (-> & -> & _). done. }
  destruct (managed cr); [apply Hrest; [done|auto with keychain|apply yields_connectorEnv]|].
  apply wp_now. intros t. destruct (credExpired cr t); [by apply wp_raise|]. apply Hrest; [done|auto with keychain|apply yields_decrypted].
Qed.

Lemma wp_collect {A B} q (P : B -> Prop) (l : list A) (f : A -> call (list B)) mine s :
  keyed s ->
  (forall x mine s, x ∈ l -> keyed s -> wp (guar q) (f x) (fun r _ _ => forall ys, r = Ok ys -> Forall P ys) mine s) ->
  wp (guar q) (collect l f) (fun r _ _ => forall ys, r = Ok ys -> Forall P ys) mine s.
Proof.
  intros HI. revert mine s HI. induction l as [|x l IH]; intros mine s HI Hf; cbn [collect].
  - apply wp_done. intros s' ys [= <-]. constructor.
  - apply wp_bind; [typeclasses eauto|done|]. eapply wp_mono; [done| |apply Hf; [apply list_elem_of_here|done]]. intros [ys|e] m s' HI' Hys; [|done].
    apply wp_bind; [typeclasses eauto|done|]. eapply wp_mono; [done| |apply IH; [done|]].
    + intros [zs|e] m' s2 HI2 Hzs; [|done]. apply wp_done. intros s3 l' [= <-]. apply Forall_app. auto.
    + intros y mine' s2 Hy. apply Hf. by apply list_elem_of_further.
Qed.

Lemma wp_standing h' q sc s : keyed s ->
  wp (guar q) (materializeStanding h' sc) (fun r m _ => forall l, r = Ok l ->
    Forall (fun x => exists id g, under id sc x m g /\ g.(g_mode) = standing) l) [] s.
Proof.
  intros HI. unfold materializeStanding. apply wp_bind; [typeclasses eauto|done|]. unfold activeGrantsFor. apply wp_now. intros t.
  apply wp_await_keyed. intros s1 x s1' HI1 [= <- <-]. rewrite upd_grants_id. split_and!; [done|by apply guar_same|]. intros s2 _ HIs2. cbn [app].
  set (l := js_filter _ _).
  assert (Hl : forall g, g ∈ l -> dm_get g.(g_id) s1.(grants) = Some g /\ g.(g_audience) = sc /\ g.(g_status) = g_active).
  { intros g [Hp Hin]%elem_of_js_filter. apply elem_of_dm_all in Hin as [k Hk]. rewrite (proj2 HI1 _ _ Hk). by to_prop. }
  eapply wp_mono; [done| |apply (wp_yields _ _ _ (fun _ => True)); [apply yields_any|apply (wp_collect _ (fun x => exists g, g ∈ l /\
    x.(m_credentialId) = g.(g_credentialId) /\ x.(m_grant) = Some (g.(g_id), g.(g_purpose)) /\ g.(g_mode) = standing)); [exact HIs2|]]].
  - intros r m s3 _ (Hr & _ & l' & ->) ys Hys. eapply Forall_impl; [apply Hr; exact Hys|]. intros y (g & Hg & H1 & H2 & H3).
    destruct (Hl g Hg) as (?&?&?). exists g.(g_id), g. split; [|done]. split_and!; [|done..]. exists (s1, s1). split; [|done].
    apply elem_of_app. left. apply list_elem_of_here.
  - clear s2 HIs2. intros g mine s2 Hg HI2. destruct (g_mode g !== standing) eqn:Em; [apply wp_done; by intros s' ys [= <-]|]. to_prop.
    apply wp_get_cred. intros s3 HI3. destruct (dm_get g.(g_credentialId) s3.(creds)) as [c|] eqn:Ec; [|apply wp_done; by intros s' ys [= <-]].
    assert (Hid : c.(c_id) = g.(g_credentialId)) by by apply HI3. cbv zeta.
    destruct (c_kind c !== k_env); [apply wp_done; by intros s' ys [= <-]|]. destruct (managed c).
    + apply (wp_then _ (fun _ => True)); [done| |apply yields_any|done|].
      * apply safe_if; auto with keychain.
      * intros v l' s4 HI4 _. apply wp_done. intros s5 ys [= <-]. destruct (if_truthy v), (if_truthy (host c)); [|done..]. apply Forall_singleton.
        exists g. by rewrite <- Hid.
    + apply wp_now. intros t'. destruct (credExpired c t'); [apply wp_done; by intros s' ys [= <-]|]. apply wp_done. intros s5 ys [= <-].
      destruct (decryptToEnv h' c _) eqn:Ed; [|constructor]. apply Forall_singleton. destruct (decryptToEnv_of _ _ _ _ Ed) as (H1 & H2 & H3).
      exists g. by rewrite H1, H3.
Qed.


Lemma serve_ok p s : keyed s -> wp (guar p.2) (serve p) (post p) [] s.
Proof.
  intros HI. destruct p as [self q].
  assert (Hquiet : (forall r m s, post (self, q) r m s) -> wp (guar q) (serve (self, q)) (post (self, q)) [] s).
  { intros Hp. eapply wp_mono; [done| |by apply (serve_safe (self, q))]. auto. }
  destruct q; try (apply Hquiet; intros [[]|] m' s'; done); cbn [fst snd]; unfold serve; cbn [fst snd].
  - apply wp_bind; [typeclasses eauto|done|]. eapply wp_mono; [done| |by apply wp_materialize].
    intros [a|e] m s' _ H; [|done]. apply wp_done. intros s2. by apply H.
  - apply wp_bind; [typeclasses eauto|done|]. eapply wp_mono; [done| |by apply wp_materializeOwnById].
    intros [a|e] m s' _ H; [|done]. apply wp_done. intros s2. by apply H.
  - apply (wp_then _ (Forall (fun m => same m.(m_ownerId) ownerId = true)) _ _ _ _ _ HI); [|apply yields_materializeOwn|done|].
    + unfold materializeOwn. safely.
    + intros l m s' _ Hl. by apply wp_done.
  - apply (wp_then _ (Forall (fun m => same m.(m_ownerId) ownerId = true)) _ _ _ _ _ HI); [|apply yields_materializeOwnFiles|done|].
    + unfold materializeOwnFiles. safely.
    + intros l m s' _ Hl. by apply wp_done.
  - apply wp_bind; [typeclasses eauto|done|]. eapply wp_mono; [done| |by apply wp_standing].
    intros [a|e] m s' _ H; [|done]. apply wp_done. intros s2. by apply H.
Qed.

(** ** Where grants come from *)

Lemma carried_trans g1 g2 g3 : carried g1 g2 -> carried g2 g3 -> carried g1 g3.
Proof. intros (?&?&?&?&?&?) (?&?&?&?&?&?). split_and!; try congruence. auto. Qed.
Lemma minted_carried q g g' : minted_by q g -> carried g g' -> minted_by q g'.
Proof. intros Hm (E1&E2&E3&E4&E5&_). destruct q; try done; simpl in *; by rewrite ?E1, ?E2, ?E3, ?E4, ?E5. Qed.

Abbreviation World := (World St Error (string * Req) Resp).
Lemma origin (w : World) s0 l s k g :
  (forall i a b, (i, (a, b)) ∈ l -> exists p c, w.(pool) !! i = Some (p, c) /\ guar p.2 a b) ->
  chain s0 l s -> dm_get k s.(grants) = Some g ->
  (exists g0, dm_get k s0.(grants) = Some g0 /\ carried g0 g) \/
  exists i p c, w.(pool) !! i = Some (p, c) /\ minted_by p.2 g.
Proof.
  revert s0. induction l as [|[i [a b]] l IH]; intros s0 Hl Hc Hg.
  - simpl in Hc. subst. left. exists g. split; [done|apply carried_refl].
  - destruct Hc as [-> Hc]. destruct (IH b) as [(g1 & H1 & Hc1)|?]; [|done|done| |by right].
    + intros j a' b' Hin. apply (Hl j). by apply list_elem_of_further.
    + destruct (Hl i a b (list_elem_of_here _ _)) as (p & c & Hp & Hgu). destruct (Hgu k g1 H1) as [(g0 & H0 & Hc0)|Hm].
      * left. exists g0. split; [done|by eapply carried_trans].
      * right. exists i, p, c. split; [done|by eapply minted_carried].
Qed.

Lemma world_ok_run s0 l : keyed s0 -> world_ok any keyed (fun p => guar p.2) post s0 (acts serve l (begins s0)).
Proof. intros HI. apply interleaved_ok; [typeclasses eauto|apply serve_ok|done]. Qed.

(** What a call loaded for a conversation. *)
Definition loads (q : Req) (r : Resp) (sc : ScopeId) (m : MaterializedCred) : Prop :=
  match q, r with
  | q_materialize _ sc' _, r_loaded m' => sc' = sc /\ m' = m
  | q_materializeStanding sc', r_many l => sc' = sc /\ m ∈ l
  | _, _ => False
  end.
Lemma loads_under s0 l i self q r sc m : keyed s0 ->
  (acts serve l (begins s0)).(pool) !! i = Some ((self, q), Ret r) -> loads q r sc m ->
  exists id g, under id sc m (steps_of i (acts serve l (begins s0)).(trace)) g.
Proof.
  intros HI Hp Hl. pose proof (ended_ok any keyed serve (fun p => guar p.2) post serve_ok s0 l i _ _ (Ok r) HI Hp eq_refl) as H.
  unfold post in H. cbn [snd] in H. destruct q; try done; destruct r as [|m'|ms]; try done; destruct Hl as [-> Hm].
  - subst m'. destruct H as (g & Hu & _). eauto.
  - rewrite Forall_forall in H. destruct (H m Hm) as (id & g & Hu & _). eauto.
Qed.



(** *** One use *)

Definition active (id : string) (s : St) : bool :=
  match dm_get id s.(grants) with Some g => g.(g_status) === g_active | None => false end.
(** The steps at which a grant became active: it was made, or made again. *)
Definition made (id : string) : nat * (St * St) -> bool := turned_on (active id).
Definition used_up (id : string) : nat * (St * St) -> bool := turned_off (active id).

Lemma uses_up_used id i p : uses_up id p -> used_up id (i, p) = true.
Proof.
  destruct p as [a b]. intros [(g & Hg & Es) (g' & Hg' & Es')]. unfold used_up, turned_off, active. cbn [fst snd] in *. by rewrite Hg, Hg', Es, Es'.
Qed.
Lemma made_minted (w : World) id :
  (forall i a b, (i, (a, b)) ∈ w.(trace) -> keyed b /\ exists p c, w.(pool) !! i = Some (p, c) /\ guar p.2 a b) ->
  forall i a b, (i, (a, b)) ∈ w.(trace) -> made id (i, (a, b)) = true ->
    exists p c g, w.(pool) !! i = Some (p, c) /\ dm_get id b.(grants) = Some g /\ minted_by p.2 g.
Proof.
  intros Hs i a b Hin Hm. destruct (Hs i a b Hin) as (_ & p & c & Hp & Hg). unfold made, turned_on, active in Hm. cbn [fst snd] in Hm. to_prop.
  destruct (dm_get id b.(grants)) as [g'|] eqn:Eb; [|done]. exists p, c, g'. split; [done|]. split; [done|].
  destruct (Hg id g' Eb) as [(g & Ea & _ & _ & _ & _ & _ & Hact)|?]; [|done]. to_prop. rewrite Ea in *. by rewrite Hact, eqb_refl in *.
Qed.

(** A one-time grant is used once.  However the calls of any number of processes
    interleave, and whatever they are: as many calls as load a secret under a grant that is
    one-time for as long as it is seen, so many times at least was the grant given by the
    owner, counting a grant that was there at the beginning.  A call that was refused, or
    whose claim came second, loads nothing. *)
Theorem once_grant_once s0 l id ids :
  let w := acts serve l (begins s0) in
  keyed s0 -> NoDup ids ->
  (forall i a b g, (i, (a, b)) ∈ w.(trace) -> dm_get id a.(grants) = Some g -> g.(g_mode) = once) ->
  (forall i, i ∈ ids -> exists self sc by_ m, w.(pool) !! i = Some ((self, q_materialize id sc by_), Ret (r_loaded m))) ->
  (length ids <= count (made id) w.(trace) + (if active id s0 then 1 else 0))%nat /\
  (forall i a b, (i, (a, b)) ∈ w.(trace) -> made id (i, (a, b)) = true ->
     exists p c g, w.(pool) !! i = Some (p, c) /\ dm_get id b.(grants) = Some g /\ minted_by p.2 g).
Proof.
  intros w HI Hn Ho Hids. destruct (world_ok_run s0 l HI) as [_ _ Hchain Hsteps _]. fold w in Hchain, Hsteps. split; [|by apply made_minted].
  pose proof (off_le_on (active id) _ _ _ Hchain). fold (made id) (used_up id) in *. enough (length ids <= count (used_up id) w.(trace))%nat by lia.
  apply distinct_count; [done|]. intros i Hi. destruct (Hids i Hi) as (self & sc & by_ & m & Hp).
  pose proof (ended_ok any keyed serve (fun p => guar p.2) post serve_ok s0 l i _ _ (Ok (r_loaded m)) HI Hp eq_refl) as Hpost.
  unfold post in Hpost. cbn [snd] in Hpost. destruct Hpost as (g & (([a b] & Hin & Hg) & _) & Huse).
  apply steps_of_trace in Hin. destruct (Huse (Ho i a b g Hin Hg)) as (p & Hp' & Hup).
  exists p. split; [by apply steps_of_trace|]. by apply uses_up_used.
Qed.

End safety.

(** ** Witnesses *)

Definition demo_host : Host :=
  MkHost (fun s => s) Some (join "|") (fun _ => "{}") (fun _ => None) "acme" false None None "core".
Definition demo_keychain : Keychain (jsmap string KeychainCredential) (jsmap string KeychainGrant) (jsmap string KeychainAsk) :=
  MkKeychain ∅ ∅ ∅ ∅ [] [] [].
Definition demo_grant : string := "ann|github|env:GITHUB_TOKEN|channel:C1|5|deploy".
(** Ann saves a token and grants one use of it; two turns of the conversation ask for it at
    once, each finding the grant active before either has claimed it. *)
Definition demo_actions : list (Action (string * Req)) :=
  [Begin ("core", q_save (MkSave "ann" "GitHub" (Some "s3cret") None None None None None None None None)) 4; Move 0 4; Move 0 4;
   Begin ("core", q_createGrant (MkGrantInput "ann|github|env:GITHUB_TOKEN" "ann" "channel:C1" once " deploy " None None)) 5; Move 1 5; Move 1 5;
   Begin ("core", q_materialize demo_grant "channel:C1" "bob") 6; Begin ("core", q_materialize demo_grant "channel:C1" "cal") 6;
   Move 2 6; Move 3 6; Move 2 6; Move 3 6; Move 3 7; Move 2 7].
Definition demo_loaded : MaterializedCred :=
  MkLoaded "ann|github|env:GITHUB_TOKEN" "ann" "github" (l_env [("GITHUB_TOKEN", "s3cret")]) (Some (demo_grant, "deploy")).
Abbreviation demo_world := (acts (serve demo_host) demo_actions (begins demo_keychain)).
Lemma demo_keyed : keyed demo_keychain.
Proof. split; intros k x H; discriminate H. Qed.


Definition once_in (id : string) (p : nat * (Keychain (jsmap string KeychainCredential) (jsmap string KeychainGrant) (jsmap string KeychainAsk) * Keychain (jsmap string KeychainCredential) (jsmap string KeychainGrant) (jsmap string KeychainAsk))) : bool :=
  match dm_get id p.2.1.(grants) with Some g => g.(g_mode) === once | None => true end.
Lemma demo_once_all : every (once_in demo_grant) demo_world.(trace) = true.
Proof. vm_compute. reflexivity. Qed.
Lemma demo_once i a b g : (i, (a, b)) ∈ demo_world.(trace) -> dm_get demo_grant a.(grants) = Some g -> g.(g_mode) = once.
Proof.
  intros Hin Hg. pose proof (proj1 (every_true _ _) demo_once_all _ Hin) as H. unfold once_in in H. cbn [fst snd] in H.
  rewrite Hg in H. by to_prop.
Qed.

Lemma once_grant_once_witness :
  (exists m, demo_world.(pool) !! 3%nat = Some (("core", q_materialize demo_grant "channel:C1" "cal"), Ret (r_loaded m))) /\
  count (made demo_grant) demo_world.(trace) = 1%nat /\
  (1 <= count (made demo_grant) demo_world.(trace) + (if active demo_grant demo_keychain then 1 else 0))%nat.
Proof.
  split; [exists demo_loaded; vm_compute; reflexivity|]. split; [vm_compute; reflexivity|].
  refine (proj1 (once_grant_once demo_host demo_keychain demo_actions demo_grant [3%nat] _ _ _ _)).
  - exact demo_keyed.
  - apply NoDup_singleton.
  - exact demo_once.
  - intros i Hi. apply list_elem_of_singleton in Hi. subst i. exists "core", "channel:C1", "cal", demo_loaded. vm_compute. reflexivity.
Defined.

(** ** What the interleavings show *)

(** A token that is taken away while its refresh is under way comes back: the refresh writes
    its answer without looking whether the record is still there.  Ann disconnects her app
    (call 2, done) between the request of the refresh and its answer; afterwards the keychain
    holds a fresh token of hers and lends it. *)
Definition slow_host : Host :=
  MkHost (fun s => s) Some (join "|") (fun _ => "{}") (fun _ => None) "acme" true None None "core".
Definition slow_keychain : Keychain (jsmap string KeychainCredential) (jsmap string KeychainGrant) (jsmap string KeychainAsk) :=
  MkKeychain ∅ ∅ ∅ ∅ [] [] [Ok (MkToken "fresh" (Some "r2") (Some 9000000) None None None None)].
Definition slow_actions : list (Action (string * Req)) :=
  [Begin ("core", q_setToken "mail.example" "ann" (MkToken "old" (Some "r1") (Some 1000) None None None None) None) 0; Move 0 0; Move 0 0;
   Begin ("core", q_accessToken "mail.example" "ann" None) 900; Move 1 900; Move 1 900;
   Begin ("core", q_deleteToken "mail.example" "ann" None) 950; Move 2 950; Move 2 950;
   Move 1 960; Move 1 960; Move 1 960; Move 1 960].
Example disconnected_comes_back :
  let w := acts (serve slow_host) slow_actions (begins slow_keychain) in
  map (fun p => is_some (match p.2 with Ret _ => Some tt | _ => None end)) w.(pool) = [true; true; true] /\
  secretEnc <$> dm_get "ann|mail.example|oauth:" w.(st).(creds) = Some "fresh".
Proof. vm_compute. split; reflexivity. Qed.

(** The owner's approval and refusal of one ask may both succeed: each looks at the ask before
    either writes.  The ask ends as declined, and the grant of the approval is active. *)
Definition torn_actions : list (Action (string * Req)) :=
  [Begin ("core", q_save (MkSave "ann" "GitHub" (Some "s3cret") None None None None None None None None)) 4; Move 0 4; Move 0 4;
   Begin ("core", q_createAsk "ask1" (MkAskInput "ann|github|env:GITHUB_TOKEN" "bob" "channel:C1" None None "deploy" None None)) 5;
   Move 1 5; Move 1 5; Move 1 5;
   Begin ("core", q_approveAsk (MkApprove "ask1" "ann" once "ok" None)) 6; Begin ("core", q_declineAsk "ask1" "ann" None) 6;
   Move 2 6; Move 3 6; Move 2 6; Move 2 6; Move 2 6; Move 3 6].
Example approved_and_declined :
  let w := acts (serve demo_host) torn_actions (begins demo_keychain) in
  map (fun p => match p.2 with Ret _ => true | _ => false end) w.(pool) = [true; true; true; true] /\
  a_status <$> dm_get "ask1" w.(st).(asks) = Some a_declined /\
  map g_status (dm_all w.(st).(grants)) = [g_active].
Proof. vm_compute. split; [reflexivity|]. split; reflexivity. Qed.

(** An app is not opened again to a conversation whose standing grant has run out: the old
    grant is found and returned, though nothing can be loaded under it. *)
Definition lapsed_keychain : Keychain (jsmap string KeychainCredential) (jsmap string KeychainGrant) (jsmap string KeychainAsk) :=
  match run 0 (setConnectorToken demo_host "mail.example" "ann" (MkToken "tok" None None None None None None) None) demo_keychain with
  | Some (_, s) =>
      match run 1 (mintGrant demo_host (MkGrantInput "ann|mail.example|oauth:" "ann" "channel:C1" standing "read" (Some 10) None)) s with
      | Some (_, s) => s
      | None => demo_keychain
      end
  | None => demo_keychain
  end.
Example lapsed_grant_returned :
  match run 20 (grantConnectorToScope demo_host "mail.example" "ann" None "channel:C1" "read") lapsed_keychain with
  | Some (Ok (Some g), s) => fst <$> run 20 (materialize demo_host g.(g_id) "channel:C1" "bob") s
  | _ => None
  end = Some (Throw (KeychainError 410 "grant is expired")) /\
  fst <$> run 20 (materializeStanding demo_host "channel:C1") lapsed_keychain = Some (Ok []).
Proof. vm_compute. split; reflexivity. Qed.
