(* ===== verification/KeychainLoad.v ===== *)
(** * What is saved in the keychain is what is loaded

    One call after the other ([run]) of the keychain ([Keychain]): a credential that was saved
    comes back as it was given, from its owner's own conversation. *)

From S2P Require Import Prelude JsString Json Scope Turn Regex Posture DurableMap Async Keychain.

#[local] Open Scope string_scope.
#[local] Open Scope Z_scope.

(** ** What an input saves *)

Definition relative (p : string) : string := homeRelativePath p ?? "".
Definition files_given (i : SaveCredentialInput) : option (list CredentialFile) :=
  match i.(s_files) with
  | Some (f :: fs) => Some (map (fun f => MkFile (relative f.(path)) f.(contentBase64)) (f :: fs))
  | _ => if truthy_opt i.(s_target) && truthy_opt i.(s_secret)
         then Some [MkFile (relative (i.(s_target) ?? "")) (to_base64 (i.(s_secret) ?? ""))] else None
  end.
Definition fields_given (i : SaveCredentialInput) : option (list (string * string)) :=
  match i.(s_fields) with Some (f :: fs) => Some (map (fun f => (trim f.(fi_envKey), f.(fi_value))) (f :: fs)) | _ => None end.
(** Files when there are any, then fields, then the secret under its name. *)
Definition given (i : SaveCredentialInput) : Loaded :=
  match files_given i, fields_given i with
  | Some l, _ => l_files l (if_truthy i.(s_origin))
  | None, Some fs => l_env fs
  | None, None => l_env [(if_truthy (trim <$> i.(s_envKey)) ?? defaultEnvKey (to_lower (trim i.(s_service))), i.(s_secret) ?? "")]
  end.
Definition given_json (i : SaveCredentialInput) : Json :=
  match files_given i, fields_given i with
  | Some l, _ => files_json l
  | None, Some fs => JObj (map (fun f => (f.1, JStr f.2)) fs)
  | None, None => JNull
  end.

(** ** Its parts *)

Lemma length_dedup_from {A} `{EqDecision A} seen (l : list A) : (length (dedup_from seen l) <= length l)%nat.
Proof. revert seen. induction l as [|x l IH]; intros seen; simpl; [done|]. case_decide; simpl; [pose proof (IH seen)|pose proof (IH (x :: seen))]; lia. Qed.
Lemma length_dedup_NoDup {A} `{EqDecision A} (l : list A) : length (dedup l) = length l -> NoDup l.
Proof.
  unfold dedup. generalize (@nil A). induction l as [|x l IH]; intros seen; cbn [dedup_from length]; [constructor|]. case_decide as Hx; simpl.
  - pose proof (length_dedup_from seen l). lia.
  - intros [= E]. constructor; [|by eapply IH]. intros Hin.
    assert (H : forall s (l : list A), x ∈ s -> x ∈ l -> (length (dedup_from s l) < length l)%nat).
    { clear. intros s l. revert s. induction l as [|y l IH]; intros s Hs Hl; [by apply not_elem_of_nil in Hl|]. cbn [dedup_from length].
      destruct (decide (y ∈ s)) as [Hy|Hy].
      - pose proof (length_dedup_from s l). lia.
      - simpl. apply elem_of_cons in Hl as [<-|Hl]; [done|]. specialize (IH (y :: s)). rewrite elem_of_cons in IH. specialize (IH (or_intror Hs) Hl). lia. }
    specialize (H (x :: seen) l). rewrite elem_of_cons in H. specialize (H (or_introl eq_refl) Hin). lia.
Qed.

Lemma field_found k v (fs : list (string * string)) :
  NoDup fs.*1 -> (k, v) ∈ fs -> str_field k (JObj (map (fun f => (f.1, JStr f.2)) fs)) = Some v.
Proof.
  intros Hn Hin. unfold str_field, field. replace (assoc_get k (map _ fs)) with (Some (JStr v)); [done|]. symmetry.
  apply assoc_get_Some; [|by apply (list_elem_of_fmap_2 (fun f : string * string => (f.1, JStr f.2)) _ (k, v))].
  rewrite <- list_fmap_compose. exact Hn.
Qed.
Lemma files_back l : files_of_json (files_json l) = Some l.
Proof.
  unfold files_of_json, files_json. cbn [as_array mbind option_bind]. induction l as [|[p c] l IH]; [done|]. cbn [map]. simpl. by rewrite IH.
Qed.

Lemma keychainFilePath_Ok p r : keychainFilePath p = Ok r -> r = relative p.
Proof. unfold keychainFilePath, relative. destruct (homeRelativePath p); [by intros [= <-]|done]. Qed.
Lemma input_files_given i fs : input_files i = Ok fs -> fs = files_given i.
Proof.
  unfold input_files, files_given. destruct (s_files i) as [[|f l]|].
  2: { intros H. destruct (mapM _ (f :: l)) as [l'|e] eqn:E; [|done]. cbn in H. injection H as <-. f_equal.
       revert l' E. generalize (f :: l). clear. intros l. induction l as [|f l IH]; intros l' E; cbn in E; [by injection E as <-|].
       destruct (keychainFilePath (path f)) as [p|] eqn:Ep; cbn in E; [|done].
       destruct (mapM _ l) as [l2|] eqn:E2; cbn in E; [|done]. injection E as <-. cbn [map]. rewrite (keychainFilePath_Ok _ _ Ep).
       by rewrite (IH l2). }
  all: destruct (truthy_opt (s_target i) && truthy_opt (s_secret i)); [|by intros [= <-]];
    destruct (keychainFilePath _) as [p|] eqn:Ep; cbn; [|done]; intros [= <-]; by rewrite (keychainFilePath_Ok _ _ Ep).
Qed.
Lemma input_fields_given files i fs : input_fields files i = Ok fs ->
  match files, fields_given i with
  | None, Some l => exists fl, fs = Some fl /\ map fst fl = l /\ NoDup l.*1 /\ forall f, f ∈ l -> ENV_KEY_RE f.1 = true
  | _, _ => fs = None
  end.
Proof.
  unfold input_fields, fields_given. destruct files as [l|]; [by intros [= <-]|]. destruct (s_fields i) as [[|f l]|]; [by intros [= <-]| |by intros [= <-]].
  set (fl := map _ (f :: l)). destruct (some _ fl) eqn:E1; [done|]. destruct (some _ fl) eqn:E2 in |- *; [done|].
  destruct (negb _) eqn:E3; [done|]. intros [= <-]. exists fl. split; [done|]. to_prop. apply Nat.eqb_eq in E3.
  assert (Hm : map fst fl = map (fun f => (trim (fi_envKey f), fi_value f)) (f :: l)).
  { unfold fl. by rewrite List.map_map. }
  split; [exact Hm|]. rewrite <- Hm. split.
  - replace ((map fst fl).*1) with (map (fun f : string * string * bool => f.1.1) fl) by (symmetry; apply List.map_map).
    apply length_dedup_NoDup. by rewrite E3, length_map.
  - intros g Hg. apply list_elem_of_fmap in Hg as (g' & -> & Hg'). pose proof (proj1 (some_false _ _) E1 _ Hg') as Hk. cbv beta in Hk. by to_prop.
Qed.

Definition load (h : Host) (c : KeychainCredential) (x : option (string * string)) : option MaterializedCred :=
  if c.(c_kind) === k_file then decryptToFiles h c x else decryptToEnv h c x.
Definition stamp (t1 t2 : Z) (c : KeychainCredential) : KeychainCredential := c <| c_createdAt := t1 |> <| c_updatedAt := t2 |>.

#[local] Arguments files_of_json : simpl never.
#[local] Arguments files_json : simpl never.
#[local] Arguments str_field : simpl never.
#[local] Arguments if_truthy : simpl never.

Section host.
Variable h : Host.
Hypothesis decrypts : forall s, h.(decryptSecret) (h.(encryptSecret) s) = Some s.

(** What is known of a record that is saved. *)
Definition saves (i : SaveCredentialInput) (c : KeychainCredential) : Prop :=
  c.(c_ownerId) = i.(s_ownerId) /\ c.(managed) = false /\ c.(c_kind) <> k_broker /\ c.(c_expiresAt) = i.(s_expiresAt) /\
  (forall x t1 t2, load h (stamp t1 t2 c) x = Some (MkLoaded c.(c_id) c.(c_ownerId) c.(service) (given i) x)) /\
  (forall env, given i = l_env env -> forall e, e ∈ env -> ENV_KEY_RE e.1 = true).

Lemma saves_files i l c svc key : files_given i = Some l -> h.(parse) (h.(stringify) (files_json l)) = Some (files_json l) ->
  c = MkCred key i.(s_ownerId) (Some h.(configOrgId)) svc k_file None None (Some (map path l)) (if_truthy i.(s_host)) (if_truthy i.(s_accountLabel))
        None None None false (h.(encryptSecret) (h.(stringify) (files_json l))) (fingerprintOf h (h.(stringify) (files_json l)))
        (if_truthy i.(s_origin)) i.(s_expiresAt) 0 0 None -> saves i c.
Proof.
  intros Hl Hp ->. split_and!; [done..| |].
  - intros x t1 t2. unfold load, stamp, decryptToFiles. cbn. rewrite decrypts. cbn. rewrite Hp. cbn. rewrite files_back. cbn.
    unfold given. rewrite Hl. do 3 f_equal. by destruct (s_origin i) as [[|]|].
  - unfold given. by rewrite Hl.
Qed.
Lemma saves_fields i fl c svc key : files_given i = None -> fields_given i = Some (map fst fl) -> NoDup (map fst fl).*1 ->
  (forall f, f ∈ map fst fl -> ENV_KEY_RE f.1 = true) ->
  h.(parse) (h.(stringify) (given_json i)) = Some (given_json i) ->
  c = MkCred key i.(s_ownerId) (Some h.(configOrgId)) svc k_env None None None (if_truthy i.(s_host)) (if_truthy i.(s_accountLabel))
        (Some (map (fun f => MkFieldMeta f.1.1 f.2) fl)) None None false (h.(encryptSecret) (h.(stringify) (given_json i)))
        (fingerprintOf h (h.(stringify) (given_json i))) (if_truthy i.(s_origin)) i.(s_expiresAt) 0 0 None -> saves i c.
Proof.
  intros Hf Hl Hn Hk Hp ->. split_and!; [done..| |].
  - intros x t1 t2. unfold load, stamp, decryptToEnv. cbn. rewrite decrypts. cbn. rewrite Hp. cbn. unfold given, given_json. rewrite Hf, Hl.
    do 3 f_equal. rewrite List.map_map. cbn [fm_envKey].
    assert (H : forall l, (forall f, f ∈ l -> f ∈ map fst fl) -> map (fun f => (f.1, str_field f.1 (JObj (map (fun f => (f.1, JStr f.2)) (map fst fl))) ?? "")) l = l).
    { clear -Hn. induction l as [|[k v] l IH]; intros Hin; [done|]. cbn [map]. rewrite (field_found k v); [|done|apply Hin, list_elem_of_here].
      cbn. f_equal. apply IH. intros f Hf. apply Hin. by apply list_elem_of_further. }
    etransitivity; [|exact (H (map fst fl) (fun _ Hf => Hf))]. symmetry. apply List.map_map.
  - unfold given. rewrite Hf, Hl. intros env [= <-] e He. by apply Hk.
Qed.
Lemma saves_secret i secret key c id : files_given i = None -> fields_given i = None -> s_secret i = Some secret ->
  (if_truthy (trim <$> i.(s_envKey)) ?? defaultEnvKey (to_lower (trim i.(s_service)))) = key -> ENV_KEY_RE key = true ->
  c = MkCred id i.(s_ownerId) (Some h.(configOrgId)) (to_lower (trim i.(s_service))) k_env (Some key) None None (if_truthy i.(s_host)) (if_truthy i.(s_accountLabel))
        None None None false (h.(encryptSecret) secret) (fingerprintOf h secret) (if_truthy i.(s_origin)) i.(s_expiresAt) 0 0 None -> saves i c.
Proof.
  intros Hf Hl Hs Hk Hre ->. split_and!; [done..| |].
  - intros x t1 t2. unfold load, stamp, decryptToEnv. cbn. rewrite decrypts. cbn. unfold given. by rewrite Hf, Hl, Hk, Hs.
  - unfold given. rewrite Hf, Hl, Hk. intros env [= <-] e ->%list_elem_of_singleton. done.
Qed.

Lemma saved_record_saves i c : saved_record h i = Ok c ->
  given_json i = JNull \/ h.(parse) (h.(stringify) (given_json i)) = Some (given_json i) -> saves i c.
Proof.
  unfold saved_record. intros H Hj. destruct (negb (truthy _)); [done|]. destruct (input_files i) as [files|] eqn:Ef; [|done].
  apply input_files_given in Ef as ->. cbn [mbind result_bind] in H. destruct (input_fields (files_given i) i) as [fields|] eqn:Efl; [|done].
  apply input_fields_given in Efl. cbn [mbind result_bind] in H. unfold given_json in Hj.
  destruct (files_given i) as [l|] eqn:El.
  - subst fields. destruct Hj as [|Hj]; [done|]. cbn in H. repeat (case_match; [done|]). injection H as <-. by eapply saves_files.
  - destruct (fields_given i) as [fs|] eqn:Efs.
    + destruct Efl as (fl & -> & <- & Hn & Hk). destruct Hj as [|Hj]; [done|].
      assert (Hg : given_json i = JObj (map (fun f => (f.1.1, JStr f.1.2)) fl)) by (unfold given_json; by rewrite El, Efs, List.map_map).
      rewrite <- Hg in H. rewrite List.map_map, <- Hg in Hj. cbn in H. repeat (case_match; [done|]). injection H as <-.
      eapply saves_fields; try done.
    + subst fields. cbn [is_some] in H. change (k_env === k_env) with true in H. cbn [andb negb] in H.
      destruct (s_secret i) as [secret|] eqn:Es; [|done]. destruct (_ || _) eqn:E1; [done|]. cbv zeta in H.
      set (key := if_truthy (trim <$> s_envKey i) ?? defaultEnvKey (to_lower (trim (s_service i)))) in *.
      destruct (truthy key && negb (ENV_KEY_RE key)) eqn:E2; [done|]. injection H as <-.
      assert (Hkey : truthy key = true).
      { unfold key. destruct (s_envKey i) as [k|]; simpl; [destruct (trim k) eqn:Et|]; unfold if_truthy; simpl; try done;
          unfold defaultEnvKey; by destruct (env_word _). }
      rewrite Hkey in E2. cbn [andb] in E2. to_prop. eapply (saves_secret _ secret key); try done.
      unfold if_truthy. cbn. by rewrite Hkey.
Qed.
End host.

Lemma saved_record_service h i c : saved_record h i = Ok c -> c.(service) = to_lower (trim i.(s_service)).
Proof.
  unfold saved_record. intros H. destruct (negb (truthy _)); [done|]. destruct (input_files i) as [files|]; [|done]. cbn [mbind result_bind] in H.
  destruct (input_fields files i) as [fields|]; [|done]. cbn [mbind result_bind] in H. cbv zeta in H.
  destruct (_ || _); [done|]. destruct (match _ with Some k => _ | None => false end); [done|]. by injection H as <-.
Qed.

Section load.
Context {Mc Mg Ma : Type} `{!DurableMap Mc KeychainCredential} `{!DurableMap Mg KeychainGrant} `{!DurableMap Ma KeychainAsk}.
Context `{!DurableMapLaws Mc KeychainCredential}.
Variable h : Host.
Abbreviation St := (Keychain Mc Mg Ma).

Lemma run_save t i (s : St) :
  run t (save h i) s =
    match saved_record h i with
    | Ok c =>
        let c := stamp ((c_createdAt <$> dm_get c.(c_id) s.(creds)) ?? t) t c in
        Some (Ok (toMeta c), s <| creds := dm_put c.(c_id) c s.(creds) |>)
    | Throw e => Some (Throw e, s)
    end.
Proof. unfold save. destruct (saved_record h i) as [c|e]; [|done]. by destruct s. Qed.

Lemma run_load t o id (s : St) c m :
  dm_get id s.(creds) = Some c -> same c.(c_ownerId) o = true -> c.(c_kind) <> k_broker -> c.(managed) = false ->
  expired c.(c_expiresAt) t = false -> load h c None = Some m ->
  run t (materializeOwnById h o id (scopeId personal o)) s = Some (Ok m, s).
Proof.
  intros Hg Ho Hk Hm He Hl. unfold materializeOwnById. rewrite bool_decide_eq_true_2 by done. cbn [negb].
  cbn [mbind call_bind get_cred await run]. unfold on_creds. cbn [run]. rewrite Hg. unfold same in *. rewrite Ho. cbn [negb].
  rewrite bool_decide_eq_false_2 by done. rewrite Hm. cbn [mbind call_bind now run].
  unfold credExpired. rewrite He, andb_false_r. unfold materializeDecrypted. fold (load h c None). rewrite Hl. by destruct s.
Qed.

(** C14: What is saved is what is loaded.  When a credential is saved, its owner, in their own
    personal conversation, loads by the identifier that came back exactly what was given:
    files with their paths made relative to the home directory and their content, or every
    field under its name, or the secret under its name; under the service's name, until it
    expires, and as often as they like.  The names are ones a shell can export.  Nothing else
    in the keychain changes. *)
Theorem saved_is_loaded i (s s' : St) meta t t' :
  (forall x, h.(decryptSecret) (h.(encryptSecret) x) = Some x) ->
  given_json i = JNull \/ h.(parse) (h.(stringify) (given_json i)) = Some (given_json i) ->
  personKey (Some i.(s_ownerId)) <> "" ->
  run t (save h i) s = Some (Ok meta, s') -> expired i.(s_expiresAt) t' = false ->
  run t' (materializeOwnById h i.(s_ownerId) meta.(c_id) (scopeId personal i.(s_ownerId))) s' =
    Some (Ok (MkLoaded meta.(c_id) i.(s_ownerId) (to_lower (trim i.(s_service))) (given i) None), s') /\
  (forall env, given i = l_env env -> forall e, e ∈ env -> ENV_KEY_RE e.1 = true) /\
  (forall id, id <> meta.(c_id) -> dm_get id s'.(creds) = dm_get id s.(creds)) /\ s'.(grants) = s.(grants) /\ s'.(asks) = s.(asks).
Proof.
  intros Hd Hj Ho Hr He. rewrite run_save in Hr. destruct (saved_record h i) as [c|] eqn:Ec; [|discriminate Hr].
  destruct (saved_record_saves h Hd i c Ec Hj) as (Howner & Hm & Hk & Hexp & Hload & Hkeys). pose proof (saved_record_service h i c Ec) as Hsvc.
  cbv zeta in Hr. set (c' := stamp _ t c) in Hr. injection Hr as <- <-. split_and!.
  - apply (run_load _ _ _ _ c').
    + apply dm_get_put_eq.
    + unfold c', stamp. cbn. rewrite Howner. unfold same, samePerson. rewrite eqb_refl. apply andb_true_iff. split; [by apply negb_true_iff, eqb_false|done].
    + done.
    + done.
    + unfold c', stamp. cbn. by rewrite Hexp.
    + unfold c'. rewrite Hload. by rewrite Howner, Hsvc.
  - exact Hkeys.
  - intros id Hid. cbn. apply dm_get_put_ne. intros E. apply Hid. by rewrite <- E.
  - done.
  - done.
Qed.
End load.

(** ** Witness: a credential of two fields *)

Definition two_fields : SaveCredentialInput :=
  MkSave "ann" " Stripe " None None (Some [MkFieldInput " API_KEY" "k1" None; MkFieldInput "API_URL" "https://x" (Some false)]) None None None None None None.
Definition codec_host : Host :=
  MkHost (fun s => "enc:" +:+ s) (fun s => if starts_with s "enc:" then Some (str_drop 4 s) else None) (join "|")
    (fun _ => "json") (fun s => if s === "json" then Some (given_json two_fields) else None) "acme" false None None "core".
Definition no_keychain : Keychain (jsmap string KeychainCredential) (jsmap string KeychainGrant) (jsmap string KeychainAsk) :=
  MkKeychain ∅ ∅ ∅ ∅ [] [] [].
Definition after_save := match run 5 (save codec_host two_fields) no_keychain with Some (Ok c, s) => Some (c, s) | _ => None end.

Lemma saved_is_loaded_witness :
  match after_save with
  | Some (meta, s') => fst <$> run 9 (materializeOwnById codec_host "ann" meta.(c_id) "personal:ann") s'
  | None => None
  end = Some (Ok (MkLoaded "ann|stripe|env:API_KEY,API_URL" "ann" "stripe" (l_env [("API_KEY", "k1"); ("API_URL", "https://x")]) None)).
Proof.
  assert (H : exists meta s', run 5 (save codec_host two_fields) no_keychain = Some (Ok meta, s') /\ meta.(c_id) = "ann|stripe|env:API_KEY,API_URL").
  { eexists. eexists. split; [vm_compute; reflexivity|reflexivity]. }
  destruct H as (meta & s' & Hr & Hid). unfold after_save. rewrite Hr.
  assert (HL : run 9 (materializeOwnById codec_host "ann" meta.(c_id) "personal:ann") s' =
    Some (Ok (MkLoaded meta.(c_id) "ann" "stripe" (given two_fields) None), s')).
  { refine (proj1 (saved_is_loaded codec_host two_fields no_keychain s' meta 5 9 _ _ _ Hr _)).
    - intros x. reflexivity.
    - right. reflexivity.
    - discriminate.
    - reflexivity. }
  rewrite HL, Hid. reflexivity.
Defined.
