(* ===== verification/SecretDrop.v ===== *)
(** * Secret drops: a secret handed over by a link

    A turn makes a link; the person it is for opens it and enters a secret, which is saved in
    their keychain and granted to the conversation ([src/src/credentials/secret-drop.ts],
    [src/src/api/routes/secret-drop.ts]).  The handlers are calls cut at their awaits, over the
    keychain ([Keychain]), the map of drops and the rule of who may share with a conversation,
    which changes as it likes.  The page with the form is not modelled. *)

From S2P Require Import Prelude JsString Json Scope Turn Regex DurableMap Auth Async Keychain.

#[local] Open Scope string_scope.
#[local] Open Scope Z_scope.

(** ** The store *)

(** [SecretDropField] src/src/credentials/secret-drop.ts:6-10 *)
Record SecretDropField := MkDropField { df_key : string; df_label : option string; df_secret : bool }.
(** [SecretDropRecord] src/src/credentials/secret-drop.ts:12-28 *)
Record SecretDropRecord := MkDrop {
  dr_ownerId : string;
  dr_orgId : option string;
  dr_service : string;
  dr_envKey : option string;
  dr_host : option string;
  dr_fields : option (list SecretDropField);
  dr_purpose : string;
  requestedBy : string;
  dr_audience : option ScopeId;
  dr_scopeVersion : option string;
  grantMode : option GrantMode;
  dr_destination : option Destination;
  dr_threadRef : option string;
  requiresToken : bool;
  dr_createdAt : Z;
}.
#[export] Instance SecretDropRecord_eta : Eta SecretDropRecord := fun d =>
  MkDrop d.(dr_ownerId) d.(dr_orgId) d.(dr_service) d.(dr_envKey) d.(dr_host) d.(dr_fields) d.(dr_purpose) d.(requestedBy)
    d.(dr_audience) d.(dr_scopeVersion) d.(grantMode) d.(dr_destination) d.(dr_threadRef) d.(requiresToken) d.(dr_createdAt).

(** [SecretDropResult] src/src/credentials/secret-drop.ts:30-30 *)
Inductive SecretDropResult := drop_ok (rec : SecretDropRecord) | drop_not_found | drop_expired.

(** [SECRET_DROP_TTL_MS] src/src/credentials/secret-drop.ts:39-39 *)
Definition SECRET_DROP_TTL_MS : Z := 7 * 24 * 60 * 60000.

(** [judge] src/src/credentials/secret-drop.ts:47-51 *)
Definition judge (ttl : Z) (rec : option SecretDropRecord) (at_ : Z) : SecretDropResult :=
  match rec with
  | None => drop_not_found
  | Some rec => if at_ - rec.(dr_createdAt) >? ttl then drop_expired else drop_ok rec
  end.

(** ** The desk: what the handlers share *)

Record Desk (Mc Mg Ma Md : Type) := MkDesk {
  kc : Keychain Mc Mg Ma;
  drops : Md;
  authorizes : string -> ScopeId -> option string -> result string bool;
}.
Arguments MkDesk {Mc Mg Ma Md}.
Arguments kc {Mc Mg Ma Md} d.
Arguments drops {Mc Mg Ma Md} d.
Arguments authorizes {Mc Mg Ma Md} d.
#[export] Instance Desk_eta Mc Mg Ma Md : Eta (Desk Mc Mg Ma Md) := fun d => MkDesk d.(kc) d.(drops) d.(authorizes).

(** The answer to a request: a status with the credential, or with the message. *)
Inductive Answer := answered (credential : KeychainCredential) | refused (status : Z) (message : string).

(** [DropResolution] src/src/triggers/keychain-ask.ts:76-87
    What the conversation is woken with, but for the other drops that wait. *)
Record DropResolution := MkResolution {
  rs_id : string;
  rs_ownerId : string;
  rs_service : string;
  rs_purpose : string;
  rs_audience : ScopeId;
  rs_destination : option Destination;
  rs_threadRef : option string;
  rs_grantId : option string;
}.

(** What a turn's capability says, as far as a mint looks at it. *)
Record Capability := MkCapability {
  cap_actorId : string;
  cap_scopeId : ScopeId;
  cap_scopeVersion : option string;
  cap_triggered : bool;
  cap_destination : option Destination;
  cap_threadRef : option string;
}.
(** The body of a mint, its fields as [typeof] finds them. *)
Record MintBody := MkMintBody {
  mb_service : option string;
  mb_envKey : option string;
  mb_host : option string;
  mb_purpose : option string;
  mb_grantMode : option Json;
  mb_fields : option Json;
}.

(** [MAX_DROP_FIELDS] src/src/api/routes/secret-drop.ts:16-16 *)
Definition MAX_DROP_FIELDS : nat := 8.
(** [parseDropFields] src/src/api/routes/secret-drop.ts:23-32
    One turn of the loop over the fields; [None] is ["invalid"]. *)
Definition parse_field (seen : list string) (f : Json) : option SecretDropField :=
  key ← str_field "key" f;
  if negb (ENV_KEY_RE key) || includes seen key then None
  else
    let label := match str_field "label" f with
                 | Some l => if truthy (trim l) then Some (str_take 80 (trim l)) else None
                 | None => None
                 end in
    let secret := match field "secret" f with Some (JBool false) => false | _ => true end in
    Some (MkDropField key label secret).
Fixpoint parse_fields (seen : list string) (l : list Json) : option (list SecretDropField) :=
  match l with
  | [] => Some []
  | f :: l => x ← parse_field seen f; xs ← parse_fields (seen ++ [x.(df_key)])%list l; Some (x :: xs)
  end.
(** [parseDropFields] src/src/api/routes/secret-drop.ts:19-34
    [None] is ["invalid"]. *)
Definition parseDropFields (raw : option Json) : option (option (list SecretDropField)) :=
  match raw with
  | None => Some None
  | Some (JArr []) => None
  | Some (JArr l) => if Nat.ltb MAX_DROP_FIELDS (length l) then None else Some <$> parse_fields [] l
  | Some _ => None
  end.

(** [mintDrop] src/src/api/routes/secret-drop.ts:132-135
    A mode as the body gives it. *)
Definition grant_mode (j : option Json) : option (option GrantMode) :=
  match j with
  | None => Some None
  | Some (JStr s) => if s === "once" then Some (Some once) else if s === "standing" then Some (Some standing) else None
  | Some _ => None
  end.

Section drop.
Context {Mc Mg Ma Md : Type} `{!DurableMap Mc KeychainCredential} `{!DurableMap Mg KeychainGrant} `{!DurableMap Ma KeychainAsk}
  `{!DurableMap Md SecretDropRecord} `{Crypto : !Auth.Host}.
Variables (h : Keychain.Host) (capSecrets : list string) (ttlMs : option Z).
Abbreviation St := (Desk Mc Mg Ma Md).
Abbreviation call := (call St Error).

Definition in_keychain {A} (c : Async.call (Keychain Mc Mg Ma) Error A) : call A :=
  zoom kc (fun k s => s <| kc := k |>) c.
Definition on_drops {X} (f : Md -> X * Md) (s : St) : option (X * St) :=
  let '(x, m) := f s.(drops) in Some (x, s <| drops := m |>).
Definition ttl : Z := ttlMs ?? SECRET_DROP_TTL_MS.

(** [mint] src/src/credentials/secret-drop.ts:53-57 *)
Definition mint (dropId : string) (rec : SecretDropRecord) : call unit :=
  t ← now;
  await (on_drops (fun m => (tt, dm_put dropId (rec <| dr_createdAt := t |>) m))).
(** [peek] src/src/credentials/secret-drop.ts:58-60 *)
Definition peek (dropId : string) : call SecretDropResult :=
  rec ← await (on_drops (fun m => (dm_get dropId m, m)));
  t ← now;
  mret (judge ttl rec t).
(** [redeem] src/src/credentials/secret-drop.ts:61-63 *)
Definition redeem (dropId : string) : call SecretDropResult :=
  rec ← await (on_drops (dm_take dropId));
  t ← now;
  mret (judge ttl rec t).
(** [siblings] src/src/credentials/secret-drop.ts:64-81
    The records that ran out are deleted on the way. *)
Definition siblings (rec : SecretDropRecord) : call (list SecretDropRecord) :=
  t ← now;
  l ← await (on_drops (fun m => (dm_entries m, m)));
  collect l (fun p =>
    if t - p.2.(dr_createdAt) >? ttl then _ ← await (on_drops (fun m => (tt, dm_delete p.1 m))); mret []
    else mret (if (p.2.(dr_orgId) === rec.(dr_orgId)) && (p.2.(dr_audience) === rec.(dr_audience))
                  && (p.2.(dr_threadRef) === rec.(dr_threadRef)) && (p.2.(dr_service) !== rec.(dr_service))
               then [p.2] else [])).

(** ** The link *)

(** [dropScopeAuthorized] src/src/api/routes/secret-drop.ts:46-56 *)
Definition dropScopeAuthorized (rec : SecretDropRecord) : call bool :=
  match rec.(dr_audience) with
  | Some a =>
      if truthy a && isSharedScope (Some a)
      then await (fun s => Some (match s.(authorizes) rec.(dr_ownerId) a (if_truthy rec.(dr_scopeVersion)) with
                                 | Ok b => b | Throw _ => false end, s))
      else mret true
  | None => mret true
  end.
(** [dropLinkTokenOk] src/src/api/routes/secret-drop.ts:58-67 *)
Definition dropLinkTokenOk (dropId : string) (token : option string) (rec : SecretDropRecord) (now : Z) : bool :=
  if negb rec.(requiresToken) then true
  else match if_truthy token, capSecrets with
       | Some token, _ :: _ =>
           match verifyCapabilityToken token capSecrets now with
           | Some claims => is_text (field "aud" claims) "secret-drop" && is_text (field "drop" claims) dropId
                              && samePerson (str_field "actorId" claims) (Some rec.(dr_ownerId))
           | None => false
           end
       | _, _ => false
       end.

(** [mintDrop] src/src/api/routes/secret-drop.ts:112-168
    Up to the record; [None] is the record of a link, stored. *)
Definition mintDrop (dropId : string) (cap : option Capability) (b : MintBody) : call (option (Z * string)) :=
  match cap with
  | None => mret (Some (401, "secret-drop mint requires an agent capability token"))
  | Some cap =>
      if match capSecrets with [] => true | _ => false end then mret (Some (500, "no capability secret to bind the drop link with"))
      else if cap.(cap_triggered) then
        mret (Some (403, "secret-drop links can only be minted on a turn a person sent — this turn was fired by a trigger"))
      else if negb (truthy_opt (trim <$> b.(mb_service))) || negb (truthy_opt (trim <$> b.(mb_purpose))) then
        mret (Some (400, "expected { service, purpose, envKey?, host?, grantMode?, fields? }"))
      else match grant_mode b.(mb_grantMode), parseDropFields b.(mb_fields) with
      | None, _ => mret (Some (400, "grantMode must be " +:+ dq +:+ "once" +:+ dq +:+ " or " +:+ dq +:+ "standing" +:+ dq))
      | _, None => mret (Some (400, "fields must be 1–8 items of { key: ENV_VAR_NAME, label?, secret? } with unique keys"))
      | Some mode, Some fields =>
          let kind := (parseScopeId cap.(cap_scopeId)).1 in
          let wantsGrant := (kind === Some Scope.channel) || (kind === Some Scope.group) in
          _ ← mint dropId (MkDrop cap.(cap_actorId) (Some h.(configOrgId)) (trim (b.(mb_service) ?? "")) (if_truthy (trim <$> b.(mb_envKey)))
                             (if_truthy (trim <$> b.(mb_host))) fields (trim (b.(mb_purpose) ?? "")) cap.(cap_actorId)
                             (Some cap.(cap_scopeId)) (if wantsGrant then if_truthy cap.(cap_scopeVersion) else None)
                             (if wantsGrant then Some (mode ?? standing) else None) cap.(cap_destination)
                             (if_truthy cap.(cap_threadRef)) true 0);
          mret None
      end
  end.

(** ** Redeeming *)

(** [redeemDrop] src/src/api/routes/secret-drop.ts:238-249
    The fields of the form, filled in; the first that is missing. *)
Fixpoint filled (fs : list SecretDropField) (values : Json) : result string (list CredentialFieldInput) :=
  match fs with
  | [] => Ok []
  | f :: fs =>
      match str_field f.(df_key) values with
      | Some v => if truthy (trim v) then l ← filled fs values; Ok (MkFieldInput f.(df_key) (trim v) (Some f.(df_secret)) :: l)
                  else Throw ("missing value for " +:+ f.(df_key))
      | None => Throw ("missing value for " +:+ f.(df_key))
      end
  end.

Definition gone_message (r : SecretDropResult) : string :=
  match r with
  | drop_expired => "this drop link has expired — ask the agent for a fresh one"
  | _ => "this drop link is invalid or was already used — ask the agent for a fresh one"
  end.
Definition save_input (drop : SecretDropRecord) (fields : option (list CredentialFieldInput)) (secret : option string) : SaveCredentialInput :=
  MkSave drop.(dr_ownerId) drop.(dr_service) (if is_some fields then None else secret)
    (if is_some fields then None else if_truthy drop.(dr_envKey)) fields None None (if_truthy drop.(dr_host)) None (Some "secret-drop") None.

(** [redeemDrop] src/src/api/routes/secret-drop.ts:263-304
    The drop is taken: the secret is saved and, when the person may still share with the
    conversation, granted to it. *)
Definition keep (dropId : string) (drop : SecretDropRecord) (fields : option (list CredentialFieldInput)) (secret : option string)
  : call (Answer * option DropResolution) :=
  meta ← in_keychain (save h (save_input drop fields secret));
  mayShare ← dropScopeAuthorized drop;
  grantId ← match (if (mayShare : bool) then drop.(grantMode) else None), if_truthy drop.(dr_audience) with
            | Some mode, Some a =>
                g ← in_keychain (mintGrant h (MkGrantInput meta.(c_id) drop.(dr_ownerId) a mode drop.(dr_purpose) None None));
                mret (Some g.(g_id))
            | _, _ => mret None
            end;
  mret (answered meta,
        match (if (mayShare : bool) then if_truthy drop.(dr_audience) else None) with
        | Some a => Some (MkResolution dropId drop.(dr_ownerId) meta.(service) drop.(dr_purpose) a drop.(dr_destination)
                            (if_truthy drop.(dr_threadRef)) grantId)
        | None => None
        end).
(** [redeemDrop] src/src/api/routes/secret-drop.ts:310-313
    A refusal of the keychain becomes the answer. *)
Definition refusal (e : Error) : call (Answer * option DropResolution) :=
  match e with KeychainError st msg => mret (refused st msg, None) | OtherError _ => Raise e end.

(** [redeemDrop] src/src/api/routes/secret-drop.ts:206-314
    [owner] is the header of who is signed in, [token] the link's. *)
Definition redeemDrop (dropId : string) (owner token : option string) (secret : option string) (values : Json)
  : call (Answer * option DropResolution) :=
  peeked ← peek dropId;
  match (peeked : SecretDropResult) with
  | drop_ok rec =>
      t ← now;
      if negb (dropLinkTokenOk dropId token rec t) then mret (refused 404 (gone_message drop_not_found), None)
      else if negb (samePerson owner (Some rec.(dr_ownerId))) then
        mret (refused 403 "sign in as the account owner to complete this credential drop", None)
      else
        ok ← dropScopeAuthorized rec;
        if negb ok then
          _ ← redeem dropId;
          mret (refused 409 "conversation membership changed — ask the agent for a fresh link", None)
        else
          let given : result string (option (list CredentialFieldInput)) :=
            match rec.(dr_fields) with
            | Some (f :: fs) => l ← filled (f :: fs) values; Ok (Some l)
            | _ => if truthy_opt (trim <$> secret) then Ok None else Throw "expected { secret }"
            end in
          match given with
          | Throw msg => mret (refused 400 msg, None)
          | Ok fields =>
              redeemed ← redeem dropId;
              match redeemed with
              | drop_ok drop =>
                  if match drop.(dr_orgId) with Some o => o !== h.(configOrgId) | None => false end
                  then mret (refused 404 "this drop link is for a different org", None)
                  else catch (keep dropId drop fields secret) refusal
              | r => mret (refused 404 (gone_message r), None)
              end
          end
  | r => mret (refused 404 (gone_message r), None)
  end.
End drop.

(** ** A link is redeemed once *)

Inductive Req (Mc Mg Ma : Type) :=
| d_mint (dropId : string) (cap : option Capability) (b : MintBody)
| d_redeem (dropId : string) (owner token secret : option string) (values : Json)
| d_siblings (rec : SecretDropRecord)
| d_keychain (c : Async.call (Keychain Mc Mg Ma) Error unit)
| d_membership (f : string -> ScopeId -> option string -> result string bool).
Arguments d_mint {Mc Mg Ma} dropId cap b.
Arguments d_redeem {Mc Mg Ma} dropId owner token secret values.
Arguments d_siblings {Mc Mg Ma} rec.
Arguments d_keychain {Mc Mg Ma} c.
Arguments d_membership {Mc Mg Ma} f.
Inductive Resp := d_done | d_answered (a : Answer) (woken : option DropResolution).

Section safety.
Context {Mc Mg Ma Md : Type} `{!DurableMap Mc KeychainCredential} `{!DurableMap Mg KeychainGrant} `{!DurableMap Ma KeychainAsk}
  `{!DurableMap Md SecretDropRecord} `{!DurableMapLaws Md SecretDropRecord} `{Crypto : !Auth.Host}.
Variables (h : Keychain.Host) (capSecrets : list string) (ttlMs : option Z).
Abbreviation St := (Desk Mc Mg Ma Md).
Abbreviation call := (call St Error).
Abbreviation Req := (Req Mc Mg Ma).

(** The calls: the two routes, the search for the other drops, whatever is done with the
    keychain by anyone, and a change of who may share with what. *)
Definition serve (q : Req) : call Resp :=
  match q with
  | d_mint id cap b => _ ← mintDrop h capSecrets id cap b; mret d_done
  | d_redeem id owner token secret values =>
      x ← redeemDrop h capSecrets ttlMs id owner token secret values; mret (d_answered x.1 x.2)
  | d_siblings rec => _ ← siblings ttlMs rec; mret d_done
  | d_keychain c => _ ← in_keychain c; mret d_done
  | d_membership f => _ ← await (fun s => Some (tt, s <| authorizes := f |>)); mret d_done
  end.

(** A drop is put down only by the mint of its link, for the person whose turn it is and who
    sent it. *)
Definition minted (q : Req) (id : string) (d : SecretDropRecord) : Prop :=
  exists cap b, q = d_mint id (Some cap) b /\ cap.(cap_triggered) = false /\ d.(dr_ownerId) = cap.(cap_actorId) /\
    d.(dr_audience) = Some cap.(cap_scopeId) /\ d.(requiresToken) = true.
Definition guar (q : Req) (a b : St) : Prop :=
  forall k d, dm_get k b.(drops) = Some d -> dm_get k a.(drops) = Some d \/ minted q k d.

Abbreviation anything := (fun _ : St => True).
Abbreviation wp := (wp any anything).
Abbreviation safe q := (Async.safe (E := Error) any anything (guar q)).
Abbreviation safe_ret := (Async.safe_ret (E := Error) any anything).
Abbreviation safe_raise := (Async.safe_raise (E := Error) any anything).
Abbreviation safe_bind := (Async.safe_bind (E := Error) any anything).
Abbreviation safe_catch := (Async.safe_catch (E := Error) any anything).
Abbreviation safe_now := (Async.safe_now (E := Error) any anything).
Abbreviation safe_collect := (Async.safe_collect (E := Error) any anything).
Abbreviation safe_if := (Async.safe_if (E := Error) any anything).
Abbreviation safe_await := (Async.safe_await (E := Error) any anything).
Abbreviation wp_bind := (Async.wp_bind (E := Error) any anything).
Abbreviation wp_mono := (Async.wp_mono (E := Error) any anything).
Abbreviation wp_done := (Async.wp_done (E := Error) any anything).
Lemma drop_guar_same q (a b : St) : b.(drops) = a.(drops) -> guar q a b.
Proof. intros E k d. rewrite E. auto. Qed.
Lemma guar_refl q (a : St) : guar q a a.
Proof. by apply drop_guar_same. Qed.
Lemma guar_delete q id (s : St) : guar q s (s <| drops := dm_delete id s.(drops) |>).
Proof. intros k d [_ Hg]%dm_get_delete_Some. auto. Qed.
Lemma safe_in_keychain {A} q (c : Async.call (Keychain Mc Mg Ma) Error A) : safe q (in_keychain c).
Proof. apply safe_zoom. intros s k _. split_and!; [done|done|]. by apply drop_guar_same. Qed.
Lemma safe_authorized q rec : safe q (dropScopeAuthorized rec).
Proof.
  unfold dropScopeAuthorized. destruct (dr_audience rec) as [a|]; [|apply safe_ret]. destruct (_ && _); [|apply safe_ret].
  apply safe_await. intros s x s' _ [= <- <-]. split_and!; [done|done|apply guar_refl].
Qed.

(** *** The two operations on the drops *)

Lemma wp_peek {A} q id (f : SecretDropResult -> call A) Q mine s :
  (forall s1 t, wp (guar q) (f (judge (ttl ttlMs) (dm_get id s1.(drops)) t)) Q (mine ++ [(s1, s1)])%list s1) ->
  wp (guar q) (peek ttlMs id ≫= f) Q mine s.
Proof.
  intros H. unfold peek. simpl. intros s1 _ _. unfold on_drops. replace (s1 <| drops := s1.(drops) |>) with s1 by (by destruct s1). split_and!; [done|done|apply guar_refl|]. intros t. apply H.
Qed.
Lemma wp_redeem {A} q id (f : SecretDropResult -> call A) Q mine s :
  (forall s1 t, let s2 := s1 <| drops := dm_delete id s1.(drops) |> in
     wp (guar q) (f (judge (ttl ttlMs) (dm_get id s1.(drops)) t)) Q (mine ++ [(s1, s2)])%list s2) ->
  wp (guar q) (redeem ttlMs id ≫= f) Q mine s.
Proof.
  intros H. unfold redeem. simpl. intros s1 _ _. unfold on_drops, dm_take. split_and!; [done|done|apply guar_delete|]. intros t. apply H.
Qed.

(** *** Every call *)

Definition gave (id : string) (d : SecretDropRecord) (p : St * St) : Prop :=
  dm_get id p.1.(drops) = Some d.
Definition took (id : string) (d : SecretDropRecord) (p : St * St) : Prop :=
  dm_get id p.1.(drops) = Some d /\ dm_get id p.2.(drops) = None.
(** The link opens the drop [d] at [t]. *)
Definition link_opens (id : string) (token : option string) (d : SecretDropRecord) : Prop :=
  exists t, dropLinkTokenOk capSecrets id token d t = true.
Definition post (q : Req) (r : result Error Resp) (mine : list (St * St)) (_ : St) : Prop :=
  match q, r with
  | d_redeem id owner token _ _, Ok (d_answered (answered c) woken) =>
      (exists d p, p ∈ mine /\ gave id d p /\ link_opens id token d /\ samePerson owner (Some d.(dr_ownerId)) = true) /\
      (exists d p, p ∈ mine /\ took id d p /\ c.(c_ownerId) = d.(dr_ownerId) /\
         forall w, woken = Some w -> w.(rs_ownerId) = d.(dr_ownerId) /\ d.(dr_audience) = Some w.(rs_audience))
  | _, _ => True
  end.

Lemma saved_owner i c : saved_record h i = Ok c -> c.(c_ownerId) = i.(s_ownerId).
Proof.
  unfold saved_record. destruct (negb _); [discriminate|]. intros (files & Hf & H)%bind_Ok. apply bind_Ok in H as (fields & Hfs & H).
  destruct (_ || _); [discriminate|]. cbv zeta in H. destruct (match _ with Some k => _ | None => false end); [discriminate|].
  by injection H as <-.
Qed.
Lemma save_owner i : yields (fun c => c.(c_ownerId) = i.(s_ownerId)) (save (Mc := Mc) (Mg := Mg) (Ma := Ma) h i).
Proof.
  unfold save. apply yields_bind. eapply yields_mono; [|apply yields_lift; intros a; apply saved_owner].
  intros rec E. simpl. done.
Qed.

(** What the keeping of a taken drop answers. *)
Definition kept (d : SecretDropRecord) (x : Answer * option DropResolution) : Prop :=
  match x.1 with
  | answered c =>
      c.(c_ownerId) = d.(dr_ownerId) /\
      forall w, x.2 = Some w -> w.(rs_ownerId) = d.(dr_ownerId) /\ d.(dr_audience) = Some w.(rs_audience)
  | refused _ _ => True
  end.
Lemma keep_kept id d fields secret :
  yields (kept d) (catch (keep (Mc := Mc) (Mg := Mg) (Ma := Ma) (Md := Md) h id d fields secret) refusal).
Proof.
  apply yields_catch; [|by intros []]. unfold keep. apply yields_bind. eapply yields_mono; [|apply yields_zoom, save_owner].
  intros meta Hown. cbv beta. apply yields_then. intros may. apply yields_then. intros grantId. simpl. split; [exact Hown|].
  intros w. destruct may; [|done]. destruct (if_truthy (dr_audience d)) as [a|] eqn:Ea; [|done]. intros [= <-]. split; [done|].
  by apply if_truthy_Some in Ea as [? _].
Qed.
Lemma safe_keep q id d fields secret : safe q (catch (keep h id d fields secret) refusal).
Proof.
  apply safe_catch; [|intros []; cbn [refusal]; [apply safe_ret|apply safe_raise]]. unfold keep.
  apply safe_bind; [apply safe_in_keychain|]. intros meta. apply safe_bind; [apply safe_authorized|]. intros may.
  apply safe_bind; [|intros; apply safe_ret]. destruct (if may then _ else _); [|apply safe_ret].
  destruct (if_truthy _); [|apply safe_ret]. apply safe_bind; [apply safe_in_keychain|]. intros; apply safe_ret.
Qed.

Lemma safe_mint q id cap b : (q = d_mint id cap b) -> safe q (mintDrop h capSecrets id cap b).
Proof.
  intros Hq. unfold mintDrop. destruct cap as [cap|]; [|apply safe_ret]. apply safe_if; [apply safe_ret|].
  destruct (cap_triggered cap) eqn:Et; [apply safe_ret|]. apply safe_if; [apply safe_ret|].
  destruct (grant_mode _) as [mode|]; [|apply safe_ret]. destruct (parseDropFields _) as [fields|]; [|apply safe_ret]. cbv zeta.
  apply safe_bind; [|intros; apply safe_ret]. unfold mint. apply safe_bind; [apply safe_now|]. intros t.
  apply safe_await. intros s x s' _ [= <- <-]. split_and!; [done|done|]. intros k d [[-> ->]|[? H]]%dm_get_put_Some; [|by left].
  right. exists cap, b. done.
Qed.
Lemma safe_siblings q rec : safe q (siblings ttlMs rec).
Proof.
  unfold siblings. apply safe_bind; [apply safe_now|]. intros t. apply safe_bind.
  - apply safe_await. intros s x s' _ [= <- <-]. split_and!; [done|done|]. by apply drop_guar_same.
  - intros l. apply safe_collect. intros p. apply safe_if; [|apply safe_ret]. apply safe_bind; [|intros; apply safe_ret].
    apply safe_await. intros s x s' _ [= <- <-]. split_and!; [done|done|apply guar_delete].
Qed.

Lemma judge_ok rec t d : judge (ttl ttlMs) rec t = drop_ok d -> rec = Some d.
Proof. unfold judge. destruct rec; [|done]. destruct (_ >? _); [done|]. by intros [= ->]. Qed.
Lemma wp_redeemed id owner token secret values mine s :
  wp (guar (d_redeem id owner token secret values)) (redeemDrop h capSecrets ttlMs id owner token secret values)
    (fun r m s => match r with Ok x => post (d_redeem id owner token secret values) (Ok (d_answered x.1 x.2)) m s | Throw _ => True end) mine s.
Proof.
  unfold redeemDrop. apply wp_peek. intros s1 t1. destruct (judge _ _ _) as [d0| |] eqn:E0; [|by apply wp_done..]. apply judge_ok in E0.
  cbn [mbind call_bind now wp]. intros t2. destruct (dropLinkTokenOk capSecrets id token d0 t2) eqn:Et; cbn [negb]; [|by apply wp_done].
  destruct (samePerson owner (Some d0.(dr_ownerId))) eqn:Eo; cbn [negb]; [|by apply wp_done].
  apply wp_bind; [done|]. eapply wp_mono; [done| |apply wp_yields; [apply yields_any|by apply safe_authorized]].
  intros [ok|e] m s2 _ (_ & _ & l & ->); [|done].
  assert (Hp : forall l', exists d p, p ∈ ((mine ++ [(s1, s1)]) ++ l')%list /\ gave id d p /\ link_opens id token d /\ samePerson owner (Some d.(dr_ownerId)) = true).
  { intros l'. exists d0, (s1, s1). split_and!; [|exact E0|by exists t2|exact Eo]. apply elem_of_app. left. apply elem_of_app. right. by apply list_elem_of_singleton. }
  destruct ok; cbn [negb]; [|apply wp_redeem; intros; by apply wp_done]. cbv zeta. destruct (match dr_fields d0 with Some _ => _ | None => _ end); [|by apply wp_done].
  apply wp_redeem. intros s3 t3. destruct (judge _ _ _) as [d| |] eqn:E3; [|by apply wp_done..]. apply judge_ok in E3. cbv zeta.
  destruct (match dr_orgId d with Some _ => _ | None => _ end); [by apply wp_done|].
  eapply wp_mono; [done| |apply wp_yields; [apply keep_kept|by apply safe_keep]]. intros [x|e] m s4 _ (_ & Hk & l2 & ->); [|done].
  specialize (Hk x eq_refl). unfold kept in Hk. destruct x as [[c|st msg] woken]; [|done]. cbn [fst snd post] in *. split; [rewrite <- !app_assoc; rewrite app_assoc; apply Hp|].
  exists d, (s3, s3 <| drops := dm_delete id s3.(drops) |>). split; [|split; [split; [exact E3|]|exact Hk]].
  - apply elem_of_app. left. apply elem_of_app. right. by apply list_elem_of_singleton.
  - cbn. by rewrite dm_get_delete, decide_True.
Qed.
Lemma drop_serve_ok q s : True -> wp (guar q) (serve q) (post q) [] s.
Proof.
  intros _. destruct q as [id cap b|id owner token secret values|rec|c|f]; cbn [serve].
  - apply (wp_mono (guar (d_mint id cap b))) with (Q := fun _ _ _ => True); [done|by intros [[]|]|]. apply safe_bind; [by apply safe_mint|intros; apply safe_ret|done].
  - apply wp_bind; [done|]. eapply wp_mono; [done| |apply wp_redeemed]. intros [x|e] m s' _ H; [|done]. by apply wp_done.
  - apply (wp_mono (guar (d_siblings rec))) with (Q := fun _ _ _ => True); [done|by intros [[]|]|]. apply safe_bind; [apply safe_siblings|intros; apply safe_ret|done].
  - apply (wp_mono (guar (d_keychain c))) with (Q := fun _ _ _ => True); [done|by intros [[]|]|]. apply safe_bind; [apply safe_in_keychain|intros; apply safe_ret|done].
  - apply (wp_mono (guar (d_membership f))) with (Q := fun _ _ _ => True); [done|by intros [[]|]|]. apply safe_bind; [|intros; apply safe_ret|done].
    apply safe_await. intros s1 x s2 _ [= <- <-]. split_and!; [done|done|]. by apply drop_guar_same.
Qed.

(** *** Where drops come from *)

Abbreviation World := (World St Error Req Resp).
Lemma drop_origin (w : World) s0 l s k d :
  (forall i a b, (i, (a, b)) ∈ l -> exists q c, w.(pool) !! i = Some (q, c) /\ guar q a b) ->
  chain s0 l s -> dm_get k s.(drops) = Some d ->
  dm_get k s0.(drops) = Some d \/ exists i q c, w.(pool) !! i = Some (q, c) /\ minted q k d.
Proof.
  revert s0. induction l as [|[i [a b]] l IH]; intros s0 Hl Hc Hg; [simpl in Hc; subst; by left|]. destruct Hc as [-> Hc].
  destruct (IH b) as [H1|?]; [|done|done| |by right].
  - intros j a' b' Hin. apply (Hl j). by apply list_elem_of_further.
  - destruct (Hl i a b (list_elem_of_here _ _)) as (q & c & Hp & Hgu). destruct (Hgu k d H1) as [H0|Hm]; [by left|]. right. eauto.
Qed.
Lemma drop_world_ok s0 l : world_ok any anything guar post s0 (acts serve l (begins s0)).
Proof. apply interleaved_ok; [typeclasses eauto|apply drop_serve_ok|done]. Qed.
Lemma drop_minted s0 l k d a b i : (forall k, dm_get k s0.(drops) = None) ->
  (i, (a, b)) ∈ (acts serve l (begins s0)).(trace) -> dm_get k a.(drops) = Some d ->
  exists j q c, (acts serve l (begins s0)).(pool) !! j = Some (q, c) /\ minted q k d.
Proof.
  intros H0 Hin Hg. destruct (drop_world_ok s0 l) as [_ _ Hchain Hsteps _]. apply list_elem_of_split in Hin as (l1 & l2 & E).
  rewrite E in Hchain. apply chain_app in Hchain. destruct (drop_origin (acts serve l (begins s0)) s0 l1 a k d) as [Hn|?]; [|done|done| |done].
  - intros j a' b' Hj. apply Hsteps. rewrite E. apply elem_of_app. by left.
  - by rewrite H0 in Hn.
Qed.

(** *** One drop, one mint *)

Definition there (id : string) (s : St) : bool := is_some (dm_get id s.(drops)).
Definition few (q : Req) : option nat := match q with d_mint _ _ _ => Some 1%nat | _ => None end.
Lemma mint_few q n : few q = Some n -> at_most n (serve q).
Proof.
  destruct q as [id cap b| | | |]; [|done..]. intros [= <-]. cbn [serve]. unfold mintDrop. destruct cap as [cap|]; [|done].
  repeat (match goal with |- at_most _ ((if ?b then _ else _) ≫= _) => destruct b; [done|] end).
  destruct (grant_mode _); [|done]. by destruct (parseDropFields _).
Qed.
Lemma put_down_by s0 l id i a b : (i, (a, b)) ∈ (acts serve l (begins s0)).(trace) -> turned_on (there id) (i, (a, b)) = true ->
  exists cap bd c, (acts serve l (begins s0)).(pool) !! i = Some (d_mint id cap bd, c).
Proof.
  intros Hin Hon. destruct (drop_world_ok s0 l) as [_ _ _ Hsteps _]. destruct (Hsteps i a b Hin) as (_ & q & c & Hp & Hg).
  unfold turned_on, there in Hon. cbn [fst snd] in Hon. destruct (dm_get id b.(drops)) as [d|] eqn:Eb; [|by rewrite andb_false_r in Hon].
  destruct (Hg id d Eb) as [Ea|(cap & bd & -> & _)]; [by rewrite Ea in Hon|]. eauto.
Qed.
Lemma put_down_once s0 l id :
  (forall j j' cap cap' b b' c c', (acts serve l (begins s0)).(pool) !! j = Some (d_mint id cap b, c) ->
     (acts serve l (begins s0)).(pool) !! j' = Some (d_mint id cap' b', c') -> j = j') ->
  (count (turned_on (there id)) (acts serve l (begins s0)).(trace) <= 1)%nat.
Proof.
  intros Hone. destruct (few_steps serve few l s0 mint_few) as [_ Hfew].
  destruct (js_filter (turned_on (there id)) (acts serve l (begins s0)).(trace)) as [|[i [a b]] rest] eqn:Ef; unfold count; rewrite Ef; [simpl; lia|].
  assert (Hi : (i, (a, b)) ∈ js_filter (turned_on (there id)) (acts serve l (begins s0)).(trace)) by (rewrite Ef; apply list_elem_of_here).
  apply elem_of_js_filter in Hi as [Hon Hin]. destruct (put_down_by s0 l id i a b Hin Hon) as (cap & bd & c & Hp).
  destruct (Hfew i _ _ 1%nat Hp eq_refl) as (m & _ & Hlen). rewrite <- Ef. change (length (js_filter ?p ?t)) with (count p t).
  rewrite (count_le_steps (turned_on (there id)) i); [lia|]. intros j [a' b'] Hin' Hon'.
  destruct (put_down_by s0 l id j a' b' Hin' Hon') as (cap' & bd' & c' & Hp'). by eapply Hone.
Qed.

Lemma answered_post s0 l id i owner token secret values c woken : let w := acts serve l (begins s0) in
  w.(pool) !! i = Some (d_redeem id owner token secret values, Ret (d_answered (answered c) woken)) ->
  post (d_redeem id owner token secret values) (Ok (d_answered (answered c) woken)) (steps_of i w.(trace)) w.(st).
Proof. intros w Hp. by apply (ended_ok any anything serve guar post drop_serve_ok s0 l i _ _ (Ok (d_answered (answered c) woken)) I Hp). Qed.

End safety.

(** ** Witness: two redemptions at once *)

Definition drop_claims : Json :=
  JObj [("actorId", JStr "ann"); ("scopeId", JStr "personal:ann"); ("aud", JStr "secret-drop"); ("drop", JStr "drop1"); ("exp", JNum 99000)].
#[local] Instance drop_crypto : Auth.Host := {
  hmac_hex k m := k +:+ "#" +:+ m;
  hmac_b64 k m := k +:+ "!" +:+ m;
  sha256_b64 s := s;
  b64url_utf8 s := s;
  b64_utf8 s := s;
  compactSign kid k p := kid +:+ "." +:+ p +:+ "." +:+ k;
  compactVerify t k := match split_on "." t with [_; p; s] => if k === s then Some p else None | _ => None end;
  protectedKid t := match split_on "." t with k :: _ => Some (Some k) | [] => None end;
  json_parse s := if s === "claims" then Some drop_claims else None;
  json_stringify _ := "claims";
  validTimeZone _ := true;
}.
Definition drop_host : Keychain.Host :=
  MkHost (fun s => s) Some (join "|") (fun _ => "{}") (fun _ => None) "acme" false None None "core".
Definition drop_desk : Desk (jsmap string KeychainCredential) (jsmap string KeychainGrant) (jsmap string KeychainAsk) (jsmap string SecretDropRecord) :=
  MkDesk (MkKeychain ∅ ∅ ∅ ∅ [] [] []) ∅ (fun _ _ _ => Ok true).
Definition drop_token : string := mintSignedPayload drop_claims "k1".
Definition drop_cap : Capability := MkCapability "ann" "channel:C1" None false None (Some "C1:17").
Definition drop_body : MintBody := MkMintBody (Some "GitHub") None None (Some "deploy") None None.
(** Ann's turn makes the link; it is opened twice, and both find the drop before either takes
    it. *)
Definition drop_actions : list (Action (Req (jsmap string KeychainCredential) (jsmap string KeychainGrant) (jsmap string KeychainAsk))) :=
  [Begin (d_mint "drop1" (Some drop_cap) drop_body) 4; Move 0 4;
   Begin (d_redeem "drop1" (Some "ann") (Some drop_token) (Some "s3cret") JNull) 5;
   Begin (d_redeem "drop1" (Some "ann") (Some drop_token) (Some "other") JNull) 5;
   Move 1 5; Move 2 5; Move 1 6; Move 2 6; Move 2 7; Move 1 7; Move 2 7; Move 2 7; Move 2 8; Move 2 8; Move 2 8; Move 2 8].
Abbreviation drop_world := (acts (serve drop_host ["k1"] None) drop_actions (begins drop_desk)).
Example drop_run :
  map (fun p => match p.2 with Ret (d_answered (answered c) w) => Some (inl (c.(c_id), rs_grantId <$> w)) | Ret (d_answered (refused st _) _) => Some (inr st) | _ => None end)
    drop_world.(pool) =
  [None; Some (inr 404); Some (inl ("ann|github|env:GITHUB_TOKEN", Some (Some "ann|github|env:GITHUB_TOKEN|channel:C1|8|deploy")))].
Proof. vm_compute. reflexivity. Qed.

Definition redeemed_at (i : nat) (w : Async.World (Desk (jsmap string KeychainCredential) (jsmap string KeychainGrant) (jsmap string KeychainAsk) (jsmap string SecretDropRecord)) Error (Req (jsmap string KeychainCredential) (jsmap string KeychainGrant) (jsmap string KeychainAsk)) Resp) :=
  match w.(pool) !! i with Some (_, Ret (d_answered (answered c) woken)) => Some (c, woken) | _ => None end.
Definition drop_got : option (KeychainCredential * option DropResolution) := Eval vm_compute in redeemed_at 2 drop_world.
Definition is_mint (q : Req (jsmap string KeychainCredential) (jsmap string KeychainGrant) (jsmap string KeychainAsk)) : bool :=
  match q with d_mint _ _ _ => true | _ => false end.
Lemma drop_mints : map (fun p => is_mint p.1) drop_world.(pool) = [true; false; false].
Proof. vm_compute. reflexivity. Qed.
Lemma mint_at {A} (l : list (Req (jsmap string KeychainCredential) (jsmap string KeychainGrant) (jsmap string KeychainAsk) * A)) j q c :
  map (fun p => is_mint p.1) l = [true; false; false] -> l !! j = Some (q, c) -> is_mint q = true -> j = 0%nat.
Proof. destruct l as [|p0 [|p1 [|p2 [|]]]]; try done. intros [= _ E1 E2]. destruct j as [|[|[|]]]; [done| | |done]; intros [= ->]; simpl in *; congruence. Qed.
Lemma drop_one_mint j cap b r : drop_world.(pool) !! j = Some (d_mint "drop1" cap b, r) -> j = 0%nat.
Proof. intros Hj. exact (mint_at _ j _ r drop_mints Hj eq_refl). Qed.
Lemma drop_one j j' cap cap' b b' r r' : drop_world.(pool) !! j = Some (d_mint "drop1" cap b, r) ->
  drop_world.(pool) !! j' = Some (d_mint "drop1" cap' b', r') -> j = j'.
Proof. intros ->%drop_one_mint ->%drop_one_mint. done. Qed.
Lemma drop_none k : dm_get k drop_desk.(drops) = None.
Proof. done. Qed.

