(* ===== verification/Skills.v ===== *)
(** * Skills: the store of instructions a team keeps, and who changes them

    The skill store ([src/src/skills/skill-store.ts]) with the names and paths it accepts
    ([skill-name.ts]), the upsert of packs and seeds ([seed.ts]) and the operations of the API
    ([src/src/api/app-skills.ts], [app-helpers.ts], [app-sessions.ts]), as calls cut at their
    awaits over any durable map whose [get] returns a copy, as the map of production does: a
    call writes back the record it read, whatever became of it in between.  HMAC and
    [JSON.stringify] are parameters, as are the identity service, the administrators and the
    scopes a viewer may use; who manages a home changes as it likes.  Audit rows are not
    modelled. *)

From S2P Require Import Prelude JsString Json Scope DurableMap Async.

#[local] Open Scope string_scope.
#[local] Open Scope Z_scope.

(** ** Names and paths *)

Definition is_alnum (c : ascii) : bool := is_letter c || is_digit c.
Definition name_char (c : ascii) : bool := is_alnum c || (c === "_"%char) || (c === "."%char) || (c === "-"%char).
(** [isSafeSkillName] src/src/skills/skill-name.ts:1-5 *)
Definition isSafeSkillName (name : string) : bool :=
  match name with
  | "" => false
  | String c s =>
      is_alnum c && str_every name_char s && (Nat.leb (String.length s) 127) && (str_last s !== Some "."%char)
  end.
Definition bad_name : string :=
  "skill name must be 1-128 ASCII letters, digits, dots, underscores, or hyphens; it must start with a letter or digit and cannot end with a dot".
(** [assertSafeSkillName] src/src/skills/skill-name.ts:7-14 *)
Definition assertSafeSkillName (name : string) : result string string :=
  if negb (isSafeSkillName name) then Throw bad_name else Ok name.

Definition nul : ascii := "000"%char.
Definition bad_part (part : string) : bool := (part === ".") || (part === "..") || str_some (fun c => c === nul) part.
(** [safeSkillFilePath] src/src/skills/skill-store.ts:23-37 *)
Definition safeSkillFilePath (path : string) : result string string :=
  let p := tidy_path path in
  let parts := js_filter truthy (split_on "/"%char p) in
  if match parts with [] => true | _ => false end || starts_with path "/" || some bad_part parts
  then Throw ("invalid skill file path: " +:+ path)
  else Ok (join "/" parts).

(** ** Data *)

Inductive SkillStatus := draft | reviewed | published | archived.
#[export] Instance SkillStatus_eq_dec : EqDecision SkillStatus.
Proof. solve_decision. Defined.
(** [SkillFile] src/src/skills/skill-store.ts:9-13 *)
Record SkillFile := MkFile { f_path : string; f_content : string; executable : option bool }.
(** [SkillManifest] src/src/skills/skill-store.ts:15-21 *)
Record SkillManifest := MkManifest {
  m_name : string;
  description : string;
  requiredCapabilities : list string;
  body : string;
  files : option (list SkillFile);
}.
Record PackOf := MkPackOf { p_packId : string; p_commit : string; upstreamName : string }.
(** [Skill] src/src/skills/skill-store.ts:49-63 *)
Record Skill := MkSkill {
  id : string;
  home : ScopeId;
  manifest : SkillManifest;
  signature : string;
  status : SkillStatus;
  createdBy : string;
  version : Z;
  grantedCapabilities : list string;
  approvals : list string;
  createdAt : option Z;
  updatedAt : option Z;
  lastUsedAt : option Z;
  pack : option PackOf;
}.
#[export] Instance Skill_eta : Eta Skill := fun s =>
  MkSkill s.(id) s.(home) s.(manifest) s.(signature) s.(status) s.(createdBy) s.(version) s.(grantedCapabilities)
    s.(approvals) s.(createdAt) s.(updatedAt) s.(lastUsedAt) s.(pack).
#[export] Instance SkillFile_eq_dec : EqDecision SkillFile.
Proof. solve_decision. Defined.
#[export] Instance SkillManifest_eq_dec : EqDecision SkillManifest.
Proof. solve_decision. Defined.
#[export] Instance PackOf_eq_dec : EqDecision PackOf.
Proof. solve_decision. Defined.
#[export] Instance Skill_eq_dec : EqDecision Skill.
Proof. solve_decision. Defined.
(** [SkillResolution] src/src/skills/skill-store.ts:65-68 *)
Record SkillResolution := MkResolution { r_skill : option Skill; shadowed : list Skill }.

(** [canonicalFiles] src/src/skills/skill-store.ts:39-47 *)
Definition canonicalFiles (fs : option (list SkillFile)) : list (string * string * bool) :=
  js_sort (fun a b => str_cmp a.1.1 b.1.1) (map (fun f => (f.(f_path), f.(f_content), f.(executable) === Some true)) (fs ?? [])).

(** ** Resolution *)

(** [scopeKind] src/src/skills/skill-store.ts:93-95 *)
Definition scopeKind (sc : ScopeId) : string := (kind_name <$> (parseScopeId sc).1) ?? sc.
Definition scope_key (sc : ScopeId) (name : string) : string := sc +:+ String nul name.
(** [publishedByScopeAndName] src/src/skills/skill-store.ts:97-105 *)
Definition publishedByScopeAndName (all : list Skill) : jsmap string Skill :=
  fold_left (fun index s =>
    if s.(status) !== published then index
    else let key := scope_key s.(home) s.(manifest).(m_name) in
         if has key index then index else <[key := s]> index) all ∅.
(** [resolveFromIndex] src/src/skills/skill-store.ts:107-112 *)
Definition resolveFromIndex (index : jsmap string Skill) (name : string) (orderedScopes : list ScopeId) : SkillResolution :=
  if negb (isSafeSkillName name) then MkResolution None []
  else match omap (fun sc => index !! scope_key sc name) orderedScopes with
       | [] => MkResolution None []
       | skill :: shadowed => MkResolution (Some skill) shadowed
       end.
(** [visibleFor] src/src/skills/skill-store.ts:225-239
    Of the skills that are there. *)
Definition visible (all : list Skill) (orderedScopes : list ScopeId) : list SkillResolution :=
  let index := publishedByScopeAndName all in
  let names := dedup (map (fun s => s.(manifest).(m_name))
    (js_filter (fun s => (s.(status) === published) && includes orderedScopes s.(home) && isSafeSkillName s.(manifest).(m_name)) all)) in
  js_filter (fun r => is_some r.(r_skill)) (map (fun n => resolveFromIndex index n orderedScopes) names).

(** ** The store *)

(** What the calls share: the skills, and who manages the artifacts of a home, by its home and
    the author of the artifact. *)
Record Shelf (Ms : Type) := MkShelf { skills : Ms; manages : ScopeId -> string -> string -> result string bool }.
Arguments MkShelf {Ms} skills manages.
Arguments skills {Ms} s.
Arguments manages {Ms} s.
#[export] Instance Shelf_eta Ms : Eta (Shelf Ms) := fun s => MkShelf s.(skills) s.(manages).

Section skills.
Context {Ms : Type} `{!DurableMap Ms Skill}.
Variables (hmac : string -> string) (show_json : Json -> string).
Abbreviation St := (Shelf Ms).
Abbreviation call := (call St string).

(** [createSkillStore] src/src/skills/skill-store.ts:118-128 *)
Definition sign (m : SkillManifest) : string :=
  let fs := canonicalFiles m.(files) in
  hmac (show_json (JObj ([("name", JStr m.(m_name)); ("description", JStr m.(description));
      ("requiredCapabilities", JArr (map JStr (js_sort str_cmp m.(requiredCapabilities)))); ("body", JStr m.(body))] ++
    match fs with [] => [] | _ => [("files", JArr (map (fun f => JArr [JStr f.1.1; JStr f.1.2; JBool f.2]) fs))] end)%list)).

Definition on_skills {X} (f : Ms -> X * Ms) (s : St) : option (X * St) :=
  let '(x, m) := f s.(skills) in Some (x, s <| skills := m |>).
Definition get_skill (k : string) : call (option Skill) := await (on_skills (fun m => (dm_get k m, m))).
Definition put_skill (s : Skill) : call unit := await (on_skills (fun m => (tt, dm_put s.(id) s m))).
Definition all_skills : call (list Skill) := await (on_skills (fun m => (dm_all m, m))).
Definition known (k : string) (s : option Skill) : call Skill :=
  match s with Some s => mret s | None => Raise ("unknown skill: " +:+ k) end.
Definition fresh (s : Skill) (t : Z) : Skill := s <| updatedAt := Some t |>.

(** [create] src/src/skills/skill-store.ts:131-150 *)
Definition create (newId : string) (sc : ScopeId) (m : SkillManifest) (by_ : string) (pk : option PackOf) : call Skill :=
  _ ← lift (assertSafeSkillName m.(m_name));
  t ← now;
  let s := MkSkill newId sc m (sign m) draft by_ 1 [] [] (Some t) (Some t) None pk in
  _ ← put_skill s;
  mret s.
(** [update] src/src/skills/skill-store.ts:156-160 *)
Definition updated (s : Skill) (m : SkillManifest) (t : Z) : Skill :=
  let s := s <| manifest := m |> <| signature := sign m |> in
  let s := if scopeKind s.(home) !== "personal" then s <| status := draft |> else s in
  fresh (s <| version := s.(version) + 1 |>) t.
(** [update] src/src/skills/skill-store.ts:151-163 *)
Definition update (k : string) (m : SkillManifest) : call Skill :=
  _ ← lift (assertSafeSkillName m.(m_name));
  s ← get_skill k;
  s ← known k s;
  if m.(m_name) !== s.(manifest).(m_name) then Raise "skill update cannot rename — create a new skill instead"
  else
    t ← now;
    let s := updated s m t in
    _ ← put_skill s;
    mret s.
(** [verify] src/src/skills/skill-store.ts:168-170 *)
Definition verify (s : Skill) : bool := sign s.(manifest) === s.(signature).
(** [review] src/src/skills/skill-store.ts:172-183 *)
Definition review (k reviewer : string) (grantCapabilities : list string) : call Skill :=
  s ← get_skill k;
  s ← known k s;
  _ ← lift (assertSafeSkillName s.(manifest).(m_name));
  if sign s.(manifest) !== s.(signature) then Raise "skill signature invalid — manifest was tampered with"
  else
    t ← now;
    let s := s <| grantedCapabilities := dedup (s.(grantedCapabilities) ++ grantCapabilities)%list |> in
    let s := if negb (includes s.(approvals) reviewer) then s <| approvals := (s.(approvals) ++ [reviewer])%list |> else s in
    let s := fresh (s <| status := reviewed |>) t in
    _ ← put_skill s;
    mret s.
(** [publish] src/src/skills/skill-store.ts:185-196 *)
Definition publish (k : string) : call Skill :=
  s ← get_skill k;
  s ← known k s;
  _ ← lift (assertSafeSkillName s.(manifest).(m_name));
  if s.(status) === draft then Raise "skill must be reviewed before it is published"
  else
    let missing := js_filter (fun c => negb (includes s.(grantedCapabilities) c)) s.(manifest).(requiredCapabilities) in
    match missing with
    | _ :: _ => Raise ("skill requires ungranted capabilities: " +:+ join ", " missing)
    | [] =>
        t ← now;
        let s := fresh (s <| status := published |>) t in
        _ ← put_skill s;
        mret s
    end.
(** [archive] src/src/skills/skill-store.ts:198-206 *)
Definition archive (k : string) : call Skill :=
  s ← get_skill k;
  s ← known k s;
  if s.(status) === archived then mret s
  else
    t ← now;
    let s := fresh (s <| status := archived |>) t in
    _ ← put_skill s;
    mret s.
(** [restore] src/src/skills/skill-store.ts:208-211 *)
Definition restore (s : Skill) : call unit :=
  _ ← lift (assertSafeSkillName s.(manifest).(m_name));
  put_skill s.
(** [delete] src/src/skills/skill-store.ts:213-215 *)
Definition delete_ (k : string) : call unit := await (on_skills (fun m => (tt, dm_delete k m))).
(** [recordUse] src/src/skills/skill-store.ts:217-219 *)
Definition recordUse (k : string) (at_ : option Z) : call unit :=
  t ← now;
  await (on_skills (fun m => (tt, (dm_merge k (fun s => s <| lastUsedAt := Some (at_ ?? t) |>) m).2))).
(** [resolve] src/src/skills/skill-store.ts:221-223 *)
Definition resolve (name : string) (orderedScopes : list ScopeId) : call SkillResolution :=
  all ← all_skills;
  mret (resolveFromIndex (publishedByScopeAndName all) name orderedScopes).
(** [visibleFor] src/src/skills/skill-store.ts:225-239 *)
Definition visibleFor (orderedScopes : list ScopeId) : call (list SkillResolution) :=
  all ← all_skills;
  mret (visible all orderedScopes).
(** [promote] src/src/skills/skill-store.ts:241-266 *)
Definition promote (newId k : string) (targetScopeId : ScopeId) : call Skill :=
  s ← get_skill k;
  s ← known k s;
  _ ← lift (assertSafeSkillName s.(manifest).(m_name));
  if s.(status) !== published then Raise "only a published skill can be promoted"
  else if sign s.(manifest) !== s.(signature) then Raise "skill signature invalid — cannot promote"
  else
    all ← all_skills;
    let existing := find (fun x => (x.(status) === published) && (x.(home) === targetScopeId)
                                     && (x.(manifest).(m_name) === s.(manifest).(m_name))) all in
    t ← now;
    let promoted := MkSkill ((id <$> existing) ?? newId) targetScopeId s.(manifest) (sign s.(manifest)) published s.(createdBy)
                      (((version <$> existing) ?? 0) + 1) s.(grantedCapabilities) s.(approvals) (Some t) (Some t) None None in
    _ ← put_skill promoted;
    mret promoted.
(** [move] src/src/skills/skill-store.ts:268-279 *)
Definition move_ (k : string) (toScopeId : ScopeId) : call Skill :=
  s ← get_skill k;
  s ← known k s;
  _ ← lift (assertSafeSkillName s.(manifest).(m_name));
  if scopeKind toScopeId === "org" then Raise "ceding a skill to the org goes through promote (admin-gated), not move"
  else
    t ← now;
    let s := fresh (s <| home := toScopeId |>) t in
    _ ← put_skill s;
    mret s.

(** ** Packs and seeds *)

Inductive UpsertOutcome := installed | upserted | skipped | foreign.
Definition cap_key (l : list string) : string := join (String nul "") (js_sort str_cmp l).
(** [canonicalFilesKey] src/src/skills/seed.ts:19-24 *)
Definition canonicalFilesKey (fs : option (list SkillFile)) : string :=
  join (String "001"%char "") (js_sort str_cmp (map (fun f => f.(f_path) +:+ String nul (f.(f_content) +:+ String nul (if f.(executable) === Some true then "1" else "0"))) (fs ?? []))).
(** [sameManifest] src/src/skills/seed.ts:26-33 *)
Definition sameManifest (a b : SkillManifest) : bool :=
  (a.(description) === b.(description)) && (a.(body) === b.(body))
    && (cap_key a.(requiredCapabilities) === cap_key b.(requiredCapabilities))
    && (canonicalFilesKey a.(files) === canonicalFilesKey b.(files)).
(** [foreignSkillCollision] src/src/skills/seed.ts:75-84 *)
Definition foreignSkillCollision (all : list Skill) (sc : ScopeId) (name by_ : string) : option Skill :=
  find (fun s => (s.(home) === sc) && (s.(manifest).(m_name) === name) && (s.(createdBy) !== by_) && (s.(status) !== archived)) all.
(** [upsertSeedSkillUnsafe] src/src/skills/seed.ts:95-117 *)
Definition upsertSeedSkill (newId : string) (sc : ScopeId) (m : SkillManifest) (by_ reviewer : string) (pk : option PackOf) : call UpsertOutcome :=
  all ← all_skills;
  let existing := find (fun s => (s.(home) === sc) && (s.(manifest).(m_name) === m.(m_name)) && (s.(createdBy) === by_)) all in
  match existing with
  | None =>
      if is_some (foreignSkillCollision all sc m.(m_name) by_) then mret foreign
      else
        s ← create newId sc m by_ pk;
        _ ← review s.(id) reviewer m.(requiredCapabilities);
        _ ← publish s.(id);
        mret installed
  | Some e =>
      let changed := negb (sameManifest e.(manifest) m) in
      if negb changed && (e.(status) === published) then mret skipped
      else
        _ ← (if changed then _ ← update e.(id) m; mret tt else mret tt);
        _ ← review e.(id) reviewer m.(requiredCapabilities);
        _ ← publish e.(id);
        mret upserted
  end.

(** ** The operations of the API *)

Variables (org : string) (isAdmin : string -> result string bool) (viewerScopes : string -> result string (list ScopeId))
  (teamIds : string -> list string).

(** [triggerBlocksSharedSkill] src/src/api/artifact-share.ts:9-11 *)
Definition triggerBlocksSharedSkill (homeScope : ScopeId) (liveActor : bool) : bool := isSharedScope (Some homeScope) && negb liveActor.
(** [canManageSkill] src/src/api/app-helpers.ts:419-421 *)
Definition canManageSkill (s : Skill) (principalId : string) : call bool :=
  r ← await (fun st => Some (st.(manages) s.(home) s.(createdBy) principalId, st));
  lift r.
(** [republishIfShared] src/src/api/app-helpers.ts:423-438 *)
Definition republishIfShared (s : Skill) : call Skill :=
  if s.(status) === published then mret s
  else
    let kind := (parseScopeId s.(home)).1 in
    if (kind !== Some channel) && (kind !== Some group) then mret s
    else
      _ ← review s.(id) "system:skill-authoring" s.(manifest).(requiredCapabilities);
      publish s.(id).

Inductive Owned := o_none | o_trigger_blocked | o_skill (s : Skill).
(** [updateOwnedSkill] src/src/api/app-skills.ts:242-262 *)
Definition updateOwnedSkill (k principalId : string) (new_description new_body : option string) (liveActor : bool) : call Owned :=
  s ← get_skill k;
  match (s : option Skill) with
  | None => mret o_none
  | Some s =>
      ok ← canManageSkill s principalId;
      if negb ok then mret o_none
      else if triggerBlocksSharedSkill s.(home) liveActor then mret o_trigger_blocked
      else if s.(status) === archived then mret o_none
      else
        let m := s.(manifest) in
        s ← update k (MkManifest m.(m_name) (new_description ?? m.(description)) m.(requiredCapabilities) (new_body ?? m.(body)) m.(files));
        s ← republishIfShared s;
        mret (o_skill s)
  end.
(** [restoreOwnedSkill] src/src/api/app-skills.ts:263-276 *)
Definition restoreOwnedSkill (k principalId : string) : call Owned :=
  s ← get_skill k;
  match (s : option Skill) with
  | None => mret o_none
  | Some s =>
      if s.(status) !== archived then mret o_none
      else
        ok ← canManageSkill s principalId;
        if negb ok then mret o_none
        else
          _ ← review k principalId s.(manifest).(requiredCapabilities);
          s ← publish k;
          mret (o_skill s)
  end.
(** [createOwnedSkill] src/src/api/app-skills.ts:365-397 *)
Definition createOwnedSkill (newId principalId name desc text : string) (caps : option (list string)) (homeScope : option ScopeId) : call Owned :=
  let name := trim name in
  let desc := trim desc in
  let text := trim text in
  if negb (truthy name) || negb (truthy desc) || negb (truthy text) then Raise "skill requires a non-empty name, description, and body"
  else
    let homeScope := homeScope ?? scopeId personal principalId in
    let homeKind := (parseScopeId homeScope).1 in
    if (homeKind !== Some personal) && (homeKind !== Some channel) && (homeKind !== Some group)
    then Raise "a skill cannot be created directly in an org or team scope — promote a published skill instead"
    else
      all ← all_skills;
      let existing := find (fun s => (s.(home) === homeScope) && (s.(manifest).(m_name) === name)) all in
      if match existing with Some e => e.(status) !== archived | None => false end then mret o_none
      else
        _ ← match existing with Some e => delete_ e.(id) | None => mret tt end;
        let m := MkManifest name desc (caps ?? []) text None in
        s ← create newId homeScope m principalId None;
        _ ← review s.(id) "system:skill-authoring" m.(requiredCapabilities);
        s ← publish s.(id);
        mret (o_skill s).
Inductive Deletion := del_missing | del_forbidden | del_trigger_blocked | del_deleted.
(** [deleteOwnedSkill] src/src/api/app-skills.ts:398-412 *)
Definition deleteOwnedSkill (k principalId : string) (liveActor : bool) : call Deletion :=
  s ← get_skill k;
  match (s : option Skill) with
  | None => mret del_missing
  | Some s =>
      ok ← canManageSkill s principalId;
      if negb ok then mret del_forbidden
      else if triggerBlocksSharedSkill s.(home) liveActor then mret del_trigger_blocked
      else
        _ ← archive k;
        mret del_deleted
  end.
(** [listVisibleSkills] src/src/api/app-skills.ts:220-238 *)
Definition listVisibleSkills (principalId : string) : call (list SkillResolution) :=
  all ← all_skills;
  let sharedHomes := dedup (js_filter (fun sid => let k := (parseScopeId sid).1 in (k === Some channel) || (k === Some group)) (map home all)) in
  accessible ← lift (viewerScopes principalId);
  let shared := js_filter (fun sid => includes (accessible : list ScopeId) sid) sharedHomes in
  visibleFor (dedup ([scopeId personal principalId] ++ shared ++ map (scopeId team) (teamIds principalId) ++ [scopeId Scope.org org])%list).
(** [promoteSkill] src/src/api/app-sessions.ts:510-527 *)
Definition promoteSkill (newId k : string) (targetScopeId : ScopeId) (actorId : string) (liveActor : bool) : call Skill :=
  if (parseScopeId targetScopeId).1 !== Some Scope.org then Raise "promote targets the org scope — use share or move for anything narrower"
  else if negb liveActor then Raise "promoting a skill org-wide takes a live person, never an autonomous trigger"
  else
    admin ← lift (isAdmin actorId);
    if negb admin then Raise "only an org admin can promote a skill org-wide"
    else promote newId k targetScopeId.
End skills.

(** ** What is on the shelf *)

Inductive Req :=
| q_create (newId principalId name desc text : string) (caps : option (list string)) (homeScope : option ScopeId)
| q_update (k principalId : string) (desc text : option string) (liveActor : bool)
| q_restoreOwned (k principalId : string)
| q_delete (k principalId : string) (liveActor : bool)
| q_promote (newId k : string) (target : ScopeId) (actorId : string) (liveActor : bool)
| q_move (k : string) (toScope : ScopeId)
| q_upsert (newId : string) (sc : ScopeId) (m : SkillManifest) (by_ reviewer : string) (pk : option PackOf)
| q_restore (s : Skill)
| q_archive (k : string)
| q_remove (k : string)
| q_use (k : string) (at_ : option Z)
| q_resolve (name : string) (scopes : list ScopeId)
| q_visible (principalId : string)
| q_membership (f : ScopeId -> string -> string -> result string bool).

Section shelf.
Context {Ms : Type} `{!DurableMap Ms Skill} `{!DurableMapLaws Ms Skill}.
Variables (hmac : string -> string) (show_json : Json -> string).
Variables (org : string) (isAdmin : string -> result string bool) (viewerScopes : string -> result string (list ScopeId))
  (teamIds : string -> list string).
Abbreviation St := (Shelf Ms).
Abbreviation call := (call St string).
Abbreviation sign := (sign hmac show_json).

Definition quiet {A} (c : call A) : call unit := _ ← c; mret tt.
Definition serve (q : Req) : call unit :=
  match q with
  | q_create newId p name desc text caps sc => quiet (createOwnedSkill hmac show_json newId p name desc text caps sc)
  | q_update k p desc text live => quiet (updateOwnedSkill hmac show_json k p desc text live)
  | q_restoreOwned k p => quiet (restoreOwnedSkill hmac show_json k p)
  | q_delete k p live => quiet (deleteOwnedSkill k p live)
  | q_promote newId k sc p live => quiet (promoteSkill hmac show_json isAdmin newId k sc p live)
  | q_move k sc => quiet (move_ k sc)
  | q_upsert newId sc m by_ reviewer pk => quiet (upsertSeedSkill hmac show_json newId sc m by_ reviewer pk)
  | q_restore s => quiet (restore s)
  | q_archive k => quiet (archive k)
  | q_remove k => quiet (delete_ k)
  | q_use k t => quiet (recordUse k t)
  | q_resolve name scopes => quiet (resolve name scopes)
  | q_visible p => quiet (listVisibleSkills org viewerScopes teamIds p)
  | q_membership f => await (fun s => Some (tt, s <| manages := f |>))
  end.

Definition orgless (sc : ScopeId) : Prop := scopeKind sc <> "org".
Definition sound (s : Skill) : Prop :=
  isSafeSkillName s.(manifest).(m_name) = true /\ s.(signature) = sign s.(manifest) /\ orgless s.(home).
Definition shelved (st : St) : Prop := forall k s, dm_get k st.(skills) = Some s -> s.(id) = k /\ sound s.

(** What may bring a skill to the whole organisation: a person who is an administrator
    promotes it, a pack or seed is installed there, a deployment layer is put back. *)
Definition brings_org (q : Req) : Prop :=
  match q with
  | q_promote _ _ _ actorId liveActor => liveActor = true /\ isAdmin actorId = Ok true
  | q_upsert _ sc _ _ _ _ => ~ orgless sc
  | q_restore s => ~ sound s
  | _ => False
  end.

Abbreviation safe := (Async.safe (E := string) any shelved any).
Abbreviation safe_ret := (Async.safe_ret (E := string) any shelved any).
Abbreviation safe_raise := (Async.safe_raise (E := string) any shelved any).
Abbreviation safe_bind := (Async.safe_bind (E := string) any shelved any).
Abbreviation safe_now := (Async.safe_now (E := string) any shelved any).
Abbreviation safe_lift := (Async.safe_lift (E := string) any shelved any).
Abbreviation safe_await := (Async.safe_await (E := string) any shelved any).

Lemma safe_get {A} k (f : option Skill -> call A) :
  (forall o, (forall s, o = Some s -> s.(id) = k /\ sound s) -> safe (f o)) -> safe (get_skill k ≫= f).
Proof.
  intros Hf mine s HI. cbn [mbind call_bind await get_skill wp]. intros s' _ HI'. unfold on_skills.
  replace (s' <| skills := s'.(skills) |>) with s' by (by destruct s'). split_and!; [done..|]. apply Hf; [|done]. intros x. apply HI'.
Qed.
Lemma safe_all {A} (f : list Skill -> call A) :
  (forall l, (forall s, s ∈ l -> sound s) -> safe (f l)) -> safe (all_skills ≫= f).
Proof.
  intros Hf mine s HI. cbn [mbind call_bind await all_skills wp]. intros s' _ HI'. unfold on_skills.
  replace (s' <| skills := s'.(skills) |>) with s' by (by destruct s'). split_and!; [done..|]. apply Hf; [|done].
  intros x [k Hk]%elem_of_dm_all. by apply (HI' k).
Qed.
Lemma safe_put s : sound s -> safe (put_skill s).
Proof.
  intros Hs. apply safe_await. intros st x st' HI [= <- <-]. split_and!; [|done|done]. intros k s' [[-> ->]|[? H]]%dm_get_put_Some; [done|].
  by apply HI.
Qed.
Lemma safe_delete k : safe (delete_ k).
Proof.
  apply safe_await. intros st x st' HI [= <- <-]. split_and!; [|done|done]. intros k' s' [? H]%dm_get_delete_Some. by apply HI.
Qed.
Lemma safe_manages s p : safe (canManageSkill s p).
Proof. unfold canManageSkill. apply safe_bind; [|intros; apply safe_lift]. apply safe_await. by intros st x st' HI [= <- <-]. Qed.

(** *** Every operation *)

Lemma safe_assert {A} name (f : string -> call A) : (isSafeSkillName name = true -> safe (f name)) -> safe (lift (assertSafeSkillName name) ≫= f).
Proof. intros Hf. unfold assertSafeSkillName. destruct (isSafeSkillName name); [by apply Hf|apply safe_raise]. Qed.
Lemma safe_known {A} k o (f : Skill -> call A) :
  (forall s, o = Some s -> s.(id) = k /\ sound s) -> (forall s, s.(id) = k -> sound s -> safe (f s)) -> safe (known k o ≫= f).
Proof. intros Ho Hf. destruct o as [s|]; [|apply safe_raise]. destruct (Ho s eq_refl). by apply Hf. Qed.

Ltac shelf_step :=
  match goal with
  | |- safe (get_skill _ ≫= _) => apply safe_get; intros
  | |- safe (all_skills ≫= _) => apply safe_all; intros
  | |- safe (lift (assertSafeSkillName _) ≫= _) => apply safe_assert; intros
  | |- safe (known _ _ ≫= _) => apply safe_known; [done|intros]
  | |- safe (now ≫= _) => apply safe_bind; [apply safe_now|intros]
  | |- safe (put_skill _ ≫= _) => apply safe_bind; [apply safe_put|intros]
  | |- safe (canManageSkill _ _ ≫= _) => apply safe_bind; [apply safe_manages|intros]
  | |- safe (delete_ _ ≫= _) => apply safe_bind; [apply safe_delete|intros]
  | |- safe (mret _) => apply safe_ret
  | |- safe (Raise _) => apply safe_raise
  | |- safe (let _ := _ in _) => cbv zeta
  | |- safe (if ?b then _ else _) => let E := fresh "E" in destruct b eqn:E
  | |- safe (match ?x with _ => _ end) => let E := fresh "E" in destruct x eqn:E
  end.

Ltac still_sound := match goal with H : sound _ |- sound _ => exact H end.

Lemma safe_create newId sc m by_ pk : orgless sc -> safe (create hmac show_json newId sc m by_ pk).
Proof. intros Ho. unfold create. repeat shelf_step. done. Qed.
Lemma sound_updated s m t : isSafeSkillName m.(m_name) = true -> sound s -> sound (updated hmac show_json s m t).
Proof. intros Hn (_ & _ & Ho). unfold updated. cbv zeta. by destruct (scopeKind _ !== _); split_and!. Qed.
Lemma safe_update k m : safe (update hmac show_json k m).
Proof. unfold update. repeat shelf_step. by apply sound_updated. Qed.
Lemma safe_review k r caps : safe (review hmac show_json k r caps).
Proof. unfold review. repeat shelf_step. destruct (negb (includes _ _)); still_sound. Qed.
Lemma safe_publish k : safe (publish k).
Proof. unfold publish. repeat shelf_step. still_sound. Qed.
Lemma safe_archive k : safe (archive k).
Proof. unfold archive. repeat shelf_step. still_sound. Qed.
Lemma safe_restore s : sound s -> safe (restore s).
Proof. intros Hs. unfold restore. shelf_step. by apply safe_put. Qed.
Lemma safe_use k t : safe (recordUse k t).
Proof.
  unfold recordUse. shelf_step. apply safe_await. intros st x st' HI [= <- <-]. split_and!; [|done|done]. intros k' s'. cbn [skills].
  unfold dm_merge. destruct (dm_get k st.(skills)) as [s0|] eqn:E; cbn [snd]; [|by apply HI].
  intros [[-> ->]|[? H]]%dm_get_put_Some; [by apply (HI k s0)|by apply HI].
Qed.
Lemma safe_move k sc : safe (move_ k sc).
Proof.
  unfold move_. repeat shelf_step. match goal with H : sound _ |- _ => destruct H as (? & ? & _) end. to_prop. done.
Qed.
Lemma safe_promote newId k sc : orgless sc -> safe (promote hmac show_json newId k sc).
Proof.
  intros Ho. unfold promote. repeat shelf_step. match goal with H : sound _ |- _ => destruct H as (? & ? & _) end. done.
Qed.
Lemma safe_republish s : safe (republishIfShared hmac show_json s).
Proof. unfold republishIfShared. repeat shelf_step. apply safe_bind; [apply safe_review|]. intros. apply safe_publish. Qed.

(** A home named in a request for a new skill is not the organisation's. *)
Lemma home_orgless sc : ((parseScopeId sc).1 !== Some personal) && ((parseScopeId sc).1 !== Some channel) && ((parseScopeId sc).1 !== Some group) = false ->
  orgless sc.
Proof. unfold orgless, scopeKind. destruct (parseScopeId sc).1 as [[]|]; simpl; by intros. Qed.

(** A skill that is reviewed and published, and then the rest. *)
Lemma safe_reviewed {A} k k' r caps (f : Skill -> call A) : (forall s, safe (f s)) ->
  safe (_ ← review hmac show_json k r caps; s ← publish k'; f s).
Proof. intros Hf. apply safe_bind; [apply safe_review|]. intros. by apply safe_bind; [apply safe_publish|]. Qed.
Lemma safe_serve q : ~ brings_org q -> safe (serve q).
Proof.
  intros Hq. destruct q as [newId p name desc text caps sc|k p desc text live|k p|k p live|newId k sc p live|k sc|newId sc m by_ rv pk|s|k|k|k t|name scs|p|f];
    cbn [serve]; unfold quiet; try (apply safe_bind; [|intros; apply safe_ret]).
  - unfold createOwnedSkill. repeat shelf_step. apply safe_bind; [repeat shelf_step; apply safe_delete|]. intros.
    apply safe_bind; [by apply safe_create, home_orgless|]. intros. apply safe_reviewed. intros. apply safe_ret.
  - unfold updateOwnedSkill. repeat shelf_step. apply safe_bind; [apply safe_update|]. intros. apply safe_bind; [apply safe_republish|]. intros. apply safe_ret.
  - unfold restoreOwnedSkill. repeat shelf_step. apply safe_reviewed. intros. apply safe_ret.
  - unfold deleteOwnedSkill. repeat shelf_step. apply safe_bind; [apply safe_archive|]. intros. apply safe_ret.
  - unfold promoteSkill. repeat shelf_step. destruct (isAdmin p) as [[]|] eqn:Ea; cbn [lift]; [|apply safe_raise..].
    exfalso. apply Hq. split; [|exact Ea]. by destruct live.
  - apply safe_move.
  - unfold upsertSeedSkill. apply safe_all. intros l Hl. destruct (find _ l) as [e|] eqn:E.
    + repeat shelf_step. apply safe_bind; [repeat shelf_step; apply safe_bind; [apply safe_update|intros; apply safe_ret]|].
      intros. apply safe_reviewed. intros. apply safe_ret.
    + shelf_step; [apply safe_ret|]. apply safe_bind; [apply safe_create; by apply dec_stable|]. intros. apply safe_reviewed. intros. apply safe_ret.
  - apply safe_restore. by apply dec_stable.
  - apply safe_archive.
  - apply safe_delete.
  - apply safe_use.
  - unfold resolve. repeat shelf_step.
  - unfold listVisibleSkills, visibleFor. apply safe_all. intros. apply safe_bind; [apply safe_lift|]. intros. repeat shelf_step.
  - by apply safe_await; intros st x st' HI [= <- <-].
Qed.

#[local] Instance answer_eq_dec : EqDecision (result string bool).
Proof. solve_decision. Defined.
#[local] Instance brings_org_dec q : Decision (brings_org q).
Proof. destruct q; cbn [brings_org]; unfold sound, orgless; apply _. Defined.

End shelf.

(** ** Which skill a name means *)

Section resolution.

(** The first skill published in a home under a name. *)
Definition published_at (all : list Skill) (name : string) (sc : ScopeId) : option Skill :=
  find (fun s => (s.(status) === published) && (s.(home) === sc) && (s.(manifest).(m_name) === name)) all.
Definition no_nul (s : string) : Prop := str_every (fun c => c !== nul) s = true.

Lemma scope_key_inj sc sc' n n' : no_nul n -> no_nul n' -> scope_key sc n = scope_key sc' n' -> sc = sc' /\ n = n'.
Proof.
  unfold no_nul, scope_key. intros Hn Hn'. revert sc'. induction sc as [|c sc IH]; intros [|c' sc']; simpl.
  - by intros [= ->].
  - intros [= <- ->]. rewrite str_every_app in Hn. cbn in Hn. by rewrite andb_false_r in Hn.
  - intros [= -> <-]. rewrite str_every_app in Hn'. cbn in Hn'. by rewrite andb_false_r in Hn'.
  - intros [= <- E]. destruct (IH sc' E) as [-> ->]. done.
Qed.
Lemma safe_no_nul n : isSafeSkillName n = true -> no_nul n.
Proof.
  destruct n as [|c s]; [done|]. unfold isSafeSkillName, no_nul. intros [[[Hc Hs]%andb_true_iff _]%andb_true_iff _]%andb_true_iff.
  assert (Hne : forall d, name_char d = true -> (d !== nul) = true).
  { intros d Hd. destruct (d === nul) eqn:E; [|done]. to_prop. subst d. discriminate Hd. }
  cbn [str_every]. apply andb_true_iff. split; [apply Hne; unfold name_char; by rewrite Hc|]. clear Hc.
  induction s as [|d s IH]; [done|]. cbn [str_every] in *. apply andb_true_iff in Hs as [? ?]. apply andb_true_iff. auto.
Qed.

Lemma index_lookup all name sc : (forall s, s ∈ all -> isSafeSkillName s.(manifest).(m_name) = true) -> isSafeSkillName name = true ->
  publishedByScopeAndName all !! scope_key sc name = published_at all name sc.
Proof.
  intros Hall Hn. unfold publishedByScopeAndName. set (f := fun (index : jsmap string Skill) s => _).
  assert (H : forall l m, (forall s, s ∈ l -> isSafeSkillName s.(manifest).(m_name) = true) ->
    fold_left f l m !! scope_key sc name = match m !! scope_key sc name with Some s => Some s | None => published_at l name sc end).
  { intros l. induction l as [|s l IH]; intros m Hl; [simpl; by destruct (m !! _)|]. simpl. rewrite IH; [|intros; apply Hl; by apply list_elem_of_further].
    unfold f at 1, published_at. cbn [find]. destruct (status s === published) eqn:Es; cbn [negb andb]; [|done]. cbv zeta.
    unfold has. destruct (bool_decide (is_Some (m !! _))) eqn:Hh; [apply bool_decide_eq_true in Hh|apply bool_decide_eq_false in Hh].
    - destruct (m !! scope_key sc name) as [x|] eqn:E; [done|]. destruct ((home s === sc) && _) eqn:Eh; [|done].
      apply andb_true_iff in Eh as [<-%bool_decide_eq_true <-%bool_decide_eq_true]. rewrite E in Hh. by destruct Hh.
    - rewrite lookup_set. destruct (decide (scope_key _ _ = scope_key sc name)) as [Ek|Ek].
      + apply scope_key_inj in Ek as [<- <-]; [|apply safe_no_nul, Hl, list_elem_of_here|by apply safe_no_nul].
        destruct (m !! _) eqn:E; [destruct Hh; by eexists|]. by rewrite !eqb_refl.
      + destruct ((home s === sc) && _) eqn:Eh; [|done].
        apply andb_true_iff in Eh as [<-%bool_decide_eq_true <-%bool_decide_eq_true]. done. }
  by rewrite H.
Qed.

Lemma resolve_hits all name orderedScopes : (forall s, s ∈ all -> isSafeSkillName s.(manifest).(m_name) = true) -> isSafeSkillName name = true ->
  let r := resolveFromIndex (publishedByScopeAndName all) name orderedScopes in
  (match r.(r_skill) with Some s => [s] | None => [] end ++ r.(shadowed))%list = omap (published_at all name) orderedScopes.
Proof.
  intros Hall Hn. unfold resolveFromIndex. rewrite Hn. cbn [negb].
  replace (omap (fun sc => publishedByScopeAndName all !! scope_key sc name) orderedScopes) with (omap (published_at all name) orderedScopes).
  - by destruct (omap _ _).
  - apply list_omap_ext, Forall2_same_length_lookup_2; [done|]. intros i x y Hx Hy. rewrite Hx in Hy. injection Hy as <-.
    symmetry. by apply index_lookup.
Qed.
Lemma published_at_Some all name sc s : published_at all name sc = Some s ->
  s ∈ all /\ s.(status) = published /\ s.(home) = sc /\ s.(manifest).(m_name) = name.
Proof. intros [Hin H]%find_Some. apply andb_true_iff in H as [[?%bool_decide_eq_true ?%bool_decide_eq_true]%andb_true_iff ?%bool_decide_eq_true]. done. Qed.

(** A name that is published in one of the scopes resolves, to a skill of that name. *)
Lemma resolves all orderedScopes s : (forall s, s ∈ all -> isSafeSkillName s.(manifest).(m_name) = true) ->
  s ∈ all -> s.(status) = published -> s.(home) ∈ orderedScopes ->
  exists s', (resolveFromIndex (publishedByScopeAndName all) s.(manifest).(m_name) orderedScopes).(r_skill) = Some s' /\
    s'.(manifest).(m_name) = s.(manifest).(m_name).
Proof.
  intros Hall Hs Hp Hh. pose proof (resolve_hits all _ orderedScopes Hall (Hall s Hs)) as H. cbv zeta in H.
  assert (Hin : exists x, x ∈ omap (published_at all s.(manifest).(m_name)) orderedScopes).
  { destruct (published_at all s.(manifest).(m_name) s.(home)) as [x|] eqn:E; [exists x; apply list_elem_of_omap; eauto|].
    pose proof (proj1 (find_None _ _) E s Hs) as Hf. cbv beta in Hf. by rewrite Hp, !eqb_refl in Hf. }
  destruct (r_skill _) as [s'|] eqn:E.
  - exists s'. split; [done|]. assert (Hs' : s' ∈ omap (published_at all s.(manifest).(m_name)) orderedScopes) by (rewrite <- H; apply list_elem_of_here).
    apply list_elem_of_omap in Hs' as (sc & _ & Hx). by apply published_at_Some in Hx as (_ & _ & _ & ?).
  - destruct Hin as [x Hx]. rewrite <- H in Hx. unfold resolveFromIndex in E, Hx. rewrite (Hall s Hs) in E, Hx. cbn [negb] in *.
    destruct (omap _ _); [|done]. by apply not_elem_of_nil in Hx.
Qed.

(** A name means the skill of the narrowest home that has one, and the rest are shadowed.
    Over skills with safe names, as the store keeps them, resolving a name in scopes from the
    narrowest to the broadest takes, scope by scope, the first skill that is published there
    under the name; the first of these is the answer and the others are listed as shadowed, in
    order.  What is visible in scopes is each name once that is published in one of them, as
    it resolves. *)
Theorem resolution_exact all orderedScopes :
  (forall s, s ∈ all -> isSafeSkillName s.(manifest).(m_name) = true) ->
  (forall name, isSafeSkillName name = true ->
     let r := resolveFromIndex (publishedByScopeAndName all) name orderedScopes in
     (match r.(r_skill) with Some s => [s] | None => [] end ++ r.(shadowed))%list = omap (published_at all name) orderedScopes) /\
  (forall r, r ∈ visible all orderedScopes <->
     exists s, s ∈ all /\ s.(status) = published /\ s.(home) ∈ orderedScopes /\
       r = resolveFromIndex (publishedByScopeAndName all) s.(manifest).(m_name) orderedScopes) /\
  NoDup (map (fun r => (fun s => s.(manifest).(m_name)) <$> r.(r_skill)) (visible all orderedScopes)).
Proof.
  intros Hall. split; [intros; by apply resolve_hits|]. unfold visible. set (names := dedup _).
  assert (Hn : forall n, n ∈ names <-> exists s, s ∈ all /\ s.(status) = published /\ s.(home) ∈ orderedScopes /\ n = s.(manifest).(m_name)).
  { intros n. unfold names. rewrite elem_of_dedup, list_elem_of_fmap. split.
    - intros (s & -> & H). apply elem_of_js_filter in H as [[[?%bool_decide_eq_true ?%bool_decide_eq_true]%andb_true_iff _]%andb_true_iff ?]. eauto 6.
    - intros (s & Hs & Hp & Hh & ->). exists s. split; [done|]. apply elem_of_js_filter. split; [|done].
      rewrite (Hall s Hs), Hp, eqb_refl. unfold includes. by rewrite bool_decide_true. }
  assert (Hr : forall n, n ∈ names -> (fun s => s.(manifest).(m_name)) <$> (resolveFromIndex (publishedByScopeAndName all) n orderedScopes).(r_skill) = Some n).
  { intros n (s & Hs & Hp & Hh & ->)%Hn. by destruct (resolves all orderedScopes s Hall Hs Hp Hh) as (s' & -> & <-). }
  rewrite js_filter_id; [split|].
  - intros r. rewrite list_elem_of_fmap. split.
    + intros (n & -> & (s & Hs & Hp & Hh & ->)%Hn). eauto 6.
    + intros (s & Hs & Hp & Hh & ->). exists s.(manifest).(m_name). split; [done|]. apply Hn. eauto 6.
  - rewrite map_map. rewrite (map_ext_in _ Some); [apply (NoDup_fmap_2 Some), dedup_NoDup|].
    intros n Hin. apply Hr. by apply list_elem_of_In.
  - intros r (n & -> & Hin)%list_elem_of_fmap. specialize (Hr n Hin). by destruct (r_skill _).
Qed.
End resolution.

(** ** Witnesses *)

Definition demo_sign (s : string) : string := "#" +:+ s.
Definition demo_json (j : Json) : string := match j with JObj ((_, JStr n) :: _) => n | _ => "" end.
Definition demo_shelf : Shelf (jsmap string Skill) := MkShelf ∅ (fun _ by_ p => Ok (by_ === p)).
Definition demo_admin (p : string) : result string bool := Ok (p === "root").
(** Ann writes a skill in her channel; a trigger of the administrator and Bob himself try to
    promote it. *)
Definition demo_skill_actions : list (Action Req) :=
  [Begin (q_create "s1" "ann" " deploy " "how to deploy" "run it" None (Some "channel:C1")) 4;
   Move 0 4; Move 0 4; Move 0 4; Move 0 4; Move 0 4; Move 0 4;
   Begin (q_promote "s2" "s1" "org:acme" "root" false) 5; Begin (q_promote "s3" "s1" "org:acme" "bob" true) 5;
   Begin (q_update "s1" "ann" (Some "new") None true) 6; Begin (q_delete "s1" "ann" true) 6].
Abbreviation demo_shelf_world l := (acts (serve demo_sign demo_json "acme" demo_admin (fun _ => Ok []) (fun _ => [])) l (begins demo_shelf)).


(** The owner deletes a skill while an edit of it is on its way: the edit writes back the
    record it read, and the skill that was deleted is there again, published. *)
Definition edit_actions : list (Action Req) :=
  (demo_skill_actions ++ [Move 3 6; Move 3 6; Move 3 6; Move 4 6; Move 4 6; Move 4 6; Move 4 7; Move 3 7; Move 3 7; Move 3 7; Move 3 7; Move 3 7])%list.
Example deletion_undone :
  let w := demo_shelf_world edit_actions in
  (map (fun p => match p.2 with Ret _ => true | _ => false end) w.(pool), status <$> dm_get "s1" w.(st).(skills)) =
  ([true; false; false; true; true], Some published).
Proof. vm_compute. reflexivity. Qed.

Definition demo_skill (k : string) (sc : ScopeId) : Skill :=
  MkSkill k sc (MkManifest "deploy" "" [] "" None) "" published "ann" 1 [] [] None None None None.
Lemma resolution_exact_witness :
  let all := [demo_skill "a" "org:acme"; demo_skill "b" "channel:C1"] in
  let r := resolveFromIndex (publishedByScopeAndName all) "deploy" ["personal:ann"; "channel:C1"; "org:acme"] in
  r = MkResolution (Some (demo_skill "b" "channel:C1")) [demo_skill "a" "org:acme"] /\
  (match r.(r_skill) with Some s => [s] | None => [] end ++ r.(shadowed))%list =
    omap (published_at all "deploy") ["personal:ann"; "channel:C1"; "org:acme"].
Proof.
  intros all r. split; [vm_compute; reflexivity|].
  refine (proj1 (resolution_exact all ["personal:ann"; "channel:C1"; "org:acme"] _) "deploy" _); [|reflexivity].
  intros s. unfold all. rewrite !elem_of_cons. intros [->|[->|H]]; [reflexivity..|by apply not_elem_of_nil in H].
Defined.
