(* ===== verification/SkillFiles.v ===== *)
(** * The files of skills in a workspace

    How skills and the files of packs are laid out in the workspace of a sandbox
    ([src/src/skills/materialize.ts], [materialization-paths.ts]) and how a pack is kept from
    taking paths of others ([skill-collision.ts]).  The names and the contents come from
    packs and from people, the markers from a workspace the agent itself can change.  A
    materialization is a call cut at its awaits; the workspace is the sandbox's, its operations
    may fail, and every operation that is asked of it is logged.  SHA-256 and the JSON codec
    are parameters.  The lock that keeps the materializations of one workspace apart is left
    out: what is shown holds without it. *)

From S2P Require Import Prelude JsString Json Scope Async Skills.

#[local] Open Scope string_scope.
#[local] Open Scope Z_scope.

Definition lf : string := String "010"%char "".
Definition nul_str : string := String nul "".

(** ** Paths *)

(** [SKILLS_DIR] src/src/skills/materialization-paths.ts:1-1 *)
Definition SKILLS_DIR : string := "skills".
(** [SKILLS_INDEX_MARKER] src/src/skills/materialization-paths.ts:2-2 *)
Definition INDEX_MARKER : string := "skills/.index".
(** [SKILL_TREE_MARKER] src/src/skills/materialization-paths.ts:3-3 *)
Definition TREE_MARKER : string := ".tree".
(** [SKILL_PACKS_DIR] src/src/skills/materialize.ts:16-16 *)
Definition SKILL_PACKS_DIR : string := "skills/.packs".
(** [isSkillMaterializationControlPath] src/src/skills/materialization-paths.ts:5-9 *)
Definition isSkillMaterializationControlPath (path : string) : bool :=
  if (path === INDEX_MARKER) || starts_with path (INDEX_MARKER +:+ "/") then true
  else match split_on "/"%char path with
       | a :: _ :: c :: _ => (a === SKILLS_DIR) && (c === TREE_MARKER)
       | _ => false
       end.
(** [isSafeMaterializedPath] src/src/skills/materialize.ts:128-135 *)
Definition isSafeMaterializedPath (path : string) : bool :=
  match safeSkillFilePath path with Ok p => p === path | Throw _ => false end.
(** [safeSkillDirName] src/src/skills/materialize.ts:40-42 *)
Definition safeSkillDirName (name : string) : result string string := assertSafeSkillName name.
(** [samePaths] src/src/skills/materialize.ts:151-153 *)
Definition samePaths (a b : list string) : bool := a === b.
Definition skill_dir (name : string) : string := SKILLS_DIR +:+ "/" +:+ name.

(** [guardedSkillPaths] src/src/skills/materialize.ts:171-178
    The path of a file, when it is one the files of a skill may have. *)
Definition guarded_path (root path : string) : option string :=
  match safeSkillFilePath path with
  | Ok rel => let p := root +:+ "/" +:+ rel in if isSkillMaterializationControlPath p then None else Some p
  | Throw _ => None
  end.
(** [guardedSkillPaths] src/src/skills/materialize.ts:169-180 *)
Definition guardedSkillPaths (dir : string) (fs : list SkillFile) : list string :=
  js_sort str_cmp (dedup ((dir +:+ "/SKILL.md") :: omap (fun f => guarded_path dir f.(f_path)) fs)).

(** [SkillBundle] src/src/skills/skill-bundle-store.ts:5-10 *)
Record SkillBundle := MkBundle { b_packId : string; b_commit : string; b_files : list SkillFile; b_hash : string }.
Definition bundle_root (packId : string) : result string string := d ← safeSkillDirName packId; Ok (SKILL_PACKS_DIR +:+ "/" +:+ d).
Fixpoint all_ok {E A B} (f : A -> result E B) (l : list A) : result E (list B) :=
  match l with [] => Ok [] | x :: l => y ← f x; ys ← all_ok f l; Ok (y :: ys) end.
(** [guardedBundlePaths] src/src/skills/materialize.ts:182-196 *)
Definition guardedBundlePaths (bundles : list SkillBundle) : result string (list string) :=
  ls ← all_ok (fun b => root ← bundle_root b.(b_packId); Ok (omap (fun f => guarded_path root f.(f_path)) b.(b_files))) bundles;
  Ok (js_sort str_cmp (dedup (concat ls))).

(** ** Markers *)

Section markers.
Variables (parse_json : string -> option Json) (show_json : Json -> string) (sha256 : string -> string).

(** [IndexMarkerState] src/src/skills/materialize.ts:93-98 *)
Record IndexMarkerState := MkIndexMarker { i_hash : string; i_names : list string; legacyExternalPathsPreserved : bool }.
(** [TreeMarkerState] src/src/skills/materialize.ts:100-105 *)
Record TreeMarkerState := MkTreeMarker { t_hash : string; skillPaths : list string; bundlePaths : list string }.

(** [parsedMarker] src/src/skills/materialize.ts:107-115 *)
Definition parsedMarker (raw : option string) : option (Json * string) :=
  match raw with
  | Some raw =>
      if negb (starts_with raw "{") then None
      else
        parsed ← parse_json raw;
        h ← str_field "hash" parsed;
        if match field "version" parsed with Some (JNum v) => v === 2 | _ => false end then Some (parsed, h) else None
  | None => None
  end.
(** An array of texts that satisfy [ok]. *)
Definition texts (ok : string -> bool) (j : option Json) : option (list string) :=
  match j with
  | Some (JArr l) => mapM (fun x => match x with JStr s => if ok s then Some s else None | _ => None end) l
  | _ => None
  end.
(** [indexMarkerState] src/src/skills/materialize.ts:117-126 *)
Definition indexMarkerState (raw : option string) : option IndexMarkerState :=
  p ← parsedMarker raw;
  names ← texts isSafeSkillName (field "names" p.1);
  Some (MkIndexMarker p.2 names (match field "legacyExternalPathsPreserved" p.1 with Some (JBool true) => true | _ => false end)).
(** [treeMarkerState] src/src/skills/materialize.ts:137-149 *)
Definition treeMarkerState (raw : option string) (dir : string) : option TreeMarkerState :=
  p ← parsedMarker raw;
  sp ← texts (fun path => isSafeMaterializedPath path && starts_with path (dir +:+ "/") && negb (isSkillMaterializationControlPath path))
         (field "skillPaths" p.1);
  bp ← texts (fun path => isSafeMaterializedPath path && negb (isSkillMaterializationControlPath path)) (field "bundlePaths" p.1);
  Some (MkTreeMarker p.2 sp bp).
Definition index_marker (m : IndexMarkerState) : string :=
  show_json (JObj ([("version", JNum 2); ("hash", JStr m.(i_hash)); ("names", JArr (map JStr m.(i_names)))] ++
    if m.(legacyExternalPathsPreserved) then [("legacyExternalPathsPreserved", JBool true)] else [])%list).
Definition tree_marker (m : TreeMarkerState) : string :=
  show_json (JObj [("version", JNum 2); ("hash", JStr m.(t_hash)); ("skillPaths", JArr (map JStr m.(skillPaths)));
    ("bundlePaths", JArr (map JStr m.(bundlePaths)))]).

(** ** What is laid out *)

(** [packRoot] src/src/skills/materialize.ts:76-78 *)
Definition packRoot (s : Skill) : result string (option string) :=
  match s.(pack) with Some pk => r ← bundle_root pk.(p_packId); Ok (Some r) | None => Ok None end.
(** [renderedBody] src/src/skills/materialize.ts:80-86 *)
Definition renderedBody (s : Skill) : result string string :=
  root ← packRoot s;
  Ok (match root with
      | Some root =>
          s.(manifest).(body) +:+ lf +:+ lf +:+ "## Pack files" +:+ lf +:+ "Resolve repository-relative shared-file paths against `" +:+ root
            +:+ "/`; pack files never overwrite the workspace root."
      | None => s.(manifest).(body)
      end).
Definition skills_of (resolved : list SkillResolution) : list Skill := omap r_skill resolved.
(** [indexHash] src/src/skills/materialize.ts:44-55 *)
Definition indexHash (resolved : list SkillResolution) : result string string :=
  entries ← all_ok (fun s => b ← renderedBody s; Ok (s.(manifest).(m_name) +:+ nul_str +:+ b)) (skills_of resolved);
  Ok (sha256 (join "" (map (fun e => e +:+ lf) (js_sort str_cmp entries)))).
(** [treeHash] src/src/skills/materialize.ts:57-74 *)
Definition treeHash (s : Skill) (bundles : list SkillBundle) : result string string :=
  b ← renderedBody s;
  let fs := join nul_str (js_sort str_cmp (map (fun f => f.(f_path) +:+ nul_str +:+ f.(f_content) +:+ nul_str +:+
              (if f.(executable) === Some true then "1" else "0")) (s.(manifest).(files) ?? []))) in
  let folded := join nul_str (js_sort str_cmp (map b_hash bundles)) in
  Ok (sha256 (b +:+ nul_str +:+ fs +:+ nul_str +:+ folded)).

(** ** The workspace *)

(** What the code asks of a sandbox. *)
Inductive fs_op := Wrote (path content : string) | Removed (path : string).
Class Workspace (W : Type) := {
  ws_read : string -> W -> result unit (option string);
  ws_write : string -> string -> W -> result string W;
  ws_remove : string -> W -> result string W;
  ws_extract : option (list (string * string) -> W -> result string W);
}.
Context {W : Type} `{!Workspace W}.
Record Box := MkBox { ws : W; asked : list fs_op }.
#[export] Instance Box_eta : Eta Box := fun b => MkBox b.(ws) b.(asked).
Abbreviation call := (call Box string).

Definition ask (ops : list fs_op) (f : W -> result string W) : call unit :=
  r ← await (fun s => let s' := s <| asked := (s.(asked) ++ ops)%list |> in
               Some (match f s.(ws) with Ok w => (Ok tt, s' <| ws := w |>) | Throw e => (Throw e, s') end));
  lift r.
Definition removeDir (path : string) : call unit := ask [Removed path] (ws_remove path).
Definition writeFile (path content : string) : call unit := ask [Wrote path content] (ws_write path content).
(** [readMarker] src/src/skills/materialize.ts:155-167 *)
Definition readMarker (path : string) : call (option string) :=
  await (fun s => Some (match ws_read path s.(ws) with Ok o => o | Throw _ => None end, s)).
(** [layFiles] src/src/skills/materialize.ts:198-208 *)
Definition layFiles (entries : list (string * string)) : call unit :=
  match entries with
  | [] => mret tt
  | _ =>
      match ws_extract with
      | Some extract => ask (map (fun e => Wrote e.1 e.2) entries) (extract entries)
      | None => for_each entries (fun e => writeFile e.1 e.2)
      end
  end.

(** [materializeSkillIndexUnlocked] src/src/skills/materialize.ts:225-234
    The files of packs that the skills in use hold on to. *)
Definition held_paths (names : list string) : call (list string) :=
  collect names (fun name =>
    raw ← readMarker (skill_dir name +:+ "/" +:+ TREE_MARKER);
    mret (match treeMarkerState raw (skill_dir name) with Some m => m.(bundlePaths) | None => [] end)).
(** [materializeSkillIndexUnlocked] src/src/skills/materialize.ts:237-249
    A skill that is no longer there is taken away. *)
Definition remove_stale (active : list string) (name : string) : call unit :=
  let dir := skill_dir name in
  staleRaw ← readMarker (dir +:+ "/" +:+ TREE_MARKER);
  let stale := treeMarkerState staleRaw dir in
  let paths := dedup ([dir +:+ "/SKILL.md"] ++ match stale with Some m => m.(skillPaths) ++ m.(bundlePaths) | None => [] end)%list in
  _ ← for_each paths (fun path => if includes active path then mret tt else removeDir path);
  if some (fun path => starts_with path (dir +:+ "/")) active then removeDir (dir +:+ "/" +:+ TREE_MARKER) else removeDir dir.
(** [materializeSkillIndexUnlocked] src/src/skills/materialize.ts:210-270 *)
Definition materializeSkillIndex (resolved : list SkillResolution) : call unit :=
  want ← lift (indexHash resolved);
  names ← lift (all_ok (fun s => safeSkillDirName s.(manifest).(m_name)) (skills_of resolved));
  let names := js_sort str_cmp (names : list string) in
  raw ← readMarker INDEX_MARKER;
  let prev := indexMarkerState raw in
  if match prev with Some m => (m.(i_hash) === want) && samePaths m.(i_names) names | None => false end then mret tt
  else
    let unreadable := truthy_opt raw && negb (is_some prev) in
    let legacy := match prev with Some m => m.(legacyExternalPathsPreserved) | None => false end || unreadable in
    _ ← (if unreadable then removeDir SKILLS_DIR
         else match prev with
              | Some m =>
                  active ← held_paths names;
                  for_each m.(i_names) (fun name => if includes names name then mret tt else remove_stale active name)
              | None => mret tt
              end);
    entries ← lift (all_ok (fun s => d ← safeSkillDirName s.(manifest).(m_name); b ← renderedBody s; Ok (skill_dir d +:+ "/SKILL.md", b)) (skills_of resolved));
    layFiles (entries ++ [(INDEX_MARKER, index_marker (MkIndexMarker want names legacy))])%list.

(** [materializeSkillTreeUnlocked] src/src/skills/materialize.ts:300-313
    The files of packs that other skills hold on to. *)
Definition others_paths (own : string) : call (list string) :=
  indexRaw ← readMarker INDEX_MARKER;
  collect (match indexMarkerState indexRaw with Some m => m.(i_names) | None => [] end) (fun name =>
    if name === own then mret []
    else
      raw ← readMarker (skill_dir name +:+ "/" +:+ TREE_MARKER);
      mret (match treeMarkerState raw (skill_dir name) with Some m => m.(bundlePaths) | None => [] end)).
(** [materializeSkillTreeUnlocked] src/src/skills/materialize.ts:329-339
    The files under a root that are laid out. *)
Definition laid (root : string) (fs : list SkillFile) : list (string * string) :=
  omap (fun f => p ← guarded_path root f.(f_path); Some (p, f.(f_content))) fs.
(** [materializeSkillTreeUnlocked] src/src/skills/materialize.ts:272-359 *)
Definition materializeSkillTree (resolution : SkillResolution) (bundles : list SkillBundle) : call unit :=
  match resolution.(r_skill) with
  | None => mret tt
  | Some s =>
      let m := s.(manifest) in
      let fs := m.(files) ?? [] in
      name ← lift (safeSkillDirName m.(m_name));
      let dir := skill_dir name in
      let marker := dir +:+ "/" +:+ TREE_MARKER in
      want ← lift (treeHash s bundles);
      let sp := guardedSkillPaths dir fs in
      bp ← lift (guardedBundlePaths bundles);
      let state := tree_marker (MkTreeMarker want sp bp) in
      raw ← readMarker marker;
      let prev := treeMarkerState raw dir in
      if match prev with Some p => (p.(t_hash) === want) && samePaths p.(skillPaths) sp && samePaths p.(bundlePaths) bp | None => false end
      then mret tt
      else if raw === Some want then writeFile marker state
      else
        others ← others_paths name;
        _ ← match prev with
            | Some p =>
                _ ← for_each p.(skillPaths) (fun path => if negb (includes sp path) && negb (includes others path) then removeDir path else mret tt);
                for_each p.(bundlePaths) (fun path => if negb (includes bp path) && negb (includes others path) then removeDir path else mret tt)
            | None => if some (fun path => starts_with path (dir +:+ "/")) others then mret tt else removeDir dir
            end;
        body ← lift (renderedBody s);
        packs ← lift (all_ok (fun b => root ← bundle_root b.(b_packId); Ok (laid root b.(b_files))) bundles);
        layFiles ([(dir +:+ "/SKILL.md", body)] ++ laid dir fs ++ concat packs ++ [(marker, state)])%list
  end.
End markers.

(** ** Collisions *)

Section collisions.
(** [skillRecordPaths] src/src/skills/skill-collision.ts:8-21 *)
Definition skillRecordPaths (name : string) (fs : option (list SkillFile)) : result string (list string) :=
  d ← safeSkillDirName name;
  let dir := skill_dir d in
  Ok ([dir +:+ "/SKILL.md"; dir +:+ "/" +:+ TREE_MARKER] ++ omap (fun f => guarded_path dir f.(f_path)) (fs ?? []))%list.
(** [PathCollision] src/src/skills/skill-collision.ts:46-49 *)
Record PathCollision := MkCollision { at_path : string; owner : string }.
(** [materializationControlPathCollisions] src/src/skills/skill-collision.ts:24-28 *)
Definition materializationControlPathCollisions (paths : list string) : list PathCollision :=
  map (fun p => MkCollision p "core skill materialization metadata") (js_filter isSkillMaterializationControlPath paths).
(** [persistedSkillRecordPaths] src/src/skills/skill-collision.ts:30-32 *)
Definition persistedSkillRecordPaths (name : string) (fs : option (list SkillFile)) : list string :=
  if isSafeSkillName name then match skillRecordPaths name fs with Ok l => l | Throw _ => [] end else [].
(** [bundleFilePaths] src/src/skills/skill-collision.ts:34-44 *)
Definition bundleFilePaths (fs : list SkillFile) : list string :=
  omap (fun f => match safeSkillFilePath f.(f_path) with Ok p => Some p | Throw _ => None end) fs.
(** [detectPathCollisions] src/src/skills/skill-collision.ts:51-62 *)
Definition detectPathCollisions (incoming : list string) (claimed : jsmap string string) : list PathCollision :=
  (fold_left (fun '(seen, out) p =>
     match claimed !! p with
     | Some o => if includes seen p then (seen, out) else ((seen ++ [p])%list, (out ++ [MkCollision p o])%list)
     | None => (seen, out)
     end) incoming ([], [])).2.
End collisions.

(** ** Paths that stay inside *)

(** Relative, without empty parts, [.] or [..]. *)
Definition good_part (part : string) : bool := truthy part && negb (bad_part part).
Definition confined (p : string) : bool := every good_part (split_on "/"%char p).

Lemma confined_app a b : confined a = true -> confined b = true -> confined (a +:+ "/" +:+ b) = true.
Proof.
  unfold confined. intros Ha Hb. change (a +:+ "/" +:+ b) with (a +:+ String "/"%char b). rewrite split_on_last.
  unfold every in *. by rewrite forallb_app, Ha, Hb.
Qed.
Lemma safe_path_confined path p : safeSkillFilePath path = Ok p -> confined p = true.
Proof.
  unfold safeSkillFilePath. set (parts := js_filter truthy _). destruct (_ || some bad_part parts) eqn:E; [discriminate|]. intros [= <-].
  apply orb_false_iff in E as [[Hne _]%orb_false_iff Hbad]. unfold confined.
  assert (Hin : forall w, w ∈ parts -> truthy w = true /\ str_every (fun d => d !== "/"%char) w = true /\ bad_part w = false).
  { intros w Hw. split_and!.
    - unfold parts in Hw. by apply elem_of_js_filter in Hw as [? _].
    - unfold parts in Hw. apply elem_of_js_filter in Hw as [_ Hw]. by eapply split_on_parts.
    - destruct (bad_part w) eqn:Ew; [|done]. exfalso. unfold some in Hbad. apply not_true_iff_false in Hbad. apply Hbad, existsb_exists.
      exists w. split; [by apply list_elem_of_In|done]. }
  change "/" with (String "/"%char ""). rewrite split_join; [|by destruct parts|intros w Hw; by apply Hin].
  apply every_true. intros w Hw. destruct (Hin w Hw) as (Ht & _ & Hb). unfold good_part. by rewrite Ht, Hb.
Qed.
Lemma materialized_confined p : isSafeMaterializedPath p = true -> confined p = true.
Proof.
  unfold isSafeMaterializedPath. destruct (safeSkillFilePath p) as [q|] eqn:E; [|done]. intros ->%bool_decide_eq_true. by eapply safe_path_confined.
Qed.
Lemma name_parts n : isSafeSkillName n = true -> split_on "/"%char n = [n] /\ good_part n = true /\ n <> ".index".
Proof.
  intros H. pose proof (safe_no_nul n H) as Hnul. destruct n as [|c s]; [done|].
  unfold isSafeSkillName in H. apply andb_true_iff in H as [[[Hc Hs]%andb_true_iff _]%andb_true_iff _]. split_and!.
  - apply split_on_none. assert (Hall : str_every name_char (String c s) = true) by (cbn; unfold name_char at 1; by rewrite Hc, Hs).
    clear -Hall. induction (String c s) as [|d t IH]; [done|]. cbn [str_every] in *. apply andb_true_iff in Hall as [Hd Ht].
    apply andb_true_iff. split; [|by apply IH]. destruct (d === "/"%char) eqn:E; [|done]. apply bool_decide_eq_true in E. subst d. discriminate Hd.
  - unfold good_part, bad_part, truthy. assert (Hdot : forall t, (String c s === String "."%char t) = false).
    { intros t. apply bool_decide_eq_false. intros [= -> _]. discriminate Hc. }
    rewrite !Hdot. cbn [orb negb andb]. destruct (str_some _ (String c s)) eqn:E; [|done]. exfalso. clear -E Hnul. unfold no_nul in Hnul.
    induction (String c s) as [|d t IH]; [done|]. cbn in *. apply andb_true_iff in Hnul as [Hd Ht]. apply orb_true_iff in E as [E|E]; [|auto].
    by rewrite E in Hd.
  - intros [= -> _]. discriminate Hc.
Qed.

Lemma skill_dir_confined n : isSafeSkillName n = true -> confined (skill_dir n) = true.
Proof. intros (E & Hg & _)%name_parts. apply confined_app; [reflexivity|]. unfold confined. rewrite E. cbn. by rewrite Hg. Qed.
Lemma pack_root_confined n : isSafeSkillName n = true -> confined (SKILL_PACKS_DIR +:+ "/" +:+ n) = true.
Proof. intros (E & Hg & _)%name_parts. apply confined_app; [reflexivity|]. unfold confined. rewrite E. cbn. by rewrite Hg. Qed.
Lemma guarded_confined root path p : confined root = true -> guarded_path root path = Some p ->
  confined p = true /\ isSkillMaterializationControlPath p = false /\ exists rel, p = root +:+ "/" +:+ rel.
Proof.
  unfold guarded_path. intros Hr. destruct (safeSkillFilePath path) as [rel|] eqn:E; [|done].
  destruct (isSkillMaterializationControlPath _) eqn:Ec; [done|]. intros [= <-]. split_and!; [|done|by exists rel].
  apply confined_app; [done|]. by eapply safe_path_confined.
Qed.
(** The instructions of a skill never lie where a marker lies. *)
Lemma skill_md_no_control n : isSafeSkillName n = true -> isSkillMaterializationControlPath (skill_dir n +:+ "/SKILL.md") = false.
Proof.
  intros (E & _ & Hne)%name_parts. unfold isSkillMaterializationControlPath.
  assert (Es : split_on "/"%char (skill_dir n +:+ "/SKILL.md") = ["skills"; n; "SKILL.md"]).
  { unfold skill_dir. rewrite !str_append_assoc. change (split_on "/"%char ("skills" +:+ String "/"%char (n +:+ String "/"%char "SKILL.md")) = ["skills"; n; "SKILL.md"]).
    rewrite !split_on_last, E. reflexivity. }
  destruct (_ === INDEX_MARKER) eqn:E1.
  { apply bool_decide_eq_true in E1. rewrite E1 in Es. vm_compute in Es. discriminate Es. }
  destruct (starts_with _ (INDEX_MARKER +:+ "/")) eqn:E2; cbn [orb]; [|by rewrite Es].
  apply starts_with_spec in E2 as [t Et]. rewrite Et in Es. exfalso. rewrite str_append_assoc in Es.
  change (split_on "/"%char (INDEX_MARKER +:+ String "/"%char t) = ["skills"; n; "SKILL.md"]) in Es.
  rewrite split_on_last in Es. injection Es as Hn _. by apply Hne.
Qed.

Section confinement.
Context (parse_json : string -> option Json) (show_json : Json -> string) (sha256 : string -> string).
Context {W : Type} `{!Workspace W}.
Abbreviation St := (Box (W := W)).
Abbreviation call := (call St string).

Inductive Req :=
| m_index (resolved : list SkillResolution)
| m_tree (resolution : SkillResolution) (bundles : list SkillBundle)
| m_agent (f : W -> W).
Definition serve (q : Req) : call unit :=
  match q with
  | m_index resolved => materializeSkillIndex parse_json show_json sha256 resolved
  | m_tree resolution bundles => materializeSkillTree parse_json show_json sha256 resolution bundles
  | m_agent f => await (fun s => Some (tt, s <| ws := f s.(ws) |>))
  end.

Definition marker_text (c : string) : Prop := (exists m, c = index_marker show_json m) \/ (exists m, c = tree_marker show_json m).
Definition op_ok (o : fs_op) : Prop :=
  match o with
  | Wrote p c => confined p = true /\ starts_with p "skills/" = true /\ (isSkillMaterializationControlPath p = true -> marker_text c)
  | Removed p => confined p = true
  end.
Definition all_asked_ok (s : St) : Prop := forall o, o ∈ s.(asked) -> op_ok o.

Abbreviation safe := (Async.safe (E := string) any all_asked_ok any).
Abbreviation safe_ret := (Async.safe_ret (E := string) any all_asked_ok any).
Abbreviation safe_raise := (Async.safe_raise (E := string) any all_asked_ok any).
Abbreviation safe_bind := (Async.safe_bind (E := string) any all_asked_ok any).
Abbreviation safe_lift := (Async.safe_lift (E := string) any all_asked_ok any).
Abbreviation safe_await := (Async.safe_await (E := string) any all_asked_ok any).
Abbreviation safe_for_each := (Async.safe_for_each (E := string) any all_asked_ok any).
Abbreviation safe_collect := (Async.safe_collect (E := string) any all_asked_ok any).
Abbreviation safe_if := (Async.safe_if (E := string) any all_asked_ok any).

Lemma safe_ask ops f : (forall o, o ∈ ops -> op_ok o) -> safe (ask ops f).
Proof.
  intros Ho. unfold ask. apply safe_bind; [|intros; apply safe_lift]. apply safe_await. intros s x s' HI H. split_and!; [|done|done].
  intros o Hin. assert (E : s'.(asked) = (s.(asked) ++ ops)%list) by (destruct (f s.(ws)); by injection H as _ <-).
  rewrite E in Hin. apply elem_of_app in Hin as [?|?]; auto.
Qed.
Lemma safe_remove p : confined p = true -> safe (removeDir p).
Proof. intros Hp. apply safe_ask. by intros o ->%list_elem_of_singleton. Qed.
Lemma safe_read p : safe (readMarker p).
Proof. apply safe_await. by intros s x s' HI [= <- <-]. Qed.
Lemma safe_lay entries : (forall e, e ∈ entries -> op_ok (Wrote e.1 e.2)) -> safe (layFiles entries).
Proof.
  intros He. unfold layFiles. destruct entries as [|e0 es]; [apply safe_ret|]. revert He. generalize (e0 :: es). intros l He.
  destruct ws_extract as [extract|]; [apply safe_ask|].
  - intros o (e & -> & Hin)%list_elem_of_fmap. by apply He.
  - induction l as [|e l IH]; [apply safe_ret|]. cbn [for_each]. apply safe_bind.
    + apply safe_ask. intros o ->%list_elem_of_singleton. apply He, list_elem_of_here.
    + intros _. apply IH. intros e' Hin. by apply He, list_elem_of_further.
Qed.
(** What is taken from a list that was checked. *)
Lemma safe_each {A} (l : list A) f : (forall x, x ∈ l -> safe (f x)) -> safe (for_each l f).
Proof.
  induction l as [|x l IH]; intros H; [apply safe_ret|]. cbn [for_each]. apply safe_bind; [apply H, list_elem_of_here|]. intros _.
  apply IH. intros y Hy. by apply H, list_elem_of_further.
Qed.
Lemma safe_lift_ok {A B} (r : result string A) (f : A -> call B) : (forall a, r = Ok a -> safe (f a)) -> safe (lift r ≫= f).
Proof. destruct r as [a|e]; intros H; [by apply H|apply safe_raise]. Qed.

(** *** Markers *)

Lemma texts_ok ok j l : texts ok j = Some l -> forall s, s ∈ l -> ok s = true.
Proof.
  unfold texts. destruct j as [[]|]; try done. intros H s Hs. apply mapM_Some in H. apply list_elem_of_lookup in Hs as [i Hi].
  destruct (Forall2_lookup_r _ _ _ _ _ H Hi) as (x & _ & Hx). destruct x; try done. destruct (ok s0) eqn:E; [|done]. by injection Hx as <-.
Qed.
Lemma index_names raw m n : indexMarkerState parse_json raw = Some m -> n ∈ m.(i_names) -> isSafeSkillName n = true.
Proof.
  unfold indexMarkerState. intros (p & Hp & H)%bind_Some. apply bind_Some in H as (names & Hn & [= <-]). by apply (texts_ok _ _ _ Hn).
Qed.
Lemma tree_paths raw dir m p : treeMarkerState parse_json raw dir = Some m -> p ∈ m.(skillPaths) \/ p ∈ m.(bundlePaths) -> confined p = true.
Proof.
  unfold treeMarkerState. intros (q & Hq & H)%bind_Some. apply bind_Some in H as (sp & Hsp & H). apply bind_Some in H as (bp & Hbp & [= <-]).
  cbn [skillPaths bundlePaths]. intros [Hp|Hp]; [pose proof (texts_ok _ _ _ Hsp p Hp) as Hok|pose proof (texts_ok _ _ _ Hbp p Hp) as Hok];
    cbv beta in Hok; apply andb_true_iff in Hok as [Hok _]; [apply andb_true_iff in Hok as [Hok _]|]; by apply materialized_confined.
Qed.

(** *** The two materializations *)

Lemma all_ok_in {E A B} (f : A -> result E B) l ys y : all_ok f l = Ok ys -> y ∈ ys -> exists x, x ∈ l /\ f x = Ok y.
Proof.
  revert ys. induction l as [|x l IH]; intros ys; cbn [all_ok]; [intros [= <-] ?%not_elem_of_nil; done|].
  intros (z & Hz & (zs & Hzs & [= <-])%bind_Ok)%bind_Ok [->|Hy]%elem_of_cons; [exists x; split; [apply list_elem_of_here|done]|].
  destruct (IH zs Hzs Hy) as (x' & ? & ?). exists x'. split; [by apply list_elem_of_further|done].
Qed.
Lemma assert_Ok n d : safeSkillDirName n = Ok d -> d = n /\ isSafeSkillName n = true.
Proof. unfold safeSkillDirName, assertSafeSkillName. destruct (isSafeSkillName n); by intros [= <-]. Qed.
Lemma bundle_root_Ok n r : bundle_root n = Ok r -> r = SKILL_PACKS_DIR +:+ "/" +:+ n /\ isSafeSkillName n = true.
Proof. unfold bundle_root. intros (d & [-> ?]%assert_Ok & [= <-])%bind_Ok. done. Qed.
Lemma wrote_skill_md n b : isSafeSkillName n = true -> op_ok (Wrote (skill_dir n +:+ "/SKILL.md") b).
Proof.
  intros Hn. split_and!; [|reflexivity|by rewrite skill_md_no_control]. change "/SKILL.md" with ("/" +:+ "SKILL.md").
  apply confined_app; [by apply skill_dir_confined|reflexivity].
Qed.
Lemma wrote_laid root fs e : confined root = true -> starts_with root "skills/" = true -> e ∈ laid root fs -> op_ok (Wrote e.1 e.2).
Proof.
  intros Hr Hs (f & Hf & H)%list_elem_of_omap. apply bind_Some in H as (p & Hp & [= <-]).
  destruct (guarded_confined root f.(f_path) p Hr Hp) as (Hc & Hn & rel & ->). cbn [fst snd]. split_and!; [done| |by rewrite Hn].
  apply starts_with_spec in Hs as [t ->]. apply starts_with_spec. exists (t +:+ "/" +:+ rel). by rewrite !str_append_assoc.
Qed.
Lemma tree_marker_confined n : isSafeSkillName n = true -> confined (skill_dir n +:+ "/" +:+ TREE_MARKER) = true.
Proof. intros Hn. apply confined_app; [by apply skill_dir_confined|reflexivity]. Qed.

Lemma safe_held names : safe (held_paths parse_json names).
Proof. apply safe_collect. intros n. apply safe_bind; [apply safe_read|]. intros. apply safe_ret. Qed.
Lemma safe_stale active n : isSafeSkillName n = true -> safe (remove_stale parse_json active n).
Proof.
  intros Hn. unfold remove_stale. cbv zeta. apply safe_bind; [apply safe_read|]. intros raw. apply safe_bind; [|intros _].
  - apply safe_each. intros p Hp. rewrite elem_of_dedup in Hp. apply safe_if; [apply safe_ret|]. apply safe_remove.
    apply elem_of_app in Hp as [->%list_elem_of_singleton|Hp].
    + change "/SKILL.md" with ("/" +:+ "SKILL.md"). apply confined_app; [by apply skill_dir_confined|reflexivity].
    + destruct (treeMarkerState _ _ _) as [m|] eqn:E; [|by apply not_elem_of_nil in Hp]. apply (tree_paths _ _ _ _ E). by apply elem_of_app.
  - apply safe_if; apply safe_remove; [by apply tree_marker_confined|by apply skill_dir_confined].
Qed.
Lemma safe_index resolved : safe (materializeSkillIndex parse_json show_json sha256 resolved).
Proof.
  unfold materializeSkillIndex. apply safe_lift_ok. intros want _. apply safe_lift_ok. intros names Hnames. cbv zeta.
  apply safe_bind; [apply safe_read|]. intros raw. apply safe_if; [apply safe_ret|]. apply safe_bind; [|intros _].
  - apply safe_if; [by apply safe_remove|]. destruct (indexMarkerState parse_json raw) as [m|] eqn:Em; [|apply safe_ret].
    apply safe_bind; [apply safe_held|]. intros active. apply safe_each. intros n Hn. apply safe_if; [apply safe_ret|].
    apply safe_stale. by apply (index_names _ _ _ Em).
  - apply safe_lift_ok. intros entries He. apply safe_lay. intros e [Hin| ->%list_elem_of_singleton]%elem_of_app.
    + destruct (all_ok_in _ _ _ _ He Hin) as (s & _ & H). apply bind_Ok in H as (d & [-> Hd]%assert_Ok & H). apply bind_Ok in H as (b & _ & [= <-]). by apply wrote_skill_md.
    + split_and!; [reflexivity|reflexivity|]. intros _. left. by eexists.
Qed.
Lemma safe_others own : safe (others_paths parse_json own).
Proof.
  unfold others_paths. apply safe_bind; [apply safe_read|]. intros raw. apply safe_collect. intros n. apply safe_if; [apply safe_ret|].
  apply safe_bind; [apply safe_read|]. intros. apply safe_ret.
Qed.
Lemma safe_tree resolution bundles : safe (materializeSkillTree parse_json show_json sha256 resolution bundles).
Proof.
  unfold materializeSkillTree. destruct (r_skill resolution) as [s|]; [|apply safe_ret]. cbv zeta.
  apply safe_lift_ok. intros n [-> Hn]%assert_Ok. apply safe_lift_ok. intros want _. apply safe_lift_ok. intros bp _.
  apply safe_bind; [apply safe_read|]. intros raw. apply safe_if; [apply safe_ret|]. apply safe_if.
  { apply safe_ask. intros o ->%list_elem_of_singleton. split_and!; [by apply tree_marker_confined|reflexivity|]. intros _. right. by eexists. }
  apply safe_bind; [apply safe_others|]. intros others. apply safe_bind; [|intros _].
  - destruct (treeMarkerState _ _ _) as [p|] eqn:Ep; [|apply safe_if; [apply safe_ret|by apply safe_remove, skill_dir_confined]].
    apply safe_bind; [|intros _]; apply safe_each; intros x Hx; (apply safe_if; [apply safe_remove|apply safe_ret]); apply (tree_paths _ _ _ _ Ep); auto.
  - apply safe_lift_ok. intros body _. apply safe_lift_ok. intros packs Hpacks. apply safe_lay.
    intros e [->%list_elem_of_singleton|[Hin|[Hin| ->%list_elem_of_singleton]%elem_of_app]%elem_of_app]%elem_of_app.
    + by apply wrote_skill_md.
    + eapply wrote_laid; [| |exact Hin]; [by apply skill_dir_confined|reflexivity].
    + apply list_elem_of_In, in_concat in Hin as (l & Hl%list_elem_of_In & Hin%list_elem_of_In).
      destruct (all_ok_in _ _ _ _ Hpacks Hl) as (b & _ & H). apply bind_Ok in H as (root & [-> Hr]%bundle_root_Ok & [= <-]).
      eapply wrote_laid; [| |exact Hin]; [by apply pack_root_confined|reflexivity].
    + split_and!; [by apply tree_marker_confined|reflexivity|]. intros _. right. by eexists.
Qed.

(** C17: The files of skills stay where they belong.  Skills and packs are laid out in a
    workspace in any number of calls that interleave at their awaits, while the agent changes
    the workspace as it likes, the markers among its files, and while operations of the
    sandbox fail.  Names, paths and contents are whatever packs and people gave.  Then every
    path the sandbox is asked to write is a relative path without empty, [.] or [..] parts
    inside the directory of the skills; where a marker lies, only a marker is written, so that
    no file of a skill or pack stands for one; and every path it is asked to remove is
    relative and without such parts too, whatever the marker it was read from says. *)
Theorem skill_files_confined s0 l o :
  s0.(asked) = [] -> o ∈ (acts serve l (begins s0)).(st).(asked) -> op_ok o.
Proof.
  intros H0. revert o. eapply (w_inv any all_asked_ok), (interleaved_ok any all_asked_ok serve (fun _ => any) (fun _ _ _ _ => True)).
  - intros q s HI. destruct q as [resolved|resolution bundles|f]; cbn [serve]; [by apply safe_index|by apply safe_tree|].
    apply safe_await; [|done]. intros s1 x s2 HI1 [= <- <-]. done.
  - intros o. rewrite H0. by intros ?%not_elem_of_nil.
Qed.
End confinement.

(** ** Witness: a hostile pack, and an agent that forges a marker *)

#[local] Instance files_workspace : Workspace (jsmap string string) := {
  ws_read p w := Ok (w !! p);
  ws_write p c w := Ok (<[p := c]> w);
  ws_remove p w := Ok (fold_left (fun w q => if (q === p) || starts_with q (p +:+ "/") then delete q w else w) (keys w) w);
  ws_extract := None;
}.
Definition hostile : Skill :=
  MkSkill "s1" "org:acme" (MkManifest "tools" "" [] "read me"
    (Some [MkFile "../../etc/passwd" "x" None; MkFile ".tree" "{forged}" None; MkFile "./bin\run.sh" "run" (Some true)])) "" published "pack:p1" 1 [] [] None None None
    (Some (MkPackOf "p1" "c0ffee" "tools")).
Definition forged : Json :=
  JObj [("version", JNum 2); ("hash", JStr "h"); ("skillPaths", JArr [JStr "skills/tools/old"]); ("bundlePaths", JArr [JStr "notes.txt"])].
Definition demo_parse (s : string) : option Json := if s === "{forged}" then Some forged else None.
Definition demo_box : Box (W := jsmap string string) := MkBox (<["notes.txt" := "mine"]> ∅) [].
Definition demo_actions : list (Action (Req (W := jsmap string string))) :=
  [Begin (m_agent (<["skills/tools/.tree" := "{forged}"]>)) 0; Move 0 0;
   Begin (m_tree (MkResolution (Some hostile) []) [MkBundle "p1" "c0ffee" [MkFile "/abs" "x" None; MkFile "lib/a.ts" "a" None] "b"]) 1;
   Move 1 1; Move 1 1; Move 1 1; Move 1 1; Move 1 1; Move 1 1; Move 1 1; Move 1 1].
Abbreviation demo_files_world := (acts (serve demo_parse (fun _ => "{marker}") (fun s => s)) demo_actions (begins demo_box)).
Lemma skill_files_confined_witness :
  (demo_files_world.(st).(asked) =
     [Removed "skills/tools/old"; Removed "notes.txt";
      Wrote "skills/tools/SKILL.md" ("read me" +:+ lf +:+ lf +:+ "## Pack files" +:+ lf +:+
        "Resolve repository-relative shared-file paths against `skills/.packs/p1/`; pack files never overwrite the workspace root.");
      Wrote "skills/tools/bin/run.sh" "run"; Wrote "skills/.packs/p1/lib/a.ts" "a"; Wrote "skills/tools/.tree" "{marker}"]) /\
  Forall (op_ok (fun _ => "{marker}")) demo_files_world.(st).(asked).
Proof.
  split; [vm_compute; reflexivity|]. apply Forall_forall. intros o Ho.
  exact (skill_files_confined demo_parse (fun _ => "{marker}") (fun s => s) demo_box demo_actions o eq_refl Ho).
Defined.
