(* ===== verification/Packs.v ===== *)
(** * Skill packs: what a repository of skills brings

    The front matter of a skill file ([src/src/skills/frontmatter.ts]), the skill a file of a
    repository stands for ([normalize.ts]) and the plan and import of a pack ([ingest.ts]), over
    the skill store of [Skills].  A field of the front matter named as a property every
    JavaScript object has is read as any other. *)

From S2P Require Import Prelude JsString Regex Scope DurableMap Async Skills SkillFiles.

#[local] Open Scope string_scope.

Abbreviation lf_c := "010"%char.
Abbreviation cr_c := "013"%char.

(** ** Front matter *)

(** A field: text, or a list of texts. *)
Inductive Attr := a_text (s : string) | a_list (l : list string).
Abbreviation Attrs := (jsmap string Attr).
(** [Frontmatter] src/src/skills/frontmatter.ts:3-6 *)
Record Frontmatter := MkFront { attrs : Attrs; f_body : string }.

Definition single_quote : string := "'".
Definition quoted_by (q : string) (t : string) : bool := starts_with t q && ends_with t q.
(** [stripQuotes] src/src/skills/frontmatter.ts:8-14 *)
Definition stripQuotes (value : string) : string :=
  let t := trim value in
  if Nat.leb 2 (String.length t) && (quoted_by dq t || quoted_by single_quote t) then str_take (String.length t - 2) (str_drop 1 t) else t.
(** [parseFlowArray] src/src/skills/frontmatter.ts:16-22 *)
Definition parseFlowArray (value : string) : list string :=
  js_filter truthy (map stripQuotes (split_on ","%char (str_take (String.length value - 2) (str_drop 1 value)))).
(** [indentOf] src/src/skills/frontmatter.ts:24-28 *)
Fixpoint indentOf (line : string) : nat :=
  match line with String c s => if (c === " "%char) || (c === "009"%char) then S (indentOf s) else 0%nat | "" => 0%nat end.

(** [split(/\r?\n/)]. *)
Definition drop_cr (s : string) : string := if str_last s === Some cr_c then str_take (String.length s - 1) s else s.
Fixpoint drop_crs (l : list string) : list string :=
  match l with [] => [] | [x] => [x] | x :: l => drop_cr x :: drop_crs l end.
Definition split_lines (s : string) : list string := drop_crs (split_on lf_c s).

Definition opening_re : re := (Bol false ⋅ lit "---" ⋅ opt (chr cr_c) ⋅ chr lf_c)%re.
Definition closing_re : re := (opt (chr cr_c) ⋅ chr lf_c ⋅ lit "---")%re.
Definition field_re : re :=
  (Bol false ⋅ Grp 1 (plus (Cls (fun c => is_word c || (c === "-"%char)))) ⋅ chr ":" ⋅ star (Cls is_space) ⋅ Grp 2 (star (Cls dot)) ⋅ Eol false)%re.
Definition item_re : re := (Bol false ⋅ star (Cls is_space) ⋅ chr "-" ⋅ plus (Cls is_space) ⋅ Grp 1 (star (Cls dot)) ⋅ Eol false)%re.

(** [parseFrontmatter] src/src/skills/frontmatter.ts:51-56
    The lines of a block, and those after it. *)
Fixpoint block (base : nat) (ls : list string) : list string * list string :=
  match ls with
  | [] => ([], [])
  | next :: more =>
      if truthy (trim next) && Nat.leb (indentOf next) base then ([], ls)
      else let '(c, r) := block base more in ((if truthy (trim next) then str_drop (Nat.min (indentOf next) (base + 2)) next else "") :: c, r)
  end.
(** [parseFrontmatter] src/src/skills/frontmatter.ts:70-78
    The items of a list, and the lines after them. *)
Fixpoint items (base : nat) (ls : list string) : list string * list string :=
  match ls with
  | [] => ([], [])
  | next :: more =>
      if negb (truthy (trim next)) || Nat.leb (indentOf next) base then ([], ls)
      else match exec item_re next with
           | None => ([], ls)
           | Some h => let '(c, r) := items base more in (stripQuotes (Regex.group 1 h ?? "") :: c, r)
           end
  end.
(** [parseFrontmatter] src/src/skills/frontmatter.ts:41-80
    A turn reads at least one line, so there are no more turns than lines. *)
Fixpoint fields_from (fuel : nat) (ls : list string) (at_ : Attrs) : Attrs :=
  match fuel, ls with
  | S fuel, line :: more =>
      if negb (truthy (trim line)) || starts_with (trim_start line) "#" then fields_from fuel more at_
      else match exec field_re line with
           | None => fields_from fuel more at_
           | Some m =>
               let key := Regex.group 1 m ?? "" in
               let rest := Regex.group 2 m ?? "" in
               if includes [">"; "|"; ">-"; "|-"] rest then
                 let '(collected, after) := block (indentOf line) more in
                 let joined := if starts_with rest "|" then join (String lf_c "") collected else squeeze (join " " collected) in
                 fields_from fuel after (<[key := a_text (trim joined)]> at_)
               else if truthy rest then
                 fields_from fuel more (<[key := if starts_with rest "[" && ends_with rest "]" then a_list (parseFlowArray rest) else a_text (stripQuotes rest)]> at_)
               else
                 let '(its, after) := items (indentOf line) more in fields_from fuel after (<[key := a_list its]> at_)
           end
  | _, _ => at_
  end.
(** The mark of the byte order. *)
Definition bom : string := String "239" (String "187" (String "191" "")).
(** [parseFrontmatter] src/src/skills/frontmatter.ts:30-84 *)
Definition parseFrontmatter (raw : string) : result string Frontmatter :=
  let source := if starts_with raw bom then str_drop (String.length bom) raw else raw in
  match exec opening_re source with
  | None => Throw "frontmatter: file must start with a --- fence"
  | Some o =>
      match exec closing_re (rest (h_end o)) with
      | None => Throw "frontmatter: --- fence is not closed"
      | Some c =>
          let ls := split_lines (h_skipped c) in
          Ok (MkFront (fields_from (length ls) ls ∅) (trim_start (rest (h_end c))))
      end
  end.
Definition text_of (o : option Attr) : option string := match o with Some (a_text s) => Some s | _ => None end.
(** [parseSeedSkillFrontmatter] src/src/skills/frontmatter.ts:86-106 *)
Definition parseSeedSkillFrontmatter (raw : string) : result string SkillManifest :=
  f ← parseFrontmatter raw;
  match text_of (f.(attrs) !! "name") with
  | None => Throw "seed skill requires name"
  | Some name =>
      if negb (truthy (trim name)) then Throw "seed skill requires name"
      else
        _ ← assertSafeSkillName name;
        match text_of (f.(attrs) !! "description") with
        | None => Throw ("seed skill " +:+ name +:+ " requires description")
        | Some d =>
            if negb (truthy (trim d)) then Throw ("seed skill " +:+ name +:+ " requires description")
            else match f.(attrs) !! "requiredCapabilities" ?? a_list [] with
                 | a_text _ => Throw ("seed skill " +:+ name +:+ " requiredCapabilities must be a list of strings")
                 | a_list caps =>
                     if negb (truthy (trim f.(f_body))) then Throw ("seed skill " +:+ name +:+ " requires a body")
                     else Ok (MkManifest name d caps f.(f_body) None)
                 end
        end
  end.

(** ** The skill a file stands for *)

(** [PackConfig] src/src/skills/normalize.ts:4-8 *)
Record PackConfig := MkConfig { skillGlobs : option (list string); exclude : option (list string); fieldOverrides : option (list (string * string)) }.
(** [NormalizedSkill] src/src/skills/normalize.ts:10-16 *)
Record NormalizedSkill := MkNormalized { n_manifest : SkillManifest; scopeHint : option string; private_ : bool; declaredCreds : list string; meta : Attrs }.

(** [RECOGNIZED] src/src/skills/normalize.ts:20-31 *)
Definition RECOGNIZED : list string :=
  ["name"; "description"; "requiredCapabilities"; "egress"; "allowed-tools"; "scope"; "visibility"; "private"; "agent_only"; "declaredCreds"].
(** [PRIVATE_FLAGS] src/src/skills/normalize.ts:32-32 *)
Definition PRIVATE_FLAGS : list string := ["private"; "agent_only"].
(** [isTruthy] src/src/skills/normalize.ts:34-38 *)
Definition isTruthy (v : option Attr) : bool := match text_of v with Some s => includes ["true"; "yes"; "1"] (to_lower (trim s)) | None => false end.
(** [asStringArray] src/src/skills/normalize.ts:40-48 *)
Definition asStringArray (v : option Attr) : list string :=
  match v with
  | Some (a_list l) => js_filter truthy (map trim l)
  | Some (a_text s) => if truthy (trim s) then [trim s] else []
  | None => []
  end.
Definition at_last {A} (l : list A) : option A := last l.
Definition strip_md (s : string) : string := if ends_with (to_lower s) ".md" then str_take (String.length s - 3) s else s.
(** [dirNameFromPath] src/src/skills/normalize.ts:50-54 *)
Definition dirNameFromPath (path : string) : string :=
  let parts := js_filter truthy (split_on "/"%char path) in
  match rev parts with
  | l :: d :: _ => if to_lower l === "skill.md" then d else strip_md l
  | [l] => strip_md l
  | [] => "skill"
  end.
Definition drop_hashes (s : string) : string := replace_first (Bol false ⋅ plus (chr "#") ⋅ star (Cls is_space))%re (fun _ => "") s.
(** [deriveDescription] src/src/skills/normalize.ts:56-67 *)
Definition deriveDescription (body name : string) : string :=
  let lines := map trim (split_on lf_c body) in
  let prose := find (fun l => truthy l && negb (starts_with l "#") && negb (starts_with l ">") && negb (starts_with l "---") && negb (starts_with l "```")) lines in
  let heading := match find (fun l => starts_with l "#") lines with Some l => trim (drop_hashes l) | None => "" end in
  let text := trim (squeeze (match prose with Some p => p | None => if truthy heading then heading else name end)) in
  if Nat.ltb 200 (String.length text) then str_take 199 text +:+ "…" else text.
Definition is_upper (c : ascii) : bool := in_range 65 90 c.
Definition env_re : re :=
  (chr "$" ⋅ opt (chr "{") ⋅ Grp 1 (Cls is_upper ⋅ Rep true 2 None (Cls (fun c => is_upper c || is_digit c || (c === "_"%char)))) ⋅ opt (chr "}"))%re.
(** [extractEnvRefs] src/src/skills/normalize.ts:69-74 *)
Definition extractEnvRefs (body : string) : list string := dedup (omap (Regex.group 1) (match_all env_re body)).
(** [normalizeSkill] src/src/skills/normalize.ts:84-87
    A field takes the value of another that is there, when it has none. *)
Definition overridden (at_ : Attrs) (overrides : list (string * string)) : Attrs :=
  fold_left (fun m '(from, to) => match m !! from, m !! to with Some v, None => <[to := v]> m | _, _ => m end) overrides at_.
(** [normalizeSkill] src/src/skills/normalize.ts:95-98 *)
Definition required_capabilities (at_ : Attrs) : list string :=
  match asStringArray (at_ !! "requiredCapabilities") with
  | [] => map (fun h => if str_includes h ":" then h else "egress:" +:+ h) (asStringArray (at_ !! "egress"))
  | l => l
  end.
(** [normalizeSkill] src/src/skills/normalize.ts:100-103 *)
Definition scope_hint (at_ : Attrs) : option string :=
  let raw := match text_of (at_ !! "scope") with Some s => Some s | None => text_of (at_ !! "visibility") end in
  if_truthy ((fun s => to_lower (trim s)) <$> raw).
(** [normalizeSkill] src/src/skills/normalize.ts:76-122
    [None] for a file that is skipped as malformed. *)
Definition normalizeSkill (raw path : string) (cfg : option PackConfig) : option NormalizedSkill :=
  match parseFrontmatter raw with
  | Throw _ => None
  | Ok parsed =>
      let at_ := overridden parsed.(attrs) ((cfg ≫= fieldOverrides) ?? []) in
      let body := parsed.(f_body) in
      let name := match text_of (at_ !! "name") with Some n => if truthy (trim n) then trim n else dirNameFromPath path | None => dirNameFromPath path end in
      if negb (truthy (trim body)) then None
      else
        let fm := match text_of (at_ !! "description") with Some d => trim d | None => "" end in
        let description := if truthy fm then fm else deriveDescription body name in
        let isPrivate := some (fun k => isTruthy (at_ !! k)) PRIVATE_FLAGS || str_includes body "THE-AGENT-ONLY" in
        let declared := match asStringArray (at_ !! "declaredCreds") with [] => extractEnvRefs body | l => l end in
        let meta := fold_left (fun m '(k, v) => if includes RECOGNIZED k then m else <[k := v]> m) (entries parsed.(attrs)) ∅ in
        Some (MkNormalized (MkManifest name description (required_capabilities at_) body None) (scope_hint at_) isPrivate declared meta)
  end.
(** [PERSONAL_SCOPES] src/src/skills/normalize.ts:124-124 *)
Definition PERSONAL_SCOPES : list string := ["personal"; "person"; "private"; "owner"; "me"; "self"; "individual"].
(** [isOrgEligibleScope] src/src/skills/normalize.ts:125-127 *)
Definition isOrgEligibleScope (hint : option string) : bool := match hint with None => true | Some h => negb (includes PERSONAL_SCOPES h) end.

(** ** The plan of a pack *)

(** [RepoFile] src/src/skills/ingest.ts:15-19 *)
Record RepoFile := MkRepoFile { r_path : string; r_text : string; binary : bool }.
(** [FetchedRepo] src/src/skills/ingest.ts:20-23 *)
Record FetchedRepo := MkRepo { commit : string; r_files : list RepoFile }.
(** [ExcludeReason] src/src/skills/ingest.ts:25-25 *)
Inductive ExcludeReason := x_scope | x_private | x_collision | x_binary | x_malformed.
#[export] Instance ExcludeReason_eq_dec : EqDecision ExcludeReason.
Proof. solve_decision. Defined.
(** [IngestCandidate] src/src/skills/ingest.ts:27-34 *)
Record IngestCandidate := MkCandidate { c_upstreamName : string; skillPath : string; normalized : option NormalizedSkill; excludeReason : option ExcludeReason }.
Definition eligible (c : IngestCandidate) : bool := negb (is_some c.(excludeReason)).

(** [globToRegExp] src/src/skills/ingest.ts:41-52
    [**] is any text of a line, [*] any text without a slash. *)
Fixpoint glob_rest (glob : string) : re :=
  match glob with
  | "" => Eol false
  | String "*" (String "*" g) => (star (Cls dot) ⋅ glob_rest g)%re
  | String "*" g => (star (Cls (none_of "/")) ⋅ glob_rest g)%re
  | String c g => (chr c ⋅ glob_rest g)%re
  end.
Definition globToRegExp (glob : string) : re := (Bol false ⋅ glob_rest glob)%re.
(** [matchesAny] src/src/skills/ingest.ts:53-55 *)
Definition matchesAny (path : string) (globs : option (list string)) : bool :=
  match globs with Some gs => some (fun g => test (globToRegExp g) path) gs | None => false end.
(** [skillDirOf] src/src/skills/ingest.ts:57-60 *)
Definition skillDirOf (path : string) : string := join "/" (removelast (split_on "/"%char path)).
(** [lastSegment] src/src/skills/ingest.ts:61-64 *)
Definition lastSegment (path : string) : string := at_last (js_filter truthy (split_on "/"%char path)) ?? path.
Definition by_path (l : list SkillFile) : list SkillFile := js_sort (fun a b => str_cmp a.(f_path) b.(f_path)) l.
(** [collectAssets] src/src/skills/ingest.ts:69-81 *)
Fixpoint assets_in (prefix : string) (l : list RepoFile) : option (list SkillFile) :=
  match l with
  | [] => Some []
  | f :: l =>
      if negb (starts_with f.(r_path) prefix) then assets_in prefix l
      else
        let rel := str_drop (String.length prefix) f.(r_path) in
        if (rel === "SKILL.md") || str_includes rel "/SKILL.md" then assets_in prefix l
        else if f.(binary) then None
        else match safeSkillFilePath rel with
             | Throw _ => None
             | Ok safe => more ← assets_in prefix l; Some (MkFile safe f.(r_text) None :: more)
             end
  end.
(** [collectAssets] src/src/skills/ingest.ts:66-87 *)
Definition collectAssets (repo : FetchedRepo) (skillDir : string) : option (list SkillFile) :=
  by_path <$> assets_in (if truthy skillDir then skillDir +:+ "/" else "") repo.(r_files).
Fixpoint inits_of {A} (l : list A) : list (list A) :=
  match l with [] => [] | [_] => [] | x :: l => [x] :: map (cons x) (inits_of l) end.
(** [isExcludedPath] src/src/skills/ingest.ts:89-97 *)
Definition isExcludedPath (path : string) (globs : option (list string)) : bool :=
  match globs with
  | None | Some [] => false
  | Some _ => matchesAny path globs || some (fun p => matchesAny (join "/" p) globs) (inits_of (split_on "/"%char path))
  end.
(** [BUNDLE_IGNORE_ANYWHERE] src/src/skills/ingest.ts:99-106 *)
Definition BUNDLE_IGNORE_ANYWHERE : list string := [".gitignore"; ".gitattributes"; ".gitmodules"; ".editorconfig"; ".npmignore"; ".ds_store"].
(** [BUNDLE_IGNORE_ROOT] src/src/skills/ingest.ts:107-123 *)
Definition BUNDLE_IGNORE_ROOT : list string :=
  ["readme"; "readme.md"; "readme.txt"; "readme.rst"; "license"; "license.md"; "license.txt"; "licence"; "licence.md"; "notice"; "contributing.md";
   "code_of_conduct.md"; "changelog.md"; "changelog"; "security.md"; "codeowners"].
(** [isRepoMetadata] src/src/skills/ingest.ts:124-132 *)
Definition isRepoMetadata (path : string) : bool :=
  let lower := to_lower path in
  if some (fun d => (lower === d) || starts_with lower (d +:+ "/")) [".github"; ".claude-plugin"; ".claude"] then true
  else
    let base := at_last (split_on "/"%char lower) ?? lower in
    if includes BUNDLE_IGNORE_ANYWHERE base then true
    else negb (str_includes lower "/") && includes BUNDLE_IGNORE_ROOT base.
Definition is_skill_md (f : RepoFile) : bool := lastSegment f.(r_path) === "SKILL.md".
Definition under (d p : string) : bool := (p === d) || starts_with p (d +:+ "/").
(** [collectSharedBundle] src/src/skills/ingest.ts:134-166 *)
Definition collectSharedBundle (repo : FetchedRepo) (config : option PackConfig) : list SkillFile :=
  let dirs := map (fun f => skillDirOf f.(r_path)) (js_filter is_skill_md repo.(r_files)) in
  if some (fun d => negb (truthy d)) dirs then []
  else
    by_path (omap (fun f =>
      if is_skill_md f || some (fun d => under d f.(r_path)) dirs || isRepoMetadata f.(r_path) || isExcludedPath f.(r_path) (config ≫= exclude) || f.(binary) then None
      else match safeSkillFilePath f.(r_path) with Throw _ => None | Ok safe => Some (MkFile safe f.(r_text) None) end) repo.(r_files)).
(** [planIngest] src/src/skills/ingest.ts:197-203 *)
Definition exclusion (repo : FetchedRepo) (nativeNames : list string) (skillDir : string) (n : NormalizedSkill) : option ExcludeReason :=
  if n.(private_) then Some x_private
  else if negb (isOrgEligibleScope n.(scopeHint)) then Some x_scope
  else if includes nativeNames n.(n_manifest).(m_name) then Some x_collision
  else if is_some (collectAssets repo skillDir) then None else Some x_binary.
(** [planIngest] src/src/skills/ingest.ts:178-212
    What becomes of a file of the repository. *)
Definition candidate (repo : FetchedRepo) (cfg : option PackConfig) (nativeNames : list string) (f : RepoFile) : option IngestCandidate :=
  let skillDir := skillDirOf f.(r_path) in
  if negb (is_skill_md f) then None
  else if match cfg ≫= skillGlobs with Some g => negb (matchesAny skillDir (Some g)) | None => false end then None
  else if matchesAny skillDir (cfg ≫= exclude) then None
  else
    let upstreamName := if truthy (lastSegment skillDir) then lastSegment skillDir else lastSegment f.(r_path) in
    match normalizeSkill f.(r_text) f.(r_path) cfg with
    | None => Some (MkCandidate upstreamName f.(r_path) None (Some x_malformed))
    | Some n => Some (MkCandidate upstreamName f.(r_path) (Some n) (exclusion repo nativeNames skillDir n))
    end.
Record Counts := MkCounts { total : nat; eligible_ : nat; by_reason : ExcludeReason -> nat }.
(** [planIngest] src/src/skills/ingest.ts:173-216
    With its counts. *)
Definition planIngest (repo : FetchedRepo) (cfg : option PackConfig) (nativeNames : list string) : list IngestCandidate * Counts :=
  let cs := omap (candidate repo cfg nativeNames) repo.(r_files) in
  (cs, MkCounts (length cs) (length (js_filter eligible cs)) (fun r => length (js_filter (fun c => c.(excludeReason) === Some r) cs))).
