(* ===== verification/Deploys.v ===== *)
(** * Deployments: what a team publishes, and who reaches it

    The deployment store ([src/src/deploy/deploy-store.ts]), the paths a deployment may carry
    ([deploy-fs.ts]) and the service over both ([deploy-service.ts]): publishing, versions,
    roll back, sharing, transfer and reach, as calls cut at their awaits over any durable map
    whose [get] returns a copy and over the grants of [Acl].  The git store, the disk and the
    provider that runs an app are the host's ([Cloud]): any operation of theirs may fail.  The
    lock of a deployment, the keyed queue with the advisory lock, is one lock that is waited
    for.  Who may read, write and manage a scope changes as it likes.  Audit rows are not
    modelled. *)

From S2P Require Import Prelude JsString Scope DurableMap Async Acl.

#[local] Open Scope string_scope.
#[local] Open Scope Z_scope.

(** ** Paths and names *)

Definition nul : ascii := "000"%char.
(** [isGitMetadataComponent] src/src/deploy/deploy-fs.ts:8-14 *)
Definition isGitMetadataComponent (part : string) : bool :=
  let p := to_lower (strip_last (fun c => (c === "."%char) || is_space c) part) in
  (p === ".git") || (starts_with p "git~" && (let n := str_drop 4 p in truthy n && str_every is_digit n)).
(** [carriesGitMetadata] src/src/deploy/deploy-fs.ts:16-18 *)
Definition carriesGitMetadata (path : string) : bool :=
  some isGitMetadataComponent (js_filter truthy (split_on "/"%char (forward path))).
(** [normalizeRelPath] src/src/deploy/deploy-fs.ts:20-35 *)
Definition normalizeRelPath (path : string) : result string string :=
  let p := tidy_path path in
  let parts := js_filter truthy (split_on "/"%char p) in
  if match parts with [] => true | _ => false end || starts_with path "/"
     || some (fun part => (part === ".") || (part === "..") || str_some (fun c => c === nul) part) parts
     || some isGitMetadataComponent parts
  then Throw ("invalid deploy path: " +:+ path)
  else Ok (join "/" parts).

Definition is_lower (c : ascii) : bool := in_range 97 122 c.
Definition name_edge (c : ascii) : bool := is_lower c || is_digit c.
(** [NAME_RE] src/src/deploy/deploy-service.ts:113-113 *)
Definition NAME_RE (name : string) : bool :=
  match name with
  | "" => false
  | String c s =>
      name_edge c && str_every (fun c => name_edge c || (c === "-"%char)) s && Nat.leb (String.length s) 39
        && match str_last s with Some d => name_edge d | None => true end
  end.
Definition hex_part (n : nat) (s : string) : bool := str_every is_hex s && Nat.eqb (String.length s) n.
(** [UUID_RE] src/src/deploy/deploy-service.ts:114-114 *)
Definition UUID_RE (name : string) : bool :=
  match split_on "-"%char name with
  | [a; b; c; d; e] => hex_part 8 a && hex_part 4 b && hex_part 4 c && hex_part 4 d && hex_part 12 e
  | _ => false
  end.
(** [validateName] src/src/deploy/deploy-service.ts:116-123 *)
Definition validateName (name : string) : result string unit :=
  if UUID_RE name then Throw ("invalid deployment name (looks like an id): " +:+ name)
  else if negb (NAME_RE name) then
    Throw ("invalid deployment name " +:+ dq +:+ name +:+ dq +:+ ": use 2-40 chars, lowercase letters/digits/hyphens, no leading/trailing hyphen")
  else Ok tt.
(** [DISPLAY_NAME_MAX] src/src/deploy/deploy-service.ts:125-125 *)
Definition DISPLAY_NAME_MAX : Z := 60.
(** [validateDisplayName] src/src/deploy/deploy-service.ts:126-129 *)
Definition validateDisplayName (displayName : string) : result string unit :=
  if str_some (fun c => in_range 0 31 c || (c === "127"%char)) displayName then Throw "invalid display name: no control characters"
  else if str_len displayName >? DISPLAY_NAME_MAX then Throw "display name too long (max 60 chars)"
  else Ok tt.

(** ** Data *)

(** [DeploymentVersion] src/src/deploy/deploy-store.ts:13-23 *)
Record DeploymentVersion := MkVersion {
  v_version : Z;
  v_createdAt : Z;
  v_entrypoint : string;
  snapshotDir : string;
  homeDir : option string;
  v_image : option string;
  commit : option string;
  parentCommit : option string;
  v_env : option (list (string * string));
}.
(** [DeployEndpoint] src/src/deploy/deploy-store.ts:25-33 *)
Record DeployEndpoint := MkEndpoint {
  e_host : string;
  e_port : Z;
  publicUrl : option string;
  e_image : option string;
  tls : option bool;
  httpVersion : option string;
  proxyHeaders : option (list (string * string));
}.
Inductive DeploymentStatus := running | stopped | archived.
#[export] Instance DeploymentStatus_eq_dec : EqDecision DeploymentStatus.
Proof. solve_decision. Defined.
(** [DefaultAudienceSnapshot] src/src/deploy/deploy-store.ts:49-53 *)
Record DefaultAudienceSnapshot := MkAudience { sourceScopeId : ScopeId; granteeScopeIds : list ScopeId; snapshotAt : Z }.
(** [Deployment] src/src/deploy/deploy-store.ts:55-69 *)
Record Deployment := MkDeployment {
  d_id : string;
  d_owner : ScopeId;
  d_createdBy : string;
  createdInScope : option ScopeId;
  d_audience : option DefaultAudienceSnapshot;
  d_name : option string;
  displayName : option string;
  currentVersion : Z;
  d_status : DeploymentStatus;
  endpoint : option DeployEndpoint;
  lastAccessAt : option Z;
  appliedVersion : option Z;
  versions : list DeploymentVersion;
}.
#[export] Instance DeploymentVersion_eta : Eta DeploymentVersion := fun v =>
  MkVersion v.(v_version) v.(v_createdAt) v.(v_entrypoint) v.(snapshotDir) v.(homeDir) v.(v_image) v.(commit) v.(parentCommit) v.(v_env).
#[export] Instance Deployment_eta : Eta Deployment := fun d =>
  MkDeployment d.(d_id) d.(d_owner) d.(d_createdBy) d.(createdInScope) d.(d_audience) d.(d_name) d.(displayName) d.(currentVersion)
    d.(d_status) d.(endpoint) d.(lastAccessAt) d.(appliedVersion) d.(versions).

(** [DeployFile] src/src/deploy/deploy-service.ts:24-27 *)
Record DeployFile := MkDeployFile { df_path : string; df_data : string }.
(** [VersionInput] src/src/deploy/deploy-store.ts:71-77 *)
Record VersionInput := MkVersionInput {
  vi_entrypoint : string; vi_snapshotDir : string; vi_homeDir : option string; vi_env : option (list (string * string)); vi_files : option (list DeployFile) }.

(** The git store, the disk and the provider. *)
Record DeployDiff := MkDiff { added : list string; modified : list string; deleted : list string }.
Record ReconcileInput := MkReconcile { gitBundle : option string; changedPaths : list string; deletedPaths : list string; allPaths : list string }.
Class Cloud (X : Type) := {
  git_commit : string -> Z -> list DeployFile -> option string -> X -> result string string * X;
  git_setRef : string -> string -> string -> X -> result string unit * X;
  git_deleteRef : string -> string -> X -> result string unit * X;
  git_refOf : string -> string -> X -> result string (option string) * X;
  git_treeOf : string -> string -> X -> result string (option (list string)) * X;
  git_diff : string -> option string -> string -> X -> result string (option DeployDiff) * X;
  git_bundle : string -> string -> X -> result string (option string) * X;
  disk_snapshot : list DeployFile -> X -> result string string * X;
  p_apply : Deployment -> DeploymentVersion -> X -> result string DeployEndpoint * X;
  p_reconcile : option (Deployment -> DeploymentVersion -> ReconcileInput -> X -> result string DeployEndpoint * X);
  p_destroy : Deployment -> X -> result string unit * X;
  p_resolve : option (Deployment -> DeploymentVersion -> X -> result string (option DeployEndpoint) * X);
}.

(** What the calls share.  The rules on scopes are there when the host installs them. *)
Record Depot (M P X : Type) := MkDepot {
  deployments : M;
  grants : P;
  cloud : X;
  canRead : option (string -> ScopeId -> result string bool);
  canWrite : option (string -> ScopeId -> result string bool);
  managesHomes : option (ScopeId -> string -> string -> result string bool);
  locks : list string;
}.
Arguments MkDepot {M P X}.
Arguments deployments {M P X} d.
Arguments grants {M P X} d.
Arguments cloud {M P X} d.
Arguments canRead {M P X} d.
Arguments canWrite {M P X} d.
Arguments managesHomes {M P X} d.
Arguments locks {M P X} d.
#[export] Instance Depot_eta M P X : Eta (Depot M P X) := fun d =>
  MkDepot d.(deployments) d.(grants) d.(cloud) d.(canRead) d.(canWrite) d.(managesHomes) d.(locks).

(** [CURRENT_REF] src/src/deploy/deploy-store.ts:112-112 *)
Definition CURRENT_REF : string := "refs/heads/current".
(** [versionRef] src/src/deploy/deploy-store.ts:113-113 *)
Definition versionRef (version : Z) : string := "refs/versions/" +:+ pretty.pretty version.
Definition version_of (n : Z) (d : Deployment) : option DeploymentVersion := find (fun v => v.(v_version) === n) d.(versions).
Definition version_in (n : Z) (d : option Deployment) : option DeploymentVersion := d ≫= version_of n.
Definition commit_in (n : Z) (d : option Deployment) : option string := version_in n d ≫= commit.

(** ** The store *)

Section deploys.
Context {M P X : Type} `{!DurableMap M Deployment} `{!GrantPersistence P} `{!Cloud X}.
Variables (manages : option (string -> ScopeId -> option string -> bool)) (endpoint_json : DeployEndpoint -> string).
Abbreviation St := (Depot M P X).
Abbreviation call := (call St string).

Definition on_deployments {Y} (f : M -> Y * M) (s : St) : option (Y * St) :=
  let '(y, m) := f s.(deployments) in Some (y, s <| deployments := m |>).
Definition get_d (k : string) : call (option Deployment) := await (on_deployments (fun m => (dm_get k m, m))).
Definition put_d (k : string) (d : Deployment) : call unit := await (on_deployments (fun m => (tt, dm_put k d m))).
Definition all_d : call (list Deployment) := await (on_deployments (fun m => (dm_all m, m))).
(** An operation of the host that may fail. *)
Definition ask {Y} (f : X -> result string Y * X) : call Y :=
  r ← await (fun s => let '(r, x) := f s.(cloud) in Some (r, s <| cloud := x |>));
  lift r.
Definition known (k : string) (d : option Deployment) : call Deployment :=
  match d with Some d => mret d | None => Raise ("unknown deployment: " +:+ k) end.
Definition no_version (n : Z) : string := "no such version " +:+ pretty.pretty n.

(** [makeVersion] src/src/deploy/deploy-store.ts:130-155 *)
Definition makeVersion (k : string) (n : Z) (input : VersionInput) (parent : option string) : call DeploymentVersion :=
  c ← match input.(vi_files) with
      | Some fs => c ← ask (git_commit k n fs parent); mret (Some c)
      | None => mret None
      end;
  t ← now;
  mret (MkVersion n t input.(vi_entrypoint) input.(vi_snapshotDir) input.(vi_homeDir) None c parent input.(vi_env)).
(** [updateVersionRef] src/src/deploy/deploy-store.ts:157-161 *)
Definition updateVersionRef (k : string) (v : DeploymentVersion) : call unit :=
  match if_truthy v.(commit) with
  | None => mret tt
  | Some c => _ ← ask (git_setRef k (versionRef v.(v_version)) c); ask (git_setRef k ("refs/deploy-commits/" +:+ c) c)
  end.
(** [updateAppliedRef] src/src/deploy/deploy-store.ts:163-166 *)
Definition updateAppliedRef (k : string) (v : DeploymentVersion) : call unit :=
  match if_truthy v.(commit) with
  | Some c => ask (git_setRef k CURRENT_REF c)
  | None => ask (git_deleteRef k CURRENT_REF)
  end.

(** [create] src/src/deploy/deploy-store.ts:169-186 *)
Definition create (k : string) (owner : ScopeId) (by_ : string) (name : option string) (home : option ScopeId) (input : VersionInput) : call Deployment :=
  v ← makeVersion k 1 input None;
  let d := MkDeployment k owner by_ (if_truthy home) None (if_truthy name) None 1 stopped None None None [v] in
  _ ← put_d k d;
  _ ← updateVersionRef k v;
  mret d.
Definition with_version (v : DeploymentVersion) (d : Deployment) : Deployment :=
  d <| versions := (d.(versions) ++ [v])%list |> <| currentVersion := v.(v_version) |>.
(** [addVersion] src/src/deploy/deploy-store.ts:190-190 *)
Definition next_version (d : Deployment) : Z := Z.of_nat (length d.(versions)) + 1.
(** [addVersion] src/src/deploy/deploy-store.ts:187-198 *)
Definition addVersion (k : string) (input : VersionInput) : call DeploymentVersion :=
  d ← get_d k;
  d ← known k d;
  v ← makeVersion k (next_version d) input (if_truthy (commit_in d.(currentVersion) (Some d)));
  _ ← put_d k (with_version v d);
  _ ← updateVersionRef k v;
  mret v.
(** [addVersionFromCommit] src/src/deploy/deploy-store.ts:199-220 *)
Definition addVersionFromCommit (k c : string) : call (option DeploymentVersion) :=
  d ← get_d k;
  d ← known k d;
  let current := version_of d.(currentVersion) d in
  if (current ≫= commit) === Some c then mret None
  else
    t ← now;
    let v := MkVersion (next_version d) t ((v_entrypoint <$> current) ?? "") ((snapshotDir <$> current) ?? "/unused") (current ≫= homeDir)
               None (Some c) (if_truthy (current ≫= commit)) (current ≫= v_env) in
    _ ← put_d k (with_version v d);
    _ ← updateVersionRef k v;
    mret (Some v).
(** [getByName] src/src/deploy/deploy-store.ts:222-222 *)
Definition getByName (name : string) : call (option Deployment) :=
  all ← all_d;
  mret (find (fun d => d.(d_name) === Some name) all).
(** [setCurrentVersion] src/src/deploy/deploy-store.ts:224-231 *)
Definition setCurrentVersion (k : string) (n : Z) : call unit :=
  d ← get_d k;
  match (d : option Deployment) with
  | None => mret tt
  | Some d => if negb (is_some (version_of n d)) then Raise (no_version n) else put_d k (d <| currentVersion := n |>)
  end.
Definition set_image (n : Z) (image : string) (d : Deployment) : Deployment :=
  d <| versions := match find_index (fun v => v.(v_version) === n) d.(versions) with
                   | Some i => alter (fun v => v <| v_image := Some image |>) i d.(versions)
                   | None => d.(versions)
                   end |>.
(** [setVersionImage] src/src/deploy/deploy-store.ts:232-239 *)
Definition setVersionImage (k : string) (n : Z) (image : string) : call unit :=
  d ← get_d k;
  match (d : option Deployment) with
  | None => mret tt
  | Some d => if negb (is_some (version_of n d)) then Raise (no_version n) else put_d k (set_image n image d)
  end.
(** The record that is read, changed and written back. *)
Definition change (k : string) (f : Deployment -> Deployment) : call unit :=
  d ← get_d k;
  match (d : option Deployment) with Some d => put_d k (f d) | None => mret tt end.
(** [setStatus] src/src/deploy/deploy-store.ts:240-246 *)
Definition setStatus (k : string) (st : DeploymentStatus) : call unit := change k (fun d => d <| d_status := st |>).
(** [setEndpoint] src/src/deploy/deploy-store.ts:247-253 *)
Definition setEndpoint (k : string) (e : option DeployEndpoint) : call unit := change k (fun d => d <| endpoint := e |>).
(** [setName] src/src/deploy/deploy-store.ts:254-260 *)
Definition setName (k name : string) : call unit := change k (fun d => d <| d_name := Some name |>).
(** [setOwnerScope] src/src/deploy/deploy-store.ts:261-267 *)
Definition setOwnerScope (k : string) (owner : ScopeId) : call unit := change k (fun d => d <| d_owner := owner |>).
(** [setDisplayName] src/src/deploy/deploy-store.ts:268-275 *)
Definition setDisplayName (k : string) (name : option string) : call unit := change k (fun d => d <| displayName := if_truthy name |>).
(** [setDefaultAudience] src/src/deploy/deploy-store.ts:276-282 *)
Definition setDefaultAudience (k : string) (a : DefaultAudienceSnapshot) : call unit := change k (fun d => d <| d_audience := Some a |>).
(** [setAppliedVersion] src/src/deploy/deploy-store.ts:283-291 *)
Definition setAppliedVersion (k : string) (n : Z) : call unit :=
  d ← get_d k;
  match (d : option Deployment) with
  | None => mret tt
  | Some d =>
      match version_of n d with
      | None => Raise (no_version n)
      | Some v => _ ← put_d k (d <| appliedVersion := Some n |>); updateAppliedRef k v
      end
  end.
(** [touch] src/src/deploy/deploy-store.ts:292-298 *)
Definition touch (k : string) (t : Z) : call unit := change k (fun d => d <| lastAccessAt := Some t |>).
(** [versionOf] src/src/deploy/deploy-store.ts:299-301 *)
Definition versionOf (k : string) (n : Z) : call (option DeploymentVersion) := d ← get_d k; mret (version_in n d).
(** [treeOf] src/src/deploy/deploy-store.ts:302-305 *)
Definition treeOf (k : string) (n : Z) : call (option (list string)) :=
  d ← get_d k;
  match if_truthy (commit_in n d) with Some c => ask (git_treeOf k c) | None => mret None end.
(** [diffVersions] src/src/deploy/deploy-store.ts:310-316 *)
Definition diffVersions (k : string) (from : option Z) (to : Z) : call (option DeployDiff) :=
  d ← get_d k;
  match (d : option Deployment) with
  | None => mret None
  | Some d =>
      match if_truthy (commit_in to (Some d)) with
      | Some c => ask (git_diff k (from ≫= (fun n => commit_in n (Some d))) c)
      | None => mret None
      end
  end.
(** [bundleOf] src/src/deploy/deploy-store.ts:317-320 *)
Definition bundleOf (k : string) (n : Z) : call (option string) :=
  d ← get_d k;
  match if_truthy (commit_in n d) with Some c => ask (git_bundle k c) | None => mret None end.

(** ** The service *)

(** [withDeployLock] src/src/deploy/deploy-service.ts:135-137 *)
Definition withDeployLock {A} (k : string) (c : call A) : call A :=
  _ ← await (fun s : St => if includes s.(locks) k then None else Some (tt, s <| locks := k :: s.(locks) |>));
  r ← catch (x ← c; mret (Ok (E := string) x)) (fun e => mret (Throw e));
  _ ← await (fun s : St => Some (tt, s <| locks := js_filter (fun x => x !== k) s.(locks) |>));
  lift r.

(** [applyVersion] src/src/deploy/deploy-service.ts:139-163 *)
Definition applyVersion (k : string) (v : DeploymentVersion) (fromVersion : option Z) : call DeployEndpoint :=
  d ← get_d k;
  match (d : option Deployment) with
  | None => Raise "cannot read properties of null"
  | Some d =>
      e ← match p_reconcile, if_truthy v.(commit) with
          | Some reconcile, Some _ =>
              diff ← diffVersions k fromVersion v.(v_version);
              all ← treeOf k v.(v_version);
              bundle ← bundleOf k v.(v_version);
              let allPaths := (all : option (list string)) ?? [] in
              ask (reconcile d v (MkReconcile bundle
                     match (diff : option DeployDiff) with Some x => (x.(added) ++ x.(modified))%list | None => allPaths end
                     match (diff : option DeployDiff) with Some x => x.(deleted) | None => [] end allPaths))
          | _, _ => ask (p_apply d v)
          end;
      _ ← match if_truthy e.(e_image) with
          | Some image => if v.(v_image) === Some image then mret tt else setVersionImage k v.(v_version) image
          | None => mret tt
          end;
      mret e
  end.
(** [markVersionRunning] src/src/deploy/deploy-service.ts:165-169 *)
Definition markVersionRunning (k : string) (n : Z) (e : DeployEndpoint) : call unit :=
  _ ← setEndpoint k (Some e);
  _ ← setStatus k running;
  setAppliedVersion k n.
(** [endpointsEqual] src/src/deploy/deploy-service.ts:719-721 *)
Definition endpointsEqual (a : DeployEndpoint) (b : option DeployEndpoint) : bool :=
  match b with Some b => endpoint_json a === endpoint_json b | None => false end.
Definition fromOf (d : Deployment) : Z := d.(appliedVersion) ?? d.(currentVersion).
(** [liveEndpoint] src/src/deploy/deploy-service.ts:171-192 *)
Definition liveEndpoint (d : Deployment) : call (option DeployEndpoint) :=
  match p_resolve, d.(endpoint), version_of d.(currentVersion) d with
  | Some resolve, Some _, Some v0 =>
      r ← ask (resolve d v0);
      match (r : option DeployEndpoint) with
      | Some e => _ ← (if endpointsEqual e d.(endpoint) then mret tt else setEndpoint d.(d_id) (Some e)); mret (Some e)
      | None =>
          withDeployLock d.(d_id)
            (cur ← get_d d.(d_id);
             let cur := (cur : option Deployment) ?? d in
             let v := version_of cur.(currentVersion) cur ?? v0 in
             again ← ask (resolve cur v);
             match (again : option DeployEndpoint) with
             | Some e => _ ← (if endpointsEqual e cur.(endpoint) then mret tt else setEndpoint cur.(d_id) (Some e)); mret (Some e)
             | None =>
                 e ← applyVersion cur.(d_id) v (Some (fromOf cur));
                 _ ← markVersionRunning cur.(d_id) v.(v_version) e;
                 mret (Some e)
             end)
      end
  | _, _, _ => mret d.(endpoint)
  end.

Definition deploymentRef (k : string) : string := encodeRef (MkRef k_deploy k).
(** [grantsOn] src/src/deploy/deploy-service.ts:194-195 *)
Definition grantsOn (d : Deployment) : call (list Grant) :=
  await (fun s => Some (grantsFor d.(d_owner) (deploymentRef d.(d_id)) s.(grants), s)).
Definition grant_ (g : Grant) (authoredBy : option string) : call unit :=
  r ← await (fun s => let '(r, p) := grant manages g authoredBy s.(grants) in Some (r, s <| grants := p |>));
  lift r.
Definition revoke_ (owner : ScopeId) (ref : string) (grantee : ScopeId) (by_ : string) (authoredBy : option string) : call unit :=
  r ← await (fun s => let '(r, p) := revoke manages owner ref grantee by_ authoredBy s.(grants) in Some (r, s <| grants := p |>));
  lift r.
(** [reachAllowed] src/src/deploy/deploy-service.ts:199-203 *)
Definition reads_scope (s : St) (principalId : string) (sc : ScopeId) : result string bool :=
  match s.(canRead) with
  | Some f => f principalId sc
  | None => let '(kind, ref) := parseScopeId sc in
            Ok ((kind === Some org) || ((kind === Some personal) && samePerson (Some ref) (Some principalId)))
  end.
Definition reaches (principalId : string) (sc : ScopeId) : call bool :=
  r ← await (fun s => Some (reads_scope s principalId sc, s)); lift r.
(** The first of a list for which an answer is yes. *)
Fixpoint any_of {A} (l : list A) (f : A -> call bool) : call bool :=
  match l with
  | [] => mret false
  | x :: l => b ← f x; if (b : bool) then mret true else any_of l f
  end.
(** [reachAllowed] src/src/deploy/deploy-service.ts:197-209 *)
Definition reachAllowed (d : Deployment) (principalId : string) : call bool :=
  if negb (truthy principalId) then mret false
  else
    own ← reaches principalId d.(d_owner);
    if (own : bool) then mret true
    else
      gs ← grantsOn d;
      any_of gs (fun g => reaches principalId g.(granteeScopeId)).
(** [canWriteScope] src/src/deploy/deploy-service.ts:211-214 *)
Definition canWriteScope (callerId : string) (sc : ScopeId) (acting : option ScopeId) : call bool :=
  r ← await (fun s => Some (match s.(canWrite) with
                            | Some f => f callerId sc
                            | None => Ok ((sc === "personal:" +:+ callerId) || (Some sc === acting))
                            end, s));
  lift r.
(** [managesHome] src/src/deploy/deploy-service.ts:216-226 *)
Definition managesHome (d : Deployment) (callerId : string) (acting : option ScopeId) : call bool :=
  if d.(d_owner) === "personal:" +:+ callerId then mret true
  else
    r ← await (fun s => Some (match s.(managesHomes) with Some f => f d.(d_owner) d.(d_createdBy) callerId | None => Ok false end, s));
    home ← lift r;
    if (home : bool) then mret true
    else match d.(createdInScope) with
         | Some sc => if isManageableCreationScope (Some sc) then canWriteScope callerId sc acting else mret false
         | None => mret false
         end.
(** [canManage] src/src/deploy/deploy-service.ts:228-240 *)
Definition canManage (d : Deployment) (callerId : string) (acting : option ScopeId) : call bool :=
  home ← managesHome d callerId acting;
  if (home : bool) then mret true
  else
    gs ← grantsOn d;
    any_of gs (fun g => if g.(permission) === p_write then canWriteScope callerId g.(granteeScopeId) acting else mret false).

Record DefaultAudience := MkDefault { da_context : ScopeId; da_grantees : list ScopeId; da_at : Z; da_force : bool }.
(** [reconcileDefaultAudience] src/src/deploy/deploy-service.ts:242-289 *)
Definition reconcileDefaultAudience (d : Deployment) (da : DefaultAudience) (isCreate : bool) : call unit :=
  if negb isCreate && negb da.(da_force) && match if_truthy d.(createdInScope) with Some sc => da.(da_context) !== sc | None => false end
  then mret tt
  else
    let ref := deploymentRef d.(d_id) in
    let owner := d.(d_createdBy) in
    let prior := if isCreate then [] else (granteeScopeIds <$> d.(d_audience)) ?? [] in
    before ← grantsOn d;
    _ ← for_each prior (fun grantee =>
          if includes da.(da_grantees) grantee then mret tt
          else
            let explicit := js_filter (fun g => (g.(granteeScopeId) === grantee) && (g.(permission) !== p_read)) before in
            _ ← revoke_ d.(d_owner) ref grantee owner None;
            for_each explicit (fun g => grant_ g None));
    _ ← for_each da.(da_grantees) (fun grantee =>
          if includes prior grantee then mret tt else grant_ (MkGrant d.(d_owner) ref grantee p_read owner) None);
    setDefaultAudience d.(d_id) (MkAudience (d.(createdInScope) ?? da.(da_context)) da.(da_grantees) da.(da_at)).
(** [issueShares] src/src/deploy/deploy-service.ts:291-313 *)
Definition issueShares (d : Deployment) (by_ : string) (share : list (ScopeId * Permission)) : call unit :=
  for_each share (fun sh => grant_ (MkGrant d.(d_owner) (deploymentRef d.(d_id)) sh.1 sh.2 by_) None).

(** [snapshotFiles] src/src/deploy/deploy-service.ts:723-735 *)
Definition snapshotFiles (fs : list DeployFile) : call string :=
  _ ← lift (fold_right (fun f r => match normalizeRelPath f.(df_path) with Ok _ => r | Throw e => Throw e end) (Ok tt) fs);
  ask (disk_snapshot fs).
Definition snapshot_home (fs : option (list DeployFile)) : call (option string) :=
  match fs with
  | Some (f :: fs) => dir ← snapshotFiles (f :: fs); mret (Some dir)
  | _ => mret None
  end.
Definition reread (k : string) : call Deployment :=
  d ← get_d k;
  match (d : option Deployment) with Some d => mret d | None => Raise "cannot read properties of null" end.
(** [getDeployment] src/src/deploy/deploy-service.ts:375-377 *)
Definition getDeployment (idOrName : string) : call (option Deployment) :=
  d ← get_d idOrName;
  match (d : option Deployment) with Some d => mret (Some d) | None => getByName idOrName end.

(** What is published. *)
Record Publish := MkPublish { pb_entrypoint : string; pb_files : list DeployFile; pb_home : option (list DeployFile); pb_env : option (list (string * string)) }.
(** [deploy] src/src/deploy/deploy-service.ts:318-346 *)
Definition deploy (k : string) (owner : ScopeId) (by_ : string) (name : option string) (home : option ScopeId) (b : Publish) : call Deployment :=
  _ ← match name with
      | Some n =>
          _ ← lift (validateName n);
          taken ← getByName n;
          if is_some (taken : option Deployment) then Raise ("deployment name taken: " +:+ n) else mret tt
      | None => mret tt
      end;
  dir ← snapshotFiles b.(pb_files);
  hdir ← snapshot_home b.(pb_home);
  d ← create k owner by_ name home (MkVersionInput b.(pb_entrypoint) dir hdir b.(pb_env) (Some b.(pb_files)));
  match d.(versions) with
  | v :: _ =>
      e ← applyVersion d.(d_id) v None;
      _ ← markVersionRunning d.(d_id) v.(v_version) e;
      reread d.(d_id)
  | [] => Raise "cannot read properties of undefined"
  end.
(** [redeploy] src/src/deploy/deploy-service.ts:348-373 *)
Definition redeploy (k : string) (b : Publish) : call Deployment :=
  withDeployLock k
    (before ← get_d k;
     dir ← snapshotFiles b.(pb_files);
     hdir ← snapshot_home b.(pb_home);
     v ← addVersion k (MkVersionInput b.(pb_entrypoint) dir hdir b.(pb_env) (Some b.(pb_files)));
     d ← get_d k;
     _ ← known k d;
     e ← applyVersion k v (fromOf <$> (before : option Deployment));
     _ ← markVersionRunning k v.(v_version) e;
     reread k).
(** [rollbackDeployment] src/src/deploy/deploy-service.ts:383-400 *)
Definition rollbackDeployment (k : string) (n : Z) : call unit :=
  withDeployLock k
    (before ← get_d k;
     _ ← setCurrentVersion k n;
     v ← versionOf k n;
     d ← get_d k;
     match (d : option Deployment), (v : option DeploymentVersion) with
     | Some _, Some v =>
         e ← applyVersion k v (fromOf <$> (before : option Deployment));
         markVersionRunning k v.(v_version) e
     | _, _ => mret tt
     end).
(** [archiveDeployment] src/src/deploy/deploy-service.ts:402-410 *)
Definition archiveDeployment (k : string) : call unit :=
  withDeployLock k
    (d ← get_d k;
     match (d : option Deployment) with
     | None => mret tt
     | Some d => _ ← ask (p_destroy d); _ ← setStatus k archived; setEndpoint k None
     end).
Definition quietly (c : call unit) : call unit := catch c (fun _ => mret tt).
(** [restoreDeployment] src/src/deploy/deploy-service.ts:412-444 *)
Definition restoreDeployment (k : string) : call Deployment :=
  withDeployLock k
    (d ← get_d k;
     d ← known k d;
     if d.(d_status) === running then mret d
     else if d.(d_status) !== archived then Raise ("deployment is not archived: " +:+ k)
     else
       match version_of d.(currentVersion) d with
       | None => Raise (no_version d.(currentVersion))
       | Some v =>
           _ ← catch (e ← applyVersion k v d.(appliedVersion); markVersionRunning k v.(v_version) e)
                 (fun error =>
                    _ ← quietly (ask (p_destroy d));
                    _ ← quietly (setStatus k archived);
                    _ ← quietly (setEndpoint k None);
                    Raise error);
           reread k
       end).
(** [renameDeployment] src/src/deploy/deploy-service.ts:446-463 *)
Definition renameDeployment (k name : string) : call Deployment :=
  withDeployLock k
    (_ ← lift (validateName name);
     d ← get_d k;
     _ ← known k d;
     clash ← getByName name;
     if match (clash : option Deployment) with Some c => c.(d_id) !== k | None => false end then Raise ("deployment name taken: " +:+ name)
     else _ ← setName k name; reread k).
(** [setDeploymentDisplayName] src/src/deploy/deploy-service.ts:465-480 *)
Definition setDeploymentDisplayName (k name : string) : call Deployment :=
  withDeployLock k
    (_ ← lift (if truthy name then validateDisplayName name else Ok tt);
     d ← get_d k;
     _ ← known k d;
     _ ← setDisplayName k (if_truthy (Some name));
     reread k).

Inductive Reach := reach_ok (e : option DeployEndpoint) | reach_denied | reach_not_found.
(** [reachDeployment] src/src/deploy/deploy-service.ts:482-489 *)
Definition reachDeployment (idOrName principalId : string) (bypassAcl : bool) : call Reach :=
  d ← getDeployment idOrName;
  match (d : option Deployment) with
  | None => mret reach_not_found
  | Some d =>
      if (d.(d_status) !== running) || negb (is_some d.(endpoint)) then mret reach_not_found
      else
        ok ← (if bypassAcl then mret true else reachAllowed d principalId);
        if negb ok then mret reach_denied
        else
          e ← liveEndpoint d;
          t ← now;
          _ ← touch d.(d_id) t;
          mret (reach_ok e)
  end.
(** [pushGit] src/src/deploy/deploy-service.ts:496-531
    [receive] runs the push; the answer is whether it went through. *)
Definition pushGit (k : string) (receive : X -> result string bool * X) : call bool :=
  withDeployLock k
    (ok ← ask receive;
     if negb ok then mret ok
     else
       _ ← quietly
         (before ← get_d k;
          match (before : option Deployment) with
          | None => mret tt
          | Some before =>
              pushed ← ask (git_refOf k CURRENT_REF);
              match if_truthy pushed with
              | None => mret tt
              | Some c =>
                  v ← addVersionFromCommit k c;
                  match (v : option DeploymentVersion) with
                  | None => mret tt
                  | Some v => e ← applyVersion k v (Some (fromOf before)); markVersionRunning k v.(v_version) e
                  end
              end
          end);
       mret ok).
(** [reapIdleDeployments] src/src/deploy/deploy-service.ts:539-540 *)
Definition idle (ttlMs t : Z) (d : Deployment) : bool :=
  (d.(d_status) === running) && (t - ((d.(lastAccessAt) ?? (v_createdAt <$> last d.(versions)) ?? 0)) >=? ttlMs).
(** [reapIdleDeployments] src/src/deploy/deploy-service.ts:533-553
    Under the lease of the reaper; the deployments that were stopped. *)
Definition reapIdleDeployments (leads managedScaleToZero : bool) (ttlMs t : Z) : call (list string) :=
  if negb leads || managedScaleToZero then mret []
  else
    all ← all_d;
    collect (js_filter (idle ttlMs t) all) (fun d =>
      withDeployLock d.(d_id)
        (cur ← get_d d.(d_id);
         match (cur : option Deployment) with
         | Some cur =>
             if cur.(d_status) !== running then mret []
             else
               _ ← ask (p_destroy cur);
               _ ← setStatus d.(d_id) stopped;
               _ ← setEndpoint d.(d_id) None;
               mret [d.(d_id)]
         | None => mret []
         end)).

(** [DeployOrUpdateInput] src/src/deploy/deploy-service.ts:42-55 *)
Record DeployOrUpdateInput := MkInput {
  in_owner : ScopeId;
  in_createdBy : string;
  in_name : option string;
  in_entrypoint : option string;
  in_files : option (list DeployFile);
  in_homeFiles : option (list DeployFile);
  in_env : option (list (string * string));
  renameFrom : option string;
  rollbackTo : option Z;
  share : list (ScopeId * Permission);
  in_createdInScope : option ScopeId;
  in_audience : option DefaultAudience;
}.
Definition shared (k : string) (i : DeployOrUpdateInput) : call Deployment :=
  _ ← match i.(share) with
      | [] => mret tt
      | l => d ← reread k; issueShares d i.(in_createdBy) l
      end;
  reread k.
Definition with_audience (k : string) (i : DeployOrUpdateInput) (isCreate : bool) : call unit :=
  match i.(in_audience) with
  | Some da => d ← reread k; reconcileDefaultAudience d da isCreate
  | None => mret tt
  end.
(** [deployOrUpdate] src/src/deploy/deploy-service.ts:558-587 *)
Definition rename_and_update (i : DeployOrUpdateInput) (from : string) : call Deployment :=
  match i.(in_name) with
  | None => Raise "rename requires a target name"
  | Some name =>
      _ ← lift (validateName name);
      existing ← getByName from;
      match (existing : option Deployment) with
      | None => Raise ("no deployment named: " +:+ from)
      | Some ex =>
          ok ← canManage ex i.(in_createdBy) i.(in_createdInScope);
          if negb ok then Raise ("not authorized to manage deployment: " +:+ from)
          else
            clash ← getByName name;
            if match (clash : option Deployment) with Some c => c.(d_id) !== ex.(d_id) | None => false end
            then Raise ("deployment name taken: " +:+ name)
            else
              _ ← setName ex.(d_id) name;
              _ ← match if_truthy i.(in_entrypoint), i.(in_files) with
                  | Some ep, Some fs =>
                      _ ← redeploy ex.(d_id) (MkPublish ep fs i.(in_homeFiles) i.(in_env));
                      with_audience ex.(d_id) i false
                  | _, _ => mret tt
                  end;
              shared ex.(d_id) i
      end
  end.
(** [deployOrUpdate] src/src/deploy/deploy-service.ts:589-598 *)
Definition rollback_to (i : DeployOrUpdateInput) (n : Z) : call Deployment :=
  match i.(in_name) with
  | None => Raise "rollback requires the deployment name"
  | Some name =>
      existing ← getByName name;
      match (existing : option Deployment) with
      | None => Raise ("no deployment named: " +:+ name)
      | Some ex =>
          ok ← canManage ex i.(in_createdBy) i.(in_createdInScope);
          if negb ok then Raise ("not authorized to manage deployment: " +:+ name)
          else _ ← rollbackDeployment ex.(d_id) n; shared ex.(d_id) i
      end
  end.
(** [deployOrUpdate] src/src/deploy/deploy-service.ts:555-636
    [newId] is the identifier of a deployment that is created. *)
Definition deployOrUpdate (newId : string) (i : DeployOrUpdateInput) : call Deployment :=
  match i.(renameFrom), i.(rollbackTo) with
  | Some from, _ => rename_and_update i from
  | None, Some n => rollback_to i n
  | None, None =>
      match if_truthy i.(in_entrypoint) with
      | None => Raise "publish requires an entrypoint"
      | Some ep =>
          let b := MkPublish ep (i.(in_files) ?? []) i.(in_homeFiles) i.(in_env) in
          existing ← match i.(in_name) with Some n => getByName n | None => mret None end;
          match (existing : option Deployment) with
          | Some ex =>
              ok ← (if ex.(d_owner) === i.(in_owner) then mret true else canManage ex i.(in_createdBy) i.(in_createdInScope));
              if negb ok then Raise ("deployment name taken: " +:+ (i.(in_name) ?? ""))
              else
                d ← redeploy ex.(d_id) b;
                _ ← with_audience d.(d_id) i false;
                shared d.(d_id) i
          | None =>
              d ← deploy newId i.(in_owner) i.(in_createdBy) i.(in_name) i.(in_createdInScope) b;
              _ ← with_audience d.(d_id) i true;
              shared d.(d_id) i
          end
      end
  end.
(** [canManageDeployment] src/src/deploy/deploy-service.ts:638-642 *)
Definition canManageDeployment (idOrName callerId : string) (acting : option ScopeId) : call bool :=
  d ← getDeployment idOrName;
  match (d : option Deployment) with Some d => canManage d callerId acting | None => mret false end.
Definition grantees (d : Deployment) : call (list (ScopeId * Permission)) :=
  gs ← grantsOn d; mret (map (fun g => (g.(granteeScopeId), g.(permission))) gs).
(** [deploymentGrantees] src/src/deploy/deploy-service.ts:644-648 *)
Definition deploymentGrantees (idOrName : string) : call (list (ScopeId * Permission)) :=
  d ← getDeployment idOrName;
  match (d : option Deployment) with Some d => grantees d | None => mret [] end.
(** [shareDeployment] src/src/deploy/deploy-service.ts:650-683 *)
Definition shareDeployment (idOrName : string) (grantee : ScopeId) (perm : option Permission) (by_ : string) : call (list (ScopeId * Permission)) :=
  d ← getDeployment idOrName;
  match (d : option Deployment) with
  | None => Raise ("no such app: " +:+ idOrName)
  | Some d =>
      if d.(d_owner) !== scopeId personal by_ then
        Raise ("only the owner can change who can reach " +:+ dq +:+ (d.(d_name) ?? d.(d_id)) +:+ dq)
      else
        let ref := deploymentRef d.(d_id) in
        _ ← revoke_ d.(d_owner) ref grantee by_ None;
        _ ← match perm with
            | None => mret tt
            | Some p => grant_ (MkGrant d.(d_owner) ref grantee p by_) None
            end;
        grantees d
  end.
Definition person_or (sc : ScopeId) (callerId : string) : string :=
  let '(kind, ref) := parseScopeId sc in if kind === Some personal then ref else callerId.
(** [transferDeploymentOwner] src/src/deploy/deploy-service.ts:685-715 *)
Definition transferDeploymentOwner (idOrName : string) (toScope : ScopeId) (callerId : string) (acting : option ScopeId) : call Deployment :=
  d ← getDeployment idOrName;
  match (d : option Deployment) with
  | None => Raise ("no such app: " +:+ idOrName)
  | Some d =>
      ok ← managesHome d callerId acting;
      if negb ok then Raise ("only the owner can transfer " +:+ dq +:+ (d.(d_name) ?? d.(d_id)) +:+ dq)
      else if d.(d_owner) === toScope then mret d
      else
        let ref := deploymentRef d.(d_id) in
        let fromScope := d.(d_owner) in
        prior ← grantsOn d;
        let newOwnerId := person_or toScope callerId in
        let oldOwnerId := person_or fromScope callerId in
        _ ← for_each prior (fun g =>
              if g.(granteeScopeId) === toScope then mret tt
              else grant_ (MkGrant toScope g.(g_ref) g.(granteeScopeId) g.(permission) newOwnerId) (Some d.(d_createdBy)));
        _ ← grant_ (MkGrant toScope ref fromScope p_write newOwnerId) (Some d.(d_createdBy));
        _ ← setOwnerScope d.(d_id) toScope;
        _ ← for_each prior (fun g => revoke_ fromScope ref g.(granteeScopeId) oldOwnerId (Some d.(d_createdBy)));
        reread d.(d_id)
  end.
End deploys.
