(* ===== verification/DeploysSafety.v ===== *)
(** * Deployments under interleaving

    Any calls of the deployment service ([Deploys]) interleave at their awaits.  Every stored
    deployment is well formed, and an app is reached only by somebody who may read its home or
    the home of a grant on it. *)

From S2P Require Import Prelude JsString Scope DurableMap Async Acl Deploys.

#[local] Open Scope string_scope.
#[local] Open Scope Z_scope.

Inductive Req (P X : Type) :=
| q_publish (newId : string) (i : DeployOrUpdateInput)
| q_redeploy (k : string) (b : Publish)
| q_rollback (k : string) (n : Z)
| q_archive (k : string)
| q_restore (k : string)
| q_rename (k name : string)
| q_displayName (k name : string)
| q_reach (idOrName principalId : string) (bypassAcl : bool)
| q_push (k : string) (receive : X -> result string bool * X)
| q_reap (leads managed : bool) (ttlMs t : Z)
| q_canManage (idOrName callerId : string) (acting : option ScopeId)
| q_share (idOrName : string) (grantee : ScopeId) (perm : option Permission) (by_ : string)
| q_transfer (idOrName : string) (toScope : ScopeId) (callerId : string) (acting : option ScopeId)
| q_grants (f : P -> P)
| q_rules (r w : option (string -> ScopeId -> result string bool)) (m : option (ScopeId -> string -> string -> result string bool)).
Arguments q_publish {P X}.
Arguments q_redeploy {P X}.
Arguments q_rollback {P X}.
Arguments q_archive {P X}.
Arguments q_restore {P X}.
Arguments q_rename {P X}.
Arguments q_displayName {P X}.
Arguments q_reach {P X}.
Arguments q_push {P X}.
Arguments q_reap {P X}.
Arguments q_canManage {P X}.
Arguments q_share {P X}.
Arguments q_transfer {P X}.
Arguments q_grants {P X}.
Arguments q_rules {P X}.
Inductive Resp := r_done | r_reach (r : Reach).

Section safety.
Context {M P X : Type} `{!DurableMap M Deployment} `{!DurableMapLaws M Deployment} `{!GrantPersistence P} `{!Cloud X}.
Variables (manages : option (string -> ScopeId -> option string -> bool)) (endpoint_json : DeployEndpoint -> string).
Abbreviation St := (Depot M P X).
Abbreviation call := (call St string).
Abbreviation Req := (Req P X).

Definition quiet {A} (c : call A) : call Resp := _ ← c; mret r_done.
Definition serve (q : Req) : call Resp :=
  match q with
  | q_publish newId i => quiet (deployOrUpdate manages newId i)
  | q_redeploy k b => quiet (redeploy k b)
  | q_rollback k n => quiet (rollbackDeployment k n)
  | q_archive k => quiet (archiveDeployment k)
  | q_restore k => quiet (restoreDeployment k)
  | q_rename k name => quiet (renameDeployment k name)
  | q_displayName k name => quiet (setDeploymentDisplayName k name)
  | q_reach k p bypass => r ← reachDeployment endpoint_json k p bypass; mret (r_reach r)
  | q_push k receive => quiet (pushGit k receive)
  | q_reap leads managed ttl t => quiet (reapIdleDeployments leads managed ttl t)
  | q_canManage k p acting => quiet (canManageDeployment k p acting)
  | q_share k g perm by_ => quiet (shareDeployment manages k g perm by_)
  | q_transfer k sc p acting => quiet (transferDeploymentOwner manages k sc p acting)
  | q_grants f => quiet (await (fun s : St => Some (tt, s <| grants := f s.(grants) |>)))
  | q_rules r w m => quiet (await (fun s : St => Some (tt, s <| canRead := r |> <| canWrite := w |> <| managesHomes := m |>)))
  end.

(** ** Well-formed deployments *)

(** Its versions are numbered from one in order; the current one is one of them, and so is the
    applied one. *)
Definition well_formed (d : Deployment) : Prop :=
  map v_version d.(versions) = map Z.of_nat (seq 1 (length d.(versions))) /\
  1 <= d.(currentVersion) <= Z.of_nat (length d.(versions)) /\
  forall n, d.(appliedVersion) = Some n -> 1 <= n <= Z.of_nat (length d.(versions)).
Definition depot_ok (s : St) : Prop := forall k d, dm_get k s.(deployments) = Some d -> d.(d_id) = k /\ well_formed d.

Abbreviation safe := (Async.safe (E := string) any depot_ok any).
Abbreviation safe_ret := (Async.safe_ret (E := string) any depot_ok any).
Abbreviation safe_raise := (Async.safe_raise (E := string) any depot_ok any).
Abbreviation safe_bind := (Async.safe_bind (E := string) any depot_ok any).
Abbreviation safe_then := (Async.safe_then (E := string) any depot_ok any).
Abbreviation safe_catch := (Async.safe_catch (E := string) any depot_ok any).
Abbreviation safe_now := (Async.safe_now (E := string) any depot_ok any).
Abbreviation safe_lift := (Async.safe_lift (E := string) any depot_ok any).
Abbreviation safe_await := (Async.safe_await (E := string) any depot_ok any).
Abbreviation safe_if := (Async.safe_if (E := string) any depot_ok any).
Abbreviation safe_for_each := (Async.safe_for_each (E := string) any depot_ok any).
Abbreviation safe_collect := (Async.safe_collect (E := string) any depot_ok any).

Lemma version_range n d : well_formed d -> is_Some (version_of n d) -> 1 <= n <= Z.of_nat (length d.(versions)).
Proof.
  intros (Hv & _) [v [Hin Hn%bool_decide_eq_true]%find_Some]. assert (Hm : n ∈ map v_version d.(versions)) by (apply list_elem_of_fmap; eauto).
  rewrite Hv in Hm. apply list_elem_of_fmap in Hm as (i & -> & Hi). apply elem_of_seq in Hi. lia.
Qed.
Lemma well_formed_next v d : well_formed d -> v.(v_version) = next_version d -> well_formed (with_version v d).
Proof.
  intros (Hv & Hc & Ha) Hn. unfold well_formed, with_version, next_version in *. cbn. rewrite length_app. cbn [length]. split_and!.
  - rewrite map_app, Hv, Nat.add_1_r, seq_S, map_app. cbn. do 2 f_equal. rewrite Hn. lia.
  - lia.
  - lia.
  - intros n Hn'. specialize (Ha n Hn'). lia.
Qed.
Lemma well_formed_image n image d : well_formed d -> well_formed (set_image n image d).
Proof.
  intros (Hv & Hc & Ha). unfold set_image. destruct (find_index _ _) as [i|]; [|done]. unfold well_formed. cbn. rewrite length_alter. split_and!; [|lia|lia|done].
  rewrite <- Hv. apply list_eq. intros j. rewrite !list_lookup_fmap. destruct (decide (j = i)) as [->|Hne].
  - rewrite list_lookup_alter_eq. by destruct (versions d !! i).
  - by rewrite list_lookup_alter_ne.
Qed.

(** *** Operations *)

Lemma safe_get_d {A} k (f : option Deployment -> call A) :
  (forall o, (forall d, o = Some d -> d.(d_id) = k /\ well_formed d) -> safe (f o)) -> safe (get_d k ≫= f).
Proof.
  intros Hf mine s HI. cbn [mbind call_bind await get_d wp]. intros s' _ HI'. unfold on_deployments.
  replace (s' <| deployments := s'.(deployments) |>) with s' by (by destruct s'). split_and!; [done..|]. apply Hf; [|done]. intros x. apply HI'.
Qed.
Lemma safe_put_d k d : d.(d_id) = k -> well_formed d -> safe (put_d k d).
Proof.
  intros Hk Hd. apply safe_await. intros s x s' HI [= <- <-]. split_and!; [|done|done]. intros k' d' [[-> ->]|[? H]]%dm_get_put_Some; [done|].
  by apply HI.
Qed.
(** An operation on something else. *)
Lemma safe_else {Y} (op : St -> option (Y * St)) : (forall s y s', op s = Some (y, s') -> s'.(deployments) = s.(deployments)) -> safe (await op).
Proof. intros H. apply safe_await. intros s y s' HI E. split_and!; [|done|done]. unfold depot_ok. by rewrite (H s y s' E). Qed.
Lemma safe_all_d : safe all_d.
Proof. apply safe_await. intros s x s' HI [= <- <-]. split_and!; done. Qed.
Lemma safe_host {Y} (f : X -> result string Y * X) : safe (ask f).
Proof. unfold ask. apply safe_bind; [|intros; apply safe_lift]. apply safe_else. intros s y s'. destruct (f s.(cloud)). by intros [= _ <-]. Qed.
Lemma safe_lock {A} k (c : call A) : safe c -> safe (withDeployLock k c).
Proof.
  intros Hc. unfold withDeployLock. apply safe_bind; [apply safe_else; intros s y s'; destruct (includes _ _); [done|by intros [= _ <-]]|].
  intros _. apply safe_bind; [apply safe_catch; [apply safe_bind; [done|intros; apply safe_ret]|intros; apply safe_ret]|].
  intros r. apply safe_bind; [apply safe_else; by intros s y s' [= _ <-]|]. intros _. apply safe_lift.
Qed.
Lemma safe_change k f : (forall d, well_formed d -> (f d).(d_id) = d.(d_id) /\ well_formed (f d)) -> safe (change k f).
Proof.
  intros Hf. apply safe_get_d. intros [d|] Ho; [|apply safe_ret]. destruct (Ho d eq_refl) as [<- Hw]. destruct (Hf d Hw) as [E ?].
  by apply safe_put_d.
Qed.
Lemma safe_known_d {A} k o (f : Deployment -> call A) :
  (forall d, o = Some d -> d.(d_id) = k /\ well_formed d) -> (forall d, d.(d_id) = k -> well_formed d -> safe (f d)) -> safe (known k o ≫= f).
Proof. intros Ho Hf. destruct o as [d|]; [|apply safe_raise]. destruct (Ho d eq_refl). by apply Hf. Qed.

(** *** Every method *)

Create HintDb depot discriminated.
Hint Resolve @Async.safe_ret @Async.safe_raise @Async.safe_now @Async.safe_lift @safe_all_d @safe_host : depot.
Ltac depot_step :=
  match goal with
  | |- safe (get_d _ ≫= _) => apply safe_get_d; intros
  | |- safe (known _ _ ≫= _) => apply safe_known_d; [assumption|intros]
  | |- safe (withDeployLock _ _) => apply safe_lock
  | |- safe (_ ≫= _) => apply safe_bind; [|intros]
  | |- safe (catch _ _) => apply safe_catch; [|intros]
  | |- safe (quietly _) => apply safe_catch; [|intros]
  | |- safe (for_each _ _) => apply safe_for_each; intros
  | |- safe (collect _ _) => apply safe_collect; intros
  | |- safe (let _ := _ in _) => cbv zeta
  | |- safe _ => solve [eauto with depot]
  | |- safe (match ?x with _ => _ end) => destruct x eqn:?
  | |- safe (await _) => apply safe_else; intros ? ? ?
  end.
Ltac depot := repeat depot_step.
Ltac changed := apply safe_change; intros ? ?; by split.

Lemma safe_setStatus k st : safe (setStatus k st).
Proof. changed. Qed.
Lemma safe_setEndpoint k e : safe (setEndpoint k e).
Proof. changed. Qed.
Lemma safe_setName k n : safe (setName k n).
Proof. changed. Qed.
Lemma safe_setOwnerScope k o : safe (setOwnerScope k o).
Proof. changed. Qed.
Lemma safe_setDisplayName k n : safe (setDisplayName k n).
Proof. changed. Qed.
Lemma safe_setDefaultAudience k a : safe (setDefaultAudience k a).
Proof. changed. Qed.
Lemma safe_touch k t : safe (touch k t).
Proof. changed. Qed.
Hint Resolve @safe_setStatus @safe_setEndpoint @safe_setName @safe_setOwnerScope @safe_setDisplayName @safe_setDefaultAudience @safe_touch : depot.

Lemma safe_updateVersionRef k v : safe (updateVersionRef k v).
Proof. unfold updateVersionRef. depot. Qed.
Lemma safe_updateAppliedRef k v : safe (updateAppliedRef k v).
Proof. unfold updateAppliedRef. depot. Qed.
Lemma safe_makeVersion k n i parent : safe (makeVersion k n i parent).
Proof. unfold makeVersion. depot. Qed.
Lemma makeVersion_number k n i parent : yields (fun v => v.(v_version) = n) (makeVersion (M := M) (P := P) (X := X) k n i parent).
Proof. unfold makeVersion. apply yields_then. intros c. apply yields_then. by intros t. Qed.
Hint Resolve @safe_updateVersionRef @safe_updateAppliedRef @safe_makeVersion : depot.
Lemma well_formed_first d v : d.(versions) = [v] -> v.(v_version) = 1 -> d.(currentVersion) = 1 -> d.(appliedVersion) = None -> well_formed d.
Proof. intros E Hv Hc Ha. unfold well_formed. rewrite E, Hc, Ha. cbn. rewrite Hv. split_and!; done. Qed.
Lemma safe_create_d k owner by_ name home i : safe (create k owner by_ name home i).
Proof.
  unfold create. eapply safe_then; [apply safe_makeVersion|apply makeVersion_number|]. intros v Hv. cbv zeta.
  apply safe_bind; [|intros; depot]. apply safe_put_d; [done|]. by eapply well_formed_first.
Qed.
Lemma safe_addVersion k i : safe (addVersion k i).
Proof.
  unfold addVersion. do 2 depot_step. eapply safe_then; [apply safe_makeVersion|apply makeVersion_number|]. intros v Hv.
  apply safe_bind; [apply safe_put_d; [done|by apply well_formed_next]|intros; depot].
Qed.
Lemma safe_addVersionFromCommit k c : safe (addVersionFromCommit k c).
Proof.
  unfold addVersionFromCommit. do 2 depot_step. cbv zeta. apply safe_if; [apply safe_ret|]. apply safe_bind; [apply safe_now|]. intros t. cbv zeta.
  apply safe_bind; [apply safe_put_d; [done|by apply well_formed_next]|intros; depot].
Qed.
Lemma safe_setCurrentVersion k n : safe (setCurrentVersion k n).
Proof.
  unfold setCurrentVersion. depot_step. destruct o as [d|]; [|apply safe_ret]. destruct (H d eq_refl) as [<- Hw].
  destruct (version_of n d) as [v|] eqn:Ev; cbn [is_some negb]; [|apply safe_raise]. apply safe_put_d; [done|].
  pose proof (version_range n d Hw ltac:(by rewrite Ev; eexists)). destruct Hw as (?&?&?). unfold well_formed. cbn. auto.
Qed.
Lemma safe_setVersionImage k n image : safe (setVersionImage k n image).
Proof.
  unfold setVersionImage. depot_step. destruct o as [d|]; [|apply safe_ret]. destruct (H d eq_refl) as [<- Hw].
  apply safe_if; [apply safe_raise|]. apply safe_put_d; [|by apply well_formed_image]. done.
Qed.
Lemma safe_setAppliedVersion k n : safe (setAppliedVersion k n).
Proof.
  unfold setAppliedVersion. depot_step. destruct o as [d|]; [|apply safe_ret]. destruct (H d eq_refl) as [<- Hw].
  destruct (version_of n d) as [v|] eqn:Ev; [|apply safe_raise]. apply safe_bind; [|intros; depot]. apply safe_put_d; [done|].
  pose proof (version_range n d Hw ltac:(by rewrite Ev; eexists)). destruct Hw as (?&?&?). unfold well_formed. cbn. split_and!; [done|lia|lia|]. by intros ? [= <-].
Qed.
Hint Resolve @safe_create_d @safe_addVersion @safe_addVersionFromCommit @safe_setCurrentVersion @safe_setVersionImage @safe_setAppliedVersion : depot.
Lemma safe_getByName n : safe (getByName n).
Proof. unfold getByName. depot. Qed.
Lemma safe_versionOf k n : safe (versionOf k n).
Proof. unfold versionOf. depot. Qed.
Lemma safe_treeOf k n : safe (treeOf k n).
Proof. unfold treeOf. depot. Qed.
Lemma safe_diffVersions k from to : safe (diffVersions k from to).
Proof. unfold diffVersions. depot. Qed.
Lemma safe_bundleOf k n : safe (bundleOf k n).
Proof. unfold bundleOf. depot. Qed.
Hint Resolve @safe_getByName @safe_versionOf @safe_treeOf @safe_diffVersions @safe_bundleOf : depot.
Lemma safe_reread k : safe (reread k).
Proof. unfold reread. depot. Qed.
Lemma safe_getDeployment k : safe (getDeployment k).
Proof. unfold getDeployment. depot. Qed.
Lemma safe_snapshotFiles fs : safe (snapshotFiles fs).
Proof. unfold snapshotFiles. depot. Qed.
Hint Resolve @safe_reread @safe_getDeployment @safe_snapshotFiles : depot.
Lemma safe_snapshot_home fs : safe (snapshot_home fs).
Proof. unfold snapshot_home. depot. Qed.
Lemma safe_applyVersion k v from : safe (applyVersion k v from).
Proof. unfold applyVersion. depot. Qed.
Lemma safe_markVersionRunning k n e : safe (markVersionRunning k n e).
Proof. unfold markVersionRunning. depot. Qed.
Hint Resolve @safe_snapshot_home @safe_applyVersion @safe_markVersionRunning : depot.
Lemma safe_liveEndpoint d : safe (liveEndpoint endpoint_json d).
Proof. unfold liveEndpoint. depot. Qed.

Lemma safe_grantsOn d : safe (grantsOn d).
Proof. apply safe_else. by intros s y s' [= _ <-]. Qed.
Lemma safe_grant_ g by_ : safe (grant_ manages g by_).
Proof. unfold grant_. apply safe_bind; [|intros; depot]. apply safe_else. intros s y s'. destruct (grant manages g by_ _). by intros [= _ <-]. Qed.
Lemma safe_revoke_ owner ref grantee by_ author : safe (revoke_ manages owner ref grantee by_ author).
Proof. unfold revoke_. apply safe_bind; [|intros; depot]. apply safe_else. intros s y s'. destruct (revoke manages owner ref grantee by_ author _). by intros [= _ <-]. Qed.
Lemma safe_reaches p sc : safe (reaches p sc).
Proof. unfold reaches. apply safe_bind; [|intros; depot]. apply safe_else. by intros s y s' [= _ <-]. Qed.
Lemma safe_any_of {A} (l : list A) f : (forall x, safe (f x)) -> safe (any_of l f).
Proof. intros Hf. induction l as [|x l IH]; [apply safe_ret|]. apply safe_bind; [apply Hf|]. intros b. destruct b; [apply safe_ret|done]. Qed.
Hint Resolve @safe_liveEndpoint @safe_grantsOn @safe_grant_ @safe_revoke_ @safe_reaches : depot.
Lemma safe_reachAllowed d p : safe (reachAllowed d p).
Proof. unfold reachAllowed. depot. apply safe_any_of. intros. depot. Qed.
Lemma safe_canWriteScope p sc acting : safe (canWriteScope p sc acting).
Proof. unfold canWriteScope. apply safe_bind; [|intros; depot]. apply safe_else. by intros s y s' [= _ <-]. Qed.
Hint Resolve @safe_reachAllowed @safe_canWriteScope : depot.
Lemma safe_managesHome d p acting : safe (managesHome d p acting).
Proof. unfold managesHome. apply safe_if; [depot|]. apply safe_bind; [|intros; depot]. apply safe_else. by intros s y s' [= _ <-]. Qed.
Hint Resolve @safe_managesHome : depot.
Lemma safe_canManage d p acting : safe (canManage d p acting).
Proof. unfold canManage. depot. apply safe_any_of. intros. depot. Qed.
Lemma safe_reconcileDefaultAudience d da b : safe (reconcileDefaultAudience manages d da b).
Proof. unfold reconcileDefaultAudience. depot. Qed.
Lemma safe_issueShares d by_ sh : safe (issueShares manages d by_ sh).
Proof. unfold issueShares. depot. Qed.
Lemma safe_grantees d : safe (grantees d).
Proof. unfold grantees. depot. Qed.
Hint Resolve @safe_canManage @safe_reconcileDefaultAudience @safe_issueShares @safe_grantees : depot.
Lemma safe_deploy k owner by_ name home b : safe (deploy k owner by_ name home b).
Proof. unfold deploy. depot. Qed.
Lemma safe_redeploy k b : safe (redeploy k b).
Proof. unfold redeploy. depot. Qed.
Lemma safe_rollbackDeployment k n : safe (rollbackDeployment k n).
Proof. unfold rollbackDeployment. depot. Qed.
Hint Resolve @safe_deploy @safe_redeploy @safe_rollbackDeployment : depot.
Lemma safe_shared k i : safe (shared manages k i).
Proof. unfold shared. depot. Qed.
Lemma safe_with_audience k i b : safe (with_audience manages k i b).
Proof. unfold with_audience. depot. Qed.
Hint Resolve @safe_shared @safe_with_audience : depot.
Lemma safe_deployOrUpdate k i : safe (deployOrUpdate manages k i).
Proof. unfold deployOrUpdate, rename_and_update, rollback_to. depot. Qed.

Hint Resolve @safe_deployOrUpdate : depot.

(** *** Who reaches an app *)

Definition reads_at (p : string) (sc : ScopeId) (mine : list (St * St)) : Prop :=
  exists x, x ∈ mine /\ reads_scope x.1 p sc = Ok true.
Definition granted_at (d : Deployment) (g : Grant) (mine : list (St * St)) : Prop :=
  exists x, x ∈ mine /\ g ∈ grantsFor d.(d_owner) (deploymentRef d.(d_id)) x.1.(grants).
(** The person reads the home of the app, or of a grant on it. *)
Definition lets_in (d : Deployment) (p : string) (mine : list (St * St)) : Prop :=
  truthy p = true /\ (reads_at p d.(d_owner) mine \/ exists g, granted_at d g mine /\ reads_at p g.(granteeScopeId) mine).
Definition found_at (k : string) (d : Deployment) (mine : list (St * St)) : Prop :=
  (d.(d_id) = k \/ d.(d_name) = Some k) /\ exists x, x ∈ mine /\ dm_get d.(d_id) x.1.(deployments) = Some d.

Lemma reads_at_later p sc m l : reads_at p sc m -> reads_at p sc (m ++ l)%list.
Proof. intros (x & ? & ?). exists x. split; [by apply elem_of_app; left|done]. Qed.
Lemma granted_at_later d g m l : granted_at d g m -> granted_at d g (m ++ l)%list.
Proof. intros (x & ? & ?). exists x. split; [by apply elem_of_app; left|done]. Qed.
Lemma lets_in_later d p m l : lets_in d p m -> lets_in d p (m ++ l)%list.
Proof. intros [? [?|(g & ? & ?)]]; split; [done|left; by apply reads_at_later|done|right; exists g]. split; [by apply granted_at_later|by apply reads_at_later]. Qed.
Lemma found_at_later k d m l : found_at k d m -> found_at k d (m ++ l)%list.
Proof. intros (? & x & ? & ?). split; [done|]. exists x. split; [by apply elem_of_app; left|done]. Qed.
Hint Resolve reads_at_later granted_at_later lets_in_later found_at_later : depot.

Abbreviation wp := (wp (E := string) any depot_ok any).
(** What is answered with the steps that were made, which extend the earlier ones. *)
Definition grown {A} (mine : list (St * St)) (K : A -> list (St * St) -> Prop) (r : result string A) (m : list (St * St)) (s : St) : Prop :=
  (exists l, m = (mine ++ l)%list) /\ forall a, r = Ok a -> K a m.

Lemma grown_app {A} mine l (K : A -> list (St * St) -> Prop) r m s : grown (mine ++ l)%list K r m s -> grown mine K r m s.
Proof. intros [[l' ->] H]. split; [exists (l ++ l')%list; by rewrite app_assoc|done]. Qed.
Lemma wp_seq {A B} (c : call A) (f : A -> call B) K K' mine s :
  depot_ok s -> wp c (grown mine K) mine s ->
  (forall a l s', depot_ok s' -> K a (mine ++ l)%list -> wp (f a) (grown (mine ++ l)%list K') (mine ++ l)%list s') ->
  wp (c ≫= f) (grown mine K') mine s.
Proof.
  intros HI Hc Hf. apply (Async.wp_bind any depot_ok any); [done|]. eapply (Async.wp_mono any depot_ok any any); [done| |exact Hc].
  intros [a|e] m s' HI' [[l ->] H]; [|by split; [eexists|]]. eapply (Async.wp_mono any depot_ok any any); [done| |apply Hf; auto].
  intros r m s'' _. apply grown_app.
Qed.
Lemma wp_mret {A} (a : A) (K : A -> list (St * St) -> Prop) mine s : K a mine -> wp (mret a) (grown mine K) mine s.
Proof. intros H s' _ _. split; [exists []; by rewrite app_nil_r|]. by intros b [= <-]. Qed.
Lemma wp_safe {A} (c : call A) mine s : safe c -> depot_ok s -> wp c (grown mine (fun _ _ => True)) mine s.
Proof.
  intros Hc HI. eapply (Async.wp_mono any depot_ok any any); [done| |apply (Async.wp_yields any depot_ok any (fun _ => True)); [apply yields_any|by apply Hc]].
  intros r m s' _ (_ & _ & Hl). by split.
Qed.
Lemma wp_reaches p sc mine s : depot_ok s -> wp (reaches p sc) (grown mine (fun b m => b = true -> reads_at p sc m)) mine s.
Proof.
  intros HI. unfold reaches. apply (Async.wp_await any depot_ok any). intros s' r s'' _ HI' [= <- <-]. split_and!; [done..|].
  destruct (reads_scope s' p sc) as [b|e] eqn:E; intros s'' _ _; (split; [by eexists|]); intros b'; [|done]. intros [= <-] ->.
  exists (s', s'). split; [by apply elem_of_app; right; apply list_elem_of_singleton|done].
Qed.
Lemma wp_any_reaches p gs mine s : depot_ok s ->
  wp (any_of gs (fun g => reaches p g.(granteeScopeId))) (grown mine (fun b m => b = true -> exists g, g ∈ gs /\ reads_at p g.(granteeScopeId) m)) mine s.
Proof.
  revert mine s. induction gs as [|g gs IH]; intros mine s HI; cbn [any_of]; [by apply wp_mret|].
  eapply wp_seq; [done|by apply wp_reaches|]. intros b l s' HI' Hb. cbn beta in Hb. destruct b.
  - apply wp_mret. intros _. exists g. split; [apply list_elem_of_here|auto].
  - eapply (Async.wp_mono any depot_ok any any); [done| |by apply IH]. intros r m s'' _ [Hl H]. split; [done|]. intros b Hr Hb'.
    destruct (H b Hr Hb') as (g' & ? & ?). exists g'. split; [by apply list_elem_of_further|done].
Qed.
Lemma wp_grantsOn d mine s : depot_ok s -> wp (grantsOn d) (grown mine (fun gs m => forall g, g ∈ gs -> granted_at d g m)) mine s.
Proof.
  intros HI s' _ HI'. unfold grantsOn. cbn [await]. split_and!; [done..|]. intros s'' _ _. split; [by eexists|]. intros gs [= <-] g Hg.
  exists (s', s'). split; [by apply elem_of_app; right; apply list_elem_of_singleton|done].
Qed.
Lemma wp_reachAllowed d p mine s : depot_ok s -> wp (reachAllowed d p) (grown mine (fun b m => b = true -> lets_in d p m)) mine s.
Proof.
  intros HI. unfold reachAllowed. destruct (truthy p) eqn:Ep; [|by apply wp_mret]. cbn [negb].
  eapply wp_seq; [done|by apply wp_reaches|]. intros own l s' HI' Hown. cbn beta in Hown. destruct own.
  - apply wp_mret. intros _. split; [done|]. left. auto.
  - eapply wp_seq; [done|by apply wp_grantsOn|]. intros gs l' s2 HI2 Hgs. cbn beta in Hgs.
    eapply (Async.wp_mono any depot_ok any any); [done| |by apply wp_any_reaches]. intros r m s'' _ [[l2 ->] H]. split; [by eexists|]. intros b Hr Hb.
    destruct (H b Hr Hb) as (g & Hg & ?). split; [done|]. right. exists g. split; [by apply granted_at_later, Hgs|done].
Qed.
Lemma wp_getDeployment k mine s : depot_ok s ->
  wp (getDeployment k) (grown mine (fun o m => forall d, o = Some d -> found_at k d m)) mine s.
Proof.
  intros HI. unfold getDeployment. eapply (wp_seq _ _ (fun o m => forall d, o = Some d -> found_at k d m)); [done|..].
  - intros s' _ HI'. cbn [get_d await]. unfold on_deployments. replace (s' <| deployments := s'.(deployments) |>) with s' by (by destruct s').
    split_and!; [done..|]. intros s'' _ _. split; [by eexists|]. intros o [= <-] d Hd. destruct (HI' k d Hd) as [E _].
    split; [by left|]. exists (s', s'). rewrite E. split; [by apply elem_of_app; right; apply list_elem_of_singleton|done].
  - intros o l s1 HI1 Ho. cbn beta in Ho. destruct o as [d|]; [by apply wp_mret|]. intros s' _ HI'. cbn [await mbind call_bind all_d getByName].
    unfold on_deployments. replace (s' <| deployments := s'.(deployments) |>) with s' by (by destruct s').
    split_and!; [done..|]. intros s'' _ _. split; [by eexists|]. intros o [= <-] d [Hd Hn%bool_decide_eq_true]%find_Some.
    apply elem_of_dm_all in Hd as [k' Hk]. destruct (HI' k' d Hk) as [<- _].
    split; [by right|]. exists (s', s'). split; [by apply elem_of_app; right; apply list_elem_of_singleton|done].
Qed.

(** An app that was answered to somebody the access rules are not bypassed for. *)
Definition answered_to (k p : string) (mine : list (St * St)) : Prop :=
  exists d, found_at k d mine /\ d.(d_status) = running /\ is_Some d.(endpoint) /\ lets_in d p mine.
Lemma wp_reach k p mine s : depot_ok s ->
  wp (reachDeployment endpoint_json k p false) (grown mine (fun r m => forall e, r = reach_ok e -> answered_to k p m)) mine s.
Proof.
  intros HI. unfold reachDeployment. eapply wp_seq; [done|by apply wp_getDeployment|]. intros o l s1 HI1 Ho. cbn beta in Ho.
  destruct o as [d|]; [|by apply wp_mret]. specialize (Ho d eq_refl). destruct (_ || _) eqn:Er; [by apply wp_mret|]. to_prop.
  destruct (endpoint d) as [e0|] eqn:Ee; [|done].
  eapply wp_seq; [done|by apply wp_reachAllowed|]. intros ok l1 s2 HI2 Hok. cbn beta in Hok.
  destruct ok; [|by apply wp_mret]. cbn [negb]. specialize (Hok eq_refl).
  eapply wp_seq; [done|apply wp_safe; [apply safe_liveEndpoint|done]|]. intros e l2 s3 HI3 _. intros t.
  eapply wp_seq; [done|apply wp_safe; [apply safe_touch|done]|]. intros [] l3 s4 _ _. apply wp_mret. intros e' _. exists d.
  split_and!; [by do 3 apply found_at_later|done|by rewrite Ee|by do 2 apply lets_in_later].
Qed.

(** ** Every interleaving *)

Definition post (q : Req) (r : result string Resp) (mine : list (St * St)) (s : St) : Prop :=
  match q, r with q_reach k p false, Ok (r_reach (reach_ok e)) => answered_to k p mine | _, _ => True end.
Lemma safe_quiet {A} (c : call A) : safe c -> safe (quiet c).
Proof. intros. apply safe_bind; [done|]. intros. apply safe_ret. Qed.
Lemma safe_serve_d q : match q with q_reach _ _ false => False | _ => True end -> safe (serve q).
Proof.
  intros Hq. destruct q; cbn [serve]; try apply safe_quiet; unfold archiveDeployment, restoreDeployment, renameDeployment, setDeploymentDisplayName,
    reachDeployment, pushGit, reapIdleDeployments, canManageDeployment, shareDeployment, transferDeploymentOwner; depot; by intros [= _ <-].
Qed.
Lemma depot_serve_ok q s : depot_ok s -> wp (serve q) (post q) [] s.
Proof.
  intros HI. assert (Hq : match q with q_reach _ _ false => False | _ => True end \/ exists k p, q = q_reach k p false).
  { destruct q as [| | | | | | |k p []| | | | | | |]; eauto. }
  destruct Hq as [Hq|(k & p & ->)].
  - eapply (Async.wp_mono any depot_ok any any); [done| |by apply safe_serve_d]. intros r m s' _ _. unfold post. by destruct q as [| | | | | | |k p []| | | | | | |].
  - eapply (Async.wp_mono any depot_ok any any); [done| |]; [|cbn [serve]; eapply (wp_seq _ _ _ (fun x m => forall e, x = r_reach (reach_ok e) -> answered_to k p m)); [done|by apply wp_reach|]].
    + intros r m s' _ [_ H]. unfold post. destruct r as [[|[e| |]]|]; [done| |done..]. by eapply (H _ eq_refl).
    + intros r l s' HI' Hr. apply wp_mret. intros e [= ->]. by eapply Hr.
Qed.

Lemma runs_ok s0 l : depot_ok s0 -> world_ok any depot_ok (fun _ => any) post s0 (acts serve l (begins s0)).
Proof. intros HI. exact (interleaved_ok any depot_ok serve (fun _ => any) post depot_serve_ok s0 l HI). Qed.

(** C19: Every stored deployment stays well formed.  Any calls of the deployment service,
    publishing, redeploying, rolling back, archiving, restoring, renaming, sharing, transferring,
    pushing, reaching and reaping, interleave at their awaits, and any operation of the git
    store, the disk and the provider may fail at any of them.  When each stored deployment is
    kept under its identifier, its versions are numbered 1, 2, ... in order, its current version
    is one of them and so is the applied one, if there is one, this holds at the end: no version
    number is given twice in a stored record, and none of the pointers dangles, though most
    writers read the record and write all of it back without the lock of the deployment. *)
Theorem deployments_well_formed s0 l : depot_ok s0 -> depot_ok (acts serve l (begins s0)).(st).
Proof. intros HI. by eapply w_inv, runs_ok. Qed.

(** C20: An app is reached only by somebody it is open to.  Calls interleave at their awaits,
    while the access rules and the grants change at will.  When a call of [reachDeployment] that
    does not bypass the access rules answers with the app, the call names somebody, and it made
    these steps: at one it read the deployment, by its identifier or its name, which was running
    and had an endpoint; and at one the access rules let the person read the home of the
    deployment, or else they let the person read the scope that a grant on it gives access to,
    which the call had found among the grants of the owner. *)
Theorem reach_granted s0 l i k p e :
  let w := acts serve l (begins s0) in
  depot_ok s0 ->
  w.(pool) !! i = Some (q_reach k p false, Ret (r_reach (reach_ok e))) ->
  answered_to k p (steps_of i w.(trace)).
Proof.
  intros w HI Hp.
  exact (ended_ok any depot_ok serve (fun _ => any) post depot_serve_ok s0 l i _ _ (Ok (r_reach (reach_ok e))) HI Hp eq_refl).
Qed.

End safety.

(** ** Witnesses *)

(** A host where everything goes well. *)
#[local] Instance wiki_cloud : Cloud nat := {
  git_commit k n _ _ x := (Ok ("c" +:+ pretty.pretty n), S x);
  git_setRef _ _ _ x := (Ok tt, x);
  git_deleteRef _ _ x := (Ok tt, x);
  git_refOf _ _ x := (Ok None, x);
  git_treeOf _ _ x := (Ok None, x);
  git_diff _ _ _ x := (Ok None, x);
  git_bundle _ _ x := (Ok None, x);
  disk_snapshot _ x := (Ok "/snap", x);
  p_apply d v x := (Ok (MkEndpoint "localhost" 8000 None None None None None), x);
  p_reconcile := None;
  p_destroy _ x := (Ok tt, x);
  p_resolve := None;
}.
Definition wiki_depot : Depot (jsmap string Deployment) (list Grant) nat := MkDepot ∅ [] 0%nat None None None [].
Definition wiki_endpoint : DeployEndpoint := MkEndpoint "localhost" 8000 None None None None None.
Definition wiki_input : DeployOrUpdateInput :=
  MkInput "personal:ann" "ann" (Some "wiki") (Some "node app.js") (Some [MkDeployFile "app.js" "1"]) None None None None
    [("personal:bob", p_read)] (Some "personal:ann") None.
(** Ann publishes an app, shares it with Bob and publishes it again, while Bob and Cal open it. *)
Definition wiki_actions : list (Action (Req (list Grant) nat)) :=
  ([Begin (q_publish "d1" wiki_input) 1] ++ repeat (Move 0 2) 30 ++
   [Begin (q_publish "d2" wiki_input) 3] ++ repeat (Move 1 3) 9 ++
   [Begin (q_reach "wiki" "bob" false) 4; Begin (q_reach "wiki" "cal" false) 4] ++
   repeat (Move 2 4) 3 ++ repeat (Move 3 5) 12 ++ repeat (Move 1 5) 30 ++ repeat (Move 2 6) 12)%list.
Abbreviation wiki_world := (acts (serve None (fun e => e.(e_host))) wiki_actions (begins wiki_depot)).
Example wiki_run :
  map (fun p => p.2) wiki_world.(pool) =
    [Ret r_done; Ret r_done; Ret (r_reach (reach_ok (Some wiki_endpoint))); Ret (r_reach reach_denied)] /\
  ((fun d => (map (fun v => (v.(v_version), v.(commit))) d.(versions), d.(currentVersion), d.(appliedVersion))) <$>
     dm_get "d1" wiki_world.(st).(deployments)) = Some ([(1, Some "c1"); (2, Some "c2")], 2, Some 2).
Proof. vm_compute. done. Qed.
Lemma wiki_ok : depot_ok wiki_depot.
Proof. intros k d H. discriminate H. Qed.

Lemma deployments_well_formed_witness :
  depot_ok wiki_world.(st) /\ exists d, dm_get "d1" wiki_world.(st).(deployments) = Some d /\ length d.(versions) = 2%nat.
Proof.
  split; [exact (deployments_well_formed None (fun e => e.(e_host)) wiki_depot wiki_actions wiki_ok)|].
  eexists. split; [vm_compute; reflexivity|reflexivity].
Defined.
Lemma reach_granted_witness :
  wiki_world.(pool) !! 2%nat = Some (q_reach "wiki" "bob" false, Ret (r_reach (reach_ok (Some wiki_endpoint)))) /\
  answered_to "wiki" "bob" (steps_of 2 wiki_world.(trace)).
Proof.
  match goal with |- ?P /\ _ => assert (H : P) by (vm_compute; reflexivity); split; [exact H|] end.
  exact (reach_granted None (fun e => e.(e_host)) wiki_depot wiki_actions 2 "wiki" "bob" _ wiki_ok H).
Defined.

(** Opening an app reads the record and writes it back without the lock: a version that another
    call added in between is gone, and that call then fails. *)
Definition lost_actions : list (Action (Req (list Grant) nat)) :=
  ([Begin (q_publish "d1" wiki_input) 1] ++ repeat (Move 0 2) 30 ++
   [Begin (q_reach "wiki" "ann" false) 3] ++ repeat (Move 1 3) 4 ++
   [Begin (q_redeploy "d1" (MkPublish "node app.js" [MkDeployFile "app.js" "2"] None None)) 4] ++ repeat (Move 2 4) 6 ++
   [Move 1 5] ++ repeat (Move 2 6) 30)%list.
Abbreviation lost_world := (acts (serve None (fun e => e.(e_host))) lost_actions (begins wiki_depot)).
Example touch_loses_version :
  map (fun p => p.2) lost_world.(pool) =
    [Ret r_done; Ret (r_reach (reach_ok (Some wiki_endpoint))); Raise "no such version 2"] /\
  ((fun d => map v_version d.(versions)) <$> dm_get "d1" lost_world.(st).(deployments)) = Some [1].
Proof. vm_compute. done. Qed.

(** Two publishes of one name both find it free. *)
Definition twin_actions : list (Action (Req (list Grant) nat)) :=
  ([Begin (q_publish "d1" wiki_input) 1; Begin (q_publish "d2" wiki_input) 1; Move 0 2; Move 1 2; Move 0 2; Move 1 2] ++
   repeat (Move 0 3) 30 ++ repeat (Move 1 3) 30)%list.
Abbreviation twin_world := (acts (serve None (fun e => e.(e_host))) twin_actions (begins wiki_depot)).
Example name_taken_twice :
  map (fun p => p.2) twin_world.(pool) = [Ret r_done; Ret r_done] /\
  map (fun d => (d.(d_id), d.(d_name))) (dm_all twin_world.(st).(deployments)) = [("d1", Some "wiki"); ("d2", Some "wiki")].
Proof. vm_compute. done. Qed.
