(* ===== verification/Gating.v ===== *)
(** * Which messages of a chat are answered, and by which bot

    The gate before a message of the chat surface becomes a turn
    ([src/src/slack/message-gating.ts]): the bots of one process and whom a message is for, the
    claim of a panel, events that come twice, the plain stop, and the refresh of the directory
    that calls share.  The cache with its evictions is a library, here the class [Lru]; a
    handler is the host's.  A refresh is run by an asynchronous function, which does not throw
    before its first await. *)

From S2P Require Import Prelude JsString Regex Async.

#[local] Open Scope string_scope.

(** ** The bots of the process *)

(** [SlackBotIdentity] src/src/slack/message-gating.ts:43-69
    Without the client it posts with. *)
Record SlackBotIdentity := MkBot {
  botUserId : option string;
  ownBotId : option string;
  personaId : option string;
  personaName : option string;
  alwaysPersona : bool;
}.
(** The registered bots, each under the token its registration answered; the ids are an index
    of them. *)
Record Siblings := MkSiblings { siblingBots : list (nat * SlackBotIdentity); siblingBotIds : list string; nextToken : nat }.
#[export] Instance Siblings_eta : Eta Siblings := fun s => MkSiblings s.(siblingBots) s.(siblingBotIds) s.(nextToken).
(** [siblingBots] src/src/slack/message-gating.ts:83-84 *)
Definition no_siblings : Siblings := MkSiblings [] [] 0.

Definition opt_list {A} (o : option A) : list A := match o with Some x => [x] | None => [] end.
(** [reindexSiblings] src/src/slack/message-gating.ts:86-92 *)
Definition reindexSiblings (bots : list (nat * SlackBotIdentity)) : list string :=
  dedup (concat (map (fun b => opt_list (if_truthy b.2.(botUserId)) ++ opt_list (if_truthy b.2.(ownBotId)))%list bots)).
(** [registerSlackBotIdentity] src/src/slack/message-gating.ts:95-106 *)
Definition registerSlackBotIdentity (ids : SlackBotIdentity) (s : Siblings) : nat * Siblings :=
  let bots := (s.(siblingBots) ++ [(s.(nextToken), ids)])%list in
  (s.(nextToken), MkSiblings bots (reindexSiblings bots) (S s.(nextToken))).
(** [registerSlackBotIdentity] src/src/slack/message-gating.ts:100-105
    The function it returns. *)
Definition deregister (token : nat) (s : Siblings) : Siblings :=
  let bots := js_filter (fun b => negb (Nat.eqb b.1 token)) s.(siblingBots) in
  s <| siblingBots := bots |> <| siblingBotIds := reindexSiblings bots |>.

Definition has_persona (b : SlackBotIdentity) : bool := truthy_opt b.(personaId) && truthy_opt b.(personaName).
(** [registeredPersonaBots] src/src/slack/message-gating.ts:114-116 *)
Definition registeredPersonaBots (s : Siblings) : list SlackBotIdentity := js_filter has_persona (map snd s.(siblingBots)).
(** [personaBotForId] src/src/slack/message-gating.ts:119-123 *)
Definition personaBotForId (id : option string) (s : Siblings) : option SlackBotIdentity :=
  match if_truthy id with Some id => find (fun b => b.(personaId) === Some id) (map snd s.(siblingBots)) | None => None end.
(** [personaBotForUserId] src/src/slack/message-gating.ts:126-130 *)
Definition personaBotForUserId (id : option string) (s : Siblings) : option SlackBotIdentity :=
  match if_truthy id with Some id => find (fun b => b.(botUserId) === Some id) (map snd s.(siblingBots)) | None => None end.

(** [SLACK_MENTION_RE] src/src/slack/message-gating.ts:133-133 *)
Definition SLACK_MENTION_RE : re :=
  Seq (lit "<@") (Seq (Grp 1 (plus (Cls is_word))) (Seq (opt (Seq (chr "|") (star (Cls (none_of ">"))))) (chr ">"))).
(** The ids a text mentions, in order. *)
Definition mentioned (text : string) : list string := omap (group 1) (match_all SLACK_MENTION_RE text).
(** [mentionedPersonaBots] src/src/slack/message-gating.ts:140-151
    One turn of the loop. *)
Definition mention_step (s : Siblings) (acc : list SlackBotIdentity * list string) (id : string) : list SlackBotIdentity * list string :=
  let '(out, seen) := acc in
  match personaBotForUserId (Some id) s with
  | Some bot =>
      match if_truthy bot.(personaId), if_truthy bot.(personaName) with
      | Some p, Some _ => if includes seen p then (out, seen) else ((out ++ [bot])%list, p :: seen)
      | _, _ => (out, seen)
      end
  | None => (out, seen)
  end.
(** [mentionedPersonaBots] src/src/slack/message-gating.ts:140-151 *)
Definition mentionedPersonaBots (text : string) (s : Siblings) : list SlackBotIdentity :=
  if negb (str_includes text "<@") then [] else (foldl (mention_step s) ([], []) (mentioned text)).1.
(** [mentionsSiblingBot] src/src/slack/message-gating.ts:165-173 *)
Definition mentionsSiblingBot (text : string) (self : option string) (s : Siblings) : bool :=
  if negb (str_includes text "<@") then false
  else some (fun id => truthy id && (Some id !== self) && includes s.(siblingBotIds) id) (mentioned text).

(** ** Messages *)

(** The fields of an event the gate reads. *)
Record Message := MkMessage {
  m_user : option string;
  m_bot_id : option string;
  m_text : option string;
  m_subtype : option string;
  m_channel : option string;
  channel_type : option string;
  m_ts : option string;
  thread_ts : option string;
  event_id : option string;
  client_msg_id : option string;
}.
(** [mentionsBot] src/src/slack/message-gating.ts:3-5 *)
Definition mentionsBot (text bot : string) : bool := truthy bot && str_includes text ("<@" +:+ bot +:+ ">").
(** [threadHasBotStake] src/src/slack/message-gating.ts:7-23 *)
Definition threadHasBotStake (messages : list Message) (bot own : string) : bool :=
  (truthy bot || truthy own) &&
  some (fun m =>
    let user := if_truthy m.(m_user) ?? "" in
    let b := if_truthy m.(m_bot_id) ?? "" in
    let text := if_truthy m.(m_text) ?? "" in
    (truthy bot && (user === bot)) || (truthy own && (b === own)) || (truthy bot && mentionsBot text bot)) messages.
(** [isSelfOrSiblingAuthored] src/src/slack/message-gating.ts:215-225 *)
Definition isSelfOrSiblingAuthored (m : Message) (bot own : string) (s : Siblings) : bool :=
  (truthy bot && (m.(m_user) === Some bot)) || (truthy own && (m.(m_bot_id) === Some own))
  || match if_truthy m.(m_user) with Some u => includes s.(siblingBotIds) u | None => false end
  || match if_truthy m.(m_bot_id) with Some b => includes s.(siblingBotIds) b | None => false end.
(** [shouldProcessMessage] src/src/slack/message-gating.ts:227-236 *)
Definition shouldProcessMessage (m : Message) (bot own : string) (s : Siblings) : bool :=
  negb (isSelfOrSiblingAuthored m bot own s) &&
  match if_truthy m.(m_subtype) with
  | Some t => (t === "file_share") || (t === "thread_broadcast") || (t === "bot_message")
  | None => true
  end.
(** [isGroupMembershipMessage] src/src/slack/message-gating.ts:238-240 *)
Definition isGroupMembershipMessage (m : Message) : bool :=
  (m.(channel_type) === Some "mpim") && ((m.(m_subtype) === Some "group_join") || (m.(m_subtype) === Some "group_leave")).
(** [channelPrivacyChange] src/src/slack/message-gating.ts:242-250 *)
Definition channelPrivacyChange (m : Message) : option (string * bool) :=
  match if_truthy m.(m_channel) with
  | None => None
  | Some c => if m.(m_subtype) === Some "channel_convert_to_private" then Some (c, true)
              else if m.(m_subtype) === Some "channel_convert_to_public" then Some (c, false) else None
  end.
(** [hasContent] src/src/slack/message-gating.ts:275-277 *)
Definition hasContent {F} (text : string) (files : list F) : bool :=
  truthy (trim text) || match files with [] => false | _ => true end.
(** [isThreadReply] src/src/slack/message-gating.ts:279-281 *)
Definition isThreadReply (m : Message) : bool := truthy_opt m.(thread_ts) && (m.(thread_ts) !== m.(m_ts)).
(** [dmThreadRef] src/src/slack/message-gating.ts:304-306 *)
Definition dmThreadRef (channel : string) (thread : option string) : string :=
  match if_truthy thread with Some t => "dm:" +:+ channel +:+ ":" +:+ t | None => "dm:" +:+ channel end.
(** [dedupeKey] src/src/slack/message-gating.ts:308-311 *)
Definition dedupeKey (m : Message) : string :=
  match if_truthy m.(m_channel), if_truthy m.(m_ts) with
  | Some c, Some t => c +:+ ":" +:+ t
  | _, _ =>
      match if_truthy m.(event_id), if_truthy m.(client_msg_id) with
      | Some e, _ => e
      | None, Some c => c
      | None, None => (m.(m_channel) ?? "") +:+ ":" +:+ (m.(m_ts) ?? "")
      end
  end.
(** [isBareStop] src/src/slack/message-gating.ts:342-344 *)
Definition isBareStop (text : string) : bool :=
  let t := to_lower (trim text) in (t === "stop") || (t === "stop.") || (t === "stop!").

(** ** The claim of a panel *)

(** [PANEL_CLAIM_TTL_MS] src/src/slack/message-gating.ts:182-182 *)
Definition PANEL_CLAIM_TTL_MS : Z := 5 * 60000.
(** [claimSlackPanel] src/src/slack/message-gating.ts:185-193 *)
Definition claimSlackPanel (channel ts : string) (now ttlMs : Z) (claims : jsmap string Z) : bool * jsmap string Z :=
  let kept := foldl (fun (m : jsmap string Z) p => if (now - p.2 >=? ttlMs)%Z then delete p.1 m else m) claims (entries claims) in
  let key := channel +:+ ":" +:+ ts in
  if has key kept then (false, kept) else (true, <[key := now]> kept).

(** ** Threads, events and stops *)

(** What is used of the cache. *)
Class Lru (C V : Type) := { lru_get : string -> C -> option V * C; lru_has : string -> C -> bool; lru_set : string -> V -> option Z -> C -> C; lru_delete : string -> C -> C }.

(** [THREAD_NO_STAKE_TTL_MS] src/src/slack/message-gating.ts:288-288 *)
Definition THREAD_NO_STAKE_TTL_MS : Z := 5 * 60000.
(** [get] src/src/slack/message-gating.ts:290-297 *)
Definition tracker_get {C} `{!Lru C bool} (channel thread : string) (c : C) : option bool * C := lru_get (channel +:+ ":" +:+ thread) c.
(** [mark] src/src/slack/message-gating.ts:298-300 *)
Definition tracker_mark {C} `{!Lru C bool} (channel thread : string) (present : bool) (ttl : Z) (c : C) : C :=
  lru_set (channel +:+ ":" +:+ thread) present (if present then None else Some ttl) c.

(** [seen] src/src/slack/message-gating.ts:316-320 *)
Definition seen {C} `{!Lru C unit} (key : string) (c : C) : bool * C := if lru_has key c then (true, c) else (false, lru_set key tt None c).
(** [forget] src/src/slack/message-gating.ts:321-323 *)
Definition forget {C} `{!Lru C unit} (key : string) (c : C) : C := lru_delete key c.

(** [set] src/src/slack/message-gating.ts:352-353 *)
Definition inflight_set (threadRef runId : string) (m : jsmap string string) : jsmap string string := <[threadRef := runId]> m.
(** [clear] src/src/slack/message-gating.ts:355-357 *)
Definition inflight_clear (threadRef runId : string) (m : jsmap string string) : jsmap string string :=
  if m !! threadRef === Some runId then delete threadRef m else m.

Section handlers.
Context {St C : Type} `{!Lru C unit} (cache : St -> C) (set_cache : C -> St -> St).
Abbreviation call := (call St string).
(** [dedupedRun] src/src/slack/message-gating.ts:327-340
    The first await is the look at the cache, which runs at once. *)
Definition dedupedRun (key : string) (run : call unit) (onError : string -> call unit) : call unit :=
  dup ← await (fun s => let '(b, c) := seen key (cache s) in Some (b, set_cache c s));
  if (dup : bool) then mret tt
  else catch run (fun e => _ ← await (fun s => Some (tt, set_cache (forget key (cache s)) s)); onError e).
(** [maybeInterceptStop] src/src/slack/message-gating.ts:361-372 *)
Definition maybeInterceptStop (text threadRef : string) (getInFlightRun : string -> call (option string)) (signalAbort : string -> call unit) : call bool :=
  if negb (isBareStop text) then mret false
  else
    r ← getInFlightRun threadRef;
    match if_truthy r with
    | None => mret false
    | Some runId => _ ← signalAbort runId; mret true
    end.
End handlers.

(** ** The refresh that calls share *)

Section refresh.
Context {E : Type}.

(** What happens: a call gets a promise, a run of the refresh starts and ends, a promise is
    settled. *)
Inductive Event := Asked (p : nat) | Started | Ended (r : result E unit) | Settled (p : nat) (r : result E unit).
(** [createRefreshCoalescer] src/src/slack/message-gating.ts:253-254
    The promise of the drain that goes on, with its [completed]; promises are numbered. *)
Record Coalescer := MkCoalescer { requested : nat; drain : option (nat * nat); promises : nat }.
(** [createRefreshCoalescer] src/src/slack/message-gating.ts:252-254 *)
Definition createRefreshCoalescer : Coalescer := MkCoalescer 0 None 0.
(** [refresh] src/src/slack/message-gating.ts:255-272
    A call: a drain that begins runs up to the first await of its refresh. *)
Definition refresh (c : Coalescer) : list Event * Coalescer :=
  let requested := S c.(requested) in
  match c.(drain) with
  | Some (p, completed) => ([Asked p], MkCoalescer requested (Some (p, completed)) c.(promises))
  | None => ([Asked c.(promises); Started], MkCoalescer requested (Some (c.(promises), requested)) (S c.(promises)))
  end.
(** [drain] src/src/slack/message-gating.ts:259-268
    The refresh that runs ends: the loop goes on, or the drain ends and its promise is settled. *)
Definition run_ends (r : result E unit) (c : Coalescer) : list Event * Coalescer :=
  match c.(drain) with
  | None => ([], c)
  | Some (p, completed) =>
      match r with
      | Ok _ =>
          if Nat.eqb completed c.(requested) then ([Ended r; Settled p r], MkCoalescer c.(requested) None c.(promises))
          else ([Ended r; Started], MkCoalescer c.(requested) (Some (p, c.(requested))) c.(promises))
      | Throw _ => ([Ended r; Settled p r], MkCoalescer c.(requested) None c.(promises))
      end
  end.

(** A call, or the end of the refresh that runs. *)
Inductive Act := Call | End (r : result E unit).
Definition coalescer_step (s : list Event * Coalescer) (a : Act) : list Event * Coalescer :=
  let '(evs, c) := match a with Call => refresh s.2 | End r => run_ends r s.2 end in ((s.1 ++ evs)%list, c).
Definition coalesce (l : list Act) (s : list Event * Coalescer) : list Event * Coalescer := foldl coalescer_step s l.
Definition from_start (l : list Act) : list Event * Coalescer := coalesce l ([], createRefreshCoalescer).
End refresh.
Arguments Event E : clear implicits.
Arguments Act E : clear implicits.

(** ** What a refresh promises *)

Section promise.
Context {E : Type}.
Abbreviation Event := (Event E).
Abbreviation Act := (Act E).
Abbreviation Coal := (list Event * Coalescer)%type.

(** In a log, a refresh that started and ended well. *)
Definition full_run (l : list Event) : Prop :=
  exists a b c, l = (a ++ Started :: b ++ Ended (Ok tt) :: c)%list /\ forall x, x ∈ b -> exists p, x = Asked p.
(** What a promise that is settled owes to each call it was given to. *)
Definition kept (log : list Event) : Prop :=
  forall l1 p r l2, log = (l1 ++ Settled p r :: l2)%list -> (forall x, x ∈ l2 -> x <> Asked p /\ forall r', x <> Settled p r') /\
    forall k1 k2, l1 = (k1 ++ Asked p :: k2)%list -> match r with Ok _ => full_run k2 | Throw e => Ended (Throw e) ∈ k2 end.
Definition awaited (p : nat) (log : list Event) : Prop := Asked p ∈ log /\ forall r, Settled p r ∉ log.
(** Every promise that was asked for and is not settled is that of the drain, whose refresh runs
    and, unless calls came since, started after all of them. *)
Definition draining (log : list Event) (c : Coalescer) : Prop :=
  (forall p, Asked p ∈ log -> (p < c.(promises))%nat) /\ (forall p r, Settled p r ∈ log -> (p < c.(promises))%nat) /\
  (forall p, awaited p log -> exists n, c.(drain) = Some (p, n)) /\
  match c.(drain) with
  | None => True
  | Some (p, completed) =>
      awaited p log /\ exists l1 l2, log = (l1 ++ Started :: l2)%list /\ (forall x, x ∈ l2 -> x = Asked p) /\ (completed + length l2)%nat = c.(requested)
  end.

Lemma cut_app {A} (l1 : list A) x l2 a b : (l1 ++ x :: l2)%list = (a ++ b)%list ->
  (exists a2, a = (l1 ++ x :: a2)%list /\ l2 = (a2 ++ b)%list) \/ (exists b1, l1 = (a ++ b1)%list /\ b = (b1 ++ x :: l2)%list).
Proof.
  revert l1. induction a as [|y a IH]; intros l1; simpl; [right; by exists l1|]. destruct l1 as [|z l1]; simpl.
  - intros [= -> ->]. left. by exists a.
  - intros [= -> [(a2 & -> & ->)|(b1 & -> & ->)]%IH]; [left; by exists a2|right; by exists b1].
Qed.
(** What is added after the steps so far. *)
Lemma kept_app log evs :
  kept log -> (forall p x r, x ∈ evs -> Settled p r ∈ log -> x <> Asked p /\ forall r', x <> Settled p r') ->
  (forall b1 p r b2, evs = (b1 ++ Settled p r :: b2)%list -> b2 = [] /\
     forall k1 k2, (log ++ b1)%list = (k1 ++ Asked p :: k2)%list -> match r with Ok _ => full_run k2 | Throw e => Ended (Throw e) ∈ k2 end) ->
  kept (log ++ evs).
Proof.
  intros Hk Hn Hs l1 p r l2 E'. symmetry in E'. apply cut_app in E' as [(a2 & -> & ->)|(b1 & -> & ->)].
  - destruct (Hk l1 p r a2 eq_refl) as [H1 H2]. split; [|done]. intros x [Hx|Hx]%elem_of_app; [by apply H1|].
    apply (Hn p x r Hx). apply elem_of_app. right. apply list_elem_of_here.
  - destruct (Hs b1 p r l2 eq_refl) as [-> H]. split; [by intros x ?%not_elem_of_nil|done].
Qed.
Lemma started_then (l1 : list Event) p k1 k2 : (l1 ++ [Started; Ended (Ok tt)])%list = (k1 ++ Asked p :: k2)%list -> full_run k2.
Proof.
  intros H. symmetry in H. apply cut_app in H as [(a2 & -> & ->)|([|? [|? [|]]] & -> & H)]; [|discriminate H..].
  exists a2, [], []. split; [done|]. by intros x ?%not_elem_of_nil.
Qed.
(** Events that settle nothing, of promises that are not settled. *)
Lemma kept_more log evs :
  kept log -> (forall x, x ∈ evs -> match x with Asked p => forall r, Settled p r ∉ log | Settled _ _ => False | _ => True end) -> kept (log ++ evs).
Proof.
  intros Hk He. apply kept_app; [done|..].
  - intros p x r Hx Hs. specialize (He x Hx). split; [intros ->; by apply (He r)|by intros r' ->].
  - intros b1 p r b2 ->. exfalso. apply (He (Settled p r)), elem_of_app. right. apply list_elem_of_here.
Qed.
(** The refresh ends, and with it the drain. *)
Lemma kept_end log p (r : result E unit) :
  kept log -> awaited p log ->
  (forall k1 k2, (log ++ [Ended r])%list = (k1 ++ Asked p :: k2)%list -> match r with Ok _ => full_run k2 | Throw e => Ended (Throw e) ∈ k2 end) ->
  kept (log ++ [Ended r; Settled p r]).
Proof.
  intros Hk [_ Hn] H. apply kept_app; [done|..].
  - intros q x r' [->|[->|Hx%not_elem_of_nil]%elem_of_cons]%elem_of_cons Hs; [done| |done]. split; [done|]. intros r'' [= <- _]. by apply (Hn r').
  - intros [|b [|b' [|]]] q r' b2 [=]; subst; done.
Qed.
Lemma awaited_app log evs p : awaited p (log ++ evs) -> Asked p ∈ evs \/ awaited p log.
Proof. intros [[?|?]%elem_of_app Hn]; [|by left]. right. split; [done|]. intros r Hr. apply (Hn r), elem_of_app. by left. Qed.
Lemma awaited_more log evs p : awaited p log -> (forall r, Settled p r ∉ evs) -> awaited p (log ++ evs).
Proof. intros [Ha Hn] He. split; [apply elem_of_app; by left|]. intros r [?|?]%elem_of_app; [by apply (Hn r)|by apply (He r)]. Qed.

Lemma call_joins log c p completed : kept log -> draining log c -> c.(drain) = Some (p, completed) ->
  kept (log ++ [Asked p]) /\ draining (log ++ [Asked p]) (MkCoalescer (S c.(requested)) (Some (p, completed)) c.(promises)).
Proof.
  intros Hk (Hlt & Hlt' & Hw & Hd) Ed. rewrite Ed in Hd. destruct Hd as (Ha & l1 & l2 & -> & Hl2 & Hreq). split.
  - apply kept_more; [done|]. intros x ->%list_elem_of_singleton. apply Ha.
  - unfold draining. cbn [requested drain promises]. split_and!.
    + intros q [?|[= ->]%list_elem_of_singleton]%elem_of_app; [by apply Hlt|]. apply Hlt, Ha.
    + intros q r [?|?%list_elem_of_singleton]%elem_of_app; [by apply (Hlt' q r)|done].
    + intros q [Hq%list_elem_of_singleton|H]%awaited_app; [injection Hq as ->; by eexists|]. destruct (Hw q H) as [n Hn]. rewrite Ed in Hn. injection Hn as -> ->. by eexists.
    + apply awaited_more; [done|]. by intros r ?%list_elem_of_singleton.
    + exists l1, (l2 ++ [Asked p])%list. split; [by rewrite <- app_assoc|]. split.
      * intros x [?| ->%list_elem_of_singleton]%elem_of_app; [by apply Hl2|done].
      * rewrite length_app. cbn. lia.
Qed.
Lemma call_begins log c : kept log -> draining log c -> c.(drain) = None ->
  kept (log ++ [Asked c.(promises); Started]) /\
  draining (log ++ [Asked c.(promises); Started]) (MkCoalescer (S c.(requested)) (Some (c.(promises), S c.(requested))) (S c.(promises))).
Proof.
  intros Hk (Hlt & Hlt' & Hw & _) Ed. assert (Hn : forall r, Settled c.(promises) r ∉ log) by (intros r H; apply Hlt' in H; lia). split.
  - apply kept_more; [done|]. intros x [->| ->%list_elem_of_singleton]%elem_of_cons; done.
  - unfold draining. cbn [requested drain promises]. split_and!.
    + intros q [H|[Hq|?%list_elem_of_singleton]%elem_of_cons]%elem_of_app; [apply Hlt in H; lia|injection Hq as ->; lia|done].
    + intros q r [H|[?|?%list_elem_of_singleton]%elem_of_cons]%elem_of_app; [apply Hlt' in H; lia|done..].
    + intros q [[ [= ->]|?%list_elem_of_singleton]%elem_of_cons|H]%awaited_app; [by eexists|done|]. destruct (Hw q H) as [n Hn']. by rewrite Ed in Hn'.
    + split; [apply elem_of_app; right; apply list_elem_of_here|]. intros r [H|[?|?%list_elem_of_singleton]%elem_of_cons]%elem_of_app; [by apply (Hn r)|done..].
    + exists (log ++ [Asked c.(promises)])%list, []. split; [by rewrite <- app_assoc|]. split; [by intros x ?%not_elem_of_nil|cbn; lia].
Qed.
(** Nothing is awaited when the drain ended. *)
Lemma drain_ended log c p completed r : draining log c -> c.(drain) = Some (p, completed) ->
  draining (log ++ [Ended r; Settled p r]) (MkCoalescer c.(requested) None c.(promises)).
Proof.
  intros (Hlt & Hlt' & Hw & Hd) Ed. rewrite Ed in Hd. destruct Hd as ([Ha _] & _). unfold draining. cbn [drain promises requested]. split_and!; [..|done].
  - intros q [?|[?|?%list_elem_of_singleton]%elem_of_cons]%elem_of_app; [by apply Hlt|done..].
  - intros q r' [?|[?|[= -> ->]%list_elem_of_singleton]%elem_of_cons]%elem_of_app; [by apply (Hlt' q r')|done|by apply Hlt].
  - intros q H. exfalso. destruct (decide (q = p)) as [->|Hne].
    + destruct H as [_ H]. apply (H r), elem_of_app. right. apply list_elem_of_further, list_elem_of_here.
    + apply awaited_app in H as [[?|?%list_elem_of_singleton]%elem_of_cons|H]; [done..|]. destruct (Hw q H) as [n Hn]. rewrite Ed in Hn. congruence.
Qed.
Lemma drain_goes_on log c p completed (r : result E unit) : kept log -> draining log c -> c.(drain) = Some (p, completed) ->
  kept (log ++ [Ended r; Started]) /\ draining (log ++ [Ended r; Started]) (MkCoalescer c.(requested) (Some (p, c.(requested))) c.(promises)).
Proof.
  intros Hk (Hlt & Hlt' & Hw & Hd) Ed. rewrite Ed in Hd. destruct Hd as (Ha & _). split.
  - apply kept_more; [done|]. by intros x [->| ->%list_elem_of_singleton]%elem_of_cons.
  - unfold draining. cbn [requested drain promises]. split_and!.
    + intros q [?|[?|?%list_elem_of_singleton]%elem_of_cons]%elem_of_app; [by apply Hlt|done..].
    + intros q r' [?|[?|?%list_elem_of_singleton]%elem_of_cons]%elem_of_app; [by apply (Hlt' q r')|done..].
    + intros q [[?|?%list_elem_of_singleton]%elem_of_cons|H]%awaited_app; [done..|]. destruct (Hw q H) as [n Hn]. rewrite Ed in Hn. injection Hn as -> _. by eexists.
    + apply awaited_more; [done|]. by intros r' [?|?%list_elem_of_singleton]%elem_of_cons.
    + exists (log ++ [Ended r])%list, []. split; [by rewrite <- app_assoc|]. split; [by intros x ?%not_elem_of_nil|cbn; lia].
Qed.

Lemma step_ok (s : Coal) a : kept s.1 -> draining s.1 s.2 -> kept (coalescer_step s a).1 /\ draining (coalescer_step s a).1 (coalescer_step s a).2.
Proof.
  destruct s as [log c]. cbn [fst snd]. intros Hk Hd. unfold coalescer_step. cbn [fst snd].
  destruct a as [|r]; unfold refresh, run_ends; destruct (drain c) as [[p completed]|] eqn:Ed; cbn [fst snd].
  - by apply call_joins.
  - by apply call_begins.
  - assert (Hp : awaited p log /\ exists l1 l2, log = (l1 ++ Started :: l2)%list /\ (forall x, x ∈ l2 -> x = Asked p) /\ (completed + length l2)%nat = c.(requested)).
    { destruct Hd as (_ & _ & _ & Hd). by rewrite Ed in Hd. }
    destruct Hp as (Ha & l1 & l2 & Hlog & _ & Hreq). destruct r as [[]|e].
    + destruct (Nat.eqb_spec completed c.(requested)) as [Heq|Hne]; [|by eapply drain_goes_on].
      split; [|by eapply drain_ended]. apply kept_end; [done..|]. intros k1 k2 H. apply (started_then l1 p k1). rewrite <- H, Hlog.
      destruct l2; [by rewrite <- app_assoc|cbn in Hreq; lia].
    + split; [|by eapply drain_ended]. apply kept_end; [done..|]. intros k1 k2 H. symmetry in H.
      apply cut_app in H as [(a2 & _ & ->)|([|? [|]] & _ & H)]; [|discriminate H..]. apply elem_of_app. right. apply list_elem_of_here.
  - rewrite app_nil_r. by split.
Qed.
Lemma coalesce_ok l (s : Coal) : kept s.1 -> draining s.1 s.2 -> kept (coalesce l s).1 /\ draining (coalesce l s).1 (coalesce l s).2.
Proof. revert s. induction l as [|a l IH]; intros s Hk Hd; [done|]. destruct (step_ok s a Hk Hd). by apply IH. Qed.
Lemma from_start_ok (l : list Act) : kept (from_start l).1 /\ draining (from_start l).1 (from_start l).2.
Proof.
  apply coalesce_ok.
  - intros l1 p r l2 H. by destruct l1.
  - split_and!; [by intros p ?%not_elem_of_nil|by intros p r ?%not_elem_of_nil|by intros p [?%not_elem_of_nil _]|done].
Qed.

(** C22: No call of the shared refresh is lost.  However calls of [refresh] and the ends of the
    refreshes it runs, good or bad, follow on each other: a promise is settled once and given to
    nobody afterwards; when it is fulfilled, then for each call it was given to a refresh began
    after the call and ended well before; when it is rejected, a refresh failed with that error
    after the call.  And a call whose promise is not settled waits for a refresh that runs: two
    ends without a failure settle it, or one failure. *)
Theorem refresh_not_lost (l : list Act) :
  let '(log, c) := from_start l in
  (forall l1 p r l2, log = (l1 ++ Settled p r :: l2)%list ->
     (forall x, x ∈ l2 -> x <> Asked p /\ forall r', x <> Settled p r') /\
     forall k1 k2, l1 = (k1 ++ Asked p :: k2)%list -> match r with Ok _ => full_run k2 | Throw e => Ended (Throw e) ∈ k2 end) /\
  (forall p, Asked p ∈ log -> (forall r, Settled p r ∉ log) ->
     (exists l1 l2, log = (l1 ++ Started :: l2)%list /\ forall x, x ∈ l2 -> x = Asked p) /\
     Settled p (Ok tt) ∈ (coalesce [End (Ok tt); End (Ok tt)] (log, c)).1 /\
     forall e, Settled p (Throw e) ∈ (coalesce [End (Throw e)] (log, c)).1).
Proof.
  destruct (from_start l) as [log c] eqn:Es. destruct (from_start_ok l) as [Hk (_ & _ & Hw & Hd)]. rewrite Es in *. cbn [fst snd] in *.
  split; [exact Hk|]. intros p Ha Hn. destruct (Hw p (conj Ha Hn)) as [n Hn']. rewrite Hn' in Hd. destruct Hd as (_ & l1 & l2 & -> & Hl2 & _).
  split; [by eauto|]. unfold coalesce. cbn [foldl]. unfold coalescer_step, run_ends. cbn [fst snd]. rewrite Hn'. split.
  - destruct (Nat.eqb n (requested c)); cbn [fst snd drain requested]; [|rewrite Nat.eqb_refl]; set_solver.
  - intros e. cbn [fst snd]. set_solver.
Qed.
End promise.

(** Two calls come while the first refresh runs: one more refresh serves both. *)
Example two_share :
  (from_start (E := string) [Call; Call; Call; End (Ok tt); Call; End (Ok tt); End (Ok tt); Call; End (Throw "down")]).1 =
    [Asked 0; Started; Asked 0; Asked 0; Ended (Ok tt); Started; Asked 0; Ended (Ok tt); Started; Ended (Ok tt); Settled 0 (Ok tt);
     Asked 1; Started; Ended (Throw "down"); Settled 1 (Throw "down")]%nat.
Proof. reflexivity. Qed.

(** ** What the claim of a panel promises *)

Section claims.
Record Claim := MkClaim { cl_channel : string; cl_ts : string; cl_now : Z }.
Definition claim_key (x : Claim) : string := x.(cl_channel) +:+ ":" +:+ x.(cl_ts).
Definition claim (ttl : Z) (x : Claim) (m : jsmap string Z) : bool * jsmap string Z := claimSlackPanel x.(cl_channel) x.(cl_ts) x.(cl_now) ttl m.
Definition claims (ttl : Z) (l : list Claim) (m : jsmap string Z) : jsmap string Z := foldl (fun m x => (claim ttl x m).2) m l.

Lemma swept (now ttl : Z) (l : list (string * Z)) (m : jsmap string Z) k :
  foldl (fun (m : jsmap string Z) p => if (now - p.2 >=? ttl)%Z then delete p.1 m else m) m l !! k =
    if some (fun p => (p.1 === k) && (now - p.2 >=? ttl)%Z) l then None else m !! k.
Proof.
  revert m. induction l as [|[k' t] l IH]; intros m; [done|]. cbn [foldl some existsb fst snd]. rewrite IH. unfold some.
  destruct (existsb _ l) eqn:Ee; [by rewrite orb_true_r|]. rewrite orb_false_r. destruct (now - t >=? ttl)%Z; [|by rewrite andb_false_r].
  rewrite andb_true_r, lookup_del. case_decide as Hk; [subst; by rewrite eqb_refl|]. case_bool_decide; [done|done].
Qed.
Lemma swept_map now ttl (m : jsmap string Z) k :
  foldl (fun (m : jsmap string Z) p => if (now - p.2 >=? ttl)%Z then delete p.1 m else m) m (entries m) !! k =
    match m !! k with Some t => if (now - t >=? ttl)%Z then None else Some t | None => None end.
Proof.
  rewrite swept. destruct (some _ (entries m)) eqn:Es.
  - apply some_true in Es as ([k' t] & Hin & Ht). cbn [fst snd] in Ht. apply andb_true_iff in Ht as [Hkk%bool_decide_eq_true Ht].
    subst k'. apply elem_of_entries in Hin. by rewrite Hin, Ht.
  - destruct (m !! k) as [t|] eqn:Ek; [|done]. apply elem_of_entries in Ek. rewrite some_false in Es. specialize (Es _ Ek). cbn [fst snd] in Es.
    rewrite eqb_refl in Es. cbn [andb] in Es. by rewrite Es.
Qed.
(** A claim is kept until its time is over, and refuses the others. *)
Lemma claim_keeps ttl x (m : jsmap string Z) k t : m !! k = Some t -> (x.(cl_now) - t < ttl)%Z ->
  (claim ttl x m).2 !! k = Some t /\ (claim_key x = k -> (claim ttl x m).1 = false).
Proof.
  intros Hk Ht. unfold claim, claimSlackPanel. fold (claim_key x). set (kept := foldl _ m (entries m)).
  assert (Hkept : kept !! k = Some t). { unfold kept. rewrite swept_map, Hk. destruct (Z.geb_spec (cl_now x - t) ttl); [lia|done]. }
  destruct (has (claim_key x) kept) eqn:Eh; cbn [fst snd]; [by split|]. apply has_false in Eh.
  split; [|intros Hx; congruence]. rewrite lookup_set_ne; [done|]. intros Hx. congruence.
Qed.
Lemma claim_won ttl x m : (claim ttl x m).1 = true -> (claim ttl x m).2 !! claim_key x = Some x.(cl_now).
Proof.
  unfold claim, claimSlackPanel. fold (claim_key x). set (kept := foldl _ m (entries m)).
  destruct (has (claim_key x) kept); cbn [fst snd]; [done|]. intros _. apply lookup_set_eq.
Qed.
Lemma claims_keep ttl l m k t : m !! k = Some t -> (forall x, x ∈ l -> (x.(cl_now) - t < ttl)%Z) -> claims ttl l m !! k = Some t.
Proof.
  revert m. induction l as [|x l IH]; intros m Hk Hl; [done|]. apply IH; [|intros; apply Hl; by apply list_elem_of_further].
  apply claim_keeps; [done|apply Hl, list_elem_of_here].
Qed.

(** A message that addresses several bots runs one panel: of the claims of one message within
    the time to live of the first that succeeded, no other succeeds, whatever other claims come
    in between. *)
Theorem panel_claimed_once ttl l1 x l2 y :
  (claim ttl x (claims ttl l1 ∅)).1 = true -> claim_key y = claim_key x ->
  (forall z, z ∈ (l2 ++ [y])%list -> (z.(cl_now) - x.(cl_now) < ttl)%Z) ->
  (claim ttl y (claims ttl (l1 ++ x :: l2) ∅)).1 = false.
Proof.
  intros Hx Hk Hl. unfold claims. rewrite foldl_app. cbn [foldl]. fold (claims ttl l1 ∅).
  change (foldl _ ?m l2) with (claims ttl l2 m). apply (claim_keeps ttl y _ (claim_key x) x.(cl_now)); [|apply Hl, elem_of_app; right; apply list_elem_of_here|done].
  apply claims_keep; [by apply claim_won|]. intros z Hz. apply Hl, elem_of_app. by left.
Qed.
End claims.

(** ** Who is answered *)

(** The ids of the registered bots, however they came and went. *)
Lemma siblings_exact (l : list (SlackBotIdentity + nat)) id :
  let s := foldl (fun s x => match x with inl b => (registerSlackBotIdentity b s).2 | inr t => deregister t s end) no_siblings l in
  id ∈ s.(siblingBotIds) <-> id <> "" /\ exists t b, (t, b) ∈ s.(siblingBots) /\ (b.(botUserId) = Some id \/ b.(ownBotId) = Some id).
Proof.
  intros s. assert (Hs : s.(siblingBotIds) = reindexSiblings s.(siblingBots)).
  { unfold s. clear s. induction l as [|x l IH] using rev_ind; [done|]. rewrite foldl_app. cbn [foldl]. by destruct x. }
  rewrite Hs. unfold reindexSiblings. rewrite elem_of_dedup, list_elem_of_In, in_concat. setoid_rewrite <- list_elem_of_In.
  assert (Ho : forall o, id ∈ opt_list (if_truthy o) <-> o = Some id /\ id <> "").
  { intros o. destruct (if_truthy o) as [i|] eqn:E; cbn [opt_list].
    - apply if_truthy_Some in E as [-> Hi]. rewrite list_elem_of_singleton. split; [by intros ->|by intros [[= ->] _]].
    - split; [by intros ?%not_elem_of_nil|]. intros [-> Hi]. exfalso. assert (H : if_truthy (Some id) = Some id) by (by apply if_truthy_Some). congruence. }
  split.
  - intros (x & Hx & Hin). apply list_elem_of_fmap in Hx as ([t b] & -> & Hb). cbn [snd] in Hin.
    apply elem_of_app in Hin as [[? ?]%Ho|[? ?]%Ho]; eauto 8.
  - intros (Hne & t & b & Hb & H). eexists. split; [apply list_elem_of_fmap; by exists (t, b)|]. cbn [snd]. apply elem_of_app. rewrite !Ho. tauto.
Qed.
