(* ===== verification/Runtime.v ===== *)
(** * The runtime of a turn: which harness runs it, with which model

    The choice among what a request asks for, what a scope and its organisation are set to and
    what the deployment falls back to, within the harnesses that are approved; and the router
    that hands a turn to the harness of its choice ([src/src/harness/harness-router.ts]).  The
    harnesses themselves are the host's: what is asked of them is logged, and they may fail. *)

From S2P Require Import Prelude JsString Scope Async Models Config.

#[local] Open Scope string_scope.

(** [RuntimeChoice] src/src/harness/harness-router.ts:7-10 *)
Record RuntimeChoice := MkChoice { harnessId : string; modelId : string }.
#[export] Instance RuntimeChoice_eq_dec : EqDecision RuntimeChoice.
Proof. solve_decision. Defined.
(** What a request asks for. *)
Record Requested := MkRequested { req_harness : option string; req_model : option string }.
(** What the choice reads of the configuration. *)
Record View := MkView {
  v_approved : option (list string);
  v_selection : ScopeId -> option ScopedRuntimeSelection;
  v_base : ScopeId -> option string;
}.

Section choice.
(** The catalogue of the agent library. *)
Variable getModel : string -> string -> option PiModel.
Abbreviation supported := (fun m h => modelSupportedByHarness getModel (Some m) h).

(** A harness that is approved, with a model it can run. *)
Definition fits (approved : list string) (c : RuntimeChoice) : bool :=
  includes approved c.(harnessId) && supported c.(modelId) c.(harnessId).
(** A stored selection of a known harness. *)
Definition stored_choice (s : option ScopedRuntimeSelection) : option RuntimeChoice :=
  match s with
  | Some s => let r := s.(ss_selection) in if isHarnessId r.(rs_harnessId) then Some (MkChoice r.(rs_harnessId) r.(rs_modelId)) else None
  | None => None
  end.
(** [resolveRuntimeChoice] src/src/harness/harness-router.ts:20-35
    What the organisation runs. *)
Definition org_choice (config : View) (orgScopeId : ScopeId) (fallback : RuntimeChoice) (approved : list string) : RuntimeChoice :=
  let configuredOrg := stored_choice (config.(v_selection) orgScopeId) ?? MkChoice fallback.(harnessId) (config.(v_base) orgScopeId ?? fallback.(modelId)) in
  let firstApproved := find isHarnessId approved ?? fallback.(harnessId) in
  let safeFallback :=
    if fits approved fallback then fallback
    else MkChoice firstApproved (defaultModelForHarness getModel firstApproved (Some fallback.(modelId)) None) in
  if fits approved configuredOrg then configuredOrg else safeFallback.
(** [resolveRuntimeChoice] src/src/harness/harness-router.ts:36-43
    What a scope inherits or was set to. *)
Definition inherited_choice (config : View) (orgScopeId scope : ScopeId) (fallback org : RuntimeChoice) : RuntimeChoice :=
  let scopedStored := if scope === orgScopeId then None else config.(v_selection) scope in
  let scopedLegacy := if scope === orgScopeId then None else config.(v_base) scope in
  match stored_choice scopedStored with
  | Some c => c
  | None => match if_truthy scopedLegacy with Some m => MkChoice fallback.(harnessId) m | None => org end
  end.
Definition asks (requested : option Requested) : bool :=
  match requested with Some r => truthy_opt r.(req_harness) || truthy_opt r.(req_model) | None => false end.
(** [resolveRuntimeChoice] src/src/harness/harness-router.ts:12-54 *)
Definition resolveRuntimeChoice (config : View) (orgScopeId scope : ScopeId) (fallback : RuntimeChoice) (requested : option Requested) : result string RuntimeChoice :=
  let approved := config.(v_approved) ?? [fallback.(harnessId)] in
  let org := org_choice config orgScopeId fallback approved in
  let inherited := inherited_choice config orgScopeId scope fallback org in
  let choice :=
    match requested with
    | Some r => if asks requested then MkChoice (r.(req_harness) ?? inherited.(harnessId)) (r.(req_model) ?? inherited.(modelId)) else inherited
    | None => inherited
    end in
  if negb (fits approved choice) then
    if asks requested then Throw ("runtime " +:+ choice.(harnessId) +:+ "/" +:+ choice.(modelId) +:+ " is not approved") else Ok org
  else Ok choice.
(** [resolveRuntimeChoiceDurable] src/src/harness/harness-router.ts:56-83
    The rows that are read are arguments; those of a scope that is the organisation are not. *)
Definition resolveRuntimeChoiceDurable (approved : option (list string)) (orgStored scopedStored : option ScopedRuntimeSelection) (orgLegacy scopedLegacy : option string)
    (orgScopeId scope : ScopeId) (fallback : RuntimeChoice) (requested : option Requested) : result string RuntimeChoice :=
  let approved := approved ?? [fallback.(harnessId)] in
  let scopedStored := if scope === orgScopeId then None else scopedStored in
  let scopedLegacy := if scope === orgScopeId then None else scopedLegacy in
  let view := MkView (Some approved)
    (fun id => if id === orgScopeId then orgStored else if id === scope then scopedStored else None)
    (fun id => if id === orgScopeId then orgLegacy else if id === scope then scopedLegacy else None) in
  resolveRuntimeChoice view orgScopeId scope fallback requested.
End choice.

(** ** The router *)

(** What is asked of a harness. *)
Inductive HarnessCall := hc_reset (harness session : string) | hc_turn (harness session model : string) | hc_close (harness : string).
(** What is there of a harness. *)
Record Adapter := MkAdapter { has_reset : bool; has_close : bool }.
Record Router := MkRouter { adapters : jsmap string Adapter; lastHarness : jsmap string string; asked : list HarnessCall }.
#[export] Instance Router_eta : Eta Router := fun r => MkRouter r.(adapters) r.(lastHarness) r.(asked).

Section router.
(** What comes of an operation of a harness. *)
Variables (answer : HarnessCall -> Router -> result string string).
Abbreviation call := (call Router string).
(** Harnesses are asked in one stretch, after a change of the state; what the first failure is. *)
Definition ask_all (f : Router -> Router) (calls : Router -> list HarnessCall) : call (list string) :=
  r ← await (fun s => let s := f s in
                      let cs := calls s in
                      Some (map (fun c => answer c s) cs, s <| asked := (s.(asked) ++ cs)%list |>));
  match find (fun r => negb (is_ok r)) (r : list (result string string)) with
  | Some (Throw e) => Raise e
  | _ => mret (omap (fun r => match r with Ok x => Some x | Throw _ => None end) r)
  end.
(** [resetSession?.()] of a harness that may not be there, and may not have it. *)
Definition resets (h session : string) (s : Router) : list HarnessCall :=
  match s.(adapters) !! h with Some a => if has_reset a then [hc_reset h session] else [] | None => [] end.
(** [runTurn] src/src/harness/harness-router.ts:95-106
    When the choice has been resolved. *)
Definition runTurn (session : string) (choice : RuntimeChoice) : call (list string) :=
  x ← await (fun s => Some ((s.(adapters) !! choice.(harnessId), s.(lastHarness) !! session), s));
  let '(a, prior) := (x : option Adapter * option string) in
  match a with
  | None => Raise ("harness " +:+ choice.(harnessId) +:+ " is unavailable")
  | Some _ =>
      _ ← match if_truthy prior with
          | Some p =>
              if p !== choice.(harnessId) then
                _ ← ask_all (fun s => s) (resets p session);
                _ ← ask_all (fun s => s) (resets choice.(harnessId) session);
                mret tt
              else mret tt
          | None => mret tt
          end;
      ask_all (fun s => s <| lastHarness := <[session := choice.(harnessId)]> s.(lastHarness) |>)
        (fun _ => [hc_turn choice.(harnessId) session choice.(modelId)])
  end.
(** [resetSession] src/src/harness/harness-router.ts:107-110 *)
Definition resetSession (session : string) : call unit :=
  _ ← ask_all (fun s => s <| lastHarness := delete session s.(lastHarness) |>) (fun s => concat (map (fun h => resets h session s) (keys s.(adapters))));
  mret tt.
(** [close] src/src/harness/harness-router.ts:111-113 *)
Definition close : call unit :=
  _ ← ask_all (fun s => s) (fun s => omap (fun ha => if has_close ha.2 then Some (hc_close ha.1) else None) (entries s.(adapters)));
  mret tt.
End router.

(** ** What a turn runs is approved *)

Section approved.
Context (getModel : string -> string -> option PiModel).
Abbreviation supported := (fun m h => modelSupportedByHarness getModel (Some m) h).

(** The model a known harness falls back to is one it can run, when the catalogue has the
    default of the agent. *)
Lemma default_supported h configured : isHarnessId h = true -> is_Some (resolveModel getModel DEFAULT_AGENT_MODEL_ID) ->
  supported (defaultModelForHarness getModel h configured None) h = true.
Proof.
  intros Hh [m Hm]. unfold defaultModelForHarness. destruct (if modelSupportedByHarness getModel configured h then configured else None) as [c|] eqn:Ec.
  { destruct (modelSupportedByHarness getModel configured h) eqn:Es; [by subst|done]. }
  clear Ec. apply bool_decide_eq_true in Hh. unfold HARNESS_IDS in Hh. set_unfold in Hh.
  assert (Hd : is_some (resolveModel getModel DEFAULT_AGENT_MODEL_ID) = true) by (by rewrite Hm).
  destruct Hh as [->|[->|[->|[->|[->|[->|[]]]]]]]; [exact Hd|exact Hd| | |reflexivity|exact Hd].
  - change ((provider_of getModel DEFAULT_CODEX_MODEL_ID === Some "openai") || true || false || false || false = true). by rewrite orb_true_r.
  - change ((provider_of getModel DEFAULT_AGENT_MODEL_ID === Some "anthropic") || true = true). by rewrite orb_true_r.
Qed.
Lemma fits_spec approved c : fits getModel approved c = true <-> c.(harnessId) ∈ approved /\ supported c.(modelId) c.(harnessId) = true.
Proof. unfold fits. rewrite andb_true_iff. unfold includes. by rewrite bool_decide_eq_true. Qed.
Lemma org_choice_fits config orgScopeId fallback approved :
  (exists h, h ∈ approved /\ isHarnessId h = true) -> is_Some (resolveModel getModel DEFAULT_AGENT_MODEL_ID) ->
  fits getModel approved (org_choice getModel config orgScopeId fallback approved) = true.
Proof.
  intros (h & Hin & Hh) Hd. unfold org_choice. cbv zeta. destruct (fits getModel approved (_ ?? _)) eqn:E; [done|].
  destruct (fits getModel approved fallback) eqn:Ef; [done|]. destruct (find isHarnessId approved) as [f|] eqn:Ei.
  - apply find_Some in Ei as [Hf Hi]. apply fits_spec. cbn [harnessId modelId from_option default]. split; [done|]. by apply default_supported.
  - exfalso. pose proof (proj1 (find_None _ _) Ei h Hin). congruence.
Qed.

(** A turn runs on a harness the organisation approved, with a model that harness can run.
    When some approved harness is known, as the setting of approved harnesses demands, and the
    catalogue has the agent's default model: whatever the organisation and the scope are set
    to, and whatever the deployment falls back to, a choice that is answered names an approved
    harness and a model it can run, and is what the request asked for, where it asked.  It is
    refused only when a request asked for something that does not fit; with nothing asked there
    is always an answer. *)
Theorem runtime_approved config orgScopeId scope fallback requested :
  let approved := config.(v_approved) ?? [fallback.(harnessId)] in
  (exists h, h ∈ approved /\ isHarnessId h = true) ->
  is_Some (resolveModel getModel DEFAULT_AGENT_MODEL_ID) ->
  match resolveRuntimeChoice getModel config orgScopeId scope fallback requested with
  | Ok c =>
      c.(harnessId) ∈ approved /\ supported c.(modelId) c.(harnessId) = true /\
      (asks requested = true -> forall r, requested = Some r ->
         (forall h, r.(req_harness) = Some h -> c.(harnessId) = h) /\ (forall m, r.(req_model) = Some m -> c.(modelId) = m))
  | Throw _ =>
      asks requested = true /\ exists r c, requested = Some r /\ fits getModel approved c = false /\
        (forall h, r.(req_harness) = Some h -> c.(harnessId) = h) /\ (forall m, r.(req_model) = Some m -> c.(modelId) = m)
  end.
Proof.
  intros approved Ha Hd. unfold resolveRuntimeChoice. cbv zeta. fold approved. set (org := org_choice _ _ _ _ _). set (inh := inherited_choice _ _ _ _ _).
  pose proof (org_choice_fits config orgScopeId fallback approved Ha Hd) as Ho. fold org in Ho.
  destruct requested as [r|].
  - destruct (asks (Some r)) eqn:Er.
    + set (c := MkChoice _ _). assert (Hc : (forall h, r.(req_harness) = Some h -> c.(harnessId) = h) /\ (forall m, r.(req_model) = Some m -> c.(modelId) = m)).
      { split; intros x Hx; unfold c; cbn; by rewrite Hx. }
      destruct (fits getModel approved c) eqn:Ef; cbn [negb]; [|by eauto 6].
      apply fits_spec in Ef as [? ?]. split_and!; [done|done|]. by intros _ r' [= <-].
    + destruct (fits getModel approved inh) eqn:Ef; cbn [negb]; [apply fits_spec in Ef as [? ?]|apply fits_spec in Ho as [? ?]]; by split_and!.
  - cbn [asks]. destruct (fits getModel approved inh) eqn:Ef; cbn [negb]; [apply fits_spec in Ef as [? ?]|apply fits_spec in Ho as [? ?]]; by split_and!.
Qed.

(** The rows of the configuration give the choice that the configuration would. *)
Lemma durable_choice config orgScopeId scope fallback requested :
  resolveRuntimeChoiceDurable getModel config.(v_approved) (config.(v_selection) orgScopeId) (config.(v_selection) scope)
    (config.(v_base) orgScopeId) (config.(v_base) scope) orgScopeId scope fallback requested =
  resolveRuntimeChoice getModel config orgScopeId scope fallback requested.
Proof.
  unfold resolveRuntimeChoiceDurable, resolveRuntimeChoice. cbn [v_approved]. set (approved := _ ?? [_]). change (Some approved ?? _) with approved.
  set (view := MkView _ _ _).
  assert (Eo : org_choice getModel view orgScopeId fallback approved = org_choice getModel config orgScopeId fallback approved).
  { unfold org_choice, view. cbn [v_selection v_base]. by rewrite !eqb_refl. }
  rewrite Eo. assert (Ei : forall o, inherited_choice view orgScopeId scope fallback o = inherited_choice config orgScopeId scope fallback o).
  { intros o. unfold inherited_choice, view. cbn [v_selection v_base]. destruct (scope === orgScopeId) eqn:Es; [done|]. by rewrite eqb_refl. }
  by rewrite Ei.
Qed.
End approved.

(** ** A session that changes its harness *)

Lemma run_ask_all answer t f calls s r s' : Async.run t (ask_all answer f calls) s = Some (r, s') ->
  s' = (f s) <| asked := ((f s).(asked) ++ calls (f s))%list |>.
Proof.
  unfold ask_all. rewrite run_bind. cbn -[find omap map]. destruct (find _ _) as [[x|e]|]; cbn -[omap map]; by intros [= _ <-].
Qed.

(** A turn that follows one on another harness resets the session on both before it runs. *)
Lemma switch_resets answer t session c p s r s' :
  s.(lastHarness) !! session = Some p -> p <> c.(harnessId) -> p <> "" ->
  Async.run t (runTurn answer session c) s = Some (Ok r, s') ->
  s'.(asked) = (s.(asked) ++ resets p session s ++ resets c.(harnessId) session s ++ [hc_turn c.(harnessId) session c.(modelId)])%list /\
  s'.(lastHarness) !! session = Some c.(harnessId).
Proof.
  intros Hp Hne Hpe. unfold runTurn. rewrite run_bind. cbn [Async.run await]. destruct (adapters s !! harnessId c) as [a|]; [|done].
  rewrite Hp. rewrite (proj2 (if_truthy_Some (Some p) p) (conj eq_refl Hpe)), (bool_decide_eq_false_2 _ Hne). cbn [negb].
  rewrite !run_bind. destruct (Async.run t (ask_all answer (fun s => s) (resets p session)) s) as [[[x1|e] s1]|] eqn:E1; [|done..]. apply run_ask_all in E1 as ->.
  rewrite run_bind. destruct (Async.run t (ask_all answer (fun s => s) (resets c.(harnessId) session)) _) as [[[x2|e] s2]|] eqn:E2; [|done..]. apply run_ask_all in E2 as ->.
  cbn [mret call_ret Async.run]. intros H%run_ask_all. subst s'. cbn. split; [by rewrite <- !app_assoc|apply lookup_set_eq].
Qed.

(** ** Witnesses *)

Definition demo_catalogue (provider id : string) : option PiModel :=
  if (provider === "anthropic") && starts_with id "claude-" then Some (MkModel id id provider None None 0 0 0 0) else None.
(** Only [pi] is approved; the scope was set to [codex] before. *)
Definition demo_view : View :=
  MkView (Some ["pi"]) (fun sc => if sc === "channel:C1" then Some (MkScoped (MkSelection "codex" "gpt-5.6-sol") 0 None) else None) (fun _ => None).
Lemma runtime_approved_witness :
  match resolveRuntimeChoice demo_catalogue demo_view "org:acme" "channel:C1" (MkChoice "claude" "claude-opus-5") None with
  | Ok c => c = MkChoice "pi" DEFAULT_AGENT_MODEL_ID /\ c.(harnessId) ∈ ["pi"]
  | Throw _ => False
  end.
Proof.
  pose proof (runtime_approved demo_catalogue demo_view "org:acme" "channel:C1" (MkChoice "claude" "claude-opus-5") None) as H.
  cbv zeta in H. specialize (H ltac:(exists "pi"; split; [apply list_elem_of_here|reflexivity]) ltac:(eexists; vm_compute; reflexivity)).
  assert (E : resolveRuntimeChoice demo_catalogue demo_view "org:acme" "channel:C1" (MkChoice "claude" "claude-opus-5") None = Ok (MkChoice "pi" DEFAULT_AGENT_MODEL_ID))
    by (vm_compute; reflexivity).
  rewrite E in *. split; [reflexivity|]. exact (proj1 H).
Defined.
