(* ===== verification/Files.v ===== *)
(** * File artifacts

    The files a conversation brings in and puts out ([src/src/files/file-artifact-store.ts]),
    their bytes ([src/src/files/durable-byte-store.ts], in memory, with [collectBytes] of
    [src/src/util/bytes.ts]) and the listing by pages.  A call is cut at its awaits.  SHA-256,
    base64 and the chunks a source yields are the host's; bytes are code units. *)

From S2P Require Import Prelude JsString Scope Async.

#[local] Open Scope string_scope.
#[local] Open Scope Z_scope.

(** ** Bytes *)

(** The chunks a source yields, and whether it fails after them. *)
Record ByteSource := MkSource { chunks : list string; broken : option string }.
(** [ByteSourceTooLargeError] src/src/files/durable-byte-store.ts:34-39 *)
Definition too_large : string := "file exceeds the size limit".

Section bytes.
Variable sha256 : string -> string.
(** [keyFor] src/src/files/durable-byte-store.ts:42-42 *)
Definition keyFor (sha : string) : string := "files/" +:+ sha.
(** [BLOB_KEY] src/src/files/durable-byte-store.ts:41-41 *)
Definition BLOB_KEY (k : string) : bool :=
  starts_with k "files/" && (let s := str_drop 6 k in Nat.eqb (String.length s) 64 && str_every (fun c => is_digit c || in_range 97 102 c) s).
(** [collectBytes] src/src/util/bytes.ts:19-36
    The loop over the chunks; [size] is what came so far. *)
Fixpoint collect_chunks (maxBytes : option Z) (size : Z) (l : list string) (broken : option string) : result string string :=
  match l with
  | [] => match broken with Some e => Throw e | None => Ok "" end
  | c :: l =>
      let size := size + str_len c in
      if match maxBytes with Some m => size >? m | None => false end then Throw too_large
      else match collect_chunks maxBytes size l broken with Ok d => Ok (c +:+ d) | Throw e => Throw e end
  end.
(** [collect] src/src/files/durable-byte-store.ts:44-49 *)
Definition collectBytes (source : ByteSource) (maxBytes : option Z) : result string string := collect_chunks maxBytes 0 source.(chunks) source.(broken).
(** [put] src/src/files/durable-byte-store.ts:54-59
    What is stored when the bytes are there; the bytes under a key do not change. *)
Definition put_bytes (data : string) (blobs : jsmap string string) : jsmap string string :=
  let k := keyFor (sha256 data) in if has k blobs then blobs else <[k := data]> blobs.

(** ** Artifacts *)

Inductive FileDirection := f_in | f_out.
#[export] Instance FileDirection_eq_dec : EqDecision FileDirection.
Proof. solve_decision. Defined.
Inductive FileSource := live | backfill.
#[export] Instance FileSource_eq_dec : EqDecision FileSource.
Proof. solve_decision. Defined.
(** [FileArtifact] src/src/files/file-artifact-store.ts:15-31 *)
Record FileArtifact := MkFile {
  f_id : string;
  f_owner : ScopeId;
  f_createdBy : string;
  f_name : string;
  f_path : string;
  f_mimetype : string;
  sizeBytes : Z;
  blobKey : option string;
  f_sha256 : option string;
  direction : FileDirection;
  f_source : FileSource;
  f_createdInScope : option ScopeId;
  f_createdAt : Z;
  f_updatedAt : Z;
  enabled : bool;
}.
#[export] Instance FileArtifact_eq_dec : EqDecision FileArtifact.
Proof. solve_decision. Defined.
#[export] Instance FileArtifact_eta : Eta FileArtifact := fun f =>
  MkFile f.(f_id) f.(f_owner) f.(f_createdBy) f.(f_name) f.(f_path) f.(f_mimetype) f.(sizeBytes) f.(blobKey) f.(f_sha256) f.(direction) f.(f_source)
    f.(f_createdInScope) f.(f_createdAt) f.(f_updatedAt) f.(enabled).
(** [PutFileInput] src/src/files/file-artifact-store.ts:33-45 *)
Record PutFileInput := MkPut {
  p_id : string; p_owner : ScopeId; p_createdBy : string; p_name : string; p_path : string; p_mimetype : string; p_data : ByteSource;
  p_direction : FileDirection; p_createdInScope : option ScopeId; p_createdAt : option Z; p_maxBytes : option Z }.
(** [ListOwnedOptions] src/src/files/file-artifact-store.ts:52-57 *)
Record ListOwnedOptions := MkListing { l_limit : option Z; l_cursor : option string; l_includeDisabled : bool; l_createdInScope : option ScopeId }.
(** [FilePage] src/src/files/file-artifact-store.ts:47-50 *)
Record FilePage := MkPage { files : list FileArtifact; nextCursor : option string }.

(** [fileArtifactId] src/src/files/file-artifact-store.ts:75-77 *)
Definition fileArtifactId (seed : string) (d : FileDirection) (batchIndex : Z) : string :=
  str_take 32 (sha256 (seed +:+ ":" +:+ (match d with f_in => "in" | f_out => "out" end) +:+ ":" +:+ pretty.pretty batchIndex)).

Record Shelf := MkShelf { rows : jsmap string FileArtifact; blobs : jsmap string string }.
#[export] Instance Shelf_eta : Eta Shelf := fun s => MkShelf s.(rows) s.(blobs).
Abbreviation call := (call Shelf string).

(** [put] src/src/files/file-artifact-store.ts:109-136 *)
Definition put (i : PutFileInput) : call (FileArtifact * bool) :=
  e ← await (fun s => Some (s.(rows) !! i.(p_id), s));
  match (e : option FileArtifact) with
  | Some existing => mret (existing, false)
  | None =>
      data ← lift (collectBytes i.(p_data) i.(p_maxBytes));
      _ ← await (fun s => Some (tt, s <| blobs := put_bytes data s.(blobs) |>));
      t ← match i.(p_createdAt) with Some t => mret t | None => now end;
      let sha := sha256 data in
      let artifact := MkFile i.(p_id) i.(p_owner) i.(p_createdBy) i.(p_name) i.(p_path) i.(p_mimetype) (str_len data) (Some (keyFor sha)) (Some sha)
                        i.(p_direction) live (if_truthy i.(p_createdInScope)) t t true in
      _ ← await (fun s => Some (tt, s <| rows := <[i.(p_id) := artifact]> s.(rows) |>));
      mret (artifact, true)
  end.
(** [get] src/src/files/file-artifact-store.ts:138-143 *)
Definition get (id : string) (includeDisabled : bool) (s : Shelf) : option FileArtifact :=
  match s.(rows) !! id with
  | Some r => if negb r.(enabled) && negb includeDisabled then None else Some r
  | None => None
  end.
(** [open] src/src/files/file-artifact-store.ts:145-151 *)
Definition open (id : string) : call (option (FileArtifact * string)) :=
  r ← await (fun s => Some (s.(rows) !! id, s));
  match (r : option FileArtifact) with
  | Some r =>
      match (if enabled r then if_truthy r.(blobKey) else None) with
      | Some k => b ← await (fun s => Some (s.(blobs) !! k, s)); mret ((fun d => (r, d)) <$> (b : option string))
      | None => mret None
      end
  | None => mret None
  end.
(** [resolveByOwnerPaths] src/src/files/file-artifact-store.ts:167-171 *)
Definition resolveByOwnerPaths (refs : list (ScopeId * string)) (s : Shelf) : list FileArtifact :=
  let key (sc path : string) := sc +:+ String "000" path in
  js_filter (fun r => r.(enabled) && includes (map (fun x => key x.1 x.2) refs) (key r.(f_owner) r.(f_path))) (values s.(rows)).
(** [setEnabled] src/src/files/file-artifact-store.ts:173-176 *)
Definition setEnabled (id : string) (on : bool) : call unit :=
  t ← now;
  await (fun s => Some (tt, match s.(rows) !! id with
                            | Some r => s <| rows := <[id := r <| enabled := on |> <| f_updatedAt := t |>]> s.(rows) |>
                            | None => s
                            end)).
(** [delete] src/src/files/file-artifact-store.ts:178-180 *)
Definition remove (id : string) : call unit := await (fun s => Some (tt, s <| rows := delete id s.(rows) |>)).
End bytes.

(** ** Pages *)

Section pages.
(** [Buffer.from(text, "utf8").toString("base64url")] and the way back. *)
Variables (b64url unb64url : string -> string).

(** [DEFAULT_LIMIT] src/src/files/file-artifact-store.ts:79-79 *)
Definition DEFAULT_LIMIT : Z := 50.
(** [MAX_LIMIT] src/src/files/file-artifact-store.ts:80-80 *)
Definition MAX_LIMIT : Z := 200.
(** [clampLimit] src/src/files/file-artifact-store.ts:100-103 *)
Definition clampLimit (limit : option Z) : Z :=
  match limit with Some l => if l <=? 0 then DEFAULT_LIMIT else Z.min l MAX_LIMIT | None => DEFAULT_LIMIT end.
(** [idOrderDesc] src/src/files/file-artifact-store.ts:6-10 *)
Definition idOrderDesc (a b : string) : Z := if str_ltb a b then 1 else if str_ltb b a then -1 else 0.
Definition place (a : FileArtifact) : Z * string := (a.(f_createdAt), a.(f_id)).
(** [encodeCursor] src/src/files/file-artifact-store.ts:82-84 *)
Definition encodeCursor (a : FileArtifact) : string := b64url (pretty.pretty a.(f_createdAt) +:+ "|" +:+ a.(f_id)).
(** [decodeCursor] src/src/files/file-artifact-store.ts:85-94 *)
Definition decodeCursor (cursor : string) : option (Z * string) :=
  match split_on "|"%char (unb64url cursor) with
  | at_ :: id :: _ => (fun t => (t, id)) <$> js_integer at_
  | _ => None
  end.
(** [afterCursor] src/src/files/file-artifact-store.ts:96-98 *)
Definition afterCursor (a c : Z * string) : bool := (a.1 <? c.1) || ((a.1 === c.1) && str_ltb a.2 c.2).
(** [listOwnedByScopes] src/src/files/file-artifact-store.ts:161-161 *)
Definition newest_first (a b : FileArtifact) : Z :=
  if b.(f_createdAt) - a.(f_createdAt) === 0 then idOrderDesc a.(f_id) b.(f_id) else b.(f_createdAt) - a.(f_createdAt).
(** [listOwnedByScopes] src/src/files/file-artifact-store.ts:158-159 *)
Definition listed (scopes : list ScopeId) (o : ListOwnedOptions) (r : FileArtifact) : bool :=
  includes scopes r.(f_owner) && (o.(l_includeDisabled) || r.(enabled)) && match o.(l_createdInScope) with Some sc => r.(f_createdInScope) === Some sc | None => true end.
(** [listOwnedByScopes] src/src/files/file-artifact-store.ts:156-161 *)
Definition all_listed (scopes : list ScopeId) (o : ListOwnedOptions) (m : jsmap string FileArtifact) : list FileArtifact :=
  let cursor := match if_truthy o.(l_cursor) with Some c => decodeCursor c | None => None end in
  js_sort newest_first
    (js_filter (fun r => match cursor with Some c => afterCursor (place r) c | None => true end) (js_filter (listed scopes o) (values m))).
(** [listOwnedByScopes] src/src/files/file-artifact-store.ts:153-165 *)
Definition listOwnedByScopes (scopes : list ScopeId) (o : ListOwnedOptions) (m : jsmap string FileArtifact) : FilePage :=
  let limit := clampLimit o.(l_limit) in
  let all := all_listed scopes o m in
  let page := take (Z.to_nat limit) all in
  MkPage page (if Z.of_nat (length all) >? limit then if_truthy (encodeCursor <$> last page) else None).
End pages.

(** ** What the pages show *)

Section listing.
Context (b64url unb64url : string -> string) (codec : forall s, unb64url (b64url s) = s) (codec_empty : unb64url "" = "").
Implicit Types (r : FileArtifact) (m : jsmap string FileArtifact).
Abbreviation listOwnedByScopes := (listOwnedByScopes b64url unb64url).
Abbreviation all_listed := (all_listed unb64url).

(** Rows are kept under their identifiers, which have no bar in them. *)
Definition rows_ok m : Prop := forall k r, m !! k = Some r -> r.(f_id) = k /\ str_every (fun c => c !== "|"%char) k = true.

Lemma bar_split (n : Z) id : str_every (fun c => c !== "|"%char) id = true -> split_on "|"%char (pretty.pretty n +:+ "|" +:+ id) = [pretty.pretty n; id].
Proof.
  intros H. change ("|" +:+ id) with (String "|"%char id). rewrite split_on_last, (split_on_none _ id H), (split_on_none _ (pretty.pretty n)); [done|].
  apply pretty_every; [|done|done]. intros m Hm. destruct (digit_char m Hm) as [Hd _].
  destruct (pretty.pretty_N_char m === "|"%char) eqn:E; [|done]. apply bool_decide_eq_true in E. rewrite E in Hd. done.
Qed.
Lemma cursor_roundtrip a : str_every (fun c => c !== "|"%char) a.(f_id) = true ->
  if_truthy (Some (encodeCursor b64url a)) = Some (encodeCursor b64url a) /\ decodeCursor unb64url (encodeCursor b64url a) = Some (place a).
Proof.
  intros H. unfold encodeCursor, decodeCursor. split.
  - apply if_truthy_Some. split; [done|]. intros E. pose proof (codec (pretty.pretty a.(f_createdAt) +:+ "|" +:+ a.(f_id))) as Hc. rewrite E, codec_empty in Hc.
    destruct (pretty.pretty a.(f_createdAt)); discriminate Hc.
  - rewrite codec, bar_split by done. by rewrite js_integer_pretty.
Qed.

Lemma ltb_irrefl s : str_ltb s s = false.
Proof. unfold str_ltb, String.ltb. by rewrite str_compare_refl. Qed.
Lemma ltb_trans (a b c : string) : str_ltb a b = true -> str_ltb b c = true -> str_ltb a c = true.
Proof.
  unfold str_ltb, String.ltb. destruct (String.compare a b) eqn:E1; [done| |done]. destruct (String.compare b c) eqn:E2; [done| |done].
  by rewrite (str_compare_trans _ _ _ E1 E2).
Qed.
Lemma after_irrefl c : afterCursor c c = false.
Proof. unfold afterCursor. by rewrite Z.ltb_irrefl, ltb_irrefl, andb_false_r. Qed.
Lemma after_trans (a b c : Z * string) : afterCursor a b = true -> afterCursor b c = true -> afterCursor a c = true.
Proof.
  unfold afterCursor. rewrite !orb_true_iff, !andb_true_iff, !Z.ltb_lt, !bool_decide_eq_true.
  intros [?|[E1 H1]] [?|[E2 H2]]; [left; lia|left; lia|left; lia|]. right. split; [congruence|]. by eapply ltb_trans.
Qed.
Lemma after_asym (a b : Z * string) : afterCursor a b = true -> afterCursor b a = false.
Proof. intros H. destruct (afterCursor b a) eqn:E; [|done]. pose proof (after_trans a b a H E) as Hi. by rewrite after_irrefl in Hi. Qed.

#[local] Instance newest_first_order : Comparator newest_first.
Proof.
  assert (Hi : forall a b, idOrderDesc a b = str_cmp b a).
  { intros a b. unfold idOrderDesc, str_cmp, str_ltb, String.ltb. rewrite (String.compare_antisym b a). by destruct (String.compare a b). }
  destruct (comparator_str (fun x : string => x)) as [Ht Htr]. split; unfold newest_first.
  - intros x y. rewrite !Hi. destruct (Ht (f_id y) (f_id x)); repeat case_bool_decide; simpl; lia.
  - intros x y z. rewrite !Hi. specialize (Htr (f_id z) (f_id y) (f_id x)). repeat case_bool_decide; simpl; lia.
Qed.
Lemma newest_after a b : a.(f_id) <> b.(f_id) -> newest_first a b <= 0 -> afterCursor (place b) (place a) = true.
Proof.
  intros Hne. unfold newest_first, afterCursor, place, idOrderDesc. cbn [fst snd]. rewrite orb_true_iff, andb_true_iff, Z.ltb_lt, bool_decide_eq_true.
  case_bool_decide; [|left; lia]. intros H'. right. split; [lia|]. destruct (str_ltb (f_id a) (f_id b)) eqn:E1; [lia|].
  destruct (str_ltb (f_id b) (f_id a)) eqn:E2; [done|]. exfalso. apply Hne, str_cmp_eq. unfold str_cmp. by rewrite E1, E2.
Qed.

Lemma ids_once m : rows_ok m -> NoDup (map f_id (values m)).
Proof.
  intros H. pose proof (keys_NoDup m) as Hk. unfold keys, values in *. replace (map f_id (entries m).*2) with (entries m).*1; [done|].
  assert (Hall : forall kv, kv ∈ entries m -> f_id kv.2 = kv.1) by (intros [k r] Hin%elem_of_entries; by apply H).
  clear Hk. induction (entries m) as [|kv l IH]; [done|]. rewrite !fmap_cons. simpl. rewrite (Hall kv) by apply list_elem_of_here. f_equal.
  apply IH. intros kv' ?. apply Hall. by apply list_elem_of_further.
Qed.
(** The rows past a cursor that are asked for. *)
Definition past (cursor : option (Z * string)) (r : FileArtifact) : bool := match cursor with Some c => afterCursor (place r) c | None => true end.
Definition cursor_of (o : ListOwnedOptions) : option (Z * string) := match if_truthy o.(l_cursor) with Some c => decodeCursor unb64url c | None => None end.
Lemma elem_of_listed scopes o m r : r ∈ all_listed scopes o m <-> r ∈ values m /\ listed scopes o r = true /\ past (cursor_of o) r = true.
Proof. unfold all_listed. rewrite elem_of_js_sort, !elem_of_js_filter. unfold past, cursor_of. tauto. Qed.
Lemma listed_once scopes o m : rows_ok m -> NoDup (map f_id (all_listed scopes o m)).
Proof.
  intros H. unfold all_listed. rewrite js_sort_perm. eapply sublist_NoDup; [|apply map_sublist, js_filter_sublist].
  eapply sublist_NoDup; [|apply map_sublist, js_filter_sublist]. by apply ids_once.
Qed.

(** The listing is in order, strictly. *)
Lemma all_sorted scopes o m : rows_ok m -> StronglySorted (fun a b => afterCursor (place b) (place a) = true) (all_listed scopes o m).
Proof.
  intros H. pose proof (listed_once scopes o m H) as Hn. unfold all_listed in *. pose proof (js_sort_sorted newest_first (js_filter (past (cursor_of o)) (js_filter (listed scopes o) (values m)))) as Hs.
  change (js_filter (fun r => match _ with Some c => _ | None => true end) ?l) with (js_filter (past (cursor_of o)) l) in *.
  revert Hs Hn. generalize (js_sort newest_first (js_filter (past (cursor_of o)) (js_filter (listed scopes o) (values m)))). intros l Hs Hn.
  induction Hs as [|x l Hs IH Hx]; [constructor|]. simpl in Hn. apply NoDup_cons in Hn as [Hni Hn]. constructor; [by apply IH|].
  rewrite Forall_forall in *. intros y Hy. apply newest_after; [|by apply Hx]. intros E. apply Hni. rewrite E. by apply list_elem_of_fmap_2.
Qed.
(** One page: what it holds comes before what it leaves, and its cursor says where to go on. *)
Lemma page_split scopes o m : rows_ok m ->
  let p := listOwnedByScopes scopes o m in
  exists rest, all_listed scopes o m = (p.(files) ++ rest)%list /\ Z.of_nat (length p.(files)) <= clampLimit o.(l_limit) /\
    match p.(nextCursor) with
    | None => rest = []
    | Some c => exists z, z ∈ p.(files) /\ if_truthy (Some c) = Some c /\ decodeCursor unb64url c = Some (place z) /\
                  (forall x, x ∈ p.(files) -> x = z \/ afterCursor (place z) (place x) = true) /\ (forall x, x ∈ rest -> afterCursor (place x) (place z) = true)
    end.
Proof.
  intros H. unfold listOwnedByScopes. cbn [files nextCursor]. set (all := all_listed scopes o m). set (n := Z.to_nat (clampLimit (l_limit o))).
  assert (Hlim : 0 < clampLimit (l_limit o)).
  { unfold clampLimit, DEFAULT_LIMIT, MAX_LIMIT. destruct (l_limit o) as [l|]; [|lia]. destruct (Z.leb_spec l 0); lia. }
  exists (drop n all). split; [by rewrite take_drop|]. split; [rewrite length_take; lia|].
  destruct (Z.of_nat (length all) >? clampLimit (l_limit o)) eqn:E.
  - rewrite Z.gtb_lt in E. destruct (last (take n all)) as [z|] eqn:Ez; [|apply last_None in Ez; apply (f_equal length) in Ez; rewrite length_take in Ez; cbn in Ez; lia].
    assert (Hz : z ∈ take n all) by (by apply last_Some_elem_of).
    assert (Hbar : str_every (fun c => c !== "|"%char) (f_id z) = true).
    { assert (z ∈ all) as Hin by (rewrite <- (take_drop n all); apply elem_of_app; by left). apply elem_of_listed in Hin as [Hv _].
      apply elem_of_values in Hv as [k Hk]. destruct (H k z Hk) as [-> ?]. done. }
    destruct (cursor_roundtrip z Hbar) as [Ht Hd]. cbn [fmap option_fmap option_map]. rewrite Ht. exists z. split_and!; [done|done|done|..].
    + intros x Hx. pose proof (all_sorted scopes o m H) as Hs. fold all in Hs. rewrite <- (take_drop n all) in Hs.
      apply StronglySorted_app in Hs as (_ & Hs & _). apply last_Some in Ez as [l' El]. rewrite El in Hx, Hs.
      apply StronglySorted_app in Hs as (Hs & _). apply elem_of_app in Hx as [Hx| ->%list_elem_of_singleton]; [|by left]. right. apply Hs; [done|by apply list_elem_of_singleton].
    + intros x Hx. pose proof (all_sorted scopes o m H) as Hs. fold all in Hs. rewrite <- (take_drop n all) in Hs. apply StronglySorted_app in Hs as (Hs & _). by apply Hs.
  - assert (length all <= n)%nat by lia. cbn. by apply drop_ge.
Qed.

(** *** From page to page *)

Section walking.
Context (scopes : list ScopeId) (o : ListOwnedOptions).
Abbreviation earlier := (fun x y => afterCursor (place y) (place x) = true).
Definition from_cursor (c : option string) : ListOwnedOptions := MkListing o.(l_limit) c o.(l_includeDisabled) o.(l_createdInScope).
(** Pages are asked for one after the other, each with the cursor of the one before, while the
    rows may be others each time; whether the last page was reached. *)
Fixpoint walk (ms : list (jsmap string FileArtifact)) (c : option string) : list (list FileArtifact) * bool :=
  match ms with
  | [] => ([], false)
  | m :: ms =>
      let p := listOwnedByScopes scopes (from_cursor c) m in
      match p.(nextCursor) with
      | None => ([p.(files)], true)
      | Some c => let '(ps, finished) := walk ms (Some c) in (p.(files) :: ps, finished)
      end
  end.

Lemma past_later c z x : past (cursor_of (from_cursor c)) z = true -> afterCursor (place x) (place z) = true -> past (cursor_of (from_cursor c)) x = true.
Proof. unfold past. destruct (cursor_of _) as [k|]; [|done]. intros H1 H2. by eapply after_trans. Qed.
Lemma from_cursor_at c z : if_truthy (Some c) = Some c -> decodeCursor unb64url c = Some (place z) -> cursor_of (from_cursor (Some c)) = Some (place z).
Proof. intros H1 H2. unfold cursor_of. cbn [l_cursor from_cursor]. by rewrite H1. Qed.
Lemma walk_ok ms c : (forall m, m ∈ ms -> rows_ok m) ->
  let '(ps, finished) := walk ms c in
  Forall (fun p => Z.of_nat (length p) <= clampLimit o.(l_limit)) ps /\
  (forall x, x ∈ concat ps -> past (cursor_of (from_cursor c)) x = true /\ exists m, m ∈ ms /\ x ∈ values m /\ listed scopes o x = true) /\
  StronglySorted earlier (concat ps) /\
  (finished = true -> forall r, (forall m, m ∈ ms -> r ∈ values m) -> listed scopes o r = true -> past (cursor_of (from_cursor c)) r = true -> r ∈ concat ps).
Proof.
  revert c. induction ms as [|m ms IH]; intros c Hms; cbn [walk].
  { split_and!; [constructor|by intros x ?%not_elem_of_nil|constructor|done]. }
  assert (Hm : rows_ok m) by apply Hms, list_elem_of_here.
  destruct (page_split scopes (from_cursor c) m Hm) as (rest & Hall & Hlen & Hnext). cbn [l_limit from_cursor] in Hlen.
  set (p := listOwnedByScopes scopes (from_cursor c) m) in *. pose proof (all_sorted scopes (from_cursor c) m Hm) as Hs. rewrite Hall in Hs.
  assert (Hin : forall x, x ∈ files p -> past (cursor_of (from_cursor c)) x = true /\ x ∈ values m /\ listed scopes o x = true).
  { intros x Hx. assert (x ∈ all_listed scopes (from_cursor c) m) as (?&?&?)%elem_of_listed by (rewrite Hall; apply elem_of_app; by left). done. }
  destruct (nextCursor p) as [c'|].
  - destruct Hnext as (z & Hz & Ht & Hd & Hbefore & Hafter). specialize (IH (Some c') ltac:(intros; apply Hms; by apply list_elem_of_further)).
    rewrite (from_cursor_at c' z Ht Hd) in IH. destruct (walk ms (Some c')) as [ps fin]. destruct IH as (Hl & Hi & Hso & Hf). cbn [concat past] in *.
    split_and!.
    + by constructor.
    + intros x [Hx|Hx]%elem_of_app.
      * destruct (Hin x Hx) as (?&?&?). split; [done|]. exists m. split; [apply list_elem_of_here|done].
      * destruct (Hi x Hx) as (Hp & m' & ? & ?). split; [eapply past_later; [by apply (Hin z)|exact Hp]|]. exists m'. split; [by apply list_elem_of_further|done].
    + apply StronglySorted_app. split_and!; [|by apply StronglySorted_app in Hs as (_ & ? & _)|done]. intros x y Hx Hy. destruct (Hi y Hy) as [Hp _].
      destruct (Hbefore x Hx) as [->|Hxz]; [done|]. by eapply after_trans.
    + intros Hfin r Hr Hlr Hpr. assert (r ∈ all_listed scopes (from_cursor c) m) as Hra by (apply elem_of_listed; split_and!; [apply Hr, list_elem_of_here|done|done]).
      rewrite Hall in Hra. apply elem_of_app. apply elem_of_app in Hra as [?|Hra]; [by left|right]. apply Hf; [done| |done|by apply Hafter].
      intros m' Hm'. apply Hr. by apply list_elem_of_further.
  - subst rest. rewrite app_nil_r in Hall, Hs. cbn [concat]. rewrite app_nil_r. split_and!; [by constructor| |done|].
    + intros x Hx. destruct (Hin x Hx) as (?&?&?). split; [done|]. exists m. split; [apply list_elem_of_here|done].
    + intros _ r Hr Hlr Hpr. rewrite <- Hall. apply elem_of_listed. split_and!; [apply Hr, list_elem_of_here|done|done].
Qed.

Lemma rest_listed m c c' z rest : rows_ok m -> let p := listOwnedByScopes scopes (from_cursor c) m in
  all_listed scopes (from_cursor c) m = (p.(files) ++ rest)%list -> z ∈ p.(files) -> cursor_of (from_cursor (Some c')) = Some (place z) ->
  (forall x, x ∈ p.(files) -> x = z \/ afterCursor (place z) (place x) = true) -> (forall x, x ∈ rest -> afterCursor (place x) (place z) = true) ->
  all_listed scopes (from_cursor (Some c')) m = rest.
Proof.
  intros Hm p Hall Hz Hc Hb Ha. pose proof (all_sorted scopes (from_cursor c) m Hm) as Hs. rewrite Hall in Hs.
  assert (Hsub : forall x, x ∈ rest -> x ∈ all_listed scopes (from_cursor c) m) by (intros x Hx; rewrite Hall; apply elem_of_app; by right).
  assert (Hnd : forall l, StronglySorted earlier l -> NoDup l).
  { intros l Hl. induction Hl as [|x l Hl IH Hx]; constructor; [|done]. intros Hin. rewrite Forall_forall in Hx. specialize (Hx x Hin). cbn in Hx. by rewrite after_irrefl in Hx. }
  apply (StronglySorted_unique_strong earlier).
  - intros x y _ _ H1 H2. pose proof (after_asym _ _ H1). congruence.
  - by apply all_sorted.
  - by apply StronglySorted_app in Hs as (_ & _ & ?).
  - apply NoDup_Permutation; [by apply Hnd, all_sorted|apply Hnd; by apply StronglySorted_app in Hs as (_ & _ & ?)|]. intros x. rewrite elem_of_listed. cbn [past]. rewrite Hc. cbn [past]. split.
    + intros (Hv & Hl & Hx). assert (Hxa : x ∈ all_listed scopes (from_cursor c) m).
      { apply elem_of_listed. split_and!; [done|done|]. apply (past_later c z); [|done]. assert (z ∈ all_listed scopes (from_cursor c) m) as (_&_&?)%elem_of_listed by (rewrite Hall; apply elem_of_app; by left). done. }
      rewrite Hall in Hxa. apply elem_of_app in Hxa as [Hxa|?]; [|done]. exfalso. destruct (Hb x Hxa) as [->|H]; [by rewrite after_irrefl in Hx|].
      pose proof (after_asym _ _ H). congruence.
    + intros Hx. specialize (Hsub x Hx). apply elem_of_listed in Hsub as (?&?&_). split_and!; [done|done|by apply Ha].
Qed.
(** On rows that do not change the pages are the listing, and there is a last one. *)
Lemma walk_all m n c : rows_ok m -> (length (all_listed scopes (from_cursor c) m) < n)%nat ->
  let '(ps, finished) := walk (repeat m n) c in finished = true /\ concat ps = all_listed scopes (from_cursor c) m.
Proof.
  intros Hm. revert c. induction n as [|n IH]; intros c Hn; [lia|]. cbn [repeat walk].
  destruct (page_split scopes (from_cursor c) m Hm) as (rest & Hall & Hlen & Hnext). set (p := listOwnedByScopes scopes (from_cursor c) m) in *.
  destruct (nextCursor p) as [c'|].
  - destruct Hnext as (z & Hz & Ht & Hd & Hb & Ha). pose proof (rest_listed m c c' z rest Hm Hall Hz (from_cursor_at c' z Ht Hd) Hb Ha) as Hr.
    specialize (IH (Some c')). rewrite Hr in IH. destruct (walk (repeat m n) (Some c')) as [ps fin]. destruct IH as [-> Hc].
    { rewrite Hall, length_app in Hn. destruct (files p); [by apply not_elem_of_nil in Hz|cbn in Hn; lia]. }
    split; [done|]. cbn [concat]. by rewrite Hc, Hall.
  - subst rest. split; [done|]. cbn [concat]. by rewrite Hall, !app_nil_r.
Qed.

(** C23: Paging through files neither skips nor repeats, though files come and go between the
    pages.  Pages are asked for one after the other, each with the cursor of the one before, the
    rows being any at each time; identifiers have no bar in them, and decoding base64 undoes
    encoding.  No page is over the limit; all the pages one after the other are strictly in
    order, newest first, so no file comes twice; every file in them was there when its page was
    asked for, and is one that was asked for; and when the last page was reached, each such file
    that was there all along came in one of them.  When the rows do not change, the pages are
    the listing, and the last is reached. *)
Theorem files_paged ms :
  (forall m, m ∈ ms -> rows_ok m) ->
  let '(ps, finished) := walk ms None in
  Forall (fun p => Z.of_nat (length p) <= clampLimit o.(l_limit)) ps /\
  StronglySorted (fun x y => afterCursor (place y) (place x) = true) (concat ps) /\
  (forall x, x ∈ concat ps -> exists m, m ∈ ms /\ x ∈ values m /\ listed scopes o x = true) /\
  (finished = true -> forall r, (forall m, m ∈ ms -> r ∈ values m) -> listed scopes o r = true -> r ∈ concat ps) /\
  (forall m n, ms = repeat m n -> (length (all_listed scopes (from_cursor None) m) < n)%nat ->
     finished = true /\ concat ps = all_listed scopes (from_cursor None) m).
Proof.
  intros Hms. pose proof (walk_ok ms None Hms) as H. pose proof (fun m n => walk_all m n None) as Hw.
  destruct (walk ms None) as [ps fin] eqn:E. destruct H as (Hl & Hi & Hs & Hf). split_and!; [done|done|..].
  - intros x Hx. by apply Hi.
  - intros Hfin r Hr Hlr. by apply Hf.
  - intros m n -> Hn. specialize (Hw m n). rewrite E in Hw. apply Hw; [|done]. apply Hms. destruct n; [lia|]. apply list_elem_of_here.
Qed.
End walking.
End listing.

(** ** Witness *)

Definition page_file (id : string) (t : Z) : FileArtifact := MkFile id "personal:ann" "ann" id id "text/plain" 1 None None f_in live None t t true.
Definition page_rows : jsmap string FileArtifact := new_map [("a", page_file "a" 1); ("b", page_file "b" 3); ("c", page_file "c" 1)].
Definition page_listing : ListOwnedOptions := MkListing (Some 1) None false None.
Lemma page_rows_ok m : m ∈ repeat page_rows 5 -> rows_ok m.
Proof.
  intros Hm. assert (E : m = page_rows).
  { cbn [repeat] in Hm. repeat (apply elem_of_cons in Hm as [Hm|Hm]; [exact Hm|]). by apply not_elem_of_nil in Hm. }
  subst m. intros k r Hr%elem_of_entries. vm_compute in Hr. repeat (apply elem_of_cons in Hr as [[= -> ->]|Hr]; [by vm_compute|]). by apply not_elem_of_nil in Hr.
Qed.
Lemma files_paged_witness :
  let '(ps, finished) := walk (fun s => s) (fun s => s) ["personal:ann"] page_listing (repeat page_rows 5) None in
  map (map f_id) ps = [["b"]; ["c"]; ["a"]] /\ finished = true /\
  concat ps = all_listed (fun s => s) ["personal:ann"] (from_cursor page_listing None) page_rows.
Proof.
  pose proof (files_paged (fun s => s) (fun s => s) (fun s => eq_refl) eq_refl ["personal:ann"] page_listing (repeat page_rows 5) page_rows_ok) as H.
  destruct (walk (fun s => s) (fun s => s) ["personal:ann"] page_listing (repeat page_rows 5) None) as [ps fin] eqn:E.
  destruct H as (_ & _ & _ & _ & H). destruct (H page_rows 5%nat eq_refl ltac:(vm_compute; lia)) as [H1 H2].
  vm_compute in E. injection E as <- <-. split; [reflexivity|]. split; [exact H1|exact H2].
Defined.

(** Two calls that put one identifier at once both say that they made it. *)
Inductive FileReq := fq_put (i : PutFileInput).
Definition file_serve (q : FileReq) : Async.call Shelf string bool := match q with fq_put i => r ← put (fun s => s) i; mret (r.2) end.
Definition twin_put (text : string) : PutFileInput := MkPut "f1" "personal:ann" "ann" "a" "a" "text/plain" (MkSource [text] None) f_in None (Some 1) None.
Example put_twice :
  let w := acts file_serve [Begin (fq_put (twin_put "x")) 1; Begin (fq_put (twin_put "y")) 1; Move 0 1; Move 1 1; Move 0 1; Move 1 1; Move 0 2; Move 1 2] (begins (MkShelf ∅ ∅)) in
  map (fun p => p.2) w.(pool) = [Ret true; Ret true].
Proof. vm_compute. reflexivity. Qed.
