(* ===== verification/Memory.v ===== *)
(** * Memory: what an agent remembers for a scope

    The notebook of a scope with its dated facts ([src/src/memory/notebook.ts],
    [memory-service.ts], over a workspace) and the scopes a turn recalls ([policy.ts]).  SHA-256
    is a parameter. *)

From S2P Require Import Prelude JsString Regex Scope Async Resolution.

#[local] Open Scope string_scope.
#[local] Open Scope Z_scope.

Definition lf : ascii := "010"%char.
Definition lines (s : string) : list string := split_on lf s.
Definition unlines (l : list string) : string := join (String lf "") l.

(** ** The notebook *)

(** [RECALL_MAX_CHARS] src/src/memory/notebook.ts:1-1 *)
Definition RECALL_MAX_CHARS : Z := 6000.
(** [isBullet] src/src/memory/notebook.ts:3-6 *)
Definition isBullet (line : string) : bool := let t := trim_start line in starts_with t "- " || starts_with t "* ".
Definition is_mark (c : ascii) : bool := (c === "-"%char) || (c === "*"%char).
(** [bulletText] src/src/memory/notebook.ts:8-13
    [s.replace(/^[-*]\s*/, "")]. *)
Definition strip_mark (s : string) : string := match s with String c t => if is_mark c then trim_start t else s | "" => "" end.
(** [bulletText] src/src/memory/notebook.ts:8-13 *)
Definition bulletText (line : string) : string := trim (strip_mark (trim_start line)).
(** [YYYY-MM-DD]. *)
Definition is_date (s : string) : bool :=
  match s with
  | String a (String b (String c (String d (String e (String f (String g (String h (String i (String j ""))))))))) =>
      is_digit a && is_digit b && is_digit c && is_digit d && (e === "-"%char) && is_digit f && is_digit g && (h === "-"%char) && is_digit i && is_digit j
  | _ => false
  end.
(** [captureDate] src/src/memory/notebook.ts:15-17
    A date in parentheses at the head, and what follows. *)
Definition date_head (s : string) : option (string * string) :=
  let d := str_take 10 (str_drop 1 s) in
  if starts_with s "(" && is_date d && starts_with (str_drop 11 s) ")" then Some (d, str_drop 12 s) else None.
(** [captureDate] src/src/memory/notebook.ts:15-17 *)
Definition captureDate (text : string) : option string := fst <$> date_head text.
(** [bullets] src/src/memory/notebook.ts:19-21 *)
Definition bullets (body : string) : list string := map bulletText (js_filter isBullet (lines body)).
(** A date of the proleptic Gregorian calendar, from the days since 1970: years begin in March,
    400 of them have 146097 days. *)
Definition civil (days : Z) : Z * Z * Z :=
  let z := days + 719468 in
  let era := z / 146097 in
  let doe := z mod 146097 in
  let yoe := (doe - doe / 1460 + doe / 36524 - doe / 146096) / 365 in
  let doy := doe - (365 * yoe + yoe / 4 - yoe / 100) in
  let mp := (5 * doy + 2) / 153 in
  let m := if mp <? 10 then mp + 3 else mp - 9 in
  ((yoe + era * 400 + (if m <=? 2 then 1 else 0)), m, doy - (153 * mp + 2) / 5 + 1).
Definition digit_of (n : Z) : ascii := ascii_of_N (Z.to_N (48 + n mod 10)).
Definition two_digits (n : Z) : string := String (digit_of (n / 10)) (String (digit_of n) "").
Definition four_digits (n : Z) : string := two_digits (n / 100) +:+ two_digits n.
(** [dateStr] src/src/memory/notebook.ts:31-33
    [toISOString().slice(0, 10)]: outside of the years 0 to 9999 the year has a sign and six
    digits. *)
Definition dateStr (at_ : Z) : string :=
  let '(y, m, d) := civil (at_ / 86400000) in
  if (0 <=? y) && (y <=? 9999) then four_digits y +:+ "-" +:+ two_digits m +:+ "-" +:+ two_digits d
  else (if y <? 0 then "-" else "+") +:+ two_digits (Z.abs y / 10000) +:+ four_digits (Z.abs y) +:+ "-" +:+ two_digits m.
Example dates : map dateStr [0; 951782399999; 951782400000; 1767312000000; -62167219200000; -62167219200001; 253402300799999; 253402300800000] =
  ["1970-01-01"; "2000-02-28"; "2000-02-29"; "2026-01-02"; "0000-01-01"; "-000001-12"; "9999-12-31"; "+010000-01"].
Proof. reflexivity. Qed.
(** [normalize] src/src/memory/notebook.ts:23-29 *)
Definition normalize (line : string) : string :=
  let s := strip_mark line in
  to_lower (trim (match date_head s with Some (_, t) => trim_start t | None => s end)).
(** [capTail] src/src/memory/notebook.ts:35-37 *)
Definition capTail (text : string) (maxChars : Z) : string :=
  if str_len text >? maxChars then str_drop (Z.to_nat (str_len text - maxChars)) text else text.

(** ** The policy *)

Inductive MemoryRecallMode := recall_off | recall_writable | recall_visible.
Inductive MemoryCaptureMode := capture_off | capture_writable.
(** [MemoryPolicy] src/src/memory/policy.ts:6-9 *)
Record MemoryPolicy := MkMemoryPolicy { m_recall : MemoryRecallMode; m_capture : MemoryCaptureMode }.
(** [DEFAULT_MEMORY_POLICY] src/src/memory/policy.ts:11-11 *)
Definition DEFAULT_MEMORY_POLICY : MemoryPolicy := MkMemoryPolicy recall_visible capture_writable.
(** [parseMemoryRecallMode] src/src/memory/policy.ts:13-15 *)
Definition parseMemoryRecallMode (v : option string) : MemoryRecallMode :=
  if v === Some "off" then recall_off else if v === Some "writable" then recall_writable else if v === Some "visible" then recall_visible
  else DEFAULT_MEMORY_POLICY.(m_recall).
(** [parseMemoryCaptureMode] src/src/memory/policy.ts:17-19 *)
Definition parseMemoryCaptureMode (v : option string) : MemoryCaptureMode := if v === Some "off" then capture_off else DEFAULT_MEMORY_POLICY.(m_capture).
(** [writableMemoryScope] src/src/memory/policy.ts:21-23 *)
Definition writableMemoryScope (layers : list WorkspaceLayer) (fallback : ScopeId) : ScopeId :=
  from_option ly_scopeId fallback (find (fun l => match l.(ly_mode) with rw => true | _ => false end) layers).
(** [recallMemoryScopes] src/src/memory/policy.ts:25-35 *)
Definition recallMemoryScopes (policy : MemoryPolicy) (layers : list WorkspaceLayer) (writable : ScopeId) : list ScopeId :=
  match policy.(m_recall) with
  | recall_off => []
  | recall_writable => [writable]
  | recall_visible => dedup (writable :: map ly_scopeId layers)
  end.

(** ** What is captured *)

(** [MEMORY_HEADER] src/src/memory/memory-service.ts:7-7 *)
Definition MEMORY_HEADER : string := "# Memory".
(** [MAX_FACTS] src/src/memory/memory-service.ts:8-8 *)
Definition MAX_FACTS : nat := 300.

Definition either_case (s : string) : re := (fix go s := match s with "" => Eps | String c s => Seq (Cls (fun d => lower_ascii d === c)) (go s) end) s.
(** [foldCapture] src/src/memory/memory-service.ts:62-62 *)
Definition said_in : re := (plus (Cls is_space) ⋅ either_case "(said in " ⋅ Grp 1 (plus (Cls (none_of ")"))) ⋅ chr ")" ⋅ star (Cls is_space) ⋅ Eol false)%re.
(** [foldCapture] src/src/memory/memory-service.ts:53-66
    One fact: on one line, without its bullet, and a date or a source it brings along marked as
    what it says. *)
Definition clean_fact (trusted : bool) (f : string) : string :=
  let text := trim (squeeze f) in
  let text := match text with String c (String d t) => if is_mark c && is_space d then trim_start t else text | _ => text end in
  if trusted then text
  else
    let text := match date_head text with Some (d, t) => "on " +:+ d +:+ ": " +:+ trim_start t | None => text end in
    replace_first said_in (fun h => " [claimed source: " +:+ (Regex.group 1 h ?? "") +:+ "]") text.

Section service.
Variable sha256 : string -> string.

(** [foldCapture] src/src/memory/memory-service.ts:70-77
    The loop over the facts. *)
Fixpoint new_bullets (at_ : Z) (seen : list string) (facts : list string) : list string :=
  match facts with
  | [] => []
  | f :: facts =>
      let key := normalize f in
      if negb (truthy key) || includes seen key then new_bullets at_ seen facts
      else ("- (" +:+ dateStr at_ +:+ ") " +:+ f) :: new_bullets at_ (key :: seen) facts
  end.
(** [foldCapture] src/src/memory/memory-service.ts:84-90
    The first bullets go, as many as are too many. *)
Fixpoint drop_bullets (n : nat) (l : list string) : list string :=
  match n, l with
  | S n', x :: l => if isBullet x then drop_bullets n' l else x :: drop_bullets n l
  | _, _ => l
  end.
(** [foldCapture] src/src/memory/memory-service.ts:47-92 *)
Definition foldCapture (existing : string) (facts : list string) (at_ : Z) (trusted : bool) : string * nat :=
  let clean := js_filter truthy (map (clean_fact trusted) facts) in
  match clean with
  | [] => (existing, 0%nat)
  | _ =>
      let added := new_bullets at_ (map normalize (js_filter isBullet (lines existing))) clean in
      match added with
      | [] => (existing, 0%nat)
      | _ =>
          let body := if truthy (trim existing) then trim_end existing +:+ String lf (unlines added)
                      else MEMORY_HEADER +:+ String lf (String lf (unlines added)) in
          let overflow := (length (js_filter isBullet (lines body)) - MAX_FACTS)%nat in
          ((if Nat.eqb overflow 0 then body else unlines (drop_bullets overflow (lines body))), length added)
      end
  end.
(** [recallBody] src/src/memory/memory-service.ts:42-45 *)
Definition recallBody (body : string) : string := let t := trim body in if truthy t then capTail t RECALL_MAX_CHARS else "".
(** The words of a query: [split(/\s+/).filter(Boolean)]. *)
Definition words (s : string) : list string := js_filter truthy (split_on " "%char (squeeze s)).
(** [queryBullets] src/src/memory/memory-service.ts:94-100 *)
Definition queryBullets (body q : string) (limit : nat) : list string :=
  match words (to_lower q) with
  | [] => []
  | terms => take limit (js_filter (fun l => every (fun t => str_includes (to_lower l) t) terms) (bullets body))
  end.
(** [normalizeReplace] src/src/memory/memory-service.ts:102-105 *)
Definition normalizeReplace (content : string) : string := let t := trim_end content in if truthy t then t +:+ String lf "" else "".

(** ** The service, over the notebooks of a workspace *)

Abbreviation Books := (jsmap ScopeId string).
Abbreviation call := (call Books string).
Definition read_book (sc : ScopeId) : call string := await (fun s => Some ((s !! sc) ?? "", s)).
Definition write_book (sc : ScopeId) (body : string) : call unit := await (fun s => Some (tt, <[sc := body]> s)).
(** [replace] src/src/memory/memory-service.ts:129-136 *)
Definition replace (sc : ScopeId) (content : string) : call unit :=
  let next := normalizeReplace content in
  if truthy next then write_book sc next else await (fun s => Some (tt, delete sc s)).
(** [recall] src/src/memory/memory-service.ts:109-111 *)
Definition recall (sc : ScopeId) : call string := b ← read_book sc; mret (recallBody b).
(** [capture] src/src/memory/memory-service.ts:113-119 *)
Definition capture (sc : ScopeId) (facts : list string) (at_ : Z) (author : option string) : call nat :=
  existing ← read_book sc;
  let '(body, added) := foldCapture existing facts at_ (match author with Some a => starts_with a "cc:" | None => false end) in
  if Nat.eqb added 0 then mret 0%nat else _ ← write_book sc (body +:+ String lf ""); mret added.
(** [query] src/src/memory/memory-service.ts:121-123 *)
Definition query (sc : ScopeId) (q : string) (limit : option nat) : call (list string) := b ← read_book sc; mret (queryBullets b q (limit ?? 20%nat)).
(** [readHead] src/src/memory/memory-service.ts:138-141 *)
Definition readHead (sc : ScopeId) : call (string * string) := b ← read_book sc; mret (b, sha256 b).
(** [replaceIfRevision] src/src/memory/memory-service.ts:143-150 *)
Definition replaceIfRevision (sc : ScopeId) (content revision : string) : call bool :=
  current ← read_book sc;
  if sha256 current !== revision then mret false else _ ← replace sc content; mret true.

(** [isSystemActor] src/src/memory/memory-service.ts:154-156 *)
Definition isSystemActor (actorId : option string) : bool := match actorId with Some a => starts_with a "system:" | None => false end.
(** [ccTargetFor] src/src/memory/memory-service.ts:158-164 *)
Definition ccTargetFor (origin : ScopeId) (actorId : option string) : option ScopeId :=
  match if_truthy actorId with
  | None => None
  | Some a =>
      if isSystemActor actorId then None
      else
        let kind := (parseScopeId origin).1 in
        if (kind !== Some channel) && (kind !== Some group) then None
        else let target := scopeId personal a in if target === origin then None else Some target
  end.
(** [ccCaptureToPersonal] src/src/memory/memory-service.ts:166-185 *)
Definition ccCaptureToPersonal (origin : ScopeId) (actorId : option string) (facts : list string) (at_ : Z) (sourceLabel : option string) : call nat :=
  match ccTargetFor origin actorId, facts with
  | Some target, _ :: _ =>
      let blank (s : string) := (fix go s := match s with
                                  | "" => ""
                                  | String c s => String (if one_of (String "(" (String ")" (String "013" (String lf "")))) c then " "%char else c) (go s)
                                  end) s in
      let clean := (fun s => str_take 60 (trim (squeeze (blank s)))) <$> sourceLabel in
      let source := if_truthy clean ?? (if (parseScopeId origin).1 === Some channel then "a channel" else "a group conversation") in
      capture target (map (fun f => f +:+ " (said in " +:+ source +:+ ")") facts) at_ (Some ("cc:" +:+ origin))
  | _, _ => mret 0%nat
  end.
End service.

(** ** What a capture writes *)

Section captured.
(** A time of the years 0 to 9999. *)
Definition four_digit_year (t : Z) : bool := (-62167219200000 <=? t) && (t <? 253402300800000).

(** A line with no end of line in it. *)
Definition one_line (s : string) : bool := str_every (fun c => c !== lf) s.
Lemma lines_app a b : lines (a +:+ String lf b) = (lines a ++ lines b)%list.
Proof. apply split_on_last. Qed.
Lemma lines_one s : one_line s = true -> lines s = [s].
Proof. apply split_on_none. Qed.
Lemma lines_unlines l : l <> [] -> (forall x, x ∈ l -> one_line x = true) -> lines (unlines l) = l.
Proof.
  induction l as [|x [|y l] IH]; intros Hn Hl; [done| |].
  - apply lines_one, Hl, list_elem_of_here.
  - change (unlines (x :: y :: l)) with (x +:+ String lf (unlines (y :: l))). rewrite lines_app, (lines_one x) by apply Hl, list_elem_of_here.
    cbn [app]. f_equal. apply IH; [done|]. intros z Hz. apply Hl. by apply list_elem_of_further.
Qed.
Lemma lines_each s : forall x, x ∈ lines s -> one_line x = true.
Proof. intros x Hx. by apply (split_on_parts lf s). Qed.
Lemma drop_bullets_spec n l :
  js_filter isBullet (drop_bullets n l) = drop n (js_filter isBullet l) /\
  js_filter (fun x => negb (isBullet x)) (drop_bullets n l) = js_filter (fun x => negb (isBullet x)) l /\ (forall x, x ∈ drop_bullets n l -> x ∈ l).
Proof.
  revert n. induction l as [|x l IH]; intros [|n]; [done..|]. cbn [drop_bullets js_filter]. destruct (isBullet x) eqn:E; cbn [js_filter negb drop].
  - rewrite ?E. destruct (IH n) as (-> & -> & Hin). split_and!; [done|done|]. intros y Hy. apply list_elem_of_further. by apply Hin.
  - rewrite E. destruct (IH (S n)) as (-> & -> & Hin). split_and!; [done|done|]. intros y. rewrite !elem_of_cons. intros [->|Hy]; [by left|right; by apply Hin].
Qed.

(** *** A fact is one line *)

Lemma squeeze_one_line b s : one_line (squeeze_from b s) = true.
Proof.
  unfold one_line. revert b. induction s as [|c s IH]; intros b; cbn [squeeze_from]; [done|]. destruct (is_space c) eqn:E.
  - destruct b; [done|]. cbn [str_every]. by rewrite IH.
  - cbn [str_every]. rewrite IH. destruct (c === lf) eqn:El; [|done]. apply bool_decide_eq_true in El as ->. done.
Qed.
Lemma trim_every p s : str_every p s = true -> str_every p (trim s) = true.
Proof. intros. by apply str_every_trim_end, str_every_trim_start. Qed.
Lemma str_drop_every p n s : str_every p s = true -> str_every p (str_drop n s) = true.
Proof. revert n. induction s as [|c s IH]; intros [|n]; cbn; try done. intros [_ ?]%andb_true_iff. by apply IH. Qed.
Lemma clean_fact_one_line trusted f : one_line (clean_fact trusted f) = true.
Proof.
  unfold clean_fact. cbv zeta. set (t0 := trim (squeeze f)). assert (H0 : one_line t0 = true) by (apply trim_every, squeeze_one_line).
  set (t1 := match t0 with String c (String d t) => _ | _ => t0 end). assert (H1 : one_line t1 = true).
  { unfold t1. destruct t0 as [|c [|d u]]; [done..|]. destruct (is_mark c && is_space d); [|done]. apply str_every_trim_start. unfold one_line in H0. cbn [str_every] in H0. by apply andb_true_iff in H0 as [_ [_ ?]%andb_true_iff]. }
  destruct trusted; [done|]. set (t2 := match date_head t1 with Some (d, u) => _ | None => t1 end). assert (H2 : one_line t2 = true).
  { unfold t2, date_head. destruct (_ && _); [|done]. unfold one_line in *. rewrite !str_every_app. cbn [str_every].
    rewrite str_every_take, str_every_trim_start; [done|by apply str_drop_every|by apply str_drop_every]. }
  unfold replace_first, exec. destruct (search_from said_in None t2) as [h|] eqn:E; [|done]. apply (search_chars (fun c => c !== lf)) in E as [Hs Hp]; [|done].
  unfold one_line. rewrite !str_every_app, Hs. destruct Hp as [Hr Hc]. rewrite Hr. cbn [str_every andb].
  destruct (Regex.group 1 h) as [g|] eqn:Eg; cbn [from_option default]; [|done]. rewrite (group_chars (fun c => c !== lf) 1 h g); [done|by split|done].
Qed.

(** *** The bullets *)

Lemma date_chars d : is_date d = true -> exists a b c e f g h i j k, d = String a (String b (String c (String e (String f (String g (String h (String i (String j (String k "")))))))))
  /\ str_every (fun c => negb (is_space c)) d = true.
Proof.
  intros Hd. assert (Hsp : forall x, is_digit x = true -> negb (is_space x) = true) by (intros [[] [] [] [] [] [] [] []]; done).
  destruct d as [|a [|b [|c [|e [|f [|g [|h [|i [|j [|k [|]]]]]]]]]]]; try done. exists a, b, c, e, f, g, h, i, j, k. split; [done|].
  unfold is_date in Hd. to_prop. subst. cbn -[is_space]. by rewrite (Hsp a), (Hsp b), (Hsp c), (Hsp e), (Hsp g), (Hsp h), (Hsp j), (Hsp k) by done.
Qed.
Lemma trim_end_keep a b : str_every (fun c => negb (is_space c)) a = true -> trim_end (a +:+ b) = a +:+ trim_end b.
Proof.
  induction a as [|c a IH]; [done|]. cbn. intros [Hc Ha]%andb_true_iff. rewrite IH by done. destruct (is_space c); [done|].
  by destruct (a +:+ trim_end b).
Qed.
Lemma date_head_at d u : is_date d = true -> date_head ("(" +:+ d +:+ ")" +:+ u) = Some (d, u).
Proof.
  intros Hd. destruct (date_chars d Hd) as (a & b & c & e & f & g & h & i & j & k & -> & _). unfold date_head.
  cbn [append str_drop str_take starts_with]. rewrite Hd. by destruct u.
Qed.
Lemma bullet_text d s : is_date d = true -> bulletText ("- (" +:+ d +:+ ") " +:+ s) = "(" +:+ d +:+ ")" +:+ trim_end (" " +:+ s).
Proof.
  intros Hd. destruct (date_chars d Hd) as (_ & _ & _ & _ & _ & _ & _ & _ & _ & _ & _ & Hs).
  change (bulletText ("- (" +:+ d +:+ ") " +:+ s)) with (trim_end (String "(" (d +:+ ") " +:+ s))).
  replace (String "(" (d +:+ ") " +:+ s)) with (("(" +:+ d +:+ ")") +:+ (" " +:+ s)) by (cbn; by rewrite str_append_assoc).
  rewrite trim_end_keep; [by rewrite !str_append_assoc|]. cbn. by rewrite str_every_app, Hs.
Qed.
Lemma prefix_date d s : is_date d = true -> captureDate (bulletText ("- (" +:+ d +:+ ") " +:+ s)) = Some d.
Proof. intros Hd. rewrite bullet_text by done. unfold captureDate. by rewrite date_head_at. Qed.

(** What the loop adds: facts with their date, of keys that are new. *)
Lemma new_bullets_spec at_ seen facts : exists texts,
  new_bullets at_ seen facts = map (fun f => "- (" +:+ dateStr at_ +:+ ") " +:+ f) texts /\
  NoDup (map normalize texts) /\ (forall f, f ∈ texts -> f ∈ facts /\ normalize f <> "" /\ normalize f ∉ seen) /\
  (forall f, f ∈ facts -> normalize f = "" \/ normalize f ∈ seen \/ normalize f ∈ map normalize texts).
Proof.
  revert seen. induction facts as [|f facts IH]; intros seen; cbn [new_bullets].
  { exists []. split_and!; [done|constructor|by intros f ?%not_elem_of_nil|by intros f ?%not_elem_of_nil]. }
  destruct (negb (truthy (normalize f)) || includes seen (normalize f)) eqn:E.
  - destruct (IH seen) as (texts & -> & Hn & Ht & Hc). exists texts. split_and!; [done|done|..].
    + intros g Hg. destruct (Ht g Hg) as (? & ? & ?). split_and!; [by apply list_elem_of_further|done|done].
    + intros g [->|Hg]%elem_of_cons; [|by apply Hc]. apply orb_true_iff in E as [E|E%bool_decide_eq_true]; [left|by right; left].
      destruct (normalize f); [done|discriminate E].
  - apply orb_false_iff in E as [E1 E2%bool_decide_eq_false]. destruct (IH (normalize f :: seen)) as (texts & -> & Hn & Ht & Hc). exists (f :: texts). split_and!.
    + done.
    + cbn [map]. constructor; [|done]. intros (g & Hg & Hin)%list_elem_of_fmap. destruct (Ht g Hin) as (_ & _ & Hs). apply Hs. rewrite Hg. apply list_elem_of_here.
    + intros g [->|Hg]%elem_of_cons; [split_and!; [apply list_elem_of_here|by destruct (normalize f)|done]|].
      destruct (Ht g Hg) as (? & ? & Hs). split_and!; [by apply list_elem_of_further|done|]. intros Hin. apply Hs. by apply list_elem_of_further.
    + intros g [->|Hg]%elem_of_cons; [right; right; apply list_elem_of_here|]. destruct (Hc g Hg) as [?|[[Heq|?]%elem_of_cons|?]]; [by left|right; right; cbn [map]; rewrite Heq; apply list_elem_of_here|by right; left|].
      right; right. by apply list_elem_of_further.
Qed.

Lemma digit_of_ok n : is_digit (digit_of n) = true.
Proof.
  unfold digit_of. pose proof (Z.mod_pos_bound n 10 ltac:(lia)). set (k := n mod 10) in *. assert (Hk : In k [0;1;2;3;4;5;6;7;8;9]) by (simpl; lia).
  simpl in Hk. by destruct Hk as [<-|[<-|[<-|[<-|[<-|[<-|[<-|[<-|[<-|[<-|[]]]]]]]]]]].
Qed.
Lemma civil_year days : -719528 <= days < 2932897 -> 0 <= (civil days).1.1 <= 9999.
Proof.
  intros Hd. unfold civil. cbv zeta. cbn [fst]. set (z := days + 719468). assert (Hz : -60 <= z < 3652365) by lia.
  pose proof (Z.div_mod z 146097 ltac:(lia)) as He. pose proof (Z.mod_pos_bound z 146097 ltac:(lia)) as Hm.
  set (era := z / 146097) in *. set (doe := z mod 146097) in *. clearbody era doe z.
  set (yoe := (doe - doe / 1460 + doe / 36524 - doe / 146096) / 365). assert (Hy : 0 <= yoe <= 399) by (unfold yoe; Z.to_euclidean_division_equations; lia).
  assert (Hlow : doe >= 146037 -> yoe = 399) by (unfold yoe; Z.to_euclidean_division_equations; lia).
  assert (Hhigh : yoe = 399 -> doe >= 145731) by (unfold yoe; Z.to_euclidean_division_equations; lia).
  clearbody yoe. set (doy := doe - (365 * yoe + yoe / 4 - yoe / 100)). 
  assert (Hmp : (doe >= 146037 -> 10 <= (5 * doy + 2) / 153 < 12) /\ (doe <= 146036 -> yoe = 399 -> 0 <= (5 * doy + 2) / 153 < 10)).
  { split; intros; [rewrite Hlow in * by lia|subst yoe]; unfold doy; change (399 / 4) with 99; change (399 / 100) with 3; Z.to_euclidean_division_equations; lia. }
  clearbody doy. set (mp := (5 * doy + 2) / 153) in *. clearbody mp.
  destruct (Z.ltb_spec mp 10); [destruct (Z.leb_spec (mp + 3) 2)|destruct (Z.leb_spec (mp - 9) 2)]; lia.
Qed.
Lemma date_ok t : four_digit_year t = true -> is_date (dateStr t) = true.
Proof.
  unfold four_digit_year. intros Ht. to_prop. assert (Hd : -719528 <= t / 86400000 < 2932897) by (split; [apply Z.div_le_lower_bound|apply Z.div_lt_upper_bound]; lia).
  apply civil_year in Hd. unfold dateStr. destruct (civil (t / 86400000)) as [[y m] d]. cbn [fst] in Hd.
  rewrite (proj2 (Z.leb_le 0 y)), (proj2 (Z.leb_le y 9999)) by lia. cbn -[digit_of is_digit]. by rewrite !digit_of_ok.
Qed.
Lemma spaceless_line s : str_every (fun c => negb (is_space c)) s = true -> one_line s = true.
Proof.
  unfold one_line. induction s as [|c s IH]; [done|]. cbn [str_every]. intros [Hc Hs]%andb_true_iff. rewrite (IH Hs), andb_true_r. destruct (c === lf) eqn:E; [|done].
  by apply bool_decide_eq_true in E as ->.
Qed.
Lemma date_one_line t : four_digit_year t = true -> one_line (dateStr t) = true.
Proof. intros Ht. destruct (date_chars _ (date_ok t Ht)) as (_ & _ & _ & _ & _ & _ & _ & _ & _ & _ & _ & Hd). by apply spaceless_line. Qed.
Lemma new_line at_ x : four_digit_year at_ = true -> one_line x = true ->
  let b := "- (" +:+ dateStr at_ +:+ ") " +:+ x in one_line b = true /\ isBullet b = true /\ captureDate (bulletText b) = Some (dateStr at_).
Proof.
  intros Ht Hx b. split_and!; [|reflexivity|by apply prefix_date, date_ok]. unfold b, one_line. rewrite !str_every_app. cbn [str_every].
  pose proof (date_one_line at_ Ht) as Hd. unfold one_line in Hd, Hx. by rewrite Hd, Hx.
Qed.
Lemma all_bullets (l : list string) : (forall b, b ∈ l -> isBullet b = true) -> js_filter isBullet l = l /\ js_filter (fun x => negb (isBullet x)) l = [].
Proof.
  intros H. split; [by apply js_filter_id|]. apply js_filter_nil. intros b Hb. by rewrite (H b Hb).
Qed.
(** The lines of what is written: the new ones after the old, without the first bullets that are
    too many. *)
Lemma written_lines existing new : new <> [] -> (forall b, b ∈ new -> one_line b = true) ->
  let base := if truthy (trim existing) then lines (trim_end existing) else [MEMORY_HEADER; ""] in
  let body := if truthy (trim existing) then trim_end existing +:+ String lf (unlines new) else MEMORY_HEADER +:+ String lf (String lf (unlines new)) in
  let overflow := (length (js_filter isBullet (lines body)) - MAX_FACTS)%nat in
  lines body = (base ++ new)%list /\
  lines (if Nat.eqb overflow 0 then body else unlines (drop_bullets overflow (lines body))) = drop_bullets overflow (base ++ new)%list.
Proof.
  intros Hne Hone base body overflow. assert (Hb : lines body = (base ++ new)%list).
  { unfold body, base. destruct (truthy (trim existing)).
    - by rewrite lines_app, (lines_unlines new Hne Hone).
    - rewrite lines_app. change (String lf (unlines new)) with ("" +:+ String lf (unlines new)). by rewrite lines_app, (lines_unlines new Hne Hone). }
  split; [done|]. rewrite <- Hb. destruct (Nat.eqb_spec overflow 0) as [E0|Ho]; [rewrite E0; by destruct (lines body)|]. apply lines_unlines.
  - intros E. destruct (drop_bullets_spec overflow (lines body)) as (H & _). rewrite E in H. cbn in H. apply (f_equal length) in H. rewrite length_drop in H.
    unfold overflow, MAX_FACTS in *. cbn [length] in H. lia.
  - intros x Hx. apply (lines_each body). by apply (drop_bullets_spec overflow (lines body)).
Qed.

End captured.
