(* ===== verification/Consolidation.v ===== *)
(** * Consolidation: how a notebook is kept in order

    The model is shown the facts of a notebook, numbered, and answers with actions; they are
    applied, and a marker line says from where on facts are new
    ([src/src/memory/strategies/consolidation.ts]).  The memory service behind a queue per scope
    runs it after captures.  The model is the host's. *)

From S2P Require Import Prelude JsString Regex Scope Async Memory.

#[local] Open Scope string_scope.
#[local] Open Scope Z_scope.

(** [DEFAULT_CONSOLIDATE_AFTER] src/src/memory/strategies/consolidation.ts:7-7 *)
Definition DEFAULT_CONSOLIDATE_AFTER : Z := 10.
(** [MARKER_PREFIX] src/src/memory/strategies/consolidation.ts:9-9 *)
Definition MARKER_PREFIX : string := "<!-- consolidated:".
(** [consolidationMarker] src/src/memory/strategies/consolidation.ts:11-13 *)
Definition consolidationMarker (at_ : Z) : string := MARKER_PREFIX +:+ " " +:+ dateStr at_ +:+ " -->".
(** [isMarker] src/src/memory/strategies/consolidation.ts:15-17 *)
Definition isMarker (line : string) : bool := starts_with (trim line) MARKER_PREFIX.
(** The lines after the last marker, all when there is none. *)
Fixpoint below_marker (l : list string) : list string :=
  match l with
  | [] => []
  | x :: l' => if some isMarker l' then below_marker l' else if isMarker x then l' else l
  end.
(** [bulletsBelowMarker] src/src/memory/strategies/consolidation.ts:19-24 *)
Definition bulletsBelowMarker (body : string) : nat := length (js_filter isBullet (below_marker (lines body))).

(** [ConsolidationAction] src/src/memory/strategies/consolidation.ts:53-54 *)
Inductive ConsolidationAction := Update (index : Z) (text : string) | Delete (index : Z) | Add (text : string).

Definition sp0 : re := star (Cls is_space).
Definition sp1 : re := plus (Cls is_space).
(** [parseConsolidationActions] src/src/memory/strategies/consolidation.ts:61-61 *)
Definition update_re : re := (Bol false ⋅ either_case "update" ⋅ sp1 ⋅ Grp 1 (plus (Cls is_digit)) ⋅ sp0 ⋅ chr ":" ⋅ sp0 ⋅ Grp 2 (plus (Cls dot)) ⋅ Eol false)%re.
(** [parseConsolidationActions] src/src/memory/strategies/consolidation.ts:66-66 *)
Definition delete_re : re := (Bol false ⋅ either_case "delete" ⋅ sp1 ⋅ Grp 1 (plus (Cls is_digit)) ⋅ sp0 ⋅ Eol false)%re.
(** [parseConsolidationActions] src/src/memory/strategies/consolidation.ts:71-71 *)
Definition add_re : re := (Bol false ⋅ either_case "add" ⋅ sp0 ⋅ chr ":" ⋅ sp0 ⋅ Grp 1 (plus (Cls dot)) ⋅ Eol false)%re.
Definition group_of (n : nat) (h : hit) : string := Regex.group n h ?? "".
(** [parseConsolidationActions] src/src/memory/strategies/consolidation.ts:58-73
    One line: an update, else a deletion, else an addition. *)
Definition parse_action (raw : string) : option ConsolidationAction :=
  let line := trim raw in
  if negb (truthy line) || (to_lower line === "none") then None
  else match Regex.exec update_re line with
  | Some h => Some (Update (decimal 0 (group_of 1 h)) (trim (group_of 2 h)))
  | None =>
      match Regex.exec delete_re line with
      | Some h => Some (Delete (decimal 0 (group_of 1 h)))
      | None => match Regex.exec add_re line with Some h => Some (Add (trim (group_of 1 h))) | None => None end
      end
  end.
(** [parseConsolidationActions] src/src/memory/strategies/consolidation.ts:56-75 *)
Definition parseConsolidationActions (out : string) : list ConsolidationAction := omap parse_action (lines out).

(** [formatBullet] src/src/memory/strategies/consolidation.ts:77-79 *)
Definition formatBullet (text date : string) : string :=
  if truthy_opt (captureDate text) then "- " +:+ text else "- (" +:+ date +:+ ") " +:+ text.

(** [applyConsolidationActions] src/src/memory/strategies/consolidation.ts:83-90
    The last update of a number counts. *)
Definition update_of (actions : list ConsolidationAction) (n : Z) : option string :=
  foldl (fun o a => match a with Update i t => if i === n then Some t else o | _ => o end) None actions.
(** [applyConsolidationActions] src/src/memory/strategies/consolidation.ts:84-89 *)
Definition deleted (actions : list ConsolidationAction) (n : Z) : bool :=
  some (fun a => match a with Delete i => i === n | _ => false end) actions.
(** [applyConsolidationActions] src/src/memory/strategies/consolidation.ts:85-90 *)
Definition adds_of (actions : list ConsolidationAction) : list string := omap (fun a => match a with Add t => Some t | _ => None end) actions.

(** The last line goes when it is blank. *)
Definition pop_blank (out : list string) : list string :=
  match last out with Some l => if trim l === "" then take (length out - 1) out else out | None => out end.
(** [applyConsolidationActions] src/src/memory/strategies/consolidation.ts:94-107
    The loop over the lines: [n] bullets were seen. *)
Fixpoint revise (actions : list ConsolidationAction) (today : string) (n : Z) (out : list string) (l : list string) : list string :=
  match l with
  | [] => out
  | line :: l =>
      if isMarker line then revise actions today n (pop_blank out) l
      else if negb (isBullet line) then revise actions today n (out ++ [line]) l
      else
        let n := n + 1 in
        if deleted actions n then revise actions today n out l
        else
          let new := match update_of actions n with
                     | Some t => formatBullet t (captureDate (bulletText line) ?? today)
                     | None => line end in
          revise actions today n (out ++ [new]) l
  end.
(** [applyConsolidationActions] src/src/memory/strategies/consolidation.ts:110-112
    [replace(/\n{3,}/g, "\n\n")]: of the ends of line in a row, [k] before, two stay. *)
Fixpoint collapse (k : nat) (s : string) : string :=
  match s with
  | "" => ""
  | String c s => if c === lf then (if Nat.ltb k 2 then String c (collapse (S k) s) else collapse (S k) s) else String c (collapse 0 s)
  end.
(** [applyConsolidationActions] src/src/memory/strategies/consolidation.ts:81-115 *)
Definition applyConsolidationActions (body : string) (actions : list ConsolidationAction) (at_ : Z) : string :=
  let today := dateStr at_ in
  let out := (revise actions today 0 [] (lines body) ++ map (fun t => formatBullet t today) (adds_of actions))%list in
  trim_end (collapse 0 (unlines out)) +:+ String lf (String lf (consolidationMarker at_)).

Example consolidate_ex :
  applyConsolidationActions (join (String lf "") ["# Memory"; ""; "- (2026-01-01) a"; "- b"; ""; "<!-- consolidated: 2026-01-01 -->"; "- (2026-01-02) c"])
    (parseConsolidationActions (join (String lf "") ["UPDATE 1: A"; " delete  3 "; "NONE"; "Add:d"; "UPDATE x: y"])) 1767484800000
  = join (String lf "") ["# Memory"; ""; "- (2026-01-01) A"; "- b"; "- (2026-01-04) d"; ""; "<!-- consolidated: 2026-01-04 -->"].
Proof. reflexivity. Qed.

(** ** The consolidator *)

Abbreviation Books := (jsmap ScopeId string).
(** The notebooks, the scopes whose store does not keep what is written, and the queue of each
    scope with its tickets. *)
Record Keeper := MkKeeper { k_books : Books; degraded : list ScopeId; k_queue : jsmap ScopeId (list nat); k_ticket : nat }.
#[export] Instance Keeper_eta : Eta Keeper := fun k => MkKeeper k.(k_books) k.(degraded) k.(k_queue) k.(k_ticket).
Abbreviation keep := (Async.call Keeper string).
(** The memory service of the keeper. *)
Definition base {A} (c : Async.call Books string A) : keep A := zoom k_books (fun b k => k <| k_books := b |>) c.

Section consolidator.
Variables (sha256 : string -> string) (MEMORY_CONSOLIDATION_PROMPT : string).
(** [deps.harness.oneShot] *)
Variable oneShot : option (string -> string -> result string (option string)).
Variable afterN : Z.

(** [maintain] src/src/memory/strategies/consolidation.ts:140-140 *)
Definition numbered (l : list string) : string :=
  unlines (zip_with (fun i x => pretty.pretty (Z.of_nat i) +:+ ". " +:+ bulletText x) (seq 1 (length l)) l).
(** [degraded] src/src/memory/strategies/consolidation.ts:133-135
    It is read when the call begins, and nothing else is awaited there. *)
Definition is_degraded (sc : ScopeId) : keep bool := await (fun k => Some (includes k.(degraded) sc, k)).
(** [maintain] src/src/memory/strategies/consolidation.ts:134-156 *)
Definition maintain (sc : ScopeId) : keep unit :=
  d ← is_degraded sc;
  match oneShot with
  | None => mret tt
  | Some ask =>
      if (d : bool) then mret tt
      else
        body ← base (read_book sc);
        let bullets := js_filter isBullet (lines body) in
        match bullets with
        | [] => mret tt
        | _ =>
            out ← await (fun k => Some (ask MEMORY_CONSOLIDATION_PROMPT (numbered bullets), k));
            match out with
            | Throw _ => mret tt
            | Ok out =>
                at_ ← now;
                let next := applyConsolidationActions body (parseConsolidationActions (out ?? "")) at_ in
                _ ← base (Memory.replace sc next);
                after ← base (read_book sc);
                if trim_end after !== trim_end next then await (fun k => Some (tt, k <| degraded := sc :: k.(degraded) |>)) else mret tt
            end
        end
  end.
(** [maybeMaintain] src/src/memory/strategies/consolidation.ts:160-163 *)
Definition maybeMaintain (sc : ScopeId) : keep unit :=
  d ← is_degraded sc;
  if (d : bool) then mret tt
  else body ← base (read_book sc); if Z.of_nat (bulletsBelowMarker body) >=? afterN then maintain sc else mret tt.

(** [createKeyedQueue] src/src/util/async.ts:7-22
    A call joins the queue of its key, and runs when the ones before it have ended, well or not. *)
Definition perScope {A} (sc : ScopeId) (fn : keep A) : keep A :=
  ticket ← await (fun k => Some (k.(k_ticket), k <| k_queue := <[sc := (((k.(k_queue) !! sc) ?? []) ++ [k.(k_ticket)])%list]> k.(k_queue) |> <| k_ticket := S k.(k_ticket) |>));
  _ ← await (fun k => match (k.(k_queue) !! sc) ?? [] with t :: _ => if Nat.eqb t ticket then Some (tt, k) else None | [] => None end);
  let leave : keep unit := await (fun k => Some (tt, k <| k_queue := <[sc := js_filter (fun t => negb (Nat.eqb t ticket)) ((k.(k_queue) !! sc) ?? [])]> k.(k_queue) |>)) in
  r ← catch (a ← fn; mret (Ok a)) (fun e => mret (Throw e));
  _ ← leave; lift r.

(** [capture] src/src/memory/strategies/consolidation.ts:175-179
    What was added, and the call that is started behind it and not waited for. *)
Definition capture (sc : ScopeId) (facts : list string) (at_ : Z) (author : option string) : keep (nat * option (keep unit)) :=
  added ← perScope sc (base (Memory.capture sc facts at_ author));
  mret (added, if Nat.ltb 0 added then Some (catch (perScope sc (maybeMaintain sc)) (fun _ => mret tt)) else None).
(** [replace] src/src/memory/strategies/consolidation.ts:180-180 *)
Definition replace (sc : ScopeId) (content : string) : keep unit := perScope sc (base (Memory.replace sc content)).
(** [createConsolidatingMemory] src/src/memory/strategies/consolidation.ts:182-182 *)
Definition maintain_queued (sc : ScopeId) : keep unit := perScope sc (maintain sc).
(** [createConsolidatingMemory] src/src/memory/strategies/consolidation.ts:173-174
    What the service of the store does alone it does here, without the queue. *)
Definition replaceIfRevision (sc : ScopeId) (content revision : string) : keep bool := base (Memory.replaceIfRevision sha256 sc content revision).
End consolidator.

(** ** What a consolidation writes *)

Section consolidated.

(** What a reader sees of the lines: each without the blanks around it, the blank ones not at all. *)
Definition content (l : list string) : list string := js_filter truthy (map trim l).
Lemma content_app a b : content (a ++ b) = (content a ++ content b)%list.
Proof. unfold content. by rewrite map_app, js_filter_app. Qed.
Lemma content_cons x l : content (x :: l) = ((if truthy (trim x) then [trim x] else []) ++ content l)%list.
Proof. unfold content. cbn [map js_filter]. by destruct (truthy (trim x)). Qed.

Lemma trim_end_last s c : is_space c = true -> trim_end (s +:+ String c "") = trim_end s.
Proof. intros Hc. induction s as [|d s IH]; cbn; [by rewrite Hc|]. by rewrite IH. Qed.
Lemma trim_last s c : is_space c = true -> trim (s +:+ String c "") = trim s.
Proof.
  intros Hc. unfold trim. induction s as [|d s IH]; cbn [append trim_start]; [by rewrite Hc|]. destruct (is_space d); [done|].
  exact (trim_end_last (String d s) c Hc).
Qed.
Lemma trim_end_split s : exists w, s = trim_end s +:+ w /\ str_every is_space w = true.
Proof.
  induction s as [|c s (w & E & Hw)]; [by exists ""|]. cbn [trim_end]. destruct (trim_end s) as [|d t] eqn:Et.
  - cbn in E. subst w. destruct (is_space c) eqn:Ec; [exists (String c s); split; [done|by cbn; rewrite Ec]|by exists s].
  - exists w. split; [|done]. cbn. cbn in E. by rewrite <- E.
Qed.
Lemma split_on_cons c d s : d <> c -> exists x l, split_on c s = x :: l /\ split_on c (String d s) = String d x :: l.
Proof.
  intros Hd. destruct (split_on c s) as [|x l] eqn:E; [by destruct (split_on_nonempty c s)|]. exists x, l. split; [done|]. cbn. rewrite decide_False by done. by rewrite E.
Qed.
Lemma lines_last s c : c <> lf -> exists l x, lines s = (l ++ [x])%list /\ lines (s +:+ String c "") = (l ++ [x +:+ String c ""])%list.
Proof.
  intros Hc. unfold lines. induction s as [|d s (l & x & E1 & E2)].
  - exists [], "". split; [done|]. cbn. by rewrite decide_False.
  - destruct (decide (d = lf)) as [->|Hd].
    + exists ("" :: l), x. cbn. rewrite E1, E2. by rewrite decide_True.
    + destruct (split_on_cons lf d s Hd) as (y & m & Ey & ->). destruct (split_on_cons lf d (s +:+ String c "") Hd) as (y' & m' & Ey' & Es').
      cbn [append]. rewrite Es'. rewrite E1 in Ey. rewrite E2 in Ey'. destruct l as [|z l]; cbn in Ey, Ey'; injection Ey as <- <-; injection Ey' as <- <-.
      * by exists [], (String d x).
      * by exists (String d z :: l), x.
Qed.
Lemma content_spaces a w : str_every is_space w = true -> content (lines (a +:+ w)) = content (lines a).
Proof.
  revert a. induction w as [|c w IH]; intros a Hw; [by rewrite str_append_nil_r|]. cbn in Hw. apply andb_true_iff in Hw as [Hc Hw].
  destruct (decide (c = lf)) as [->|Hne].
  - rewrite lines_app, content_app. pose proof (IH "" Hw) as H. cbn [append] in H. rewrite H. cbn. by rewrite app_nil_r.
  - replace (a +:+ String c w) with ((a +:+ String c "") +:+ w) by (by rewrite str_append_assoc). rewrite IH by done.
    destruct (lines_last a c Hne) as (l & x & -> & ->). rewrite !content_app. f_equal. rewrite !content_cons. by rewrite trim_last.
Qed.
Lemma content_trim_end s : content (lines (trim_end s)) = content (lines s).
Proof. destruct (trim_end_split s) as (w & E & Hw). rewrite E at 2. by rewrite content_spaces. Qed.

Lemma collapse_lines s : forall k,
  js_filter truthy (lines (collapse k s)) = js_filter truthy (lines s) /\ ((k = 0)%nat -> hd "" (lines (collapse k s)) = hd "" (lines s)).
Proof.
  induction s as [|c s IH]; intros k; [done|]. cbn [collapse]. destruct (c === lf) eqn:Ec.
  - apply bool_decide_eq_true in Ec as ->. unfold lines. cbn [split_on]. rewrite decide_True by done. destruct (IH (S k)) as [H _]. cbn [js_filter truthy].
    destruct (Nat.ltb_spec k 2).
    + cbn [split_on]. rewrite decide_True by done. cbn [js_filter]. change (truthy "") with false. cbv iota. split; [exact H|done].
    + change (truthy "") with false. cbv iota. split; [exact H|intros ->; lia].
  - apply bool_decide_eq_false in Ec. destruct (IH 0%nat) as [H Hh]. specialize (Hh eq_refl).
    destruct (split_on_cons lf c s Ec) as (x & l & E1 & E2). destruct (split_on_cons lf c (collapse 0 s) Ec) as (x' & l' & E1' & E2').
    unfold lines in *. rewrite E2, E2'. rewrite E1, E1' in H. rewrite E1, E1' in Hh. cbn [hd] in Hh. subst x'. split; [|done].
    cbn [js_filter]. change (truthy (String c x)) with true. cbv iota. f_equal. cbn [js_filter] in H. destruct (truthy x); [by injection H|done].
Qed.
Lemma content_nonempty l : content l = content (js_filter truthy l).
Proof.
  induction l as [|x l IH]; [done|]. cbn [js_filter]. rewrite content_cons, IH. destruct (truthy x) eqn:E; [by rewrite content_cons|].
  destruct x; [done|discriminate E].
Qed.
Lemma content_collapse s : content (lines (collapse 0 s)) = content (lines s).
Proof. rewrite (content_nonempty (lines (collapse 0 s))), (content_nonempty (lines s)). by rewrite (proj1 (collapse_lines s 0)). Qed.

Lemma trim_end_idem s : trim_end (trim_end s) = trim_end s.
Proof.
  induction s as [|c s IH]; [done|]. cbn [trim_end]. destruct (trim_end s) as [|d t] eqn:E.
  - destruct (is_space c) eqn:Ec; [done|]. cbn. by rewrite Ec.
  - cbn [trim_end] in IH |- *. by rewrite IH.
Qed.
Lemma trim_start_first s c t : trim_start s = String c t -> is_space c = false.
Proof. induction s as [|d s IH]; cbn; [done|]. destruct (is_space d) eqn:E; [done|]. by intros [= <- <-]. Qed.
Lemma trim_end_first c t : is_space c = false -> trim_end (String c t) = String c (trim_end t).
Proof. intros Hc. cbn. rewrite Hc. by destruct (trim_end t). Qed.
Lemma trim_start_trim s : trim_start (trim s) = trim s.
Proof.
  unfold trim. destruct (trim_start s) as [|c t] eqn:E; [done|]. apply trim_start_first in E. rewrite (trim_end_first c t E). cbn. by rewrite E.
Qed.
Lemma trim_idem s : trim (trim s) = trim s.
Proof. unfold trim at 1. rewrite trim_start_trim. unfold trim. by rewrite trim_end_idem. Qed.
Lemma trim_of_trim_end s : trim (trim_end s) = trim s.
Proof.
  destruct (trim_end_split s) as (w & E & Hw). rewrite E at 2. clear E. generalize (trim_end s). intros a. revert a.
  induction w as [|c w IH]; intros a; [by rewrite str_append_nil_r|]. cbn in Hw. apply andb_true_iff in Hw as [Hc Hw].
  replace (a +:+ String c w) with ((a +:+ String c "") +:+ w) by (by rewrite str_append_assoc). rewrite <- IH by done. by rewrite trim_last.
Qed.
Lemma trim_of_trim_start s : trim (trim_start s) = trim s.
Proof.
  unfold trim. f_equal. induction s as [|c s IH]; [done|]. cbn. destruct (is_space c) eqn:E; [done|]. cbn. by rewrite E.
Qed.
Lemma strip_first c t : is_mark c = true -> strip_mark (String c t) = trim_start t.
Proof. intros H. cbn. by rewrite H. Qed.
Lemma bulletText_trim x : bulletText (trim x) = bulletText x.
Proof.
  unfold bulletText. rewrite trim_start_trim. unfold trim at 2. destruct (trim_start x) as [|c t] eqn:E; [done|]. apply trim_start_first in E.
  rewrite trim_end_first by done. destruct (is_mark c) eqn:Em; cbn [strip_mark]; rewrite Em.
  - by rewrite !trim_of_trim_start, trim_of_trim_end.
  - rewrite <- (trim_end_first c t E). apply trim_of_trim_end.
Qed.
Lemma is_bullet_cases x : isBullet x = true -> exists c t, is_mark c = true /\ trim_start x = String c (String " " t).
Proof.
  unfold isBullet. intros [H|H]%orb_true_iff; apply starts_with_spec in H as [t ->]; [by exists "-"%char, t|by exists "*"%char, t].
Qed.
Lemma is_bullet_mark x c t : is_mark c = true -> trim_start x = String c (String " " t) -> isBullet x = true.
Proof. unfold isBullet, is_mark. intros [H|H]%orb_true_iff ->; apply bool_decide_eq_true in H as ->; done. Qed.

(** The texts of the bullets, as they are after trimming. *)
Definition text_of (x : string) : list string := if isBullet x && truthy (bulletText x) then [bulletText x] else [].
Lemma text_of_trim x : text_of (trim x) = text_of x.
Proof.
  unfold text_of. rewrite bulletText_trim. destruct (truthy (bulletText x)) eqn:Et; [|by rewrite !andb_false_r]. rewrite !andb_true_r.
  replace (isBullet (trim x)) with (isBullet x); [done|]. symmetry. destruct (isBullet x) eqn:Eb.
  - apply is_bullet_cases in Eb as (c & t & Hc & E). destruct (is_space c) eqn:Es; [by apply trim_start_first in E; rewrite E in Es|].
    unfold bulletText in Et. rewrite E, strip_first in Et by done. cbn [trim_start] in Et. change (is_space " ") with true in Et. cbv iota in Et.
    rewrite trim_of_trim_start in Et. apply (is_bullet_mark _ c (trim_end t)); [done|]. rewrite trim_start_trim. unfold trim. rewrite E, trim_end_first by done. f_equal.
    cbn [trim_end]. change (is_space " ") with true. destruct (trim_end t) eqn:Ee; [|done]. exfalso. rewrite <- trim_of_trim_end, Ee in Et. discriminate Et.
  - destruct (isBullet (trim x)) eqn:Eb'; [|done]. apply is_bullet_cases in Eb' as (c & t & Hc & E). rewrite trim_start_trim in E. unfold trim in E.
    destruct (trim_end_split (trim_start x)) as (w & Es & _). rewrite E in Es. cbn in Es. by rewrite (is_bullet_mark x c (t +:+ w)) in Eb.
Qed.
Lemma isMarker_trim x : isMarker (trim x) = isMarker x.
Proof. unfold isMarker. by rewrite trim_idem. Qed.
(** What is seen through [trim] is seen in the content. *)
Lemma view_content {B} (V : string -> list B) l : (forall x, V (trim x) = V x) -> V "" = [] -> concat (map V (content l)) = concat (map V l).
Proof.
  intros HV H0. induction l as [|x l IH]; [done|]. rewrite content_cons, map_app, concat_app, IH. cbn [map concat]. f_equal.
  rewrite <- (HV x). destruct (trim x) as [|c t]; [by rewrite H0|]. apply app_nil_r.
Qed.
Definition texts (l : list string) : list string := concat (map text_of l).
Lemma texts_content l : texts (content l) = texts l.
Proof. apply view_content; [exact text_of_trim|done]. Qed.
Definition markers (l : list string) : list string := concat (map (fun x => if isMarker x then [trim x] else []) l).
Lemma markers_content l : markers (content l) = markers l.
Proof. apply view_content; [|done]. intros x. by rewrite isMarker_trim, trim_idem. Qed.
(** The lines that begin with no mark of a list, markers aside: headings and prose. *)
Definition prose_of (x : string) : list string :=
  if negb (truthy (trim x)) || str_some is_mark (str_take 1 (trim x)) || isMarker x then [] else [trim x].
Definition prose (l : list string) : list string := concat (map prose_of l).
Lemma prose_content l : prose (content l) = prose l.
Proof. apply view_content; [|done]. intros x. unfold prose_of. by rewrite isMarker_trim, trim_idem. Qed.
(** *** The lines after the actions *)

Lemma bullet_no_marker x : isBullet x = true -> isMarker x = false.
Proof.
  intros (c & t & Hc & E)%is_bullet_cases. unfold isMarker, trim. rewrite E. apply trim_start_first in E. rewrite trim_end_first by done.
  unfold is_mark in Hc. apply orb_true_iff in Hc as [->%bool_decide_eq_true| ->%bool_decide_eq_true]; done.
Qed.
Lemma bullet_no_prose x : isBullet x = true -> prose_of x = [].
Proof.
  intros (c & t & Hc & E)%is_bullet_cases. unfold prose_of, trim. rewrite E. apply trim_start_first in E. rewrite trim_end_first by done.
  cbn [str_take str_some]. rewrite Hc. by rewrite orb_true_r.
Qed.
Lemma format_bullet t d : isBullet (formatBullet t d) = true.
Proof. unfold formatBullet. by destruct (truthy_opt (captureDate t)). Qed.
Definition after_update (actions : list ConsolidationAction) (today : string) (n : Z) (line : string) : string :=
  match update_of actions n with Some t => formatBullet t (captureDate (bulletText line) ?? today) | None => line end.
(** What the actions leave of the bullet of a number. *)
Definition item (actions : list ConsolidationAction) (today : string) (n : Z) (line : string) : list string :=
  if deleted actions n then [] else [after_update actions today n line].
Fixpoint items (actions : list ConsolidationAction) (today : string) (n : Z) (l : list string) : list string :=
  match l with [] => [] | b :: l => (item actions today (n + 1) b ++ items actions today (n + 1) l)%list end.
Fixpoint revised (actions : list ConsolidationAction) (today : string) (n : Z) (l : list string) : list string :=
  match l with
  | [] => []
  | x :: l =>
      if isMarker x then revised actions today n l
      else if negb (isBullet x) then x :: revised actions today n l
      else (item actions today (n + 1) x ++ revised actions today (n + 1) l)%list
  end.

Section revise.
Variables (actions : list ConsolidationAction) (today : string).
Abbreviation rev_ := (revised actions today).
Lemma pop_content out : content (pop_blank out) = content out.
Proof.
  unfold pop_blank. destruct (last out) as [x|] eqn:E; [|done]. destruct (trim x === "") eqn:Et; [|done]. apply bool_decide_eq_true in Et.
  apply last_Some in E as [l ->]. rewrite length_app, take_app_le, take_ge by (cbn; lia). rewrite content_app, content_cons, Et. cbn. by rewrite app_nil_r.
Qed.
Lemma pop_in out x : x ∈ pop_blank out -> x ∈ out.
Proof. unfold pop_blank. destruct (last out); [|done]. destruct (_ === _); [|done]. apply subseteq_take. Qed.
Lemma revise_content l : forall n out, content (revise actions today n out l) = (content out ++ content (rev_ n l))%list.
Proof.
  induction l as [|x l IH]; intros n out; cbn [revise revised]; [by rewrite app_nil_r|]. destruct (isMarker x); [by rewrite IH, pop_content|].
  destruct (negb (isBullet x)); [by rewrite IH, content_app, <- app_assoc, <- content_app|]. unfold item. destruct (deleted actions (n + 1)); [by rewrite IH|].
  rewrite IH, !content_app. by rewrite <- app_assoc.
Qed.
Lemma revise_in l : forall n out x, x ∈ revise actions today n out l -> x ∈ out \/ x ∈ rev_ n l.
Proof.
  induction l as [|y l IH]; intros n out x; cbn [revise revised]; [by left|]. destruct (isMarker y).
  { intros [H%pop_in|H]%IH; [by left|by right]. }
  destruct (negb (isBullet y)); [intros [H|H]%IH; [apply elem_of_app in H as [H| ->%list_elem_of_singleton]; [by left|right; apply list_elem_of_here]|right; by apply list_elem_of_further]|].
  unfold item. destruct (deleted actions (n + 1)); [intros [H|H]%IH; [by left|by right]|].
  intros [H|H]%IH; [apply elem_of_app in H as [H|H]; [by left|right; apply elem_of_app; by left]|right; apply elem_of_app; by right].
Qed.
Lemma item_bullet n x b : isBullet x = true -> b ∈ item actions today n x -> isBullet b = true.
Proof.
  unfold item, after_update. intros Hx. destruct (deleted actions n); [by intros ?%not_elem_of_nil|]. intros ->%list_elem_of_singleton.
  destruct (update_of actions n); [apply format_bullet|done].
Qed.
Lemma texts_cons x l : texts (x :: l) = (text_of x ++ texts l)%list.
Proof. done. Qed.
Lemma texts_app a b : texts (a ++ b) = (texts a ++ texts b)%list.
Proof. unfold texts. by rewrite map_app, concat_app. Qed.
Lemma prose_app a b : prose (a ++ b) = (prose a ++ prose b)%list.
Proof. unfold prose. by rewrite map_app, concat_app. Qed.
Lemma markers_app a b : markers (a ++ b) = (markers a ++ markers b)%list.
Proof. unfold markers. by rewrite map_app, concat_app. Qed.
Lemma only_bullets l : (forall b, b ∈ l -> isBullet b = true) -> prose l = [] /\ markers l = [].
Proof.
  induction l as [|b l IH]; intros Hl; [done|]. destruct IH as [Hp Hm]; [intros x Hx; apply Hl; by apply list_elem_of_further|].
  assert (Hb := Hl b (list_elem_of_here _ _)). unfold prose, markers in *. cbn [map concat]. by rewrite Hp, Hm, bullet_no_prose, bullet_no_marker.
Qed.
Lemma revised_views l : forall n,
  texts (rev_ n l) = texts (items actions today n (js_filter isBullet l)) /\ prose (rev_ n l) = prose l /\ markers (rev_ n l) = [].
Proof.
  induction l as [|x l IH]; intros n; [done|]. cbn [revised js_filter]. destruct (isMarker x) eqn:Em.
  { destruct (isBullet x) eqn:Eb; [by rewrite bullet_no_marker in Em|]. destruct (IH n) as (Ht & Hp & Hm). split_and!; [done| |done].
    rewrite Hp. unfold prose. cbn [map concat]. unfold prose_of at 2. by rewrite Em, orb_true_r. }
  destruct (isBullet x) eqn:Eb; cbn [negb items].
  - destruct (IH (n + 1)) as (Ht & Hp & Hm). rewrite !texts_app, prose_app, markers_app, Ht, Hp, Hm.
    destruct (only_bullets (item actions today (n + 1) x)) as [-> ->]; [intros b; by apply item_bullet|]. split_and!; [done| |done].
    unfold prose. cbn [map concat]. by rewrite bullet_no_prose.
  - destruct (IH n) as (Ht & Hp & Hm). split_and!.
    + rewrite texts_cons. unfold text_of at 1. by rewrite Eb.
    + unfold prose in *. cbn [map concat]. by rewrite Hp.
    + unfold markers in *. cbn [map concat]. by rewrite Em, Hm.
Qed.
End revise.

(** *** The texts of the actions are lines *)

Lemma one_line_trim s : one_line s = true -> one_line (trim s) = true.
Proof. apply trim_every. Qed.
Lemma group_line r line h n : one_line line = true -> Regex.exec r line = Some h -> one_line (group_of n h) = true.
Proof.
  intros Hl E. unfold Regex.exec in E. apply (search_chars (fun c => c !== lf)) in E as [_ Hp]; [|exact Hl].
  unfold group_of. destruct (Regex.group n h) as [g|] eqn:Eg; [|done]. by apply (group_chars (fun c => c !== lf) n h g).
Qed.
Definition action_text (a : ConsolidationAction) : string := match a with Update _ t => t | Delete _ => "" | Add t => t end.
Lemma parsed_lines out a : a ∈ parseConsolidationActions out -> one_line (action_text a) = true.
Proof.
  unfold parseConsolidationActions. intros (raw & Hraw & E)%list_elem_of_omap. apply lines_each, one_line_trim in Hraw. revert E. unfold parse_action. cbv zeta.
  destruct (negb _ || _); [done|]. destruct (Regex.exec update_re _) as [h|] eqn:E1; [intros [= <-]; by apply one_line_trim, (group_line _ _ _ 2 Hraw E1)|].
  destruct (Regex.exec delete_re _) as [h|] eqn:E2; [by intros [= <-]|]. destruct (Regex.exec add_re _) as [h|] eqn:E3; [|done].
  intros [= <-]; by apply one_line_trim, (group_line _ _ _ 1 Hraw E3).
Qed.
Lemma update_in actions n t : update_of actions n = Some t -> exists i, Update i t ∈ actions.
Proof.
  unfold update_of. enough (H : forall l o, foldl (fun o a => match a with Update i t => if i === n then Some t else o | _ => o end) o l = Some t -> o = Some t \/ exists i, Update i t ∈ l).
  { intros E. by destruct (H actions None E). }
  induction l as [|a l IH]; intros o; cbn [foldl]; [by left|]. intros [E|(i & Hi)]%IH; [|right; exists i; by apply list_elem_of_further].
  destruct a as [i u|i|u]; [|by left..]. destruct (i === n); [|by left]. injection E as ->. right. exists i. apply list_elem_of_here.
Qed.
Lemma format_line t d : one_line t = true -> one_line d = true -> one_line (formatBullet t d) = true.
Proof.
  unfold formatBullet, one_line. intros Ht Hd. destruct (truthy_opt _); rewrite !str_every_app; cbn [str_every]; rewrite ?Ht, ?Hd; done.
Qed.
Lemma capture_date_line s d : captureDate s = Some d -> one_line d = true.
Proof.
  unfold captureDate, date_head. destruct (_ && _) eqn:E; [|done]. intros [= <-]. to_prop.
  destruct (date_chars (str_take 10 (str_drop 1 s))) as (?&?&?&?&?&?&?&?&?&?&_&Hd); [done|]. by apply spaceless_line.
Qed.
Lemma revised_lines actions today l : (forall a, a ∈ actions -> one_line (action_text a) = true) -> one_line today = true -> (forall x, x ∈ l -> one_line x = true) ->
  forall n x, x ∈ revised actions today n l -> one_line x = true.
Proof.
  intros Ha Ht. induction l as [|y l IH]; intros Hl n x; cbn [revised]; [by intros ?%not_elem_of_nil|]. assert (Hy := Hl y (list_elem_of_here _ _)).
  assert (IH' := IH (fun z Hz => Hl z ltac:(by apply list_elem_of_further))). destruct (isMarker y); [by apply IH'|].
  destruct (negb (isBullet y)); [intros [->|H]%elem_of_cons; [done|by apply (IH' n)]|]. intros [H|H]%elem_of_app; [|by apply IH' in H].
  unfold item in H. destruct (deleted actions (n + 1)); [by apply not_elem_of_nil in H|]. apply list_elem_of_singleton in H as ->. unfold after_update.
  destruct (update_of actions (n + 1)) as [t|] eqn:E; [|done]. apply update_in in E as [i Hi]. apply format_line; [exact (Ha _ Hi)|].
  destruct (captureDate (bulletText y)) eqn:Ec; [by apply capture_date_line in Ec|done].
Qed.

(** *** The marker, and the captures that follow *)

Lemma apply_lines body actions at_ : (forall a, a ∈ actions -> one_line (action_text a) = true) -> four_digit_year at_ = true ->
  exists pre, lines (applyConsolidationActions body actions at_) = (pre ++ [""; consolidationMarker at_])%list /\
  content pre = content (revised actions (dateStr at_) 0 (lines body) ++ map (fun t => formatBullet t (dateStr at_)) (adds_of actions)).
Proof.
  intros Ha Hat. assert (Hd := date_one_line at_ Hat). unfold applyConsolidationActions. cbv zeta.
  set (out := (revise _ _ _ _ _ ++ _)%list). exists (lines (trim_end (collapse 0 (unlines out)))). split.
  - change (String lf (consolidationMarker at_)) with ("" +:+ String lf (consolidationMarker at_)). rewrite !lines_app. f_equal. cbn [app lines split_on]. f_equal. apply lines_one.
    unfold consolidationMarker, one_line in *. rewrite !str_every_app, Hd. done.
  - rewrite content_trim_end, content_collapse. transitivity (content out); [|unfold out; by rewrite !content_app, revise_content]. assert (Hl : forall x, x ∈ out -> one_line x = true).
    { intros x [H|(t & -> & Ht)%list_elem_of_fmap]%elem_of_app.
      - apply revise_in in H as [?%not_elem_of_nil|H]; [done|]. revert H. apply revised_lines; [done|done|]. apply lines_each.
      - apply format_line; [|done]. unfold adds_of in Ht. apply list_elem_of_omap in Ht as (a & Hin & E). destruct a; [done..|]. injection E as <-. exact (Ha _ Hin). }
    destruct out as [|x out']; [done|]. rewrite lines_unlines; [done|done|exact Hl].
Qed.
Lemma below_last pre m new : isMarker m = true -> some isMarker new = false -> below_marker (pre ++ m :: new) = new.
Proof.
  intros Hm Hn. induction pre as [|x pre IH]; cbn [app below_marker]; [by rewrite Hn, Hm|].
  replace (some isMarker (pre ++ m :: new)) with true; [exact IH|]. symmetry. apply existsb_exists. exists m. split; [|done]. apply list_elem_of_In, elem_of_app. right. apply list_elem_of_here.
Qed.
Lemma drop_bullets_app k pre m new : isBullet m = false ->
  drop_bullets k (pre ++ m :: new) = (drop_bullets k pre ++ m :: drop_bullets (k - length (js_filter isBullet pre)) new)%list.
Proof.
  intros Hm. revert k. induction pre as [|x pre IH]; intros k; cbn [app js_filter].
  - cbn [length]. rewrite Nat.sub_0_r. destruct k; cbn [drop_bullets]; [by destruct new|by rewrite Hm].
  - destruct k as [|k]; [cbn [drop_bullets]; cbn; by destruct new|]. cbn [drop_bullets]. destruct (isBullet x); cbn [length]; [by rewrite IH|]. by rewrite IH.
Qed.

Lemma trim_end_app a b : trim_end b <> "" -> trim_end (a +:+ b) = a +:+ trim_end b.
Proof.
  intros Hb. induction a as [|c a IH]; [done|]. cbn [append trim_end]. rewrite IH. destruct (a +:+ trim_end b) as [|d s] eqn:E; [|done].
  exfalso. apply Hb. apply (f_equal String.length) in E. rewrite length_append in E. destruct (trim_end b); [done|cbn in E; lia].
Qed.
Lemma trim_blank s : trim s = "" -> trim_end s = "".
Proof.
  destruct (trim_start s) as [|c t] eqn:E.
  - intros _. induction s as [|c s IH]; [done|]. cbn in E |- *. destruct (is_space c); [by rewrite IH|done].
  - unfold trim. rewrite E, (trim_end_first c t) by (by apply trim_start_first in E). done.
Qed.
Lemma applied_end body actions at_ : trim_end (applyConsolidationActions body actions at_) = applyConsolidationActions body actions at_ /\
  truthy (trim (applyConsolidationActions body actions at_)) = true.
Proof.
  assert (E : trim_end (applyConsolidationActions body actions at_) = applyConsolidationActions body actions at_).
  { unfold applyConsolidationActions. cbv zeta. set (t := trim_end (collapse _ _)). unfold consolidationMarker.
    replace (t +:+ String lf (String lf (MARKER_PREFIX +:+ " " +:+ dateStr at_ +:+ " -->")))
      with ((t +:+ String lf (String lf (MARKER_PREFIX +:+ " " +:+ dateStr at_))) +:+ " -->") by (rewrite str_append_assoc; reflexivity).
    by rewrite trim_end_app. }
  split; [done|]. destruct (trim _) eqn:Et; [|done]. exfalso. apply trim_blank in Et. rewrite E in Et. unfold applyConsolidationActions in Et.
  apply (f_equal String.length) in Et. rewrite length_append in Et. cbn in Et. lia.
Qed.

(** What a capture writes on a notebook that is not blank. *)
Lemma fold_lines existing facts at_ trusted body n : truthy (trim existing) = true -> four_digit_year at_ = true ->
  foldCapture existing facts at_ trusted = (body, n) ->
  (n = 0%nat /\ body = existing) \/
  exists new, length new = n /\ (forall b, b ∈ new -> isBullet b = true) /\
    lines body = drop_bullets (length (js_filter isBullet (lines (trim_end existing) ++ new)) - MAX_FACTS) (lines (trim_end existing) ++ new).
Proof.
  intros He Hat. unfold foldCapture. cbv zeta. rewrite He. set (clean := js_filter truthy _). set (seen := map normalize _).
  destruct (new_bullets_spec at_ seen clean) as (ts & Hnew & _ & Ht & _).
  assert (Hl : forall b, b ∈ new_bullets at_ seen clean -> one_line b = true /\ isBullet b = true).
  { rewrite Hnew. intros b (x & -> & Hin)%list_elem_of_fmap. destruct (Ht x Hin) as ((_ & (f & -> & _)%list_elem_of_fmap)%elem_of_js_filter & _).
    destruct (new_line at_ (clean_fact trusted f) Hat (clean_fact_one_line trusted f)) as (? & ? & _). by split. }
  destruct clean as [|c0 clean0] eqn:Ec; [intros [= <- <-]; by left|]. destruct (new_bullets at_ seen (c0 :: clean0)) as [|b0 new0] eqn:En; [intros [= <- <-]; by left|].
  rewrite <- En in *. intros [= Hb Hn]. right. exists (new_bullets at_ seen (c0 :: clean0)). split; [done|]. split; [by intros b Hb'; apply Hl|].
  destruct (written_lines existing (new_bullets at_ seen (c0 :: clean0))) as [H1 H2]; [by rewrite En|by intros b Hb'; apply Hl|].
  cbv zeta in H1, H2. rewrite He in H1, H2. rewrite <- Hb. etransitivity; [exact H2|]. by rewrite H1.
Qed.

End consolidated.


(** ** What the queue does not order

    A rewrite that names the revision it read is not in the queue of its scope: it succeeds
    while a consolidation waits for the model, and what the consolidation writes then, from what
    it read before, takes its place. *)
Inductive Asked := AskMaintain (sc : ScopeId) | AskReplace (sc : ScopeId) (content revision : string).
Definition serve_keep (q : Asked) : keep bool :=
  match q with
  | AskMaintain sc => _ ← maintain_queued "" (Some (fun _ _ => Ok (Some "NONE"))) sc; mret true
  | AskReplace sc content revision => replaceIfRevision (fun s => s) sc content revision
  end.
Definition a_book : string := "# Memory" +:+ String lf ("- a" +:+ String lf "").
Example edit_lost :
  let w := acts serve_keep ([Begin (AskMaintain "s") 0; Move 0 0; Move 0 0; Move 0 0; Move 0 0] ++
    [Begin (AskReplace "s" ("# Memory" +:+ String lf "- b") a_book) 0; Move 1 0; Move 1 0] ++ repeat (Move 0 0) 4)%list (begins (MkKeeper (<["s" := a_book]> ∅) [] ∅ 0)) in
  map (fun c => match c.2 with Ret b => Some b | _ => None end) w.(pool) = [Some true; Some true] /\
  str_includes ((w.(st).(k_books) !! "s") ?? "") "- a" = true /\ str_includes ((w.(st).(k_books) !! "s") ?? "") "- b" = false.
Proof. by vm_compute. Qed.
