(* ===== verification/Bursts.v ===== *)
(** * Bursts: when the turns of a conversation are looked through for facts

    The turns of one person in one conversation wait until nothing came for a while, or until
    they are many, and are then shown to the model together
    ([src/src/memory/strategies/per-turn.ts]).  The bursts that wait are objects with a timer
    each; a timer's function holds on to its burst.  The model is the host's. *)

From S2P Require Import Prelude JsString Scope Async Memory.

#[local] Open Scope string_scope.
#[local] Open Scope Z_scope.

(** [DEFAULT_CAPTURE_QUIET_MS] src/src/memory/strategies/per-turn.ts:7-7 *)
Definition DEFAULT_CAPTURE_QUIET_MS : Z := 180000.
(** [DEFAULT_CAPTURE_MAX_TURNS] src/src/memory/strategies/per-turn.ts:8-8 *)
Definition DEFAULT_CAPTURE_MAX_TURNS : Z := 10.

(** ** The facts of a burst *)

(** [Burst] src/src/memory/strategies/per-turn.ts:67-67 *)
Record Turn := MkTurn { input : string; reply : string }.
#[export] Instance Turn_eq : EqDecision Turn. Proof. solve_decision. Defined.
(** [Burst] src/src/memory/strategies/per-turn.ts:61-69 *)
Record Burst := MkBurst {
  scopeId : ScopeId;
  actorId : option string;
  autonomous : option bool;
  conversationScopeId : ScopeId;
  conversationLabel : option string;
  turns : list Turn;
  timer : option nat;
}.
#[export] Instance Burst_eta : Eta Burst := fun b =>
  MkBurst b.(scopeId) b.(actorId) b.(autonomous) b.(conversationScopeId) b.(conversationLabel) b.(turns) b.(timer).
(** [TurnEndCtx] src/src/memory/strategies/per-turn.ts:71-79 *)
Record TurnEndCtx := MkCtx {
  c_scopeId : ScopeId;
  c_input : string;
  c_reply : string;
  c_actorId : option string;
  c_autonomous : option bool;
  c_conversationScopeId : option ScopeId;
  c_conversationLabel : option string;
}.
(** [isAutonomousBurst] src/src/memory/strategies/per-turn.ts:81-83 *)
Definition isAutonomousBurst (b : Burst) : bool := (b.(autonomous) === Some true) || isSystemActor b.(actorId).
(** [parseFacts] src/src/memory/strategies/per-turn.ts:37-41 *)
Definition parseFacts (out : string) : list string :=
  let trimmed := trim out in
  if negb (truthy trimmed) || (to_lower trimmed === "none") then [] else js_filter truthy (bullets trimmed).

Section flush.
Variables (MEMORY_EXTRACTION_PROMPT AUTONOMOUS_EXTRACTION_ADDENDUM : string).
(** [harness.oneShot] *)
Variable oneShot : option (string -> string -> result string (option string)).

Definition blank_line : string := String lf (String lf "").
(** [extractFacts] src/src/memory/strategies/per-turn.ts:50-50 *)
Definition transcript (ts : list Turn) : string :=
  join (blank_line +:+ "---" +:+ blank_line) (map (fun t => "User said:" +:+ String lf t.(input) +:+ blank_line +:+ "Assistant replied:" +:+ String lf t.(reply)) ts).
(** [extractFacts] src/src/memory/strategies/per-turn.ts:43-58
    One await, of the model: a failure is no fact. *)
Definition extractFacts (ts : list Turn) (auto : bool) : Async.call (jsmap ScopeId string) string (list string) :=
  match oneShot with
  | None => mret []
  | Some ask =>
      let system := if auto then MEMORY_EXTRACTION_PROMPT +:+ blank_line +:+ AUTONOMOUS_EXTRACTION_ADDENDUM else MEMORY_EXTRACTION_PROMPT in
      out ← await (fun s => Some (ask system (transcript ts), s));
      mret (match out with Ok out => parseFacts (out ?? "") | Throw _ => [] end)
  end.
(** [flush] src/src/memory/strategies/per-turn.ts:133-148 *)
Definition flush (b : Burst) : Async.call (jsmap ScopeId string) string unit :=
  let auto := isAutonomousBurst b in
  facts ← extractFacts b.(turns) auto;
  match facts with
  | [] => mret tt
  | _ =>
      at_ ← now;
      _ ← capture b.(scopeId) facts at_ None;
      if auto then mret tt
      else _ ← ccCaptureToPersonal b.(conversationScopeId) b.(actorId) facts at_ b.(conversationLabel); mret tt
  end.
End flush.

(** ** The buffer *)

(** The map of bursts and the burst objects, the timers that are set, with the function of
    each: when it is due, the key it deletes and the burst it flushes. *)
Record Buffer := MkBuffer {
  pending : jsmap string nat;
  heap : jsmap nat Burst;
  timers : jsmap nat (Z * string * nat);
  next_burst : nat;
  next_timer : nat;
}.
#[export] Instance Buffer_eta : Eta Buffer := fun s => MkBuffer s.(pending) s.(heap) s.(timers) s.(next_burst) s.(next_timer).
Definition no_bursts : Buffer := MkBuffer ∅ ∅ ∅ 0 0.

Definition nul : ascii := "000"%char.
(** [createBurstBuffer] src/src/memory/strategies/per-turn.ts:103-103 *)
Definition burst_key (b : Burst) : string :=
  b.(scopeId) +:+ String nul (b.(conversationScopeId) +:+ String nul ((b.(actorId) ?? "") +:+ String nul (if b.(autonomous) ?? false then "auto" else ""))).
(** [createBurstBuffer] src/src/memory/strategies/per-turn.ts:93-100 *)
Definition burst_of (c : TurnEndCtx) : Burst :=
  MkBurst c.(c_scopeId) c.(c_actorId) c.(c_autonomous) (c.(c_conversationScopeId) ?? c.(c_scopeId)) c.(c_conversationLabel) [MkTurn c.(c_input) c.(c_reply)] None.

Section buffer.
Variables quietMs maxTurns : Z.

(** [setTimeout]: a delay that is no positive 32-bit integer is one of 1. *)
Definition delay : Z := if (quietMs <? 1) || (2147483647 <? quietMs) then 1 else quietMs.
(** [createBurstBuffer] src/src/memory/strategies/per-turn.ts:92-122
    A turn has ended, at time [t]: the burst to flush now, if there is one. *)
Definition onTurnEnd (c : TurnEndCtx) (t : Z) (s : Buffer) : option Burst * Buffer :=
  let burst := burst_of c in
  if quietMs <=? 0 then (Some burst, s)
  else
    let key := burst_key burst in
    let '(id, s) :=
      match s.(pending) !! key with
      | Some id =>
          (id, match s.(heap) !! id with
               | Some p => (s <| heap := <[id := p <| turns := (p.(turns) ++ burst.(turns))%list |>]> s.(heap) |>)
                             <| timers := match p.(timer) with Some tm => delete tm s.(timers) | None => s.(timers) end |>
               | None => s end)
      | None => (s.(next_burst), ((s <| heap := <[s.(next_burst) := burst]> s.(heap) |>) <| pending := <[key := s.(next_burst)]> s.(pending) |>) <| next_burst := S s.(next_burst) |>)
      end in
    match s.(heap) !! id with
    | None => (None, s)
    | Some active =>
        if Z.of_nat (length active.(turns)) >=? maxTurns then (Some active, s <| pending := delete key s.(pending) |>)
        else
          let tm := s.(next_timer) in
          (None, ((s <| timers := <[tm := (t + delay, key, id)]> s.(timers) |>) <| heap := <[id := active <| timer := Some tm |>]> s.(heap) |>) <| next_timer := S tm |>)
    end.
(** [createBurstBuffer] src/src/memory/strategies/per-turn.ts:116-119
    The function of a timer, not before it is due. *)
Definition fire (tm : nat) (t : Z) (s : Buffer) : option Burst * Buffer :=
  match s.(timers) !! tm with
  | Some (due, key, id) =>
      if due <=? t then (s.(heap) !! id, (s <| timers := delete tm s.(timers) |>) <| pending := delete key s.(pending) |>) else (None, s)
  | None => (None, s)
  end.

Inductive Event := TurnEnd (c : TurnEndCtx) (t : Z) | Fire (tm : nat) (t : Z).
Definition step (e : Event) (s : Buffer) : option Burst * Buffer := match e with TurnEnd c t => onTurnEnd c t s | Fire tm t => fire tm t s end.
(** What a run flushes, in order, and where it ends. *)
Fixpoint run (l : list Event) (s : Buffer) : list Burst * Buffer :=
  match l with
  | [] => ([], s)
  | e :: l => let '(o, s) := step e s in let '(bs, s) := run l s in ((match o with Some b => [b] | None => [] end ++ bs)%list, s)
  end.
End buffer.

(** ** Each turn is flushed once, in order *)

Section flushed.
Variables quietMs maxTurns : Z.
Abbreviation delay := (delay quietMs).

(** The turns of a key that wait. *)
Definition waiting (k : string) (s : Buffer) : list Turn :=
  match s.(pending) !! k with Some id => match s.(heap) !! id with Some b => b.(turns) | None => [] end | None => [] end.
Definition flushed_of (k : string) (o : option Burst) : list Turn :=
  match o with Some b => if burst_key b === k then b.(turns) else [] | None => [] end.
(** What an event offers, and when. *)
Definition offer (k : string) (e : Event) : list Turn :=
  match e with TurnEnd c _ => if burst_key (burst_of c) === k then [MkTurn c.(c_input) c.(c_reply)] else [] | Fire _ _ => [] end.
Definition offer_time (k : string) (last : option Z) (e : Event) : option Z :=
  match e with TurnEnd c t => if burst_key (burst_of c) === k then Some t else last | Fire _ _ => last end.

(** The bursts that wait, but for the one of [x]: each with the one timer that flushes it. *)
Record ok (x : option string) (last : string -> option Z) (s : Buffer) : Prop := {
  ok_pending k id : s.(pending) !! k = Some id -> Some k <> x -> exists b tm t0,
    s.(heap) !! id = Some b /\ burst_key b = k /\ b.(timer) = Some tm /\ s.(timers) !! tm = Some (t0 + delay, k, id) /\
    b.(turns) <> [] /\ Z.of_nat (length b.(turns)) < maxTurns /\ last k = Some t0;
  ok_timer tm due k id : s.(timers) !! tm = Some (due, k, id) ->
    Some k <> x /\ s.(pending) !! k = Some id /\ (tm < s.(next_timer))%nat /\ exists b, s.(heap) !! id = Some b /\ b.(timer) = Some tm;
  ok_heap k id : s.(pending) !! k = Some id -> (id < s.(next_burst))%nat;
  ok_inj k k' id : s.(pending) !! k = Some id -> s.(pending) !! k' = Some id -> k = k';
  ok_quiet k id : s.(pending) !! k = Some id -> 0 < quietMs;
}.
Lemma buffer_start last : ok None last no_bursts.
Proof. split; try done. Qed.

(** The burst of the turn joins what waits. *)
Definition join (c : TurnEndCtx) (s : Buffer) : nat * Buffer :=
  let burst := burst_of c in
  match s.(pending) !! burst_key burst with
  | Some id =>
      (id, match s.(heap) !! id with
           | Some p => (s <| heap := <[id := p <| turns := (p.(turns) ++ burst.(turns))%list |>]> s.(heap) |>)
                         <| timers := match p.(timer) with Some tm => delete tm s.(timers) | None => s.(timers) end |>
           | None => s end)
  | None => (s.(next_burst), ((s <| heap := <[s.(next_burst) := burst]> s.(heap) |>) <| pending := <[burst_key burst := s.(next_burst)]> s.(pending) |>) <| next_burst := S s.(next_burst) |>)
  end.
Lemma join_ok c last s : 0 < quietMs -> ok None last s ->
  let '(id, s') := join c s in let key := burst_key (burst_of c) in
  ok (Some key) last s' /\ s'.(pending) !! key = Some id /\
  (exists b, s'.(heap) !! id = Some b /\ burst_key b = key /\ b.(turns) = (waiting key s ++ [MkTurn c.(c_input) c.(c_reply)])%list) /\
  (forall k, k <> key -> waiting k s' = waiting k s).
Proof.
  intros Hq Hok. unfold join, waiting. cbv zeta. remember (burst_key (burst_of c)) as key eqn:Hkey. destruct (s.(pending) !! key) as [id|] eqn:Ep.
  - destruct (ok_pending _ _ _ Hok key id Ep ltac:(done)) as (b & tm & t0 & Hh & Hk & Htm & Ht & Hne & Hlen & Hl). rewrite Hh, Htm.
    split_and!; [|done|exists (b <| turns := (b.(turns) ++ [MkTurn c.(c_input) c.(c_reply)])%list |>); cbn; by rewrite lookup_set_eq|].
    + split; cbn.
      * intros k id' Hp Hx. destruct (ok_pending _ _ _ Hok k id' Hp ltac:(done)) as (b' & tm' & t0' & Hh' & Hk' & Htm' & Ht' & Hne' & Hlen' & Hl').
        assert (id <> id') by (intros <-; apply Hx; by rewrite (ok_inj _ _ _ Hok _ _ _ Hp Ep)).
        exists b', tm', t0'. rewrite lookup_set_ne by done. rewrite lookup_del, decide_False; [by split_and!|]. intros <-. rewrite Ht in Ht'. by injection Ht'.
      * intros tm' due k id'. rewrite lookup_del. case_decide as Hd; [done|]. intros Ht'. destruct (ok_timer _ _ _ Hok _ _ _ _ Ht') as (_ & Hp & Hlt & b' & Hh' & Htm').
        assert (id <> id') by (intros <-; rewrite Hh in Hh'; injection Hh' as <-; rewrite Htm in Htm'; by injection Htm').
        split_and!; [intros [= ->]; rewrite Ep in Hp; by injection Hp|done|done|]. exists b'. by rewrite lookup_set_ne.
      * apply Hok. 
      * apply Hok.
      * apply Hok.
    + intros k Hk'. cbn. destruct (pending s !! k) as [id'|] eqn:Ek; [|done]. rewrite lookup_set_ne; [done|]. intros <-. apply Hk'. by rewrite (ok_inj _ _ _ Hok _ _ _ Ek Ep).
  - assert (Hfresh : forall k id, pending s !! k = Some id -> id <> next_burst s) by (intros k id Hp ->; apply (ok_heap _ _ _ Hok) in Hp; lia).
    split_and!; cbn.
    + split; cbn.
      * intros k id'. rewrite lookup_set. case_decide as Hd; [by intros _ []; subst k|]. intros Hp Hx.
        destruct (ok_pending _ _ _ Hok k id' Hp ltac:(done)) as (b' & tm' & t0' & ?). exists b', tm', t0'. rewrite lookup_set_ne by (by apply not_eq_sym, (Hfresh k)). done.
      * intros tm due k id' Ht. destruct (ok_timer _ _ _ Hok _ _ _ _ Ht) as (_ & Hp & Hlt & b' & Hh' & Htm').
        assert (k <> key) by (intros ->; by rewrite Ep in Hp). rewrite !lookup_set_ne by (done || by apply not_eq_sym, (Hfresh k)). split_and!; [congruence|done|done|eauto].
      * intros k id'. rewrite lookup_set. case_decide; [intros [= <-]; lia|]. intros Hp%(ok_heap _ _ _ Hok). lia.
      * intros k k' id'. rewrite !lookup_set. case_decide; case_decide; subst; try congruence; [intros [= <-] Hp|intros Hp [= <-]|intros Hp Hp'; by apply (ok_inj _ _ _ Hok _ _ id')]; by apply Hfresh in Hp.
      * done.
    + by rewrite lookup_set_eq.
    + exists (burst_of c). by rewrite lookup_set_eq.
    + intros k Hk. rewrite lookup_set_ne by done. destruct (pending s !! k) as [id'|] eqn:Ek; [|done]. rewrite lookup_set_ne; [done|]. by apply not_eq_sym, (Hfresh k).
Qed.

(** The burst that was joined is flushed, or armed. *)
Lemma settle_ok (key : string) last t s id b : 0 < quietMs -> ok (Some key) last s -> s.(pending) !! key = Some id -> s.(heap) !! id = Some b -> burst_key b = key -> b.(turns) <> [] ->
  let last' k := if key === k then Some t else last k in
  let '(o, s') := if Z.of_nat (length b.(turns)) >=? maxTurns then (Some b, s <| pending := delete key s.(pending) |>)
    else (None, ((s <| timers := <[s.(next_timer) := (t + delay, key, id)]> s.(timers) |>) <| heap := <[id := b <| timer := Some s.(next_timer) |>]> s.(heap) |>)
                  <| next_timer := S s.(next_timer) |>) in
  ok None last' s' /\ forall k, waiting k s = (flushed_of k o ++ waiting k s')%list.
Proof.
  intros Hq Hok Hp Hh Hkey Hne last'. unfold waiting, flushed_of. destruct (Z.of_nat (length b.(turns)) >=? maxTurns) eqn:El.
  - split; [split; cbn|].
    + intros k id'. rewrite lookup_del. case_decide as Hd; [done|]. intros Hp' _. destruct (ok_pending _ _ _ Hok k id' Hp') as (b' & tm & t0 & H); [congruence|].
      exists b', tm, t0. unfold last'. by rewrite (bool_decide_eq_false_2 _ Hd).
    + intros tm due k id' Ht. destruct (ok_timer _ _ _ Hok _ _ _ _ Ht) as (Hx & Hp' & Hlt & Hb). split_and!; [done| |done|done].
      rewrite lookup_del, decide_False; [done|congruence].
    + intros k id'. rewrite lookup_del. case_decide; [done|]. apply Hok.
    + intros k k' id'. rewrite !lookup_del. case_decide; [done|]. case_decide; [done|]. apply Hok.
    + done.
    + intros k. cbn. rewrite lookup_del, Hkey. destruct (decide (key = k)) as [<-|Hd]; [by rewrite eqb_refl, Hp, Hh, app_nil_r|]. by rewrite (bool_decide_eq_false_2 _ Hd).
  - apply Z.geb_leb, Z.leb_gt in El || (rewrite Z.geb_leb in El; apply Z.leb_gt in El). split; [split; cbn|].
    + intros k id' Hp' _. destruct (decide (k = key)) as [->|Hd].
      * rewrite Hp in Hp'. injection Hp' as <-. exists (b <| timer := Some s.(next_timer) |>), s.(next_timer), t. cbn. rewrite !lookup_set_eq. unfold last'. rewrite eqb_refl. split_and!; done || lia.
      * destruct (ok_pending _ _ _ Hok k id' Hp') as (b' & tm & t0 & Hh' & Hk' & Htm & Ht & Hne' & Hl' & Hla); [congruence|]. exists b', tm, t0.
        rewrite !lookup_set_ne; [|intros E; apply (ok_timer _ _ _ Hok) in Ht as (_ & _ & Hlt & _); lia|intros <-; apply Hd; by apply (ok_inj _ _ _ Hok _ _ id)].
        unfold last'. rewrite (bool_decide_eq_false_2 (key = k)) by congruence. by split_and!.
    + intros tm due k id'. rewrite lookup_set. case_decide as Hd; [intros [= <- <- <-]; split_and!; [done|done|lia|]; exists (b <| timer := Some s.(next_timer) |>); split; [by rewrite lookup_set_eq|by rewrite <- Hd]|].
      intros Ht. destruct (ok_timer _ _ _ Hok _ _ _ _ Ht) as (Hx & Hp' & Hlt & b' & Hh' & Htm). split_and!; [done|done|lia|]. exists b'. rewrite lookup_set_ne; [done|].
      intros <-. apply Hx. by rewrite (ok_inj _ _ _ Hok _ _ _ Hp' Hp).
    + intros k id'. apply Hok.
    + intros k k' id'. apply Hok.
    + done.
    + intros k. cbn. destruct (pending s !! k) as [id'|] eqn:Ek; [|done]. rewrite lookup_set. case_decide as Hd; [subst id'; by rewrite Hh|done].
Qed.

Lemma buffer_step e last s : ok None last s ->
  let '(o, s') := step quietMs maxTurns e s in
  ok None (fun k => offer_time k (last k) e) s' /\ (forall k, (waiting k s ++ offer k e)%list = (flushed_of k o ++ waiting k s')%list).
Proof.
  intros Hok. destruct e as [c t|tm t]; cbn [step].
  - unfold onTurnEnd. cbv zeta. destruct (Z.leb_spec quietMs 0) as [Hq|Hq].
    + assert (Hnone : forall k, s.(pending) !! k = None) by (intros k; destruct (pending s !! k) as [id|] eqn:E; [|done]; apply (ok_quiet _ _ _ Hok) in E; lia).
      split; [|intros k; unfold waiting; rewrite Hnone; cbn; by rewrite app_nil_r].
      split; intros *; rewrite ?Hnone; try done. intros Ht. destruct (ok_timer _ _ _ Hok _ _ _ _ Ht) as (_ & Hp & _). by rewrite Hnone in Hp.
    + pose proof (join_ok c last s Hq Hok) as H. fold (join c s). destruct (join c s) as [id s1]. destruct H as (Hok1 & Hp & (b & Hh & Hkey & Ht) & Hw). rewrite Hh.
      pose proof (settle_ok (burst_key (burst_of c)) last t s1 id b Hq Hok1 Hp Hh Hkey) as H. rewrite Ht in H. specialize (H ltac:(by destruct (waiting _ s))). rewrite <- Ht in H. cbv zeta in H.
      destruct (if _ >=? _ then _ else _) as [o s2] in H |- *. destruct H as [Hok2 Hw2]. split; [done|]. intros k. rewrite <- Hw2. cbn [offer].
      destruct (decide (burst_key (burst_of c) = k)) as [<-|Hd]; [rewrite eqb_refl, <- Ht; unfold waiting; by rewrite Hp, Hh|].
      rewrite (bool_decide_eq_false_2 _ Hd), app_nil_r. by rewrite Hw.
  - unfold fire. destruct (s.(timers) !! tm) as [[[due key] id]|] eqn:Et; [|split; [done|by intros k; rewrite app_nil_r]].
    destruct (due <=? t) eqn:Ed; [|split; [done|by intros k; rewrite app_nil_r]].
    destruct (ok_timer _ _ _ Hok _ _ _ _ Et) as (_ & Hp & Hlt & b & Hh & Htm). rewrite Hh. split; [split; cbn|].
    + intros k id'. rewrite lookup_del. case_decide as Hd; [done|]. intros Hp' _. destruct (ok_pending _ _ _ Hok k id' Hp' ltac:(done)) as (b' & tm' & t0 & Hh' & Hk' & Htm' & Ht' & ?).
      exists b', tm', t0. rewrite lookup_del, decide_False; [by destruct_and?; split_and!|]. intros <-. rewrite Et in Ht'. by injection Ht'.
    + intros tm' due' k id'. rewrite lookup_del. case_decide as Hd; [done|]. intros Ht'. destruct (ok_timer _ _ _ Hok _ _ _ _ Ht') as (_ & Hp' & Hlt' & b' & Hh' & Htm').
      split_and!; [done| |done|eauto]. rewrite lookup_del, decide_False; [done|]. intros <-. rewrite Hp in Hp'. injection Hp' as <-. rewrite Hh in Hh'. injection Hh' as <-. rewrite Htm in Htm'. by injection Htm'.
    + intros k id'. rewrite lookup_del. case_decide; [done|]. apply Hok.
    + intros k k' id'. rewrite !lookup_del. case_decide; [done|]. case_decide; [done|]. apply Hok.
    + intros k id'. rewrite lookup_del. case_decide; [done|]. apply Hok.
    + destruct (ok_pending _ _ _ Hok key id Hp ltac:(done)) as (b' & _ & _ & Hh' & Hk & _). rewrite Hh in Hh'. injection Hh' as <-.
      intros k. cbn [offer]. rewrite app_nil_r. unfold waiting, flushed_of. cbn. rewrite lookup_del, Hk. destruct (decide (key = k)) as [<-|Hd]; [by rewrite eqb_refl, Hp, Hh, app_nil_r|].
      by rewrite (bool_decide_eq_false_2 _ Hd).
Qed.

Lemma waiting_short k last s : ok None last s -> Z.of_nat (length (waiting k s)) <= Z.max 0 (maxTurns - 1).
Proof.
  intros Hok. unfold waiting. destruct (pending s !! k) as [id|] eqn:Ep; [|cbn; lia].
  destruct (ok_pending _ _ _ Hok k id Ep ltac:(done)) as (b & tm & t0 & -> & _ & _ & _ & _ & Hlen & _). lia.
Qed.
Lemma step_size e last s b s' : ok None last s -> step quietMs maxTurns e s = (Some b, s') -> b.(turns) <> [] /\ Z.of_nat (length b.(turns)) <= Z.max 1 maxTurns.
Proof.
  intros Hok. destruct e as [c t|tm t]; cbn [step].
  - unfold onTurnEnd. cbv zeta. destruct (Z.leb_spec quietMs 0) as [Hq|Hq]; [intros [= <- _]; cbn; split; [done|lia]|].
    pose proof (join_ok c last s Hq Hok) as H. fold (join c s). destruct (join c s) as [id s1]. destruct H as (_ & _ & (b1 & Hh & _ & Ht) & _). rewrite Hh.
    destruct (_ >=? _); [|done]. intros [= <- _]. rewrite Ht. split; [by destruct (waiting _ s)|]. rewrite length_app. cbn [length].
    pose proof (waiting_short (burst_key (burst_of c)) last s Hok). lia.
  - unfold fire. destruct (s.(timers) !! tm) as [[[due key] id]|] eqn:Et; [|done]. destruct (due <=? t); [|done]. intros [= Hb _].
    destruct (ok_timer _ _ _ Hok _ _ _ _ Et) as (_ & Hp & _). destruct (ok_pending _ _ _ Hok key id Hp ltac:(done)) as (b' & _ & _ & Hh & _ & _ & _ & Hne & Hlen & _).
    rewrite Hb in Hh. injection Hh as <-. split; [done|lia].
Qed.

Definition offered (k : string) (evs : list Event) : list Turn := concat (map (offer k) evs).
Definition last_offer (k : string) (evs : list Event) : option Z := foldl (offer_time k) None evs.
Definition flushed (k : string) (bs : list Burst) : list Turn := concat (map turns (js_filter (fun b => burst_key b === k) bs)).
Lemma buffer_run evs : forall last s, ok None last s ->
  let '(bs, s') := run quietMs maxTurns evs s in
  ok None (fun k => foldl (offer_time k) (last k) evs) s' /\ (forall k, (waiting k s ++ offered k evs)%list = (flushed k bs ++ waiting k s')%list) /\
  (forall b, b ∈ bs -> b.(turns) <> [] /\ Z.of_nat (length b.(turns)) <= Z.max 1 maxTurns).
Proof.
  induction evs as [|e evs IH]; intros last s Hok; cbn [run foldl].
  { split_and!; [done|intros k; apply app_nil_r|by intros b ?%not_elem_of_nil]. }
  pose proof (buffer_step e last s Hok) as Hs. pose proof (step_size e last s) as Hsz. destruct (step _ _ e s) as [o s1]. destruct Hs as [Hok1 Hw1]. specialize (IH _ s1 Hok1).
  destruct (run _ _ evs s1) as [bs s2]. destruct IH as (Hok2 & Hw2 & Hsz2). split_and!; [done| |].
  - intros k. unfold offered. cbn [map concat]. rewrite app_assoc, Hw1, <- app_assoc. fold (offered k evs). rewrite Hw2, app_assoc. f_equal.
    unfold flushed. destruct o as [b|]; [|done]. cbn [flushed_of app js_filter]. by destruct (burst_key b === k).
  - intros b [Hb|Hb]%elem_of_app; [|by apply Hsz2]. destruct o as [b'|]; [|by apply not_elem_of_nil in Hb]. apply list_elem_of_singleton in Hb as ->. by apply (Hsz _ s1).
Qed.

(** C26: Every turn of a conversation is looked through once, in order, and soon.  However turns
    end and timers fire, the turns of a key, as they ended, are those of the bursts flushed
    for it, in the order they were flushed, and then those that still wait.  A burst that is
    flushed has a turn and no more than the most.  What waits has a timer: at any time from the
    quiet span after the last turn on, it can fire, and it flushes exactly what waits. *)
Theorem turns_flushed evs :
  let '(bs, s) := run quietMs maxTurns evs no_bursts in
  (forall k, offered k evs = (flushed k bs ++ waiting k s)%list) /\
  (forall b, b ∈ bs -> b.(turns) <> [] /\ Z.of_nat (length b.(turns)) <= Z.max 1 maxTurns) /\
  (forall k, waiting k s <> [] -> exists tm t0, last_offer k evs = Some t0 /\ forall t, t0 + delay <= t ->
     exists b s', fire tm t s = (Some b, s') /\ burst_key b = k /\ b.(turns) = waiting k s /\ waiting k s' = [] /\
       forall k', k' <> k -> waiting k' s' = waiting k' s).
Proof.
  pose proof (buffer_run evs (fun _ => None) no_bursts (buffer_start _)) as H. destruct (run _ _ evs no_bursts) as [bs s]. destruct H as (Hok & Hw & Hsz).
  split; [exact Hw|]. split; [exact Hsz|]. intros k Hk. unfold waiting in Hk. destruct (pending s !! k) as [id|] eqn:Ep; [|done].
  destruct (ok_pending _ _ _ Hok k id Ep ltac:(done)) as (b & tm & t0 & Hh & Hkey & Htm & Ht & _ & _ & Hl). exists tm, t0. split; [exact Hl|]. intros t Hle.
  pose proof (buffer_step (Fire tm t) _ s Hok) as H. cbn [step] in H. unfold fire in *. rewrite Ht, (proj2 (Z.leb_le _ _) Hle), Hh in *. destruct H as [_ H].
  eexists b, _. split; [done|]. split; [done|]. split; [by unfold waiting; rewrite Ep, Hh|]. split.
  - unfold waiting. cbn. by rewrite lookup_del, decide_True.
  - intros k' Hk'. specialize (H k'). cbn [offer flushed_of] in H. rewrite app_nil_r, (bool_decide_eq_false_2 (burst_key b = k')) in H by congruence. by rewrite H.
Qed.

End flushed.
