(* ===== verification/SurfaceCache.v ===== *)
(** * The cache of a chat: messages as they are posted, edited and deleted

    What the surfaces have seen of their channels ([src/src/surface-cache/surface-cache.ts],
    [types.ts], in memory): events arrive late, twice and out of order, and the cache keeps for
    every message its newest text.  The live source that is asked when nothing is cached is the
    host's.  Timestamps of the chat are decimal numerals. *)

From S2P Require Import Prelude JsString.

#[local] Open Scope string_scope.
#[local] Open Scope Z_scope.

(** ** Data *)

Definition Mentions : Type := list (string * string).
(** [CachedMessage] src/src/surface-cache/types.ts:1-16 *)
Record CachedMessage := MkCached {
  cm_container : string;
  cm_ts : string;
  cm_sub : option string;
  cm_authorId : option string;
  cm_authorName : option string;
  cm_text : string;
  cm_mentions : option Mentions;
  cm_self : bool;
  cm_bot : bool;
  cm_mentionsSelf : bool;
  cm_editedAt : option Z;
  cm_deleted : bool;
  cm_handled : bool;
  cm_createdAt : Z;
}.
#[export] Instance CachedMessage_eta : Eta CachedMessage := fun m =>
  MkCached m.(cm_container) m.(cm_ts) m.(cm_sub) m.(cm_authorId) m.(cm_authorName) m.(cm_text) m.(cm_mentions) m.(cm_self) m.(cm_bot) m.(cm_mentionsSelf)
    m.(cm_editedAt) m.(cm_deleted) m.(cm_handled) m.(cm_createdAt).
(** [CachedFile] src/src/surface-cache/types.ts:18-25 *)
Record CachedFile := MkCachedFile {
  cf_container : string; cf_ts : string; cf_fileId : string; cf_name : option string; cf_mimetype : option string; cf_createdAt : Z }.
Inductive ContainerKind := k_channel | k_dm | k_group.
(** [ContainerState] src/src/surface-cache/types.ts:27-34
    With the members. *)
Record ContainerState := MkState {
  s_container : string;
  s_lastTs : option string;
  s_oldestTs : option string;
  s_name : option string;
  s_kind : option ContainerKind;
  s_updatedAt : Z;
  s_members : list string;
}.
#[export] Instance ContainerState_eta : Eta ContainerState := fun s =>
  MkState s.(s_container) s.(s_lastTs) s.(s_oldestTs) s.(s_name) s.(s_kind) s.(s_updatedAt) s.(s_members).
(** [ActiveThread] src/src/surface-cache/types.ts:36-42 *)
Record ActiveThread := MkThread { at_container : string; at_sub : string; at_lastTs : string; at_messageCount : Z; at_lastActivityAt : Z }.
#[export] Instance ActiveThread_eta : Eta ActiveThread := fun t =>
  MkThread t.(at_container) t.(at_sub) t.(at_lastTs) t.(at_messageCount) t.(at_lastActivityAt).
(** [IngestEvent] src/src/surface-cache/types.ts:44-63 *)
Record IngestEvent := MkEvent {
  ev_container : string;
  ev_ts : string;
  ev_sub : option string;
  ev_authorId : option string;
  ev_authorName : option string;
  ev_text : option string;
  ev_mentions : option Mentions;
  ev_self : option bool;
  ev_bot : option bool;
  ev_mentionsSelf : option bool;
  ev_editedAt : option Z;
  ev_deleted : option bool;
  ev_handled : option bool;
  ev_createdAt : option Z;
  ev_files : list (string * option string * option string);
  ev_members : list string;
  ev_containerName : option string;
  ev_kind : option ContainerKind;
}.
#[export] Instance IngestEvent_eta : Eta IngestEvent := fun e =>
  MkEvent e.(ev_container) e.(ev_ts) e.(ev_sub) e.(ev_authorId) e.(ev_authorName) e.(ev_text) e.(ev_mentions) e.(ev_self) e.(ev_bot) e.(ev_mentionsSelf)
    e.(ev_editedAt) e.(ev_deleted) e.(ev_handled) e.(ev_createdAt) e.(ev_files) e.(ev_members) e.(ev_containerName) e.(ev_kind).
(** [createMemorySurfaceCache] src/src/surface-cache/surface-cache.ts:336-338 *)
Record Cache := MkCache {
  messages : jsmap string (jsmap string CachedMessage);
  files : jsmap string (list CachedFile);
  state : jsmap string ContainerState;
}.
#[export] Instance Cache_eta : Eta Cache := fun c => MkCache c.(messages) c.(files) c.(state).
Definition empty_cache : Cache := MkCache ∅ ∅ ∅.

(** [DEFAULT_READ_LIMIT], [MAX_READ_LIMIT], [DEFAULT_SEARCH_LIMIT], [DEFAULT_THREADS_LIMIT]
    src/src/surface-cache/surface-cache.ts:24-27 *)
Definition DEFAULT_READ_LIMIT : Z := 100.
Definition MAX_READ_LIMIT : Z := 500.
Definition DEFAULT_SEARCH_LIMIT : Z := 50.
Definition DEFAULT_THREADS_LIMIT : Z := 50.
(** [clampLimit] src/src/surface-cache/surface-cache.ts:29-31 *)
Definition clampLimit (limit : option Z) (fallback : Z) : Z := Z.max 1 (Z.min MAX_READ_LIMIT (limit ?? fallback)).

(** [Number(ts)] of a decimal numeral: its digits without the point, and how many stand behind
    it; another text is no number. *)
Definition js_decimal (s : string) : option (Z * nat) :=
  let '(a, b) := match split_on "."%char s with [a] => (a, "") | [a; b] => (a, b) | _ => ("x", "") end in
  if str_every is_digit a && str_every is_digit b && truthy s then Some (decimal 0 (a +:+ b), String.length b) else None.
(** [Number(a) < Number(b)]: false when one is no number. *)
Definition num_lt (a b : string) : bool :=
  match js_decimal a, js_decimal b with
  | Some (m, i), Some (n, j) => m * 10 ^ Z.of_nat j <? n * 10 ^ Z.of_nat i
  | _, _ => false
  end.

(** ** What comes in *)

(** [containerMsgs] src/src/surface-cache/surface-cache.ts:341-346 *)
Definition containerMsgs (container : string) (c : Cache) : jsmap string CachedMessage := (c.(messages) !! container) ?? ∅.

Definition coalesce {A} (a b : option A) : option A := match a with Some _ => a | None => b end.
Definition flag (b : option bool) : bool := b ?? false.
Definition edit_time (o : option Z) : Z := o ?? 0.
(** [ingest] src/src/surface-cache/surface-cache.ts:356-382
    One event and the message that is there: the message after it, when it counts. *)
Definition merge_event (now : Z) (e : IngestEvent) (existing : option CachedMessage) : option CachedMessage :=
  let old {A} (f : CachedMessage -> A) : option A := f <$> existing in
  if negb (is_some existing) || flag e.(ev_deleted) || (edit_time e.(ev_editedAt) >=? edit_time (existing ≫= cm_editedAt)) then
    let edited := Z.max (edit_time e.(ev_editedAt)) (edit_time (existing ≫= cm_editedAt)) in
    Some (MkCached e.(ev_container) e.(ev_ts)
      (if_truthy (coalesce e.(ev_sub) (existing ≫= cm_sub)))
      (if_truthy (coalesce e.(ev_authorId) (existing ≫= cm_authorId)))
      (if_truthy (coalesce e.(ev_authorName) (existing ≫= cm_authorName)))
      (if flag e.(ev_deleted) then old cm_text ?? "" else e.(ev_text) ?? "")
      (if flag e.(ev_deleted) then existing ≫= cm_mentions else coalesce e.(ev_mentions) (existing ≫= cm_mentions))
      (flag e.(ev_self) || (old cm_self ?? false))
      (flag e.(ev_bot) || (old cm_bot ?? false))
      (flag e.(ev_mentionsSelf) || (old cm_mentionsSelf ?? false))
      (if edited >? 0 then Some edited else None)
      ((old cm_deleted ?? false) || flag e.(ev_deleted))
      (flag e.(ev_handled) || (old cm_handled ?? false))
      (old cm_createdAt ?? (e.(ev_createdAt) ?? now)))
  else None.
(** [ingest] src/src/surface-cache/surface-cache.ts:386-398 *)
Definition add_file (now : Z) (e : IngestEvent) (arr : list CachedFile) (f : string * option string * option string) : list CachedFile :=
  let '(fileId, name, mimetype) := f in
  if negb (truthy fileId) || some (fun x => (x.(cf_ts) === e.(ev_ts)) && (x.(cf_fileId) === fileId)) arr then arr
  else (arr ++ [MkCachedFile e.(ev_container) e.(ev_ts) fileId (if_truthy name) (if_truthy mimetype) (e.(ev_createdAt) ?? now)])%list.
(** [ingest] src/src/surface-cache/surface-cache.ts:402-408 *)
Definition merge_state (now : Z) (e : IngestEvent) (st : option ContainerState) : ContainerState :=
  let st := st ?? MkState e.(ev_container) None None None None now [] in
  let st := match if_truthy st.(s_lastTs) with Some l => if str_ltb l e.(ev_ts) then st <| s_lastTs := Some e.(ev_ts) |> else st | None => st <| s_lastTs := Some e.(ev_ts) |> end in
  let st := match if_truthy st.(s_oldestTs) with Some o => if num_lt e.(ev_ts) o then st <| s_oldestTs := Some e.(ev_ts) |> else st | None => st <| s_oldestTs := Some e.(ev_ts) |> end in
  let st := match if_truthy e.(ev_containerName) with Some n => st <| s_name := Some n |> | None => st end in
  let st := match e.(ev_kind) with Some k => st <| s_kind := Some k |> | None => st end in
  let st := match e.(ev_members) with [] => st | l => st <| s_members := dedup l |> end in
  st <| s_updatedAt := now |>.
(** [ingest] src/src/surface-cache/surface-cache.ts:353-409
    One event, and how many messages it changed. *)
Definition ingest_event (now : Z) (e : IngestEvent) (c : Cache) : Cache * nat :=
  if negb (truthy e.(ev_container)) || negb (truthy e.(ev_ts)) then (c, 0%nat)
  else
    let m := containerMsgs e.(ev_container) c in
    let '(m, n) := match merge_event now e (m !! e.(ev_ts)) with Some msg => (<[e.(ev_ts) := msg]> m, 1%nat) | None => (m, 0%nat) end in
    let c := c <| messages := <[e.(ev_container) := m]> c.(messages) |> in
    let c := match e.(ev_files) with
             | [] => c
             | fs => c <| files := <[e.(ev_container) := foldl (add_file now e) ((c.(files) !! e.(ev_container)) ?? []) fs]> c.(files) |>
             end in
    (c <| state := <[e.(ev_container) := merge_state now e (c.(state) !! e.(ev_container))]> c.(state) |>, n).
(** [ingest] src/src/surface-cache/surface-cache.ts:349-412 *)
Definition ingest (now : Z) (events : list IngestEvent) (c : Cache) : nat * Cache :=
  foldl (fun '(n, c) e => let '(c, k) := ingest_event now e c in ((n + k)%nat, c)) (0%nat, c) events.
(** [markHandled] src/src/surface-cache/surface-cache.ts:414-419 *)
Definition markHandled (container ts : string) (now : Z) (c : Cache) : Cache :=
  let m := containerMsgs container c in
  let msg := match m !! ts with
             | Some x => x <| cm_handled := true |>
             | None => MkCached container ts None None None "" None false false false None false true now
             end in
  c <| messages := <[container := <[ts := msg]> m]> c.(messages) |>.

(** ** What is read *)

(** [ReadMessagesOpts] src/src/surface-cache/types.ts:70-77 *)
Record ReadMessagesOpts := MkReadOpts { ro_sub : option string; ro_limit : option Z; ro_after : option string; ro_before : option string; includeDeleted : bool; noFallback : bool }.
Definition by_ts (a b : CachedMessage) : Z := str_cmp a.(cm_ts) b.(cm_ts).
(** [readMessages] src/src/surface-cache/surface-cache.ts:422-433 *)
Definition read_cached (container : string) (o : ReadMessagesOpts) (c : Cache) : list CachedMessage :=
  let all := values (containerMsgs container c) in
  let all := match if_truthy o.(ro_sub) with Some s => js_filter (fun x => x.(cm_sub) === Some s) all | None => all end in
  let all := match if_truthy o.(ro_after) with Some t => js_filter (fun x => str_ltb t x.(cm_ts)) all | None => all end in
  let all := match if_truthy o.(ro_before) with Some t => js_filter (fun x => str_ltb x.(cm_ts) t) all | None => all end in
  let all := if o.(includeDeleted) then all else js_filter (fun x => negb x.(cm_deleted)) all in
  let sorted := js_sort by_ts all in
  drop (length sorted - Z.to_nat (clampLimit o.(ro_limit) DEFAULT_READ_LIMIT)) sorted.
(** [readMessages] src/src/surface-cache/surface-cache.ts:421-439
    Nothing cached: the live source is asked, when there is one. *)
Definition readMessages (liveFallback : option (string -> ReadMessagesOpts -> result string (option (list CachedMessage))))
    (container : string) (o : ReadMessagesOpts) (c : Cache) : result string (list CachedMessage) :=
  let hit := read_cached container o c in
  match hit, liveFallback with
  | [], Some live =>
      if negb o.(noFallback) && negb (truthy_opt o.(ro_before)) then l ← live container o; mret (l ?? hit) else mret hit
  | _, _ => mret hit
  end.
Definition all_cached (c : Cache) : list CachedMessage := concat (map values (values c.(messages))).
(** [search] src/src/surface-cache/surface-cache.ts:441-459 *)
Definition search (queryText : string) (container : option string) (limit : option Z) (c : Cache) : list CachedMessage :=
  let term := to_lower (trim queryText) in
  if negb (truthy term) then []
  else
    let out := js_filter (fun m => negb m.(cm_deleted) && match if_truthy container with Some k => m.(cm_container) === k | None => true end
                                   && str_includes (to_lower m.(cm_text)) term) (all_cached c) in
    take (Z.to_nat (clampLimit limit DEFAULT_SEARCH_LIMIT)) (js_sort (fun a b => str_cmp b.(cm_ts) a.(cm_ts)) out).
(** [activeThreads] src/src/surface-cache/surface-cache.ts:466-483
    One message. *)
Definition count_thread (container : option string) (byThread : jsmap string ActiveThread) (msg : CachedMessage) : jsmap string ActiveThread :=
  match if_truthy msg.(cm_sub) with
  | None => byThread
  | Some sub =>
      if msg.(cm_deleted) || match if_truthy container with Some k => msg.(cm_container) !== k | None => false end then byThread
      else
        let tk := msg.(cm_container) +:+ " " +:+ sub in
        match byThread !! tk with
        | None => <[tk := MkThread msg.(cm_container) sub msg.(cm_ts) 1 msg.(cm_createdAt)]> byThread
        | Some cur =>
            <[tk := ((cur <| at_messageCount := cur.(at_messageCount) + 1 |>)
                      <| at_lastTs := if str_ltb cur.(at_lastTs) msg.(cm_ts) then msg.(cm_ts) else cur.(at_lastTs) |>)
                      <| at_lastActivityAt := Z.max msg.(cm_createdAt) cur.(at_lastActivityAt) |>]> byThread
        end
  end.
(** [activeThreads] src/src/surface-cache/surface-cache.ts:461-486 *)
Definition activeThreads (container : option string) (limit : option Z) (c : Cache) : list ActiveThread :=
  take (Z.to_nat (clampLimit limit DEFAULT_THREADS_LIMIT))
    (js_sort (fun a b => b.(at_lastActivityAt) - a.(at_lastActivityAt)) (values (foldl (count_thread container) ∅ (all_cached c)))).
(** [members] src/src/surface-cache/surface-cache.ts:488-490 *)
Definition members (container : string) (c : Cache) : list string := (s_members <$> c.(state) !! container) ?? [].
(** [isMember] src/src/surface-cache/surface-cache.ts:492-494 *)
Definition isMember (container principalId : string) (c : Cache) : bool := includes (members container c) principalId.
(** [containerState] src/src/surface-cache/surface-cache.ts:496-507 *)
Definition containerState (container : string) (c : Cache) : option ContainerState :=
  (fun st => ((st <| s_lastTs := if_truthy st.(s_lastTs) |>) <| s_oldestTs := if_truthy st.(s_oldestTs) |>) <| s_name := if_truthy st.(s_name) |>) <$> c.(state) !! container.
(** [listContainers] src/src/surface-cache/surface-cache.ts:509-525
    Each with the number of its messages. *)
Definition listContainers (limit : option Z) (c : Cache) : list (ContainerState * nat) :=
  take (Z.to_nat (clampLimit limit MAX_READ_LIMIT))
    (js_sort (fun a b => b.1.(s_updatedAt) - a.1.(s_updatedAt))
       (map (fun kv => (((kv.2 <| s_lastTs := if_truthy kv.2.(s_lastTs) |>) <| s_oldestTs := if_truthy kv.2.(s_oldestTs) |>) <| s_name := if_truthy kv.2.(s_name) |>,
                        length (js_filter (fun m => negb m.(cm_deleted)) (values (containerMsgs kv.1 c))))) (entries c.(state)))).

(** ** The newest text wins, in whatever order events come *)

Section converges.

Inductive Op := Ingest (now : Z) (events : list IngestEvent) | Handled (container ts : string) (now : Z).
Definition do_op (c : Cache) (o : Op) : Cache := match o with Ingest now evs => (ingest now evs c).2 | Handled k t now => markHandled k t now c end.
Definition run_ops (ops : list Op) : Cache := foldl do_op empty_cache ops.

Section message.
Context (k t : string).

Definition find_message (c : Cache) : option CachedMessage := containerMsgs k c !! t.
Definition is_for (e : IngestEvent) : bool := truthy k && truthy t && (e.(ev_container) === k) && (e.(ev_ts) === t).
Inductive Touch := by_event (now : Z) (e : IngestEvent) | by_handling (now : Z).
(** What touches the message. *)
Definition touches (o : Op) : list Touch :=
  match o with
  | Ingest now evs => map (by_event now) (js_filter is_for evs)
  | Handled k' t' now => if (k' === k) && (t' === t) then [by_handling now] else []
  end.
Definition touch (m : option CachedMessage) (x : Touch) : option CachedMessage :=
  match x with
  | by_event now e => match merge_event now e m with Some m' => Some m' | None => m end
  | by_handling now => Some (match m with Some x => x <| cm_handled := true |> | None => MkCached k t None None None "" None false false false None false true now end)
  end.
Lemma find_ingest now e c : find_message (ingest_event now e c).1 = foldl touch (find_message c) (if is_for e then [by_event now e] else []).
Proof.
  unfold ingest_event, is_for, find_message, containerMsgs. cbv zeta.
  destruct (decide (e.(ev_container) = k)) as [<-|Hk].
  - destruct (truthy (ev_container e)) eqn:Ek; [|by rewrite andb_false_l]. destruct (decide (e.(ev_ts) = t)) as [<-|Ht].
    + destruct (truthy (ev_ts e)) eqn:Et; [|done]. rewrite !eqb_refl. cbn [negb orb andb foldl touch].
      destruct (merge_event now e _) as [m|] eqn:Em; destruct (ev_files e); cbn; by rewrite lookup_set_eq; cbn; rewrite ?lookup_set_eq.
    + rewrite (bool_decide_eq_false_2 _ Ht), andb_false_r. cbn [foldl]. destruct (truthy (ev_ts e)); cbn [negb orb]; [|done].
      destruct (merge_event now e _) as [m|] eqn:Em; destruct (ev_files e); cbn; rewrite lookup_set_eq; cbn; by rewrite ?lookup_set_ne.
  - rewrite (bool_decide_eq_false_2 _ Hk), andb_false_r. cbn [foldl]. destruct (negb _ || negb _); [done|].
    destruct (merge_event now e _) as [m|] eqn:Em; destruct (ev_files e); cbn; by rewrite lookup_set_ne.
Qed.
Lemma find_ingests now evs : forall n c, find_message (foldl (fun '(n, c) e => let '(c, k) := ingest_event now e c in ((n + k)%nat, c)) (n, c) evs).2 =
  foldl touch (find_message c) (map (by_event now) (js_filter is_for evs)).
Proof.
  induction evs as [|e evs IH]; intros n c; cbn [foldl js_filter map]; [done|]. pose proof (find_ingest now e c) as H. destruct (ingest_event now e c) as [c' j]. rewrite IH. cbn [fst] in H. rewrite H.
  by destruct (is_for e).
Qed.
Lemma find_op o c : find_message (do_op c o) = foldl touch (find_message c) (touches o).
Proof.
  destruct o as [now evs|k' t' now]; cbn [do_op touches]; [apply find_ingests|]. unfold find_message, markHandled, containerMsgs. cbn.
  destruct (decide (k' = k)) as [->|Hk]; [|rewrite (bool_decide_eq_false_2 _ Hk); by rewrite lookup_set_ne].
  rewrite eqb_refl, lookup_set_eq. cbn. destruct (decide (t' = t)) as [->|Ht]; [by rewrite eqb_refl, lookup_set_eq|]. rewrite (bool_decide_eq_false_2 _ Ht). by rewrite lookup_set_ne.
Qed.
Lemma find_run ops c : find_message (foldl do_op c ops) = foldl touch (find_message c) (concat (map touches ops)).
Proof. revert c. induction ops as [|o ops IH]; intros c; cbn [foldl map concat]; [done|]. by rewrite IH, find_op, foldl_app. Qed.

Definition event_of (x : Touch) : list IngestEvent := match x with by_event _ e => [e] | by_handling _ => [] end.
Definition live (e : IngestEvent) : bool := negb (flag e.(ev_deleted)).
Definition time_of (e : IngestEvent) : Z := edit_time e.(ev_editedAt).
(** The newest of some events: no other is newer. *)
Definition newest (l : list IngestEvent) (text : string) (edited : Z) : Prop :=
  match l with
  | [] => text = "" /\ edited = 0
  | _ => exists e, e ∈ l /\ text = e.(ev_text) ?? "" /\ edited = time_of e /\ forall e', e' ∈ l -> time_of e' <= time_of e
  end.
Lemma newest_snoc l e text edited : newest l text edited -> 0 <= time_of e ->
  newest (l ++ [e]) (if time_of e >=? edited then e.(ev_text) ?? "" else text) (Z.max (time_of e) edited).
Proof.
  intros Hn He. assert (Hcons : forall P, match (l ++ [e])%list with [] => P | _ => True end) by (intros; by destruct l).
  assert (Hgoal : forall text' edited', (exists x, x ∈ (l ++ [e])%list /\ text' = x.(ev_text) ?? "" /\ edited' = time_of x /\ forall e', e' ∈ (l ++ [e])%list -> time_of e' <= time_of x) -> newest (l ++ [e]) text' edited')
    by (intros; unfold newest; by destruct (l ++ [e])%list eqn:E; [destruct l|]).
  apply Hgoal. destruct l as [|x l'].
  - destruct Hn as [-> ->]. exists e. rewrite (proj2 (Z.geb_le _ _)) by lia. split_and!; [apply list_elem_of_here|done|lia|]. intros e' ->%list_elem_of_singleton. lia.
  - destruct Hn as (y & Hy & -> & -> & Hmax). destruct (Z.geb_spec (time_of e) (time_of y)).
    + exists e. split_and!; [apply elem_of_app; right; apply list_elem_of_here|done|lia|]. intros e' [H'|H']%elem_of_app; [apply Hmax in H'; lia|apply list_elem_of_singleton in H' as ->; lia].
    + exists y. split_and!; [apply elem_of_app; by left|done|lia|]. intros e' [H'|H']%elem_of_app; [by apply Hmax|apply list_elem_of_singleton in H' as ->; lia].
Qed.

Definition sound (m : option CachedMessage) (l : list Touch) : Prop :=
  let evs := concat (map event_of l) in
  match m with
  | None => l = []
  | Some m =>
      cm_deleted m = some (fun e => flag e.(ev_deleted)) evs /\ newest (js_filter live evs) (cm_text m) (edit_time (cm_editedAt m)) /\
      ((exists now, by_handling now ∈ l) -> cm_handled m = true)
  end.
Definition timed (e : IngestEvent) : Prop := 0 <= time_of e /\ (flag e.(ev_deleted) = true -> time_of e = 0).
Lemma newest_nonneg l text edited : newest l text edited -> (forall e, e ∈ l -> timed e) -> 0 <= edited.
Proof. unfold newest. destruct l; [intros [_ ->]; lia|]. intros (e & He & _ & -> & _) Ht. by apply Ht. Qed.
Lemma kept_time e : 0 <= e -> edit_time (if e >? 0 then Some e else None) = e.
Proof. intros He. destruct (Z.gtb_spec e 0); cbn; lia. Qed.
Lemma touch_sound l x m : sound m l -> (forall e, e ∈ concat (map event_of (l ++ [x])) -> timed e) -> sound (touch m x) (l ++ [x]).
Proof.
  unfold sound. rewrite map_app, concat_app. cbn [map concat]. rewrite app_nil_r. intros Hs Ht. destruct x as [now e|now]; cbn [event_of touch].
  - assert (He : timed e) by (apply Ht, elem_of_app; right; apply list_elem_of_here). destruct He as [He0 Hed].
    set (evs := concat (map event_of l)) in *.
    assert (Hpast : exists del txt edi hd, del = some (fun e => flag e.(ev_deleted)) evs /\ newest (js_filter live evs) txt edi /\ 0 <= edi /\ ((exists now, by_handling now ∈ l) -> hd = true) /\
      (cm_deleted <$> m) ?? false = del /\ (cm_text <$> m) ?? "" = txt /\ edit_time (m ≫= cm_editedAt) = edi /\ (cm_handled <$> m) ?? false = hd /\ (m = None -> l = [])).
    { destruct m as [m|].
      - destruct Hs as (Hd & Hn & Hh). exists (cm_deleted m), (cm_text m), (edit_time (cm_editedAt m)), (cm_handled m). split_and!; try done.
        eapply newest_nonneg; [exact Hn|]. intros e' [_ He']%elem_of_js_filter. apply Ht, elem_of_app. by left.
      - subst l. exists false, "", 0, false. split_and!; try done. by intros (? & ?%not_elem_of_nil). }
    destruct Hpast as (del & txt & edi & hd & Hdel & Hn & Hedi & Hhd & E1 & E2 & E3 & E4 & Enone).
    assert (Hh' : (exists now', by_handling now' ∈ (l ++ [by_event now e])%list) -> hd = true).
    { intros (n' & Hin). apply Hhd. exists n'. by apply elem_of_app in Hin as [?|?%list_elem_of_singleton]. }
    unfold merge_event. cbv zeta. fold (time_of e). rewrite E1, E2, E3, E4. unfold some in *. rewrite existsb_app, js_filter_app. cbn [existsb js_filter]. rewrite orb_false_r, <- Hdel.
    destruct (negb (is_some m) || flag e.(ev_deleted) || (time_of e >=? edi)) eqn:Ec.
    + cbn [cm_deleted cm_text cm_editedAt cm_handled]. rewrite kept_time by lia. split_and!; [done| |intros H; rewrite (Hh' H); by rewrite orb_true_r].
      unfold live at 2. destruct (flag e.(ev_deleted)) eqn:Ed; cbn [negb].
      * rewrite app_nil_r. rewrite (Hed eq_refl). by replace (Z.max 0 edi) with edi by lia.
      * pose proof (newest_snoc _ e _ _ Hn He0) as H. rewrite orb_false_r in Ec. destruct (time_of e >=? edi) eqn:Eg; [done|]. exfalso.
        rewrite orb_false_r in Ec. destruct m; [done|]. specialize (Enone eq_refl). subst l. cbn in Hn. destruct Hn as [_ ->]. rewrite Z.geb_leb in Eg. apply Z.leb_gt in Eg. lia.
    + apply orb_false_iff in Ec as [[Ec1 Ec2]%orb_false_iff Ec3]. destruct m as [m|]; [|done]. assert (E3' : edit_time (cm_editedAt m) = edi) by exact E3. cbn in E1, E2, E4. rewrite Ec2, orb_false_r. split_and!; [congruence| |intros H; rewrite E4; by apply Hh'].
      unfold live at 2. rewrite Ec2. cbn [negb]. pose proof (newest_snoc _ e _ _ Hn He0) as H. rewrite Ec3 in H. rewrite E2, E3'. rewrite Z.geb_leb in Ec3. apply Z.leb_gt in Ec3. by replace (Z.max (time_of e) edi) with edi in H by lia.
  - rewrite app_nil_r. destruct m as [m|]; cbn; [destruct Hs as (Hd & Hn & _); split_and!; done|]. subst l. cbn. split_and!; done.
Qed.
Lemma touches_sound l : (forall e, e ∈ concat (map event_of l) -> timed e) -> sound (foldl touch None l) l.
Proof.
  induction l as [|x l IH] using rev_ind; intros Ht; [done|]. rewrite foldl_app. cbn [foldl]. apply touch_sound; [|done].
  apply IH. intros e He. apply Ht. rewrite map_app, concat_app. apply elem_of_app. by left.
Qed.
End message.

Lemma in_touches {A} (x : A) l ll : x ∈ l -> l ∈ ll -> x ∈ concat ll.
Proof. intros Hx Hl. apply list_elem_of_In, in_concat. exists l. by rewrite <- !list_elem_of_In. Qed.
Lemma js_filter_perm {A} (p : A -> bool) l l' : l ≡ₚ l' -> js_filter p l ≡ₚ js_filter p l'.
Proof. induction 1 as [|x l l' _ IH|x y l|? ? ? _ IH1 _ IH2]; cbn; [done|by destruct (p x); rewrite IH|destruct (p x), (p y); try done; apply perm_swap|by rewrite IH1]. Qed.
Lemma some_perm {A} (p : A -> bool) l l' : l ≡ₚ l' -> some p l = some p l'.
Proof.
  intros Hp. destruct (some p l') eqn:E.
  - apply some_true in E as (x & Hx & Hpx). apply some_true. exists x. by rewrite Hp.
  - apply some_false. intros x. rewrite Hp. by apply some_false.
Qed.
Lemma newest_same l l' text text' ed ed' : l ≡ₚ l' -> NoDup (map time_of l) -> newest l text ed -> newest l' text' ed' -> text = text' /\ ed = ed'.
Proof.
  intros Hp Hd Hn Hn'. destruct l as [|x l]; [apply Permutation_nil in Hp as ->; destruct Hn as [-> ->], Hn' as [-> ->]; done|].
  destruct l' as [|x' l']; [by apply Permutation_sym, Permutation_nil in Hp|].
  destruct Hn as (e & He & -> & -> & Hmax), Hn' as (e' & He' & -> & -> & Hmax'). rewrite <- Hp in He'. assert (Ht : time_of e = time_of e').
  { apply Hmax in He' as H1. rewrite Hp in He. apply Hmax' in He as H2. lia. }
  split; [|done]. f_equal. f_equal. apply list_elem_of_lookup in He as [i Hi], He' as [j Hj]. 
  assert (Hij : i = j) by (eapply (NoDup_lookup (map time_of (x :: l)) i j (time_of e)); [done|by rewrite list_lookup_fmap, Hi|by rewrite list_lookup_fmap, Hj, Ht]).
  subst j. rewrite Hi in Hj. by injection Hj.
Qed.

Definition events_of (k t : string) (ops : list Op) : list IngestEvent := concat (map event_of (concat (map (touches k t) ops))).
(** What a reader sees of a message: its text, when it was edited, whether it was deleted. *)
Definition seen_of (m : option CachedMessage) : string * Z * bool :=
  ((cm_text <$> m) ?? "", edit_time (m ≫= cm_editedAt), (cm_deleted <$> m) ?? false).
Lemma run_sound k t ops : (forall e, e ∈ events_of k t ops -> timed e) -> sound (find_message k t (run_ops ops)) (concat (map (touches k t) ops)).
Proof. intros H. unfold run_ops. rewrite find_run. by apply touches_sound. Qed.
Lemma sound_seen m l : sound m l -> let evs := concat (map event_of l) in
  newest (js_filter live evs) (seen_of m).1.1 (seen_of m).1.2 /\ (seen_of m).2 = some (fun e => flag e.(ev_deleted)) evs.
Proof. unfold sound, seen_of. destruct m as [m|]; [by intros (? & ? & _)|]. by intros ->. Qed.

(** C21: The cache converges.  Events of a message come in any order and number, in batches, mixed
    with those of others and with marks that a message was handled; no edit carries a negative
    time, and no deletion a time.  Then a message that is not there was not touched; one that is
    there is deleted just when some event deleted it, it has the text and the time of an event
    that no other is newer than, deletions aside, and once handled it stays so.  When no two
    edits have the same time, the order makes no difference: another run with the same events
    for the message shows the same text, time and deletion. *)
Theorem cache_converges k t ops ops' : (forall e, e ∈ events_of k t ops -> timed e) ->
  let evs := events_of k t ops in
  match find_message k t (run_ops ops) with
  | None => forall o, o ∈ ops -> touches k t o = []
  | Some m =>
      cm_deleted m = some (fun e => flag e.(ev_deleted)) evs /\ newest (js_filter live evs) (cm_text m) (edit_time (cm_editedAt m)) /\
      ((exists now, Handled k t now ∈ ops) -> cm_handled m = true)
  end /\
  (evs ≡ₚ events_of k t ops' -> NoDup (map time_of (js_filter live evs)) ->
   seen_of (find_message k t (run_ops ops)) = seen_of (find_message k t (run_ops ops'))).
Proof.
  intros Ht evs. pose proof (run_sound k t ops Ht) as Hs. split.
  - unfold sound in Hs. destruct (find_message k t (run_ops ops)) as [m|].
    + destruct Hs as (Hd & Hn & Hh). split; [exact Hd|]. split; [exact Hn|]. intros [now Hin]. apply Hh. exists now.
      apply (in_touches _ (touches k t (Handled k t now))); [cbn; rewrite !eqb_refl; apply list_elem_of_here|by apply list_elem_of_fmap_2].
    + intros o Ho. destruct (touches k t o) as [|x l] eqn:E; [done|]. exfalso. apply (not_elem_of_nil x). rewrite <- Hs. apply (in_touches _ (touches k t o)); [rewrite E; apply list_elem_of_here|by apply list_elem_of_fmap_2].
  - intros Hp Hnd. assert (Ht' : forall e, e ∈ events_of k t ops' -> timed e) by (intros e He; apply Ht; fold evs; by rewrite Hp).
    destruct (sound_seen _ _ Hs) as [Hn Hd]. destruct (sound_seen _ _ (run_sound k t ops' Ht')) as [Hn' Hd'].
    assert (Hl : js_filter live evs ≡ₚ js_filter live (events_of k t ops')) by (by apply js_filter_perm).
    destruct (newest_same _ _ _ _ _ _ Hl Hnd Hn Hn') as [E1 E2].
    assert (E3 : (seen_of (find_message k t (run_ops ops))).2 = (seen_of (find_message k t (run_ops ops'))).2).
    { rewrite Hd, Hd'. apply some_perm. exact Hp. }
    destruct (seen_of _) as [[a b] c], (seen_of _) as [[a' b'] c']. cbn in E1, E2, E3. by subst.
Qed.

End converges.

Definition demo_event (text : option string) (edited : option Z) (deleted handled : option bool) : IngestEvent :=
  MkEvent "C1" "1.5" None None None text None None None None edited deleted handled None [] [] None None.
Definition demo_ops : list Op :=
  [ Ingest 1 [demo_event (Some "new") (Some 20) None None]; Handled "C1" "1.5" 2; Ingest 3 [demo_event (Some "old") (Some 10) None None; demo_event None None (Some true) None] ].
Definition demo_ops' : list Op :=
  [ Ingest 1 [demo_event None None (Some true) None; demo_event (Some "old") (Some 10) None None]; Ingest 3 [demo_event (Some "new") (Some 20) None None] ].
Lemma cache_converges_witness :
  (forall e, e ∈ events_of "C1" "1.5" demo_ops -> timed e) /\ seen_of (find_message "C1" "1.5" (run_ops demo_ops)) = ("new", 20, true) /\
  seen_of (find_message "C1" "1.5" (run_ops demo_ops)) = seen_of (find_message "C1" "1.5" (run_ops demo_ops')).
Proof.
  assert (Ht : forall e, e ∈ events_of "C1" "1.5" demo_ops -> timed e).
  { intros e He. change (events_of "C1" "1.5" demo_ops) with [demo_event (Some "new") (Some 20) None None; demo_event (Some "old") (Some 10) None None; demo_event None None (Some true) None] in He.
    repeat apply elem_of_cons in He as [->|He]; [| | |by apply not_elem_of_nil in He]; (split; cbn; [lia|done]). }
  split; [exact Ht|]. split; [reflexivity|]. apply (cache_converges "C1" "1.5" demo_ops demo_ops' Ht).
  - change (events_of "C1" "1.5" demo_ops') with (rev (events_of "C1" "1.5" demo_ops)). apply Permutation_rev.
  - change (map time_of (js_filter live (events_of "C1" "1.5" demo_ops))) with [20; 10]. apply NoDup_cons. split; [set_solver|apply NoDup_singleton].
Defined.
(** A mark that comes with the text of an earlier edit is dropped with the text. *)
Example handled_dropped :
  cm_handled <$> find_message "C1" "1.5" (run_ops [Ingest 1 [demo_event (Some "new") (Some 20) None None; demo_event (Some "old") (Some 10) None (Some true)]]) = Some false.
Proof. reflexivity. Qed.
