(* ===== verification/SlackBots.v ===== *)
(** * The bots of an organisation: their registry, and the plugins that run

    The registry of additional bots ([src/src/surfaces/slack-bot-registry.ts]), over any durable
    map, as calls cut at their awaits; and the reconciler that keeps one plugin running for each
    bot that is wanted, with restarts, roll back and back-off
    ([src/src/surfaces/slack-runtime.ts]).  Encryption is a parameter.  Starting and stopping
    a plugin is the host's and may fail: what is asked of it is logged, with its answers.  The
    reconciler runs one reconciliation at a time and stops after the last, as it is used; its
    callbacks do not throw. *)

From S2P Require Import Prelude JsString DurableMap Async.

#[local] Open Scope string_scope.
#[local] Open Scope Z_scope.

(** ** The registry *)

(** [StoredSlackBot] src/src/surfaces/slack-bot-registry.ts:15-48 *)
Record StoredSlackBot := MkStored {
  b_id : string;
  b_orgId : string;
  b_label : string;
  b_personaId : option string;
  botTokenEnc : string;
  appTokenEnc : string;
  b_enabled : bool;
  b_teamId : option string;
  b_teamName : option string;
  b_botHandle : option string;
  b_botUserId : option string;
  b_lastError : option string;
  b_lastErrorAt : option Z;
  b_createdAt : Z;
  b_updatedAt : Z;
  b_updatedBy : string;
  b_version : string;
}.
#[export] Instance StoredSlackBot_eta : Eta StoredSlackBot := fun b =>
  MkStored b.(b_id) b.(b_orgId) b.(b_label) b.(b_personaId) b.(botTokenEnc) b.(appTokenEnc) b.(b_enabled) b.(b_teamId) b.(b_teamName) b.(b_botHandle) b.(b_botUserId)
    b.(b_lastError) b.(b_lastErrorAt) b.(b_createdAt) b.(b_updatedAt) b.(b_updatedBy) b.(b_version).
(** [SlackBotView] src/src/surfaces/slack-bot-registry.ts:71-87
    What may be shown. *)
Record SlackBotView := MkView {
  v_id : string;
  v_label : string;
  v_personaId : option string;
  v_enabled : bool;
  v_teamId : option string;
  v_teamName : option string;
  v_botHandle : option string;
  v_botUserId : option string;
  v_lastError : option string;
  v_lastErrorAt : option Z;
  v_createdAt : Z;
  v_updatedAt : Z;
  v_updatedBy : string;
  v_version : string;
}.
#[export] Instance SlackBotView_eta : Eta SlackBotView := fun v =>
  MkView v.(v_id) v.(v_label) v.(v_personaId) v.(v_enabled) v.(v_teamId) v.(v_teamName) v.(v_botHandle) v.(v_botUserId) v.(v_lastError) v.(v_lastErrorAt)
    v.(v_createdAt) v.(v_updatedAt) v.(v_updatedBy) v.(v_version).
(** [SlackBotRecord] src/src/surfaces/slack-bot-registry.ts:51-68 *)
Record SlackBotRecord := MkRecord { r_view : SlackBotView; r_botToken : string; r_appToken : string }.
(** [NewSlackBot] src/src/surfaces/slack-bot-registry.ts:89-100 *)
Record NewSlackBot := MkNew {
  n_label : string; n_personaId : option string; n_botToken : string; n_appToken : string; n_enabled : option bool;
  n_teamId : option string; n_teamName : option string; n_botHandle : option string; n_botUserId : option string; n_updatedBy : string }.
(** [SlackBotPatch] src/src/surfaces/slack-bot-registry.ts:102-113
    [personaId] may be set to nothing. *)
Record SlackBotPatch := MkPatch {
  p_label : option string; p_personaId : option (option string); p_botToken : option string; p_appToken : option string; p_enabled : option bool;
  p_teamId : option string; p_teamName : option string; p_botHandle : option string; p_botUserId : option string; p_updatedBy : string }.

(** [SLACK_BOT_LABEL_MAX], [SLACK_BOT_ERROR_MAX] src/src/surfaces/slack-bot-registry.ts:130-131 *)
Definition SLACK_BOT_LABEL_MAX : nat := 60.
Definition SLACK_BOT_ERROR_MAX : nat := 500.
Definition is_control (c : ascii) : bool := let n := N_of_ascii c in (n <? 32)%N || ((127 <=? n)%N && (n <=? 159)%N).
Fixpoint blank_controls (s : string) : string := match s with "" => "" | String c s => String (if is_control c then " "%char else c) (blank_controls s) end.
(** [scrub] src/src/surfaces/slack-bot-registry.ts:134-142 *)
Definition scrub (raw : string) (max : nat) : string := str_take max (blank_controls raw).
(** [sanitizeLabel] src/src/surfaces/slack-bot-registry.ts:144-146 *)
Definition sanitizeLabel (raw : string) : string := str_take SLACK_BOT_LABEL_MAX (trim (scrub raw SLACK_BOT_LABEL_MAX)).

Section registry.
Context {M : Type} `{!DurableMap M StoredSlackBot}.
(** The organisation, and the cipher under the registry's key; decryption may throw. *)
Variables (orgId : string) (encryptSecret : string -> string) (decryptSecret : string -> result string string).
Abbreviation call := (call M string).
Definition get_b (id : string) : call (option StoredSlackBot) := await (fun m => Some (dm_get id m, m)).
Definition put_b (id : string) (b : StoredSlackBot) : call unit := await (fun m => Some (tt, dm_put id b m)).

(** [mine] src/src/surfaces/slack-bot-registry.ts:155-158 *)
Definition mine : call (list StoredSlackBot) :=
  l ← await (fun m => Some (dm_all m, m));
  mret (js_sort (fun a b => let d := a.(b_createdAt) - b.(b_createdAt) in if d !== 0 then d else if str_ltb a.(b_id) b.(b_id) then -1 else 1)
          (js_filter (fun r => r.(b_orgId) === orgId) l)).
(** [owned] src/src/surfaces/slack-bot-registry.ts:160-163 *)
Definition owned (id : string) : call (option StoredSlackBot) :=
  r ← get_b id;
  mret (match r with Some b => if b.(b_orgId) === orgId then Some b else None | None => None end).
Definition if_truthy_num (o : option Z) : option Z := match o with Some n => if n === 0 then None else Some n | None => None end.
(** [view] src/src/surfaces/slack-bot-registry.ts:165-180 *)
Definition view (r : StoredSlackBot) : SlackBotView :=
  MkView r.(b_id) r.(b_label) r.(b_personaId) r.(b_enabled) (if_truthy r.(b_teamId)) (if_truthy r.(b_teamName)) (if_truthy r.(b_botHandle)) (if_truthy r.(b_botUserId))
    (if_truthy r.(b_lastError)) (if_truthy_num r.(b_lastErrorAt)) r.(b_createdAt) r.(b_updatedAt) r.(b_updatedBy) r.(b_version).
(** [decrypted] src/src/surfaces/slack-bot-registry.ts:182-198
    Without the time of the error. *)
Definition decrypted (r : StoredSlackBot) : result string SlackBotRecord :=
  bot ← decryptSecret r.(botTokenEnc);
  app ← decryptSecret r.(appTokenEnc);
  mret (MkRecord ((view r) <| v_lastErrorAt := None |>) bot app).
Fixpoint all_decrypted (l : list StoredSlackBot) : result string (list SlackBotRecord) :=
  match l with [] => mret [] | b :: l => r ← decrypted b; rest ← all_decrypted l; mret (r :: rest) end.
(** [list] src/src/surfaces/slack-bot-registry.ts:201-203 *)
Definition list_bots : call (list SlackBotView) := l ← mine; mret (map view l).
(** [listWithTokens] src/src/surfaces/slack-bot-registry.ts:205-207 *)
Definition listWithTokens : call (list SlackBotRecord) := l ← mine; lift (all_decrypted l).
(** [get] src/src/surfaces/slack-bot-registry.ts:209-212 *)
Definition get (id : string) : call (option SlackBotView) := r ← owned id; mret (match r with Some b => Some (view b) | None => None end).
(** [getWithTokens] src/src/surfaces/slack-bot-registry.ts:214-217 *)
Definition getWithTokens (id : string) : call (option SlackBotRecord) :=
  r ← owned id; match r with Some b => lift (x ← decrypted b; mret (Some x)) | None => mret None end.
(** [`${now}:${randomUUID()}`]. *)
Definition version_at (t : Z) (uuid : string) : string := pretty.pretty t +:+ ":" +:+ uuid.
(** [create] src/src/surfaces/slack-bot-registry.ts:219-241 *)
Definition create (input : NewSlackBot) (id uuid : string) : call SlackBotView :=
  t ← now;
  let r := MkStored id orgId (sanitizeLabel input.(n_label)) input.(n_personaId) (encryptSecret input.(n_botToken)) (encryptSecret input.(n_appToken))
             (input.(n_enabled) ?? true) (if_truthy input.(n_teamId)) (if_truthy input.(n_teamName)) (if_truthy input.(n_botHandle)) (if_truthy input.(n_botUserId))
             None None t t input.(n_updatedBy) (version_at t uuid) in
  _ ← put_b id r; mret (view r).
Definition set_or {A B} (p : option A) (f : A -> B) (old : B) : B := match p with Some x => f x | None => old end.
(** [update] src/src/surfaces/slack-bot-registry.ts:247-264 *)
Definition patched (p : SlackBotPatch) (t : Z) (uuid : string) (e : StoredSlackBot) : StoredSlackBot :=
  MkStored e.(b_id) e.(b_orgId) (set_or p.(p_label) sanitizeLabel e.(b_label)) (set_or p.(p_personaId) id e.(b_personaId))
    (set_or p.(p_botToken) encryptSecret e.(botTokenEnc)) (set_or p.(p_appToken) encryptSecret e.(appTokenEnc)) (set_or p.(p_enabled) id e.(b_enabled))
    (set_or p.(p_teamId) Some e.(b_teamId)) (set_or p.(p_teamName) Some e.(b_teamName)) (set_or p.(p_botHandle) Some e.(b_botHandle)) (set_or p.(p_botUserId) Some e.(b_botUserId))
    None None e.(b_createdAt) t p.(p_updatedBy) (version_at t uuid).
(** [update] src/src/surfaces/slack-bot-registry.ts:243-267 *)
Definition update (id : string) (p : SlackBotPatch) (uuid : string) : call (option SlackBotView) :=
  r ← owned id;
  match r with
  | None => mret None
  | Some e => t ← now; let next := patched p t uuid e in _ ← put_b id next; mret (Some (view next))
  end.
(** [delete] src/src/surfaces/slack-bot-registry.ts:269-274 *)
Definition delete_bot (id : string) : call bool :=
  r ← owned id;
  match r with None => mret false | Some _ => _ ← await (fun m => Some (tt, dm_delete id m)); mret true end.
(** [recordError] src/src/surfaces/slack-bot-registry.ts:276-282 *)
Definition recordError (id message : string) : call unit :=
  r ← owned id;
  match r with
  | None => mret tt
  | Some e =>
      let trimmed := scrub message SLACK_BOT_ERROR_MAX in
      if e.(b_lastError) === Some trimmed then mret tt
      else t ← now; put_b id ((e <| b_lastError := Some trimmed |>) <| b_lastErrorAt := Some t |>)
  end.
(** [clearError] src/src/surfaces/slack-bot-registry.ts:284-291 *)
Definition clearError (id : string) : call unit :=
  r ← owned id;
  match r with
  | None => mret tt
  | Some e => match e.(b_lastError) with None => mret tt | Some _ => put_b id ((e <| b_lastError := None |>) <| b_lastErrorAt := None |>) end
  end.
End registry.

(** ** The plugins that run *)

Section runtime.
Context {C : Type}.
(** Whether the host grants its n-th call, and the time after n calls. *)
Variables (grants : nat -> bool) (clock : nat -> Z).

(** [BACKOFF_BASE_MS], [BACKOFF_MAX_MS] src/src/surfaces/slack-runtime.ts:23-24 *)
Definition BACKOFF_BASE_MS : Z := 15000.
Definition BACKOFF_MAX_MS : Z := 300000.
(** [DesiredSlackInstance] src/src/surfaces/slack-runtime.ts:11-21 *)
Record Desired := MkDesired { d_key : string; d_version : string; d_config : C; d_backoff : bool }.
(** [createSlackMultiRuntimeReconciler] src/src/surfaces/slack-runtime.ts:43-43
    A plugin is named by the call that started it. *)
Record Active := MkActive { a_plugin : nat; a_version : string; a_config : C }.
(** [createSlackMultiRuntimeReconciler] src/src/surfaces/slack-runtime.ts:45-45 *)
Record Failure := MkFailure { f_version : string; f_attempts : Z; f_nextAttemptAt : Z }.
Inductive HostCall := h_start (key : string) (config : C) (granted : bool) | h_stop (plugin : nat) (granted : bool).
Inductive Note := n_failed (key : string) | n_started (key : string).
(** [createSlackMultiRuntimeReconciler] src/src/surfaces/slack-runtime.ts:44-45
    With what was asked of the host and the callbacks made. *)
Record Runtime := MkRuntime { active : jsmap string Active; failures : jsmap string Failure; asked : list HostCall; notes : list Note }.
#[export] Instance Runtime_eta : Eta Runtime := fun r => MkRuntime r.(active) r.(failures) r.(asked) r.(notes).
Definition idle : Runtime := MkRuntime ∅ ∅ [] [].
(** The call of the host that failed; or that and the one of the roll back. *)
Inductive Err := e_host (n : nat) | e_both (start rollback : nat).

Definition calls (r : Runtime) : nat := length r.(asked).
Definition ask_start (key : string) (config : C) (r : Runtime) : bool * nat * Runtime :=
  let n := calls r in (grants n, n, r <| asked := (r.(asked) ++ [h_start key config (grants n)])%list |>).
Definition ask_stop (plugin : nat) (r : Runtime) : bool * nat * Runtime :=
  let n := calls r in (grants n, n, r <| asked := (r.(asked) ++ [h_stop plugin (grants n)])%list |>).
Definition run_key (key : string) (a : Active) (r : Runtime) : Runtime := r <| active := <[key := a]> r.(active) |>.
Definition drop_key (key : string) (r : Runtime) : Runtime := r <| active := delete key r.(active) |>.
Definition note (x : Note) (r : Runtime) : Runtime := r <| notes := (r.(notes) ++ [x])%list |>.

(** [noteFailure] src/src/surfaces/slack-runtime.ts:49-54 *)
Definition noteFailure (key version : string) (backoff : bool) (r : Runtime) : Runtime :=
  let attempts := match r.(failures) !! key with Some f => if f.(f_version) === version then f.(f_attempts) + 1 else 1 | None => 1 end in
  let wait := if backoff then Z.min (BACKOFF_BASE_MS * 2 ^ (attempts - 1)) BACKOFF_MAX_MS else 0 in
  r <| failures := <[key := MkFailure version attempts (clock (calls r) + wait)]> r.(failures) |>.
(** [start] src/src/surfaces/slack-runtime.ts:56-61 *)
Definition start (d : Desired) (r : Runtime) : bool * nat * Runtime :=
  let '(ok, n, r) := ask_start d.(d_key) d.(d_config) r in
  (ok, n, if ok : bool then note (n_started d.(d_key)) ((run_key d.(d_key) (MkActive n d.(d_version) d.(d_config)) r) <| failures := delete d.(d_key) r.(failures) |>) else r).
(** [reconcileOne] src/src/surfaces/slack-runtime.ts:75-91
    The start, and the roll back to what ran before. *)
Definition start_or_back (d : Desired) (previous : option Active) (r : Runtime) : option Err * Runtime :=
  let '(ok, n, r) := start d r in
  if ok : bool then (None, r)
  else
    let r := note (n_failed d.(d_key)) (noteFailure d.(d_key) d.(d_version) d.(d_backoff) r) in
    match previous with
    | None => (Some (e_host n), r)
    | Some p =>
        let '(ok, n', r) := ask_start d.(d_key) p.(a_config) r in
        if ok : bool then (Some (e_host n), run_key d.(d_key) (MkActive n' p.(a_version) p.(a_config)) r) else (Some (e_both n n'), r)
    end.
(** [reconcileOne] src/src/surfaces/slack-runtime.ts:66-67 *)
Definition held_back (d : Desired) (r : Runtime) : bool :=
  match r.(failures) !! d.(d_key) with Some f => (f.(f_version) === d.(d_version)) && (clock (calls r) <? f.(f_nextAttemptAt)) | None => false end.
(** [reconcileOne] src/src/surfaces/slack-runtime.ts:63-92 *)
Definition reconcileOne (d : Desired) (r : Runtime) : option Err * Runtime :=
  let current := r.(active) !! d.(d_key) in
  if (a_version <$> current) === Some d.(d_version) then (None, r)
  else if held_back d r then (None, r)
  else match current with
       | None => start_or_back d None r
       | Some p =>
           let '(ok, n, r) := ask_stop p.(a_plugin) r in
           if ok : bool then start_or_back d current (drop_key d.(d_key) r) else (Some (e_host n), r)
       end.
Definition wanted (desired : list Desired) (key : string) : bool := some (fun d => d.(d_key) === key) desired.
(** [reconcile] src/src/surfaces/slack-runtime.ts:98-107
    What runs and is not wanted stops. *)
Fixpoint stop_unwanted (desired : list Desired) (l : list (string * Active)) (r : Runtime) : list Err * Runtime :=
  match l with
  | [] => ([], r)
  | (key, current) :: l =>
      if wanted desired key then stop_unwanted desired l r
      else
        let '(ok, n, r) := ask_stop current.(a_plugin) r in
        if ok : bool then stop_unwanted desired l ((drop_key key r) <| failures := delete key r.(failures) |>)
        else let '(es, r) := stop_unwanted desired l r in (e_host n :: es, r)
  end.
(** [reconcile] src/src/surfaces/slack-runtime.ts:109-115 *)
Fixpoint reconcile_each (l : list Desired) (r : Runtime) : list Err * Runtime :=
  match l with
  | [] => ([], r)
  | d :: l => let '(e, r) := reconcileOne d r in let '(es, r) := reconcile_each l r in ((match e with Some e => [e] | None => [] end ++ es)%list, r)
  end.
(** [reconcile] src/src/surfaces/slack-runtime.ts:94-118
    The errors it throws, together when they are several. *)
Definition reconcile (desired : list Desired) (r : Runtime) : list Err * Runtime :=
  let '(es, r) := stop_unwanted desired (entries r.(active)) r in
  let r := r <| failures := foldl (fun m key => if wanted desired key then m else delete key m) r.(failures) (keys r.(failures)) |> in
  let '(es', r) := reconcile_each desired r in ((es ++ es')%list, r).
(** [stop] src/src/surfaces/slack-runtime.ts:146-149
    The first plugin that does not stop ends it. *)
Fixpoint stop_each (l : list (string * Active)) (r : Runtime) : option Err * Runtime :=
  match l with
  | [] => (None, r)
  | (key, current) :: l => let '(ok, n, r) := ask_stop current.(a_plugin) r in if ok : bool then stop_each l (drop_key key r) else (Some (e_host n), r)
  end.
(** [stop] src/src/surfaces/slack-runtime.ts:142-150 *)
Definition stop (r : Runtime) : option Err * Runtime := stop_each (entries r.(active)) r.
(** [running] src/src/surfaces/slack-runtime.ts:139-141 *)
Definition running (r : Runtime) : list string := keys r.(active).

(** The key an instance alone has in the log. *)
Variable only : string.
(** [createSlackRuntimeReconciler] src/src/surfaces/slack-runtime.ts:160-160
    One instance, with what was asked of the host. *)
Record Single := MkSingle { s_active : option Active; s_asked : list HostCall }.
#[export] Instance Single_eta : Eta Single := fun s => MkSingle s.(s_active) s.(s_asked).
Definition single_start (config : C) (s : Single) : bool * nat * Single :=
  let n := length s.(s_asked) in (grants n, n, s <| s_asked := (s.(s_asked) ++ [h_start only config (grants n)])%list |>).
Definition single_stop (plugin : nat) (s : Single) : bool * nat * Single :=
  let n := length s.(s_asked) in (grants n, n, s <| s_asked := (s.(s_asked) ++ [h_stop plugin (grants n)])%list |>).
(** [createSlackRuntimeReconciler] src/src/surfaces/slack-runtime.ts:179-194 *)
Definition single_start_or_back (version : string) (config : C) (previous : option Active) (s : Single) : option Err * Single :=
  let '(ok, n, s) := single_start config s in
  if ok : bool then (None, s <| s_active := Some (MkActive n version config) |>)
  else match previous with
       | None => (Some (e_host n), s)
       | Some p =>
           let '(ok, n', s) := single_start p.(a_config) s in
           if ok : bool then (Some (e_host n), s <| s_active := Some (MkActive n' p.(a_version) p.(a_config)) |>) else (Some (e_both n n'), s)
       end.
(** [createSlackRuntimeReconciler] src/src/surfaces/slack-runtime.ts:164-195 *)
Definition single_reconcile (desired : option (string * C)) (s : Single) : option Err * Single :=
  match desired with
  | None =>
      match s.(s_active) with
      | Some a => let '(ok, n, s) := single_stop a.(a_plugin) s in if ok : bool then (None, s <| s_active := None |>) else (Some (e_host n), s)
      | None => (None, s)
      end
  | Some (version, config) =>
      if (a_version <$> s.(s_active)) === Some version then (None, s)
      else match s.(s_active) with
           | None => single_start_or_back version config None s
           | Some p =>
               let '(ok, n, s) := single_stop p.(a_plugin) s in
               if ok : bool then single_start_or_back version config (Some p) (s <| s_active := None |>) else (Some (e_host n), s)
           end
  end.
End runtime.

(** ** One plugin for each bot, and the one that is wanted *)

Section reconciler.
Context {C : Type} (grants : nat -> bool) (clock : nat -> Z).
Abbreviation Runtime := (@Runtime C).
Abbreviation Desired := (@Desired C).
Abbreviation one := (reconcileOne grants clock).

(** The plugins that run, by the log: those whose start was granted and whose stop was not. *)
Definition live_step (s : nat * list nat) (h : @HostCall C) : nat * list nat :=
  (S s.1, match h with h_start _ _ true => s.1 :: s.2 | h_stop p true => js_filter (fun q => negb (Nat.eqb q p)) s.2 | _ => s.2 end).
Definition live (l : list HostCall) : list nat := (foldl live_step (0%nat, []) l).2.
(** What runs is what is active, each under the key and with the settings it was started with. *)
Record sound (r : Runtime) : Prop := {
  sound_started k a : r.(active) !! k = Some a -> r.(asked) !! a.(a_plugin) = Some (h_start k a.(a_config) true);
  sound_live p : p ∈ live r.(asked) <-> exists k a, r.(active) !! k = Some a /\ a.(a_plugin) = p;
}.
Lemma live_count l : (foldl live_step (0%nat, []) l).1 = length l.
Proof. induction l as [|h l IH] using rev_ind; [done|]. rewrite foldl_app, length_app. cbn. rewrite IH. lia. Qed.
Lemma live_snoc l h : live (l ++ [h]) = match h with h_start _ _ true => length l :: live l | h_stop p true => js_filter (fun q => negb (Nat.eqb q p)) (live l) | _ => live l end.
Proof. unfold live. rewrite foldl_app. cbn. by rewrite live_count. Qed.
Lemma sound_idle : sound idle.
Proof. split; [done|]. intros p. split; [by intros ?%not_elem_of_nil|by intros (? & ? & ? & _)]. Qed.
Lemma sound_key r k k' a a' : sound r -> r.(active) !! k = Some a -> r.(active) !! k' = Some a' -> a.(a_plugin) = a'.(a_plugin) -> k = k'.
Proof. intros Hs H H' E. apply (sound_started r Hs) in H, H'. rewrite E, H' in H. by injection H. Qed.
Lemma log_keeps (l : list (@HostCall C)) h (p : nat) x : l !! p = Some x -> (l ++ [h])%list !! p = Some x.
Proof. intros H. by apply lookup_app_l_Some. Qed.

(** Starting under a free key, and stopping what a key runs. *)
Lemma sound_start k v c r : sound r -> r.(active) !! k = None ->
  let '(ok, n, r') := ask_start grants k c r in
  sound (if ok then run_key k (MkActive n v c) r' else r') /\ r'.(active) = r.(active) /\ r'.(failures) = r.(failures).
Proof.
  intros Hs Hk. unfold ask_start, calls. destruct (grants _) eqn:Eg; (split; [split|done]); cbn.
  - intros k' a. rewrite lookup_set. case_decide as Hd; [intros [= <-]; subst k'; cbn; by apply list_lookup_middle|]. intros H. by apply log_keeps, Hs.
  - intros p. rewrite live_snoc, elem_of_cons, (sound_live r Hs). split.
    + intros [->|(k' & a & H & <-)]; [exists k, (MkActive (length (asked r)) v c); by rewrite lookup_set_eq|]. exists k', a. rewrite lookup_set_ne; [done|]. intros <-. by rewrite Hk in H.
    + intros (k' & a & H & <-). rewrite lookup_set in H. case_decide; [injection H as <-; by left|right; eauto].
  - intros k' a H. by apply log_keeps, Hs.
  - intros p. rewrite live_snoc. apply Hs.
Qed.
Lemma sound_stop k a r : sound r -> r.(active) !! k = Some a ->
  let '(ok, n, r') := ask_stop grants a.(a_plugin) r in
  sound (if ok then drop_key k r' else r') /\ r'.(active) = r.(active) /\ r'.(failures) = r.(failures).
Proof.
  intros Hs Hk. unfold ask_stop, calls. destruct (grants _) eqn:Eg; (split; [split|done]); cbn.
  - intros k' a'. rewrite lookup_del. case_decide; [done|]. intros Ha. by apply log_keeps, Hs.
  - intros p. rewrite live_snoc, elem_of_js_filter, (sound_live r Hs). split.
    + intros [Hp (k' & a' & H & <-)]. exists k', a'. rewrite lookup_del, decide_False; [done|]. intros <-. rewrite Hk in H. injection H as <-. by rewrite Nat.eqb_refl in Hp.
    + intros (k' & a' & H & <-). rewrite lookup_del in H. case_decide; [done|]. split; [|eauto]. apply negb_true_iff, Nat.eqb_neq. intros E. by apply (sound_key r k' k a' a Hs) in E.
  - intros k' a' H. by apply log_keeps, Hs.
  - intros p. rewrite live_snoc. apply Hs.
Qed.

(** What an operation on one key leaves alone. *)
Definition elsewhere (k : string) (r r' : Runtime) : Prop :=
  forall k', k' <> k -> r'.(active) !! k' = r.(active) !! k' /\ r'.(failures) !! k' = r.(failures) !! k'.
Definition held (d : Desired) (r : Runtime) : Prop := exists f n, r.(failures) !! d.(d_key) = Some f /\ f.(f_version) = d.(d_version) /\ clock n < f.(f_nextAttemptAt).
(** The key runs what is wanted, or waits after a failure. *)
Definition served (d : Desired) (r : Runtime) : Prop := (a_version <$> r.(active) !! d.(d_key)) = Some d.(d_version) \/ held d r.
Definition both (e : option Err) : bool := match e with Some (e_both _ _) => true | _ => false end.

Lemma back_spec d previous r : sound r -> r.(active) !! d.(d_key) = None ->
  let '(e, r') := start_or_back grants clock d previous r in
  sound r' /\ elsewhere d.(d_key) r r' /\ (e = None -> served d r') /\ (is_Some previous -> both e = false -> is_Some (r'.(active) !! d.(d_key))).
Proof.
  intros Hs Hk. unfold start_or_back, start. pose proof (sound_start d.(d_key) d.(d_version) d.(d_config) r Hs Hk) as H.
  destruct (ask_start grants _ _ r) as [[ok n] r1]. destruct H as (Hs1 & Ha & Hf). destruct ok.
  - split; [split; apply Hs1|]. split; [|split; [|intros _ _; cbn; by rewrite lookup_set_eq]].
    + intros k' Hne. cbn. rewrite lookup_set_ne, lookup_del, decide_False by done. by rewrite Ha, Hf.
    + intros _. left. cbn. by rewrite lookup_set_eq.
  - set (r2 := note _ (noteFailure _ _ _ _ r1)). assert (Hs2 : sound r2) by (split; apply Hs1).
    assert (He2 : elsewhere d.(d_key) r r2) by (intros k' Hne; cbn; rewrite lookup_set_ne by done; by rewrite Ha, Hf).
    destruct previous as [p|]; [|split_and!; [done|done|done|by intros [? ?]]].
    assert (Hk2 : r2.(active) !! d.(d_key) = None) by (cbn; by rewrite Ha).
    pose proof (sound_start d.(d_key) p.(a_version) p.(a_config) r2 Hs2 Hk2) as H. destruct (ask_start grants _ _ r2) as [[ok' n'] r3]. destruct H as (Hs3 & Ha3 & Hf3).
    destruct ok'; (split_and!; [done| |done|]).
    + intros k' Hne. cbn. rewrite lookup_set_ne by done. rewrite Ha3, Hf3. by apply He2.
    + intros _ _. cbn. by rewrite lookup_set_eq.
    + intros k' Hne. rewrite Ha3, Hf3. by apply He2.
    + intros _ Hb. discriminate Hb.
Qed.
Lemma one_spec d r : sound r ->
  let '(e, r') := one d r in
  sound r' /\ elsewhere d.(d_key) r r' /\ (e = None -> served d r') /\
  ((a_version <$> r.(active) !! d.(d_key)) = Some d.(d_version) -> r' = r) /\
  (is_Some (r.(active) !! d.(d_key)) -> both e = false -> is_Some (r'.(active) !! d.(d_key))).
Proof.
  intros Hs. unfold reconcileOne. destruct (_ === _) eqn:Ev; [apply bool_decide_eq_true in Ev; split_and!; try done; by left|]. apply bool_decide_eq_false in Ev.
  destruct (held_back clock d r) eqn:Eh.
  { split_and!; try done. intros _. right. unfold held_back in Eh. destruct (r.(failures) !! d.(d_key)) as [f|] eqn:Ef; [|discriminate Eh]. apply andb_true_iff in Eh as [E1%bool_decide_eq_true E2%Z.ltb_lt]. by exists f, (calls r). }
  destruct (r.(active) !! d.(d_key)) as [p|] eqn:Ek.
  - pose proof (sound_stop d.(d_key) p r Hs Ek) as H. destruct (ask_stop grants _ r) as [[ok n] r1]. destruct H as (Hs1 & Ha & Hf). destruct ok.
    + pose proof (back_spec d (Some p) (drop_key d.(d_key) r1) Hs1) as H. destruct (start_or_back _ _ _ _ _) as [e r2]. destruct H as (Hs2 & He2 & Hsv & Hr); [cbn; by rewrite lookup_del, decide_True|].
      split_and!; [done| |done|done|intros _ Hb; by apply Hr]. intros k' Hne. destruct (He2 k' Hne) as [-> ->]. cbn. rewrite lookup_del, decide_False by done. by rewrite Ha, Hf.
    + split_and!; [done|intros k' _; by rewrite Ha, Hf|done|done|intros _ _; by rewrite Ha, Ek].
  - pose proof (back_spec d None r Hs Ek) as H. destruct (start_or_back _ _ _ _ _) as [e r2]. destruct H as (Hs2 & He2 & Hsv & _). split_and!; [done|done|done|done|by intros [? ?]].
Qed.

Lemma served_elsewhere d k r r' : d.(d_key) <> k -> elsewhere k r r' -> served d r -> served d r'.
Proof. intros Hne He. destruct (He _ Hne) as [Ha Hf]. unfold served, held. by rewrite Ha, Hf. Qed.
Lemma each_spec l : forall r, sound r -> NoDup (map d_key l) ->
  let '(es, r') := reconcile_each grants clock l r in
  sound r' /\ (forall k, k ∉ map d_key l -> r'.(active) !! k = r.(active) !! k /\ r'.(failures) !! k = r.(failures) !! k) /\
  (es = [] -> forall d, d ∈ l -> served d r') /\
  (forall d, d ∈ l -> (a_version <$> r.(active) !! d.(d_key)) = Some d.(d_version) -> r'.(active) !! d.(d_key) = r.(active) !! d.(d_key)) /\
  (forall d, d ∈ l -> is_Some (r.(active) !! d.(d_key)) -> (forall a b, e_both a b ∉ es) -> is_Some (r'.(active) !! d.(d_key))).
Proof.
  induction l as [|d l IH]; intros r Hs Hn; cbn [reconcile_each].
  { split_and!; [done|done|by intros _ d ?%not_elem_of_nil|by intros d ?%not_elem_of_nil|by intros d ?%not_elem_of_nil]. }
  cbn [map] in Hn. apply NoDup_cons in Hn as [Hd Hn]. pose proof (one_spec d r Hs) as H. destruct (one d r) as [e r1]. destruct H as (Hs1 & He1 & Hsv1 & Hsame1 & Hup1).
  specialize (IH r1 Hs1 Hn). destruct (reconcile_each grants clock l r1) as [es r2]. destruct IH as (Hs2 & Hel & Hsv2 & Hsame2 & Hup2).
  assert (Hkeep : forall d', d' ∈ l -> d'.(d_key) <> d.(d_key)) by (intros d' Hin E; apply Hd; rewrite <- E; by apply list_elem_of_fmap_2).
  split_and!; [done|..].
  - intros k Hk. cbn [map] in Hk. apply not_elem_of_cons in Hk as [Hk Hkl]. destruct (Hel k Hkl) as [-> ->]. by apply He1.
  - intros Hes d' [->|Hin]%elem_of_cons.
    + assert (e = None) as -> by (by destruct e). destruct (Hel _ Hd) as [Ha Hf]. specialize (Hsv1 eq_refl). unfold served, held in *. by rewrite Ha, Hf.
    + apply Hsv2; [|done]. by destruct e.
  - intros d' [->|Hin]%elem_of_cons Hv.
    + destruct (Hel _ Hd) as [-> _]. by rewrite (Hsame1 Hv).
    + destruct (He1 _ (Hkeep d' Hin)) as [E _]. rewrite <- E in Hv |- *. by apply Hsame2.
  - intros d' [->|Hin]%elem_of_cons Hup Hnb.
    + destruct (Hel _ Hd) as [-> _]. apply Hup1; [done|]. destruct e as [[|a b]|]; try done. destruct (Hnb a b). apply list_elem_of_here.
    + destruct (He1 _ (Hkeep d' Hin)) as [E _]. rewrite <- E in Hup. apply Hup2; [done|done|]. intros a b Hab. apply (Hnb a b), elem_of_app. by right.
Qed.
Lemma wanted_true (desired : list Desired) k : wanted desired k = true <-> exists d, d ∈ desired /\ d.(d_key) = k.
Proof. unfold wanted. rewrite some_true. by setoid_rewrite bool_decide_eq_true. Qed.
Lemma unwanted_spec desired l : forall r, sound r -> NoDup l.*1 -> (forall k a, (k, a) ∈ l -> r.(active) !! k = Some a) ->
  let '(es, r') := stop_unwanted grants desired l r in
  sound r' /\ (forall k, wanted desired k = true \/ k ∉ l.*1 -> r'.(active) !! k = r.(active) !! k) /\
  (forall k, is_Some (r'.(active) !! k) -> is_Some (r.(active) !! k)) /\
  (es = [] -> forall k, k ∈ l.*1 -> wanted desired k = false -> r'.(active) !! k = None).
Proof.
  induction l as [|[k a] l IH]; intros r Hs Hn Hin; cbn [stop_unwanted].
  { split_and!; [done|done|done|by intros _ k ?%not_elem_of_nil]. }
  cbn [fmap list_fmap fst] in Hn. apply NoDup_cons in Hn as [Hk Hn]. destruct (wanted desired k) eqn:Ew.
  - specialize (IH r Hs Hn (fun k' a' H => Hin k' a' ltac:(by apply list_elem_of_further))). destruct (stop_unwanted _ _ _ _) as [es r']. destruct IH as (H1 & H2 & H3 & H4).
    split_and!; [done| |done|].
    + intros k' [H|H]; [apply H2; by left|]. apply H2. right. intros H'. apply H. by apply list_elem_of_further.
    + intros He k' [->|H']%elem_of_cons Hw; [cbn in Hw; congruence|by apply H4].
  - assert (Ek := Hin k a (list_elem_of_here _ _)). pose proof (sound_stop k a r Hs Ek) as H. destruct (ask_stop grants _ r) as [[ok n] r1]. destruct H as (Hs1 & Ha & Hf). destruct ok.
    + set (r2 := (drop_key k r1) <| failures := _ |>). assert (Hs2 : sound r2) by (split; apply Hs1). assert (Ha2 : forall k', r2.(active) !! k' = if decide (k = k') then None else r.(active) !! k') by (intros k'; cbn; by rewrite lookup_del, Ha).
      specialize (IH r2 Hs2 Hn). destruct (stop_unwanted grants desired l r2) as [es r']. destruct IH as (H1 & H2 & H3 & H4).
      { intros k' a' H'. rewrite Ha2, decide_False; [by apply Hin, list_elem_of_further|]. intros <-. apply Hk, list_elem_of_fmap. by exists (k, a'). }
      split_and!; [done|..].
      * intros k' Hc. assert (k <> k') by (intros <-; destruct Hc as [Hw|Hw]; [by rewrite Ew in Hw|apply Hw, list_elem_of_here]).
        rewrite H2, Ha2, decide_False; [done|done|]. destruct Hc as [?|Hc]; [by left|right]. intros H'. apply Hc. by apply list_elem_of_further.
      * intros k' H'%H3. rewrite Ha2 in H'. case_decide; [by destruct H'|done].
      * intros He k' [->|H']%elem_of_cons Hw; [|by apply H4]. destruct (r'.(active) !! k) eqn:E; [|done]. exfalso. assert (H' : is_Some (r'.(active) !! k)) by eauto. apply H3 in H'. rewrite Ha2, decide_True in H' by done. by destruct H'.
    + specialize (IH r1 Hs1 Hn). destruct (stop_unwanted grants desired l r1) as [es r']. destruct IH as (H1 & H2 & H3 & H4).
      { intros k' a' H'. rewrite Ha. by apply Hin, list_elem_of_further. }
      split_and!; [done|..].
      * intros k' Hc. rewrite H2, Ha; [done|]. destruct Hc as [?|Hc]; [by left|right]. intros H'. apply Hc. by apply list_elem_of_further.
      * intros k' H'%H3. by rewrite Ha in H'.
      * done.
Qed.

(** A reconciliation: there is still one plugin for each key that runs and no other, those that
    have the version that is wanted are not touched; when it reports no error, only what is wanted
    runs and each that is wanted runs in its version or waits after a failure; and a bot that ran
    and is wanted still runs, in a new version or in the old one, unless its roll back failed too. *)
Lemma plugins_follow desired r : sound r -> NoDup (map d_key desired) ->
  let '(es, r') := reconcile grants clock desired r in
  sound r' /\
  (forall d, d ∈ desired -> (a_version <$> r.(active) !! d.(d_key)) = Some d.(d_version) -> r'.(active) !! d.(d_key) = r.(active) !! d.(d_key)) /\
  (es = [] -> (forall k, k ∈ running r' -> wanted desired k = true) /\ forall d, d ∈ desired -> served d r') /\
  (forall d, d ∈ desired -> d.(d_key) ∈ running r -> (forall a b, e_both a b ∉ es) -> d.(d_key) ∈ running r').
Proof.
  intros Hs Hn. unfold reconcile.
  pose proof (unwanted_spec desired (entries r.(active)) r Hs (entries_NoDup _) (fun k a => proj1 (elem_of_entries k a _))) as H.
  destruct (stop_unwanted grants desired _ r) as [es r1]. destruct H as (Hs1 & Hkeep & Hsub & Hgone).
  set (r2 := r1 <| failures := _ |>). assert (Hs2 : sound r2) by (split; apply Hs1).
  pose proof (each_spec desired r2 Hs2 Hn) as H. destruct (reconcile_each grants clock desired r2) as [es' r3]. destruct H as (Hs3 & Helse & Hserve & Hsame & Hup).
  assert (Hkept : forall d, d ∈ desired -> r2.(active) !! d.(d_key) = r.(active) !! d.(d_key)) by (intros d Hd; apply Hkeep; left; apply wanted_true; eauto).
  split_and!; [done|..].
  - intros d Hd Hv. rewrite <- (Hkept d Hd) in Hv |- *. by apply Hsame.
  - intros [-> ->]%app_eq_nil. split; [|by apply Hserve]. intros k Hk%elem_of_keys. destruct (wanted desired k) eqn:Ew; [done|]. exfalso.
    assert (Hnk : k ∉ map d_key desired) by (intros (d & -> & Hd)%list_elem_of_fmap; enough (wanted desired d.(d_key) = true) by congruence; apply wanted_true; eauto).
    destruct (Helse k Hnk) as [E _]. rewrite E in Hk. assert (Hk' := Hsub k Hk). apply elem_of_keys in Hk'. destruct Hk as [a Ha]. cbn in Ha. by rewrite (Hgone eq_refl k Hk' Ew) in Ha.
  - intros d Hd Hr Hnb. apply elem_of_keys in Hr. apply elem_of_keys, Hup; [done|by rewrite Hkept|]. intros a b Hab. apply (Hnb a b), elem_of_app. by right.
Qed.

End reconciler.

(** A start, a reload that fails and is rolled back: the old settings run again. *)
Example rolled_back :
  let d v c := MkDesired "bot" v c true in
  let '(es, r) := reconcile (fun _ => true) (fun n => Z.of_nat n) [d "1" "old"] idle in
  let '(es', r') := reconcile (fun n => negb (Nat.eqb n 2)) (fun n => Z.of_nat n) [d "2" "new"] r in
  es = [] /\ es' = [e_host 2] /\ live r'.(asked) = [3%nat] /\ entries r'.(active) = [("bot", MkActive 3 "1" "old")] /\
  reconcile (fun n => true) (fun n => Z.of_nat n) [d "2" "new"] r' = ([], r').
Proof. by vm_compute. Qed.

(** ** An error that is recorded late

    A bot is read, and written back with its error: what was done to it in between is undone.
    Here it was deleted. *)
Inductive Asked := AskDelete (id : string) | AskError (id message : string).
Definition serve_bots (q : Asked) : call (jsmap string StoredSlackBot) string unit :=
  match q with
  | AskDelete id => _ ← delete_bot "org" id; mret tt
  | AskError id message => recordError "org" id message
  end.
Definition a_bot : StoredSlackBot := MkStored "b" "org" "" None "" "" true None None None None None None 0 0 "" "0:u".
Example bot_returns :
  let w := acts serve_bots [Begin (AskError "b" "no socket") 0; Move 0 5; Begin (AskDelete "b") 5; Move 1 6; Move 1 7; Move 0 8] (begins (<["b" := a_bot]> ∅)) in
  map (fun c => match c.2 with Ret _ => true | _ => false end) w.(pool) = [true; true] /\ b_lastError <$> w.(st) !! "b" = Some (Some "no socket").
Proof. by vm_compute. Qed.
