(* ===== verification/Scheduler.v ===== *)
(** * The scheduler

    What happens between a cron that is due and its firing ([src/src/cron/scheduler.ts]), over
    the cron store of [Cron].  In queue mode a job looks at its cron, claims the slot, fires
    and writes down what came of it; jobs interleave with each other and with everybody else
    at their awaits, and each definition is one stretch between two calls of the store.  In
    interval mode a tick fires the due crons one after the other.  The turn is [runTrigger]'s
    ([RunTrigger]): its outcome is an argument.  The queue of jobs is the host's, which keeps
    what [Enqueued] says; calls of the store do not fail. *)

From stdpp Require Import pretty.
From S2P Require Import Prelude JsString Regex Scope Turn DurableMap Triggers Cron Delivery Reach RunTrigger.

(** ** What a firing says *)

(** [truncate] src/src/cron/scheduler.ts:48-50 *)
Definition truncate (s : string) (maxChars : Z) : string :=
  if str_len s <=? maxChars then s else str_take (Z.to_nat (maxChars - 3)) s +:+ "...".

(** [CRON_FIRE_REPLY_MAX_CHARS] src/src/cron/scheduler.ts:20-20 *)
Definition CRON_FIRE_REPLY_MAX_CHARS : Z := 2000.

(** [cronFireLogReply] src/src/cron/scheduler.ts:52-57 *)
Definition cronFireLogReply (s : string) : string :=
  if str_includes s "[Cron runtime context]" || str_includes s "[End cron runtime context]"
  then "[reply echoed cron runtime context; omitted]" else truncate s CRON_FIRE_REPLY_MAX_CHARS.

(** [mentionable] src/src/cron/scheduler.ts:65-68 *)
Definition mentionable (m : DirectoryMember) : string :=
  let mentionId :=
    or_else m.(slackId)
      (if truthy m.(dm_principalId) && str_every (fun c => is_letter c || is_digit c) m.(dm_principalId)
       then Some m.(dm_principalId) else None) in
  "@" +:+ m.(dm_displayName) +:+ (if truthy_opt mentionId then " (<@" +:+ (mentionId ?? "") +:+ ">)" else "").

(** [CRON_MENTION_ROSTER_MAX] src/src/cron/scheduler.ts:63-63 *)
Definition CRON_MENTION_ROSTER_MAX : Z := 40.

(** [cronMentionRoster] src/src/cron/scheduler.ts:70-84
    [listed] is the directory's list, absent without a directory; a failure to list counts as
    an empty list. *)
Definition cronMentionRoster (listed : option (result string (list DirectoryMember))) (cron : Cron) : option string :=
  match listed, if_truthy (cron.(base).(destination) ≫= audienceScopeId) with
  | Some listed, Some scope =>
      match (parseScopeId scope).1 with
      | Some Scope.channel | Some Scope.group =>
          let members := cron.(c_members) ?? [] in
          let n := Z.of_nat (length members) in
          if (n =? 0) || (CRON_MENTION_ROSTER_MAX <? n) then None
          else
            let rows := match listed with Ok l => l | Throw _ => [] end in
            let byId := new_map (map (fun m => (m.(dm_principalId), m)) rows) in
            let roster := map mentionable (js_filter (fun m => m.(dm_type) === internal)
                            (omap (fun p => byId !! p.(p_id)) members)) in
            match roster with [] => None | _ => Some (join ", " roster) end
      | _ => None
      end
  | _, _ => None
  end.

(** A message the task itself runs: [/^!(run|scratch)\s/]. *)
Definition bang_command (s : string) : bool :=
  test (Bol false ⋅ chr "!" ⋅ (lit "run" ∥ lit "scratch") ⋅ Cls is_space)%re s.

(** [renderCronFireInput] src/src/cron/scheduler.ts:86-108 *)
Definition renderCronFireInput (cron : Cron) (roster : option string) : string :=
  let task := cron.(action) ?? "" in
  if negb (truthy (trim task)) then task
  else if bang_command (trim_start task) then task
  else
    let id := cron.(base).(tb_id) in
    join (String "010"%char "")
      (["[Cron runtime context]";
        "Cron id: " +:+ id +:+ (if truthy_opt cron.(c_title) then " (" +:+ (cron.(c_title) ?? "") +:+ ")" else "") +:+ ".";
        "Each fire runs as a fresh thread with no memory of previous fires. Two things persist between fires:";
        "- Your workspace disk. Durable state — notes, queues, checkpoints, anything a future fire should know — lives in files there.";
        "- The stored task below: the standing instructions every fire receives. Edit it (via the cron tool) only to change what future fires are told to do.";
        "The retained fire log (cron tool, action=" +:+ dq +:+ "runs" +:+ dq +:+ ", id=" +:+ dq +:+ id +:+ dq +:+
          ") shows how prior fires went — useful when this run hits errors or surprising state."] ++
       (if truthy_opt roster then
          ["People here: " +:+ (roster ?? "") +:+ ".";
           "If this reminder is for a specific person, @-mention them with their <@…> id so they're actually notified — addressing them by name alone does not ping them."]
        else []) ++
       ["[End cron runtime context]"; ""; "Stored cron task:"; task]).

(** [CronFireJob] src/src/cron/job-queue.ts:5-8 *)
Record CronFireJob := MkJob { j_cronId : string; j_scheduledAt : Z }.

(** The outcome of [runTrigger], or its error. *)
Definition Outcome : Type := result string TriggerOutcome.

Section scheduler.
Context {M : Type} {D : DurableMap M Cron}.
Variable nextRun : string -> string -> Z -> result string (option Z).
Variable validTimezone : string -> bool.
Variable contentId : CreateCronInput -> option string -> string.
Variable hashId : list string -> Z -> string.

Abbreviation slot := (slot nextRun validTimezone).
Abbreviation exec := (Cron.exec nextRun validTimezone contentId).

(** ** Firing a cron *)

(** [cronFireThreadRef] src/src/cron/scheduler.ts:59-61 *)
Definition cronFireThreadRef (cronId key : string) : string := "cron:" +:+ cronId +:+ ":fire:" +:+ hashId [key] 12.

(** [fireJob] src/src/cron/scheduler.ts:224-224 *)
Definition slot_key (cronId : string) (slot : Z) : string := "cron:" +:+ cronId +:+ ":" +:+ pretty slot.

(** [fire] src/src/cron/scheduler.ts:129-142
    What is handed to [runTrigger]. *)
Definition fire_spec (roster : option string) (cron : Cron) (key : string) : TriggerSpec :=
  MkSpec cron.(base).(owner) cron.(base).(tb_ownerScopeId) (renderCronFireInput cron roster) None key "cron"
    cron.(base).(destination) cron.(Cron.message) (Some (cronFireThreadRef cron.(base).(tb_id) key)) cron.(Cron.runAs)
    cron.(c_members) cron.(base).(recipientConsent)
    (Some (is_some cron.(schedule).(everyMs) || is_some cron.(schedule).(s_cron))) None None None None None.

(** [fire] src/src/cron/scheduler.ts:144-173
    What is written down after the turn, as calls of the store in order, and what [fire]
    answers: [Ok] of whether the authorisation failed, or the error it passes on. *)
Definition fire_after (cron : Cron) (t : Z) (key : string) (scheduledAt : option Z) (o : Outcome) : list Op * result string bool :=
  let id := cron.(base).(tb_id) in
  let thread := cronFireThreadRef id key in
  match o with
  | Throw e => ([OFire id (MkFire key thread t scheduledAt (Some ts_failed) (Some (truncate e CRON_FIRE_REPLY_MAX_CHARS)) None None)], Throw e)
  | Ok o =>
      let log :=
        if o.(ran) || o.(authzFailed) then
          [OFire id (MkFire key thread t scheduledAt o.(status)
             ((fun n => truncate n CRON_FIRE_REPLY_MAX_CHARS) <$> if_truthy o.(note)) (cronFireLogReply <$> o.(reply))
             (if_truthy o.(sessionId)))]
        else [] in
      if o.(authzFailed) then (log ++ [OEnable id false], Ok true)
      else (log ++ (if negb (is_some cron.(schedule).(everyMs)) && negb (is_some cron.(schedule).(s_cron)) then [OEnable id false] else []),
            Ok false)
  end.

(** ** Interval mode *)

(** [fireDue] src/src/cron/scheduler.ts:181-184
    The loop over a batch; [outcome] is that of each cron's turn.  An error ends the loop. *)
Fixpoint fire_batch (outcome : Cron -> Outcome) (t : Z) (batch : list (Cron * Z)) (m : M) : result string unit * M :=
  match batch with
  | [] => (Ok tt, m)
  | (cron, n) :: batch =>
      let '(ops, r) := fire_after cron t (slot_key cron.(base).(tb_id) n) (Some n) (outcome cron) in
      let m := foldl (fun m o => exec o m) m ops in
      match r with
      | Throw e => (Throw e, m)
      | Ok authzFailed =>
          if authzFailed : bool then fire_batch outcome t batch m
          else match markFired nextRun validTimezone cron.(base).(tb_id) t (Some n) m with
               | (Throw e, m) => (Throw e, m)
               | (Ok _, m) => fire_batch outcome t batch m
               end
      end
  end.

(** [fireDue] src/src/cron/scheduler.ts:175-185 *)
Definition fireDue (maxFiresPerTick : nat) (outcome : Cron -> Outcome) (t : Z) (m : M) : result string unit * M :=
  match due nextRun validTimezone t m with
  | Throw e => (Throw e, m)
  | Ok l => fire_batch outcome t (take maxFiresPerTick l) m
  end.

(** ** Queue mode *)

(** Where a job is: before it claims its slot, while its turn runs, while it writes down what
    came of it, and before it looks up what to enqueue next. *)
Inductive Job :=
| JClaim (job : CronFireJob) (cron : Cron) (t : Z)
| JRun (job : CronFireJob) (cron : Cron) (t : Z)
| JWrite (job : CronFireJob) (ops : list Op) (andNext : bool)
| JNext (cronId : string)
| JManual (cron : Cron) (t : Z) (key : string).

(** The crons and the jobs in progress. *)
Record Sched := MkSched { crons : M; jobs : jsmap string Job }.

(** What happens: a slot is fired, the store is called, a job is put on the queue. *)
Inductive Event :=
| Fired (cronId : string) (s : Z) (spec_key : string)
| Did (o : Op)
| Enqueued (job : CronFireJob).

Definition set_jobs (js : jsmap string Job) (st : Sched) : Sched := MkSched st.(crons) js.
Definition call (o : Op) (st : Sched) : Sched := MkSched (exec o st.(crons)) st.(jobs).
Definition done_job (tid : string) (st : Sched) : Sched := set_jobs (delete tid st.(jobs)) st.

(** [enqueueNext] src/src/cron/scheduler.ts:205-210
    It reads the cron and hands its slot to the queue in one go; a schedule that cannot be
    read is an error that the callers log. *)
Definition enqueueNext (cronId : string) (st : Sched) : list Event :=
  match dm_get cronId st.(crons) with
  | None => []
  | Some cron =>
      if asleep cron then []
      else match slot cron with
           | Ok (Some s) => [Enqueued (MkJob cronId s)]
           | _ => []
           end
  end.

(** [fireJob] src/src/cron/scheduler.ts:212-221
    Up to the claim. *)
Definition job_begin (now : Z) (tid : string) (job : CronFireJob) (st : Sched) : list Event * Sched :=
  match dm_get job.(j_cronId) st.(crons) with
  | None => ([], st)
  | Some cron =>
      if asleep cron then ([], st)
      else match slot cron with
           | Throw _ => ([], st)
           | Ok s =>
               if s !== Some job.(j_scheduledAt) then ([], st)
               else if now <? job.(j_scheduledAt) then ([Enqueued job], st)
               else ([], set_jobs (<[tid := JClaim job cron now]> st.(jobs)) st)
           end
  end.

(** [fireJob] src/src/cron/scheduler.ts:222-224
    The claim, and the start of the turn. *)
Definition job_claim (tid : string) (st : Sched) : list Event * Sched :=
  match st.(jobs) !! tid with
  | Some (JClaim job cron t) =>
      let s := job.(j_scheduledAt) in
      let '(r, m) := claimSlot nextRun validTimezone job.(j_cronId) s t st.(crons) in
      let st' := MkSched m st.(jobs) in
      let claim := Did (OClaim job.(j_cronId) s t) in
      match r with
      | Ok true => ([claim; Fired job.(j_cronId) s (slot_key cron.(base).(tb_id) s)],
                    set_jobs (<[tid := JRun job cron t]> st.(jobs)) st')
      | _ => ([claim], done_job tid st')
      end
  | _ => ([], st)
  end.

(** [fireJob] src/src/cron/scheduler.ts:223-234
    The calls of the store that follow the turn, and whether the next slot is enqueued. *)
Definition outcome_ops (job : CronFireJob) (cron : Cron) (t : Z) (o : Outcome) : list Op * bool :=
  let s := job.(j_scheduledAt) in
  let '(ops, r) := fire_after cron t (slot_key cron.(base).(tb_id) s) (Some s) o in
  match r with
  | Ok false => (ops, true)
  | _ => (ops ++ [OUnclaim job.(j_cronId) s t cron.(base).(lastFiredAt)], false)
  end.
(** [fireJob] src/src/cron/scheduler.ts:223-234
    The turn is over. *)
Definition job_outcome (tid : string) (o : Outcome) (st : Sched) : list Event * Sched :=
  match st.(jobs) !! tid with
  | Some (JRun job cron t) =>
      let '(ops, andNext) := outcome_ops job cron t o in
      ([], set_jobs (<[tid := JWrite job ops andNext]> st.(jobs)) st)
  | _ => ([], st)
  end.

(** [runNow] src/src/cron/scheduler.ts:267-271
    A firing by hand has a key of its own and leaves the slot alone. *)
Definition run_now (now : Z) (tid uuid cronId : string) (st : Sched) : list Event * Sched :=
  match dm_get cronId st.(crons) with
  | None => ([], st)
  | Some cron =>
      if asleep cron then ([], st)
      else ([], set_jobs (<[tid := JManual cron now ("cron:" +:+ cron.(base).(tb_id) +:+ ":manual:" +:+ uuid)]> st.(jobs)) st)
  end.
(** [runNow] src/src/cron/scheduler.ts:270-270 *)
Definition manual_outcome (tid : string) (o : Outcome) (st : Sched) : list Event * Sched :=
  match st.(jobs) !! tid with
  | Some (JManual cron t key) =>
      let id := cron.(base).(tb_id) in
      ([], set_jobs (<[tid := JWrite (MkJob id 0) (fire_after cron t key None o).1 false]> st.(jobs)) st)
  | _ => ([], st)
  end.

(** The next call of the store of a job that writes down its outcome, and then what follows. *)
Definition job_write (tid : string) (st : Sched) : list Event * Sched :=
  match st.(jobs) !! tid with
  | Some (JWrite job (o :: ops) andNext) => ([Did o], call o (set_jobs (<[tid := JWrite job ops andNext]> st.(jobs)) st))
  | Some (JWrite job [] true) => ([], set_jobs (<[tid := JNext job.(j_cronId)]> st.(jobs)) st)
  | Some (JWrite job [] false) => ([], done_job tid st)
  | Some (JNext id) => (enqueueNext id st, done_job tid st)
  | _ => ([], st)
  end.

(** [reconcile] src/src/cron/scheduler.ts:237-246
    Every cron that is awake is put on the queue at its slot; an error stops it. *)
Fixpoint reconcile_rows (rows : list Cron) : list Event :=
  match rows with
  | [] => []
  | cron :: rows =>
      if asleep cron then reconcile_rows rows
      else match slot cron with
           | Throw _ => []
           | Ok (Some s) => Enqueued (MkJob cron.(base).(tb_id) s) :: reconcile_rows rows
           | Ok None => reconcile_rows rows
           end
  end.
(** [reconcile] src/src/cron/scheduler.ts:237-246 *)
Definition reconcile (st : Sched) : list Event := reconcile_rows (dm_all st.(crons)).

(** One stretch of some job, or a call of the cron store by anybody else. *)
Inductive Step :=
| SJob (now : Z) (tid : string) (job : CronFireJob)
| SClaim (tid : string)
| SOutcome (tid : string) (o : Outcome)
| SWrite (tid : string)
| SNow (now : Z) (tid uuid cronId : string)
| SManual (tid : string) (o : Outcome)
| SNotify (cronId : string)
| SReconcile
| SOther (o : Op).

Definition do_step (s : Step) (st : Sched) : list Event * Sched :=
  match s with
  | SJob now tid job => job_begin now tid job st
  | SClaim tid => job_claim tid st
  | SOutcome tid o => job_outcome tid o st
  | SWrite tid => job_write tid st
  | SNow now tid uuid id => run_now now tid uuid id st
  | SManual tid o => manual_outcome tid o st
  | SNotify id => (enqueueNext id st, st)
  | SReconcile => (reconcile st, st)
  | SOther o => ([Did o], call o st)
  end.
Definition sched_run (steps : list Step) (acc : list Event * Sched) : list Event * Sched :=
  foldl (fun acc s => let '(evs, st) := do_step s acc.2 in (acc.1 ++ evs, st)) acc steps.

(** ** Properties *)

Context `{!DurableMapLaws M Cron}.
Hypothesis nextRun_after : forall expr tz t n, nextRun expr tz t = Ok (Some n) -> t < n.

Abbreviation row_past := (row_past nextRun validTimezone).

Lemma rearms_dec id s o : rearms id s o \/ ~ rearms id s o.
Proof.
  assert (H : forall sch : option Z, (exists t, sch = Some t /\ t < s) \/ ~ (exists t, sch = Some t /\ t < s)).
  { intros [t|]; [|right; by intros (? & ? & _)]. destruct (Z_lt_dec t s); [left; eauto|right; intros (? & [= <-] & ?); lia]. }
  assert (Hi : forall i : string, i = id \/ i <> id) by (intros i; destruct (decide (i = id)); auto).
  destruct o as [now i|now i p|i|i b|i d|i rc|i e|i at_ sch|i t at_|i t at_ pr]; simpl; try (right; tauto).
  - destruct (Hi i), (pa_schedule p); [left|right|right|right]; naive_solver.
  - apply Hi.
  - destruct (Hi i), (H sch), (Z_lt_dec at_ s); tauto.
  - destruct (Hi i), (Z_lt_dec at_ t); tauto.
  - apply Hi.
Qed.

(** [evs] accounts for what happened to a slot since it fired last. *)
Definition accounted (evs : list Event) (m : M) : Prop :=
  forall id s e1 k e2, evs = e1 ++ Fired id s k :: e2 -> (exists o, Did o ∈ e2 /\ rearms id s o) \/ row_past id s m.
Definition fires_once (evs : list Event) : Prop :=
  forall id s e1 k e2 k' e3, evs = e1 ++ Fired id s k :: e2 ++ Fired id s k' :: e3 -> exists o, Did o ∈ e2 /\ rearms id s o.
Record sched_ok (evs : list Event) (st : Sched) : Prop := {
  sk_accounted : accounted evs st.(crons);
  sk_once : fires_once evs;
  sk_claims tid job cron t : st.(jobs) !! tid = Some (JClaim job cron t) -> j_scheduledAt job <= t;
}.

Lemma snoc_split {A} (evs e1 e2 : list A) e x :
  evs ++ [e] = e1 ++ x :: e2 -> (e2 = [] /\ e = x /\ e1 = evs) \/ exists e2', e2 = e2' ++ [e] /\ evs = e1 ++ x :: e2'.
Proof.
  destruct e2 as [|y e2 _] using rev_ind; intros H.
  - apply app_inj_tail in H as [-> ->]. by left.
  - rewrite app_comm_cons, app_assoc in H. apply app_inj_tail in H as [-> ->]. right. by exists e2.
Qed.

(** An event that is no firing, with what it does to the crons. *)
Lemma sched_quiet evs st e m :
  sched_ok evs st -> (forall id s k, e <> Fired id s k) ->
  (forall id s, (forall o, e = Did o -> ~ rearms id s o) -> row_past id s st.(crons) -> row_past id s m) ->
  sched_ok (evs ++ [e]) (MkSched m st.(jobs)).
Proof.
  intros [H1 H2 H3] He Hm. split; [| |done].
  - intros id s e1 k e2 [(_ & -> & _)|(e2' & -> & ->)]%snoc_split; [by destruct (He id s k)|].
    destruct (H1 _ _ _ _ _ eq_refl) as [(o & Ho & Hr)|Hp]; [left; exists o; set_solver|].
    destruct e as [|o|job]; [by destruct (He cronId s0 spec_key)| |right; by apply Hm].
    destruct (rearms_dec id s o) as [Hr|Hr]; [left; exists o; set_solver|right].
    apply Hm; [by intros ? [= <-]|done].
  - intros id s e1 k e2 k' e3 H.
    replace (e1 ++ Fired id s k :: e2 ++ Fired id s k' :: e3) with ((e1 ++ Fired id s k :: e2) ++ Fired id s k' :: e3) in H
      by (by rewrite <- app_assoc).
    apply snoc_split in H as [(_ & -> & _)|(e3' & -> & H)]; [by destruct (He id s k')|].
    apply (H2 id s e1 k e2 k' e3'). by rewrite H, <- app_assoc.
Qed.

Lemma sched_fired evs st id s k :
  sched_ok evs st -> row_past id s st.(crons) -> (forall e1 k' e2, evs = e1 ++ Fired id s k' :: e2 -> exists o, Did o ∈ e2 /\ rearms id s o) ->
  sched_ok (evs ++ [Fired id s k]) st.
Proof.
  intros [H1 H2 H3] Hp Hr. split; [| |done].
  - intros id' s' e1 k' e2 [(_ & [= -> -> ->] & _)|(e2' & -> & ->)]%snoc_split; [by right|].
    destruct (H1 _ _ _ _ _ eq_refl) as [(o & Ho & Hro)|Hpo]; [left; exists o; set_solver|by right].
  - intros id' s' e1 k' e2 k'' e3 H.
    replace (e1 ++ Fired id' s' k' :: e2 ++ Fired id' s' k'' :: e3) with ((e1 ++ Fired id' s' k' :: e2) ++ Fired id' s' k'' :: e3) in H
      by (by rewrite <- app_assoc).
    apply snoc_split in H as [(_ & [= <- <- <-] & Heq)|(e3' & -> & H)]; [exact (Hr _ _ _ (eq_sym Heq))|].
    apply (H2 id' s' e1 k' e2 k'' e3'). by rewrite H, <- app_assoc.
Qed.

(** Jobs come and go without touching the crons. *)
Lemma sched_jobs evs st js :
  sched_ok evs st -> (forall tid job cron t, js !! tid = Some (JClaim job cron t) -> j_scheduledAt job <= t) ->
  sched_ok evs (set_jobs js st).
Proof. intros [H1 H2 H3] Hj. by split. Qed.
Lemma claims_set evs st tid j :
  sched_ok evs st -> (forall job cron t, j = JClaim job cron t -> j_scheduledAt job <= t) ->
  forall tid' job cron t, <[tid := j]> st.(jobs) !! tid' = Some (JClaim job cron t) -> j_scheduledAt job <= t.
Proof. intros Hok Hj tid' job cron t. rewrite lookup_set. case_decide; [intros [= ->]; by eapply Hj|apply (sk_claims _ _ Hok)]. Qed.
Lemma claims_del evs st tid :
  sched_ok evs st -> forall tid' job cron t, delete tid st.(jobs) !! tid' = Some (JClaim job cron t) -> j_scheduledAt job <= t.
Proof. intros Hok tid' job cron t. rewrite lookup_del. case_decide; [done|apply (sk_claims _ _ Hok)]. Qed.

Lemma sched_did evs st o : sched_ok evs st -> sched_ok (evs ++ [Did o]) (call o st).
Proof.
  intros Hok. unfold call. apply sched_quiet; [done|done|]. intros id s Hr. apply (exec_past _ _ _ nextRun_after).
  by apply Hr.
Qed.
Lemma sched_enqueued evs st l : sched_ok evs st -> (forall e, e ∈ l -> exists job, e = Enqueued job) -> sched_ok (evs ++ l) st.
Proof.
  revert evs. induction l as [|e l IH]; intros evs Hok Hl; [by rewrite app_nil_r|].
  replace (evs ++ e :: l) with ((evs ++ [e]) ++ l) by (by rewrite <- app_assoc).
  apply IH; [|intros e' ?; apply Hl; by right]. destruct (Hl e ltac:(left)) as [job ->]. destruct st as [m js].
  by apply (sched_quiet evs (MkSched m js)).
Qed.
Lemma enqueueNext_shape id st e : e ∈ enqueueNext id st -> exists job, e = Enqueued job.
Proof.
  unfold enqueueNext. destruct (dm_get id _) as [c|]; [|by intros ?%not_elem_of_nil].
  destruct (asleep c); [by intros ?%not_elem_of_nil|]. destruct (slot c) as [[s|]|]; [|by intros ?%not_elem_of_nil..].
  intros ->%list_elem_of_singleton. eauto.
Qed.
Lemma reconcile_shape rows e : e ∈ reconcile_rows rows -> exists job, e = Enqueued job.
Proof.
  induction rows as [|c rows IH]; simpl; [by intros ?%not_elem_of_nil|]. destruct (asleep c); [done|].
  destruct (slot c) as [[s|]|]; [|done|by intros ?%not_elem_of_nil]. intros [->|?]%elem_of_cons; eauto.
Qed.

Lemma sched_claim evs st tid : sched_ok evs st -> sched_ok (evs ++ (job_claim tid st).1) (job_claim tid st).2.
Proof.
  intros Hok. unfold job_claim. destruct (jobs st !! tid) as [j|] eqn:Ej; [|by rewrite app_nil_r].
  destruct j as [job cron t|job cron t|job ops b|id|cron t key]; try (by rewrite app_nil_r).
  pose proof (sk_claims _ _ Hok _ _ _ _ Ej) as Ht.
  pose proof (sched_did evs st (OClaim (j_cronId job) (j_scheduledAt job) t) Hok) as Hdid. unfold call in Hdid. simpl in Hdid.
  destruct (claimSlot nextRun validTimezone (j_cronId job) (j_scheduledAt job) t (crons st)) as [r m] eqn:Ec.
  cbn [snd] in Hdid. destruct r as [[]|e].
  2, 3: eapply (sched_jobs _ (MkSched m (jobs st))); [done|by eapply claims_del].
  cbn [fst snd]. replace (evs ++ [_; _]) with ((evs ++ [Did (OClaim (j_cronId job) (j_scheduledAt job) t)]) ++
    [Fired (j_cronId job) (j_scheduledAt job) (slot_key (tb_id (base cron)) (j_scheduledAt job))]) by (by rewrite <- app_assoc).
  apply (sched_jobs _ (MkSched m (jobs st))); [|eapply (claims_set _ (MkSched m (jobs st))); [exact Hdid|done]].
  apply sched_fired; [done|by eapply (claim_past _ _ nextRun_after)|]. intros e1 k' e2 Heq.
  apply snoc_split in Heq as [(_ & ? & _)|(e2' & -> & ->)]; [done|].
  destruct (sk_accounted _ _ Hok _ _ _ _ _ eq_refl) as [(o & Ho & Hr)|Hp]; [exists o; set_solver|].
  pose proof (past_unclaimable nextRun validTimezone _ _ t _ Hp) as Hn. by rewrite Ec in Hn.
Qed.

Lemma sched_step evs st x : sched_ok evs st -> sched_ok (evs ++ (do_step x st).1) (do_step x st).2.
Proof.
  intros Hok. destruct x as [now tid job|tid|tid o|tid|now tid uuid id|tid o|id| |o]; cbn [do_step].
  - unfold job_begin. destruct (dm_get _ _) as [c|]; [|by rewrite app_nil_r]. destruct (asleep c); [by rewrite app_nil_r|].
    destruct (slot c) as [s|]; [|by rewrite app_nil_r]. destruct (negb _); [by rewrite app_nil_r|].
    destruct (_ <? _) eqn:El; [apply sched_enqueued; [done|]; intros e ->%list_elem_of_singleton; eauto|].
    to_prop. rewrite app_nil_r; apply sched_jobs; [done|]. eapply claims_set; [done|]. by intros ? ? ? [= -> -> ->].
  - by apply sched_claim.
  - unfold job_outcome. destruct (jobs st !! tid) as [[]|]; try (by rewrite app_nil_r).
    destruct (outcome_ops _ _ _ _) as [ops r]. rewrite app_nil_r; apply sched_jobs; [done|]. by eapply claims_set.
  - unfold job_write. destruct (jobs st !! tid) as [[| |job [|o ops] []| |]|]; try (by rewrite app_nil_r).
    + rewrite app_nil_r; apply sched_jobs; [done|]. by eapply claims_set.
    + rewrite app_nil_r; apply sched_jobs; [done|]. by eapply claims_del.
    + apply sched_did, sched_jobs; [done|]. by eapply claims_set.
    + apply sched_did, sched_jobs; [done|]. by eapply claims_set.
    + apply sched_enqueued; [|apply enqueueNext_shape]. apply sched_jobs; [done|]. by eapply claims_del.
  - unfold run_now. destruct (dm_get _ _) as [c|]; [|by rewrite app_nil_r]. destruct (asleep c); [by rewrite app_nil_r|].
    rewrite app_nil_r; apply sched_jobs; [done|]. by eapply claims_set.
  - unfold manual_outcome. destruct (jobs st !! tid) as [[]|]; try (by rewrite app_nil_r).
    rewrite app_nil_r; apply sched_jobs; [done|]. by eapply claims_set.
  - apply sched_enqueued; [done|]. apply enqueueNext_shape.
  - apply sched_enqueued; [done|]. apply reconcile_shape.
  - by apply sched_did.
Qed.

Lemma sched_ok_run steps acc : sched_ok acc.1 acc.2 -> sched_ok (sched_run steps acc).1
  (sched_run steps acc).2.
Proof.
  revert acc. induction steps as [|x steps IH]; intros [evs st] Hok; [done|]. cbn [sched_run foldl fst snd] in *.
  pose proof (sched_step evs st x Hok) as H. destruct (do_step x st) as [e st']. by apply (IH (evs ++ e, st')).
Qed.

(** C31: a slot fires once.  However the jobs of the queue, firings by hand, reconciliations and
    everybody else's changes to the crons interleave: between two firings of one slot of a
    cron the cron was rescheduled or deleted, or the slot given back, marked or claimed ahead
    of its time. *)
Theorem queue_fires_once m steps id s k k' e1 e2 e3 :
  (sched_run steps ([], MkSched m ∅)).1 = e1 ++ Fired id s k :: e2 ++ Fired id s k' :: e3 ->
  exists o, Did o ∈ e2 /\ rearms id s o.
Proof.
  assert (H0 : sched_ok [] (MkSched m ∅)).
  { split; [by intros ? ? []|by intros ? ? []|]. intros tid job cron t. simpl. by rewrite lookup_empty_jsmap. }
  intros H. by eapply (sk_once _ _ (sched_ok_run steps ([], MkSched m ∅) H0)).
Qed.

(** *** What a firing leaves behind *)

Lemma addEntry_logged e c : exists x l, fireLog (addEntry e c) = Some l /\ x ∈ l /\ Cron.fireKey x = Cron.fireKey e.
Proof.
  unfold addEntry. cbv zeta. set (byKey := new_map _). set (x := merge_fire _ e). exists x. eexists.
  split; [done|]. split; [|done]. apply elem_of_js_sort, elem_of_values. exists (Cron.fireKey e). by rewrite lookup_set_eq.
Qed.
(** The log aside, a cron is as it was. *)
Definition same_but_log (c c' : Cron) : Prop := c' = c <| fireLog := fireLog c' |>.
Definition logged (key : string) (c : Cron) : Prop := exists x l, fireLog c = Some l /\ x ∈ l /\ Cron.fireKey x = key.

(** The calls of the store that follow a turn all touch one row, and what they make of it. *)
Definition row_op (o : Op) (c : Cron) : Cron :=
  match o with
  | OFire _ e => addEntry e c
  | OEnable _ b => let c := set_base (fun t => t <| enabled := b |>) c in if b then c <| archived := false |> else c
  | OUnclaim _ s t p => restore_slot s t p c
  | _ => c
  end.
Definition op_on (id : string) (o : Op) : Prop :=
  match o with OFire i _ | OEnable i _ | OUnclaim i _ _ _ => i = id | _ => False end.

Lemma row_ops id ops m c :
  Forall (op_on id) ops -> dm_get id m = Some c ->
  dm_get id (foldl (fun m o => exec o m) m ops) = Some (foldl (fun c o => row_op o c) c ops) /\
  forall k, k <> id -> dm_get k (foldl (fun m o => exec o m) m ops) = dm_get k m.
Proof.
  intros Hops. revert m c. induction Hops as [|o ops Ho _ IH]; intros m c Hc; [done|]. cbn [foldl].
  assert (H : dm_get id (exec o m) = Some (row_op o c) /\ forall k, k <> id -> dm_get k (exec o m) = dm_get k m).
  { destruct o as [now i|now i p|i|i b|i d|i rc|i e|i at_ sch|i t at_|i t at_ pr]; try done; simpl in Ho; subst i; simpl;
      unfold setEnabled, recordFire, unclaimSlot, dm_merge, dm_update; rewrite Hc; simpl; (split; [by rewrite dm_get_put_eq|]);
      intros k Hk; by rewrite dm_get_put_ne. }
  destruct H as [H1 H2]. destruct (IH _ _ H1) as [H3 H4]. split; [done|]. intros k Hk. by rewrite H4, H2.
Qed.

(** What the turn's outcome leaves of a cron [c] that fired at [t] for slot [s] with the claim
    [c1]: [c'] and whether the job goes on to enqueue the next slot. *)
Definition settled (c c1 c' : Cron) (s t : Z) (key : string) (o : Outcome) : Prop :=
  match o with
  | Throw _ => logged key c' /\ same_but_log (c <| nextFireAt := Some s |>) c'
  | Ok o =>
      (ran o = true \/ authzFailed o = true -> logged key c') /\
      if authzFailed o then same_but_log (set_base (fun b => b <| enabled := false |>) c <| nextFireAt := Some s |>) c'
      else if is_some (everyMs (schedule c)) || is_some (s_cron (schedule c)) then same_but_log c1 c'
      else same_but_log (set_base (fun b => b <| enabled := false |>) c1) c'
  end.

Lemma logged_by_fire e c c' : fireLog c' = fireLog (addEntry e c) -> logged (Cron.fireKey e) c'.
Proof. intros H. destruct (addEntry_logged e c) as (x & l & Hl & Hx). exists x, l. by rewrite H. Qed.

Lemma addEntry_log e c : exists l, addEntry e c = c <| fireLog := l |> /\ logged (Cron.fireKey e) (addEntry e c).
Proof.
  exists (fireLog (addEntry e c)). split; [by destruct c|].
  destruct (addEntry_logged e c) as (x & l & Hl & Hx & Hk). by exists x, l.
Qed.

(** The claim of a cron, and what the calls after its turn make of the row. *)
Definition claimed (c : Cron) (t : Z) (next : option Z) : Cron :=
  set_base (fun b => b <| lastFiredAt := Some t |>) c <| nextFireAt := next |>.
Lemma fold_settled c s t next o id :
  tb_id (base c) = id ->
  settled c (claimed c t next) (foldl (fun c o => row_op o c) (claimed c t next) (outcome_ops (MkJob id s) c t o).1) s t (slot_key id s) o.
Proof.
  intros Hid. unfold outcome_ops, fire_after, settled. rewrite Hid. cbn [j_scheduledAt j_cronId].
  destruct o as [o|e]; cbn [fst snd app].
  - destruct (authzFailed o) eqn:Ea.
    + rewrite orb_true_r. cbn [app fst foldl row_op]. match goal with |- context [addEntry ?e ?x] => destruct (addEntry_log e x) as (l & Hl & Hlog) end.
      rewrite Hl in *. destruct c as [[] ? ? ? ? ? ? ? ? ?]. unfold restore_slot. simpl. rewrite eqb_refl. simpl.
      split; [intros _; exact Hlog|done].
    + rewrite orb_false_r. destruct (ran o).
      * cbn [app fst foldl row_op]. match goal with |- context [addEntry ?e ?x] => destruct (addEntry_log e x) as (l & Hl & Hlog) end.
        rewrite Hl in *. destruct c as [[] [[] ? [] ?] ? ? ? ? ? ? ? ?]; simpl; (split; [intros _; exact Hlog|done]).
      * split; [by intros []|]. by destruct c as [[] [[] ? [] ?] ? ? ? ? ? ? ? ?].
  - cbn [foldl row_op app]. match goal with |- context [addEntry ?e ?x] => destruct (addEntry_log e x) as (l & Hl & Hlog) end.
    rewrite Hl in *. destruct c as [[] ? ? ? ? ? ? ? ? ?]. unfold restore_slot. simpl. rewrite eqb_refl. simpl.
    split; [exact Hlog|done].
Qed.

Lemma outcome_ops_on id s c t o : tb_id (base c) = id -> Forall (op_on id) (outcome_ops (MkJob id s) c t o).1.
Proof.
  intros Hid. unfold outcome_ops, fire_after. rewrite Hid. destruct o as [o|e]; [|by repeat constructor].
  destruct (ran o || authzFailed o), (authzFailed o); try (by repeat constructor);
    destruct (negb (is_some (everyMs (schedule c))) && _); by repeat constructor.
Qed.
Lemma outcome_ops_next job c t o : (outcome_ops job c t o).2 = true <-> exists out, o = Ok out /\ authzFailed out = false.
Proof.
  unfold outcome_ops, fire_after. destruct o as [o|e]; simpl; [|by split; [|intros (? & ? & _)]].
  destruct (authzFailed o) eqn:Ea; simpl; split; try done; [by intros (? & [= <-] & ?); congruence|eauto].
Qed.

(** A claimed slot is settled by its outcome.  When nobody else interferes, the calls that
    follow a turn leave every other cron alone and this one as follows: after an error the slot
    is given back, armed as before, and the failure is in the log; so it is after a failed
    authorisation, which also puts the cron to sleep; otherwise the claim stands, what ran is in
    the log, and a cron without a recurring schedule is put to sleep.  The next slot is enqueued
    in the last case only. *)
Theorem job_settles id c s t m m' o :
  dm_get id m = Some c -> tb_id (base c) = id -> claimSlot nextRun validTimezone id s t m = (Ok true, m') ->
  exists c1 c', dm_get id m' = Some c1 /\ lastFiredAt (base c1) = Some t /\
    let m'' := foldl (fun m o => exec o m) m' (outcome_ops (MkJob id s) c t o).1 in
    dm_get id m'' = Some c' /\ settled c c1 c' s t (slot_key id s) o /\
    (forall k, k <> id -> dm_get k m'' = dm_get k m) /\
    ((outcome_ops (MkJob id s) c t o).2 = true <-> exists out, o = Ok out /\ authzFailed out = false).
Proof.
  intros Hc Hid Hcl. unfold claimSlot in Hcl. rewrite Hc in Hcl.
  destruct (claim_transform nextRun validTimezone s t c) as [[[] c1]|] eqn:Et; try done. injection Hcl as <-.
  apply claim_transform_true in Et as (_ & _ & _ & next & _ & _ & ->). fold (claimed c t next).
  assert (H1 : dm_get id (dm_put id (claimed c t next) m) = Some (claimed c t next)) by apply dm_get_put_eq.
  destruct (row_ops id _ _ _ (outcome_ops_on id s c t o Hid) H1) as [H2 H3].
  eexists (claimed c t next), _. split; [done|]. split; [by destruct c as [[] ? ? ? ? ? ? ? ? ?]|]. cbv zeta.
  split; [exact H2|]. split; [by apply fold_settled|]. split; [|apply outcome_ops_next].
  intros k Hk. by rewrite H3, dm_get_put_ne.
Qed.

(** In interval mode one failing cron holds up those behind it: when the turn of the first cron
    that is due fails with an error, the tick ends, no other cron changes, and the failing one
    has only its log to show for it, so it is first again at the next tick. *)
Theorem fireDue_blocked max outcome t m c n rest e :
  due nextRun validTimezone t m = Ok ((c, n) :: rest) -> outcome c = Throw e ->
  exists m', fireDue (S max) outcome t m = (Throw e, m') /\ (forall k, k <> tb_id (base c) -> dm_get k m' = dm_get k m) /\
    forall c0, dm_get (tb_id (base c)) m = Some c0 -> exists c', dm_get (tb_id (base c)) m' = Some c' /\ same_but_log c0 c'.
Proof.
  intros Hd Ho. unfold fireDue. rewrite Hd. cbn [take fire_batch]. unfold fire_after. rewrite Ho. cbn [foldl].
  set (id := tb_id (base c)). set (entry := MkFire _ _ _ _ _ _ _ _). eexists. split; [done|].
  simpl. unfold recordFire, dm_update. destruct (dm_get id m) as [c0|] eqn:Ec; simpl; [|done]. split.
  - intros k Hk. by rewrite dm_get_put_ne.
  - intros ? [= <-]. rewrite dm_get_put_eq. eexists. split; [done|]. destruct (addEntry_log entry c0) as (l & Hl & _).
    unfold same_but_log. rewrite Hl. by destruct c0.
Qed.
End scheduler.

(** ** Examples *)

Definition demo_hash (parts : list string) (len : Z) : string := "h".
Definition demo_content (i : CreateCronInput) (title : option string) : string := "c1".
Definition demo_ok : Outcome := Ok (MkOutcome false true (Some ts_ok) None (Some "done") None).
Definition demo_queue_steps : list Step :=
  [SJob 60005 "t1" (MkJob "c1" 60000); SJob 60006 "t2" (MkJob "c1" 60000); SClaim "t2"; SClaim "t1"; SOutcome "t2" (Throw "boom");
   SWrite "t2"; SWrite "t2"; SWrite "t2"; SJob 60010 "t3" (MkJob "c1" 60000); SClaim "t3"; SOutcome "t3" demo_ok; SWrite "t3";
   SWrite "t3"; SWrite "t3"].

Definition demo_failed : Op :=
  OFire "c1" (MkFire "cron:c1:60000" "cron:c1:fire:h" 60006 (Some 60000) (Some ts_failed) (Some "boom") None None).
Definition demo_done : Op :=
  OFire "c1" (MkFire "cron:c1:60000" "cron:c1:fire:h" 60010 (Some 60000) (Some ts_ok) None (Some "done") None).
Definition demo_between : list Event :=
  [Did (OClaim "c1" 60000 60005); Did demo_failed; Did (OUnclaim "c1" 60000 60006 None); Did (OClaim "c1" 60000 60010)].

(** Two jobs race for a slot; the winner's turn fails and gives it back; a third fires it. *)
Lemma queue_fires_once_witness :
  (sched_run demo_next (fun _ => true) demo_content demo_hash demo_queue_steps ([], MkSched demo_crons ∅)).1 = [Did (OClaim "c1" 60000 60006)] ++ Fired "c1" 60000 "cron:c1:60000" :: demo_between ++
    Fired "c1" 60000 "cron:c1:60000" :: [Did demo_done; Enqueued (MkJob "c1" 120000)] /\
  exists o, Did o ∈ demo_between /\ rearms "c1" 60000 o.
Proof.
  assert (H : (sched_run demo_next (fun _ => true) demo_content demo_hash demo_queue_steps ([], MkSched demo_crons ∅)).1 = [Did (OClaim "c1" 60000 60006)] ++ Fired "c1" 60000 "cron:c1:60000" :: demo_between ++
    Fired "c1" 60000 "cron:c1:60000" :: [Did demo_done; Enqueued (MkJob "c1" 120000)]) by (vm_compute; reflexivity).
  split; [exact H|].
  exact (queue_fires_once demo_next (fun _ => true) demo_content demo_hash demo_next_after demo_crons demo_queue_steps "c1" 60000
    "cron:c1:60000" "cron:c1:60000" [Did (OClaim "c1" 60000 60006)] demo_between [Did demo_done; Enqueued (MkJob "c1" 120000)] H).
Defined.

Definition demo_every : Cron := demo_cron (MkSchedule (Some "* * * * *") (Some "UTC") None None) (Some 60000).
Lemma job_settles_witness :
  exists c1 c', dm_get "c1" (claimSlot demo_next (fun _ => true) "c1" 60000 60006 demo_crons).2 = Some c1 /\
    lastFiredAt (base c1) = Some 60006 /\ settled demo_every c1 c' 60000 60006 "cron:c1:60000" (Throw "boom").
Proof.
  destruct (job_settles demo_next (fun _ => true) demo_content demo_hash "c1" demo_every 60000 60006 demo_crons
    (claimSlot demo_next (fun _ => true) "c1" 60000 60006 demo_crons).2 (Throw "boom"))
    as (c1 & c' & H1 & H2 & _ & H3 & _); [vm_compute; reflexivity|reflexivity|vm_compute; reflexivity|].
  exists c1, c'. split; [exact H1|]. split; [exact H2|]. exact H3.
Defined.

Lemma fireDue_blocked_witness :
  exists m', fireDue demo_next (fun _ => true) demo_content demo_hash 100 (fun _ => Throw "boom") 60001 demo_crons = (Throw "boom", m').
Proof.
  destruct (fireDue_blocked demo_next (fun _ => true) demo_content demo_hash 99 (fun _ => Throw "boom") 60001 demo_crons
    demo_every 60000 [] "boom") as (m' & H & _); [vm_compute; reflexivity|reflexivity|].
  exists m'. exact H.
Defined.
